(* ===== verification/_CoqProject ===== *)
-Q . S2P
Prelude.v
Text.v
BTree.v
Json.v
F64.v
Quantity.v
Store.v
ApiError.v
Codec.v
Storage.v
Etcd.v
WatchCache.v
WatchFanout.v
Rbac.v
Escalation.v
RbacRequest.v
Rollout.v
Backoff.v
Selector.v
Taint.v
Node.v
PodResources.v
Filter.v
Preemption.v
Informer.v
Owned.v
Client.v
Gc.v
ReplicaSet.v
Namespace.v
Deployment.v
StatefulSet.v
Job.v
DaemonSet.v
VolumeBinder.v
SchedState.v
Schedule.v
WorkQueue.v
Lease.v
LeaderElection.v
Cron.v
CronJob.v
Quota.v
QuotaRecount.v
WatchStream.v
LimitRanger.v
Schema.v
Hpa.v
HpaV1.v
Effect.v
Evict.v
Admission.v
ServiceAlloc.v
Endpoints.v
Generation.v
Handlers.v
Patch.v
Apply.v
AdmitCreate.v
Create.v
