(* ===== verification/Prelude.v ===== *)
(** * RustKube: a verification of its control plane

    RustKube is a Kubernetes control plane in Rust: an API server that keeps
    JSON objects in a key-value store (etcd), a controller manager and a
    scheduler that watch those objects and write them back.  This library
    translates the parts that carry its own logic into Rocq functions and
    proves what makes them correct.  Paths below are relative to the
    repository.

    ** How the parts interact

    Every component reads and writes objects through the API server.  A
    request is authorized ([rbac_engine.rs]), admitted ([builtin_admission.rs],
    [limitranger.rs], quotas, Service addresses), and handled
    ([handlers/resource.rs]); the handlers call the storage layer
    ([storage.rs]), which adds and strips the [resourceVersion] and talks to a
    [KvStore] ([apimachinery/store.rs]): the etcd adapter in production, a map
    in memory in the handler tests.  Reads and watches are served from a cache
    fed by one watch of the store ([watch_cache.rs]).  Controllers and the
    scheduler run one leader at a time, elected over a Lease; informers
    ([apimachinery/informer.rs]) keep what they watch, route changes to the
    keys they affect ([owned.rs]) and a deduplicating queue
    ([workqueue.rs]) hands those to workers.  A worker's pass over an object
    is a function of what the informers show and of what the server answers
    to the requests it makes.

    ** Files and what they model

    _Foundations._
    - [Prelude]: results and the [?] operator, machine integers (a [w]-bit
      integer is a [Z]; [+ - *] wrap as in the release profile), stable sorts
      and sums; the hint database [kube].
    - [Text], [BTree], [Json], [F64]: what the code uses of the standard
      library and serde_json: byte strings, ordered maps, JSON values with
      indexing and [IndexMut], IEEE doubles (Stdlib's [SpecFloat]).
    - [Quantity], [Selector], [Taint], [PodResources], [Cron]
      ([apimachinery/quantity.rs], [selector.rs] of both crates, [taint.rs],
      [pod_resources.rs], [cron.rs]).

    _API server_ ([pkg/apiserver], [pkg/storage]).
    - [Store]: the [KvStore] trait as a class, its contract as [KvStoreLaws],
      the in-memory store as an instance; [Etcd]: the adapter over a client
      given by [EtcdLaws], which discharges those laws; [ApiError], [Codec]
      (serde_json's bytes as an interface), [Storage]: keys, reads, paged
      lists, creates, updates, deletes over any store that keeps the laws.
    - [WatchCache], [WatchFanout], [WatchStream]: the cached snapshot and the
      reads it serves, the ring and its watchers as a step relation, the event
      lines of a selector watch.
    - [Rbac], [Escalation], [RbacRequest]: the authorizer with its cache, the
      reviews, the escalation guard, the middleware, impersonation and CSRs.
    - [Quota], [LimitRanger], [Schema], [ServiceAlloc], [Admission],
      [AdmitCreate], [Evict], [Generation]: quota charges, limit ranges,
      custom-resource schemas, Service addresses and ports, the built-in
      rules, evictions under budgets, the generation counter.  [Effect] is the
      monad of the store effects they share.
    - [Handlers], [Patch], [Apply], [Create]: the write paths of
      [handlers/resource.rs]; [HpaV1]: the older autoscaler version.

    _Machinery_ ([pkg/apimachinery], [runner.rs], [owned.rs]).
    - [WorkQueue], [Lease], [LeaderElection]: the queue with its workers, the
      write gate and the term, candidates on an unreliable network.
    - [Informer], [Owned]: the informer's store with its indexes and the
      routes from a change to the keys it wakes; [Client]: the API client and
      the programs controllers are ([Prog]: requests that may be answered
      anything, and notes to the reactor), with its pending creates.

    _Controllers_ ([pkg/controller-manager]): [Backoff], [Rollout] and
    [Deployment], [ReplicaSet] (with the event recorder), [StatefulSet],
    [DaemonSet], [Job], [CronJob], [Node], [Namespace], [Gc],
    [VolumeBinder] (persistent volumes), [Endpoints] (Services and slices),
    [QuotaRecount], [Hpa].

    _Scheduler_ ([pkg/scheduler]): [Filter] (filters and scores),
    [Preemption], [SchedState] (what each node has promised), [Schedule]
    (volume constraints; the decision for a Pod, a virtual machine and a
    migration, as programs).

    A struct is a [Record], an enum an [Inductive] with its variants, a method
    that mutates [self] a function from state to state; a panic is [None] of
    an option and an error a value of [result].  Hash maps are [gmap]s, and
    where the code walks one the order is that of [map_to_list] and the
    theorems do not depend on it.  Clocks, identities, random choices and the
    text of foreign values are arguments.  A controller's pass is a [Prog];
    [exec p t r] says that it can make the trace [t] of requests, answers and
    notes and end with [r], so a theorem over all [t] holds whatever the
    server answers; [play] runs a program on given answers.

    ** What the theorems show

    Each theorem's comment names every condition it is under; an [Example]
    beside it shows what the code does where a condition fails.

    - _Storage and watches_: a create is read back, no update is lost, paging
      lists one snapshot; the adapter refines the abstract store; a read from
      a cache that agrees with the store is a store read, and a watch has no
      gap.
    - _Requests_: the authorizer decides what the roles say (within the page
      it reads), nobody grants by well-typed rules what they do not hold;
      updates swap and deletes wait for finalizers (Services apart), a created
      Pod that no webhook changed has passed every rule, apply respects
      ownership of plainly named fields, patches merge by key, stored custom
      resources fit their schema; quotas are not exceeded, a plan for a
      Service's address and ports claims what it lists or nothing, evictions
      respect budgets by labels; an autoscaler read as v1 and written back is
      what it was.
    - _Leadership and queues_: schedulers have one open gate at a time, and so
      do controller managers as long as no create of the Lease is repeated
      ([LeaderElection.manager_two_leaders] shows that a repeated one breaks
      it); no event is lost, no deadline forgotten; informers refine the watch
      they follow, delayed responses included; while a create is in doubt
      only that create is sent again.
    - _Controllers_: each pass does only what its object calls for, in the
      revision observed, whatever the server answers: rollouts keep their
      floor wherever a pass stops while the statuses are not older than a
      scale-down, ReplicaSets and Jobs stay within their counts, and, with no
      create of an earlier pass open, DaemonSets get one Pod a node,
      StatefulSets stay contiguous and endpoints are the Pods that back the
      Service; cron starts happen once, namespaces are finalized empty, what
      is collected is garbage or part of a foreground deletion, a claim
      follows its volume, quotas are what the namespace holds, replica counts
      stay in their bounds while the arithmetic does not wrap.
    - _Scheduling_: passing the filters is feasibility; usage kept by charging
      is the sum over what is placed; a Pod, a machine or a migration goes to
      the best node that can take it, and claims not bound yet are told;
      preemption makes room on nodes of Pods alone and evicts only the victims
      selected, by UID, on a node the Pod was nominated to.
    - _Values_: round trips and canonical forms of quantities and selectors.

    ** Bounds and fuel

    Loops over lists are structural.  Trimming, printing, chunking and
    searching for a cron start take fuel from the length, the logarithm or the
    range of their argument, and lemmas show that it suffices.  Theorems on
    wrapping arithmetic state the range in which it is exact (for example all
    requests a Pod mentions below 2^64); the scheduler's accounting and the
    quota's sums are proved at their width, without such a bound.

    ** What is not modelled

    HTTP, TLS, certificates and authentication (JWT and X.509 crates), routing,
    discovery documents and tables, protobuf (descriptors generated at build
    time), metrics, start-up, task spawning and logging; webhooks answer over
    the network and are an argument.  The scheduling loop and the reflector
    tasks are modelled by the queue and the informer they drive, not as tasks.
    The virtual machine, gateway, attach/detach, ephemeral-volume and
    stormblock controllers, the compactor, the routes of custom resources and
    the subresource handlers outside [resource.rs] are left out.  Third-party
    code (etcd, chrono, serde_json's text, json_patch) is a parameter with the
    laws it is used by. *)

From stdpp Require Import base gmap strings list numbers option.
From Stdlib Require Import ZArith Lia String Ascii.

Declare Scope kube_scope.
Delimit Scope kube_scope with kube.
Open Scope Z_scope.

(** ** Results: [Result<T, E>] of the source *)

Inductive result (T E : Type) : Type :=
| Ok (x : T)
| Err (e : E).
Arguments Ok {T E} x.
Arguments Err {T E} e.

Definition result_bind {T U E} (r : result T E) (k : T → result U E) : result U E :=
  match r with Ok x => k x | Err e => Err e end.

Definition map_err {T E F} (f : E → F) (r : result T E) : result T F :=
  match r with Ok x => Ok x | Err e => Err (f e) end.

Definition is_ok {T E} (r : result T E) : bool :=
  match r with Ok _ => true | Err _ => false end.

(** The [?] operator. *)
Notation "x '<-?' c ';;' k" := (result_bind c (λ x, k))
  (at level 100, c at next level, right associativity) : kube_scope.

(** ** Machine integers

    A [w]-bit unsigned integer is a [Z] in [[0, 2^w)].  The workspace builds
    its binaries with the release profile and no [overflow-checks], so [+],
    [-] and [*] wrap; the [saturating_*] and [checked_*] methods are written
    out where the code calls them. *)

Definition u32_max : Z := 4294967295.
Definition u64_max : Z := 18446744073709551615.
Definition i64_max : Z := 9223372036854775807.
Definition i64_min : Z := -9223372036854775808.

Definition wrap32 (z : Z) : Z := z mod 4294967296.
Definition wrap64 (z : Z) : Z := z mod 18446744073709551616.
Definition wrap_i64 (z : Z) : Z :=
  (z + 9223372036854775808) mod 18446744073709551616 - 9223372036854775808.

Definition sat_sub (a b : Z) : Z := Z.max 0 (a - b).
Definition sat_add64 (a b : Z) : Z := Z.min u64_max (a + b).

Definition is_u64 (z : Z) : Prop := 0 ≤ z ≤ u64_max.

Lemma wrap64_small z : is_u64 z → wrap64 z = z.
Proof. unfold is_u64, u64_max, wrap64. intros. apply Z.mod_small. lia. Qed.

Lemma wrap64_range z : is_u64 (wrap64 z).
Proof.
  unfold is_u64, u64_max, wrap64.
  pose proof (Z.mod_pos_bound z 18446744073709551616). lia.
Qed.

Lemma wrap64_add_l a b : wrap64 (wrap64 a + b) = wrap64 (a + b).
Proof. unfold wrap64. apply Zplus_mod_idemp_l. Qed.

Lemma wrap64_add_r a b : wrap64 (a + wrap64 b) = wrap64 (a + b).
Proof. unfold wrap64. apply Zplus_mod_idemp_r. Qed.

Lemma wrap64_sub_l a b : wrap64 (wrap64 a - b) = wrap64 (a - b).
Proof. unfold wrap64. apply Zminus_mod_idemp_l. Qed.

Lemma wrap64_idemp a : wrap64 (wrap64 a) = wrap64 a.
Proof. apply wrap64_small, wrap64_range. Qed.

Create HintDb kube.
#[export] Hint Resolve wrap64_range : kube.
#[export] Hint Rewrite wrap64_add_l wrap64_add_r wrap64_sub_l wrap64_idemp : kube.

(** ** Sorting

    [slice::sort_by_key] is stable: an element goes before the first one whose
    key is not smaller, and the elements are inserted from the last. *)

Fixpoint insert_by {A} (key : A → Z) (x : A) (l : list A) : list A :=
  match l with
  | [] => [x]
  | y :: l' => if key x <=? key y then x :: l else y :: insert_by key x l'
  end.

Definition sort_by_key {A} (key : A → Z) (l : list A) : list A := foldr (insert_by key) [] l.

Lemma insert_by_perm {A} (key : A → Z) x l : insert_by key x l ≡ₚ x :: l.
Proof.
  induction l as [|y l IH]; simpl; [done|]. destruct (key x <=? key y); [done|].
  rewrite IH. constructor.
Qed.

Lemma sort_by_key_perm {A} (key : A → Z) l : sort_by_key key l ≡ₚ l.
Proof. induction l as [|x l IH]; simpl; [done|]. by rewrite insert_by_perm, IH. Qed.

Definition key_sorted {A} (key : A → Z) (l : list A) : Prop :=
  ∀ i j x y, l !! i = Some x → l !! j = Some y → (i < j)%nat → key x ≤ key y.

Lemma key_sorted_cons {A} (key : A → Z) x l :
  key_sorted key (x :: l) ↔ (∀ y, y ∈ l → key x ≤ key y) ∧ key_sorted key l.
Proof.
  split.
  - intros H. split.
    + intros y [j Hj]%list_elem_of_lookup. apply (H 0%nat (S j) x y); [done|done|lia].
    + intros i j a b Hi Hj Hij. apply (H (S i) (S j) a b); [done|done|lia].
  - intros [H1 H2] [|i] [|j] a b Hi Hj Hij; simpl in *; [lia| |lia|].
    + injection Hi as ->. apply H1. by eapply list_elem_of_lookup_2.
    + eapply H2; [done|done|lia].
Qed.

Lemma insert_by_sorted {A} (key : A → Z) x l : key_sorted key l → key_sorted key (insert_by key x l).
Proof.
  induction l as [|y l IH]; simpl; intros H.
  - apply key_sorted_cons. split; [|done]. intros z Hz. by apply not_elem_of_nil in Hz.
  - apply key_sorted_cons in H as [H1 H2]. destruct (key x <=? key y) eqn:E.
    + apply Z.leb_le in E. apply key_sorted_cons. split; [|by apply key_sorted_cons].
      intros z [->|Hz]%elem_of_cons; [done|]. specialize (H1 _ Hz). lia.
    + apply Z.leb_gt in E. apply key_sorted_cons. split; [|auto].
      intros z Hz. rewrite insert_by_perm in Hz. apply elem_of_cons in Hz as [->|Hz]; [lia|auto].
Qed.

Lemma sort_by_key_sorted {A} (key : A → Z) l : key_sorted key (sort_by_key key l).
Proof.
  induction l as [|x l IH]; simpl; [|by apply insert_by_sorted].
  intros i j a b Hi. by rewrite lookup_nil in Hi.
Qed.

(** ** Sums *)

Definition sumZ {A} (f : A → Z) (l : list A) : Z := foldr (λ x acc, f x + acc) 0 l.

Lemma sumZ_cons {A} (f : A → Z) x l : sumZ f (x :: l) = f x + sumZ f l.
Proof. done. Qed.
Lemma sumZ_nil {A} (f : A → Z) : sumZ f [] = 0.
Proof. done. Qed.
#[export] Hint Rewrite @sumZ_cons @sumZ_nil : kube.
Arguments sumZ : simpl never.

Lemma sumZ_app {A} (f : A → Z) l1 l2 : sumZ f (l1 ++ l2) = sumZ f l1 + sumZ f l2.
Proof. induction l1 as [|x l IH]; simpl; [done|]. rewrite !sumZ_cons. lia. Qed.

Lemma sumZ_perm {A} (f : A → Z) l1 l2 : l1 ≡ₚ l2 → sumZ f l1 = sumZ f l2.
Proof. induction 1; unfold sumZ in *; simpl; lia. Qed.

Lemma sumZ_nonneg {A} (f : A → Z) l : (∀ x, x ∈ l → 0 ≤ f x) → 0 ≤ sumZ f l.
Proof.
  induction l as [|x l IH]; intros H; [done|]. unfold sumZ. simpl. fold (sumZ f l).
  assert (0 ≤ f x) by (apply H; by left). assert (0 ≤ sumZ f l); [|lia].
  apply IH. intros y Hy. apply H. by right.
Qed.

Lemma sumZ_le {A} (f g : A → Z) l : (∀ x, x ∈ l → f x ≤ g x) → sumZ f l ≤ sumZ g l.
Proof.
  induction l as [|x l IH]; intros H; [done|]. unfold sumZ. simpl. fold (sumZ f l) (sumZ g l).
  assert (f x ≤ g x) by (apply H; by left). assert (sumZ f l ≤ sumZ g l); [|lia].
  apply IH. intros y Hy. apply H. by right.
Qed.

Lemma sumZ_ext {A} (f g : A → Z) l : (∀ x, x ∈ l → f x = g x) → sumZ f l = sumZ g l.
Proof. intros H. apply Z.le_antisymm; apply sumZ_le; intros x Hx; rewrite (H x Hx); lia. Qed.

Lemma sumZ_filter {A} (f : A → Z) (p : A → bool) l :
  (∀ x, x ∈ l → p x = false → f x = 0) → sumZ f (List.filter p l) = sumZ f l.
Proof.
  induction l as [|x l IH]; intros H; [done|]. simpl.
  assert (sumZ f (List.filter p l) = sumZ f l) as IH' by (apply IH; intros y Hy; apply H; by right).
  destruct (p x) eqn:E; unfold sumZ in *; simpl; rewrite IH'; [done|].
  rewrite (H x); [done|by left|done].
Qed.

Lemma Forall2_impl_elem {A B} (P Q : A → B → Prop) l k :
  Forall2 P l k → (∀ x y, x ∈ l → y ∈ k → P x y → Q x y) → Forall2 Q l k.
Proof.
  induction 1 as [|x y l k Hxy Hlk IH]; intros H; constructor.
  - apply H; [by left|by left|done].
  - apply IH. intros a b Ha Hb. apply H; by right.
Qed.

Lemma elem_of_filter_b {A} (q : A → bool) x l : x ∈ List.filter q l ↔ x ∈ l ∧ q x = true.
Proof. rewrite !list_elem_of_In. apply filter_In. Qed.

Lemma sumZ_zero {A} (f : A → Z) l :
  (∀ x, x ∈ l → 0 ≤ f x) → sumZ f l = 0 → ∀ x, x ∈ l → f x = 0.
Proof.
  induction l as [|y l IH]; intros Hf Hs x Hx; [by apply not_elem_of_nil in Hx|].
  rewrite sumZ_cons in Hs. assert (0 ≤ f y) by (apply Hf; by left).
  assert (0 ≤ sumZ f l) by (apply sumZ_nonneg; intros z Hz; apply Hf; by right).
  apply elem_of_cons in Hx as [->|Hx]; [lia|]. apply IH; [|lia|done]. intros z Hz. apply Hf. by right.
Qed.
