(* ===== verification/Text.v ===== *)
(** * Rust's [str] operations

    A Rust [str] is its UTF-8 bytes; it is modelled by Rocq's [string], one
    [ascii] per byte.  This file holds the operations of the standard library
    the sources call on text: prefixes and suffixes, splitting, trimming,
    decimal parsing and printing, and the bytewise order ([Ord for str]). *)

From stdpp Require Import base gmap strings list numbers option.
From Stdlib Require Import ZArith Lia String Ascii.
From S2P Require Import Prelude.
Open Scope Z_scope.

(** ** Equality and order *)

Definition str_eqb (a b : string) : bool := String.eqb a b.
Notation "a =? b" := (str_eqb a b) : kube_scope.

Definition str_ltb (a b : string) : bool := String.ltb a b.

(** [slice::contains] on string slices. *)
Definition str_in (x : string) (l : list string) : bool := existsb (str_eqb x) l.

Definition is_empty_str (s : string) : bool :=
  match s with EmptyString => true | _ => false end.

Lemma is_empty_str_spec s : is_empty_str s = true ↔ s = ""%string.
Proof. by destruct s. Qed.

Lemma str_eqb_eq a b : str_eqb a b = true ↔ a = b.
Proof. apply String.eqb_eq. Qed.
Lemma str_eqb_neq a b : str_eqb a b = false ↔ a ≠ b.
Proof. apply String.eqb_neq. Qed.
Lemma str_eqb_refl a : str_eqb a a = true.
Proof. apply String.eqb_refl. Qed.
#[export] Hint Rewrite str_eqb_refl : kube.

Lemma str_in_In x l : str_in x l = true ↔ In x l.
Proof.
  unfold str_in. rewrite existsb_exists. split.
  - intros (y & Hy & E). apply str_eqb_eq in E. by subst.
  - intros H. exists x. split; [done | apply str_eqb_refl].
Qed.

Lemma ascii_compare_refl a : Ascii.compare a a = Eq.
Proof. apply N.compare_refl. Qed.

Lemma str_compare_refl a : String.compare a a = Eq.
Proof. induction a as [|x a IH]; simpl; [done|]. by rewrite ascii_compare_refl. Qed.

Lemma str_ltb_irrefl a : str_ltb a a = false.
Proof. unfold str_ltb, String.ltb. by rewrite str_compare_refl. Qed.

Lemma ascii_compare_lt_trans a b c :
  Ascii.compare a b = Lt → Ascii.compare b c = Lt → Ascii.compare a c = Lt.
Proof.
  unfold Ascii.compare. rewrite !N.compare_lt_iff. lia.
Qed.

Lemma str_compare_lt_trans a b c :
  String.compare a b = Lt → String.compare b c = Lt → String.compare a c = Lt.
Proof.
  revert b c. induction a as [|x a IH]; intros [|y b] [|z c]; simpl; try done.
  destruct (Ascii.compare x y) eqn:E1; try done;
    destruct (Ascii.compare y z) eqn:E2; try done.
  - apply Ascii.compare_eq_iff in E1, E2. subst.
    rewrite ascii_compare_refl. apply IH.
  - apply Ascii.compare_eq_iff in E1. subst. by rewrite E2.
  - apply Ascii.compare_eq_iff in E2. subst. by rewrite E1.
  - by rewrite (ascii_compare_lt_trans _ _ _ E1 E2).
Qed.

Lemma str_ltb_lt a b : str_ltb a b = true ↔ String.compare a b = Lt.
Proof. unfold str_ltb, String.ltb. by destruct (String.compare a b). Qed.

Lemma str_ltb_trans a b c : str_ltb a b = true → str_ltb b c = true → str_ltb a c = true.
Proof. rewrite !str_ltb_lt. apply str_compare_lt_trans. Qed.

Lemma str_ltb_total a b : str_ltb a b = false → a ≠ b → str_ltb b a = true.
Proof.
  unfold str_ltb, String.ltb. rewrite (String.compare_antisym a b).
  destruct (String.compare b a) eqn:E; simpl; try done.
  apply String.compare_eq_iff in E. congruence.
Qed.

Lemma str_ltb_neq a b : str_ltb a b = true → a ≠ b.
Proof. intros H ->. rewrite str_ltb_irrefl in H. done. Qed.

Lemma str_ltb_asym a b : str_ltb a b = true → str_ltb b a = false.
Proof.
  intros H. destruct (str_ltb b a) eqn:E; [|done].
  pose proof (str_ltb_trans _ _ _ H E) as C. by rewrite str_ltb_irrefl in C.
Qed.

(** ** Prefixes, suffixes and splitting *)

Fixpoint strip_prefix (p s : string) : option string :=
  match p, s with
  | EmptyString, _ => Some s
  | String a p', String b s' => if Ascii.eqb a b then strip_prefix p' s' else None
  | String _ _, EmptyString => None
  end.

Definition starts_with (s p : string) : bool :=
  match strip_prefix p s with Some _ => true | None => false end.

Fixpoint str_rev_app (s acc : string) : string :=
  match s with EmptyString => acc | String c s' => str_rev_app s' (String c acc) end.
Definition str_rev (s : string) : string := str_rev_app s EmptyString.

Definition strip_suffix (p s : string) : option string :=
  option_map str_rev (strip_prefix (str_rev p) (str_rev s)).

(** [str::split_once] and [str::split] at a one-byte separator. *)
Fixpoint split_once (c : ascii) (s : string) : option (string * string) :=
  match s with
  | EmptyString => None
  | String a s' =>
      if Ascii.eqb a c then Some (EmptyString, s')
      else match split_once c s' with
           | Some (l, r) => Some (String a l, r)
           | None => None
           end
  end.

Fixpoint split_on (c : ascii) (s : string) : list string :=
  match s with
  | EmptyString => [EmptyString]
  | String a s' =>
      if Ascii.eqb a c then EmptyString :: split_on c s'
      else match split_on c s' with
           | x :: xs => String a x :: xs
           | [] => [String a EmptyString]
           end
  end.

Fixpoint str_contains_char (c : ascii) (s : string) : bool :=
  match s with
  | EmptyString => false
  | String a s' => Ascii.eqb a c || str_contains_char c s'
  end.

Fixpoint str_forall (f : ascii → bool) (s : string) : bool :=
  match s with EmptyString => true | String a s' => f a && str_forall f s' end.

Fixpoint trim_start_char (c : ascii) (s : string) : string :=
  match s with
  | String a s' => if Ascii.eqb a c then trim_start_char c s' else s
  | EmptyString => EmptyString
  end.

Definition trim_end_char (c : ascii) (s : string) : string :=
  str_rev (trim_start_char c (str_rev s)).

(** ** White space

    [char::is_whitespace] over UTF-8 text: the one-byte characters U+0009 to
    U+000D and U+0020, and the multi-byte ones (U+0085, U+00A0, U+1680, U+2000
    to U+200A, U+2028, U+2029, U+202F, U+205F, U+3000) as their bytes.  The
    result is how many bytes of white space the text starts with. *)

Definition ascii_ws (c : ascii) : bool :=
  let n := nat_of_ascii c in
  ((Nat.leb 9 n && Nat.leb n 13) || Nat.eqb n 32)%bool.

Definition ws2 (a b : ascii) : bool :=
  match nat_of_ascii a, nat_of_ascii b with
  | 194%nat, n => (Nat.eqb n 133 || Nat.eqb n 160)%bool
  | _, _ => false
  end.

Definition ws3 (a b c : ascii) : bool :=
  let x := nat_of_ascii a in let y := nat_of_ascii b in let z := nat_of_ascii c in
  (Nat.eqb x 225 && Nat.eqb y 154 && Nat.eqb z 128
   || Nat.eqb x 226 && Nat.eqb y 128 &&
        (Nat.leb 128 z && Nat.leb z 138 || Nat.eqb z 168 || Nat.eqb z 169 || Nat.eqb z 175)
   || Nat.eqb x 226 && Nat.eqb y 129 && Nat.eqb z 159
   || Nat.eqb x 227 && Nat.eqb y 128 && Nat.eqb z 128)%bool.

Definition ws_len (s : string) : nat :=
  match s with
  | EmptyString => 0
  | String a s1 =>
      if ascii_ws a then 1
      else match s1 with
           | EmptyString => 0
           | String b s2 =>
               if ws2 a b then 2
               else match s2 with
                    | EmptyString => 0
                    | String c _ => if ws3 a b c then 3 else 0
                    end
           end
  end%nat.

Fixpoint str_drop (n : nat) (s : string) : string :=
  match n, s with
  | O, _ => s
  | S n', String _ s' => str_drop n' s'
  | S _, EmptyString => EmptyString
  end.

Fixpoint trim_start_go (fuel : nat) (s : string) : string :=
  match fuel with
  | O => s
  | S f => match ws_len s with O => s | n => trim_start_go f (str_drop n s) end
  end.
Definition trim_start (s : string) : string := trim_start_go (String.length s) s.

(** The same characters read from the end of the text. *)
Definition ws_len_rev (s : string) : nat :=
  match s with
  | EmptyString => 0
  | String a s1 =>
      if ascii_ws a then 1
      else match s1 with
           | EmptyString => 0
           | String b s2 =>
               if ws2 b a then 2
               else match s2 with
                    | EmptyString => 0
                    | String c _ => if ws3 c b a then 3 else 0
                    end
           end
  end%nat.

Fixpoint trim_end_go (fuel : nat) (s : string) : string :=
  match fuel with
  | O => s
  | S f => match ws_len_rev s with O => s | n => trim_end_go f (str_drop n s) end
  end.
Definition trim_end (s : string) : string :=
  str_rev (trim_end_go (String.length s) (str_rev s)).

Definition trim (s : string) : string := trim_end (trim_start s).

(** [str::split_whitespace]. *)
Fixpoint split_ws_go (fuel : nat) (cur : string) (s : string) : list string :=
  let flush := match cur with EmptyString => [] | _ => [str_rev cur] end in
  match fuel with
  | O => flush
  | S f =>
      match s with
      | EmptyString => flush
      | String a s' =>
          match ws_len s with
          | O => split_ws_go f (String a cur) s'
          | n => flush ++ split_ws_go f EmptyString (str_drop n s)
          end
      end
  end.
Definition split_whitespace (s : string) : list string :=
  split_ws_go (S (String.length s)) EmptyString s.

(** ** Decimal integers *)

Definition digit_val (c : ascii) : option Z :=
  let n := Z.of_nat (nat_of_ascii c) in
  if (48 <=? n) && (n <=? 57) then Some (n - 48) else None.

Definition is_ascii_digit (c : ascii) : bool :=
  match digit_val c with Some _ => true | None => false end.

Fixpoint parse_digits_go (acc : Z) (s : string) : option Z :=
  match s with
  | EmptyString => Some acc
  | String c s' =>
      match digit_val c with
      | Some d => parse_digits_go (10 * acc + d) s'
      | None => None
      end
  end.

(** A non-empty run of decimal digits. *)
Definition parse_digits (s : string) : option Z :=
  match s with EmptyString => None | _ => parse_digits_go 0 s end.

(** [str::parse::<uN>]: an optional [+], digits, no overflow. *)
Definition parse_unsigned (max : Z) (s : string) : option Z :=
  let body := match s with String "+"%char s' => s' | _ => s end in
  match parse_digits body with
  | Some n => if n <=? max then Some n else None
  | None => None
  end.
Definition parse_u64 : string → option Z := parse_unsigned u64_max.
Definition parse_u32 : string → option Z := parse_unsigned u32_max.

(** [str::parse::<iN>]. *)
Definition parse_signed (min max : Z) (s : string) : option Z :=
  match s with
  | String "-"%char s' =>
      match parse_digits s' with
      | Some n => if min <=? - n then Some (- n) else None
      | None => None
      end
  | _ => parse_unsigned max s
  end.
Definition parse_i64 : string → option Z := parse_signed i64_min i64_max.
Definition parse_i32 : string → option Z := parse_signed (-2147483648) 2147483647.

Definition digit_char (d : Z) : ascii := ascii_of_nat (48 + Z.to_nat d).

Fixpoint show_go (fuel : nat) (n : Z) (acc : string) : string :=
  match fuel with
  | O => acc
  | S f =>
      let acc' := String (digit_char (n mod 10)) acc in
      if n <? 10 then acc' else show_go f (n / 10) acc'
  end.

(** [to_string] of an unsigned, and of a signed, integer.  Each step divides
    by ten, so [log2 n + 1] steps are enough. *)
Definition show_u (n : Z) : string := show_go (S (Z.to_nat (Z.log2 n))) n EmptyString.
Definition show_z (n : Z) : string :=
  if n <? 0 then String "-"%char (show_u (- n)) else show_u n.

(** ** Printing and parsing decimal integers are inverse *)

Lemma digit_val_char d : 0 ≤ d < 10 → digit_val (digit_char d) = Some d.
Proof.
  intros H.
  assert (d = 0 ∨ d = 1 ∨ d = 2 ∨ d = 3 ∨ d = 4 ∨ d = 5 ∨ d = 6 ∨ d = 7 ∨ d = 8 ∨ d = 9) as C by lia.
  by repeat destruct C as [-> | C]; [..|subst].
Qed.

Lemma show_go_parse fuel n acc :
  0 ≤ n < 10 ^ Z.of_nat fuel → (0 < fuel)%nat →
  parse_digits_go 0 (show_go fuel n acc) = parse_digits_go n acc.
Proof.
  revert n acc. induction fuel as [|f IH]; intros n acc Hn Hf; [lia|].
  cbn [show_go]. pose proof (Z.mod_pos_bound n 10 ltac:(lia)) as Hm.
  pose proof (Z.div_mod n 10 ltac:(lia)) as Hd.
  destruct (Z.ltb_spec n 10) as [H|H].
  - cbn [parse_digits_go]. rewrite digit_val_char by lia.
    rewrite Z.mod_small by lia. done.
  - rewrite Nat2Z.inj_succ, Z.pow_succ_r in Hn by lia.
    rewrite IH.
    + cbn [parse_digits_go]. rewrite digit_val_char by lia. by rewrite <- Hd.
    + split; [apply Z.div_pos; lia | apply Z.div_lt_upper_bound; lia].
    + destruct f; [|lia]. simpl in Hn. lia.
Qed.

Lemma show_fuel n : 0 ≤ n → n < 10 ^ Z.of_nat (S (Z.to_nat (Z.log2 n))).
Proof.
  intros H. destruct (decide (n = 0)) as [->|]; [done|].
  pose proof (Z.log2_spec n ltac:(lia)) as [_ Hl].
  pose proof (Z.log2_nonneg n).
  rewrite Nat2Z.inj_succ, Z2Nat.id by lia.
  apply (Z.lt_le_trans _ _ _ Hl). apply Z.pow_le_mono_l. lia.
Qed.

Lemma show_go_nonempty fuel n acc : (0 < fuel)%nat ∨ acc ≠ EmptyString → show_go fuel n acc ≠ EmptyString.
Proof.
  revert n acc. induction fuel as [|f IH]; intros n acc H; simpl; [destruct H; [lia|done]|].
  case_match; [done|]. apply IH. by right.
Qed.

Lemma parse_digits_show n : 0 ≤ n → parse_digits (show_u n) = Some n.
Proof.
  intros H. pose proof (show_go_nonempty (S (Z.to_nat (Z.log2 n))) n EmptyString ltac:(left; lia)) as Hne.
  unfold parse_digits. fold (show_u n) in Hne. destruct (show_u n) eqn:E; [done|].
  rewrite <- E. unfold show_u. rewrite show_go_parse; [done| |lia].
  split; [done | by apply show_fuel].
Qed.

Lemma show_go_forall (P : ascii → bool) fuel n acc :
  (∀ d, 0 ≤ d < 10 → P (digit_char d) = true) → 0 ≤ n →
  str_forall P acc = true → str_forall P (show_go fuel n acc) = true.
Proof.
  intros HP. revert n acc. induction fuel as [|f IH]; intros n acc Hn Ha; simpl; [done|].
  assert (str_forall P (String (digit_char (n mod 10)) acc) = true).
  { simpl. rewrite HP by (apply Z.mod_pos_bound; lia). done. }
  case_match; [done|]. apply IH; [apply Z.div_pos; lia | done].
Qed.

Lemma show_u_digits n : 0 ≤ n → str_forall is_ascii_digit (show_u n) = true.
Proof.
  intros. apply show_go_forall; [|done|done].
  intros d Hd. unfold is_ascii_digit. by rewrite digit_val_char.
Qed.

Lemma parse_u64_show n : is_u64 n → parse_u64 (show_u n) = Some n.
Proof.
  intros [Hn Hm]. unfold parse_u64, parse_unsigned.
  pose proof (show_u_digits n Hn) as Hd. pose proof (parse_digits_show n Hn) as Hp.
  destruct (show_u n) as [|c s] eqn:E; [done|].
  assert (match String c s with String "+"%char s' => s' | _ => String c s end = String c s) as ->.
  { simpl in Hd. apply andb_true_iff in Hd as [Hc _].
    destruct c as [[] [] [] [] [] [] [] []]; simpl in *; try done. }
  rewrite Hp. destruct (Z.leb_spec n u64_max); [done|lia].
Qed.

Lemma show_u_inj n m : 0 ≤ n → 0 ≤ m → show_u n = show_u m → n = m.
Proof.
  intros Hn Hm E. apply (f_equal parse_digits) in E.
  rewrite !parse_digits_show in E by done. congruence.
Qed.

(** ** Concatenation, reversal and affixes *)

#[global] Arguments String.append : simpl nomatch.

Lemma str_app_nil_r (s : string) : (s ++ "")%string = s.
Proof. induction s as [|x s IH]; simpl; [done|]. by rewrite IH. Qed.

Lemma str_app_assoc (a b c : string) : (a ++ (b ++ c) = (a ++ b) ++ c)%string.
Proof. induction a as [|x a IH]; simpl; [done|]. by rewrite IH. Qed.

Lemma str_rev_app_spec s acc : str_rev_app s acc = (str_rev s ++ acc)%string.
Proof.
  unfold str_rev. revert acc. induction s as [|c s IH]; intros acc; simpl; [done|].
  rewrite IH, (IH (String c "")). by rewrite <- str_app_assoc.
Qed.

Lemma str_rev_cons c s : str_rev (String c s) = (str_rev s ++ String c "")%string.
Proof. unfold str_rev at 1. simpl. apply str_rev_app_spec. Qed.

Lemma str_rev_app_distr a b : str_rev (a ++ b) = (str_rev b ++ str_rev a)%string.
Proof.
  induction a as [|c a IH]; simpl.
  - by rewrite str_app_nil_r.
  - rewrite !str_rev_cons, IH. by rewrite str_app_assoc.
Qed.

Lemma str_rev_involutive s : str_rev (str_rev s) = s.
Proof.
  induction s as [|c s IH]; [done|].
  rewrite str_rev_cons, str_rev_app_distr, IH. done.
Qed.

Lemma strip_prefix_app p s : strip_prefix p (p ++ s) = Some s.
Proof. induction p as [|c p IH]; simpl; [by destruct s|]. by rewrite Ascii.eqb_refl. Qed.

Lemma strip_prefix_Some p s r : strip_prefix p s = Some r → s = (p ++ r)%string.
Proof.
  revert s. induction p as [|c p IH]; intros [|d s]; simpl; try naive_solver.
  destruct (Ascii.eqb_spec c d); [|done]. intros H. subst. f_equal. by apply IH.
Qed.

Lemma starts_with_app p s : starts_with (p ++ s) p = true.
Proof. unfold starts_with. by rewrite strip_prefix_app. Qed.

Lemma starts_with_spec s p : starts_with s p = true ↔ ∃ r, s = (p ++ r)%string.
Proof.
  unfold starts_with. split.
  - destruct (strip_prefix p s) eqn:E; [|done]. intros _.
    eexists. by apply strip_prefix_Some.
  - intros [r ->]. by rewrite strip_prefix_app.
Qed.

Lemma strip_suffix_app p s : strip_suffix p (s ++ p) = Some s.
Proof.
  unfold strip_suffix. rewrite str_rev_app_distr, strip_prefix_app.
  simpl. by rewrite str_rev_involutive.
Qed.

Lemma strip_suffix_Some p s r : strip_suffix p s = Some r → s = (r ++ p)%string.
Proof.
  unfold strip_suffix. destruct (strip_prefix _ _) as [x|] eqn:E; [|done].
  simpl. intros [= <-]. apply strip_prefix_Some in E.
  rewrite <- (str_rev_involutive s), E, str_rev_app_distr. by rewrite str_rev_involutive.
Qed.

Lemma str_forall_app f a b : str_forall f (a ++ b) = str_forall f a && str_forall f b.
Proof. induction a as [|c a IH]; simpl; [done|]. rewrite IH. by rewrite andb_assoc. Qed.

Lemma split_once_app c l r :
  str_contains_char c l = false → split_once c (l ++ String c r) = Some (l, r).
Proof.
  induction l as [|a l IH]; simpl.
  - by rewrite Ascii.eqb_refl.
  - intros [-> H]%orb_false_iff. by rewrite IH.
Qed.

Lemma str_forall_no_char f c s :
  str_forall f s = true → f c = false → str_contains_char c s = false.
Proof.
  induction s as [|a s IH]; simpl; [done|].
  intros [Ha Hs]%andb_true_iff Hc. rewrite (IH Hs Hc), orb_false_r.
  destruct (Ascii.eqb_spec a c); [|done]. congruence.
Qed.

(** ** Text that starts and ends with a plain character *)

Definition plain (c : ascii) : bool := Nat.leb 33 (nat_of_ascii c) && Nat.leb (nat_of_ascii c) 126.

Lemma plain_not_ws c : plain c = true → ascii_ws c = false.
Proof. destruct c as [[] [] [] [] [] [] [] []]; vm_compute; congruence. Qed.

Lemma ws2_spec a b :
  ws2 a b = Nat.eqb (nat_of_ascii a) 194 && (Nat.eqb (nat_of_ascii b) 133 || Nat.eqb (nat_of_ascii b) 160).
Proof. destruct a as [[] [] [] [] [] [] [] []]; reflexivity. Qed.

Lemma plain_range c : plain c = true → (33 ≤ nat_of_ascii c ≤ 126)%nat.
Proof. unfold plain. rewrite andb_true_iff, !Nat.leb_le. done. Qed.

Lemma neqb_false n m : n ≠ m → Nat.eqb n m = false.
Proof. apply Nat.eqb_neq. Qed.

Lemma plain_start s c t : s = String c t → plain c = true → ws_len s = 0%nat.
Proof.
  intros -> Hc. pose proof (plain_range _ Hc). simpl. rewrite (plain_not_ws c Hc).
  destruct t as [|b t]; [done|]. rewrite ws2_spec, (neqb_false (nat_of_ascii c)) by lia. simpl.
  destruct t as [|d t]; [done|]. unfold ws3. rewrite !(neqb_false (nat_of_ascii c)) by lia. done.
Qed.

Lemma plain_end s c t : s = String c t → plain c = true → ws_len_rev s = 0%nat.
Proof.
  intros -> Hc. pose proof (plain_range _ Hc). simpl. rewrite (plain_not_ws c Hc).
  destruct t as [|b t]; [done|]. rewrite ws2_spec, !(neqb_false (nat_of_ascii c)) by lia. rewrite andb_false_r.
  destruct t as [|d t]; [done|]. unfold ws3. rewrite !(neqb_false (nat_of_ascii c)) by lia.
  replace (Nat.leb 128 (nat_of_ascii c)) with false by (symmetry; apply Nat.leb_gt; lia).
  by rewrite !andb_false_r.
Qed.

(** Trimming leaves text whose first and last characters are plain. *)
Lemma trim_plain s a t b u :
  s = String a t → str_rev s = String b u → plain a = true → plain b = true → trim s = s.
Proof.
  intros Es Er Ha Hb. unfold trim.
  assert (trim_start s = s) as ->.
  { unfold trim_start. destruct (String.length s); [done|]. simpl. by rewrite (plain_start s a t). }
  unfold trim_end. destruct (String.length s); simpl; [apply str_rev_involutive|].
  rewrite (plain_end (str_rev s) b u) by done. apply str_rev_involutive.
Qed.

Lemma digit_plain c : is_ascii_digit c = true → plain c = true.
Proof. destruct c as [[] [] [] [] [] [] [] []]; vm_compute; congruence. Qed.

Lemma str_forall_rev f s : str_forall f (str_rev s) = str_forall f s.
Proof.
  induction s as [|c s IH]; [done|]. rewrite str_rev_cons, str_forall_app, IH. simpl.
  rewrite andb_true_r. apply andb_comm.
Qed.

Lemma show_u_nonempty n : show_u n ≠ EmptyString.
Proof. apply show_go_nonempty. left. lia. Qed.

Lemma show_u_ends n : 0 ≤ n → ∃ a t b u, show_u n = String a t ∧ str_rev (show_u n) = String b u ∧
  is_ascii_digit a = true ∧ is_ascii_digit b = true.
Proof.
  intros Hn. pose proof (show_u_digits n Hn) as H. pose proof (show_u_nonempty n) as Hne.
  pose proof H as Hr. rewrite <- str_forall_rev in Hr.
  destruct (show_u n) as [|a t] eqn:E; [done|].
  destruct (str_rev (String a t)) as [|b u] eqn:E2.
  { apply (f_equal str_rev) in E2. by rewrite str_rev_involutive in E2. }
  exists a, t, b, u. simpl in H, Hr. apply andb_true_iff in H as [? _], Hr as [? _]. done.
Qed.

(** ** Byte order and prefixes *)

Lemma str_ltb_cons a s b t :
  str_ltb (String a s) (String b t) =
    match Ascii.compare a b with Lt => true | Eq => str_ltb s t | Gt => false end.
Proof. unfold str_ltb, String.ltb. simpl. by destruct (Ascii.compare a b). Qed.

Lemma str_ltb_nil_l s : str_ltb "" s = negb (is_empty_str s).
Proof. by destruct s. Qed.

Lemma str_ltb_nil_r s : str_ltb s "" = false.
Proof. by destruct s. Qed.

Lemma ascii_compare_eq a b : Ascii.compare a b = Eq → a = b.
Proof. apply Ascii.compare_eq_iff. Qed.

Lemma starts_with_cons a p b s :
  starts_with (String b s) (String a p) = Ascii.eqb a b && starts_with s p.
Proof. unfold starts_with. simpl. by destruct (Ascii.eqb a b). Qed.

Lemma starts_with_nil s : starts_with s "" = true.
Proof. done. Qed.

(** The keys with a prefix follow it. *)
Lemma prefix_not_above p k : starts_with k p = true → str_ltb k p = false.
Proof.
  revert k. induction p as [|a p IH]; intros k Hk; [apply str_ltb_nil_r|].
  destruct k as [|b k]; [done|]. rewrite starts_with_cons in Hk.
  apply andb_true_iff in Hk as [->%Ascii.eqb_eq Hk]. rewrite str_ltb_cons, ascii_compare_refl. auto.
Qed.

(** … and are contiguous: what lies between the prefix and one of them is
    another of them. *)
Lemma prefix_contiguous p k k' :
  str_ltb k p = false → str_ltb k k' = true → starts_with k' p = true → starts_with k p = true.
Proof.
  revert k k'. induction p as [|a p IH]; intros k k' H1 H2 H3; [done|].
  destruct k' as [|c k']; [done|]. rewrite starts_with_cons in H3.
  apply andb_true_iff in H3 as [->%Ascii.eqb_eq H3].
  destruct k as [|b k]; [done|]. rewrite str_ltb_cons in H1, H2.
  destruct (Ascii.compare b c) eqn:E; [|done|done].
  apply ascii_compare_eq in E as ->. rewrite starts_with_cons, Ascii.eqb_refl. simpl. eauto.
Qed.

(** [str::contains] of a substring. *)
Fixpoint contains_sub (pat s : string) : bool :=
  starts_with s pat || match s with EmptyString => false | String _ s' => contains_sub pat s' end.

(** ** Ranges of keys *)

(** The last byte incremented, wrapping. *)
Fixpoint bump_last (s : string) : string :=
  match s with
  | EmptyString => EmptyString
  | String c EmptyString => String (ascii_of_nat ((nat_of_ascii c + 1) mod 256)) EmptyString
  | String c s' => String c (bump_last s')
  end.

Lemma ascii_compare_nat a b : Ascii.compare a b = Nat.compare (nat_of_ascii a) (nat_of_ascii b).
Proof.
  unfold Ascii.compare, nat_of_ascii. rewrite <- (N2Nat.id (N_of_ascii a)) at 1.
  rewrite <- (N2Nat.id (N_of_ascii b)) at 1. by rewrite <- Nat2N.inj_compare.
Qed.

Lemma nat_of_ascii_bump c :
  c ≠ "255"%char → nat_of_ascii (ascii_of_nat ((nat_of_ascii c + 1) mod 256)) = S (nat_of_ascii c).
Proof. destruct c as [[] [] [] [] [] [] [] []]; intros H; try reflexivity. by destruct H. Qed.

Lemma nat_of_ascii_inj a b : nat_of_ascii a = nat_of_ascii b → a = b.
Proof. intros E. rewrite <- (ascii_nat_embedding a), <- (ascii_nat_embedding b). by rewrite E. Qed.

(** Between a text and its bumped form lie exactly its extensions. *)
Lemma bump_range p k :
  p ≠ "" → str_contains_char "255" p = false →
  negb (str_ltb k p) && str_ltb k (bump_last p) = starts_with k p.
Proof.
  revert k. induction p as [|c p IH]; intros k Hne Hff; [done|].
  cbn [str_contains_char] in Hff. apply orb_false_iff in Hff as [Hc Hff].
  assert (c ≠ "255"%char) as Hc' by (intros ->; done).
  destruct k as [|a k].
  { rewrite str_ltb_nil_l. done. }
  destruct p as [|c' p].
  - cbn [bump_last]. rewrite !str_ltb_cons, !ascii_compare_nat, nat_of_ascii_bump by done.
    rewrite starts_with_cons, starts_with_nil, andb_true_r, !str_ltb_nil_r.
    destruct (Nat.compare_spec (nat_of_ascii a) (nat_of_ascii c)) as [E|E|E].
    + apply nat_of_ascii_inj in E as ->. rewrite Ascii.eqb_refl.
      by replace (Nat.compare _ _) with Lt by (symmetry; apply Nat.compare_lt_iff; lia).
    + simpl. symmetry. apply Ascii.eqb_neq. intros ->. lia.
    + simpl. replace (Ascii.eqb c a) with false by (symmetry; apply Ascii.eqb_neq; intros ->; lia).
      destruct (Nat.compare_spec (nat_of_ascii a) (S (nat_of_ascii c))); [done|lia|done].
  - change (bump_last (String c (String c' p))) with (String c (bump_last (String c' p))).
    rewrite !str_ltb_cons, starts_with_cons, ascii_compare_nat.
    destruct (Nat.compare_spec (nat_of_ascii a) (nat_of_ascii c)) as [E|E|E].
    + apply nat_of_ascii_inj in E as ->. rewrite Ascii.eqb_refl. by apply IH.
    + simpl. replace (Ascii.eqb c a) with false; [done|]. symmetry. apply Ascii.eqb_neq. intros ->. lia.
    + simpl. replace (Ascii.eqb c a) with false; [done|]. symmetry. apply Ascii.eqb_neq. intros ->. lia.
Qed.

(** The first key after [t] is [t] with a zero byte. *)
Lemma above_nul t k : negb (str_ltb k (t ++ String "000" "")) = str_ltb t k.
Proof.
  revert k. induction t as [|c t IH]; intros [|a k]; try done; cbn [append].
  - rewrite str_ltb_cons, ascii_compare_nat, str_ltb_nil_r.
    by destruct (Nat.compare (nat_of_ascii a) (nat_of_ascii "000")) eqn:E; [| apply Nat.compare_lt_iff in E; change (nat_of_ascii "000") with 0%nat in E; lia |].
  - rewrite !str_ltb_cons, !ascii_compare_nat, (Nat.compare_antisym (nat_of_ascii a)).
    destruct (Nat.compare (nat_of_ascii a) (nat_of_ascii c)); simpl; [apply IH|done|done].
Qed.

(** Splitting at slashes. *)
Lemma split_on_seg x rest : str_contains_char "/" x = false → split_on "/" (x ++ "/" ++ rest) = x :: split_on "/" rest.
Proof.
  induction x as [|c x IH]; cbn; [done|]. intros [Hc Hx]%orb_false_iff. rewrite Hc. cbn in IH. by rewrite (IH Hx).
Qed.
Lemma split_on_last x : str_contains_char "/" x = false → split_on "/" x = [x].
Proof. induction x as [|c x IH]; cbn; [done|]. intros [Hc Hx]%orb_false_iff. by rewrite Hc, (IH Hx). Qed.
