(* ===== verification/BTree.v ===== *)
(** * [BTreeMap<String, A>]

    The standard library's ordered map with string keys, as the association
    list its iterator yields: the operations keep the keys strictly ascending
    in byte order ([keys_sorted]).  JSON objects, resource usages and the
    in-memory store are such maps. *)

From stdpp Require Import base gmap strings list numbers option.
From Stdlib Require Import ZArith Lia String Ascii.
From S2P Require Import Prelude Text.
Open Scope Z_scope.

Notation BTreeMap A := (list (string * A)).

Section BTree.
  Context {A : Type}.
  Implicit Types m : BTreeMap A.

Fixpoint map_get (m : BTreeMap A) (k : string) : option A :=
  match m with
  | [] => None
  | (k', v) :: m' => if str_eqb k k' then Some v else map_get m' k
  end.

Definition contains_key (m : BTreeMap A) (k : string) : bool :=
  match map_get m k with Some _ => true | None => false end.


(** [BTreeMap::insert], [BTreeMap::remove]. *)
Fixpoint map_insert (m : BTreeMap A) (k : string) (v : A) : BTreeMap A :=
  match m with
  | [] => [(k, v)]
  | (k', v') :: m' =>
      if str_eqb k k' then (k, v) :: m'
      else if str_ltb k k' then (k, v) :: (k', v') :: m'
      else (k', v') :: map_insert m' k v
  end.

Fixpoint map_remove (m : BTreeMap A) (k : string) : BTreeMap A :=
  match m with
  | [] => []
  | (k', v') :: m' => if str_eqb k k' then m' else (k', v') :: map_remove m' k
  end.

(** Strictly sorted keys. *)
Fixpoint keys_sorted (m : BTreeMap A) : bool :=
  match m with
  | [] => true
  | (k, _) :: m' =>
      match m' with
      | [] => true
      | (k', _) :: _ => str_ltb k k' && keys_sorted m'
      end
  end.


Lemma map_get_insert m k v k' :
  map_get (map_insert m k v) k' = if str_eqb k' k then Some v else map_get m k'.
Proof.
  induction m as [|[k1 v1] m IH]; simpl; [done|].
  destruct (str_eqb k k1) eqn:E1; simpl.
  - apply str_eqb_eq in E1. subst. by destruct (str_eqb k' k1).
  - destruct (str_ltb k k1) eqn:E2; simpl; [done|].
    rewrite IH. destruct (str_eqb k' k1) eqn:E3; [|done].
    apply str_eqb_eq in E3. subst.
    destruct (str_eqb k1 k) eqn:E4; [|done].
    apply str_eqb_eq in E4. subst. by rewrite str_eqb_refl in E1.
Qed.

Lemma map_get_insert_eq m k v : map_get (map_insert m k v) k = Some v.
Proof. rewrite map_get_insert. by rewrite str_eqb_refl. Qed.

Lemma map_get_insert_ne m k v k' : k' ≠ k → map_get (map_insert m k v) k' = map_get m k'.
Proof. intros H. rewrite map_get_insert. apply str_eqb_neq in H. by rewrite H. Qed.

Lemma map_get_remove_ne m k k' : k' ≠ k → map_get (map_remove m k) k' = map_get m k'.
Proof.
  intros H. induction m as [|[k1 v1] m IH]; simpl; [done|].
  destruct (str_eqb k k1) eqn:E1; simpl.
  - apply str_eqb_eq in E1. subst. apply str_eqb_neq in H. by rewrite H.
  - by destruct (str_eqb k' k1).
Qed.

Definition above (k : string) (m : BTreeMap A) : Prop := Forall (λ kv, str_ltb k kv.1 = true) m.

Lemma keys_sorted_cons k v m :
  keys_sorted ((k, v) :: m) = true ↔ above k m ∧ keys_sorted m = true.
Proof.
  revert k v. induction m as [|[k' v'] m IH]; intros k v.
  - simpl. unfold above. split; [auto|by intros [_ _]].
  - change (keys_sorted ((k, v) :: (k', v') :: m)) with (str_ltb k k' && keys_sorted ((k', v') :: m)).
    rewrite andb_true_iff. split.
    + intros [Hlt Hs]. split; [|done]. apply IH in Hs as [Ha Hs].
      constructor; [done|]. eapply List.Forall_impl; [|exact Ha].
      intros kv. simpl. by apply str_ltb_trans.
    + intros [Ha Hs]. inversion Ha; subst. split; done.
Qed.

Lemma map_get_above k m : above k m → map_get m k = None.
Proof.
  induction 1 as [|[k' v'] m Hlt _ IH]; simpl; [done|].
  simpl in Hlt. apply str_ltb_neq, str_eqb_neq in Hlt. by rewrite Hlt.
Qed.

Lemma map_get_remove_eq m k : keys_sorted m = true → map_get (map_remove m k) k = None.
Proof.
  induction m as [|[k1 v1] m IH]; [done|]. intros [Ha Hs]%keys_sorted_cons. simpl.
  destruct (str_eqb k k1) eqn:E1; simpl.
  - apply str_eqb_eq in E1. subst. by apply map_get_above.
  - rewrite E1. auto.
Qed.

Lemma above_insert k m k' v : above k m → str_ltb k k' = true → above k (map_insert m k' v).
Proof.
  intros Ha Hlt. induction Ha as [|[k1 v1] m Hk Hm IH]; simpl; [by repeat constructor|].
  repeat case_match; repeat constructor; done.
Qed.

Lemma keys_sorted_insert m k v : keys_sorted m = true → keys_sorted (map_insert m k v) = true.
Proof.
  induction m as [|[k1 v1] m IH]; [done|]. intros [Ha Hs]%keys_sorted_cons. simpl.
  destruct (str_eqb k k1) eqn:E1.
  - apply str_eqb_eq in E1. subst. by apply keys_sorted_cons.
  - apply str_eqb_neq in E1. destruct (str_ltb k k1) eqn:E2.
    + apply keys_sorted_cons. split; [|by apply keys_sorted_cons].
      constructor; [done|]. eapply List.Forall_impl; [|exact Ha].
      intros kv. by apply str_ltb_trans.
    + apply keys_sorted_cons. split; [|auto].
      apply above_insert; [done|]. by apply str_ltb_total.
Qed.

Lemma above_remove k m k' : above k m → above k (map_remove m k').
Proof.
  induction 1 as [|[k1 v1] m Hk Ha IH]; simpl; [constructor|].
  case_match; [done|]. by constructor.
Qed.

Lemma keys_sorted_remove m k : keys_sorted m = true → keys_sorted (map_remove m k) = true.
Proof.
  induction m as [|[k1 v1] m IH]; [done|]. intros [Ha Hs]%keys_sorted_cons. simpl.
  case_match; [done|]. apply keys_sorted_cons. split; [by apply above_remove | auto].
Qed.

(** Two sorted objects with the same lookups are the same object. *)
Lemma map_ext m1 m2 :
  keys_sorted m1 = true → keys_sorted m2 = true →
  (∀ k, map_get m1 k = map_get m2 k) → m1 = m2.
Proof.
  revert m2. induction m1 as [|[k1 v1] m1 IH]; intros [|[k2 v2] m2] H1 H2 E.
  - done.
  - specialize (E k2). simpl in E. by rewrite str_eqb_refl in E.
  - specialize (E k1). simpl in E. by rewrite str_eqb_refl in E.
  - apply keys_sorted_cons in H1 as [Ha1 Hs1], H2 as [Ha2 Hs2].
    assert (k1 = k2) as ->.
    { destruct (str_eqb k1 k2) eqn:Ek; [by apply str_eqb_eq|].
      pose proof (E k1) as E1. pose proof (E k2) as E2. simpl in E1, E2.
      rewrite str_eqb_refl, Ek in E1. rewrite str_eqb_refl in E2.
      apply str_eqb_neq in Ek.
      assert (str_eqb k2 k1 = false) as Ek' by (apply str_eqb_neq; congruence).
      rewrite Ek' in E2.
      destruct (str_ltb k1 k2) eqn:Hlt.
      - rewrite map_get_above in E1; [done|].
        eapply List.Forall_impl; [|exact Ha2]. intros kv. by apply str_ltb_trans.
      - apply str_ltb_total in Hlt; [|done].
        rewrite map_get_above in E2; [done|].
        eapply List.Forall_impl; [|exact Ha1]. intros kv. by apply str_ltb_trans. }
    pose proof (E k2) as E0. simpl in E0. rewrite str_eqb_refl in E0. injection E0 as ->.
    f_equal. apply IH; [done|done|]. intros k. specialize (E k). simpl in E.
    destruct (str_eqb k k2) eqn:Ek; [|done].
    apply str_eqb_eq in Ek. subst. by rewrite !map_get_above.
Qed.

Lemma map_get_In m k v : map_get m k = Some v → In (k, v) m.
Proof.
  induction m as [|[k1 v1] m IH]; simpl; [done|].
  destruct (str_eqb k k1) eqn:E; [|naive_solver].
  apply str_eqb_eq in E. naive_solver.
Qed.

Lemma map_get_sorted_In m k v : keys_sorted m = true → In (k, v) m → map_get m k = Some v.
Proof.
  induction m as [|[k1 v1] m IH]; [done|]. intros [Ha Hs]%keys_sorted_cons [E|H]; simpl.
  - injection E as -> ->. by rewrite str_eqb_refl.
  - rewrite IH by done.
    assert (str_ltb k1 k = true) as Hlt.
    { unfold above in Ha. rewrite List.Forall_forall in Ha. by apply (Ha (k, v)). }
    destruct (str_eqb k k1) eqn:E; [|done]. apply str_eqb_eq in E. subst.
    by rewrite str_ltb_irrefl in Hlt.
Qed.

Lemma forallb_insert (f : string * A → bool) m k v :
  forallb f m = true → f (k, v) = true → forallb f (map_insert m k v) = true.
Proof.
  intros Hm Hv. induction m as [|[k1 v1] m IH]; simpl in *; [by rewrite Hv|].
  apply andb_true_iff in Hm as [H1 H2].
  repeat case_match; simpl; rewrite ?H1, ?Hv, ?H2; auto.
Qed.

Lemma map_remove_absent m k : map_get m k = None → map_remove m k = m.
Proof.
  induction m as [|[k1 v1] m IH]; simpl; [done|]. destruct (str_eqb k k1); [done|]. intros H. by rewrite IH.
Qed.

Lemma map_insert_twice m k v w : map_insert (map_insert m k v) k w = map_insert m k w.
Proof.
  induction m as [|[k1 v1] m IH]; simpl; [by rewrite str_eqb_refl|].
  destruct (str_eqb k k1) eqn:E1; simpl; [by rewrite str_eqb_refl|].
  destruct (str_ltb k k1) eqn:E2; simpl; [by rewrite str_eqb_refl|]. by rewrite E1, E2, IH.
Qed.

Lemma forallb_remove (f : string * A → bool) m k :
  forallb f m = true → forallb f (map_remove m k) = true.
Proof.
  induction m as [|[k1 v1] m IH]; simpl; [done|]. intros [H1 H2]%andb_true_iff.
  case_match; simpl; rewrite ?H1; auto.
Qed.

End BTree.

Section Ranges.
  Context {A : Type}.
  Implicit Types m : BTreeMap A.

Lemma above_filter k m f : above k m → above k (List.filter f m).
Proof.
  unfold above. rewrite !List.Forall_forall. intros H x [Hx _]%filter_In. auto.
Qed.

Lemma keys_sorted_filter m f : keys_sorted m = true → keys_sorted (List.filter f m) = true.
Proof.
  induction m as [|[k v] m IH]; [done|]. intros [Ha Hs]%keys_sorted_cons. simpl.
  case_match; [|auto]. apply keys_sorted_cons. split; [by apply above_filter | auto].
Qed.

(** In sorted order, what follows a key is what is above it. *)
Lemma filter_after l1 k v (l2 : BTreeMap A) :
  keys_sorted (l1 ++ (k, v) :: l2) = true →
  List.filter (λ kv, str_ltb k kv.1) (l1 ++ (k, v) :: l2) = l2.
Proof.
  induction l1 as [|[k1 v1] l1 IH]; cbn [app].
  - intros [Ha _]%keys_sorted_cons. simpl. rewrite str_ltb_irrefl.
    induction Ha as [|[k' v'] l2 Hlt Ha IH]; [done|]. simpl in *. by rewrite Hlt, IH.
  - intros [Ha Hs]%keys_sorted_cons. simpl. rewrite IH by done.
    apply List.Forall_app in Ha as [_ Ha]. inversion Ha as [|? ? Hlt _]; subst. simpl in Hlt.
    by rewrite (str_ltb_asym _ _ Hlt).
Qed.

End Ranges.
