(* ===== verification/Json.v ===== *)
(** * JSON values

    The API objects of the program are untyped [serde_json::Value]s.  This
    file holds the data type and the accessors the sources use on it, as
    [serde_json] documents them: [v["k"]], [get], [as_str], [as_i64],
    [as_array], [as_object], the mutable ones with their panics, and [==].

    [serde_json::Map] is built without [preserve_order], so it is a
    [BTreeMap<String, Value>]: an object is an association list that the
    operations keep strictly sorted by key ([wf_value]), and iterating it
    visits the keys in order. *)

From stdpp Require Import base gmap strings list numbers option.
From Stdlib Require Import ZArith Lia String Ascii.
From Stdlib.Floats Require Import SpecFloat.
From S2P Require Import Prelude Text BTree.
Open Scope Z_scope.
Local Set Warnings "-register-all".

(** [serde_json::Number]: a non-negative integer is a [u64], a negative one an
    [i64], anything else an [f64]. *)
Inductive Number : Type :=
| PosInt (n : Z)
| NegInt (n : Z)
| Float (f : spec_float).

Inductive Value : Type :=
| Null
| Bool (b : bool)
| Num (n : Number)
| Str (s : string)
| Array (l : list Value)
| Object (m : list (string * Value)).

Notation Map := (BTreeMap Value).

(** Induction over a value and everything inside it. *)
Section value_ind.
Variable P : Value → Prop.
Hypothesis HNull : P Null.
Hypothesis HBool : ∀ b, P (Bool b).
Hypothesis HNum : ∀ n, P (Num n).
Hypothesis HStr : ∀ s, P (Str s).
Hypothesis HArray : ∀ l, Forall P l → P (Array l).
Hypothesis HObject : ∀ m, Forall (λ kv, P kv.2) m → P (Object m).

Fixpoint Value_ind' (v : Value) : P v :=
  match v with
  | Null => HNull
  | Bool b => HBool b
  | Num n => HNum n
  | Str s => HStr s
  | Array l =>
      HArray l ((fix go l := match l return Forall P l with
                             | [] => @List.Forall_nil _ P
                             | x :: l' => @List.Forall_cons _ P x l' (Value_ind' x) (go l')
                             end) l)
  | Object m =>
      HObject m ((fix go (m : Map) := match m return Forall (λ kv, P kv.2) m with
                              | [] => @List.Forall_nil _ (λ kv, P kv.2)
                              | (k, x) :: m' => @List.Forall_cons _ (λ kv, P kv.2) (k, x) m' (Value_ind' x) (go m')
                              end) m)
  end.
End value_ind.

(** ** Equality *)

Definition number_eqb (a b : Number) : bool :=
  match a, b with
  | PosInt x, PosInt y => x =? y
  | NegInt x, NegInt y => x =? y
  | Float x, Float y => SFeqb x y
  | _, _ => false
  end.

Fixpoint value_eqb (a b : Value) {struct a} : bool :=
  match a, b with
  | Null, Null => true
  | Bool x, Bool y => Bool.eqb x y
  | Num x, Num y => number_eqb x y
  | Str x, Str y => str_eqb x y
  | Array x, Array y =>
      (fix go l1 l2 := match l1, l2 with
                       | [], [] => true
                       | v :: l1', w :: l2' => value_eqb v w && go l1' l2'
                       | _, _ => false
                       end) x y
  | Object x, Object y =>
      (fix go m1 m2 := match m1, m2 with
                       | [], [] => true
                       | (k, v) :: m1', (k', w) :: m2' =>
                           str_eqb k k' && value_eqb v w && go m1' m2'
                       | _, _ => false
                       end) x y
  | _, _ => false
  end.

Definition option_value_eqb (a b : option Value) : bool :=
  match a, b with
  | Some x, Some y => value_eqb x y
  | None, None => true
  | _, _ => false
  end.

(** ** Reading *)

Definition get (v : Value) (k : string) : option Value :=
  match v with Object m => map_get m k | _ => None end.

(** [v[k]]: [Null] when [v] is no object or has no such key. *)
Definition index (v : Value) (k : string) : Value := default Null (get v k).
Notation "v .[ k ]" := (index v k) (at level 1, left associativity, format "v .[ k ]") : kube_scope.

Definition as_str (v : Value) : option string :=
  match v with Str s => Some s | _ => None end.
Definition as_bool (v : Value) : option bool :=
  match v with Bool b => Some b | _ => None end.
Definition as_i64 (v : Value) : option Z :=
  match v with
  | Num (PosInt n) => if n <=? i64_max then Some n else None
  | Num (NegInt n) => Some n
  | _ => None
  end.
Definition as_u64 (v : Value) : option Z :=
  match v with Num (PosInt n) => Some n | _ => None end.
Definition as_array (v : Value) : option (list Value) :=
  match v with Array l => Some l | _ => None end.
Definition as_object (v : Value) : option Map :=
  match v with Object m => Some m | _ => None end.
Definition is_null (v : Value) : bool := match v with Null => true | _ => false end.
Definition is_object (v : Value) : bool := match v with Object _ => true | _ => false end.
Definition is_array (v : Value) : bool := match v with Array _ => true | _ => false end.
Definition is_string (v : Value) : bool := match v with Str _ => true | _ => false end.

(** [v.as_array().into_iter().flatten()], [.as_array().cloned().unwrap_or_default()]
    and [.as_array().map(|v| v.as_slice()).unwrap_or(&[])]: the items, or none. *)
Definition items (v : Value) : list Value := default [] (as_array v).
(** [v.as_object().into_iter().flatten()]. *)
Definition entries (v : Value) : Map := default [] (as_object v).

(** [v.as_str().unwrap_or(d)]. *)
Definition str_or (d : string) (v : Value) : string := default d (as_str v).

Lemma str_or_Str d s : str_or d (Str s) = s.
Proof. reflexivity. Qed.
#[export] Hint Rewrite str_or_Str : kube.

(** [v.as_str() == Some(s)]. *)
Definition str_is (v : Value) (s : string) : bool :=
  match as_str v with Some x => str_eqb x s | None => false end.

Lemma str_is_spec v s : str_is v s = true ↔ v = Str s.
Proof.
  unfold str_is, as_str. destruct v; try done.
  rewrite str_eqb_eq. split; [by intros -> | by intros [= ->]].
Qed.

(** ** Writing *)

(** [v[k] = x]: inserts into an object, turns [Null] into an object, and
    panics ([None]) on anything else. *)
Definition set_index (v : Value) (k : string) (x : Value) : option Value :=
  match v with
  | Object m => Some (Object (map_insert m k x))
  | Null => Some (Object [(k, x)])
  | _ => None
  end.

(** [v[k1][k2] = x]: [IndexMut] creates the missing [v[k1]] as [Null]. *)
Definition set_index2 (v : Value) (k1 k2 : string) (x : Value) : option Value :=
  match set_index (index v k1) k2 x with
  | Some inner => set_index v k1 inner
  | None => None
  end.

(** [if let Some(m) = v[k].as_object_mut() { m.remove(x) }] through [get_mut]:
    nothing happens unless [v[k]] is an object. *)
Definition remove_at (v : Value) (k x : string) : Value :=
  match v with
  | Object m =>
      match map_get m k with
      | Some (Object inner) => Object (map_insert m k (Object (map_remove inner x)))
      | _ => v
      end
  | _ => v
  end.

(** [v[k]] used as a place: [IndexMut] leaves a missing entry behind as [null]. *)
Definition touch (v : Value) (k : string) : option Value :=
  match v with
  | Object m => Some (match map_get m k with Some _ => v | None => Object (map_insert m k Null) end)
  | Null => Some (Object [(k, Null)])
  | _ => None
  end.

Definition touch2 (v : Value) (k1 k2 : string) : option Value :=
  match get (index v k1) k2 with Some _ => Some v | None => set_index2 v k1 k2 Null end.

(** [if let Some(m) = v.get_mut(k).and_then(as_object_mut) { m.insert(x, y) }]. *)
Definition insert_at (v : Value) (k x : string) (y : Value) : Value :=
  match v with
  | Object m =>
      match map_get m k with
      | Some (Object inner) => Object (map_insert m k (Object (map_insert inner x y)))
      | _ => v
      end
  | _ => v
  end.

(** [json!(n)] of a signed integer. *)
Definition num_i64 (n : Z) : Value := Num (if n <? 0 then NegInt n else PosInt n).

(** ** Well-formed objects *)

Definition number_wf (n : Number) : bool :=
  match n with
  | PosInt z => (0 <=? z) && (z <=? u64_max)
  | NegInt z => (i64_min <=? z) && (z <? 0)
  | Float f => match f with S754_finite _ _ _ | S754_zero _ => true | _ => false end
  end.

Fixpoint wf_value (v : Value) : bool :=
  match v with
  | Null | Bool _ | Str _ => true
  | Num n => number_wf n
  | Array l => forallb wf_value l
  | Object m => keys_sorted m && forallb (λ kv, wf_value kv.2) m
  end.

(** ** Laws of the accessors *)

Lemma wf_object_insert m k v :
  wf_value (Object m) = true → wf_value v = true → wf_value (Object (map_insert m k v)) = true.
Proof.
  simpl. intros [Hs Hf]%andb_true_iff Hv. apply andb_true_iff. split.
  - by apply keys_sorted_insert.
  - by apply forallb_insert.
Qed.

Lemma wf_object_remove m k :
  wf_value (Object m) = true → wf_value (Object (map_remove m k)) = true.
Proof.
  simpl. intros [Hs Hf]%andb_true_iff. apply andb_true_iff. split.
  - by apply keys_sorted_remove.
  - by apply forallb_remove.
Qed.

Lemma wf_map_get m k v : wf_value (Object m) = true → map_get m k = Some v → wf_value v = true.
Proof.
  simpl. intros [_ Hf]%andb_true_iff Hg%map_get_In.
  rewrite forallb_forall in Hf. by apply (Hf (k, v)).
Qed.

Lemma wf_index v k : wf_value v = true → wf_value (index v k) = true.
Proof.
  unfold index, get. destruct v; try done. intros H.
  destruct (map_get m k) eqn:E; [|done]. by eapply wf_map_get.
Qed.

Lemma wf_set_index v k x w :
  wf_value v = true → wf_value x = true → set_index v k x = Some w → wf_value w = true.
Proof.
  unfold set_index. destruct v; try done; intros Hv Hx [= <-].
  - simpl. by rewrite Hx.
  - by apply wf_object_insert.
Qed.

Lemma index_set_index v k x w : set_index v k x = Some w → index w k = x.
Proof.
  unfold set_index, index, get. destruct v; try done; intros [= <-].
  - simpl. by rewrite str_eqb_refl.
  - by rewrite map_get_insert_eq.
Qed.

Lemma index_set_index_ne v k x w k' : k' ≠ k → set_index v k x = Some w → index w k' = index v k'.
Proof.
  unfold set_index, index, get. intros Hne. destruct v; try done; intros [= <-].
  - simpl. apply str_eqb_neq in Hne. by rewrite Hne.
  - by rewrite map_get_insert_ne.
Qed.

Lemma index2_set_index2 v k1 k2 x w : set_index2 v k1 k2 x = Some w → index (index w k1) k2 = x.
Proof.
  unfold set_index2. destruct (set_index (index v k1) k2 x) eqn:E; [|done].
  intros H%index_set_index. rewrite H. by apply index_set_index in E.
Qed.

Lemma set_index2_inner v k1 k2 x w :
  set_index2 v k1 k2 x = Some w → ∀ k, k ≠ k1 → index w k = index v k.
Proof. unfold set_index2. destruct (set_index _ _ _) as [i|]; [|done]. intros Hw k Hk. by eapply index_set_index_ne. Qed.

Lemma index2_set_index2_ne v k1 k2 x w k : set_index2 v k1 k2 x = Some w → k ≠ k2 → index (index w k1) k = index (index v k1) k.
Proof.
  unfold set_index2. destruct (set_index (index v k1) k2 x) eqn:E; [|done].
  intros H%index_set_index Hk. rewrite H. by eapply index_set_index_ne.
Qed.

Lemma set_index2_object v k1 k2 x :
  is_object v = true → is_object (index v k1) = true →
  ∃ w, set_index2 v k1 k2 x = Some w ∧ is_object w = true ∧ is_object (index w k1) = true.
Proof.
  intros Hv Hi. unfold set_index2. destruct (index v k1) as [| | | | |m] eqn:Ei; try done. cbn [set_index].
  destruct v as [| | | | |n]; try done. eexists. split_and!; [done|done|].
  unfold index, get. by rewrite map_get_insert_eq.
Qed.

Lemma set_index_twice v k x y w : set_index v k x = Some w → set_index w k y = set_index v k y.
Proof. destruct v; try done; intros [= <-]; cbn; [by rewrite str_eqb_refl|by rewrite map_insert_twice]. Qed.

Lemma set_index2_twice v k1 k2 x w y : set_index2 v k1 k2 x = Some w → set_index2 w k1 k2 y = set_index2 v k1 k2 y.
Proof.
  unfold set_index2. destruct (set_index (index v k1) k2 x) as [i|] eqn:Ei; [|done]. intros E.
  rewrite (index_set_index _ _ _ _ E), (set_index_twice _ _ _ y _ Ei).
  destruct (set_index (index v k1) k2 y); [|done]. by apply set_index_twice with (x := i).
Qed.

Lemma index2_remove_at_ne v k x y : y ≠ x → index (index (remove_at v k x) k) y = index (index v k) y.
Proof.
  intros Hne. unfold remove_at. destruct v as [| | | | |m]; try done. destruct (map_get m k) as [[| | | | |i]|] eqn:E; try done.
  unfold index, get. rewrite map_get_insert_eq, E. cbn. by rewrite map_get_remove_ne.
Qed.

Lemma index_remove_at_ne v k x y : y ≠ k → index (remove_at v k x) y = index v y.
Proof.
  intros Hne. unfold remove_at. destruct v as [| | | | |m]; try done. destruct (map_get m k) as [[| | | | |i]|] eqn:E; try done.
  unfold index, get. by rewrite map_get_insert_ne.
Qed.

(** [==] is reflexive on every value the parser produces (no NaN). *)
Lemma number_eqb_refl n : number_wf n = true → number_eqb n n = true.
Proof.
  destruct n as [z|z|f]; simpl; intros H; [apply Z.eqb_refl..|].
  destruct f as [s| | |s m e]; try done; unfold SFeqb; simpl.
  destruct s; rewrite Z.compare_refl; [rewrite Pos.compare_refl|rewrite Pos.compare_refl]; done.
Qed.

Lemma value_eqb_refl v : wf_value v = true → value_eqb v v = true.
Proof.
  induction v as [|b|n|s|l IH|m IH] using Value_ind'; simpl; intros H.
  - done.
  - by destruct b.
  - by apply number_eqb_refl.
  - apply str_eqb_refl.
  - induction IH as [|x l Hx _ IHl]; [done|]. simpl in H.
    apply andb_true_iff in H as [H1 H2]. rewrite Hx by done. by apply IHl.
  - apply andb_true_iff in H as [_ H].
    induction IH as [|[k x] m Hx _ IHm]; [done|]. simpl in H, Hx.
    apply andb_true_iff in H as [H1 H2]. rewrite str_eqb_refl, Hx by done. by apply IHm.
Qed.

(** ** The [json!] macro on an object literal *)

Definition json_obj (l : list (string * Value)) : Value :=
  Object (fold_left (λ m kv, map_insert m kv.1 kv.2) l []).

(** [==] is equality on values without fractions. *)
Fixpoint no_floats (v : Value) : bool :=
  match v with
  | Num (Float _) => false
  | Array l => forallb no_floats l
  | Object m => forallb (λ kv, no_floats kv.2) m
  | _ => true
  end.

Lemma value_eqb_eq v w : no_floats v = true → value_eqb v w = true ↔ v = w.
Proof.
  revert w. induction v as [|b|n|s|l IH|m IH] using Value_ind'; intros w Hn; destruct w as [|b'|n'|s'|l'|m'];
    simpl in *; try done.
  - rewrite Bool.eqb_true_iff. naive_solver.
  - destruct n, n'; simpl in *; try done; rewrite Z.eqb_eq; naive_solver.
  - rewrite str_eqb_eq. naive_solver.
  - transitivity (l = l'); [|naive_solver]. revert l' Hn.
    induction IH as [|x l Hx _ IHl]; intros [|y l']; simpl; try done.
    intros [H1 H2]%andb_true_iff. rewrite andb_true_iff, Hx, IHl by done. naive_solver.
  - transitivity (m = m'); [|naive_solver]. revert m' Hn.
    induction IH as [|[k x] m Hx _ IHm]; intros [|[k' y] m']; simpl in *; try done.
    intros [H1 H2]%andb_true_iff. rewrite !andb_true_iff, str_eqb_eq, Hx, IHm by done. naive_solver.
Qed.

Lemma value_eqb_no_floats v w : value_eqb v w = true → no_floats v = no_floats w.
Proof.
  revert w. induction v as [| |n| |l IH|m IH] using Value_ind'; intros [| |n'| |l'|m'] E; try done.
  - cbn in E. destruct n, n'; done.
  - cbn in *. revert l' E. induction IH as [|x l Hx _ IHl]; intros [|y l'] E; try done. cbn in *.
    apply andb_true_iff in E as [E1 E2]. by rewrite (Hx _ E1), (IHl _ E2).
  - cbn in *. revert m' E. induction IH as [|[k x] m Hx _ IHm]; intros [|[k' y] m'] E; try done. cbn in *.
    apply andb_true_iff in E as [[_ E1]%andb_true_iff E2]. by rewrite (Hx _ E1), (IHm _ E2).
Qed.

Lemma value_eqb_eq_r v w : no_floats w = true → value_eqb v w = true ↔ v = w.
Proof.
  intros Hn. split.
  - intros E. apply value_eqb_eq; [|done]. by rewrite (value_eqb_no_floats _ _ E).
  - intros ->. by apply value_eqb_eq.
Qed.
