(* ===== verification/F64.v ===== *)
(** * [f64]

    IEEE binary64 as the program uses it: the Standard Library's executable
    [SpecFloat] at precision 53 and exponent bound 1024, round to nearest even.
    Besides the arithmetic this file holds [str::parse::<f64>], the casts
    between [u64]/[i64] and [f64] (the latter saturating, NaN to 0), and the
    exactness lemmas: integers below [2^53] and their products with a power of
    two are represented exactly. *)

From stdpp Require Import base gmap strings list numbers option.
From Stdlib Require Import ZArith Lia String Ascii.
From Stdlib.Floats Require Import SpecFloat.
From S2P Require Import Prelude Text.
Open Scope Z_scope.

Notation f64 := spec_float.

Definition f64_zero : f64 := S754_zero false.
Definition f64_mul : f64 → f64 → f64 := SFmul 53 1024.
Definition f64_add : f64 → f64 → f64 := SFadd 53 1024.
Definition f64_sub : f64 → f64 → f64 := SFsub 53 1024.
Definition f64_div : f64 → f64 → f64 := SFdiv 53 1024.
Definition f64_lt (a b : f64) : bool := SFltb a b.
Definition f64_le (a b : f64) : bool := SFleb a b.
Definition f64_eq (a b : f64) : bool := SFeqb a b.
Definition f64_neg (a : f64) : f64 := SFopp a.
Definition f64_is_nan (a : f64) : bool := match a with S754_nan => true | _ => false end.

(** [f64::max]: the other operand when one is NaN. *)
Definition f64_max (a b : f64) : f64 :=
  if f64_is_nan a then b else if f64_is_nan b then a else if f64_lt a b then b else a.
Definition f64_min (a b : f64) : f64 :=
  if f64_is_nan a then b else if f64_is_nan b then a else if f64_lt b a then b else a.

(** [n as f64] of an integer. *)
Definition f64_of_Z (n : Z) : f64 := binary_normalize 53 1024 n 0 false.

(** The magnitude of a finite number, truncated, rounded up, and rounded half
    away from zero. *)
Definition mag_trunc (m : positive) (e : Z) : Z := Z.shiftl (Z.pos m) e.
Definition mag_ceil (m : positive) (e : Z) : Z := - Z.shiftl (- Z.pos m) e.
Definition mag_round (m : positive) (e : Z) : Z :=
  if 0 <=? e then Z.shiftl (Z.pos m) e
  else Z.shiftr (Z.pos m + Z.shiftl 1 (- e - 1)) (- e).

(** [f as u64], [f as i64]: towards zero, saturating, NaN to 0. *)
Definition f64_to_u64 (f : f64) : Z :=
  match f with
  | S754_nan | S754_zero _ | S754_infinity true | S754_finite true _ _ => 0
  | S754_infinity false => u64_max
  | S754_finite false m e => Z.min u64_max (mag_trunc m e)
  end.

Definition f64_to_i64 (f : f64) : Z :=
  match f with
  | S754_nan | S754_zero _ => 0
  | S754_infinity s => if s then i64_min else i64_max
  | S754_finite false m e => Z.min i64_max (mag_trunc m e)
  | S754_finite true m e => Z.max i64_min (- mag_trunc m e)
  end.

(** [f64::ceil], [f64::floor], [f64::round]; an already integral value (any
    non-negative exponent) is itself. *)
Definition f64_with_sign (s : bool) (n : Z) : f64 :=
  if n =? 0 then S754_zero s else f64_of_Z (if s then - n else n).

Definition f64_ceil (f : f64) : f64 :=
  match f with
  | S754_finite s m e =>
      if 0 <=? e then f
      else f64_with_sign s (if s then mag_trunc m e else mag_ceil m e)
  | _ => f
  end.
Definition f64_floor (f : f64) : f64 :=
  match f with
  | S754_finite s m e =>
      if 0 <=? e then f
      else f64_with_sign s (if s then mag_ceil m e else mag_trunc m e)
  | _ => f
  end.
Definition f64_round (f : f64) : f64 :=
  match f with
  | S754_finite s m e => if 0 <=? e then f else f64_with_sign s (mag_round m e)
  | _ => f
  end.

(** ** [str::parse::<f64>] *)

(** The longest prefix of decimal digits, and the rest. *)
Fixpoint take_digits (s : string) : string * string :=
  match s with
  | String c s' =>
      if is_ascii_digit c then
        let '(d, r) := take_digits s' in (String c d, r)
      else (EmptyString, s)
  | EmptyString => (EmptyString, EmptyString)
  end.

(** The exponent's digits; [core] stops accumulating at 65536. *)
Fixpoint scientific_digits (acc : Z) (s : string) : Z :=
  match s with
  | String c s' =>
      match digit_val c with
      | Some d => scientific_digits (if acc <? 65536 then 10 * acc + d else acc) s'
      | None => acc
      end
  | EmptyString => acc
  end.

(** What may follow the mantissa: nothing, or an exponent with a digit. *)
Definition parse_scientific (s : string) : option Z :=
  match s with
  | EmptyString => Some 0
  | String c s' =>
      if bool_decide (c = "e"%char) || bool_decide (c = "E"%char) then
        let '(neg, body) :=
          match s' with
          | String "-"%char b => (true, b)
          | String "+"%char b => (false, b)
          | _ => (false, s')
          end in
        let '(d, r) := take_digits body in
        if is_empty_str d || negb (is_empty_str r) then None
        else let e := scientific_digits 0 d in Some (if neg then - e else e)
      else None
  end.

(** [m * 10^e] correctly rounded.  Above [10^310] every value is infinite and
    below [10^-330] every value is zero, so the powers stay small. *)
Definition f64_of_decimal (s : bool) (digits : string) (e : Z) : f64 :=
  match default 0 (parse_digits digits) with
  | Z.pos m =>
      let top := Z.of_nat (String.length (trim_start_char "0" digits)) + e in
      if 310 <? top then S754_infinity s
      else if top <? -330 then S754_zero s
      else if 0 <=? e then binary_normalize 53 1024 ((if s then -1 else 1) * (Z.pos m * 10 ^ e)) 0 s
      else
        let '(q, e', l) := SFdiv_core_binary 53 1024 (Z.pos m) 0 (10 ^ (- e)) 0 in
        binary_round_aux 53 1024 s q e' l
  | _ => S754_zero s
  end.

Definition parse_decimal (s : bool) (t : string) : option f64 :=
  let '(int, r) := take_digits t in
  let '(frac, r') :=
    match r with
    | String "."%char r0 => take_digits r0
    | _ => (EmptyString, r)
    end in
  if is_empty_str (int ++ frac)%string then None
  else
    e ← parse_scientific r';
    Some (f64_of_decimal s (int ++ frac)%string (e - Z.of_nat (String.length frac))).

Definition ascii_lower (c : ascii) : ascii :=
  let n := nat_of_ascii c in
  if (Nat.leb 65 n && Nat.leb n 90)%bool then ascii_of_nat (n + 32) else c.
Fixpoint str_lower (s : string) : string :=
  match s with EmptyString => EmptyString | String c s' => String (ascii_lower c) (str_lower s') end.

Definition parse_inf_nan (s : bool) (t : string) : option f64 :=
  let l := str_lower t in
  if str_in l ["inf"; "infinity"] then Some (S754_infinity s)
  else if str_eqb l "nan" then Some S754_nan
  else None.

Definition parse_f64 (t : string) : option f64 :=
  let '(s, body) :=
    match t with
    | String "-"%char b => (true, b)
    | String "+"%char b => (false, b)
    | _ => (false, t)
    end in
  match parse_decimal s body with
  | Some f => Some f
  | None => parse_inf_nan s body
  end.

Example parse_f64_1 : parse_f64 "1.5" = Some (S754_finite false 6755399441055744 (-52)).
Proof. vm_compute. reflexivity. Qed.
Example parse_f64_2 : parse_f64 "1e-3" = Some (S754_finite false 4611686018427388 (-62)).
Proof. vm_compute. reflexivity. Qed.
Example parse_f64_3 : (parse_f64 "1e400", parse_f64 "1e", parse_f64 "-.5e1", parse_f64 "") =
  (Some (S754_infinity false), None, Some (S754_finite true 5629499534213120 (-50)), None).
Proof. vm_compute. reflexivity. Qed.

(** ** Exactness *)

(** [f] is exactly the positive integer [n]. *)
Definition f64_repr (f : f64) (n : Z) : Prop :=
  ∃ m e, f = S754_finite false m e ∧ -1074 ≤ e ∧ Z.pos m * 2 ^ (e + 1074) = n * 2 ^ 1074.

Lemma digits2_bound p : 2 ^ (Z.pos (digits2_pos p) - 1) ≤ Z.pos p < 2 ^ Z.pos (digits2_pos p).
Proof.
  change (digits2_pos p) with (Pos.size p).
  pose proof (Pos.size_gt p) as H1. pose proof (Pos.size_le p) as H2.
  assert (Z.pos p < 2 ^ Z.pos (Pos.size p)) as H1'.
  { rewrite <- Pos2Z.inj_pow. lia. }
  assert (2 ^ Z.pos (Pos.size p) ≤ 2 * Z.pos p) as H2'.
  { rewrite <- Pos2Z.inj_pow. lia. }
  split; [|done].
  assert (2 ^ Z.pos (Pos.size p) = 2 * 2 ^ (Z.pos (Pos.size p) - 1)) as E.
  { rewrite <- Z.pow_succ_r by lia. f_equal. lia. }
  lia.
Qed.

Lemma shr_exact p q :
  0 ≤ q → iter_pos shr_1 p (Build_shr_record (q * 2 ^ Z.pos p) false false)
          = Build_shr_record q false false.
Proof.
  assert (∀ q, 0 ≤ q → shr_1 (Build_shr_record (2 * q) false false) = Build_shr_record q false false)
    as H1 by (intros [|z|z] Hz; [done|done|lia]).
  revert q. induction p as [p IH|p IH|]; intros q Hq; cbn [iter_pos].
  - replace (q * 2 ^ Z.pos p~1) with (2 * ((q * 2 ^ Z.pos p) * 2 ^ Z.pos p))
      by (rewrite (Pos2Z.inj_xI p), !Z.pow_add_r, Z.pow_mul_r by lia; change (2^1) with 2;
          replace (2 * Z.pos p) with (Z.pos p + Z.pos p) by lia;
          replace ((2 ^ 2) ^ Z.pos p) with (2 ^ Z.pos p * 2 ^ Z.pos p)
            by (rewrite <- Z.pow_mul_l; done); lia).
    rewrite H1 by (apply Z.mul_nonneg_nonneg; [apply Z.mul_nonneg_nonneg|]; lia).
    rewrite IH by (apply Z.mul_nonneg_nonneg; lia). by apply IH.
  - replace (q * 2 ^ Z.pos p~0) with ((q * 2 ^ Z.pos p) * 2 ^ Z.pos p)
      by (rewrite (Pos2Z.inj_xO p), Z.pow_mul_r by lia;
          replace ((2 ^ 2) ^ Z.pos p) with (2 ^ Z.pos p * 2 ^ Z.pos p)
            by (rewrite <- Z.pow_mul_l; done); lia).
    rewrite IH by (apply Z.mul_nonneg_nonneg; lia). by apply IH.
  - replace (q * 2 ^ 1) with (2 * q) by lia. by apply H1.
Qed.

(** A shift that loses no bits. *)
Lemma shr_fexp_exact m e n :
  fexp 53 1024 (Zdigits2 m + e) - e = n → 0 ≤ m → 0 ≤ n → (2 ^ n | m) →
  shr_fexp 53 1024 m e loc_Exact = (Build_shr_record (m / 2 ^ n) false false, e + n).
Proof.
  intros En Hm Hn [q ->]. unfold shr_fexp. rewrite En.
  assert (0 < 2 ^ n) by (apply Z.pow_pos_nonneg; lia).
  rewrite Z.div_mul by lia. simpl. destruct n as [|p|p]; [|simpl|lia].
  - simpl. by rewrite Z.mul_1_r, Z.add_0_r.
  - rewrite shr_exact; [done|nia].
Qed.

Lemma shr_fexp_none m e l :
  fexp 53 1024 (Zdigits2 m + e) ≤ e →
  shr_fexp 53 1024 m e l = (shr_record_of_loc m l, e).
Proof.
  intros H. unfold shr_fexp. destruct (fexp 53 1024 (Zdigits2 m + e) - e) as [|p|p] eqn:E; [done|lia|done].
Qed.

Lemma Zdigits2_bound m : 0 < m → 2 ^ (Zdigits2 m - 1) ≤ m < 2 ^ Zdigits2 m ∧ 0 < Zdigits2 m.
Proof. destruct m as [|p|p]; intros; [lia| |lia]. split; [apply digits2_bound|done]. Qed.

Lemma Zdigits2_le m n : 0 < m → 0 ≤ n → m < 2 ^ n → Zdigits2 m ≤ n.
Proof.
  intros Hm Hn Hlt. destruct (Zdigits2_bound m Hm) as [[H1 _] H2].
  assert (2 ^ (Zdigits2 m - 1) < 2 ^ n) as H by lia.
  apply Z.pow_lt_mono_r_iff in H; lia.
Qed.

Lemma Zdigits2_unique m d : 0 < d → 2 ^ (d - 1) ≤ m < 2 ^ d → Zdigits2 m = d.
Proof.
  intros Hd [H1 H2]. assert (0 < m) as Hm by (pose proof (Z.pow_pos_nonneg 2 (d-1)); lia).
  apply Z.le_antisymm; [apply Zdigits2_le; lia|].
  destruct (Zdigits2_bound m Hm) as [[H3 H4] H5].
  assert (2 ^ (d - 1) < 2 ^ Zdigits2 m) as H by lia. apply Z.pow_lt_mono_r_iff in H; lia.
Qed.

(** Rounding a mantissa of which only 53 bits matter keeps the value. *)
Lemma round_aux_exact m e k :
  0 < m → 0 ≤ k → (2 ^ k | m) → m < 2 ^ (k + 53) → -1074 ≤ e + k → e ≤ 900 → Zdigits2 m + e ≤ 1000 →
  ∃ m1 e1, binary_round_aux 53 1024 false m e loc_Exact = S754_finite false m1 e1 ∧
    e ≤ e1 ∧ -1074 ≤ e1 ∧ Z.pos m1 * 2 ^ (e1 - e) = m.
Proof.
  intros Hm Hk Hdvd Hlt Hek He Hde. set (d := Zdigits2 m).
  assert (d ≤ k + 53) as Hd by (apply Zdigits2_le; lia).
  destruct (Zdigits2_bound m Hm) as [Hb Hd0]. fold d in Hb, Hd0.
  set (n := fexp 53 1024 (d + e) - e). unfold fexp, emin in n.
  unfold binary_round_aux. destruct (decide (0 < n)) as [Hn|Hn].
  - assert (n ≤ k) as Hnk by lia.
    assert (2 ^ n | m) as Hdn.
    { etransitivity; [|exact Hdvd]. exists (2 ^ (k - n)).
      rewrite <- Z.pow_add_r by lia. f_equal. lia. }
    rewrite (shr_fexp_exact m e n) by (done || lia). simpl shr_m. simpl loc_of_shr_record. cbv iota beta.
    unfold round_nearest_even.
    destruct Hdn as [q Eq]. assert (0 < 2 ^ n) by (apply Z.pow_pos_nonneg; lia).
    assert (m / 2 ^ n = q) as -> by (rewrite Eq; apply Z.div_mul; lia).
    assert (0 < q) as Hq by nia.
    destruct (decide (n < d)) as [Hnd|Hnd].
    2:{ exfalso. assert (2 ^ d ≤ 2 ^ n) by (apply Z.pow_le_mono_r; lia). nia. }
    assert (Zdigits2 q = d - n) as Edq.
    { apply Zdigits2_unique; [lia|].
      assert (2 ^ (d - 1) = 2 ^ (d - n - 1) * 2 ^ n) as E1 by (rewrite <- Z.pow_add_r by lia; f_equal; lia).
      assert (2 ^ d = 2 ^ (d - n) * 2 ^ n) as E2 by (rewrite <- Z.pow_add_r by lia; f_equal; lia).
      rewrite E1, E2, Eq in Hb. split; [apply (Z.mul_le_mono_pos_r _ _ (2 ^ n)); lia|].
      apply (Z.mul_lt_mono_pos_r (2 ^ n)); lia. }
    rewrite shr_fexp_none by (rewrite Edq; unfold fexp, emin; lia).
    simpl. destruct q as [|q|q]; [lia| |lia].
    destruct (e + n <=? 1024 - 53) eqn:Ele; [|apply Z.leb_gt in Ele; lia].
    exists q, (e + n). split_and!; [done|lia|lia|]. rewrite Eq. f_equal. f_equal. lia.
  - rewrite shr_fexp_none by (fold d; unfold fexp, emin; lia). simpl.
    rewrite shr_fexp_none by (fold d; unfold fexp, emin; lia). simpl.
    destruct m as [|p|p]; [lia| |lia].
    destruct (e <=? 1024 - 53) eqn:Ele; [|apply Z.leb_gt in Ele; lia].
    exists p, e. split_and!; [done|lia|lia|]. replace (e - e) with 0 by lia. lia.
Qed.

Lemma pow_cancel a b c : 0 ≤ c → a * 2 ^ c = b * 2 ^ c → a = b.
Proof. intros Hc. apply Z.mul_cancel_r. pose proof (Z.pow_pos_nonneg 2 c). lia. Qed.

(** Rounding [m * 2^e] when that is an integer of which only 53 bits matter. *)
Lemma round_aux_repr m e q k :
  -2148 ≤ e ≤ 900 → 0 < m → 0 ≤ k ≤ 200 → 0 < q < 2 ^ 53 →
  m * 2 ^ (e + 2148) = (q * 2 ^ k) * 2 ^ 2148 →
  f64_repr (binary_round_aux 53 1024 false m e loc_Exact) (q * 2 ^ k).
Proof.
  intros He Hm Hk Hq E.
  assert (∃ j, 0 ≤ j ∧ (2 ^ j | m) ∧ m < 2 ^ (j + 53) ∧ -1074 ≤ e + j) as (j & Hj & Hd & Hlt & Hej).
  { destruct (decide (e ≤ k)) as [Hek|Hek].
    - assert (m = q * 2 ^ (k - e)) as ->.
      { apply (pow_cancel _ _ (e + 2148)); [lia|]. rewrite E, <- !Z.mul_assoc, <- !Z.pow_add_r by lia.
        do 2 f_equal. lia. }
      exists (k - e). split_and!; [lia|by exists q| |lia].
      rewrite Z.pow_add_r by lia. pose proof (Z.pow_pos_nonneg 2 (k - e)). nia.
    - assert (q = m * 2 ^ (e - k)) as Eq.
      { apply (pow_cancel _ _ (k + 2148)); [lia|].
        rewrite <- Z.mul_assoc, <- Z.pow_add_r by lia. replace (e - k + (k + 2148)) with (e + 2148) by lia.
        rewrite E, <- Z.mul_assoc, <- Z.pow_add_r by lia. done. }
      exists 0. split_and!; [lia|exists m; lia| |lia].
      pose proof (Z.pow_pos_nonneg 2 (e - k)). change (2 ^ (0 + 53)) with (2 ^ 53). nia. }
  assert (Zdigits2 m + e ≤ 1000) as Hde.
  { destruct (Zdigits2_bound m Hm) as [[Hb _] Hd0].
    assert (2 ^ (Zdigits2 m - 1 + (e + 2148)) ≤ 2 ^ (53 + 200 + 2148)) as Hp.
    { rewrite Z.pow_add_r by lia. etransitivity; [apply Z.mul_le_mono_nonneg_r; [lia|exact Hb]|].
      rewrite E, !Z.pow_add_r by lia.
      apply Z.mul_le_mono_nonneg_r; [lia|]. apply Z.mul_le_mono_nonneg; [lia|lia|lia|].
      apply Z.pow_le_mono_r; lia. }
    apply Z.pow_le_mono_r_iff in Hp; lia. }
  destruct (round_aux_exact m e j) as (m1 & e1 & -> & H1 & H2 & H3); [done..|lia|done|].
  exists m1, e1. split_and!; [done|done|].
  apply (pow_cancel _ _ 1074); [lia|].
  rewrite <- (Z.mul_assoc (q * 2 ^ k)).
  replace (2 ^ 1074 * 2 ^ 1074) with (2 ^ 2148) by (rewrite <- Z.pow_add_r by lia; reflexivity).
  rewrite <- E, <- H3.
  rewrite <- !Z.mul_assoc, <- !Z.pow_add_r by lia. do 2 f_equal. lia.
Qed.

Lemma f64_repr_of_Z n : 0 < n < 2 ^ 53 → f64_repr (f64_of_Z n) n.
Proof.
  intros Hn. unfold f64_of_Z, binary_normalize. destruct n as [|p|p]; [lia| |lia].
  unfold binary_round. set (d := Z.pos (digits2_pos p)).
  assert (d ≤ 53) as Hd by (apply (Zdigits2_le (Z.pos p) 53); lia).
  assert (0 < d) by done.
  assert (fexp 53 1024 (d + 0) = d - 53) as -> by (unfold fexp, emin; lia).
  unfold shl_align.
  replace (Z.pos p) with (Z.pos p * 2 ^ 0) by lia.
  destruct (d - 53 - 0) as [|j|j] eqn:Ej; [|lia|].
  - apply round_aux_repr; [lia..|]. rewrite Z.mul_1_r. done.
  - assert (Z.pos (Pos.iter xO p j) = Z.pos p * 2 ^ Z.pos j) as E.
    { clear. induction j as [|j IH] using Pos.peano_ind; [simpl; lia|].
      rewrite Pos.iter_succ, Pos2Z.inj_succ, Z.pow_succ_r by lia. rewrite Pos2Z.inj_xO, IH. lia. }
    apply round_aux_repr; [lia..|]. rewrite E, Z.mul_1_r.
    rewrite <- Z.mul_assoc, <- Z.pow_add_r by lia. do 2 f_equal. lia.
Qed.

(** The canonical form of an integer below 2^53. *)
Lemma f64_of_Z_form n :
  0 < n < 2 ^ 53 → ∃ m, f64_of_Z n = S754_finite false m (Zdigits2 n - 53) ∧ Z.pos m = n * 2 ^ (53 - Zdigits2 n).
Proof.
  intros Hn. destruct n as [|p|p]; [lia| |lia]. set (d := Zdigits2 (Z.pos p)).
  destruct (Zdigits2_bound (Z.pos p) ltac:(lia)) as [Hb Hd0]. fold d in Hb, Hd0.
  assert (d ≤ 53) as Hd by (apply (Zdigits2_le (Z.pos p) 53); lia).
  assert (Zdigits2 (Z.pos p * 2 ^ (53 - d)) = 53) as Hdig.
  { apply Zdigits2_unique; [lia|]. assert (2 ^ (53 - 1) = 2 ^ (d - 1) * 2 ^ (53 - d)) as -> by (rewrite <- Z.pow_add_r by lia; f_equal; lia).
    assert (2 ^ 53 = 2 ^ d * 2 ^ (53 - d)) as -> by (rewrite <- Z.pow_add_r by lia; f_equal; lia).
    pose proof (Z.pow_pos_nonneg 2 (53 - d)). nia. }
  assert (∀ m, Z.pos m = Z.pos p * 2 ^ (53 - d) → binary_round_aux 53 1024 false (Z.pos m) (d - 53) loc_Exact = S754_finite false m (d - 53)) as Hround.
  { intros m Em. unfold binary_round_aux. rewrite shr_fexp_none by (rewrite Em, Hdig; unfold fexp, emin; lia). simpl.
    rewrite shr_fexp_none by (change (Z.pos (digits2_pos m)) with (Zdigits2 (Z.pos m)); rewrite Em, Hdig; unfold fexp, emin; lia). simpl.
    destruct (d - 53 <=? 1024 - 53) eqn:E; [done|apply Z.leb_gt in E; lia]. }
  unfold f64_of_Z, binary_normalize, binary_round. change (Z.pos (digits2_pos p)) with d.
  assert (fexp 53 1024 (d + 0) = d - 53) as -> by (unfold fexp, emin; lia). unfold shl_align.
  destruct (d - 53 - 0) as [|j|j] eqn:Ej; [|lia|].
  - replace (53 - d) with 0 in * by lia. exists p. split; [|lia]. rewrite <- Hround; [f_equal; lia|lia].
  - assert (Z.pos (Pos.iter xO p j) = Z.pos p * 2 ^ Z.pos j) as E.
    { clear. induction j as [|j IH] using Pos.peano_ind; [simpl; lia|].
      rewrite Pos.iter_succ, Pos2Z.inj_succ, Z.pow_succ_r by lia. rewrite Pos2Z.inj_xO, IH. lia. }
    assert (Z.pos j = 53 - d) as Ej' by lia. rewrite Ej' in E. exists (Pos.iter xO p j). split; [|done]. by apply Hround.
Qed.

(** Such integers compare as integers. *)
Lemma f64_lt_of_Z a b : 0 ≤ a < 2 ^ 53 → 0 ≤ b < 2 ^ 53 → f64_lt (f64_of_Z a) (f64_of_Z b) = (a <? b).
Proof.
  intros Ha Hb. destruct (decide (a = 0)) as [->|Hna].
  - destruct (decide (b = 0)) as [->|Hnb]; [done|]. destruct (f64_of_Z_form b) as (m & -> & _); [lia|].
    transitivity true; [done|]. symmetry. apply Z.ltb_lt. lia.
  - destruct (f64_of_Z_form a) as (ma & -> & Ea); [lia|]. destruct (decide (b = 0)) as [->|Hnb].
    { transitivity false; [done|]. symmetry. apply Z.ltb_ge. lia. }
    destruct (f64_of_Z_form b) as (mb & -> & Eb); [lia|].
    destruct (Zdigits2_bound a ltac:(lia)) as [[La Ua] Da]. destruct (Zdigits2_bound b ltac:(lia)) as [[Lb Ub] Db].
    set (da := Zdigits2 a) in *. set (db := Zdigits2 b) in *. unfold f64_lt, SFltb, SFcompare.
    destruct (Z.compare_spec (da - 53) (db - 53)) as [E|E|E].
    + assert (da = db) as E' by lia. rewrite E' in Ea. pose proof (Z.pow_pos_nonneg 2 (53 - db)).
      assert (db ≤ 53) by (apply Zdigits2_le; lia). specialize (H ltac:(lia) ltac:(lia)).
      change (Pos.compare_cont Eq ma mb) with (Pos.compare ma mb). destruct (Pos.compare_spec ma mb); symmetry; rewrite ?Z.ltb_lt, ?Z.ltb_ge; nia.
    + assert (2 ^ da ≤ 2 ^ (db - 1)) by (apply Z.pow_le_mono_r; lia). symmetry. apply Z.ltb_lt. lia.
    + assert (2 ^ db ≤ 2 ^ (da - 1)) by (apply Z.pow_le_mono_r; lia). symmetry. apply Z.ltb_ge. lia.
Qed.

Lemma f64_repr_exp f n m e : f64_repr f n → f = S754_finite false m e → 0 < n ≤ 2 ^ 200 → -1074 ≤ e ≤ 200.
Proof.
  intros (m' & e' & -> & He & E) [= -> ->] Hn. split; [done|].
  assert (2 ^ (e + 1074) ≤ 2 ^ (200 + 1074)) as Hp.
  { rewrite (Z.pow_add_r 2 200) by lia. nia. }
  apply Z.pow_le_mono_r_iff in Hp; lia.
Qed.

Lemma f64_repr_mul f g a b q k :
  f64_repr f a → f64_repr g b → 0 < a ≤ 2 ^ 200 → 0 < b ≤ 2 ^ 200 →
  a * b = q * 2 ^ k → 0 < q < 2 ^ 53 → 0 ≤ k ≤ 200 →
  f64_repr (f64_mul f g) (a * b).
Proof.
  intros Hf Hg Ha Hb E Hq Hk.
  pose proof Hf as (m1 & e1 & -> & He1 & E1). pose proof Hg as (m2 & e2 & -> & He2 & E2).
  pose proof (f64_repr_exp _ _ _ _ Hf eq_refl Ha). pose proof (f64_repr_exp _ _ _ _ Hg eq_refl Hb).
  rewrite E. unfold f64_mul, SFmul. apply round_aux_repr; [lia|lia|lia|lia|].
  rewrite <- E, Pos2Z.inj_mul.
  transitivity ((Z.pos m1 * 2 ^ (e1 + 1074)) * (Z.pos m2 * 2 ^ (e2 + 1074))).
  - replace (e1 + e2 + 2148) with ((e1 + 1074) + (e2 + 1074)) by lia.
    rewrite Z.pow_add_r by lia. ring.
  - rewrite E1, E2. change 2148 with (1074 + 1074). rewrite (Z.pow_add_r 2 1074 1074) by lia. ring.
Qed.

Lemma f64_repr_to_u64 f n : f64_repr f n → f64_to_u64 f = Z.min u64_max n.
Proof.
  intros (m & e & -> & He & E). simpl. f_equal. unfold mag_trunc.
  destruct (decide (0 ≤ e)) as [H0|H0].
  - rewrite Z.shiftl_mul_pow2 by lia. apply (pow_cancel _ _ 1074); [lia|].
    rewrite <- E, <- Z.mul_assoc, <- Z.pow_add_r by lia. done.
  - rewrite <- (Z.opp_involutive e), Z.shiftl_opp_r, Z.shiftr_div_pow2 by lia.
    assert (Z.pos m = n * 2 ^ (- e)) as ->.
    { apply (pow_cancel _ _ (e + 1074)); [lia|]. rewrite E, <- Z.mul_assoc, <- Z.pow_add_r by lia.
      do 2 f_equal. lia. }
    rewrite Z.div_mul; [done|]. pose proof (Z.pow_pos_nonneg 2 (- e)). lia.
Qed.

Lemma f64_repr_pos f n : f64_repr f n → f64_lt f64_zero f = true.
Proof. by intros (m & e & -> & _). Qed.

Lemma f64_repr_max0 f n : f64_repr f n → f64_max f f64_zero = f.
Proof. by intros (m & e & -> & _). Qed.

Lemma take_digits_all s r :
  str_forall is_ascii_digit s = true →
  (match r with String c _ => is_ascii_digit c = false | EmptyString => True end) →
  take_digits (s ++ r) = (s, r).
Proof.
  intros Hs Hr. induction s as [|c s IH]; simpl in *.
  - destruct r as [|c r]; [done|]. simpl. by rewrite Hr.
  - apply andb_true_iff in Hs as [Hc Hs]. by rewrite Hc, IH.
Qed.

Lemma show_go_length fuel n acc : (String.length (show_go fuel n acc) ≤ fuel + String.length acc)%nat.
Proof.
  revert n acc. induction fuel as [|f IH]; intros n acc; simpl; [done|].
  destruct (n <? 10); simpl; [lia|]. etransitivity; [apply IH|]. simpl. lia.
Qed.

Lemma trim_start_char_length c s : (String.length (trim_start_char c s) ≤ String.length s)%nat.
Proof. induction s as [|c' s IH]; simpl; [done|]. case_match; simpl; lia. Qed.

(** A decimal integer below [2^53] parses to itself. *)
Lemma parse_f64_show n :
  0 < n < 2 ^ 53 → ∃ f, parse_f64 (show_u n) = Some f ∧ f64_repr f n.
Proof.
  intros Hn. exists (f64_of_Z n). split; [|by apply f64_repr_of_Z].
  assert (str_forall is_ascii_digit (show_u n) = true) as Hd by (apply show_u_digits; lia).
  pose proof (parse_digits_show n ltac:(lia)) as Hp.
  assert (Z.of_nat (String.length (trim_start_char "0" (show_u n))) ≤ 100) as Hl.
  { pose proof (trim_start_char_length "0" (show_u n)).
    pose proof (show_go_length (S (Z.to_nat (Z.log2 n))) n "") as Hg. fold (show_u n) in Hg.
    simpl String.length in Hg. assert (Z.log2 n < 53) by (apply Z.log2_lt_pow2; lia). lia. }
  assert (take_digits (show_u n) = (show_u n, ""%string)) as Ht.
  { rewrite <- (str_app_nil_r (show_u n)) at 1. by apply take_digits_all. }
  assert (parse_decimal false (show_u n) = Some (f64_of_Z n)) as Hdec.
  { unfold parse_decimal. rewrite Ht. rewrite str_app_nil_r.
    destruct (show_u n) as [|c s] eqn:E; [done|]. rewrite <- E in *. simpl.
    replace (is_empty_str (show_u n)) with false by (by rewrite E).
    f_equal. unfold f64_of_decimal. rewrite Hp. simpl. destruct n as [|p|p]; [lia| |lia].
    rewrite !Z.add_0_r.
    replace (310 <? _) with false by (symmetry; apply Z.ltb_ge; lia).
    replace (_ <? -330) with false by (symmetry; apply Z.ltb_ge; lia).
    simpl. unfold f64_of_Z. by rewrite Pos.mul_1_r. }
  unfold parse_f64. destruct (show_u n) as [|c s] eqn:E; [done|]. rewrite ?E in Hdec, Hd.
  assert (is_ascii_digit c = true) as Hc by (simpl in Hd; by apply andb_true_iff in Hd as [? _]).
  assert (c ≠ "-"%char ∧ c ≠ "+"%char) as [H1 H2] by (split; intros ->; discriminate).
  destruct c as [[] [] [] [] [] [] [] []]; try congruence; by rewrite Hdec.
Qed.
