(* ===== verification/Quantity.v ===== *)
(** * Resource quantities ([pkg/apimachinery/src/quantity.rs])

    [100m], [1Gi], [1.5G], [1e9]: parsing to bytes and millicores, rendering,
    and the rewriting of JSON numbers at quantity paths to canonical strings.
    The text of a JSON float is the formatter of [serde_json], which is not
    part of the sources: it is the parameter [float_text]. *)

From stdpp Require Import base gmap strings list numbers option.
From Stdlib Require Import ZArith Lia String Ascii.
From S2P Require Import Prelude Text BTree Json F64.
Open Scope string_scope.
Open Scope Z_scope.

(** ** Parsing and printing *)

Definition scale (num : string) (mult : f64) : Z :=
  match parse_f64 num with
  | Some v => if f64_lt f64_zero v then f64_to_u64 (f64_mul v mult) else 0
  | None => 0
  end.

Definition BINARY : list (string * Z) :=
  [("Ki", 1024); ("Mi", 1048576); ("Gi", 1073741824); ("Ti", 1099511627776);
   ("Pi", 1125899906842624); ("Ei", 1152921504606846976)].

(** The multipliers of the decimal suffixes are the literals [1e-9] … [1e18]. *)
Definition DECIMAL : list (string * f64) :=
  Eval vm_compute in
  (λ sl, (sl.1, default f64_zero (parse_f64 sl.2))) <$>
  [("n", "1e-9"); ("u", "1e-6"); ("m", "1e-3"); ("k", "1e3"); ("K", "1e3"); ("M", "1e6");
   ("G", "1e9"); ("T", "1e12"); ("P", "1e15"); ("E", "1e18")].

Fixpoint parse_binary (s : string) (l : list (string * Z)) : option Z :=
  match l with
  | [] => None
  | (suffix, mult) :: l' =>
      match strip_suffix suffix s with
      | Some num => Some (scale num (f64_of_Z mult))
      | None => parse_binary s l'
      end
  end.

Fixpoint parse_decimal_suffix (s : string) (l : list (string * f64)) : option Z :=
  match l with
  | [] => None
  | (suffix, mult) :: l' =>
      match strip_suffix suffix s with
      | Some num =>
          match parse_f64 num with
          | Some _ => Some (scale num mult)
          | None => parse_decimal_suffix s l'
          end
      | None => parse_decimal_suffix s l'
      end
  end.

Definition parse_bytes (s0 : string) : Z :=
  let s := trim s0 in
  if is_empty_str s then 0
  else
    match parse_binary s BINARY with
    | Some n => n
    | None =>
        match parse_decimal_suffix s DECIMAL with
        | Some n => n
        | None =>
            match parse_f64 s with
            | Some v => f64_to_u64 (f64_max v f64_zero)
            | None => 0
            end
        end
    end.

Definition parse_cpu_millis (s0 : string) : Z :=
  let s := trim s0 in
  match strip_suffix "m" s with
  | Some stripped =>
      match parse_f64 stripped with
      | Some v => f64_to_u64 (f64_max v f64_zero)
      | None => 0
      end
  | None =>
      match parse_f64 s with
      | Some v => f64_to_u64 (f64_mul (f64_max v f64_zero) (f64_of_Z 1000))
      | None => 0
      end
  end.

Definition UNITS : list (string * Z) :=
  [("Ei", 2 ^ 60); ("Pi", 2 ^ 50); ("Ti", 2 ^ 40); ("Gi", 2 ^ 30); ("Mi", 2 ^ 20); ("Ki", 2 ^ 10)].

Fixpoint format_units (bytes : Z) (l : list (string * Z)) : string :=
  match l with
  | [] => show_u bytes
  | (suffix, size) :: l' =>
      if (size <=? bytes) && (bytes mod size =? 0) then (show_u (bytes / size) ++ suffix)%string
      else format_units bytes l'
  end.

Definition format_bytes (bytes : Z) : string := format_units bytes UNITS.

(** ** Canonical strings *)

Definition u128_lim : Z := 2 ^ 128.
Definition wrap_i32 (z : Z) : Z := (z + 2147483648) mod 4294967296 - 2147483648.
Definition is_i32 (z : Z) : bool := (-2147483648 <=? z) && (z <=? 2147483647).

(** [10u128.checked_pow(n)]. *)
Definition checked_pow10 (n : Z) : option Z := if n <=? 38 then Some (10 ^ n) else None.

(** [str::find(['e', 'E'])] and the two sides of the match. *)
Fixpoint split_exp (s : string) : option (string * string) :=
  match s with
  | EmptyString => None
  | String c s' =>
      if bool_decide (c = "e"%char) || bool_decide (c = "E"%char) then Some (EmptyString, s')
      else match split_exp s' with
           | Some (l, r) => Some (String c l, r)
           | None => None
           end
  end.

(** [while m % 10 == 0 { m /= 10; exp += 1; }] of a non-zero [m]; [fuel] bounds
    the iterations by the number of digits. *)
Fixpoint strip_zeros (fuel : nat) (m exp : Z) : Z * Z :=
  match fuel with
  | O => (m, exp)
  | S f => if m mod 10 =? 0 then strip_zeros f (m / 10) (wrap_i32 (exp + 1)) else (m, exp)
  end.

Definition si_suffix (e3 : Z) : string :=
  if e3 =? -9 then "n" else if e3 =? -6 then "u" else if e3 =? -3 then "m"
  else if e3 =? 0 then "" else if e3 =? 3 then "k" else if e3 =? 6 then "M"
  else if e3 =? 9 then "G" else if e3 =? 12 then "T" else if e3 =? 15 then "P" else "E".

Definition div_ceil (a b : Z) : Z := - (- a / b).

Definition canonical_decimal (text : string) : option string :=
  let '(negative, unsigned) :=
    match strip_prefix "-" text with Some rest => (true, rest) | None => (false, text) end in
  me ← match split_exp unsigned with
       | Some (mant, e) => e' ← parse_i32 e; Some (mant, e')
       | None => Some (unsigned, 0)
       end;
  let '(mantissa, exp_part) := me in
  let '(int, frac) := default (mantissa, "") (split_once "." mantissa) in
  let digits := trim_start_char "0" (int ++ frac) in
  if is_empty_str digits then Some "0"
  else if (38 <? Z.of_nat (String.length digits)) || negb (str_forall is_ascii_digit digits) then None
  else
    m0 ← parse_unsigned (u128_lim - 1) digits;
    let flen := Z.of_nat (String.length frac) in
    if negb (is_i32 flen) || negb (is_i32 (exp_part - flen)) then None
    else
      let '(m1, exp1) := strip_zeros (String.length digits) m0 (exp_part - flen) in
      let '(m2, exp2) :=
        if exp1 <? -9 then
          (match checked_pow10 (-9 - exp1) with Some d => div_ceil m1 d | None => 1 end, -9)
        else (m1, exp1) in
      let e3 := Z.min (exp2 / 3 * 3) 18 in
      p ← checked_pow10 (exp2 - e3);
      if m2 * p <? u128_lim then
        Some ((if negative then "-" else "") ++ show_u (m2 * p) ++ si_suffix e3)%string
      else None.

(** ** Numbers of built-in objects *)

Definition QUANTITY_RESOURCES : list string :=
  ["pods"; "podtemplates"; "replicationcontrollers"; "replicasets"; "deployments";
   "statefulsets"; "daemonsets"; "jobs"; "cronjobs"; "nodes"; "persistentvolumeclaims";
   "persistentvolumes"; "resourcequotas"; "limitranges"; "runtimeclasses";
   "horizontalpodautoscalers"; "csistoragecapacities"; "resourceslices"; "resourceclaims";
   "resourceclaimtemplates"].

Definition QUANTITY_MAPS : list string :=
  ["limits"; "requests"; "capacity"; "allocatable"; "hard"; "used"; "overhead"; "podFixed";
   "allocatedResources"; "min"; "max"; "default"; "defaultRequest"; "maxLimitRequestRatio"].

Definition QUANTITY_FIELDS : list string := ["sizeLimit"; "averageValue"; "maximumVolumeSize"].

(** [path] is the stack of object keys above the number, innermost first. *)
Definition is_quantity (resource : string) (path : list string) (key : string) : bool :=
  let parent := head path in
  let grandparent := head (tail path) in
  match parent with Some p => str_in p QUANTITY_MAPS | None => false end
  || str_in key QUANTITY_FIELDS
  || (str_eqb resource "csistoragecapacities" && str_eqb key "capacity"
      && match path with [] => true | _ => false end)
  || (str_eqb resource "horizontalpodautoscalers" && str_eqb key "value"
      && match parent with Some p => str_in p ["target"; "current"] | None => false end)
  || (str_eqb key "value" && match grandparent with Some g => str_eqb g "capacity" | None => false end).

Section Numbers.
  Variable float_text : f64 → string.

(** [Number::to_string]. *)
Definition number_text (n : Number) : string :=
  match n with PosInt z | NegInt z => show_z z | Float f => float_text f end.

Definition canonical_number (n : Number) : string :=
  let text := number_text n in default text (canonical_decimal text).

Fixpoint walk (resource : string) (v : Value) (path : list string) : Value * bool :=
  match v with
  | Object m =>
      let '(m', c) :=
        (fix go (m : list (string * Value)) : list (string * Value) * bool :=
           match m with
           | [] => ([], false)
           | (k, child) :: m' =>
               let '(child', c1) :=
                 match child with
                 | Num n =>
                     if is_quantity resource path k then (Str (canonical_number n), true)
                     else (child, false)
                 | _ => walk resource child (k :: path)
                 end in
               let '(m'', c2) := go m' in
               ((k, child') :: m'', c1 || c2)
           end) m in
      (Object m', c)
  | Array l =>
      let '(l', c) :=
        (fix go (l : list Value) : list Value * bool :=
           match l with
           | [] => ([], false)
           | x :: l' =>
               let '(x', c1) := walk resource x path in
               let '(l'', c2) := go l' in
               (x' :: l'', c1 || c2)
           end) l in
      (Array l', c)
  | _ => (v, false)
  end.

Definition numbers_to_strings (resource : string) (obj : Value) : Value * bool :=
  if str_in resource QUANTITY_RESOURCES then walk resource obj [] else (obj, false).

End Numbers.

Example canon_1 : canonical_decimal "0.5" = Some "500m" ∧ canonical_decimal "1000" = Some "1k"
  ∧ canonical_decimal "1500" = Some "1500" ∧ canonical_decimal "1e21" = Some "1000E"
  ∧ canonical_decimal "1e-10" = Some "1n" ∧ canonical_decimal "-2" = Some "-2"
  ∧ canonical_decimal "1073741824" = Some "1073741824".
Proof. vm_compute. auto 10. Qed.
Example bytes_1 : parse_bytes "1.5Gi" = 1610612736 ∧ parse_bytes "1e9" = 1000000000 ∧ parse_bytes "-5Gi" = 0
  ∧ parse_bytes "plenty" = 0 ∧ parse_bytes "2Ti" = 2199023255552 ∧ parse_bytes "1k" = 1000
  ∧ parse_cpu_millis "0.5" = 500 ∧ parse_cpu_millis "100m" = 100.
Proof. vm_compute. auto 10. Qed.

(** ** Theorems: canonical strings *)

(** What the text of a number denotes: sign, digits and power of ten. *)
Definition decimal_parts (text : string) : option (bool * Z * Z) :=
  let '(negative, unsigned) :=
    match strip_prefix "-" text with Some rest => (true, rest) | None => (false, text) end in
  me ← match split_exp unsigned with
       | Some (mant, e) => e' ← parse_i32 e; Some (mant, e')
       | None => Some (unsigned, 0)
       end;
  let '(int, frac) := default (me.1, "") (split_once "." me.1) in
  d ← parse_digits (int ++ frac)%string;
  Some (negative, d, me.2 - Z.of_nat (String.length frac)).

(** [d * 10^e] in units of [10^-9], rounded up. *)
Definition nanos (d e : Z) : Z := if -9 <=? e then d * 10 ^ (e + 9) else div_ceil d (10 ^ (-9 - e)).

(** The value is a whole number of nanos. *)
Definition whole (d e : Z) : Prop := -9 ≤ e ∨ (10 ^ (-9 - e) | d).

(** What a canonical string denotes: sign and nanos. *)
Definition si_exponent (suffix : string) : option Z :=
  map_get [("n", -9); ("u", -6); ("m", -3); ("", 0); ("k", 3); ("M", 6); ("G", 9);
           ("T", 12); ("P", 15); ("E", 18)] suffix.

Definition quantity_nanos (q : string) : option (bool * Z) :=
  let '(negative, unsigned) :=
    match strip_prefix "-" q with Some rest => (true, rest) | None => (false, q) end in
  let '(d, suffix) := take_digits unsigned in
  n ← parse_digits d; e ← si_exponent suffix; Some (negative, n * 10 ^ (e + 9)).

Lemma pow10_pos n : 0 ≤ n → 0 < 10 ^ n.
Proof. intros. apply Z.pow_pos_nonneg; lia. Qed.

Lemma div_ceil_mul a b : 0 < b → div_ceil (a * b) b = a.
Proof. intros. unfold div_ceil. rewrite <- Z.mul_opp_l, Z.div_mul by lia. lia. Qed.

Lemma div_ceil_cancel a b c : 0 < b → 0 < c → div_ceil (a * c) (b * c) = div_ceil a b.
Proof. intros. unfold div_ceil. rewrite <- Z.mul_opp_l, Z.div_mul_cancel_r by lia. done. Qed.

Lemma div_ceil_one a b : 0 < a ≤ b → div_ceil a b = 1.
Proof.
  intros. unfold div_ceil. replace (- a / b) with (-1); [done|].
  apply Z.div_unique with (b - a); lia.
Qed.

Lemma nanos_0 e : nanos 0 e = 0.
Proof.
  unfold nanos, div_ceil. destruct (-9 <=? e) eqn:E; [lia|]. apply Z.leb_gt in E.
  rewrite Z.div_0_l; [lia|]. pose proof (pow10_pos (-9 - e)). lia.
Qed.

Lemma nanos_shift m j e : 0 ≤ j → nanos (m * 10 ^ j) e = nanos m (e + j).
Proof.
  intros Hj. unfold nanos.
  destruct (-9 <=? e) eqn:E1, (-9 <=? e + j) eqn:E2;
    rewrite ?Z.leb_le, ?Z.leb_gt in E1, E2; [| lia | |].
  - rewrite <- Z.mul_assoc, <- Z.pow_add_r by lia. do 2 f_equal. lia.
  - replace (10 ^ j) with (10 ^ (e + j + 9) * 10 ^ (-9 - e)) by (rewrite <- Z.pow_add_r by lia; f_equal; lia).
    rewrite Z.mul_assoc. apply div_ceil_mul, pow10_pos. lia.
  - replace (10 ^ (-9 - e)) with (10 ^ (-9 - (e + j)) * 10 ^ j) by (rewrite <- Z.pow_add_r by lia; f_equal; lia).
    apply div_ceil_cancel; apply pow10_pos; lia.
Qed.

Lemma strip_zeros_spec fuel m e m' e' :
  0 < m < 10 ^ Z.of_nat fuel → -2147483648 ≤ e → e + Z.of_nat fuel ≤ 2147483647 →
  strip_zeros fuel m e = (m', e') →
  0 < m' ∧ m' mod 10 ≠ 0 ∧ e ≤ e' ∧ m = m' * 10 ^ (e' - e).
Proof.
  revert m e. induction fuel as [|f IH]; intros m e Hm He1 He2; simpl strip_zeros.
  - change (Z.of_nat 0) with 0 in Hm. simpl in Hm. lia.
  - destruct (m mod 10 =? 0) eqn:E0.
    + apply Z.eqb_eq in E0. assert (m = 10 * (m / 10)) as Em by (apply Z.div_exact; lia).
      assert (wrap_i32 (e + 1) = e + 1) as ->.
      { unfold wrap_i32. rewrite Z.mod_small by lia. lia. }
      assert (10 ^ Z.of_nat (S f) = 10 * 10 ^ Z.of_nat f) as Ep.
      { rewrite Nat2Z.inj_succ, Z.pow_succ_r by lia. done. }
      intros H. apply IH in H as (H1 & H2 & H3 & H4); [|lia..].
      split_and!; [done|done|lia|]. rewrite Em at 1. rewrite H4.
      replace (e' - e) with (Z.succ (e' - (e + 1))) by lia. rewrite Z.pow_succ_r by lia. ring.
    + apply Z.eqb_neq in E0. intros [= <- <-]. split_and!; [lia|done|lia|].
      rewrite Z.sub_diag. lia.
Qed.

Lemma digit_val_range c d : digit_val c = Some d → 0 ≤ d < 10.
Proof. unfold digit_val. case_match eqn:E; [|done]. intros [= <-]. apply andb_true_iff in E as [E1 E2]. lia. Qed.

Lemma parse_digits_go_bounds s acc n :
  0 ≤ acc → parse_digits_go acc s = Some n →
  str_forall is_ascii_digit s = true ∧
  acc * 10 ^ Z.of_nat (String.length s) ≤ n < (acc + 1) * 10 ^ Z.of_nat (String.length s).
Proof.
  revert acc. induction s as [|c s IH]; intros acc Ha; simpl parse_digits_go.
  - intros [= <-]. simpl. split; [done|lia].
  - unfold is_ascii_digit. simpl str_forall. destruct (digit_val c) as [d|] eqn:Ed; [|done].
    apply digit_val_range in Ed. intros H. apply IH in H as [H1 H2]; [|lia].
    split; [done|]. simpl String.length. rewrite Nat2Z.inj_succ, Z.pow_succ_r by lia.
    pose proof (pow10_pos (Z.of_nat (String.length s))). nia.
Qed.

Lemma parse_digits_go_trim s : parse_digits_go 0 (trim_start_char "0" s) = parse_digits_go 0 s.
Proof.
  induction s as [|c s IH]; [done|]. simpl. case_match eqn:E; [|done].
  rewrite IH. apply Ascii.eqb_eq in E || apply bool_decide_eq_true in E. by subst.
Qed.

Lemma trim_start_char_head s c t : trim_start_char "0" s = String c t → c ≠ "0"%char.
Proof.
  induction s as [|c' s IH]; [done|]. simpl. case_match eqn:E; [done|].
  intros [= -> ->]. intros ->. apply Ascii.eqb_neq in E || apply bool_decide_eq_false in E. done.
Qed.

(** The significant digits: none of a zero, otherwise as many as its length says. *)
Lemma significant_digits s d :
  parse_digits s = Some d →
  let t := trim_start_char "0" s in
  str_forall is_ascii_digit t = true ∧
  if is_empty_str t then d = 0
  else parse_digits t = Some d ∧
       10 ^ (Z.of_nat (String.length t) - 1) ≤ d < 10 ^ Z.of_nat (String.length t).
Proof.
  unfold parse_digits. destruct s as [|c0 s0] eqn:Es; [done|]. rewrite <- Es. intros H.
  rewrite <- parse_digits_go_trim in H. simpl. destruct (trim_start_char "0" s) as [|c t] eqn:Et; simpl is_empty_str.
  - simpl in H. by injection H as <-.
  - pose proof (parse_digits_go_bounds _ _ _ ltac:(done) H) as [H1 [_ H2]].
    split; [done|]. cbv iota. split; [done|]. split; [|by rewrite Z.mul_1_l in H2].
    apply trim_start_char_head in Et. simpl parse_digits_go in H.
    destruct (digit_val c) as [dc|] eqn:Ed; [|done].
    pose proof (digit_val_range _ _ Ed).
    assert (dc ≠ 0).
    { intros ->. apply Et. unfold digit_val in Ed. case_match; [|done]. injection Ed as Ed.
      rewrite <- (ascii_nat_embedding c). replace (nat_of_ascii c) with 48%nat by lia. done. }
    apply parse_digits_go_bounds in H as [_ [H _]]; [|lia].
    simpl String.length. replace (Z.of_nat (S (String.length t)) - 1) with (Z.of_nat (String.length t)) by lia.
    pose proof (pow10_pos (Z.of_nat (String.length t))). nia.
Qed.

Lemma parse_unsigned_digits max s d :
  str_forall is_ascii_digit s = true → parse_digits s = Some d → d ≤ max → parse_unsigned max s = Some d.
Proof.
  intros Hs Hd Hle. unfold parse_unsigned.
  assert (match s with String "+"%char s' => s' | _ => s end = s) as ->.
  { destruct s as [|c s]; [done|]. simpl in Hs. apply andb_true_iff in Hs as [Hc _].
    assert (c ≠ "+"%char) by (by intros ->).
    destruct c as [[] [] [] [] [] [] [] []]; done. }
  rewrite Hd. by apply Z.leb_le in Hle as ->.
Qed.

(** The scaled mantissa and its suffix. *)
Lemma si_scale m e p (e3 := Z.min (e / 3 * 3) 18) :
  -9 ≤ e → 0 < m → checked_pow10 (e - e3) = Some p →
  m * p * 10 ^ (e3 + 9) = m * 10 ^ (e + 9) ∧ 0 < p ∧
  In e3 [-9; -6; -3; 0; 3; 6; 9; 12; 15; 18] ∧
  (m mod 10 ≠ 0 → e3 = 18 ∨ (m * p) mod 1000 ≠ 0).
Proof.
  intros He Hm. unfold checked_pow10. case_match; [|done]. intros [= <-].
  assert (e = 3 * (e / 3) + e mod 3 ∧ 0 ≤ e mod 3 < 3) as [Ee Hr].
  { split; [apply Z.div_mod; lia | apply Z.mod_pos_bound; lia]. }
  assert (-9 ≤ e3 ≤ e) as H3 by lia.
  split_and!.
  - rewrite <- Z.mul_assoc, <- Z.pow_add_r by lia. do 2 f_equal. lia.
  - apply pow10_pos. lia.
  - assert (∃ k, e3 = 3 * k ∧ -3 ≤ k ≤ 6) as (k & -> & Hk).
    { unfold e3. destruct (Z.min_spec (e / 3 * 3) 18) as [[? ->]|[? ->]]; [exists (e / 3)|exists 6]; lia. }
    assert (k = -3 ∨ k = -2 ∨ k = -1 ∨ k = 0 ∨ k = 1 ∨ k = 2 ∨ k = 3 ∨ k = 4 ∨ k = 5 ∨ k = 6) as Hk' by lia.
    simpl. naive_solver lia.
  - intros Hm10. destruct (decide (e3 = 18)) as [|Hn]; [by left|right].
    assert (e - e3 = e mod 3) as -> by lia.
    assert (e mod 3 = 0 ∨ e mod 3 = 1 ∨ e mod 3 = 2) as Hc by lia.
    intros H0. apply Hm10. apply Z.mod_divide; [lia|]. apply Z.mod_divide in H0 as [q Hq]; [|lia].
    destruct Hc as [Ec | [Ec | Ec]]; rewrite Ec in Hq; [exists (100 * q)|exists (10 * q)|exists q]; lia.
Qed.

Lemma split_exp_length s l r : split_exp s = Some (l, r) → (String.length l ≤ String.length s)%nat.
Proof.
  revert l. induction s as [|c s IH]; intros l; simpl; [done|].
  case_match; [intros [= <- _]; simpl; lia|].
  destruct (split_exp s) as [[l' r']|]; [|done]. intros [= <- ->]. simpl.
  specialize (IH _ eq_refl). lia.
Qed.

Lemma split_once_length c s l r : split_once c s = Some (l, r) → (String.length r ≤ String.length s)%nat.
Proof.
  revert l. induction s as [|c' s IH]; intros l; simpl; [done|].
  case_match; [intros [= _ <-]; simpl; lia|].
  destruct (split_once c s) as [[l' r']|]; [|done]. intros [= _ ->].
  specialize (IH _ eq_refl). lia.
Qed.

Lemma strip_prefix_length p s r : strip_prefix p s = Some r → (String.length r ≤ String.length s)%nat.
Proof.
  revert s. induction p as [|c p IH]; intros s; simpl; [by intros [= ->]|].
  destruct s as [|c' s]; [done|]. case_match; [|done]. intros Hr%IH. simpl. lia.
Qed.

Lemma whole_shift m j e : 0 ≤ j → m mod 10 ≠ 0 → whole (m * 10 ^ j) e → -9 ≤ e + j.
Proof.
  intros Hj Hm [H|[q Hq]]; [lia|]. destruct (decide (-9 ≤ e + j)) as [|Hn]; [done|]. exfalso. apply Hm.
  apply Z.mod_divide; [lia|].
  replace (10 ^ (-9 - e)) with (10 * 10 ^ (-9 - e - j - 1) * 10 ^ j) in Hq.
  2:{ rewrite <- Z.pow_succ_r, <- Z.pow_add_r by lia. f_equal. lia. }
  rewrite Z.mul_assoc in Hq. apply Z.mul_cancel_r in Hq; [|pose proof (pow10_pos j); lia].
  exists (q * 10 ^ (-9 - e - j - 1)). lia.
Qed.

Definition SI_EXPONENTS : list Z := [-9; -6; -3; 0; 3; 6; 9; 12; 15; 18].

(** The mantissa part, after the text is split. *)
Lemma canonical_scale d e m1 exp1 m2 exp2 p (e3 := Z.min (exp2 / 3 * 3) 18) :
  0 < d < 10 ^ 38 → 0 < m1 → m1 mod 10 ≠ 0 → e ≤ exp1 → d = m1 * 10 ^ (exp1 - e) →
  (m2, exp2) = (if exp1 <? -9 then
     (match checked_pow10 (-9 - exp1) with Some q => div_ceil m1 q | None => 1 end, -9)
   else (m1, exp1)) →
  checked_pow10 (exp2 - e3) = Some p →
  0 < m2 * p ∧ In e3 SI_EXPONENTS ∧ m2 * p * 10 ^ (e3 + 9) = nanos d e ∧
  (whole d e → e3 = 18 ∨ (m2 * p) mod 1000 ≠ 0) ∧ m2 ≤ d ∧ 0 < m2.
Proof.
  intros Hd Hm1 H10 Hle Ed E2 Hp.
  assert (-9 ≤ exp2 ∧ 0 < m2 ∧ m2 * 10 ^ (exp2 + 9) = nanos m1 exp1 ∧ (whole d e → m2 = m1) ∧ m2 ≤ d) as (Hx & Hm2 & Hn & Hw & Hmd).
  { assert (m1 ≤ d) by (pose proof (pow10_pos (exp1 - e)); nia).
    destruct (exp1 <? -9) eqn:El; injection E2 as -> ->.
    - apply Z.ltb_lt in El. unfold nanos. replace (-9 <=? exp1) with false by (symmetry; apply Z.leb_gt; lia).
      assert (match checked_pow10 (-9 - exp1) with Some q => div_ceil m1 q | None => 1 end
              = div_ceil m1 (10 ^ (-9 - exp1))) as ->.
      { unfold checked_pow10. destruct (-9 - exp1 <=? 38) eqn:Ec; [reflexivity|]. apply Z.leb_gt in Ec.
        symmetry. apply div_ceil_one. assert (10 ^ 38 ≤ 10 ^ (-9 - exp1)) by (apply Z.pow_le_mono_r; lia). lia. }
      change (10 ^ (-9 + 9)) with 1. split_and!; [lia| |lia| |].
      + unfold div_ceil. pose proof (pow10_pos (-9 - exp1) ltac:(lia)).
        assert (- m1 / 10 ^ (-9 - exp1) < 0); [|lia]. apply Z.div_lt_upper_bound; lia.
      + intros Hwh. rewrite Ed in Hwh. apply whole_shift in Hwh; lia.
      + unfold div_ceil. pose proof (pow10_pos (-9 - exp1) ltac:(lia)).
        assert (- m1 ≤ - m1 / 10 ^ (-9 - exp1)); [|lia]. apply Z.div_le_lower_bound; nia.
    - apply Z.ltb_ge in El. unfold nanos. replace (-9 <=? exp1) with true by (symmetry; apply Z.leb_le; lia).
      split_and!; done || lia. }
  destruct (si_scale m2 exp2 p Hx Hm2 Hp) as (H1 & H2 & H3 & H4).
  split_and!; [nia|exact H3| | |done|done].
  - unfold e3. rewrite H1, Hn, Ed, nanos_shift by lia. f_equal. lia.
  - intros Hwh. apply H4. by rewrite (Hw Hwh).
Qed.

Lemma nanos_le d e : 0 < d → e ≤ 18 → nanos d e ≤ d * 10 ^ 27.
Proof.
  intros Hd He. unfold nanos. destruct (-9 <=? e) eqn:E.
  - apply Z.leb_le in E. apply Z.mul_le_mono_nonneg_l; [lia|]. apply Z.pow_le_mono_r; lia.
  - apply Z.leb_gt in E. unfold div_ceil. pose proof (pow10_pos (-9 - e) ltac:(lia)).
    assert (- d ≤ - d / 10 ^ (-9 - e)) by (apply Z.div_le_lower_bound; nia). lia.
Qed.

(** A mantissa past 128 bits comes from a number of more than 36 digits. *)
Lemma canonical_overflow d e m exp p (e3 := Z.min (exp / 3 * 3) 18) :
  0 < d → e ≤ 18 → 0 < m ≤ d → checked_pow10 (exp - e3) = Some p →
  m * p * 10 ^ (e3 + 9) = nanos d e → 2 ^ 128 ≤ m * p → 10 ^ 36 ≤ d.
Proof.
  intros Hd He Hm Hp En Hlim. destruct (decide (e3 = 18)) as [E3|Hn].
  - rewrite E3 in En. pose proof (nanos_le d e Hd He). rewrite <- En in H.
    change (18 + 9) with 27 in H. apply Z.mul_le_mono_pos_r in H; lia.
  - unfold checked_pow10 in Hp. destruct (_ <=? 38); [|done]. injection Hp as <-.
    assert (exp = 3 * (exp / 3) + exp mod 3 ∧ 0 ≤ exp mod 3 < 3) as [Ee Hr].
    { split; [apply Z.div_mod; lia | apply Z.mod_pos_bound; lia]. }
    assert (10 ^ (exp - e3) ≤ 10 ^ 2) by (apply Z.pow_le_mono_r; lia).
    assert (m * 10 ^ (exp - e3) ≤ m * 10 ^ 2) by (apply Z.mul_le_mono_nonneg_l; lia). lia.
Qed.

Lemma canonical_decimal_spec text neg d e :
  decimal_parts text = Some (neg, d, e) →
  Z.of_nat (String.length text) ≤ 2147483647 → -2147483648 ≤ e ≤ 2147483609 →
  match canonical_decimal text with
  | None => 10 ^ 36 ≤ d ∨ 18 < e
  | Some q =>
      (d = 0 ∧ q = "0") ∨
      (0 < d ∧ ∃ m e3, q = ((if neg then "-" else "") ++ show_u m ++ si_suffix e3)%string ∧
         0 < m ∧ In e3 SI_EXPONENTS ∧ m * 10 ^ (e3 + 9) = nanos d e ∧
         (whole d e → e3 = 18 ∨ m mod 1000 ≠ 0))
  end.
Proof.
  unfold decimal_parts, canonical_decimal. intros H Hlen He.
  destruct (match strip_prefix "-" text with Some rest => (true, rest) | None => (false, text) end)
    as [negative unsigned] eqn:Eneg.
  assert (String.length unsigned ≤ String.length text)%nat as Hl1.
  { destruct (strip_prefix "-" text) eqn:Es; injection Eneg as _ <-; [|done]. by eapply strip_prefix_length. }
  destruct (match split_exp unsigned with
            | Some (mant, e) => e' ← parse_i32 e; Some (mant, e')
            | None => Some (unsigned, 0) end) as [[mantissa exp_part]|] eqn:Eexp; [|done].
  assert (String.length mantissa ≤ String.length unsigned)%nat as Hl2.
  { destruct (split_exp unsigned) as [[l r]|] eqn:Es; [|by injection Eexp as <- _].
    destruct (parse_i32 r); [|done]. injection Eexp as <- _. by eapply split_exp_length. }
  cbn [mbind option_bind fst snd] in *.
  destruct (default (mantissa, "") (split_once "." mantissa)) as [int frac] eqn:Efrac.
  assert (String.length frac ≤ String.length mantissa)%nat as Hl3.
  { destruct (split_once "." mantissa) as [[l r]|] eqn:Es; simpl in Efrac; injection Efrac as <- <-; [|simpl; lia].
    by eapply split_once_length. }
  clear Eneg Eexp Efrac.
  destruct (parse_digits (int ++ frac)) as [d'|] eqn:Ed; [|done]. cbn [mbind option_bind] in H.
  injection H as <- <- <-. apply significant_digits in Ed as [Hdig Hsig].
  set (t := trim_start_char "0" (int ++ frac)) in *.
  destruct (is_empty_str t) eqn:Et; [by left|]. destruct Hsig as [Hpd Hb].
  rewrite Hdig. simpl negb. rewrite orb_false_r. destruct (38 <? Z.of_nat (String.length t)) eqn:El.
  { apply Z.ltb_lt in El. left.
    assert (10 ^ 36 ≤ 10 ^ (Z.of_nat (String.length t) - 1)) by (apply Z.pow_le_mono_r; lia). lia. }
  apply Z.ltb_ge in El.
  assert (0 < d') by (pose proof (pow10_pos (Z.of_nat (String.length t) - 1)); destruct t; [done|]; simpl in *; lia).
  assert (d' < 10 ^ 38) as Hd38.
  { assert (10 ^ Z.of_nat (String.length t) ≤ 10 ^ 38) by (apply Z.pow_le_mono_r; lia). lia. }
  rewrite (parse_unsigned_digits _ t d') by (done || (unfold u128_lim; lia)).
  cbn [mbind option_bind]. set (flen := Z.of_nat (String.length frac)) in *.
  assert (is_i32 flen = true ∧ is_i32 (exp_part - flen) = true) as [-> ->]
    by (unfold is_i32; rewrite !andb_true_iff, !Z.leb_le; lia).
  simpl negb. simpl orb. cbv iota.
  destruct (strip_zeros (String.length t) d' (exp_part - flen)) as [m1 exp1] eqn:Ez.
  pose proof Ez as Ez'. apply strip_zeros_spec in Ez' as (H1 & H2 & H3 & H4); [|lia..].
  destruct (if exp1 <? -9 then _ else _) as [m2 exp2] eqn:E2.
  destruct (checked_pow10 (exp2 - Z.min (exp2 / 3 * 3) 18)) as [p|] eqn:Ep; cbn [mbind option_bind].
  - destruct (canonical_scale d' (exp_part - flen) m1 exp1 m2 exp2 p) as (C1 & C2 & C3 & C4 & C5 & C6); try done.
    destruct (m2 * p <? u128_lim) eqn:Elim.
    + right. split; [done|]. by exists (m2 * p), (Z.min (exp2 / 3 * 3) 18).
    + apply Z.ltb_ge in Elim. unfold u128_lim in Elim.
      destruct (decide (18 < exp_part - flen)); [by right|left].
      eapply (canonical_overflow d' (exp_part - flen) m2 exp2 p); done || lia.
  - destruct (decide (18 < exp_part - flen)); [by right|left].
    unfold checked_pow10 in Ep. destruct (_ <=? 38) eqn:Ec; [done|]. apply Z.leb_gt in Ec.
    pose proof (Z.div_mod exp2 3 ltac:(done)). pose proof (Z.mod_pos_bound exp2 3 ltac:(done)).
    assert (exp2 > 18) by lia. rewrite (Z.min_r _ 18) in Ec by lia.
    assert (exp1 = exp2) as -> by (destruct (exp1 <? -9); injection E2; intros; lia).
    assert (10 ^ 38 ≤ 10 ^ (exp2 - (exp_part - flen))) by (apply Z.pow_le_mono_r; lia). nia.
Qed.

Lemma quantity_nanos_show neg m e3 :
  0 ≤ m → In e3 SI_EXPONENTS →
  quantity_nanos ((if neg : bool then "-" else "") ++ show_u m ++ si_suffix e3) = Some (neg, m * 10 ^ (e3 + 9)).
Proof.
  intros Hm He. unfold quantity_nanos.
  pose proof (show_u_digits m Hm) as Hd. pose proof (parse_digits_show m Hm) as Hp.
  assert (take_digits (show_u m ++ si_suffix e3) = (show_u m, si_suffix e3)) as Ht.
  { apply take_digits_all; [done|]. simpl in He. by repeat destruct He as [<-|He]. }
  assert (si_exponent (si_suffix e3) = Some e3) as Hs.
  { simpl in He. by repeat destruct He as [<-|He]. }
  destruct neg.
  - rewrite strip_prefix_app. cbv iota beta. rewrite Ht, Hp. cbn [mbind option_bind]. by rewrite Hs.
  - change ("" ++ show_u m ++ si_suffix e3)%string with (show_u m ++ si_suffix e3)%string.
    assert (strip_prefix "-" (show_u m ++ si_suffix e3) = None) as ->.
    { destruct (show_u m) as [|c s]; [done|]. simpl in Hd. apply andb_true_iff in Hd as [Hc _].
      cbn [append strip_prefix]. destruct (Ascii.eqb "-" c) eqn:E; [|done].
      apply Ascii.eqb_eq in E. by subst. }
    rewrite Ht, Hp. cbn [mbind option_bind]. by rewrite Hs.
Qed.

(** The canonical string of a decimal number denotes the number: sign kept,
    the magnitude exactly when it is a whole number of nanos and rounded up to
    the next nano otherwise (a zero loses its sign); and only a number of more
    than 36 digits or above [10^18] times a 36-digit one has none. *)
Theorem canonical_decimal_value text neg d e :
  decimal_parts text = Some (neg, d, e) →
  Z.of_nat (String.length text) ≤ 2147483647 → -2147483648 ≤ e ≤ 2147483609 →
  match canonical_decimal text with
  | Some q => quantity_nanos q = Some (neg && negb (d =? 0), nanos d e)
  | None => 10 ^ 36 ≤ d ∨ 18 < e
  end.
Proof.
  intros H1 H2 H3. pose proof (canonical_decimal_spec _ _ _ _ H1 H2 H3) as H.
  destruct (canonical_decimal text) as [q|]; [|done].
  destruct H as [[-> ->]|(Hd & m & e3 & -> & Hm & He & Hn & _)].
  - by rewrite andb_false_r, nanos_0.
  - rewrite quantity_nanos_show by (done || lia). rewrite Hn.
    replace (d =? 0) with false by (symmetry; apply Z.eqb_neq; lia). by rewrite andb_true_r.
Qed.

Lemma canonical_decimal_value_witness :
  decimal_parts "-1.5e3" = Some (true, 15, 2) ∧ canonical_decimal "-1.5e3" = Some "-1500" ∧
  quantity_nanos "-1500" = Some (true, 1500000000000).
Proof.
  split; [vm_compute; reflexivity|]. split; [vm_compute; reflexivity|].
  exact (canonical_decimal_value "-1.5e3" true 15 2 eq_refl ltac:(simpl; lia) ltac:(lia)).
Defined.

Lemma canonical_form_unique m1 a1 m2 a2 :
  0 < m1 → 0 < m2 → In a1 SI_EXPONENTS → In a2 SI_EXPONENTS →
  (a1 = 18 ∨ m1 mod 1000 ≠ 0) → (a2 = 18 ∨ m2 mod 1000 ≠ 0) →
  m1 * 10 ^ (a1 + 9) = m2 * 10 ^ (a2 + 9) → m1 = m2 ∧ a1 = a2.
Proof.
  assert (∀ m1 a1 m2 a2, 0 < m1 → In a1 SI_EXPONENTS → In a2 SI_EXPONENTS → a1 < a2 →
            (a1 = 18 ∨ m1 mod 1000 ≠ 0) → m1 * 10 ^ (a1 + 9) ≠ m2 * 10 ^ (a2 + 9)) as Hlt.
  { intros m a m' a' Hm Ha Ha' Hlt [->|Hc] E.
    - simpl in Ha'. lia.
    - apply Hc. apply Z.mod_divide; [lia|]. exists (m' * 10 ^ (a' - a - 3)).
      apply (Z.mul_cancel_r _ _ (10 ^ (a + 9))); [simpl in Ha; pose proof (pow10_pos (a + 9)); lia|].
      rewrite E. change 1000 with (10 ^ 3). rewrite <- !Z.mul_assoc, <- !Z.pow_add_r by (simpl in *; lia).
      do 2 f_equal. lia. }
  intros Hm1 Hm2 Ha1 Ha2 Hc1 Hc2 E.
  destruct (Z.lt_trichotomy a1 a2) as [H|[H|H]]; [by eapply Hlt in H| |by eapply Hlt in H].
  subst. split; [|done]. apply Z.mul_cancel_r in E; [done|].
  simpl in Ha2. pose proof (pow10_pos (a2 + 9)). lia.
Qed.

(** Canonical strings are canonical: two texts of the same sign that denote
    the same whole number of nanos are rewritten to the same string. *)
Theorem canonical_decimal_unique t1 t2 neg d1 e1 d2 e2 q1 q2 :
  decimal_parts t1 = Some (neg, d1, e1) → decimal_parts t2 = Some (neg, d2, e2) →
  Z.of_nat (String.length t1) ≤ 2147483647 → Z.of_nat (String.length t2) ≤ 2147483647 →
  -2147483648 ≤ e1 ≤ 2147483609 → -2147483648 ≤ e2 ≤ 2147483609 →
  whole d1 e1 → whole d2 e2 → nanos d1 e1 = nanos d2 e2 →
  canonical_decimal t1 = Some q1 → canonical_decimal t2 = Some q2 → q1 = q2.
Proof.
  intros P1 P2 L1 L2 B1 B2 W1 W2 E Q1 Q2.
  pose proof (canonical_decimal_spec _ _ _ _ P1 L1 B1) as H1. rewrite Q1 in H1.
  pose proof (canonical_decimal_spec _ _ _ _ P2 L2 B2) as H2. rewrite Q2 in H2.
  assert (∀ m a, 0 < m → In a SI_EXPONENTS → m * 10 ^ (a + 9) ≠ 0) as Hnz.
  { intros m a Hm Ha. simpl in Ha. pose proof (pow10_pos (a + 9)). nia. }
  destruct H1 as [[-> ->]|(_ & m1 & a1 & -> & Hm1 & Ha1 & Hn1 & Hc1)],
           H2 as [[-> ->]|(_ & m2 & a2 & -> & Hm2 & Ha2 & Hn2 & Hc2)]; [done| | |].
  - rewrite nanos_0 in E. rewrite <- E in Hn2. by apply Hnz in Hn2.
  - rewrite nanos_0 in E. rewrite E in Hn1. by apply Hnz in Hn1.
  - destruct (canonical_form_unique m1 a1 m2 a2) as [-> ->]; try done; [by apply Hc1|by apply Hc2|congruence].
Qed.

Lemma canonical_decimal_unique_witness :
  canonical_decimal "0.25" = Some "250m" ∧ canonical_decimal "2.50e-1" = Some "250m" ∧ "250m" = "250m".
Proof.
  split; [vm_compute; reflexivity|]. split; [vm_compute; reflexivity|].
  apply (canonical_decimal_unique "0.25" "2.50e-1" false 25 (-2) 250 (-3)); try reflexivity; simpl; lia || (left; lia).
Defined.

(** Rounding up can leave a mantissa of [1000n], where the doc comment of
    [canonical_number] says the largest suffix is used ([1u]). *)
Lemma canonical_rounding_keeps_nanos : canonical_decimal "0.0000009999" = Some "1000n".
Proof. vm_compute. reflexivity. Qed.

(** ** Theorems: bytes and millicores *)

Lemma scale_show q size :
  0 < q < 2 ^ 53 → In size (BINARY.*2) → q * size ≤ u64_max →
  scale (show_u q) (f64_of_Z size) = q * size.
Proof.
  intros Hq Hs Hle. unfold scale. destruct (parse_f64_show q Hq) as (f & -> & Hf).
  rewrite (f64_repr_pos _ _ Hf).
  assert (∃ k, size = 2 ^ k ∧ 0 ≤ k ≤ 60 ∧ f64_repr (f64_of_Z size) (2 ^ k)) as (k & -> & Hk & Hg).
  { simpl in Hs.
    destruct Hs as [<-|[<-|[<-|[<-|[<-|[<-|[]]]]]]];
      [exists 10|exists 20|exists 30|exists 40|exists 50|exists 60];
      (split; [done|]; split; [lia|]); try (apply f64_repr_of_Z; split; done).
    vm_compute. eexists _, _. split; [done|]. split; done. }
  assert (2 ^ k ≤ 2 ^ 60) by (apply Z.pow_le_mono_r; lia).
  assert (0 < 2 ^ k) by (apply Z.pow_pos_nonneg; lia).
  rewrite (f64_repr_to_u64 _ (q * 2 ^ k)); [lia|].
  apply (f64_repr_mul _ _ _ _ q k); done || lia.
Qed.

Lemma strip_binary_suffix s x d :
  strip_suffix (String x "i") (s ++ String d "i") = if Ascii.eqb x d then Some s else None.
Proof.
  unfold strip_suffix. rewrite str_rev_app_distr.
  change (str_rev (String x "i")) with (String "i" (String x "")).
  change (str_rev (String d "i")) with (String "i" (String d "")).
  cbn [append strip_prefix Ascii.eqb Bool.eqb]. destruct (Ascii.eqb x d); [|done].
  simpl option_map. by rewrite str_rev_involutive.
Qed.

Lemma parse_bytes_suffix q suffix size :
  0 < q < 2 ^ 53 → In (suffix, size) BINARY → q * size ≤ u64_max →
  parse_bytes (show_u q ++ suffix) = q * size.
Proof.
  intros Hq Hs Hle. destruct (show_u_ends q ltac:(lia)) as (a & t & b & u & E1 & E2 & Ha & Hb).
  assert (∃ d, str_rev suffix = String "i" (String d "") ∧ suffix = String d "i") as (d & Es & Es').
  { simpl in Hs. destruct Hs as [[= <- _]|[[= <- _]|[[= <- _]|[[= <- _]|[[= <- _]|[[= <- _]|[]]]]]]]; eauto. }
  assert (trim (show_u q ++ suffix) = (show_u q ++ suffix)%string) as Ht.
  { eapply (trim_plain _ a (t ++ suffix) "i" (String d (str_rev (show_u q)))).
    - by rewrite E1.
    - rewrite str_rev_app_distr, Es. done.
    - by apply digit_plain.
    - done. }
  unfold parse_bytes. rewrite Ht.
  replace (is_empty_str (show_u q ++ suffix)) with false by (by rewrite E1).
  assert (parse_binary (show_u q ++ suffix) BINARY = Some (scale (show_u q) (f64_of_Z size))) as ->.
  { simpl in Hs. unfold BINARY, parse_binary.
    destruct Hs as [[= <- <-]|[[= <- <-]|[[= <- <-]|[[= <- <-]|[[= <- <-]|[[= <- <-]|[]]]]]]];
      rewrite !strip_binary_suffix; reflexivity. }
  apply scale_show; [done| |done]. apply list_elem_of_In, list_elem_of_fmap.
  exists (suffix, size). split; [done|]. by apply list_elem_of_In.
Qed.

Lemma strip_suffix_digit p c s b u :
  str_rev s = String b u → str_rev p = String c "" ∨ (∃ d, str_rev p = String c (String d "")) →
  is_ascii_digit b = true → is_ascii_digit c = false → strip_suffix p s = None.
Proof.
  intros Es Ep Hb Hc. unfold strip_suffix. rewrite Es.
  assert (Ascii.eqb c b = false) as E by (apply Ascii.eqb_neq; congruence).
  destruct Ep as [Ep|[d Ep]]; rewrite Ep; cbn [strip_prefix]; by rewrite E.
Qed.

Lemma parse_bytes_plain q : 0 ≤ q < 2 ^ 53 → parse_bytes (show_u q) = q.
Proof.
  intros Hq. destruct (show_u_ends q ltac:(lia)) as (a & t & b & u & E1 & E2 & Ha & Hb).
  unfold parse_bytes. rewrite (trim_plain _ a t b u) by auto using digit_plain.
  replace (is_empty_str (show_u q)) with false by (by rewrite E1).
  assert (parse_binary (show_u q) BINARY = None) as ->.
  { unfold BINARY, parse_binary.
    repeat (erewrite (strip_suffix_digit _ "i" _ b u) by (done || (right; eexists; reflexivity))). done. }
  assert (parse_decimal_suffix (show_u q) DECIMAL = None) as ->.
  { unfold DECIMAL, parse_decimal_suffix.
    repeat (erewrite (strip_suffix_digit _ _ _ b u) by (done || (left; reflexivity) || done)). done. }
  destruct (decide (q = 0)) as [->|Hn]; [reflexivity|].
  destruct (parse_f64_show q ltac:(lia)) as (f & -> & Hf).
  rewrite (f64_repr_max0 _ _ Hf), (f64_repr_to_u64 _ _ Hf). unfold u64_max. lia.
Qed.

Lemma format_units_spec n l :
  format_units n l = show_u n ∧ (∀ suffix size, In (suffix, size) l → ¬ (size ≤ n ∧ n mod size = 0)) ∨
  ∃ suffix size, In (suffix, size) l ∧ size ≤ n ∧ n mod size = 0 ∧
    format_units n l = (show_u (n / size) ++ suffix)%string.
Proof.
  induction l as [|[suffix size] l IH]; simpl; [left; split; [done|by intros ? ? []]|].
  destruct ((size <=? n) && (n mod size =? 0)) eqn:E.
  - apply andb_true_iff in E as [E1%Z.leb_le E2%Z.eqb_eq]. right. exists suffix, size. auto.
  - destruct IH as [[IH1 IH2]|(s & z & H1 & H2 & H3 & H4)].
    + left. split; [done|]. intros s z [[= <- <-]|H]; [|by eapply IH2].
      intros [H1%Z.leb_le H2%Z.eqb_eq]. by rewrite H1, H2 in E.
    + right. exists s, z. auto.
Qed.

(** Printing a byte count and reading it back gives the count, for every
    count below [2^53] and for every multiple of 1 KiB below [2^63] — what a
    volume size or a quota is. *)
Theorem bytes_roundtrip n :
  0 ≤ n < 2 ^ 53 ∨ 0 ≤ n < 2 ^ 63 ∧ n mod 1024 = 0 → parse_bytes (format_bytes n) = n.
Proof.
  intros Hn. unfold format_bytes.
  destruct (format_units_spec n UNITS) as [[E H]|(suffix & size & Hin & Hle & Hmod & E)]; rewrite E.
  - apply parse_bytes_plain. destruct Hn as [Hn|[Hn H0]]; [done|].
    specialize (H "Ki" (2 ^ 10) ltac:(simpl; tauto)). change (2 ^ 10) with 1024 in H. lia.
  - assert (In (suffix, size) BINARY ∧ 1024 ≤ size) as [Hb Hs].
    { simpl in Hin |- *. naive_solver lia. }
    assert (n = size * (n / size)) as En by (apply Z.div_exact; lia).
    rewrite (parse_bytes_suffix (n / size) suffix size); [lia| |done|].
    + split; [apply Z.div_str_pos; lia|]. apply Z.div_lt_upper_bound; lia.
    + unfold u64_max. lia.
Qed.

Lemma bytes_roundtrip_witness : format_bytes 3221225472 = "3Gi" ∧ parse_bytes (format_bytes 3221225472) = 3221225472.
Proof. split; [vm_compute; reflexivity|]. apply bytes_roundtrip. left. lia. Defined.

(** ** Theorems: numbers of built-in objects *)

Section NumbersTheorems.
  Variable float_text : f64 → string.

(** The two loops of [walk], named. *)
Definition walk_entry (resource : string) (path : list string) (k : string) (child : Value) : Value * bool :=
  match child with
  | Num n =>
      if is_quantity resource path k then (Str (canonical_number float_text n), true) else (child, false)
  | _ => walk float_text resource child (k :: path)
  end.

Fixpoint walk_map (resource : string) (path : list string) (m : list (string * Value)) :
    list (string * Value) * bool :=
  match m with
  | [] => ([], false)
  | (k, child) :: m' =>
      let '(child', c1) := walk_entry resource path k child in
      let '(m'', c2) := walk_map resource path m' in
      ((k, child') :: m'', c1 || c2)
  end.

Fixpoint walk_list (resource : string) (path : list string) (l : list Value) : list Value * bool :=
  match l with
  | [] => ([], false)
  | x :: l' =>
      let '(x', c1) := walk float_text resource x path in
      let '(l'', c2) := walk_list resource path l' in
      (x' :: l'', c1 || c2)
  end.

Lemma walk_Object r m path :
  walk float_text r (Object m) path = let '(m', c) := walk_map r path m in (Object m', c).
Proof.
  cbn [walk]. match goal with |- (let '(_, _) := ?f m in _) = _ => enough (f m = walk_map r path m) as -> by done end.
  induction m as [|[k x] m IH]; [done|]. cbn [walk_map]. by rewrite <- IH.
Qed.

Lemma walk_Array r l path :
  walk float_text r (Array l) path = let '(l', c) := walk_list r path l in (Array l', c).
Proof.
  cbn [walk]. match goal with |- (let '(_, _) := ?f l in _) = _ => enough (f l = walk_list r path l) as -> by done end.
  induction l as [|x l IH]; [done|]. cbn [walk_list]. by rewrite <- IH.
Qed.

#[local] Arguments walk : simpl never.

(** A walk only ever turns a number into a string. *)
Lemma walk_not_number r v path : (∀ n, v ≠ Num n) → ∀ n, (walk float_text r v path).1 ≠ Num n.
Proof.
  intros Hv n. destruct v as [| | | |l|m]; try done; try by apply Hv.
  - rewrite walk_Array. by destruct (walk_list r path l).
  - rewrite walk_Object. by destruct (walk_map r path m).
Qed.

Lemma walk_fixed r v : ∀ path,
  walk float_text r (walk float_text r v path).1 path = ((walk float_text r v path).1, false).
Proof.
  induction v as [| | | |l IH|m IH] using Value_ind'; intros path; try done.
  - rewrite walk_Array. destruct (walk_list r path l) as [l' c] eqn:E. simpl fst. rewrite walk_Array.
    enough (walk_list r path l' = (l', false)) as -> by done.
    revert l' c E. induction IH as [|x l Hx Hl IHl]; intros l' c; simpl; [by intros [= <- <-]|].
    specialize (Hx path). destruct (walk float_text r x path) as [x' c1]. simpl in Hx.
    destruct (walk_list r path l) as [l1 c2] eqn:E1. intros [= <- <-]. simpl.
    by rewrite Hx, (IHl _ _ eq_refl).
  - rewrite walk_Object. destruct (walk_map r path m) as [m' c] eqn:E. simpl fst. rewrite walk_Object.
    enough (walk_map r path m' = (m', false)) as -> by done.
    revert m' c E. induction IH as [|[k x] m Hx Hm IHm]; intros m' c; simpl; [by intros [= <- <-]|].
    assert (walk_entry r path k (walk_entry r path k x).1 = ((walk_entry r path k x).1, false)) as Hx'.
    { specialize (Hx (k :: path)). simpl in Hx. pose proof (walk_not_number r x (k :: path)) as Hnn.
      destruct x as [|b|n|s|l0|m0]; simpl in *; try done.
      - destruct (is_quantity r path k) eqn:Eq; simpl; [done|by rewrite Eq].
      - destruct (walk float_text r (Array l0) (k :: path)) as [y cy] eqn:Ey. simpl in *.
        destruct y as [| |nn| | |]; try done. by destruct (Hnn ltac:(done) nn).
      - destruct (walk float_text r (Object m0) (k :: path)) as [y cy] eqn:Ey. simpl in *.
        destruct y as [| |nn| | |]; try done. by destruct (Hnn ltac:(done) nn). }
    destruct (walk_entry r path k x) as [x' c1]. simpl in Hx'.
    destruct (walk_map r path m) as [m1 c2] eqn:E1. intros [= <- <-]. simpl.
    by rewrite Hx', (IHm _ _ eq_refl).
Qed.

(** Values a walk leaves alone wherever they are. *)
Definition unquantified (v : Value) : bool :=
  match v with
  | Null | Bool _ | Str _ => true
  | Array l => forallb (λ x, match x with Str _ => true | _ => false end) l
  | _ => false
  end.

Lemma walk_plain r v path : unquantified v = true → (walk float_text r v path).1 = v.
Proof.
  destruct v as [| | | |l|]; try done. intros Hl. rewrite walk_Array.
  enough (∃ c, walk_list r path l = (l, c)) as [c ->] by done.
  cbn [unquantified] in Hl. induction l as [|x l IH]; [by exists false|]. cbn [forallb] in Hl. apply andb_true_iff in Hl as [Hx Hl].
  destruct x; try done. cbn [walk_list]. destruct (IH Hl) as [c ->]. by exists c.
Qed.

Lemma index_walk r v path k : index (walk float_text r v path).1 k = (walk_entry r path k (index v k)).1.
Proof.
  destruct v as [| | | |l|m]; try done.
  - rewrite walk_Array. by destruct (walk_list r path l).
  - rewrite walk_Object. unfold index, Json.get. destruct (walk_map r path m) as [m' c] eqn:E. cbn [fst].
    revert m' c E. induction m as [|[k0 x] m IH]; intros m' c; cbn [walk_map]; [by intros [= <- <-]|].
    destruct (walk_entry r path k0 x) as [x' c1] eqn:Ex. destruct (walk_map r path m) as [m1 c2]. intros [= <- <-].
    cbn [map_get]. destruct (k =? k0)%kube eqn:Ek; [|by eapply IH]. apply str_eqb_eq in Ek as ->. cbn. by rewrite Ex.
Qed.

Lemma numbers_plain2 r v k1 k2 :
  unquantified (index (index v k1) k2) = true →
  index (index (numbers_to_strings float_text r v).1 k1) k2 = index (index v k1) k2.
Proof.
  intros Hp. unfold numbers_to_strings. destruct (str_in r QUANTITY_RESOURCES); [|done]. rewrite index_walk.
  assert (∀ x path, (∀ n, x ≠ Num n) → walk_entry r path k1 x = walk float_text r x (k1 :: path)) as Hw by (intros x path Hx; destruct x; try done; by destruct (Hx n)).
  destruct (index v k1) as [|b|n|t|l|m] eqn:E; try done.
  - cbn. by case_match.
  - rewrite Hw by done. by rewrite walk_Array; destruct (walk_list _ _ l).
  - rewrite Hw, index_walk by done. unfold walk_entry. destruct (index (Object m) k2) eqn:E2; try done. by apply walk_plain.
Qed.

Lemma numbers_object1 r v k :
  is_object (index v k) = true → is_object (index (numbers_to_strings float_text r v).1 k) = true.
Proof.
  intros Ho. unfold numbers_to_strings. destruct (str_in r QUANTITY_RESOURCES); [|done]. rewrite index_walk.
  destruct (index v k) as [| | | | |m]; try done. cbn [walk_entry]. rewrite walk_Object. by destruct (walk_map r _ m).
Qed.

(** Rewriting the quantities of an object is idempotent: a rewritten object
    is reported unchanged and stays as it is, whatever the resource. *)
Theorem numbers_to_strings_idempotent resource obj :
  numbers_to_strings float_text resource (numbers_to_strings float_text resource obj).1
  = ((numbers_to_strings float_text resource obj).1, false).
Proof. unfold numbers_to_strings. destruct (str_in resource QUANTITY_RESOURCES); [apply walk_fixed | done]. Qed.

Lemma wf_walk r v : ∀ path, wf_value v = true → wf_value (walk float_text r v path).1 = true.
Proof.
  induction v as [| | | |l IH|m IH] using Value_ind'; intros path Hwf; try done.
  - rewrite walk_Array. destruct (walk_list r path l) as [l' c] eqn:E. simpl in *.
    revert l' c E. induction IH as [|x l Hx Hl IHl]; intros l' c; simpl in *; [by intros [= <- <-]|].
    apply andb_true_iff in Hwf as [Hwx Hwl]. specialize (Hx path Hwx).
    destruct (walk float_text r x path) as [x' c1]. simpl in Hx.
    destruct (walk_list r path l) as [l1 c2] eqn:E1. intros [= <- <-]. simpl.
    rewrite Hx. by eapply IHl.
  - rewrite walk_Object. destruct (walk_map r path m) as [m' c] eqn:E. simpl in *.
    apply andb_true_iff in Hwf as [Hs Hf].
    assert (map fst m' = map fst m ∧ forallb (λ kv, wf_value kv.2) m' = true) as [Hk Hf'].
    { clear Hs. revert m' c E. induction IH as [|[k x] m Hx Hm IHm]; intros m' c; simpl in *; [by intros [= <- <-]|].
      apply andb_true_iff in Hf as [Hwx Hwm].
      assert (wf_value (walk_entry r path k x).1 = true) as Hx'.
      { specialize (Hx (k :: path) Hwx). unfold walk_entry. destruct x; try done. by case_match. }
      destruct (walk_entry r path k x) as [x' c1]. simpl in Hx'.
      destruct (walk_map r path m) as [m1 c2] eqn:E1. intros [= <- <-]. simpl. rewrite Hx'.
      destruct (IHm Hwm _ _ eq_refl) as [-> ->]. done. }
    rewrite Hf', andb_true_r. clear -Hs Hk.
    revert m' Hk. induction m as [|[k v] m IH]; intros [|[k' v'] m'] Hk; try done.
    injection Hk as -> Hk. destruct m as [|[k2 v2] m], m' as [|[k3 v3] m']; try done.
    cbn [keys_sorted] in Hs |- *. apply andb_true_iff in Hs as [H1 H2]. injection Hk as -> Hk.
    rewrite H1. apply (IH H2 ((k2, v3) :: m')). simpl. by rewrite Hk.
Qed.

Lemma wf_numbers_to_strings r v :
  wf_value v = true → wf_value (numbers_to_strings float_text r v).1 = true.
Proof. unfold numbers_to_strings. case_match; [apply wf_walk | done]. Qed.

Lemma no_floats_walk r v : ∀ path, no_floats v = true → no_floats (walk float_text r v path).1 = true.
Proof.
  induction v as [| | | |l IH|m IH] using Value_ind'; intros path Hn; try done.
  - rewrite walk_Array. destruct (walk_list r path l) as [l' c] eqn:E. cbn in *.
    revert l' c E. induction IH as [|x l Hx _ IHl]; intros l' c; cbn in *; [by intros [= <- <-]|].
    apply andb_true_iff in Hn as [Hnx Hnl]. specialize (Hx path Hnx). destruct (walk float_text r x path) as [x' c1].
    destruct (walk_list r path l) as [l1 c2] eqn:E1. intros [= <- <-]. cbn in *. rewrite Hx. by eapply IHl.
  - rewrite walk_Object. destruct (walk_map r path m) as [m' c] eqn:E. cbn in *.
    revert m' c E. induction IH as [|[k x] m Hx _ IHm]; intros m' c; cbn in *; [by intros [= <- <-]|].
    apply andb_true_iff in Hn as [Hnx Hnm].
    assert (no_floats (walk_entry r path k x).1 = true) as Hx'.
    { specialize (Hx (k :: path) Hnx). unfold walk_entry. destruct x; try done. by case_match. }
    destruct (walk_entry r path k x) as [x' c1].
    destruct (walk_map r path m) as [m1 c2] eqn:E1. intros [= <- <-]. cbn in *. rewrite Hx'. by eapply IHm.
Qed.

End NumbersTheorems.
