(* ===== verification/Store.v ===== *)
(** * The datastore interface ([pkg/apimachinery/src/store.rs])

    [KvStore] is the trait the API server is written against: a key-value map
    with one revision counter, compare-and-swap writes and prefix listing in
    pages.  [KvStoreLaws] states what an implementation promises, over the
    abstract state [view] (key to value and the revision that last wrote it),
    [revision], and [snapshot] (the views still readable at past revisions).

    Two implementations discharge the laws: [MemStore]
    ([pkg/apiserver/src/test_store.rs]) here and [EtcdStore] in [Etcd.v]. *)

From stdpp Require Import base gmap strings list numbers option.
From Stdlib Require Import ZArith Lia String Ascii.
From S2P Require Import Prelude Text BTree.
Open Scope string_scope.
Open Scope Z_scope.

(** ** Errors ([pkg/apimachinery/src/error.rs]) *)

(** [Serialization] and [Io] carry the text of the foreign error. *)
Inductive Error : Type :=
| NotFound (msg : string)
| AlreadyExists (msg : string)
| Conflict
| Gone (revision : Z)
| Invalid (msg : string)
| Unauthorized (msg : string)
| Forbidden (msg : string)
| Internal (msg : string)
| Serialization (msg : string)
| Io (msg : string)
| StoreError (msg : string)
| Unavailable (msg : string)
| Raft (msg : string)
| Tls (msg : string).

(** [Display], from the [#[error(…)]] attributes. *)
Definition error_text (e : Error) : string :=
  match e with
  | NotFound m => "not found: " ++ m
  | AlreadyExists m => "already exists: " ++ m
  | Conflict => "conflict: resource version mismatch"
  | Gone r => "gone: resource version " ++ show_u r ++ " has been compacted"
  | Invalid m => "invalid: " ++ m
  | Unauthorized m => "unauthorized: " ++ m
  | Forbidden m => "forbidden: " ++ m
  | Internal m => "internal: " ++ m
  | Serialization m => "serialization: " ++ m
  | Io m => "io: " ++ m
  | StoreError m => "store: " ++ m
  | Unavailable m => "datastore unavailable: " ++ m
  | Raft m => "raft: " ++ m
  | Tls m => "tls: " ++ m
  end.

(** ** Watch events ([pkg/apimachinery/src/watch.rs]) *)

Notation bytes := string.

Inductive WatchEvent : Type :=
| Added (key : string) (value : bytes) (revision : Z)
| Modified (key : string) (value : bytes) (revision : Z) (prev_value : option bytes)
| Deleted (key : string) (revision : Z) (prev_value : option bytes)
| Bookmark (revision : Z)
| WatchError (code : Z) (message : string) (revision : Z).

Definition event_revision (e : WatchEvent) : Z :=
  match e with
  | Added _ _ r | Modified _ _ r _ | Deleted _ r _ | Bookmark r | WatchError _ _ r => r
  end.

(** ** The trait *)

Record ListResult := {
  lr_items : list (string * bytes * Z);
  lr_continue_token : option string;
  lr_revision : Z;
  lr_remaining : option Z }.

Class KvStore (S : Type) := {
  kv_get : S → string → result (option (bytes * Z)) Error;
  kv_put : S → string → bytes → option Z → S * result Z Error;
  kv_delete : S → string → option Z → S * result Z Error;
  kv_list : S → string → Z → option string → result ListResult Error;
  kv_list_at : S → string → Z → option string → option Z → result ListResult Error }.

(** The trait's default [list_at], for a store that keeps no history. *)
Definition default_list_at {S}
    (list : S → string → Z → option string → result ListResult Error)
    (s : S) (prefix : string) (limit : Z) (token : option string) (revision : option Z) :
    result ListResult Error :=
  match list s prefix limit token with
  | Err e => Err e
  | Ok page =>
      match revision with
      | Some r => if lr_revision page =? r then Ok page else Err (Gone r)
      | None => Ok page
      end
  end.

(** ** What a store promises *)

Notation View := (BTreeMap (bytes * Z)).

(** The revision a compare-and-swap on [k] sees; an absent key is at 0. *)
Definition rev_of (m : View) (k : string) : Z :=
  match map_get m k with Some (_, r) => r | None => 0 end.

Definition after (token : option string) (k : string) : bool :=
  match token with None => true | Some t => str_ltb t k end.

Definition matching (m : View) (prefix : string) (token : option string) : View :=
  List.filter (λ kv, starts_with kv.1 prefix && after token kv.1) m.

(** A limit of 0 is no limit. *)
Definition take_limit {A} (limit : Z) (l : list A) : list A :=
  if limit =? 0 then l else take (Z.to_nat limit) l.

Definition to_items (m : View) : list (string * bytes * Z) := (λ kv, (kv.1, kv.2.1, kv.2.2)) <$> m.

Definition page_of (m : View) (revision : Z) (prefix : string) (limit : Z) (token : option string) :
    ListResult :=
  let all := matching m prefix token in
  let now := take_limit limit all in
  let remaining := Z.of_nat (List.length all - List.length now) in
  {| lr_items := to_items now;
     lr_continue_token := if 0 <? remaining then option_map fst (list.last now) else None;
     lr_revision := revision;
     lr_remaining := Some remaining |}.

(** A token a listing of [prefix] may resume from: one of its own keys. *)
Definition honest (prefix : string) (token : option string) : Prop :=
  match token with None => True | Some t => starts_with t prefix = true end.

(** A prefix to list: not empty, and text (no UTF-8 text has the byte 255). *)
Definition listable (prefix : string) : Prop :=
  prefix ≠ "" ∧ str_contains_char "255" prefix = false.

(** Revisions stay below [i64::MAX]: etcd's are [i64]. *)
Definition rev_room (r : Z) : Prop := r < i64_max.

Class KvStoreLaws (S : Type) `{KvStore S} := {
  kv_wf : S → Prop;
  serving : S → Prop;
  view : S → View;
  revision : S → Z;
  snapshot : S → Z → option View;
  view_wf s : kv_wf s → keys_sorted (view s) = true ∧ 0 ≤ revision s ≤ i64_max ∧
    ∀ k v r, map_get (view s) k = Some (v, r) → 0 < r ≤ revision s;
  snapshot_now s : kv_wf s → snapshot s (revision s) = Some (view s);
  get_ok s k : kv_wf s → serving s → kv_get s k = Ok (map_get (view s) k);
  put_ok s k v prev : kv_wf s → serving s → rev_room (revision s) →
    match prev with Some want => rev_of (view s) k = want | None => True end →
    ∃ s', kv_put s k v prev = (s', Ok (revision s')) ∧ kv_wf s' ∧ serving s' ∧
      revision s < revision s' ∧ view s' = map_insert (view s) k (v, revision s') ∧
      (∀ r, r ≤ revision s → snapshot s' r = snapshot s r ∨ snapshot s' r = None) ∧
      revision s' ≤ revision s + 1;
  put_conflict s k v want : kv_wf s → serving s → is_u64 want → rev_of (view s) k ≠ want →
    kv_put s k v (Some want) = (s, Err Conflict);
  delete_ok s k prev : kv_wf s → serving s → rev_room (revision s) →
    match prev with Some want => contains_key (view s) k = true ∧ rev_of (view s) k = want
                  | None => True end →
    ∃ s', kv_delete s k prev = (s', Ok (revision s')) ∧ kv_wf s' ∧ serving s' ∧
      revision s ≤ revision s' ∧ view s' = map_remove (view s) k ∧
      (∀ r, r < revision s' → snapshot s' r = snapshot s r ∨ snapshot s' r = None) ∧
      revision s' ≤ revision s + 1;
  delete_conflict s k want : kv_wf s → serving s → is_u64 want → want ≠ 0 →
    rev_of (view s) k ≠ want → kv_delete s k (Some want) = (s, Err Conflict);
  list_now s prefix limit token : kv_wf s → serving s → listable prefix → 0 ≤ limit ≤ i64_max →
    honest prefix token →
    kv_list_at s prefix limit token None = Ok (page_of (view s) (revision s) prefix limit token);
  list_pinned s prefix limit token r : kv_wf s → serving s → listable prefix → 0 ≤ limit ≤ i64_max →
    honest prefix token → 0 < r ≤ revision s →
    kv_list_at s prefix limit token (Some r) =
      match snapshot s r with Some m => Ok (page_of m r prefix limit token) | None => Err (Gone r) end }.

(** ** [MemStore] ([pkg/apiserver/src/test_store.rs]) *)

Module MemStore.

Record t := { inner : Z * View; unavailable : bool }.

Definition set_unavailable (s : t) (on : bool) : t := {| inner := inner s; unavailable := on |}.

Definition no_quorum : Error := Unavailable "no quorum".

Definition get (s : t) (key : string) : result (option (bytes * Z)) Error :=
  if unavailable s then Err no_quorum else Ok (map_get (snd (inner s)) key).

Definition put (s : t) (key : string) (value : bytes) (prev_revision : option Z) : t * result Z Error :=
  if unavailable s then (s, Err no_quorum)
  else
    let '(rev0, m) := inner s in
    let write :=
      let rev := wrap64 (rev0 + 1) in
      ({| inner := (rev, map_insert m key (value, rev)); unavailable := unavailable s |}, Ok rev) in
    match prev_revision with
    | Some want =>
        let have := match map_get m key with Some (_, r) => r | None => 0 end in
        if have =? want then write else (s, Err Conflict)
    | None => write
    end.

Definition delete (s : t) (key : string) (prev_revision : option Z) : t * result Z Error :=
  let '(rev0, m) := inner s in
  let write :=
    let rev := wrap64 (rev0 + 1) in
    ({| inner := (rev, map_remove m key); unavailable := unavailable s |}, Ok rev) in
  match prev_revision with
  | Some want =>
      match map_get m key with
      | Some (_, r) => if r =? want then write else (s, Err Conflict)
      | None => (s, Err Conflict)
      end
  | None => write
  end.

Fixpoint take_while {A} (f : A → bool) (l : list A) : list A :=
  match l with [] => [] | x :: l' => if f x then x :: take_while f l' else [] end.
Fixpoint drop_while {A} (f : A → bool) (l : list A) : list A :=
  match l with [] => [] | x :: l' => if f x then drop_while f l' else l end.

Definition list (s : t) (prefix : string) (limit : Z) (continue_token : option string) :
    result ListResult Error :=
  if unavailable s then Err no_quorum
  else
    let '(rev0, m) := inner s in
    let from := drop_while (λ kv, str_ltb kv.1 prefix) m in
    let matching :=
      List.filter (λ kv, match continue_token with None => true | Some t => str_ltb t kv.1 end)
        (take_while (λ kv, starts_with kv.1 prefix) from) in
    let n := if limit =? 0 then List.length matching else Z.to_nat limit in
    let items := to_items (take n matching) in
    let remaining := Z.of_nat (List.length (drop n matching)) in
    Ok {| lr_items := items;
          lr_continue_token := if 0 <? remaining then option_map (λ x, x.1.1) (list.last items) else None;
          lr_revision := rev0;
          lr_remaining := Some remaining |}.

End MemStore.

#[export] Instance mem_store : KvStore MemStore.t := {|
  kv_get := MemStore.get;
  kv_put := MemStore.put;
  kv_delete := MemStore.delete;
  kv_list := MemStore.list;
  kv_list_at := default_list_at MemStore.list |}.

(** ** [MemStore] keeps the promises *)

(** On sorted keys, skipping to the prefix and reading while it holds is the
    same as filtering on it. *)
Lemma take_while_prefix (m : View) prefix :
  keys_sorted m = true → Forall (λ kv, str_ltb kv.1 prefix = false) m →
  MemStore.take_while (λ kv, starts_with kv.1 prefix) m = List.filter (λ kv, starts_with kv.1 prefix) m.
Proof.
  induction m as [|[k v] m IH]; [done|]. intros [Ha Hs]%keys_sorted_cons Hf.
  inversion Hf as [|? ? Hk Hf']; subst. simpl in *.
  destruct (starts_with k prefix) eqn:E; [by rewrite IH|].
  symmetry. rewrite <- List.forallb_filter_id with (f := λ kv, negb (starts_with kv.1 prefix)).
  2:{ done. }
  clear -Ha E Hk. induction m as [|[k' v'] m IH]; [done|]. simpl.
  inversion Ha as [|? ? Hlt Ha']; subst. simpl in Hlt.
  destruct (starts_with k' prefix) eqn:E'; [|by apply IH].
  by rewrite (prefix_contiguous _ _ _ Hk Hlt E') in E.
Qed.

Lemma prefix_scan (m : View) prefix :
  keys_sorted m = true →
  MemStore.take_while (λ kv, starts_with kv.1 prefix) (MemStore.drop_while (λ kv, str_ltb kv.1 prefix) m)
  = List.filter (λ kv, starts_with kv.1 prefix) m.
Proof.
  induction m as [|[k v] m IH]; [done|]. intros Hm. pose proof Hm as [Ha Hs]%keys_sorted_cons.
  cbn [MemStore.drop_while fst]. destruct (str_ltb k prefix) eqn:E.
  - rewrite IH by done. simpl. destruct (starts_with k prefix) eqn:E'; [|done].
    apply prefix_not_above in E'. congruence.
  - apply take_while_prefix; [done|]. constructor; [done|].
    eapply List.Forall_impl; [|exact Ha]. intros [k' v']. simpl. intros Hlt.
    destruct (str_ltb k' prefix) eqn:E'; [|done]. by rewrite (str_ltb_trans _ _ _ Hlt E') in E.
Qed.

Lemma filter_filter {A} (f g : A → bool) l :
  List.filter f (List.filter g l) = List.filter (λ x, g x && f x) l.
Proof. induction l as [|x l IH]; simpl; [done|]. destruct (g x); simpl; by rewrite IH. Qed.

Lemma last_fmap {A B} (f : A → B) l : list.last (f <$> l) = f <$> list.last l.
Proof. apply fmap_last. Qed.

Lemma mem_list_page s prefix limit token :
  MemStore.unavailable s = false → keys_sorted (snd (MemStore.inner s)) = true →
  MemStore.list s prefix limit token
  = Ok (page_of (snd (MemStore.inner s)) (fst (MemStore.inner s)) prefix limit token).
Proof.
  intros Hu Hs. unfold MemStore.list. rewrite Hu. destruct (MemStore.inner s) as [rev0 m]. simpl in *.
  rewrite prefix_scan, filter_filter by done.
  change (List.filter _ m) with (matching m prefix token).
  unfold page_of. set (all := matching m prefix token).
  assert (take (if limit =? 0 then List.length all else Z.to_nat limit) all = take_limit limit all) as Ht.
  { unfold take_limit. destruct (limit =? 0); [|done]. by apply take_ge. }
  assert (List.length (drop (if (limit =? 0)%Z then List.length all else Z.to_nat limit) all)
          = List.length all - List.length (take_limit limit all))%nat as Hd.
  { rewrite <- Ht, length_take, length_drop. lia. }
  rewrite Ht, Hd. f_equal. f_equal.
  destruct (0 <? _); [|reflexivity]. unfold to_items. rewrite last_fmap. by destruct (list.last _).
Qed.

(** Revisions of stored keys are positive and not ahead of the store's. *)
Definition mem_wf (s : MemStore.t) : Prop :=
  keys_sorted (snd (MemStore.inner s)) = true ∧
  0 ≤ fst (MemStore.inner s) ≤ i64_max ∧
  ∀ k v r, map_get (snd (MemStore.inner s)) k = Some (v, r) → 0 < r ≤ fst (MemStore.inner s).

Lemma mem_wf_put rev0 m k v u :
  mem_wf {| MemStore.inner := (rev0, m); MemStore.unavailable := u |} → rev_room rev0 →
  mem_wf {| MemStore.inner := (rev0 + 1, map_insert m k (v, rev0 + 1)); MemStore.unavailable := u |}.
Proof.
  intros (H1 & H2 & H3) Hr. simpl in *. unfold rev_room in Hr. split_and!; simpl; [|lia|lia|].
  - by apply keys_sorted_insert.
  - intros k' v' r'. rewrite map_get_insert. case_match; [intros [= <- <-]; lia|].
    intros H'%H3. lia.
Qed.

Lemma mem_wf_delete rev0 m k u :
  mem_wf {| MemStore.inner := (rev0, m); MemStore.unavailable := u |} → rev_room rev0 →
  mem_wf {| MemStore.inner := (rev0 + 1, map_remove m k); MemStore.unavailable := u |}.
Proof.
  intros (H1 & H2 & H3) Hr. simpl in *. unfold rev_room in Hr. split_and!; simpl; [|lia|lia|].
  - by apply keys_sorted_remove.
  - intros k' v' r' Hg. destruct (str_eqb k' k) eqn:E.
    + apply str_eqb_eq in E as ->. by rewrite map_get_remove_eq in Hg.
    + apply str_eqb_neq in E. rewrite map_get_remove_ne in Hg by done. apply H3 in Hg. lia.
Qed.

#[export] Program Instance mem_store_laws : KvStoreLaws MemStore.t := {|
  kv_wf := mem_wf;
  serving s := MemStore.unavailable s = false;
  view s := snd (MemStore.inner s);
  revision s := fst (MemStore.inner s);
  snapshot s r := if r =? fst (MemStore.inner s) then Some (snd (MemStore.inner s)) else None |}.
Next Obligation. by intros s (H1 & H2 & H3). Qed.
Next Obligation. intros s _. simpl. by rewrite Z.eqb_refl. Qed.
Next Obligation. intros s k _ Hu. simpl in *. unfold MemStore.get. by rewrite Hu. Qed.
Next Obligation.
  intros [[rev0 m] u] k v prev Hwf Hu Hr Hp. simpl in *. subst.
  assert (wrap64 (rev0 + 1) = rev0 + 1) as Ew.
  { destruct Hwf as (_ & Hb & _). simpl in Hb. apply wrap64_small. unfold rev_room, i64_max, is_u64, u64_max in *. lia. }
  eexists {| MemStore.inner := (rev0 + 1, map_insert m k (v, rev0 + 1)); MemStore.unavailable := false |}.
  split_and!; simpl; [|by apply mem_wf_put|done|lia|done| |lia].
  - unfold MemStore.put. simpl. rewrite Ew. destruct prev as [want|]; [|done].
    unfold rev_of in Hp. rewrite Hp, Z.eqb_refl. done.
  - intros r Hle. right. by replace (r =? rev0 + 1) with false by (symmetry; apply Z.eqb_neq; lia).
Qed.
Next Obligation.
  intros [[rev0 m] u] k v want _ Hu _ Hne. simpl in *. subst. unfold MemStore.put. simpl.
  unfold rev_of in Hne. apply Z.eqb_neq in Hne. by rewrite Hne.
Qed.
Next Obligation.
  intros [[rev0 m] u] k prev Hwf Hu Hr Hp. simpl in *. subst.
  assert (wrap64 (rev0 + 1) = rev0 + 1) as Ew.
  { destruct Hwf as (_ & Hb & _). simpl in Hb. apply wrap64_small. unfold rev_room, i64_max, is_u64, u64_max in *. lia. }
  eexists {| MemStore.inner := (rev0 + 1, map_remove m k); MemStore.unavailable := false |}.
  split_and!; simpl; [|by apply mem_wf_delete|done|lia|done| |lia].
  - unfold MemStore.delete. simpl. rewrite Ew. destruct prev as [want|]; [|done].
    unfold rev_of, contains_key in Hp. destruct (map_get m k) as [[v r]|]; [|by destruct Hp].
    destruct Hp as [_ ->]. by rewrite Z.eqb_refl.
  - intros r Hle. right. by replace (r =? rev0 + 1) with false by (symmetry; apply Z.eqb_neq; lia).
Qed.
Next Obligation.
  intros [[rev0 m] u] k want _ Hu _ Hw Hne. simpl in *. subst. unfold MemStore.delete. simpl.
  unfold rev_of in Hne. destruct (map_get m k) as [[v r]|]; [|done].
  apply Z.eqb_neq in Hne. by rewrite Hne.
Qed.
Next Obligation.
  intros s prefix limit token (Hs & _) Hu _ _ _. simpl in *. unfold default_list_at.
  by rewrite mem_list_page.
Qed.
Next Obligation.
  intros s prefix limit token r (Hs & _) Hu _ _ _ Hr. simpl in *. unfold default_list_at.
  rewrite mem_list_page by done. simpl lr_revision. rewrite Z.eqb_sym.
  destruct (r =? fst (MemStore.inner s)) eqn:E; [|done]. apply Z.eqb_eq in E. by subst.
Qed.
