(* ===== verification/ApiError.v ===== *)
(** * API errors ([pkg/apiserver/src/error.rs])

    [ApiError] and its constructors, the conversion from a datastore error,
    and [condense], which cuts a backend's message to the part that names the
    fault. *)

From stdpp Require Import base gmap strings list numbers option.
From Stdlib Require Import ZArith Lia String Ascii.
From S2P Require Import Prelude Text BTree Json Store.
Open Scope string_scope.
Open Scope Z_scope.


Record ApiError := {
  status : Z;
  reason : string;
  message : string;
  continue_token : option string;
  details : option Value }.

Definition quoted (s : string) : string := (String "034" s ++ String "034" "")%string.

Definition api_error (code : Z) (why msg : string) : ApiError :=
  {| status := code; reason := why; message := msg; continue_token := None; details := None |}.

Definition not_found (resource name : string) : ApiError :=
  let '(kind, group) := default (resource, "") (split_once "." resource) in
  {| status := 404; reason := "NotFound";
     message := (resource ++ " " ++ quoted name ++ " not found")%string;
     continue_token := None;
     details := Some (json_obj [("name", Str name); ("group", Str group); ("kind", Str kind)]) |}.

Definition already_exists (resource name : string) : ApiError :=
  api_error 409 "AlreadyExists" (resource ++ " " ++ quoted name ++ " already exists").
Definition is_already_exists (e : ApiError) : bool := str_eqb (reason e) "AlreadyExists".
Definition conflict (msg : string) : ApiError := api_error 409 "Conflict" msg.
Definition bad_request (msg : string) : ApiError := api_error 400 "BadRequest" msg.
Definition invalid (msg : string) : ApiError := api_error 422 "Invalid" msg.
Definition internal (msg : string) : ApiError := api_error 500 "InternalError" msg.
Definition gone (msg : string) : ApiError := api_error 410 "Expired" msg.
Definition unauthorized (msg : string) : ApiError := api_error 401 "Unauthorized" msg.
Definition forbidden (msg : string) : ApiError := api_error 403 "Forbidden" msg.
Definition unavailable (msg : string) : ApiError := api_error 503 "ServiceUnavailable" msg.

(** ** [condense] *)

Definition MAX_CAUSE : nat := 160.

(** A byte that continues a UTF-8 character. *)
Definition is_cont (c : ascii) : bool :=
  Nat.leb 128 (nat_of_ascii c) && Nat.ltb (nat_of_ascii c) 192.

Fixpoint char_count (s : string) : nat :=
  match s with
  | EmptyString => 0
  | String c s' => if is_cont c then char_count s' else S (char_count s')
  end.

(** [s.chars().take(n).collect()]. *)
Fixpoint take_chars (n : nat) (s : string) : string :=
  match s with
  | EmptyString => EmptyString
  | String c s' =>
      if is_cont c then String c (take_chars n s')
      else match n with O => EmptyString | S n' => String c (take_chars n' s') end
  end.

(** What follows the last occurrence of a pattern. *)
Fixpoint after_last (pat s : string) : option string :=
  match s with
  | EmptyString => strip_prefix pat s
  | String _ s' =>
      match after_last pat s' with Some t => Some t | None => strip_prefix pat s end
  end.

(** What precedes the first occurrence of a pattern: [split(pat).next()]. *)
Fixpoint before_first (pat s : string) : string :=
  match strip_prefix pat s with
  | Some _ => EmptyString
  | None => match s with EmptyString => EmptyString | String c s' => String c (before_first pat s') end
  end.

(** [s.lines().next().unwrap_or(s)]. *)
Definition first_line (s : string) : string :=
  match split_once "010" s with
  | Some (l, _) => default l (strip_suffix (String "013" "") l)
  | None => s
  end.

Definition condense (cause0 : string) : string :=
  let cause := trim cause0 in
  let first := first_line cause in
  let core :=
    match after_last "source: " first with
    | Some tail => trim_end_char "," (trim (before_first ", backtrace:" tail))
    | None => first
    end in
  if Nat.leb (char_count core) MAX_CAUSE then core
  else (trim_end (take_chars MAX_CAUSE core) ++ "…")%string.

(** ** [From<apimachinery::Error>] *)

Definition from_error (e : Error) : ApiError :=
  match e with
  | NotFound msg => api_error 404 "NotFound" msg
  | AlreadyExists msg => api_error 409 "AlreadyExists" msg
  | Conflict => conflict "resource version mismatch"
  | Gone rev => gone ("resource version " ++ show_u rev ++ " has been compacted")
  | Unauthorized msg => api_error 401 "Unauthorized" msg
  | Forbidden msg => api_error 403 "Forbidden" msg
  | Invalid msg => invalid msg
  | Unavailable cause => unavailable ("datastore unavailable: " ++ condense cause)
  | _ => internal (error_text e)
  end.

(** The [Status] object of the response body, and whether the client is told
    to pace its retry. *)
Definition status_body (e : ApiError) : Value :=
  json_obj ([("apiVersion", Str "v1"); ("kind", Str "Status");
             ("metadata", match continue_token e with
                          | Some t => json_obj [("continue", Str t)]
                          | None => json_obj []
                          end);
             ("status", Str "Failure"); ("message", Str (message e)); ("reason", Str (reason e))]
            ++ match details e with Some d => [("details", d)] | None => [] end
            ++ [("code", Num (PosInt (status e)))])%list.

Definition retry_after (e : ApiError) : bool := (status e =? 503)%Z.

(** ** Theorems *)

Lemma char_count_app a b : char_count (a ++ b) = (char_count a + char_count b)%nat.
Proof. induction a as [|c a IH]; [done|]. simpl. destruct (is_cont c); rewrite IH; lia. Qed.

Lemma char_count_rev s : char_count (str_rev s) = char_count s.
Proof.
  induction s as [|c s IH]; [done|]. rewrite str_rev_cons, char_count_app, IH. simpl. destruct (is_cont c); lia.
Qed.

Lemma take_chars_count n s : (char_count (take_chars n s) ≤ n)%nat.
Proof.
  revert n. induction s as [|c s IH]; intros n; simpl; [lia|].
  destruct (is_cont c) eqn:E; simpl; [by rewrite E|]. destruct n as [|n]; [done|].
  simpl. rewrite E. specialize (IH n). lia.
Qed.

Lemma char_count_drop n s : (char_count (str_drop n s) ≤ char_count s)%nat.
Proof.
  revert s. induction n as [|n IH]; intros s; [done|]. destruct s as [|c s]; [done|]. simpl.
  specialize (IH s). destruct (is_cont c); lia.
Qed.

Lemma trim_end_count s : (char_count (trim_end s) ≤ char_count s)%nat.
Proof.
  unfold trim_end. rewrite char_count_rev, <- (char_count_rev s).
  generalize (str_rev s) as t. generalize (String.length s) as f.
  induction f as [|f IH]; intros t; [done|]. cbn [trim_end_go].
  destruct (ws_len_rev t) as [|n]; [done|]. etransitivity; [apply IH|]. apply char_count_drop.
Qed.

(** However long a backend's message, what reaches the client is at most
    160 characters and an ellipsis; an error whose text is short, one line and
    without a cause chain is passed on as it is. *)
Theorem condense_bounded cause :
  (char_count (condense cause) ≤ MAX_CAUSE + 1)%nat ∧
  (trim cause = cause → first_line cause = cause → after_last "source: " cause = None →
   (char_count cause ≤ MAX_CAUSE)%nat → condense cause = cause).
Proof.
  split.
  - unfold condense. case_match eqn:E; [apply Nat.leb_le in E; lia|].
    rewrite char_count_app. pose proof (trim_end_count (take_chars MAX_CAUSE
      match after_last "source: " (first_line (trim cause)) with
      | Some tail => trim_end_char "," (trim (before_first ", backtrace:" tail))
      | None => first_line (trim cause) end)) as H.
    pose proof (take_chars_count MAX_CAUSE
      match after_last "source: " (first_line (trim cause)) with
      | Some tail => trim_end_char "," (trim (before_first ", backtrace:" tail))
      | None => first_line (trim cause) end) as H'.
    change (char_count "…") with 1%nat. lia.
  - intros Ht Hl Ha Hc. unfold condense. rewrite Ht, Hl, Ha. by apply Nat.leb_le in Hc as ->.
Qed.

Lemma condense_bounded_witness :
  (char_count (condense "no space left on device") ≤ 161)%nat ∧
  condense "no space left on device" = "no space left on device".
Proof.
  destruct (condense_bounded "no space left on device") as [H1 H2]. split; [exact H1|].
  apply H2; try reflexivity. apply Nat.leb_le. reflexivity.
Defined.

(** The chain of a real backend error keeps its actionable end. *)
Example condense_chain :
  condense "when Write Snapshot, verb: Write, source: std::io::error::Error: No space left on device (os error 28), backtrace: None"
  = "std::io::error::Error: No space left on device (os error 28)".
Proof. vm_compute. reflexivity. Qed.
