(* ===== verification/Codec.v ===== *)
(** * The JSON codec interface

    Objects reach the datastore through [serde_json::to_vec] and come back
    through [serde_json::from_slice], which are not part of the sources.
    [JsonCodec] is the pair as a parameter with the one fact the program
    relies on: a well-formed value without floats is written and read back
    unchanged.  ([serde_json] is built without [float_roundtrip], so nothing
    is assumed of floats.)  [tagged_codec] is a concrete codec that meets it,
    so the theorems that take a [JsonCodec] are about something. *)

From stdpp Require Import base gmap strings list numbers option.
From Stdlib Require Import ZArith Lia String Ascii.
From S2P Require Import Prelude Text BTree Json.
Open Scope string_scope.
Open Scope Z_scope.

Class JsonCodec := {
  to_vec : Value → result string string;
  from_slice : string → result Value string;
  codec_roundtrip v : wf_value v = true → no_floats v = true →
    ∃ b, to_vec v = Ok b ∧ from_slice b = Ok v }.

(** ** A concrete codec: one tag byte, then lengths and counts in decimal. *)

Definition frame (n : nat) (rest : string) : string := (show_u (Z.of_nat n) ++ ";" ++ rest)%string.

Fixpoint encode (v : Value) : string :=
  match v with
  | Null => "n"
  | Bool b => if b then "t" else "f"
  | Num (PosInt z) => "p" ++ show_u z ++ ";"
  | Num (NegInt z) => "m" ++ show_u (- z) ++ ";"
  | Num (Float _) => "n"
  | Str s => "s" ++ frame (String.length s) s
  | Array l => "a" ++ frame (List.length l) (fold_right (λ x acc, encode x ++ acc)%string "" l)
  | Object m =>
      "o" ++ frame (List.length m)
        (fold_right (λ kv acc, frame (String.length kv.1) kv.1 ++ encode kv.2 ++ acc)%string "" m)
  end.

(** The number before the next [;]. *)
Definition read_len (s : string) : option (Z * string) :=
  match split_once ";" s with
  | Some (d, r) => n ← parse_digits d; Some (n, r)
  | None => None
  end.

Fixpoint read_bytes (n : nat) (s : string) : option (string * string) :=
  match n, s with
  | O, _ => Some ("", s)
  | S n', String c s' =>
      match read_bytes n' s' with Some (a, r) => Some (String c a, r) | None => None end
  | S _, EmptyString => None
  end.

Definition read_str (s : string) : option (string * string) :=
  '(n, r) ← read_len s; read_bytes (Z.to_nat n) r.

Fixpoint decode (fuel : nat) (s : string) : option (Value * string) :=
  match fuel with
  | O => None
  | S f =>
      match s with
      | EmptyString => None
      | String c r =>
          if Ascii.eqb c "n" then Some (Null, r)
          else if Ascii.eqb c "t" then Some (Bool true, r)
          else if Ascii.eqb c "f" then Some (Bool false, r)
          else if Ascii.eqb c "p" then '(z, r) ← read_len r; Some (Num (PosInt z), r)
          else if Ascii.eqb c "m" then '(z, r) ← read_len r; Some (Num (NegInt (- z)), r)
          else if Ascii.eqb c "s" then '(x, r) ← read_str r; Some (Str x, r)
          else if Ascii.eqb c "a" then
            '(n, r) ← read_len r;
            '(l, r) ← (fix go (n : nat) (r : string) :=
                         match n with
                         | O => Some ([], r)
                         | S n' => '(x, r) ← decode f r; '(l, r) ← go n' r; Some (x :: l, r)
                         end) (Z.to_nat n) r;
            Some (Array l, r)
          else if Ascii.eqb c "o" then
            '(n, r) ← read_len r;
            '(m, r) ← (fix go (n : nat) (r : string) :=
                         match n with
                         | O => Some ([], r)
                         | S n' =>
                             '(k, r) ← read_str r; '(x, r) ← decode f r; '(m, r) ← go n' r;
                             Some ((k, x) :: m, r)
                         end) (Z.to_nat n) r;
            Some (Object m, r)
          else None
      end
  end.

(** The nesting depth, which bounds the fuel. *)
Fixpoint depth (v : Value) : nat :=
  match v with
  | Array l => S (fold_right (λ x acc, Nat.max (depth x) acc) 0%nat l)
  | Object m => S (fold_right (λ kv acc, Nat.max (depth kv.2) acc) 0%nat m)
  | _ => 1
  end.

Lemma read_len_show n rest : 0 ≤ n → read_len (show_u n ++ ";" ++ rest) = Some (n, rest).
Proof.
  intros Hn. unfold read_len. change (";" ++ rest)%string with (String ";" rest). rewrite split_once_app.
  - by rewrite parse_digits_show.
  - apply (str_forall_no_char is_ascii_digit); [by apply show_u_digits|done].
Qed.

Lemma read_bytes_app s rest : read_bytes (String.length s) (s ++ rest) = Some (s, rest).
Proof. induction s as [|c s IH]; [by destruct rest|]. simpl. by rewrite IH. Qed.

Lemma read_str_frame s rest : read_str (frame (String.length s) s ++ rest) = Some (s, rest).
Proof.
  unfold read_str, frame. rewrite <- !str_app_assoc. rewrite read_len_show by lia.
  cbn [mbind option_bind]. by rewrite Nat2Z.id, read_bytes_app.
Qed.

Lemma str_length_app a b : String.length (a ++ b) = (String.length a + String.length b)%nat.
Proof. induction a as [|c a IH]; simpl; [done|]. by rewrite IH. Qed.

Lemma depth_le_length v : no_floats v = true → (depth v ≤ String.length (encode v))%nat.
Proof.
  induction v as [|b|n|s|l IH|m IH] using Value_ind'; intros Hn; cbn [depth encode].
  - done.
  - by destruct b.
  - destruct n; simpl; done || lia.
  - simpl. lia.
  - change ("a" ++ ?s)%string with (String "a" s). cbn [String.length]. apply le_n_S. unfold frame.
    rewrite !str_length_app. etransitivity; [|apply Nat.le_add_l]. etransitivity; [|apply Nat.le_add_l].
    simpl in Hn. induction IH as [|x l Hx Hl IHl]; [done|]. simpl in *.
    apply andb_true_iff in Hn as [H1 H2]. rewrite str_length_app. specialize (Hx H1). specialize (IHl H2). lia.
  - change ("o" ++ ?s)%string with (String "o" s). cbn [String.length]. apply le_n_S. unfold frame.
    rewrite !str_length_app. etransitivity; [|apply Nat.le_add_l]. etransitivity; [|apply Nat.le_add_l].
    simpl in Hn. induction IH as [|[k x] m Hx Hm IHm]; [done|]. simpl in *.
    apply andb_true_iff in Hn as [H1 H2]. rewrite !str_length_app. specialize (Hx H1). specialize (IHm H2). lia.
Qed.

Lemma decode_encode v : ∀ fuel rest,
  wf_value v = true → no_floats v = true → (depth v ≤ fuel)%nat →
  decode fuel (encode v ++ rest) = Some (v, rest).
Proof.
  induction v as [|b|n|s|l IH|m IH] using Value_ind'; intros [|fuel] rest Hwf Hn Hd;
    try (cbn [depth] in Hd; lia).
  - done.
  - by destruct b.
  - destruct n as [z|z|f]; [| |done]; simpl in Hwf; apply andb_true_iff in Hwf as [H1 H2];
      rewrite ?Z.leb_le, ?Z.ltb_lt in H1, H2; cbn [encode]; rewrite <- str_app_assoc;
      cbn [append decode Ascii.eqb Bool.eqb]; rewrite <- str_app_assoc, read_len_show by lia;
      cbn [mbind option_bind]; repeat f_equal; lia.
  - cbn [encode]. rewrite <- str_app_assoc. cbn [append decode Ascii.eqb Bool.eqb].
    rewrite read_str_frame. done.
  - cbn [encode]. rewrite <- str_app_assoc. cbn [append decode Ascii.eqb Bool.eqb].
    unfold frame. rewrite <- !str_app_assoc, read_len_show by lia. cbn [mbind option_bind].
    rewrite Nat2Z.id. cbn [depth] in Hd. apply le_S_n in Hd. simpl in Hwf, Hn.
    match goal with |- context [?g (List.length l) ?t] => enough (g (List.length l) t = Some (l, rest)) as -> by done end.
    induction IH as [|x l Hx Hl IHl]; [done|]. simpl in *.
    apply andb_true_iff in Hwf as [W1 W2], Hn as [N1 N2].
    rewrite <- str_app_assoc, Hx by (done || lia). cbn [mbind option_bind].
    rewrite IHl by (done || lia). done.
  - cbn [encode]. rewrite <- str_app_assoc. cbn [append decode Ascii.eqb Bool.eqb].
    unfold frame at 1. rewrite <- !str_app_assoc, read_len_show by lia. cbn [mbind option_bind].
    rewrite Nat2Z.id. cbn [depth] in Hd. apply le_S_n in Hd. simpl in Hwf, Hn.
    apply andb_true_iff in Hwf as [_ Hwf].
    match goal with |- context [?g (List.length m) ?t] => enough (g (List.length m) t = Some (m, rest)) as -> by done end.
    induction IH as [|[k x] m Hx Hm IHm]; [done|]. simpl in *.
    apply andb_true_iff in Hwf as [W1 W2], Hn as [N1 N2].
    rewrite <- !str_app_assoc, read_str_frame. cbn [mbind option_bind].
    rewrite Hx by (done || lia). cbn [mbind option_bind].
    rewrite IHm by (done || lia). done.
Qed.

Definition tagged_from_slice (b : string) : result Value string :=
  match decode (S (String.length b)) b with
  | Some (v, EmptyString) => Ok v
  | _ => Err "malformed"
  end.

Program Definition tagged_codec : JsonCodec := {|
  to_vec v := Ok (encode v);
  from_slice := tagged_from_slice |}.
Next Obligation.
  intros v Hwf Hn. eexists. split; [done|]. unfold tagged_from_slice.
  rewrite <- (str_app_nil_r (encode v)) at 2. rewrite decode_encode; [done..|].
  pose proof (depth_le_length v Hn). lia.
Qed.
