(* ===== verification/Storage.v ===== *)
(** * Resource storage ([pkg/apiserver/src/storage.rs])

    The layer between API objects and the datastore: store keys, the
    [resourceVersion] an object carries, create, update, delete, get and the
    pages of a LIST.  Operations thread the store [S]; [None] is a panic (an
    index assignment into a JSON value that is neither an object nor null).

    Everything is proved against [KvStoreLaws] and [JsonCodec], so it holds of
    every store that keeps the promises. *)

From stdpp Require Import base gmap strings list numbers option.
From Stdlib Require Import ZArith Lia String Ascii.
From S2P Require Import Prelude Text BTree Json F64 Quantity Store ApiError Codec.
Open Scope string_scope.
Open Scope Z_scope.

(** ** Keys *)

Definition REGISTRY_PREFIX : string := "/registry".

Definition nonempty (s : string) : option string := if is_empty_str s then None else Some s.

Definition metric_resource (key : string) : string :=
  let segs := tail (split_on "/" (trim_start_char "/" key)) in
  match head segs ≫= nonempty with
  | Some group =>
      if str_contains_char "." group then
        match head (tail segs) ≫= nonempty with
        | Some plural => (plural ++ "." ++ group)%string
        | None => group
        end
      else group
  | None => "unknown"
  end.

Definition custom_resource (group plural : string) : string := (group ++ "/" ++ plural)%string.
Definition cluster_key (resource name : string) : string :=
  (REGISTRY_PREFIX ++ "/" ++ resource ++ "/" ++ name)%string.
Definition namespaced_key (resource namespace name : string) : string :=
  (REGISTRY_PREFIX ++ "/" ++ resource ++ "/" ++ namespace ++ "/" ++ name)%string.
Definition cluster_prefix (resource : string) : string :=
  (REGISTRY_PREFIX ++ "/" ++ resource ++ "/")%string.
Definition namespace_prefix (resource namespace : string) : string :=
  (REGISTRY_PREFIX ++ "/" ++ resource ++ "/" ++ namespace ++ "/")%string.
Definition all_namespaces_prefix (resource : string) : string :=
  (REGISTRY_PREFIX ++ "/" ++ resource ++ "/")%string.

(** [handlers::resource::resource_to_api_version]. *)
Definition resource_to_api_version (r : string) : string :=
  if str_in r ["deployments"; "replicasets"; "statefulsets"; "daemonsets"; "controllerrevisions"] then "apps/v1"
  else if str_in r ["jobs"; "cronjobs"] then "batch/v1"
  else if str_eqb r "leases" then "coordination.k8s.io/v1"
  else if str_eqb r "endpointslices" then "discovery.k8s.io/v1"
  else if str_in r ["storageclasses"; "csidrivers"; "csinodes"; "volumeattachments"; "csistoragecapacities";
                    "volumeattributesclasses"] then "storage.k8s.io/v1"
  else if str_in r ["clusterroles"; "clusterrolebindings"; "roles"; "rolebindings"] then "rbac.authorization.k8s.io/v1"
  else if str_eqb r "certificatesigningrequests" then "certificates.k8s.io/v1"
  else if str_eqb r "customresourcedefinitions" then "apiextensions.k8s.io/v1"
  else if str_eqb r "horizontalpodautoscalers" then "autoscaling/v2"
  else if str_in r ["networkpolicies"; "ingresses"; "ingressclasses"; "servicecidrs"; "ipaddresses"]
    then "networking.k8s.io/v1"
  else if str_eqb r "priorityclasses" then "scheduling.k8s.io/v1"
  else if str_in r ["flowschemas"; "prioritylevelconfigurations"] then "flowcontrol.apiserver.k8s.io/v1"
  else if str_eqb r "runtimeclasses" then "node.k8s.io/v1"
  else if str_eqb r "poddisruptionbudgets" then "policy/v1"
  else if str_in r ["deviceclasses"; "resourceclaims"; "resourceclaimtemplates"; "resourceslices"]
    then "resource.k8s.io/v1"
  else if str_in r ["mutatingwebhookconfigurations"; "validatingwebhookconfigurations";
                    "validatingadmissionpolicies"; "validatingadmissionpolicybindings";
                    "mutatingadmissionpolicies"; "mutatingadmissionpolicybindings"]
    then "admissionregistration.k8s.io/v1"
  else if str_in r ["gatewayclasses"; "gateways"; "httproutes"] then "gateway.networking.k8s.io/v1"
  else if str_eqb r "apiservices" then "apiregistration.k8s.io/v1"
  else if str_eqb r "podmigrations" then "rustkube.io/v1alpha1"
  else "v1".

(** [trim_start_matches(p)] of a non-empty text: [fuel] bounds the repeats. *)
Fixpoint trim_start_str (fuel : nat) (p s : string) : string :=
  match fuel with
  | O => s
  | S f => match strip_prefix p s with Some r => trim_start_str f p r | None => s end
  end.

Definition not_found_at (key : string) : ApiError :=
  let segs := List.filter (λ s, negb (is_empty_str s))
                (split_on "/" (trim_start_str (String.length key) "/registry/" key)) in
  let name := default key (list.last segs) in
  let builtin p :=
    let av := resource_to_api_version p in
    (match split_once "/" av with Some (g, _) => g | None => "" end, p) in
  let '(group, plural) :=
    match segs with
    | g :: p :: rest =>
        match rest with
        | _ :: _ => if str_contains_char "." g then (g, p) else builtin g
        | [] => builtin g
        end
    | _ => ("", "resource")
    end in
  not_found (if is_empty_str group then plural else (plural ++ "." ++ group)%string) name.

(** ** [resourceVersion] *)

Definition inject_resource_version (obj : Value) (rev : Z) : option Value :=
  obj' ← (if match Json.get obj "metadata" with Some m => is_object m | None => false end
          then Some obj else set_index obj "metadata" (json_obj []));
  set_index2 obj' "metadata" "resourceVersion" (Str (show_u rev)).

Definition strip_resource_version (obj : Value) : Value := remove_at obj "metadata" "resourceVersion".

(** ** Continue tokens and read options *)

Definition continue_text (revision : Z) (key : string) : string := (show_u revision ++ ":" ++ key)%string.

Definition parse_continue (token : string) : option Z * string :=
  match split_once ":" token with
  | Some (rev, key) =>
      if negb (is_empty_str rev) && str_forall is_ascii_digit rev then (parse_u64 rev, key)
      else (None, token)
  | None => (None, token)
  end.

Inductive Read := Consistent | NotOlderThan (min : Z) | Exact (rev : Z).

(** [debug] is the [{:?}] text of a string in an error message. *)
Definition from_params (debug : string → string) (resource_version matching : option string) :
    result Read ApiError :=
  let rv :=
    match resource_version ≫= nonempty with
    | None =>
        match matching ≫= nonempty with
        | Some _ => Err (bad_request "resourceVersionMatch is forbidden unless resourceVersion is provided")
        | None => Ok None
        end
    | Some v =>
        match parse_u64 v with
        | Some n => Ok (Some n)
        | None => Err (bad_request ("invalid resourceVersion " ++ debug v ++ ": must be a number"))
        end
    end in
  match rv with
  | Err e => Err e
  | Ok None => Ok Consistent
  | Ok (Some rv) =>
      let m := default "" matching in
      if str_in m [""; "NotOlderThan"] then Ok (NotOlderThan rv)
      else if str_eqb m "Exact" then
        if rv =? 0 then
          Err (bad_request ("resourceVersionMatch " ++ quoted "Exact" ++ " is forbidden for resourceVersion "
                            ++ quoted "0"))
        else Ok (Exact rv)
      else Err (bad_request ("invalid resourceVersionMatch " ++ debug m ++ ": must be NotOlderThan or Exact"))
  end.

Record ListPage := {
  lp_items : list Value;
  lp_continue_token : option string;
  lp_revision : Z;
  lp_remaining : option Z }.

Definition INCONSISTENT_CONTINUE : string :=
  "The provided continue parameter is too old to display a consistent list result. You can start a new list without the continue parameter, or use the continue token in this response to retrieve the remainder of the results. Continuing with the provided token results in an inconsistent list - objects that were created, modified, or deleted between the time the first chunk was returned and now may show up in the list.".

(** ** The operations *)

Section ResourceStorage.
  Context {S : Type} `{KvStore S} `{JsonCodec}.
  Variable float_text : f64 → string.

(** [from_slice] and the injected revision. *)
Definition decode_at (bytes : string) (rev : Z) : option (result Value ApiError) :=
  match from_slice bytes with
  | Err e => Some (Err (internal e))
  | Ok obj => obj' ← inject_resource_version obj rev; Some (Ok obj')
  end.

Definition get (s : S) (key : string) : option (result Value ApiError) :=
  match kv_get s key with
  | Err e => Some (Err (from_error e))
  | Ok (Some (bytes, rev)) => decode_at bytes rev
  | Ok None => Some (Err (not_found_at key))
  end.

(** The item loop of a page: the first object that does not parse ends it. *)
Fixpoint decode_items (l : list (string * bytes * Z)) : option (result (list Value) ApiError) :=
  match l with
  | [] => Some (Ok [])
  | (_, b, r) :: l' =>
      o ← decode_at b r;
      match o with
      | Err e => Some (Err e)
      | Ok v =>
          rest ← decode_items l';
          Some (match rest with Err e => Err e | Ok vs => Ok (v :: vs) end)
      end
  end.

Definition list_pinned (s : S) (prefix : string) (limit : Z) (continue : option string) (pinned : option Z) :
    option (result ListPage ApiError) :=
  match kv_list_at s prefix limit continue pinned with
  | Err e =>
      Some (Err (match e, continue with
                 | Gone _, Some t =>
                     let g := gone INCONSISTENT_CONTINUE in
                     {| status := status g; reason := reason g; message := message g;
                        continue_token := Some t; details := details g |}
                 | _, _ => from_error e
                 end))
  | Ok page =>
      r ← decode_items (lr_items page);
      Some (match r with
            | Err e => Err e
            | Ok items =>
                let revision := default (lr_revision page) pinned in
                Ok {| lp_items := items;
                      lp_continue_token := continue_text revision <$> lr_continue_token page;
                      lp_revision := revision;
                      lp_remaining := lr_remaining page |}
            end)
  end.

Definition list_page (s : S) (prefix : string) (limit : Z) (token : option string) :
    option (result ListPage ApiError) :=
  match token with
  | Some t => let '(rev, key) := parse_continue t in list_pinned s prefix limit (Some key) rev
  | None => list_pinned s prefix limit None None
  end.

Definition list_page_at (s : S) (prefix : string) (limit rev : Z) : option (result ListPage ApiError) :=
  list_pinned s prefix limit None (Some rev).

(** What both writes store: quantities as strings, no [resourceVersion]. *)
Definition create (s : S) (key : string) (obj : Value) : S * option (result Value ApiError) :=
  let obj := (numbers_to_strings float_text (metric_resource key) obj).1 in
  let obj := strip_resource_version obj in
  match to_vec obj with
  | Err e => (s, Some (Err (internal e)))
  | Ok bytes =>
      let '(s', r) := kv_put s key bytes (Some 0) in
      (s', match r with
           | Ok rev => obj' ← inject_resource_version obj rev; Some (Ok obj')
           | Err Conflict =>
               let name := str_or "unknown" (index (index obj "metadata") "name") in
               let kind := str_or "resource" (index obj "kind") in
               Some (Err (already_exists kind name))
           | Err e => Some (Err (from_error e))
           end)
  end.

Definition update (s : S) (key : string) (obj : Value) (prev_revision : option Z) :
    S * option (result Value ApiError) :=
  let obj := (numbers_to_strings float_text (metric_resource key) obj).1 in
  let obj := strip_resource_version obj in
  match to_vec obj with
  | Err e => (s, Some (Err (internal e)))
  | Ok bytes =>
      let '(s', r) := kv_put s key bytes prev_revision in
      (s', match r with
           | Ok rev => obj' ← inject_resource_version obj rev; Some (Ok obj')
           | Err e => Some (Err (from_error e))
           end)
  end.

Definition delete (s : S) (key : string) (prev_revision : option Z) : S * result unit ApiError :=
  let '(s', r) := kv_delete s key prev_revision in
  (s', match r with Ok _ => Ok () | Err e => Err (from_error e) end).

End ResourceStorage.

(** ** Lemmas: [resourceVersion] *)

Lemma inject_object obj rev :
  is_object obj = true →
  ∃ o, inject_resource_version obj rev = Some o ∧ is_object o = true ∧
    index (index o "metadata") "resourceVersion" = Str (show_u rev).
Proof.
  destruct obj as [| | | | |m]; try done. intros _. unfold inject_resource_version. simpl Json.get.
  assert (∀ m', is_object (index (Object m') "metadata") = true →
    ∃ o, set_index2 (Object m') "metadata" "resourceVersion" (Str (show_u rev)) = Some o ∧
      is_object o = true ∧ index (index o "metadata") "resourceVersion" = Str (show_u rev)) as Haux.
  { intros m' Hm. unfold set_index2. destruct (index (Object m') "metadata") as [| | | | |i] eqn:E; try done.
    simpl. eexists. split; [done|]. split; [done|].
    unfold index at 2. simpl. rewrite map_get_insert_eq. simpl. unfold index. simpl. by rewrite map_get_insert_eq. }
  destruct (map_get m "metadata") as [v|] eqn:Em; [destruct (is_object v) eqn:Ev|].
  - cbn [mbind option_bind]. apply Haux. unfold index. simpl. by rewrite Em.
  - cbn [mbind option_bind set_index]. apply Haux. unfold index. simpl. by rewrite map_get_insert_eq.
  - cbn [mbind option_bind set_index]. apply Haux. unfold index. simpl. by rewrite map_get_insert_eq.
Qed.

Lemma is_object_strip v : is_object v = true → is_object (strip_resource_version v) = true.
Proof. destruct v; try done. intros _. unfold strip_resource_version, remove_at. by repeat case_match. Qed.

Lemma is_object_numbers ft r v : is_object v = true → is_object (numbers_to_strings ft r v).1 = true.
Proof.
  destruct v; try done. intros _. unfold numbers_to_strings. case_match; [|done].
  rewrite walk_Object. by destruct (walk_map _ _ _ _).
Qed.

Lemma wf_remove_at v k x : wf_value v = true → wf_value (remove_at v k x) = true.
Proof.
  intros Hwf. unfold remove_at. destruct v as [| | | | |m]; try done.
  destruct (map_get m k) as [[| | | | |i]|] eqn:E; try done.
  apply wf_object_insert; [done|]. apply wf_object_remove. eapply wf_map_get; done.
Qed.

Lemma no_floats_remove_at v k x : no_floats v = true → no_floats (remove_at v k x) = true.
Proof.
  intros Hn. unfold remove_at. destruct v as [| | | | |m]; try done.
  destruct (map_get m k) as [[| | | | |i]|] eqn:E; try done. simpl in *.
  apply forallb_insert; [done|]. simpl. apply forallb_remove.
  apply map_get_In in E. rewrite forallb_forall in Hn. by apply (Hn (k, Object i)).
Qed.

(** The object carries no [metadata.resourceVersion]. *)
Definition unversioned (v : Value) : Prop := Json.get (index v "metadata") "resourceVersion" = None.

Lemma strip_unversioned v : wf_value v = true → unversioned (strip_resource_version v).
Proof.
  intros Hwf. unfold unversioned, strip_resource_version, remove_at. destruct v as [| | | | |m]; try done.
  destruct (map_get m "metadata") as [[| | | | |i]|] eqn:E; unfold index; simpl; try (by rewrite E).
  rewrite map_get_insert_eq. simpl. apply map_get_remove_eq.
  assert (wf_value (Object i) = true) as Hi by (eapply wf_map_get; done).
  simpl in Hi. by apply andb_true_iff in Hi as [? _].
Qed.

(** ** Lemmas: continue tokens and pages *)

Lemma parse_continue_text r k : is_u64 r → parse_continue (continue_text r k) = (Some r, k).
Proof.
  intros Hr. unfold parse_continue, continue_text. change (":" ++ k)%string with (String ":" k).
  assert (0 ≤ r) by (unfold is_u64 in Hr; lia). pose proof (show_u_digits r ltac:(lia)) as Hd.
  rewrite split_once_app by (by apply (str_forall_no_char is_ascii_digit)).
  rewrite Hd, parse_u64_show by done. pose proof (show_u_nonempty r) as Hne. by destruct (show_u r).
Qed.

Lemma to_items_app m1 m2 : to_items (m1 ++ m2) = (to_items m1 ++ to_items m2)%list.
Proof. apply fmap_app. Qed.

(** A page and what is left: either nothing is left and there is no token, or
    the token is a key of the prefix and what is left is what follows it. *)
Lemma page_split m prefix token limit :
  keys_sorted m = true → 0 < limit →
  ∃ rest, matching m prefix token = (take_limit limit (matching m prefix token) ++ rest)%list ∧
    ((rest = [] ∧ ∀ r, lr_continue_token (page_of m r prefix limit token) = None) ∨
     ∃ k, starts_with k prefix = true ∧ matching m prefix (Some k) = rest ∧
       (List.length rest < List.length (matching m prefix token))%nat ∧
       ∀ r, lr_continue_token (page_of m r prefix limit token) = Some k).
Proof.
  intros Hm Hl. set (all := matching m prefix token). exists (drop (Z.to_nat limit) all).
  assert (take_limit limit all = take (Z.to_nat limit) all) as Ht.
  { unfold take_limit. by replace (limit =? 0) with false by (symmetry; apply Z.eqb_neq; lia). }
  rewrite Ht. split; [by rewrite take_drop|].
  pose proof (length_take all (Z.to_nat limit)) as Hlt. pose proof (length_drop all (Z.to_nat limit)) as Hld.
  unfold page_of. fold all. rewrite Ht. cbn [lr_continue_token].
  destruct (decide (List.length all ≤ Z.to_nat limit)%nat) as [Hle|Hgt].
  - left. split; [apply drop_ge; lia|]. intros r.
    replace (0 <? _) with false; [done|]. symmetry. apply Z.ltb_ge. lia.
  - right. assert (all = take (Z.to_nat limit) all ++ drop (Z.to_nat limit) all)%list as Hall by (by rewrite take_drop).
    destruct (list.last (take (Z.to_nat limit) all)) as [[k v]|] eqn:El.
    2:{ apply last_None in El. rewrite El in Hlt. simpl in Hlt. lia. }
    assert (0 <? Z.of_nat (List.length all - List.length (take (Z.to_nat limit) all)) = true) as ->
      by (apply Z.ltb_lt; lia).
    apply last_Some in El as [l1 El]. rewrite El, <- app_assoc in Hall. simpl in Hall.
    assert (In (k, v) all) as Hin by (rewrite Hall; apply in_app_iff; right; by left).
    unfold all, matching in Hin. apply filter_In in Hin as [_ [Hp Hafter]%andb_true_iff]. simpl in Hp, Hafter.
    exists k. split_and!; [done| |lia|done].
    assert (matching m prefix (Some k) = List.filter (λ kv, str_ltb k kv.1) all) as ->.
    { unfold all, matching. rewrite filter_filter. apply filter_ext. intros [k' v']. simpl.
      destruct (starts_with k' prefix); [|done]. simpl. destruct (str_ltb k k') eqn:Ek; [|by rewrite andb_false_r].
      rewrite andb_true_r. symmetry. destruct token as [t|]; [|done]. simpl in *. by eapply str_ltb_trans. }
    rewrite Hall at 1. apply filter_after. rewrite <- Hall. by apply keys_sorted_filter.
Qed.

(** ** Theorems: single operations *)

Section StorageTheorems.
  Context {S : Type} `{HL : KvStoreLaws S} `{JsonCodec}.
  Variable float_text : f64 → string.
  Implicit Types s : S.

(** What a write of [obj] under [key] stores. *)
Definition stored_form (key : string) (obj : Value) : Value :=
  strip_resource_version (numbers_to_strings float_text (metric_resource key) obj).1.

(** An object the API accepts: a well-formed JSON object whose numbers that
    stay numbers are integers. *)
Definition storable (key : string) (obj : Value) : Prop :=
  wf_value obj = true ∧ is_object obj = true ∧
  no_floats (numbers_to_strings float_text (metric_resource key) obj).1 = true.

Lemma tidy_storable key v : is_object v = true → wf_value v = true → no_floats v = true → storable key v.
Proof. intros Ho Hw Hn. split_and!; [done|done|]. unfold numbers_to_strings. case_match; [by apply no_floats_walk|done]. Qed.
Lemma stored_form_codec key obj :
  storable key obj →
  is_object (stored_form key obj) = true ∧ unversioned (stored_form key obj) ∧
  ∃ b, to_vec (stored_form key obj) = Ok b ∧ from_slice b = Ok (stored_form key obj).
Proof.
  intros (Hwf & Ho & Hn). pose proof (wf_numbers_to_strings float_text (metric_resource key) obj Hwf) as Hwf'.
  split_and!.
  - by apply is_object_strip, is_object_numbers.
  - by apply strip_unversioned.
  - apply codec_roundtrip; [by apply wf_remove_at|by apply no_floats_remove_at].
Qed.

Lemma stored_form_tidy key obj :
  storable key obj → wf_value (stored_form key obj) = true ∧ no_floats (stored_form key obj) = true.
Proof.
  intros (Hwf & _ & Hn). split; [by apply wf_remove_at, wf_numbers_to_strings|by apply no_floats_remove_at].
Qed.

Lemma rev_of_absent s k : kv_wf s → contains_key (view s) k = false ↔ rev_of (view s) k = 0.
Proof.
  intros Hwf. apply view_wf in Hwf as (_ & _ & Hr). unfold contains_key, rev_of.
  destruct (map_get (view s) k) as [[v r]|] eqn:E; [|done]. apply Hr in E. split; [done|lia].
Qed.

Lemma put_stored s s' key obj b o :
  from_slice b = Ok (stored_form key obj) →
  inject_resource_version (stored_form key obj) (revision s') = Some o →
  kv_wf s' → serving s' → view s' = map_insert (view s) key (b, revision s') →
  get s' key = Some (Ok o).
Proof.
  intros Hb Ho Hwf Hs Hv. unfold get. rewrite get_ok by done. rewrite Hv, map_get_insert_eq.
  unfold decode_at. by rewrite Hb, Ho.
Qed.

Lemma get_frame s s' k k' :
  kv_wf s → serving s → kv_wf s' → serving s' →
  map_get (view s') k = map_get (view s) k' → k = k' → get s' k = get s k'.
Proof. intros. subst. unfold get. rewrite !get_ok by done. by rewrite H5. Qed.

(** C35: Creating an object under a free key succeeds, and reading the key back
    returns exactly what create returned: the object with its quantities as
    strings and the [resourceVersion] of the revision that wrote it.  Every
    other key reads as before. *)
Theorem create_get s key obj :
  kv_wf s → serving s → rev_room (revision s) → storable key obj → contains_key (view s) key = false →
  ∃ s' o, create float_text s key obj = (s', Some (Ok o)) ∧ kv_wf s' ∧ get s' key = Some (Ok o) ∧
    index (index o "metadata") "resourceVersion" = Str (show_u (revision s')) ∧
    revision s < revision s' ∧ ∀ k, k ≠ key → get s' k = get s k.
Proof.
  intros Hwf Hs Hr Hobj Habs. destruct (stored_form_codec key obj Hobj) as (Ho & _ & b & Hb & Hd).
  destruct (put_ok s key b (Some 0) Hwf Hs Hr) as (s' & Hp & Hwf' & Hs' & Hlt & Hv & _);
    [by apply rev_of_absent|].
  destruct (inject_object (stored_form key obj) (revision s') Ho) as (o & Hi & _ & Hrv).
  exists s', o. split_and!; [|done|by eapply put_stored|done|done|].
  - unfold create. unfold stored_form in Hb, Hi. rewrite Hb, Hp. by rewrite Hi.
  - intros k Hk. apply get_frame; try done. by rewrite Hv, map_get_insert_ne.
Qed.

(** Creating an object whose key is taken changes nothing and answers 409
    [AlreadyExists] naming the object. *)
Theorem create_exists s key obj :
  kv_wf s → serving s → storable key obj → contains_key (view s) key = true →
  let e := already_exists (str_or "resource" (index (stored_form key obj) "kind"))
             (str_or "unknown" (index (index (stored_form key obj) "metadata") "name")) in
  create float_text s key obj = (s, Some (Err e)) ∧ status e = 409 ∧ is_already_exists e = true.
Proof.
  intros Hwf Hs Hobj Hin. destruct (stored_form_codec key obj Hobj) as (_ & _ & b & Hb & _).
  split; [|done]. unfold create. unfold stored_form in Hb. rewrite Hb, put_conflict; try done.
  intros Hz. apply rev_of_absent in Hz; [|done]. congruence.
Qed.

(** An update with the [resourceVersion] of the object it read succeeds
    and is what the next read returns; one with any other version changes
    nothing and answers 409 [Conflict]. *)
Theorem update_cas s key obj r :
  kv_wf s → serving s → rev_room (revision s) → storable key obj → is_u64 r →
  if decide (rev_of (view s) key = r) then
    ∃ s' o, update float_text s key obj (Some r) = (s', Some (Ok o)) ∧ kv_wf s' ∧ get s' key = Some (Ok o) ∧
      index (index o "metadata") "resourceVersion" = Str (show_u (revision s')) ∧
      r < revision s' ∧ ∀ k, k ≠ key → get s' k = get s k
  else
    update float_text s key obj (Some r) = (s, Some (Err (conflict "resource version mismatch"))).
Proof.
  intros Hwf Hs Hroom Hobj Hr. destruct (stored_form_codec key obj Hobj) as (Ho & _ & b & Hb & Hd).
  destruct (decide (rev_of (view s) key = r)) as [He|Hne].
  - destruct (put_ok s key b (Some r) Hwf Hs Hroom He) as (s' & Hp & Hwf' & Hs' & Hlt & Hv & _).
    destruct (inject_object (stored_form key obj) (revision s') Ho) as (o & Hi & _ & Hrv).
    exists s', o. split_and!; [|done|by eapply put_stored|done| |].
    + unfold update. unfold stored_form in Hb, Hi. rewrite Hb, Hp. by rewrite Hi.
    + pose proof (view_wf s Hwf) as (_ & Hb0 & Hrev). unfold rev_of in He.
      destruct (map_get (view s) key) as [[v r']|] eqn:E; [apply Hrev in E; lia|lia].
    + intros k Hk. apply get_frame; try done. by rewrite Hv, map_get_insert_ne.
  - unfold update. unfold stored_form in Hb. rewrite Hb, put_conflict; done.
Qed.

(** ** Sequences of writes *)

(** One write through this layer, by any client, on any key. *)
Inductive write : S → S → Prop :=
| write_create s s' key obj res :
    storable key obj → create float_text s key obj = (s', res) → write s s'
| write_update s s' key obj prev res :
    storable key obj → match prev with Some r => is_u64 r | None => True end →
    update float_text s key obj prev = (s', res) → write s s'
| write_delete s s' key prev res :
    match prev with Some r => is_u64 r ∧ r ≠ 0 | None => True end →
    delete s key prev = (s', res) → write s s'.

(** Any number of writes, while revisions last. *)
Inductive writes : S → S → Prop :=
| writes_refl s : writes s s
| writes_step s s1 s2 : rev_room (revision s) → write s s1 → writes s1 s2 → writes s s2.

(** What a write does to the store: nothing, one key set to an unversioned
    object at a new revision, or one key removed. *)
Inductive effect (s s' : S) : Prop :=
| effect_none : s' = s → effect s s'
| effect_put key obj b :
    from_slice b = Ok obj → is_object obj = true → unversioned obj →
    wf_value obj = true → no_floats obj = true → revision s < revision s' →
    view s' = map_insert (view s) key (b, revision s') → effect s s'
| effect_delete key :
    revision s ≤ revision s' → view s' = map_remove (view s) key → effect s s'.

Lemma put_effect s s' key obj b prev r :
  kv_wf s → serving s → rev_room (revision s) → storable key obj →
  to_vec (stored_form key obj) = Ok b → match prev with Some r => is_u64 r | None => True end →
  kv_put s key b prev = (s', r) → kv_wf s' ∧ serving s' ∧ effect s s'.
Proof.
  intros Hwf Hs Hroom Hobj Hb Hp E. destruct (stored_form_codec key obj Hobj) as (Ho & Hu & b' & Hb' & Hd).
  destruct (stored_form_tidy key obj Hobj) as [Hw Hf].
  assert (b' = b) as -> by congruence.
  destruct prev as [want|].
  - destruct (decide (rev_of (view s) key = want)) as [He|Hne].
    + destruct (put_ok s key b (Some want) Hwf Hs Hroom He) as (s1 & Hp1 & H1 & H2 & H3 & H4 & _).
      rewrite Hp1 in E. injection E as <- _. split_and!; [done|done|]. by eapply effect_put.
    + rewrite put_conflict in E by done. injection E as <- _. split_and!; [done|done|by apply effect_none].
  - destruct (put_ok s key b None Hwf Hs Hroom I) as (s1 & Hp1 & H1 & H2 & H3 & H4 & _).
    rewrite Hp1 in E. injection E as <- _. split_and!; [done|done|]. by eapply effect_put.
Qed.

Lemma write_effect s s' :
  kv_wf s → serving s → rev_room (revision s) → write s s' → kv_wf s' ∧ serving s' ∧ effect s s'.
Proof.
  intros Hwf Hs Hroom Hw. destruct Hw as [s s' key obj res Hobj E|s s' key obj prev res Hobj Hp E|s s' key prev res Hp E].
  - destruct (stored_form_codec key obj Hobj) as (_ & _ & b & Hb & _).
    unfold create in E. unfold stored_form in Hb. rewrite Hb in E.
    destruct (kv_put s key b (Some 0)) as [s1 r1] eqn:Ep. injection E as <- _.
    eapply (put_effect _ _ _ obj b (Some 0)); try done.
  - destruct (stored_form_codec key obj Hobj) as (_ & _ & b & Hb & _).
    unfold update in E. unfold stored_form in Hb. rewrite Hb in E.
    destruct (kv_put s key b prev) as [s1 r1] eqn:Ep. injection E as <- _.
    by eapply (put_effect _ _ _ obj).
  - unfold delete in E. destruct (kv_delete s key prev) as [s1 r1] eqn:Ed. injection E as <- _.
    assert (match prev with Some want => contains_key (view s) key = true ∧ rev_of (view s) key = want
            | None => True end ∨ ∃ want, prev = Some want ∧ is_u64 want ∧ want ≠ 0 ∧ rev_of (view s) key ≠ want)
      as [Hok|(want & -> & H1 & H2 & H3)].
    { destruct prev as [want|]; [|by left]. destruct Hp as [Hu Hnz].
      destruct (decide (rev_of (view s) key = want)) as [He|Hne]; [left|right; by exists want].
      split; [|done]. destruct (contains_key (view s) key) eqn:Ec; [done|].
      apply rev_of_absent in Ec; [|done]. congruence. }
    + destruct (delete_ok s key prev Hwf Hs Hroom Hok) as (s2 & Hd & H1 & H2 & H3 & H4 & _).
      rewrite Hd in Ed. injection Ed as <- _. split_and!; [done|done|]. by eapply effect_delete.
    + rewrite delete_conflict in Ed by done. injection Ed as <- _. split_and!; [done|done|by apply effect_none].
Qed.

Lemma writes_trans s1 s2 s3 : writes s1 s2 → writes s2 s3 → writes s1 s3.
Proof. induction 1 as [|? ? ? Hr Hw _ IH]; [done|]. intros H3. econstructor; eauto. Qed.

Lemma writes_wf s s' : kv_wf s → serving s → writes s s' → kv_wf s' ∧ serving s' ∧ revision s ≤ revision s'.
Proof.
  intros Hwf Hs Hw. induction Hw as [s|s s1 s2 Hroom Hw1 _ IH]; [by split_and!|].
  destruct (write_effect s s1 Hwf Hs Hroom Hw1) as (H1 & H2 & He).
  destruct (IH H1 H2) as (H3 & H4 & H5). split_and!; [done|done|].
  destruct He; subst; lia.
Qed.

(** Until a key is written again it reads the same; after that its revision is
    newer than anything a reader can have seen. *)
Lemma writes_unseen s s' key :
  kv_wf s → serving s → writes s s' →
  map_get (view s') key = map_get (view s) key ∨
  rev_of (view s') key = 0 ∨ revision s < rev_of (view s') key.
Proof.
  intros Hwf Hs Hw.
  assert (∀ r0, revision s = r0 → map_get (view s') key = map_get (view s) key ∨
    rev_of (view s') key = 0 ∨ r0 < rev_of (view s') key) as Haux; [|by apply Haux].
  intros r0 Hr0.
  assert (∀ x, r0 ≤ revision s →
    map_get (view s) key = x ∨ rev_of (view s) key = 0 ∨ r0 < rev_of (view s) key →
    map_get (view s') key = x ∨ rev_of (view s') key = 0 ∨ r0 < rev_of (view s') key) as Hgen;
    [|by apply Hgen; [lia|left]].
  clear Hr0. intros x. induction Hw as [s|s s1 s2 Hroom Hw1 _ IH]; intros Hle Hx; [done|].
  destruct (write_effect s s1 Hwf Hs Hroom Hw1) as (H1 & H2 & He).
  apply (IH H1 H2); [destruct He; subst; lia|].
  destruct He as [->|k o b _ _ _ _ _ Hlt Hv|k Hlt Hv]; [done| |].
  - destruct (str_eqb key k) eqn:Ek.
    + apply str_eqb_eq in Ek as ->. right; right. unfold rev_of. rewrite Hv, map_get_insert_eq. lia.
    + apply str_eqb_neq in Ek. unfold rev_of. rewrite Hv, map_get_insert_ne by done. done.
  - destruct (str_eqb key k) eqn:Ek.
    + apply str_eqb_eq in Ek as ->. right; left. unfold rev_of. rewrite Hv, map_get_remove_eq; [done|].
      by apply view_wf in Hwf as (? & _).
    + apply str_eqb_neq in Ek. unfold rev_of. rewrite Hv, map_get_remove_ne by done. done.
Qed.

(** A key found at the revision it was read at is as it was read. *)
Lemma unseen_same s s1 key r :
  kv_wf s → serving s → rev_of (view s) key = r → r ≠ 0 → writes s s1 → rev_of (view s1) key = r →
  map_get (view s1) key = map_get (view s) key.
Proof.
  intros Hwf Hs Hr Hnz Hw Hcas.
  destruct (writes_unseen s s1 key Hwf Hs Hw) as [?|[Hz|Hgt]]; [done|lia|].
  pose proof (view_wf s Hwf) as (_ & _ & Hrev). unfold rev_of in Hr.
  destruct (map_get (view s) key) as [[v r']|] eqn:Eg; [|done]. subst r'. apply Hrev in Eg. lia.
Qed.

(** A put that expects the revision read replaces exactly what was read. *)
Lemma cas_unseen s s1 s2 key b r x :
  kv_wf s → serving s → rev_of (view s) key = r → r ≠ 0 → writes s s1 → is_u64 r →
  kv_put s1 key b (Some r) = (s2, Ok x) → map_get (view s1) key = map_get (view s) key.
Proof.
  intros Hwf Hs Hr Hnz Hw Hu E. destruct (writes_wf s s1 Hwf Hs Hw) as (Hwf1 & Hs1 & _).
  apply (unseen_same s s1 key r); try done.
  destruct (decide (rev_of (view s1) key = r)) as [|Hne]; [done|]. by rewrite put_conflict in E.
Qed.

(** An object that was read carries the revision of its key. *)
Lemma get_version s key v :
  kv_wf s → serving s → get s key = Some (Ok v) →
  index (index v "metadata") "resourceVersion" = Str (show_u (rev_of (view s) key)) ∧ 0 < rev_of (view s) key ≤ i64_max.
Proof.
  intros Hwf Hs E. unfold get in E. rewrite get_ok in E by done. pose proof (view_wf s Hwf) as (_ & Hb & Hrev). unfold rev_of.
  destruct (map_get (view s) key) as [[b r]|] eqn:Eg; [|done]. apply Hrev in Eg. split; [|lia].
  unfold decode_at in E. destruct (from_slice b) as [o|]; [|done].
  destruct (inject_resource_version o r) as [o'|] eqn:Ei; [|done]. injection E as <-.
  unfold inject_resource_version in Ei. destruct (if match Json.get o "metadata" with Some m => is_object m | None => false end then Some o else _) as [o1|]; [|done].
  by apply index2_set_index2 in Ei.
Qed.

(** C2: No lost update.  A client reads a key at revision [r]; then come any
    writes by anyone; then the client updates with [r] and is told it
    succeeded.  What its update replaced is exactly what it had read: no write
    in between is overwritten unseen, even if the key was deleted and created
    again. *)
Theorem no_lost_update s s1 s2 key obj r o :
  kv_wf s → serving s → rev_of (view s) key = r → r ≠ 0 →
  writes s s1 → rev_room (revision s1) → storable key obj → is_u64 r →
  update float_text s1 key obj (Some r) = (s2, Some (Ok o)) →
  map_get (view s1) key = map_get (view s) key.
Proof.
  intros Hwf Hs Hr Hnz Hw Hroom Hobj Hu E. destruct (stored_form_codec key obj Hobj) as (_ & _ & b & Hb & _).
  unfold update in E. unfold stored_form in Hb. rewrite Hb in E.
  destruct (kv_put s1 key b (Some r)) as [s3 [x|e]] eqn:Ep; [|by destruct e].
  by eapply cas_unseen.
Qed.

(** Every stored value is an object that carries no [resourceVersion]. *)
Definition clean (s : S) : Prop :=
  ∀ k b r, map_get (view s) k = Some (b, r) →
    ∃ o, from_slice b = Ok o ∧ is_object o = true ∧ unversioned o.

(** Every stored value reads as a well-formed object without floats. *)
Definition tidy (s : S) : Prop :=
  ∀ k b r, map_get (view s) k = Some (b, r) →
    ∃ o, from_slice b = Ok o ∧ is_object o = true ∧ wf_value o = true ∧ no_floats o = true.

Lemma writes_tidy s s' : kv_wf s → serving s → writes s s' → tidy s → tidy s'.
Proof.
  intros Hwf Hs Hw. induction Hw as [s|s s1 s2 Hroom Hw1 _ IH]; [done|]. intros Hc.
  destruct (write_effect s s1 Hwf Hs Hroom Hw1) as (H1 & H2 & He). apply IH; [done|done|].
  destruct He as [->|k o b' Hd Ho _ Hwo Hfo Hlt Hv|k Hlt Hv]; [done| |]; intros k' b1 r1; rewrite Hv.
  - rewrite map_get_insert. case_match; [|apply Hc]. intros [= <- <-]. eauto.
  - destruct (str_eqb k' k) eqn:Ek.
    + apply str_eqb_eq in Ek as ->. rewrite map_get_remove_eq; [done|]. by apply view_wf in Hwf as (? & _).
    + apply str_eqb_neq in Ek. rewrite map_get_remove_ne by done. apply Hc.
Qed.

(** From an empty store, whatever is written, no stored value carries a
    [resourceVersion]; so every read of a present key succeeds and reports the
    revision that last wrote it. *)
Theorem stored_unversioned s s' key b r :
  kv_wf s → serving s → view s = [] → writes s s' → map_get (view s') key = Some (b, r) →
  (∃ obj, from_slice b = Ok obj ∧ unversioned obj) ∧
  ∃ o, get s' key = Some (Ok o) ∧ index (index o "metadata") "resourceVersion" = Str (show_u r).
Proof.
  intros Hwf Hs Hempty Hw Hk.
  assert (clean s') as Hc.
  { assert (clean s) as Hc by (intros ? ? ?; by rewrite Hempty). clear Hempty Hk.
    induction Hw as [s|s s1 s2 Hroom Hw1 _ IH]; [done|].
    destruct (write_effect s s1 Hwf Hs Hroom Hw1) as (H1 & H2 & He). apply IH; [done|done|].
    destruct He as [->|k o b' Hd Ho Hu _ _ Hlt Hv|k Hlt Hv]; [done| |]; intros k' b1 r1; rewrite Hv.
    - rewrite map_get_insert. case_match; [|apply Hc]. intros [= <- <-]. eauto.
    - destruct (str_eqb k' k) eqn:Ek.
      + apply str_eqb_eq in Ek as ->. rewrite map_get_remove_eq; [done|]. by apply view_wf in Hwf as (? & _).
      + apply str_eqb_neq in Ek. rewrite map_get_remove_ne by done. apply Hc. }
  destruct (Hc _ _ _ Hk) as (obj & Hd & Ho & Hu). split; [eauto|].
  destruct (writes_wf s s' Hwf Hs Hw) as (Hwf' & Hs' & _).
  destruct (inject_object obj r Ho) as (o & Hi & _ & Hrv). exists o. split; [|done].
  unfold get. rewrite get_ok, Hk by done. unfold decode_at. by rewrite Hd, Hi.
Qed.

(** ** Paged LISTs *)

(** A client that follows continue tokens until there is none.  [at_page i] is
    the store when page [i] is read; other clients write in between. *)
Fixpoint follow (fuel : nat) (at_page : nat → S) (i : nat) (prefix : string) (limit : Z) (token : option string) :
    option (list Value) :=
  match fuel with
  | O => None
  | Datatypes.S f =>
      match list_page (at_page i) prefix limit token with
      | Some (Ok p) =>
          match lp_continue_token p with
          | None => Some (lp_items p)
          | Some t => rest ← follow f at_page (Datatypes.S i) prefix limit (Some t); Some (lp_items p ++ rest)%list
          end
      | _ => None
      end
  end.

Lemma decode_items_app l1 l2 vs :
  decode_items (l1 ++ l2) = Some (Ok vs) →
  ∃ v1 v2, decode_items l1 = Some (Ok v1) ∧ decode_items l2 = Some (Ok v2) ∧ vs = (v1 ++ v2)%list.
Proof.
  revert vs. induction l1 as [|[[k b] r] l1 IH]; intros vs Hd; [by exists [], vs|].
  simpl in Hd |- *. destruct (decode_at b r) as [[v|e]|]; try done. cbn [mbind option_bind] in *.
  destruct (decode_items (l1 ++ l2)) as [[ws|e]|] eqn:E; try done. cbn [mbind option_bind] in *.
  injection Hd as <-. destruct (IH _ eq_refl) as (v1 & v2 & -> & H2 & ->).
  by exists (v :: v1), v2.
Qed.

Lemma decode_items_length l vs : decode_items l = Some (Ok vs) → List.length l = List.length vs.
Proof.
  revert vs. induction l as [|[[k b] r] l IH]; intros vs Hd; simpl in Hd; [by injection Hd as <-|].
  destruct (decode_at b r) as [[v|e]|]; try done. cbn [mbind option_bind] in *.
  destruct (decode_items l) as [[ws|e]|] eqn:E; try done. cbn [mbind option_bind] in *.
  injection Hd as <-. simpl. f_equal. by apply IH.
Qed.

(** The rest of a paged LIST, from any page on. *)
Lemma follow_rest at_page prefix limit m r n :
  listable prefix → 0 < limit ≤ i64_max → is_u64 r → 0 < r → keys_sorted m = true →
  (∀ i, kv_wf (at_page i) ∧ serving (at_page i) ∧ r ≤ revision (at_page i) ∧ snapshot (at_page i) r = Some m) →
  ∀ fuel i k vs,
    (List.length (matching m prefix (Some k)) < fuel)%nat → (n ≤ i)%nat → starts_with k prefix = true →
    decode_items (to_items (matching m prefix (Some k))) = Some (Ok vs) →
    follow fuel at_page i prefix limit (Some (continue_text r k)) = Some vs.
Proof.
  intros Hp Hl Hr Hr0 Hm Hst. induction fuel as [|f IH]; intros i k vs Hf Hi Hk Hd; [lia|]. cbn [follow].
  destruct (Hst i) as (Hwf & Hs & Hle & Hsnap). pose proof (view_wf _ Hwf) as (_ & Hb & _).
  unfold list_page. rewrite parse_continue_text by done. unfold list_pinned.
  rewrite Store.list_pinned by (done || (unfold is_u64 in Hr; lia)). rewrite Hsnap.
  set (all := matching m prefix (Some k)) in *.
  destruct (page_split m prefix (Some k) limit) as (rest & Hall & Htok); [done|lia|]. fold all in Hall, Htok.
  rewrite Hall, to_items_app in Hd.
  apply decode_items_app in Hd as (v1 & v2 & Hd1 & Hd2 & ->).
  cbn [lr_items page_of]. fold all. rewrite Hd1. cbn [mbind option_bind lp_continue_token lp_items default].
  destruct Htok as [[-> Htok]|(k' & Hk' & Hrest & Hlt & Htok)]; rewrite Htok; cbn.
  - simpl in Hd2. injection Hd2 as <-. by rewrite app_nil_r.
  - rewrite (IH (Datatypes.S i) k' v2); [done| |lia|done|by rewrite Hrest].
    rewrite Hrest. lia.
Qed.

(** C29: A paged LIST is one snapshot.  Following the continue tokens of a LIST
    page by page, while other clients write between the pages, returns exactly
    the objects under the prefix as they were at the first page's revision,
    each once and in key order, as long as the store still has that revision;
    the number of pages is bounded by the number of objects. *)
Theorem paging_snapshot at_page prefix limit vs :
  listable prefix → 0 < limit ≤ i64_max →
  (∀ i, kv_wf (at_page i) ∧ serving (at_page i) ∧ revision (at_page 0%nat) ≤ revision (at_page i) ∧
        snapshot (at_page i) (revision (at_page 0%nat)) = Some (view (at_page 0%nat))) →
  decode_items (to_items (matching (view (at_page 0%nat)) prefix None)) = Some (Ok vs) →
  follow (Datatypes.S (List.length vs)) at_page 0 prefix limit None = Some vs.
Proof.
  intros Hp Hl Hst Hd. destruct (Hst 0%nat) as (Hwf & Hs & _ & Hsnap).
  pose proof (view_wf _ Hwf) as (Hm & Hb & Hrev). cbn [follow]. unfold list_page, list_pinned.
  rewrite list_now by (done || lia). set (m := view (at_page 0%nat)) in *.
  set (r := revision (at_page 0%nat)) in *.
  assert (List.length vs = List.length (matching m prefix None)) as Hlen.
  { apply decode_items_length in Hd. rewrite <- Hd. unfold to_items. by rewrite length_fmap. }
  set (all := matching m prefix None) in *.
  destruct (page_split m prefix None limit) as (rest & Hall & Htok); [done|lia|]. fold all in Hall, Htok.
  rewrite Hall, to_items_app in Hd.
  apply decode_items_app in Hd as (v1 & v2 & Hd1 & Hd2 & ->).
  cbn [lr_items page_of]. fold all. rewrite Hd1. cbn [mbind option_bind lp_continue_token lp_items default].
  destruct Htok as [[-> Htok]|(k' & Hk' & Hrest & Hlt & Htok)]; rewrite Htok; cbn.
  - simpl in Hd2. injection Hd2 as <-. by rewrite app_nil_r.
  - assert (is_u64 r) as Hr by (unfold is_u64, u64_max, i64_max in *; lia).
    assert (0 < r) as Hr0.
    { destruct all as [|[k1 [b1 r1]] all'] eqn:Eall; [simpl in Hlt; lia|].
      assert (In (k1, (b1, r1)) m) as Hin.
      { assert (In (k1, (b1, r1)) all) as Hin by (rewrite Eall; by left).
        unfold all, matching in Hin. by apply filter_In in Hin as [? _]. }
      apply map_get_sorted_In in Hin; [|done]. apply Hrev in Hin. lia. }
    rewrite (follow_rest at_page prefix limit m r 1 Hp Hl Hr Hr0 Hm Hst _ 1%nat k' v2);
      [done|rewrite Hrest; lia|lia|done|by rewrite Hrest].
Qed.

End StorageTheorems.

(** ** Theorems: keys *)

Lemma starts_with_segment a b x y :
  str_contains_char "/" a = false → str_contains_char "/" b = false →
  starts_with (a ++ String "/" x) (b ++ String "/" y) = true → a = b ∧ starts_with x y = true.
Proof.
  revert b. induction a as [|c a IH]; intros b Ha Hb Hs.
  - cbn [append] in Hs. destruct b as [|d b]; cbn [append] in Hs; [by rewrite starts_with_cons in Hs|]. exfalso.
    rewrite starts_with_cons in Hs. apply andb_true_iff in Hs as [->%Ascii.eqb_eq _].
    by simpl in Hb.
  - destruct b as [|d b]; cbn [append] in Hs; rewrite starts_with_cons in Hs;
      apply andb_true_iff in Hs as [He%Ascii.eqb_eq Hs]; subst; cbn [str_contains_char] in Ha.
    + by rewrite Ascii.eqb_refl in Ha.
    + cbn [str_contains_char] in Hb. apply orb_false_iff in Ha as [_ Ha], Hb as [_ Hb].
      destruct (IH b Ha Hb Hs) as [-> ?]. done.
Qed.

Lemma str_app_inv_l (p x y : string) : (p ++ x = p ++ y)%string → x = y.
Proof. induction p as [|c p IH]; [done|]. cbn [append]. by intros [= ?%IH]. Qed.

Lemma starts_with_common p x y : starts_with (p ++ x) (p ++ y) = starts_with x y.
Proof. induction p as [|c p IH]; [done|]. cbn [append]. by rewrite starts_with_cons, Ascii.eqb_refl. Qed.

Lemma starts_with_full x : starts_with x x = true.
Proof. rewrite <- (str_app_nil_r x) at 1. apply starts_with_app. Qed.

(** Keys separate what they name.  A LIST of one namespace's objects sees
    the keys of exactly that resource and namespace; two objects with the same
    key are the same object; and no key of a custom resource (its group has a
    dot) is under the prefix of a built-in one (whose plural has none), nor
    one of another group's resource of the same plural. *)
Theorem key_isolation r ns n r' ns' n' g p g' :
  str_contains_char "/" r = false → str_contains_char "/" ns = false →
  str_contains_char "/" r' = false → str_contains_char "/" ns' = false →
  str_contains_char "/" g = false → str_contains_char "/" g' = false →
  (starts_with (namespaced_key r ns n) (namespace_prefix r' ns') = true ↔ r = r' ∧ ns = ns') ∧
  (namespaced_key r ns n = namespaced_key r' ns' n' ↔ r = r' ∧ ns = ns' ∧ n = n') ∧
  (str_contains_char "." g = true → str_contains_char "." r = false →
   starts_with (namespaced_key (custom_resource g p) ns n) (all_namespaces_prefix r) = false) ∧
  (starts_with (namespaced_key (custom_resource g p) ns n)
               (all_namespaces_prefix (custom_resource g' p)) = true → g = g').
Proof.
  intros Hr Hns Hr' Hns' Hg Hg'.
  unfold namespaced_key, namespace_prefix, all_namespaces_prefix, custom_resource, REGISTRY_PREFIX.
  rewrite <- ?str_app_assoc. rewrite !starts_with_common.
  split_and!.
  - split; [|by intros [-> ->]; rewrite ?starts_with_common].
    intros [-> H]%starts_with_segment; [|done..]. by apply starts_with_segment in H as [-> _].
  - split; [|by intros (-> & -> & ->)]. intros E.
    assert (∀ x y : string, x = y → starts_with x y = true) as Hsw by (intros x ? <-; apply starts_with_full).
    apply Hsw in E as H. rewrite !starts_with_common in H. apply starts_with_segment in H as [-> H]; [|done..].
    apply starts_with_segment in H as [-> _]; [|done..]. split_and!; [done..|].
    by repeat apply str_app_inv_l in E.
  - intros Hd Hnd. destruct (starts_with _ _) eqn:E; [|done].
    apply starts_with_segment in E as [-> _]; [congruence|done..].
  - intros H. by apply starts_with_segment in H as [-> _].
Qed.

Lemma key_isolation_witness :
  starts_with (namespaced_key "pods" "kube-system" "web") (namespace_prefix "pods" "kube") = false ∧
  (namespaced_key "pods" "a" "web" = namespaced_key "pods" "a" "web" ↔ True) ∧
  starts_with (namespaced_key (custom_resource "metal3.io" "baremetalhosts") "ns" "h")
              (all_namespaces_prefix "pods") = false.
Proof.
  destruct (key_isolation "pods" "a" "web" "pods" "a" "web" "metal3.io" "baremetalhosts" "metal.storm.io"
              eq_refl eq_refl eq_refl eq_refl eq_refl eq_refl) as (H1 & H2 & H3 & H4).
  split_and!; [vm_compute; reflexivity|naive_solver|vm_compute; reflexivity].
Defined.

(** The token a page hands out pins the next page: it parses back to the
    revision and the last key.  A bare key, which starts with a slash, starts
    from the current snapshot. *)
Theorem continue_roundtrip r k :
  (is_u64 r → parse_continue (continue_text r k) = (Some r, k)) ∧
  parse_continue (String "/" k) = (None, String "/" k).
Proof.
  split; [apply parse_continue_text|]. unfold parse_continue.
  destruct (split_once ":" (String "/" k)) as [[a b]|] eqn:E; [|done].
  assert (∃ a', a = String "/" a') as [a' ->]; [|done].
  cbn [split_once] in E. simpl in E. destruct (split_once ":" k) as [[l r']|]; [|done]. injection E as <- _. eauto.
Qed.

Lemma continue_roundtrip_witness : parse_continue "42:/registry/pods/a/p1" = (Some 42, "/registry/pods/a/p1").
Proof. destruct (continue_roundtrip 42 "/registry/pods/a/p1") as [H _]. apply H. unfold is_u64, u64_max. lia. Defined.

(** ** Witnesses *)

Module Demo.

Definition floats (f : f64) : string := "0".
Definition store0 : MemStore.t := {| MemStore.inner := (0, []); MemStore.unavailable := false |}.
Definition pod (name : string) : Value :=
  json_obj [("kind", Str "Pod"); ("metadata", json_obj [("name", Str name); ("resourceVersion", Str "7")]);
            ("spec", json_obj [("overhead", json_obj [("cpu", Num (PosInt 2000))])])].
Definition key1 : string := namespaced_key "pods" "default" "web".
Definition key2 : string := namespaced_key "pods" "default" "worker".
#[export] Instance codec : JsonCodec := tagged_codec.
Definition store1 : MemStore.t := Eval vm_compute in (create floats store0 key1 (pod "web")).1.
Definition store2 : MemStore.t := Eval vm_compute in (create floats store1 key2 (pod "worker")).1.

Lemma storable1 : storable floats key1 (pod "web").
Proof. vm_compute. auto. Qed.
Lemma storable2 : storable floats key2 (pod "worker").
Proof. vm_compute. auto. Qed.
Lemma wf0 : kv_wf store0.
Proof. split_and!; done. Qed.
Lemma wf1 : kv_wf store1.
Proof. apply (mem_wf_put 0 [] key1 _ false wf0). done. Qed.
Lemma wf2 : kv_wf store2.
Proof. apply (mem_wf_put 1 _ key2 _ false wf1). done. Qed.
Lemma writes12 : writes floats store1 store2.
Proof.
  eapply writes_step; [done| |apply writes_refl].
  eapply (write_create floats store1 store2 key2 (pod "worker")); [apply storable2|]. vm_compute. reflexivity.
Qed.
Lemma writes02 : writes floats store0 store2.
Proof.
  eapply writes_step; [done| |apply writes12].
  eapply (write_create floats store0 store1 key1 (pod "web")); [apply storable1|]. vm_compute. reflexivity.
Qed.

End Demo.

#[local] Existing Instance Demo.codec.

Lemma create_get_witness :
  ∃ s' o, create Demo.floats Demo.store0 Demo.key1 (Demo.pod "web") = (s', Some (Ok o)) ∧
    get s' Demo.key1 = Some (Ok o).
Proof.
  destruct (create_get Demo.floats Demo.store0 Demo.key1 (Demo.pod "web") Demo.wf0 eq_refl eq_refl
              Demo.storable1 eq_refl) as (s' & o & H1 & _ & H2 & _).
  by exists s', o.
Defined.

Lemma create_exists_witness : fst (create Demo.floats Demo.store1 Demo.key1 (Demo.pod "web")) = Demo.store1.
Proof.
  destruct (create_exists Demo.floats Demo.store1 Demo.key1 (Demo.pod "web") Demo.wf1 eq_refl
              Demo.storable1 eq_refl) as [H _].
  by rewrite H.
Defined.

Lemma update_cas_witness :
  fst (update Demo.floats Demo.store1 Demo.key1 (Demo.pod "web") (Some 7)) = Demo.store1.
Proof.
  assert (is_u64 7) as H7 by (unfold is_u64, u64_max; lia).
  pose proof (update_cas Demo.floats Demo.store1 Demo.key1 (Demo.pod "web") 7 Demo.wf1 eq_refl eq_refl
                Demo.storable1 H7) as H.
  destruct (decide _) as [E|_]; [by vm_compute in E|]. by rewrite H.
Defined.

Lemma no_lost_update_witness :
  map_get (view Demo.store2) Demo.key1 = map_get (view Demo.store1) Demo.key1.
Proof.
  assert (is_u64 1) as H1 by (unfold is_u64, u64_max; lia).
  eapply (no_lost_update Demo.floats Demo.store1 Demo.store2 _ Demo.key1 (Demo.pod "web") 1 _
            Demo.wf1 eq_refl eq_refl ltac:(lia) Demo.writes12 eq_refl Demo.storable1 H1).
  vm_compute. reflexivity.
Defined.

Lemma stored_unversioned_witness :
  ∃ o, get Demo.store2 Demo.key1 = Some (Ok o) ∧
    index (index o "metadata") "resourceVersion" = Str "1".
Proof.
  exact (proj2 (stored_unversioned Demo.floats Demo.store0 Demo.store2 Demo.key1 _ 1
    Demo.wf0 eq_refl eq_refl Demo.writes02 eq_refl)).
Defined.

Lemma paging_snapshot_witness :
  ∃ a b, follow 3 (λ _, Demo.store2) 0 "/registry/pods/" 1 None = Some [a; b].
Proof.
  do 2 eexists. apply (paging_snapshot (λ _, Demo.store2) "/registry/pods/" 1 [_; _]).
  - by split.
  - split; [lia|done].
  - intros _. split; [exact Demo.wf2|]. split; [reflexivity|]. split; [lia|reflexivity].
  - vm_compute. reflexivity.
Defined.
