(* ===== verification/Etcd.v ===== *)
(** * [EtcdStore] ([pkg/storage/src/adapter.rs])

    The production [KvStore]: every trait method as one or two etcd v3 calls
    through the [etcd-client] crate.  The client is not part of the sources:
    it is the parameter [EtcdClient], and [EtcdLaws] states what etcd
    documents of the calls — a Range returns the keys of [[key, range_end)] in
    order with their total count, a Txn is atomic, a read below the compaction
    is refused with a "has been compacted" error.

    [EtcdStore] is proved to keep the promises of [KvStoreLaws] on any such
    client, and [RefEtcd] is a concrete one. *)

From stdpp Require Import base gmap strings list numbers option.
From Stdlib Require Import ZArith Lia String Ascii.
From S2P Require Import Prelude Text BTree Store.
Open Scope string_scope.
Open Scope Z_scope.

(** ** The client *)

Inductive GrpcCode := CodeUnavailable | CodeDeadlineExceeded | CodeResourceExhausted | CodeOther.

(** [etcd_client::Error], with its [to_string]. *)
Inductive EtcdError :=
| GRpcStatus (code : GrpcCode) (message : string) (text : string)
| TransportError (text : string)
| IoError (text : string)
| EndpointError (text : string)
| OtherError (text : string).

Definition etcd_error_text (e : EtcdError) : string :=
  match e with GRpcStatus _ _ t | TransportError t | IoError t | EndpointError t | OtherError t => t end.

Record KeyValue := {
  kv_key : string; kv_value : bytes;
  create_revision : Z; mod_revision : Z; version : Z }.

Record RangeResponse := { kvs : list KeyValue; more : bool; count : Z; range_header : option Z }.

(** A put, a delete or a transaction answers whether it happened and the
    header's revision. *)
Record WriteResponse := { succeeded : bool; write_header : option Z }.

Class EtcdClient (E : Type) := {
  etcd_get : E → string → result RangeResponse EtcdError;
  etcd_range : E → string → string → Z → option Z → result RangeResponse EtcdError;
  etcd_put : E → string → bytes → E * result WriteResponse EtcdError;
  etcd_delete : E → string → E * result WriteResponse EtcdError;
  (** [when(mod_revision(key) == r).and_then(put | delete)]. *)
  etcd_txn_put : E → string → Z → bytes → E * result WriteResponse EtcdError;
  etcd_txn_delete : E → string → Z → E * result WriteResponse EtcdError;
  (** [when(version(key) == seen).and_then(put).or_else(get)], with the
      version the [get] read. *)
  etcd_txn_version : E → string → Z → string → E * result (WriteResponse * option Z) EtcdError;
  etcd_compact : E → Z → E * result unit EtcdError }.

(** ** Errors *)

Definition is_compacted (e : EtcdError) : bool :=
  contains_sub "required revision" (etcd_error_text e) && contains_sub "has been compacted" (etcd_error_text e).

Definition etcd_err (e : EtcdError) : Error :=
  match e with
  | GRpcStatus (CodeUnavailable | CodeDeadlineExceeded | CodeResourceExhausted) m _ => Unavailable m
  | GRpcStatus CodeOther _ _ => StoreError (etcd_error_text e)
  | TransportError _ | IoError _ | EndpointError _ => Unavailable (etcd_error_text e)
  | OtherError _ => StoreError (etcd_error_text e)
  end.

(** ** The adapter *)

Definition prefix_range_end (prefix : string) : string :=
  if is_empty_str prefix then String "000" "" else bump_last prefix.

(** [x as i64] of a [u64], [x as u64] of an [i64]. *)
Definition as_i64_cast (x : Z) : Z := wrap_i64 x.
Definition as_u64_cast (x : Z) : Z := wrap64 x.

Definition header_rev (h : option Z) : Z := default 0 (as_u64_cast <$> h).

Section EtcdStore.
  Context {E : Type} `{EtcdClient E}.

Definition store_get (e : E) (key : string) : result (option (bytes * Z)) Error :=
  match etcd_get e key with
  | Err x => Err (etcd_err x)
  | Ok resp => Ok ((λ kv, (kv_value kv, as_u64_cast (mod_revision kv))) <$> head (kvs resp))
  end.

Definition write_result (r : result WriteResponse EtcdError) : result Z Error :=
  match r with Err x => Err (etcd_err x) | Ok resp => Ok (header_rev (write_header resp)) end.

Definition cas_result (r : result WriteResponse EtcdError) : result Z Error :=
  match r with
  | Err x => Err (etcd_err x)
  | Ok resp => if succeeded resp then Ok (header_rev (write_header resp)) else Err Conflict
  end.

Definition store_put (e : E) (key : string) (value : bytes) (prev_revision : option Z) : E * result Z Error :=
  match prev_revision with
  | Some expected_rev =>
      let '(e', r) := etcd_txn_put e key (as_i64_cast expected_rev) value in (e', cas_result r)
  | None => let '(e', r) := etcd_put e key value in (e', write_result r)
  end.

Definition store_delete (e : E) (key : string) (prev_revision : option Z) : E * result Z Error :=
  match prev_revision with
  | Some expected_rev =>
      let '(e', r) := etcd_txn_delete e key (as_i64_cast expected_rev) in (e', cas_result r)
  | None => let '(e', r) := etcd_delete e key in (e', write_result r)
  end.

(** Keys are text, so [from_utf8_lossy] leaves them as they are. *)
Definition store_list_at (e : E) (prefix : string) (limit : Z) (continue_token : option string) (pinned : option Z) :
    result ListResult Error :=
  let start_key := match continue_token with Some token => (token ++ String "000" "")%string | None => prefix end in
  if match pinned with Some r => i64_max <? r | None => false end then Err (Invalid "revision out of range")
  else
    match etcd_range e start_key (prefix_range_end prefix) (as_i64_cast limit) pinned with
    | Err x =>
        Err (match pinned with
             | Some r => if is_compacted x then Gone r else etcd_err x
             | None => etcd_err x
             end)
    | Ok resp =>
        let revision := match pinned with Some r => r | None => header_rev (range_header resp) end in
        let items := (λ kv, (kv_key kv, kv_value kv, as_u64_cast (mod_revision kv))) <$> kvs resp in
        Ok {| lr_items := items;
              lr_continue_token := if more resp then option_map (λ x, x.1.1) (list.last items) else None;
              lr_revision := revision;
              lr_remaining := Some (sat_sub (as_u64_cast (Z.max 0 (count resp))) (Z.of_nat (List.length items))) |}
    end.

Definition store_list (e : E) (prefix : string) (limit : Z) (continue_token : option string) :
    result ListResult Error := store_list_at e prefix limit continue_token None.

Definition store_compact (e : E) (revision : Z) : E * result unit Error :=
  let '(e', r) := etcd_compact e (as_i64_cast revision) in
  (e', match r with
       | Ok _ => Ok ()
       | Err x => if is_compacted x then Ok () else Err (etcd_err x)
       end).

Definition store_compact_claim (e : E) (key : string) (seen : Z) (value : string) :
    E * result (bool * Z * Z) Error :=
  let '(e', r) := etcd_txn_version e key seen value in
  (e', match r with
       | Err x => Err (etcd_err x)
       | Ok (resp, read) =>
           let revision := header_rev (write_header resp) in
           if succeeded resp then Ok (true, wrap_i64 (seen + 1), revision)
           else Ok (false, default 0 read, revision)
       end).

#[export] Instance etcd_store : KvStore E := {|
  kv_get := store_get;
  kv_put := store_put;
  kv_delete := store_delete;
  kv_list := store_list;
  kv_list_at := store_list_at |}.

End EtcdStore.

(** One message of the watch stream: the events it turns into and whether the
    stream ends. *)
Inductive EventType := EventPut | EventDelete.
Record WatchResponse := {
  canceled : bool; compact_revision : Z; events : list (EventType * option KeyValue) }.

Definition watch_event (ev : EventType * option KeyValue) : option WatchEvent :=
  match ev with
  | (_, None) => None
  | (EventPut, Some kv) =>
      Some (if create_revision kv =? mod_revision kv
            then Added (kv_key kv) (kv_value kv) (as_u64_cast (mod_revision kv))
            else Modified (kv_key kv) (kv_value kv) (as_u64_cast (mod_revision kv)) None)
  | (EventDelete, Some kv) => Some (Deleted (kv_key kv) (as_u64_cast (mod_revision kv)) None)
  end.

Definition watch_response (resp : WatchResponse) : list WatchEvent * bool :=
  if canceled resp || (0 <? compact_revision resp) then
    let compacted := 0 <? compact_revision resp in
    ([WatchError (if compacted then 410 else 503)
        (if compacted then "watch history compacted" else "datastore cancelled watch")
        (as_u64_cast (Z.max 0 (compact_revision resp)))], true)
  else (omap watch_event (events resp), false).

(** ** What etcd documents *)

(** The keys in [[lo, hi)]. *)
Definition in_range (lo hi k : string) : bool := negb (str_ltb k lo) && str_ltb k hi.

Definition range_view (m : View) (lo hi : string) : View := List.filter (λ kv, in_range lo hi kv.1) m.

(** The response lists the first [limit] keys of the range and counts them all. *)
Definition range_answers (m : View) (lo hi : string) (limit : Z) (resp : RangeResponse) : Prop :=
  let all := range_view m lo hi in
  let now := take_limit limit all in
  (λ kv, (kv_key kv, (kv_value kv, mod_revision kv))) <$> kvs resp = now ∧
  count resp = Z.of_nat (List.length all) ∧
  more resp = (Z.of_nat (List.length now) <? Z.of_nat (List.length all)).

Class EtcdLaws (E : Type) `{EtcdClient E} := {
  etcd_wf : E → Prop;
  etcd_view : E → View;
  etcd_rev : E → Z;
  (** the state at a past revision, unless compacted *)
  etcd_at : E → Z → option View;
  etcd_view_wf e : etcd_wf e → keys_sorted (etcd_view e) = true ∧ 0 < etcd_rev e ≤ i64_max ∧
    ∀ k v r, map_get (etcd_view e) k = Some (v, r) → 0 < r ≤ etcd_rev e;
  etcd_at_wf e r m : etcd_wf e → etcd_at e r = Some m →
    keys_sorted m = true ∧ ∀ k v r', map_get m k = Some (v, r') → 0 < r' ≤ r;
  etcd_small e r m : etcd_wf e → etcd_at e r = Some m → Z.of_nat (List.length m) ≤ i64_max;
  etcd_at_now e : etcd_wf e → etcd_at e (etcd_rev e) = Some (etcd_view e);
  etcd_get_doc e k : etcd_wf e → ∃ resp, etcd_get e k = Ok resp ∧
    (λ kv, (kv_value kv, mod_revision kv)) <$> head (kvs resp) = map_get (etcd_view e) k;
  etcd_range_doc e lo hi limit : etcd_wf e → 0 ≤ limit → ∃ resp,
    etcd_range e lo hi limit None = Ok resp ∧ range_header resp = Some (etcd_rev e) ∧
    range_answers (etcd_view e) lo hi limit resp;
  etcd_range_at_doc e lo hi limit r : etcd_wf e → 0 ≤ limit → 0 < r ≤ etcd_rev e →
    match etcd_at e r with
    | Some m => ∃ resp, etcd_range e lo hi limit (Some r) = Ok resp ∧ range_answers m lo hi limit resp
    | None => ∃ x, etcd_range e lo hi limit (Some r) = Err x ∧ is_compacted x = true
    end;
  etcd_put_doc e k v : etcd_wf e → etcd_rev e < i64_max → ∃ e' resp,
    etcd_put e k v = (e', Ok resp) ∧ write_header resp = Some (etcd_rev e') ∧ etcd_wf e' ∧
    etcd_rev e' = etcd_rev e + 1 ∧ etcd_view e' = map_insert (etcd_view e) k (v, etcd_rev e') ∧
    (∀ r, r ≤ etcd_rev e → etcd_at e' r = etcd_at e r);
  etcd_delete_doc e k : etcd_wf e → etcd_rev e < i64_max → ∃ e' resp,
    etcd_delete e k = (e', Ok resp) ∧ write_header resp = Some (etcd_rev e') ∧ etcd_wf e' ∧
    etcd_rev e ≤ etcd_rev e' ∧ etcd_view e' = map_remove (etcd_view e) k ∧
    (∀ r, r < etcd_rev e' → etcd_at e' r = etcd_at e r) ∧ etcd_rev e' ≤ etcd_rev e + 1;
  etcd_txn_put_doc e k r v : etcd_wf e → etcd_rev e < i64_max → rev_of (etcd_view e) k = r →
    ∃ resp, etcd_txn_put e k r v = ((etcd_put e k v).1, Ok resp) ∧ succeeded resp = true ∧
      write_header resp = Some (etcd_rev (etcd_put e k v).1);
  etcd_txn_put_fails e k r v : etcd_wf e → rev_of (etcd_view e) k ≠ r →
    ∃ resp, etcd_txn_put e k r v = (e, Ok resp) ∧ succeeded resp = false;
  etcd_txn_delete_doc e k r : etcd_wf e → etcd_rev e < i64_max → rev_of (etcd_view e) k = r →
    ∃ resp, etcd_txn_delete e k r = ((etcd_delete e k).1, Ok resp) ∧ succeeded resp = true ∧
      write_header resp = Some (etcd_rev (etcd_delete e k).1);
  etcd_txn_delete_fails e k r : etcd_wf e → rev_of (etcd_view e) k ≠ r →
    ∃ resp, etcd_txn_delete e k r = (e, Ok resp) ∧ succeeded resp = false }.

(** ** [EtcdStore] keeps the promises *)

Lemma as_u64_small r : 0 ≤ r ≤ i64_max → as_u64_cast r = r.
Proof. intros. apply wrap64_small. unfold is_u64, u64_max, i64_max in *. lia. Qed.

Lemma header_rev_small r : 0 ≤ r ≤ i64_max → header_rev (Some r) = r.
Proof. apply as_u64_small. Qed.

Lemma as_i64_small r : 0 ≤ r ≤ i64_max → as_i64_cast r = r.
Proof. unfold as_i64_cast, wrap_i64, i64_max. intros. rewrite Z.mod_small by lia. lia. Qed.

(** A cast revision matches a stored one only if it was that revision. *)
Lemma as_i64_inj a b : 0 ≤ a ≤ i64_max → is_u64 b → as_i64_cast b = a → b = a.
Proof.
  unfold as_i64_cast, wrap_i64, is_u64, u64_max, i64_max. intros Ha Hb E.
  destruct (decide (b ≤ 9223372036854775807)) as [Hs|Hl].
  - rewrite Z.mod_small in E by lia. lia.
  - replace ((b + 9223372036854775808) mod 18446744073709551616) with (b - 9223372036854775808) in E; [lia|].
    apply Z.mod_unique with 1; lia.
Qed.

(** The range read from a page's start is what the page matches. *)
Lemma range_matching m prefix token :
  listable prefix → honest prefix token →
  range_view m (match token with Some t => t ++ String "000" "" | None => prefix end)%string
    (prefix_range_end prefix) = matching m prefix token.
Proof.
  intros [Hne Hff] Hh. unfold range_view, matching. apply filter_ext. intros [k v]. simpl. unfold in_range.
  unfold prefix_range_end. replace (is_empty_str prefix) with false by (by destruct prefix).
  rewrite <- (bump_range prefix k Hne Hff). destruct token as [t|]; cbn [after].
  - rewrite above_nul. simpl in Hh. destruct (str_ltb t k) eqn:Et; [|by rewrite andb_false_r].
    rewrite andb_true_r. replace (str_ltb k prefix) with false; [done|]. symmetry.
    destruct (str_ltb k prefix) eqn:Ek; [|done].
    pose proof (str_ltb_trans _ _ _ Et Ek) as Hc. by rewrite (prefix_not_above _ _ Hh) in Hc.
  - by rewrite andb_true_r.
Qed.

Section EtcdTheorems.
  Context {E : Type} `{HL : EtcdLaws E}.
  Implicit Types e : E.

Lemma page_of_range m r prefix limit token resp :
  listable prefix → honest prefix token → 0 ≤ limit → 0 ≤ r ≤ i64_max →
  Z.of_nat (List.length m) ≤ i64_max → keys_sorted m = true →
  (∀ k v r', map_get m k = Some (v, r') → 0 < r' ≤ r) →
  range_answers m (match token with Some t => t ++ String "000" "" | None => prefix end)%string
    (prefix_range_end prefix) limit resp →
  {| lr_items := (λ kv, (kv_key kv, kv_value kv, as_u64_cast (mod_revision kv))) <$> kvs resp;
     lr_continue_token :=
       if more resp then option_map (λ x, x.1.1)
         (list.last ((λ kv, (kv_key kv, kv_value kv, as_u64_cast (mod_revision kv))) <$> kvs resp))
       else None;
     lr_revision := r;
     lr_remaining := Some (sat_sub (as_u64_cast (Z.max 0 (count resp)))
       (Z.of_nat (List.length ((λ kv, (kv_key kv, kv_value kv, as_u64_cast (mod_revision kv))) <$> kvs resp)))) |}
  = page_of m r prefix limit token.
Proof.
  intros Hp Hh Hl Hr Hsz Hs Hrev (Hk & Hc & Hm). rewrite range_matching in Hk, Hc, Hm by done.
  unfold page_of. set (all := matching m prefix token) in *. set (now := take_limit limit all) in *.
  assert ((λ kv, (kv_key kv, kv_value kv, as_u64_cast (mod_revision kv))) <$> kvs resp = to_items now) as Hitems.
  { unfold to_items. rewrite <- Hk, <- list_fmap_compose. apply list_fmap_ext. intros i kv Hi. simpl. f_equal.
    assert (In (kv_key kv, (kv_value kv, mod_revision kv)) m) as Hin.
    { assert (In (kv_key kv, (kv_value kv, mod_revision kv)) all) as Hin.
      { assert (In (kv_key kv, (kv_value kv, mod_revision kv)) now) as Hn.
        { rewrite <- Hk. apply list_elem_of_In, list_elem_of_fmap. exists kv. split; [done|]. by eapply list_elem_of_lookup_2. }
        unfold now, take_limit in Hn. destruct (limit =? 0); [done|]. apply list_elem_of_In in Hn.
        apply list_elem_of_In. apply elem_of_take in Hn as (j & Hj & _). by eapply list_elem_of_lookup_2. }
      unfold all, matching in Hin. by apply filter_In in Hin as [? _]. }
    apply map_get_sorted_In in Hin; [|done]. apply Hrev in Hin. apply as_u64_small. lia. }
  assert (List.length all ≤ List.length m)%nat as Hla by apply List.filter_length_le.
  assert (List.length now ≤ List.length all)%nat as Hln.
  { unfold now, take_limit. destruct (limit =? 0); [done|]. rewrite length_take. lia. }
  rewrite Hitems. assert (List.length (to_items now) = List.length now) as -> by apply length_fmap.
  rewrite Hc, Z.max_r, as_u64_small by lia. f_equal.
  - replace (more resp) with (0 <? Z.of_nat (List.length all - List.length now)).
    + destruct (0 <? _); [|done]. unfold to_items. rewrite last_fmap. by destruct (list.last now).
    + rewrite Hm. apply Bool.eq_true_iff_eq. rewrite !Z.ltb_lt. lia.
  - f_equal. unfold sat_sub. lia.
Qed.

#[export] Program Instance etcd_store_laws : KvStoreLaws E := {|
  kv_wf := etcd_wf;
  serving _ := True;
  view := etcd_view;
  revision := etcd_rev;
  snapshot := etcd_at |}.
Next Obligation. intros s Hwf. simpl in *. destruct (etcd_view_wf s Hwf) as (H1 & H2 & H3). split_and!; [done|lia|lia|done]. Qed.
Next Obligation. intros s Hwf. by apply etcd_at_now. Qed.
Next Obligation.
  intros s k Hwf _. simpl in *. unfold store_get. destruct (etcd_get_doc s k Hwf) as (resp & -> & E1).
  rewrite <- E1. destruct (head (kvs resp)) as [kv|] eqn:Eh; [|done]. simpl in *. do 3 f_equal.
  destruct (etcd_view_wf s Hwf) as (_ & H2 & H3). symmetry in E1. apply H3 in E1. apply as_u64_small. lia.
Qed.
Next Obligation.
  intros s k v prev Hwf _ Hroom Hp. simpl in *.
  destruct (etcd_put_doc s k v Hwf Hroom) as (s' & resp & Hput & Hh & Hwf' & Hrev & Hv & Hat).
  destruct (etcd_view_wf s' Hwf') as (_ & Hr' & _). destruct (etcd_view_wf s Hwf) as (_ & Hr & _).
  exists s'. split_and!; [|done|done|lia|done|by left; auto|lia].
  unfold store_put. destruct prev as [want|].
  - assert (0 ≤ want ≤ i64_max) as Hw.
    { subst want. unfold rev_of. destruct (map_get (etcd_view s) k) as [[v0 r0]|] eqn:E0; [|lia].
      destruct (etcd_view_wf s Hwf) as (_ & ? & H3). apply H3 in E0. lia. }
    rewrite as_i64_small by done.
    destruct (etcd_txn_put_doc s k want v Hwf Hroom Hp) as (resp' & -> & Hok & Hh').
    rewrite Hput in *. cbn [fst cas_result] in *. by rewrite Hok, Hh', header_rev_small by lia.
  - rewrite Hput. cbn [write_result]. by rewrite Hh, header_rev_small by lia.
Qed.
Next Obligation.
  intros s k v want Hwf _ Hu Hne. simpl in *. unfold store_put.
  destruct (etcd_txn_put_fails s k (as_i64_cast want) v Hwf) as (resp & -> & Hf); [|simpl; by rewrite Hf].
  intros Heq. apply Hne. symmetry. apply as_i64_inj; [|done|done]. unfold rev_of.
  destruct (etcd_view_wf s Hwf) as (_ & ? & H3).
  destruct (map_get (etcd_view s) k) as [[v0 r0]|] eqn:E0; [apply H3 in E0|]; lia.
Qed.
Next Obligation.
  intros s k prev Hwf _ Hroom Hp. simpl in *.
  destruct (etcd_delete_doc s k Hwf Hroom) as (s' & resp & Hdel & Hh & Hwf' & Hrev & Hv & Hat & Hone).
  destruct (etcd_view_wf s' Hwf') as (_ & Hr' & _). destruct (etcd_view_wf s Hwf) as (_ & Hr & _).
  exists s'. split_and!; [|done|done|lia|done|by left; auto|lia].
  unfold store_delete. destruct prev as [want|].
  - destruct Hp as [_ Hp]. assert (0 ≤ want ≤ i64_max) as Hw.
    { subst want. unfold rev_of. destruct (map_get (etcd_view s) k) as [[v0 r0]|] eqn:E0; [|lia].
      destruct (etcd_view_wf s Hwf) as (_ & ? & H3). apply H3 in E0. lia. }
    rewrite as_i64_small by done.
    destruct (etcd_txn_delete_doc s k want Hwf Hroom Hp) as (resp' & -> & Hok & Hh').
    rewrite Hdel in *. cbn [fst cas_result] in *. by rewrite Hok, Hh', header_rev_small by lia.
  - rewrite Hdel. cbn [write_result]. by rewrite Hh, header_rev_small by lia.
Qed.
Next Obligation.
  intros s k want Hwf _ Hu Hnz Hne. simpl in *. unfold store_delete.
  destruct (etcd_txn_delete_fails s k (as_i64_cast want) Hwf) as (resp & -> & Hf); [|simpl; by rewrite Hf].
  intros Heq. apply Hne. symmetry. apply as_i64_inj; [|done|done]. unfold rev_of.
  destruct (etcd_view_wf s Hwf) as (_ & ? & H3).
  destruct (map_get (etcd_view s) k) as [[v0 r0]|] eqn:E0; [apply H3 in E0|]; lia.
Qed.
Next Obligation.
  intros s prefix limit token Hwf _ Hp Hl Hh. simpl in *. unfold store_list_at. cbv iota.
  destruct (etcd_view_wf s Hwf) as (H1 & H2 & H3).
  rewrite as_i64_small by lia.
  destruct (etcd_range_doc s (match token with Some t => t ++ String "000" "" | None => prefix end)%string
              (prefix_range_end prefix) limit Hwf ltac:(lia)) as (resp & -> & Hhd & Hans).
  rewrite Hhd, header_rev_small by lia.
  f_equal. apply page_of_range; try done; [lia|lia|].
  by eapply etcd_small, etcd_at_now.
Qed.
Next Obligation.
  intros s prefix limit token r Hwf _ Hp Hl Hh Hr. simpl in *. unfold store_list_at.
  destruct (etcd_view_wf s Hwf) as (_ & H2 & _).
  replace (i64_max <? r) with false by (symmetry; apply Z.ltb_ge; lia).
  rewrite as_i64_small by lia.
  pose proof (etcd_range_at_doc s (match token with Some t => t ++ String "000" "" | None => prefix end)%string
              (prefix_range_end prefix) limit r Hwf ltac:(lia) Hr) as Hdoc.
  destruct (etcd_at s r) as [m|] eqn:Em.
  - destruct Hdoc as (resp & -> & Hans). destruct (etcd_at_wf s r m Hwf Em) as [H3 H4].
    f_equal. apply page_of_range; try done; [lia|lia|]. by eapply etcd_small.
  - destruct Hdoc as (x & -> & Hx). by rewrite Hx.
Qed.

End EtcdTheorems.

(** ** A concrete client *)

Module RefEtcd.

(** The current state, every past one that is not compacted, newest first. *)
Record t := { rev : Z; now : View; past : list (Z * View) }.

Fixpoint at_rev (l : list (Z * View)) (r : Z) : option View :=
  match l with [] => None | (r', m) :: l' => if r =? r' then Some m else at_rev l' r end.

Definition snapshots (e : t) : list (Z * View) := (rev e, now e) :: past e.

Definition to_kv (x : string * (bytes * Z)) : KeyValue :=
  {| kv_key := x.1; kv_value := x.2.1; create_revision := x.2.2; mod_revision := x.2.2; version := 1 |}.

Definition answer (m : View) (r : Z) (lo hi : string) (limit : Z) : RangeResponse :=
  let all := range_view m lo hi in
  let page := take_limit limit all in
  {| kvs := to_kv <$> page;
     more := Z.of_nat (List.length page) <? Z.of_nat (List.length all);
     count := Z.of_nat (List.length all);
     range_header := Some r |}.

Definition compacted_error : EtcdError :=
  GRpcStatus CodeOther "mvcc" "etcdserver: mvcc: required revision has been compacted".

Definition get (e : t) (k : string) : result RangeResponse EtcdError :=
  Ok {| kvs := match map_get (now e) k with Some x => [to_kv (k, x)] | None => [] end;
        more := false; count := 1; range_header := Some (rev e) |}.

Definition range (e : t) (lo hi : string) (limit : Z) (r : option Z) : result RangeResponse EtcdError :=
  match r with
  | None => Ok (answer (now e) (rev e) lo hi limit)
  | Some r => match at_rev (snapshots e) r with
              | Some m => Ok (answer m (rev e) lo hi limit)
              | None => Err compacted_error
              end
  end.

Definition ok (b : bool) (r : Z) : result WriteResponse EtcdError :=
  Ok {| succeeded := b; write_header := Some r |}.

Definition put (e : t) (k : string) (v : bytes) : t * result WriteResponse EtcdError :=
  let r := rev e + 1 in
  ({| rev := r; now := map_insert (now e) k (v, r); past := snapshots e |}, ok true r).

Definition delete (e : t) (k : string) : t * result WriteResponse EtcdError :=
  let r := rev e + 1 in
  ({| rev := r; now := map_remove (now e) k; past := snapshots e |}, ok true r).

Definition txn_put (e : t) (k : string) (r : Z) (v : bytes) : t * result WriteResponse EtcdError :=
  if rev_of (now e) k =? r then put e k v else (e, ok false (rev e)).
Definition txn_delete (e : t) (k : string) (r : Z) : t * result WriteResponse EtcdError :=
  if rev_of (now e) k =? r then delete e k else (e, ok false (rev e)).

(** States a client can see: sorted keys, positive revisions, no more keys
    than revisions, and the past below the present. *)
Definition good (r : Z) (m : View) : Prop :=
  keys_sorted m = true ∧ (∀ k v r', map_get m k = Some (v, r') → 0 < r' ≤ r) ∧
  Z.of_nat (List.length m) ≤ r.

Definition wf (e : t) : Prop :=
  0 < rev e ≤ i64_max ∧ Forall (λ x, good x.1 x.2 ∧ x.1 ≤ rev e) (snapshots e).

End RefEtcd.

#[export] Instance ref_etcd : EtcdClient RefEtcd.t := {|
  etcd_get := RefEtcd.get;
  etcd_range := RefEtcd.range;
  etcd_put := RefEtcd.put;
  etcd_delete := RefEtcd.delete;
  etcd_txn_put := RefEtcd.txn_put;
  etcd_txn_delete := RefEtcd.txn_delete;
  etcd_txn_version e _ _ _ := (e, Err (OtherError "not supported"));
  etcd_compact e _ := (e, Ok ()) |}.

Lemma answer_doc m r lo hi limit : range_answers m lo hi limit (RefEtcd.answer m r lo hi limit).
Proof.
  unfold range_answers. split; [|done]. simpl. rewrite <- list_fmap_compose.
  transitivity (id <$> take_limit limit (range_view m lo hi)); [|apply list_fmap_id].
  apply list_fmap_ext. by intros i [k [v r']] _.
Qed.

Lemma length_map_insert {A} (m : BTreeMap A) k v :
  (List.length (map_insert m k v) ≤ Datatypes.S (List.length m))%nat.
Proof. induction m as [|[k' v'] m IH]; simpl; [done|]. repeat case_match; simpl; lia. Qed.

Lemma length_map_remove {A} (m : BTreeMap A) k : (List.length (map_remove m k) ≤ List.length m)%nat.
Proof. induction m as [|[k' v'] m IH]; simpl; [done|]. repeat case_match; simpl; lia. Qed.

Lemma good_insert r m k v : 0 < r → RefEtcd.good r m → RefEtcd.good (r + 1) (map_insert m k (v, r + 1)).
Proof.
  intros Hr (H1 & H2 & H3). split_and!; [by apply keys_sorted_insert| |].
  - intros k' v' r'. rewrite map_get_insert. case_match; [intros [= <- <-]; lia|].
    intros Hg%H2. lia.
  - pose proof (length_map_insert m k (v, r + 1)). lia.
Qed.

Lemma good_remove r m k : RefEtcd.good r m → RefEtcd.good (r + 1) (map_remove m k).
Proof.
  intros (H1 & H2 & H3). split_and!; [by apply keys_sorted_remove| |].
  - intros k' v' r' Hg. destruct (str_eqb k' k) eqn:E.
    + apply str_eqb_eq in E as ->. by rewrite map_get_remove_eq in Hg.
    + apply str_eqb_neq in E. rewrite map_get_remove_ne in Hg by done. apply H2 in Hg. lia.
  - pose proof (length_map_remove m k). lia.
Qed.

Lemma at_rev_good l r m b :
  Forall (λ x, RefEtcd.good x.1 x.2 ∧ x.1 ≤ b) l → RefEtcd.at_rev l r = Some m → RefEtcd.good r m ∧ r ≤ b.
Proof.
  induction 1 as [|[r' m'] l Hx Hl IH]; simpl; [done|].
  destruct (r =? r') eqn:E; [|done]. apply Z.eqb_eq in E. intros [= ->]. subst. apply Hx.
Qed.

Lemma ref_wf_next e m :
  RefEtcd.wf e → RefEtcd.rev e < i64_max → RefEtcd.good (RefEtcd.rev e + 1) m →
  RefEtcd.wf {| RefEtcd.rev := RefEtcd.rev e + 1; RefEtcd.now := m; RefEtcd.past := RefEtcd.snapshots e |}.
Proof.
  intros [Hr Hf] Hlt Hg. split; simpl; [lia|]. constructor; [simpl; split; [done|lia]|].
  eapply List.Forall_impl; [|exact Hf]. simpl. intros [r' m'] [? ?]. simpl in *. split; [done|lia].
Qed.

#[export] Program Instance ref_etcd_laws : EtcdLaws RefEtcd.t := {|
  etcd_wf := RefEtcd.wf;
  etcd_view := RefEtcd.now;
  etcd_rev := RefEtcd.rev;
  etcd_at e r := RefEtcd.at_rev (RefEtcd.snapshots e) r |}.
Next Obligation. intros e [Hr Hf]. inversion Hf as [|? ? [(H1 & H2 & H3) _] _]; subst. split_and!; done || lia. Qed.
Next Obligation. intros e r m [Hr Hf] E. by destruct (at_rev_good _ _ _ _ Hf E) as [(H1 & H2 & _) _]. Qed.
Next Obligation. intros e r m [Hr Hf] E. destruct (at_rev_good _ _ _ _ Hf E) as [(_ & _ & H3) ?]. lia. Qed.
Next Obligation. intros e _. simpl. by rewrite Z.eqb_refl. Qed.
Next Obligation.
  intros e k _. eexists. split; [done|]. simpl. by destruct (map_get (RefEtcd.now e) k) as [[v r]|].
Qed.
Next Obligation. intros e lo hi limit _ _. eexists. split; [done|]. split; [done|]. apply answer_doc. Qed.
Next Obligation.
  intros e lo hi limit r _ _ _. unfold etcd_range, ref_etcd, RefEtcd.range.
  destruct (RefEtcd.at_rev (RefEtcd.snapshots e) r) as [m|]; eexists; (split; [done|]); [apply answer_doc|done].
Qed.
Next Obligation.
  intros e k v Hwf Hlt. pose proof Hwf as [Hr Hf]. inversion Hf as [|? ? [Hg _] _]; subst. simpl in Hg.
  do 2 eexists. split; [done|]. split_and!; [done| |done|done|].
  - simpl. apply ref_wf_next; [done|done|]. apply good_insert; [lia|done].
  - intros r Hle. simpl. by replace (r =? RefEtcd.rev e + 1) with false by (symmetry; apply Z.eqb_neq; lia).
Qed.
Next Obligation.
  intros e k Hwf Hlt. pose proof Hwf as [Hr Hf]. inversion Hf as [|? ? [Hg _] _]; subst. simpl in Hg.
  do 2 eexists. split; [done|]. split_and!; [done| |simpl; lia|done| |done].
  - simpl. apply ref_wf_next; [done|done|]. by apply good_remove.
  - intros r Hle. simpl in *. by replace (r =? RefEtcd.rev e + 1) with false by (symmetry; apply Z.eqb_neq; lia).
Qed.
Next Obligation.
  intros e k r v _ _ E. simpl in *. unfold RefEtcd.txn_put. rewrite E, Z.eqb_refl. by eexists.
Qed.
Next Obligation.
  intros e k r v _ E. simpl in *. unfold RefEtcd.txn_put. apply Z.eqb_neq in E. rewrite E. by eexists.
Qed.
Next Obligation.
  intros e k r _ _ E. simpl in *. unfold RefEtcd.txn_delete. rewrite E, Z.eqb_refl. by eexists.
Qed.
Next Obligation.
  intros e k r _ E. simpl in *. unfold RefEtcd.txn_delete. apply Z.eqb_neq in E. rewrite E. by eexists.
Qed.

(** ** Theorems *)

(** C37: On any etcd that behaves as documented, the adapter's list — current or
    pinned to a revision the store still has, from any continue key the API
    server itself hands out — is the page the interface promises: the first
    [limit] keys of the prefix after the token, in order, with the number
    remaining; a compacted revision is [Gone]. *)
Theorem etcd_list_refines {E} `{EtcdLaws E} (e : E) prefix limit token pinned :
  etcd_wf e → listable prefix → 0 ≤ limit ≤ i64_max → honest prefix token →
  match pinned with Some r => 0 < r ≤ etcd_rev e | None => True end →
  store_list_at e prefix limit token pinned =
    match pinned with
    | None => Ok (page_of (etcd_view e) (etcd_rev e) prefix limit token)
    | Some r => match etcd_at e r with
                | Some m => Ok (page_of m r prefix limit token)
                | None => Err (Gone r)
                end
    end ∧
  ∀ page k v r, store_list_at e prefix limit token pinned = Ok page → In (k, v, r) (lr_items page) →
    starts_with k prefix = true.
Proof.
  intros Hwf Hp Hl Hh Hr.
  assert (store_list_at e prefix limit token pinned =
    match pinned with
    | None => Ok (page_of (etcd_view e) (etcd_rev e) prefix limit token)
    | Some r => match etcd_at e r with
                | Some m => Ok (page_of m r prefix limit token)
                | None => Err (Gone r)
                end
    end) as E1.
  { destruct pinned as [r|]; [exact (list_pinned e prefix limit token r Hwf I Hp Hl Hh Hr)|].
    exact (list_now e prefix limit token Hwf I Hp Hl Hh). }
  split; [done|]. intros page k v r Hpage Hin.
  assert (∃ m r', page = page_of m r' prefix limit token) as (m & r' & ->).
  { rewrite E1 in Hpage. destruct pinned as [r0|]; [destruct (etcd_at e r0); [|done]|]; injection Hpage as <-; eauto. }
  simpl in Hin. apply list_elem_of_In, list_elem_of_fmap in Hin as ([k' [v' r1]] & [= -> -> ->] & Hin).
  assert (In (k', (v', r1)) (matching m prefix token)) as Hin'.
  { apply list_elem_of_In. unfold take_limit in Hin. destruct (limit =? 0); [done|].
    apply elem_of_take in Hin as (j & Hj & _). by eapply list_elem_of_lookup_2. }
  apply filter_In in Hin' as [_ [Hs _]%andb_true_iff]. done.
Qed.

(** A store of two namespaces' secrets. *)
Definition two_namespaces : RefEtcd.t :=
  Eval vm_compute in
  (RefEtcd.put (RefEtcd.put {| RefEtcd.rev := 1; RefEtcd.now := []; RefEtcd.past := [] |}
     "/registry/secrets/team-a/db" "A").1 "/registry/secrets/team-b/db" "B").1.

Lemma two_namespaces_wf : RefEtcd.wf two_namespaces.
Proof.
  change two_namespaces with
    (RefEtcd.put (RefEtcd.put {| RefEtcd.rev := 1; RefEtcd.now := []; RefEtcd.past := [] |}
     "/registry/secrets/team-a/db" "A").1 "/registry/secrets/team-b/db" "B").1.
  assert (RefEtcd.wf {| RefEtcd.rev := 1; RefEtcd.now := []; RefEtcd.past := [] |}) as H0.
  { split; [by vm_compute|]. constructor; [|constructor]. split; [|done]. split_and!; done. }
  destruct (etcd_put_doc (EtcdLaws := ref_etcd_laws) {| RefEtcd.rev := 1; RefEtcd.now := []; RefEtcd.past := [] |}
    "/registry/secrets/team-a/db" "A" H0 eq_refl) as (e1 & r1 & E1 & _ & H1 & _).
  injection E1 as <- _.
  destruct (etcd_put_doc (EtcdLaws := ref_etcd_laws)
    (RefEtcd.put {| RefEtcd.rev := 1; RefEtcd.now := []; RefEtcd.past := [] |} "/registry/secrets/team-a/db" "A").1
    "/registry/secrets/team-b/db" "B" H1 eq_refl) as (e2 & r2 & E2 & _ & H2 & _).
  by injection E2 as <- _.
Qed.

Lemma etcd_list_refines_witness :
  store_list_at two_namespaces "/registry/secrets/" 1 (Some "/registry/secrets/team-a/db") (Some 3) =
  Ok {| lr_items := [("/registry/secrets/team-b/db", "B", 3)]; lr_continue_token := None;
        lr_revision := 3; lr_remaining := Some 0 |}.
Proof.
  destruct (etcd_list_refines two_namespaces "/registry/secrets/" 1 (Some "/registry/secrets/team-a/db") (Some 3))
    as [H _].
  - exact two_namespaces_wf.
  - by split.
  - by split.
  - reflexivity.
  - by split.
  - etransitivity; [exact H|]. vm_compute. reflexivity.
Defined.

(** A continue token is not checked against the prefix it is used with.
    The keys read start just after the token, so with a made-up token that
    sorts before the prefix, a LIST of one namespace's secrets returns another
    namespace's. *)
Theorem forged_token_escapes :
  ∃ prefix token page,
    store_list_at two_namespaces prefix 0 (Some token) None = Ok page ∧
    prefix = "/registry/secrets/team-b/" ∧ ¬ honest prefix (Some token) ∧
    ∃ k v r, In (k, v, r) (lr_items page) ∧ k = "/registry/secrets/team-a/db" ∧ starts_with k prefix = false.
Proof.
  exists "/registry/secrets/team-b/", "/registry/secrets/". eexists.
  split; [vm_compute; reflexivity|]. split; [done|]. split; [by vm_compute|].
  exists "/registry/secrets/team-a/db", "A", 2. split; [by left|]. done.
Qed.
