(* ===== verification/WatchCache.v ===== *)
(** * The watch cache ([pkg/apiserver/src/watch_cache.rs])

    One pump per prefix reads the datastore's watch stream, keeps a snapshot
    of the prefix, a ring of recent events and a broadcast to the watchers;
    a freshness task re-reads the store when the stream looks stalled.

    The first half is sequential: seeding the snapshot page by page, what the
    pump does with one event, the pages served from the snapshot.  The second
    half is the concurrent system of one prefix: the pump, the freshness task
    and any number of watchers, interleaved at every access to shared state
    (a lock, an atomic, the broadcast channel), and what a watcher is sent.

    Sequence numbers are [u64] counters incremented one at a time from 1; they
    are plain integers here.  The broadcast channel is tokio's: a receiver is
    sent what is sent after it subscribed, in order, or told that it lagged
    once more than the channel's capacity is waiting for it. *)

From Stdlib Require Import ZArith Lia String Ascii Sorted.
From stdpp Require Import base gmap strings numbers option list.
From S2P Require Import Prelude Text BTree Json F64 Quantity Store ApiError Codec Storage.
Open Scope string_scope.
Open Scope kube_scope.
Open Scope Z_scope.

(** ** Names *)

(** [/registry/{resource}/], or [/registry/{group}/{plural}/] of a CRD. *)
Definition resource_wide (prefix : string) : bool :=
  match strip_prefix "/registry/" prefix with
  | None => false
  | Some rest =>
      match split_on "/" (trim_end_char "/" rest) with
      | [r] => negb (is_empty_str r) && negb (str_contains_char "." r)
      | [group; plural] => str_contains_char "." group && negb (is_empty_str plural)
      | _ => false
      end
  end.

Definition event_kind (ev : WatchEvent) : string :=
  match ev with
  | Added _ _ _ => "ADDED"
  | Modified _ _ _ _ => "MODIFIED"
  | Deleted _ _ _ => "DELETED"
  | Bookmark _ => "BOOKMARK"
  | WatchError _ _ _ => "ERROR"
  end.

Definition SEED_PAGE : Z := 1000.
Definition RING_CAPACITY : nat := 1024.
Definition BROADCAST_CAPACITY : nat := 1024.

(** ** Seeding *)

Notation Snapshot := View.

Definition insert_item (m : Snapshot) (x : string * bytes * Z) : Snapshot :=
  let '(k, b, r) := x in map_insert m k (b, r).

Section Seed.
  Context {S : Type} `{KvStore S}.

(** [at_page i] is the store when page [i] is read; [None] is fuel spent. *)
Fixpoint seed_snapshot (fuel : nat) (at_page : nat → S) (i : nat) (prefix : string)
    (continue_token : option string) (rev : Z) (snapshot : Snapshot) : option (result (Snapshot * Z) Error) :=
  match fuel with
  | O => None
  | Datatypes.S fuel' =>
      match kv_list_at (at_page i) prefix SEED_PAGE continue_token (if rev =? 0 then None else Some rev) with
      | Err e => Some (Err e)
      | Ok page =>
          let rev := lr_revision page in
          let snapshot := fold_left insert_item (lr_items page) snapshot in
          match lr_continue_token page with
          | Some t => seed_snapshot fuel' at_page (Datatypes.S i) prefix (Some t) rev snapshot
          | None => Some (Ok (snapshot, rev))
          end
      end
  end.
End Seed.

(** ** One event *)

Definition or_else {A} (o d : option A) : option A := match o with Some _ => o | None => d end.

(** The snapshot after an event, and the event with the state it replaces. *)
Definition apply_event (snap : Snapshot) (ev : WatchEvent) : Snapshot * WatchEvent :=
  match ev with
  | Added key value revision => (map_insert snap key (value, revision), ev)
  | Modified key value revision prev_value =>
      let last := fst <$> map_get snap key in
      (map_insert snap key (value, revision), Modified key value revision (or_else prev_value last))
  | Deleted key revision prev_value =>
      let last := fst <$> map_get snap key in
      (map_remove snap key, Deleted key revision (or_else prev_value last))
  | Bookmark _ | WatchError _ _ _ => (snap, ev)
  end.

Notation Ring := (list (Z * WatchEvent)).

Definition ring_push (ring : Ring) (x : Z * WatchEvent) : Ring :=
  ((if Nat.eqb (List.length ring) RING_CAPACITY then tail ring else ring) ++ [x])%list.

(** ** Reads from the snapshot *)

Record PrefixCache := mkCache {
  generation : Z;
  ring : Ring;
  next_seq : Z;
  pump_start_rev : Z;
  snap : Snapshot;
  snapshot_rev : Z;
  terminated : bool }.

Record CachePage := {
  cp_items : list (bytes * Z);
  cp_continue_key : option string;
  cp_revision : Z;
  cp_remaining : option Z }.

(** The item loop over a range of the snapshot, and what is left of it. *)
Definition page_of_range (range : Snapshot) (limit rev : Z) : CachePage :=
  let items := take_limit limit range in
  let left := Z.of_nat (List.length range - List.length items) in
  {| cp_items := snd <$> items;
     cp_continue_key := if 0 <? left then fst <$> list.last items else None;
     cp_revision := rev;
     cp_remaining := if 0 <? left then Some left else None |}.

(** [range((lower, Unbounded))]. *)
Definition range_after (snap : Snapshot) (k : string) : Snapshot :=
  MemStore.drop_while (λ kv, negb (str_ltb k kv.1)) snap.
Definition range_from (snap : Snapshot) (k : string) : Snapshot :=
  MemStore.drop_while (λ kv, str_ltb kv.1 k) snap.

Definition version (c : PrefixCache) : Z * Z := (generation c, snapshot_rev c).

Definition snapshot_of (c : PrefixCache) : (Z * Z) * list (string * bytes) :=
  (version c, (λ kv, (kv.1, kv.2.1)) <$> snap c).

Definition cache_get (c : PrefixCache) (key : string) : option bytes := fst <$> map_get (snap c) key.

Definition list_snapshot (c : PrefixCache) (limit : Z) (continue_token : option string) : CachePage :=
  let range := match continue_token with Some k => range_after (snap c) k | None => snap c end in
  page_of_range range limit (snapshot_rev c).

Definition page_of_snapshot (c : PrefixCache) (sub_prefix : string) (limit : Z) (after_key : option string) :
    CachePage :=
  let from := match after_key with Some k => range_after (snap c) k | None => range_from (snap c) sub_prefix end in
  page_of_range (MemStore.take_while (λ kv, starts_with kv.1 sub_prefix) from) limit (snapshot_rev c).

(** One look of the wait loop: what it loads, and how its wait ends. *)
Record Look := mkLook { l_terminated : bool; l_rev : Z; l_timeout : option Z }.

(** [l_timeout]: the deadline passes, with the revision then loaded; or the
    cache advances and the loop looks again. *)
Fixpoint wait_for_revision (looks : list Look) (min_rev : Z) : option bool :=
  match looks with
  | [] => None
  | l :: rest =>
      if l_terminated l then Some false
      else if min_rev <=? l_rev l then Some true
      else match l_timeout l with
           | Some r => Some (min_rev <=? r)
           | None => wait_for_revision rest min_rev
           end
  end.

(** What [ensure] gave, and whether the wait was in time. *)
Definition read_page (ensured : result PrefixCache Error) (ready : bool) (sub_prefix : string) (limit : Z)
    (after_key : option string) : result (option CachePage) Error :=
  match ensured with
  | Err e => Err e
  | Ok c => if negb ready then Ok None else Ok (Some (page_of_snapshot c sub_prefix limit after_key))
  end.

Definition read_one (ensured : result PrefixCache Error) (ready : bool) (key : string) :
    result (option (option (bytes * Z) * Z)) Error :=
  match ensured with
  | Err e => Err e
  | Ok c => if negb ready then Ok None else Ok (Some (map_get (snap c) key, snapshot_rev c))
  end.

(** ** Reads of the API server through the cache ([storage.rs]) *)

Section Reads.
  Context {S : Type} `{KvStore S} `{JsonCodec}.

(** [WatchCache::list]: the snapshot, or the store when the wait was not in time. *)
Definition cache_list (s : S) (ensured : result PrefixCache Error) (ready : bool) (prefix : string) (limit : Z)
    (continue_token : option string) : result CachePage Error :=
  match ensured with
  | Err e => Err e
  | Ok c =>
      if negb ready then
        match kv_list s prefix limit continue_token with
        | Err e => Err e
        | Ok page => Ok {| cp_items := (λ x, (x.1.2, x.2)) <$> lr_items page;
                           cp_continue_key := lr_continue_token page;
                           cp_revision := lr_revision page;
                           cp_remaining := None |}
        end
      else Ok (list_snapshot c limit continue_token)
  end.

Definition get_read (s : S) (one : result (option (option (bytes * Z) * Z)) Error) (key : string) (read : Read) :
    option (result Value ApiError) :=
  match read with
  | NotOlderThan _ =>
      match one with
      | Ok (Some (Some (bytes, mod_rev), _)) => decode_at bytes mod_rev
      | Ok (Some (None, _)) => Some (Err (not_found_at key))
      | _ => get s key
      end
  | _ => get s key
  end.

Definition list_page_read (s : S) (cached : result (option CachePage) Error) (prefix : string) (limit : Z)
    (continue_token : option string) (read : Read) : option (result ListPage ApiError) :=
  match continue_token, read with
  | Some _, _ | None, Consistent => list_page s prefix limit continue_token
  | None, Exact rev => list_page_at s prefix limit rev
  | None, NotOlderThan _ =>
      match cached with
      | Ok (Some page) =>
          r ← decode_items ((λ x, ("", x.1, x.2)) <$> cp_items page);
          Some (match r with
                | Err e => Err e
                | Ok items =>
                    Ok {| lp_items := items;
                          lp_continue_token := continue_text (cp_revision page) <$> cp_continue_key page;
                          lp_revision := cp_revision page;
                          lp_remaining := cp_remaining page |}
                end)
      | _ => list_page s prefix limit None
      end
  end.
End Reads.

(** ** Theorems: the snapshot *)

Section SnapshotLemmas.
  Implicit Types m : View.

Lemma map_get_keys m (f : string → bool) k :
  map_get (List.filter (λ kv, f kv.1) m) k = if f k then map_get m k else None.
Proof.
  induction m as [|[k1 v1] m IH]; simpl; [by case_match|].
  destruct (f k1) eqn:E1; simpl; destruct (str_eqb k k1) eqn:Ek.
  - apply str_eqb_eq in Ek as ->. by rewrite E1.
  - done.
  - apply str_eqb_eq in Ek as ->. by rewrite IH, E1.
  - done.
Qed.

Lemma matching_keys m prefix : matching m prefix None = List.filter (λ kv, starts_with kv.1 prefix) m.
Proof. unfold matching. apply filter_ext. intros kv. apply andb_true_r. Qed.

Lemma matching_insert m prefix k v :
  keys_sorted m = true →
  matching (map_insert m k v) prefix None =
    if starts_with k prefix then map_insert (matching m prefix None) k v else matching m prefix None.
Proof.
  intros Hm. rewrite !matching_keys. apply map_ext.
  - by apply keys_sorted_filter, keys_sorted_insert.
  - case_match; [apply keys_sorted_insert|]; by apply keys_sorted_filter.
  - intros k'. rewrite (map_get_keys _ (λ x, starts_with x prefix)), map_get_insert.
    destruct (starts_with k prefix) eqn:Ek.
    + rewrite map_get_insert, (map_get_keys _ (λ x, starts_with x prefix)).
      destruct (str_eqb k' k) eqn:E; [|done]. apply str_eqb_eq in E as ->. by rewrite Ek.
    + rewrite (map_get_keys _ (λ x, starts_with x prefix)).
      destruct (str_eqb k' k) eqn:E; [|done]. apply str_eqb_eq in E as ->. by rewrite Ek.
Qed.

Lemma matching_remove m prefix k :
  keys_sorted m = true →
  matching (map_remove m k) prefix None = map_remove (matching m prefix None) k.
Proof.
  intros Hm. rewrite !matching_keys. apply map_ext.
  - by apply keys_sorted_filter, keys_sorted_remove.
  - by apply keys_sorted_remove, keys_sorted_filter.
  - intros k'. rewrite (map_get_keys _ (λ x, starts_with x prefix)).
    destruct (str_eqb k' k) eqn:E.
    + apply str_eqb_eq in E as ->. rewrite !map_get_remove_eq by (done || by apply keys_sorted_filter).
      by case_match.
    + apply str_eqb_neq in E. rewrite !map_get_remove_ne by done.
      by rewrite (map_get_keys _ (λ x, starts_with x prefix)).
Qed.

(** Inserting keys in ascending order appends them. *)
Lemma insert_last m k v : Forall (λ kv, str_ltb kv.1 k = true) m → map_insert m k v = (m ++ [(k, v)])%list.
Proof.
  induction m as [|[k1 v1] m IH]; intros Hf; [done|]. inversion Hf as [|? ? Hlt Hf']; subst. simpl in *.
  destruct (str_eqb k k1) eqn:E.
  - apply str_eqb_eq in E as ->. by rewrite str_ltb_irrefl in Hlt.
  - rewrite (str_ltb_asym _ _ Hlt). by rewrite IH.
Qed.

Lemma keys_sorted_app_below m k v m2 :
  keys_sorted (m ++ (k, v) :: m2) = true → Forall (λ kv, str_ltb kv.1 k = true) m.
Proof.
  induction m as [|[k1 v1] m IH]; [done|]. cbn [app]. intros [Ha Hs]%keys_sorted_cons.
  constructor; [|by apply IH]. apply List.Forall_app in Ha as [_ Ha]. by inversion Ha.
Qed.

Lemma keys_sorted_app_l m1 m2 : keys_sorted (m1 ++ m2) = true → keys_sorted m1 = true.
Proof.
  induction m1 as [|[k v] m1 IH]; [done|]. cbn [app]. intros [Ha Hs]%keys_sorted_cons.
  apply keys_sorted_cons. split; [by apply List.Forall_app in Ha as [Ha _]|by apply IH].
Qed.

Lemma insert_items m l :
  keys_sorted (m ++ l) = true → fold_left insert_item (to_items l) m = (m ++ l)%list.
Proof.
  revert m. induction l as [|[k [b r]] l IH]; intros m Hm; [by rewrite app_nil_r|].
  cbn. rewrite insert_last by (by eapply keys_sorted_app_below).
  rewrite IH; rewrite <- app_assoc; done.
Qed.

(** Skipping to a key and filtering are the same on sorted keys. *)
Lemma range_after_filter m k : keys_sorted m = true → range_after m k = List.filter (λ kv, str_ltb k kv.1) m.
Proof.
  unfold range_after. induction m as [|[k1 v1] m IH]; [done|]. intros [Ha Hs]%keys_sorted_cons. simpl.
  destruct (str_ltb k k1) eqn:E; simpl; [|by apply IH].
  f_equal. clear IH Hs. induction Ha as [|[k2 v2] m Hlt Ha IH]; [done|]. simpl in *.
  by rewrite (str_ltb_trans _ _ _ E Hlt), <- IH.
Qed.

Lemma take_while_after m prefix k :
  keys_sorted m = true → starts_with k prefix = true →
  MemStore.take_while (λ kv, starts_with kv.1 prefix) (range_after m k) = matching m prefix (Some k).
Proof.
  intros Hm Hk. rewrite range_after_filter by done. rewrite take_while_prefix.
  - unfold matching. rewrite filter_filter. apply filter_ext. intros kv. simpl. apply andb_comm.
  - by apply keys_sorted_filter.
  - apply List.Forall_forall. intros [k' v'] [_ Hlt]%filter_In. simpl in *.
    apply prefix_not_above in Hk. destruct (str_ltb k' prefix) eqn:E; [|done].
    by rewrite (str_ltb_trans _ _ _ Hlt E) in Hk.
Qed.

(** The range a page is cut from is what the store would list. *)
Lemma page_range c sub_prefix token :
  keys_sorted (snap c) = true → honest sub_prefix token →
  MemStore.take_while (λ kv, starts_with kv.1 sub_prefix)
    match token with Some k => range_after (snap c) k | None => range_from (snap c) sub_prefix end
  = matching (snap c) sub_prefix token.
Proof.
  intros Hm Ht. destruct token as [k|].
  - by apply take_while_after.
  - rewrite matching_keys. by apply prefix_scan.
Qed.

End SnapshotLemmas.

Lemma starts_with_trans a b c : starts_with a b = true → starts_with b c = true → starts_with a c = true.
Proof.
  intros [x ->]%starts_with_spec [y ->]%starts_with_spec. apply starts_with_spec. exists (y ++ x)%string.
  by rewrite str_app_assoc.
Qed.

Lemma matching_narrow (m : View) prefix sub token :
  starts_with sub prefix = true → matching (matching m prefix None) sub token = matching m sub token.
Proof.
  intros Hp. unfold matching. rewrite filter_filter. apply filter_ext. intros kv. simpl. rewrite andb_true_r.
  destruct (starts_with kv.1 sub) eqn:E; simpl; [|by rewrite andb_false_r].
  by rewrite (starts_with_trans _ _ _ E Hp).
Qed.

Section StoreTheorems.
  Context {S : Type} `{HL : KvStoreLaws S}.
  Implicit Types s : S.

Lemma seed_rest at_page prefix m r n :
  listable prefix → is_u64 r → 0 < r → keys_sorted m = true →
  (∀ i, kv_wf (at_page i) ∧ serving (at_page i) ∧ r ≤ revision (at_page i) ∧ snapshot (at_page i) r = Some m) →
  ∀ fuel i k done_,
    (List.length (matching m prefix (Some k)) < fuel)%nat → (n ≤ i)%nat → starts_with k prefix = true →
    matching m prefix None = (done_ ++ matching m prefix (Some k))%list →
    seed_snapshot fuel at_page i prefix (Some k) r done_ = Some (Ok (matching m prefix None, r)).
Proof.
  intros Hp Hr Hr0 Hm Hst. induction fuel as [|f IH]; intros i k done_ Hf Hi Hk Hall; [lia|]. cbn [seed_snapshot].
  destruct (Hst i) as (Hwf & Hs & Hle & Hsnap). pose proof (view_wf _ Hwf) as (_ & Hb & _).
  replace (r =? 0) with false by (symmetry; apply Z.eqb_neq; lia).
  rewrite Store.list_pinned by (done || (unfold SEED_PAGE, i64_max; lia) || lia). rewrite Hsnap.
  destruct (page_split m prefix (Some k) SEED_PAGE) as (rest & Hrest & Htok); [done|done|].
  cbn [page_of lr_items lr_revision lr_continue_token]. set (all := matching m prefix (Some k)) in *.
  assert (keys_sorted (matching m prefix None) = true) as Hks by (by apply keys_sorted_filter).
  assert (keys_sorted ((done_ ++ take_limit SEED_PAGE all) ++ rest) = true) as Hks2.
  { rewrite <- app_assoc, <- Hrest, <- Hall. done. }
  rewrite insert_items.
  2:{ by eapply keys_sorted_app_l. }
  destruct Htok as [[-> Htok]|(k' & Hk' & Hrest' & Hlt & Htok)].
  - rewrite app_nil_r in Hrest. pose proof (Htok r) as Ht. cbn [page_of lr_continue_token] in Ht. fold all in Ht. rewrite Ht.
    by rewrite <- Hrest, <- Hall.
  - pose proof (Htok r) as Ht. cbn [page_of lr_continue_token] in Ht. fold all in Ht. rewrite Ht. apply IH; [|lia|done|].
    + rewrite Hrest'. fold all in Hlt. lia.
    + rewrite Hrest', <- app_assoc, <- Hrest. done.
Qed.

Lemma seed_all at_page prefix :
  listable prefix →
  (∀ i, kv_wf (at_page i) ∧ serving (at_page i) ∧ revision (at_page 0%nat) ≤ revision (at_page i) ∧
        snapshot (at_page i) (revision (at_page 0%nat)) = Some (view (at_page 0%nat))) →
  let all := matching (view (at_page 0%nat)) prefix None in
  seed_snapshot (Datatypes.S (List.length all)) at_page 0 prefix None 0 [] = Some (Ok (all, revision (at_page 0%nat))).
Proof.
  intros Hp Hst all. destruct (Hst 0%nat) as (Hwf & Hs & _ & Hsnap).
  pose proof (view_wf _ Hwf) as (Hm & Hb & Hrev). cbn [seed_snapshot Z.eqb].
  rewrite list_now by (done || (unfold SEED_PAGE, i64_max; lia)).
  set (m := view (at_page 0%nat)) in *. set (r := revision (at_page 0%nat)) in *.
  destruct (page_split m prefix None SEED_PAGE) as (rest & Hall & Htok); [done|done|]. fold all in Hall, Htok.
  cbn [page_of lr_items lr_revision lr_continue_token]. fold all.
  assert (keys_sorted all = true) as Hks by (by apply keys_sorted_filter).
  rewrite insert_items by (rewrite Hall in Hks; cbn [app]; by eapply keys_sorted_app_l).
  destruct Htok as [[-> Htok]|(k' & Hk' & Hrest & Hlt & Htok)]; pose proof (Htok r) as Ht; cbn [page_of lr_continue_token] in Ht; fold all in Ht;
    rewrite Ht.
  - rewrite app_nil_r in Hall. cbn [app]. by rewrite <- Hall.
  - assert (is_u64 r) as Hr by (unfold is_u64, u64_max, i64_max in *; lia).
    assert (0 < r) as Hr0.
    { destruct all as [|[k1 [b1 r1]] all'] eqn:Eall; [simpl in Hlt; lia|].
      assert (In (k1, (b1, r1)) m) as Hin.
      { assert (In (k1, (b1, r1)) all) as Hin by (rewrite Eall; by left).
        unfold all, matching in Hin. by apply filter_In in Hin as [? _]. }
      apply map_get_sorted_In in Hin; [|done]. apply Hrev in Hin. lia. }
    cbn [app]. apply (seed_rest at_page prefix m r 1); try done; [by rewrite Hrest|by rewrite Hrest].
Qed.

(** The watch events of [prefix] that a run of writes puts on the datastore's
    stream: one per key written or removed under it, the removal of an absent
    key none; the previous value [p] is there or not. *)
Inductive emits (prefix : string) : S → list WatchEvent → S → Prop :=
| emits_nil s : emits prefix s [] s
| emits_put s key v prev s' r p evs s'' :
    rev_room (revision s) → match prev with Some w => is_u64 w | None => True end →
    kv_put s key v prev = (s', Ok r) → emits prefix s' evs s'' →
    emits prefix s
      ((if starts_with key prefix
        then [if contains_key (view s) key then Modified key v r p else Added key v r] else []) ++ evs) s''
| emits_delete s key prev s' r p evs s'' :
    rev_room (revision s) → match prev with Some w => is_u64 w ∧ w ≠ 0 | None => True end →
    kv_delete s key prev = (s', Ok r) → emits prefix s' evs s'' →
    emits prefix s
      ((if starts_with key prefix && contains_key (view s) key then [Deleted key r p] else []) ++ evs) s''.

(** The pump's snapshot after a run of events. *)
Definition replay (m : Snapshot) (evs : list WatchEvent) : Snapshot := fold_left (λ m e, (apply_event m e).1) evs m.

Lemma put_Ok s s' key v prev r :
  kv_wf s → serving s → rev_room (revision s) → match prev with Some w => is_u64 w | None => True end →
  kv_put s key v prev = (s', Ok r) →
  kv_wf s' ∧ serving s' ∧ r = revision s' ∧ view s' = map_insert (view s) key (v, r).
Proof.
  intros Hwf Hs Hr Hp E. destruct prev as [w|].
  - destruct (decide (rev_of (view s) key = w)) as [He|Hne]; [|by rewrite put_conflict in E].
    destruct (put_ok s key v (Some w) Hwf Hs Hr He) as (s1 & E1 & H1 & H2 & _ & H4 & _).
    rewrite E1 in E. by injection E as <- <-.
  - destruct (put_ok s key v None Hwf Hs Hr I) as (s1 & E1 & H1 & H2 & _ & H4 & _).
    rewrite E1 in E. by injection E as <- <-.
Qed.

Lemma delete_Ok s s' key prev r :
  kv_wf s → serving s → rev_room (revision s) → match prev with Some w => is_u64 w ∧ w ≠ 0 | None => True end →
  kv_delete s key prev = (s', Ok r) →
  kv_wf s' ∧ serving s' ∧ view s' = map_remove (view s) key.
Proof.
  intros Hwf Hs Hr Hp E. destruct prev as [w|].
  - destruct Hp as [Hu Hnz]. destruct (decide (rev_of (view s) key = w)) as [He|Hne]; [|by rewrite delete_conflict in E].
    assert (contains_key (view s) key = true) as Hc.
    { destruct (contains_key (view s) key) eqn:Ec; [done|]. apply rev_of_absent in Ec; [|done]. congruence. }
    destruct (delete_ok s key (Some w) Hwf Hs Hr (conj Hc He)) as (s1 & E1 & H1 & H2 & _ & H4 & _).
    rewrite E1 in E. by injection E as <- <-.
  - destruct (delete_ok s key None Hwf Hs Hr I) as (s1 & E1 & H1 & H2 & _ & H4 & _).
    rewrite E1 in E. by injection E as <- <-.
Qed.

Lemma replay_emits prefix s evs s' :
  kv_wf s → serving s → emits prefix s evs s' →
  replay (matching (view s) prefix None) evs = matching (view s') prefix None.
Proof.
  intros Hwf Hs He. induction He as [s|s key v prev s1 r p evs s2 Hr Hp E _ IH|s key prev s1 r p evs s2 Hr Hp E _ IH];
    [done| |].
  - pose proof (view_wf _ Hwf) as (Hm & _). destruct (put_Ok _ _ _ _ _ _ Hwf Hs Hr Hp E) as (H1 & H2 & _ & Hv).
    rewrite <- (IH H1 H2), Hv, matching_insert by done.
    destruct (starts_with key prefix); [|done]. by destruct (contains_key (view s) key).
  - pose proof (view_wf _ Hwf) as (Hm & _). destruct (delete_Ok _ _ _ _ _ Hwf Hs Hr Hp E) as (H1 & H2 & Hv).
    rewrite <- (IH H1 H2), Hv, matching_remove by done.
    destruct (starts_with key prefix) eqn:Ek; simpl.
    + destruct (contains_key (view s) key) eqn:Ec; [done|]. cbn [app]. rewrite map_remove_absent; [done|].
      unfold contains_key in Ec. rewrite matching_keys, (map_get_keys _ (λ x, starts_with x prefix)), Ek.
      by destruct (map_get (view s) key).
    + rewrite map_remove_absent; [done|]. by rewrite matching_keys, (map_get_keys _ (λ x, starts_with x prefix)), Ek.
Qed.

(** The snapshot tracks the store.  A snapshot seeded from the store and
    fed the events of everything written since, in order, is exactly what the
    store holds under the prefix: no key missing, none left over, each with
    its value and the revision that wrote it. *)
Theorem snapshot_tracks_store at_page prefix evs s' :
  listable prefix →
  (∀ i, kv_wf (at_page i) ∧ serving (at_page i) ∧ revision (at_page 0%nat) ≤ revision (at_page i) ∧
        snapshot (at_page i) (revision (at_page 0%nat)) = Some (view (at_page 0%nat))) →
  emits prefix (at_page 0%nat) evs s' →
  ∃ fuel m, seed_snapshot fuel at_page 0 prefix None 0 [] = Some (Ok (m, revision (at_page 0%nat))) ∧
    replay m evs = matching (view s') prefix None.
Proof.
  intros Hp Hst He. destruct (Hst 0%nat) as (Hwf & Hs & _). eexists _, _. split; [by apply seed_all|].
  by apply replay_emits.
Qed.

(** A page of the snapshot is the page the store would answer. *)
Lemma snapshot_page c prefix limit token :
  keys_sorted (snap c) = true → honest prefix token →
  let page := page_of_snapshot c prefix limit token in
  let want := page_of (snap c) (snapshot_rev c) prefix limit token in
  cp_items page = (λ x, (x.1.2, x.2)) <$> lr_items want ∧ cp_continue_key page = lr_continue_token want ∧
  cp_revision page = lr_revision want ∧
  cp_remaining page = match lr_remaining want with Some n => if 0 <? n then Some n else None | None => None end.
Proof.
  intros Hm Ht. unfold page_of_snapshot. rewrite page_range by done. unfold page_of, page_of_range.
  cbn. split_and!; [|done|done|done].
  unfold to_items. rewrite <- list_fmap_compose. apply list_fmap_ext. by intros i [k [v r]].
Qed.

End StoreTheorems.

Section ReadTheorems.
  Context {S : Type} `{HL : KvStoreLaws S} `{JsonCodec}.
  Implicit Types s : S.

Lemma decode_items_keys l :
  decode_items ((λ x : bytes * Z, ("", x.1, x.2)) <$> ((λ x : string * bytes * Z, (x.1.2, x.2)) <$> l)) = decode_items l.
Proof.
  induction l as [|[[k b] r] l IH]; [done|]. cbn. destruct (decode_at b r) as [[v|e]|]; [|done|done].
  cbn. cbn in IH. by rewrite IH.
Qed.

(** C39: A read served by the cache is the read the store would serve, when the
    cache has reached the store and is not torn: its snapshot is what the store
    holds under its prefix, and its revision the store's (a page read while the
    list moves on can break that, see [WatchFanout.torn_page]).  Then the first
    page of a LIST of any prefix inside [cache_prefix], and a GET of any key
    inside it, answer from the cache exactly as from the store: the same
    objects, continue token and revision, or the same error; only
    [remainingItemCount] differs, left out when it is 0. *)
Theorem cached_read_is_store_read s c cache_prefix prefix limit min :
  kv_wf s → serving s → listable prefix → 0 ≤ limit ≤ i64_max →
  starts_with prefix cache_prefix = true →
  snap c = matching (view s) cache_prefix None → snapshot_rev c = revision s →
  list_page_read s (read_page (Ok c) true prefix limit None) prefix limit None (NotOlderThan min) =
    (r ← list_page s prefix limit None;
     Some (match r with
           | Err e => Err e
           | Ok p => Ok {| lp_items := lp_items p; lp_continue_token := lp_continue_token p;
                           lp_revision := lp_revision p;
                           lp_remaining := lp_remaining p ≫= λ n, if 0 <? n then Some n else None |}
           end))
  ∧ ∀ key, starts_with key cache_prefix = true →
      get_read s (read_one (Ok c) true key) key (NotOlderThan min) = get s key.
Proof.
  intros Hwf Hs Hp Hl Hsub Hc Hr. pose proof (view_wf _ Hwf) as (Hm & _). split.
  - assert (keys_sorted (snap c) = true) as Hk by (rewrite Hc; by apply keys_sorted_filter).
    destruct (snapshot_page c prefix limit None Hk I) as (E1 & E2 & E3 & E4).
    unfold list_page_read, read_page. cbn [negb]. rewrite E1, E2, E3, E4, decode_items_keys.
    assert (page_of (snap c) (snapshot_rev c) prefix limit None = page_of (view s) (revision s) prefix limit None) as ->.
    { unfold page_of. by rewrite Hc, Hr, matching_narrow. }
    unfold list_page, list_pinned. rewrite list_now by done. cbn [lr_items lr_continue_token lr_revision lr_remaining page_of].
    by destruct (decode_items _) as [[vs|e]|].
  - intros key Hkey. unfold get_read, read_one. cbn [negb]. unfold get. rewrite get_ok by done.
    rewrite Hc, matching_keys, (map_get_keys _ (λ x, starts_with x cache_prefix)), Hkey.
    by destruct (map_get (view s) key) as [[b r]|].
Qed.

End ReadTheorems.

(** ** Witnesses *)

#[local] Existing Instance Demo.codec.

Lemma demo_pages : ∀ i : nat,
  kv_wf Demo.store1 ∧ serving Demo.store1 ∧ revision Demo.store1 ≤ revision Demo.store1 ∧
  snapshot Demo.store1 (revision Demo.store1) = Some (view Demo.store1).
Proof. intros _. split; [exact Demo.wf1|]. split; [reflexivity|]. split; [lia|reflexivity]. Qed.

(** The pod written after the seed arrives as one event. *)
Lemma snapshot_tracks_store_witness :
  ∃ fuel m, seed_snapshot fuel (λ _, Demo.store1) 0 "/registry/pods/" None 0 [] = Some (Ok (m, 1)) ∧
    List.length (replay m [Added Demo.key2 "x" 2]) = 2%nat.
Proof.
  destruct (snapshot_tracks_store (λ _, Demo.store1) "/registry/pods/" ([Added Demo.key2 "x" 2] ++ [])
              (MemStore.put Demo.store1 Demo.key2 "x" None).1) as (fuel & m & H1 & H2).
  - by split.
  - exact demo_pages.
  - refine (emits_put "/registry/pods/" Demo.store1 Demo.key2 "x" None _ 2 None [] _ _ I _ (emits_nil _ _));
      reflexivity.
  - exists fuel, m. split; [exact H1|]. cbn [app] in H2. by rewrite H2.
Defined.

Lemma cached_read_is_store_read_witness :
  ∃ c, get_read Demo.store2 (read_one (Ok c) true Demo.key1) Demo.key1 (NotOlderThan 0) = get Demo.store2 Demo.key1.
Proof.
  exists (mkCache 1 [] 1 2 (matching (view Demo.store2) "/registry/pods/" None) 2 false).
  eapply (cached_read_is_store_read Demo.store2 _ "/registry/pods/" "/registry/pods/" 1 0);
    [exact Demo.wf2|reflexivity|by split|split; [lia|done]|reflexivity|reflexivity|reflexivity|reflexivity].
Defined.
