(* ===== verification/WatchFanout.v ===== *)
(** * The watch cache's fan-out, interleaved ([pkg/apiserver/src/watch_cache.rs])

    The tasks of one prefix: the pump, the freshness task and the watchers, a
    step for each access one of them makes to what they share.  The pump's
    program counter is [Pump], the freshness task's [Fresh], a watcher's
    [Watcher].  [sent] is everything ever put on the broadcast channel and
    [ringed] everything ever pushed on the ring; both only record, no task
    reads them except through the channel and the ring.

    The store's side is [history], the events of the prefix in the order the
    store made them, revisions never decreasing; the pump's stream is what is
    after the revision it was seeded at. *)

From Stdlib Require Import ZArith Lia String Ascii Sorted.
From stdpp Require Import base gmap strings numbers option list sorting.
From S2P Require Import Prelude Text BTree Store WatchCache.
Open Scope string_scope.
Open Scope kube_scope.
Open Scope Z_scope.

Definition is_error (e : WatchEvent) : bool := match e with WatchError _ _ _ => true | _ => false end.

(** ** Tasks *)

Inductive Pump :=
| Receive                                   (* stream.recv().await *)
| Apply (seq : Z) (ev : WatchEvent)         (* take the snapshot lock and apply *)
| StoreRev (seq : Z) (ev : WatchEvent)      (* snapshot_rev.store *)
| PushRing (seq : Z) (ev : WatchEvent)      (* take the ring lock and push *)
| Broadcast (seq : Z) (ev : WatchEvent)     (* tx.send *)
| SendError (seq : Z) (ev : WatchEvent)     (* tx.send of a stream error, then break *)
| Terminate                                 (* terminated.store(true) *)
| FetchEnd                                  (* next_seq.fetch_add of the closing error *)
| SendEnd (seq : Z)                         (* tx.send of the closing error *)
| PumpDone.

Inductive Fresh :=
| Watching                                  (* ticks, and re-seeds that found nothing new *)
| FreshRev (rev : Z) (changed : bool)       (* snapshot_rev.store *)
| FreshTerminate (rev : Z)
| FreshFetch (rev : Z)
| FreshSend (seq : Z) (rev : Z)
| FreshAbort                                (* abort_pump.abort() *)
| FreshDone.

(** A call of [watch] and the task it spawns.  [start] is the revision asked
    for; [pos] the next message of the channel; [delivered] what the client
    was sent. *)
Inductive Watcher :=
| WStart (start : Z)
| WResolved (start : Z)
| WSubscribed (start : Z) (pos : nat)
| WRead (start : Z) (pos : nat) (ring_gap : bool) (backlog : Ring)
| WFallback (start : Z)
| WStream (start : Z) (last_seq : Z) (pos : nat) (backlog : Ring) (delivered : list WatchEvent)
| WEnded (start : Z) (delivered : list WatchEvent).

Record System := mkSys {
  cache : PrefixCache;
  pump : Pump;
  fresh : Fresh;
  sent : Ring;
  ringed : Ring;
  received : nat;
  watchers : gmap nat Watcher }.

(** *** The watcher's decisions *)

Definition ring_gap (ring : Ring) (start_rev : Z) : bool :=
  match ring with
  | (seq, event) :: _ => (1 <? seq) && (start_rev <? event_revision event)
  | [] => false
  end.

Definition newer (start_rev : Z) (x : Z * WatchEvent) : bool := start_rev <? event_revision x.2.

Definition backlog_of (ring : Ring) (start_rev : Z) : Ring := List.filter (newer start_rev) ring.

(** Whether the cache cannot serve the watch and a store watch is opened. *)
Definition falls_back (c : PrefixCache) (start_rev : Z) (gap : bool) : bool :=
  terminated c || (start_rev <? pump_start_rev c) || gap.

Definition resolve (c : PrefixCache) (start_rev : Z) : Z :=
  if start_rev =? 0 then snapshot_rev c else start_rev.

(** What a broadcast message is to a watcher: the end, one to send, one to skip. *)
Definition takes (start_rev last_seq : Z) (x : Z * WatchEvent) : bool :=
  (last_seq <? x.1) && newer start_rev x.

Definition lagged (pos : nat) (log : Ring) : bool := Nat.ltb (pos + BROADCAST_CAPACITY) (List.length log).

(** *** Updates of the shared cache *)

Definition with_snap (c : PrefixCache) (m : Snapshot) : PrefixCache :=
  mkCache (generation c) (ring c) (next_seq c) (pump_start_rev c) m (snapshot_rev c) (terminated c).
Definition with_rev (c : PrefixCache) (r : Z) : PrefixCache :=
  mkCache (generation c) (ring c) (next_seq c) (pump_start_rev c) (snap c) r (terminated c).
Definition with_ring (c : PrefixCache) (q : Ring) : PrefixCache :=
  mkCache (generation c) q (next_seq c) (pump_start_rev c) (snap c) (snapshot_rev c) (terminated c).
Definition with_terminated (c : PrefixCache) : PrefixCache :=
  mkCache (generation c) (ring c) (next_seq c) (pump_start_rev c) (snap c) (snapshot_rev c) true.
(** [next_seq.fetch_add(1)]. *)
Definition fetch_seq (c : PrefixCache) : PrefixCache :=
  mkCache (generation c) (ring c) (next_seq c + 1) (pump_start_rev c) (snap c) (snapshot_rev c) (terminated c).

Definition set_cache (s : System) (c : PrefixCache) : System :=
  mkSys c (pump s) (fresh s) (sent s) (ringed s) (received s) (watchers s).
Definition set_pump (s : System) (p : Pump) : System :=
  mkSys (cache s) p (fresh s) (sent s) (ringed s) (received s) (watchers s).
Definition set_fresh (s : System) (f : Fresh) : System :=
  mkSys (cache s) (pump s) f (sent s) (ringed s) (received s) (watchers s).
Definition send (s : System) (x : Z * WatchEvent) : System :=
  mkSys (cache s) (pump s) (fresh s) (sent s ++ [x]) (ringed s) (received s) (watchers s).
Definition push (s : System) (x : Z * WatchEvent) : System :=
  mkSys (with_ring (cache s) (ring_push (ring (cache s)) x)) (pump s) (fresh s) (sent s) (ringed s ++ [x])
        (received s) (watchers s).
Definition set_watcher (s : System) (i : nat) (w : Watcher) : System :=
  mkSys (cache s) (pump s) (fresh s) (sent s) (ringed s) (received s) (<[i := w]> (watchers s)).
Definition take_event (s : System) : System :=
  mkSys (cache s) (pump s) (fresh s) (sent s) (ringed s) (Datatypes.S (received s)) (watchers s).

Definition disconnected (rev : Z) : WatchEvent := WatchError 503 "datastore watch disconnected" rev.
Definition resynchronized (rev : Z) : WatchEvent :=
  WatchError 410 "watch cache resynchronized after missed events" rev.
Definition fell_behind (rev : Z) : WatchEvent := WatchError 410 "watch consumer fell behind retained history" rev.

(** A fresh prefix: [ensure], seeded at [start_rev] with [m]. *)
Definition opened (gen : Z) (m : Snapshot) (start_rev : Z) : System :=
  mkSys (mkCache gen [] 1 start_rev m start_rev false) Receive Watching [] [] 0 ∅.

(** ** Steps *)

Section Steps.
  Variable history : list WatchEvent.

(** The pump's stream: [store.watch(prefix, start_rev + 1)]. *)
Definition upstream (start_rev : Z) : list WatchEvent :=
  List.filter (λ e, start_rev <? event_revision e) history.

Inductive pump_step (s : System) : System → Prop :=
| pump_receive ev :
    pump s = Receive → upstream (pump_start_rev (cache s)) !! received s = Some ev →
    pump_step s (take_event (set_pump (set_cache s (fetch_seq (cache s))) (Apply (next_seq (cache s)) ev)))
| pump_stream_error ev :
    pump s = Receive → is_error ev = true →
    pump_step s (set_pump (set_cache s (fetch_seq (cache s))) (SendError (next_seq (cache s)) ev))
| pump_stream_end : pump s = Receive → pump_step s (set_pump s Terminate)
| pump_apply seq ev :
    pump s = Apply seq ev →
    pump_step s (set_pump (set_cache s (with_snap (cache s) (apply_event (snap (cache s)) ev).1))
                          (StoreRev seq (apply_event (snap (cache s)) ev).2))
| pump_store_rev seq ev :
    pump s = StoreRev seq ev →
    pump_step s (set_pump (set_cache s (with_rev (cache s) (event_revision ev))) (PushRing seq ev))
| pump_push seq ev : pump s = PushRing seq ev → pump_step s (set_pump (push s (seq, ev)) (Broadcast seq ev))
| pump_broadcast seq ev : pump s = Broadcast seq ev → pump_step s (set_pump (send s (seq, ev)) Receive)
| pump_send_error seq ev : pump s = SendError seq ev → pump_step s (set_pump (send s (seq, ev)) Terminate)
| pump_terminate : pump s = Terminate → pump_step s (set_pump (set_cache s (with_terminated (cache s))) FetchEnd)
| pump_fetch_end :
    pump s = FetchEnd →
    pump_step s (set_pump (set_cache s (fetch_seq (cache s))) (SendEnd (next_seq (cache s))))
| pump_send_end seq :
    pump s = SendEnd seq → pump_step s (set_pump (send s (seq, disconnected (snapshot_rev (cache s)))) PumpDone).

(** The freshness task; what a re-seed reads is any snapshot and revision. *)
Inductive fresh_step (s : System) : System → Prop :=
| fresh_reseed m rev changed :
    fresh s = Watching → changed = bool_decide (snap (cache s) ≠ m) →
    fresh_step s (set_fresh (set_cache s (with_snap (cache s) m)) (FreshRev rev changed))
| fresh_rev rev changed :
    fresh s = FreshRev rev changed →
    fresh_step s (set_fresh (set_cache s (with_rev (cache s) rev)) (if changed then FreshTerminate rev else Watching))
| fresh_terminate rev :
    fresh s = FreshTerminate rev →
    fresh_step s (set_fresh (set_cache s (with_terminated (cache s))) (FreshFetch rev))
| fresh_fetch rev :
    fresh s = FreshFetch rev →
    fresh_step s (set_fresh (set_cache s (fetch_seq (cache s))) (FreshSend (next_seq (cache s)) rev))
| fresh_send seq rev :
    fresh s = FreshSend seq rev →
    fresh_step s (set_fresh (send s (seq, resynchronized rev)) FreshAbort)
| fresh_abort :
    fresh s = FreshAbort →
    fresh_step s (set_fresh (match pump s with Receive => set_pump s PumpDone | _ => s end) FreshDone)
| fresh_abort_later :     (* a pump aborted in the middle of an event stops at its next await *)
    fresh s = FreshDone → pump s = Receive → fresh_step s (set_pump s PumpDone)
| fresh_stop : fresh s = Watching → terminated (cache s) = true → fresh_step s (set_fresh s FreshDone).

Inductive watch_step (s : System) (i : nat) : System → Prop :=
| watch_call start : watchers s !! i = None → watch_step s i (set_watcher s i (WStart start))
| watch_resolve start :
    watchers s !! i = Some (WStart start) →
    watch_step s i (set_watcher s i (WResolved (resolve (cache s) start)))
| watch_subscribe start :
    watchers s !! i = Some (WResolved start) →
    watch_step s i (set_watcher s i (WSubscribed start (List.length (sent s))))
| watch_read_ring start pos :
    watchers s !! i = Some (WSubscribed start pos) →
    watch_step s i (set_watcher s i (WRead start pos (ring_gap (ring (cache s)) start)
                                                     (backlog_of (ring (cache s)) start)))
| watch_decide start pos gap backlog :
    watchers s !! i = Some (WRead start pos gap backlog) →
    watch_step s i (set_watcher s i (if falls_back (cache s) start gap then WFallback start
                                     else WStream start 0 pos backlog []))
| watch_backlog start last_seq pos seq ev backlog delivered :
    watchers s !! i = Some (WStream start last_seq pos ((seq, ev) :: backlog) delivered) →
    watch_step s i (set_watcher s i (WStream start seq pos backlog (delivered ++ [ev])))
| watch_message start last_seq pos delivered x :
    watchers s !! i = Some (WStream start last_seq pos [] delivered) →
    lagged pos (sent s) = false → sent s !! pos = Some x →
    watch_step s i (set_watcher s i
      (if is_error x.2 then WEnded start (delivered ++ [x.2])
       else if takes start last_seq x
       then WStream start last_seq (Datatypes.S pos) [] (delivered ++ [x.2])
       else WStream start last_seq (Datatypes.S pos) [] delivered))
| watch_lagged start last_seq pos delivered :
    watchers s !! i = Some (WStream start last_seq pos [] delivered) → lagged pos (sent s) = true →
    watch_step s i (set_watcher s i (WEnded start (delivered ++ [fell_behind start])))
| watch_closed start last_seq pos backlog delivered :
    watchers s !! i = Some (WStream start last_seq pos backlog delivered) →
    watch_step s i (set_watcher s i (WEnded start delivered)).

Inductive step (s s' : System) : Prop :=
| step_pump : pump_step s s' → step s s'
| step_fresh : fresh_step s s' → step s s'
| step_watch i : watch_step s i s' → step s s'.

Definition reachable (s : System) : Prop := ∃ gen m r, rtc step (opened gen m r) s.

End Steps.

(** ** The invariant *)

(** An event without the previous value the pump adds. *)
Definition erase (e : WatchEvent) : WatchEvent :=
  match e with
  | Modified k v r _ => Modified k v r None
  | Deleted k r _ => Deleted k r None
  | _ => e
  end.

Definition data (log : Ring) : Ring := List.filter (λ x, negb (is_error x.2)) log.

(** The event the pump holds: received, not yet pushed. *)
Definition in_flight (p : Pump) : Ring :=
  match p with Apply seq ev | StoreRev seq ev | PushRing seq ev => [(seq, ev)] | _ => [] end.
(** The event the pump holds: pushed, not yet broadcast. *)
Definition unsent (p : Pump) : Ring := match p with Broadcast seq ev => [(seq, ev)] | _ => [] end.

(** An error the pump or the freshness task is about to send. *)
Definition sends_error (p : Pump) : Prop := match p with SendError _ ev => is_error ev = true | _ => True end.

Definition rev_le (x y : WatchEvent) : Prop := event_revision x ≤ event_revision y.

Lemma erase_revision e : event_revision (erase e) = event_revision e.
Proof. by destruct e. Qed.
Lemma erase_apply m e : erase (apply_event m e).2 = erase e.
Proof. by destruct e. Qed.
Lemma is_error_erase e : is_error (erase e) = is_error e.
Proof. by destruct e. Qed.

Lemma data_app a b : data (a ++ b) = (data a ++ data b)%list.
Proof. unfold data. apply List.filter_app. Qed.

Section Invariant.
  Variable history : list WatchEvent.
  Hypothesis ordered : StronglySorted rev_le history.
  Hypothesis no_errors : Forall (λ e, is_error e = false) history.

Record cache_inv (s : System) : Prop := {
  ci_events : erase <$> (ringed s ++ in_flight (pump s))%list.*2
              = erase <$> take (received s) (upstream history (pump_start_rev (cache s)));
  ci_received : (received s ≤ List.length (upstream history (pump_start_rev (cache s))))%nat;
  ci_seqs : StronglySorted Z.lt (ringed s ++ in_flight (pump s))%list.*1;
  ci_range : Forall (λ q, 1 ≤ q < next_seq (cache s)) (ringed s ++ in_flight (pump s))%list.*1;
  ci_next : 1 ≤ next_seq (cache s);
  ci_ring : ring (cache s) = drop (List.length (ringed s) - RING_CAPACITY) (ringed s);
  ci_sent : (data (sent s) ++ unsent (pump s))%list = ringed s;
  ci_error : sends_error (pump s) }.

(** What a watcher from [start] should have been sent of the first [n] events. *)
Definition due (s : System) (start : Z) (n : nat) : Ring := List.filter (newer start) (take n (ringed s)).

Definition final_seq (q : Z) (b : Ring) : Z := match list.last b with Some x => x.1 | None => q end.

Definition watch_inv (s : System) (w : Watcher) : Prop :=
  match w with
  | WStart _ | WResolved _ | WFallback _ => True
  | WSubscribed _ pos => (pos ≤ List.length (sent s))%nat
  | WRead start pos gap backlog =>
      (pos ≤ List.length (sent s))%nat ∧
      ∃ n, (List.length (data (take pos (sent s))) ≤ n ≤ List.length (ringed s))%nat ∧
        (gap = false → backlog = due s start n)
  | WStream start q pos backlog delivered =>
      (pos ≤ List.length (sent s))%nat ∧ pump_start_rev (cache s) ≤ start ∧
      ∃ n, (n ≤ List.length (ringed s))%nat ∧ final_seq q backlog = final_seq 0 (due s start n) ∧
        (delivered ++ backlog.*2)%list = (due s start (n `max` List.length (data (take pos (sent s))))).*2
  | WEnded start delivered =>
      pump_start_rev (cache s) ≤ start ∧
      ∃ n, (n ≤ List.length (ringed s))%nat ∧
        List.filter (λ e, negb (is_error e)) delivered `prefix_of` (due s start n).*2
  end.

Definition inv (s : System) : Prop := cache_inv s ∧ ∀ i w, watchers s !! i = Some w → watch_inv s w.

(** *** Facts of the cache invariant *)

Lemma ringed_no_error s x : cache_inv s → x ∈ ringed s → is_error x.2 = false.
Proof.
  intros H Hx. assert (erase x.2 ∈ erase <$> (ringed s ++ in_flight (pump s))%list.*2) as Hin.
  { apply list_elem_of_fmap_2, list_elem_of_fmap_2, elem_of_app. by left. }
  rewrite (ci_events s H) in Hin. apply list_elem_of_fmap in Hin as (e & He & Hin).
  assert (e ∈ history) as Hh.
  { apply elem_of_take in Hin as (j & Hj & _). apply list_elem_of_lookup_2 in Hj.
    unfold upstream in Hj. by apply elem_of_filter_b in Hj as [? _]. }
  rewrite Forall_forall in no_errors. rewrite <- is_error_erase, He, is_error_erase. by apply no_errors.
Qed.

Lemma data_sent_le s pos : cache_inv s → (List.length (data (take pos (sent s))) ≤ List.length (ringed s))%nat.
Proof.
  intros H. rewrite <- (ci_sent s H). rewrite <- (take_drop pos (sent s)) at 2.
  rewrite data_app, !length_app. lia.
Qed.

(** The events already broadcast, up to [pos], are the first ones pushed. *)
Lemma data_sent_prefix s pos : cache_inv s → data (take pos (sent s)) `prefix_of` ringed s.
Proof.
  intros H. rewrite <- (ci_sent s H). rewrite <- (take_drop pos (sent s)) at 2. rewrite data_app, <- app_assoc.
  by eexists.
Qed.

Lemma ring_push_last (l : Ring) x :
  ring_push (drop (List.length l - RING_CAPACITY) l) x =
  drop (List.length (l ++ [x])%list - RING_CAPACITY) (l ++ [x])%list.
Proof.
  unfold ring_push. rewrite length_drop, length_app. cbn [List.length].
  destruct (decide (RING_CAPACITY ≤ List.length l)%nat) as [Hle|Hgt].
  - replace (List.length l - (List.length l - RING_CAPACITY))%nat with RING_CAPACITY by lia.
    rewrite Nat.eqb_refl. replace (List.length l + 1 - RING_CAPACITY)%nat with (Datatypes.S (List.length l - RING_CAPACITY)) by lia.
    rewrite drop_app_le by (unfold RING_CAPACITY in *; lia). f_equal.
    rewrite <- Nat.add_1_r, <- drop_drop. by destruct (drop _ l).
  - replace (List.length l - RING_CAPACITY)%nat with 0%nat by lia.
    replace (List.length l + 1 - RING_CAPACITY)%nat with 0%nat by lia. cbn [drop].
    replace (Nat.eqb _ _) with false; [done|]. symmetry. apply Nat.eqb_neq. lia.
Qed.

(** *** Steps of the pump and of the freshness task *)

(** What the others may do: history only grows. *)
Definition grows (s s' : System) : Prop :=
  ringed s `prefix_of` ringed s' ∧ sent s `prefix_of` sent s' ∧
  pump_start_rev (cache s') = pump_start_rev (cache s) ∧ watchers s' = watchers s.

Lemma seqs_snoc (l : list Z) n :
  StronglySorted Z.lt l → Forall (λ q, 1 ≤ q < n) l → StronglySorted Z.lt (l ++ [n])%list.
Proof.
  induction 1 as [|x l Hl IH Hx]; intros Hf; [by repeat constructor|]. inversion Hf; subst. simpl.
  constructor; [by apply IH|]. apply Forall_app. split; [done|]. repeat constructor. lia.
Qed.

Lemma range_widen (l : list Z) n : Forall (λ q, 1 ≤ q < n) l → Forall (λ q, 1 ≤ q < n + 1) l.
Proof. intros H. eapply Forall_impl; [exact H|]. intros x Hx. simpl in Hx |- *. lia. Qed.

Ltac cache_case :=
  match goal with
  | H : cache_inv ?s, E : pump ?s = _ |- _ =>
      destruct H as [He Hr Hs Hf Hn Hg Ht Hx]; rewrite E in *; cbn [in_flight unsent sends_error] in *;
      rewrite ?app_nil_r in *
  end.

Lemma pump_step_inv s s' : cache_inv s → pump_step history s s' → cache_inv s' ∧ grows s s'.
Proof.
  intros H Hstep. pose proof (ringed_no_error s) as Hne. specialize (λ x, Hne x H).
  destruct Hstep as [ev E Hu|ev E Herr|E|seq ev E|seq ev E|seq ev E|seq ev E|seq ev E|E|E|seq E]; cache_case;
    (split; [constructor; cbn; rewrite ?app_nil_r; try done; try (by apply range_widen); try lia|
             split_and!; cbn; try done; by eexists]).
  - rewrite fmap_app, fmap_app, He. erewrite (take_S_r _ (received s)) by exact Hu. by rewrite fmap_app.
  - apply lookup_lt_Some in Hu. lia.
  - rewrite fmap_app. by apply seqs_snoc.
  - rewrite fmap_app. apply Forall_app. split; [by apply range_widen|]. repeat constructor; simpl; lia.
  - rewrite <- He, !fmap_app. f_equal. cbn. by rewrite erase_apply.
  - by rewrite !fmap_app in *.
  - by rewrite !fmap_app in *.
  - rewrite Hg. apply ring_push_last.
  - fold (data (sent s)). by rewrite Ht.
  - fold (data (sent s ++ [(seq, ev)])%list). rewrite data_app. cbn [data List.filter snd].
    assert (is_error ev = false) as Hev; [apply (Hne (seq, ev))|by rewrite Hev]. rewrite <- Ht. apply elem_of_app. right. by left.
  - fold (data (sent s ++ [(seq, ev)])%list). rewrite data_app. cbn [data List.filter snd].
    by rewrite Hx, app_nil_r.
  - fold (data (sent s ++ [(seq, disconnected (snapshot_rev (cache s)))])%list). rewrite data_app.
    by rewrite app_nil_r.
Qed.

Lemma fresh_step_inv s s' : cache_inv s → fresh_step s s' → cache_inv s' ∧ grows s s'.
Proof.
  intros H Hstep. destruct H as [He Hr Hs Hf Hn Hg Ht Hx].
  destruct Hstep as [m rev changed E Hc|rev changed E|rev E|rev E|seq rev E|E|E Ep|E Et].
  all: try (split; [by constructor|split_and!; by cbn]).
  - split; [constructor; cbn; try done; [by apply range_widen|lia]|split_and!; by cbn].
  - split; [constructor; cbn; try done|split_and!; cbn; try done; by eexists].
    fold (data (sent s ++ [(seq, resynchronized rev)])%list). rewrite data_app, app_nil_r. done.
  - destruct (pump s) eqn:Ep; (split; [constructor; cbn; rewrite ?Ep; try done|split_and!; by cbn]).
  - rewrite Ep in *. split; [constructor; cbn; done|split_and!; by cbn].
Qed.

(** *** Steps of the watchers *)

Lemma due_grows s s' start n :
  ringed s `prefix_of` ringed s' → (n ≤ List.length (ringed s))%nat → due s' start n = due s start n.
Proof. intros [l Hl] Hn. unfold due. by rewrite Hl, take_app_le. Qed.

Lemma take_grows {A} (l l' : list A) n : l `prefix_of` l' → (n ≤ List.length l)%nat → take n l' = take n l.
Proof. intros [k ->] Hn. by rewrite take_app_le. Qed.

Lemma watch_inv_grows s s' w : cache_inv s → grows s s' → watch_inv s w → watch_inv s' w.
Proof.
  intros H (Hr & Hs & Hp & _). pose proof (prefix_length _ _ Hr). pose proof (prefix_length _ _ Hs).
  destruct w as [?|?|st pos|st pos gap b|?|st q pos b d|st d]; simpl; try done.
  - lia.
  - intros (Hpos & n & Hn & Hb). split; [lia|]. exists n. rewrite (take_grows _ _ _ Hs Hpos). split; [lia|].
    intros Hgap. rewrite (due_grows s s') by (done || lia). by apply Hb.
  - intros (Hpos & Hst & n & Hn & Hq & Hd). rewrite Hp. split_and!; [lia|done|]. exists n.
    pose proof (data_sent_le s pos H). rewrite (take_grows _ _ _ Hs Hpos).
    rewrite !(due_grows s s') by (done || lia). split_and!; [lia|done|done].
  - intros (Hst & n & Hn & Hd). rewrite Hp. split; [done|]. exists n. rewrite (due_grows s s') by (done || lia).
    split; [lia|done].
Qed.

Lemma revs_erase (l : list WatchEvent) : event_revision <$> (erase <$> l) = event_revision <$> l.
Proof. rewrite <- list_fmap_compose. apply list_fmap_ext. intros i e _. apply erase_revision. Qed.

Lemma sorted_filter (f : WatchEvent → bool) l : StronglySorted rev_le l → StronglySorted rev_le (List.filter f l).
Proof.
  induction 1 as [|e l Hl IH He]; simpl; [constructor|]. destruct (f e); [|done]. constructor; [done|].
  rewrite Forall_forall in *. intros x [Hx _]%elem_of_filter_b. by apply He.
Qed.

Lemma ringed_revs s : cache_inv s → StronglySorted Z.le (event_revision <$> (ringed s).*2).
Proof.
  intros H. apply (StronglySorted_app_1_l _ _ (event_revision <$> (in_flight (pump s)).*2)).
  rewrite <- !fmap_app, <- revs_erase, (ci_events s H), revs_erase.
  apply (StronglySorted_fmap _ rev_le); [done|].
  apply (StronglySorted_app_1_l _ _ (drop (received s) (upstream history (pump_start_rev (cache s))))).
  rewrite take_drop. by apply sorted_filter.
Qed.

(** A ring without a gap holds every newer event ever pushed: an evicted one
    is no newer than the front, and the front is not newer than the start. *)
Lemma ring_no_gap s start :
  cache_inv s → ring_gap (ring (cache s)) start = false →
  backlog_of (ring (cache s)) start = due s start (List.length (ringed s)).
Proof.
  intros H Hgap. unfold due, backlog_of. rewrite (ci_ring s H) in Hgap |- *. rewrite firstn_all.
  set (d := (List.length (ringed s) - RING_CAPACITY)%nat) in *.
  rewrite <- (take_drop d (ringed s)) at 2. rewrite List.filter_app.
  enough (List.filter (newer start) (take d (ringed s)) = []) as -> by done.
  destruct (drop d (ringed s)) as [|[seq e] rest] eqn:Ed.
  { assert (d = 0)%nat as ->; [|done]. apply (f_equal List.length) in Ed. rewrite length_drop in Ed. simpl in Ed.
    unfold d, RING_CAPACITY in *. lia. }
  pose proof (take_drop d (ringed s)) as Hsplit. rewrite Ed in Hsplit.
  pose proof (ringed_revs s H) as Hrev. pose proof (ci_seqs s H) as Hseq. pose proof (ci_range s H) as Hrange.
  rewrite <- Hsplit in Hrev, Hseq, Hrange. rewrite !fmap_app in Hrev. rewrite !fmap_app in Hseq. rewrite !fmap_app in Hrange.
  apply StronglySorted_app_1_l in Hseq. apply Forall_app in Hrange as [Hrange _]. apply Forall_app in Hrange as [Hrange _].
  destruct (List.filter (newer start) (take d (ringed s))) as [|y ys] eqn:Ef; [done|].
  assert (y ∈ take d (ringed s) ∧ newer start y = true) as [Hy Hny].
  { apply elem_of_filter_b. rewrite Ef. by left. }
  assert (y.1 ∈ (take d (ringed s)).*1) as Hy1 by (by apply list_elem_of_fmap_2).
  assert (y.1 < seq) as Hlt by (eapply (StronglySorted_app_1_elem_of _ _ _ _ _ Hseq); [done|by left]).
  assert (event_revision y.2 ≤ event_revision e) as Hle.
  { eapply (StronglySorted_app_1_elem_of _ _ _ _ _ Hrev); [by do 2 apply list_elem_of_fmap_2|by left]. }
  rewrite Forall_forall in Hrange. apply Hrange in Hy1. exfalso. simpl in Hgap. unfold newer in Hny.
  apply andb_false_iff in Hgap as [Hg|Hg]; [apply Z.ltb_ge in Hg; lia|].
  apply Z.ltb_ge in Hg. apply Z.ltb_lt in Hny. lia.
Qed.

(** The message at [pos] is the next event after those already broadcast. *)
Lemma next_message s pos x :
  cache_inv s → sent s !! pos = Some x → is_error x.2 = false →
  ringed s !! List.length (data (take pos (sent s))) = Some x ∧
  data (take (Datatypes.S pos) (sent s)) = (data (take pos (sent s)) ++ [x])%list.
Proof.
  intros H Hx Hne. assert (data (take (Datatypes.S pos) (sent s)) = data (take pos (sent s)) ++ [x])%list as E.
  { rewrite (take_S_r _ _ _ Hx), data_app. unfold data at 2. simpl. by rewrite Hne. }
  split; [|done]. destruct (data_sent_prefix s (Datatypes.S pos) H) as [l Hl]. rewrite E in Hl. rewrite Hl.
  rewrite <- app_assoc, lookup_app_r by lia. by rewrite Nat.sub_diag.
Qed.

Lemma final_seq_bound s start n x :
  cache_inv s → x ∈ due s start n → x.1 ≤ final_seq 0 (due s start n).
Proof.
  intros H Hx. unfold final_seq. destruct (list.last (due s start n)) as [y|] eqn:El.
  2:{ apply last_None in El. rewrite El in Hx. by apply not_elem_of_nil in Hx. }
  apply last_Some in El as [l El].
  assert (StronglySorted Z.lt (due s start n).*1) as Hs.
  { pose proof (ci_seqs s H) as Hs. rewrite fmap_app in Hs. apply StronglySorted_app_1_l in Hs.
    rewrite <- (take_drop n (ringed s)), fmap_app in Hs. apply StronglySorted_app_1_l in Hs. unfold due.
    revert Hs. generalize (take n (ringed s)). clear. intros l. induction l as [|z l IH]; simpl; [done|].
    intros [Hl Hz]%StronglySorted_inv. destruct (newer start z); [|by apply IH]. simpl. constructor; [by apply IH|].
    rewrite Forall_forall in *. intros q (w & -> & Hw)%list_elem_of_fmap. apply Hz.
    apply elem_of_filter_b in Hw as [? _]. by apply list_elem_of_fmap_2. }
  rewrite El in Hx, Hs. apply elem_of_app in Hx as [Hx|Hx].
  - rewrite fmap_app in Hs. apply Z.lt_le_incl.
    eapply (StronglySorted_app_1_elem_of _ _ _ _ _ Hs); [by apply list_elem_of_fmap_2|by left].
  - apply list_elem_of_singleton in Hx as ->. lia.
Qed.

Lemma final_seq_later s start n k x :
  cache_inv s → (n ≤ k)%nat → ringed s !! k = Some x → final_seq 0 (due s start n) < x.1.
Proof.
  intros H Hnk Hx. pose proof (ci_seqs s H) as Hs. pose proof (ci_range s H) as Hr.
  rewrite fmap_app in Hs. rewrite fmap_app in Hr. apply StronglySorted_app_1_l in Hs. apply Forall_app in Hr as [Hr _].
  unfold final_seq. destruct (list.last (due s start n)) as [y|] eqn:El.
  - assert (y ∈ take n (ringed s)) as Hy.
    { apply last_Some_elem_of in El. unfold due in El. by apply elem_of_filter_b in El as [? _]. }
    rewrite <- (take_drop n (ringed s)), fmap_app in Hs.
    eapply (StronglySorted_app_1_elem_of _ _ _ _ _ Hs); [by apply list_elem_of_fmap_2|].
    apply list_elem_of_fmap_2. apply (list_elem_of_lookup_2 _ (k - n)). rewrite lookup_drop.
    by replace (n + (k - n))%nat with k by lia.
  - rewrite Forall_forall in Hr. assert (1 ≤ x.1); [|lia]. apply Hr. apply list_elem_of_fmap_2.
    by eapply list_elem_of_lookup_2.
Qed.

Lemma due_S s start k x :
  ringed s !! k = Some x →
  due s start (Datatypes.S k) = (due s start k ++ if newer start x then [x] else [])%list.
Proof. intros Hx. unfold due. by rewrite (take_S_r _ _ _ Hx), List.filter_app. Qed.

Lemma due_prefix s start n m : (n ≤ m)%nat → due s start n `prefix_of` due s start m.
Proof.
  intros Hnm. unfold due. rewrite <- (take_drop n (take m (ringed s))), take_take, Nat.min_l by done.
  rewrite List.filter_app. by eexists.
Qed.

(** A live message keeps the watcher's account exact. *)
Lemma message_inv s start q pos d x :
  cache_inv s → watch_inv s (WStream start q pos [] d) → sent s !! pos = Some x → is_error x.2 = false →
  watch_inv s (WStream start q (Datatypes.S pos) [] (if takes start q x then d ++ [x.2] else d)).
Proof.
  intros H (Hpos & Hst & n & Hn & Hq & Hd) Hx Hne. destruct (next_message s pos x H Hx Hne) as [Hk E].
  split_and!; [by apply lookup_lt_Some in Hx|done|]. exists n. split_and!; [done|done|].
  rewrite E, length_app. cbn [List.length]. rewrite app_nil_r in Hd |- *. cbn [fmap list_fmap] in *.
  set (k := List.length (data (take pos (sent s)))) in *. rewrite Nat.add_1_r. cbn in Hq.
  unfold takes. destruct (decide (n ≤ k)%nat) as [Hnk|Hkn].
  - rewrite Nat.max_r in Hd |- * by lia. rewrite (due_S _ _ _ _ Hk), fmap_app, <- Hd.
    pose proof (final_seq_later s start n k x H Hnk Hk) as Hlt. rewrite <- Hq in Hlt.
    apply Z.ltb_lt in Hlt. rewrite Hlt. cbn [andb]. destruct (newer start x); [done|]. by rewrite app_nil_r.
  - rewrite Nat.max_l in Hd |- * by lia. rewrite <- Hd. destruct (newer start x) eqn:En; [|by rewrite andb_false_r].
    replace (q <? x.1) with false; [done|]. symmetry. apply Z.ltb_ge. rewrite Hq.
    apply final_seq_bound; [done|]. unfold due. apply elem_of_filter_b. split; [|done].
    apply (list_elem_of_lookup_2 _ k). rewrite lookup_take by lia. by case_decide; [|lia].
Qed.

Lemma data_events l : Forall (λ e, is_error e = false) l → List.filter (λ e, negb (is_error e)) l = l.
Proof. induction 1 as [|e l He _ IH]; simpl; [done|]. by rewrite He, IH. Qed.

Lemma due_no_error s start n : cache_inv s → Forall (λ e, is_error e = false) (due s start n).*2.
Proof.
  intros H. apply Forall_forall. intros e (x & -> & Hx)%list_elem_of_fmap. apply (ringed_no_error s); [done|].
  unfold due in Hx. apply elem_of_filter_b in Hx as [Hx _]. by eapply (subseteq_take n).
Qed.

(** Ending a watch, with an error or not, leaves its account exact. *)
Lemma end_inv s start q pos b d err :
  cache_inv s → watch_inv s (WStream start q pos b d) → Forall (λ e, is_error e = true) err →
  watch_inv s (WEnded start (d ++ err)).
Proof.
  intros H (Hpos & Hst & n & Hn & Hq & Hd) Herr. split; [done|]. pose proof (data_sent_le s pos H).
  exists (n `max` List.length (data (take pos (sent s))))%nat. split; [lia|]. rewrite <- Hd.
  pose proof (due_no_error s start (n `max` List.length (data (take pos (sent s)))) H) as Hf.
  rewrite <- Hd in Hf. apply Forall_app in Hf as [Hf _]. rewrite List.filter_app, (data_events d) by done.
  replace (List.filter _ err) with (@nil WatchEvent); [rewrite app_nil_r; by eexists|].
  clear -Herr. induction Herr as [|e l He _ IH]; simpl; [done|]. by rewrite He.
Qed.

Lemma watch_step_inv s i s' :
  inv s → watch_step s i s' → ∃ w, s' = set_watcher s i w ∧ watch_inv s w.
Proof.
  intros [H Hw] Hstep.
  destruct Hstep as [start E|start E|start E|start pos E|start pos gap b E|start q pos seq ev b d E
                    |start q pos d x E Hlag Hx|start q pos d E Hlag|start q pos b d E];
    (eexists; split; [reflexivity|]); try (pose proof (Hw _ _ E) as HI); try done.
  - simpl. lia.
  - split; [done|]. exists (List.length (ringed s)). pose proof (data_sent_le s pos H). split; [lia|].
    intros Hgap. by apply ring_no_gap.
  - destruct HI as (Hpos & n & Hn & Hb). unfold falls_back. destruct (terminated (cache s)); [done|].
    destruct (start <? pump_start_rev (cache s)) eqn:Ep; [done|]. destruct gap; [done|]. cbn.
    apply Z.ltb_ge in Ep. specialize (Hb eq_refl) as ->. split_and!; [done|done|]. exists n.
    split_and!; [lia|done|]. by rewrite Nat.max_l by lia.
  - destruct HI as (Hpos & Hst & n & Hn & Hq & Hd). split_and!; [done|done|]. exists n. split_and!; [done| |].
    + rewrite <- Hq. unfold final_seq. rewrite last_cons. by destruct (list.last b).
    + rewrite <- Hd, <- app_assoc. done.
  - destruct (is_error x.2) eqn:Ee.
    + eapply end_inv; [done|exact HI|]. by repeat constructor.
    + pose proof (message_inv s start q pos d x H HI Hx Ee) as HM. by destruct (takes start q x).
  - eapply end_inv; [done|exact HI|]. by repeat constructor.
  - rewrite <- (app_nil_r d). eapply end_inv; [done|exact HI|]. constructor.
Qed.

Lemma fanout_step_inv s s' : inv s → step history s s' → inv s'.
Proof.
  intros [H Hw] Hstep. destruct Hstep as [Hs|Hs|i Hs].
  - destruct (pump_step_inv s s' H Hs) as [H' Hg]. split; [done|]. intros i w.
    pose proof Hg as (_ & _ & _ & ->). intros E. eapply (watch_inv_grows s); [done|exact Hg|by eapply Hw].
  - destruct (fresh_step_inv s s' H Hs) as [H' Hg]. split; [done|]. intros i w.
    pose proof Hg as (_ & _ & _ & ->). intros E. eapply (watch_inv_grows s); [done|exact Hg|by eapply Hw].
  - destruct (watch_step_inv s i s' (conj H Hw) Hs) as (w & -> & HI). split.
    + destruct H. by constructor.
    + intros j w' E. change (watchers _) with (<[i := w]> (watchers s)) in E.
      change (watch_inv s w'). apply lookup_insert_Some in E as [[_ <-]|[_ E]]; [done|by eapply Hw].
Qed.

Lemma opened_inv gen m r : inv (opened gen m r).
Proof.
  split; [constructor; cbn; try done; try constructor; lia|]. intros i w E.
  change (watchers (opened gen m r)) with (∅ : gmap nat Watcher) in E. by rewrite lookup_empty in E.
Qed.

Lemma fanout_reachable_inv s : reachable history s → inv s.
Proof.
  intros (gen & m & r & Hs). pose proof (opened_inv gen m r) as Hi.
  induction Hs as [s|s s' s'' Hstep _ IH]; [done|]. apply IH. by eapply fanout_step_inv.
Qed.

(** *** What is due, in terms of the store's history *)

Definition since (start : Z) (l : list WatchEvent) : list WatchEvent := List.filter (λ e, start <? event_revision e) l.

Lemma since_erase start l : erase <$> since start l = since start (erase <$> l).
Proof.
  unfold since. induction l as [|e l IH]; [done|]. cbn. rewrite erase_revision. by case_match; cbn; rewrite IH.
Qed.

Lemma since_prefix start l l' : l `prefix_of` l' → since start l `prefix_of` since start l'.
Proof. intros [k ->]. unfold since. rewrite List.filter_app. by eexists. Qed.

Lemma due_since s start n : (due s start n).*2 = since start (take n (ringed s)).*2.
Proof.
  unfold due, since. generalize (take n (ringed s)). induction l as [|x l IH]; [done|]. cbn. unfold newer at 1.
  by case_match; cbn; rewrite IH.
Qed.

Lemma since_upstream start p : p ≤ start → since start (upstream history p) = since start history.
Proof.
  intros Hp. unfold since, upstream. rewrite filter_filter. apply filter_ext. intros e. simpl.
  destruct (start <? event_revision e) eqn:E; [|by rewrite andb_false_r].
  apply Z.ltb_lt in E. replace (p <? event_revision e) with true; [done|]. symmetry. apply Z.ltb_lt. lia.
Qed.

Lemma ringed_upstream s n :
  cache_inv s → (erase <$> (take n (ringed s)).*2) `prefix_of` (erase <$> upstream history (pump_start_rev (cache s))).
Proof.
  intros H. etrans; [|apply (prefix_take _ (received s))]. rewrite <- fmap_take, <- (ci_events s H).
  rewrite <- (take_drop n (ringed s)) at 2. rewrite <- app_assoc, !fmap_app. by eexists.
Qed.

Lemma due_prefix_history s start n :
  cache_inv s → pump_start_rev (cache s) ≤ start →
  (erase <$> (due s start n).*2) `prefix_of` (erase <$> since start history).
Proof.
  intros H Hp. rewrite due_since, <- (since_upstream start _ Hp), !since_erase. apply since_prefix.
  by apply ringed_upstream.
Qed.
End Invariant.

(** What a watcher that the cache serves has been sent, and from where. *)
Definition served (w : Watcher) : option (Z * list WatchEvent) :=
  match w with
  | WStream start _ _ _ d | WEnded start d => Some (start, d)
  | _ => None
  end.

(** C4: A watch has no gap.  However the pump, the freshness task, the ring's
    evictions and any number of watchers interleave, what the cache sends a
    watcher from revision [start] is, in the store's order, the events after
    [start]: none skipped, none twice, none out of order, up to the error that
    ends it; and a watcher that has read the channel while the pump waits has
    been sent every event after [start] that the pump has received. *)
Theorem watch_gap_free history s i w start d :
  StronglySorted rev_le history → Forall (λ e, is_error e = false) history → reachable history s →
  watchers s !! i = Some w → served w = Some (start, d) →
  (erase <$> List.filter (λ e, negb (is_error e)) d) `prefix_of` (erase <$> since start history)
  ∧ ∀ q, w = WStream start q (List.length (sent s)) [] d → pump s = Receive →
      erase <$> d = erase <$> since start (take (received s) (upstream history (pump_start_rev (cache s)))).
Proof.
  intros Hord Hne Hreach Hi Hw. destruct (fanout_reachable_inv history Hord Hne s Hreach) as [H Hall].
  pose proof (Hall i w Hi) as HI. split.
  - destruct w as [?|?|? ?|? ? ? ?|?|st q pos b d'|st d']; try done; simpl in Hw; injection Hw as -> ->.
    + destruct HI as (_ & Hp & n & Hn & _ & Hd).
      set (k := (n `max` List.length (data (take pos (sent s))))%nat) in *.
      pose proof (due_no_error history Hne s start k H) as Hf. rewrite <- Hd in Hf. apply Forall_app in Hf as [Hf _].
      rewrite data_events by done. etrans; [|by eapply (due_prefix_history history s start k)].
      rewrite <- Hd, fmap_app. by eexists.
    + destruct HI as (Hp & n & Hn & Hd). etrans; [|by eapply (due_prefix_history history s start n)].
      destruct Hd as [l ->]. rewrite fmap_app. by eexists.
  - intros q -> Hpump. destruct HI as (_ & Hp & n & Hn & _ & Hd). rewrite app_nil_r, due_since in Hd.
    rewrite firstn_all in Hd. pose proof (ci_sent history s H) as Hsent. rewrite Hpump in Hsent. cbn in Hsent.
    rewrite app_nil_r in Hsent. change (List.filter _ (sent s)) with (data (sent s)) in Hsent.
    rewrite Hsent, Nat.max_r, firstn_all in Hd by lia. rewrite Hd, !since_erase.
    pose proof (ci_events history s H) as He. rewrite Hpump in He. cbn in He. rewrite app_nil_r in He. by rewrite He.
Qed.

(** ** The snapshot and its revision *)

Section Lag.
  Variable history : list WatchEvent.
  Variables (gen r : Z) (m : Snapshot).

(** Steps of the pump and of the watchers. *)
Inductive quiet_step (s s' : System) : Prop :=
| quiet_pump : pump_step history s s' → quiet_step s s'
| quiet_watch i : watch_step s i s' → quiet_step s s'.

(** The revision after the first [n] events of the stream. *)
Definition rev_after (n : nat) : Z :=
  match list.last (take n (upstream history r)) with Some e => event_revision e | None => r end.

(** How many events the snapshot has, and how many its revision says. *)
Definition applied (s : System) : nat :=
  match pump s with Apply _ _ => pred (received s) | _ => received s end.
Definition announced (s : System) : nat :=
  match pump s with Apply _ _ | StoreRev _ _ => pred (received s) | _ => received s end.

(** The event the pump holds is the last it received. *)
Definition holds_last (s : System) : Prop :=
  match pump s with
  | Apply _ ev => ∃ k, received s = Datatypes.S k ∧ upstream history r !! k = Some ev
  | StoreRev _ ev => ∃ k e, received s = Datatypes.S k ∧ upstream history r !! k = Some e ∧
                             event_revision ev = event_revision e
  | _ => True
  end.

Definition lag_inv (s : System) : Prop :=
  pump_start_rev (cache s) = r ∧ holds_last s ∧
  snap (cache s) = replay m (take (applied s) (upstream history r)) ∧
  snapshot_rev (cache s) = rev_after (announced s).


Lemma rev_after_S k e : upstream history r !! k = Some e → rev_after (Datatypes.S k) = event_revision e.
Proof. intros Hk. unfold rev_after. by rewrite (take_S_r _ _ _ Hk), last_snoc. Qed.

Lemma apply_revision snap ev : event_revision (apply_event snap ev).2 = event_revision ev.
Proof. by destruct ev. Qed.

Lemma lag_step s s' : lag_inv s → quiet_step s s' → lag_inv s'.
Proof.
  intros (Hp & Hh & Hs & Hr) [Hstep|i Hstep].
  - unfold holds_last, applied, announced in *.
    destruct Hstep as [ev E Hu|ev E Herr|E|seq ev E|seq ev E|seq ev E|seq ev E|seq ev E|E|E|seq E];
      rewrite E in *; try (split_and!; done).
    + split_and!; [done| |done|done]. exists (received s). by rewrite Hp in Hu.
    + destruct Hh as (k & Hk & Hu). rewrite Hk in *. cbn in Hs. split_and!; [done| | |cbn; by rewrite Hr, Hk].
      * exists k, ev. by rewrite apply_revision.
      * cbn. rewrite Hs, Hk, (take_S_r _ _ _ Hu). by rewrite fold_left_app.
    + destruct Hh as (k & e & Hk & Hu & He). split_and!; [done|done|cbn; by rewrite Hs|].
      cbn. by rewrite Hk, (rev_after_S _ _ Hu).
  - destruct Hstep; split_and!; done.
Qed.

(** The snapshot and its revision.  While no re-seed intervenes, the
    snapshot is always the seed with a prefix of the stream applied, and the
    revision a reader loads is that of the same prefix, except between the
    pump's two writes, when the snapshot is one event ahead of it; it is never
    behind. *)
Theorem snapshot_lag s :
  rtc quiet_step (opened gen m r) s →
  ∃ n, snap (cache s) = replay m (take n (upstream history r)) ∧
    (snapshot_rev (cache s) = rev_after n ∨
     ∃ seq ev, pump s = StoreRev seq ev ∧ snapshot_rev (cache s) = rev_after (pred n)).
Proof.
  intros Hs. assert (lag_inv s) as (_ & Hh & Hsnap & Hrev).
  { assert (lag_inv (opened gen m r)) as Hi by (split_and!; done).
    induction Hs as [|s1 s2 s3 Hstep _ IH]; [done|]. apply IH. by eapply lag_step. }
  exists (applied s). split; [done|]. unfold applied, announced in *. destruct (pump s) eqn:E; try (by left).
  right. by eexists _, _.
Qed.
End Lag.

(** ** Examples *)

Module FanoutDemo.

Definition key (n : string) : string := ("/registry/pods/d/" ++ n)%string.
Definition seed : Snapshot := [(key "a", ("A", 4))].
Definition history : list WatchEvent :=
  [Added (key "a") "A" 4; Added (key "b") "B" 6; Modified (key "a") "A2" 7 None; Deleted (key "b") 8 None].

Definition init : System := opened 1 seed 5.

Lemma ordered : StronglySorted rev_le history.
Proof. repeat (constructor; try (repeat constructor; unfold rev_le; cbn; lia)). Qed.
Lemma no_errors : Forall (λ e, is_error e = false) history.
Proof. by repeat constructor. Qed.

(** One event through the pump. *)
Definition pumped (s : System) (ev : WatchEvent) : System :=
  let c := cache s in
  let ev' := (apply_event (snap c) ev).2 in
  mkSys (mkCache (generation c) (ring_push (ring c) (next_seq c, ev')) (next_seq c + 1) (pump_start_rev c)
           (apply_event (snap c) ev).1 (event_revision ev') (terminated c))
        Receive (fresh s) (sent s ++ [(next_seq c, ev')]) (ringed s ++ [(next_seq c, ev')])
        (Datatypes.S (received s)) (watchers s).

Lemma pump_event h s ev :
  pump s = Receive → upstream h (pump_start_rev (cache s)) !! received s = Some ev → rtc (step h) s (pumped s ev).
Proof.
  intros Hp Hu. eapply rtc_l; [by apply step_pump, pump_receive|].
  eapply rtc_l; [by eapply step_pump, pump_apply|]. eapply rtc_l; [by eapply step_pump, pump_store_rev|].
  eapply rtc_l; [by eapply step_pump, pump_push|]. eapply rtc_l; [by eapply step_pump, pump_broadcast|].
  exact (rtc_refl _ _).
Qed.

(** A watcher from revision 5 subscribes after the first event was broadcast,
    takes it from the ring, and the next two from the channel. *)
Definition served_events : list WatchEvent :=
  [Added (key "b") "B" 6; Modified (key "a") "A2" 7 (Some "A"); Deleted (key "b") 8 (Some "B")].

Definition after_first : System := Eval vm_compute in pumped init (Added (key "b") "B" 6).
Definition watching : System :=
  Eval vm_compute in set_watcher after_first 0 (WStream 5 1 1 [] [Added (key "b") "B" 6]).
Definition after_third : System :=
  Eval vm_compute in pumped (pumped watching (Modified (key "a") "A2" 7 None)) (Deleted (key "b") 8 None).
Definition final : System := Eval vm_compute in set_watcher after_third 0 (WStream 5 1 3 [] served_events).

Ltac watcher_step c := eapply rtc_l; [eapply (step_watch _ _ _ 0%nat), c; reflexivity|]; vm_compute set_watcher.

Lemma reaches_watching : rtc (step history) after_first watching.
Proof.
  watcher_step (watch_call after_first 0%nat 5). watcher_step watch_resolve. watcher_step watch_subscribe.
  watcher_step watch_read_ring. watcher_step watch_decide. vm_compute falls_back. cbn match.
  watcher_step watch_backlog. apply rtc_refl.
Qed.

Lemma reaches_final : rtc (step history) after_third final.
Proof. watcher_step watch_message. watcher_step watch_message. apply rtc_refl. Qed.

Lemma reachable_final : reachable history final.
Proof.
  exists 1, seed, 5. etrans; [apply (pump_event history init (Added (key "b") "B" 6)); reflexivity|].
  change (pumped init _) with after_first. etrans; [apply reaches_watching|].
  etrans; [apply (pump_event history watching (Modified (key "a") "A2" 7 None)); reflexivity|].
  etrans; [apply (pump_event history (pumped watching (Modified (key "a") "A2" 7 None)) (Deleted (key "b") 8 None)); reflexivity|].
  apply reaches_final.
Qed.

(** The state between the pump's two writes: the snapshot has the event of
    revision 6, the revision still says 5. *)
Definition torn : System :=
  Eval vm_compute in
    mkSys (mkCache 1 [] 2 5 (apply_event seed (Added (key "b") "B" 6)).1 5 false)
          (StoreRev 1 (Added (key "b") "B" 6)) Watching [] [] 1 ∅.

Lemma reaches_torn : rtc (quiet_step history) init torn.
Proof.
  eapply rtc_l; [eapply quiet_pump, pump_receive; reflexivity|].
  eapply rtc_l; [eapply quiet_pump, pump_apply; reflexivity|]. apply rtc_refl.
Qed.

End FanoutDemo.

(** A page read between the pump's two writes carries an object newer than the
    revision it is stamped with: here the page says revision 5 and holds the
    object written at revision 6. *)
Lemma torn_page :
  ∃ s, rtc (quiet_step FanoutDemo.history) FanoutDemo.init s ∧
    let page := page_of_snapshot (cache s) "/registry/pods/" 500 None in
    cp_revision page = 5 ∧ ("B", 6) ∈ cp_items page.
Proof. exists FanoutDemo.torn. split; [apply FanoutDemo.reaches_torn|]. split; [done|]. vm_compute. set_solver. Qed.

Lemma watch_gap_free_witness :
  erase <$> FanoutDemo.served_events = erase <$> since 5 FanoutDemo.history.
Proof.
  destruct (watch_gap_free FanoutDemo.history FanoutDemo.final 0 _ 5 FanoutDemo.served_events
    FanoutDemo.ordered FanoutDemo.no_errors FanoutDemo.reachable_final eq_refl eq_refl) as [_ H].
  rewrite (H 1 eq_refl eq_refl). reflexivity.
Defined.

Lemma snapshot_lag_witness :
  ∃ n, snap (cache FanoutDemo.torn) = replay FanoutDemo.seed (take n (upstream FanoutDemo.history 5)).
Proof.
  destruct (snapshot_lag FanoutDemo.history 1 5 FanoutDemo.seed FanoutDemo.torn FanoutDemo.reaches_torn) as (n & H & _).
  by exists n.
Defined.
