(* ===== verification/Rbac.v ===== *)
(** * RBAC ([pkg/apiserver/src/rbac_engine.rs])

    Who may do what.  [rule_matches] and [subjects_match] decide one rule and
    one binding; [authorize_with_reason] looks for a binding that grants the
    request, first in the parsed copy of the watch cache ([view],
    [cached_allow]) and then in the store; [rules_for] and [who_can] answer
    the reviews from the same bindings.

    The engine's own state is [views], the parsed copies by prefix.  What the
    watch cache answers is given as [caches]: for each prefix the cache when
    its version is read and the cache when its snapshot is read.  [None] is a
    panic of the storage layer. *)

From Stdlib Require Import ZArith Lia String Ascii.
From stdpp Require Import base gmap strings numbers option list.
From S2P Require Import Prelude Text BTree Json F64 Quantity Store ApiError Codec Storage WatchCache.
Open Scope string_scope.
Open Scope kube_scope.
Open Scope Z_scope.

(** ** Requests and rules *)

Record UserInfo := mkUser { username : string; groups : list string }.

Record AuthorizationRequest := mkReq {
  verb : string;
  resource : string;
  subresource : option string;
  api_group : string;
  namespace : option string;
  req_name : option string }.

(** [v.as_array().is_some_and(|a| !a.is_empty())]. *)
Definition nonempty_array (v : Value) : bool :=
  match as_array v with Some (_ :: _) => true | _ => false end.

(** [p.ends_with("/*") && t.starts_with(&p[..p.len() - 1])]. *)
Definition under_wildcard (p t : string) : bool :=
  match strip_suffix "/*" p with Some base => starts_with t (base ++ "/") | None => false end.

Definition target_of (req : AuthorizationRequest) : string :=
  match subresource req with Some sub => resource req ++ "/" ++ sub | None => resource req end.

Definition resource_pattern (r target : string) : bool :=
  (r =? "*")%kube || (r =? target)%kube || under_wildcard r target.

Definition rule_matches (rule : Value) (req : AuthorizationRequest) : bool :=
  let api_groups := items rule.["apiGroups"] in
  let resources := items rule.["resources"] in
  if match api_groups with [] => true | _ => false end || match resources with [] => true | _ => false end then false
  else if negb (existsb (λ g, let g := str_or "" g in (g =? "*")%kube || (g =? api_group req)%kube) api_groups) then false
  else if negb (existsb (λ r, resource_pattern (str_or "" r) (target_of req)) resources) then false
  else if match as_array rule.["verbs"] with
          | Some vs => negb (existsb (λ v, let v := str_or "" v in (v =? "*")%kube || (v =? verb req)%kube) vs)
          | None => false
          end then false
  else match as_array rule.["resourceNames"], req_name req with
       | Some (n :: ns), Some req_name => existsb (λ x, str_is x req_name) (n :: ns)
       | _, _ => true
       end.

Definition rules_permit (role : Value) (req : AuthorizationRequest) : bool :=
  existsb (λ rule, rule_matches rule req) (items role.["rules"]).

Definition non_resource_rule_matches (rule : Value) (path verb : string) : bool :=
  let urls := items rule.["nonResourceURLs"] in
  let verbs := items rule.["verbs"] in
  if match urls with [] => true | _ => false end || match verbs with [] => true | _ => false end then false
  else if negb (existsb (λ v, str_is v "*" || str_is v verb) verbs) then false
  else existsb (λ u, resource_pattern (str_or "" u) path) urls.

Definition nonempty_str (v : Value) : option string :=
  match as_str v with Some s => if is_empty_str s then None else Some s | None => None end.

Definition service_account (ns name : string) : string := "system:serviceaccount:" ++ ns ++ ":" ++ name.

Definition subject_matches (binding : Value) (user : UserInfo) (subject : Value) : bool :=
  let kind := str_or "" subject.["kind"] in
  let name := str_or "" subject.["name"] in
  if (kind =? "User")%kube && (name =? username user)%kube then true
  else if (kind =? "Group")%kube && str_in name (groups user) then true
  else if (kind =? "ServiceAccount")%kube then
    match or_else (nonempty_str subject.["namespace"]) (nonempty_str binding.["metadata"].["namespace"]) with
    | Some ns => (service_account ns name =? username user)%kube
    | None => false
    end
  else false.

Definition subjects_match (binding : Value) (user : UserInfo) : bool :=
  existsb (subject_matches binding user) (items binding.["subjects"]).

(** ** Decisions *)

Record Decision := mkDecision { allowed : bool; d_reason : string; d_unavailable : option string }.

Definition allow (reason : string) : Decision := mkDecision true reason None.
Definition deny : Decision := mkDecision false "" None.
Definition undecided (cause : string) : Decision := mkDecision false "" (Some cause).

(** A read's value, or its failure kept in [unreadable] unless it is NotFound. *)
Definition readable {T} (read : result T ApiError) (unreadable : option string) : option T * option string :=
  match read with
  | Ok v => (Some v, unreadable)
  | Err e => (None, if (reason e =? "NotFound")%kube then unreadable else or_else unreadable (Some (message e)))
  end.

Definition crb_reason (binding role : string) : string :=
  "RBAC: allowed by ClusterRoleBinding " ++ quoted binding ++ " of ClusterRole " ++ quoted role.
Definition rb_reason (ns binding kind role : string) : string :=
  "RBAC: allowed by RoleBinding " ++ quoted (ns ++ "/" ++ binding) ++ " of " ++ kind ++ " " ++ quoted role.

Definition ref_kind (binding : Value) : string := str_or "" binding.["roleRef"].["kind"].
Definition ref_name (binding : Value) : string := str_or "" binding.["roleRef"].["name"].
Definition object_name (o : Value) : string := str_or "" o.["metadata"].["name"].

Definition is_superuser (dev_anonymous_admin : bool) (user : UserInfo) : bool :=
  str_in "system:masters" (groups user) || (dev_anonymous_admin && (username user =? "system:anonymous")%kube).

(** ** The engine's copy of the watch cache *)

Definition CLUSTER_ROLE_BINDINGS : string := "/registry/clusterrolebindings/".
Definition CLUSTER_ROLES : string := "/registry/clusterroles/".
Definition ROLE_BINDINGS : string := "/registry/rolebindings/".
Definition ROLES : string := "/registry/roles/".

Record RbacView := mkView { v_version : Z * Z; v_objects : BTreeMap Value }.

Notation Views := (gmap string RbacView).
Notation Caches := (string → result PrefixCache Error * result PrefixCache Error).

Section Engine.
  Context {S : Type} `{KvStore S} `{JsonCodec}.

(** [serde_json::from_slice(&bytes).ok()] of each item. *)
Definition parse_items (l : list (string * bytes)) : BTreeMap Value :=
  omap (λ kv, match from_slice kv.2 with Ok v => Some (kv.1, v) | Err _ => None end) l.

Definition view (caches : Caches) (views : Views) (prefix : string) : Views * option (BTreeMap Value) :=
  match (caches prefix).1 with
  | Err _ => (views, None)
  | Ok c =>
      match views !! prefix with
      | Some v =>
          if bool_decide (v_version v = version c) then (views, Some (v_objects v))
          else
            match (caches prefix).2 with
            | Err _ => (views, None)
            | Ok c' =>
                let '(ver, its) := snapshot_of c' in
                let objects := parse_items its in
                (<[prefix := mkView ver objects]> views, Some objects)
            end
      | None =>
          match (caches prefix).2 with
          | Err _ => (views, None)
          | Ok c' =>
              let '(ver, its) := snapshot_of c' in
              let objects := parse_items its in
              (<[prefix := mkView ver objects]> views, Some objects)
          end
      end
  end.

Definition role_permits (roles : BTreeMap Value) (key : string) (req : AuthorizationRequest) : bool :=
  match map_get roles key with Some role => rules_permit role req | None => false end.

Fixpoint cached_cluster (user : UserInfo) (req : AuthorizationRequest) (cluster_roles : BTreeMap Value)
    (bindings : list Value) : option string :=
  match bindings with
  | [] => None
  | b :: rest =>
      if subjects_match b user && (str_is b.["roleRef"].["kind"] "ClusterRole"
         && role_permits cluster_roles (cluster_key "clusterroles" (ref_name b)) req)
      then Some (crb_reason (object_name b) (ref_name b))
      else cached_cluster user req cluster_roles rest
  end.

(** The loop over the namespace's bindings; the view of [ROLES] is taken at the
    first Role, and its failure ends the loop. *)
Fixpoint cached_namespaced (caches : Caches) (views : Views) (roles : option (BTreeMap Value)) (user : UserInfo)
    (req : AuthorizationRequest) (ns : string) (cluster_roles : BTreeMap Value) (bindings : list Value) :
    Views * option string :=
  match bindings with
  | [] => (views, None)
  | b :: rest =>
      if negb (subjects_match b user) then cached_namespaced caches views roles user req ns cluster_roles rest
      else if (ref_kind b =? "ClusterRole")%kube then
        if role_permits cluster_roles (cluster_key "clusterroles" (ref_name b)) req
        then (views, Some (rb_reason ns (object_name b) (ref_kind b) (ref_name b)))
        else cached_namespaced caches views roles user req ns cluster_roles rest
      else if (ref_kind b =? "Role")%kube then
        let '(views, got) := match roles with Some r => (views, Some r) | None => view caches views ROLES end in
        match got with
        | None => (views, None)
        | Some r =>
            if role_permits r (namespaced_key "roles" ns (ref_name b)) req
            then (views, Some (rb_reason ns (object_name b) (ref_kind b) (ref_name b)))
            else cached_namespaced caches views (Some r) user req ns cluster_roles rest
        end
      else cached_namespaced caches views roles user req ns cluster_roles rest
  end.

Definition cached_allow (caches : Caches) (views : Views) (user : UserInfo) (req : AuthorizationRequest) :
    Views * option string :=
  let '(views, bindings) := view caches views CLUSTER_ROLE_BINDINGS in
  match bindings with
  | None => (views, None)
  | Some bindings =>
      let '(views, cluster_roles) := view caches views CLUSTER_ROLES in
      match cluster_roles with
      | None => (views, None)
      | Some cluster_roles =>
          match cached_cluster user req cluster_roles (snd <$> bindings) with
          | Some why => (views, Some why)
          | None =>
              match namespace req with
              | None => (views, None)
              | Some ns =>
                  let '(views, bindings) := view caches views ROLE_BINDINGS in
                  match bindings with
                  | None => (views, None)
                  | Some bindings =>
                      let prefix := namespace_prefix "rolebindings" ns in
                      let from := MemStore.drop_while (λ kv, str_ltb kv.1 prefix) bindings in
                      let here := MemStore.take_while (λ kv, starts_with kv.1 prefix) from in
                      cached_namespaced caches views None user req ns cluster_roles (snd <$> here)
                  end
              end
          end
      end
  end.

(** ** The store's answer *)

(** [storage.list(prefix, 1000, None)]. *)
Definition list_objects (s : S) (prefix : string) : option (result (list Value) ApiError) :=
  r ← list_page s prefix 1000 None;
  Some (match r with Err e => Err e | Ok p => Ok (lp_items p) end).

Fixpoint check_cluster_go (s : S) (user : UserInfo) (req : AuthorizationRequest) (bindings : list Value)
    (unreadable : option string) : option (option string * option string) :=
  match bindings with
  | [] => Some (None, unreadable)
  | b :: rest =>
      if negb (subjects_match b user) then check_cluster_go s user req rest unreadable
      else if (ref_kind b =? "ClusterRole")%kube then
        r ← get s (cluster_key "clusterroles" (ref_name b));
        let '(role, unreadable) := readable r unreadable in
        match role with
        | Some role => if rules_permit role req then Some (Some (crb_reason (object_name b) (ref_name b)), unreadable)
                       else check_cluster_go s user req rest unreadable
        | None => check_cluster_go s user req rest unreadable
        end
      else check_cluster_go s user req rest unreadable
  end.

Definition check_cluster_role_bindings (s : S) (user : UserInfo) (req : AuthorizationRequest)
    (unreadable : option string) : option (option string * option string) :=
  r ← list_objects s (cluster_prefix "clusterrolebindings");
  let '(bindings, unreadable) := readable r unreadable in
  match bindings with
  | None => Some (None, unreadable)
  | Some bindings => check_cluster_go s user req bindings unreadable
  end.

(** The role a RoleBinding refers to: a ClusterRole, a Role of its namespace,
    or ([None]) neither. *)
Definition role_key (ns : string) (b : Value) : option string :=
  if (ref_kind b =? "ClusterRole")%kube then Some (cluster_key "clusterroles" (ref_name b))
  else if (ref_kind b =? "Role")%kube then Some (namespaced_key "roles" ns (ref_name b))
  else None.

Fixpoint check_role_go (s : S) (user : UserInfo) (req : AuthorizationRequest) (ns : string) (bindings : list Value)
    (unreadable : option string) : option (option string * option string) :=
  match bindings with
  | [] => Some (None, unreadable)
  | b :: rest =>
      if negb (subjects_match b user) then check_role_go s user req ns rest unreadable
      else
        match role_key ns b with
        | None => check_role_go s user req ns rest unreadable
        | Some key =>
            r ← get s key;
            let '(role, unreadable) := readable r unreadable in
            match role with
            | Some role =>
                if rules_permit role req
                then Some (Some (rb_reason ns (object_name b) (ref_kind b) (ref_name b)), unreadable)
                else check_role_go s user req ns rest unreadable
            | None => check_role_go s user req ns rest unreadable
            end
        end
  end.

Definition check_role_bindings (s : S) (user : UserInfo) (req : AuthorizationRequest) (ns : string)
    (unreadable : option string) : option (option string * option string) :=
  r ← list_objects s (namespace_prefix "rolebindings" ns);
  let '(bindings, unreadable) := readable r unreadable in
  match bindings with
  | None => Some (None, unreadable)
  | Some bindings => check_role_go s user req ns bindings unreadable
  end.

(** The part of [authorize_with_reason] that asks the store. *)
Definition authorize_store (s : S) (user : UserInfo) (req : AuthorizationRequest) : option Decision :=
  '(why, unreadable) ← check_cluster_role_bindings s user req None;
  match why with
  | Some why => Some (allow why)
  | None =>
      '(why, unreadable) ← match namespace req with
                           | Some ns => check_role_bindings s user req ns unreadable
                           | None => Some (None, unreadable)
                           end;
      Some (match why, unreadable with
            | Some why, _ => allow why
            | None, Some cause => undecided cause
            | None, None => deny
            end)
  end.

Definition masters_reason : string := "RBAC: allowed by group " ++ quoted "system:masters".
Definition anonymous_reason : string := "RBAC: allowed by --dev-anonymous-admin".

(** The decision, and the engine's views after it. *)
Definition authorize_with_reason (dev_anonymous_admin : bool) (caches : Caches) (views : Views) (s : S)
    (user : UserInfo) (req : AuthorizationRequest) : option (Views * Decision) :=
  if str_in "system:masters" (groups user) then Some (views, allow masters_reason)
  else if dev_anonymous_admin && (username user =? "system:anonymous")%kube then Some (views, allow anonymous_reason)
  else
    let '(views, why) := cached_allow caches views user req in
    match why with
    | Some why => Some (views, allow why)
    | None => d ← authorize_store s user req; Some (views, d)
    end.

Definition authorize (dev : bool) (caches : Caches) (views : Views) (s : S) (user : UserInfo)
    (req : AuthorizationRequest) : option (Views * bool) :=
  '(views, d) ← authorize_with_reason dev caches views s user req; Some (views, allowed d).

Fixpoint non_resource_go (s : S) (path verb : string) (bindings : list Value) : option Decision :=
  match bindings with
  | [] => Some deny
  | b :: rest =>
      if negb (str_is b.["roleRef"].["kind"] "ClusterRole") then non_resource_go s path verb rest
      else
        r ← get s (cluster_key "clusterroles" (ref_name b));
        match r with
        | Err _ => non_resource_go s path verb rest
        | Ok role =>
            if existsb (λ r, non_resource_rule_matches r path verb) (items role.["rules"])
            then Some (allow (crb_reason (object_name b) (ref_name b)))
            else non_resource_go s path verb rest
        end
  end.

Definition authorize_non_resource (dev : bool) (s : S) (user : UserInfo) (path verb : string) : option Decision :=
  if str_in "system:masters" (groups user) then Some (allow masters_reason)
  else if dev && (username user =? "system:anonymous")%kube then Some (allow anonymous_reason)
  else
    r ← list_objects s (cluster_prefix "clusterrolebindings");
    match r with
    | Err _ => Some deny
    | Ok bindings => non_resource_go s path verb (List.filter (λ b, subjects_match b user) bindings)
    end.

(** ** The rules a user holds *)

Record RuleSet := mkRules { resource_rules : list Value; non_resource_rules : list Value; incomplete : bool }.

Definition no_rules : RuleSet := mkRules [] [] false.

Definition resource_half (rule : Value) : list Value :=
  if nonempty_array rule.["resources"] then
    [json_obj ([("verbs", rule.["verbs"]); ("apiGroups", rule.["apiGroups"]); ("resources", rule.["resources"])]
               ++ if nonempty_array rule.["resourceNames"] then [("resourceNames", rule.["resourceNames"])] else [])]
  else [].

Definition url_half (rule : Value) : list Value :=
  if nonempty_array rule.["nonResourceURLs"] then
    [json_obj [("verbs", rule.["verbs"]); ("nonResourceURLs", rule.["nonResourceURLs"])]]
  else [].

Definition absorb (set : RuleSet) (role : Value) : RuleSet :=
  fold_left (λ set rule, mkRules (resource_rules set ++ resource_half rule) (non_resource_rules set ++ url_half rule)
                                 (incomplete set))
            (items role.["rules"]) set.

Definition mark_incomplete (set : RuleSet) : RuleSet := mkRules (resource_rules set) (non_resource_rules set) true.

(** The bindings of a user absorbed, each with the role its key names. *)
Fixpoint absorb_bindings (s : S) (key_of : Value → option string) (set : RuleSet) (bindings : list Value) :
    option RuleSet :=
  match bindings with
  | [] => Some set
  | b :: rest =>
      match key_of b with
      | None => absorb_bindings s key_of set rest
      | Some key =>
          r ← get s key;
          absorb_bindings s key_of (match r with Ok role => absorb set role | Err _ => mark_incomplete set end) rest
      end
  end.

Definition cluster_role_key (b : Value) : option string :=
  if str_is b.["roleRef"].["kind"] "ClusterRole" then Some (cluster_key "clusterroles" (ref_name b)) else None.

Definition absorb_prefix (s : S) (user : UserInfo) (key_of : Value → option string) (prefix : string) (set : RuleSet) :
    option RuleSet :=
  r ← list_objects s prefix;
  match r with
  | Err _ => Some (mark_incomplete set)
  | Ok bindings => absorb_bindings s key_of set (List.filter (λ b, subjects_match b user) bindings)
  end.

Definition everything : RuleSet :=
  mkRules [json_obj [("verbs", Array [Str "*"]); ("apiGroups", Array [Str "*"]); ("resources", Array [Str "*"])]]
          [json_obj [("verbs", Array [Str "*"]); ("nonResourceURLs", Array [Str "*"])]] false.

Definition rules_for (dev : bool) (s : S) (user : UserInfo) (ns : option string) : option RuleSet :=
  if is_superuser dev user then Some everything
  else
    set ← absorb_prefix s user cluster_role_key (cluster_prefix "clusterrolebindings") no_rules;
    match ns with
    | None => Some set
    | Some ns => absorb_prefix s user (role_key ns) (namespace_prefix "rolebindings" ns) set
    end.

(** ** Who may do a thing *)

Record WhoCan := mkWho { w_users : gset string; w_groups : gset string; w_errors : list string }.

Definition take_subject (bns : string) (out : WhoCan) (subject : Value) : WhoCan :=
  let name := str_or "" subject.["name"] in
  if str_is subject.["kind"] "User" then mkWho ({[name]} ∪ w_users out) (w_groups out) (w_errors out)
  else if str_is subject.["kind"] "Group" then mkWho (w_users out) ({[name]} ∪ w_groups out) (w_errors out)
  else if str_is subject.["kind"] "ServiceAccount" then
    let ns := default bns (nonempty_str subject.["namespace"]) in
    mkWho ({[service_account ns name]} ∪ w_users out) (w_groups out) (w_errors out)
  else out.

Definition take_subjects (out : WhoCan) (binding : Value) : WhoCan :=
  fold_left (take_subject (str_or "" binding.["metadata"].["namespace"])) (items binding.["subjects"]) out.

Definition add_error (out : WhoCan) (e : string) : WhoCan := mkWho (w_users out) (w_groups out) (w_errors out ++ [e]).

Fixpoint who_bindings (s : S) (req : AuthorizationRequest) (key_of : Value → option string)
    (missing : Value → string) (out : WhoCan) (bindings : list Value) : option WhoCan :=
  match bindings with
  | [] => Some out
  | b :: rest =>
      match key_of b with
      | None => who_bindings s req key_of missing out rest
      | Some key =>
          r ← get s key;
          who_bindings s req key_of missing
            (match r with
             | Ok role => if rules_permit role req then take_subjects out b else out
             | Err _ => add_error out (missing b)
             end) rest
      end
  end.

Definition who_prefix (s : S) (req : AuthorizationRequest) (key_of : Value → option string)
    (missing : Value → string) (prefix : string) (out : WhoCan) : option WhoCan :=
  r ← list_objects s prefix;
  match r with
  | Err e => Some (add_error out (message e))
  | Ok bindings => who_bindings s req key_of missing out bindings
  end.

Definition missing_cluster_role (b : Value) : string :=
  "clusterrole.rbac.authorization.k8s.io " ++ quoted (ref_name b) ++ " not found".
Definition missing_role (ns : string) (b : Value) : string :=
  "role " ++ quoted (ref_name b) ++ " of rolebinding " ++ ns ++ "/" ++ object_name b ++ " not found".

Definition who_can (dev : bool) (s : S) (req : AuthorizationRequest) : option WhoCan :=
  let out := mkWho (if dev then {["system:anonymous"]} else ∅) {["system:masters"]} [] in
  out ← who_prefix s req cluster_role_key missing_cluster_role (cluster_prefix "clusterrolebindings") out;
  match namespace req with
  | Some ns =>
      if is_empty_str ns then Some out
      else who_prefix s req (role_key ns) (missing_role ns) (namespace_prefix "rolebindings" ns) out
  | None => Some out
  end.
End Engine.

(** ** Lemmas: what the engine reads of an object *)

(** Two objects the engine cannot tell apart. *)
Definition same_rbac (o o' : Value) : Prop :=
  o.["subjects"] = o'.["subjects"] ∧ o.["roleRef"] = o'.["roleRef"] ∧ o.["rules"] = o'.["rules"] ∧
  o.["metadata"].["namespace"] = o'.["metadata"].["namespace"] ∧
  o.["metadata"].["name"] = o'.["metadata"].["name"].

Lemma same_subjects o o' user : same_rbac o o' → subjects_match o user = subjects_match o' user.
Proof.
  intros (H1 & _ & _ & H4 & _). unfold subjects_match. rewrite H1. unfold subject_matches. by rewrite H4.
Qed.
Lemma same_permits o o' req : same_rbac o o' → rules_permit o req = rules_permit o' req.
Proof. intros (_ & _ & H3 & _). unfold rules_permit. by rewrite H3. Qed.
Lemma same_role_key o o' ns : same_rbac o o' → role_key ns o = role_key ns o'.
Proof. intros (_ & H2 & _). unfold role_key, ref_kind, ref_name. by rewrite H2. Qed.
Lemma same_cluster_key o o' : same_rbac o o' → cluster_role_key o = cluster_role_key o'.
Proof. intros (_ & H2 & _). unfold cluster_role_key, ref_name. by rewrite H2. Qed.
Lemma same_kind o o' : same_rbac o o' → ref_kind o = ref_kind o'.
Proof. intros (_ & H2 & _). unfold ref_kind. by rewrite H2. Qed.

Lemma index_insert_ne m k v k' : k' ≠ k → (Object (map_insert m k v)).[k'] = (Object m).[k'].
Proof. intros Hne. unfold index. simpl. by rewrite map_get_insert_ne. Qed.
Lemma index_insert_eq m k v : (Object (map_insert m k v)).[k] = v.
Proof. unfold index. simpl. by rewrite map_get_insert_eq. Qed.

(** Stamping the revision is invisible to the engine. *)
Lemma inject_same o rev o' : is_object o = true → inject_resource_version o rev = Some o' → same_rbac o o'.
Proof.
  destruct o as [| | | | |m]; try done. intros _. unfold inject_resource_version.
  assert (∀ m' m1, (Object m').["metadata"] = Object m1 →
    (∀ k, k ≠ "metadata" → (Object m').[k] = (Object m).[k]) →
    (∀ k, (Object m1).[k] = (Object m).["metadata"].[k]) →
    set_index2 (Object m') "metadata" "resourceVersion" (Str (show_u rev)) = Some o' → same_rbac (Object m) o') as Haux.
  { intros m' m1 E Hout Hin. unfold set_index2. rewrite E. simpl. intros [= <-].
    unfold same_rbac. rewrite !index_insert_eq, !index_insert_ne by done. rewrite !Hout, !Hin by done. done. }
  simpl Json.get. destruct (map_get m "metadata") as [v|] eqn:Em; [destruct v as [| | | | |m1] eqn:Ev|]; simpl;
    try (apply (Haux _ []);
         [apply index_insert_eq|intros k Hk; by apply index_insert_ne
         |intros k; unfold index at 2; unfold index at 2; simpl; by rewrite Em]).
  apply (Haux _ m1); [unfold index; simpl; by rewrite Em|done|].
  intros k. unfold index at 2; unfold index at 2; simpl. by rewrite Em.
Qed.

(** ** Lemmas: the store's loop *)

Section Checks.
  Context {S : Type} `{KvStore S} `{JsonCodec}.
  Implicit Types s : S.

(** The two loops are one, over where a binding's role is. *)
Fixpoint check_go (s : S) (user : UserInfo) (req : AuthorizationRequest) (key_of : Value → option string)
    (why : Value → string) (bindings : list Value) (unreadable : option string) :
    option (option string * option string) :=
  match bindings with
  | [] => Some (None, unreadable)
  | b :: rest =>
      if negb (subjects_match b user) then check_go s user req key_of why rest unreadable
      else
        match key_of b with
        | None => check_go s user req key_of why rest unreadable
        | Some key =>
            r ← get s key;
            let '(role, unreadable) := readable r unreadable in
            match role with
            | Some role => if rules_permit role req then Some (Some (why b), unreadable)
                           else check_go s user req key_of why rest unreadable
            | None => check_go s user req key_of why rest unreadable
            end
        end
  end.

Lemma ref_kind_is b k : k ≠ "" → str_is b.["roleRef"].["kind"] k = (ref_kind b =? k)%kube.
Proof.
  intros Hk. unfold ref_kind, str_is, str_or. destruct (as_str _); [done|]. cbn [default].
  symmetry. apply str_eqb_neq. done.
Qed.

Lemma cluster_role_key_eq b :
  cluster_role_key b = if (ref_kind b =? "ClusterRole")%kube then Some (cluster_key "clusterroles" (ref_name b)) else None.
Proof. unfold cluster_role_key. by rewrite ref_kind_is. Qed.

Lemma check_cluster_eq s user req bs u :
  check_cluster_go s user req bs u
  = check_go s user req cluster_role_key (λ b, crb_reason (object_name b) (ref_name b)) bs u.
Proof.
  revert u. induction bs as [|b bs IH]; intros u; [done|]. cbn [check_cluster_go check_go].
  rewrite (cluster_role_key_eq b). destruct (negb _); [done|]. destruct (ref_kind b =? "ClusterRole")%kube; [|done].
  destruct (get s _) as [r|]; [|done]. cbn [mbind option_bind]. destruct (readable r u) as [[role|] u']; [|done]. by destruct (rules_permit _ _).
Qed.

Lemma check_role_eq s user req ns bs u :
  check_role_go s user req ns bs u
  = check_go s user req (role_key ns) (λ b, rb_reason ns (object_name b) (ref_kind b) (ref_name b)) bs u.
Proof.
  revert u. induction bs as [|b bs IH]; intros u; [done|]. cbn [check_role_go check_go]. destruct (negb _); [done|].
  destruct (role_key ns b) as [key|]; [|done].
  destruct (get s key) as [r|]; [|done]. cbn [mbind option_bind]. destruct (readable r u) as [[role|] u']; [|done]. by destruct (rules_permit _ _).
Qed.

(** One of [bindings] grants [req], by a role the store has. *)
Definition grants_at (s : S) (user : UserInfo) (req : AuthorizationRequest) (key_of : Value → option string)
    (bindings : list Value) : Prop :=
  ∃ b key role, b ∈ bindings ∧ subjects_match b user = true ∧ key_of b = Some key ∧
    get s key = Some (Ok role) ∧ rules_permit role req = true.

(** A role that one of the user's bindings refers to could not be read. *)
Definition fails_at (s : S) (user : UserInfo) (key_of : Value → option string) (bindings : list Value) : Prop :=
  ∃ b key e, b ∈ bindings ∧ subjects_match b user = true ∧ key_of b = Some key ∧
    get s key = Some (Err e) ∧ reason e ≠ "NotFound".

Lemma grants_at_cons s user req key_of b bs :
  grants_at s user req key_of (b :: bs) ↔
  (subjects_match b user = true ∧ ∃ key role, key_of b = Some key ∧ get s key = Some (Ok role) ∧ rules_permit role req = true)
  ∨ grants_at s user req key_of bs.
Proof. unfold grants_at. set_solver. Qed.
Lemma fails_at_cons s user key_of b bs :
  fails_at s user key_of (b :: bs) ↔
  (subjects_match b user = true ∧ ∃ key e, key_of b = Some key ∧ get s key = Some (Err e) ∧ reason e ≠ "NotFound")
  ∨ fails_at s user key_of bs.
Proof. unfold fails_at. set_solver. Qed.

Lemma drop_head (A A' B B' U U' W N : Prop) :
  ¬ A → ¬ A' → (W ↔ B) ∧ (N → U' ↔ U ∧ ¬ B') → (W ↔ A ∨ B) ∧ (N → U' ↔ U ∧ ¬ (A' ∨ B')).
Proof. tauto. Qed.

Lemma check_go_spec s user req key_of why bs u w u' :
  check_go s user req key_of why bs u = Some (w, u') →
  (is_Some w ↔ grants_at s user req key_of bs) ∧
  (w = None → u' = None ↔ u = None ∧ ¬ fails_at s user key_of bs).
Proof.
  revert u. induction bs as [|b bs IH]; intros u; cbn [check_go].
  - intros [= <- <-]. unfold grants_at, fails_at. split.
    + split; [by intros []|]. intros (b & ? & ? & Hb & _). by apply not_elem_of_nil in Hb.
    + intros _. split; [|tauto]. intros Hu. split; [done|]. intros (b & ? & ? & Hb & _). by apply not_elem_of_nil in Hb.
  - rewrite grants_at_cons, fails_at_cons. destruct (subjects_match b user) eqn:Es; cbn [negb].
    2:{ intros E%IH. apply drop_head; [by intros []|by intros []|done]. }
    destruct (key_of b) as [key|] eqn:Ek.
    2:{ intros E%IH. apply drop_head; [by intros (_ & ? & ? & ? & _)|by intros (_ & ? & ? & ? & _)|done]. }
    destruct (get s key) as [[role|e]|] eqn:Eg; cbn [mbind option_bind readable]; [| |done].
    + destruct (rules_permit role req) eqn:Ep.
      * intros [= <- <-]. split; [|done]. split; [|by eexists]. intros _. left. split; [done|]. by exists key, role.
      * intros E%IH. apply drop_head; [|by intros (_ & ? & ? & [= <-] & ? & _); congruence|done].
        intros (_ & ? & ? & [= <-] & ? & ?). congruence.
    + intros E%IH. destruct (reason e =? "NotFound")%kube eqn:Er.
      * apply str_eqb_eq in Er. apply drop_head; [|by intros (_ & ? & ? & [= <-] & ? & ?); congruence|done].
        intros (_ & ? & ? & [= <-] & ? & ?). congruence.
      * apply str_eqb_neq in Er. destruct E as [E1 E2]. split.
        { rewrite E1. split; [by right|]. intros [(_ & ? & ? & [= <-] & ? & _)|?]; [congruence|done]. }
        intros Hw. specialize (E2 Hw). split.
        { intros Hu. apply E2 in Hu as [Hu _]. by destruct u. }
        intros [_ Hn]. exfalso. apply Hn. left. split; [done|]. by exists key, e.
Qed.

(** The bindings under a prefix grant the request. *)
Definition prefix_grants (s : S) (user : UserInfo) (req : AuthorizationRequest) (key_of : Value → option string)
    (prefix : string) : Prop :=
  ∃ bs, list_objects s prefix = Some (Ok bs) ∧ grants_at s user req key_of bs.

(** The bindings under a prefix, or a role they refer to, could not be read. *)
Definition prefix_fails (s : S) (user : UserInfo) (key_of : Value → option string) (prefix : string) : Prop :=
  (∃ e, list_objects s prefix = Some (Err e) ∧ reason e ≠ "NotFound") ∨
  (∃ bs, list_objects s prefix = Some (Ok bs) ∧ fails_at s user key_of bs).

Lemma check_prefix_spec s user req key_of why prefix u w u' :
  (r ← list_objects s prefix;
   let '(bindings, unreadable) := readable r u in
   match bindings with
   | None => Some (None, unreadable)
   | Some bindings => check_go s user req key_of why bindings unreadable
   end) = Some (w, u') →
  (is_Some w ↔ prefix_grants s user req key_of prefix) ∧
  (w = None → u' = None ↔ u = None ∧ ¬ prefix_fails s user key_of prefix).
Proof.
  unfold prefix_grants, prefix_fails. destruct (list_objects s prefix) as [[bs|e]|]; cbn; [| |done].
  - intros [H1 H2]%check_go_spec. split; [rewrite H1; naive_solver|]. intros Hw. rewrite (H2 Hw). naive_solver.
  - intros [= <- <-]. split; [split; [by intros []|naive_solver]|]. intros _.
    destruct (reason e =? "NotFound")%kube eqn:Er.
    + apply str_eqb_eq in Er. naive_solver.
    + apply str_eqb_neq in Er. destruct u; naive_solver.
Qed.

Definition store_grants (s : S) (user : UserInfo) (req : AuthorizationRequest) : Prop :=
  prefix_grants s user req cluster_role_key (cluster_prefix "clusterrolebindings") ∨
  ∃ ns, namespace req = Some ns ∧ prefix_grants s user req (role_key ns) (namespace_prefix "rolebindings" ns).

Definition store_fails (s : S) (user : UserInfo) (req : AuthorizationRequest) : Prop :=
  prefix_fails s user cluster_role_key (cluster_prefix "clusterrolebindings") ∨
  ∃ ns, namespace req = Some ns ∧ prefix_fails s user (role_key ns) (namespace_prefix "rolebindings" ns).

Lemma check_cluster_spec s user req u w u' :
  check_cluster_role_bindings s user req u = Some (w, u') →
  (is_Some w ↔ prefix_grants s user req cluster_role_key (cluster_prefix "clusterrolebindings")) ∧
  (w = None → u' = None ↔ u = None ∧ ¬ prefix_fails s user cluster_role_key (cluster_prefix "clusterrolebindings")).
Proof.
  intros E. apply (check_prefix_spec s user req _ (λ b, crb_reason (object_name b) (ref_name b))). rewrite <- E.
  unfold check_cluster_role_bindings. destruct (list_objects s _) as [r|]; [|done]. cbn [mbind option_bind].
  destruct (readable r u) as [[bs|] ?]; [|done]. by rewrite check_cluster_eq.
Qed.

Lemma check_role_spec s user req ns u w u' :
  check_role_bindings s user req ns u = Some (w, u') →
  (is_Some w ↔ prefix_grants s user req (role_key ns) (namespace_prefix "rolebindings" ns)) ∧
  (w = None → u' = None ↔ u = None ∧ ¬ prefix_fails s user (role_key ns) (namespace_prefix "rolebindings" ns)).
Proof.
  intros E. apply (check_prefix_spec s user req _ (λ b, rb_reason ns (object_name b) (ref_kind b) (ref_name b))).
  rewrite <- E. unfold check_role_bindings. destruct (list_objects s _) as [r|]; [|done]. cbn [mbind option_bind].
  destruct (readable r u) as [[bs|] ?]; [|done]. by rewrite check_role_eq.
Qed.

Lemma authorize_store_spec s user req d :
  authorize_store s user req = Some d →
  (allowed d = true ↔ store_grants s user req) ∧
  (allowed d = false → d_unavailable d = None ↔ ¬ store_fails s user req).
Proof.
  unfold authorize_store, store_grants, store_fails.
  destruct (check_cluster_role_bindings s user req None) as [[w u]|] eqn:E1; cbn [mbind option_bind]; [|done].
  apply check_cluster_spec in E1 as [H1 H2].
  destruct w as [why|].
  { intros [= <-]. split; [|done]. split; [|done]. intros _. left. apply H1. by eexists. }
  specialize (H2 eq_refl). destruct (namespace req) as [ns|] eqn:En.
  - destruct (check_role_bindings s user req ns u) as [[w2 u2]|] eqn:E2; cbn [mbind option_bind]; [|done].
    apply check_role_spec in E2 as [H3 H4]. intros [= <-]. destruct w2 as [why|].
    + split; [|done]. split; [|done]. intros _. right. exists ns. split; [done|]. apply H3. by eexists.
    + specialize (H4 eq_refl). split.
      * destruct u2; cbn; (split; [done|]); (intros [Hg|(ns' & [= <-] & Hg)]; [apply H1 in Hg|apply H3 in Hg]; by destruct Hg).
      * intros _. rewrite H2 in H4. destruct u2; cbn; naive_solver.
  - cbn. intros [= <-]. split.
    + destruct u; cbn; (split; [done|]); (intros [Hg|(ns' & [=] & _)]; apply H1 in Hg; by destruct Hg).
    + intros _. destruct u; cbn; naive_solver.
Qed.
End Checks.

(** ** What the store grants *)

Section Grants.
  Context {S : Type} `{HL : KvStoreLaws S} `{JsonCodec}.
  Implicit Types s : S.

Definition obj_at (s : S) (key : string) (v : Value) : Prop :=
  ∃ b r, map_get (Store.view s) key = Some (b, r) ∧ from_slice b = Ok v.

(** Where the role of a namespaced binding is read from. *)
Definition role_source (b : Value) : string := if (ref_kind b =? "ClusterRole")%kube then CLUSTER_ROLES else ROLES.

(** [past p] are the states of the store that the copy of prefix [p] may show.
    A cluster-wide binding to a ClusterRole, or a binding of the request's
    namespace to a ClusterRole or to a Role of that namespace, names the user
    and its role permits the request. *)
Definition granted (past : string → S → Prop) (user : UserInfo) (req : AuthorizationRequest) : Prop :=
  (∃ s1 s2 k b key role, past CLUSTER_ROLE_BINDINGS s1 ∧ past CLUSTER_ROLES s2 ∧
     starts_with k CLUSTER_ROLE_BINDINGS = true ∧ obj_at s1 k b ∧ subjects_match b user = true ∧
     cluster_role_key b = Some key ∧ obj_at s2 key role ∧ rules_permit role req = true) ∨
  (∃ ns s1 s2 k b key role, namespace req = Some ns ∧ past ROLE_BINDINGS s1 ∧ past (role_source b) s2 ∧
     starts_with k (namespace_prefix "rolebindings" ns) = true ∧ obj_at s1 k b ∧ subjects_match b user = true ∧
     role_key ns b = Some key ∧ obj_at s2 key role ∧ rules_permit role req = true).

Definition now (s : S) (p : string) (s' : S) : Prop := s' = s.

(** The bindings fit the page the engine reads. *)
Definition one_page (s : S) (prefix : string) : Prop := (List.length (matching (Store.view s) prefix None) ≤ 1000)%nat.

Lemma decode_clean s k b r :
  clean s → map_get (Store.view s) k = Some (b, r) →
  ∃ o v, from_slice b = Ok o ∧ decode_at b r = Some (Ok v) ∧ same_rbac o v.
Proof.
  intros Hc Hk. destruct (Hc _ _ _ Hk) as (o & Ho & Hobj & _). destruct (inject_object o r Hobj) as (v & Hv & _).
  exists o, v. split; [done|]. unfold decode_at. rewrite Ho, Hv. split; [done|]. by eapply inject_same.
Qed.

Lemma decode_items_clean s (m : View) :
  clean s → (∀ k x, In (k, x) m → map_get (Store.view s) k = Some x) →
  ∃ vs, decode_items (to_items m) = Some (Ok vs) ∧
    Forall2 (λ (kx : string * (bytes * Z)) v, ∃ o, from_slice kx.2.1 = Ok o ∧ same_rbac o v) m vs.
Proof.
  intros Hc. induction m as [|[k [b r]] m IH]; intros Hm; [by exists []|].
  destruct (decode_clean s k b r Hc) as (o & v & Ho & Hd & Hs); [apply Hm; by left|].
  destruct IH as (vs & Hvs & Hf); [intros k' x' Hx; apply Hm; by right|].
  exists (v :: vs). split; [|constructor; [by exists o|done]]. change (to_items ((k, (b, r)) :: m)) with ((k, b, r) :: to_items m).
  cbn [decode_items]. rewrite Hd. cbn [mbind option_bind]. by rewrite Hvs.
Qed.

Lemma list_objects_view s prefix :
  kv_wf s → serving s → clean s → listable prefix → one_page s prefix →
  ∃ vs, list_objects s prefix = Some (Ok vs) ∧
    (∀ v, v ∈ vs → ∃ k o, starts_with k prefix = true ∧ obj_at s k o ∧ same_rbac o v) ∧
    (∀ k o, starts_with k prefix = true → obj_at s k o → ∃ v, v ∈ vs ∧ same_rbac o v).
Proof.
  intros Hwf Hs Hc Hp H1. pose proof (view_wf _ Hwf) as (Hm & _). unfold one_page in H1.
  set (all := matching (Store.view s) prefix None) in *.
  assert (∀ k x, In (k, x) all → map_get (Store.view s) k = Some x) as Hall.
  { intros k x Hx. unfold all, matching in Hx. apply filter_In in Hx as [Hx _]. by apply map_get_sorted_In. }
  destruct (decode_items_clean s all Hc Hall) as (vs & Hd & Hf). exists vs. split_and!.
  - unfold list_objects, list_page, list_pinned. rewrite list_now by (done || (unfold i64_max; lia)).
    cbn [page_of lr_items]. fold all. unfold take_limit. cbn [Z.eqb]. rewrite take_ge by (cbn; lia).
    rewrite Hd. done.
  - intros v Hv. apply list_elem_of_lookup in Hv as [i Hi].
    destruct (Forall2_lookup_r _ _ _ _ _ Hf Hi) as ([k [b r]] & Hk & o & Ho & Hso). apply list_elem_of_lookup_2 in Hk.
    apply list_elem_of_In in Hk. exists k, o. split_and!; [|exists b, r; split; [by apply Hall|done]|done].
    unfold all, matching in Hk. apply filter_In in Hk as [_ Hk]. by apply andb_true_iff in Hk as [? _].
  - intros k o Hk (b & r & Hg & Ho).
    assert ((k, (b, r)) ∈ all) as Hin.
    { apply list_elem_of_In. unfold all, matching. apply filter_In. split; [by apply map_get_In|]. cbn. by rewrite Hk. }
    apply list_elem_of_lookup in Hin as [i Hi].
    destruct (Forall2_lookup_l _ _ _ _ _ Hf Hi) as (v & Hv & o' & Ho' & Hso). cbn in Ho'.
    exists v. split; [by eapply list_elem_of_lookup_2|]. congruence.
Qed.

Lemma get_view_some s key o :
  kv_wf s → serving s → clean s → obj_at s key o → ∃ v, get s key = Some (Ok v) ∧ same_rbac o v.
Proof.
  intros Hwf Hs Hc (b & r & Hg & Ho). destruct (decode_clean s key b r Hc Hg) as (o' & v & Ho' & Hd & Hso).
  exists v. unfold get. rewrite get_ok, Hg by done. split; [done|]. congruence.
Qed.

Lemma not_found_reason r n : reason (not_found r n) = "NotFound".
Proof. unfold not_found. by destruct (default _ _). Qed.

Lemma get_view s key :
  kv_wf s → serving s → clean s →
  (∃ o v, obj_at s key o ∧ get s key = Some (Ok v) ∧ same_rbac o v) ∨
  (∃ e, get s key = Some (Err e) ∧ reason e = "NotFound").
Proof.
  intros Hwf Hs Hc. destruct (map_get (Store.view s) key) as [[b r]|] eqn:Eg.
  - left. destruct (decode_clean s key b r Hc Eg) as (o & v & Ho & Hd & Hso). exists o, v.
    split; [by exists b, r|]. unfold get. by rewrite get_ok, Eg by done.
  - right. unfold get. rewrite get_ok, Eg by done. eexists. split; [done|]. unfold not_found_at.
    cbv zeta. match goal with |- reason (let '(_, _) := ?x in _) = _ => destruct x end. apply not_found_reason.
Qed.

Lemma prefix_grants_iff s user req key_of prefix :
  (∀ o v, same_rbac o v → key_of o = key_of v) →
  kv_wf s → serving s → clean s → listable prefix → one_page s prefix →
  prefix_grants s user req key_of prefix ↔
  ∃ k b key role, starts_with k prefix = true ∧ obj_at s k b ∧ subjects_match b user = true ∧
    key_of b = Some key ∧ obj_at s key role ∧ rules_permit role req = true.
Proof.
  intros Hkey Hwf Hs Hc Hp H1. destruct (list_objects_view s prefix Hwf Hs Hc Hp H1) as (vs & Hl & Hin & Hout). split.
  - intros (bs & Hb & v & key & role & Hv & Hsub & Hk & Hg & Hperm). assert (bs = vs) as -> by congruence.
    destruct (Hin v Hv) as (k & o & Hpre & Ho & Hsame).
    destruct (get_view s key Hwf Hs Hc) as [(o' & v' & Ho' & Hg' & Hsame')|(e & Hg' & _)]; [|congruence].
    assert (v' = role) as -> by congruence. exists k, o, key, o'.
    rewrite (same_subjects _ _ _ Hsame), (Hkey _ _ Hsame), (same_permits _ _ _ Hsame'). done.
  - intros (k & b & key & role & Hpre & Hb & Hsub & Hk & Hr & Hperm). exists vs. split; [done|].
    destruct (Hout k b Hpre Hb) as (v & Hv & Hsame).
    destruct (get_view_some s key role Hwf Hs Hc Hr) as (v' & Hg & Hsame'). exists v, key, v'.
    rewrite <- (same_subjects _ _ _ Hsame), <- (Hkey _ _ Hsame), <- (same_permits _ _ _ Hsame'). done.
Qed.

(** Everything the engine reads for a request fits a page. *)
Definition pages_fit (s : S) (req : AuthorizationRequest) : Prop :=
  one_page s CLUSTER_ROLE_BINDINGS ∧
  match namespace req with
  | Some ns => one_page s (namespace_prefix "rolebindings" ns) ∧ str_contains_char "255" ns = false
  | None => True
  end.

Lemma ns_listable ns : str_contains_char "255" ns = false → listable (namespace_prefix "rolebindings" ns).
Proof.
  intros Hn. split; [done|]. unfold namespace_prefix.
  assert (∀ a b, str_contains_char "255" (a ++ b) = str_contains_char "255" a || str_contains_char "255" b) as Happ.
  { induction a as [|c a IH]; intros b; [done|]. simpl. by rewrite IH, orb_assoc. }
  rewrite !Happ, Hn. reflexivity.
Qed.

Lemma store_grants_iff s user req :
  kv_wf s → serving s → clean s → pages_fit s req → store_grants s user req ↔ granted (now s) user req.
Proof.
  intros Hwf Hs Hc [Hp1 Hp2]. unfold store_grants, granted.
  rewrite (prefix_grants_iff s user req cluster_role_key) by (done || apply same_cluster_key). split.
  - intros [(k & b & key & role & H')|(ns & Hn & Hg)]; [left; by exists s, s, k, b, key, role|].
    rewrite Hn in Hp2. destruct Hp2 as [Hp2 Hn255].
    apply prefix_grants_iff in Hg; try done; [|intros; by apply same_role_key|by apply ns_listable].
    destruct Hg as (k & b & key & role & Hg). right. by exists ns, s, s, k, b, key, role.
  - intros [(s1 & s2 & k & b & key & role & -> & -> & H')|(ns & s1 & s2 & k & b & key & role & Hn & -> & -> & H')].
    + left. by exists k, b, key, role.
    + rewrite Hn in Hp2. destruct Hp2 as [Hp2 Hn255]. right. exists ns. split; [done|].
      apply prefix_grants_iff; try done; [intros; by apply same_role_key|by apply ns_listable|].
      by exists k, b, key, role.
Qed.

Lemma prefix_never_fails s user key_of prefix :
  kv_wf s → serving s → clean s → listable prefix → one_page s prefix → ¬ prefix_fails s user key_of prefix.
Proof.
  intros Hwf Hs Hc Hp H1. destruct (list_objects_view s prefix Hwf Hs Hc Hp H1) as (vs & Hl & _).
  intros [(e & He & _)|(bs & _ & b & key & e & _ & _ & _ & Hg & Hr)]; [congruence|].
  destruct (get_view s key Hwf Hs Hc) as [(o & v & _ & Hg' & _)|(e' & Hg' & Hr')]; congruence.
Qed.

Lemma check_go_total s user req key_of why bs u :
  kv_wf s → serving s → clean s → ∃ w u', check_go s user req key_of why bs u = Some (w, u').
Proof.
  intros Hwf Hs Hc. revert u. induction bs as [|b bs IH]; intros u; cbn [check_go]; [by eexists _, _|].
  destruct (negb _); [done|]. destruct (key_of b) as [key|]; [|done].
  destruct (get_view s key Hwf Hs Hc) as [(o & v & _ & -> & _)|(e & -> & _)]; cbn; [|done].
  destruct (rules_permit v req); [by eexists _, _|done].
Qed.

Lemma authorize_store_exact s user req :
  kv_wf s → serving s → clean s → pages_fit s req →
  ∃ d, authorize_store s user req = Some d ∧ d_unavailable d = None ∧
    (allowed d = true ↔ granted (now s) user req).
Proof.
  intros Hwf Hs Hc Hp. pose proof Hp as [Hp1 Hp2].
  assert (∃ d, authorize_store s user req = Some d) as [d Hd].
  { unfold authorize_store, check_cluster_role_bindings.
    destruct (list_objects_view s CLUSTER_ROLE_BINDINGS Hwf Hs Hc) as (vs & Hl & _); [done|done|].
    change (cluster_prefix "clusterrolebindings") with CLUSTER_ROLE_BINDINGS. rewrite Hl. cbn [mbind option_bind readable].
    rewrite check_cluster_eq.
    destruct (check_go_total s user req cluster_role_key (λ b, crb_reason (object_name b) (ref_name b)) vs None
                Hwf Hs Hc) as (w & u & ->). cbn [mbind option_bind]. destruct w as [why|]; [by eexists|].
    destruct (namespace req) as [ns|]; [|by eexists]. destruct Hp2 as [Hp2 Hn]. unfold check_role_bindings.
    destruct (list_objects_view s (namespace_prefix "rolebindings" ns) Hwf Hs Hc) as (vs' & Hl' & _);
      [by apply ns_listable|done|]. rewrite Hl'. cbn [mbind option_bind readable]. rewrite check_role_eq.
    destruct (check_go_total s user req (role_key ns) (λ b, rb_reason ns (object_name b) (ref_kind b) (ref_name b)) vs' u
                Hwf Hs Hc) as (w & u' & ->). by eexists. }
  exists d. destruct (authorize_store_spec s user req d Hd) as [H1 H2]. split_and!; [done| |].
  - destruct (allowed d) eqn:Ea.
    + unfold authorize_store in Hd. clear -Hd Ea. repeat (case_match || simplify_option_eq); simplify_option_eq; done.
    + apply H2; [done|]. intros [Hf|(ns & Hn & Hf)].
      * by apply prefix_never_fails in Hf.
      * rewrite Hn in Hp2. destruct Hp2 as [Hp2 H255]. apply prefix_never_fails in Hf; try done. by apply ns_listable.
  - rewrite H1. by apply store_grants_iff.
Qed.

(** ** The copies of the watch cache *)

Definition bytes_of (m : Snapshot) : list (string * bytes) := (λ kv, (kv.1, kv.2.1)) <$> m.

(** [contents p v]: what the cache of [p] holds at version [v].  The engine's
    copies are of the versions they carry. *)
Definition views_ok (contents : string → Z * Z → Snapshot) (views : Views) : Prop :=
  ∀ p v, views !! p = Some v → v_objects v = parse_items (bytes_of (contents p (v_version v))).

(** Each cache answered from holds what its version says, which is what the
    store held under the prefix in some state of [past p]. *)
Definition caches_ok (contents : string → Z * Z → Snapshot) (past : string → S → Prop) (caches : Caches) : Prop :=
  ∀ p c, (caches p).1 = Ok c ∨ (caches p).2 = Ok c →
    contents p (version c) = snap c ∧ ∃ s, past p s ∧ kv_wf s ∧ snap c = matching (Store.view s) p None.

Lemma parse_items_in (m : View) s p k v :
  kv_wf s → m = matching (Store.view s) p None → (k, v) ∈ parse_items (bytes_of m) →
  starts_with k p = true ∧ obj_at s k v.
Proof.
  intros Hwf -> Hk. apply list_elem_of_omap in Hk as ([k' b] & Hin & E). cbn in E.
  destruct (from_slice b) as [o|] eqn:Eo; [|done]. injection E as -> ->.
  apply list_elem_of_fmap in Hin as ([k1 [b1 r1]] & [= -> ->] & Hin). apply list_elem_of_In in Hin.
  unfold matching in Hin. apply filter_In in Hin as [Hin Hp]. cbn in Hp. rewrite andb_true_r in Hp. split; [done|].
  exists b1, r1. split; [|done]. apply map_get_sorted_In; [|done]. by apply view_wf in Hwf as (? & _).
Qed.

(** A copy the engine uses shows the prefix as it was in some state of [past]. *)
Lemma view_spec contents past caches views p views' objs :
  views_ok contents views → caches_ok contents past caches → view caches views p = (views', objs) →
  views_ok contents views' ∧
  ∀ os, objs = Some os → ∃ s, past p s ∧ ∀ k v, (k, v) ∈ os → starts_with k p = true ∧ obj_at s k v.
Proof.
  intros Hv Hc.
  assert (∀ c', (caches p).2 = Ok c' →
    views_ok contents (<[p := mkView (version c') (parse_items (bytes_of (snap c')))]> views) ∧
    ∃ s, past p s ∧ ∀ k v, (k, v) ∈ parse_items (bytes_of (snap c')) → starts_with k p = true ∧ obj_at s k v) as Hfresh.
  { intros c' E. destruct (Hc p c' (or_intror E)) as (Hcont & s & Hs & Hwf & Hsnap). split.
    - intros p' v [[<- <-]|[_ Hp]]%lookup_insert_Some; [|by apply Hv]. cbn. by rewrite Hcont.
    - exists s. split; [done|]. intros k v Hk. by eapply parse_items_in. }
  unfold view. destruct (caches p).1 as [c|e] eqn:E1; [|by intros [= <- <-]].
  assert (∀ r, (match (caches p).2 with
     | Ok c' => let '(ver, its) := snapshot_of c' in
                (<[p := mkView ver (parse_items its)]> views, Some (parse_items its))
     | Err _ => (views, None) end) = r → r = (views', objs) →
     views_ok contents views' ∧
     ∀ os, objs = Some os → ∃ s, past p s ∧ ∀ k v, (k, v) ∈ os → starts_with k p = true ∧ obj_at s k v) as Hread.
  { intros r Er ->. destruct (caches p).2 as [c'|e] eqn:E2; [|by injection Er as <- <-].
    injection Er as <- <-. destruct (Hfresh c' eq_refl) as [H1 H2]. split; [done|]. by intros os [= <-]. }
  destruct (views !! p) as [v|] eqn:Ev; [|intros E; by eapply Hread].
  case_bool_decide as Hver; [|intros E; by eapply Hread]. intros [= <- <-]. split; [done|]. intros os [= <-].
  destruct (Hc p c (or_introl E1)) as (Hcont & s & Hs & Hwf & Hsnap). exists s. split; [done|]. intros k x.
  rewrite (Hv p v Ev), Hver, Hcont. by eapply parse_items_in.
Qed.

Lemma role_permits_at roles key req :
  role_permits roles key req = true → ∃ role, (key, role) ∈ roles ∧ rules_permit role req = true.
Proof.
  unfold role_permits. destruct (map_get roles key) as [role|] eqn:E; [|done]. intros Hp. exists role.
  split; [|done]. by apply list_elem_of_In, map_get_In.
Qed.

Lemma cached_cluster_at user req roles bs why :
  cached_cluster user req roles bs = Some why →
  ∃ b role, b ∈ bs ∧ subjects_match b user = true ∧ cluster_role_key b = Some (cluster_key "clusterroles" (ref_name b)) ∧
    (cluster_key "clusterroles" (ref_name b), role) ∈ roles ∧ rules_permit role req = true.
Proof.
  induction bs as [|b bs IH]; cbn [cached_cluster]; [done|]. destruct (subjects_match b user) eqn:Es; cbn [andb].
  2:{ intros (b' & role & Hb & H')%IH. exists b', role. split; [by right|done]. }
  destruct (str_is b.["roleRef"].["kind"] "ClusterRole") eqn:Ek; cbn [andb].
  2:{ intros (b' & role & Hb & H')%IH. exists b', role. split; [by right|done]. }
  destruct (role_permits _ _ _) eqn:Er.
  - intros _. apply role_permits_at in Er as (role & Hr & Hp). exists b, role. split; [by left|].
    unfold cluster_role_key. by rewrite Ek.
  - intros (b' & role & Hb & H')%IH. exists b', role. split; [by right|done].
Qed.

Lemma cached_namespaced_at contents past caches views roles user req ns croles bs views' why :
  views_ok contents views → caches_ok contents past caches →
  (∀ r, roles = Some r → ∃ s, past ROLES s ∧ ∀ k v, (k, v) ∈ r → starts_with k ROLES = true ∧ obj_at s k v) →
  (∃ s, past CLUSTER_ROLES s ∧ ∀ k v, (k, v) ∈ croles → starts_with k CLUSTER_ROLES = true ∧ obj_at s k v) →
  cached_namespaced caches views roles user req ns croles bs = (views', why) →
  views_ok contents views' ∧
  (is_Some why → ∃ b s key role, b ∈ bs ∧ subjects_match b user = true ∧ role_key ns b = Some key ∧
     past (role_source b) s ∧ obj_at s key role ∧ rules_permit role req = true).
Proof.
  intros Hv Hc Hroles Hcr. revert views roles Hv Hroles. induction bs as [|b bs IH]; intros views roles Hv Hroles.
  { cbn. intros [= <- <-]. split; [done|]. by intros []. }
  assert (∀ views roles, views_ok contents views →
    (∀ r, roles = Some r → ∃ s, past ROLES s ∧ ∀ k v, (k, v) ∈ r → starts_with k ROLES = true ∧ obj_at s k v) →
    cached_namespaced caches views roles user req ns croles bs = (views', why) →
    views_ok contents views' ∧
    (is_Some why → ∃ b0 s key role, b0 ∈ b :: bs ∧ subjects_match b0 user = true ∧ role_key ns b0 = Some key ∧
       past (role_source b0) s ∧ obj_at s key role ∧ rules_permit role req = true)) as IH'.
  { intros v r H1 H2 E. destruct (IH v r H1 H2 E) as [H3 H4]. split; [done|]. intros Hw.
    destruct (H4 Hw) as (b0 & s & key & role & Hb & H5). exists b0, s, key, role. split; [by right|done]. }
  cbn [cached_namespaced]. destruct (subjects_match b user) eqn:Es; cbn [negb]; [|by apply IH'].
  destruct (ref_kind b =? "ClusterRole")%kube eqn:Ek.
  { destruct (role_permits croles _ req) eqn:Er; [|by apply IH']. intros [= <- <-]. split; [done|]. intros _.
    apply role_permits_at in Er as (role & Hr & Hp). destruct Hcr as (s & Hs & Hat).
    exists b, s, (cluster_key "clusterroles" (ref_name b)), role. unfold role_key, role_source. rewrite Ek.
    split_and!; try done; [by left|by apply Hat]. }
  destruct (ref_kind b =? "Role")%kube eqn:Ek2; [|by apply IH'].
  destruct (match roles with Some r => (views, Some r) | None => view caches views ROLES end) as [v2 got] eqn:Eg.
  assert (views_ok contents v2 ∧ ∀ r, got = Some r →
    ∃ s, past ROLES s ∧ ∀ k v, (k, v) ∈ r → starts_with k ROLES = true ∧ obj_at s k v) as [Hv2 Hgot].
  { destruct roles as [r|]; [by injection Eg as <- <-|]. by eapply view_spec. }
  destruct got as [r|]; [|intros [= <- <-]; split; [done|by intros []]].
  destruct (role_permits r _ req) eqn:Er; [|by apply IH']. intros [= <- <-]. split; [done|]. intros _.
  apply role_permits_at in Er as (role & Hr & Hp). destruct (Hgot r eq_refl) as (s & Hs & Hat).
  exists b, s, (namespaced_key "roles" ns (ref_name b)), role. unfold role_key, role_source. rewrite Ek, Ek2.
  split_and!; try done; [by left|by apply Hat].
Qed.

Lemma take_while_in {A} (f : A → bool) (l : list A) x : x ∈ MemStore.take_while f l → x ∈ l ∧ f x = true.
Proof.
  induction l as [|y l IH]; cbn; [by intros ?%not_elem_of_nil|]. destruct (f y) eqn:E; [|by intros ?%not_elem_of_nil].
  intros [->|Hx]%elem_of_cons; [split; [by left|done]|]. apply IH in Hx as [? ?]. split; [by right|done].
Qed.
Lemma drop_while_in {A} (f : A → bool) (l : list A) x : x ∈ MemStore.drop_while f l → x ∈ l.
Proof. induction l as [|y l IH]; cbn; [done|]. destruct (f y); [|done]. intros Hx. right. by apply IH. Qed.

Lemma cached_allow_sound contents past caches views user req views' why :
  views_ok contents views → caches_ok contents past caches →
  cached_allow caches views user req = (views', why) →
  views_ok contents views' ∧ (is_Some why → granted past user req).
Proof.
  intros Hv Hc. unfold cached_allow.
  destruct (view caches views CLUSTER_ROLE_BINDINGS) as [v1 o1] eqn:E1.
  destruct (view_spec _ _ _ _ _ _ _ Hv Hc E1) as [Hv1 Ho1].
  destruct o1 as [bs|]; [|intros [= <- <-]; split; [done|by intros []]].
  destruct (Ho1 bs eq_refl) as (s1 & Hs1 & Hat1).
  destruct (view caches v1 CLUSTER_ROLES) as [v2 o2] eqn:E2.
  destruct (view_spec _ _ _ _ _ _ _ Hv1 Hc E2) as [Hv2 Ho2].
  destruct o2 as [croles|]; [|intros [= <- <-]; split; [done|by intros []]].
  pose proof (Ho2 croles eq_refl) as (s2 & Hs2 & Hat2).
  destruct (cached_cluster user req croles (snd <$> bs)) as [w|] eqn:Ecl.
  { intros [= <- <-]. split; [done|]. intros _. left. apply cached_cluster_at in Ecl as (b & role & Hb & Hsub & Hk & Hr & Hp).
    apply list_elem_of_fmap in Hb as ([k b'] & -> & Hb). destruct (Hat1 k b' Hb) as [Hpre Hob].
    exists s1, s2, k, b', (cluster_key "clusterroles" (ref_name b')), role. split_and!; try done. by apply Hat2. }
  destruct (namespace req) as [ns|] eqn:En; [|intros [= <- <-]; split; [done|by intros []]].
  destruct (view caches v2 ROLE_BINDINGS) as [v3 o3] eqn:E3.
  destruct (view_spec _ _ _ _ _ _ _ Hv2 Hc E3) as [Hv3 Ho3].
  destruct o3 as [rbs|]; [|intros [= <- <-]; split; [done|by intros []]].
  destruct (Ho3 rbs eq_refl) as (s3 & Hs3 & Hat3). intros E.
  eapply cached_namespaced_at in E as [Hv' Hw]; [|exact Hv3|exact Hc|done|by exists s2].
  split; [done|]. intros Hs. destruct (Hw Hs) as (b & s4 & key & role & Hb & Hsub & Hk & Hs4 & Hr & Hp). right.
  apply list_elem_of_fmap in Hb as ([k b'] & -> & Hb). apply take_while_in in Hb as [Hb Hpre]. apply drop_while_in in Hb.
  destruct (Hat3 k b' Hb) as [_ Hob]. by exists ns, s3, s4, k, b', key, role.
Qed.

(** C5: The authorizer is exact.  Let the store serve, hold JSON objects under
    its keys, and hold at most 1000 ClusterRoleBindings, and RoleBindings of the
    request's namespace (the engine reads one page of each); and let each copy
    of a watch cache answered from be what the store held under its prefix at
    some time (a torn copy, [WatchFanout.torn_page], is not).  Then every
    decision is made (no 503); superusers are always allowed; a request the
    stored bindings grant is always allowed, whatever the copies in memory show,
    so a new grant takes effect at once; and any other request is allowed only
    when the stored bindings grant it, or those of the copies the decision read
    did, so a revoked grant lasts no longer than the cache lags. *)
Theorem authorizer_exact dev contents past caches views s user req :
  kv_wf s → serving s → clean s → pages_fit s req → views_ok contents views → caches_ok contents past caches →
  ∃ views' d, authorize_with_reason dev caches views s user req = Some (views', d) ∧
    views_ok contents views' ∧ d_unavailable d = None ∧
    (is_superuser dev user = true ∨ granted (now s) user req → allowed d = true) ∧
    (allowed d = true → is_superuser dev user = true ∨ granted (now s) user req ∨ granted past user req).
Proof.
  intros Hwf Hs Hc Hp Hv Hca. unfold authorize_with_reason, is_superuser.
  destruct (str_in "system:masters" (groups user)) eqn:Em; [eexists _, _; split; [done|]; split_and!; auto|].
  destruct (dev && (username user =? "system:anonymous")%kube) eqn:Ed; [eexists _, _; split; [done|]; split_and!; auto|].
  destruct (cached_allow caches views user req) as [views' why] eqn:E.
  destruct (cached_allow_sound _ _ _ _ _ _ _ _ Hv Hca E) as [Hv' Hw]. destruct why as [why|].
  - eexists _, _. split; [done|]. split_and!; [done|done|done|]. intros _. right. right. by apply Hw.
  - destruct (authorize_store_exact s user req Hwf Hs Hc Hp) as (d & Hd & Hu & Hg). rewrite Hd.
    eexists _, _. split; [done|]. split_and!; [done|done| |].
    + intros [?|?]; [done|]. by apply Hg.
    + intros Ha%Hg. by right; left.
Qed.
End Grants.

Section Refusals.
  Context {S : Type} `{KvStore S} `{JsonCodec}.

(** A refusal is only a refusal when everything was read.  For any store,
    failing or not: a request that is not allowed is answered as denied exactly
    when no read it rests on failed (a binding's missing role is no failure),
    and as undecided, a 503, exactly when one did; and a read that fails never
    turns into an allow. *)
Theorem denied_iff_read (s : S) user req d :
  authorize_store s user req = Some d →
  (allowed d = true ↔ store_grants s user req) ∧
  (allowed d = false → (d_unavailable d = None ↔ ¬ store_fails s user req) ∧ ¬ store_grants s user req).
Proof.
  intros Hd. destruct (authorize_store_spec s user req d Hd) as [H1 H2]. split; [done|]. intros Ha.
  split; [by apply H2|]. rewrite <- H1. by rewrite Ha.
Qed.
End Refusals.

(** ** The reviews agree with the authorizer *)

Section Reviews.
  Context {S : Type} `{KvStore S} `{JsonCodec}.
  Implicit Types s : S.

(** A rule as a review shows it matches what the rule itself matches. *)
Lemma resource_half_matches rule r req :
  r ∈ resource_half rule → rule_matches r req = rule_matches rule req.
Proof.
  unfold resource_half. destruct (nonempty_array rule.["resources"]) eqn:Er; [|by intros ?%not_elem_of_nil].
  intros ->%list_elem_of_singleton. unfold rule_matches.
  destruct (nonempty_array rule.["resourceNames"]) eqn:En; cbn [app].
  all: match goal with |- context [json_obj ?l] =>
         change ((json_obj l).["apiGroups"]) with rule.["apiGroups"];
         change ((json_obj l).["resources"]) with rule.["resources"];
         change ((json_obj l).["verbs"]) with rule.["verbs"] end.
  - match goal with |- context [json_obj ?l] =>
      change ((json_obj l).["resourceNames"]) with rule.["resourceNames"] end. done.
  - match goal with |- context [json_obj ?l] => change ((json_obj l).["resourceNames"]) with Null end.
    cbn [as_array]. unfold nonempty_array in En. destruct (as_array rule.["resourceNames"]) as [[|]|]; done.
Qed.

Lemma rule_matches_resources rule req : rule_matches rule req = true → nonempty_array rule.["resources"] = true.
Proof.
  unfold rule_matches, nonempty_array, items. destruct (as_array rule.["resources"]) as [[|]|]; cbn; try done;
    by rewrite orb_true_r.
Qed.

Lemma absorb_rules set role r :
  r ∈ resource_rules (absorb set role) ↔
  r ∈ resource_rules set ∨ ∃ rule, rule ∈ items role.["rules"] ∧ r ∈ resource_half rule.
Proof.
  unfold absorb. revert set. induction (items role.["rules"]) as [|rule rules IH]; intros set; cbn [fold_left].
  - split; [by left|]. intros [?|(? & ?%not_elem_of_nil & _)]; done.
  - rewrite IH. cbn [resource_rules]. rewrite elem_of_app. set_solver.
Qed.

(** What the bindings of a user add. *)
Definition bound_rule (s : S) (key_of : Value → option string) (bs : list Value) (r : Value) : Prop :=
  ∃ b key role rule, b ∈ bs ∧ key_of b = Some key ∧ get s key = Some (Ok role) ∧
    rule ∈ items role.["rules"] ∧ r ∈ resource_half rule.

Lemma absorb_bindings_rules s key_of set bs set' r :
  absorb_bindings s key_of set bs = Some set' →
  r ∈ resource_rules set' ↔ r ∈ resource_rules set ∨ bound_rule s key_of bs r.
Proof.
  revert set. induction bs as [|b bs IH]; intros set; cbn [absorb_bindings].
  - intros [= <-]. split; [by left|]. intros [?|(? & ? & ? & ? & ?%not_elem_of_nil & _)]; done.
  - assert (∀ P : Prop, (bound_rule s key_of (b :: bs) r ↔ P ∨ bound_rule s key_of bs r) ↔
      (bound_rule s key_of (b :: bs) r ↔ P ∨ bound_rule s key_of bs r)) as _ by done.
    destruct (key_of b) as [key|] eqn:Ek.
    2:{ intros E%IH. rewrite E. unfold bound_rule. split; (intros [?|(b' & key & role & rule & Hb & H')]; [by left|right]).
        - exists b', key, role, rule. split; [by right|done].
        - exists b', key, role, rule. split; [|done]. apply elem_of_cons in Hb as [->|?]; [|done].
          destruct H' as (? & _). congruence. }
    destruct (get s key) as [[role|e]|] eqn:Eg; cbn [mbind option_bind]; [| |done]; intros E%IH; rewrite E.
    + rewrite absorb_rules. unfold bound_rule. split.
      * intros [[?|(rule & Hr & Hh)]|(b' & key' & role' & rule & Hb & H')]; [by left| |]; right.
        -- exists b, key, role, rule. split_and!; try done. by left.
        -- exists b', key', role', rule. split; [by right|done].
      * intros [?|(b' & key' & role' & rule & Hb & Hk & Hg & Hr & Hh)]; [by left; left|].
        apply elem_of_cons in Hb as [->|Hb]; [left; right; exists rule|right; by exists b', key', role', rule].
        assert (role' = role) as -> by congruence. done.
    + unfold bound_rule. cbn [mark_incomplete resource_rules].
      split; (intros [?|(b' & key' & role' & rule & Hb & Hk & Hg & H')]; [by left|right]).
      * exists b', key', role', rule. split; [by right|done].
      * exists b', key', role', rule. split; [|done]. apply elem_of_cons in Hb as [->|?]; [congruence|done].
Qed.

(** Some rule among what a prefix's bindings add matches. *)
Lemma absorb_prefix_matches s user key_of prefix set set' req :
  absorb_prefix s user key_of prefix set = Some set' →
  (∃ r, r ∈ resource_rules set' ∧ rule_matches r req = true) ↔
  (∃ r, r ∈ resource_rules set ∧ rule_matches r req = true) ∨ prefix_grants s user req key_of prefix.
Proof.
  unfold absorb_prefix, prefix_grants. destruct (list_objects s prefix) as [[bs|e]|]; cbn [mbind option_bind]; [| |done].
  2:{ intros [= <-]. cbn [mark_incomplete resource_rules]. split; [by left|]. by intros [?|(? & ? & _)]. }
  intros E. split.
  - intros (r & Hr & Hm). rewrite (absorb_bindings_rules _ _ _ _ _ _ E) in Hr.
    destruct Hr as [Hr|(b & key & role & rule & Hb & Hk & Hg & Hrule & Hh)]; [left; by exists r|right].
    apply elem_of_filter_b in Hb as [Hb Hs]. exists bs. split; [done|]. exists b, key, role. split_and!; try done.
    apply existsb_exists. exists rule. rewrite (resource_half_matches _ _ req Hh) in Hm.
    split; [by apply list_elem_of_In|done].
  - intros [(r & Hr & Hm)|(bs' & [= <-] & b & key & role & Hb & Hs & Hk & Hg & Hp)].
    { exists r. split; [|done]. rewrite (absorb_bindings_rules _ _ _ _ _ _ E). by left. }
    apply existsb_exists in Hp as (rule & Hrule & Hm). apply list_elem_of_In in Hrule.
    assert (∃ r, r ∈ resource_half rule) as [r Hr].
    { unfold resource_half. rewrite (rule_matches_resources _ _ Hm). eexists. by left. }
    exists r. rewrite (absorb_bindings_rules _ _ _ _ _ _ E), (resource_half_matches _ _ req Hr). split; [|done].
    right. exists b, key, role, rule. split_and!; try done. by apply elem_of_filter_b.
Qed.

Lemma no_rules_match req : ¬ ∃ r, r ∈ resource_rules no_rules ∧ rule_matches r req = true.
Proof. intros (r & ?%not_elem_of_nil & _). done. Qed.

Lemma rules_for_spec dev s user ns set req :
  is_superuser dev user = false → rules_for dev s user ns = Some set →
  (∃ r, r ∈ resource_rules set ∧ rule_matches r req = true) ↔
  prefix_grants s user req cluster_role_key (cluster_prefix "clusterrolebindings") ∨
  ∃ n, ns = Some n ∧ prefix_grants s user req (role_key n) (namespace_prefix "rolebindings" n).
Proof.
  intros Hs. unfold rules_for. rewrite Hs.
  destruct (absorb_prefix s user cluster_role_key _ no_rules) as [set1|] eqn:E1; cbn [mbind option_bind]; [|done].
  apply (absorb_prefix_matches _ _ _ _ _ _ req) in E1. pose proof (no_rules_match req) as Hn. destruct ns as [ns|].
  - intros E2. apply (absorb_prefix_matches _ _ _ _ _ _ req) in E2. rewrite E2, E1. naive_solver.
  - intros [= <-]. rewrite E1. naive_solver.
Qed.

(** The rules review and the authorizer agree: the rules listed for a user
    in a namespace contain one that matches a request in that namespace exactly
    when the stored bindings grant the user that request. *)
Theorem rules_review_agrees dev s user set req :
  is_superuser dev user = false → rules_for dev s user (namespace req) = Some set →
  (∃ r, r ∈ resource_rules set ∧ rule_matches r req = true) ↔ store_grants s user req.
Proof.
  intros Hs E. rewrite (rules_for_spec dev s user _ set req Hs E). unfold store_grants. done.
Qed.

(** *** Who can *)

(** A user the answer of [who_can] lists, by name or by group. *)
Definition listed (out : WhoCan) (user : UserInfo) : Prop :=
  username user ∈ w_users out ∨ ∃ g, g ∈ groups user ∧ g ∈ w_groups out.

(** No ServiceAccount has an empty namespace. *)
Definition plain_name (user : UserInfo) : Prop := starts_with (username user) "system:serviceaccount::" = false.

Lemma str_is_or v k : k ≠ "" → (str_or "" v =? k)%kube = str_is v k.
Proof. intros Hk. unfold str_or, str_is. destruct (as_str v); [done|]. cbn [default]. apply str_eqb_neq. done. Qed.

Lemma take_subject_listed b out user subject :
  plain_name user →
  listed (take_subject (str_or "" b.["metadata"].["namespace"]) out subject) user ↔
  listed out user ∨ subject_matches b user subject = true.
Proof.
  intros Hp. unfold take_subject, subject_matches, listed.
  rewrite (str_is_or _ "User"), (str_is_or _ "Group"), (str_is_or _ "ServiceAccount") by done.
  set (name := str_or "" subject.["name"]).
  destruct (str_is subject.["kind"] "User") eqn:E1; cbn [andb w_users w_groups].
  { apply str_is_spec in E1. rewrite E1. cbn. rewrite elem_of_union, elem_of_singleton.
    destruct (name =? username user)%kube eqn:En; cbn.
    - apply str_eqb_eq in En. naive_solver.
    - apply str_eqb_neq in En. naive_solver. }
  destruct (str_is subject.["kind"] "Group") eqn:E2; cbn [andb w_users w_groups].
  { apply str_is_spec in E2. rewrite E2. cbn. setoid_rewrite elem_of_union. setoid_rewrite elem_of_singleton.
    destruct (str_in name (groups user)) eqn:En.
    - apply str_in_In, list_elem_of_In in En. split; [by right|]. intros _. right. exists name. auto.
    - assert (name ∉ groups user) as Hn by (intros Hn%list_elem_of_In%str_in_In; congruence). naive_solver. }
  destruct (str_is subject.["kind"] "ServiceAccount") eqn:E3; [|intuition discriminate].
  cbn [w_users w_groups]. rewrite elem_of_union, elem_of_singleton.
  destruct (nonempty_str subject.["namespace"]) as [ns|]; cbn [or_else default].
  - rewrite str_eqb_eq. naive_solver.
  - unfold nonempty_str, str_or. destruct (as_str b.["metadata"].["namespace"]) as [bns|]; cbn [default].
    + destruct bns as [|c bns]; cbn [is_empty_str]; [|rewrite str_eqb_eq; naive_solver].
      split; [|naive_solver]. intros [[Hu|?]|?]; [|by left; left|by left; right]. exfalso. unfold plain_name in Hp.
      rewrite Hu in Hp. unfold id in Hp. change (service_account "" name) with ("system:serviceaccount::" ++ name)%string in Hp.
      by rewrite starts_with_app in Hp.
    + split; [|naive_solver]. intros [[Hu|?]|?]; [|by left; left|by left; right]. exfalso. unfold plain_name in Hp.
      rewrite Hu in Hp. unfold id in Hp. change (service_account "" name) with ("system:serviceaccount::" ++ name)%string in Hp.
      by rewrite starts_with_app in Hp.
Qed.

Lemma take_subjects_listed out b user :
  plain_name user → listed (take_subjects out b) user ↔ listed out user ∨ subjects_match b user = true.
Proof.
  intros Hp. unfold take_subjects, subjects_match. revert out.
  induction (items b.["subjects"]) as [|x l IH]; intros out; cbn [fold_left existsb]; [intuition discriminate|].
  rewrite IH, (take_subject_listed b out user x Hp), orb_true_iff. tauto.
Qed.

Lemma who_bindings_listed s req key_of missing out bs out' user :
  plain_name user → who_bindings s req key_of missing out bs = Some out' →
  listed out' user ↔ listed out user ∨ grants_at s user req key_of bs.
Proof.
  intros Hp. revert out. induction bs as [|b bs IH]; intros out; cbn [who_bindings].
  - intros [= <-]. split; [by left|]. intros [?|(? & ? & ? & ?%not_elem_of_nil & _)]; done.
  - rewrite grants_at_cons. destruct (key_of b) as [key|] eqn:Ek.
    2:{ intros E%IH. rewrite E. split; [tauto|]. intros [?|[(_ & ? & ? & ? & _)|?]]; [tauto|done|tauto]. }
    destruct (get s key) as [[role|e]|] eqn:Eg; cbn [mbind option_bind]; [| |done]; intros E%IH; rewrite E.
    + destruct (rules_permit role req) eqn:Er.
      * rewrite take_subjects_listed by done. split.
        -- intros [[?|Hs]|?]; [tauto| |tauto]. right. left. split; [done|]. by exists key, role.
        -- intros [?|[(Hs & _)|?]]; tauto.
      * split; [tauto|]. intros [?|[(_ & ? & ? & [= <-] & ? & ?)|?]]; [tauto|congruence|tauto].
    + split; [intros [?|?]; tauto|]. intros [?|[(_ & ? & ? & [= <-] & ? & ?)|?]]; [tauto|congruence|tauto].
Qed.

Lemma who_prefix_listed s req key_of missing prefix out out' user :
  plain_name user → who_prefix s req key_of missing prefix out = Some out' →
  listed out' user ↔ listed out user ∨ prefix_grants s user req key_of prefix.
Proof.
  intros Hp. unfold who_prefix, prefix_grants. destruct (list_objects s prefix) as [[bs|e]|]; cbn [mbind option_bind]; [| |done].
  - intros E. rewrite (who_bindings_listed _ _ _ _ _ _ _ _ Hp E). split; [intros [?|?]; [by left|right; by exists bs]|].
    intros [?|(bs' & [= <-] & ?)]; tauto.
  - intros [= <-]. split; [by left|]. by intros [?|(? & ? & _)].
Qed.

(** The access review and the authorizer agree: the users and groups that
    [who_can] lists for a request are exactly those the authorizer allows it
    to, superusers included. *)
Theorem who_can_agrees dev s req out user :
  plain_name user → namespace req ≠ Some "" → who_can dev s req = Some out →
  listed out user ↔ is_superuser dev user = true ∨ store_grants s user req.
Proof.
  intros Hp Hns. unfold who_can, store_grants.
  set (out0 := mkWho _ _ _). assert (listed out0 user ↔ is_superuser dev user = true) as Hsup.
  { unfold listed, is_superuser, out0. cbn [w_users w_groups]. rewrite orb_true_iff, str_in_In.
    split.
    - intros [Hu|(g & Hg & ->%elem_of_singleton)]; [right|left; by apply list_elem_of_In].
      destruct dev; [|by apply elem_of_empty in Hu]. apply elem_of_singleton in Hu. rewrite Hu. done.
    - intros [Hg|Hu]; [right; exists "system:masters"; split; [by apply list_elem_of_In|by apply elem_of_singleton]|left].
      destruct dev; [|done]. cbn in Hu. apply str_eqb_eq in Hu. by apply elem_of_singleton. }
  destruct (who_prefix s req cluster_role_key _ _ out0) as [out1|] eqn:E1; cbn [mbind option_bind]; [|done].
  apply (who_prefix_listed _ _ _ _ _ _ _ _ Hp) in E1. rewrite Hsup in E1. destruct (namespace req) as [ns|] eqn:En.
  - destruct ns as [|c ns]; [done|]. cbn [is_empty_str]. intros E2.
    apply (who_prefix_listed _ _ _ _ _ _ _ _ Hp) in E2. rewrite E2, E1. split.
    + intros [[?|?]|?]; [tauto|tauto|]. right. right. by exists (String c ns).
    + intros [?|[?|(ns' & [= <-] & ?)]]; tauto.
  - intros [= <-]. rewrite E1. split; [tauto|]. intros [?|[?|(ns' & ? & _)]]; [tauto|tauto|done].
Qed.
End Reviews.

(** ** Witnesses *)

Module RbacDemo.
#[export] Existing Instance Demo.codec.

Definition arr (l : list string) : Value := Array (Str <$> l).

Definition reader : Value :=
  json_obj [("kind", Str "ClusterRole"); ("metadata", json_obj [("name", Str "reader")]);
            ("rules", Array [json_obj [("apiGroups", arr [""]); ("resources", arr ["configmaps"; "pods/*"]);
                                       ("verbs", arr ["get"; "list"])]])].
Definition binding : Value :=
  json_obj [("kind", Str "ClusterRoleBinding"); ("metadata", json_obj [("name", Str "alice-reads")]);
            ("roleRef", json_obj [("kind", Str "ClusterRole"); ("name", Str "reader")]);
            ("subjects", Array [json_obj [("kind", Str "User"); ("name", Str "alice")]])].

Definition role_at : string := cluster_key "clusterroles" "reader".
Definition binding_at : string := cluster_key "clusterrolebindings" "alice-reads".

Definition store1 : MemStore.t := Eval vm_compute in (create Demo.floats Demo.store0 role_at reader).1.
Definition store : MemStore.t := Eval vm_compute in (create Demo.floats store1 binding_at binding).1.

Definition alice : UserInfo := mkUser "alice" ["system:authenticated"].
Definition read_log : AuthorizationRequest := mkReq "get" "pods" (Some "log") "" (Some "default") (Some "web").

Definition no_caches : Caches := λ _, (Err Conflict, Err Conflict).

Lemma rbac_wf1 : kv_wf store1.
Proof. apply (mem_wf_put 0 [] role_at _ false Demo.wf0). done. Qed.
Lemma wf : kv_wf store.
Proof. apply (mem_wf_put 1 _ binding_at _ false rbac_wf1). done. Qed.

Lemma is_clean : clean store.
Proof.
  intros k b r Hk%map_get_In. cbn in Hk. destruct Hk as [E|[E|[]]]; injection E as <- <- <-;
    (eexists; split; [vm_compute; reflexivity|done]).
Qed.

Lemma fits : pages_fit store read_log.
Proof. split; [|split; [|done]]; unfold one_page; vm_compute; lia. Qed.
End RbacDemo.

#[local] Existing Instance Demo.codec.

Lemma authorizer_exact_witness :
  ∃ views d, authorize_with_reason false RbacDemo.no_caches ∅ RbacDemo.store RbacDemo.alice RbacDemo.read_log
             = Some (views, d) ∧ allowed d = true ∧ granted (now RbacDemo.store) RbacDemo.alice RbacDemo.read_log.
Proof.
  destruct (authorizer_exact false (λ _ _, []) (λ _ _, False) RbacDemo.no_caches ∅ RbacDemo.store RbacDemo.alice
              RbacDemo.read_log RbacDemo.wf eq_refl RbacDemo.is_clean RbacDemo.fits)
    as (views & d & Hd & _ & _ & _ & Hsound).
  - intros p v E. by rewrite lookup_empty in E.
  - intros p c [E|E]; discriminate E.
  - exists views, d. split; [exact Hd|]. assert (allowed d = true) as Ha.
    { vm_compute in Hd. by injection Hd as _ <-. }
    split; [exact Ha|]. destruct (Hsound Ha) as [Hs|[Hg|Hg]]; [discriminate Hs|exact Hg|].
    exfalso. destruct Hg as [(? & ? & ? & ? & ? & ? & [] & _)|(? & ? & ? & ? & ? & ? & ? & _ & [] & _)].
Defined.

Lemma denied_iff_read_witness :
  let s := MemStore.set_unavailable RbacDemo.store true in
  ∃ cause, authorize_store s RbacDemo.alice RbacDemo.read_log = Some (undecided cause) ∧
    ¬ store_grants s RbacDemo.alice RbacDemo.read_log.
Proof.
  eexists. split; [vm_compute; reflexivity|].
  eapply (denied_iff_read (MemStore.set_unavailable RbacDemo.store true) RbacDemo.alice RbacDemo.read_log);
    [vm_compute; reflexivity|reflexivity].
Defined.

Lemma rules_review_agrees_witness :
  ∃ set r, rules_for false RbacDemo.store RbacDemo.alice (Some "default") = Some set ∧
    r ∈ resource_rules set ∧ rule_matches r RbacDemo.read_log = true ∧
    store_grants RbacDemo.store RbacDemo.alice RbacDemo.read_log.
Proof.
  eexists _, _. split; [vm_compute; reflexivity|]. split; [by left|]. split; [reflexivity|].
  eapply (rules_review_agrees false RbacDemo.store RbacDemo.alice _ RbacDemo.read_log); [reflexivity|vm_compute; reflexivity|].
  eexists. split; [by left|reflexivity].
Defined.

Lemma who_can_agrees_witness :
  ∃ out, who_can false RbacDemo.store RbacDemo.read_log = Some out ∧ listed out RbacDemo.alice.
Proof.
  destruct (who_can false RbacDemo.store RbacDemo.read_log) as [out|] eqn:E; [|vm_compute in E; discriminate E].
  exists out. split; [reflexivity|].
  apply (who_can_agrees false RbacDemo.store RbacDemo.read_log out RbacDemo.alice); [reflexivity|discriminate|exact E|].
  right. left. eexists. split; [vm_compute; reflexivity|]. eexists _, _, _. split; [by left|].
  split; [reflexivity|]. split; [reflexivity|]. split; [vm_compute; reflexivity|reflexivity].
Defined.
