(* ===== verification/Escalation.v ===== *)
(** * RBAC escalation prevention ([pkg/apiserver/src/escalation.rs])

    A write of a Role, a ClusterRole or one of their bindings is let through
    when its writer already holds what it hands out.  [uncovered] lists the
    parts of some rules that a set of held rules does not cover; [confirm] is
    the admission check around it.

    [debug] is Rust's [{:?}] of a string, used only in messages. *)

From Stdlib Require Import ZArith Lia String Ascii.
From stdpp Require Import base gmap strings numbers option list.
From S2P Require Import Prelude Text BTree Json F64 Quantity Store ApiError Codec Storage WatchCache Rbac.
Open Scope string_scope.
Open Scope kube_scope.
Open Scope Z_scope.

Definition GROUP : string := "rbac.authorization.k8s.io".

Definition applies (group resource : string) (subresource : option string) : bool :=
  (group =? GROUP)%kube && match subresource with None => true | Some _ => false end
  && str_in resource ["roles"; "clusterroles"; "rolebindings"; "clusterrolebindings"].

(** ** Covering *)

Definition strings (v : Value) : list string := omap as_str (items v).

Definition has (l : list string) (s : string) : bool := existsb (λ x, (x =? "*")%kube || (x =? s)%kube) l.

Definition covers_resource (o : Value) (group resource verb : string) (name : option string) : bool :=
  if negb (has (strings o.["verbs"]) verb) || negb (has (strings o.["apiGroups"]) group) then false
  else
    let resources := strings o.["resources"] in
    let resource_ok :=
      has resources resource
      || match split_once "/" resource with
         | Some (base, sub) => existsb (λ r, (r =? "*/" ++ sub)%kube || (r =? base ++ "/*")%kube) resources
         | None => false
         end in
    if negb resource_ok then false
    else
      let names := strings o.["resourceNames"] in
      match names with [] => true | _ => match name with Some n => str_in n names | None => false end end.

Definition covers_url (o : Value) (url verb : string) : bool :=
  has (strings o.["verbs"]) verb
  && existsb (λ u, (u =? url)%kube
                   || (match strip_suffix "*" u with Some _ => true | None => false end
                       && starts_with url (trim_end_char "*" u)))
             (strings o.["nonResourceURLs"]).

Section Uncovered.
  Variable debug : string → string.

Definition lacks_resource (group resource verb : string) : string :=
  "{APIGroups:[" ++ debug group ++ "], Resources:[" ++ debug resource ++ "], Verbs:[" ++ debug verb ++ "]}".
Definition lacks_named (group resource name verb : string) : string :=
  "{APIGroups:[" ++ debug group ++ "], Resources:[" ++ debug resource ++ "], ResourceNames:[" ++ debug name
  ++ "], Verbs:[" ++ debug verb ++ "]}".
Definition lacks_url (url verb : string) : string :=
  "{NonResourceURLs:[" ++ debug url ++ "], Verbs:[" ++ debug verb ++ "]}".

Definition uncovered_verb (owner : list Value) (names : list string) (group resource verb : string) : list string :=
  let held name := existsb (λ o, covers_resource o group resource verb name) owner in
  match names with
  | [] => if held None then [] else [lacks_resource group resource verb]
  | _ => flat_map (λ n, if held (Some n) then [] else [lacks_named group resource n verb]) names
  end.

Definition uncovered_rule (owner owner_non_resource : list Value) (rule : Value) : list string :=
  let verbs := strings rule.["verbs"] in
  let names := strings rule.["resourceNames"] in
  (flat_map (λ group, flat_map (λ resource, flat_map (uncovered_verb owner names group resource) verbs)
                               (strings rule.["resources"]))
            (strings rule.["apiGroups"])
   ++ flat_map (λ url, flat_map (λ verb, if existsb (λ o, covers_url o url verb) owner_non_resource
                                         then [] else [lacks_url url verb]) verbs)
               (strings rule.["nonResourceURLs"]))%list.

Definition uncovered (owner owner_non_resource rules : list Value) : list string :=
  flat_map (uncovered_rule owner owner_non_resource) rules.
End Uncovered.

(** ** The admission check *)

Definition GC_FIELDS : list string := ["ownerReferences"; "finalizers"; "resourceVersion"; "managedFields"; "generation"].

(** [v["metadata"].as_object_mut()] makes the key, and an object of [Null];
    it panics on any other value. *)
Definition strip_gc (v : Value) : option Value :=
  match v with
  | Object m =>
      let m := if contains_key m "metadata" then m else map_insert m "metadata" Null in
      Some (match map_get m "metadata" with
            | Some (Object md) => Object (map_insert m "metadata" (Object (fold_left (λ md f, map_remove md f) GC_FIELDS md)))
            | _ => Object m
            end)
  | Null => Some (Object [("metadata", Null)])
  | _ => None
  end.

Definition only_gc_fields_changed (old new : Value) : option bool :=
  o ← strip_gc old; n ← strip_gc new; Some (value_eqb o n).

Definition kind_of_resource (resource : string) : string :=
  if (resource =? "roles")%kube then "Role"
  else if (resource =? "clusterroles")%kube then "ClusterRole"
  else if (resource =? "rolebindings")%kube then "RoleBinding"
  else "ClusterRoleBinding".

(** The namespace the write hands its rules out in; none for the cluster. *)
Definition scope_of (resource : string) (namespace : option string) (obj : Value) : option string :=
  if str_in resource ["roles"; "rolebindings"]
  then or_else (nonempty_str obj.["metadata"].["namespace"]) namespace else None.

Definition ask (scope : option string) (verb resource name : string) : AuthorizationRequest :=
  mkReq verb resource None GROUP scope (Some name).

Definition role_ref_key (scope : option string) (ref_resource ref_name : string) : string :=
  match scope with
  | Some ns => if (ref_resource =? "roles")%kube then namespaced_key "roles" ns ref_name
               else cluster_key "clusterroles" ref_name
  | None => cluster_key "clusterroles" ref_name
  end.

Section Confirm.
  Context {S : Type} `{KvStore S} `{JsonCodec}.
  Variable debug : string → string.

Definition refused (resource name why : string) : ApiError :=
  forbidden (resource ++ "." ++ GROUP ++ " " ++ quoted name ++ " is forbidden: " ++ why).

Definition lines (l : list string) : string := String.concat (String "010" "") l.

(** The last part: what is handed out against what the user holds. *)
Definition confirm_rules (dev : bool) (s : S) (user : UserInfo) (resource name : string) (scope : option string)
    (rules : Value) : option (result unit ApiError) :=
  held ← rules_for dev s user scope;
  let missing := uncovered debug (resource_rules held) (non_resource_rules held) (items rules) in
  Some (match missing with
        | [] => Ok tt
        | _ =>
            let why := "user " ++ quoted (username user) ++ " (groups=[" ++ String.concat " " (map debug (groups user))
                       ++ "]) is attempting to grant RBAC permissions not currently held:" ++ String "010" ""
                       ++ lines missing
                       ++ (if incomplete held then String "010" "(some of the user's own roles could not be read)" else "")
            in Err (refused resource name why)
        end).

Definition confirm (dev : bool) (caches : Caches) (views : Views) (s : S) (user : UserInfo) (resource : string)
    (namespace : option string) (obj : Value) (old : option Value) : option (Views * result unit ApiError) :=
  if is_superuser dev user then Some (views, Ok tt)
  else
    gc ← match old with Some old => only_gc_fields_changed old obj | None => Some false end;
    if (gc : bool) then Some (views, Ok tt)
    else
      let scope := scope_of resource namespace obj in
      let name := object_name obj in
      let kind := kind_of_resource resource in
      if str_in kind ["Role"; "ClusterRole"] then
        '(views, yes) ← authorize dev caches views s user (ask scope "escalate" resource name);
        if (yes : bool) then Some (views, Ok tt)
        else if (kind =? "ClusterRole")%kube && negb (is_null obj.["aggregationRule"]) then
          Some (views, Err (refused resource name
            ("user " ++ quoted (username user) ++ " must hold " ++ quoted "escalate"
             ++ " on clusterroles to write a ClusterRole with an aggregationRule")))
        else
          r ← confirm_rules dev s user resource name scope obj.["rules"]; Some (views, r)
      else
        let rk := ref_kind obj in
        let rn := ref_name obj in
        let ref_resource :=
          if (rk =? "ClusterRole")%kube then Some "clusterroles"
          else match scope with Some _ => if (rk =? "Role")%kube then Some "roles" else None | None => None end in
        match ref_resource with
        | None => Some (views, Err (invalid (kind ++ " " ++ quoted name
                                             ++ " is invalid: roleRef.kind: Unsupported value: " ++ quoted rk)))
        | Some ref_resource =>
            '(views, yes) ← authorize dev caches views s user (ask scope "bind" ref_resource rn);
            if (yes : bool) then Some (views, Ok tt)
            else
              role ← get s (role_ref_key scope ref_resource rn);
              match role with
              | Err _ => Some (views, Err (refused resource name
                  ("user " ++ quoted (username user) ++ " may not bind " ++ rk ++ " " ++ quoted rn
                   ++ ": it could not be read, and binding it needs " ++ quoted "bind" ++ " on it")))
              | Ok role => r ← confirm_rules dev s user resource name scope role.["rules"]; Some (views, r)
              end
        end.
End Confirm.

(** ** What covering is worth *)

(** A rule as the API's schema has it: lists of strings, verbs present. *)
Definition all_strings (v : Value) : Prop := Forall (λ x, is_string x = true) (items v).

Definition typed_rule (rule : Value) : Prop :=
  is_array rule.["verbs"] = true ∧ all_strings rule.["verbs"] ∧ all_strings rule.["apiGroups"] ∧
  all_strings rule.["resources"] ∧ all_strings rule.["resourceNames"].

(** A held rule without a resource pattern of the form [*/sub]. *)
Definition plain_owner (o : Value) : Prop :=
  all_strings o.["resourceNames"] ∧ ∀ r, In r (strings o.["resources"]) → starts_with r "*/" = false.

Lemma in_strings x v : In x (strings v) ↔ In (Str x) (items v).
Proof.
  unfold strings. rewrite <- !list_elem_of_In, list_elem_of_omap. split.
  - intros (y & Hy & E). destruct y; try done. by injection E as ->.
  - intros Hx. by exists (Str x).
Qed.

Lemma existsb_strings f v :
  all_strings v → existsb (λ x, f (str_or "" x)) (items v) = true → ∃ x, In x (strings v) ∧ f x = true.
Proof.
  unfold all_strings. rewrite Forall_forall. intros Hall [y [Hy Hf]]%existsb_exists.
  pose proof (Hall y (proj2 (list_elem_of_In _ _) Hy)) as Hs. destruct y as [| | |x| |]; try done.
  exists x. rewrite in_strings. done.
Qed.

Lemma strings_existsb f v x : In x (strings v) → f x = true → existsb (λ y, f (str_or "" y)) (items v) = true.
Proof. intros Hx%in_strings Hf. apply existsb_exists. by exists (Str x). Qed.

Lemma has_spec l s : has l s = true ↔ In "*" l ∨ In s l.
Proof.
  unfold has. rewrite existsb_exists. split.
  - intros (x & Hx & [->%str_eqb_eq| ->%str_eqb_eq]%orb_true_iff); auto.
  - intros [Hx|Hx]; eexists; (split; [exact Hx|]); rewrite str_eqb_refl; [done|apply orb_true_r].
Qed.

Lemma star_or_spec g x : ((g =? "*")%kube || (g =? x)%kube)%bool = true ↔ g = "*" ∨ g = x.
Proof. by rewrite orb_true_iff, !str_eqb_eq. Qed.

Lemma split_once_Some c s a b : split_once c s = Some (a, b) → s = (a ++ String c b)%string.
Proof.
  revert a. induction s as [|x s IH]; intros a; cbn; [done|]. destruct (Ascii.eqb x c) eqn:E.
  - apply Ascii.eqb_eq in E as ->. by intros [= <- ->].
  - destruct (split_once c s) as [[l r]|]; [|done]. intros [= <- ->]. cbn. by rewrite (IH l eq_refl) at 1.
Qed.

Lemma app_snoc_inv (a b c : string) x :
  (a ++ c = b ++ String x "")%string → c ≠ "" → ∃ z, b = (a ++ z)%string.
Proof.
  revert b. induction a as [|y a IH]; intros b E Hc; [by exists b|]. destruct b as [|y' b]; cbn in E.
  - injection E as -> E. destruct a; [|done]. cbn in E. done.
  - injection E as -> E. destruct (IH b E Hc) as [z ->]. by exists z.
Qed.

(** [base/*] grants whatever a pattern under [base/] grants. *)
Lemma subresource_wildcard base sub r target :
  split_once "/" r = Some (base, sub) → resource_pattern r target = true → resource_pattern (base ++ "/*") target = true.
Proof.
  intros Hs%split_once_Some. unfold resource_pattern. rewrite !orb_true_iff, !str_eqb_eq.
  assert (∀ t, starts_with t (base ++ "/") = true → under_wildcard (base ++ "/*") t = true) as Hw.
  { intros t Ht. unfold under_wildcard. by rewrite strip_suffix_app. }
  intros [[Hr|Hr]|Hr]; right; apply Hw.
  - exfalso. rewrite Hr in Hs. destruct base as [|c [|c' base]]; cbn in Hs; done.
  - apply starts_with_spec. exists sub. rewrite <- Hr, Hs. by rewrite <- str_app_assoc.
  - unfold under_wildcard in Hr. destruct (strip_suffix "/*" r) as [b'|] eqn:Eb; [|done].
    apply strip_suffix_Some in Eb. apply starts_with_spec in Hr as [t ->].
    assert ((base ++ "/") ++ sub = (b' ++ "/") ++ String "*" "")%string as E.
    { rewrite <- !str_app_assoc. cbn. by rewrite <- Eb, Hs. }
    destruct (app_snoc_inv _ _ _ _ E) as [z Hz].
    + intros ->. rewrite str_app_nil_r in E. assert (∀ a c x y, (a ++ String x "" = c ++ String y "")%string → x = y) as Hlast.
      { clear. induction a as [|q a IH]; intros [|p c] x y; cbn; intros [=]; subst; try done; [destruct c|destruct a|by eapply IH]; done. }
      by apply Hlast in E.
    + rewrite Hz. apply starts_with_spec. exists (z ++ t)%string. by rewrite str_app_assoc.
Qed.

(** A held rule that covers one verb on one resource grants every request that
    the verb on the resource grants. *)
Lemma covers_matches o g r v n req :
  plain_owner o → covers_resource o g r v n = true →
  g = "*" ∨ g = api_group req → resource_pattern r (target_of req) = true → v = "*" ∨ v = verb req →
  n = None ∨ req_name req = n ∨ req_name req = None →
  rule_matches o req = true.
Proof.
  intros [Hnames Hplain]. unfold covers_resource.
  destruct (has (strings o.["verbs"]) v) eqn:Hv; cbn [negb orb]; [|done].
  destruct (has (strings o.["apiGroups"]) g) eqn:Hg; cbn [negb]; [|done]. apply has_spec in Hv, Hg.
  intros Hcov Hgr Hr Hvr Hn.
  assert (∃ x, In x (strings o.["apiGroups"]) ∧ ((x =? "*")%kube || (x =? api_group req)%kube) = true) as (xg & Hxg & Eg).
  { destruct Hg as [Hg|Hg]; [exists "*"; by split|exists g; split; [done|]]. by apply star_or_spec. }
  assert (∃ x, In x (strings o.["verbs"]) ∧ ((x =? "*")%kube || (x =? verb req)%kube) = true) as (xv & Hxv & Ev).
  { destruct Hv as [Hv|Hv]; [exists "*"; by split|exists v; split; [done|]]. by apply star_or_spec. }
  assert (∃ x, In x (strings o.["resources"]) ∧ resource_pattern x (target_of req) = true) as (xr & Hxr & Er).
  { destruct (has (strings o.["resources"]) r) eqn:Hh.
    - apply has_spec in Hh as [Hh|Hh]; [exists "*"|exists r]; by split.
    - destruct (split_once "/" r) as [[base sub]|] eqn:Es; [|done]. cbn [orb] in Hcov.
      destruct (existsb _ _) eqn:Hex; [|done]. apply existsb_exists in Hex as (x & Hx & Hor).
      apply orb_true_iff in Hor as [->%str_eqb_eq| ->%str_eqb_eq].
      + apply Hplain in Hx. change ("*/" ++ sub)%string with ("*/" ++ sub)%string in Hx. by rewrite starts_with_app in Hx.
      + exists (base ++ "/*")%string. split; [done|]. by eapply subresource_wildcard. }
  assert (match strings o.["resourceNames"] with [] => true
          | _ => match n with Some n => str_in n (strings o.["resourceNames"]) | None => false end end = true) as Hnm.
  { destruct (negb _); [done|]. exact Hcov. }
  unfold rule_matches.
  assert (match items o.["apiGroups"] with [] => true | _ => false end = false) as ->.
  { apply in_strings in Hxg. by destruct (items o.["apiGroups"]). }
  assert (match items o.["resources"] with [] => true | _ => false end = false) as ->.
  { apply in_strings in Hxr. by destruct (items o.["resources"]). }
  cbn [orb]. rewrite (strings_existsb (λ g, (g =? "*")%kube || (g =? api_group req)%kube) _ _ Hxg Eg). cbn [negb].
  rewrite (strings_existsb (λ r, resource_pattern r (target_of req)) _ _ Hxr Er). cbn [negb].
  assert (match as_array o.["verbs"] with
          | Some vs => negb (existsb (λ v, (str_or "" v =? "*")%kube || (str_or "" v =? verb req)%kube) vs)
          | None => false end = false) as ->.
  { pose proof (strings_existsb (λ v, (v =? "*")%kube || (v =? verb req)%kube) _ _ Hxv Ev) as He. unfold items in He.
    destruct (as_array o.["verbs"]); [|done]. cbn in He |- *. by rewrite He. }
  destruct (as_array o.["resourceNames"]) as [[|n0 ns]|] eqn:Ea; [done| |done].
  destruct (req_name req) as [rn|] eqn:Ern; [|done].
  assert (items o.["resourceNames"] = n0 :: ns) as Ei by (unfold items; by rewrite Ea).
  assert (strings o.["resourceNames"] ≠ []) as Hne.
  { unfold all_strings in Hnames. rewrite Ei in Hnames. inversion Hnames as [|? ? Hs0 _]; subst. destruct n0; try done.
    unfold strings. rewrite Ei. done. }
  destruct (strings o.["resourceNames"]) as [|y ys] eqn:Est; [done|].
  destruct n as [n|]; [|done]. destruct Hn as [|[[= ->]|]]; [done| |done].
  apply str_in_In in Hnm. rewrite <- Est in Hnm. apply in_strings in Hnm. rewrite Ei in Hnm.
  apply existsb_exists. exists (Str n). split; [done|]. by apply str_is_spec.
Qed.

Lemma flat_map_nil {A B} (f : A → list B) l : flat_map f l = [] → ∀ x, In x l → f x = [].
Proof.
  induction l as [|y l IH]; cbn; [done|]. intros [Hy Hl]%app_eq_nil x [->|Hx]; [done|]. by apply IH.
Qed.

(** Nothing uncovered: the held rules grant whatever the new ones do. *)
Lemma uncovered_nil debug owner owner_urls rules req :
  uncovered debug owner owner_urls rules = [] → Forall typed_rule rules → Forall plain_owner owner →
  existsb (λ rule, rule_matches rule req) rules = true → ∃ o, o ∈ owner ∧ rule_matches o req = true.
Proof.
  intros Hu Ht Ho (rule & Hrule & Hm)%existsb_exists. pose proof (flat_map_nil _ _ Hu rule Hrule) as Hr.
  rewrite Forall_forall in Ht. destruct (Ht rule) as (Ha & Hv & Hg & Hres & Hn); [by apply list_elem_of_In|].
  unfold uncovered_rule in Hr. apply app_eq_nil in Hr as [Hr _]. unfold rule_matches in Hm.
  destruct (match items rule.["apiGroups"] with [] => true | _ => false end || _); [done|].
  destruct (existsb _ (items rule.["apiGroups"])) eqn:Eg; cbn [negb] in Hm; [|done].
  destruct (existsb _ (items rule.["resources"])) eqn:Er; cbn [negb] in Hm; [|done].
  apply (existsb_strings (λ g, (g =? "*")%kube || (g =? api_group req)%kube) _ Hg) in Eg as (g & Hg' & Eg).
  apply (existsb_strings (λ r, resource_pattern r (target_of req)) _ Hres) in Er as (r & Hr' & Er).
  assert (∃ v, In v (strings rule.["verbs"]) ∧ ((v =? "*")%kube || (v =? verb req)%kube) = true) as (v & Hv' & Ev).
  { apply existsb_strings; [done|]. unfold items. destruct (as_array rule.["verbs"]) as [vs|] eqn:Ea.
    - cbn. destruct (existsb _ vs); done.
    - by destruct rule.["verbs"]. }
  pose proof (flat_map_nil _ _ (flat_map_nil _ _ (flat_map_nil _ _ Hr g Hg') r Hr') v Hv') as Hone. cbn beta in Hone.
  assert (∃ n, (∃ o, o ∈ owner ∧ covers_resource o g r v n = true) ∧ (n = None ∨ req_name req = n ∨ req_name req = None))
    as (n & (o & Hoin & Hcov) & Hname).
  { unfold uncovered_verb in Hone.
    assert (∀ n, existsb (λ o, covers_resource o g r v n) owner = true → ∃ o, o ∈ owner ∧ covers_resource o g r v n = true) as Hex.
    { intros n (o & Hin & Hc)%existsb_exists. exists o. by rewrite list_elem_of_In. }
    destruct (strings rule.["resourceNames"]) as [|n0 ns] eqn:En.
    - exists None. destruct (existsb _ owner) eqn:E; [|done]. split; [by apply Hex|by left].
    - assert (∃ n, In n (n0 :: ns) ∧ (req_name req = Some n ∨ req_name req = None)) as (n & Hin & Hrn).
      { destruct (req_name req) as [rn|] eqn:Ern; [|exists n0; split; [by left|by right]].
        exists rn. split; [|by left]. rewrite <- En, in_strings. unfold items.
        destruct (match as_array rule.["verbs"] with Some _ => _ | None => false end); [done|].
        destruct (as_array rule.["resourceNames"]) as [[|y ys]|] eqn:Ea;
          [unfold strings, items in En; by rewrite Ea in En| |unfold strings, items in En; by rewrite Ea in En].
        cbn. apply existsb_exists in Hm as (z & Hz & ->%str_is_spec). done. }
      exists (Some n). split; [|by right]. apply Hex. pose proof (flat_map_nil _ _ Hone n Hin) as Hc. cbn beta in Hc.
      by destruct (existsb _ owner). }
  exists o. split; [done|]. rewrite Forall_forall in Ho.
  eapply covers_matches; [by apply Ho|exact Hcov|by apply star_or_spec|exact Er|by apply star_or_spec|exact Hname].
Qed.

(** The role a binding hands out, as the authorizer will resolve it. *)
Definition bound_key (scope : option string) (obj : Value) : option string :=
  match scope with Some ns => role_key ns obj | None => cluster_role_key obj end.

(** The rules a write hands out: a role's own, or those of the role bound. *)
Definition hands_out {S} `{KvStore S} `{JsonCodec} (s : S) (resource : string) (scope : option string) (obj rules : Value) :
    Prop :=
  if str_in (kind_of_resource resource) ["Role"; "ClusterRole"] then rules = obj.["rules"]
  else ∃ key role, bound_key scope obj = Some key ∧ get s key = Some (Ok role) ∧ rules = role.["rules"].

(** What exempts a write: [escalate] on the role written, [bind] on the role bound. *)
Definition exemption (resource : string) (scope : option string) (obj : Value) (req : AuthorizationRequest) : Prop :=
  req = ask scope "escalate" resource (object_name obj) ∨
  ∃ res, str_in res ["roles"; "clusterroles"] = true ∧ req = ask scope "bind" res (ref_name obj).


(** ** What slips through *)

(** A rule that names no verbs. *)
Definition verbless : Value :=
  json_obj [("apiGroups", Array [Str "*"]); ("resources", Array [Str "*"])].

(** A rule without a [verbs] list escapes the check.  The authorizer reads
    an absent list as every verb, [uncovered] as none: whatever the writer
    holds, nothing is found missing, and the rule grants every request. *)
Theorem verbless_rule_escapes debug owner owner_urls req :
  uncovered debug owner owner_urls [verbless] = [] ∧ rule_matches verbless req = true.
Proof.
  split; [reflexivity|]. unfold rule_matches. change (items verbless.["apiGroups"]) with [Str "*"].
  change (items verbless.["resources"]) with [Str "*"]. reflexivity.
Qed.

(** A rule on [*/status] counts as holding [pods/status], which the authorizer
    does not grant by it. *)
Lemma star_sub_held_not_granted debug :
  let owner := json_obj [("apiGroups", Array [Str ""]); ("resources", Array [Str "*/status"]); ("verbs", Array [Str "update"])] in
  let rule := json_obj [("apiGroups", Array [Str ""]); ("resources", Array [Str "pods/status"]); ("verbs", Array [Str "update"])] in
  let req := mkReq "update" "pods" (Some "status") "" (Some "default") (Some "web") in
  uncovered debug [owner] [] [rule] = [] ∧ rule_matches rule req = true ∧ rule_matches owner req = false.
Proof. split_and!; reflexivity. Qed.

(** ** Witness *)

Module EscalationDemo.
#[export] Existing Instance Demo.codec.

(** Alice hands out, in [default], part of what she holds everywhere. *)
Definition role : Value :=
  json_obj [("kind", Str "Role"); ("metadata", json_obj [("name", Str "logs"); ("namespace", Str "default")]);
            ("rules", Array [json_obj [("apiGroups", Array [Str ""]); ("resources", Array [Str "pods/log"]);
                                       ("verbs", Array [Str "get"])]])].
End EscalationDemo.

#[local] Existing Instance Demo.codec.

