(* ===== verification/RbacRequest.v ===== *)
(** * Authorizing a request ([pkg/apiserver/src/rbac_engine.rs],
      [pkg/apiserver/src/csr_admission.rs])

    From an HTTP path and method to an authorization request, the identity a
    request assumes by its [Impersonate-*] headers, the middleware that every
    request passes, and the narrowing of CertificateSigningRequests.

    One request sees one state of the store and of the caches; the engine's
    views are threaded through its checks.  [None] is a panic. *)

From Stdlib Require Import ZArith Lia String Ascii.
From stdpp Require Import base gmap strings numbers option list.
From S2P Require Import Prelude Text BTree Json F64 Quantity Store ApiError Codec Storage WatchCache Rbac.
Open Scope string_scope.
Open Scope kube_scope.
Open Scope Z_scope.

(** ** Paths *)

Record ParsedPath := mkPath {
  p_group : string;
  p_resource : string;
  p_namespace : option string;
  p_name : option string;
  p_sub : option string }.

(** Below [/api/v1/]. *)
Definition core_path (segs : list string) : option ParsedPath :=
  match segs with
  | [r] => Some (mkPath "" r None None None)
  | [r; n] =>
      if (r =? "namespaces")%kube then Some (mkPath "" "namespaces" (Some n) (Some n) None)
      else Some (mkPath "" r None (Some n) None)
  | r :: n :: x :: rest =>
      if (r =? "nodes")%kube && (x =? "proxy")%kube then Some (mkPath "" "nodes" None (Some n) (Some "proxy"))
      else if (r =? "namespaces")%kube then
        match rest with
        | [] => if str_in x ["status"; "finalize"] then Some (mkPath "" "namespaces" None (Some n) (Some x))
                else Some (mkPath "" x (Some n) None None)
        | [y] => Some (mkPath "" x (Some n) (Some y) None)
        | [y; z] => Some (mkPath "" x (Some n) (Some y) (Some z))
        | _ => None
        end
      else match rest with [] => Some (mkPath "" r None (Some n) (Some x)) | _ => None end
  | [] => None
  end.

(** Below [/apis/{group}/{version}/]. *)
Definition group_path (group : string) (segs : list string) : option ParsedPath :=
  match segs with
  | [r] => Some (mkPath group r None None None)
  | [r; n] =>
      if (group =? "project.openshift.io")%kube && (r =? "projects")%kube
      then Some (mkPath group "projects" (Some n) (Some n) None)
      else Some (mkPath group r None (Some n) None)
  | [r; n; x] =>
      if (r =? "namespaces")%kube then Some (mkPath group x (Some n) None None)
      else Some (mkPath group r None (Some n) (Some x))
  | [r; n; x; y] => if (r =? "namespaces")%kube then Some (mkPath group x (Some n) (Some y) None) else None
  | [r; n; x; y; z] => if (r =? "namespaces")%kube then Some (mkPath group x (Some n) (Some y) (Some z)) else None
  | _ => None
  end.

Definition parse_path_segments (segments : list string) : option ParsedPath :=
  match segments with
  | a :: b :: rest =>
      if (a =? "api")%kube && (b =? "v1")%kube then core_path rest
      else if (a =? "apis")%kube then match rest with _version :: rest => group_path b rest | [] => None end
      else None
  | _ => None
  end.

Definition verb_of (meth : string) (name : option string) : option string :=
  if (meth =? "GET")%kube then Some (match name with Some _ => "get" | None => "list" end)
  else if (meth =? "POST")%kube then Some "create"
  else if (meth =? "PUT")%kube then Some "update"
  else if (meth =? "PATCH")%kube then Some "patch"
  else if (meth =? "DELETE")%kube then Some "delete"
  else None.

Definition parse_authorization_request (path meth : string) : option AuthorizationRequest :=
  p ← parse_path_segments (split_on "/" (trim_start_char "/" path));
  verb ← verb_of meth (p_name p);
  let verb :=
    if is_empty_str (p_group p) && (p_resource p =? "pods")%kube
       && match p_sub p with Some sub => str_in sub ["exec"; "attach"; "portforward"] | None => false end
    then "create" else verb in
  let namespace :=
    if is_empty_str (p_group p) && (p_resource p =? "namespaces")%kube && negb (verb =? "get")%kube
    then None else p_namespace p in
  Some (mkReq verb (p_resource p) (p_sub p) (p_group p) namespace (p_name p)).

Definition is_discovery_path (path : string) : bool :=
  if (path =? "/api/v1")%kube then true
  else
    match strip_prefix "/apis/" path with
    | None => false
    | Some rest =>
        let rest := default rest (strip_suffix "/" rest) in
        negb (is_empty_str rest) && Nat.leb (List.length (split_on "/" rest)) 2
        && match strip_suffix "/" rest with Some _ => false | None => true end
    end.

Definition OPEN_PATHS : list string := ["/healthz"; "/livez"; "/readyz"; "/version"; "/api"; "/apis"; "/api/"; "/apis/"].

(** ** CertificateSigningRequests *)

Definition CSR_GROUP : string := "certificates.k8s.io".
Definition CSR_RESOURCE : string := "certificatesigningrequests".
Definition FORGE_NODE_SIGNER : string := "storm.io/forge-node".

Definition is_bootstrapper (user : UserInfo) : bool :=
  str_in "system:bootstrappers" (groups user) && negb (str_in "system:masters" (groups user)).

(** Over the query's decoded pairs; [None] of the inner loop ends it with none. *)
Fixpoint watched_go (pairs : list (string * string)) (watch : bool) (name : option string) : option (bool * option string) :=
  match pairs with
  | [] => Some (watch, name)
  | (k, v) :: rest =>
      if (k =? "watch")%kube then watched_go rest (str_in v ["true"; "1"]) name
      else if (k =? "fieldSelector")%kube then
        let v := trim v in
        match or_else (strip_prefix "metadata.name==" v) (strip_prefix "metadata.name=" v) with
        | None => None
        | Some n => if is_empty_str n || str_contains_char "," n then None else watched_go rest watch (Some n)
        end
      else if (k =? "labelSelector")%kube && negb (is_empty_str v) then None
      else watched_go rest watch name
  end.

Definition watched_name (query : option (list (string * string))) : option string :=
  pairs ← query; '(watch, name) ← watched_go pairs false None; if (watch : bool) then name else None.

(** [object["spec"] = {}] unless it is an object; [None]: neither object nor null. *)
Definition on_create (user : UserInfo) (object : Value) : option (result Value ApiError) :=
  obj ← (if is_object object.["spec"] then Some object else set_index object "spec" (json_obj []));
  let signer := str_or "" obj.["spec"].["signerName"] in
  if is_bootstrapper user && negb (signer =? FORGE_NODE_SIGNER)%kube then
    Some (Err (forbidden ("certificatesigningrequests is forbidden: User " ++ quoted (username user)
      ++ " may only request signerName " ++ quoted FORGE_NODE_SIGNER ++ ", not " ++ quoted signer)))
  else
    match obj.["spec"] with
    | Object spec =>
        let spec := map_insert spec "username" (Str (username user)) in
        let spec := map_insert spec "groups" (Array (Str <$> groups user)) in
        let spec := map_remove (map_remove spec "uid") "extra" in
        obj' ← set_index obj "spec" (Object spec); Some (Ok obj')
    | _ => None
    end.

Definition keep_stored (sub : option string) (object stored : Value) : option Value :=
  obj ← set_index object "spec" stored.["spec"];
  match sub with
  | None => set_index obj "status" stored.["status"]
  | Some sub =>
      if (sub =? "approval")%kube then
        match Json.get stored.["status"] "certificate" with
        | Some c => set_index2 obj "status" "certificate" c
        | None =>
            (* [object["status"]] makes the key when it is not there *)
            let obj := match obj with
                       | Object m => if contains_key m "status" then obj else Object (map_insert m "status" Null)
                       | _ => obj
                       end in
            Some (remove_at obj "status" "certificate")
        end
      else Some obj
  end.

Inductive Operation := OpCreate | OpUpdate | OpDelete.

Section Requests.
  Context {S : Type} `{KvStore S} `{JsonCodec}.
  Variable dev : bool.
  Variable caches : Caches.
  Variable s : S.

(** [true]: every check passed. *)
Fixpoint first_refused (views : Views) (user : UserInfo) (checks : list AuthorizationRequest) :
    option (Views * option AuthorizationRequest) :=
  match checks with
  | [] => Some (views, None)
  | c :: rest =>
      '(views, yes) ← authorize dev caches views s user c;
      if (yes : bool) then first_refused views user rest else Some (views, Some c)
  end.

(** *** Impersonation *)

(** The [Impersonate-User], [-Group] and [-Uid] headers that are text. *)
Record Impersonation := mkImp { i_user : option string; i_groups : list string; i_uid : option string }.

Definition impersonate (resource group : string) (ns : option string) (name : string) : AuthorizationRequest :=
  mkReq "impersonate" resource None group ns (Some name).

Definition account_of (username : string) : option (string * string) :=
  strip_prefix "system:serviceaccount:" username ≫= split_once ":".

Definition imp_checks (username : string) (h : Impersonation) : list AuthorizationRequest :=
  (match account_of username with
   | Some (ns, name) => impersonate "serviceaccounts" "" (Some ns) name
   | None => impersonate "users" "" None username
   end
   :: ((λ g, impersonate "groups" "" None g) <$> i_groups h)
   ++ match i_uid h with Some u => [impersonate "uids" "authentication.k8s.io" None u] | None => [] end)%list.

Definition imp_groups (username : string) (h : Impersonation) : list string :=
  let out := match i_groups h, account_of username with
             | [], Some (ns, _) => ["system:serviceaccounts"; ("system:serviceaccounts:" ++ ns)%string]
             | gs, _ => gs
             end in
  if negb (username =? "system:anonymous")%kube && negb (str_in "system:authenticated" out)
  then (out ++ ["system:authenticated"])%list else out.

Definition impersonated (views : Views) (user : UserInfo) (h : Impersonation) :
    option (Views * result (option UserInfo) ApiError) :=
  match i_user h with
  | None =>
      match i_groups h, i_uid h with
      | [], None => Some (views, Ok None)
      | _, _ => Some (views, Err (bad_request "requested impersonation of groups or a uid without impersonating a user"))
      end
  | Some name =>
      '(views, bad) ← first_refused views user (imp_checks name h);
      match bad with
      | Some c => Some (views, Err (forbidden (username user ++ " is not allowed to impersonate " ++ resource c ++ " "
                                               ++ quoted (default "" (req_name c)))))
      | None => Some (views, Ok (Some (mkUser name (imp_groups name h))))
      end
  end.

(** *** CSR reads and writes *)

Definition csr_refusal (user : UserInfo) : ApiError :=
  forbidden ("certificatesigningrequests is forbidden: User " ++ quoted (username user)
             ++ " may read only its own requests, by name").

Definition guard_read (user : UserInfo) (req : AuthorizationRequest) (query : option (list (string * string))) :
    option (result unit ApiError) :=
  if negb (api_group req =? CSR_GROUP)%kube || negb (resource req =? CSR_RESOURCE)%kube || negb (is_bootstrapper user)
  then Some (Ok tt)
  else if negb (str_in (verb req) ["get"; "list"; "watch"]) then Some (Ok tt)
  else
    match or_else (req_name req) (watched_name query) with
    | None => Some (Err (csr_refusal user))
    | Some name =>
        r ← get s (cluster_key CSR_RESOURCE name);
        Some (match r with
              | Ok csr => if str_is csr.["spec"].["username"] (username user) then Ok tt else Err (csr_refusal user)
              | Err _ => Err (csr_refusal user)
              end)
    end.

Definition signer_names (signer : string) : list string :=
  signer :: match split_once "/" signer with Some (domain, _) => [(domain ++ "/*")%string] | None => [] end.

(** The first of the signer's names that the user may [verb] lets it through. *)
Fixpoint require_go (views : Views) (user : UserInfo) (verb : string) (names : list string) : option (Views * bool) :=
  match names with
  | [] => Some (views, false)
  | n :: rest =>
      '(views, yes) ← authorize dev caches views s user (mkReq verb "signers" None CSR_GROUP None (Some n));
      if (yes : bool) then Some (views, true) else require_go views user verb rest
  end.

Definition require (views : Views) (user : UserInfo) (verb signer : string) : option (Views * result unit ApiError) :=
  '(views, yes) ← require_go views user verb (signer_names signer);
  Some (views, if (yes : bool) then Ok tt
               else Err (forbidden ("user not permitted to " ++ verb ++ " requests with signerName " ++ quoted signer
                                    ++ " (User " ++ quoted (username user) ++ ")"))).

(** The object admitted, or the refusal; [rbac]: whether the request carries the engine. *)
Definition csr_admit (rbac : bool) (views : Views) (user : UserInfo) (op : Operation) (sub : option string) (object : Value)
    (old : option Value) : option (Views * result Value ApiError) :=
  match op, sub, old with
  | OpCreate, None, _ => r ← on_create user object; Some (views, r)
  | OpUpdate, _, Some stored =>
      obj ← keep_stored sub object stored;
      if negb rbac then Some (views, Ok obj)
      else
        let signer := str_or "" stored.["spec"].["signerName"] in
        let needs :=
          match sub with
          | Some sub =>
              if (sub =? "approval")%kube then Some "approve"
              else if (sub =? "status")%kube
                      && negb (value_eqb obj.["status"].["certificate"] stored.["status"].["certificate"])
              then Some "sign" else None
          | None => None
          end in
        match needs with
        | None => Some (views, Ok obj)
        | Some verb =>
            '(views, r) ← require views user verb signer;
            Some (views, match r with Ok _ => Ok obj | Err e => Err e end)
        end
  | _, _, _ => Some (views, Ok object)
  end.

(** *** The middleware *)

(** [Refuse e retry]: the error, with [Retry-After: 1] when [retry]. *)
Inductive Outcome := Open | Forward (user : UserInfo) | Refuse (e : ApiError) (retry : bool).

Definition nobody : UserInfo := mkUser "system:anonymous" ["system:unauthenticated"].

Definition under_api (path : string) : bool := starts_with path "/api/" || starts_with path "/apis/".
Definition metrics_path (path : string) : bool := (path =? "/metrics")%kube || starts_with path "/metrics/".

Definition not_allowed (user : UserInfo) (req : AuthorizationRequest) : ApiError :=
  forbidden (username user ++ " is not allowed to " ++ verb req ++ " " ++ target_of req ++ " in the namespace "
             ++ quoted (default "" (namespace req))).

Definition authorizer_unavailable (user : UserInfo) : ApiError :=
  unavailable ("authorization of " ++ username user ++ " could not be decided: the datastore is unavailable").

(** After the identity is settled. *)
Definition decide_request (views : Views) (user : UserInfo) (path meth : string) (query : option (list (string * string))) :
    option (Views * Outcome) :=
  match parse_authorization_request path meth with
  | None => Some (views, Forward user)
  | Some req =>
      '(views, d) ← authorize_with_reason dev caches views s user req;
      match d_unavailable d with
      | Some _ => Some (views, Refuse (authorizer_unavailable user) true)
      | None =>
          if negb (allowed d) then Some (views, Refuse (not_allowed user req) false)
          else
            g ← guard_read user req query;
            Some (views, match g with Ok _ => Forward user | Err e => Refuse e false end)
      end
  end.

(** With the engine installed, as the server does. *)
Definition rbac_middleware (views : Views) (path meth : string) (auth : option UserInfo) (h : Impersonation)
    (query : option (list (string * string))) : option (Views * Outcome) :=
  if str_in path OPEN_PATHS then Some (views, Open)
  else if is_discovery_path path && (meth =? "GET")%kube then Some (views, Open)
  else
    '(views, r) ← impersonated views (default nobody auth) h;
    match r with
    | Err e => Some (views, Refuse e false)
    | Ok as_user =>
        let user := default (default nobody auth) as_user in
        if match parse_authorization_request path meth with None => under_api path | Some _ => false end then
          Some (views, Refuse (forbidden (username user ++ " cannot be authorized for " ++ path
                                          ++ ": unrecognized API path")) false)
        else
          ok ← (if metrics_path path then d ← authorize_non_resource dev s user path "get"; Some (allowed d)
                else Some true);
          if negb (ok : bool) then
            Some (views, Refuse (forbidden ("forbidden: User " ++ quoted (username user) ++ " cannot get path "
                                            ++ quoted path)) false)
          else decide_request views user path meth query
    end.
End Requests.

(** ** Theorems *)

Section RequestTheorems.
  Context {S : Type} `{KvStore S} `{JsonCodec}.
  Variables (dev : bool) (caches : Caches).
  Implicit Types s : S.

(** The engine allows it, from some state of its views. *)
Definition allows (s : S) (user : UserInfo) (req : AuthorizationRequest) : Prop :=
  ∃ views views' d, authorize_with_reason dev caches views s user req = Some (views', d) ∧ allowed d = true.

Lemma first_refused_none s views user checks views' :
  first_refused dev caches s views user checks = Some (views', None) → Forall (allows s user) checks.
Proof.
  revert views. induction checks as [|c checks IH]; intros views; cbn [first_refused]; [constructor|].
  unfold authorize. destruct (authorize_with_reason dev caches views s user c) as [[v d]|] eqn:E; cbn [mbind option_bind]; [|done].
  destruct (allowed d) eqn:Ed; [|done]. intros Hr. constructor; [by exists views, v, d|by eapply IH].
Qed.

(** Assuming an identity needs permission for each part of it.  A request
    that impersonates is let through as that user only when the caller may
    impersonate the user (or the ServiceAccount, in its namespace), every group
    asked for and the uid asked for; and the groups it then has are those asked
    for, a ServiceAccount's own when none is asked for, and
    [system:authenticated]. *)
Theorem impersonation_needs_permission s views views' user h as_user :
  impersonated dev caches s views user h = Some (views', Ok (Some as_user)) →
  i_user h = Some (username as_user) ∧
  Forall (allows s user) (imp_checks (username as_user) h) ∧
  (∀ g, g ∈ groups as_user → g ∈ i_groups h ∨ g = "system:authenticated" ∨
     (i_groups h = [] ∧ ∃ ns name, account_of (username as_user) = Some (ns, name) ∧
        (g = "system:serviceaccounts" ∨ g = ("system:serviceaccounts:" ++ ns)%string))).
Proof.
  unfold impersonated. destruct (i_user h) as [name|]; [|by repeat case_match].
  destruct (first_refused dev caches s views user (imp_checks name h)) as [[v [c|]]|] eqn:E; cbn [mbind option_bind]; [done| |done].
  intros [= <- <-]. cbn [username groups]. split_and!; [done|by eapply first_refused_none|]. intros g. unfold imp_groups.
  set (out := match i_groups h with [] => _ | _ => _ end).
  assert (∀ x, x ∈ out → x ∈ i_groups h ∨ (i_groups h = [] ∧ ∃ ns n, account_of name = Some (ns, n) ∧
            (x = "system:serviceaccounts" ∨ x = ("system:serviceaccounts:" ++ ns)%string))) as Hout.
  { unfold out. destruct (i_groups h) as [|g0 gs]; [|by left]. destruct (account_of name) as [[ns n]|] eqn:Ea; [|by left].
    intros x Hx. right. split; [done|]. exists ns, n. split; [done|]. set_solver. }
  destruct (_ && _); [|naive_solver]. rewrite elem_of_app, list_elem_of_singleton. naive_solver.
Qed.

Lemma decide_forward s views views' user path meth query u :
  decide_request dev caches s views user path meth query = Some (views', Forward u) →
  u = user ∧ ∀ req, parse_authorization_request path meth = Some req → allows s u req.
Proof.
  unfold decide_request. destruct (parse_authorization_request path meth) as [req|]; [|by intros [= _ <-]].
  destruct (authorize_with_reason dev caches views s user req) as [[v d]|] eqn:E; cbn [mbind option_bind]; [|done].
  destruct (d_unavailable d); [done|]. destruct (allowed d) eqn:Ed; cbn [negb]; [|done].
  destruct (guard_read s user req query) as [[[]|e]|]; cbn [mbind option_bind]; [|done|done]. intros [= _ <-].
  split; [done|]. intros r [= <-]. by exists views, v, d.
Qed.

(** C7: Nothing reaches the API unauthorized.  A request the middleware passes
    without a check is for one of the open documents, or a GET of a discovery
    document; any other request under [/api/] or [/apis/] that reaches a handler
    was read as an authorization request and allowed to the user it runs as. *)
Theorem api_requests_authorized s views views' path meth auth h query out :
  rbac_middleware dev caches s views path meth auth h query = Some (views', out) →
  (out = Open → In path OPEN_PATHS ∨ (is_discovery_path path = true ∧ meth = "GET")) ∧
  ∀ user, out = Forward user → under_api path = true →
    ∃ req, parse_authorization_request path meth = Some req ∧ allows s user req.
Proof.
  unfold rbac_middleware. destruct (str_in path OPEN_PATHS) eqn:Eo.
  { intros [= _ <-]. split; [|done]. intros _. left. by apply str_in_In. }
  destruct (is_discovery_path path && (meth =? "GET")%kube) eqn:Ed.
  { intros [= _ <-]. split; [|done]. intros _. right. apply andb_true_iff in Ed as [? ?%str_eqb_eq]. done. }
  destruct (impersonated dev caches s views (default nobody auth) h) as [[v [as_user|e]]|]; cbn [mbind option_bind];
    [|by intros [= _ <-]|done].
  destruct (parse_authorization_request path meth) as [req|] eqn:Ep.
  - destruct (if metrics_path path then _ else _) as [[]|]; cbn [mbind option_bind negb]; [| |done]; [|by intros [= _ <-]].
    intros E. split.
    + intros ->. unfold decide_request in E. rewrite Ep in E. clear -E. by repeat (case_match || simplify_option_eq).
    + intros user -> _. destruct (decide_forward _ _ _ _ _ _ _ _ E) as [-> Hall]. exists req. split; [done|]. by apply Hall.
  - destruct (under_api path) eqn:Eu; [by intros [= _ <-]|].
    destruct (if metrics_path path then _ else _) as [[]|]; cbn [mbind option_bind negb]; [| |done]; [|by intros [= _ <-]].
    intros E. split; [|done]. intros ->. unfold decide_request in E. by rewrite Ep in E.
Qed.

(** *** CSRs *)

Lemma set_index_spec v k x w : set_index v k x = Some w → w.[k] = x ∧ ∀ k', k' ≠ k → w.[k'] = v.[k'].
Proof. intros E. split; [by eapply index_set_index|]. intros k' Hk. by eapply index_set_index_ne. Qed.

Lemma keep_stored_spec sub object stored obj : keep_stored sub object stored = Some obj → obj.["spec"] = stored.["spec"].
Proof.
  unfold keep_stored. destruct (set_index object "spec" stored.["spec"]) as [o|] eqn:E; cbn [mbind option_bind]; [|done].
  apply set_index_spec in E as [E _]. rewrite <- E. destruct sub as [sub|].
  - destruct (sub =? "approval")%kube; [|by intros [= <-]]. destruct (Json.get stored.["status"] "certificate") as [c|].
    + unfold set_index2. destruct (set_index o.["status"] "certificate" c) as [st|]; cbn [mbind option_bind]; [|done].
      intros Hs. apply set_index_spec in Hs as [_ Hs]. by apply Hs.
    + intros [= <-]. destruct o as [| | | | |m]; try done. unfold remove_at.
      destruct (contains_key m "status") eqn:Ec; cbn; repeat case_match; unfold index; cbn;
        rewrite ?map_get_insert_ne by done; done.
  - intros Hs. apply set_index_spec in Hs as [_ Hs]. by apply Hs.
Qed.

(** A CSR says who asked.  Whatever the body says, a created
    CertificateSigningRequest carries the requester's name and groups and no uid
    or extra, and a bootstrapper's names the one signer it may ask; and no
    update, of the object or of a subresource, changes its spec. *)
Theorem csr_names_requester s rbac views views' user op sub object old obj :
  csr_admit dev caches s rbac views user op sub object old = Some (views', Ok obj) →
  (op = OpCreate → sub = None → wf_value object = true →
     obj.["spec"].["username"] = Str (username user) ∧ obj.["spec"].["groups"] = Array (Str <$> groups user) ∧
     obj.["spec"].["uid"] = Null ∧ obj.["spec"].["extra"] = Null ∧
     (is_bootstrapper user = true → obj.["spec"].["signerName"] = Str FORGE_NODE_SIGNER)) ∧
  (op = OpUpdate → ∀ stored, old = Some stored → obj.["spec"] = stored.["spec"]).
Proof.
  intros E. split.
  - intros -> -> Hwf. cbn in E. destruct (on_create user object) as [r|] eqn:Ec; [|done]. cbn in E. injection E as _ ->.
    unfold on_create in Ec.
    destruct (if is_object object.["spec"] then Some object else set_index object "spec" (json_obj [])) as [o|] eqn:Eo;
      cbn [mbind option_bind] in Ec; [|done].
    assert (wf_value o.["spec"] = true) as Hspec.
    { destruct (is_object object.["spec"]); [injection Eo as <-; by apply wf_index|].
      apply set_index_spec in Eo as [-> _]. done. }
    destruct (is_bootstrapper user && negb (str_or "" o.["spec"].["signerName"] =? FORGE_NODE_SIGNER)%kube) eqn:Eb; [done|].
    destruct o.["spec"] as [| | | | |spec] eqn:Es; try done.
    set (spec' := map_remove _ "extra") in Ec. destruct (set_index o "spec" (Object spec')) as [o'|] eqn:E'; [|done].
    cbn in Ec. injection Ec as <-. apply set_index_spec in E' as [-> _].
    assert (keys_sorted spec = true) as Hk by (cbn in Hspec; by apply andb_true_iff in Hspec as [? _]).
    set (base := map_insert (map_insert spec _ _) _ _) in spec'.
    assert (keys_sorted base = true) as Hb1 by (by repeat apply keys_sorted_insert).
    assert (∀ k, k ≠ "uid" → k ≠ "extra" → (Object spec').[k] = (Object base).[k]) as Hkeep.
    { intros k H1 H2. unfold index, spec'. cbn. by rewrite !map_get_remove_ne. }
    assert ((Object spec').["uid"] = Null ∧ (Object spec').["extra"] = Null) as [Hu Hx].
    { unfold index, spec'. cbn [Json.get]. split.
      - rewrite map_get_remove_ne by done. by rewrite map_get_remove_eq.
      - rewrite map_get_remove_eq; [done|]. by apply keys_sorted_remove. }
    rewrite Hu, Hx, !Hkeep by done. unfold base. rewrite index_insert_eq.
    rewrite (index_insert_ne _ "groups" _ "username"), index_insert_eq by done.
    rewrite (index_insert_ne _ "groups" _ "signerName"), (index_insert_ne _ "username" _ "signerName") by done.
    split_and!; try done. intros Hb. rewrite Hb in Eb. cbn [andb] in Eb.
    apply negb_false_iff, str_eqb_eq in Eb. unfold str_or in Eb.
    destruct (Object spec).["signerName"] as [| | |x| |]; cbn in Eb; try done. by rewrite Eb.
  - intros -> stored ->. cbn [csr_admit] in E.
    destruct (keep_stored sub object stored) as [o|] eqn:Ek; cbn [mbind option_bind] in E; [|done].
    apply keep_stored_spec in Ek. rewrite <- Ek. clear -E. by repeat (case_match || simplify_option_eq).
Qed.
End RequestTheorems.

(** *** Paths *)

(** A path segment: not empty, no slash. *)
Definition segment (x : string) : Prop := x ≠ "" ∧ str_contains_char "/" x = false.

Definition path_of (segs : list string) : string := "/" ++ String.concat "/" segs.

Lemma split_concat x segs : Forall segment (x :: segs) → split_on "/" (String.concat "/" (x :: segs)) = x :: segs.
Proof.
  revert x. induction segs as [|y segs IH]; intros x Hf; inversion Hf as [|? ? [_ Hx] Hf']; subst.
  - by apply split_on_last.
  - change (String.concat "/" (x :: y :: segs)) with (x ++ "/" ++ String.concat "/" (y :: segs)).
    rewrite split_on_seg by done. by rewrite IH.
Qed.

Lemma path_segments segs :
  Forall segment segs → segs ≠ [] → split_on "/" (trim_start_char "/" (path_of segs)) = segs.
Proof.
  destruct segs as [|x segs]; [done|]. intros Hf _. unfold path_of. cbn [trim_start_char append].
  assert (trim_start_char "/" (String.concat "/" (x :: segs)) = String.concat "/" (x :: segs)) as ->; [|by apply split_concat].
  inversion Hf as [|? ? [Hne Hx] _]; subst. destruct x as [|c x]; [done|]. cbn in Hx. apply orb_false_iff in Hx as [Hc _].
  destruct segs; cbn; by rewrite Hc.
Qed.

(** A namespaced path is read as what it names.  For every group, namespace,
    resource, name and subresource, the path of the subresource is authorized
    as that subresource of that resource in that namespace, under the method's
    verb; except that opening a shell, an attach or a port-forward in a pod is
    [create], whatever the method. *)
Theorem subresource_path_parsed g v ns r n sub meth vb :
  Forall segment [g; v; ns; r; n; sub] → verb_of meth (Some n) = Some vb →
  parse_authorization_request (path_of ["apis"; g; v; "namespaces"; ns; r; n; sub]) meth
    = Some (mkReq vb r (Some sub) g (Some ns) (Some n)) ∧
  (r ≠ "namespaces" →
   parse_authorization_request (path_of ["api"; "v1"; "namespaces"; ns; r; n; sub]) meth
     = Some (mkReq (if (r =? "pods")%kube && str_in sub ["exec"; "attach"; "portforward"] then "create" else vb)
                   r (Some sub) "" (Some ns) (Some n))).
Proof.
  intros Hf Hv. assert (segment "apis" ∧ segment "api" ∧ segment "v1" ∧ segment "namespaces") as (H1 & H2 & H3 & H4)
    by (unfold segment; split_and!; done).
  rewrite !Forall_cons in Hf. destruct Hf as (Hg & Hver & Hns & Hres & Hn & Hsub & _).
  unfold parse_authorization_request. split.
  - rewrite path_segments by (rewrite ?Forall_cons; split_and?; done).
    change (parse_path_segments _) with (Some (mkPath g r (Some ns) (Some n) (Some sub))).
    cbn [mbind option_bind p_name p_group p_resource p_sub p_namespace]. rewrite Hv. cbn [mbind option_bind].
    destruct Hg as [Hg _]. assert (is_empty_str g = false) as -> by (by destruct g). done.
  - intros Hr. rewrite path_segments by (rewrite ?Forall_cons; split_and?; done).
    change (parse_path_segments _) with (Some (mkPath "" r (Some ns) (Some n) (Some sub))).
    cbn [mbind option_bind p_name p_group p_resource p_sub p_namespace]. rewrite Hv. cbn [mbind option_bind].
    apply str_eqb_neq in Hr. rewrite Hr. done.
Qed.

(** ** Witnesses *)

#[local] Existing Instance Demo.codec.

Lemma subresource_path_parsed_witness :
  parse_authorization_request "/api/v1/namespaces/kube-system/pods/web/exec" "GET"
  = Some (mkReq "create" "pods" (Some "exec") "" (Some "kube-system") (Some "web")).
Proof.
  apply (subresource_path_parsed "apps" "v1" "kube-system" "pods" "web" "exec" "GET" "get");
    [|reflexivity|discriminate].
  repeat constructor; discriminate.
Defined.

Definition master : UserInfo := mkUser "root" ["system:masters"].

Lemma impersonation_needs_permission_witness :
  i_user (mkImp (Some "alice") ["dev"] None) = Some "alice".
Proof.
  eapply (impersonation_needs_permission false RbacDemo.no_caches RbacDemo.store ∅ ∅ master
    (mkImp (Some "alice") ["dev"] None) (mkUser "alice" ["dev"; "system:authenticated"])).
  vm_compute. reflexivity.
Defined.

Lemma api_requests_authorized_witness :
  ∃ req, parse_authorization_request "/api/v1/namespaces/default/pods/web/log" "GET" = Some req ∧
    allows false RbacDemo.no_caches RbacDemo.store RbacDemo.alice req.
Proof.
  eapply (api_requests_authorized false RbacDemo.no_caches RbacDemo.store ∅ ∅ "/api/v1/namespaces/default/pods/web/log" "GET"
    (Some RbacDemo.alice) (mkImp None [] None) None); [vm_compute; reflexivity|reflexivity|reflexivity].
Defined.

Lemma csr_names_requester_witness :
  ∃ obj, (obj.["spec"].["username"] = Str "machine") ∧ obj.["spec"].["signerName"] = Str FORGE_NODE_SIGNER.
Proof.
  set (body := json_obj [("spec", json_obj [("signerName", Str FORGE_NODE_SIGNER); ("username", Str "root")])]).
  set (machine := mkUser "machine" ["system:bootstrappers"]).
  destruct (on_create machine body) as [[obj|e]|] eqn:E; [|vm_compute in E; discriminate E|vm_compute in E; discriminate E].
  destruct (csr_names_requester false RbacDemo.no_caches RbacDemo.store true ∅ ∅ machine OpCreate None body None obj) as [H _].
  - cbn [csr_admit]. rewrite E. reflexivity.
  - destruct (H eq_refl eq_refl eq_refl) as (H1 & _ & _ & _ & H2). exists obj. split; [exact H1|by apply H2].
Defined.
