(* ===== verification/Rollout.v ===== *)
(** * Deployment rollouts ([pkg/controller-manager/src/rollout.rs])

    The arithmetic of one reconcile pass: how many replicas the new
    ReplicaSet and each old one should have next.  The module's own contract
    is proved: never more than [replicas + maxSurge] pods, never fewer than
    [replicas - maxUnavailable] available ones, and passes over a healthy
    cluster converge. *)

From stdpp Require Import base gmap strings list numbers option.
From Stdlib Require Import ZArith Lia String Ascii.
From S2P Require Import Prelude Text BTree Json.
Open Scope string_scope.
Open Scope Z_scope.

Definition sum_u64 (l : list Z) : Z := foldl (λ acc x, wrap64 (acc + x)) 0 l.

Definition div_ceil100 (n : Z) : Z := (n + 99) / 100.

Definition int_or_percent (v : Value) (total : Z) (round_up : bool) : Z :=
  match as_u64 v with
  | Some n => n
  | None =>
      match as_str v with
      | Some s =>
          match strip_suffix "%" s ≫= parse_u64 with
          | Some pct =>
              let scaled := wrap64 (total * pct) in
              if round_up then div_ceil100 scaled else scaled / 100
          | None => default 0 (parse_u64 s)
          end
      | None => 0
      end
  end.

Record RsView := mkRs {
  rs_name : string;
  rs_revision : Z;
  spec_replicas : Z;
  available : Z }.

Record Plan := mkPlan { new_replicas : Z; old : list (string * Z) }.

Definition with_spec (r : RsView) (n : Z) : RsView := mkRs (rs_name r) (rs_revision r) n (available r).

Definition plan_recreate (desired : Z) (new : RsView) (olds : list RsView) : Plan :=
  let old_running := sum_u64 (spec_replicas <$> olds) in
  if 0 <? old_running then
    mkPlan 0 ((λ r, (rs_name r, 0)) <$> List.filter (λ r, 0 <? spec_replicas r) olds)
  else mkPlan desired [].

(** Step 1 of the scale-down: old replicas that are not available anyway. *)
Fixpoint clean_unhealthy (max_scaled_down cleaned : Z) (ordered : list RsView) : list RsView :=
  match ordered with
  | [] => []
  | rs :: rest =>
      if max_scaled_down <=? cleaned then ordered
      else
        let unhealthy := sat_sub (spec_replicas rs) (available rs) in
        let down := Z.min unhealthy (max_scaled_down - cleaned) in
        with_spec rs (spec_replicas rs - down) :: clean_unhealthy max_scaled_down (cleaned + down) rest
  end.

(** Step 2: available ones, down to the floor. *)
Fixpoint drain (budget : Z) (ordered : list RsView) : list RsView :=
  match ordered with
  | [] => []
  | rs :: rest =>
      if budget =? 0 then ordered
      else
        let down := Z.min (spec_replicas rs) budget in
        with_spec rs (spec_replicas rs - down) :: drain (budget - down) rest
  end.

Definition plan_rolling (desired max_surge max_unavailable : Z) (new : RsView) (olds : list RsView) : Plan :=
  let max_total := wrap64 (desired + max_surge) in
  let current_total := wrap64 (spec_replicas new + sum_u64 (spec_replicas <$> olds)) in
  let n0 :=
    if (current_total <? max_total) && (spec_replicas new <? desired) then
      let headroom := max_total - current_total in
      let want := desired - spec_replicas new in
      spec_replicas new + Z.min headroom want
    else spec_replicas new in
  let n := if desired <? spec_replicas new then desired else n0 in
  if negb (n =? spec_replicas new) then mkPlan n []
  else
    let min_available := sat_sub desired max_unavailable in
    let all_pods := wrap64 (spec_replicas new + sum_u64 (spec_replicas <$> olds)) in
    let new_unavailable := sat_sub (spec_replicas new) (available new) in
    let max_scaled_down := sat_sub (sat_sub all_pods min_available) new_unavailable in
    if max_scaled_down =? 0 then mkPlan n []
    else
      let ordered := sort_by_key rs_revision (List.filter (λ r, 0 <? spec_replicas r) olds) in
      let ordered := clean_unhealthy max_scaled_down 0 ordered in
      let avail := wrap64 (available new + sum_u64 (available <$> olds)) in
      let ordered := drain (sat_sub avail min_available) ordered in
      mkPlan n
        ((λ r, (rs_name r, spec_replicas r)) <$>
         List.filter (λ r, existsb (λ o, str_eqb (rs_name o) (rs_name r)
                                         && negb (spec_replicas o =? spec_replicas r)) olds) ordered).

Definition prunable (olds : list RsView) (limit : Z) : list string :=
  let idle := sort_by_key rs_revision (List.filter (λ r, spec_replicas r =? 0) olds) in
  let keep := Z.to_nat limit in
  if Nat.leb (List.length idle) keep then []
  else rs_name <$> take (List.length idle - keep) idle.

Definition next_revision (owned : list RsView) : Z :=
  wrap64 (foldr (λ r acc, Z.max (rs_revision r) acc) 0 owned + 1).

(** [deployment.rs]: the strategy of a Deployment and the view of a ReplicaSet. *)
Definition strategy (deploy : Value) (desired : Z) : Z * Z * bool :=
  let st := index (index deploy "spec") "strategy" in
  if str_eqb (str_or "RollingUpdate" (index st "type")) "Recreate" then (0, desired, true)
  else
    let ru := index st "rollingUpdate" in
    let pick v := if is_null v then Str "25%" else v in
    let surge := int_or_percent (pick (index ru "maxSurge")) desired true in
    let unavailable := int_or_percent (pick (index ru "maxUnavailable")) desired false in
    if (surge =? 0) && (unavailable =? 0) then (1, 0, false) else (surge, unavailable, false).

Definition REVISION : string := "deployment.kubernetes.io/revision".

Definition view_of (rs : Value) : RsView :=
  mkRs (str_or "" (index (index rs "metadata") "name"))
       (default 0 (as_str (index (index (index rs "metadata") "annotations") REVISION) ≫= parse_u64))
       (default 0 (as_u64 (index (index rs "spec") "replicas")))
       (default 0 (as_u64 (index (index rs "status") "availableReplicas"))).

(** ** Lemmas *)

(** The totals the code adds up do not wrap, and no ReplicaSet reports more
    available Pods than it is told to run (its status is not older than a
    scale-down of it, see [stale_status_overdrains]). *)
Definition fits (desired max_surge : Z) (new : RsView) (olds : list RsView) : Prop :=
  0 ≤ desired ∧ 0 ≤ max_surge ∧ desired + max_surge ≤ u64_max ∧
  0 ≤ spec_replicas new ∧ 0 ≤ available new ≤ spec_replicas new ∧
  (∀ r, r ∈ olds → 0 ≤ available r ≤ spec_replicas r) ∧
  spec_replicas new + sumZ spec_replicas olds ≤ u64_max.

Lemma foldl_sum l acc :
  (∀ x, x ∈ l → 0 ≤ x) → 0 ≤ acc → acc + sumZ id l ≤ u64_max →
  foldl (λ a x, wrap64 (a + x)) acc l = acc + sumZ id l.
Proof.
  revert acc. induction l as [|x l IH]; intros acc Hl Ha Hb; unfold sumZ in *; simpl in *; [lia|].
  assert (0 ≤ x) by (apply Hl; by left).
  assert (0 ≤ sumZ id l) by (apply sumZ_nonneg; intros y Hy; apply Hl; by right). unfold sumZ, id in *.
  rewrite wrap64_small by (unfold is_u64; lia). rewrite IH; [lia| |lia|lia].
  intros y Hy. apply Hl. by right.
Qed.

Lemma sum_u64_small {A} (f : A → Z) (l : list A) :
  (∀ x, x ∈ l → 0 ≤ f x) → sumZ f l ≤ u64_max → sum_u64 (f <$> l) = sumZ f l.
Proof.
  intros Hf Hs. assert (sumZ id (f <$> l) = sumZ f l) as E.
  { clear. induction l as [|x l IH]; [done|].
    change (f x + sumZ id (f <$> l) = f x + sumZ f l). by rewrite IH. }
  unfold sum_u64. rewrite foldl_sum; [lia| |lia|lia].
  intros y (x & -> & Hx)%list_elem_of_fmap. auto.
Qed.

(** [f] is [r] scaled down. *)
Definition scaled (r f : RsView) : Prop :=
  f = with_spec r (spec_replicas f) ∧ 0 ≤ spec_replicas f ≤ spec_replicas r.

Lemma scaled_refl r : 0 ≤ spec_replicas r → scaled r r.
Proof. intros. split; [by destruct r|lia]. Qed.

Lemma scaled_trans r f g : scaled r f → scaled f g → scaled r g.
Proof. intros [E1 H1] [E2 H2]. split; [|lia]. rewrite E2, E1. done. Qed.

Definition counts (l : list RsView) : Prop := ∀ r, r ∈ l → 0 ≤ available r ≤ spec_replicas r.

Lemma counts_cons r l : counts (r :: l) ↔ (0 ≤ available r ≤ spec_replicas r) ∧ counts l.
Proof.
  unfold counts. split.
  - intros H. split; [apply H; by left|]. intros x Hx. apply H. by right.
  - intros [H1 H2] x [->|Hx]%elem_of_cons; auto.
Qed.

Lemma Forall2_scaled_refl l : counts l → Forall2 scaled l l.
Proof.
  induction l as [|r l IH]; [constructor|]. intros [H1 H2]%counts_cons.
  constructor; [apply scaled_refl; lia|auto].
Qed.

Lemma clean_spec m c l :
  counts l → 0 ≤ c ≤ m →
  Forall2 scaled l (clean_unhealthy m c l) ∧ counts (clean_unhealthy m c l) ∧
  sumZ available (clean_unhealthy m c l) = sumZ available l.
Proof.
  revert c. induction l as [|r l IH]; intros c Hl Hc; [done|]. simpl.
  apply counts_cons in Hl as [Hr Hl]. destruct (m <=? c) eqn:E.
  - split_and!; [|by apply counts_cons|done]. constructor; [apply scaled_refl; lia|by apply Forall2_scaled_refl].
  - apply Z.leb_gt in E. unfold sat_sub. set (down := Z.min _ (m - c)).
    destruct (IH (c + down)) as (H1 & H2 & H3); [done|lia|].
    split_and!.
    + constructor; [|done]. split; [done|]. simpl. lia.
    + apply counts_cons. split; [simpl; lia|done].
    + rewrite !sumZ_cons, H3. done.
Qed.

Lemma drain_spec b l :
  counts l → 0 ≤ b →
  Forall2 scaled l (drain b l) ∧
  sumZ spec_replicas (drain b l) = Z.max 0 (sumZ spec_replicas l - b) ∧
  sumZ available l - b ≤ sumZ (λ r, Z.min (available r) (spec_replicas r)) (drain b l).
Proof.
  revert b. induction l as [|r l IH]; intros b Hl Hb; [simpl; split_and!; [constructor|rewrite !sumZ_nil; lia|rewrite !sumZ_nil; lia]|].
  simpl. pose proof Hl as [Hr Hl']%counts_cons.
  assert (0 ≤ sumZ spec_replicas l) as Hs.
  { apply sumZ_nonneg. intros x Hx. specialize (Hl' x Hx). lia. }
  destruct (b =? 0) eqn:E.
  - apply Z.eqb_eq in E. subst. split_and!; [by apply Forall2_scaled_refl|rewrite sumZ_cons; lia|].
    rewrite Z.sub_0_r. apply sumZ_le. intros x Hx. specialize (Hl x Hx). lia.
  - apply Z.eqb_neq in E. set (down := Z.min (spec_replicas r) b).
    destruct (IH (b - down)) as (H1 & H2 & H3); [done|lia|].
    split_and!.
    + constructor; [|done]. split; [done|]. simpl. lia.
    + rewrite !sumZ_cons. simpl. lia.
    + rewrite !sumZ_cons. simpl. lia.
Qed.

(** What a pass leaves each old ReplicaSet with. *)
Definition applied (p : Plan) (r : RsView) : Z := default (spec_replicas r) (map_get (old p) (rs_name r)).

Definition names (l : list RsView) : list string := rs_name <$> l.

Lemma Forall2_names l f : Forall2 scaled l f → names f = names l.
Proof.
  induction 1 as [|r f' l fs [E _] _ IH]; [done|]. unfold names in *. rewrite !fmap_cons, IH. by rewrite E.
Qed.

Lemma map_get_none {A} (l : list (string * A)) k : (∀ v, (k, v) ∉ l) → map_get l k = None.
Proof.
  induction l as [|[k' v'] l IH]; intros H; simpl; [done|].
  destruct (str_eqb k k') eqn:E.
  - apply str_eqb_eq in E as ->. exfalso. apply (H v'). by left.
  - apply IH. intros v Hv. apply (H v). by right.
Qed.

Lemma map_get_plan (q : RsView → bool) fs f :
  NoDup (names fs) → f ∈ fs →
  map_get ((λ r, (rs_name r, spec_replicas r)) <$> List.filter q fs) (rs_name f)
  = if q f then Some (spec_replicas f) else None.
Proof.
  induction fs as [|g fs IH]; intros Hnd Hin; [by apply not_elem_of_nil in Hin|].
  unfold names in Hnd. rewrite fmap_cons in Hnd. inversion Hnd as [|? ? Hg Hnd']; subst. clear Hnd. rename Hnd' into Hnd.
  assert (∀ h, h ∈ List.filter q fs → rs_name h ≠ rs_name g) as Hother.
  { intros h Hh E. apply Hg. rewrite <- E. apply list_elem_of_fmap. exists h. split; [done|].
    apply list_elem_of_In in Hh. apply filter_In in Hh as [Hh _]. by apply list_elem_of_In. }
  apply elem_of_cons in Hin as [->|Hin].
  - simpl. destruct (q g); [simpl; by rewrite str_eqb_refl|].
    apply map_get_none. intros v (h & [= E _] & Hh)%list_elem_of_fmap. by apply (Hother h Hh).
  - assert (str_eqb (rs_name f) (rs_name g) = false) as Hne.
    { apply str_eqb_neq. intros E. apply Hg. rewrite <- E. apply list_elem_of_fmap. by exists f. }
    simpl. destruct (q g); [simpl; rewrite Hne|]; by apply IH.
Qed.

(** The final list of a scale-down says what each old ReplicaSet is left with. *)
Lemma applied_scaled n olds ordered fs :
  NoDup (names olds) → counts olds →
  ordered ≡ₚ List.filter (λ r, 0 <? spec_replicas r) olds → Forall2 scaled ordered fs →
  let p := mkPlan n ((λ r, (rs_name r, spec_replicas r)) <$>
             List.filter (λ r, existsb (λ o, str_eqb (rs_name o) (rs_name r)
                                             && negb (spec_replicas o =? spec_replicas r)) olds) fs) in
  Forall2 (λ r f, applied p r = spec_replicas f) ordered fs ∧
  ∀ r, r ∈ olds → spec_replicas r = 0 → applied p r = 0.
Proof.
  intros Hnd Hc Hperm Hsc. simpl.
  assert (NoDup (names fs)) as Hndf.
  { rewrite (Forall2_names _ _ Hsc). unfold names. rewrite Hperm. clear -Hnd.
    unfold names in Hnd. induction olds as [|o olds IH]; [constructor|].
    rewrite fmap_cons in Hnd. inversion Hnd as [|? ? Ho Hnd']; subst. simpl.
    destruct (0 <? spec_replicas o); [|by apply IH]. rewrite fmap_cons. constructor; [|by apply IH].
    intros (x & E & Hx)%list_elem_of_fmap. apply Ho. apply list_elem_of_fmap. exists x.
    split; [done|]. by apply elem_of_filter_b in Hx as [? _]. }
  assert (∀ a b, a ∈ olds → b ∈ olds → rs_name a = rs_name b → a = b) as Huniq.
  { clear -Hnd. unfold names in Hnd. intros a b Ha Hb E.
    apply list_elem_of_lookup in Ha as [i Ha], Hb as [j Hb].
    assert (i = j) as ->; [|congruence]. eapply (NoDup_lookup (rs_name <$> olds)); [done| |].
    - by rewrite list_lookup_fmap, Ha.
    - rewrite list_lookup_fmap, Hb. simpl. by rewrite E. }
  assert (∀ r f, r ∈ olds → f ∈ fs → scaled r f →
    map_get ((λ r, (rs_name r, spec_replicas r)) <$>
      List.filter (λ r, existsb (λ o, str_eqb (rs_name o) (rs_name r)
                          && negb (spec_replicas o =? spec_replicas r)) olds) fs) (rs_name r)
    = if spec_replicas r =? spec_replicas f then None else Some (spec_replicas f)) as Hget.
  { intros r f Hr Hf [E Hle]. assert (rs_name r = rs_name f) as En by (by rewrite E). rewrite En, map_get_plan by done.
    destruct (spec_replicas r =? spec_replicas f) eqn:Es.
    - replace (existsb _ olds) with false; [done|]. symmetry. apply Bool.not_true_is_false.
      intros (o & Ho & [Eo%str_eqb_eq Hne]%andb_true_iff)%existsb_exists.
      assert (o = r) as -> by (apply Huniq; [by apply list_elem_of_In|done|congruence]).
      by rewrite Es in Hne.
    - replace (existsb _ olds) with true; [done|]. symmetry. apply existsb_exists. exists r.
      split; [by apply list_elem_of_In|]. by rewrite En, str_eqb_refl, Es. }
  split.
  - assert (∀ r, r ∈ ordered → r ∈ olds) as Hsub.
    { intros r Hr. rewrite Hperm in Hr. by apply elem_of_filter_b in Hr as [? _]. }
    assert (∀ r f, r ∈ olds → f ∈ fs → scaled r f → applied (mkPlan n ((λ r, (rs_name r, spec_replicas r)) <$>
      List.filter (λ r, existsb (λ o, str_eqb (rs_name o) (rs_name r)
                          && negb (spec_replicas o =? spec_replicas r)) olds) fs)) r = spec_replicas f) as Happ.
    { intros r f Hr Hf Hs. unfold applied. simpl old. rewrite (Hget r f Hr Hf Hs).
      destruct (spec_replicas r =? spec_replicas f) eqn:Es; [by apply Z.eqb_eq|done]. }
    clear Hget Hperm Huniq. eapply Forall2_impl_elem; [exact Hsc|]. intros r f Hr Hf Hs. apply Happ; auto.
  - intros r Hr Hz. unfold applied. simpl old. rewrite map_get_none; [done|].
    intros v (f & [= En _] & [Hf _]%elem_of_filter_b)%list_elem_of_fmap.
    assert (∃ r', r' ∈ ordered ∧ scaled r' f) as (r' & Hr' & Es & _).
    { apply list_elem_of_lookup in Hf as [i Hi]. destruct (Forall2_lookup_r _ _ _ _ _ Hsc Hi) as (r' & H1 & H2).
      exists r'. split; [by eapply list_elem_of_lookup_2|done]. }
    rewrite Hperm in Hr'. apply elem_of_filter_b in Hr' as [Hr' Hpos].
    assert (r = r') as -> by (apply Huniq; [done|done|]; rewrite En, Es; done).
    by rewrite Hz in Hpos.
Qed.

Lemma applied_none n r : applied (mkPlan n []) r = spec_replicas r.
Proof. done. Qed.

Lemma sum_running olds ordered f :
  ordered ≡ₚ List.filter (λ r, 0 <? spec_replicas r) olds → counts olds →
  (∀ r, r ∈ olds → spec_replicas r = 0 → f r = 0) → sumZ f ordered = sumZ f olds.
Proof.
  intros Hp Hc Hf. rewrite (sumZ_perm f _ _ Hp). apply sumZ_filter.
  intros r Hr Hz. apply Z.ltb_ge in Hz. apply Hf; [done|]. specialize (Hc r Hr). lia.
Qed.

Lemma clean_healthy m c l : (∀ r, r ∈ l → available r = spec_replicas r) → 0 ≤ c ≤ m → clean_unhealthy m c l = l.
Proof.
  revert c. induction l as [|r l IH]; intros c H Hc; simpl; [done|]. destruct (m <=? c) eqn:E; [done|].
  apply Z.leb_gt in E. assert (available r = spec_replicas r) as Ha by (apply H; by left).
  unfold sat_sub. rewrite Ha, Z.sub_diag.
  replace (Z.min (Z.max 0 0) (m - c)) with 0 by lia. rewrite Z.sub_0_r, IH; [by destruct r| |lia].
  intros x Hx. apply H. by right.
Qed.

Section Pass.
  Context (desired max_surge max_unavailable : Z) (new : RsView) (olds : list RsView).
  Hypothesis Hfits : fits desired max_surge new olds.
  Hypothesis Hnames : NoDup (names olds).
Let p := plan_rolling desired max_surge max_unavailable new olds.
Let total := spec_replicas new + sumZ spec_replicas olds.
Let serving := available new + sumZ available olds.
Let floor := sat_sub desired max_unavailable.

(** What a pass does: scale the new ReplicaSet and nothing else, or leave it
    and scale old ones down within the floor. *)
Lemma plan_rolling_cases :
  (old p = [] ∧
     (desired < spec_replicas new ∧ new_replicas p = desired ∨
      spec_replicas new < new_replicas p ≤ desired ∧
        new_replicas p + sumZ spec_replicas olds ≤ desired + max_surge)) ∨
  (new_replicas p = spec_replicas new ∧ spec_replicas new ≤ desired ∧
     (spec_replicas new < desired → desired + max_surge ≤ total) ∧
     ∃ ordered fs,
       ordered ≡ₚ List.filter (λ r, 0 <? spec_replicas r) olds ∧ Forall2 scaled ordered fs ∧
       Forall2 (λ r f, applied p r = spec_replicas f) ordered fs ∧
       (∀ r, r ∈ olds → spec_replicas r = 0 → applied p r = 0) ∧
       sumZ available olds - sat_sub serving floor ≤ sumZ (λ r, Z.min (available r) (spec_replicas r)) fs ∧
       (available new = spec_replicas new → (∀ r, r ∈ olds → available r = spec_replicas r) →
        sumZ spec_replicas fs = Z.max 0 (sumZ spec_replicas olds - sat_sub total floor))).
Proof.
  destruct Hfits as (Hd & Hs & Hmax & Hn & Hna & Hc & Htot). fold (counts olds) in Hc.
  assert (0 ≤ sumZ spec_replicas olds) as Hsum.
  { apply sumZ_nonneg. intros r Hr. specialize (Hc r Hr). lia. }
  assert (0 ≤ sumZ available olds ≤ sumZ spec_replicas olds) as Hav.
  { split; [apply sumZ_nonneg; intros r Hr; specialize (Hc r Hr); lia|].
    apply sumZ_le. intros r Hr. specialize (Hc r Hr). lia. }
  unfold p, plan_rolling. rewrite (sum_u64_small spec_replicas), (sum_u64_small available);
    [|intros r Hr; specialize (Hc r Hr); lia|lia|intros r Hr; specialize (Hc r Hr); lia|lia].
  rewrite !wrap64_small by (unfold is_u64; lia). fold total. fold floor. fold serving.
  destruct (desired <? spec_replicas new) eqn:E1.
  { apply Z.ltb_lt in E1. left. replace (desired =? spec_replicas new) with false by (symmetry; apply Z.eqb_neq; lia).
    simpl. split; [done|]. left. lia. }
  apply Z.ltb_ge in E1.
  destruct ((total <? desired + max_surge) && (spec_replicas new <? desired)) eqn:E2.
  { apply andb_true_iff in E2 as [E2%Z.ltb_lt E3%Z.ltb_lt]. left.
    set (n := spec_replicas new + _). replace (n =? spec_replicas new) with false by (symmetry; apply Z.eqb_neq; lia).
    simpl. split; [done|]. right. lia. }
  right. rewrite Z.eqb_refl. simpl negb. cbv iota.
  assert (spec_replicas new < desired → desired + max_surge ≤ total) as Hfull.
  { intros Hlt. apply andb_false_iff in E2 as [E2%Z.ltb_ge|E2%Z.ltb_ge]; lia. }
  set (ord := sort_by_key rs_revision (List.filter (λ r, 0 <? spec_replicas r) olds)).
  assert (ord ≡ₚ List.filter (λ r, 0 <? spec_replicas r) olds) as Hperm by apply sort_by_key_perm.
  assert (counts ord) as Hco.
  { intros r Hr. rewrite Hperm in Hr. apply elem_of_filter_b in Hr as [? _]. by apply Hc. }
  assert (sumZ available ord = sumZ available olds) as Hsa.
  { apply sum_running; [done|done|]. intros r Hr Hz. specialize (Hc r Hr). lia. }
  assert (sumZ spec_replicas ord = sumZ spec_replicas olds) as Hss by (by apply sum_running).
  destruct (sat_sub (sat_sub total floor) (sat_sub (spec_replicas new) (available new)) =? 0) eqn:E3.
  - apply Z.eqb_eq in E3. split_and!; [done|done|done|].
    exists ord, ord. split_and!; [done|by apply Forall2_scaled_refl| | | |].
    + apply Forall2_same_length_lookup_2; [done|]. intros i a b Ha Hb. rewrite applied_none. congruence.
    + intros r Hr Hz. by rewrite applied_none.
    + rewrite <- Hsa. transitivity (sumZ available ord); [unfold sat_sub; lia|].
      apply sumZ_le. intros r Hr. specialize (Hco r Hr). lia.
    + intros Ea _. rewrite Hss. unfold sat_sub in *. lia.
  - apply Z.eqb_neq in E3. set (m := sat_sub (sat_sub total floor) (sat_sub (spec_replicas new) (available new))) in *.
    assert (0 ≤ m) as Hm by (unfold m, sat_sub; lia).
    destruct (clean_spec m 0 ord Hco ltac:(lia)) as (C1 & C2 & C3).
    destruct (drain_spec (sat_sub serving floor) (clean_unhealthy m 0 ord) C2 ltac:(unfold sat_sub; lia)) as (D1 & D2 & D3).
    set (fs := drain (sat_sub serving floor) (clean_unhealthy m 0 ord)) in *.
    assert (Forall2 scaled ord fs) as Hsc.
    { apply Forall2_same_length_lookup_2.
      - apply Forall2_length in C1, D1. congruence.
      - intros i a b Ha Hb. destruct (Forall2_lookup_l _ _ _ _ _ C1 Ha) as (c & Hci & Hac).
        destruct (Forall2_lookup_l _ _ _ _ _ D1 Hci) as (b' & Hb' & Hcb). assert (b' = b) as -> by congruence.
        by eapply scaled_trans. }
    destruct (applied_scaled (spec_replicas new) olds ord fs Hnames Hc Hperm Hsc) as [A1 A2].
    split_and!; [done|done|done|]. exists ord, fs. split_and!; [done|done|exact A1|exact A2| |].
    + rewrite <- Hsa, <- C3. exact D3.
    + intros Ea Eall. rewrite D2, clean_healthy; [|intros r Hr; apply Eall; rewrite Hperm in Hr; by apply elem_of_filter_b in Hr as [? _]|lia].
      rewrite Hss. f_equal. f_equal. unfold total, serving. rewrite Ea. do 2 f_equal.
      apply sumZ_ext. auto.
Qed.

End Pass.

Lemma sumZ_Forall2 {A B} (f : A → Z) (g : B → Z) l k :
  Forall2 (λ a b, f a = g b) l k → sumZ f l = sumZ g k.
Proof. induction 1 as [|a b l k E _ IH]; [done|]. by rewrite !sumZ_cons, E, IH. Qed.

Lemma applied_min_sum p olds ordered fs :
  counts olds → ordered ≡ₚ List.filter (λ r, 0 <? spec_replicas r) olds → Forall2 scaled ordered fs →
  Forall2 (λ r f, applied p r = spec_replicas f) ordered fs →
  (∀ r, r ∈ olds → spec_replicas r = 0 → applied p r = 0) →
  sumZ (applied p) olds = sumZ spec_replicas fs ∧
  sumZ (λ r, Z.min (available r) (applied p r)) olds = sumZ (λ r, Z.min (available r) (spec_replicas r)) fs ∧
  ∀ r, r ∈ olds → 0 ≤ applied p r ≤ spec_replicas r.
Proof.
  intros Hc Hp Hsc Happ Hz. split_and!.
  - rewrite <- (sum_running olds ordered) by done. by apply sumZ_Forall2.
  - rewrite <- (sum_running olds ordered); [|done|done|].
    2:{ intros r Hr E. rewrite Hz by done. specialize (Hc r Hr). lia. }
    apply sumZ_Forall2. clear -Hsc Happ. induction Hsc as [|r f l k [E _] _ IH]; [constructor|].
    inversion Happ as [|? ? ? ? E2 Happ']; subst. constructor; [|by apply IH]. rewrite E2. by rewrite E.
  - intros r Hr. destruct (decide (spec_replicas r = 0)) as [E|E]; [rewrite Hz by done; lia|].
    assert (r ∈ ordered) as Ho.
    { rewrite Hp. apply elem_of_filter_b. split; [done|]. apply Z.ltb_lt. specialize (Hc r Hr). lia. }
    apply list_elem_of_lookup in Ho as [i Hi].
    destruct (Forall2_lookup_l _ _ _ _ _ Hsc Hi) as (f & Hf & _ & Hle).
    destruct (Forall2_lookup_l _ _ _ _ _ Happ Hi) as (f' & Hf' & ->). congruence || (assert (f = f') by congruence; subst; lia).
Qed.

(** The surge ceiling.  A pass never leaves the ReplicaSets told to run more
    than [replicas + maxSurge] pods, nor more than they already were; and it
    never scales an old ReplicaSet up. *)
Theorem rollout_surge_ceiling desired max_surge max_unavailable new olds :
  fits desired max_surge new olds → NoDup (names olds) →
  let p := plan_rolling desired max_surge max_unavailable new olds in
  new_replicas p + sumZ (applied p) olds
    ≤ Z.max (desired + max_surge) (spec_replicas new + sumZ spec_replicas olds) ∧
  ∀ r, r ∈ olds → 0 ≤ applied p r ≤ spec_replicas r.
Proof.
  intros Hf Hn p. pose proof Hf as (_ & _ & _ & _ & _ & Hc & _). fold (counts olds) in Hc.
  pose proof (plan_rolling_cases desired max_surge max_unavailable new olds Hf Hn) as Hcases; fold p in Hcases;
    destruct Hcases as [[Eold Hcase]|(En & Hle & _ & ord & fs & H1 & H2 & H3 & H4 & _ & _)].
  - assert (∀ r, applied p r = spec_replicas r) as Happ by (intros r; unfold applied; by rewrite Eold).
    rewrite (sumZ_ext _ spec_replicas) by (intros; apply Happ).
    split; [lia|]. intros r Hr. rewrite Happ. specialize (Hc r Hr). lia.
  - destruct (applied_min_sum p olds ord fs Hc H1 H2 H3 H4) as (S1 & _ & S3). split; [|done].
    rewrite En, (Z.max_comm (desired + max_surge)).
    assert (sumZ (applied p) olds ≤ sumZ spec_replicas olds) by (apply sumZ_le; intros r Hr; by apply S3). lia.
Qed.

Lemma availability_floor desired max_surge max_unavailable new olds :
  fits desired max_surge new olds → 0 ≤ max_unavailable → NoDup (names olds) →
  let p := plan_rolling desired max_surge max_unavailable new olds in
  Z.min (sat_sub desired max_unavailable) (available new + sumZ available olds)
    ≤ Z.min (available new) (new_replicas p) + sumZ (λ r, Z.min (available r) (applied p r)) olds.
Proof.
  intros Hf Hu Hn p. pose proof Hf as (Hd & _ & _ & Hn0 & Hna & Hc & _). fold (counts olds) in Hc.
  assert (0 ≤ sumZ available olds) as Hpos.
  { apply sumZ_nonneg. intros r Hr. specialize (Hc r Hr). lia. }
  pose proof (plan_rolling_cases desired max_surge max_unavailable new olds Hf Hn) as Hcases; fold p in Hcases;
    destruct Hcases as [[Eold Hcase]|(En & Hle & _ & ord & fs & H1 & H2 & H3 & H4 & H5 & _)].
  - assert (∀ r, applied p r = spec_replicas r) as Happ by (intros r; unfold applied; by rewrite Eold).
    assert (sumZ (λ r, Z.min (available r) (applied p r)) olds = sumZ available olds) as ->.
    { apply sumZ_ext. intros r Hr. rewrite Happ. specialize (Hc r Hr). lia. }
    unfold sat_sub. lia.
  - destruct (applied_min_sum p olds ord fs Hc H1 H2 H3 H4) as (_ & -> & _).
    rewrite En. unfold sat_sub in *. lia.
Qed.

(** The availability floor.  Counting what stays available when every
    ReplicaSet gives up its unavailable pods first, a pass never takes the
    Deployment below [replicas - maxUnavailable] available pods, nor below what
    it has if it is already under. *)
Theorem rollout_availability_floor desired max_surge max_unavailable new olds :
  fits desired max_surge new olds → 0 ≤ max_unavailable → NoDup (names olds) →
  let p := plan_rolling desired max_surge max_unavailable new olds in
  Z.min (sat_sub desired max_unavailable) (available new + sumZ available olds)
    ≤ Z.min (available new) (new_replicas p) + sumZ (λ r, Z.min (available r) (applied p r)) olds.
Proof. apply availability_floor. Qed.

(** ** The plan's names *)

Lemma clean_names m l : ∀ c, names (clean_unhealthy m c l) = names l.
Proof. induction l as [|r l IH]; intros c; [done|]. cbn. destruct (m <=? c); [done|]. unfold names in *. cbn. by rewrite IH. Qed.

Lemma drain_names l : ∀ b, names (drain b l) = names l.
Proof. induction l as [|r l IH]; intros b; [done|]. cbn. destruct (b =? 0); [done|]. unfold names in *. cbn. by rewrite IH. Qed.

Lemma NoDup_filter_names f l : NoDup (names l) → NoDup (names (List.filter f l)).
Proof.
  unfold names. induction l as [|r l IH]; [done|]. cbn. intros [Hn H]%list.NoDup_cons. destruct (f r); [|by apply IH]. cbn. constructor; [|by apply IH].
  intros (x & E & Hin)%list_elem_of_fmap. apply Hn, list_elem_of_fmap. exists x. split; [done|]. apply list_elem_of_In, filter_In in Hin as [? _]. by apply list_elem_of_In.
Qed.

(** Each old ReplicaSet is in the plan at most once. *)
Lemma plan_rolling_names desired max_surge max_unavailable new olds :
  NoDup (names olds) → NoDup (fst <$> old (plan_rolling desired max_surge max_unavailable new olds)).
Proof.
  intros H. unfold plan_rolling. cbn zeta. destruct (negb _); [constructor|]. destruct (_ =? 0); [constructor|]. cbn [old].
  set (fs := drain _ _). assert (NoDup (names fs)) as Hf.
  { unfold fs. rewrite drain_names, clean_names. unfold names. rewrite sort_by_key_perm. by apply NoDup_filter_names. }
  rewrite <-list_fmap_compose. change (NoDup (names (List.filter (λ r, existsb (λ o, str_eqb (rs_name o) (rs_name r) && negb (spec_replicas o =? spec_replicas r)) olds) fs))).
  by apply NoDup_filter_names.
Qed.

Lemma plan_rolling_members desired max_surge max_unavailable new olds n k :
  (n, k) ∈ old (plan_rolling desired max_surge max_unavailable new olds) → n ∈ names olds.
Proof.
  unfold plan_rolling. cbn zeta. destruct (negb _); [by intros ?%not_elem_of_nil|]. destruct (_ =? 0); [by intros ?%not_elem_of_nil|]. cbn [old].
  intros (r & [= -> _] & Hr)%list_elem_of_fmap. apply list_elem_of_In, filter_In in Hr as [_ Hr].
  apply existsb_exists in Hr as (o & Ho & [E _]%andb_true_iff). apply str_eqb_eq in E. apply list_elem_of_fmap. exists o.
  split; [by rewrite E|by apply list_elem_of_In].
Qed.

Lemma map_get_nodup {A} (l : list (string * A)) k v : NoDup (fst <$> l) → (k, v) ∈ l → map_get l k = Some v.
Proof.
  induction l as [|[k' v'] l IH]; [by intros _ ?%not_elem_of_nil|]. cbn. intros [Hn H]%list.NoDup_cons [[= -> ->]|Hin]%elem_of_cons.
  - by rewrite str_eqb_refl.
  - destruct (str_eqb k k') eqn:E; [|by apply IH]. apply str_eqb_eq in E as ->. exfalso. apply Hn, list_elem_of_fmap. by exists (k', v).
Qed.

(** ** Convergence *)

Record Rollout := mkRollout { ro_new : RsView; ro_olds : list RsView }.

(** A pass over a cluster whose pods all become available in between. *)
Definition pass (desired max_surge max_unavailable : Z) (s : Rollout) : Rollout :=
  let p := plan_rolling desired max_surge max_unavailable (ro_new s) (ro_olds s) in
  let settle r n := mkRs (rs_name r) (rs_revision r) n n in
  mkRollout (settle (ro_new s) (new_replicas p)) ((λ r, settle r (applied p r)) <$> ro_olds s).

Definition healthy (s : Rollout) : Prop :=
  available (ro_new s) = spec_replicas (ro_new s) ∧ ∀ r, r ∈ ro_olds s → available r = spec_replicas r.

Definition rolled_out (desired : Z) (s : Rollout) : Prop :=
  spec_replicas (ro_new s) = desired ∧ ∀ r, r ∈ ro_olds s → spec_replicas r = 0.

#[export] Instance rolled_out_dec desired s : Decision (rolled_out desired s).
Proof.
  unfold rolled_out. apply and_dec; [apply _|].
  destruct (decide (Forall (λ r, spec_replicas r = 0) (ro_olds s))) as [H|H]; rewrite Forall_forall in H;
    [left; intros r Hr; apply H; by apply list_elem_of_In|right; intros C; apply H; intros r Hr; apply C; by apply list_elem_of_In].
Defined.

Definition distance (desired : Z) (s : Rollout) : Z :=
  Z.abs (desired - spec_replicas (ro_new s)) + sumZ spec_replicas (ro_olds s).

Lemma sumZ_fmap {A B} (f : B → Z) (g : A → B) l : sumZ f (g <$> l) = sumZ (λ x, f (g x)) l.
Proof. induction l as [|x l IH]; [done|]. rewrite fmap_cons, !sumZ_cons. by rewrite IH. Qed.

Lemma pass_keeps desired max_surge max_unavailable s :
  fits desired max_surge (ro_new s) (ro_olds s) → NoDup (names (ro_olds s)) →
  let s' := pass desired max_surge max_unavailable s in
  fits desired max_surge (ro_new s') (ro_olds s') ∧ NoDup (names (ro_olds s')) ∧ healthy s'.
Proof.
  intros Hf Hn s'. unfold s', pass. set (p := plan_rolling _ _ _ _ _). cbn [ro_new ro_olds].
  pose proof Hf as (Hd & Hs & Hm & Hn0 & Hna & Hc & Ht).
  assert (0 ≤ new_replicas p) as Hnr.
  { pose proof (plan_rolling_cases desired max_surge max_unavailable (ro_new s) (ro_olds s) Hf Hn) as Hcases; fold p in Hcases;
    destruct Hcases as [[_ Hcase]|(En & _)]; lia. }
  assert (∀ r, r ∈ ro_olds s → 0 ≤ applied p r ≤ spec_replicas r) as Happ.
  { pose proof (plan_rolling_cases desired max_surge max_unavailable (ro_new s) (ro_olds s) Hf Hn) as Hcases; fold p in Hcases;
    destruct Hcases as [[Eold _]|(_ & _ & _ & ord & fs & H1 & H2 & H3 & H4 & _)].
    - intros r Hr. unfold applied. rewrite Eold. simpl. specialize (Hc r Hr). lia.
    - by destruct (applied_min_sum p (ro_olds s) ord fs Hc H1 H2 H3 H4) as (_ & _ & ?). }
  assert (new_replicas p + sumZ (applied p) (ro_olds s)
    ≤ Z.max (desired + max_surge) (spec_replicas (ro_new s) + sumZ spec_replicas (ro_olds s))) as Hceil.
  { assert (sumZ (applied p) (ro_olds s) ≤ sumZ spec_replicas (ro_olds s)) by (apply sumZ_le; intros r Hr; by apply Happ).
    pose proof (plan_rolling_cases desired max_surge max_unavailable (ro_new s) (ro_olds s) Hf Hn) as Hcases; fold p in Hcases;
    destruct Hcases as [[_ Hcase]|(En & _)]; lia. }
  split_and!.
  - unfold fits. simpl. split_and!; [lia|lia|lia|lia|lia|lia| |].
    + intros r (r0 & -> & Hr0)%list_elem_of_fmap. simpl. specialize (Happ r0 Hr0). lia.
    + rewrite sumZ_fmap. simpl. change (sumZ (λ x, applied p x) (ro_olds s)) with (sumZ (applied p) (ro_olds s)). lia.
  - unfold names. rewrite <- list_fmap_compose. exact Hn.
  - split; [done|]. simpl. by intros r (r0 & -> & Hr0)%list_elem_of_fmap.
Qed.

Lemma pass_progress desired max_surge max_unavailable s :
  fits desired max_surge (ro_new s) (ro_olds s) → 0 ≤ max_unavailable → 1 ≤ max_surge + max_unavailable →
  NoDup (names (ro_olds s)) → healthy s → ¬ rolled_out desired s →
  distance desired (pass desired max_surge max_unavailable s) < distance desired s.
Proof.
  intros Hf Hu Hpos Hn [Hh1 Hh2] Hnot. pose proof Hf as (Hd & Hs & Hm & Hn0 & Hna & Hc & Ht). fold (counts (ro_olds s)) in Hc.
  assert (0 ≤ sumZ spec_replicas (ro_olds s)) as Hsum.
  { apply sumZ_nonneg. intros r Hr. specialize (Hc r Hr). lia. }
  assert (spec_replicas (ro_new s) = desired → 0 < sumZ spec_replicas (ro_olds s)) as Hleft.
  { intros E. destruct (decide (sumZ spec_replicas (ro_olds s) = 0)) as [Ez|]; [|lia]. exfalso. apply Hnot.
    split; [done|]. apply sumZ_zero; [|done]. intros r Hr. specialize (Hc r Hr). lia. }
  unfold distance, pass. set (p := plan_rolling _ _ _ _ _). simpl. rewrite sumZ_fmap. simpl.
  change (sumZ (λ x, applied p x) (ro_olds s)) with (sumZ (applied p) (ro_olds s)).
  pose proof (plan_rolling_cases desired max_surge max_unavailable (ro_new s) (ro_olds s) Hf Hn) as Hcases; fold p in Hcases;
    destruct Hcases as [[Eold Hcase]|(En & Hle & Hfull & ord & fs & H1 & H2 & H3 & H4 & _ & H6)].
  - assert (sumZ (applied p) (ro_olds s) = sumZ spec_replicas (ro_olds s)) as ->.
    { apply sumZ_ext. intros r Hr. unfold applied. by rewrite Eold. }
    lia.
  - destruct (applied_min_sum p (ro_olds s) ord fs Hc H1 H2 H3 H4) as (-> & _ & _).
    rewrite H6, En by done. unfold sat_sub. lia.
Qed.

(** C38: Rollouts converge.  If some surge or unavailability is allowed and the
    pods of every pass become available, then repeating the pass brings the
    new ReplicaSet to the desired count and every old one to zero, in at most
    as many passes as there are replicas to move. *)
Theorem rollout_converges desired max_surge max_unavailable s :
  fits desired max_surge (ro_new s) (ro_olds s) → 0 ≤ max_unavailable → 1 ≤ max_surge + max_unavailable →
  NoDup (names (ro_olds s)) → healthy s →
  ∃ n, Z.of_nat n ≤ distance desired s ∧
    rolled_out desired (Nat.iter n (pass desired max_surge max_unavailable) s).
Proof.
  intros Hf Hu Hpos Hn Hh.
  assert (0 ≤ distance desired s) as H0.
  { destruct Hf as (_ & _ & _ & _ & _ & Hc & _). unfold distance.
    assert (0 ≤ sumZ spec_replicas (ro_olds s)); [|lia].
    apply sumZ_nonneg. intros r Hr. specialize (Hc r Hr). lia. }
  remember (Z.to_nat (distance desired s)) as k eqn:Ek.
  assert (distance desired s ≤ Z.of_nat k) as Hk by lia. clear Ek.
  revert s Hf Hn Hh H0 Hk. induction k as [|k IH]; intros s Hf Hn Hh H0 Hk.
  - exists 0%nat. split; [lia|]. simpl.
    destruct (decide (rolled_out desired s)) as [|Hnot]; [done|].
    pose proof (pass_progress _ _ _ _ Hf Hu Hpos Hn Hh Hnot).
    destruct (pass_keeps desired max_surge max_unavailable s Hf Hn) as ((_ & _ & _ & _ & _ & Hc & _) & _).
    assert (0 ≤ distance desired (pass desired max_surge max_unavailable s)); [|lia].
    unfold distance. assert (0 ≤ sumZ spec_replicas (ro_olds (pass desired max_surge max_unavailable s))); [|lia].
    apply sumZ_nonneg. intros r Hr. specialize (Hc r Hr). lia.
  - destruct (decide (rolled_out desired s)) as [|Hnot]; [by exists 0%nat|].
    pose proof (pass_progress _ _ _ _ Hf Hu Hpos Hn Hh Hnot) as Hlt.
    destruct (pass_keeps desired max_surge max_unavailable s Hf Hn) as (Hf' & Hn' & Hh').
    assert (0 ≤ distance desired (pass desired max_surge max_unavailable s)) as H0'.
    { destruct Hf' as (_ & _ & _ & _ & _ & Hc & _). unfold distance.
      assert (0 ≤ sumZ spec_replicas (ro_olds (pass desired max_surge max_unavailable s))); [|lia].
      apply sumZ_nonneg. intros r Hr. specialize (Hc r Hr). lia. }
    destruct (IH _ Hf' Hn' Hh' H0' ltac:(lia)) as (n & Hle & Hr).
    exists (S n). split; [lia|]. by rewrite Nat.iter_succ_r.
Qed.

(** Pruning keeps history.  The ReplicaSets pruned are idle, every idle one
    left behind is at least as new as every pruned one, exactly
    [revisionHistoryLimit] idle ones stay when there are that many, and the
    revision of the next ReplicaSet is above every existing one. *)
Theorem prune_keeps_newest olds limit :
  0 ≤ limit → (∀ r, r ∈ olds → 0 ≤ rs_revision r < u64_max) →
  ∃ gone kept,
    prunable olds limit = names gone ∧ gone ++ kept ≡ₚ List.filter (λ r, spec_replicas r =? 0) olds ∧
    (∀ g k, g ∈ gone → k ∈ kept → rs_revision g ≤ rs_revision k) ∧
    (gone ≠ [] → Z.of_nat (List.length kept) = limit) ∧
    ∀ r, r ∈ olds → rs_revision r < next_revision olds.
Proof.
  intros Hl Hr. unfold prunable. set (idle := sort_by_key rs_revision (List.filter (λ r, spec_replicas r =? 0) olds)).
  assert (idle ≡ₚ List.filter (λ r, spec_replicas r =? 0) olds) as Hp by apply sort_by_key_perm.
  assert (∀ r, r ∈ olds → rs_revision r < next_revision olds) as Hnext.
  { unfold next_revision. set (mx := foldr (λ r acc, Z.max (rs_revision r) acc) 0 olds).
    assert (0 ≤ mx < u64_max ∧ ∀ r, r ∈ olds → rs_revision r ≤ mx) as [Hmx Hle].
    { unfold mx. clear -Hr. induction olds as [|o l IH]; simpl.
      - split; [done|]. intros r Hr0. by apply not_elem_of_nil in Hr0.
      - destruct IH as [I1 I2]; [intros r Hin; apply Hr; by right|].
        assert (0 ≤ rs_revision o < u64_max) by (apply Hr; by left). split; [lia|].
        intros r [->|Hin]%elem_of_cons; [lia|]. specialize (I2 r Hin). lia. }
    intros r Hin. rewrite wrap64_small by (unfold is_u64; lia). specialize (Hle r Hin). lia. }
  destruct (Nat.leb (List.length idle) (Z.to_nat limit)) eqn:E.
  - exists [], idle. split_and!; [done|done| |done|done]. intros g k Hg. by apply not_elem_of_nil in Hg.
  - apply Nat.leb_gt in E. set (n := (List.length idle - Z.to_nat limit)%nat).
    exists (take n idle), (drop n idle). split_and!; [done|by rewrite take_drop| | |done].
    + intros g k (i & Hi & Hlt)%elem_of_take (j & Hj)%list_elem_of_lookup.
      rewrite lookup_drop in Hj. eapply (sort_by_key_sorted rs_revision _ i (n + j)%nat); [exact Hi|exact Hj|lia].
    + intros _. rewrite length_drop. unfold n. lia.
Qed.

(** ** Witnesses *)

Definition demo_new : RsView := mkRs "web-2" 2 1 1.
Definition demo_olds : list RsView := [mkRs "web-1" 1 3 3; mkRs "web-0" 0 0 0].

Lemma demo_fits : fits 3 1 demo_new demo_olds.
Proof.
  unfold fits, u64_max. simpl. split_and!; try lia; [|vm_compute; congruence].
  intros r [->|[->|Hr%not_elem_of_nil]%elem_of_cons]%elem_of_cons; simpl; done || lia.
Qed.
Lemma demo_names : NoDup (names demo_olds).
Proof. apply (bool_decide_unpack _). reflexivity. Qed.

Lemma rollout_surge_ceiling_witness :
  new_replicas (plan_rolling 3 1 1 demo_new demo_olds)
  + sumZ (applied (plan_rolling 3 1 1 demo_new demo_olds)) demo_olds ≤ 4.
Proof. destruct (rollout_surge_ceiling 3 1 1 demo_new demo_olds demo_fits demo_names) as [H _]. exact H. Defined.

Lemma rollout_availability_floor_witness :
  2 ≤ Z.min 1 (new_replicas (plan_rolling 3 1 1 demo_new demo_olds))
      + sumZ (λ r, Z.min (available r) (applied (plan_rolling 3 1 1 demo_new demo_olds) r)) demo_olds.
Proof. exact (rollout_availability_floor 3 1 1 demo_new demo_olds demo_fits ltac:(lia) demo_names). Defined.

Lemma rollout_converges_witness :
  ∃ n, Z.of_nat n ≤ 5 ∧ rolled_out 3 (Nat.iter n (pass 3 1 0) (mkRollout demo_new demo_olds)).
Proof.
  apply (rollout_converges 3 1 0 (mkRollout demo_new demo_olds) demo_fits); [lia|lia|exact demo_names|].
  split; [done|]. simpl. by intros r [->|[->|Hr%not_elem_of_nil]%elem_of_cons]%elem_of_cons.
Defined.

Lemma prune_keeps_newest_witness : prunable [mkRs "a" 1 0 0; mkRs "b" 2 0 0; mkRs "c" 3 4 4] 1 = ["a"].
Proof.
  destruct (prune_keeps_newest [mkRs "a" 1 0 0; mkRs "b" 2 0 0; mkRs "c" 3 4 4] 1) as (g & k & E & _).
  - lia.
  - intros r [->|[->|[->|Hr%not_elem_of_nil]%elem_of_cons]%elem_of_cons]%elem_of_cons; unfold u64_max; simpl; done || lia.
  - vm_compute. reflexivity.
Defined.

(** ** What a stale status does *)

(** Six Pods are asked for and five must stay.  The old set has already been
    told to run two but its status still counts four: the plan counts them too
    and takes the old set down to none, and with the four of the new set that
    are available one too few stays. *)
Example stale_status_overdrains :
  let new := mkRs "web-2" 2 5 4 in
  let old := mkRs "web-1" 1 2 4 in
  let p := plan_rolling 6 1 1 new [old] in
  Z.min (available new) (spec_replicas new) + Z.min (available old) (spec_replicas old) = 6 ∧
  Z.min (available new) (new_replicas p) + Z.min (available old) (applied p old) = 4.
Proof. split; vm_compute; reflexivity. Qed.
