(* ===== verification/Backoff.v ===== *)
(** * Recreation backoff ([pkg/controller-manager/src/backoff.rs])

    The per-key exponential backoff a workload controller applies before it
    replaces a failed pod.  Time is in nanoseconds; the map behind the mutex is
    the state each method threads. *)

From stdpp Require Import base gmap sets strings list numbers option.
From Stdlib Require Import ZArith Lia String Ascii.
From S2P Require Import Prelude Text.
Open Scope string_scope.
Open Scope Z_scope.

Definition DEFAULT_BASE_SECS : Z := 10.
Definition DEFAULT_MAX_SECS : Z := 300.
Definition NANOS : Z := 1000000000.

Record Entry := mkEntry { failures : Z; next : option Z; counted : gset string }.

Record CreateBackoff := mkBackoff { base_secs : Z; max_secs : Z; inner : gmap string Entry }.

(** [base] and [max] are durations in nanoseconds. *)
Definition with_params (base max : Z) : CreateBackoff :=
  mkBackoff (Z.max (base / NANOS) 1) (Z.max (max / NANOS) 1) ∅.

Definition new : CreateBackoff := with_params (DEFAULT_BASE_SECS * NANOS) (DEFAULT_MAX_SECS * NANOS).

(** [checked_shl] refuses only shifts of 64 and more; bits shifted out are lost. *)
Definition checked_shl (n shift : Z) : option Z :=
  if shift <? 64 then Some (wrap64 (Z.shiftl n shift)) else None.

(** The delay, in nanoseconds. *)
Definition delay (b : CreateBackoff) (n : Z) : Z :=
  let shift := Z.min (sat_sub n 1) 32 in
  Z.min (default u64_max (checked_shl (base_secs b) shift)) (max_secs b) * NANOS.

Definition with_inner (b : CreateBackoff) (m : gmap string Entry) : CreateBackoff :=
  mkBackoff (base_secs b) (max_secs b) m.

(** The loop over the failed pods: whether one is new, and the count. *)
Fixpoint count_new (seen : gset string) (failed : list string) (is_new : bool) (n : Z) : bool * Z :=
  match failed with
  | [] => (is_new, n)
  | uid :: rest =>
      if bool_decide (uid ∈ seen) then count_new seen rest is_new n
      else count_new seen rest true (Z.min u32_max (n + 1))
  end.

Definition observe_failures (b : CreateBackoff) (key : string) (failed : list string) (now : Z) :
    CreateBackoff * bool :=
  let m := inner b in
  match failed with
  | [] =>
      (with_inner b (match m !! key with
                     | Some e => <[key := mkEntry (failures e) (next e) ∅]> m
                     | None => m
                     end), false)
  | _ =>
      let e := default (mkEntry 0 None ∅) (m !! key) in
      let '(is_new, n) := count_new (counted e) failed false (failures e) in
      let nx := if is_new then Some (now + delay b n) else next e in
      (with_inner b (<[key := mkEntry n nx (list_to_set failed)]> m), is_new)
  end.

Definition clear (b : CreateBackoff) (key : string) : CreateBackoff :=
  match inner b !! key with
  | Some e =>
      with_inner b (if bool_decide (counted e = ∅) then delete key (inner b)
                    else <[key := mkEntry 0 None (counted e)]> (inner b))
  | None => b
  end.

(** [None] of the second component: no requeue is asked for. *)
Definition allowed (b : CreateBackoff) (key : string) (now : Z) : bool * option Z :=
  match inner b !! key with
  | Some e =>
      match next e with
      | Some nx => if now <? nx then (false, Some (nx - now)) else (true, None)
      | None => (true, None)
      end
  | None => (true, None)
  end.

(** ** Lemmas *)

Lemma count_new_seen seen failed b n :
  (∀ u, u ∈ failed → u ∈ seen) → count_new seen failed b n = (b, n).
Proof.
  revert b n. induction failed as [|u l IH]; intros b n H; simpl; [done|].
  rewrite bool_decide_true by (apply H; by left). apply IH. intros v Hv. apply H. by right.
Qed.

Lemma count_new_new seen failed b n :
  (∃ u, u ∈ failed ∧ u ∉ seen) → (count_new seen failed b n).1 = true.
Proof.
  assert (∀ l n, (count_new seen l true n).1 = true) as Ht.
  { intros l. induction l as [|u l IH]; intros m; simpl; [done|]. case_bool_decide; apply IH. }
  revert b n. induction failed as [|u l IH]; intros b n (v & Hv & Hn); [by apply not_elem_of_nil in Hv|].
  simpl. case_bool_decide as Hs; [|apply Ht]. apply IH. exists v. split; [|done].
  apply elem_of_cons in Hv as [->|?]; done.
Qed.

Lemma observe_some b key failed now :
  failed ≠ [] →
  observe_failures b key failed now =
    let e := default (mkEntry 0 None ∅) (inner b !! key) in
    let '(is_new, n) := count_new (counted e) failed false (failures e) in
    (with_inner b (<[key := mkEntry n (if is_new then Some (now + delay b n) else next e)
                              (list_to_set failed)]> (inner b)), is_new).
Proof. by destruct failed. Qed.

(** ** Theorems *)

(** The delay doubles per failure and is capped: for the windows the
    controllers use (base below [2^31] seconds) it is exactly
    [min(base * 2^(failures-1), max)] with the exponent capped at 32, so it
    never shrinks as failures grow, starts at [min(base, max)] and never
    exceeds the cap. *)
Theorem delay_exponential b n n' :
  1 ≤ base_secs b < 2 ^ 31 → 1 ≤ max_secs b ≤ u64_max → 1 ≤ n → n ≤ n' →
  delay b n = Z.min (base_secs b * 2 ^ Z.min (n - 1) 32) (max_secs b) * NANOS ∧
  delay b 1 = Z.min (base_secs b) (max_secs b) * NANOS ∧
  delay b n ≤ delay b n' ≤ max_secs b * NANOS.
Proof.
  intros Hb Hm Hn Hn'.
  assert (∀ k, 1 ≤ k → delay b k = Z.min (base_secs b * 2 ^ Z.min (k - 1) 32) (max_secs b) * NANOS) as Hd.
  { intros k Hk. unfold delay, sat_sub. rewrite (Z.max_r 0 (k - 1)) by lia. set (s := Z.min (k - 1) 32).
    unfold checked_shl. replace (s <? 64) with true by (symmetry; apply Z.ltb_lt; lia).
    simpl default. rewrite Z.shiftl_mul_pow2 by lia. rewrite wrap64_small; [done|].
    assert (2 ^ s ≤ 2 ^ 32) by (apply Z.pow_le_mono_r; lia). assert (0 < 2 ^ s) by (apply Z.pow_pos_nonneg; lia).
    unfold is_u64, u64_max. nia. }
  rewrite !Hd by lia. split_and!; [done| | |].
  - replace (Z.min (1 - 1) 32) with 0 by lia. by rewrite Z.mul_1_r.
  - unfold NANOS. apply Z.mul_le_mono_nonneg_r; [lia|]. apply Z.min_le_compat_r.
    apply Z.mul_le_mono_nonneg_l; [lia|]. apply Z.pow_le_mono_r; lia.
  - unfold NANOS. apply Z.mul_le_mono_nonneg_r; lia.
Qed.

Lemma delay_exponential_witness :
  delay new 1 = 10 * NANOS ∧ delay new 3 = 40 * NANOS ∧ delay new 9 ≤ 300 * NANOS.
Proof.
  assert (1 ≤ base_secs new < 2 ^ 31) as H1 by (vm_compute; split; congruence).
  assert (1 ≤ max_secs new ≤ u64_max) as H2 by (vm_compute; split; congruence).
  destruct (delay_exponential new 3 9 H1 H2 ltac:(lia) ltac:(lia)) as (E1 & E2 & E3).
  change (max_secs new) with 300 in E3. split_and!; [exact E2|exact E1|lia].
Defined.

(** Each failed pod widens the window once.  After a pass has seen some
    failed pods, a later pass that sees only those again reports nothing new
    and leaves the window where it is; the key is blocked exactly until the
    window closes, and a pass that sees a pod not yet counted moves it. *)
Theorem failure_counted_once b key failed now again now' t :
  failed ≠ [] → again ≠ [] → (∀ u, u ∈ again → u ∈ failed) →
  let b1 := (observe_failures b key failed now).1 in
  let b2 := (observe_failures b1 key again now').1 in
  (observe_failures b1 key again now').2 = false ∧ allowed b2 key t = allowed b1 key t ∧
  ((∃ u, u ∈ failed ∧ u ∉ default ∅ (counted <$> inner b !! key)) →
   (observe_failures b key failed now).2 = true ∧
   ∃ n, (allowed b1 key t).1 = bool_decide (now + delay b n ≤ t)).
Proof.
  intros Hf Ha Hsub b1 b2. set (e := default (mkEntry 0 None ∅) (inner b !! key)).
  destruct (count_new (counted e) failed false (failures e)) as [is_new n] eqn:Ec.
  set (nx := if is_new then Some (now + delay b n) else next e).
  assert (observe_failures b key failed now
          = (with_inner b (<[key := mkEntry n nx (list_to_set failed)]> (inner b)), is_new)) as E1.
  { rewrite observe_some by done. cbv zeta. fold e. by rewrite Ec. }
  assert (observe_failures b1 key again now'
          = (with_inner b1 (<[key := mkEntry n nx (list_to_set again)]> (inner b1)), false)) as E2.
  { rewrite observe_some by done. cbv zeta. unfold b1. rewrite E1. cbn [fst inner with_inner].
    rewrite lookup_insert_eq. cbn [default from_option id counted failures next]. rewrite count_new_seen; [done|].
    intros u Hu. apply elem_of_list_to_set. auto. }
  unfold b2. rewrite E2. split; [done|].
  assert (∀ s b', allowed (with_inner b' (<[key := mkEntry n nx s]> (inner b'))) key t =
    match nx with Some x => if t <? x then (false, Some (x - t)) else (true, None) | None => (true, None) end) as Hal.
  { intros s b'. unfold allowed. cbn [inner with_inner]. by rewrite lookup_insert_eq. }
  split; [cbn [fst]; rewrite Hal; unfold b1; rewrite E1; cbn [fst]; by rewrite Hal|].
  intros Hnew. assert (is_new = true) as ->.
  { pose proof (count_new_new (counted e) failed false (failures e)) as H. rewrite Ec in H. apply H.
    unfold e. by destruct (inner b !! key). }
  rewrite E1. split; [done|]. exists n. unfold b1. rewrite E1. cbn [fst]. rewrite Hal. unfold nx.
  destruct (t <? now + delay b n) eqn:El; simpl; symmetry.
  - apply Z.ltb_lt in El. apply bool_decide_eq_false_2. lia.
  - apply Z.ltb_ge in El. apply bool_decide_eq_true_2. lia.
Qed.

Lemma failure_counted_once_witness :
  let b1 := (observe_failures new "rs" ["p1"] 0).1 in
  (observe_failures b1 "rs" ["p1"] 5).2 = false ∧ allowed b1 "rs" (10 * NANOS) = (true, None).
Proof.
  destruct (failure_counted_once new "rs" ["p1"] 0 ["p1"] 5 (10 * NANOS)) as (H1 & _); [done|done|done|].
  split; [exact H1|]. vm_compute. reflexivity.
Defined.

(** Bits shifted out are lost: with a base of [2^32] seconds the 33rd failure
    has no delay at all, where the doc comment says the cap is reached. *)
Lemma delay_wraps : delay (mkBackoff (2 ^ 32) u64_max ∅) 33 = 0.
Proof. vm_compute. reflexivity. Qed.
