(* ===== verification/Selector.v ===== *)
(** * Selectors

    [Module LabelSelector] is [metav1.LabelSelector] matching
    ([pkg/apimachinery/src/selector.rs]); [Module Query] is the selector
    syntax of list and watch requests ([pkg/apiserver/src/selector.rs]).  The
    two are proved to agree, and printing a query and parsing it back gives
    the same requirements. *)

From stdpp Require Import base gmap strings list numbers option.
From Stdlib Require Import ZArith Lia String Ascii.
From S2P Require Import Prelude Text BTree Json.
Open Scope string_scope.
Open Scope Z_scope.

Module LabelSelector.

(** The operators of one expression; an unknown one matches nothing. *)
Definition expr_ok (expr labels : Value) : bool :=
  let key := str_or "" (index expr "key") in
  let op := str_or "" (index expr "operator") in
  let values := omap as_str (items (index expr "values")) in
  let have := Json.get labels key ≫= as_str in
  if str_eqb op "In" then match have with Some v => str_in v values | None => false end
  else if str_eqb op "NotIn" then match have with Some v => negb (str_in v values) | None => true end
  else if str_eqb op "Exists" then match have with Some _ => true | None => false end
  else if str_eqb op "DoesNotExist" then match have with Some _ => false | None => true end
  else false.

Definition matches (selector labels : Value) : bool :=
  if is_null selector then false
  else if negb (is_object selector) then false
  else
    forallb (λ kv, match Json.get labels kv.1 with Some have => value_eqb have kv.2 | None => false end)
      (default [] (Json.get selector "matchLabels" ≫= as_object))
    && forallb (λ e, expr_ok e labels) (default [] (Json.get selector "matchExpressions" ≫= as_array)).

End LabelSelector.

Module Query.

Inductive LabelRequirement :=
| REq (k v : string)
| RNotEq (k v : string)
| RIn (k : string) (vs : list string)
| RNotIn (k : string) (vs : list string)
| RExists (k : string)
| RDoesNotExist (k : string).

Record FieldRequirement := mkField { field : string; value : string; negate : bool }.

(** [s.find(pat)]: what precedes and follows the first occurrence. *)
Fixpoint find_split (pat s : string) : option (string * string) :=
  match strip_prefix pat s with
  | Some r => Some ("", r)
  | None =>
      match s with
      | EmptyString => None
      | String c s' => match find_split pat s' with Some (l, r) => Some (String c l, r) | None => None end
      end
  end.

Fixpoint split_go (depth : Z) (s : string) : string * list string :=
  match s with
  | EmptyString => ("", [])
  | String c s' =>
      if Ascii.eqb c "," && (depth =? 0) then let '(p, ps) := split_go depth s' in ("", p :: ps)
      else
        let depth' := if Ascii.eqb c "(" then depth + 1 else if Ascii.eqb c ")" then depth - 1 else depth in
        let '(p, ps) := split_go depth' s' in (String c p, ps)
  end.

Definition split_selector (s : string) : list string := let '(p, ps) := split_go 0 s in p :: ps.

Definition parse_set_values (s0 : string) : list string :=
  let s := trim s0 in
  let s := default s (strip_prefix "(" s) in
  let s := default s (strip_suffix ")" s) in
  List.filter (λ v, negb (is_empty_str v)) (trim <$> split_on "," s).

Definition parse_one_label (s : string) : option LabelRequirement :=
  match find_split " notin " s with
  | Some (k, r) => Some (RNotIn (trim k) (parse_set_values r))
  | None =>
  match find_split " in " s with
  | Some (k, r) => Some (RIn (trim k) (parse_set_values r))
  | None =>
  match find_split "!=" s with
  | Some (k, r) => Some (RNotEq (trim k) (trim r))
  | None =>
  match find_split "=" s with
  | Some (k, rest) => Some (REq (trim k) (trim (default rest (strip_prefix "=" rest))))
  | None =>
      let absent := match strip_prefix "!" s with
                    | Some rest => let key := trim rest in if is_empty_str key then None else Some key
                    | None => None
                    end in
      match absent with
      | Some key => Some (RDoesNotExist key)
      | None => let key := trim s in if is_empty_str key then None else Some (RExists key)
      end
  end end end end.

Definition parse_label_selector (s0 : string) : list LabelRequirement :=
  let s := trim s0 in
  if is_empty_str s then []
  else omap (λ part, let part := trim part in if is_empty_str part then None else parse_one_label part)
         (split_selector s).

Definition parse_field_part (part0 : string) : option FieldRequirement :=
  let part := trim part0 in
  if is_empty_str part then None
  else
    match find_split "!=" part with
    | Some (f, v) => Some (mkField (trim f) (trim v) true)
    | None =>
        match find_split "=" part with
        | Some (f, v) => Some (mkField (trim f) (trim v) false)
        | None => None
        end
    end.

Definition parse_field_selector (s0 : string) : list FieldRequirement :=
  let s := trim s0 in if is_empty_str s then [] else omap parse_field_part (split_on "," s).

Definition label_str (labels : Map) (k : string) : option string := map_get labels k ≫= as_str.

Definition requirement_ok (labels : Map) (req : LabelRequirement) : bool :=
  match req with
  | REq k v => match label_str labels k with Some x => str_eqb x v | None => false end
  | RNotEq k v => match label_str labels k with Some x => negb (str_eqb x v) | None => true end
  | RIn k vs => match label_str labels k with Some x => str_in x vs | None => false end
  | RNotIn k vs => match label_str labels k with Some x => negb (str_in x vs) | None => true end
  | RExists k => contains_key labels k
  | RDoesNotExist k => negb (contains_key labels k)
  end.

Definition matches_label_selector (labels : Map) (reqs : list LabelRequirement) : bool :=
  forallb (requirement_ok labels) reqs.

Definition zero_value (f : string) : string := if str_eqb f "spec.unschedulable" then "false" else "".

Section Fields.
  (** [Number::to_string] and the JSON text of an array or object. *)
  Variable number_text : Number → string.
  Variable json_text : Value → string.

Fixpoint get_path (v : Value) (path : list string) : option Value :=
  match path with [] => Some v | k :: path' => Json.get v k ≫= λ x, get_path x path' end.

Definition field_text (v : Value) : option string :=
  match v with
  | Str s => Some s
  | Num n => Some (number_text n)
  | Bool b => Some (if b then "true" else "false")
  | Null => None
  | _ => Some (json_text v)
  end.

Definition resolve_field (obj : Value) (path : string) : option string :=
  let path :=
    if str_eqb path "source" && match Json.get obj "source" with Some v => is_object v | None => false end
    then "source.component" else path in
  get_path obj (split_on "." path) ≫= field_text.

Definition matches_field_selector (obj : Value) (reqs : list FieldRequirement) : bool :=
  forallb (λ req, xorb (str_eqb (default (zero_value (field req)) (resolve_field obj (field req))) (value req))
                       (negate req)) reqs.

Definition matches_selectors (obj : Value) (label_sel field_sel : option string) : bool :=
  let label_reqs := default [] (parse_label_selector <$> label_sel) in
  let field_reqs := default [] (parse_field_selector <$> field_sel) in
  let labels := entries (index (index obj "metadata") "labels") in
  if negb match label_reqs with [] => true | _ => matches_label_selector labels label_reqs end then false
  else if negb match field_reqs with [] => true | _ => matches_field_selector obj field_reqs end then false
  else true.

Definition filter_objects (items : list Value) (label_sel field_sel : option string) : list Value :=
  let label_reqs := default [] (parse_label_selector <$> label_sel) in
  let field_reqs := default [] (parse_field_selector <$> field_sel) in
  match label_reqs, field_reqs with
  | [], [] => items
  | _, _ =>
      List.filter (λ obj,
        match label_reqs with
        | [] => true
        | _ => matches_label_selector (entries (index (index obj "metadata") "labels")) label_reqs
        end
        && match field_reqs with [] => true | _ => matches_field_selector obj field_reqs end) items
  end.

End Fields.

Example parse_1 : parse_label_selector "app=web, tier in (front, back),!canary,env notin (dev),x" =
  [REq "app" "web"; RIn "tier" ["front"; "back"]; RDoesNotExist "canary"; RNotIn "env" ["dev"]; RExists "x"].
Proof. vm_compute. reflexivity. Qed.

End Query.

Import Query.

(** ** Theorems: agreement *)

(** The [matchExpressions] spelling of a requirement. *)
Definition expr (k op : string) (vs : list string) : Value :=
  json_obj [("key", Str k); ("operator", Str op); ("values", Array (Str <$> vs))].

Definition expr_of (r : LabelRequirement) : Value :=
  match r with
  | REq k v => expr k "In" [v]
  | RNotEq k v => expr k "NotIn" [v]
  | RIn k vs => expr k "In" vs
  | RNotIn k vs => expr k "NotIn" vs
  | RExists k => expr k "Exists" []
  | RDoesNotExist k => expr k "DoesNotExist" []
  end.

Definition selector_of (reqs : list LabelRequirement) : Value :=
  json_obj [("matchExpressions", Array (expr_of <$> reqs))].

Definition string_labels (labels : Map) : bool := forallb (λ kv, is_string kv.2) labels.

Lemma label_str_contains labels k :
  string_labels labels = true → (∃ s, label_str labels k = Some s ∧ contains_key labels k = true) ∨
  (label_str labels k = None ∧ contains_key labels k = false).
Proof.
  intros H. unfold label_str, contains_key. destruct (map_get labels k) as [v|] eqn:E; [|by right].
  apply map_get_In in E. unfold string_labels in H. rewrite forallb_forall in H. specialize (H _ E).
  simpl in H. destruct v; try done. left. by eexists.
Qed.

Lemma omap_Str (vs : list string) : omap as_str (Str <$> vs) = vs.
Proof. induction vs as [|v vs IH]; [done|]. change (v :: omap as_str (Str <$> vs) = v :: vs). by rewrite IH. Qed.

Lemma expr_fields k op vs :
  str_or "" (index (expr k op vs) "key") = k ∧ str_or "" (index (expr k op vs) "operator") = op ∧
  omap as_str (items (index (expr k op vs) "values")) = vs.
Proof. split_and!; [done|done|]. apply omap_Str. Qed.

Lemma expr_agrees labels r :
  string_labels labels = true →
  LabelSelector.expr_ok (expr_of r) (Object labels) = requirement_ok labels r.
Proof.
  intros Hs. unfold LabelSelector.expr_ok.
  destruct r as [k v|k v|k vs|k vs|k|k]; cbn [expr_of requirement_ok];
    match goal with |- context [expr k ?op ?vs] => destruct (expr_fields k op vs) as (-> & -> & ->) end;
    cbn [Json.get]; fold (label_str labels k);
    destruct (label_str_contains labels k Hs) as [(s & -> & E)|[-> E]]; rewrite ?E; try done; simpl; unfold str_in; simpl;
    by rewrite ?orb_false_r.
Qed.

(** The two selector languages agree.  A list of requirements of the query
    syntax and the [LabelSelector] that spells them as [matchExpressions]
    select the same objects (labels are strings). *)
Theorem selector_languages_agree labels reqs :
  string_labels labels = true →
  LabelSelector.matches (selector_of reqs) (Object labels) = matches_label_selector labels reqs.
Proof.
  intros Hs. transitivity (forallb (λ e, LabelSelector.expr_ok e (Object labels)) (expr_of <$> reqs)); [done|].
  unfold matches_label_selector. induction reqs as [|r reqs IH]; [done|].
  rewrite fmap_cons. cbn [forallb]. by rewrite expr_agrees, IH.
Qed.

Lemma selector_languages_agree_witness :
  LabelSelector.matches (selector_of [REq "app" "web"; RDoesNotExist "canary"]) (Object [("app", Str "web")]) = true.
Proof. rewrite selector_languages_agree; reflexivity. Defined.

(** LIST and WATCH agree: filtering a list keeps exactly the objects whose
    events a watch with the same selectors would deliver. *)
Theorem list_watch_agree number_text json_text objs label_sel field_sel :
  filter_objects number_text json_text objs label_sel field_sel
  = List.filter (λ o, matches_selectors number_text json_text o label_sel field_sel) objs.
Proof.
  unfold filter_objects, matches_selectors.
  set (lr := default [] (parse_label_selector <$> label_sel)).
  set (fr := default [] (parse_field_selector <$> field_sel)).
  assert (∀ a b : bool, (if negb a then false else if negb b then false else true) = a && b) as Hb by (by intros [] []).
  destruct lr as [|l ls], fr as [|f fs].
  - simpl. induction objs as [|o objs IH]; simpl; [done|]. by rewrite <- IH.
  - apply filter_ext. intros o. by rewrite Hb.
  - apply filter_ext. intros o. by rewrite Hb.
  - apply filter_ext. intros o. by rewrite Hb.
Qed.

(** A selector that is not set selects nothing, an empty one everything, and
    an expression with an operator the API does not have selects nothing. *)
Theorem selector_fails_closed labels k op vs rest :
  str_in op ["In"; "NotIn"; "Exists"; "DoesNotExist"] = false →
  LabelSelector.matches Null labels = false ∧ LabelSelector.matches (Object []) labels = true ∧
  LabelSelector.matches (json_obj [("matchExpressions", Array (expr k op vs :: rest))]) labels = false.
Proof.
  intros Hop. split_and!; [done|done|].
  unfold str_in in Hop. simpl in Hop. rewrite !orb_false_iff in Hop. destruct Hop as (H1 & H2 & H3 & H4 & _).
  transitivity (LabelSelector.expr_ok (expr k op vs) labels && forallb (λ e, LabelSelector.expr_ok e labels) rest); [done|].
  unfold LabelSelector.expr_ok at 1. destruct (expr_fields k op vs) as (-> & -> & ->). by rewrite H1, H2, H3, H4.
Qed.

Lemma selector_fails_closed_witness :
  LabelSelector.matches (json_obj [("matchExpressions", Array [expr "k" "Iz" ["a"]])]) (Object [("k", Str "a")]) = false.
Proof. exact (proj2 (proj2 (selector_fails_closed (Object [("k", Str "a")]) "k" "Iz" ["a"] [] eq_refl))). Defined.

(** ** Theorems: printing and parsing *)

Definition label_char (c : ascii) : bool :=
  let n := nat_of_ascii c in
  (Nat.leb 48 n && Nat.leb n 57) || (Nat.leb 65 n && Nat.leb n 90) || (Nat.leb 97 n && Nat.leb n 122)
  || Ascii.eqb c "-" || Ascii.eqb c "_" || Ascii.eqb c "." || Ascii.eqb c "/".

Definition label_text (s : string) : bool := str_forall label_char s.
Definition label_word (s : string) : bool := negb (is_empty_str s) && label_text s.

Definition wf_req (r : LabelRequirement) : bool :=
  match r with
  | REq k v | RNotEq k v => label_word k && label_text v
  | RIn k vs | RNotIn k vs => label_word k && forallb label_word vs
  | RExists k | RDoesNotExist k => label_word k
  end.

Fixpoint join (sep : string) (l : list string) : string :=
  match l with
  | [] => ""
  | [x] => x
  | x :: l' => x ++ sep ++ join sep l'
  end.

Definition print_req (r : LabelRequirement) : string :=
  match r with
  | REq k v => k ++ "=" ++ v
  | RNotEq k v => k ++ "!=" ++ v
  | RIn k vs => k ++ " in (" ++ join "," vs ++ ")"
  | RNotIn k vs => k ++ " notin (" ++ join "," vs ++ ")"
  | RExists k => k
  | RDoesNotExist k => "!" ++ k
  end.

Definition print_selector (reqs : list LabelRequirement) : string := join "," (print_req <$> reqs).

Lemma label_char_plain c : label_char c = true → plain c = true.
Proof. destruct c as [[] [] [] [] [] [] [] []]; vm_compute; congruence. Qed.

Lemma label_no_char c s : label_char c = false → label_text s = true → str_contains_char c s = false.
Proof. intros Hc Hs. by apply (str_forall_no_char label_char). Qed.

Lemma trim_ends s a t u b : s = String a t → s = (u ++ String b "")%string → plain a = true → plain b = true → trim s = s.
Proof.
  intros E1 E2 Ha Hb. apply (trim_plain s a t b (str_rev u)); [done| |done|done].
  rewrite E2, str_rev_app_distr. done.
Qed.

Lemma str_snoc s : s ≠ "" → ∃ u b, s = (u ++ String b "")%string.
Proof.
  induction s as [|c s IH]; [done|]. intros _. destruct s as [|d s]; [by exists "", c|].
  destruct IH as (u & b & E); [done|]. exists (String c u), b. by rewrite E.
Qed.

Lemma trim_label s : label_text s = true → trim s = s.
Proof.
  intros Hs. destruct s as [|a t] eqn:E; [done|]. rewrite <- E in *.
  destruct (str_snoc s) as (u & b & E2); [by rewrite E|].
  apply (trim_ends s a t u b); [done|done| |]; apply label_char_plain.
  - unfold label_text in Hs. rewrite E in Hs. simpl in Hs. by apply andb_true_iff in Hs as [? _].
  - unfold label_text in Hs. rewrite E2, str_forall_app in Hs. simpl in Hs.
    apply andb_true_iff in Hs as [_ Hs]. by rewrite andb_true_r in Hs.
Qed.

Definition prefix_left (a : string) (r : option (string * string)) : option (string * string) :=
  match r with Some (l, x) => Some ((a ++ l)%string, x) | None => None end.

Lemma strip_prefix_head c p d s : c ≠ d → strip_prefix (String c p) (String d s) = None.
Proof. intros H. simpl. apply Ascii.eqb_neq in H. by rewrite H. Qed.

Lemma find_split_skip c p a b :
  str_contains_char c a = false →
  find_split (String c p) (a ++ b) = prefix_left a (find_split (String c p) b).
Proof.
  induction a as [|d a IH]; intros Ha; cbn [append].
  - by destruct (find_split (String c p) b) as [[l r]|].
  - cbn [str_contains_char] in Ha. apply orb_false_iff in Ha as [Hd Ha].
    change (find_split (String c p) (String d (a ++ b))) with
      (match strip_prefix (String c p) (String d (a ++ b)) with
       | Some r => Some ("", r)
       | None => match find_split (String c p) (a ++ b) with Some (l, r) => Some (String d l, r) | None => None end
       end).
    rewrite strip_prefix_head by (apply Ascii.eqb_neq in Hd; congruence).
    rewrite IH by done. by destruct (find_split (String c p) b) as [[l r]|].
Qed.

Lemma find_split_none c p a : str_contains_char c a = false → find_split (String c p) a = None.
Proof. intros H. rewrite <- (str_app_nil_r a). by rewrite find_split_skip. Qed.

Lemma split_on_join vs :
  vs ≠ [] → forallb label_word vs = true → split_on "," (join "," vs) = vs.
Proof.
  assert (∀ v s, str_contains_char "," v = false →
    split_on "," (v ++ s) = match split_on "," s with [] => [v] | p :: ps => (v ++ p)%string :: ps end) as Hskip.
  { induction v as [|c v IH]; intros s Hv; simpl.
    - destruct (split_on "," s) eqn:E; [|done]. by destruct s; simpl in E; repeat case_match.
    - simpl in Hv. apply orb_false_iff in Hv as [Hc Hv]. rewrite IH by done.
      replace (Ascii.eqb c ",") with false by (by rewrite Hc || (symmetry; rewrite Ascii.eqb_sym; done)).
      by destruct (split_on "," s). }
  induction vs as [|v vs IH]; intros Hne Hvs; [done|]. simpl in Hvs. apply andb_true_iff in Hvs as [Hv Hvs].
  assert (str_contains_char "," v = false) as Hnc.
  { apply label_no_char; [done|]. unfold label_word in Hv. by apply andb_true_iff in Hv as [_ ?]. }
  destruct vs as [|w vs].
  - simpl. rewrite <- (str_app_nil_r v) at 1. rewrite Hskip by done. simpl. by rewrite str_app_nil_r.
  - change (join "," (v :: w :: vs)) with (v ++ ("," ++ join "," (w :: vs)))%string.
    rewrite Hskip by done. cbn [append split_on]. simpl Ascii.eqb. cbv iota.
    rewrite IH by done. by rewrite str_app_nil_r.
Qed.

Lemma parse_set_values_join vs :
  forallb label_word vs = true → parse_set_values ("(" ++ join "," vs ++ ")") = vs.
Proof.
  intros Hvs. unfold parse_set_values.
  rewrite (trim_ends _ "(" (join "," vs ++ ")") ("(" ++ join "," vs) ")"); [|done|done|done|done].
  change ("(" ++ join "," vs ++ ")")%string with (String "(" (join "," vs ++ ")")).
  cbn [strip_prefix]. simpl Ascii.eqb. cbv iota. cbn [default from_option id].
  rewrite strip_suffix_app. cbn [default from_option id].
  destruct vs as [|v vs]; [reflexivity|]. rewrite split_on_join by done.
  assert (∀ l, forallb label_word l = true → List.filter (λ v, negb (is_empty_str v)) (trim <$> l) = l) as H; [|by apply H].
  induction l as [|x l IH]; [done|]. intros [Hx Hl]%andb_true_iff. rewrite fmap_cons. cbn [List.filter].
  unfold label_word in Hx. apply andb_true_iff in Hx as [Hne Ht]. rewrite trim_label, Hne by done. by rewrite IH.
Qed.

Lemma no_char_app c a b : str_contains_char c (a ++ b) = str_contains_char c a || str_contains_char c b.
Proof. induction a as [|d a IH]; [done|]. cbn [append str_contains_char]. by rewrite IH, orb_assoc. Qed.

Lemma join_no_char c vs :
  label_char c = false → c ≠ ","%char → forallb label_word vs = true → str_contains_char c (join "," vs) = false.
Proof.
  intros Hc Hcomma. induction vs as [|v vs IH]; intros Hvs; [done|]. simpl in Hvs.
  apply andb_true_iff in Hvs as [Hv Hvs]. unfold label_word in Hv. apply andb_true_iff in Hv as [_ Hv].
  destruct vs as [|w vs]; [by apply label_no_char|].
  change (join "," (v :: w :: vs)) with (v ++ ("," ++ join "," (w :: vs)))%string.
  rewrite !no_char_app, IH, label_no_char by done.
  assert (Ascii.eqb "," c = false) as E by (apply Ascii.eqb_neq; congruence).
  cbn [str_contains_char]. by rewrite E.
Qed.

(** Closes "this character does not occur in a text made of labels and punctuation". *)
Ltac label_free :=
  rewrite ?no_char_app, ?orb_false_iff; repeat split; first [reflexivity | by apply label_no_char].

(** After a key without spaces, the first space decides. *)
Lemma parse_print_in k vs :
  label_word k = true → forallb label_word vs = true →
  parse_one_label (k ++ " in (" ++ join "," vs ++ ")") = Some (RIn k vs).
Proof.
  intros [_ Hk]%andb_true_iff Hvs. unfold parse_one_label.
  assert (str_contains_char " " k = false) as Hs by (by apply label_no_char).
  rewrite (find_split_skip " " "notin ") by done.
  assert (find_split " notin " (" in (" ++ join "," vs ++ ")") = None) as ->.
  { change (" in (" ++ join "," vs ++ ")")%string with (" in" ++ (" " ++ ("(" ++ join "," vs ++ ")")))%string.
    change (find_split " notin " (" in" ++ ?s))%string with
      (match find_split " notin " ("in" ++ s)%string with Some (l, r) => Some (String " " l, r) | None => None end).
    rewrite (find_split_skip " " "notin " "in") by done.
    change (find_split " notin " (" " ++ ("(" ++ join "," vs ++ ")")))%string with
      (match find_split " notin " ("(" ++ join "," vs ++ ")")%string with Some (l, r) => Some (String " " l, r) | None => None end).
    rewrite find_split_none; [done|]. rewrite !no_char_app, join_no_char by done. done. }
  cbn [prefix_left]. rewrite (find_split_skip " " "in ") by done.
  change (find_split " in " (" in (" ++ join "," vs ++ ")"))%string with (Some ("", ("(" ++ join "," vs ++ ")")%string)).
  cbn [prefix_left]. by rewrite str_app_nil_r, trim_label, parse_set_values_join.
Qed.

Lemma parse_print_notin k vs :
  label_word k = true → forallb label_word vs = true →
  parse_one_label (k ++ " notin (" ++ join "," vs ++ ")") = Some (RNotIn k vs).
Proof.
  intros [_ Hk]%andb_true_iff Hvs. unfold parse_one_label.
  rewrite (find_split_skip " " "notin ") by (by apply label_no_char).
  change (find_split " notin " (" notin (" ++ join "," vs ++ ")"))%string with (Some ("", ("(" ++ join "," vs ++ ")")%string)).
  cbn [prefix_left]. by rewrite str_app_nil_r, trim_label, parse_set_values_join.
Qed.

(** The other forms hold no space. *)
Lemma parse_no_space s :
  str_contains_char " " s = false →
  parse_one_label s =
    match find_split "!=" s with
    | Some (k, r) => Some (RNotEq (trim k) (trim r))
    | None =>
        match find_split "=" s with
        | Some (k, rest) => Some (REq (trim k) (trim (default rest (strip_prefix "=" rest))))
        | None =>
            let absent := match strip_prefix "!" s with
                          | Some rest => let key := trim rest in if is_empty_str key then None else Some key
                          | None => None
                          end in
            match absent with
            | Some key => Some (RDoesNotExist key)
            | None => let key := trim s in if is_empty_str key then None else Some (RExists key)
            end
        end
    end.
Proof.
  intros H. unfold parse_one_label.
  by rewrite (find_split_none " " "notin "), (find_split_none " " "in ").
Qed.

Lemma label_word_spec k : label_word k = true → label_text k = true ∧ is_empty_str k = false.
Proof. intros [H1 H2]%andb_true_iff. split; [done|]. by apply negb_true_iff in H1. Qed.

Lemma parse_print_one r : wf_req r = true → parse_one_label (print_req r) = Some r.
Proof.
  destruct r as [k v|k v|k vs|k vs|k|k]; cbn [wf_req print_req]; intros Hw.
  - apply andb_true_iff in Hw as [[Hk _]%label_word_spec Hv].
    rewrite parse_no_space by label_free.
    rewrite (find_split_skip "!" "=") by (by apply label_no_char).
    rewrite (find_split_none "!" "=" ("=" ++ v)) by label_free.
    cbn [prefix_left]. rewrite (find_split_skip "=" "") by (by apply label_no_char).
    change (find_split "=" ("=" ++ v))%string with (Some ("", v)). cbn [prefix_left].
    rewrite str_app_nil_r, trim_label by done.
    assert (strip_prefix "=" v = None) as ->; [|cbn [default from_option id]; by rewrite trim_label].
    destruct v as [|c v]; [done|]. apply strip_prefix_head. intros <-. by cbn in Hv.
  - apply andb_true_iff in Hw as [[Hk _]%label_word_spec Hv].
    rewrite parse_no_space by label_free.
    rewrite (find_split_skip "!" "=") by (by apply label_no_char).
    change (find_split "!=" ("!=" ++ v))%string with (Some ("", v)). cbn [prefix_left].
    by rewrite str_app_nil_r, !trim_label.
  - apply andb_true_iff in Hw as [Hk Hvs]. by apply parse_print_in.
  - apply andb_true_iff in Hw as [Hk Hvs]. by apply parse_print_notin.
  - apply label_word_spec in Hw as [Hk Hne].
    rewrite parse_no_space by (by apply label_no_char). rewrite !find_split_none by (by apply label_no_char).
    destruct k as [|c k]; [done|]. rewrite strip_prefix_head by (intros <-; by cbn in Hk).
    cbv zeta iota. rewrite trim_label by done. done.
  - apply label_word_spec in Hw as [Hk Hne]. change ("!" ++ k)%string with (String "!" k).
    rewrite parse_no_space by (cbn [str_contains_char]; by rewrite label_no_char).
    assert (find_split "!=" (String "!" k) = None) as ->.
    { destruct k as [|c k]; [done|].
      change (find_split "!=" (String "!" (String c k))) with
        (match strip_prefix "=" (String c k) with
         | Some r => Some ("", r)
         | None => match find_split "!=" (String c k) with Some (l, r) => Some (String "!" l, r) | None => None end
         end).
      rewrite strip_prefix_head by (intros <-; by cbn in Hk). by rewrite find_split_none by (by apply label_no_char). }
    assert (find_split "=" (String "!" k) = None) as ->.
    { apply find_split_none. cbn [str_contains_char]. by rewrite label_no_char. }
    change (strip_prefix "!" (String "!" k)) with (Some k). cbv zeta iota. rewrite trim_label by done. by rewrite Hne.
Qed.

(** *** Splitting what was joined *)

(** [a] takes the splitter from depth [d] to depth [e] without being cut. *)
Definition passes (d : Z) (a : string) (e : Z) : Prop :=
  ∀ s, split_go d (a ++ s) = ((a ++ (split_go e s).1)%string, (split_go e s).2).

Lemma passes_app d a e b f : passes d a e → passes e b f → passes d (a ++ b) f.
Proof. intros Ha Hb s. rewrite <- str_app_assoc, Ha, Hb. cbn. by rewrite str_app_assoc. Qed.

Lemma passes_flat d a :
  str_contains_char "(" a = false → str_contains_char ")" a = false →
  (d = 0 → str_contains_char "," a = false) → passes d a d.
Proof.
  intros H1 H2 H3 s. induction a as [|c a IH].
  - simpl. by destruct (split_go d s).
  - cbn [str_contains_char] in *. apply orb_false_iff in H1 as [E1 H1], H2 as [E2 H2].
    cbn [append split_go]. rewrite (Ascii.eqb_sym c "("), (Ascii.eqb_sym c ")"), (Ascii.eqb_sym c ",").
    rewrite ?(Ascii.eqb_sym "(" c), E1, ?(Ascii.eqb_sym ")" c), E2.
    assert (Ascii.eqb "," c && (d =? 0) = false) as ->.
    { destruct (Z.eqb_spec d 0) as [->|]; [|by rewrite andb_false_r].
      destruct (orb_false_elim _ _ (H3 eq_refl)) as [E3 _]. rewrite Ascii.eqb_sym, E3. done. }
    rewrite IH; [done|done|done|]. intros E. by destruct (orb_false_elim _ _ (H3 E)).
Qed.

Lemma passes_label d a : label_text a = true → passes d a d.
Proof. intros H. apply passes_flat; intros; by apply label_no_char. Qed.

Lemma passes_set vs : forallb label_word vs = true → passes 0 ("(" ++ join "," vs ++ ")") 0.
Proof.
  intros H. apply (passes_app 0 "(" 1); [intros s; cbn; by destruct (split_go (0 + 1) s) eqn:E; change (0 + 1) with 1 in E; rewrite E|].
  apply (passes_app 1 _ 1); [|intros s; cbn; by destruct (split_go (1 - 1) s) eqn:E; change (1 - 1) with 0 in E; rewrite E].
  apply passes_flat; [by apply join_no_char..|done].
Qed.

Lemma passes_req r : wf_req r = true → passes 0 (print_req r) 0.
Proof.
  destruct r as [k v|k v|k vs|k vs|k|k]; cbn [wf_req print_req]; intros Hw;
    repeat match goal with H : _ && _ = true |- _ => apply andb_true_iff in H as [? ?] end;
    repeat match goal with H : label_word _ = true |- _ => apply label_word_spec in H as [? _] end.
  - apply (passes_app 0 _ 0); [by apply passes_label|]. apply (passes_app 0 _ 0); [by apply passes_flat|by apply passes_label].
  - apply (passes_app 0 _ 0); [by apply passes_label|]. apply (passes_app 0 _ 0); [by apply passes_flat|by apply passes_label].
  - apply (passes_app 0 _ 0); [by apply passes_label|].
    apply (passes_app 0 " in " 0 ("(" ++ join "," vs ++ ")")); [by apply passes_flat|by apply passes_set].
  - apply (passes_app 0 _ 0); [by apply passes_label|].
    apply (passes_app 0 " notin " 0 ("(" ++ join "," vs ++ ")")); [by apply passes_flat|by apply passes_set].
  - by apply passes_label.
  - apply (passes_app 0 "!" 0); [by apply passes_flat|by apply passes_label].
Qed.

Lemma split_selector_join l : l ≠ [] → Forall (λ a, passes 0 a 0) l → split_selector (join "," l) = l.
Proof.
  intros Hne Hl. induction Hl as [|a l Ha Hl IH]; [done|]. unfold split_selector. destruct l as [|b l].
  - cbn [join]. rewrite <- (str_app_nil_r a) at 1. rewrite Ha. cbn. by rewrite str_app_nil_r.
  - change (join "," (a :: b :: l)) with (a ++ ("," ++ join "," (b :: l)))%string. rewrite Ha.
    assert (split_go 0 ("," ++ join "," (b :: l)) = ("", split_selector (join "," (b :: l)))) as ->.
    { unfold split_selector. cbn [append split_go]. simpl (_ && _). cbv iota.
      by destruct (split_go 0 (join "," (b :: l))). }
    cbn [fst snd]. rewrite IH by done. by rewrite str_app_nil_r.
Qed.

(** *** Printed text needs no trimming *)

Definition starts_plain (s : string) : bool := match s with String c _ => plain c | EmptyString => false end.
Definition tidy (s : string) : Prop := starts_plain s = true ∧ starts_plain (str_rev s) = true.

Lemma trim_tidy s : tidy s → trim s = s ∧ is_empty_str s = false.
Proof.
  intros [H1 H2]. destruct s as [|a t] eqn:E; [done|]. split; [|done]. rewrite <- E in *.
  destruct (str_rev s) as [|b u] eqn:E2; [done|]. subst s. by apply (trim_plain _ a t b u).
Qed.

Lemma starts_app a b : starts_plain a = true → starts_plain (a ++ b) = true.
Proof. by destruct a. Qed.

Lemma tidy_app a b : starts_plain a = true → starts_plain (str_rev b) = true → tidy (a ++ b).
Proof. intros Ha Hb. split; [by apply starts_app|]. rewrite str_rev_app_distr. by apply starts_app. Qed.

Lemma tidy_mid a m b : tidy a → tidy b → tidy (a ++ m ++ b).
Proof. intros [H1 H2] [H3 H4]. rewrite str_app_assoc. apply tidy_app; [by apply starts_app|done]. Qed.

Lemma tidy_label s : label_word s = true → tidy s.
Proof.
  intros [Ht Hn]%label_word_spec.
  assert (∀ t, label_text t = true → is_empty_str t = false → starts_plain t = true) as Hst.
  { intros [|c t] H1 H2; [done|]. apply label_char_plain. unfold label_text in H1. simpl in H1.
    by apply andb_true_iff in H1 as [? _]. }
  split; [by apply Hst|]. apply Hst.
  - unfold label_text in *. by rewrite str_forall_rev.
  - destruct (str_rev s) eqn:E; [|done]. rewrite <- (str_rev_involutive s), E in Hn. done.
Qed.

Lemma tidy_req r : wf_req r = true → tidy (print_req r).
Proof.
  assert (∀ k s v, label_word k = true → tidy s → label_text v = true → tidy (k ++ s ++ v)) as Hkv.
  { intros k s v Hk Hs Hv. destruct (is_empty_str v) eqn:E.
    - destruct v; [|done]. rewrite str_app_nil_r. apply tidy_app; [by apply tidy_label|by destruct Hs].
    - apply tidy_mid; apply tidy_label; [done|]. unfold label_word. by rewrite E, Hv. }
  assert (∀ k s vs, label_word k = true → tidy (k ++ s ++ join "," vs ++ ")")) as Hset.
  { intros k s vs Hk. rewrite !str_app_assoc. apply tidy_app; [|done].
    rewrite <- !str_app_assoc. apply starts_app. by apply tidy_label. }
  destruct r as [k v|k v|k vs|k vs|k|k]; cbn [wf_req print_req]; intros Hw.
  - apply andb_true_iff in Hw as [? ?]. by apply Hkv.
  - apply andb_true_iff in Hw as [? ?]. by apply Hkv.
  - apply andb_true_iff in Hw as [? ?]. by apply Hset.
  - apply andb_true_iff in Hw as [? ?]. by apply Hset.
  - by apply tidy_label.
  - apply tidy_app; [done|by apply tidy_label].
Qed.

Lemma tidy_join l : l ≠ [] → Forall tidy l → tidy (join "," l).
Proof.
  intros Hne Hl. induction Hl as [|a l Ha Hl IH]; [done|]. destruct l as [|b l]; [done|].
  change (join "," (a :: b :: l)) with (a ++ ("," ++ join "," (b :: l)))%string.
  apply tidy_mid; [done|by apply IH].
Qed.

(** Parsing the printed form of a list of label requirements gives the list
    back, when keys and values are made of the characters a Kubernetes label
    may hold: the splitter does not cut inside [in (...)] and no operator is
    mistaken for another. *)
Theorem selector_roundtrip (reqs : list LabelRequirement) :
  forallb wf_req reqs = true → parse_label_selector (print_selector reqs) = reqs.
Proof.
  intros Hw. destruct reqs as [|r reqs]; [done|]. unfold parse_label_selector, print_selector.
  assert (Forall (λ r, wf_req r = true) (r :: reqs)) as Hf by (by apply Forall_forall, forallb_forall).
  destruct (trim_tidy (join "," (print_req <$> r :: reqs))) as [-> ->].
  { apply tidy_join; [done|]. apply Forall_fmap. revert Hf. apply Forall_impl. intros x. apply tidy_req. }
  rewrite split_selector_join; [|done|apply Forall_fmap; revert Hf; apply Forall_impl; intros x; apply passes_req].
  clear Hw. induction Hf as [|x l Hx Hl IH]; [done|]. rewrite fmap_cons. cbn [omap list_omap].
  destruct (trim_tidy _ (tidy_req x Hx)) as [-> ->]. by rewrite parse_print_one, IH.
Qed.

Lemma selector_roundtrip_witness :
  parse_label_selector "app=web,tier in (front,back),!legacy"
  = [REq "app" "web"; RIn "tier" ["front"; "back"]; RDoesNotExist "legacy"].
Proof.
  exact (selector_roundtrip [REq "app" "web"; RIn "tier" ["front"; "back"]; RDoesNotExist "legacy"] eq_refl).
Defined.
