(* ===== verification/Taint.v ===== *)
(** * Taints and tolerations ([pkg/apimachinery/src/taint.rs])

    Which taints a pod tolerates and for how long, what a [NoExecute] taint
    does to a running pod, and putting a taint on a node and taking it off.
    The scheduler's filter and the node controller's eviction share these
    rules, as in the source. *)

From stdpp Require Import base gmap strings list numbers option.
From Stdlib Require Import ZArith Lia String Ascii.
From S2P Require Import Prelude Text BTree Json.
Open Scope string_scope.
Open Scope kube_scope.
Open Scope Z_scope.

(** ** Definitions *)

(** [Some None]: for ever; [Some (Some n)]: for [n] seconds; [None]: not. *)
Definition toleration_matches (toleration taint : Value) : option (option Z) :=
  let t_key := str_or "" toleration.["key"] in
  let t_effect := str_or "" toleration.["effect"] in
  let t_value := str_or "" toleration.["value"] in
  let operator := str_or "Equal" toleration.["operator"] in
  let taint_key := str_or "" taint.["key"] in
  let taint_effect := str_or "" taint.["effect"] in
  let taint_value := str_or "" taint.["value"] in
  if negb (is_empty_str t_effect) && negb (str_eqb t_effect taint_effect) then None
  else
    let matches :=
      if str_eqb operator "Exists" then is_empty_str t_key || str_eqb t_key taint_key
      else if is_empty_str operator || str_eqb operator "Equal"
      then str_eqb t_key taint_key && str_eqb t_value taint_value
      else false in
    if negb matches then None else Some (as_i64 toleration.["tolerationSeconds"]).

(** The loop of [pod_tolerates] from the best match so far. *)
Fixpoint tolerates_go (best : option (option Z)) (tolerations : list Value) (taint : Value) : option (option Z) :=
  match tolerations with
  | [] => best
  | t :: rest =>
      match toleration_matches t taint with
      | None => tolerates_go best rest taint
      | Some None => Some None
      | Some (Some secs) =>
          let best' := match best with
                       | Some (Some prev) => if secs <=? prev then Some (Some prev) else Some (Some secs)
                       | _ => Some (Some secs)
                       end in
          tolerates_go best' rest taint
      end
  end.

Definition pod_tolerates (pod taint : Value) : option (option Z) :=
  match as_array pod.["spec"].["tolerations"] with
  | None => None
  | Some tolerations => tolerates_go None tolerations taint
  end.

Inductive Verdict : Type :=
| Stay
| Evict (key : string)
| EvictIn (secs : Z) (key : string).

Fixpoint verdict_go (pod : Value) (age_secs : Value → Z) (soonest : option (Z * string)) (taints : list Value) :
    Verdict :=
  match taints with
  | [] => match soonest with Some (secs, key) => EvictIn secs key | None => Stay end
  | taint :: rest =>
      if negb (str_is taint.["effect"] "NoExecute") then verdict_go pod age_secs soonest rest
      else
        let key := str_or "" taint.["key"] in
        match pod_tolerates pod taint with
        | Some None => verdict_go pod age_secs soonest rest
        | None => Evict key
        | Some (Some secs) =>
            let remaining := wrap_i64 (secs - age_secs taint) in
            if remaining <=? 0 then Evict key
            else
              let soonest' := match soonest with
                              | Some (prev, k) => if prev <=? remaining then soonest else Some (remaining, key)
                              | None => Some (remaining, key)
                              end in
              verdict_go pod age_secs soonest' rest
        end
  end.

Definition verdict_for (pod : Value) (taints : list Value) (age_secs : Value → Z) : Verdict :=
  verdict_go pod age_secs None taints.

(** [t["key"].as_str() == Some(key) && t["effect"].as_str() == Some(effect)]. *)
Definition is_taint (key effect : string) (t : Value) : bool :=
  str_is t.["key"] key && str_is t.["effect"] effect.

(** [node["spec"]["taints"]] in a mutable position: [IndexMut] puts a [Null]
    where there was nothing, and panics ([None]) when the node or its spec is
    neither an object nor [Null]. *)
Definition taints_mut (node : Value) : option Value :=
  set_index2 node "spec" "taints" node.["spec"].["taints"].

Definition add_taint (node : Value) (key effect now : string) : option (Value * bool) :=
  let taint := json_obj [("key", Str key); ("effect", Str effect); ("timeAdded", Str now)] in
  node' ← taints_mut node;
  match as_array node'.["spec"].["taints"] with
  | Some taints =>
      if existsb (is_taint key effect) taints then Some (node', false)
      else
        node'' ← set_index2 node' "spec" "taints" (Array (taints ++ [taint]));
        Some (node'', true)
  | None =>
      node'' ← set_index2 node' "spec" "taints" (Array [taint]);
      Some (node'', true)
  end.

Definition remove_taint (node : Value) (key effect : string) : option (Value * bool) :=
  node' ← taints_mut node;
  match as_array node'.["spec"].["taints"] with
  | None => Some (node', false)
  | Some taints =>
      let kept := List.filter (λ t, negb (is_taint key effect t)) taints in
      node'' ← set_index2 node' "spec" "taints" (Array kept);
      Some (node'', negb (Nat.eqb (List.length taints) (List.length kept)))
  end.

(** ** How long a pod tolerates a taint *)

(** Longer or equal, [None] being for ever. *)
Definition longer (a b : option Z) : Prop :=
  match a, b with
  | None, _ => True
  | Some x, Some y => y ≤ x
  | Some _, None => False
  end.

Lemma longer_refl a : longer a a.
Proof. destruct a; simpl; [lia|done]. Qed.

Lemma longer_trans a b c : longer a b → longer b c → longer a c.
Proof. destruct a, b, c; simpl; try done; lia. Qed.

Lemma longer_antisym a b : longer a b → longer b a → a = b.
Proof. destruct a, b; simpl; try done. intros. f_equal. lia. Qed.

Definition matching (tolerations : list Value) (taint : Value) (w : option Z) : Prop :=
  ∃ t, t ∈ tolerations ∧ toleration_matches t taint = Some w.

(** [r] is the longest of the best so far and of the matching tolerations. *)
Definition longest (best : option (option Z)) (tolerations : list Value) (taint : Value) (r : option (option Z)) :
    Prop :=
  match r with
  | None => best = None ∧ ∀ w, ¬ matching tolerations taint w
  | Some w =>
      (best = Some w ∨ matching tolerations taint w)
      ∧ (∀ b, best = Some b → longer w b)
      ∧ ∀ w', matching tolerations taint w' → longer w w'
  end.

Lemma matching_cons t l taint w :
  matching (t :: l) taint w ↔ toleration_matches t taint = Some w ∨ matching l taint w.
Proof.
  unfold matching. split.
  - intros (x & [->|Hx]%elem_of_cons & E); [by left|right; by exists x].
  - intros [E|(x & Hx & E)]; [exists t; split; [by left|done]|exists x; split; [by right|done]].
Qed.

Lemma tolerates_go_longest best l taint :
  best ≠ Some None → longest best l taint (tolerates_go best l taint).
Proof.
  revert best. induction l as [|t l IH]; intros best Hb; simpl.
  - destruct best as [w|]; simpl.
    + split_and!; [by left|intros b [= <-]; apply longer_refl|].
      intros w' (x & Hx & _). by apply not_elem_of_nil in Hx.
    + split; [done|]. intros w (x & Hx & _). by apply not_elem_of_nil in Hx.
  - destruct (toleration_matches t taint) as [[secs|]|] eqn:E.
    + set (best' := match best with
                    | Some (Some prev) => if secs <=? prev then Some (Some prev) else Some (Some secs)
                    | _ => Some (Some secs) end).
      assert (∃ n, best' = Some (Some n) ∧ secs ≤ n ∧ (n = secs ∨ best = Some (Some n))
                   ∧ ∀ b, best = Some b → longer (Some n) b) as (n & En & Hn & Hor & Hlong).
      { subst best'. destruct best as [[prev|]|]; [|done|].
        - destruct (Z.leb_spec secs prev).
          + exists prev. split_and!; [done|lia|by right|]. intros b [= <-]. simpl. lia.
          + exists secs. split_and!; [done|lia|by left|]. intros b [= <-]. simpl. lia.
        - exists secs. split_and!; [done|lia|by left|done]. }
      specialize (IH best' ltac:(by rewrite En)). rewrite En in *. clear best' En.
      destruct (tolerates_go (Some (Some n)) l taint) as [w|]; simpl in *; [|by destruct IH].
      destruct IH as (Hor' & Hb' & Hm). pose proof (Hb' _ eq_refl) as Hwn. split_and!.
      * destruct Hor' as [[= <-]|Hw]; [|right; apply matching_cons; by right].
        destruct Hor as [->|Hor]; [right; apply matching_cons; by left|by left].
      * intros b Eb. eapply longer_trans; [exact Hwn|by apply Hlong].
      * intros w' [E'|Hw']%matching_cons; [|by apply Hm]. rewrite E in E'. injection E' as <-.
        eapply longer_trans; [exact Hwn|]. simpl. lia.
    + simpl. split_and!; [right; apply matching_cons; by left|done..].
    + specialize (IH best Hb). destruct (tolerates_go best l taint) as [w|]; simpl in *.
      * destruct IH as (Hor & Hb' & Hm). split_and!.
        -- destruct Hor as [?|?]; [by left|right; apply matching_cons; by right].
        -- done.
        -- intros w' [E'|Hw']%matching_cons; [congruence|by apply Hm].
      * destruct IH as [-> Hm]. split; [done|]. intros w [E'|Hw']%matching_cons; [congruence|by apply (Hm w)].
Qed.

Lemma longest_unique l taint r r' :
  longest None l taint r → longest None l taint r' → r = r'.
Proof.
  destruct r as [w|], r' as [w'|]; simpl; intros H1 H2; [| | |done].
  - destruct H1 as ([?|M1] & _ & L1), H2 as ([?|M2] & _ & L2); try done.
    f_equal. apply longer_antisym; auto.
  - destruct H1 as ([?|M1] & _), H2 as [_ N]; [done|]. by destruct (N w).
  - destruct H2 as ([?|M2] & _), H1 as [_ N]; [done|]. by destruct (N w').
Qed.

(** How long a pod tolerates a taint is the longest of its matching
    tolerations, for ever being longest; it is not tolerated exactly when none
    matches; the order of the pod's tolerations does not matter. *)
Theorem longest_toleration_wins (pod taint : Value) (l : list Value) :
  as_array pod.["spec"].["tolerations"] = Some l →
  longest None l taint (pod_tolerates pod taint)
  ∧ ∀ pod' l', as_array pod'.["spec"].["tolerations"] = Some l' → l' ≡ₚ l →
      pod_tolerates pod' taint = pod_tolerates pod taint.
Proof.
  intros E. unfold pod_tolerates. rewrite E. split; [by apply tolerates_go_longest|].
  intros pod' l' E' Hp. rewrite E'. apply (longest_unique l taint); [|by apply tolerates_go_longest].
  pose proof (tolerates_go_longest None l' taint ltac:(done)) as H.
  assert (∀ w, matching l' taint w ↔ matching l taint w) as Hm.
  { intros w. unfold matching. by setoid_rewrite Hp. }
  destruct (tolerates_go None l' taint) as [w|]; simpl in *.
  - destruct H as (H1 & H2 & H3). setoid_rewrite Hm in H1. split_and!; [done|done|].
    intros w' Hw'. apply H3. by apply Hm.
  - destruct H as [_ H]. split; [done|]. intros w Hw. apply (H w). by apply Hm.
Qed.

(** ** What a [NoExecute] taint does to a pod *)

Section Verdicts.
  Context (pod : Value) (age_secs : Value → Z).

Definition no_execute (t : Value) : Prop := t.["effect"] = Str "NoExecute".

(** The pod has no (more) leave to stay. *)
Definition overdue (t : Value) : Prop :=
  no_execute t ∧ (pod_tolerates pod t = None
                  ∨ ∃ secs, pod_tolerates pod t = Some (Some secs) ∧ secs - age_secs t ≤ 0).

(** The pod's leave to stay ends in [n] seconds. *)
Definition due_in (t : Value) (n : Z) : Prop :=
  no_execute t ∧ ∃ secs, pod_tolerates pod t = Some (Some secs) ∧ n = secs - age_secs t ∧ 0 < n.

Definition due_fits (taints : list Value) : Prop :=
  ∀ t secs, t ∈ taints → pod_tolerates pod t = Some (Some secs) → i64_min ≤ secs - age_secs t ≤ i64_max.

Definition key_of (t : Value) : string := str_or "" t.["key"].

Definition verdict_ok (soonest : option (Z * string)) (taints : list Value) (v : Verdict) : Prop :=
  match v with
  | Evict k => ∃ t, t ∈ taints ∧ overdue t ∧ k = key_of t
  | EvictIn n k =>
      (∀ t, t ∈ taints → ¬ overdue t)
      ∧ (soonest = Some (n, k) ∨ ∃ t, t ∈ taints ∧ due_in t n ∧ k = key_of t)
      ∧ (∀ p, soonest = Some p → n ≤ p.1)
      ∧ ∀ t m, t ∈ taints → due_in t m → n ≤ m
  | Stay => soonest = None ∧ ∀ t, t ∈ taints → no_execute t → pod_tolerates pod t = Some None
  end.

Lemma due_fits_cons t l : due_fits (t :: l) → due_fits l.
Proof. intros H x secs Hx. apply H. by right. Qed.

Lemma wrap_i64_small z : i64_min ≤ z ≤ i64_max → wrap_i64 z = z.
Proof. unfold i64_min, i64_max, wrap_i64. intros. rewrite Z.mod_small; lia. Qed.

(** A taint that neither evicts nor sets a date leaves the verdict to the rest. *)
Lemma verdict_ok_skip soonest t l v :
  ¬ overdue t → (∀ m, ¬ due_in t m) → (no_execute t → pod_tolerates pod t = Some None) →
  verdict_ok soonest l v → verdict_ok soonest (t :: l) v.
Proof.
  intros Ho Hd Hn. destruct v as [|k|n k]; simpl.
  - intros [-> H]. split; [done|]. intros x [->|Hx]%elem_of_cons; auto.
  - intros (x & Hx & H). exists x. split; [by right|done].
  - intros (H1 & H2 & H3 & H4). split_and!; [| |done|].
    + intros x [->|Hx]%elem_of_cons; auto.
    + destruct H2 as [H2|(x & Hx & H)]; [by left|right; exists x; split; [by right|done]].
    + intros x m [->|Hx]%elem_of_cons Hm; [by destruct (Hd m)|eauto].
Qed.

(** A taint due in [m] seconds: the verdict is that of the rest, from the
    sooner of the two. *)
Lemma verdict_ok_due soonest soonest' t l m v :
  due_in t m → ¬ overdue t →
  soonest' = match soonest with
             | Some (prev, k) => if prev <=? m then soonest else Some (m, key_of t)
             | None => Some (m, key_of t) end →
  verdict_ok soonest' l v → verdict_ok soonest (t :: l) v.
Proof.
  intros Hd Ho Es.
  assert (∃ n k, soonest' = Some (n, k) ∧ n ≤ m ∧ (∀ p, soonest = Some p → n ≤ p.1)
                 ∧ (soonest = Some (n, k) ∨ n = m ∧ k = key_of t)) as (n0 & k0 & -> & Hm & Hp & Hor).
  { subst soonest'. destruct soonest as [[prev k]|].
    - destruct (Z.leb_spec prev m).
      + exists prev, k. split_and!; [done|done| |by left]. intros p [= <-]. done.
      + exists m, (key_of t). split_and!; [done|lia| |by right]. intros p [= <-]. simpl. lia.
    - exists m, (key_of t). split_and!; [done|lia|done|by right]. }
  assert (∀ m', due_in t m' → m' = m) as Hun.
  { intros m' (_ & s' & E' & -> & _). destruct Hd as (_ & s & E & -> & _). rewrite E in E'. by injection E' as ->. }
  destruct v as [|k|n k]; simpl.
  - by intros [? _].
  - intros (x & Hx & H). exists x. split; [by right|done].
  - intros (H1 & H2 & H3 & H4). pose proof (H3 _ eq_refl) as Hn; simpl in Hn. split_and!.
    + intros x [->|Hx]%elem_of_cons; auto.
    + destruct H2 as [[= <- <-]|(x & Hx & H)]; [|right; exists x; split; [by right|done]].
      destruct Hor as [?|[-> ->]]; [by left|right]. exists t. split; [by left|done].
    + intros p Ep. specialize (Hp p Ep). lia.
    + intros x m' [->|Hx]%elem_of_cons Hm'; [apply Hun in Hm'; lia|eauto].
Qed.

Lemma verdict_go_ok soonest taints :
  due_fits taints → verdict_ok soonest taints (verdict_go pod age_secs soonest taints).
Proof.
  revert soonest. induction taints as [|t l IH]; intros soonest Hf; simpl.
  - destruct soonest as [[n k]|]; simpl.
    + split_and!; [|by left| |].
      * intros t Ht. by apply not_elem_of_nil in Ht.
      * intros p [= <-]. done.
      * intros t m Ht. by apply not_elem_of_nil in Ht.
    + split; [done|]. intros t Ht. by apply not_elem_of_nil in Ht.
  - pose proof (due_fits_cons _ _ Hf) as Hf'.
    destruct (str_is t.["effect"] "NoExecute") eqn:Ene; simpl.
    2:{ assert (¬ no_execute t) as Hn.
        { unfold no_execute. intros E. apply str_is_spec in E. congruence. }
        apply verdict_ok_skip; [by intros [? _]|by intros m [? _]|done|by apply IH]. }
    apply str_is_spec in Ene. destruct (pod_tolerates pod t) as [[secs|]|] eqn:Et.
    + rewrite wrap_i64_small by (apply Hf; [by left|done]).
      destruct (Z.leb_spec (secs - age_secs t) 0).
      * exists t. split_and!; [by left|split; [done|right; by exists secs]|done].
      * eapply (verdict_ok_due _ _ t l (secs - age_secs t)); [split; [done|by exists secs]| |reflexivity|by apply IH].
        intros [_ [?|(s & E & Hs)]]; [congruence|]. rewrite Et in E. injection E as <-. lia.
    + apply verdict_ok_skip; [| |done|by apply IH].
      * intros [_ [?|(s & E & _)]]; congruence.
      * intros m (_ & s & E & _). congruence.
    + exists t. split_and!; [by left|split; [done|by left]|done].
Qed.

End Verdicts.

(** The verdict on a pod is the one its [NoExecute] taints call for: evict
    now exactly when some taint is not tolerated or its tolerated time has
    passed, evict at the soonest of the remaining times otherwise, stay when
    every [NoExecute] taint is tolerated for ever.  Taints of other effects
    never evict. *)
Theorem verdict_correct (pod : Value) (taints : list Value) (age_secs : Value → Z) :
  due_fits pod age_secs taints →
  match verdict_for pod taints age_secs with
  | Evict k => ∃ t, t ∈ taints ∧ overdue pod age_secs t ∧ k = key_of t
  | EvictIn n k =>
      (∀ t, t ∈ taints → ¬ overdue pod age_secs t)
      ∧ (∃ t, t ∈ taints ∧ due_in pod age_secs t n ∧ k = key_of t)
      ∧ (∀ t m, t ∈ taints → due_in pod age_secs t m → n ≤ m)
  | Stay => ∀ t, t ∈ taints → no_execute t → pod_tolerates pod t = Some None
  end.
Proof.
  intros Hf. pose proof (verdict_go_ok pod age_secs None taints Hf) as H. unfold verdict_for.
  destruct (verdict_go pod age_secs None taints) as [|k|n k]; simpl in H; [by destruct H|done|].
  destruct H as (H1 & [?|H2] & _ & H4); [done|]. done.
Qed.

(** ** Putting a taint on a node and taking it off *)

Definition taints_of (node : Value) : list Value := items node.["spec"].["taints"].

(** [v[k] = x] does not panic. *)
Definition indexable (v : Value) : bool := is_object v || is_null v.

Definition node_ok (node : Value) : bool := indexable node && indexable node.["spec"].

Lemma set_index_total v k x : indexable v = true → ∃ w, set_index v k x = Some w ∧ is_object w = true.
Proof. destruct v; try done; intros _; eexists; split; done. Qed.

(** Two nodes agree outside [spec.taints]. *)
Definition same_but_taints (a b : Value) : Prop :=
  (∀ f, f ≠ "spec" → a.[f] = b.[f]) ∧ (∀ f, f ≠ "taints" → a.["spec"].[f] = b.["spec"].[f]).

#[global] Instance same_but_taints_equiv : Equivalence same_but_taints.
Proof.
  split.
  - by intros a.
  - intros a b [H1 H2]. split; intros; symmetry; [by apply H1|by apply H2].
  - intros a b c [H1 H2] [H3 H4]. split; intros f Hf; [by rewrite H1, H3|by rewrite H2, H4].
Qed.

Lemma set_taints v x :
  node_ok v = true →
  ∃ w, set_index2 v "spec" "taints" x = Some w ∧ w.["spec"].["taints"] = x ∧ node_ok w = true ∧ same_but_taints w v.
Proof.
  intros [H1 H2]%andb_true_iff.
  destruct (set_index_total v.["spec"] "taints" x H2) as (s & Es & Hs).
  destruct (set_index_total v "spec" s H1) as (w & Ew & Hw).
  exists w. unfold set_index2. rewrite Es. split; [done|].
  pose proof (index_set_index _ _ _ _ Ew) as E1. pose proof (index_set_index _ _ _ _ Es) as E2.
  split_and!.
  - by rewrite E1.
  - unfold node_ok, indexable. by rewrite E1, Hs, Hw.
  - split; intros f Hf; [by eapply index_set_index_ne|]. rewrite E1. by eapply index_set_index_ne.
Qed.

Definition new_taint (key effect now : string) : Value :=
  json_obj [("key", Str key); ("effect", Str effect); ("timeAdded", Str now)].

Lemma is_new_taint key effect now key' effect' :
  is_taint key' effect' (new_taint key effect now) = str_eqb key key' && str_eqb effect effect'.
Proof. reflexivity. Qed.

Lemma add_taint_spec node key effect now :
  node_ok node = true →
  let had := existsb (is_taint key effect) (taints_of node) in
  ∃ w, add_taint node key effect now = Some (w, negb had)
       ∧ taints_of w = (if had then taints_of node else taints_of node ++ [new_taint key effect now])%list
       ∧ node_ok w = true ∧ same_but_taints w node.
Proof.
  intros Hok had. unfold add_taint, taints_mut.
  destruct (set_taints node node.["spec"].["taints"] Hok) as (n1 & E1 & Ht & Hok1 & Hsame). rewrite E1. cbn [mbind option_bind].
  subst had. unfold taints_of, items. rewrite Ht.
  destruct (as_array node.["spec"].["taints"]) as [l|] eqn:El; cbn [default from_option id].
  - destruct (existsb (is_taint key effect) l) eqn:Ex.
    + exists n1. split_and!; [done| |done|done]. by rewrite Ht, El.
    + destruct (set_taints n1 (Array (l ++ [new_taint key effect now])) Hok1) as (n2 & E2 & Ht2 & Hok2 & Hs2).
      unfold new_taint in E2. rewrite E2. exists n2. cbn. split_and!; [done|by rewrite Ht2|done|by etrans].
  - destruct (set_taints n1 (Array [new_taint key effect now]) Hok1) as (n2 & E2 & Ht2 & Hok2 & Hs2).
    unfold new_taint in E2. rewrite E2. exists n2. cbn. split_and!; [done|by rewrite Ht2|done|by etrans].
Qed.

Lemma filter_length_eq {A} (f : A → bool) l :
  Nat.eqb (List.length l) (List.length (List.filter f l)) = forallb f l.
Proof.
  induction l as [|x l IH]; [done|]. cbn [List.filter forallb List.length]. destruct (f x); [done|].
  cbn [andb]. apply Nat.eqb_neq. pose proof (List.filter_length_le f l). lia.
Qed.

Lemma forallb_negb {A} (f : A → bool) l : forallb (λ x, negb (f x)) l = negb (existsb f l).
Proof. induction l as [|x l IH]; [done|]. simpl. by rewrite negb_orb, IH. Qed.

Lemma remove_taint_spec node key effect :
  node_ok node = true →
  ∃ w, remove_taint node key effect = Some (w, existsb (is_taint key effect) (taints_of node))
       ∧ taints_of w = List.filter (λ t, negb (is_taint key effect t)) (taints_of node)
       ∧ node_ok w = true ∧ same_but_taints w node.
Proof.
  intros Hok. unfold remove_taint, taints_mut.
  destruct (set_taints node node.["spec"].["taints"] Hok) as (n1 & E1 & Ht & Hok1 & Hsame). rewrite E1. cbn [mbind option_bind].
  unfold taints_of, items. rewrite Ht.
  destruct (as_array node.["spec"].["taints"]) as [l|] eqn:El; cbn [default from_option id].
  - destruct (set_taints n1 (Array (List.filter (λ t, negb (is_taint key effect t)) l)) Hok1) as (n2 & E2 & Ht2 & Hok2 & Hs2).
    rewrite E2. exists n2. cbn. rewrite filter_length_eq, forallb_negb, negb_involutive.
    split_and!; [done|by rewrite Ht2|done|by etrans].
  - exists n1. split_and!; [done|by rewrite Ht, El|done|done].
Qed.

Lemma filter_all {A} (f : A → bool) l : forallb f l = true → List.filter f l = l.
Proof. induction l as [|x l IH]; [done|]. simpl. intros [-> H]%andb_true_iff. by rewrite IH. Qed.

(** A taint comes off again: on a node that does not carry it, adding a
    taint reports a change and puts it last, adding it again changes nothing,
    and removing it restores the node's taints, everything else of the node
    untouched throughout. *)
Theorem taint_roundtrip (node : Value) (key effect now later : string) :
  node_ok node = true →
  existsb (is_taint key effect) (taints_of node) = false →
  ∃ n1 n2,
    add_taint node key effect now = Some (n1, true)
    ∧ taints_of n1 = (taints_of node ++ [new_taint key effect now])%list
    ∧ (∃ n1', add_taint n1 key effect later = Some (n1', false) ∧ taints_of n1' = taints_of n1 ∧ same_but_taints n1' n1)
    ∧ remove_taint n1 key effect = Some (n2, true)
    ∧ taints_of n2 = taints_of node ∧ same_but_taints n2 node.
Proof.
  intros Hok Hno. destruct (add_taint_spec node key effect now Hok) as (n1 & E1 & Ht1 & Hok1 & Hs1).
  rewrite Hno in E1, Ht1. simpl in E1.
  destruct (add_taint_spec n1 key effect later Hok1) as (n1' & E1' & Ht1' & _ & Hs1').
  destruct (remove_taint_spec n1 key effect Hok1) as (n2 & E2 & Ht2 & _ & Hs2).
  assert (existsb (is_taint key effect) (taints_of n1) = true) as Hin.
  { rewrite Ht1, existsb_app. cbn [existsb]. by rewrite is_new_taint, !str_eqb_refl, orb_true_r. }
  rewrite Hin in *. exists n1, n2. split_and!; [done|done|by exists n1'|done| |by etrans].
  rewrite Ht2, Ht1, List.filter_app. cbn [List.filter]. rewrite is_new_taint, !str_eqb_refl. simpl.
  rewrite app_nil_r, filter_all; [done|]. by rewrite forallb_negb, Hno.
Qed.

(** *** Witnesses *)

Definition demo_taint : Value := new_taint "node.kubernetes.io/unreachable" "NoExecute" "2026-01-01T00:00:00Z".

Definition demo_toleration (secs : Value) : Value :=
  json_obj [("key", Str "node.kubernetes.io/unreachable"); ("operator", Str "Exists");
            ("effect", Str "NoExecute"); ("tolerationSeconds", secs)].

Definition demo_pod (tolerations : list Value) : Value :=
  json_obj [("spec", json_obj [("tolerations", Array tolerations)])].

Lemma longest_toleration_wins_witness :
  pod_tolerates (demo_pod [demo_toleration (Num (PosInt 30)); demo_toleration (Num (PosInt 300))]) demo_taint
    = Some (Some 300)
  ∧ pod_tolerates (demo_pod [demo_toleration (Num (PosInt 300)); demo_toleration (Num (PosInt 30))]) demo_taint
    = Some (Some 300).
Proof.
  split; [reflexivity|].
  etrans; [|reflexivity].
  apply (proj2 (longest_toleration_wins
    (demo_pod [demo_toleration (Num (PosInt 30)); demo_toleration (Num (PosInt 300))]) demo_taint
    [demo_toleration (Num (PosInt 30)); demo_toleration (Num (PosInt 300))] eq_refl)
    (demo_pod [demo_toleration (Num (PosInt 300)); demo_toleration (Num (PosInt 30))])
    [demo_toleration (Num (PosInt 300)); demo_toleration (Num (PosInt 30))] eq_refl).
  apply perm_swap.
Defined.

Lemma verdict_correct_witness :
  verdict_for (demo_pod [demo_toleration (Num (PosInt 300))]) [demo_taint] (λ _, 40)
    = EvictIn 260 "node.kubernetes.io/unreachable"
  ∧ ∀ m, due_in (demo_pod [demo_toleration (Num (PosInt 300))]) (λ _, 40) demo_taint m → 260 ≤ m.
Proof.
  assert (verdict_for (demo_pod [demo_toleration (Num (PosInt 300))]) [demo_taint] (λ _, 40)
          = EvictIn 260 "node.kubernetes.io/unreachable") as E by reflexivity.
  split; [exact E|]. intros m Hm.
  pose proof (verdict_correct (demo_pod [demo_toleration (Num (PosInt 300))]) [demo_taint] (λ _, 40)) as H.
  rewrite E in H. destruct H as (_ & _ & H).
  - intros t secs Ht. apply list_elem_of_singleton in Ht as ->.
    intros E'. vm_compute in E'. injection E' as <-. by vm_compute.
  - apply (H demo_taint m); [by left|exact Hm].
Defined.

Lemma taint_roundtrip_witness :
  ∃ n1 n2, add_taint (json_obj [("kind", Str "Node")]) "k" "NoExecute" "t" = Some (n1, true)
           ∧ remove_taint n1 "k" "NoExecute" = Some (n2, true) ∧ taints_of n2 = [].
Proof.
  destruct (taint_roundtrip (json_obj [("kind", Str "Node")]) "k" "NoExecute" "t" "u" eq_refl eq_refl)
    as (n1 & n2 & E1 & _ & _ & E2 & Ht & _).
  by exists n1, n2.
Defined.
