(* ===== verification/Node.v ===== *)
(** * The node lifecycle controller ([pkg/controller-manager/src/node.rs])

    One pass over one node: is its heartbeat fresh, which conditions and
    taints should it carry now, and which of its pods must go.  Times are
    nanoseconds; RFC 3339 parsing is chrono's, a parameter. *)

From Stdlib Require Import ZArith Lia String Ascii.
From stdpp Require Import base gmap strings numbers option list.
From S2P Require Import Prelude Text BTree Json Taint.
Open Scope string_scope.
Open Scope kube_scope.
Open Scope Z_scope.

(** ** Definitions *)

Definition NODE_MONITOR_GRACE_PERIOD : Z := 40.
Definition UNREACHABLE : string := "node.kubernetes.io/unreachable".
Definition NOT_READY : string := "node.kubernetes.io/not-ready".
Definition SECOND : Z := 1000000000.

(** [Duration::num_seconds]: whole seconds, towards zero. *)
Definition num_seconds (nanos : Z) : Z := Z.quot nanos SECOND.

(** What a pass asks of the reactor: look again at a time, or after a delay. *)
Inductive Requeue : Type :=
| At (t : Z)
| After (secs : Z).

Definition find_ready (node : Value) : option Value :=
  as_array node.["status"].["conditions"] ≫= List.find (λ c, str_is c.["type"] "Ready").

Definition has_ready (node : Value) : bool :=
  match as_array node.["status"].["conditions"] with
  | Some conds => existsb (λ c, str_is c.["type"] "Ready") conds
  | None => false
  end.

Definition mark_condition (now : string) (c : Value) : option Value :=
  c1 ← (if negb (str_is c.["status"] "Unknown") then
          c0 ← set_index c "status" (Str "Unknown");
          set_index c0 "lastTransitionTime" (Str now)
        else Some c);
  c2 ← set_index c1 "reason" (Str "NodeStatusUnknown");
  set_index c2 "message" (Str "Kubelet stopped posting node status.").

Definition mark_unknown (node : Value) (now : string) : option Value :=
  node1 ← (if negb (is_object node.["status"]) then set_index node "status" (Object []) else Some node);
  node2 ← (if negb (has_ready node1) then
             let conds := items node1.["status"].["conditions"] in
             set_index2 node1 "status" "conditions" (Array (conds ++ [json_obj [("type", Str "Ready")]]))
           else Some node1);
  node3 ← set_index2 node2 "status" "conditions" node2.["status"].["conditions"];
  match as_array node3.["status"].["conditions"] with
  | Some conds =>
      conds' ← mapM (mark_condition now) conds;
      set_index2 node3 "status" "conditions" (Array conds')
  | None => Some node3
  end.

(** [let ready = ...]: the status of the Ready condition. *)
Definition ready_status (node : Value) : string :=
  default "Unknown" (find_ready node ≫= λ c, as_str c.["status"]).

(** One effect of the taint loop. *)
Definition taint_effect (want drop : option string) (clear_all : bool) (stamp : string)
    (acc : Value * bool) (effect : string) : option (Value * bool) :=
  a1 ← match want with
       | Some key => '(n, b) ← add_taint acc.1 key effect stamp; Some (n, acc.2 || b)
       | None => Some acc
       end;
  a2 ← match drop with
       | Some key => '(n, b) ← remove_taint a1.1 key effect; Some (n, a1.2 || b)
       | None => Some a1
       end;
  if clear_all then
    '(n, b) ← remove_taint a2.1 NOT_READY effect;
    '(n', b') ← remove_taint n UNREACHABLE effect;
    Some (n', (a2.2 || b) || b')
  else Some a2.

(** From [let mut updated = node.clone()] to the end of the taint loop: the
    node as it should be and whether it differs. *)
Definition mark_node (node : Value) (is_healthy : bool) (stamp : string) : option (Value * bool) :=
  let ready := ready_status node in
  '(updated, changed, want, drop) ←
    (if negb is_healthy then
       if negb (str_eqb ready "Unknown") || negb (has_ready node) then
         marked ← mark_unknown node stamp;
         Some (marked, true, Some UNREACHABLE, Some NOT_READY)
       else Some (node, false, Some UNREACHABLE, Some NOT_READY)
     else if str_eqb ready "False" then Some (node, false, Some NOT_READY, Some UNREACHABLE)
     else Some (node, false, None, None));
  let clear_all := is_healthy && str_eqb ready "True" in
  acc ← taint_effect want drop clear_all stamp (updated, changed) "NoSchedule";
  taint_effect want drop clear_all stamp acc "NoExecute".

Section Pass.
  (** [DateTime::parse_from_rfc3339]. *)
  Variable parse_time : string → option Z.

(** [is_healthy], and the reactor's wake-up for when that may change. *)
Definition heartbeat (node : Value) (leases : list Value) (now : Z) : bool * list Requeue :=
  let node_name := str_or "" node.["metadata"].["name"] in
  let fresh t := num_seconds (now - t) <? NODE_MONITOR_GRACE_PERIOD in
  let wake t := [At (t + NODE_MONITOR_GRACE_PERIOD * SECOND)] in
  match List.find (λ l, str_is l.["metadata"].["name"] node_name) leases with
  | Some l =>
      match as_str l.["spec"].["renewTime"] ≫= parse_time with
      | Some t => (fresh t, wake t)
      | None => (false, [])
      end
  | None =>
      let seen := find_ready node ≫= λ c, as_str c.["lastHeartbeatTime"] in
      let created := as_str node.["metadata"].["creationTimestamp"] in
      match created ≫= parse_time, seen ≫= parse_time with
      | Some a, Some b => (fresh (Z.max a b), wake (Z.max a b))
      | Some a, None | None, Some a => (fresh a, wake a)
      | None, None => (false, [])
      end
  end.

Definition taint_age (now : Z) (t : Value) : Z :=
  match as_str t.["timeAdded"] ≫= parse_time with
  | Some added => num_seconds (now - added)
  | None => 0
  end.

(** The body of the loop over the pods: what it asks of the reactor and the
    namespace and name it deletes. *)
Definition evict_pod (taints : list Value) (node_name : string) (now : Z) (pod : Value) :
    list Requeue * option (string * string) :=
  if negb (str_is pod.["spec"].["nodeName"] node_name) then ([], None)
  else if negb (is_null pod.["metadata"].["deletionTimestamp"]) then ([], None)
  else
    let phase := str_or "Pending" pod.["status"].["phase"] in
    if str_eqb phase "Succeeded" || str_eqb phase "Failed" then ([], None)
    else
      match verdict_for pod taints (taint_age now) with
      | EvictIn secs _ => ([After (Z.max secs 1)], None)
      | Evict _ =>
          let name := str_or "" pod.["metadata"].["name"] in
          if is_empty_str name then ([], None)
          else ([], Some (str_or "default" pod.["metadata"].["namespace"], name))
      | Stay => ([], None)
      end.

Definition evict_for_taints (node : Value) (node_name : string) (pods : list Value) (now : Z) :
    list Requeue * list (string * string) :=
  let taints := List.filter (λ t, str_is t.["effect"] "NoExecute") (items node.["spec"].["taints"]) in
  match taints with
  | [] => ([], [])
  | _ =>
      let out := evict_pod taints node_name now <$> pods in
      (List.concat (fst <$> out), omap snd out)
  end.

Record Outcome := mkOutcome {
  written : option Value;             (** the [update] sent, if any *)
  requeued : list Requeue;
  deleted : list (string * string)
}.

(** [update_ok]: the API server accepted the update; an error ends the
    pass, the heartbeat's wake-up already asked for.
    The clock is read once for the heartbeat and once for the evictions, and
    formatted once as [stamp].  [None] is a panic. *)
Definition reconcile_node (node : Value) (leases pods : list Value)
    (now now_evict : Z) (stamp : string) (update_ok : bool) : option (result Outcome (list Requeue)) :=
  let node_name := str_or "" node.["metadata"].["name"] in
  if is_empty_str node_name then Some (Ok (mkOutcome None [] []))
  else
    let '(is_healthy, wake) := heartbeat node leases now in
    '(updated, changed) ← mark_node node is_healthy stamp;
    if changed && negb update_ok then Some (Err wake)
    else
      let '(later, gone) := evict_for_taints updated node_name pods now_evict in
      Some (Ok (mkOutcome (if changed then Some updated else None) (wake ++ later) gone)).

End Pass.

(** ** Which lifecycle taints a node carries *)

Definition carries (key effect : string) (l : list Value) : bool := existsb (is_taint key effect) l.

Definition EFFECTS : list string := ["NoSchedule"; "NoExecute"].

(** A taint this controller owns. *)
Definition lifecycle (t : Value) : bool :=
  existsb (λ e, is_taint NOT_READY e t || is_taint UNREACHABLE e t) EFFECTS.

(** The taints somebody else put there. *)
Definition others (l : list Value) : list Value := List.filter (λ t, negb (lifecycle t)) l.

Lemma is_taint_unique k e k' e' t :
  is_taint k e t = true → is_taint k' e' t = str_eqb k k' && str_eqb e e'.
Proof.
  unfold is_taint, str_is. destruct (as_str t.["key"]) as [x|]; [|done].
  destruct (as_str t.["effect"]) as [y|]; [|intros [_ ?]%andb_true_iff; done].
  intros [->%str_eqb_eq ->%str_eqb_eq]%andb_true_iff. done.
Qed.

Lemma carries_app k e l l' : carries k e (l ++ l') = carries k e l || carries k e l'.
Proof. apply existsb_app. Qed.

Lemma carries_filter k e k' e' l :
  carries k' e' (List.filter (λ t, negb (is_taint k e t)) l)
  = carries k' e' l && negb (str_eqb k k' && str_eqb e e').
Proof.
  induction l as [|t l IH]; [done|]. cbn [List.filter]. destruct (is_taint k e t) eqn:E; cbn [negb].
  - rewrite IH. unfold carries at 2. cbn [existsb]. rewrite (is_taint_unique k e k' e' t E).
    fold (carries k' e' l). destruct (str_eqb k k' && str_eqb e e'); [by rewrite !andb_false_r|done].
  - unfold carries in *. cbn [existsb]. rewrite IH.
    destruct (is_taint k' e' t) eqn:E'; [|done]. cbn [orb].
    destruct (str_eqb k k' && str_eqb e e') eqn:Ek; [|done].
    apply andb_true_iff in Ek as [->%str_eqb_eq ->%str_eqb_eq]. congruence.
Qed.

Lemma others_filter k e l :
  k = NOT_READY ∨ k = UNREACHABLE → e ∈ EFFECTS →
  others (List.filter (λ t, negb (is_taint k e t)) l) = others l.
Proof.
  intros Hk He. unfold others. induction l as [|t l IH]; [done|]. cbn [List.filter].
  destruct (is_taint k e t) eqn:E; cbn [negb List.filter]; rewrite IH; [|done].
  assert (lifecycle t = true) as ->; [|done]. unfold lifecycle. apply existsb_exists. exists e.
  split; [by apply list_elem_of_In|]. destruct Hk as [-> | ->]; rewrite E; [done|by rewrite orb_true_r].
Qed.

Lemma others_add k e now l :
  k = NOT_READY ∨ k = UNREACHABLE → e ∈ EFFECTS → others (l ++ [new_taint k e now]) = others l.
Proof.
  intros Hk He. unfold others. rewrite List.filter_app. cbn [List.filter].
  assert (lifecycle (new_taint k e now) = true) as ->; [|by rewrite app_nil_r].
  apply existsb_exists. exists e. split; [by apply list_elem_of_In|].
  destruct Hk as [-> | ->]; rewrite !is_new_taint, !str_eqb_refl; [done|by rewrite orb_true_r].
Qed.

(** The taints after one step and whether they changed, against those before. *)
Record step_ok (k e : string) (present : bool) (l l' : list Value) (c : bool) : Prop := {
  so_here : carries k e l' = present;
  so_there : ∀ k' e', ¬ (k' = k ∧ e' = e) → carries k' e' l' = carries k' e' l;
  so_others : others l' = others l;
  so_changed : c = xorb present (carries k e l);
  so_kept : c = false → l' = l
}.

Lemma str_pair_neq k e k' e' : ¬ (k' = k ∧ e' = e) → str_eqb k k' && str_eqb e e' = false.
Proof.
  intros H. destruct (str_eqb k k' && str_eqb e e') eqn:E; [|done].
  apply andb_true_iff in E as [->%str_eqb_eq ->%str_eqb_eq]. by destruct H.
Qed.

Definition owned (k : string) : Prop := k = NOT_READY ∨ k = UNREACHABLE.

Lemma add_step node k e now :
  node_ok node = true → owned k → e ∈ EFFECTS →
  ∃ w c, add_taint node k e now = Some (w, c) ∧ step_ok k e true (taints_of node) (taints_of w) c
         ∧ node_ok w = true ∧ same_but_taints w node.
Proof.
  intros Hok Hk He. destruct (add_taint_spec node k e now Hok) as (w & E & Ht & Hok' & Hs).
  eexists w, _. split; [exact E|]. split; [|done]. rewrite Ht.
  fold (carries k e (taints_of node)). destruct (carries k e (taints_of node)) eqn:Ec; cbn [negb].
  - split; [done|done|done|by rewrite Ec|done].
  - split; [| |by apply others_add|by rewrite Ec|done].
    + rewrite carries_app. unfold carries at 2. cbn [existsb]. by rewrite is_new_taint, !str_eqb_refl, orb_true_r.
    + intros k' e' Hne. rewrite carries_app. unfold carries at 2. cbn [existsb].
      by rewrite is_new_taint, str_pair_neq, orb_false_r.
Qed.

Lemma remove_step node k e :
  node_ok node = true → owned k → e ∈ EFFECTS →
  ∃ w c, remove_taint node k e = Some (w, c) ∧ step_ok k e false (taints_of node) (taints_of w) c
         ∧ node_ok w = true ∧ same_but_taints w node.
Proof.
  intros Hok Hk He. destruct (remove_taint_spec node k e Hok) as (w & E & Ht & Hok' & Hs).
  eexists w, _. split; [exact E|]. split; [|done]. rewrite Ht. fold (carries k e (taints_of node)). split.
  - by rewrite carries_filter, !str_eqb_refl, andb_false_r.
  - intros k' e' Hne. by rewrite carries_filter, str_pair_neq, andb_true_r.
  - by apply others_filter.
  - by destruct (carries k e (taints_of node)).
  - intros Hc. apply filter_all. rewrite forallb_negb. unfold carries in Hc. by rewrite Hc.
Qed.

(** ** The taint loop as a list of steps *)

Record op := mkOp { op_key : string; op_effect : string; op_present : bool }.

Definition run_op (now : string) (o : op) (node : Value) : option (Value * bool) :=
  if op_present o then add_taint node (op_key o) (op_effect o) now else remove_taint node (op_key o) (op_effect o).

Fixpoint run_ops (now : string) (ops : list op) (acc : Value * bool) : option (Value * bool) :=
  match ops with
  | [] => Some acc
  | o :: ops' => '(n, b) ← run_op now o acc.1; run_ops now ops' (n, acc.2 || b)
  end.

Definition op_ok (o : op) : Prop := owned (op_key o) ∧ op_effect o ∈ EFFECTS.
Definition op_at (o : op) : string * string := (op_key o, op_effect o).
Definition holds (l : list Value) (o : op) : bool := Bool.eqb (carries (op_key o) (op_effect o) l) (op_present o).

Lemma run_op_step now o node :
  node_ok node = true → op_ok o →
  ∃ w c, run_op now o node = Some (w, c)
         ∧ step_ok (op_key o) (op_effect o) (op_present o) (taints_of node) (taints_of w) c
         ∧ node_ok w = true ∧ same_but_taints w node.
Proof.
  intros Hok [Hk He]. unfold run_op. destruct (op_present o); [by apply add_step|by apply remove_step].
Qed.

(** After steps on distinct taints every step's taint is as it should be, no
    other taint is touched, and a change is reported exactly when some step
    had something to do. *)
Lemma run_ops_spec now ops node c0 :
  node_ok node = true → Forall op_ok ops → NoDup (op_at <$> ops) →
  ∃ w c, run_ops now ops (node, c0) = Some (w, c0 || c)
         ∧ (∀ o, o ∈ ops → holds (taints_of w) o = true)
         ∧ (∀ k e, (k, e) ∉ op_at <$> ops → carries k e (taints_of w) = carries k e (taints_of node))
         ∧ others (taints_of w) = others (taints_of node)
         ∧ c = negb (forallb (holds (taints_of node)) ops)
         ∧ (c = false → taints_of w = taints_of node)
         ∧ node_ok w = true ∧ same_but_taints w node.
Proof.
  revert node c0. induction ops as [|o ops IH]; intros node c0 Hok Hops Hnd.
  - exists node, false. rewrite orb_false_r. split_and!; try done. intros o Ho. by apply not_elem_of_nil in Ho.
  - apply Forall_cons in Hops as [Ho Hops]. rewrite fmap_cons in Hnd. apply NoDup_cons in Hnd as [Hnew Hnd].
    destruct (run_op_step now o node Hok Ho) as (n1 & c1 & E1 & S1 & Hok1 & Hs1).
    destruct (IH n1 (c0 || c1) Hok1 Hops Hnd) as (w & c & E & H1 & H2 & H3 & H4 & H5 & Hok' & Hs).
    assert (forallb (holds (taints_of n1)) ops = forallb (holds (taints_of node)) ops) as Hsame.
    { clear -S1 Hnew. induction ops as [|p ops IH]; [done|]. rewrite fmap_cons in Hnew.
      apply not_elem_of_cons in Hnew as [Hp Hnew]. cbn [forallb]. rewrite IH by done. f_equal. unfold holds.
      rewrite (so_there _ _ _ _ _ _ S1); [done|]. intros [? ?]. apply Hp. unfold op_at. congruence. }
    exists w, (c1 || c). split_and!.
    + cbn [run_ops fst snd]. rewrite E1. cbn. by rewrite E, orb_assoc.
    + intros p [->|Hp]%elem_of_cons; [|by apply H1]. unfold holds.
      rewrite H2 by done. rewrite (so_here _ _ _ _ _ _ S1). apply eqb_reflx.
    + intros k e Hne. rewrite fmap_cons in Hne. apply not_elem_of_cons in Hne as [Hne1 Hne2].
      rewrite H2 by done. apply (so_there _ _ _ _ _ _ S1). intros [-> ->]. by apply Hne1.
    + by rewrite H3, (so_others _ _ _ _ _ _ S1).
    + rewrite H4, Hsame, (so_changed _ _ _ _ _ _ S1). cbn [forallb]. unfold holds at 2.
      destruct (op_present o), (carries (op_key o) (op_effect o) (taints_of node)); done.
    + intros [Hc1 Hc]%orb_false_iff. by rewrite H5, (so_kept _ _ _ _ _ _ S1).
    + done.
    + by etrans.
Qed.

Definition swap_ops (want drop : string) : list op :=
  flat_map (λ e, [mkOp want e true; mkOp drop e false]) EFFECTS.
Definition clear_ops : list op :=
  flat_map (λ e, [mkOp NOT_READY e false; mkOp UNREACHABLE e false]) EFFECTS.

Definition taint_loop (want drop : option string) (clear_all : bool) (stamp : string) (acc : Value * bool) :
    option (Value * bool) :=
  acc ← taint_effect want drop clear_all stamp acc "NoSchedule";
  taint_effect want drop clear_all stamp acc "NoExecute".

Lemma swap_loop want drop stamp acc :
  taint_loop (Some want) (Some drop) false stamp acc = run_ops stamp (swap_ops want drop) acc.
Proof.
  unfold taint_loop, taint_effect. cbn. unfold run_op. cbn.
  destruct (add_taint acc.1 want "NoSchedule" stamp) as [[n1 b1]|]; cbn; [|done].
  destruct (remove_taint n1 drop "NoSchedule") as [[n2 b2]|]; cbn; [|done].
  destruct (add_taint n2 want "NoExecute" stamp) as [[n3 b3]|]; cbn; [|done].
  by destruct (remove_taint n3 drop "NoExecute") as [[n4 b4]|].
Qed.

Lemma clear_loop stamp acc : taint_loop None None true stamp acc = run_ops stamp clear_ops acc.
Proof.
  unfold taint_loop, taint_effect. cbn. unfold run_op. cbn.
  destruct (remove_taint acc.1 NOT_READY "NoSchedule") as [[n1 b1]|]; cbn; [|done].
  destruct (remove_taint n1 UNREACHABLE "NoSchedule") as [[n2 b2]|]; cbn; [|done].
  destruct (remove_taint n2 NOT_READY "NoExecute") as [[n3 b3]|]; cbn; [|done].
  by destruct (remove_taint n3 UNREACHABLE "NoExecute") as [[n4 b4]|].
Qed.

Lemma swap_ops_ok want drop :
  owned want → owned drop → want ≠ drop → Forall op_ok (swap_ops want drop) ∧ NoDup (op_at <$> swap_ops want drop).
Proof.
  intros Hw Hd Hne. split.
  - repeat apply Forall_cons_2; try (by split; [done|apply elem_of_cons; by left + (right; apply elem_of_cons; by left)]).
    done.
  - unfold op_at. cbn. rewrite !NoDup_cons, !not_elem_of_cons. split_and!; try (by intros [=]);
      try apply not_elem_of_nil; try apply NoDup_nil_2.
Qed.

Lemma clear_ops_ok : Forall op_ok clear_ops ∧ NoDup (op_at <$> clear_ops).
Proof.
  split; [|by apply (bool_decide_unpack _); vm_compute].
  repeat apply Forall_cons_2;
    try (split; [unfold owned; auto|apply elem_of_cons; (by left) + (right; apply elem_of_cons; by left)]). done.
Qed.

(** ** Marking a node Unknown *)

Definition markable (node : Value) : bool := forallb indexable (items node.["status"].["conditions"]).

(** [c'] is [c] marked: Unknown, with its type and the kubelet's heartbeat. *)
Definition marked (c c' : Value) : Prop :=
  c'.["status"] = Str "Unknown" ∧ c'.["type"] = c.["type"] ∧ c'.["lastHeartbeatTime"] = c.["lastHeartbeatTime"].

Lemma set_index_chain v k x :
  indexable v = true →
  ∃ w, set_index v k x = Some w ∧ indexable w = true ∧ w.[k] = x ∧ ∀ f, f ≠ k → w.[f] = v.[f].
Proof.
  intros H. destruct (set_index_total v k x H) as (w & E & Hw). exists w. split_and!; [done| | |].
  - unfold indexable. by rewrite Hw.
  - by eapply index_set_index.
  - intros f Hf. by eapply index_set_index_ne.
Qed.

Lemma mark_condition_spec now c :
  indexable c = true → ∃ c', mark_condition now c = Some c' ∧ marked c c'.
Proof.
  intros Hc. unfold mark_condition.
  assert (∃ c1, (if negb (str_is c.["status"] "Unknown") then
            c0 ← set_index c "status" (Str "Unknown"); set_index c0 "lastTransitionTime" (Str now)
          else Some c) = Some c1 ∧ indexable c1 = true ∧ marked c c1) as (c1 & -> & Hi & Hs & Ht & Hh).
  { destruct (str_is c.["status"] "Unknown") eqn:E; cbn [negb].
    - exists c. apply str_is_spec in E. done.
    - destruct (set_index_chain c "status" (Str "Unknown") Hc) as (c0 & -> & H0 & E0 & F0). cbn [mbind option_bind].
      destruct (set_index_chain c0 "lastTransitionTime" (Str now) H0) as (c1 & -> & H1 & E1 & F1).
      exists c1. split_and!; [done|done|]. split_and!; rewrite F1 by done; [done|by rewrite F0..]. }
  cbn [mbind option_bind].
  destruct (set_index_chain c1 "reason" (Str "NodeStatusUnknown") Hi) as (c2 & -> & H2 & _ & F2).
  cbn [mbind option_bind].
  destruct (set_index_chain c2 "message" (Str "Kubelet stopped posting node status.") H2) as (c3 & -> & _ & _ & F3).
  exists c3. split; [done|]. split_and!; rewrite F3, F2 by done; done.
Qed.

Lemma mark_conditions_spec now l :
  forallb indexable l = true → ∃ l', mapM (mark_condition now) l = Some l' ∧ Forall2 marked l l'.
Proof.
  induction l as [|c l IH]; [by exists []|]. intros [Hc Hl]%andb_true_iff.
  destruct (mark_condition_spec now c Hc) as (c' & E & Hm), (IH Hl) as (l' & El & Hl').
  exists (c' :: l'). cbn. rewrite E. cbn. rewrite El. split; [done|by constructor].
Qed.

Definition is_ready (c : Value) : bool := str_is c.["type"] "Ready".

Lemma marked_find l l' :
  Forall2 marked l l' →
  match List.find is_ready l with
  | Some c => ∃ c', List.find is_ready l' = Some c' ∧ marked c c'
  | None => List.find is_ready l' = None
  end.
Proof.
  induction 1 as [|c c' l l' Hm Hl IH]; [done|]. cbn [List.find].
  assert (is_ready c' = is_ready c) as ->. { destruct Hm as (_ & Ht & _). unfold is_ready. by rewrite Ht. }
  destruct (is_ready c); [by exists c'|done].
Qed.

Lemma has_ready_find node : has_ready node = match find_ready node with Some _ => true | None => false end.
Proof.
  unfold has_ready, find_ready. destruct (as_array node.["status"].["conditions"]) as [l|]; [|done]. cbn.
  induction l as [|c l IH]; [done|]. cbn. by destruct (str_is c.["type"] "Ready").
Qed.

Lemma find_snoc l : List.find is_ready l = None →
  List.find is_ready (l ++ [json_obj [("type", Str "Ready")]]) = Some (json_obj [("type", Str "Ready")]).
Proof. induction l as [|c l IH]; [done|]. cbn [List.find app]. by destruct (is_ready c). Qed.

(** The kubelet's last heartbeat. *)
Definition last_heartbeat (node : Value) : option string := find_ready node ≫= λ c, as_str c.["lastHeartbeatTime"].

Lemma set_status v x :
  indexable v = true → indexable v.["status"] = true →
  ∃ w, set_index2 v "status" "conditions" x = Some w ∧ indexable w = true ∧ indexable w.["status"] = true
       ∧ w.["status"].["conditions"] = x ∧ ∀ f, f ≠ "status" → w.[f] = v.[f].
Proof.
  intros Hv Hs. destruct (set_index_chain v.["status"] "conditions" x Hs) as (s & Es & His & E & _).
  destruct (set_index_chain v "status" s Hv) as (w & Ew & Hw & E' & F).
  exists w. unfold set_index2. rewrite Es. split_and!; [done|done|by rewrite E'|by rewrite E'|done].
Qed.

Lemma mark_unknown_spec node now :
  indexable node = true → markable node = true →
  ∃ w, mark_unknown node now = Some w ∧ indexable w = true ∧ (∀ f, f ≠ "status" → w.[f] = node.[f])
       ∧ has_ready w = true ∧ ready_status w = "Unknown" ∧ last_heartbeat w = last_heartbeat node
       ∧ (∀ c, c ∈ items w.["status"].["conditions"] → c.["status"] = Str "Unknown").
Proof.
  intros Hi Hm. unfold mark_unknown.
  assert (∃ n1, (if negb (is_object node.["status"]) then set_index node "status" (Object []) else Some node) = Some n1
    ∧ indexable n1 = true ∧ indexable n1.["status"] = true ∧ (∀ f, f ≠ "status" → n1.[f] = node.[f])
    ∧ as_array n1.["status"].["conditions"] = as_array node.["status"].["conditions"])
    as (n1 & -> & Hi1 & Hs1 & F1 & A1).
  { destruct (is_object node.["status"]) eqn:E; cbn [negb].
    - exists node. unfold indexable at 2. by rewrite E.
    - destruct (set_index_chain node "status" (Object []) Hi) as (n1 & -> & H1 & E1 & F1).
      exists n1. rewrite E1. split_and!; try done. by destruct (node.["status"]). }
  cbn [mbind option_bind].
  assert (find_ready n1 = find_ready node) as R1. { unfold find_ready. by rewrite A1. }
  assert (items n1.["status"].["conditions"] = items node.["status"].["conditions"]) as I1. { unfold items. by rewrite A1. }
  assert (∃ n2 conds, (if negb (has_ready n1) then
      set_index2 n1 "status" "conditions" (Array (items n1.["status"].["conditions"] ++ [json_obj [("type", Str "Ready")]]))
      else Some n1) = Some n2 ∧ indexable n2 = true ∧ indexable n2.["status"] = true
    ∧ (∀ f, f ≠ "status" → n2.[f] = node.[f]) ∧ n2.["status"].["conditions"] = Array conds
    ∧ forallb indexable conds = true
    ∧ ∃ c, List.find is_ready conds = Some c ∧ as_str c.["lastHeartbeatTime"] = last_heartbeat node)
    as (n2 & conds & -> & Hi2 & Hs2 & F2 & A2 & M2 & c & Rc & Hc).
  { rewrite has_ready_find, R1. unfold last_heartbeat. destruct (find_ready node) as [c|] eqn:Er; cbn [negb].
    - unfold find_ready in Er. destruct (as_array node.["status"].["conditions"]) as [l|] eqn:El; [|done].
      exists n1, l. split_and!; try done.
      + destruct (n1.["status"].["conditions"]); try done. cbn in A1. by injection A1 as ->.
      + unfold markable, items in Hm. by rewrite El in Hm.
      + by exists c.
    - destruct (set_status n1 (Array (items n1.["status"].["conditions"] ++ [json_obj [("type", Str "Ready")]])) Hi1 Hs1)
        as (n2 & -> & H2 & H3 & E2 & F2).
      eexists n2, _. split_and!; [done|done|done| |exact E2| |].
      + intros f Hf. by rewrite F2, F1.
      + rewrite I1, forallb_app. unfold markable in Hm. by rewrite Hm.
      + exists (json_obj [("type", Str "Ready")]). split; [|done]. apply find_snoc. rewrite I1. unfold items.
        unfold find_ready in Er. by destruct (as_array node.["status"].["conditions"]). }
  cbn [mbind option_bind].
  destruct (set_status n2 (n2.["status"].["conditions"]) Hi2 Hs2) as (n3 & -> & Hi3 & Hs3 & A3 & F3).
  cbn [mbind option_bind]. rewrite A3, A2. cbn [as_array].
  destruct (mark_conditions_spec now conds M2) as (conds' & -> & HF). cbn [mbind option_bind].
  destruct (set_status n3 (Array conds') Hi3 Hs3) as (w & -> & Hiw & Hsw & Aw & Fw).
  pose proof (marked_find _ _ HF) as HR. rewrite Rc in HR. destruct HR as (c' & Rc' & Hst & Hty & Hhb).
  assert (find_ready w = Some c') as Rw. { unfold find_ready. by rewrite Aw. }
  exists w. split_and!; [done|done| | | | |].
  - intros f Hf. by rewrite Fw, F3, F2.
  - by rewrite has_ready_find, Rw.
  - unfold ready_status. rewrite Rw. cbn. by rewrite Hst.
  - unfold last_heartbeat at 1. rewrite Rw. cbn. by rewrite Hhb, Hc.
  - intros x Hx. unfold items in Hx. rewrite Aw in Hx. cbn in Hx.
    apply list_elem_of_lookup in Hx as [i Hx]. eapply Forall2_lookup_r in HF as (y & _ & Hy); [|done]. by destruct Hy.
Qed.

Lemma unknown_markable node :
  (∀ c, c ∈ items node.["status"].["conditions"] → c.["status"] = Str "Unknown") → markable node = true.
Proof.
  intros H. apply forallb_forall. intros c Hc%list_elem_of_In. apply H in Hc. by destruct c.
Qed.

(** ** A pass over a node *)

(** The taints a node should carry, from its heartbeat and Ready condition. *)
Definition ops_for (is_healthy : bool) (ready : string) : list op :=
  if negb is_healthy then swap_ops UNREACHABLE NOT_READY
  else if str_eqb ready "False" then swap_ops NOT_READY UNREACHABLE
  else if str_eqb ready "True" then clear_ops
  else [].

Definition needs_mark (is_healthy : bool) (node : Value) : bool :=
  negb is_healthy && (negb (str_eqb (ready_status node) "Unknown") || negb (has_ready node)).

Lemma mark_node_ops node is_healthy stamp :
  mark_node node is_healthy stamp =
    ('(u, c) ← (if needs_mark is_healthy node then m ← mark_unknown node stamp; Some (m, true) else Some (node, false));
     run_ops stamp (ops_for is_healthy (ready_status node)) (u, c)).
Proof.
  unfold mark_node, needs_mark, ops_for. destruct is_healthy; cbn [negb andb].
  - destruct (str_eqb (ready_status node) "False") eqn:Ef.
    + apply str_eqb_eq in Ef. rewrite Ef. cbn [mbind option_bind]. exact (swap_loop _ _ _ _).
    + cbn [mbind option_bind]. destruct (str_eqb (ready_status node) "True"); [exact (clear_loop _ _)|done].
  - destruct (negb (str_eqb (ready_status node) "Unknown") || negb (has_ready node)).
    + destruct (mark_unknown node stamp); [|done]. exact (swap_loop _ _ _ _).
    + exact (swap_loop _ _ _ _).
Qed.

Lemma ops_for_ok is_healthy ready :
  Forall op_ok (ops_for is_healthy ready) ∧ NoDup (op_at <$> ops_for is_healthy ready).
Proof.
  unfold ops_for, owned. destruct (negb is_healthy); [apply swap_ops_ok; unfold owned; auto|].
  destruct (str_eqb ready "False"); [apply swap_ops_ok; unfold owned; auto|].
  destruct (str_eqb ready "True"); [apply clear_ops_ok|split; [apply Forall_nil_2|apply NoDup_nil_2]].
Qed.

(** The node is as the controller wants it. *)
Definition settled (is_healthy : bool) (node : Value) : bool :=
  negb (needs_mark is_healthy node)
  && forallb (holds (taints_of node)) (ops_for is_healthy (ready_status node)).

Lemma mark_node_spec node is_healthy stamp :
  node_ok node = true → markable node = true →
  ∃ w c, mark_node node is_healthy stamp = Some (w, c)
         ∧ c = negb (settled is_healthy node) ∧ settled is_healthy w = true
         ∧ others (taints_of w) = others (taints_of node)
         ∧ node_ok w = true ∧ markable w = true
         ∧ (∀ f, f ≠ "status" → f ≠ "spec" → w.[f] = node.[f])
         ∧ (is_healthy = true → w.["status"] = node.["status"])
         ∧ last_heartbeat w = last_heartbeat node
         ∧ (c = false → taints_of w = taints_of node ∧ w.["status"] = node.["status"]).
Proof.
  intros Hok Hm. pose proof Hok as Hok'. apply andb_true_iff in Hok' as [Hi Hsp]. rewrite mark_node_ops. unfold settled.
  destruct (ops_for_ok is_healthy (ready_status node)) as [Hops Hnd].
  assert (∃ u, (if needs_mark is_healthy node then m ← mark_unknown node stamp; Some (m, true) else Some (node, false))
               = Some (u, needs_mark is_healthy node)
    ∧ node_ok u = true ∧ markable u = true ∧ taints_of u = taints_of node ∧ needs_mark is_healthy u = false
    ∧ (∀ f, f ≠ "status" → u.[f] = node.[f]) ∧ last_heartbeat u = last_heartbeat node
    ∧ (needs_mark is_healthy node = false → u = node) ∧ (is_healthy = true → u = node)) as (u & -> & Hu).
  { destruct (needs_mark is_healthy node) eqn:En; [|by exists node].
    destruct (mark_unknown_spec node stamp Hi Hm) as (u & -> & Hiu & F & R1 & R2 & R3 & R4).
    exists u. split; [done|]. unfold node_ok, taints_of, needs_mark. rewrite (F "spec"), Hiu, Hsp, R1, R2 by done.
    split_and!; try done; [by apply unknown_markable|by rewrite andb_false_r|]. intros ->. done. }
  destruct Hu as (Huok & Hum & Hut & Hun & Huf & Huh & Hus & Huh').
  cbn [mbind option_bind].
  destruct (run_ops_spec stamp (ops_for is_healthy (ready_status node)) u (needs_mark is_healthy node) Huok Hops Hnd)
    as (w & c & -> & H1 & _ & H3 & H4 & H5 & Hokw & [F1 F2]).
  assert (w.["status"] = u.["status"]) as Est by (by apply F1).
  assert (ready_status w = ready_status u ∧ needs_mark is_healthy w = needs_mark is_healthy u
          ∧ last_heartbeat w = last_heartbeat u) as (Er & En & Eh).
  { unfold needs_mark, last_heartbeat, ready_status, has_ready, find_ready. by rewrite Est. }
  exists w, (needs_mark is_healthy node || c). rewrite Hut in *. split_and!; try done.
  - rewrite H4. by destruct (needs_mark is_healthy node).
  - rewrite En, Hun. cbn [negb andb]. apply forallb_forall. intros o Ho%list_elem_of_In. apply H1.
    assert (ops_for is_healthy (ready_status w) = ops_for is_healthy (ready_status node)) as <-; [|done].
    destruct is_healthy; [|done]. by rewrite Er, Huh'.
  - unfold markable. by rewrite Est.
  - intros f Hf1 Hf2. by rewrite F1, Huf.
  - intros Hh. by rewrite Est, Huh'.
  - by rewrite Eh.
  - intros [Hc1 Hc2]%orb_false_iff. split; [by apply H5|]. by rewrite Est, Hus.
Qed.

(** A pass leaves a node with exactly the lifecycle taints its heartbeat and
    Ready condition call for, on both effects: [unreachable] and not
    [not-ready] when the heartbeat is lost (and then Ready is Unknown),
    [not-ready] and not [unreachable] when the kubelet says not ready, neither
    when it says ready, and unchanged when it has not spoken yet.  Taints of
    others are kept, in order, and the kubelet's heartbeat time too. *)
Theorem node_taints_follow_heartbeat (node : Value) (is_healthy : bool) (stamp : string) :
  node_ok node = true → markable node = true →
  ∃ w c, mark_node node is_healthy stamp = Some (w, c)
    ∧ (∀ e, e ∈ EFFECTS →
         let has k := carries k e (taints_of w) in
         if negb is_healthy then has UNREACHABLE = true ∧ has NOT_READY = false
         else if str_eqb (ready_status node) "False" then has NOT_READY = true ∧ has UNREACHABLE = false
         else if str_eqb (ready_status node) "True" then has NOT_READY = false ∧ has UNREACHABLE = false
         else taints_of w = taints_of node)
    ∧ (is_healthy = false → has_ready w = true ∧ ready_status w = "Unknown")
    ∧ (is_healthy = true → w.["status"] = node.["status"])
    ∧ others (taints_of w) = others (taints_of node)
    ∧ last_heartbeat w = last_heartbeat node
    ∧ (c = false → taints_of w = taints_of node ∧ w.["status"] = node.["status"]).
Proof.
  intros Hok Hm.
  destruct (mark_node_spec node is_healthy stamp Hok Hm) as (w & c & E & Hc & Hs & Ho & _ & _ & _ & Hst & Hh & Hq).
  exists w, c. unfold settled in Hs. apply andb_true_iff in Hs as [Hn Hl]. rewrite forallb_forall in Hl.
  assert (∀ o, o ∈ ops_for is_healthy (ready_status w) →
               carries (op_key o) (op_effect o) (taints_of w) = op_present o) as Hall.
  { intros o Hin. apply eqb_prop. by apply Hl, list_elem_of_In. }
  split_and!; try done.
  - intros e He. cbn zeta.
    assert (is_healthy = true → ready_status w = ready_status node) as Hrw.
    { intros Hhl. unfold ready_status, find_ready. by rewrite Hst. }
    unfold ops_for in Hall. destruct is_healthy; cbn [negb] in *.
    + rewrite Hrw in Hall by done. destruct (str_eqb (ready_status node) "False") eqn:Ef.
      { split; [apply (Hall (mkOp NOT_READY e true))|apply (Hall (mkOp UNREACHABLE e false))];
          apply list_elem_of_In, in_flat_map; exists e; (split; [by apply list_elem_of_In|simpl; auto]). }
      destruct (str_eqb (ready_status node) "True") eqn:Et.
      { split; [apply (Hall (mkOp NOT_READY e false))|apply (Hall (mkOp UNREACHABLE e false))];
          apply list_elem_of_In, in_flat_map; exists e; (split; [by apply list_elem_of_In|simpl; auto]). }
      apply Hq. rewrite Hc. unfold settled, needs_mark, ops_for. cbn [negb andb]. by rewrite Ef, Et.
    + split; [apply (Hall (mkOp UNREACHABLE e true))|apply (Hall (mkOp NOT_READY e false))];
        apply list_elem_of_In, in_flat_map; exists e; (split; [by apply list_elem_of_In|simpl; auto]).
  - intros ->. unfold needs_mark in Hn. cbn [negb andb] in Hn. rewrite negb_orb, !negb_involutive in Hn.
    apply andb_true_iff in Hn as [Hn1 Hn2]. split; [done|by apply str_eqb_eq].
Qed.

Lemma heartbeat_kept parse_time node w leases now :
  w.["metadata"] = node.["metadata"] → last_heartbeat w = last_heartbeat node →
  heartbeat parse_time w leases now = heartbeat parse_time node leases now.
Proof. intros Hm Hh. unfold heartbeat. fold (last_heartbeat w) (last_heartbeat node). by rewrite Hm, Hh. Qed.

(** A pass settles the node: once its update is accepted, every further
    pass that sees the same heartbeat writes nothing, so the controller does
    not wake itself with its own writes. *)
Theorem node_pass_settles (parse_time : string → option Z) (node : Value) (leases pods : list Value)
    (now now_evict : Z) (stamp : string) :
  node_ok node = true → markable node = true → str_or "" node.["metadata"].["name"] ≠ "" →
  ∃ o, reconcile_node parse_time node leases pods now now_evict stamp true = Some (Ok o)
    ∧ ∀ pods' now_evict' stamp' update_ok,
        ∃ o', reconcile_node parse_time (default node (written o)) leases pods' now now_evict' stamp' update_ok
              = Some (Ok o') ∧ written o' = None.
Proof.
  intros Hok Hm Hname. set (h := (heartbeat parse_time node leases now).1).
  assert (∀ w, node_ok w = true → markable w = true → w.["metadata"] = node.["metadata"] →
    last_heartbeat w = last_heartbeat node → settled h w = true →
    ∀ pods' now_evict' stamp' update_ok,
      ∃ o', reconcile_node parse_time w leases pods' now now_evict' stamp' update_ok = Some (Ok o') ∧ written o' = None)
    as Hquiet.
  { intros w Hokw Hmw Hmeta Hh Hs pods' ne' st' ok. unfold reconcile_node. rewrite Hmeta.
    destruct (is_empty_str (str_or "" node.["metadata"].["name"])); [by eexists|].
    rewrite (heartbeat_kept parse_time node w) by done. subst h.
    destruct (heartbeat parse_time node leases now) as [h wake]. cbn [fst] in Hs.
    destruct (mark_node_spec w h st' Hokw Hmw) as (w' & c & -> & -> & _). rewrite Hs. cbn.
    destruct (evict_for_taints _ _ _ _ _). by eexists. }
  destruct (mark_node_spec node h stamp Hok Hm) as (w & c & E & Hc & Hs & _ & Hokw & Hmw & F & _ & Hh & Hq).
  unfold reconcile_node at 1. destruct (is_empty_str _) eqn:En.
  { exfalso. apply Hname. by destruct (str_or _ _). }
  subst h. destruct (heartbeat parse_time node leases now) as [h wake]. cbn [fst] in *.
  rewrite E. cbn [mbind option_bind negb]. rewrite andb_false_r.
  destruct (evict_for_taints _ _ _ _ _) as [later gone]. eexists. split; [reflexivity|].
  cbn [written]. destruct c; cbn [default from_option id].
  - apply Hquiet; try done. by apply F.
  - apply Hquiet; try done. by destruct (settled h node).
Qed.

Lemma verdict_evicts pod taints age :
  due_fits pod age taints →
  match verdict_for pod taints age with Evict _ => True | _ => False end ↔ ∃ t, t ∈ taints ∧ overdue pod age t.
Proof.
  intros Hf. pose proof (verdict_go_ok pod age None taints Hf) as H. unfold verdict_for.
  destruct (verdict_go pod age None taints) as [|k|n k]; simpl in H.
  - split; [done|]. destruct H as [_ H]. intros (t & Ht & Hn & Ho). specialize (H t Ht Hn).
    destruct Ho as [?|(s & ? & _)]; congruence.
  - split; [|done]. intros _. destruct H as (t & Ht & Ho & _). by exists t.
  - split; [done|]. destruct H as [H _]. intros (t & Ht & Ho). by destruct (H t Ht).
Qed.

(** The pod is one the pass looks at. *)
Definition evictable (node_name : string) (pod : Value) : Prop :=
  pod.["spec"].["nodeName"] = Str node_name
  ∧ pod.["metadata"].["deletionTimestamp"] = Null
  ∧ str_or "Pending" pod.["status"].["phase"] ≠ "Succeeded"
  ∧ str_or "Pending" pod.["status"].["phase"] ≠ "Failed"
  ∧ str_or "" pod.["metadata"].["name"] ≠ "".

Lemma evict_pod_iff parse_time taints node_name now pod target :
  due_fits pod (taint_age parse_time now) taints →
  (evict_pod parse_time taints node_name now pod).2 = Some target ↔
    evictable node_name pod ∧ (∃ t, t ∈ taints ∧ overdue pod (taint_age parse_time now) t)
    ∧ target = (str_or "default" pod.["metadata"].["namespace"], str_or "" pod.["metadata"].["name"]).
Proof.
  intros Hf. rewrite <- (verdict_evicts pod taints _ Hf). unfold evict_pod, evictable.
  destruct (str_is pod.["spec"].["nodeName"] node_name) eqn:E1; cbn [negb].
  2:{ split; [done|]. intros ((H & _) & _). apply str_is_spec in H. congruence. }
  apply str_is_spec in E1.
  destruct (is_null pod.["metadata"].["deletionTimestamp"]) eqn:E2; cbn [negb].
  2:{ split; [done|]. intros ((_ & H & _) & _). by rewrite H in E2. }
  assert (pod.["metadata"].["deletionTimestamp"] = Null) as E2' by (by destruct (pod.["metadata"].["deletionTimestamp"])).
  destruct (str_eqb _ "Succeeded" || str_eqb _ "Failed") eqn:E3.
  { split; [done|]. intros ((_ & _ & H1 & H2 & _) & _).
    apply orb_true_iff in E3 as [E3%str_eqb_eq|E3%str_eqb_eq]; by rewrite E3 in *. }
  apply orb_false_iff in E3 as [E3%str_eqb_neq E4%str_eqb_neq].
  destruct (verdict_for pod taints (taint_age parse_time now)) as [|k|n k]; [naive_solver| |naive_solver].
  destruct (is_empty_str (str_or "" pod.["metadata"].["name"])) eqn:E5.
  { apply is_empty_str_spec in E5. naive_solver. }
  assert (str_or "" pod.["metadata"].["name"] ≠ "") by (intros H%is_empty_str_spec; congruence).
  cbn. naive_solver.
Qed.

(** A pass deletes exactly the pods that must go: those on this node, not
    already going, not finished, with a name, that are overdue for some
    [NoExecute] taint of the node as just marked. *)
Theorem evicts_exactly_overdue (parse_time : string → option Z) (node : Value) (node_name : string)
    (pods : list Value) (now : Z) (target : string * string) :
  (∀ pod, pod ∈ pods → due_fits pod (taint_age parse_time now) (taints_of node)) →
  target ∈ (evict_for_taints parse_time node node_name pods now).2 ↔
    ∃ pod t, pod ∈ pods ∧ evictable node_name pod
      ∧ t ∈ taints_of node ∧ overdue pod (taint_age parse_time now) t
      ∧ target = (str_or "default" pod.["metadata"].["namespace"], str_or "" pod.["metadata"].["name"]).
Proof.
  intros Hf. unfold evict_for_taints. fold (taints_of node).
  set (taints := List.filter (λ t, str_is t.["effect"] "NoExecute") (taints_of node)).
  assert (∀ pod t, t ∈ taints ∧ overdue pod (taint_age parse_time now) t
                   ↔ t ∈ taints_of node ∧ overdue pod (taint_age parse_time now) t) as Ht.
  { intros pod t. subst taints. rewrite elem_of_filter_b. split; [naive_solver|].
    intros [H1 [H2 H3]]. split_and!; [done|by apply str_is_spec|done..]. }
  assert (∀ pod, pod ∈ pods → due_fits pod (taint_age parse_time now) taints) as Hf'.
  { intros pod Hp t secs Hin. apply (Hf pod Hp). subst taints. apply elem_of_filter_b in Hin. naive_solver. }
  transitivity (target ∈ omap snd (evict_pod parse_time taints node_name now <$> pods)).
  { destruct taints as [|t0 l] eqn:E; [|done]. split; [by intros ?%not_elem_of_nil|].
    intros (x & Hx & Ex)%list_elem_of_omap. apply list_elem_of_fmap in Hx as (pod & -> & Hp).
    apply evict_pod_iff in Ex as (_ & (t & Hin & _) & _); [by apply not_elem_of_nil in Hin|by apply Hf']. }
  rewrite list_elem_of_omap. split.
  - intros (x & Hx & Ex). apply list_elem_of_fmap in Hx as (pod & -> & Hp).
    apply evict_pod_iff in Ex as (He & (t & Hin) & Et); [|by apply Hf']. apply Ht in Hin. naive_solver.
  - intros (pod & t & Hp & He & Hin & Ho & Et). exists (evict_pod parse_time taints node_name now pod).
    split; [by apply list_elem_of_fmap_2|]. apply evict_pod_iff; [by apply Hf'|].
    split_and!; [done|exists t; by apply Ht|done].
Qed.

(** *** Witnesses *)

Definition demo_cond (status : string) : Value :=
  json_obj [("type", Str "Ready"); ("status", Str status); ("lastHeartbeatTime", Str "t0")].

Definition demo_node (status : string) (taints : list Value) : Value :=
  json_obj [("metadata", json_obj [("name", Str "n1"); ("creationTimestamp", Str "t0")]);
            ("spec", json_obj [("taints", Array taints)]);
            ("status", json_obj [("conditions", Array [demo_cond status])])].

Definition demo_parse (s : string) : option Z := if str_eqb s "t0" then Some 0 else None.

Definition demo_running : Value :=
  json_obj [("metadata", json_obj [("name", Str "web"); ("namespace", Str "shop")]);
            ("spec", json_obj [("nodeName", Str "n1")])].

Lemma node_taints_follow_heartbeat_witness :
  ∃ w c, mark_node (demo_node "True" [new_taint "mine" "NoSchedule" "t0"; new_taint UNREACHABLE "NoExecute" "t0"])
           true "t1" = Some (w, c)
         ∧ others (taints_of w) = [new_taint "mine" "NoSchedule" "t0"].
Proof.
  destruct (node_taints_follow_heartbeat
    (demo_node "True" [new_taint "mine" "NoSchedule" "t0"; new_taint UNREACHABLE "NoExecute" "t0"]) true "t1"
    eq_refl eq_refl) as (w & c & E & _ & _ & _ & Ho & _).
  exists w, c. split; [exact E|]. rewrite Ho. reflexivity.
Defined.

Lemma node_pass_settles_witness :
  ∃ o, reconcile_node demo_parse (demo_node "True" []) [] [demo_running] (100 * SECOND) (100 * SECOND) "t1" true
         = Some (Ok o)
    ∧ ∃ o', reconcile_node demo_parse (default (demo_node "True" []) (written o)) [] [] (100 * SECOND)
              (200 * SECOND) "t2" true = Some (Ok o') ∧ written o' = None.
Proof.
  destruct (node_pass_settles demo_parse (demo_node "True" []) [] [demo_running] (100 * SECOND) (100 * SECOND) "t1"
    eq_refl eq_refl ltac:(discriminate)) as (o & E & H).
  exists o. split; [exact E|]. apply H.
Defined.

Lemma evicts_exactly_overdue_witness :
  ("shop", "web") ∈ (evict_for_taints demo_parse (demo_node "Unknown" [new_taint UNREACHABLE "NoExecute" "t0"]) "n1"
                       [demo_running] (100 * SECOND)).2.
Proof.
  apply (evicts_exactly_overdue demo_parse (demo_node "Unknown" [new_taint UNREACHABLE "NoExecute" "t0"]) "n1"
    [demo_running] (100 * SECOND)).
  - intros pod Hp t secs Ht. apply list_elem_of_singleton in Hp as ->. apply list_elem_of_singleton in Ht as ->.
    intros E. by vm_compute in E.
  - exists demo_running, (new_taint UNREACHABLE "NoExecute" "t0").
    split_and!; [by left|by repeat split|by left| |reflexivity]. split; [reflexivity|left; reflexivity].
Defined.
