(* ===== verification/PodResources.v ===== *)
(** * What a Pod's containers need ([pkg/apimachinery/src/pod_resources.rs])

    [containers_total] walks the containers once, keeping three maps from
    resource name to amount.  It is proved equal, per resource, to the rule
    its header states: the larger of what runs together and of the busiest
    init step.  The source is generic in the amount ([Amount]); its uses are [u64]
    (scheduler) and [i128] (quota), both here a [Z] whose additions wrap by a
    given [wrap], and [f64] (LimitRanger). *)

From Stdlib Require Import ZArith Lia String Ascii.
From stdpp Require Import base gmap strings numbers option list.
From S2P Require Import Prelude Text BTree Json.
Open Scope string_scope.
Open Scope kube_scope.
Open Scope Z_scope.

(** ** Definitions *)

Definition is_sidecar (c : Value) : bool := str_is c.["restartPolicy"] "Always".

(** What the source asks of an amount: [Default], [Add] and [PartialOrd]. *)
Class Amount (T : Type) := { a_zero : T; a_add : T → T → T; a_lt : T → T → bool }.

(** An integer type whose additions wrap. *)
Definition wrapping (wrap : Z → Z) : Amount Z := {| a_zero := 0; a_add x y := wrap (x + y); a_lt := Z.ltb |}.

Section Totals.
  Context {T : Type} (ops : Amount T).
  Variable kind : string.
  (** [amount]: one quantity, by resource name and value. *)
  Variable amount : string → Value → T.

(** The entries of a JSON object come in key order, so collecting them is
    mapping them. *)
Definition each (c : Value) : BTreeMap T :=
  (λ kv, (kv.1, amount kv.1 kv.2)) <$> entries c.["resources"].[kind].

(** [into.entry(k).or_default()], then [*e = *e + *v]. *)
Definition add_into (into from : BTreeMap T) : BTreeMap T :=
  fold_left (λ m kv, map_insert m kv.1 (a_add (default a_zero (map_get m kv.1)) kv.2)) from into.

Definition max_into (into from : BTreeMap T) : BTreeMap T :=
  fold_left (λ m kv,
    let e := default a_zero (map_get m kv.1) in
    map_insert m kv.1 (if a_lt e kv.2 then kv.2 else e)) from into.

Fixpoint init_go (total sidecars busiest_init : BTreeMap T) (inits : list Value) : BTreeMap T * BTreeMap T :=
  match inits with
  | [] => (total, busiest_init)
  | c :: rest =>
      let mine := each c in
      if is_sidecar c then
        let total' := add_into total mine in
        let sidecars' := add_into sidecars mine in
        init_go total' sidecars' (max_into busiest_init sidecars') rest
      else init_go total sidecars (max_into busiest_init (add_into mine sidecars)) rest
  end.

Definition containers_total (pod : Value) : BTreeMap T :=
  let total := fold_left (λ m c, add_into m (each c)) (items pod.["spec"].["containers"]) [] in
  let '(total, busiest_init) := init_go total [] [] (items pod.["spec"].["initContainers"]) in
  max_into total busiest_init.
End Totals.

(** ** The rule *)

Section Rule.
  Variable wrap : Z → Z.
  Variable kind : string.
  Variable amount : string → Value → Z.
  Notation each := (each kind amount).
  Notation add_into := (add_into (wrapping wrap)).
  Notation max_into := (max_into (wrapping wrap)).
  Notation init_go := (init_go (wrapping wrap) kind amount).
  Notation containers_total := (containers_total (wrapping wrap) kind amount).

Definition get0 (m : BTreeMap Z) (k : string) : Z := default 0 (map_get m k).

(** What one container asks of one resource. *)
Definition ask (k : string) (c : Value) : Z := get0 (each c) k.

(** The busiest init step, from [s] already held by the sidecars started. *)
Fixpoint busiest (k : string) (s : Z) (inits : list Value) : Z :=
  match inits with
  | [] => 0
  | c :: rest => Z.max (s + ask k c) (busiest k (if is_sidecar c then s + ask k c else s) rest)
  end.

(** What runs together: the containers and every sidecar. *)
Definition running (k : string) (pod : Value) : Z :=
  sumZ (ask k) (items pod.["spec"].["containers"])
  + sumZ (ask k) (List.filter is_sidecar (items pod.["spec"].["initContainers"])).

(** All a pod mentions, an upper bound of every intermediate amount. *)
Definition mentioned (k : string) (pod : Value) : Z :=
  sumZ (ask k) (items pod.["spec"].["containers"]) + sumZ (ask k) (items pod.["spec"].["initContainers"]).

(** ** The walk computes the rule *)

Lemma get0_insert m k v k' : get0 (map_insert m k v) k' = if str_eqb k' k then v else get0 m k'.
Proof. unfold get0. rewrite map_get_insert. by destruct (str_eqb k' k). Qed.

(** Folding an update over the entries of a map with distinct keys changes
    the amount under each of its keys once. *)
Lemma fold_get0 (f : Z → Z → Z) from into k :
  keys_sorted from = true →
  get0 (fold_left (λ m kv, map_insert m kv.1 (f (default 0 (map_get m kv.1)) kv.2)) from into) k
  = match map_get from k with Some v => f (get0 into k) v | None => get0 into k end.
Proof.
  revert into. induction from as [|[k1 v1] from IH]; intros into; [done|].
  intros [Ha Hs]%keys_sorted_cons. cbn [fold_left fst snd map_get]. rewrite IH by done. rewrite get0_insert.
  destruct (str_eqb k k1) eqn:E; [|done]. apply str_eqb_eq in E. subst.
  by rewrite (map_get_above k1 from Ha).
Qed.

Lemma fold_sorted (f : Z → Z → Z) from into :
  keys_sorted into = true →
  keys_sorted (fold_left (λ m kv, map_insert m kv.1 (f (default 0 (map_get m kv.1)) kv.2)) from into) = true.
Proof.
  revert into. induction from as [|[k1 v1] from IH]; intros into H; [done|]. apply IH. by apply keys_sorted_insert.
Qed.

Context (top : Z).
Hypothesis wrap_id : ∀ z, 0 ≤ z ≤ top → wrap z = z.
Hypothesis amount_nonneg : ∀ k v, 0 ≤ amount k v.

Lemma add_into_get0 into from k :
  keys_sorted from = true → 0 ≤ get0 into k + get0 from k ≤ top →
  get0 (add_into into from) k = get0 into k + get0 from k.
Proof.
  intros Hs Hb. unfold add_into. rewrite (fold_get0 (λ e v, wrap (e + v))) by done.
  unfold get0 in *. destruct (map_get from k) as [v|]; cbn [default from_option id] in *; [by rewrite wrap_id|lia].
Qed.

Lemma max_into_get0 into from k :
  keys_sorted from = true → 0 ≤ get0 into k →
  get0 (max_into into from) k = Z.max (get0 into k) (get0 from k).
Proof.
  intros Hs Hb. unfold max_into. rewrite (fold_get0 (λ e v, if e <? v then v else e)) by done.
  unfold get0 in *. destruct (map_get from k) as [v|]; cbn [default from_option id] in *; [|lia].
  destruct (Z.ltb_spec (default 0 (map_get into k)) v); lia.
Qed.

Lemma add_into_sorted into from : keys_sorted into = true → keys_sorted (add_into into from) = true.
Proof. apply (fold_sorted (λ e v, wrap (e + v))). Qed.

Lemma max_into_sorted into from : keys_sorted into = true → keys_sorted (max_into into from) = true.
Proof. apply (fold_sorted (λ e v, if e <? v then v else e)). Qed.

Lemma each_sorted c : wf_value c = true → keys_sorted (each c) = true.
Proof.
  intros Hc. apply (wf_index _ "resources"), (wf_index _ kind) in Hc. unfold each, entries.
  destruct (index (index c "resources") kind) as [| | | | |m]; try done. cbn [as_object default from_option id].
  simpl in Hc. apply andb_true_iff in Hc as [Hs _]. clear -Hs.
  induction m as [|[k v] m IH]; [done|]. apply keys_sorted_cons in Hs as [Ha Hs].
  rewrite fmap_cons. apply keys_sorted_cons. split; [|by apply IH]. clear -Ha.
  induction Ha as [|[k' v'] m Hk Ha IH]; [constructor|]. rewrite fmap_cons. by constructor.
Qed.

Lemma ask_nonneg k c : 0 ≤ ask k c.
Proof.
  unfold ask, get0, each. induction (entries _) as [|[k' v'] m IH]; [done|]. rewrite fmap_cons. cbn [map_get fst snd].
  destruct (str_eqb k k'); [|done]. apply amount_nonneg.
Qed.

Lemma sum_ask_nonneg k l : 0 ≤ sumZ (ask k) l.
Proof. apply sumZ_nonneg. intros c _. apply ask_nonneg. Qed.

Lemma containers_get0 k l into :
  keys_sorted into = true → forallb wf_value l = true → 0 ≤ get0 into k → get0 into k + sumZ (ask k) l ≤ top →
  let m := fold_left (λ m c, add_into m (each c)) l into in
  get0 m k = get0 into k + sumZ (ask k) l ∧ keys_sorted m = true.
Proof.
  revert into. induction l as [|c l IH]; intros into Hs Hw H0 Hb; cbn zeta in *.
  - rewrite sumZ_nil. split; [|done]. cbn [fold_left]. lia.
  - apply andb_true_iff in Hw as [Hc Hw]. rewrite sumZ_cons in *. cbn [fold_left].
    pose proof (ask_nonneg k c). pose proof (sum_ask_nonneg k l).
    assert (get0 (add_into into (each c)) k = get0 into k + ask k c) as E.
    { apply add_into_get0; [by apply each_sorted|]. fold (ask k c). lia. }
    destruct (IH (add_into into (each c))) as [E1 E2]; [by apply add_into_sorted|done|lia|lia|].
    split; [|done]. rewrite E1, E. lia.
Qed.

Lemma init_go_get0 k l total sidecars busy :
  keys_sorted total = true → keys_sorted sidecars = true → keys_sorted busy = true →
  forallb wf_value l = true → 0 ≤ get0 total k → 0 ≤ get0 sidecars k → 0 ≤ get0 busy k →
  get0 total k + sumZ (ask k) l ≤ top → get0 sidecars k + sumZ (ask k) l ≤ top →
  let '(total', busy') := init_go total sidecars busy l in
  get0 total' k = get0 total k + sumZ (ask k) (List.filter is_sidecar l)
  ∧ get0 busy' k = Z.max (get0 busy k) (busiest k (get0 sidecars k) l)
  ∧ keys_sorted busy' = true.
Proof.
  revert total sidecars busy. induction l as [|c l IH]; intros total sidecars busy Ht Hs Hbu Hw H0 H1 H2 B1 B2.
  - cbn. rewrite sumZ_nil. split_and!; [lia|lia|done].
  - apply andb_true_iff in Hw as [Hc Hw]. rewrite sumZ_cons in *.
    pose proof (ask_nonneg k c). pose proof (sum_ask_nonneg k l). pose proof (each_sorted c Hc) as He.
    cbn [init_go List.filter busiest]. destruct (is_sidecar c) eqn:Esc.
    + set (t' := add_into total (each c)). set (s' := add_into sidecars (each c)).
      assert (get0 t' k = get0 total k + ask k c) as Et by (apply add_into_get0; [done|fold (ask k c); lia]).
      assert (get0 s' k = get0 sidecars k + ask k c) as Es by (apply add_into_get0; [done|fold (ask k c); lia]).
      assert (keys_sorted s' = true) as Hss by (by apply add_into_sorted).
      assert (get0 (max_into busy s') k = Z.max (get0 busy k) (get0 s' k)) as Eb by (by apply max_into_get0).
      specialize (IH t' s' (max_into busy s')). destruct (init_go t' s' (max_into busy s') l) as [t'' b''].
      destruct IH as (I1 & I2 & I3); [by apply add_into_sorted|done|by apply max_into_sorted|done|lia..|].
      rewrite sumZ_cons. split_and!; [lia| |done]. rewrite I2, Eb, Es. lia.
    + set (step := add_into (each c) sidecars).
      assert (get0 step k = ask k c + get0 sidecars k) as Es by (apply add_into_get0; [done|fold (ask k c); lia]).
      assert (keys_sorted step = true) as Hss by (by apply add_into_sorted).
      assert (get0 (max_into busy step) k = Z.max (get0 busy k) (get0 step k)) as Eb by (by apply max_into_get0).
      specialize (IH total sidecars (max_into busy step)).
      destruct (init_go total sidecars (max_into busy step) l) as [t'' b''].
      destruct IH as (I1 & I2 & I3); [done|done|by apply max_into_sorted|done|lia..|].
      split_and!; [lia| |done]. rewrite I2, Eb, Es. lia.
Qed.

Lemma wf_items v : wf_value v = true → forallb wf_value (items v) = true.
Proof. by destruct v. Qed.

Lemma wf_pod_list pod k : wf_value pod = true → forallb wf_value (items pod.["spec"].[k]) = true.
Proof. intros H. by apply wf_items, wf_index, wf_index. Qed.

Lemma containers_total_get0 pod k :
  wf_value pod = true → mentioned k pod ≤ top →
  get0 (containers_total pod) k
  = Z.max (running k pod) (busiest k 0 (items pod.["spec"].["initContainers"])).
Proof.
  intros Hw Hb. unfold containers_total, running, mentioned in *.
  set (cs := items pod.["spec"].["containers"]) in *. set (ins := items pod.["spec"].["initContainers"]) in *.
  pose proof (sum_ask_nonneg k cs). pose proof (sum_ask_nonneg k ins).
  destruct (containers_get0 k cs []) as [E1 E2]; [done|by apply wf_pod_list|done|cbn; lia|].
  set (total := fold_left _ cs []) in *. cbn in E1.
  pose proof (init_go_get0 k ins total [] []) as Hgo. destruct (init_go total [] [] ins) as [t' b'].
  destruct Hgo as (I1 & I2 & I3); [done|done|done|by apply wf_pod_list|lia|done|done|lia|cbn; lia|].
  pose proof (sum_ask_nonneg k (List.filter is_sidecar ins)).
  rewrite max_into_get0; [|done|lia]. rewrite I1, I2, E1. cbn.
  assert (0 ≤ busiest k 0 ins); [|lia]. clear. generalize 0 at 2. 
  induction ins as [|c l IH]; intros s; cbn [busiest]; [lia|]. specialize (IH (if is_sidecar c then s + ask k c else s)). lia.
Qed.

End Rule.

(** A pod's request for a resource, as computed in one walk over its
    containers, is the larger of what runs together (the containers and every
    sidecar) and of its busiest init step (an init container beside the
    sidecars started before it), as long as all it mentions fits 64 bits. *)
Theorem pod_total_rule (kind : string) (amount : string → Value → Z) (pod : Value) (k : string) :
  (∀ k v, 0 ≤ amount k v) → wf_value pod = true → mentioned kind amount k pod ≤ u64_max →
  get0 (containers_total (wrapping wrap64) kind amount pod) k
  = Z.max (running kind amount k pod) (busiest kind amount k 0 (items pod.["spec"].["initContainers"])).
Proof.
  intros Ha Hw Hm. apply (containers_total_get0 wrap64 kind amount u64_max); [|done..].
  intros z Hz. by apply wrap64_small.
Qed.

Definition demo_amount (k : string) (v : Value) : Z := match as_u64 v with Some n => Z.max 0 n | None => 0 end.

Definition demo_container (extra : list (string * Value)) (cpu : Z) : Value :=
  json_obj (("resources", json_obj [("requests", json_obj [("cpu", Num (PosInt cpu))])]) :: extra).

Definition demo_pod : Value :=
  json_obj [("spec", json_obj [
    ("initContainers", Array [demo_container [] 300; demo_container [("restartPolicy", Str "Always")] 200;
                              demo_container [] 500]);
    ("containers", Array [demo_container [] 400])])].

Lemma pod_total_rule_witness :
  get0 (containers_total (wrapping wrap64) "requests" demo_amount demo_pod) "cpu" = 700.
Proof.
  rewrite (pod_total_rule "requests" demo_amount demo_pod "cpu"); [reflexivity| |reflexivity|by vm_compute].
  intros k v. unfold demo_amount. destruct (as_u64 v); lia.
Defined.
