(* ===== verification/Filter.v ===== *)
(** * Scheduling filters ([pkg/scheduler/src/filter.rs], [affinity.rs], [spread.rs])

    Which nodes are feasible for a pod: readiness, cordons, taints, node
    selectors and affinity, inter-pod affinity and anti-affinity, topology
    spread and resource fit, over one snapshot of the cluster
    ([ClusterState] of [scheduler.rs]). *)

From Stdlib Require Import ZArith Lia String Ascii.
From stdpp Require Import base gmap strings numbers option list.
From S2P Require Import Prelude Text BTree Json Quantity PodResources Taint.
Open Scope string_scope.
Open Scope kube_scope.
Open Scope Z_scope.

(** ** The snapshot *)

Record NodeUsage := mkUsage { cpu_milli : Z; mem_bytes : Z; pods : Z }.
Definition no_usage : NodeUsage := mkUsage 0 0 0.

Record ClusterState := mkState { usage : gmap string NodeUsage; placed : list (string * Value) }.

Definition node_name_of (node : Value) : string := str_or "" node.["metadata"].["name"].

Definition used (state : ClusterState) (node : Value) : NodeUsage :=
  default no_usage (usage state !! node_name_of node).

Definition pod_priority (pod : Value) : Z := default 0 (as_i64 pod.["spec"].["priority"]).

Definition namespace_of (o : Value) : string := str_or "default" o.["metadata"].["namespace"].

(** [v.as_array()...filter_map(as_str)]. *)
Definition strings (v : Value) : list string := omap as_str (items v).

Inductive FilterResult : Type :=
| Pass
| Fail (reason : string).

(** ** Requests ([pod_requests]) *)

Definition cpu_of (v : Value) : Z := default 0 (parse_cpu_millis <$> as_str v).
Definition mem_of (v : Value) : Z := default 0 (parse_bytes <$> as_str v).

Definition request_amount (k : string) (v : Value) : Z :=
  match as_str v with
  | Some q => if str_eqb k "cpu" then parse_cpu_millis q else if str_eqb k "memory" then parse_bytes q else 0
  | None => 0
  end.

(** One of [resources], [allocatedResources] of a container status. *)
Definition held_step (acc : Z * Z) (r : Value) : Z * Z :=
  if is_null r then acc else (Z.max acc.1 (cpu_of r.["cpu"]), Z.max acc.2 (mem_of r.["memory"])).

Definition held_status (acc : Z * Z) (cs : Value) : Z * Z :=
  held_step (held_step acc cs.["resources"].["requests"]) cs.["allocatedResources"].["requests"].

Definition container_requests (pod : Value) : Z * Z :=
  let total := containers_total (wrapping wrap64) "requests" request_amount pod in
  fold_left held_status (items pod.["status"].["containerStatuses"])
    (get0 total "cpu", get0 total "memory").

Definition requests_without_overhead (pod : Value) : Z * Z :=
  let pod_level := pod.["spec"].["resources"].["requests"] in
  if negb (is_null pod_level) then
    let cpu := cpu_of pod_level.["cpu"] in
    let mem := mem_of pod_level.["memory"] in
    if negb (cpu =? 0) || negb (mem =? 0) then (cpu, mem) else container_requests pod
  else container_requests pod.

Definition pod_requests (pod : Value) : Z * Z :=
  let '(cpu, mem) := requests_without_overhead pod in
  let o := pod.["spec"].["overhead"] in
  (wrap64 (cpu + cpu_of o.["cpu"]), wrap64 (mem + mem_of o.["memory"])).

(** ** Filters on the node alone *)

Definition TOO_MANY_PODS : string := "Too many pods".

Definition pod_limit (node : Value) : option Z :=
  match node.["status"].["allocatable"].["pods"] with
  | Str s => parse_u64 (trim s)
  | Num n => as_u64 (Num n)
  | _ => None
  end.

Definition pod_count_filter (node : Value) (u : NodeUsage) : FilterResult :=
  match pod_limit node with
  | Some limit => if limit <=? pods u then Fail TOO_MANY_PODS else Pass
  | None => Pass
  end.

Definition node_ready_filter (node : Value) : FilterResult :=
  if existsb (λ c, str_is c.["type"] "Ready" && str_is c.["status"] "True")
       (items node.["status"].["conditions"])
  then Pass else Fail "node is not Ready".

Definition unschedulable_filter (node : Value) : FilterResult :=
  match as_bool node.["spec"].["unschedulable"] with
  | Some true => Fail "node is unschedulable (cordoned)"
  | _ => Pass
  end.

Fixpoint taints_go (pod : Value) (taints : list Value) : FilterResult :=
  match taints with
  | [] => Pass
  | taint :: rest =>
      let effect := str_or "" taint.["effect"] in
      if negb (str_eqb effect "NoSchedule") && negb (str_eqb effect "NoExecute") then taints_go pod rest
      else
        match pod_tolerates pod taint with
        | None => Fail ("node has taint " ++ str_or "" taint.["key"] ++ "=" ++ str_or "" taint.["value"]
                        ++ ":" ++ effect ++ " not tolerated")
        | Some _ => taints_go pod rest
        end
  end.

Definition taint_toleration_filter (pod node : Value) : FilterResult :=
  taints_go pod (items node.["spec"].["taints"]).

Fixpoint selector_go (labels : Map) (selector : Map) : FilterResult :=
  match selector with
  | [] => Pass
  | (k, v) :: rest =>
      if negb (option_value_eqb (map_get labels k) (Some v))
      then Fail ("node missing label " ++ k ++ "=" ++ str_or "" v)
      else selector_go labels rest
  end.

Definition node_selector_filter (pod node : Value) : FilterResult :=
  match as_object pod.["spec"].["nodeSelector"] with
  | None => Pass
  | Some selector =>
      match as_object node.["metadata"].["labels"] with
      | Some labels => selector_go labels selector
      | None => match selector with [] => Pass | _ => Fail "node has no labels but pod has nodeSelector" end
      end
  end.

Definition zip_with_ord (a b : option Z) (f : Z → Z → bool) : bool :=
  match a, b with Some x, Some y => f x y | _, _ => false end.

Definition match_expression (expr : Value) (node_val : option Value) : bool :=
  let op := str_or "" expr.["operator"] in
  let values := strings expr.["values"] in
  let val := node_val ≫= as_str in
  if str_eqb op "In" then match val with Some v => str_in v values | None => false end
  else if str_eqb op "NotIn" then match val with Some v => negb (str_in v values) | None => true end
  else if str_eqb op "Exists" then match node_val with Some _ => true | None => false end
  else if str_eqb op "DoesNotExist" then match node_val with Some _ => false | None => true end
  else if str_eqb op "Gt" then zip_with_ord (val ≫= parse_i64) (head values ≫= parse_i64) Z.gtb
  else if str_eqb op "Lt" then zip_with_ord (val ≫= parse_i64) (head values ≫= parse_i64) Z.ltb
  else true.

Definition match_field (node_name : string) (f : Value) : bool :=
  if negb (str_is f.["key"] "metadata.name") then true
  else
    let op := str_or "" f.["operator"] in
    let values := strings f.["values"] in
    if str_eqb op "In" then str_in node_name values
    else if str_eqb op "NotIn" then negb (str_in node_name values)
    else true.

Definition node_selector_term_matches (term : Value) (labels : option Map) (node_name : string) : bool :=
  forallb (λ e, match_expression e (labels ≫= λ l, map_get l (str_or "" e.["key"]))) (items term.["matchExpressions"])
  && forallb (match_field node_name) (items term.["matchFields"]).

Definition node_affinity_filter (pod node : Value) : FilterResult :=
  match items pod.["spec"].["affinity"].["nodeAffinity"].["requiredDuringSchedulingIgnoredDuringExecution"]
          .["nodeSelectorTerms"] with
  | [] => Pass
  | terms =>
      if existsb (λ t, node_selector_term_matches t (as_object node.["metadata"].["labels"]) (node_name_of node)) terms
      then Pass else Fail "node does not match required nodeAffinity"
  end.

Definition node_name_filter (pod node : Value) : FilterResult :=
  let want := str_or "" pod.["spec"].["nodeName"] in
  if is_empty_str want then Pass
  else if str_is node.["metadata"].["name"] want then Pass
  else Fail ("pod is bound to node " ++ want).

Definition resource_fit_filter (pod node : Value) (u : NodeUsage) : FilterResult :=
  let '(total_cpu_milli, total_mem_bytes) := pod_requests pod in
  if (total_cpu_milli =? 0) && (total_mem_bytes =? 0) then Pass
  else
    let allocatable := node.["status"].["allocatable"] in
    if is_null allocatable then Pass
    else if match as_str allocatable.["cpu"] with
            | Some s => sat_sub (parse_cpu_millis s) (cpu_milli u) <? total_cpu_milli
            | None => false
            end then Fail "Insufficient cpu"
    else if match as_str allocatable.["memory"] with
            | Some s => sat_sub (parse_bytes s) (mem_bytes u) <? total_mem_bytes
            | None => false
            end then Fail "Insufficient memory"
    else Pass.

(** ** Inter-pod affinity ([affinity.rs]) *)

Definition affinity_expr_ok (labels expr : Value) : bool :=
  let key := str_or "" expr.["key"] in
  let op := str_or "In" expr.["operator"] in
  let vals := strings expr.["values"] in
  let have := as_str labels.[key] in
  if str_eqb op "In" then match have with Some h => str_in h vals | None => false end
  else if str_eqb op "NotIn" then match have with Some h => negb (str_in h vals) | None => true end
  else if str_eqb op "Exists" then negb (is_null labels.[key])
  else if str_eqb op "DoesNotExist" then is_null labels.[key]
  else true.

Definition selector_matches (selector labels : Value) : bool :=
  forallb (λ kv, value_eqb labels.[kv.1] kv.2) (entries selector.["matchLabels"])
  && forallb (affinity_expr_ok labels) (items selector.["matchExpressions"]).

Definition topology_key (term : Value) : string := str_or "kubernetes.io/hostname" term.["topologyKey"].

Definition domain_of (node : Value) (topology_key : string) : option string :=
  as_str node.["metadata"].["labels"].[topology_key].

Definition term_matches_pod (term : Value) (pod_ns : string) (other : Value) : bool :=
  let other_ns := namespace_of other in
  let listed := items term.["namespaces"] in
  let ns_ok :=
    match listed with
    | [] => if is_object term.["namespaceSelector"] then true else str_eqb other_ns pod_ns
    | _ => existsb (λ n, str_is n other_ns) listed
    end in
  ns_ok && selector_matches term.["labelSelector"] other.["metadata"].["labels"].

(** The [HashMap] from name to node, collected from the list: of two nodes
    with one name the later stays. *)
Definition by_name (nodes : list Value) : gmap string Value :=
  foldl (λ m n, match as_str n.["metadata"].["name"] with Some s => <[s:=n]> m | None => m end) ∅ nodes.

Definition placed_domain (nodes : list Value) (key : string) (node_name : string) : option string :=
  by_name nodes !! node_name ≫= λ n, domain_of n key.

Definition occupied_domains (term : Value) (pod_ns : string) (nodes : list Value) (state : ClusterState) : list string :=
  omap (λ p, if negb (term_matches_pod term pod_ns p.2) then None
             else placed_domain nodes (topology_key term) p.1) (placed state).

Fixpoint affinity_go (pod_ns : string) (node : Value) (nodes : list Value) (state : ClusterState) (terms : list Value) :
    option string :=
  match terms with
  | [] => None
  | term :: rest =>
      let key := topology_key term in
      match domain_of node key with
      | None => Some ("node has no " ++ key ++ " label, required by podAffinity")
      | Some here =>
          if negb (str_in here (occupied_domains term pod_ns nodes state))
          then Some ("podAffinity: no matching pod in " ++ key ++ "=" ++ here)
          else affinity_go pod_ns node nodes state rest
      end
  end.

Fixpoint anti_affinity_go (pod_ns : string) (node : Value) (nodes : list Value) (state : ClusterState)
    (terms : list Value) : option string :=
  match terms with
  | [] => None
  | term :: rest =>
      let key := topology_key term in
      match domain_of node key with
      | None => anti_affinity_go pod_ns node nodes state rest
      | Some here =>
          if str_in here (occupied_domains term pod_ns nodes state)
          then Some ("podAntiAffinity: a matching pod is already in " ++ key ++ "=" ++ here)
          else anti_affinity_go pod_ns node nodes state rest
      end
  end.

Definition REQUIRED : string := "requiredDuringSchedulingIgnoredDuringExecution".
Definition PREFERRED : string := "preferredDuringSchedulingIgnoredDuringExecution".

Definition pod_affinity_filter (pod node : Value) (nodes : list Value) (state : ClusterState) : result unit string :=
  let pod_ns := namespace_of pod in
  let affinity := pod.["spec"].["affinity"] in
  match affinity_go pod_ns node nodes state (items affinity.["podAffinity"].[REQUIRED]) with
  | Some reason => Err reason
  | None =>
      match anti_affinity_go pod_ns node nodes state (items affinity.["podAntiAffinity"].[REQUIRED]) with
      | Some reason => Err reason
      | None => Ok ()
      end
  end.

(** One preferred term: what it adds to [got] and [total]. *)
Definition preferred_step (pod_ns : string) (node : Value) (nodes : list Value) (state : ClusterState)
    (want_present : bool) (acc : Z * Z) (w : Value) : Z * Z :=
  let weight := Z.min 100 (Z.max 1 (default 1 (as_i64 w.["weight"]))) in
  let total := acc.2 + weight in
  let term := w.["podAffinityTerm"] in
  match domain_of node (topology_key term) with
  | None => (acc.1, total)
  | Some here =>
      let present := str_in here (occupied_domains term pod_ns nodes state) in
      (if Bool.eqb present want_present then acc.1 + weight else acc.1, total)
  end.

Definition pod_affinity_score (pod node : Value) (nodes : list Value) (state : ClusterState) : Z :=
  let pod_ns := namespace_of pod in
  let affinity := pod.["spec"].["affinity"] in
  let acc := fold_left (preferred_step pod_ns node nodes state true) (items affinity.["podAffinity"].[PREFERRED]) (0, 0) in
  let '(got, total) :=
    fold_left (preferred_step pod_ns node nodes state false) (items affinity.["podAntiAffinity"].[PREFERRED]) acc in
  if total =? 0 then 0 else Z.quot (got * 100) total.

(** ** Topology spread ([spread.rs]) *)

(** Every domain of the cluster counts, if only zero. *)
Definition count_node (key : string) (m : gmap string Z) (n : Value) : gmap string Z :=
  match domain_of n key with
  | Some d => <[d := default 0 (m !! d)]> m
  | None => m
  end.

Definition count_pod (constraint : Value) (pod_ns : string) (nodes : list Value) (m : gmap string Z)
    (p : string * Value) : gmap string Z :=
  if negb (str_eqb (namespace_of p.2) pod_ns) then m
  else if negb (selector_matches constraint.["labelSelector"] p.2.["metadata"].["labels"]) then m
  else match placed_domain nodes (topology_key constraint) p.1 with
       | Some d => <[d := default 0 (m !! d) + 1]> m
       | None => m
       end.

Definition counts_by_domain (constraint : Value) (pod_ns : string) (nodes : list Value) (state : ClusterState) :
    gmap string Z :=
  let counts := foldl (count_node (topology_key constraint)) ∅ nodes in
  foldl (count_pod constraint pod_ns nodes) counts (placed state).

Definition list_max (l : list Z) : Z := match l with [] => 0 | x :: l' => foldl Z.max x l' end.
Definition list_min (l : list Z) : Z := match l with [] => 0 | x :: l' => foldl Z.min x l' end.

Definition skew_if_placed (counts : gmap string Z) (here : string) (min_domains : Z) : Z :=
  let vals := (λ dc, if str_eqb dc.1 here then dc.2 + 1 else dc.2) <$> map_to_list counts in
  let vals := (vals ++ replicate (Z.to_nat (min_domains - Z.of_nat (List.length vals))) 0)%list in
  list_max vals - list_min vals.

Definition when_unsatisfiable (c : Value) : string := str_or "DoNotSchedule" c.["whenUnsatisfiable"].
Definition max_skew (c : Value) : Z := Z.max 1 (default 1 (as_i64 c.["maxSkew"])).
Definition min_domains (c : Value) : Z := default 0 (as_i64 c.["minDomains"]).

Fixpoint spread_go (pod_ns : string) (node : Value) (nodes : list Value) (state : ClusterState) (cs : list Value) :
    option string :=
  match cs with
  | [] => None
  | c :: rest =>
      if negb (str_eqb (when_unsatisfiable c) "DoNotSchedule") then spread_go pod_ns node nodes state rest
      else
        let key := topology_key c in
        match domain_of node key with
        | None => Some ("node has no " ++ key ++ " label, required by topology spread")
        | Some here =>
            let skew := skew_if_placed (counts_by_domain c pod_ns nodes state) here (min_domains c) in
            if max_skew c <? skew
            then Some ("topology spread: placing here makes skew " ++ show_z skew ++ " over " ++ key
                       ++ " (maxSkew " ++ show_z (max_skew c) ++ ")")
            else spread_go pod_ns node nodes state rest
        end
  end.

Definition spread_filter (pod node : Value) (nodes : list Value) (state : ClusterState) : result unit string :=
  match spread_go (namespace_of pod) node nodes state (items pod.["spec"].["topologySpreadConstraints"]) with
  | Some reason => Err reason
  | None => Ok ()
  end.

Definition spread_score (pod node : Value) (nodes : list Value) (state : ClusterState) : Z :=
  let pod_ns := namespace_of pod in
  let '(worst, any) :=
    fold_left (λ acc c,
      if negb (str_eqb (when_unsatisfiable c) "ScheduleAnyway") then acc
      else match domain_of node (topology_key c) with
           | None => acc
           | Some here =>
               (Z.max acc.1 (skew_if_placed (counts_by_domain c pod_ns nodes state) here (min_domains c)), true)
           end) (items pod.["spec"].["topologySpreadConstraints"]) (0, false) in
  if negb any then 0 else Z.max (100 - worst * 20) 0.

(** ** All filters *)

Definition run_filters (pod node : Value) (u : NodeUsage) (state : ClusterState) (nodes : list Value) : FilterResult :=
  match node_ready_filter node with Fail r => Fail r | Pass =>
  match unschedulable_filter node with Fail r => Fail r | Pass =>
  match taint_toleration_filter pod node with Fail r => Fail r | Pass =>
  match node_selector_filter pod node with Fail r => Fail r | Pass =>
  match node_affinity_filter pod node with Fail r => Fail r | Pass =>
  match node_name_filter pod node with Fail r => Fail r | Pass =>
  match pod_affinity_filter pod node nodes state with Err r => Fail r | Ok _ =>
  match spread_filter pod node nodes state with Err r => Fail r | Ok _ =>
  match resource_fit_filter pod node u with Fail r => Fail r | Pass => Pass
  end end end end end end end end end.

(** ** Scores ([score.rs]) *)

Definition least_requested_score (node : Value) (u : NodeUsage) : Z :=
  let allocatable := node.["status"].["allocatable"] in
  if is_null allocatable then 50
  else
    let cpu := default 1000 (parse_cpu_millis <$> as_str allocatable.["cpu"]) in
    let mem := default (1024 * 1024 * 1024) (parse_bytes <$> as_str allocatable.["memory"]) in
    let free_cpu := sat_sub cpu (cpu_milli u) in
    let free_mem := sat_sub mem (mem_bytes u) in
    let cpu_score := if cpu =? 0 then 0 else wrap64 (free_cpu * 50) / cpu in
    let mem_score := if mem =? 0 then 0 else wrap64 (free_mem * 50) / mem in
    cpu_score + mem_score.

Definition image_locality_score (pod node : Value) : Z :=
  let node_image_names := flat_map (λ img, strings img.["names"]) (items node.["status"].["images"]) in
  let matched := List.filter (λ c, match as_str c.["image"] with
                                   | Some image => str_in image node_image_names
                                   | None => false
                                   end) (items pod.["spec"].["containers"]) in
  Z.of_nat (List.length matched) * 10.

Definition preference_ok (node_labels : option Map) (expr : Value) : bool :=
  let key := str_or "" expr.["key"] in
  let operator := str_or "In" expr.["operator"] in
  let values := strings expr.["values"] in
  match node_labels with
  | Some labels =>
      let node_val := map_get labels key ≫= as_str in
      if str_eqb operator "In" then match node_val with Some v => str_in v values | None => false end
      else if str_eqb operator "NotIn" then match node_val with Some v => negb (str_in v values) | None => true end
      else if str_eqb operator "Exists" then contains_key labels key
      else if str_eqb operator "DoesNotExist" then negb (contains_key labels key)
      else false
  | None => str_eqb operator "DoesNotExist"
  end.

Definition node_affinity_score (pod node : Value) : Z :=
  let node_labels := as_object node.["metadata"].["labels"] in
  fold_left (λ score term,
    let weight := default 1 (as_i64 term.["weight"]) in
    if forallb (preference_ok node_labels) (items term.["preference"].["matchExpressions"])
    then wrap_i64 (score + weight) else score)
    (items pod.["spec"].["affinity"].["nodeAffinity"].[PREFERRED]) 0.

Definition score_node (pod node : Value) (u : NodeUsage) (state : ClusterState) (nodes : list Value) : Z :=
  wrap_i64 (least_requested_score node u + image_locality_score pod node + node_affinity_score pod node
            + pod_affinity_score pod node nodes state + spread_score pod node nodes state).

(** ** What feasibility means *)

Lemma str_in_spec x l : str_in x l = true ↔ x ∈ l.
Proof.
  unfold str_in. rewrite existsb_exists. split.
  - intros (y & Hy & ->%str_eqb_eq). by apply list_elem_of_In.
  - intros Hx. exists x. split; [by apply list_elem_of_In|apply str_eqb_refl].
Qed.

Definition tolerates_all (pod node : Value) : Prop :=
  ∀ t, t ∈ items node.["spec"].["taints"] →
       t.["effect"] = Str "NoSchedule" ∨ t.["effect"] = Str "NoExecute" → pod_tolerates pod t ≠ None.

Lemma str_or_is d v s : s ≠ d → str_eqb (str_or d v) s = str_is v s.
Proof. unfold str_or, str_is. destruct v; try done; cbn; intros H; apply str_eqb_neq; congruence. Qed.

Lemma taint_filter_iff pod node : taint_toleration_filter pod node = Pass ↔ tolerates_all pod node.
Proof.
  unfold taint_toleration_filter, tolerates_all. induction (items node.["spec"].["taints"]) as [|t l IH]; cbn [taints_go].
  - split; [|done]. intros _ t Ht. by apply not_elem_of_nil in Ht.
  - rewrite !str_or_is by done.
    destruct (negb (str_is t.["effect"] "NoSchedule") && negb (str_is t.["effect"] "NoExecute")) eqn:E.
    + rewrite IH. split; intros H x Hx He; [|apply H; [by right|done]].
      apply elem_of_cons in Hx as [->|Hx]; [|by apply H]. exfalso.
      apply andb_true_iff in E as [E1%negb_true_iff E2%negb_true_iff].
      destruct He as [He|He]; apply str_is_spec in He; congruence.
    + assert (t.["effect"] = Str "NoSchedule" ∨ t.["effect"] = Str "NoExecute") as He.
      { apply andb_false_iff in E as [E%negb_false_iff|E%negb_false_iff]; apply str_is_spec in E; auto. }
      destruct (pod_tolerates pod t) eqn:Et.
      * rewrite IH. split; intros H x Hx Hxe; [|apply H; [by right|done]].
        apply elem_of_cons in Hx as [->|Hx]; [by rewrite Et|by apply H].
      * split; [done|]. intros H. by destruct (H t ltac:(by left) He).
Qed.

(** Every label the pod selects on is the node's, by JSON equality. *)
Definition selects (pod node : Value) : Prop :=
  ∀ k v, (k, v) ∈ entries pod.["spec"].["nodeSelector"] →
         option_value_eqb (map_get (entries node.["metadata"].["labels"]) k) (Some v) = true.

Lemma selector_go_iff labels selector :
  selector_go labels selector = Pass ↔
    ∀ k v, (k, v) ∈ selector → option_value_eqb (map_get labels k) (Some v) = true.
Proof.
  induction selector as [|[k v] l IH]; cbn [selector_go].
  - split; [|done]. intros _ k v H. by apply not_elem_of_nil in H.
  - destruct (option_value_eqb (map_get labels k) (Some v)) eqn:E; cbn [negb].
    + rewrite IH. split; intros H k' v' Hin; [|apply H; by right].
      apply elem_of_cons in Hin as [[= -> ->]|Hin]; [done|by apply H].
    + split; [done|]. intros H. rewrite (H k v) in E; [done|by left].
Qed.

Lemma selector_filter_iff pod node : node_selector_filter pod node = Pass ↔ selects pod node.
Proof.
  unfold node_selector_filter, selects, entries.
  destruct (as_object pod.["spec"].["nodeSelector"]) as [sel|]; cbn [default from_option id].
  2:{ split; [|done]. intros _ k v H. by apply not_elem_of_nil in H. }
  destruct (as_object node.["metadata"].["labels"]) as [labels|]; cbn [default from_option id].
  - apply selector_go_iff.
  - destruct sel as [|[k v] sel]; split; try done.
    + intros _ k v H. by apply not_elem_of_nil in H.
    + intros H. by specialize (H k v ltac:(by left)).
Qed.

(** The node can still promise what the pod requests. *)
Definition fits_resource (alloc : option Z) (in_use request : Z) : Prop :=
  match alloc with Some a => request = 0 ∨ in_use + request ≤ a | None => True end.

Definition resources_fit (pod node : Value) (u : NodeUsage) : Prop :=
  let allocatable := node.["status"].["allocatable"] in
  fits_resource (parse_cpu_millis <$> as_str allocatable.["cpu"]) (cpu_milli u) (pod_requests pod).1
  ∧ fits_resource (parse_bytes <$> as_str allocatable.["memory"]) (mem_bytes u) (pod_requests pod).2.

Lemma pod_requests_u64 pod : is_u64 (pod_requests pod).1 ∧ is_u64 (pod_requests pod).2.
Proof.
  unfold pod_requests. destruct (requests_without_overhead pod) as [c m]. split; apply wrap64_range.
Qed.

Lemma index_null v k : is_null v = true → index v k = Null.
Proof. by destruct v. Qed.

Lemma sat_sub_fits a u r : 0 ≤ r → (sat_sub a u <? r) = false ↔ r = 0 ∨ u + r ≤ a.
Proof. intros Hr. rewrite Z.ltb_ge. unfold sat_sub. lia. Qed.

Lemma resource_filter_iff pod node u : resource_fit_filter pod node u = Pass ↔ resources_fit pod node u.
Proof.
  unfold resource_fit_filter, resources_fit, fits_resource.
  destruct (pod_requests_u64 pod) as [[Hc _] [Hm _]]. destruct (pod_requests pod) as [c m]. cbn [fst snd] in *.
  destruct ((c =? 0) && (m =? 0)) eqn:E0.
  { apply andb_true_iff in E0 as [->%Z.eqb_eq ->%Z.eqb_eq]. split; [|done]. intros _. split; case_match; auto. }
  destruct (is_null node.["status"].["allocatable"]) eqn:En; [by rewrite !index_null|].
  destruct (as_str node.["status"].["allocatable"].["cpu"]) as [s|]; cbn [fmap option_fmap option_map].
  - destruct (sat_sub (parse_cpu_millis s) (cpu_milli u) <? c) eqn:E1.
    + split; [done|]. intros [H%sat_sub_fits _]; [congruence|done].
    + apply sat_sub_fits in E1; [|done].
      destruct (as_str node.["status"].["allocatable"].["memory"]) as [s'|]; cbn [fmap option_fmap option_map]; [|done].
      destruct (sat_sub (parse_bytes s') (mem_bytes u) <? m) eqn:E2.
      * split; [done|]. intros [_ H%sat_sub_fits]; [congruence|done].
      * apply sat_sub_fits in E2; done.
  - destruct (as_str node.["status"].["allocatable"].["memory"]) as [s'|]; cbn [fmap option_fmap option_map]; [|done].
    destruct (sat_sub (parse_bytes s') (mem_bytes u) <? m) eqn:E2.
    + split; [done|]. intros [_ H%sat_sub_fits]; [congruence|done].
    + apply sat_sub_fits in E2; done.
Qed.

(** *** Affinity *)

(** A placed pod the term selects is in domain [d]. *)
Definition occupied (term : Value) (pod_ns : string) (nodes : list Value) (state : ClusterState) (d : string) : Prop :=
  ∃ n p, (n, p) ∈ placed state ∧ term_matches_pod term pod_ns p = true
         ∧ placed_domain nodes (topology_key term) n = Some d.

Lemma occupied_spec term ns nodes state d : d ∈ occupied_domains term ns nodes state ↔ occupied term ns nodes state d.
Proof.
  unfold occupied_domains, occupied. rewrite list_elem_of_omap. split.
  - intros ([n p] & Hin & E). cbn [fst snd] in E.
    destruct (term_matches_pod term ns p) eqn:Em; cbn [negb] in E; [|done]. by exists n, p.
  - intros (n & p & Hin & Em & E). exists (n, p). split; [done|]. cbn [fst snd]. by rewrite Em.
Qed.

Definition affinity_met (pod node : Value) (nodes : list Value) (state : ClusterState) : Prop :=
  (∀ term, term ∈ items pod.["spec"].["affinity"].["podAffinity"].[REQUIRED] →
     ∃ here, domain_of node (topology_key term) = Some here ∧ occupied term (namespace_of pod) nodes state here)
  ∧ (∀ term here, term ∈ items pod.["spec"].["affinity"].["podAntiAffinity"].[REQUIRED] →
       domain_of node (topology_key term) = Some here → ¬ occupied term (namespace_of pod) nodes state here).

Lemma affinity_go_iff ns node nodes state terms :
  affinity_go ns node nodes state terms = None ↔
    ∀ term, term ∈ terms → ∃ here, domain_of node (topology_key term) = Some here ∧ occupied term ns nodes state here.
Proof.
  induction terms as [|t l IH]; cbn [affinity_go].
  - split; [|done]. intros _ t Ht. by apply not_elem_of_nil in Ht.
  - destruct (domain_of node (topology_key t)) as [here|] eqn:Ed.
    + destruct (str_in here (occupied_domains t ns nodes state)) eqn:Eo; cbn [negb].
      * rewrite IH. apply str_in_spec, occupied_spec in Eo. split; intros H x Hx; [|apply H; by right].
        apply elem_of_cons in Hx as [->|Hx]; [by exists here|by apply H].
      * split; [done|]. intros H. destruct (H t ltac:(by left)) as (h & Eh & Ho). rewrite Ed in Eh. injection Eh as <-.
        apply occupied_spec, str_in_spec in Ho. congruence.
    + split; [done|]. intros H. destruct (H t ltac:(by left)) as (h & Eh & _). congruence.
Qed.

Lemma anti_affinity_go_iff ns node nodes state terms :
  anti_affinity_go ns node nodes state terms = None ↔
    ∀ term here, term ∈ terms → domain_of node (topology_key term) = Some here → ¬ occupied term ns nodes state here.
Proof.
  induction terms as [|t l IH]; cbn [anti_affinity_go].
  - split; [|done]. intros _ t h Ht. by apply not_elem_of_nil in Ht.
  - destruct (domain_of node (topology_key t)) as [here|] eqn:Ed.
    + destruct (str_in here (occupied_domains t ns nodes state)) eqn:Eo.
      * apply str_in_spec, occupied_spec in Eo. split; [done|]. intros H. by destruct (H t here ltac:(by left) Ed).
      * rewrite IH. split; intros H x h Hx; [|apply H; by right].
        apply elem_of_cons in Hx as [->|Hx]; [|by apply H]. rewrite Ed. intros [= <-] Ho.
        apply occupied_spec, str_in_spec in Ho. congruence.
    + rewrite IH. split; intros H x h Hx; [|apply H; by right].
      apply elem_of_cons in Hx as [->|Hx]; [congruence|by apply H].
Qed.

Lemma affinity_filter_iff pod node nodes state :
  pod_affinity_filter pod node nodes state = Ok () ↔ affinity_met pod node nodes state.
Proof.
  unfold pod_affinity_filter, affinity_met.
  rewrite <- affinity_go_iff, <- anti_affinity_go_iff.
  destruct (affinity_go _ _ _ _ _); [naive_solver|]. destruct (anti_affinity_go _ _ _ _ _); naive_solver.
Qed.

(** *** Topology spread *)

(** A node of the cluster is in domain [d] of the constraint. *)
Definition in_domains (c : Value) (nodes : list Value) (d : string) : Prop :=
  ∃ n, n ∈ nodes ∧ domain_of n (topology_key c) = Some d.

(** The constraint counts this placed pod in domain [d]. *)
Definition counts_in (c : Value) (ns : string) (nodes : list Value) (d : string) (p : string * Value) : bool :=
  str_eqb (namespace_of p.2) ns
  && selector_matches c.["labelSelector"] p.2.["metadata"].["labels"]
  && match placed_domain nodes (topology_key c) p.1 with Some d' => str_eqb d' d | None => false end.

Definition pods_in (c : Value) (ns : string) (nodes : list Value) (state : ClusterState) (d : string) : Z :=
  sumZ (λ p, if counts_in c ns nodes d p then 1 else 0) (placed state).

Lemma by_name_elem nodes s n : by_name nodes !! s = Some n → n ∈ nodes.
Proof.
  unfold by_name. assert (∀ m : gmap string Value, (∀ s n, m !! s = Some n → n ∈ nodes) → ∀ l, l ⊆ nodes →
    foldl (λ m n, match as_str n.["metadata"].["name"] with Some s => <[s:=n]> m | None => m end) m l !! s = Some n →
    n ∈ nodes) as H; [|by apply (H ∅)].
  intros m Hm l. revert m Hm. induction l as [|x l IH]; intros m Hm Hl; [by apply Hm|]. cbn [foldl].
  assert (x ∈ nodes) as Hx by (apply Hl; by left).
  apply IH; [|intros y Hy; apply Hl; by right].
  destruct (as_str x.["metadata"].["name"]) as [k|]; [|done].
  intros s' n' [[<- <-]|[_ ?]]%lookup_insert_Some; [done|by eapply Hm].
Qed.

Lemma placed_domain_in c nodes n d : placed_domain nodes (topology_key c) n = Some d → in_domains c nodes d.
Proof. unfold placed_domain. intros (x & Hx & Hd)%bind_Some. exists x. split; [by eapply by_name_elem|done]. Qed.

Lemma count_node_lookup key m n d :
  count_node key m n !! d = if decide (domain_of n key = Some d) then Some (default 0 (m !! d)) else m !! d.
Proof.
  unfold count_node. destruct (domain_of n key) as [d'|].
  - destruct (decide (d' = d)) as [->|Hne].
    + rewrite lookup_insert_eq. by rewrite decide_True.
    + rewrite lookup_insert_ne by done. rewrite decide_False; [done|congruence].
  - by rewrite decide_False.
Qed.

Lemma count_nodes_lookup key nodes m d :
  (∃ n, n ∈ nodes ∧ domain_of n key = Some d) ∧ foldl (count_node key) m nodes !! d = Some (default 0 (m !! d))
  ∨ (¬ ∃ n, n ∈ nodes ∧ domain_of n key = Some d) ∧ foldl (count_node key) m nodes !! d = m !! d.
Proof.
  revert m. induction nodes as [|x l IH]; intros m; cbn [foldl].
  - right. split; [|done]. intros (n & Hn & _). by apply not_elem_of_nil in Hn.
  - specialize (IH (count_node key m x)). rewrite count_node_lookup in IH.
    destruct (decide (domain_of x key = Some d)) as [Ex|Ex].
    + left. split; [exists x; split; [by left|done]|]. by destruct IH as [[_ ->]|[_ ->]].
    + destruct IH as [[(n & Hn & En) ->]|[Hno ->]].
      * left. split; [exists n; split; [by right|done]|done].
      * right. split; [|done]. intros (n & [->|Hn]%elem_of_cons & En); [done|apply Hno; by exists n].
Qed.

Lemma count_pod_lookup c ns nodes m p d :
  count_pod c ns nodes m p !! d = if counts_in c ns nodes d p then Some (default 0 (m !! d) + 1) else m !! d.
Proof.
  unfold count_pod, counts_in. destruct (str_eqb (namespace_of p.2) ns); cbn [negb andb]; [|done].
  destruct (selector_matches _ _); cbn [negb andb]; [|done].
  destruct (placed_domain nodes (topology_key c) p.1) as [d'|]; [|done].
  destruct (str_eqb d' d) eqn:E.
  - apply str_eqb_eq in E as ->. by rewrite lookup_insert_eq.
  - apply str_eqb_neq in E. by rewrite lookup_insert_ne.
Qed.

Lemma count_pods_lookup c ns nodes l m d x :
  m !! d = Some x →
  foldl (count_pod c ns nodes) m l !! d = Some (x + sumZ (λ p, if counts_in c ns nodes d p then 1 else 0) l).
Proof.
  revert m x. induction l as [|p l IH]; intros m x Hm; cbn [foldl].
  - rewrite sumZ_nil, Hm. f_equal. lia.
  - rewrite sumZ_cons. destruct (counts_in c ns nodes d p) eqn:E.
    + rewrite (IH _ (x + 1)); [f_equal; lia|]. by rewrite count_pod_lookup, E, Hm.
    + rewrite (IH _ x); [done|]. by rewrite count_pod_lookup, E.
Qed.

Lemma count_pods_absent c ns nodes l m d :
  m !! d = None → ¬ in_domains c nodes d → foldl (count_pod c ns nodes) m l !! d = None.
Proof.
  intros Hm Hd. revert m Hm. induction l as [|p l IH]; intros m Hm; [done|]. apply IH.
  rewrite count_pod_lookup. destruct (counts_in c ns nodes d p) eqn:E; [|done]. destruct Hd. unfold counts_in in E.
  apply andb_true_iff in E as [_ E]. destruct (placed_domain nodes (topology_key c) p.1) as [d'|] eqn:Ep; [|done].
  apply str_eqb_eq in E as ->. by eapply placed_domain_in.
Qed.

Lemma counts_by_domain_lookup c ns nodes state d x :
  counts_by_domain c ns nodes state !! d = Some x ↔ in_domains c nodes d ∧ x = pods_in c ns nodes state d.
Proof.
  unfold counts_by_domain. destruct (count_nodes_lookup (topology_key c) nodes ∅ d) as [[Hin E]|[Hno E]].
  - rewrite (count_pods_lookup c ns nodes _ _ d 0) by (by rewrite E). rewrite Z.add_0_l.
    split; [by intros [= <-]|by intros [_ ->]].
  - rewrite (count_pods_absent c ns nodes); [|by rewrite E|done].
    split; [done|by intros [? _]].
Qed.

(** Spread of a list of counts. *)
Lemma foldl_max_spec x l : x ≤ foldl Z.max x l ∧ (∀ y, y ∈ l → y ≤ foldl Z.max x l) ∧ (foldl Z.max x l = x ∨ foldl Z.max x l ∈ l).
Proof.
  revert x. induction l as [|a l IH]; intros x; cbn [foldl].
  - split_and!; [lia| |by left]. intros y Hy. by apply not_elem_of_nil in Hy.
  - destruct (IH (Z.max x a)) as (H1 & H2 & H3). split_and!; [lia| |].
    + intros y [->|Hy]%elem_of_cons; [lia|by apply H2].
    + destruct H3 as [H3|H3]; [|right; by right]. rewrite H3. destruct (Z.max_spec x a) as [[_ ->]|[_ ->]]; [right; by left|by left].
Qed.

Lemma foldl_min_spec x l : foldl Z.min x l ≤ x ∧ (∀ y, y ∈ l → foldl Z.min x l ≤ y) ∧ (foldl Z.min x l = x ∨ foldl Z.min x l ∈ l).
Proof.
  revert x. induction l as [|a l IH]; intros x; cbn [foldl].
  - split_and!; [lia| |by left]. intros y Hy. by apply not_elem_of_nil in Hy.
  - destruct (IH (Z.min x a)) as (H1 & H2 & H3). split_and!; [lia| |].
    + intros y [->|Hy]%elem_of_cons; [lia|by apply H2].
    + destruct H3 as [H3|H3]; [|right; by right]. rewrite H3. destruct (Z.min_spec x a) as [[_ ->]|[_ ->]]; [by left|right; by left].
Qed.

Lemma spread_le l m : 0 ≤ m → list_max l - list_min l ≤ m ↔ ∀ x y, x ∈ l → y ∈ l → x - y ≤ m.
Proof.
  intros Hm. destruct l as [|a l]; cbn [list_max list_min].
  - split; [|lia]. intros _ x y Hx. by apply not_elem_of_nil in Hx.
  - destruct (foldl_max_spec a l) as (A1 & A2 & A3), (foldl_min_spec a l) as (B1 & B2 & B3). split.
    + intros H x y [->|Hx]%elem_of_cons [->|Hy]%elem_of_cons; try lia;
        try specialize (A2 _ Hx); try specialize (B2 _ Hy); lia.
    + intros H. apply H; [destruct A3 as [->|?]|destruct B3 as [->|?]]; by (left || right).
Qed.

(** The count of a domain once the pod is in [here]. *)
Definition after (c : Value) (ns : string) (nodes : list Value) (state : ClusterState) (here d : string) : Z :=
  pods_in c ns nodes state d + (if str_eqb d here then 1 else 0).

(** Placing the pod in [here] keeps any two domains within [maxSkew]; when the
    cluster has fewer domains than [minDomains] the missing ones are empty. *)
Definition spread_ok (c : Value) (ns : string) (nodes : list Value) (state : ClusterState) (here : string) : Prop :=
  (∀ d d', in_domains c nodes d → in_domains c nodes d' →
     after c ns nodes state here d - after c ns nodes state here d' ≤ max_skew c)
  ∧ (Z.of_nat (size (counts_by_domain c ns nodes state)) < min_domains c →
     ∀ d, in_domains c nodes d → after c ns nodes state here d ≤ max_skew c).

Lemma pods_in_nonneg c ns nodes state d : 0 ≤ pods_in c ns nodes state d.
Proof. apply sumZ_nonneg. intros p _. destruct (counts_in c ns nodes d p); lia. Qed.

Lemma max_skew_pos c : 1 ≤ max_skew c.
Proof. unfold max_skew. lia. Qed.

Lemma skew_iff c ns nodes state here :
  skew_if_placed (counts_by_domain c ns nodes state) here (min_domains c) ≤ max_skew c
  ↔ spread_ok c ns nodes state here.
Proof.
  pose proof (max_skew_pos c). unfold skew_if_placed. rewrite spread_le by lia.
  set (vals := _ <$> map_to_list _).
  assert (∀ x, x ∈ vals ↔ ∃ d, in_domains c nodes d ∧ x = after c ns nodes state here d) as Hv.
  { intros x. subst vals. rewrite list_elem_of_fmap. split.
    - intros ([d n] & -> & [Hd ->]%elem_of_map_to_list%counts_by_domain_lookup). exists d. split; [done|].
      unfold after. cbn [fst snd]. destruct (str_eqb d here); lia.
    - intros (d & Hd & ->). exists (d, pods_in c ns nodes state d). split.
      + unfold after. cbn [fst snd]. destruct (str_eqb d here); lia.
      + apply elem_of_map_to_list, counts_by_domain_lookup. done. }
  assert (List.length vals = size (counts_by_domain c ns nodes state)) as ->.
  { subst vals. by rewrite length_fmap, length_map_to_list. }
  unfold spread_ok. set (sz := Z.of_nat (size _)). setoid_rewrite elem_of_app. setoid_rewrite elem_of_replicate.
  assert (∀ d, 0 ≤ after c ns nodes state here d) as Hpos.
  { intros d. pose proof (pods_in_nonneg c ns nodes state d). unfold after. destruct (str_eqb d here); lia. }
  split.
  - intros H'. split.
    + intros d d' Hd Hd'. apply H'; left; apply Hv; eauto.
    + intros Hlt d Hd. rewrite <- (Z.sub_0_r (after c ns nodes state here d)). apply H'; [left; apply Hv; eauto|].
      right. split; [done|lia].
  - intros [H1 H2] x y Hx Hy. rewrite !Hv in *.
    destruct Hx as [(d & Hd & ->)|[-> Hlt]], Hy as [(d' & Hd' & ->)|[-> Hlt']].
    + by apply H1.
    + rewrite Z.sub_0_r. apply H2; [lia|done].
    + specialize (Hpos d'). lia.
    + lia.
Qed.

Definition spread_met (pod node : Value) (nodes : list Value) (state : ClusterState) : Prop :=
  ∀ c, c ∈ items pod.["spec"].["topologySpreadConstraints"] → when_unsatisfiable c = "DoNotSchedule" →
       ∃ here, domain_of node (topology_key c) = Some here ∧ spread_ok c (namespace_of pod) nodes state here.

Lemma spread_filter_iff pod node nodes state :
  spread_filter pod node nodes state = Ok () ↔ spread_met pod node nodes state.
Proof.
  unfold spread_filter, spread_met. set (ns := namespace_of pod).
  transitivity (spread_go ns node nodes state (items pod.["spec"].["topologySpreadConstraints"]) = None).
  { destruct (spread_go _ _ _ _ _); naive_solver. }
  induction (items pod.["spec"].["topologySpreadConstraints"]) as [|c l IH]; cbn [spread_go].
  - split; [|done]. intros _ c Hc. by apply not_elem_of_nil in Hc.
  - destruct (str_eqb (when_unsatisfiable c) "DoNotSchedule") eqn:Ew; cbn [negb].
    + apply str_eqb_eq in Ew. destruct (domain_of node (topology_key c)) as [here|] eqn:Ed.
      * destruct (max_skew c <? _) eqn:Es.
        -- apply Z.ltb_lt in Es. split; [done|]. intros H.
           destruct (H c ltac:(by left) Ew) as (h & Eh & Ho). rewrite Ed in Eh. injection Eh as <-.
           apply skew_iff in Ho. lia.
        -- apply Z.ltb_ge, skew_iff in Es. rewrite IH. split; intros H x Hx Hw; [|apply H; [by right|done]].
           apply elem_of_cons in Hx as [->|Hx]; [by exists here|by apply H].
      * split; [done|]. intros H. destruct (H c ltac:(by left) Ew) as (h & Eh & _). congruence.
    + apply str_eqb_neq in Ew. rewrite IH. split; intros H x Hx Hw; [|apply H; [by right|done]].
      apply elem_of_cons in Hx as [->|Hx]; [done|by apply H].
Qed.

Definition is_ready_node (node : Value) : Prop :=
  ∃ c, c ∈ items node.["status"].["conditions"] ∧ c.["type"] = Str "Ready" ∧ c.["status"] = Str "True".

Definition node_affinity_met (pod node : Value) : Prop :=
  let terms := items pod.["spec"].["affinity"].["nodeAffinity"].[REQUIRED].["nodeSelectorTerms"] in
  terms = [] ∨ ∃ t, t ∈ terms
    ∧ node_selector_term_matches t (as_object node.["metadata"].["labels"]) (node_name_of node) = true.

Definition named_here (pod node : Value) : Prop :=
  str_or "" pod.["spec"].["nodeName"] = "" ∨ node.["metadata"].["name"] = Str (str_or "" pod.["spec"].["nodeName"]).

Lemma ready_filter_iff node : node_ready_filter node = Pass ↔ is_ready_node node.
Proof.
  unfold node_ready_filter, is_ready_node.
  destruct (existsb _ (items node.["status"].["conditions"])) eqn:E.
  - apply existsb_exists in E as (c & Hc%list_elem_of_In & [H1%str_is_spec H2%str_is_spec]%andb_true_iff).
    split; [|done]. intros _. by exists c.
  - split; [done|]. intros (c & Hc & H1 & H2). exfalso. apply not_true_iff_false in E. apply E, existsb_exists.
    exists c. split; [by apply list_elem_of_In|]. apply andb_true_iff. split; by apply str_is_spec.
Qed.

Lemma node_affinity_iff pod node : node_affinity_filter pod node = Pass ↔ node_affinity_met pod node.
Proof.
  unfold node_affinity_filter, node_affinity_met. fold REQUIRED.
  destruct (items _) as [|t l]; [split; [by left|done]|].
  destruct (existsb _ (t :: l)) eqn:E.
  - split; [|done]. intros _. right. apply existsb_exists in E as (x & Hx%list_elem_of_In & Hm). by exists x.
  - split; [done|]. intros [?|(x & Hx & Hm)]; [done|]. exfalso. apply not_true_iff_false in E.
    apply E, existsb_exists. exists x. split; [by apply list_elem_of_In|done].
Qed.

Lemma name_filter_iff pod node : node_name_filter pod node = Pass ↔ named_here pod node.
Proof.
  unfold node_name_filter, named_here. destruct (str_or "" pod.["spec"].["nodeName"]) as [|a s] eqn:E.
  - split; [by left|done].
  - cbn [is_empty_str]. destruct (str_is _ (String a s)) eqn:E'.
    + apply str_is_spec in E'. split; [by right|done].
    + split; [done|]. intros [?|H]; [done|]. apply str_is_spec in H. congruence.
Qed.

(** The node is one the pod may be placed on. *)
Definition feasible (pod node : Value) (u : NodeUsage) (state : ClusterState) (nodes : list Value) : Prop :=
  is_ready_node node
  ∧ node.["spec"].["unschedulable"] ≠ Bool true
  ∧ tolerates_all pod node
  ∧ selects pod node
  ∧ node_affinity_met pod node
  ∧ named_here pod node
  ∧ affinity_met pod node nodes state
  ∧ spread_met pod node nodes state
  ∧ resources_fit pod node u.

Lemma run_filters_feasible pod node u state nodes :
  run_filters pod node u state nodes = Pass ↔ feasible pod node u state nodes.
Proof.
  unfold feasible.
  assert (unschedulable_filter node = Pass ↔ node.["spec"].["unschedulable"] ≠ Bool true) as Hu.
  { unfold unschedulable_filter. destruct (node.["spec"].["unschedulable"]) as [|[]| | | |]; naive_solver. }
  rewrite <- ready_filter_iff, <- Hu, <- taint_filter_iff, <- selector_filter_iff, <- node_affinity_iff,
    <- name_filter_iff, <- affinity_filter_iff, <- spread_filter_iff, <- resource_filter_iff.
  clear Hu. unfold run_filters.
  destruct (node_ready_filter node); [|naive_solver]. destruct (unschedulable_filter node); [|naive_solver].
  destruct (taint_toleration_filter pod node); [|naive_solver]. destruct (node_selector_filter pod node); [|naive_solver].
  destruct (node_affinity_filter pod node); [|naive_solver]. destruct (node_name_filter pod node); [|naive_solver].
  destruct (pod_affinity_filter pod node nodes state) as [[]|]; [|naive_solver].
  destruct (spread_filter pod node nodes state) as [[]|]; [|naive_solver].
  destruct (resource_fit_filter pod node u); naive_solver.
Qed.

(** C31: A node passes the filters exactly when it is feasible for the pod: it is
    Ready and not cordoned; the pod tolerates its scheduling taints; its labels
    meet the node selector and some required node-affinity term; it is the
    node the pod names, if any; every required affinity term has a matching
    pod in the node's domain and no anti-affinity term has one; every hard
    spread constraint keeps its domains within [maxSkew] with the pod here; and
    the pod's requests fit beside what the node has promised. *)
Theorem feasible_iff (pod node : Value) (u : NodeUsage) (state : ClusterState) (nodes : list Value) :
  run_filters pod node u state nodes = Pass ↔
    is_ready_node node
    ∧ node.["spec"].["unschedulable"] ≠ Bool true
    ∧ tolerates_all pod node
    ∧ selects pod node
    ∧ node_affinity_met pod node
    ∧ named_here pod node
    ∧ affinity_met pod node nodes state
    ∧ spread_met pod node nodes state
    ∧ resources_fit pod node u.
Proof. apply run_filters_feasible. Qed.

(** *** The order of the placed pods does not matter *)

(** The same promises and the same pods, in any order. *)
Definition same_cluster (s s' : ClusterState) : Prop := usage s = usage s' ∧ placed s ≡ₚ placed s'.

#[global] Instance same_cluster_equiv : Equivalence same_cluster.
Proof.
  split.
  - by intros s.
  - intros s s' [H1 H2]. by split.
  - intros s s' s'' [H1 H2] [H3 H4]. split; [congruence|by etrans].
Qed.

#[global] Instance occupied_proper term ns nodes :
  Proper (same_cluster ==> (=) ==> iff) (occupied term ns nodes).
Proof. intros s s' [_ Hp] d d' <-. unfold occupied. by setoid_rewrite Hp. Qed.

#[global] Instance pods_in_proper c ns nodes : Proper (same_cluster ==> (=) ==> (=)) (pods_in c ns nodes).
Proof. intros s s' [_ Hp] d d' <-. by apply sumZ_perm. Qed.

#[global] Instance counts_by_domain_proper c ns nodes : Proper (same_cluster ==> (=)) (counts_by_domain c ns nodes).
Proof.
  intros s s' Hs. apply map_eq. intros d. apply option_eq. intros x. rewrite !counts_by_domain_lookup. by rewrite Hs.
Qed.

#[global] Instance spread_ok_proper c ns nodes : Proper (same_cluster ==> (=) ==> iff) (spread_ok c ns nodes).
Proof.
  intros s s' Hs d d' <-. unfold spread_ok.
  assert (∀ x, after c ns nodes s d x = after c ns nodes s' d x) as Ha by (intros x; unfold after; by rewrite Hs).
  rewrite (counts_by_domain_proper c ns nodes s s' Hs). by setoid_rewrite Ha.
Qed.

#[global] Instance feasible_proper pod node u : Proper (same_cluster ==> (=) ==> iff) (feasible pod node u).
Proof.
  intros s s' Hs nodes nodes' <-. unfold feasible, affinity_met, spread_met. by setoid_rewrite Hs.
Qed.

(** ** Score ranges *)

Lemma preferred_fold ns node nodes state want l acc :
  0 ≤ acc.1 ≤ acc.2 → let r := fold_left (preferred_step ns node nodes state want) l acc in 0 ≤ r.1 ≤ r.2.
Proof.
  revert acc. induction l as [|w l IH]; intros acc Hacc; cbn [fold_left]; [done|]. apply IH.
  unfold preferred_step. set (weight := Z.min 100 _). assert (1 ≤ weight) by (subst weight; lia).
  destruct (domain_of node _); cbn [fst snd]; [|lia]. destruct (Bool.eqb _ want); lia.
Qed.

Lemma pod_affinity_score_range pod node nodes state : 0 ≤ pod_affinity_score pod node nodes state ≤ 100.
Proof.
  unfold pod_affinity_score.
  pose proof (preferred_fold (namespace_of pod) node nodes state true
    (items pod.["spec"].["affinity"].["podAffinity"].[PREFERRED]) (0, 0) ltac:(cbn; lia)) as H1.
  pose proof (preferred_fold (namespace_of pod) node nodes state false
    (items pod.["spec"].["affinity"].["podAntiAffinity"].[PREFERRED]) _ H1) as H2.
  destruct (fold_left _ _ (fold_left _ _ _)) as [got total]. cbn [fst snd] in H2.
  destruct (Z.eqb_spec total 0); [lia|]. rewrite Z.quot_div_nonneg by lia. split.
  - apply Z.div_pos; lia.
  - apply Z.div_le_upper_bound; lia.
Qed.

Lemma spread_score_range pod node nodes state : 0 ≤ spread_score pod node nodes state ≤ 100.
Proof.
  unfold spread_score. set (f := λ (acc : Z * bool) c, _).
  assert (∀ l acc, 0 ≤ acc.1 → 0 ≤ (fold_left f l acc).1) as Hf.
  { induction l as [|c l IH]; intros acc Hacc; cbn [fold_left]; [done|]. apply IH. subst f. cbn beta.
    destruct (negb _); [done|]. destruct (domain_of _ _); cbn [fst]; [lia|done]. }
  specialize (Hf (items pod.["spec"].["topologySpreadConstraints"]) (0, false) ltac:(cbn; lia)).
  destruct (fold_left f _ _) as [worst any]. cbn [fst] in Hf. destruct any; cbn [negb]; lia.
Qed.

Lemma free_fraction a u : 0 < a → a * 50 ≤ u64_max → 0 ≤ u → 0 ≤ wrap64 (sat_sub a u * 50) / a ≤ 50.
Proof.
  intros Ha Hf Hu. assert (0 ≤ sat_sub a u ≤ a) by (unfold sat_sub; lia).
  rewrite wrap64_small by (unfold is_u64; lia). split; [apply Z.div_pos; lia|apply Z.div_le_upper_bound; lia].
Qed.

Lemma default_bound d b (f : string → Z) v :
  0 ≤ d ≤ b → (∀ s, v = Str s → 0 ≤ f s ≤ b) → 0 ≤ default d (f <$> as_str v) ≤ b.
Proof. intros Hd Hf. destruct v; try done. by apply Hf. Qed.

(** The three balancing scores are on the scale of 0 to 100 the comments
    claim, whatever the pod and the node (an allocatable amount below 2^64/50,
    so that the fraction does not wrap). *)
Theorem score_ranges (pod node : Value) (u : NodeUsage) (state : ClusterState) (nodes : list Value) :
  0 ≤ cpu_milli u → 0 ≤ mem_bytes u →
  (∀ s, node.["status"].["allocatable"].["cpu"] = Str s → 0 ≤ parse_cpu_millis s ≤ u64_max / 50) →
  (∀ s, node.["status"].["allocatable"].["memory"] = Str s → 0 ≤ parse_bytes s ≤ u64_max / 50) →
  0 ≤ least_requested_score node u ≤ 100
  ∧ 0 ≤ pod_affinity_score pod node nodes state ≤ 100
  ∧ 0 ≤ spread_score pod node nodes state ≤ 100.
Proof.
  intros Hc Hm Ac Am. split; [|split; [apply pod_affinity_score_range|apply spread_score_range]].
  unfold least_requested_score. destruct (is_null _); [lia|].
  assert (0 ≤ default 1000 (parse_cpu_millis <$> as_str node.["status"].["allocatable"].["cpu"]) ≤ u64_max / 50) as Bc.
  { apply default_bound; [by vm_compute|done]. }
  assert (0 ≤ default (1024 * 1024 * 1024) (parse_bytes <$> as_str node.["status"].["allocatable"].["memory"]) ≤ u64_max / 50) as Bm.
  { apply default_bound; [by vm_compute|done]. }
  set (cpu := default 1000 _) in *. set (mem := default (1024 * 1024 * 1024) _) in *.
  assert (u64_max / 50 * 50 ≤ u64_max) by (vm_compute; discriminate).
  assert (0 ≤ (if cpu =? 0 then 0 else wrap64 (sat_sub cpu (cpu_milli u) * 50) / cpu) ≤ 50).
  { destruct (Z.eqb_spec cpu 0); [lia|]. apply free_fraction; lia. }
  assert (0 ≤ (if mem =? 0 then 0 else wrap64 (sat_sub mem (mem_bytes u) * 50) / mem) ≤ 50).
  { destruct (Z.eqb_spec mem 0); [lia|]. apply free_fraction; lia. }
  lia.
Qed.

(** *** Witnesses *)

Definition demo_node : Value :=
  json_obj [("metadata", json_obj [("name", Str "n1"); ("labels", json_obj [("kubernetes.io/hostname", Str "n1")])]);
            ("status", json_obj [("allocatable", json_obj [("cpu", Str "4"); ("memory", Str "8Gi"); ("pods", Str "2")]);
                                 ("conditions", Array [json_obj [("type", Str "Ready"); ("status", Str "True")]])])].

Definition demo_state : ClusterState := mkState ∅ [].

Lemma score_ranges_witness :
  0 ≤ least_requested_score demo_node (mkUsage 1000 0 1) ≤ 100.
Proof.
  apply (score_ranges Null demo_node (mkUsage 1000 0 1) demo_state [demo_node]); cbn [cpu_milli mem_bytes]; [lia|lia| |].
  - intros s E. vm_compute in E. injection E as <-. vm_compute. split; discriminate.
  - intros s E. vm_compute in E. injection E as <-. vm_compute. split; discriminate.
Defined.
