(* ===== verification/Preemption.v ===== *)
(** * Preemption ([pkg/scheduler/src/preemption.rs])

    Which lower-priority Pods must go from which node so that a Pod fits.
    Proved: the victims are placed there, of lower priority and not already
    going, and once they are gone the Pod does fit. *)

From Stdlib Require Import ZArith Lia String Ascii.
From stdpp Require Import base gmap strings numbers option list.
From S2P Require Import Prelude Text BTree Json Selector Filter.
Open Scope string_scope.
Open Scope kube_scope.
Open Scope Z_scope.

(** ** Definitions *)

Record Candidate := mkCandidate { cand_node : string; victims : list Value; pdb_violations : Z }.

Definition name (o : Value) : string := str_or "" o.["metadata"].["name"].
Definition uid (o : Value) : string := str_or "" o.["metadata"].["uid"].

Definition may_preempt (pod : Value) : bool := negb (str_is pod.["spec"].["preemptionPolicy"] "Never").

Definition sub (u : NodeUsage) (pod : Value) : NodeUsage :=
  let '(cpu, mem) := pod_requests pod in
  mkUsage (sat_sub (cpu_milli u) cpu) (sat_sub (mem_bytes u) mem) (sat_sub (pods u) 1).

Definition add (u : NodeUsage) (pod : Value) : NodeUsage :=
  let '(cpu, mem) := pod_requests pod in
  mkUsage (wrap64 (cpu_milli u + cpu)) (wrap64 (mem_bytes u + mem)) (wrap64 (pods u + 1)).

Definition passes_filter (r : FilterResult) : bool := match r with Pass => true | Fail _ => false end.

Definition fits (pod node : Value) (state : ClusterState) (nodes : list Value) : bool :=
  let u := used state node in
  passes_filter (run_filters pod node u state nodes) && passes_filter (pod_count_filter node u).

(** [entry(node).or_default()] and an update of it. *)
Definition at_usage (m : gmap string NodeUsage) (node : string) (f : NodeUsage → NodeUsage) : gmap string NodeUsage :=
  <[node := f (default no_usage (m !! node))]> m.

Definition without (state : ClusterState) (node : string) (gone : list Value) : ClusterState :=
  let uids := uid <$> gone in
  mkState (at_usage (usage state) node (λ u, fold_left sub gone u))
          (List.filter (λ np, negb (str_eqb np.1 node && str_in (uid np.2) uids)) (placed state)).

(** One budget of [violates]. *)
Definition charge_budget (ns : string) (labels : Value) (acc : bool * gmap string Z) (pdb : Value) : bool * gmap string Z :=
  let sel := pdb.["spec"].["selector"] in
  if negb (is_object sel) || negb (LabelSelector.matches sel labels) then acc
  else
    let key := ns ++ "/" ++ name pdb in
    let in_use := default 0 (acc.2 !! key) in
    let allowed := default 0 (as_i64 pdb.["status"].["disruptionsAllowed"]) in
    (acc.1 || (wrap_i64 (allowed - in_use) <=? 0), <[key := in_use + 1]> acc.2).

Definition violates (pod : Value) (pdbs : list Value) (taken : gmap string Z) : bool * gmap string Z :=
  let ns := str_or "" pod.["metadata"].["namespace"] in
  fold_left (charge_budget ns pod.["metadata"].["labels"])
    (List.filter (λ p, str_is p.["metadata"].["namespace"] ns) pdbs) (false, taken).

(** The lower-priority Pods of the node, not already going. *)
Definition is_lower (node_name : string) (pod : Value) (np : string * Value) : bool :=
  str_eqb np.1 node_name && (pod_priority np.2 <? pod_priority pod)
  && is_null np.2.["metadata"].["deletionTimestamp"] && negb (str_eqb (uid np.2) (uid pod)).

(** The reprieve loop: [trial] with each Pod put back that still leaves room,
    and the Pods that do not. *)
Fixpoint reprieve (pod node : Value) (node_name : string) (nodes : list Value) (trial : ClusterState)
    (gone : list Value) (ps : list Value) : ClusterState * list Value :=
  match ps with
  | [] => (trial, gone)
  | p :: rest =>
      let back := mkState (at_usage (usage trial) node_name (λ u, add u p)) (placed trial ++ [(node_name, p)]) in
      if negb (fits pod node back nodes) then
        reprieve pod node node_name nodes
          (mkState (at_usage (usage back) node_name (λ u, sub u p)) (placed trial)) (gone ++ [p]) rest
      else reprieve pod node node_name nodes back gone rest
  end.

Fixpoint count_violations (pdbs : list Value) (taken : gmap string Z) (vs : list Value) : Z :=
  match vs with
  | [] => 0
  | v :: rest =>
      let '(b, taken') := violates v pdbs taken in
      (if b then 1 else 0) + count_violations pdbs taken' rest
  end.

Definition on_node (pod node : Value) (state : ClusterState) (nodes pdbs : list Value) : option Candidate :=
  node_name ← as_str node.["metadata"].["name"];
  let lower := snd <$> List.filter (is_lower node_name pod) (placed state) in
  match lower with
  | [] => None
  | _ =>
      let trial := without state node_name lower in
      if negb (fits pod node trial nodes) then None
      else
        let sorted := sort_by_key (λ p, - pod_priority p) lower in
        let protected := List.filter (λ p, (violates p pdbs ∅).1) sorted in
        let free := List.filter (λ p, negb (violates p pdbs ∅).1) sorted in
        let '(_, vs) := reprieve pod node node_name nodes trial [] (protected ++ free) in
        Some (mkCandidate node_name vs (count_violations pdbs ∅ vs))
  end.

(** The sort key of [select]: a lexicographic tuple. *)
Definition rank (c : Candidate) : list Z :=
  let prios := pod_priority <$> victims c in
  [pdb_violations c; match prios with [] => i64_min | p :: ps => foldl Z.max p ps end;
   fold_left (λ a p, wrap_i64 (a + p)) prios 0; Z.of_nat (List.length (victims c))].

Fixpoint lex_leb (a b : list Z) : bool :=
  match a, b with
  | [], _ => true
  | _, [] => false
  | x :: a', y :: b' => if x <? y then true else if y <? x then false else lex_leb a' b'
  end.

(** A stable sort, as [slice::sort_by_key]. *)
Fixpoint insert_ranked (c : Candidate) (l : list Candidate) : list Candidate :=
  match l with
  | [] => [c]
  | d :: l' => if lex_leb (rank c) (rank d) then c :: l else d :: insert_ranked c l'
  end.

Definition sort_ranked (l : list Candidate) : list Candidate := foldr insert_ranked [] l.

Definition select (pod : Value) (nodes all_nodes : list Value) (state : ClusterState) (pdbs : list Value) :
    option Candidate :=
  if negb (may_preempt pod) then None
  else head (sort_ranked (omap (λ n, on_node pod n state all_nodes pdbs) nodes)).

Definition waiting_for_victims (pod : Value) (state : ClusterState) : bool :=
  match as_str pod.["status"].["nominatedNodeName"] with
  | None => false
  | Some node =>
      if is_empty_str node then false
      else existsb (λ np, str_eqb np.1 node && (pod_priority np.2 <? pod_priority pod)
                          && negb (is_null np.2.["metadata"].["deletionTimestamp"])) (placed state)
  end.

(** ** Room is a matter of promises, not of order *)

#[global] Instance fits_proper pod node : Proper (same_cluster ==> (=) ==> (=)) (fits pod node).
Proof.
  intros s s' Hs nodes nodes' <-. unfold fits. assert (used s node = used s' node) as ->.
  { unfold used. by destruct Hs as [-> _]. }
  f_equal. pose proof (run_filters_feasible pod node (used s' node) s nodes) as H1.
  pose proof (run_filters_feasible pod node (used s' node) s' nodes) as H2.
  rewrite <- (feasible_proper pod node (used s' node) s s' Hs nodes nodes eq_refl), <- H1 in H2.
  destruct (run_filters pod node (used s' node) s nodes), (run_filters pod node (used s' node) s' nodes); naive_solver.
Qed.

(** The node has a slot for one more Pod. *)
Definition slot_free (node : Value) (u : NodeUsage) : Prop := ∀ limit, pod_limit node = Some limit → pods u < limit.

Lemma pod_count_spec node u : pod_count_filter node u = Pass ↔ slot_free node u.
Proof.
  unfold pod_count_filter, slot_free. destruct (pod_limit node) as [limit|]; [|naive_solver].
  destruct (Z.leb_spec limit (pods u)); split; try done; [intros H'; specialize (H' limit eq_refl); lia|naive_solver lia].
Qed.

Lemma fits_spec pod node s nodes :
  fits pod node s nodes = true ↔ feasible pod node (used s node) s nodes ∧ slot_free node (used s node).
Proof.
  unfold fits. rewrite <- run_filters_feasible, <- pod_count_spec.
  destruct (run_filters _ _ _ _ _), (pod_count_filter _ _); cbn; naive_solver.
Qed.

(** *** Usage arithmetic, free of saturation and wrapping *)

(** The usage holds at least these pods' requests, in 64 bits. *)
Definition holds_pods (u : NodeUsage) (ps : list Value) : Prop :=
  sumZ (λ p, (pod_requests p).1) ps ≤ cpu_milli u ≤ u64_max
  ∧ sumZ (λ p, (pod_requests p).2) ps ≤ mem_bytes u ≤ u64_max
  ∧ sumZ (λ _, 1) ps ≤ pods u ≤ u64_max.

(** What is left of a usage once these pods are gone. *)
Definition minus (u : NodeUsage) (ps : list Value) : NodeUsage :=
  mkUsage (cpu_milli u - sumZ (λ p, (pod_requests p).1) ps) (mem_bytes u - sumZ (λ p, (pod_requests p).2) ps)
          (pods u - sumZ (λ _, 1) ps).

Lemma requests_nonneg ps :
  0 ≤ sumZ (λ p, (pod_requests p).1) ps ∧ 0 ≤ sumZ (λ p, (pod_requests p).2) ps ∧ 0 ≤ sumZ (λ _ : Value, 1) ps.
Proof.
  split_and!; apply sumZ_nonneg; intros p _; [| |lia];
    destruct (pod_requests_u64 p) as [[] []]; lia.
Qed.

Lemma holds_pods_perm u ps ps' : ps ≡ₚ ps' → holds_pods u ps → holds_pods u ps'.
Proof. intros H. unfold holds_pods. by rewrite !(sumZ_perm _ _ _ H). Qed.

Lemma minus_perm u ps ps' : ps ≡ₚ ps' → minus u ps = minus u ps'.
Proof. intros H. unfold minus. by rewrite !(sumZ_perm _ _ _ H). Qed.

Lemma minus_nil u : minus u [] = u.
Proof. unfold minus. rewrite !sumZ_nil, !Z.sub_0_r. by destruct u. Qed.

Lemma sub_minus u p ps : holds_pods u (p :: ps) → sub (minus u ps) p = minus u (p :: ps).
Proof.
  unfold holds_pods, sub, minus. rewrite !sumZ_cons. destruct (pod_requests p) as [c m] eqn:E. cbn.
  intros (H1 & H2 & H3). unfold sat_sub. f_equal; lia.
Qed.

Lemma holds_pods_tail u p ps : holds_pods u (p :: ps) → holds_pods u ps.
Proof.
  unfold holds_pods. rewrite !sumZ_cons. destruct (pod_requests_u64 p) as [[] []]. lia.
Qed.

Lemma add_minus u p ps : holds_pods u (p :: ps) → add (minus u (p :: ps)) p = minus u ps.
Proof.
  intros Hh. pose proof (requests_nonneg ps) as (N1 & N2 & N3). revert Hh.
  unfold holds_pods, add, minus. rewrite !sumZ_cons. destruct (pod_requests_u64 p) as [[C1 C2] [M1 M2]].
  destruct (pod_requests p) as [c m] eqn:E. cbn in *.
  intros (H1 & H2 & H3). rewrite !wrap64_small by (unfold is_u64; lia). f_equal; lia.
Qed.

Lemma fold_sub_minus u ps qs : holds_pods u (ps ++ qs) → fold_left sub ps (minus u qs) = minus u (ps ++ qs).
Proof.
  revert qs. induction ps as [|p ps IH]; intros qs H; [done|]. cbn [fold_left].
  assert (p :: ps ++ qs ≡ₚ ps ++ p :: qs) as HP by (by rewrite Permutation_middle).
  rewrite sub_minus.
  - rewrite IH; [by apply minus_perm|]. by eapply holds_pods_perm.
  - clear IH HP. induction ps as [|p' ps IH]; [done|]. apply IH.
    apply (holds_pods_tail u p'). eapply holds_pods_perm; [|exact H]. cbn. by rewrite Permutation_swap.
Qed.

(** *** The reprieve loop *)

Definition used_at (s : ClusterState) (node_name : string) : NodeUsage := default no_usage (usage s !! node_name).

(** [s] is the cluster with usage [u] at the node less [ps], and [base] placed. *)
Definition less (s0 s : ClusterState) (node_name : string) (ps : list Value) (pl : list (string * Value)) : Prop :=
  usage s = <[node_name := minus (used_at s0 node_name) ps]> (usage s0) ∧ placed s ≡ₚ pl.

Lemma reprieve_spec pod node node_name nodes s0 base ps : ∀ trial gone kept,
  holds_pods (used_at s0 node_name) (ps ++ gone) →
  less s0 trial node_name (ps ++ gone) (base ++ ((λ p, (node_name, p)) <$> kept)) →
  fits pod node trial nodes = true →
  let '(final, vs) := reprieve pod node node_name nodes trial gone ps in
  ∃ kept', vs ++ kept' ≡ₚ gone ++ kept ++ ps
    ∧ less s0 final node_name vs (base ++ ((λ p, (node_name, p)) <$> kept'))
    ∧ fits pod node final nodes = true.
Proof.
  induction ps as [|p ps IH]; intros trial gone kept Hh [Hu Hp] Hfit; cbn [reprieve].
  - exists kept. split; [by rewrite app_nil_r|]. by split.
  - set (back := mkState _ _).
    assert (less s0 back node_name (ps ++ gone) (base ++ ((λ p, (node_name, p)) <$> (kept ++ [p])%list))) as Hback.
    { split.
      - subst back. cbn [usage]. unfold at_usage. rewrite Hu, lookup_insert_eq. cbn [default from_option id].
        rewrite insert_insert_eq. f_equal. by apply add_minus.
      - subst back. cbn [placed]. rewrite Hp, fmap_app, app_assoc. done. }
    pose proof (holds_pods_tail _ _ _ Hh) as Ht.
    destruct (fits pod node back nodes) eqn:Ef; cbn [negb].
    + specialize (IH back gone (kept ++ [p])%list Ht Hback Ef).
      destruct (reprieve pod node node_name nodes back gone ps) as [final vs].
      destruct IH as (kept' & HP & Hl & Hf). exists kept'. split; [|done].
      rewrite HP, <- app_assoc. done.
    + set (trial' := mkState _ _).
      assert (same_cluster trial' trial) as Hsame.
      { subst trial' back. split; cbn [usage placed]; [|done]. unfold at_usage.
        rewrite Hu, lookup_insert_eq. cbn [default from_option id]. rewrite !insert_insert_eq, lookup_insert_eq.
        cbn [default from_option id]. f_equal. cbn [app] in *. by rewrite add_minus, sub_minus. }
      assert (p :: ps ++ gone ≡ₚ ps ++ gone ++ [p]) as HP'. { by rewrite (app_assoc ps), Permutation_cons_append. }
      assert (less s0 trial' node_name (ps ++ gone ++ [p]) (base ++ ((λ p, (node_name, p)) <$> kept))) as Hl'.
      { destruct Hsame as [E1 E2]. split; [|by rewrite E2]. rewrite E1, Hu. f_equal. by apply minus_perm. }
      specialize (IH trial' (gone ++ [p])%list kept). destruct (reprieve pod node node_name nodes trial' (gone ++ [p])%list ps) as [final vs].
      destruct IH as (kept' & HP & Hl & Hf); [by eapply holds_pods_perm|done|by rewrite Hsame|].
      exists kept'. split; [|done]. rewrite HP. rewrite <- !app_assoc. apply Permutation_app_head.
      rewrite <- Permutation_middle. cbn. by rewrite Permutation_middle.
Qed.

(** *** Taking pods off a node by uid *)

Lemma filter_split {A} (f : A → bool) l : List.filter f l ++ List.filter (λ x, negb (f x)) l ≡ₚ l.
Proof.
  induction l as [|x l IH]; [done|]. cbn [List.filter]. destruct (f x); cbn [negb].
  - cbn. by rewrite IH.
  - by rewrite <- Permutation_middle, IH.
Qed.

Lemma filter_perm {A} (f : A → bool) l l' : l ≡ₚ l' → List.filter f l ≡ₚ List.filter f l'.
Proof.
  induction 1 as [|x l l' _ IH|x y l|l1 l2 l3 _ IH1 _ IH2]; cbn [List.filter].
  - done.
  - destruct (f x); [by rewrite IH|done].
  - destruct (f x), (f y); try done. apply Permutation_swap.
  - by etrans.
Qed.

#[global] Instance filter_proper {A} (f : A → bool) : Proper ((≡ₚ) ==> (≡ₚ)) (List.filter f).
Proof. intros l l'. apply filter_perm. Qed.

Lemma filter_none {A} (f : A → bool) l : (∀ x, x ∈ l → f x = false) → List.filter f l = [].
Proof.
  induction l as [|x l IH]; intros H; [done|]. cbn [List.filter]. rewrite (H x) by (by left).
  apply IH. intros y Hy. apply H. by right.
Qed.

Lemma filter_all_in {A} (f : A → bool) l : (∀ x, x ∈ l → f x = true) → List.filter f l = l.
Proof.
  induction l as [|x l IH]; intros H; [done|]. cbn [List.filter]. rewrite (H x) by (by left).
  f_equal. apply IH. intros y Hy. apply H. by right.
Qed.

Lemma filter_ext_elem {A} (f g : A → bool) l : (∀ x, x ∈ l → f x = g x) → List.filter f l = List.filter g l.
Proof. intros H. apply filter_ext_in. intros x Hx. by apply H, list_elem_of_In. Qed.

Lemma nodup_fmap_inj {A B} (f : A → B) l x y : NoDup (f <$> l) → x ∈ l → y ∈ l → f x = f y → x = y.
Proof.
  induction l as [|a l IH]; rewrite ?fmap_cons; [by intros _ ?%not_elem_of_nil|].
  intros [Hn Hd]%NoDup_cons [->|Hx]%elem_of_cons [->|Hy]%elem_of_cons E; [done| | |by apply IH].
  - destruct Hn. rewrite E. by apply list_elem_of_fmap_2.
  - destruct Hn. rewrite <- E. by apply list_elem_of_fmap_2.
Qed.

Lemma nodup_fmap_filter {A B} (f : A → B) (q : A → bool) l : NoDup (f <$> l) → NoDup (f <$> List.filter q l).
Proof.
  induction l as [|a l IH]; [done|]. rewrite fmap_cons. intros [Hn Hd]%NoDup_cons. cbn [List.filter].
  destruct (q a); [|by apply IH]. rewrite fmap_cons. apply NoDup_cons. split; [|by apply IH].
  intros (x & E & [Hx _]%elem_of_filter_b)%list_elem_of_fmap. apply Hn. rewrite E. by apply list_elem_of_fmap_2.
Qed.

Lemma holds_pods_app_l u l r : holds_pods u (l ++ r) → holds_pods u l.
Proof.
  unfold holds_pods. rewrite !sumZ_app. pose proof (requests_nonneg r) as (? & ? & ?). lia.
Qed.

Section OnNode.
  Context (pod : Value) (s0 : ClusterState) (nn : string).

Definition on_it (np : string * Value) : bool := str_eqb np.1 nn.
Definition there : list (string * Value) := List.filter on_it (placed s0).
Definition lower_pods : list Value := snd <$> List.filter (is_lower nn pod) (placed s0).
Definition at_node (p : Value) : string * Value := (nn, p).

(** Each pod of the node has a uid of its own, and its requests are in the
    node's usage. *)
Definition well_accounted : Prop :=
  NoDup ((λ np, uid np.2) <$> there) ∧ holds_pods (used_at s0 nn) (snd <$> there).

Hypothesis Hacc : well_accounted.

Lemma lower_there : List.filter (is_lower nn pod) (placed s0) = List.filter (is_lower nn pod) there.
Proof.
  unfold there. induction (placed s0) as [|x l IH]; [done|]. cbn [List.filter].
  destruct (on_it x) eqn:E; cbn [List.filter]; rewrite IH; [done|].
  unfold is_lower at 1. unfold on_it in E. by rewrite E.
Qed.

Lemma lower_at_node : List.filter (is_lower nn pod) (placed s0) = at_node <$> lower_pods.
Proof.
  unfold lower_pods. assert (∀ x, x ∈ List.filter (is_lower nn pod) (placed s0) → x.1 = nn) as H.
  { intros x [_ Hx]%elem_of_filter_b. unfold is_lower in Hx. rewrite !andb_true_iff in Hx.
    destruct Hx as [[[Hx _] _] _]. by apply str_eqb_eq. }
  induction (List.filter (is_lower nn pod) (placed s0)) as [|[n p] l IH]; [done|]. rewrite !fmap_cons. f_equal.
  - unfold at_node. cbn. f_equal. exact (H (n, p) ltac:(by left)).
  - apply IH. intros x Hx. apply H. by right.
Qed.

Lemma lower_nodup : NoDup (uid <$> lower_pods).
Proof.
  unfold lower_pods. rewrite <- list_fmap_compose, lower_there. apply (nodup_fmap_filter (λ np, uid np.2)), Hacc.
Qed.

Lemma lower_held : holds_pods (used_at s0 nn) lower_pods.
Proof.
  destruct Hacc as [_ H]. unfold lower_pods. rewrite lower_there. eapply holds_pods_app_l, holds_pods_perm; [|exact H].
  rewrite <- fmap_app. by rewrite filter_split.
Qed.

Definition taken_off (uids : list string) (np : string * Value) : bool := on_it np && str_in (uid np.2) uids.

Lemma lower_by_uid np : np ∈ placed s0 → taken_off (uid <$> lower_pods) np = is_lower nn pod np.
Proof.
  intros Hin. unfold taken_off. destruct (is_lower nn pod np) eqn:El.
  - assert (on_it np = true) as ->. { unfold is_lower in El. rewrite !andb_true_iff in El. apply El. }
    apply str_in_spec, list_elem_of_fmap_2. unfold lower_pods. apply (list_elem_of_fmap_2 snd), elem_of_filter_b. done.
  - destruct (on_it np) eqn:Eo; [|done]. cbn [andb]. apply not_true_iff_false. rewrite str_in_spec.
    intros (p & Eu & Hp)%list_elem_of_fmap.
    assert (at_node p ∈ List.filter (is_lower nn pod) (placed s0)) as Hq.
    { rewrite lower_at_node. by apply list_elem_of_fmap_2. }
    apply elem_of_filter_b in Hq as [Hq Hl].
    assert (np = at_node p) as ->; [|congruence].
    apply (nodup_fmap_inj (λ np, uid np.2) there); [apply Hacc| | |done].
    + by apply elem_of_filter_b.
    + apply elem_of_filter_b. split; [done|]. unfold on_it, at_node. cbn. apply str_eqb_refl.
Qed.

Definition rest_pods : list (string * Value) := List.filter (λ np, negb (taken_off (uid <$> lower_pods) np)) (placed s0).

Lemma placed_split : placed s0 ≡ₚ rest_pods ++ (at_node <$> lower_pods).
Proof.
  unfold rest_pods. rewrite <- lower_at_node.
  rewrite <- (filter_split (taken_off (uid <$> lower_pods)) (placed s0)) at 1.
  rewrite (filter_ext_elem (taken_off (uid <$> lower_pods)) (is_lower nn pod)); [apply Permutation_app_comm|].
  apply lower_by_uid.
Qed.

Lemma without_usage vs kept :
  vs ++ kept ≡ₚ lower_pods →
  usage (without s0 nn vs) = <[nn := minus (used_at s0 nn) vs]> (usage s0).
Proof.
  intros HP. unfold without. cbn [usage]. unfold at_usage. f_equal. fold (used_at s0 nn).
  rewrite <- (minus_nil (used_at s0 nn)) at 1. rewrite fold_sub_minus; [by rewrite app_nil_r|].
  rewrite app_nil_r. eapply holds_pods_app_l, holds_pods_perm; [symmetry; exact HP|]. apply lower_held.
Qed.

End OnNode.

(** *** One node *)

Lemma on_node_sound pod node state nodes pdbs c :
  on_node pod node state nodes pdbs = Some c →
  well_accounted state (cand_node c) →
  (∃ rest, placed state ≡ₚ (rest ++ ((λ v, (cand_node c, v)) <$> victims c))%list ∧
      fits pod node (mkState (<[cand_node c := minus (used_at state (cand_node c)) (victims c)]> (usage state)) rest) nodes = true)
  ∧ node.["metadata"].["name"] = Str (cand_node c).
Proof.
  intros Hc Hacc. unfold on_node in Hc. destruct (as_str node.["metadata"].["name"]) as [nn|] eqn:En; [|done].
  cbn [mbind option_bind] in Hc. fold (lower_pods pod state nn) in Hc. set (lower := lower_pods pod state nn) in *.
  assert (∃ l, lower = l ∧ l ≠ [] ∧ (if negb (fits pod node (without state nn lower) nodes) then None
    else let sorted := sort_by_key (λ p, - pod_priority p) lower in
         let '(_, vs) := reprieve pod node nn nodes (without state nn lower) []
           (List.filter (λ p, (violates p pdbs ∅).1) sorted ++ List.filter (λ p, negb (violates p pdbs ∅).1) sorted) in
         Some (mkCandidate nn vs (count_violations pdbs ∅ vs))) = Some c) as (_ & _ & _ & Hc').
  { destruct lower eqn:El; [done|]. eexists. split; [reflexivity|]. split; [done|exact Hc]. }
  clear Hc. rename Hc' into Hc. destruct (fits pod node (without state nn lower) nodes) eqn:Ef; cbn [negb] in Hc; [|done].
  cbn zeta in Hc. set (sorted := sort_by_key _ lower) in Hc. set (ps := (_ ++ _)%list) in Hc.
  assert (ps ≡ₚ lower) as HP. { subst ps. rewrite filter_split. apply sort_by_key_perm. }
  destruct (reprieve pod node nn nodes (without state nn lower) [] ps) as [final vs] eqn:Er.
  injection Hc as <-. cbn [cand_node victims] in *.
  pose proof (reprieve_spec pod node nn nodes state (rest_pods pod state nn) ps (without state nn lower) [] []) as Hspec.
  rewrite Er in Hspec. destruct Hspec as (kept & HP' & [Hu Hp] & Hfit).
  - rewrite app_nil_r. eapply holds_pods_perm; [symmetry; exact HP|]. by apply lower_held.
  - rewrite app_nil_r. split.
    + rewrite (without_usage pod state nn Hacc lower []) by (by rewrite app_nil_r). f_equal. by apply minus_perm.
    + by rewrite app_nil_r.
  - done.
  - cbn [app] in HP'. rewrite HP in HP'. split.
    + exists (rest_pods pod state nn ++ (at_node nn <$> kept))%list. split.
      * rewrite (placed_split pod state nn Hacc). fold lower. rewrite <- HP', fmap_app, <- app_assoc.
        apply Permutation_app_head. apply Permutation_app_comm.
      * rewrite <- Hfit. apply fits_proper; [|done]. split; cbn [usage placed]; [done|by rewrite Hp].
    + by destruct (node.["metadata"].["name"]); try done; injection En as ->.
Qed.

(** *** The choice of the node *)

Lemma lex_leb_total a b : lex_leb a b = false → lex_leb b a = true.
Proof.
  revert b. induction a as [|x a IH]; intros [|y b]; cbn; try done.
  destruct (Z.ltb_spec x y); [done|]. destruct (Z.ltb_spec y x); [done|]. by apply IH.
Qed.

Lemma lex_leb_trans a b c : lex_leb a b = true → lex_leb b c = true → lex_leb a c = true.
Proof.
  revert b c. induction a as [|x a IH]; intros [|y b] [|z c]; cbn; try done.
  destruct (Z.ltb_spec x y), (Z.ltb_spec y x), (Z.ltb_spec y z), (Z.ltb_spec z y), (Z.ltb_spec x z), (Z.ltb_spec z x);
    try done; try lia. apply IH.
Qed.

Lemma lex_leb_refl a : lex_leb a a = true.
Proof. induction a as [|x a IH]; [done|]. cbn. by rewrite Z.ltb_irrefl. Qed.

Lemma sort_ranked_nil l : sort_ranked l = [] → l = [].
Proof.
  destruct l as [|a l]; [done|]. change (sort_ranked (a :: l)) with (insert_ranked a (sort_ranked l)).
  destruct (sort_ranked l) as [|b l']; cbn [insert_ranked]; [done|]. by destruct (lex_leb (rank a) (rank b)).
Qed.

Lemma sort_ranked_head l c :
  head (sort_ranked l) = Some c → c ∈ l ∧ ∀ d, d ∈ l → lex_leb (rank c) (rank d) = true.
Proof.
  revert c. induction l as [|a l IH]; intros c; [done|].
  change (sort_ranked (a :: l)) with (insert_ranked a (sort_ranked l)).
  destruct (sort_ranked l) as [|b l'] eqn:E; cbn [insert_ranked].
  - intros [= <-]. split; [by left|]. intros d [->|Hd]%elem_of_cons; [apply lex_leb_refl|].
    rewrite (sort_ranked_nil l E) in Hd. by apply not_elem_of_nil in Hd.
  - destruct (IH b eq_refl) as [Hb Hle]. destruct (lex_leb (rank a) (rank b)) eqn:Eab; intros [= <-].
    + split; [by left|]. intros d [->|Hd]%elem_of_cons; [apply lex_leb_refl|]. eapply lex_leb_trans; [done|by apply Hle].
    + split; [by right|]. intros d [->|Hd]%elem_of_cons; [by apply lex_leb_total|by apply Hle].
Qed.

(** Whatever the accounts say, the victims are lower-priority workloads of the
    node chosen, which is one of those offered. *)
Lemma reprieve_subset pod node node_name nodes ps : ∀ trial gone,
  (reprieve pod node node_name nodes trial gone ps).2 ⊆ (gone ++ ps)%list.
Proof.
  induction ps as [|p ps IH]; intros trial gone; cbn [reprieve]; [rewrite app_nil_r; by intros x|].
  cbn zeta. destruct (negb _); intros x Hx%IH; rewrite ?elem_of_app, ?elem_of_cons in *; rewrite ?elem_of_nil in *; tauto.
Qed.

Lemma select_victims pod nodes all_nodes state pdbs c :
  select pod nodes all_nodes state pdbs = Some c →
  (∃ node, node ∈ nodes ∧ node.["metadata"].["name"] = Str (cand_node c)) ∧
  ∀ v, v ∈ victims c → (cand_node c, v) ∈ placed state ∧ pod_priority v < pod_priority pod ∧ v.["metadata"].["deletionTimestamp"] = Null.
Proof.
  intros Hs. unfold select in Hs. destruct (negb (may_preempt pod)); [done|].
  apply sort_ranked_head in Hs as [Hin _]. apply list_elem_of_omap in Hin as (node & Hn & Ho).
  unfold on_node in Ho. destruct (as_str node.["metadata"].["name"]) as [nn|] eqn:En; [|done].
  cbn [mbind option_bind] in Ho. fold (lower_pods pod state nn) in Ho. set (lower := lower_pods pod state nn) in *.
  assert (node.["metadata"].["name"] = Str nn) as Hname by (destruct (node.["metadata"].["name"]); try done; by injection En as ->).
  assert (cand_node c = nn ∧ victims c ⊆ lower) as [-> Hsub].
  { destruct lower as [|p0 l0] eqn:El; [done|]. rewrite <- El in *. destruct (negb _); [done|]. cbn zeta in Ho.
    set (sorted := sort_by_key _ lower) in Ho. set (ps := (_ ++ _)%list) in Ho.
    assert (ps ≡ₚ lower) as HP. { subst ps. rewrite filter_split. apply sort_by_key_perm. }
    pose proof (reprieve_subset pod node nn all_nodes ps (without state nn lower) []) as H.
    destruct (reprieve _ _ _ _ _ _ _) as [final vs]. injection Ho as <-. cbn in *. split; [done|]. intros v Hv. rewrite <- HP. by apply H. }
  split; [by exists node|]. intros v Hv. apply Hsub, (list_elem_of_fmap_2 (at_node nn)) in Hv. unfold lower in Hv.
  rewrite <- lower_at_node in Hv. apply elem_of_filter_b in Hv as [Hp Hl]. unfold is_lower, at_node in *. rewrite !andb_true_iff in Hl.
  cbn [fst snd] in Hl. destruct Hl as [[[_ H1%Z.ltb_lt] H2] _]. split_and!; [done|done|].
  by destruct (v.["metadata"].["deletionTimestamp"]).
Qed.

(** C32: Preemption makes room.  Let the workloads placed on the node chosen
    have UIDs of their own, and let the node's usage hold the requests and one
    Pod slot of each (so no virtual machine among them, which takes no slot).
    Then the node is one of those offered; every victim is placed there, has a
    lower priority than the Pod and is not already going; and with exactly the
    victims gone, from the placed workloads and from the usage, the Pod is
    feasible there (every filter, restated in [Filter.feasible]) and the node
    has a Pod slot free.  A Pod with [preemptionPolicy: Never] preempts
    nothing. *)
Theorem preemption_makes_room (pod : Value) (nodes all_nodes : list Value) (state : ClusterState) (pdbs : list Value)
    (c : Candidate) :
  select pod nodes all_nodes state pdbs = Some c →
  well_accounted state (cand_node c) →
  pod.["spec"].["preemptionPolicy"] ≠ Str "Never"
  ∧ (∀ v, v ∈ victims c → (cand_node c, v) ∈ placed state ∧ pod_priority v < pod_priority pod
                          ∧ v.["metadata"].["deletionTimestamp"] = Null)
  ∧ ∃ node rest, node ∈ nodes ∧ node.["metadata"].["name"] = Str (cand_node c)
      ∧ placed state ≡ₚ (rest ++ ((λ v, (cand_node c, v)) <$> victims c))%list
      ∧ let left := minus (used_at state (cand_node c)) (victims c) in
        feasible pod node left (mkState (<[cand_node c := left]> (usage state)) rest) all_nodes ∧ slot_free node left.
Proof.
  intros Hs Hacc. pose proof (proj2 (select_victims _ _ _ _ _ _ Hs)) as Hv. unfold select, may_preempt in Hs. rewrite negb_involutive in Hs.
  destruct (str_is pod.["spec"].["preemptionPolicy"] "Never") eqn:Em; [done|].
  apply sort_ranked_head in Hs as [Hin _]. apply list_elem_of_omap in Hin as (node & Hn & Ho).
  destruct (on_node_sound _ _ _ _ _ _ Ho Hacc) as ((rest & Hp & Hf) & Hname). split_and!.
  - intros H. apply str_is_spec in H. congruence.
  - exact Hv.
  - exists node, rest. split_and!; [done..|]. cbn zeta. apply fits_spec in Hf. unfold used in Hf. cbn [usage] in Hf.
    assert (node_name_of node = cand_node c) as E by (unfold node_name_of; by rewrite Hname).
    rewrite E, lookup_insert_eq in Hf. exact Hf.
Qed.

(** Of the nodes where preemption would make room the one chosen breaks
    the fewest disruption budgets; among those its most important victim is
    least important; then the sum of the priorities, then the number of
    victims, is least. *)
Theorem preempts_least (pod : Value) (nodes all_nodes : list Value) (state : ClusterState) (pdbs : list Value)
    (c : Candidate) :
  select pod nodes all_nodes state pdbs = Some c →
  ∀ node d, node ∈ nodes → on_node pod node state all_nodes pdbs = Some d → lex_leb (rank c) (rank d) = true.
Proof.
  intros Hs node d Hn Hd. unfold select in Hs. destruct (negb (may_preempt pod)); [done|].
  apply sort_ranked_head in Hs as [_ Hle]. apply Hle, list_elem_of_omap. by exists node.
Qed.

(** *** Witnesses *)

Definition demo_pod (n : string) (prio : Z) (cpu : string) : Value :=
  json_obj [("metadata", json_obj [("name", Str n); ("namespace", Str "d"); ("uid", Str n)]);
            ("spec", json_obj [("priority", Num (PosInt prio));
                               ("containers", Array [json_obj [("name", Str "c");
                                  ("resources", json_obj [("requests", json_obj [("cpu", Str cpu)])])]])])].

Definition demo_placed : list (string * Value) := [("n1", demo_pod "low" 1 "3"); ("n1", demo_pod "mid" 5 "1")].

Definition demo_cluster : ClusterState := mkState {["n1" := mkUsage 4000 0 2]} demo_placed.

Definition demo_candidate : Candidate := mkCandidate "n1" [demo_pod "low" 1 "3"] 0.

Lemma demo_selected : select (demo_pod "high" 10 "2") [demo_node] [demo_node] demo_cluster [] = Some demo_candidate.
Proof. vm_compute. reflexivity. Qed.

Lemma demo_accounts : well_accounted demo_cluster "n1".
Proof.
  split.
  - apply (bool_decide_unpack _). vm_compute. exact I.
  - vm_compute. repeat split; discriminate.
Qed.

Lemma preemption_makes_room_witness :
  ∃ node rest, node ∈ [demo_node] ∧ demo_placed ≡ₚ (rest ++ [("n1", demo_pod "low" 1 "3")])%list
    ∧ feasible (demo_pod "high" 10 "2") node (mkUsage 1000 0 1) (mkState {["n1" := mkUsage 1000 0 1]} rest) [demo_node].
Proof.
  destruct (preemption_makes_room (demo_pod "high" 10 "2") [demo_node] [demo_node] demo_cluster [] demo_candidate
    demo_selected demo_accounts) as (_ & _ & node & rest & Hn & _ & Hp & Hf & _).
  exists node, rest. split; [exact Hn|]. split; [exact Hp|].
  assert (minus (used_at demo_cluster (cand_node demo_candidate)) (victims demo_candidate) = mkUsage 1000 0 1) as E by (vm_compute; reflexivity).
  rewrite E in Hf. exact Hf.
Defined.

Lemma preempts_least_witness :
  ∀ d, on_node (demo_pod "high" 10 "2") demo_node demo_cluster [demo_node] [] = Some d →
       lex_leb (rank demo_candidate) (rank d) = true.
Proof.
  intros d. apply (preempts_least (demo_pod "high" 10 "2") [demo_node] [demo_node] demo_cluster [] demo_candidate
    demo_selected demo_node d). by left.
Defined.
