(* ===== verification/Informer.v ===== *)
(** * Informer stores ([pkg/apimachinery/src/informer.rs])

    The controllers and the scheduler read the cluster from an [informer::Store]:
    a copy of one resource kept by a LIST and a watch, indexed by owner, node,
    claim, label and the like, on which the process's own writes are laid as
    overlays until the watch delivers them.  The model has the whole store; the
    clock readings ([Instant::now()]) are arguments.

    Proved: the indexes hold exactly the objects that carry them; every change
    of an index is announced in the delta that caused it; and, whatever order
    lists, events and write responses arrive in, a name shows what the lists
    and the watch said of it, or a write of this process whose own event is
    still to come. *)

From Stdlib Require Import ZArith Lia String Ascii.
From stdpp Require Import base gmap strings numbers option list sorting.
From S2P Require Import Prelude Text BTree Json.
Open Scope string_scope.
Open Scope kube_scope.
Open Scope Z_scope.

(** ** Keys *)

Definition nonempty_str (v : Value) : option string :=
  match as_str v with Some s => if is_empty_str s then None else Some s | None => None end.

Record Key := mkKey { key_namespace : string; key_name : string; key_uid : string }.

#[global] Instance Key_eq_dec : EqDecision Key.
Proof. solve_decision. Defined.

#[global] Program Instance Key_countable : Countable Key :=
  inj_countable' (λ k, (key_namespace k, key_name k, key_uid k)) (λ t, mkKey t.1.1 t.1.2 t.2) _.
Next Obligation. by intros []. Qed.

(** [Key::of], with the two errors it can give. *)
Definition key_result (object : Value) : result Key string :=
  let metadata := object.["metadata"] in
  match nonempty_str metadata.["name"] with
  | None => Err "object has no name"
  | Some n =>
      match nonempty_str metadata.["uid"] with
      | None => Err "object has no UID"
      | Some u => Ok (mkKey (str_or "" metadata.["namespace"]) n u)
      end
  end.

(** [Key::of(object).ok()]. *)
Definition key_of (object : Value) : option Key :=
  match key_result object with Ok k => Some k | Err _ => None end.

Definition name_key (k : Key) : string * string := (key_namespace k, key_name k).

(** ** Indexes *)

Inductive Index :=
  | INamespace (ns : string)
  | IName (ns n : string)
  | IOwner (uid : string)
  | INode (node : string)
  | IClaim (ns n : string)
  | IStorageClass (n : string)
  | IVolume (n : string)
  | IDriver (n : string)
  | IPod (ns n : string)
  | ITarget (ns kind n : string)
  | IReference (ns kind n : string)
  | ILabel (k v : string)
  | ISelector (ns k v : string)
  | ISelectorFallback (ns : string).

#[global] Instance Index_eq_dec : EqDecision Index.
Proof. solve_decision. Defined.

Definition index_code (i : Index) : nat * (string * string * string) :=
  match i with
  | INamespace a => (0%nat, (a, "", "")) | IName a b => (1%nat, (a, b, "")) | IOwner a => (2%nat, (a, "", ""))
  | INode a => (3%nat, (a, "", "")) | IClaim a b => (4%nat, (a, b, "")) | IStorageClass a => (5%nat, (a, "", ""))
  | IVolume a => (6%nat, (a, "", "")) | IDriver a => (7%nat, (a, "", "")) | IPod a b => (8%nat, (a, b, ""))
  | ITarget a b c => (9%nat, (a, b, c)) | IReference a b c => (10%nat, (a, b, c)) | ILabel a b => (11%nat, (a, b, ""))
  | ISelector a b c => (12%nat, (a, b, c)) | ISelectorFallback a => (13%nat, (a, "", ""))
  end.

Definition index_decode (x : nat * (string * string * string)) : Index :=
  let '(n, (a, b, c)) := x in
  match n with
  | 0 => INamespace a | 1 => IName a b | 2 => IOwner a | 3 => INode a | 4 => IClaim a b | 5 => IStorageClass a
  | 6 => IVolume a | 7 => IDriver a | 8 => IPod a b | 9 => ITarget a b c | 10 => IReference a b c | 11 => ILabel a b
  | 12 => ISelector a b c | _ => ISelectorFallback a
  end%nat.

#[global] Program Instance Index_countable : Countable Index := inj_countable' index_code index_decode _.
Next Obligation. by intros []. Qed.

(** Normalises the selectors of Services (a bare label map) and of budgets. *)
Definition pod_selector (object : Value) : option Value :=
  let selector := object.["spec"].["selector"] in
  if negb (is_object selector) then None
  else match as_str object.["kind"] with
       | Some k =>
           if str_eqb k "Service" then Some (json_obj [("matchLabels", selector)])
           else if str_eqb k "PodDisruptionBudget" then Some selector else None
       | None => None
       end.

(** The first [In] expression that has a string key and an array of values. *)
Fixpoint in_anchors (exprs : list Value) : list (string * string) :=
  match exprs with
  | [] => []
  | e :: rest =>
      if str_is e.["operator"] "In" then
        match as_str e.["key"], as_array e.["values"] with
        | Some k, Some vs => omap (λ v, pair k <$> as_str v) vs
        | _, _ => in_anchors rest
        end
      else in_anchors rest
  end.

Definition selector_anchors (selector : Value) : list (string * string) :=
  match head (omap (λ kv : string * Value, pair kv.1 <$> as_str kv.2) (entries selector.["matchLabels"])) with
  | Some kv => [kv]
  | None => in_anchors (items selector.["matchExpressions"])
  end.

Definition opt_list {A} (o : option A) : list A := match o with Some x => [x] | None => [] end.

(** The indexes a volume of a Pod gives: its claim, and the claim an ephemeral
    volume will get. *)
Definition volume_indexes (key : Key) (volume : Value) : list Index :=
  opt_list (IClaim (key_namespace key) <$> as_str volume.["persistentVolumeClaim"].["claimName"])
  ++ (if is_null volume.["ephemeral"] then []
      else opt_list ((λ n, IClaim (key_namespace key) (key_name key ++ "-" ++ n)) <$> as_str volume.["name"])).

Definition reference_index (key : Key) (kind : string) (r : Value) : option Index :=
  (λ n, IReference (str_or (key_namespace key) r.["namespace"]) (str_or kind r.["kind"]) n) <$> as_str r.["name"].

Definition selector_indexes (object : Value) (key : Key) : list Index :=
  match pod_selector object with
  | None => []
  | Some selector =>
      match selector_anchors selector with
      | [] => [ISelectorFallback (key_namespace key)]
      | anchors => (λ kv : string * string, ISelector (key_namespace key) kv.1 kv.2) <$> anchors
      end
  end.

Definition indexes_list (object : Value) (key : Key) : list Index :=
  let spec := object.["spec"] in
  let ns := key_namespace key in
  [INamespace ns; IName ns (key_name key)]
  ++ omap (λ o, IOwner <$> as_str o.["uid"]) (items object.["metadata"].["ownerReferences"])
  ++ opt_list (INode <$> match as_str spec.["nodeName"] with Some n => Some n | None => as_str object.["status"].["nodeName"] end)
  ++ concat (volume_indexes key <$> items spec.["volumes"])
  ++ (if str_is object.["kind"] "PersistentVolume" || str_is object.["kind"] "PersistentVolumeClaim"
      then [IStorageClass (str_or "" spec.["storageClassName"])] else [])
  ++ match as_str spec.["claimRef"].["namespace"], as_str spec.["claimRef"].["name"] with
     | Some n, Some c => [IClaim n c] | _, _ => []
     end
  ++ (IVolume <$> omap as_str [spec.["volumeName"]; spec.["source"].["persistentVolumeName"]])
  ++ opt_list (IDriver <$> as_str spec.["csi"].["driver"])
  ++ opt_list (IPod ns <$> as_str spec.["podName"])
  ++ opt_list (IStorageClass <$> as_str object.["storageClassName"])
  ++ opt_list (ITarget ns (str_or "Deployment" spec.["scaleTargetRef"].["kind"]) <$> as_str spec.["scaleTargetRef"].["name"])
  ++ opt_list (IReference ns "VirtualMachineInstance" <$> as_str spec.["vmiName"])
  ++ (INode <$> omap (λ field, as_str spec.[field]) ["sourceNode"; "targetNode"])
  ++ opt_list (IReference "" "GatewayClass" <$> as_str spec.["gatewayClassName"])
  ++ omap (reference_index key "Gateway") (items spec.["parentRefs"])
  ++ concat ((λ rule, omap (reference_index key "Service") (items rule.["backendRefs"])) <$> items spec.["rules"])
  ++ omap (λ kv : string * Value, ILabel kv.1 <$> as_str kv.2) (entries object.["metadata"].["labels"])
  ++ selector_indexes object key.

Definition indexes (object : Value) (key : Key) : gset Index := list_to_set (indexes_list object key).

(** ** Deltas *)

Record Delta := mkDelta { old_obj : option Value; new_obj : option Value; affected : gset Index }.

Definition indexes_of (object : Value) : result (gset Index) string :=
  k <-? key_result object ;; Ok (indexes object k).

Definition indexes_of_opt (o : option Value) : result (gset Index) string :=
  match o with Some object => indexes_of object | None => Ok ∅ end.

Definition delta (old new : option Value) : result Delta string :=
  a <-? indexes_of_opt old ;; b <-? indexes_of_opt new ;; Ok (mkDelta old new (a ∪ b)).

Definition revision (object : Value) : option string := as_str object.["metadata"].["resourceVersion"].

(** ** The store *)

Record Store := mkStore {
  synced : bool;
  initialized : bool;
  objects : gmap Key Value;
  names : gmap (string * string) Key;
  uids : gmap string Key;
  by_index : gmap Index (gset Key);
  overlays : gmap Key Value;
  seen : list (string * string);
  history_evicted_at : option Z;
  acknowledged_at : gmap Key Z
}.

Definition default_store : Store := mkStore false false ∅ ∅ ∅ ∅ ∅ [] None ∅.

Definition set_sync (s : Store) (sync init : bool) : Store :=
  mkStore sync init (objects s) (names s) (uids s) (by_index s) (overlays s) (seen s) (history_evicted_at s) (acknowledged_at s).
Definition set_overlays (s : Store) (o : gmap Key Value) (a : gmap Key Z) : Store :=
  mkStore (synced s) (initialized s) (objects s) (names s) (uids s) (by_index s) o (seen s) (history_evicted_at s) a.
Definition set_seen (s : Store) (l : list (string * string)) (ev : option Z) : Store :=
  mkStore (synced s) (initialized s) (objects s) (names s) (uids s) (by_index s) (overlays s) l ev (acknowledged_at s).

Definition unavailable (s : Store) : Store := set_sync s false (initialized s).
Definition resumed (s : Store) : Store := set_sync s (initialized s) (initialized s).

(** A key leaves the set of an index, and an emptied set leaves the map. *)
Definition drop_index (key : Key) (m : gmap Index (gset Key)) (i : Index) : gmap Index (gset Key) :=
  match m !! i with
  | Some keys => let ks := keys ∖ {[key]} in if decide (ks = ∅) then delete i m else <[i := ks]> m
  | None => m
  end.

Definition add_index (key : Key) (m : gmap Index (gset Key)) (i : Index) : gmap Index (gset Key) :=
  <[i := {[key]} ∪ default ∅ (m !! i)]> m.

Definition remove (s : Store) (key : Key) : Store * option Value :=
  match objects s !! key with
  | None => (s, None)
  | Some old =>
      (mkStore (synced s) (initialized s) (delete key (objects s))
         (if decide (names s !! name_key key = Some key) then delete (name_key key) (names s) else names s)
         (delete (key_uid key) (uids s))
         (fold_left (drop_index key) (elements (indexes old key)) (by_index s))
         (overlays s) (seen s) (history_evicted_at s) (acknowledged_at s),
       Some old)
  end.

(** Whatever held the name leaves first; an earlier incarnation takes its
    overlay with it. *)
Definition evict_name (s : Store) (key : Key) : Store * option Value :=
  match names s !! name_key key with
  | None => (s, None)
  | Some old =>
      remove (if decide (old = key) then s
              else set_overlays s (delete old (overlays s)) (delete old (acknowledged_at s))) old
  end.

Definition insert_object (s : Store) (key : Key) (object : Value) : Store :=
  mkStore (synced s) (initialized s) (<[key := object]> (objects s)) (<[name_key key := key]> (names s))
    (<[key_uid key := key]> (uids s)) (fold_left (add_index key) (elements (indexes object key)) (by_index s))
    (overlays s) (seen s) (history_evicted_at s) (acknowledged_at s).

Definition put (s : Store) (object : Value) : Store * result Delta string :=
  match key_result object with
  | Err e => (s, Err e)
  | Ok key =>
      let '(s1, old) := evict_name s key in
      (insert_object s1 key object, delta old (Some object))
  end.

Definition HISTORY : nat := 4096.

(** [while seen.len() > 4096 { seen.pop_front(); history_evicted_at = now }]. *)
Definition bound_seen (s : Store) (now : Z) : Store :=
  if (HISTORY <? length (seen s))%nat
  then set_seen s (drop (length (seen s) - HISTORY) (seen s)) (Some now) else s.

(** ** Snapshots *)

Fixpoint load_items (r : Store) (l : list Value) : result Store string :=
  match l with
  | [] => Ok r
  | object :: rest =>
      match put r object with
      | (_, Err e) => Err e
      | (r1, Ok _) =>
          match revision object with
          | None => load_items r1 rest
          | Some rv =>
              k <-? key_result object ;;
              load_items (set_seen r1 (seen r1 ++ [(key_uid k, rv)]) (history_evicted_at r1)) rest
          end
      end
  end.

(** The writes not yet seen back are laid over the replacement. *)
Fixpoint carry_overlays (acked : gmap Key Z) (r : Store) (l : list (Key * Value)) : result Store string :=
  match l with
  | [] => Ok r
  | (key, object) :: rest =>
      if match objects r !! key with
         | Some v => bool_decide (revision v = revision object) | None => false end
      then carry_overlays acked r rest
      else match put r object with
           | (_, Err e) => Err e
           | (r1, Ok _) =>
               carry_overlays acked
                 (set_overlays r1 (<[key := object]> (overlays r1))
                    match acked !! key with Some at_ => <[key := at_]> (acknowledged_at r1) | None => acknowledged_at r1 end)
                 rest
           end
  end.

Fixpoint collect_deltas (l : list (option Value * option Value)) : result (list Delta) string :=
  match l with
  | [] => Ok []
  | (o, n) :: rest => d <-? delta o n ;; ds <-? collect_deltas rest ;; Ok (d :: ds)
  end.

(** What changed between two snapshots: an old object that is gone or differs,
    then a new key.  (The maps are iterated in an unspecified order.) *)
Definition snapshot_changes (old new : gmap Key Value) : list (option Value * option Value) :=
  omap (λ ko : Key * Value, if option_value_eqb (new !! ko.1) (Some ko.2) then None else Some (Some ko.2, new !! ko.1))
    (map_to_list old)
  ++ omap (λ kn : Key * Value, match old !! kn.1 with Some _ => None | None => Some (None, Some kn.2) end)
    (map_to_list new).

Definition reset (s : Store) (list_ : Value) (now : Z) : Store * result (list Delta) string :=
  match as_array list_.["items"] with
  | None => (s, Err "not a LIST")
  | Some l =>
      let replacement := set_seen default_store (seen s) (history_evicted_at s) in
      match
        r <-? load_items replacement l ;;
        r <-? carry_overlays (acknowledged_at s) (bound_seen r now) (map_to_list (overlays s)) ;;
        changes <-? collect_deltas (snapshot_changes (objects s) (objects r)) ;;
        Ok (r, changes)
      with
      | Err e => (s, Err e)
      | Ok (r, changes) => (set_sync r true true, Ok changes)
      end
  end.

(** [for item in items { Key::of(item)?; }]. *)
Fixpoint check_keys (l : list Value) : option string :=
  match l with
  | [] => None
  | o :: rest => match key_result o with Err e => Some e | Ok _ => check_keys rest end
  end.

Definition guarded_reset (s : Store) (list_ : Value) (forget : Store → Store) (now : Z) : Store * result (list Delta) string :=
  match as_array list_.["items"] with
  | None => (s, Err "not a LIST")
  | Some l =>
      match check_keys l with
      | Some e => (s, Err e)
      | None => reset (forget s) list_ now
      end
  end.

Definition reset_after_writes (s : Store) (list_ : Value) (now : Z) : Store * result (list Delta) string :=
  guarded_reset s list_ (λ s, set_overlays s ∅ ∅) now.

(** Whether the write of [key] was acknowledged at [started] or later. *)
Definition acked_since (s : Store) (started : Z) (key : Key) : bool :=
  match acknowledged_at s !! key with Some t => started <=? t | None => false end.

(** The overlays a LIST begun at [started] may still lack. *)
Definition retain_since (started : Z) (s : Store) : Store :=
  let kept := filter (λ ko : Key * Value, acked_since s started ko.1 = true) (overlays s) in
  set_overlays s kept (filter (λ kt : Key * Z, is_Some (kept !! kt.1)) (acknowledged_at s)).

Definition reset_started_at (s : Store) (list_ : Value) (started now : Z) : Store * result (list Delta) string :=
  guarded_reset s list_ (retain_since started) now.

(** ** Writes and events *)

Definition acknowledge_since (s : Store) (object : Value) (started now : Z) : Store * result (option Delta) string :=
  match key_result object with
  | Err e => (s, Err e)
  | Ok key =>
      match revision object with
      | None => (s, Err "write response has no revision")
      | Some rv =>
          if bool_decide ((key_uid key, rv) ∈ seen s) then (s, Ok None)
          else if match history_evicted_at s with Some t => started <=? t | None => false end
          then (set_sync s false false, Err "write observation history expired; a fresh snapshot is required")
          else
            match put s object with
            | (s1, Err e) => (s1, Err e)
            | (s1, Ok change) =>
                (set_overlays s1 (<[key := object]> (overlays s1)) (<[key := now]> (acknowledged_at s1)), Ok (Some change))
            end
      end
  end.

Definition deliver (s : Store) (kind : string) (key : Key) (object : Value) : Store * result (option Delta) string :=
  if str_eqb kind "ADDED" || str_eqb kind "MODIFIED"
  then let '(s1, r) := put s object in (s1, d <-? r ;; Ok (Some d))
  else if str_eqb kind "DELETED"
  then match remove s key with
       | (s1, None) => (s1, Ok None)
       | (s1, Some old) => (s1, d <-? delta (Some old) None ;; Ok (Some d))
       end
  else (s, Err ("invalid watch event " ++ kind)).

Definition apply (s : Store) (event : Value) (now : Z) : Store * result (option Delta) string :=
  let object := event.["object"] in
  let kind := str_or "" event.["type"] in
  if str_eqb kind "BOOKMARK" then (s, Ok None)
  else
    match key_result object with
    | Err e => (s, Err e)
    | Ok key =>
        match revision object with
        | None => (s, Err "watch has no revision")
        | Some rv =>
            let s1 := bound_seen (set_seen s (seen s ++ [(key_uid key, rv)]) (history_evicted_at s)) now in
            match overlays s1 !! key with
            | Some overlay =>
                if decide (revision overlay = Some rv)
                then deliver (set_overlays s1 (delete key (overlays s1)) (delete key (acknowledged_at s1))) kind key object
                else (s1, Ok None)
            | None => deliver s1 kind key object
            end
        end
    end.

(** ** Reading *)

Definition NOT_SYNCED : string := "informer is not synchronized".

Definition get (s : Store) (key : Key) : result (option Value) string :=
  if synced s then Ok (objects s !! key) else Err NOT_SYNCED.

Definition key_for_uid (s : Store) (uid : string) : option Key :=
  if synced s then uids s !! uid else None.

Definition select (s : Store) (i : Index) : result (list Value) string :=
  if synced s then Ok (omap (λ k, objects s !! k) (elements (default ∅ (by_index s !! i)))) else Err NOT_SYNCED.

Definition values (s : Store) : result (list Value) string :=
  if synced s then Ok (map_to_list (objects s)).*2 else Err NOT_SYNCED.

Definition keys (s : Store) : result (list Key) string :=
  if synced s then Ok (map_to_list (objects s)).*1 else Err NOT_SYNCED.

(** ** The index map *)

Definition nonempty_sets (m : gmap Index (gset Key)) : Prop := ∀ i ks, m !! i = Some ks → ks ≠ ∅.

Lemma elem_of_drop_index key m j i k :
  k ∈ default ∅ (drop_index key m j !! i) ↔ k ∈ default ∅ (m !! i) ∧ ¬ (k = key ∧ i = j).
Proof.
  unfold drop_index. destruct (decide (i = j)) as [->|Hij].
  - destruct (m !! j) as [ks|] eqn:E.
    + case_decide as H; [rewrite lookup_delete_eq|rewrite lookup_insert_eq]; simpl.
      * assert (k ∉ ks ∖ {[key]}) by (rewrite H; set_solver). set_solver.
      * set_solver.
    + rewrite E. set_solver.
  - destruct (m !! j) as [ks|]; [case_decide; [rewrite lookup_delete_ne by done|rewrite lookup_insert_ne by done]|]; naive_solver.
Qed.

Lemma drop_index_nonempty key m j : nonempty_sets m → nonempty_sets (drop_index key m j).
Proof.
  intros Hm i ks. unfold drop_index. destruct (m !! j) as [ks'|]; [|apply Hm]. case_decide.
  - rewrite lookup_delete_Some. intros [_ H']. by eapply Hm.
  - rewrite lookup_insert_Some. intros [[_ <-]|[_ H']]; [done|by eapply Hm].
Qed.

Lemma elem_of_drop_indexes key l m i k :
  k ∈ default ∅ (fold_left (drop_index key) l m !! i) ↔ k ∈ default ∅ (m !! i) ∧ ¬ (k = key ∧ i ∈ l).
Proof.
  revert m. induction l as [|j l IH]; intros m; simpl; [set_solver|].
  rewrite IH, elem_of_drop_index. set_solver.
Qed.

Lemma drop_indexes_nonempty key l m : nonempty_sets m → nonempty_sets (fold_left (drop_index key) l m).
Proof. revert m. induction l as [|j l IH]; intros m Hm; [done|]. by apply IH, drop_index_nonempty. Qed.

Lemma elem_of_add_indexes key l m i k :
  k ∈ default ∅ (fold_left (add_index key) l m !! i) ↔ k ∈ default ∅ (m !! i) ∨ (k = key ∧ i ∈ l).
Proof.
  revert m. induction l as [|j l IH]; intros m; simpl; [set_solver|]. rewrite IH. unfold add_index.
  destruct (decide (i = j)) as [->|Hij]; [rewrite lookup_insert_eq|rewrite lookup_insert_ne by done]; set_solver.
Qed.

Lemma add_indexes_nonempty key l m : nonempty_sets m → nonempty_sets (fold_left (add_index key) l m).
Proof.
  revert m. induction l as [|j l IH]; intros m Hm; [done|]. apply IH. intros i ks. unfold add_index.
  rewrite lookup_insert_Some. intros [[_ <-]|[_ H]]; [set_solver|by eapply Hm].
Qed.

(** ** The invariant *)

(** The maps describe one collection: every object is filed under its own key,
    one incarnation per name, and under exactly the indexes it carries. *)
Record core (s : Store) : Prop := {
  core_key : ∀ k o, objects s !! k = Some o → key_of o = Some k;
  core_name : ∀ nk k, names s !! nk = Some k → name_key k = nk ∧ is_Some (objects s !! k);
  core_named : ∀ k o, objects s !! k = Some o → names s !! name_key k = Some k;
  core_uid : ∀ u k, uids s !! u = Some k → key_uid k = u ∧ is_Some (objects s !! k);
  core_index : ∀ i k, k ∈ default ∅ (by_index s !! i) ↔ ∃ o, objects s !! k = Some o ∧ i ∈ indexes o k;
  core_nonempty : nonempty_sets (by_index s)
}.

(** ... and every outstanding write is what its key shows. *)
Record wf (s : Store) : Prop := {
  wf_core : core s;
  wf_overlay : ∀ k o, overlays s !! k = Some o → objects s !! k = Some o ∧ is_Some (acknowledged_at s !! k)
}.

Lemma key_result_of object k : key_result object = Ok k ↔ key_of object = Some k.
Proof. unfold key_of. destruct (key_result object); split; congruence. Qed.

Lemma core_ext s t :
  objects s = objects t → names s = names t → uids s = uids t → by_index s = by_index t → core s → core t.
Proof. intros H1 H2 H3 H4 []. constructor; rewrite <- ?H1, <- ?H2, <- ?H3, <- ?H4; done. Qed.

Lemma default_core : core default_store.
Proof.
  constructor; try (intros ??; unfold default_store; cbn; rewrite lookup_empty; done).
  intros i k. cbn. rewrite !lookup_empty. split; [set_solver|]. by intros (?&?&_).
Qed.

Lemma remove_core s key s' r : core s → remove s key = (s', r) → core s'.
Proof.
  intros C. unfold remove. destruct (objects s !! key) as [old|] eqn:E; intros [= <- <-]; [|done].
  assert (names s !! name_key key = Some key) as En by (by eapply core_named).
  rewrite decide_True by done. constructor; cbn [objects names uids by_index].
  - intros k o. rewrite lookup_delete_Some. intros [_ H]. by eapply core_key.
  - intros nk k. rewrite lookup_delete_Some. intros [Hnk H]. destruct (core_name _ C _ _ H) as [Hk Ho].
    split; [done|]. rewrite lookup_delete_ne; [done|congruence].
  - intros k o. rewrite lookup_delete_Some. intros [Hk H]. pose proof (core_named _ C _ _ H) as Hn.
    rewrite lookup_delete_ne; [done|]. intros Heq. rewrite Heq in En. congruence.
  - intros u k. rewrite lookup_delete_Some. intros [Hu H]. destruct (core_uid _ C _ _ H) as [Hk Ho].
    split; [done|]. rewrite lookup_delete_ne; [done|congruence].
  - intros i k. rewrite elem_of_drop_indexes, (core_index _ C), elem_of_elements. split.
    + intros [(o & Ho & Hi) Hn]. exists o. split; [|done]. rewrite lookup_delete_ne; [done|]. intros <-.
      apply Hn. split; [done|]. congruence.
    + intros (o & Ho & Hi). rewrite lookup_delete_Some in Ho. naive_solver.
  - apply drop_indexes_nonempty, C.
Qed.

(** The name shows at most one object. *)
Lemma name_key_inj s k k' o o' :
  core s → objects s !! k = Some o → objects s !! k' = Some o' → name_key k = name_key k' → k = k'.
Proof. intros C H H' E. pose proof (core_named _ C _ _ H). pose proof (core_named _ C _ _ H'). congruence. Qed.

Lemma evict_name_core s key s' r : core s → evict_name s key = (s', r) → core s'.
Proof.
  intros C. unfold evict_name. destruct (names s !! name_key key) as [old|]; [|by intros [= <- _]].
  apply remove_core. case_decide; [done|]. by refine (core_ext s _ _ _ _ _ C).
Qed.

(** After an eviction nothing holds the name, and nothing else has moved. *)
Lemma evict_name_objects s key s' r k :
  core s → evict_name s key = (s', r) →
  objects s' !! k = (if decide (name_key k = name_key key) then None else objects s !! k).
Proof.
  intros C. unfold evict_name. destruct (names s !! name_key key) as [old|] eqn:En.
  - destruct (core_name _ C _ _ En) as [Hnk [o Ho]]. intros Hr.
    assert (objects s' = delete old (objects s)) as ->.
    { revert Hr. unfold remove. case_decide; cbn [objects set_overlays]; rewrite Ho; by intros [= <- _]. }
    clear Hr. case_decide as H.
    + destruct (decide (k = old)) as [->|Hk]; [by rewrite lookup_delete_eq|rewrite lookup_delete_ne by done].
      destruct (objects s !! k) eqn:E; [|done]. exfalso. apply Hk. eapply name_key_inj; eauto; congruence.
    + rewrite lookup_delete_ne; [done|]. congruence.
  - intros [= <- _]. case_decide as H; [|done]. destruct (objects s !! k) eqn:E; [|done].
    pose proof (core_named _ C _ _ E). congruence.
Qed.

(** The object reported as replaced is the one the name showed. *)
Definition lookup_name (s : Store) (nk : string * string) : option Value := names s !! nk ≫= λ k, objects s !! k.

Lemma evict_name_old s key s' r : core s → evict_name s key = (s', r) → r = lookup_name s (name_key key).
Proof.
  intros C. unfold evict_name, lookup_name. destruct (names s !! name_key key) as [old|] eqn:En; [|by intros [= _ <-]].
  destruct (core_name _ C _ _ En) as [Hnk [o Ho]]. simpl. rewrite Ho. unfold remove.
  case_decide; cbn [objects set_overlays]; rewrite Ho; by intros [= _ <-].
Qed.

Lemma lookup_name_Some s nk o : core s → lookup_name s nk = Some o ↔ ∃ k, objects s !! k = Some o ∧ name_key k = nk.
Proof.
  intros C. unfold lookup_name. rewrite bind_Some. split.
  - intros (k & Hn & Ho). exists k. split; [done|]. by destruct (core_name _ C _ _ Hn).
  - intros (k & Ho & <-). exists k. split; [by eapply core_named|done].
Qed.

Lemma insert_object_core s key object :
  core s → key_of object = Some key → (∀ k, name_key k = name_key key → objects s !! k = None) →
  core (insert_object s key object).
Proof.
  intros C Hk Hfree. constructor; cbn [insert_object objects names uids by_index].
  - intros k o. rewrite lookup_insert_Some. intros [[<- <-]|[_ H]]; [done|by eapply core_key].
  - intros nk k. rewrite lookup_insert_Some. intros [[<- <-]|[_ H]].
    + split; [done|]. rewrite lookup_insert_eq. by eexists.
    + destruct (core_name _ C _ _ H) as [? Ho]. split; [done|]. rewrite lookup_insert_is_Some. by destruct (decide (key = k)); [left|right].
  - intros k o. rewrite lookup_insert_Some. intros [[<- <-]|[Hne H]]; [by rewrite lookup_insert_eq|].
    rewrite lookup_insert_ne; [by eapply core_named|]. intros E. rewrite Hfree in H by done. done.
  - intros u k. rewrite lookup_insert_Some. intros [[<- <-]|[_ H]].
    + split; [done|]. rewrite lookup_insert_eq. by eexists.
    + destruct (core_uid _ C _ _ H) as [? Ho]. split; [done|]. rewrite lookup_insert_is_Some. by destruct (decide (key = k)); [left|right].
  - intros i k. rewrite elem_of_add_indexes, (core_index _ C), elem_of_elements. split.
    + intros [(o & Ho & Hi)|[-> Hi]]; [|exists object; by rewrite lookup_insert_eq].
      exists o. rewrite lookup_insert_ne; [done|]. intros <-. rewrite Hfree in Ho by done. done.
    + intros (o & Ho & Hi). rewrite lookup_insert_Some in Ho. naive_solver.
  - apply add_indexes_nonempty, C.
Qed.

Section put_facts.
  Context (s : Store) (object : Value) (key : Key) (C : core s) (Hk : key_of object = Some key).

Lemma put_eq : put s object = (insert_object (evict_name s key).1 key object, delta (lookup_name s (name_key key)) (Some object)).
Proof.
  unfold put. apply key_result_of in Hk as ->. destruct (evict_name s key) as [s1 old] eqn:E. cbn [fst].
  by rewrite (evict_name_old _ _ _ _ C E).
Qed.

Lemma put_core : core (put s object).1.
Proof.
  rewrite put_eq. cbn [fst]. destruct (evict_name s key) as [s1 old] eqn:E. cbn [fst].
  apply insert_object_core; [by eapply evict_name_core|done|]. intros k Hn.
  by rewrite (evict_name_objects _ _ _ _ k C E), decide_True.
Qed.

Lemma put_objects k :
  objects (put s object).1 !! k =
  (if decide (k = key) then Some object else if decide (name_key k = name_key key) then None else objects s !! k).
Proof.
  rewrite put_eq. cbn [fst insert_object objects]. destruct (evict_name s key) as [s1 old] eqn:E. cbn [fst].
  case_decide as H; [subst; by rewrite lookup_insert_eq|]. rewrite lookup_insert_ne by done.
  by rewrite (evict_name_objects _ _ _ _ k C E).
Qed.

Lemma put_lookup_name nk :
  lookup_name (put s object).1 nk = (if decide (nk = name_key key) then Some object else lookup_name s nk).
Proof.
  apply option_eq. intros o. rewrite (lookup_name_Some _ _ _ put_core). setoid_rewrite put_objects.
  case_decide as Hnk.
  - split; [|intros [= <-]; exists key; by rewrite decide_True].
    intros (k & Ho & Hn). case_decide; [done|]. rewrite decide_True in Ho by congruence. done.
  - rewrite (lookup_name_Some _ _ _ C). f_equiv. intros k.
    split; intros [Ho Hn]; (split; [|done]); subst nk; repeat case_decide; congruence.
Qed.

Lemma put_overlays k :
  overlays (put s object).1 !! k =
  (if decide (k ≠ key ∧ names s !! name_key key = Some k) then None else overlays s !! k) ∧
  acknowledged_at (put s object).1 !! k =
  (if decide (k ≠ key ∧ names s !! name_key key = Some k) then None else acknowledged_at s !! k).
Proof.
  rewrite put_eq. cbn [fst insert_object overlays acknowledged_at]. unfold evict_name, remove.
  destruct (names s !! name_key key) as [old|] eqn:En; cbn [fst]; [|rewrite !decide_False by (intros [? ?]; congruence); done].
  destruct (decide (old = key)) as [->|Hne].
  - destruct (core_name _ C _ _ En) as [_ [o Ho]]. rewrite Ho. cbn [fst overlays acknowledged_at].
    rewrite !decide_False by (intros [? ?]; congruence). done.
  - destruct (core_name _ C _ _ En) as [_ [o Ho]]. cbn [objects set_overlays]. rewrite Ho. cbn [fst overlays acknowledged_at set_overlays].
    destruct (decide (k = old)) as [->|Hk'].
    + rewrite !lookup_delete_eq, !decide_True by done. done.
    + rewrite !lookup_delete_ne by done. rewrite !decide_False by (intros [? ?]; congruence). done.
Qed.

(** What is left over another key still shows. *)
Lemma put_overlay_kept k o :
  (∀ k' o', overlays s !! k' = Some o' → objects s !! k' = Some o' ∧ is_Some (acknowledged_at s !! k')) →
  overlays (put s object).1 !! k = Some o → k ≠ key →
  objects (put s object).1 !! k = Some o ∧ is_Some (acknowledged_at (put s object).1 !! k) ∧ overlays s !! k = Some o.
Proof.
  intros W Ho Hne. destruct (put_overlays k) as [E1 E2]. rewrite E1 in Ho. rewrite E2.
  case_decide as H; [done|]. destruct (W _ _ Ho) as [Hob Ha]. rewrite put_objects, decide_False by done.
  rewrite decide_False; [done|]. intros Hn. apply H. split; [done|]. rewrite <- Hn. by eapply core_named.
Qed.

Lemma put_ok : ∃ d, (put s object).2 = Ok d ∧ old_obj d = lookup_name s (name_key key) ∧ new_obj d = Some object ∧
  affected d = from_option (λ o, from_option (indexes o) ∅ (key_of o)) ∅ (lookup_name s (name_key key)) ∪ indexes object key.
Proof.
  rewrite put_eq. cbn [snd]. unfold delta, indexes_of_opt, indexes_of.
  pose proof Hk as ->%key_result_of. destruct (lookup_name s (name_key key)) as [o|] eqn:E; cbn [result_bind]; [|by eexists].
  apply lookup_name_Some in E as (k & Ho & _); [|done]. pose proof (core_key _ C _ _ Ho) as Hko.
  pose proof Hko as ->%key_result_of. cbn [result_bind]. eexists. split; [done|]. cbn. by rewrite Hko.
Qed.
End put_facts.

(** ** What the lists and the watch say *)

Inductive Op :=
  | OUnavailable
  | OResumed
  | OReset (list_ : Value) (now : Z)
  | OResetAfter (list_ : Value) (now : Z)
  | OResetStarted (list_ : Value) (started now : Z)
  | OAck (object : Value) (started now : Z)
  | OEvent (event : Value) (now : Z).

Definition step (s : Store) (op : Op) : Store :=
  match op with
  | OUnavailable => unavailable s
  | OResumed => resumed s
  | OReset l now => (reset s l now).1
  | OResetAfter l now => (reset_after_writes s l now).1
  | OResetStarted l started now => (reset_started_at s l started now).1
  | OAck o started now => (acknowledge_since s o started now).1
  | OEvent e now => (apply s e now).1
  end.

Definition run (ops : list Op) : Store := fold_left step ops default_store.

(** The abstract state: one object per name, as last reported. *)
Notation Reported := (gmap (string * string) Value).

Definition report (m : Reported) (o : Value) : Reported :=
  match key_of o with Some k => <[name_key k := o]> m | None => m end.

Definition reported_list (m : Reported) (list_ : Value) : Reported :=
  match as_array list_.["items"] with
  | Some l => match check_keys l with None => fold_left report l ∅ | Some _ => m end
  | None => m
  end.

Definition event_kind (e : Value) : string := str_or "" e.["type"].

(** The key and the revision an event is about. *)
Definition event_subject (e : Value) : option (Key * string) :=
  if str_eqb (event_kind e) "BOOKMARK" then None
  else match key_of e.["object"], revision e.["object"] with Some k, Some rv => Some (k, rv) | _, _ => None end.

Definition reported_event (m : Reported) (e : Value) : Reported :=
  match event_subject e with
  | None => m
  | Some (k, _) => if str_eqb (event_kind e) "DELETED" then delete (name_key k) m else <[name_key k := e.["object"]]> m
  end.

Definition reported (m : Reported) (op : Op) : Reported :=
  match op with
  | OReset l _ | OResetAfter l _ | OResetStarted l _ _ => reported_list m l
  | OEvent e _ => reported_event m e
  | _ => m
  end.

(** A watch as the server sends it: the four event types, and an object is
    deleted before its name is given to another. *)
Definition event_ok (m : Reported) (e : Value) : bool :=
  str_in (event_kind e) ["ADDED"; "MODIFIED"; "DELETED"; "BOOKMARK"] &&
  match event_subject e with
  | Some (k, _) =>
      if str_eqb (event_kind e) "DELETED"
      then match m !! name_key k with Some o => bool_decide (key_of o = Some k) | None => true end else true
  | None => true
  end.

Fixpoint watch_ok (m : Reported) (ops : list Op) : bool :=
  match ops with
  | [] => true
  | op :: rest => match op with OEvent e _ => event_ok m e | _ => true end && watch_ok (reported m op) rest
  end.

(** Whether an operation accounts for the write [o] of [k] acknowledged at
    [t]: its own event, or a LIST begun later. *)
Definition listed_ok (list_ : Value) : bool :=
  match as_array list_.["items"] with
  | Some l => match check_keys l with None => true | Some _ => false end
  | None => false
  end.

Definition covers (op : Op) (k : Key) (o : Value) (t : Z) : bool :=
  match op with
  | OEvent e _ => match event_subject e with Some (k', rv) => bool_decide (k' = k ∧ revision o = Some rv) | None => false end
  | OResetAfter l _ => listed_ok l
  | OResetStarted l started _ => listed_ok l && (t <? started)
  | _ => false
  end.

(** The objects an operation reports, each by its UID and revision, and when
    the operation took place. *)
Definition told (o : Value) : option (string * string) :=
  match key_of o, revision o with Some k, Some rv => Some (key_uid k, rv) | _, _ => None end.

Definition tells (op : Op) : list (string * string) :=
  match op with
  | OReset l _ | OResetAfter l _ | OResetStarted l _ _ => if listed_ok l then omap told (items l.["items"]) else []
  | OEvent e _ => match event_subject e with Some (k, rv) => [(key_uid k, rv)] | None => [] end
  | _ => []
  end.

Definition op_time (op : Op) : option Z :=
  match op with
  | OReset _ now | OResetAfter _ now | OResetStarted _ _ now | OAck _ _ now | OEvent _ now => Some now
  | _ => None
  end.

(** The clock does not run backwards. *)
Definition clock_ok (ops : list Op) : Prop := StronglySorted Z.le (omap op_time ops).

(** No operation of [pre] since [started] has reported this version of [o]. *)
Definition unreported (pre : list Op) (started : Z) (o : Value) : Prop :=
  ∀ op now x, op ∈ pre → op_time op = Some now → told o = Some x → x ∈ tells op → now < started.

(** The write [o] was acknowledged at [t], by a response to a request begun at
    [started]; nothing reported it from then to [t], and nothing after [t]
    accounts for it. *)
Definition outstanding (ops : list Op) (k : Key) (o : Value) (t : Z) : Prop :=
  ∃ pre started post, ops = (pre ++ OAck o started t :: post)%list ∧ key_of o = Some k ∧
    unreported pre started o ∧ Forall (λ op, covers op k o t = false) post.

Definition uncovered (s : Store) (nk : string * string) : Prop := ∀ k, name_key k = nk → overlays s !! k = None.

Definition shows (m : Reported) (s : Store) : Prop := ∀ nk, uncovered s nk → lookup_name s nk = m !! nk.

(** The overlays of [s], each with the time it was acknowledged, are among
    those [P] allows. *)
Definition overlays_in (P : Key → Value → Z → Prop) (s : Store) : Prop :=
  ∀ k o, overlays s !! k = Some o → ∃ t, acknowledged_at s !! k = Some t ∧ P k o t.

Record sim (h : list Op) (s : Store) (m : Reported) : Prop := {
  sim_wf : wf s;
  sim_shows : shows m s;
  sim_out : overlays_in (outstanding h) s
}.

(** ** Refinement *)

Lemma wf_overlay_in s : wf s → overlays_in (λ k o t, objects s !! k = Some o ∧ key_of o = Some k) s.
Proof.
  intros W k o Ho. destruct (wf_overlay _ W _ _ Ho) as [Hob [t Ht]]. exists t. split_and!; [done..|].
  eapply core_key; [apply W|done].
Qed.

Lemma bound_seen_same s now :
  objects (bound_seen s now) = objects s ∧ names (bound_seen s now) = names s ∧ uids (bound_seen s now) = uids s ∧
  by_index (bound_seen s now) = by_index s ∧ overlays (bound_seen s now) = overlays s ∧
  acknowledged_at (bound_seen s now) = acknowledged_at s.
Proof. unfold bound_seen. by destruct (_ <? _)%nat. Qed.

(** Everything but the synchronisation flags and the history is the same. *)
Definition same_view (s t : Store) : Prop :=
  objects s = objects t ∧ names s = names t ∧ uids s = uids t ∧ by_index s = by_index t ∧
  overlays s = overlays t ∧ acknowledged_at s = acknowledged_at t.

Lemma same_view_core s t : same_view s t → core s → core t.
Proof. intros (?&?&?&?&_) C. by eapply core_ext. Qed.

Lemma same_view_wf s t : same_view s t → wf s → wf t.
Proof.
  intros H [C O]. constructor; [by eapply same_view_core|]. destruct H as (E & _ & _ & _ & E2 & E3).
  by rewrite <- E, <- E2, <- E3.
Qed.

Lemma same_view_shows m s t : same_view s t → shows m s → shows m t.
Proof.
  intros (E1 & E2 & _ & _ & E3 & _) H nk Hn. unfold lookup_name. rewrite <- E1, <- E2. apply H.
  intros k. rewrite E3. apply Hn.
Qed.

Lemma same_view_in P s t : same_view s t → overlays_in P s → overlays_in P t.
Proof. intros (_ & _ & _ & _ & E1 & E2) H k o. rewrite <- E1, <- E2. apply H. Qed.

Lemma same_view_sim h s t m : same_view s t → sim h s m → sim h t m.
Proof.
  intros E [W S O]. constructor; [by eapply same_view_wf|by eapply same_view_shows|by eapply same_view_in].
Qed.

Lemma overlays_in_mono (P Q : Key → Value → Z → Prop) s :
  (∀ k o t, overlays s !! k = Some o → acknowledged_at s !! k = Some t → P k o t → Q k o t) →
  overlays_in P s → overlays_in Q s.
Proof. intros H O k o Ho. destruct (O k o Ho) as (t & Ht & HP). exists t. eauto. Qed.

Lemma outstanding_snoc h op k o t : covers op k o t = false → outstanding h k o t → outstanding (h ++ [op])%list k o t.
Proof.
  intros Hc (pre & started & post & -> & Hk & Hu & HF). exists pre, started, (post ++ [op])%list.
  rewrite <- app_assoc. split_and!; [done..|]. apply Forall_app. by repeat constructor.
Qed.

Lemma outstanding_key h k o t : outstanding h k o t → key_of o = Some k.
Proof. by intros (?&?&?&_&?&_). Qed.

(** A name other than the one written shows what it did. *)
Lemma put_shows_at (f : string * string → option Value) s object key nk :
  core s → key_of object = Some key → (∀ nk, nk ≠ name_key key → uncovered s nk → lookup_name s nk = f nk) →
  nk ≠ name_key key → uncovered (put s object).1 nk → lookup_name (put s object).1 nk = f nk.
Proof.
  intros C Hk H Hne Hn. rewrite (put_lookup_name s object key C Hk), decide_False by done. apply H; [done|].
  intros k Hkn. specialize (Hn k Hkn). destruct (put_overlays s object key C Hk k) as [E _]. rewrite E in Hn.
  case_decide as Hd; [|done]. destruct Hd as [_ Hd]. destruct (core_name _ C _ _ Hd). congruence.
Qed.

(** A write laid over the store: it shows, and the rest is as it was. *)
Definition lay (s : Store) (key : Key) (object : Value) (t : Z) : Store :=
  let s1 := (put s object).1 in set_overlays s1 (<[key := object]> (overlays s1)) (<[key := t]> (acknowledged_at s1)).

Lemma lay_shows m s key object t : core s → key_of object = Some key → shows m s → shows m (lay s key object t).
Proof.
  intros C Hk H nk Hn. assert (nk ≠ name_key key) as Hne.
  { intros ->. specialize (Hn key eq_refl). cbn in Hn. by rewrite lookup_insert_eq in Hn. }
  apply (put_shows_at (λ nk, m !! nk) s object key); [done|done|intros ? _; apply H|done|]. intros k Hkn. specialize (Hn k Hkn). cbn in Hn.
  rewrite lookup_insert_ne in Hn; [done|]. intros <-. congruence.
Qed.

Lemma lay_wf s key object t : wf s → key_of object = Some key → wf (lay s key object t).
Proof.
  intros [C O] Hk. constructor.
  - eapply core_ext; [..|apply (put_core s object key C Hk)]; done.
  - intros k o. cbn. rewrite !lookup_insert_Some. intros [[<- <-]|[Hne Ho]].
    + rewrite lookup_insert_eq, (put_objects s object key C Hk), decide_True by done. by split.
    + rewrite lookup_insert_ne by done. destruct (put_overlay_kept s object key C Hk k o O Ho) as (? & ? & _); [congruence|].
      done.
Qed.

Lemma lay_in (P : Key → Value → Z → Prop) s key object t :
  core s → key_of object = Some key → P key object t → overlays_in P s → overlays_in P (lay s key object t).
Proof.
  intros C Hk HP O k o. cbn. rewrite lookup_insert_Some. intros [[<- <-]|[Hne Ho]].
  - exists t. by rewrite lookup_insert_eq.
  - rewrite lookup_insert_ne by done. destruct (put_overlays s object key C Hk k) as [E1 E2].
    rewrite E1 in Ho. rewrite E2. case_decide; [done|]. by apply O.
Qed.

Lemma put_ok_pair s object key : core s → key_of object = Some key → ∃ d, put s object = ((put s object).1, Ok d).
Proof.
  intros C Hk. destruct (put_ok s object key C Hk) as (d & Hd & _). exists d. rewrite <- Hd. by destruct (put s object).
Qed.

(** A LIST loads into an empty replacement exactly when every item has a key. *)
Lemma load_items_spec l : ∀ r m,
  core r → overlays r = ∅ → (∀ nk, lookup_name r nk = m !! nk) →
  match check_keys l with
  | None => ∃ r', load_items r l = Ok r' ∧ core r' ∧ overlays r' = ∅ ∧ ∀ nk, lookup_name r' nk = fold_left report l m !! nk
  | Some e => load_items r l = Err e
  end.
Proof.
  induction l as [|o l IH]; intros r m C He Hm; simpl; [by eexists|].
  destruct (key_result o) as [k|e] eqn:Ek; [|unfold put; by rewrite Ek].
  pose proof Ek as Hk%key_result_of. destruct (put_ok_pair r o k C Hk) as [d Hd]. rewrite Hd.
  assert (overlays (put r o).1 = ∅) as He'.
  { apply map_eq. intros k'. destruct (put_overlays r o k C Hk k') as [-> _]. rewrite He, lookup_empty. by case_decide. }
  assert (∀ nk, lookup_name (put r o).1 nk = report m o !! nk) as Hm'.
  { intros nk. rewrite (put_lookup_name r o k C Hk). unfold report. rewrite Hk.
    case_decide as H; [subst; by rewrite lookup_insert_eq|by rewrite lookup_insert_ne]. }
  pose proof (put_core r o k C Hk) as C'. destruct (revision o) as [rv|]; cbn [result_bind]; [|by apply IH].
  apply IH; [by eapply core_ext; [..|exact C']|done|done].
Qed.

(** Laying the outstanding writes over the replacement drops those the LIST
    already has and loses no other. *)
Lemma carry_overlays_spec (P : Key → Value → Z → Prop) m acked l : ∀ r,
  wf r → shows m r → overlays_in P r →
  Forall (λ ko, key_of ko.2 = Some ko.1 ∧ ∃ t, acked !! ko.1 = Some t ∧ P ko.1 ko.2 t) l →
  ∃ r', carry_overlays acked r l = Ok r' ∧ wf r' ∧ shows m r' ∧ overlays_in P r'.
Proof.
  induction l as [|[k o] l IH]; intros r W S O HF; simpl; [by eexists|].
  inversion HF as [|? ? (Hk & t & Ht & HP) HF']; subst. cbn in Hk, Ht, HP.
  destruct (match objects r !! k with Some v => _ | None => _ end); [by apply IH|].
  destruct (put_ok_pair r o k (wf_core _ W) Hk) as [d Hd]. rewrite Hd, Ht. apply IH; [..|done].
  - by apply (lay_wf r k o t).
  - apply (lay_shows m r k o t); [apply W|done..].
  - apply (lay_in P r k o t); [apply W|done..].
Qed.

Lemma delta_ok old new :
  (∀ o, old = Some o → is_Some (key_of o)) → (∀ o, new = Some o → is_Some (key_of o)) → ∃ d, delta old new = Ok d.
Proof.
  intros Ho Hn. unfold delta, indexes_of_opt, indexes_of.
  destruct old as [o|]; [destruct (Ho o eq_refl) as [k ->%key_result_of]|];
    (destruct new as [n|]; [destruct (Hn n eq_refl) as [k' ->%key_result_of]|]); cbn; by eexists.
Qed.

Lemma collect_deltas_ok l :
  Forall (λ p : option Value * option Value, ∃ d, delta p.1 p.2 = Ok d) l → ∃ ds, collect_deltas l = Ok ds.
Proof. induction 1 as [|[o n] l [d Hd] _ [ds IH]]; simpl in *; [by eexists|]. rewrite Hd, IH. by eexists. Qed.

Lemma snapshot_changes_ok s r : core s → core r → ∃ ds, collect_deltas (snapshot_changes (objects s) (objects r)) = Ok ds.
Proof.
  intros Cs Cr. apply collect_deltas_ok, Forall_forall. intros p Hp.
  assert (∀ (t : Store) k o, core t → objects t !! k = Some o → is_Some (key_of o)) as Hkey
    by (intros t k o C H; eexists; by eapply core_key).
  unfold snapshot_changes in Hp. apply elem_of_app in Hp as [Hp|Hp]; apply list_elem_of_omap in Hp as ([k o] & Hin & Hf);
    apply elem_of_map_to_list in Hin; cbn in Hf.
  - destruct (option_value_eqb _ _); [done|]. injection Hf as <-. apply delta_ok; cbn; intros ? H.
    + injection H as <-. by eapply (Hkey s).
    + by eapply (Hkey r).
  - destruct (objects s !! k); [done|]. injection Hf as <-. apply delta_ok; cbn; intros ? H; [done|].
    injection H as <-. by eapply (Hkey r).
Qed.

Lemma reset_sim (P : Key → Value → Z → Prop) s list_ now m :
  wf s → (listed_ok list_ = true ∨ shows m s) → overlays_in P s →
  wf (reset s list_ now).1 ∧ shows (reported_list m list_) (reset s list_ now).1 ∧ overlays_in P (reset s list_ now).1.
Proof.
  intros W S O. unfold reset, reported_list, listed_ok in *. destruct (as_array list_.["items"]) as [l|]; [|by destruct S].
  pose proof (load_items_spec l (set_seen default_store (seen s) (history_evicted_at s)) ∅) as HL.
  destruct (check_keys l) as [e|] eqn:Ec.
  { rewrite HL; [by destruct S| |done|done]. eapply core_ext; [..|apply default_core]; done. }
  destruct HL as (r & -> & C & He & Hm); [eapply core_ext; [..|apply default_core]; done|done|done|]. cbn [result_bind].
  assert (same_view r (bound_seen r now)) as Hsv by (unfold same_view; destruct (bound_seen_same r now); intuition congruence).
  edestruct (carry_overlays_spec P (fold_left report l ∅) (acknowledged_at s) (map_to_list (overlays s)) (bound_seen r now))
    as (r' & -> & W' & S' & O').
  - eapply same_view_wf; [done|]. constructor; [done|]. intros k o. by rewrite He, lookup_empty.
  - eapply same_view_shows; [done|]. intros nk _. apply Hm.
  - eapply same_view_in; [done|]. intros k o. by rewrite He, lookup_empty.
  - apply Forall_forall. intros [k o] Hin%elem_of_map_to_list. cbn. destruct (O k o Hin) as (t & Ht & HP).
    destruct (wf_overlay_in s W k o Hin) as (_ & _ & _ & Hk). eauto.
  - cbn [result_bind]. destruct (snapshot_changes_ok s r' (wf_core _ W) (wf_core _ W')) as [ds ->]. cbn [result_bind fst].
    assert (same_view r' (set_sync r' true true)) as Hs by done.
    split_and!; [by eapply same_view_wf|by eapply same_view_shows|by eapply same_view_in].
Qed.

Lemma guarded_reset_sim (P : Key → Value → Z → Prop) s list_ forget now m :
  wf s → shows m s → wf (forget s) →
  (listed_ok list_ = true → overlays_in P (forget s)) → (listed_ok list_ = false → overlays_in P s) →
  wf (guarded_reset s list_ forget now).1 ∧ shows (reported_list m list_) (guarded_reset s list_ forget now).1
  ∧ overlays_in P (guarded_reset s list_ forget now).1.
Proof.
  intros W S Wf O1 O2. pose proof (reset_sim P (forget s) list_ now m Wf) as HR. revert HR O1 O2.
  unfold guarded_reset, reported_list, listed_ok. destruct (as_array list_.["items"]) as [l|]; [|naive_solver].
  destruct (check_keys l) as [e|]; naive_solver.
Qed.

Lemma forget_all_wf s : wf s → wf (set_overlays s ∅ ∅).
Proof. intros [C O]. constructor; [by refine (core_ext s _ _ _ _ _ C)|]. intros k o. cbn. by rewrite lookup_empty. Qed.

Lemma retain_since_wf started s : wf s → wf (retain_since started s).
Proof.
  intros [C O]. constructor; [by refine (core_ext s _ _ _ _ _ C)|]. intros k o Ho.
  unfold retain_since in *. cbn in *. pose proof Ho as [H Hs]%map_lookup_filter_Some.
  destruct (O _ _ H) as [Hob [t Ht]]. split; [done|]. exists t. apply map_lookup_filter_Some. split; [done|]. cbn. by eexists.
Qed.

Lemma retain_since_in (P : Key → Value → Z → Prop) started s :
  overlays_in P s → overlays_in (λ k o t, P k o t ∧ started ≤ t) (retain_since started s).
Proof.
  intros O k o Ho. unfold retain_since in *. cbn in *. pose proof Ho as [H Hs]%map_lookup_filter_Some.
  destruct (O _ _ H) as (t & Ht & HP). cbn in Hs. unfold acked_since in Hs. rewrite Ht in Hs. exists t.
  split; [|split; [done|lia]]. apply map_lookup_filter_Some. split; [done|]. cbn. by eexists.
Qed.

(** *** The history of what was reported

    A version that was reported is in [seen], or fell out of it at a time
    [history_evicted_at] remembers. *)
Definition remembers (s : Store) (x : string * string) (now : Z) : Prop :=
  x ∈ seen s ∨ ∃ e, history_evicted_at s = Some e ∧ now ≤ e.

Definition same_history (s t : Store) : Prop := seen s = seen t ∧ history_evicted_at s = history_evicted_at t.

Definition history_ok (h : list Op) (s : Store) : Prop :=
  ∀ op now x, op ∈ h → op_time op = Some now → x ∈ tells op → remembers s x now.

Lemma bound_remembers s x t now : remembers s x t → t ≤ now → remembers (bound_seen s now) x t.
Proof.
  intros H Ht. unfold bound_seen. destruct (_ <? _)%nat; [|done]. right. exists now. by split.
Qed.

Lemma remove_history s key : same_history s (remove s key).1.
Proof. unfold remove. by destruct (objects s !! key). Qed.

Lemma put_history s object : same_history s (put s object).1.
Proof.
  unfold put, evict_name. destruct (key_result object) as [key|]; [|done].
  destruct (names s !! name_key key) as [old|]; [|done].
  set (s0 := if decide _ then _ else _). pose proof (remove_history s0 old) as [E1 E2].
  destruct (remove s0 old) as [s1 o]. unfold same_history in *. cbn in *. rewrite <- E1, <- E2. subst s0. by case_decide.
Qed.

Lemma deliver_history s kind key object : same_history s (deliver s kind key object).1.
Proof.
  unfold deliver. destruct (_ || _); [|destruct (str_eqb _ _); [|done]].
  - pose proof (put_history s object). by destruct (put s object).
  - pose proof (remove_history s key). by destruct (remove s key) as [? []].
Qed.

Lemma same_history_trans s t u : same_history s t → same_history u s → same_history u t.
Proof. intros [E1 E2] [E3 E4]. split; congruence. Qed.

Lemma load_items_history l : ∀ r r',
  load_items r l = Ok r' → seen r' = (seen r ++ omap told l)%list ∧ history_evicted_at r' = history_evicted_at r.
Proof.
  induction l as [|o l IH]; intros r r'; simpl; [intros [= <-]; by rewrite app_nil_r|].
  pose proof (put_history r o) as [E1 E2]. destruct (put r o) as [r1 [d|]]; [|done]. cbn in E1, E2.
  unfold told at 1, key_of. destruct (revision o) as [rv|].
  - destruct (key_result o) as [k|]; [|done]. cbn [result_bind]. intros [-> ->]%IH. cbn.
    by rewrite E1, E2, <- app_assoc.
  - intros [-> ->]%IH. rewrite E1, E2. by destruct (key_result o).
Qed.

Lemma carry_overlays_history acked l : ∀ r r', carry_overlays acked r l = Ok r' → same_history r r'.
Proof.
  induction l as [|[k o] l IH]; intros r r'; simpl; [by intros [= <-]|].
  destruct (match objects r !! k with Some _ => _ | None => _ end); [apply IH|].
  pose proof (put_history r o) as [E1 E2]. destruct (put r o) as [r1 [d|]]; [|done]. intros [E3 E4]%IH.
  cbn in *. split; congruence.
Qed.

Lemma reset_remembers s list_ now x t :
  remembers s x t → t ≤ now → remembers (reset s list_ now).1 x t.
Proof.
  intros H Ht. unfold reset. destruct (as_array _) as [l|]; [|done].
  destruct (load_items _ l) as [r|] eqn:El; [|done]. apply load_items_history in El as [E1 E2]. cbn [result_bind].
  destruct (carry_overlays _ _ _) as [r'|] eqn:Ec; [|done]. apply carry_overlays_history in Ec as [E3 E4]. cbn [result_bind].
  destruct (collect_deltas _); [|done]. cbn [result_bind fst].
  assert (remembers (bound_seen r now) x t) as [H'|H'].
  { apply bound_remembers; [|done]. destruct H as [H|H]; [left; rewrite E1; set_solver|right; by rewrite E2]. }
  - left. cbn. by rewrite <- E3.
  - right. cbn. by rewrite <- E4.
Qed.

Lemma reset_told s list_ now x :
  wf s → listed_ok list_ = true → x ∈ omap told (items list_.["items"]) → remembers (reset s list_ now).1 x now.
Proof.
  intros W Hl Hx. unfold reset, listed_ok, items in *. destruct (as_array _) as [l|]; [|done].
  destruct (check_keys l) as [|] eqn:Ek; [done|].
  pose proof (load_items_spec l (set_seen default_store (seen s) (history_evicted_at s)) ∅) as HL. rewrite Ek in HL.
  destruct HL as (r & El & C & He & Hm); [eapply core_ext; [..|apply default_core]; done|done|done|]. rewrite El. cbn [result_bind].
  apply load_items_history in El as [E1 E2].
  assert (same_view r (bound_seen r now)) as Hsv by (unfold same_view; destruct (bound_seen_same r now); intuition congruence).
  edestruct (carry_overlays_spec (λ _ _ _, True) (fold_left report l ∅) (acknowledged_at s) (map_to_list (overlays s)) (bound_seen r now))
    as (r' & Ec & W' & _).
  - eapply same_view_wf; [done|]. constructor; [done|]. intros k o. by rewrite He, lookup_empty.
  - eapply same_view_shows; [done|]. intros nk _. apply Hm.
  - eapply same_view_in; [done|]. intros k o. by rewrite He, lookup_empty.
  - apply Forall_forall. intros [k o] Hin%elem_of_map_to_list. cbn.
    destruct (wf_overlay_in s W k o Hin) as (t & Ht & _ & Hk). eauto.
  - rewrite Ec. cbn [result_bind]. destruct (snapshot_changes_ok s r' (wf_core _ W) (wf_core _ W')) as [ds ->].
    cbn [result_bind fst]. apply carry_overlays_history in Ec as [E3 E4].
    destruct (bound_remembers r x now now) as [H|H]; [left; rewrite E1; set_solver|lia|left|right]; cbn.
    + by rewrite <- E3.
    + by rewrite <- E4.
Qed.

(** A guarded reset is a reset of a store with fewer overlays, or nothing. *)
Lemma guarded_reset_cases s list_ forget now :
  (listed_ok list_ = true ∧ (guarded_reset s list_ forget now).1 = (reset (forget s) list_ now).1) ∨
  (listed_ok list_ = false ∧ (guarded_reset s list_ forget now).1 = s).
Proof. unfold guarded_reset, listed_ok. destruct (as_array _) as [l|]; [|by right]. destruct (check_keys l); [by right|by left]. Qed.

Lemma guarded_reset_history s list_ forget now :
  wf (forget s) → same_history s (forget s) →
  (∀ x t, remembers s x t → t ≤ now → remembers (guarded_reset s list_ forget now).1 x t) ∧
  (∀ x, listed_ok list_ = true → x ∈ omap told (items list_.["items"]) → remembers (guarded_reset s list_ forget now).1 x now).
Proof.
  intros W [E1 E2]. destruct (guarded_reset_cases s list_ forget now) as [[El ->]|[El ->]]; [|by rewrite El]. split.
  - intros x t H Ht. apply reset_remembers; [|done]. unfold remembers in *. by rewrite <- E1, <- E2.
  - intros x _ Hx. by apply reset_told.
Qed.

Lemma step_remembers s op :
  wf s → (∀ x t, remembers s x t → (∀ now, op_time op = Some now → t ≤ now) → remembers (step s op) x t) ∧
  (∀ x now, op_time op = Some now → x ∈ tells op → remembers (step s op) x now).
Proof.
  intros W. destruct op as [| |l now|l now|l started now|o started now|e now]; cbn [step op_time tells].
  - done.
  - done.
  - split; [intros x t H Ht; apply reset_remembers; [done|by apply Ht]|]. intros x ? [= <-].
    destruct (listed_ok l) eqn:El; [|by intros ?%elem_of_nil]. by apply reset_told.
  - destruct (guarded_reset_history s l (λ s, set_overlays s ∅ ∅) now) as [H1 H2]; [by apply forget_all_wf|done|].
    split; [intros x t H Ht; apply H1; [done|by apply Ht]|]. intros x ? [= <-].
    destruct (listed_ok l) eqn:El; [|by intros ?%elem_of_nil]. by apply H2.
  - destruct (guarded_reset_history s l (retain_since started) now) as [H1 H2]; [by apply retain_since_wf|done|].
    split; [intros x t H Ht; apply H1; [done|by apply Ht]|]. intros x ? [= <-].
    destruct (listed_ok l) eqn:El; [|by intros ?%elem_of_nil]. by apply H2.
  - split; [|by intros ? ? _ ?%elem_of_nil]. intros x t H _. unfold acknowledge_since.
    destruct (key_result o) as [key|]; [|done]. destruct (revision o); [|done]. case_bool_decide; [done|].
    destruct (match history_evicted_at s with Some _ => _ | None => _ end); [done|].
    pose proof (put_history s o) as [E1 E2]. destruct (put s o) as [s1 [d|]]; cbn in *; unfold remembers in *; cbn; by rewrite <- E1, <- E2.
  - unfold apply, event_subject. fold (event_kind e). destruct (str_eqb _ _); [split; [done|by intros ? ? _ ?%elem_of_nil]|].
    unfold key_of. destruct (key_result _) as [key|]; [|split; [done|by intros ? ? _ ?%elem_of_nil]].
    destruct (revision _) as [rv|]; [|split; [done|by intros ? ? _ ?%elem_of_nil]].
    set (s0 := set_seen _ _ _). set (s1 := bound_seen s0 now).
    set (a := match overlays s1 !! key with Some _ => _ | None => _ end).
    assert (same_history s1 a.1) as [E1 E2].
    { subst a. destruct (overlays s1 !! key); [case_decide; [|done]|by apply deliver_history].
      eapply same_history_trans; [apply deliver_history|done]. }
    unfold remembers. rewrite <- E1, <- E2. split.
    + intros x t H Ht. apply bound_remembers; [|by apply Ht]. destruct H as [H|H]; [left; cbn; set_solver|by right].
    + intros x ? [= <-] ->%list_elem_of_singleton. apply bound_remembers; [|lia]. left. cbn. set_solver.
Qed.

Lemma step_history h s op :
  wf s → history_ok h s → (∀ op' t now, op' ∈ h → op_time op' = Some t → op_time op = Some now → t ≤ now) →
  history_ok (h ++ [op])%list (step s op).
Proof.
  intros W H Ht op' t x [Hin| ->%list_elem_of_singleton]%elem_of_app E Hx; [|by apply (proj2 (step_remembers s op W))].
  apply (proj1 (step_remembers s op W)); [by eapply H|]. intros now. by eapply Ht.
Qed.

Lemma clock_ok_snoc h op ops op' t now :
  clock_ok (h ++ op :: ops)%list → op' ∈ h → op_time op' = Some t → op_time op = Some now → t ≤ now.
Proof.
  unfold clock_ok. rewrite omap_app. simpl. intros H Hin E1 E2. rewrite E2 in H.
  apply (StronglySorted_app_1_elem_of Z.le _ _ _ _ H).
  - apply list_elem_of_omap. eauto.
  - left.
Qed.

Lemma ack_sim h s m object started now :
  sim h s m → history_ok h s → sim (h ++ [OAck object started now])%list (acknowledge_since s object started now).1 m.
Proof.
  intros [W S O] Hh. set (op := OAck object started now).
  assert (overlays_in (outstanding (h ++ [op])%list) s) as O'.
  { eapply overlays_in_mono; [|exact O]. intros k o t _ _. by apply outstanding_snoc. }
  assert (sim (h ++ [op])%list s m) as Hsame by done.
  unfold acknowledge_since. destruct (key_result object) as [key|] eqn:Ek; [|done]. apply key_result_of in Ek.
  destruct (revision object) as [rv|] eqn:Er; [|done]. case_bool_decide as Hseen; [done|].
  destruct (match history_evicted_at s with Some t => _ | None => _ end) eqn:Eev; [by apply (same_view_sim _ s)|].
  destruct (put_ok_pair s object key (wf_core _ W) Ek) as [d ->]. cbn [fst]. constructor.
  - by apply (lay_wf s key object now).
  - apply (lay_shows m s key object now); [apply W|done..].
  - apply (lay_in _ s key object now); [apply W|done| |done].
    exists h, started, []. split_and!; [done..| |done]. intros op' t x Hin Ht Hx Hto. unfold told in Hx. rewrite Ek, Er in Hx.
    injection Hx as <-. destruct (Hh _ _ _ Hin Ht Hto) as [?|(e & He & Hle)]; [done|]. rewrite He in Eev. lia.
Qed.

(** *** Events *)

Lemma remove_fields s key :
  objects (remove s key).1 = delete key (objects s) ∧ overlays (remove s key).1 = overlays s ∧
  acknowledged_at (remove s key).1 = acknowledged_at s.
Proof. unfold remove. destruct (objects s !! key) eqn:E; [done|]. cbn. by rewrite delete_id. Qed.

Lemma remove_lookup_name s key nk :
  core s → lookup_name (remove s key).1 nk =
  (if decide (nk = name_key key ∧ is_Some (objects s !! key)) then None else lookup_name s nk).
Proof.
  intros C. assert (core (remove s key).1) as C' by (eapply remove_core; [exact C|apply surjective_pairing]).
  apply option_eq. intros o. rewrite (lookup_name_Some _ _ _ C'). destruct (remove_fields s key) as [-> _].
  setoid_rewrite lookup_delete_Some. case_decide as H.
  - split; [|done]. intros (k & [Hk Ho] & Hn). destruct H as [-> [o' Ho']]. exfalso. apply Hk.
    exact (name_key_inj _ _ _ _ _ C Ho' Ho (eq_sym Hn)).
  - rewrite (lookup_name_Some _ _ _ C). split; [naive_solver|]. intros (k & Ho & Hn). exists k. split_and!; [|done..].
    intros <-. apply H. split; [done|by eexists].
Qed.

Lemma deliver_wf s kind key object :
  wf s → overlays s !! key = None → key_of object = Some key → wf (deliver s kind key object).1.
Proof.
  intros [C OV] Hno Hk. unfold deliver. destruct (_ || _); [|destruct (str_eqb _ _); [|done]].
  - destruct (put_ok_pair s object key C Hk) as [d Hd]. rewrite Hd. cbn [fst].
    constructor; [by eapply put_core|]. intros k o Ho. destruct (decide (k = key)) as [->|Hne].
    + destruct (put_overlays s object key C Hk key) as [E _]. rewrite E, Hno in Ho. by case_decide.
    + by destruct (put_overlay_kept s object key C Hk k o OV Ho Hne) as (? & ? & _).
  - destruct (remove_fields s key) as (Eo & Ev & Ea).
    replace (match remove s key with (s1, None) => (s1, Ok None) | (s1, Some old) => _ end).1 with (remove s key).1
      by (destruct (remove s key) as [? []]; done).
    constructor; [eapply remove_core; [exact C|apply surjective_pairing]|]. rewrite Eo, Ev, Ea. intros k o Ho.
    destruct (OV _ _ Ho). rewrite lookup_delete_ne; [done|]. congruence.
Qed.

(** An event that is let through, on a store where its key has no overlay. *)
Lemma deliver_sim h s m kind key object :
  wf s → (∀ nk, nk ≠ name_key key → uncovered s nk → lookup_name s nk = m !! nk) → overlays_in (outstanding h) s →
  overlays s !! key = None → key_of object = Some key →
  str_in kind ["ADDED"; "MODIFIED"; "DELETED"] = true →
  (kind = "DELETED" → ∀ o, lookup_name s (name_key key) = Some o → uncovered s (name_key key) → key_of o = Some key) →
  sim h (deliver s kind key object).1 (if str_eqb kind "DELETED" then delete (name_key key) m else <[name_key key := object]> m).
Proof.
  intros W S O Hno Hk Hkind Hdel. pose proof (deliver_wf s kind key object W Hno Hk) as W'. destruct W as [C OV].
  constructor; [done|..]; clear W'; revert Hkind Hdel; unfold deliver, str_in; cbn [existsb]; intros Hkind Hdel;
    rewrite !orb_false_r in Hkind; destruct (str_eqb kind "DELETED") eqn:ED.
  1,3: apply str_eqb_eq in ED; subst kind; cbn; destruct (remove_fields s key) as (Eo & Ev & Ea);
    replace (match remove s key with (s1, None) => (s1, Ok None) | (s1, Some old) => _ end).1 with (remove s key).1
      by (destruct (remove s key) as [? []]; done).
  3,4: rewrite orb_false_r in Hkind; rewrite Hkind; destruct (put_ok_pair s object key C Hk) as [d Hd]; rewrite Hd; cbn [fst].
  - intros nk Hn. unfold uncovered in Hn. rewrite Ev in Hn. rewrite (remove_lookup_name s key nk C).
    destruct (decide (nk = name_key key)) as [->|Hne].
    + rewrite lookup_delete_eq. case_decide as Hd; [done|]. destruct (lookup_name s (name_key key)) as [o|] eqn:E; [|done].
      exfalso. specialize (Hdel eq_refl o eq_refl Hn). apply lookup_name_Some in E as (k & Ho & _); [|done].
      pose proof (core_key _ C _ _ Ho). assert (k = key) as -> by congruence. apply Hd. split; [done|by eexists].
    + rewrite lookup_delete_ne by done. rewrite decide_False by tauto. by apply S.
  - intros k o. rewrite Ev, Ea. apply O.
  - intros nk Hn. destruct (decide (nk = name_key key)) as [->|Hne].
    + rewrite lookup_insert_eq, (put_lookup_name s object key C Hk), decide_True; done.
    + rewrite lookup_insert_ne by done. by apply (put_shows_at (λ nk, m !! nk) s object key).
  - intros k o Ho. destruct (put_overlays s object key C Hk k) as [E1 E2]. rewrite E1 in Ho. rewrite E2.
    case_decide; [done|]. by apply O.
Qed.

Lemma outstanding_event h e now s :
  overlays_in (outstanding h) s →
  (∀ k o rv, overlays s !! k = Some o → event_subject e = Some (k, rv) → revision o ≠ Some rv) →
  overlays_in (outstanding (h ++ [OEvent e now])%list) s.
Proof.
  intros O H. eapply overlays_in_mono; [|exact O]. intros k o t Ho _. apply outstanding_snoc. cbn.
  destruct (event_subject e) as [[k' rv]|] eqn:E; [|done]. apply bool_decide_eq_false_2. intros [-> Hr]. by eapply H.
Qed.

Lemma event_ok_kind m e :
  event_ok m e = true → str_eqb (event_kind e) "BOOKMARK" = false →
  str_in (event_kind e) ["ADDED"; "MODIFIED"; "DELETED"] = true.
Proof. unfold event_ok, str_in. cbn. intros [H _]%andb_prop HB. rewrite HB in H. by rewrite !orb_false_r in *. Qed.

Lemma event_sim h s m e now :
  sim h s m → event_ok m e = true → sim (h ++ [OEvent e now])%list (apply s e now).1 (reported_event m e).
Proof.
  intros [W S O] Hok. unfold apply. fold (event_kind e).
  pose proof (event_ok_kind m e Hok) as Hkind. pose proof (outstanding_event h e now) as HO.
  assert (event_subject e = None → sim (h ++ [OEvent e now])%list s (reported_event m e)) as Hnone.
  { intros E. unfold reported_event. rewrite E. constructor; [done..|]. apply HO; [done|]. intros ???. by rewrite E. }
  unfold event_subject in Hnone. destruct (str_eqb (event_kind e) "BOOKMARK") eqn:EB; [by apply Hnone|].
  unfold key_of in Hnone. destruct (key_result e.["object"]) as [key|] eqn:Ek; [|by apply Hnone].
  apply key_result_of in Ek. destruct (revision e.["object"]) as [rv|] eqn:Er; [|by apply Hnone]. clear Hnone.
  assert (event_subject e = Some (key, rv)) as Es by (unfold event_subject; by rewrite EB, Ek, Er).
  unfold reported_event. rewrite Es. set (s1 := bound_seen _ now).
  assert (same_view s s1) as Hsv.
  { subst s1. unfold same_view. destruct (bound_seen_same (set_seen s (seen s ++ [(key_uid key, rv)])%list (history_evicted_at s)) now)
      as (-> & -> & -> & -> & -> & ->). done. }
  apply (same_view_wf _ _ Hsv) in W. apply (same_view_shows _ _ _ Hsv) in S. apply (same_view_in _ _ _ Hsv) in O.
  clearbody s1. clear Hsv s. rename s1 into s. destruct (overlays s !! key) as [ov|] eqn:Eo; [case_decide as Hrv|].
  - set (s2 := set_overlays s _ _).
    assert (∀ nk, nk ≠ name_key key → uncovered s2 nk → uncovered s nk) as Hun.
    { intros nk Hne Hn k Hkn. specialize (Hn k Hkn). cbn in Hn. rewrite lookup_delete_ne in Hn; [done|]. congruence. }
    apply deliver_sim; [| | |by apply lookup_delete_eq|done|by apply Hkind|].
    + destruct W as [C OV]. constructor; [by refine (core_ext s _ _ _ _ _ C)|]. intros k o. cbn.
      rewrite lookup_delete_Some. intros [Hne Ho]. rewrite lookup_delete_ne by done. by apply OV.
    + intros nk Hne Hn. apply S. by apply Hun.
    + apply HO.
      * intros k o. cbn. rewrite lookup_delete_Some. intros [Hne Ho]. rewrite lookup_delete_ne by done. by apply O.
      * intros k o rv'. cbn. rewrite lookup_delete_Some, Es. intros [Hne _]. congruence.
    + intros _ o Ho _. destruct (wf_overlay _ W _ _ Eo) as [Hob _]. pose proof (core_key _ (wf_core _ W) _ _ Hob).
      assert (lookup_name s (name_key key) = Some ov) as E by (apply lookup_name_Some; [apply W|eauto]).
      assert (o = ov) as -> by (apply (inj Some); rewrite <- E; symmetry; exact Ho). done.
  - constructor; [done| |].
    + cbn [fst]. intros nk Hn. assert (nk ≠ name_key key) as Hne by (intros ->; specialize (Hn key eq_refl); by rewrite Eo in Hn).
      rewrite (S nk Hn). by destruct (str_eqb (event_kind e) "DELETED"); [rewrite lookup_delete_ne|rewrite lookup_insert_ne].
    + cbn [fst]. apply HO; [done|]. intros k o rv' Ho. rewrite Es. intros [= <- <-]. congruence.
  - apply deliver_sim; [done| | |done|done|by apply Hkind|].
    + intros nk _. apply S.
    + apply HO; [done|]. intros k o rv' Ho. rewrite Es. intros [= <- <-]. congruence.
    + intros Hd o Ho Hn. rewrite (S _ Hn) in Ho. unfold event_ok in Hok. apply andb_prop in Hok as [_ Hok].
      rewrite Es, Hd, Ho in Hok. cbn in Hok. by apply bool_decide_eq_true in Hok.
Qed.

Lemma step_sim h s m op :
  sim h s m → history_ok h s → match op with OEvent e _ => event_ok m e | _ => true end = true →
  sim (h ++ [op])%list (step s op) (reported m op).
Proof.
  intros Hsim Hh Hok. pose proof Hsim as [W S O].
  assert (∀ t, (∀ k o t', covers op k o t' = false) → same_view s t → sim (h ++ [op])%list t m) as Hsame.
  { intros t Hc Hv. eapply same_view_sim; [exact Hv|]. constructor; [done..|]. eapply overlays_in_mono; [|exact O].
    intros k o t' _ _. by apply outstanding_snoc. }
  assert (∀ t, wf t ∧ shows (reported m op) t ∧ overlays_in (outstanding (h ++ [op])%list) t → sim (h ++ [op])%list t (reported m op))
    as Hmk by (intros t (?&?&?); by constructor).
  destruct op as [| |l now|l now|l started now|o started now|e now]; cbn [step].
  - by apply Hsame.
  - by apply Hsame.
  - apply Hmk, reset_sim; [done|by right|]. eapply overlays_in_mono; [|exact O]. intros k o t _ _. by apply outstanding_snoc.
  - apply Hmk, guarded_reset_sim; [done|done|by apply forget_all_wf| |].
    + intros _ k o. cbn. by rewrite lookup_empty.
    + intros Hl. eapply overlays_in_mono; [|exact O]. intros k o t _ _. by apply outstanding_snoc.
  - apply Hmk, guarded_reset_sim; [done|done|by apply retain_since_wf| |].
    + intros Hl. eapply overlays_in_mono; [|apply (retain_since_in _ started _ O)]. cbn. intros k o t _ _ [HP Ht].
      apply outstanding_snoc; [|done]. cbn. rewrite Hl. cbn. lia.
    + intros Hl. eapply overlays_in_mono; [|exact O]. intros k o t _ _. apply outstanding_snoc. cbn. by rewrite Hl.
  - by apply ack_sim.
  - by apply event_sim.
Qed.

Lemma run_sim ops : ∀ h s m,
  sim h s m → history_ok h s → clock_ok (h ++ ops)%list → watch_ok m ops = true →
  sim (h ++ ops)%list (fold_left step ops s) (fold_left reported ops m).
Proof.
  induction ops as [|op ops IH]; intros h s m Hs Hh Hc Hok; cbn in *; [by rewrite app_nil_r|].
  apply andb_prop in Hok as [Ho Hok]. pose proof (step_history h s op (sim_wf _ _ _ Hs) Hh) as Hh'.
  pose proof (clock_ok_snoc h op ops) as Hcs.
  replace (h ++ op :: ops)%list with ((h ++ [op]) ++ ops)%list in * by (by rewrite <- app_assoc).
  apply IH; [by apply step_sim| |done|done]. apply Hh'. intros op' t now. by apply Hcs.
Qed.

Lemma sim_init : sim [] default_store ∅.
Proof.
  constructor; [constructor; [apply default_core|]| |]; try (intros k o; cbn; by rewrite lookup_empty).
Qed.

(** Every operation keeps the store well formed, whatever it is given. *)
Lemma apply_wf s e now : wf s → wf (apply s e now).1.
Proof.
  intros W. unfold apply. destruct (str_eqb _ _); [done|]. destruct (key_result _) as [key|] eqn:Ek; [|done].
  apply key_result_of in Ek. destruct (revision _) as [rv|]; [|done]. set (s1 := bound_seen _ now).
  assert (wf s1) as W1.
  { eapply same_view_wf; [|exact W]. subst s1. unfold same_view.
    by destruct (bound_seen_same (set_seen s (seen s ++ [(key_uid key, rv)])%list (history_evicted_at s)) now)
      as (-> & -> & -> & -> & -> & ->). }
  clearbody s1. destruct (overlays s1 !! key) as [ov|] eqn:Eo; [case_decide; [|done]|by apply deliver_wf].
  apply deliver_wf; [|by apply lookup_delete_eq|done]. destruct W1 as [C OV].
  constructor; [by refine (core_ext s1 _ _ _ _ _ C)|]. intros k o. cbn.
  rewrite lookup_delete_Some. intros [Hne Ho]. rewrite lookup_delete_ne by done. by apply OV.
Qed.

(** The names of a store, as a map. *)
Definition view (s : Store) : Reported := omap (λ k, objects s !! k) (names s).

Lemma view_shows s : shows (view s) s.
Proof. intros nk _. unfold view. by rewrite lookup_omap. Qed.

Lemma step_wf s op : wf s → wf (step s op).
Proof.
  intros W. assert (overlays_in (λ _ _ _, True) s) as O.
  { intros k o Ho. destruct (wf_overlay_in _ W _ _ Ho) as (t & Ht & _). by exists t. }
  assert (∀ t, wf t → overlays_in (λ _ _ _, True) t) as OT.
  { intros t Wt k o Ho. destruct (wf_overlay_in _ Wt _ _ Ho) as (t' & Ht & _). by exists t'. }
  destruct op as [| |l now|l now|l started now|o started now|e now]; cbn [step].
  - by apply (same_view_wf s).
  - by apply (same_view_wf s).
  - by apply (reset_sim (λ _ _ _, True) s l now (view s)); [|right; apply view_shows|].
  - apply (guarded_reset_sim (λ _ _ _, True) s l _ now (view s)); [done|apply view_shows|by apply forget_all_wf| |done].
    intros _. by apply OT, forget_all_wf.
  - apply (guarded_reset_sim (λ _ _ _, True) s l _ now (view s)); [done|apply view_shows|by apply retain_since_wf| |done].
    intros _. by apply OT, retain_since_wf.
  - unfold acknowledge_since. destruct (key_result o) as [key|] eqn:Ek; [|done]. apply key_result_of in Ek.
    destruct (revision o) as [rv|]; [|done]. case_bool_decide; [done|].
    destruct (match history_evicted_at s with Some t => _ | None => _ end); [by apply (same_view_wf s)|].
    destruct (put_ok_pair s o key (wf_core _ W) Ek) as [d ->]. by apply (lay_wf s key o now).
  - by apply apply_wf.
Qed.

Lemma run_wf ops : wf (run ops).
Proof.
  unfold run. assert (wf default_store) as W by (apply (sim_wf _ _ _ sim_init)). revert W. generalize default_store.
  induction ops as [|op ops IH]; intros s W; [done|]. by apply IH, step_wf.
Qed.


(** ** Indexes and wake-ups *)

(** The objects that carry an index, read off the objects themselves. *)
Definition holding (s : Store) (i : Index) : gmap Key Value :=
  filter (λ ko : Key * Value, i ∈ indexes ko.2 ko.1) (objects s).

Lemma lookup_holding s i k o : holding s i !! k = Some o ↔ objects s !! k = Some o ∧ i ∈ indexes o k.
Proof. unfold holding. by rewrite map_lookup_filter_Some. Qed.

Lemma omap_lookup_fst (m : gmap Key Value) l : Forall (λ ko, m !! ko.1 = Some ko.2) l → omap (λ k, m !! k) l.*1 = l.*2.
Proof. induction 1 as [|[k o] l H _ IH]; [done|]. cbn in *. by rewrite H, IH. Qed.

(** the indexes of an informer are exact and its lookups agree.  After any
    sequence of operations, whatever it was given, a synchronised store answers
    [select] with precisely the objects that carry the index, each once; [get]
    with the object whose metadata spells the key; and a UID with the key of
    an object that has it. *)
Theorem informer_lookups_exact ops i k u k' :
  synced (run ops) = true →
  (∃ l, select (run ops) i = Ok l ∧ l ≡ₚ (map_to_list (holding (run ops) i)).*2) ∧
  (∀ o, get (run ops) k = Ok (Some o) → key_of o = Some k) ∧
  (key_for_uid (run ops) u = Some k' → ∃ o, get (run ops) k' = Ok (Some o) ∧ str_is o.["metadata"].["uid"] u = true).
Proof.
  intros Hs. pose proof (run_wf ops) as [C _]. unfold select, get, key_for_uid. rewrite Hs. split_and!.
  - eexists. split; [done|].
    rewrite <- (omap_lookup_fst (objects (run ops)) (map_to_list (holding (run ops) i))).
    + apply omap_Permutation, NoDup_Permutation; [apply NoDup_elements|apply NoDup_fst_map_to_list|].
      intros x. rewrite elem_of_elements, (core_index _ C), list_elem_of_fmap. split.
      * intros (o & Ho & Hi). exists (x, o). split; [done|]. by apply elem_of_map_to_list, lookup_holding.
      * intros ([x' o] & -> & [Ho Hi]%elem_of_map_to_list%lookup_holding). by exists o.
    + apply Forall_forall. intros [x o] [Ho _]%elem_of_map_to_list%lookup_holding. done.
  - intros o [= Ho]. by eapply core_key.
  - intros Hu. destruct (core_uid _ C _ _ Hu) as [<- [o Ho]]. exists o. rewrite Ho. split; [done|].
    pose proof (core_key _ C _ _ Ho) as Hk. unfold key_of, key_result in Hk.
    destruct (nonempty_str o.["metadata"].["name"]); [|done]. unfold nonempty_str in Hk.
    destruct (as_str o.["metadata"].["uid"]) as [u|] eqn:Eu; [|done]. destruct (is_empty_str u); [done|].
    injection Hk as <-. cbn. unfold str_is. destruct (o.["metadata"].["uid"]); try done. cbn in Eu. injection Eu as ->.
    by apply str_eqb_eq.
Qed.

(** The indexes an operation announces: those of its deltas. *)
Definition announced (s : Store) (op : Op) : gset Index :=
  let of_list r := match r with Ok ds => ⋃ (affected <$> ds) | Err _ => ∅ end in
  let of_opt r := match r with Ok (Some d) => affected d | _ => ∅ end in
  match op with
  | OUnavailable | OResumed => ∅
  | OReset l now => of_list (reset s l now).2
  | OResetAfter l now => of_list (reset_after_writes s l now).2
  | OResetStarted l started now => of_list (reset_started_at s l started now).2
  | OAck o started now => of_opt (acknowledge_since s o started now).2
  | OEvent e now => of_opt (apply s e now).2
  end.

Lemma put_announces s object key d i :
  core s → key_of object = Some key → (put s object).2 = Ok d → i ∉ affected d →
  holding (put s object).1 i = holding s i.
Proof.
  intros C Hk Hd Hi. destruct (put_ok s object key C Hk) as (d' & Hd' & _ & _ & Ha).
  assert (d' = d) as -> by congruence. rewrite Ha in Hi. apply map_eq. intros k. apply option_eq. intros o.
  rewrite !lookup_holding, (put_objects s object key C Hk). destruct (decide (k = key)) as [->|Hne]; [|case_decide as Hn; [|done]].
  - split; [intros [[= <-] ?]; set_solver|]. intros [Ho Hio]. exfalso. apply Hi, elem_of_union_l.
    assert (lookup_name s (name_key key) = Some o) as -> by (apply lookup_name_Some; eauto). cbn.
    by rewrite (core_key _ C _ _ Ho).
  - split; [naive_solver|]. intros [Ho Hio]. exfalso. apply Hi, elem_of_union_l.
    assert (lookup_name s (name_key key) = Some o) as -> by (apply lookup_name_Some; eauto). cbn.
    by rewrite (core_key _ C _ _ Ho).
Qed.

Lemma delta_affected old new d k :
  delta old new = Ok d → (∀ o, old = Some o → key_of o = Some k) → (∀ o, new = Some o → key_of o = Some k) →
  affected d = from_option (λ o, indexes o k) ∅ old ∪ from_option (λ o, indexes o k) ∅ new.
Proof.
  intros Hd Ho Hn. unfold delta, indexes_of_opt, indexes_of in Hd.
  destruct old as [o|]; [pose proof (Ho o eq_refl) as E%key_result_of; rewrite E in Hd|];
    (destruct new as [n|]; [pose proof (Hn n eq_refl) as E'%key_result_of; rewrite E' in Hd|]); cbn in *; by injection Hd as <-.
Qed.

Lemma deliver_announces s kind key object i :
  core s → key_of object = Some key →
  i ∉ match (deliver s kind key object).2 with Ok (Some d) => affected d | _ => ∅ end →
  holding (deliver s kind key object).1 i = holding s i.
Proof.
  intros C Hk. unfold deliver. destruct (_ || _); [|destruct (str_eqb _ _); [|done]].
  - destruct (put_ok_pair s object key C Hk) as [d Hd]. rewrite Hd. cbn [fst snd result_bind].
    apply (put_announces s object key); [done..|]. by rewrite Hd.
  - destruct (remove_fields s key) as (Eo & _ & _). unfold holding. revert Eo. unfold remove.
    destruct (objects s !! key) as [old|] eqn:E; cbn [fst snd objects]; [|done]. intros _.
    destruct (delta_ok (Some old) None) as [d Hd]; [intros ? [= <-]; eexists; by eapply core_key|done|]. rewrite Hd. cbn [result_bind].
    rewrite (delta_affected _ _ _ key Hd); [|intros ? [= <-]; by eapply core_key|done]. cbn. intros Hi.
    apply map_eq. intros k. apply option_eq. intros o. rewrite !map_lookup_filter_Some, lookup_delete_Some. cbn.
    split; [tauto|]. intros [Ho Hio]. split; [|done]. split; [|done]. intros <-. set_solver.
Qed.

Lemma collect_deltas_in l ds p : collect_deltas l = Ok ds → p ∈ l → ∃ d, d ∈ ds ∧ delta p.1 p.2 = Ok d.
Proof.
  revert ds. induction l as [|[o n] l IH]; intros ds; [by intros _ ?%elem_of_nil|]. cbn.
  destruct (delta o n) as [d|] eqn:E; [|done]. destruct (collect_deltas l) as [ds'|]; [|done]. cbn. intros [= <-].
  intros [->|Hin]%elem_of_cons; [exists d; split; [left|done]|]. destruct (IH ds' eq_refl Hin) as (d' & ? & ?).
  exists d'. split; [by right|done].
Qed.

Lemma snapshot_changes_in (s r : Store) k :
  map_Forall (λ _ o, no_floats o = true) (objects s) →
  objects s !! k = objects r !! k ∨ (objects s !! k, objects r !! k) ∈ snapshot_changes (objects s) (objects r).
Proof.
  intros HF. unfold snapshot_changes. rewrite elem_of_app, !list_elem_of_omap. destruct (objects s !! k) as [o|] eqn:Eo.
  - destruct (objects r !! k) as [n|] eqn:En; [destruct (value_eqb n o) eqn:E|].
    + left. apply value_eqb_eq_r in E; [congruence|]. by eapply HF.
    + right. left. exists (k, o). split; [by apply elem_of_map_to_list|]. cbn. rewrite En. cbn. by rewrite E.
    + right. left. exists (k, o). split; [by apply elem_of_map_to_list|]. cbn. by rewrite En.
  - destruct (objects r !! k) as [n|] eqn:En; [|by left]. right. right. exists (k, n).
    split; [by apply elem_of_map_to_list|]. cbn. by rewrite Eo.
Qed.

Lemma changes_announce s r ds i :
  core s → core r → map_Forall (λ _ o, no_floats o = true) (objects s) →
  collect_deltas (snapshot_changes (objects s) (objects r)) = Ok ds → i ∉ ⋃ (affected <$> ds) → holding r i = holding s i.
Proof.
  intros Cs Cr HF Hd Hi. apply map_eq. intros k. apply option_eq. intros o. rewrite !lookup_holding.
  destruct (snapshot_changes_in s r k HF) as [->|Hne]; [done|].
  destruct (collect_deltas_in _ _ _ Hd Hne) as (d & Hin & Hdel). cbn in Hdel.
  assert (i ∉ affected d) as Hid.
  { intros H. apply Hi, elem_of_union_list. exists (affected d). split; [by apply list_elem_of_fmap_2|done]. }
  rewrite (delta_affected _ _ _ k Hdel) in Hid; [|intros ? H; exact (core_key s Cs _ _ H)|intros ? H; exact (core_key r Cr _ _ H)].
  split; intros [Ho Hio]; exfalso; apply Hid; rewrite Ho; cbn; set_solver.
Qed.

Lemma reset_announces s list_ now i :
  wf s → map_Forall (λ _ o, no_floats o = true) (objects s) →
  i ∉ match (reset s list_ now).2 with Ok ds => ⋃ (affected <$> ds) | Err _ => ∅ end →
  holding (reset s list_ now).1 i = holding s i.
Proof.
  intros W HF. pose proof (step_wf s (OReset list_ now) W) as [C' _]. revert C'. cbn [step]. unfold reset.
  destruct (as_array list_.["items"]) as [l|]; [|done].
  destruct (load_items _ l) as [r|]; [|done]. cbn [result_bind].
  destruct (carry_overlays _ _ _) as [r'|]; [|done]. cbn [result_bind].
  destruct (collect_deltas _) as [ds|] eqn:E; [|done]. cbn [result_bind fst snd]. intros C'.
  apply (changes_announce s (set_sync r' true true) ds); [apply W|done..].
Qed.

Lemma guarded_reset_announces s list_ forget now i :
  wf (forget s) → objects (forget s) = objects s → map_Forall (λ _ o, no_floats o = true) (objects s) →
  i ∉ match (guarded_reset s list_ forget now).2 with Ok ds => ⋃ (affected <$> ds) | Err _ => ∅ end →
  holding (guarded_reset s list_ forget now).1 i = holding s i.
Proof.
  intros W E HF. unfold guarded_reset. destruct (as_array list_.["items"]) as [l|]; [|done].
  destruct (check_keys l); [done|]. intros Hi. rewrite reset_announces; [|done|by rewrite E|done].
  unfold holding. by rewrite E.
Qed.

(** an informer never changes an index in silence.  Whatever has happened
    before, an operation leaves the objects under an index exactly as they
    were unless the index is among those its deltas announce: an event or a
    write response that moves an object announces its previous indexes as well
    as its new ones, and a LIST announces every index of what it added,
    changed or dropped.  (Two snapshots are compared with serde_json's
    equality, so the LISTs are taken over objects without floats.) *)
Theorem informer_wakes_dependents ops op i :
  match op with
  | OReset _ _ | OResetAfter _ _ | OResetStarted _ _ _ => map_Forall (λ _ o, no_floats o = true) (objects (run ops))
  | _ => True
  end →
  i ∉ announced (run ops) op → holding (step (run ops) op) i = holding (run ops) i.
Proof.
  pose proof (run_wf ops) as W. generalize dependent (run ops). intros s W HF Hi.
  destruct op as [| |l now|l now|l started now|o started now|e now]; cbn [step announced] in *.
  - done.
  - done.
  - by apply reset_announces.
  - by apply guarded_reset_announces; [apply forget_all_wf|..].
  - by apply guarded_reset_announces; [apply retain_since_wf|..].
  - revert Hi. unfold acknowledge_since. destruct (key_result o) as [key|] eqn:Ek; [|done]. apply key_result_of in Ek.
    destruct (revision o) as [rv|]; [|done]. case_bool_decide; [done|].
    destruct (match history_evicted_at s with Some t => _ | None => _ end); [done|].
    destruct (put_ok_pair s o key (wf_core _ W) Ek) as [d Hd]. rewrite Hd. cbn [fst snd].
    apply (put_announces s o key d); [apply W|done|by rewrite Hd].
  - revert Hi. unfold apply. destruct (str_eqb _ _); [done|]. destruct (key_result e.["object"]) as [key|] eqn:Ek; [|done].
    apply key_result_of in Ek. destruct (revision _) as [rv|]; [|done]. set (s1 := bound_seen _ now).
    assert (same_view s s1) as Hsv.
    { subst s1. unfold same_view. by destruct (bound_seen_same (set_seen s (seen s ++ [(key_uid key, rv)])%list (history_evicted_at s)) now)
        as (-> & -> & -> & -> & -> & ->). }
    pose proof (same_view_core _ _ Hsv (wf_core _ W)) as C1. destruct Hsv as (Eo & _). 
    assert (holding s i = holding s1 i) as -> by (unfold holding; by rewrite Eo).
    clearbody s1. destruct (overlays s1 !! key) as [ov|]; [case_decide; [|done]|by apply deliver_announces].
    change (holding s1 i) with (holding (set_overlays s1 (delete key (overlays s1)) (delete key (acknowledged_at s1))) i).
    apply deliver_announces; [|done]. by refine (core_ext s1 _ _ _ _ _ C1).
Qed.

(** *** Witnesses *)

Definition demo_object (uid rv node : string) : Value :=
  json_obj [("kind", Str "Pod");
            ("metadata", json_obj [("name", Str "a"); ("namespace", Str "d"); ("uid", Str uid); ("resourceVersion", Str rv)]);
            ("spec", json_obj [("nodeName", Str node)])].

Definition demo_event (kind : string) (o : Value) : Value := json_obj [("type", Str kind); ("object", o)].
Definition demo_list (l : list Value) : Value := json_obj [("items", Array l)].

(** A LIST, the process's own write at revision 6, then the event of revision
    5 that the write overtook. *)
Definition demo_ops : list Op :=
  [OResetStarted (demo_list [demo_object "u" "4" "n1"]) 0 1; OAck (demo_object "u" "6" "n3") 2 3;
   OEvent (demo_event "MODIFIED" (demo_object "u" "5" "n2")) 4].


Lemma informer_lookups_exact_witness :
  ∃ l, select (run demo_ops) (INode "n3") = Ok l ∧ l ≡ₚ [demo_object "u" "6" "n3"].
Proof.
  destruct (informer_lookups_exact demo_ops (INode "n3") (mkKey "d" "a" "u") "u" (mkKey "d" "a" "u")) as ((l & H1 & H2) & _ & _);
    [vm_compute; reflexivity|].
  exists l. split; [exact H1|]. rewrite H2. vm_compute. reflexivity.
Defined.

(** The event that moves the Pod announces the node it leaves as well. *)
Definition demo_move : Op := OEvent (demo_event "MODIFIED" (demo_object "u" "5" "n2")) 5.

Lemma informer_wakes_dependents_witness :
  holding (step (run (take 1 demo_ops)) demo_move) (INode "n9") = holding (run (take 1 demo_ops)) (INode "n9") ∧
  INode "n1" ∈ announced (run (take 1 demo_ops)) demo_move.
Proof.
  split; [|vm_compute; reflexivity].
  apply (informer_wakes_dependents (take 1 demo_ops) demo_move (INode "n9")); [exact I|].
  apply (bool_decide_eq_false_1 (INode "n9" ∈ announced (run (take 1 demo_ops)) demo_move)). vm_compute. reflexivity.
Defined.

(** *** Gaps *)

Module InformerGaps.

(** Two write responses that arrive out of order rewind what the process
    reads: the second to arrive replaces the newer write, although the newer
    one had already been read back. *)
Example late_response_rewinds :
  let ops := [OResetStarted (demo_list []) 0 1; OAck (demo_object "u" "6" "n3") 2 3; OAck (demo_object "u" "5" "n2") 2 4] in
  lookup_name (run (take 2 ops)) ("d", "a") = Some (demo_object "u" "6" "n3") ∧
  lookup_name (run ops) ("d", "a") = Some (demo_object "u" "5" "n2").
Proof. split; vm_compute; reflexivity. Qed.

(** A DELETED event at a revision other than the overlay's is dropped: if the
    write's own event never comes (its object was deleted before the watch
    resumed), the deleted object stays visible until the next LIST. *)
Example deletion_hidden_by_overlay :
  let ops := [OResetStarted (demo_list []) 0 1; OAck (demo_object "u" "6" "n3") 2 3;
              OEvent (demo_event "DELETED" (demo_object "u" "7" "n3")) 4] in
  lookup_name (run ops) ("d", "a") = Some (demo_object "u" "6" "n3").
Proof. vm_compute. reflexivity. Qed.

End InformerGaps.
