(* ===== verification/Owned.v ===== *)
(** * Routing changes to controllers ([pkg/controller-manager/src/owned.rs])

    A controller is woken for the primary objects a change of another
    collection affects.  The routes read the inverse indexes of the informers
    ([Informer]): a Pod change wakes the Services and the disruption budgets
    that select it, a claim its users, a child its owner.  Proved: reading
    through one clause of a selector and then matching the whole of it finds
    exactly the Pods, and exactly the primaries, that a full scan would. *)

From Stdlib Require Import ZArith Lia String Ascii.
From stdpp Require Import base gmap strings numbers option list.
From S2P Require Import Prelude Text BTree Json Selector Informer.
Open Scope string_scope.
Open Scope kube_scope.
Open Scope Z_scope.

(** A feed is an informer store behind a lock; [unwrap_or_default] reads an
    unsynchronised one as empty. *)
Notation Feed := Informer.Store.

Definition select_or_empty (primary : Feed) (i : Index) : list Value :=
  match Informer.select primary i with Ok l => l | Err _ => [] end.

Definition all_keys (primary : Feed) : list Key :=
  match Informer.keys primary with Ok l => l | Err _ => [] end.

Definition keys_at (primary : Feed) (i : Index) : list Key := omap key_of (select_or_empty primary i).

Definition same_namespace (d : Delta) (primary : Feed) : list Key :=
  concat ((λ i, match i with INamespace _ => keys_at primary i | _ => [] end) <$> elements (affected d)).

Definition claim_users (d : Delta) (primary : Feed) : list Key :=
  concat ((λ i, match i with IClaim ns name => keys_at primary (IName ns name) | _ => [] end) <$> elements (affected d)).

(** [delta.old.iter().chain(delta.new.iter())]. *)
Definition sides (d : Delta) : list Value := (opt_list (old_obj d) ++ opt_list (new_obj d))%list.

Definition volume_claims (d : Delta) (primary : Feed) : list Key :=
  concat ((λ pv,
    let claim := str_or "" pv.["spec"].["claimRef"].["name"] in
    keys_at primary (IVolume (str_or "" pv.["metadata"].["name"]))
    ++ (if is_empty_str claim then []
        else keys_at primary (IName (str_or "" pv.["spec"].["claimRef"].["namespace"]) claim))
    ++ keys_at primary (IStorageClass (str_or "" pv.["spec"].["storageClassName"])))%list <$> sides d).

Definition storage_class_claims (d : Delta) (primary : Feed) : list Key :=
  (keys_at primary (IStorageClass "")
   ++ concat ((λ class, keys_at primary (IStorageClass (str_or "" class.["metadata"].["name"]))) <$> sides d))%list.

(** The key of an owner: the primary that has its UID, else the one its
    reference spells. *)
Definition owner_key (primary : Feed) (object owner : Value) : option Key :=
  match as_str owner.["uid"], as_str owner.["name"] with
  | Some uid, Some name =>
      if is_empty_str uid then None
      else Some (default (mkKey (str_or "" object.["metadata"].["namespace"]) name uid) (key_for_uid primary uid))
  | _, _ => None
  end.

Definition owner_keys (d : Delta) (primary : Feed) : gset Key :=
  list_to_set (concat ((λ object, omap (owner_key primary object) (items object.["metadata"].["ownerReferences"])) <$> sides d)).

(** The primaries whose selector may match the labels: those without an
    anchor, and those anchored at one of the labels. *)
Definition membership_candidates (primary : Feed) (ns : string) (labels : Value) : list Value :=
  (select_or_empty primary (ISelectorFallback ns)
   ++ concat ((λ kv : string * Value,
        match as_str kv.2 with Some v => select_or_empty primary (ISelector ns kv.1 v) | None => [] end) <$> entries labels))%list.

Definition selects (object labels : Value) : bool :=
  match pod_selector object with Some s => LabelSelector.matches s labels | None => false end.

Definition pod_membership (d : Delta) (primary : Feed) : gset Key :=
  list_to_set (concat ((λ pod,
    let labels := pod.["metadata"].["labels"] in
    omap key_of (List.filter (λ o, selects o labels)
      (membership_candidates primary (str_or "" pod.["metadata"].["namespace"]) labels))) <$> sides d)).

(** [seen.insert(key)] in the filter: the first object of each key is kept. *)
Fixpoint first_of_keys (seen : gset Key) (keep : Value → bool) (l : list Value) : list Value :=
  match l with
  | [] => []
  | pod :: rest =>
      if keep pod then
        match key_of pod with
        | Some k => if decide (k ∈ seen) then first_of_keys seen keep rest else pod :: first_of_keys ({[k]} ∪ seen) keep rest
        | None => first_of_keys seen keep rest
        end
      else first_of_keys seen keep rest
  end.

Fixpoint select_anchors (pods : Feed) (anchors : list (string * string)) : result (list Value) string :=
  match anchors with
  | [] => Ok []
  | (label, value) :: rest =>
      a <-? Informer.select pods (ILabel label value) ;; b <-? select_anchors pods rest ;; Ok (a ++ b)%list
  end.

Definition selected_pods (object : Value) (pods : Feed) : result (list Value) string :=
  match pod_selector object with
  | None => Ok []
  | Some selector =>
      let ns := str_or "" object.["metadata"].["namespace"] in
      candidates <-? match selector_anchors selector with
                     | [] => Informer.select pods (INamespace ns)
                     | anchors => select_anchors pods anchors
                     end ;;
      Ok (first_of_keys ∅ (λ pod, str_eqb (str_or "" pod.["metadata"].["namespace"]) ns
                                  && LabelSelector.matches selector pod.["metadata"].["labels"]) candidates)
  end.

(** ** Anchors *)

Lemma in_anchors_sound exprs labels :
  forallb (λ e, LabelSelector.expr_ok e labels) exprs = true → in_anchors exprs ≠ [] →
  ∃ k v, (k, v) ∈ in_anchors exprs ∧ Json.get labels k = Some (Str v).
Proof.
  induction exprs as [|e exprs IH]; [done|]. cbn. intros [He Hrest]%andb_prop.
  destruct (str_is e.["operator"] "In") eqn:Eop; [|by apply IH]. apply str_is_spec in Eop.
  destruct (as_str e.["key"]) as [k|] eqn:Ek; [|by apply IH].
  destruct (as_array e.["values"]) as [vs|] eqn:Ev; [|by apply IH]. intros _.
  unfold LabelSelector.expr_ok in He. rewrite Eop in He. unfold str_or in He. rewrite Ek in He. cbn in He.
  unfold items in He. rewrite Ev in He. cbn in He.
  destruct (Json.get labels k ≫= as_str) as [v|] eqn:Eg; [|done]. apply bind_Some in Eg as (x & Hx & Hs).
  destruct x; try done. injection Hs as ->. exists k, v. split; [|done]. apply list_elem_of_omap.
  apply str_in_In, list_elem_of_In, list_elem_of_omap in He as (x & Hin & Hx'). exists x. split; [done|]. by rewrite Hx'.
Qed.

(** A Pod that matches a selector with anchors carries one of them. *)
Lemma anchors_sound selector labels :
  LabelSelector.matches selector labels = true → selector_anchors selector ≠ [] →
  ∃ k v, (k, v) ∈ selector_anchors selector ∧ Json.get labels k = Some (Str v).
Proof.
  unfold LabelSelector.matches, selector_anchors. destruct (is_null selector); [done|]. destruct (negb _); [done|].
  intros [Hl He]%andb_prop.
  assert (∀ f, default [] (Json.get selector f ≫= as_object) = entries selector.[f]) as Eo
    by (intros f; unfold entries, index; by destruct (Json.get selector f) as [[]|]).
  assert (∀ f, default [] (Json.get selector f ≫= as_array) = items selector.[f]) as Ea
    by (intros f; unfold items, index; by destruct (Json.get selector f) as [[]|]).
  rewrite Eo in Hl. rewrite Ea in He.
  destruct (head _) as [[k v]|] eqn:Eh; [|by apply in_anchors_sound]. intros _. exists k, v. split; [left|].
  assert ((k, v) ∈ omap (λ kv : string * Value, pair kv.1 <$> as_str kv.2) (entries selector.["matchLabels"])) as Hin.
  { destruct (omap _ _) as [|x l]; [done|]. cbn in Eh. injection Eh as ->. left. }
  apply list_elem_of_omap in Hin as ([k' x] & Hin & Hx). cbn in Hx. destruct x; try done. injection Hx as -> ->.
  rewrite forallb_forall in Hl. specialize (Hl _ (proj1 (list_elem_of_In _ _) Hin)). cbn in Hl.
  destruct (Json.get labels k) as [have|]; [|done]. apply value_eqb_eq_r in Hl; [by rewrite Hl|done].
Qed.

Lemma get_entries labels k v : Json.get labels k = Some v → (k, v) ∈ entries labels.
Proof. destruct labels; try done. cbn. intros H%map_get_In. by apply list_elem_of_In. Qed.

Lemma label_indexed pod key k v :
  Json.get pod.["metadata"].["labels"] k = Some (Str v) → ILabel k v ∈ indexes pod key.
Proof.
  intros H%get_entries. unfold indexes. apply elem_of_list_to_set. unfold indexes_list. cbn zeta.
  do 16 (apply elem_of_app; right). apply elem_of_app; left. apply list_elem_of_omap. by exists (k, Str v).
Qed.

Lemma namespace_indexed pod key : INamespace (key_namespace key) ∈ indexes pod key.
Proof. unfold indexes, indexes_list. cbn zeta. apply elem_of_list_to_set, elem_of_app. left. left. Qed.

Lemma selector_indexed object key i : i ∈ selector_indexes object key → i ∈ indexes object key.
Proof.
  intros H. unfold indexes, indexes_list. cbn zeta. apply elem_of_list_to_set. by do 17 (apply elem_of_app; right).
Qed.

(** ** Exact routing *)

Lemma elem_of_select s i l o :
  core s → Informer.select s i = Ok l → o ∈ l ↔ ∃ k, objects s !! k = Some o ∧ i ∈ indexes o k.
Proof.
  intros C. unfold Informer.select. destruct (synced s); [|done]. intros [= <-]. rewrite list_elem_of_omap.
  setoid_rewrite elem_of_elements. setoid_rewrite (core_index _ C). naive_solver.
Qed.

Lemma select_synced s i : synced s = true → ∃ l, Informer.select s i = Ok l.
Proof. intros Hs. unfold Informer.select. rewrite Hs. by eexists. Qed.

Lemma elem_of_select_or_empty s i o :
  core s → synced s = true → o ∈ select_or_empty s i ↔ ∃ k, objects s !! k = Some o ∧ i ∈ indexes o k.
Proof.
  intros C Hs. unfold select_or_empty. destruct (select_synced s i Hs) as [l El]. rewrite El. by apply elem_of_select.
Qed.

Lemma key_of_namespace o k : key_of o = Some k → str_or "" o.["metadata"].["namespace"] = key_namespace k.
Proof.
  unfold key_of, key_result. destruct (nonempty_str _); [|done]. destruct (nonempty_str _); [|done]. by intros [= <-].
Qed.

(** A primary that selects the Pod is among the candidates read. *)
Lemma candidates_complete primary ns labels k o :
  core primary → synced primary = true → objects primary !! k = Some o → key_namespace k = ns →
  selects o labels = true → o ∈ membership_candidates primary ns labels.
Proof.
  intros C Hs Ho Hns Hsel. unfold selects in Hsel. destruct (pod_selector o) as [sel|] eqn:Ep; [|done].
  unfold membership_candidates. apply elem_of_app. destruct (selector_anchors sel) as [|a l] eqn:Ea.
  - left. apply elem_of_select_or_empty; [done..|]. exists k. split; [done|]. apply selector_indexed.
    unfold selector_indexes. rewrite Ep, Ea, Hns. left.
  - right. destruct (anchors_sound sel labels Hsel) as (lk & lv & Hin & Hg); [by rewrite Ea|].
    apply list_elem_of_In, in_concat. exists (select_or_empty primary (ISelector ns lk lv)). split.
    + apply list_elem_of_In, list_elem_of_fmap. exists (lk, Str lv). split; [done|]. by apply get_entries.
    + apply list_elem_of_In, elem_of_select_or_empty; [done..|]. exists k. split; [done|]. apply selector_indexed.
      unfold selector_indexes. rewrite Ep. rewrite Ea in Hin |- *. rewrite <- Hns.
      apply list_elem_of_fmap. by exists (lk, lv).
Qed.

(** Selector indexes carry the namespace of their object. *)
Definition in_namespace (ns : string) (i : Index) : Prop :=
  match i with ISelectorFallback n | ISelector n _ _ => n = ns | _ => True end.

Lemma Forall_omap_all {A B} (P : B → Prop) (f : A → option B) l : (∀ x y, f x = Some y → P y) → Forall P (omap f l).
Proof. intros H. apply Forall_forall. intros y (x & _ & Hx)%list_elem_of_omap. by eapply H. Qed.

Lemma Forall_opt {A} (P : A → Prop) o : (∀ x, o = Some x → P x) → Forall P (opt_list o).
Proof. intros H. destruct o as [x|]; repeat constructor. by apply H. Qed.

Lemma Forall_fmap_all {A B} (P : B → Prop) (f : A → B) l : (∀ x, P (f x)) → Forall P (f <$> l).
Proof. intros H. apply Forall_fmap, Forall_forall. intros x _. apply H. Qed.

Lemma Forall_concat_all {A B} (P : B → Prop) (f : A → list B) l : (∀ x, Forall P (f x)) → Forall P (concat (f <$> l)).
Proof. intros H. induction l as [|x l IH]; [done|]. cbn. apply Forall_app. by split. Qed.

Lemma selector_index_namespace o k i : i ∈ indexes o k → in_namespace (key_namespace k) i.
Proof.
  unfold indexes. rewrite elem_of_list_to_set. revert i. apply Forall_forall. unfold indexes_list. cbn zeta.
  assert (∀ kind x y, reference_index k kind x = Some y → in_namespace (key_namespace k) y) as Href.
  { intros kind x y. unfold reference_index. destruct (as_str x.["name"]); [|done]. by intros [= <-]. }
  repeat (apply Forall_app; split).
  all: try (apply Forall_opt; intros x Hx; apply fmap_Some in Hx as (y & _ & ->); done).
  all: try (apply Forall_omap_all; intros x y Hx; apply fmap_Some in Hx as (z & _ & ->); done).
  all: try (apply Forall_omap_all, Href).
  all: try (apply Forall_fmap_all; done).
  all: try (repeat constructor; fail).
  - apply Forall_concat_all. intros v. unfold volume_indexes. apply Forall_app. split.
    + apply Forall_opt. intros x Hx. apply fmap_Some in Hx as (y & _ & ->). done.
    + destruct (is_null _); [done|]. apply Forall_opt. intros x Hx. apply fmap_Some in Hx as (y & _ & ->). done.
  - destruct (_ || _); repeat constructor.
  - destruct (as_str _); [|done]. destruct (as_str _); repeat constructor.
  - apply Forall_concat_all. intros r. apply Forall_omap_all, Href.
  - unfold selector_indexes. destruct (pod_selector o) as [sel|]; [|done]. destruct (selector_anchors sel) as [|a l].
    + repeat constructor.
    + by apply Forall_fmap_all.
Qed.

(** ... so what is read is in the namespace asked for. *)
Lemma candidates_sound primary ns labels o :
  core primary → synced primary = true → o ∈ membership_candidates primary ns labels →
  ∃ k, objects primary !! k = Some o ∧ key_namespace k = ns.
Proof.
  intros C Hs. unfold membership_candidates. rewrite elem_of_app. intros [H|H].
  - apply elem_of_select_or_empty in H as (k & Ho & Hi); [|done..]. exists k. split; [done|].
    symmetry. apply (selector_index_namespace _ _ _ Hi).
  - apply list_elem_of_In, in_concat in H as (l & Hl & H). apply list_elem_of_In, list_elem_of_fmap in Hl as ([lk x] & -> & _).
    cbn in H. destruct (as_str x) as [v|]; [|done]. apply list_elem_of_In, elem_of_select_or_empty in H as (k & Ho & Hi); [|done..].
    exists k. split; [done|]. symmetry. apply (selector_index_namespace _ _ _ Hi).
Qed.

(** a Pod change wakes exactly the primaries that select the Pod.  On any
    synchronised feed, the keys routed to are those of the objects, in the
    namespace of the Pod before or after the change, whose selector matches
    its labels there: reading only the primaries anchored at one of the Pod's
    labels (or not anchored at all) misses none, and wakes no other. *)
Theorem pod_membership_exact ops d key :
  let primary := run ops in
  synced primary = true →
  key ∈ pod_membership d primary ↔
  ∃ pod o, pod ∈ sides d ∧ objects primary !! key = Some o ∧
    key_namespace key = str_or "" pod.["metadata"].["namespace"] ∧ selects o pod.["metadata"].["labels"] = true.
Proof.
  cbn zeta. intros Hs. pose proof (wf_core _ (run_wf ops)) as C. unfold pod_membership. rewrite elem_of_list_to_set. split.
  - intros H. apply list_elem_of_In, in_concat in H as (l & Hl & H). apply list_elem_of_In, list_elem_of_fmap in Hl as (pod & -> & Hp).
    apply list_elem_of_In, list_elem_of_omap in H as (o & Ho & Hk). apply list_elem_of_In, filter_In in Ho as [Ho Hsel].
    apply list_elem_of_In, candidates_sound in Ho as (k & Hob & Hns); [|done..].
    pose proof (core_key _ C _ _ Hob). assert (k = key) as -> by congruence. by exists pod, o.
  - intros (pod & o & Hp & Ho & Hns & Hsel). apply list_elem_of_In, in_concat. eexists. split.
    + apply list_elem_of_In, list_elem_of_fmap. exists pod. by split.
    + apply list_elem_of_In, list_elem_of_omap. exists o. split; [|by eapply core_key]. apply list_elem_of_In, filter_In.
      split; [|done]. apply list_elem_of_In. by eapply candidates_complete.
Qed.

(** *** The Pods an object selects *)

Lemma first_of_keys_spec keep l : ∀ seen,
  (∀ o, o ∈ l → ∃ k, key_of o = Some k) →
  (∀ o o', o ∈ l → o' ∈ l → key_of o = key_of o' → o = o') →
  NoDup (omap key_of (first_of_keys seen keep l)) ∧
  ∀ o, o ∈ first_of_keys seen keep l ↔ o ∈ l ∧ keep o = true ∧ ∀ k, key_of o = Some k → k ∉ seen.
Proof.
  induction l as [|p l IH]; intros seen Hk Hinj; [split; [constructor|]; set_solver|]. cbn.
  assert (∀ seen', NoDup (omap key_of (first_of_keys seen' keep l)) ∧
    ∀ o, o ∈ first_of_keys seen' keep l ↔ o ∈ l ∧ keep o = true ∧ ∀ k, key_of o = Some k → k ∉ seen') as IH'.
  { intros seen'. apply IH; [intros; apply Hk; by right|intros; apply Hinj; [by right..|done]]. }
  destruct (keep p) eqn:Ekp.
  - destruct (Hk p ltac:(left)) as [k Ek]. rewrite Ek. case_decide as Hin.
    + destruct (IH' seen) as [Hnd Hel]. split; [done|]. intros o. rewrite Hel, elem_of_cons. split; [tauto|].
      intros [[->|Ho] [Hko Hs]]; [|by split]. exfalso. by apply (Hs k).
    + destruct (IH' ({[k]} ∪ seen)) as [Hnd Hel]. split.
      * cbn. rewrite Ek. constructor; [|done]. intros (o & Ho & Hko)%list_elem_of_omap. apply Hel in Ho as (_ & _ & Hs).
        specialize (Hs k Hko). set_solver.
      * intros o. rewrite !elem_of_cons, Hel. split.
        -- intros [->|(Ho & Hko & Hs)]; [split_and!; [by left|done|]; congruence|]. split_and!; [by right|done|].
           intros k' Hk'. specialize (Hs k' Hk'). set_solver.
        -- intros ([->|Ho] & Hko & Hs); [by left|]. destruct (decide (key_of o = Some k)) as [E|E].
           ++ left. apply Hinj; [by right|left|congruence].
           ++ right. split_and!; [done..|]. intros k' Hk'. specialize (Hs k' Hk'). set_solver.
  - destruct (IH' seen) as [Hnd Hel]. split; [done|]. intros o. rewrite Hel, elem_of_cons. split; [tauto|].
    intros [[->|Ho] [Hko Hs]]; [congruence|done].
Qed.

Lemma elem_of_select_anchors pods anchors l o :
  core pods → select_anchors pods anchors = Ok l →
  o ∈ l ↔ ∃ lk lv k, (lk, lv) ∈ anchors ∧ objects pods !! k = Some o ∧ ILabel lk lv ∈ indexes o k.
Proof.
  intros C. revert l. induction anchors as [|[lk lv] anchors IH]; intros l; cbn; [intros [= <-]; set_solver|].
  destruct (Informer.select pods (ILabel lk lv)) as [a|] eqn:Ea; [|done]. cbn.
  destruct (select_anchors pods anchors) as [b|]; [|done]. intros [= <-]. rewrite elem_of_app, (IH b eq_refl), (elem_of_select _ _ _ _ C Ea).
  setoid_rewrite elem_of_cons. naive_solver.
Qed.

Lemma select_anchors_synced pods anchors : synced pods = true → ∃ l, select_anchors pods anchors = Ok l.
Proof.
  intros Hs. induction anchors as [|[lk lv] anchors [b IH]]; cbn; [by eexists|].
  destruct (select_synced pods (ILabel lk lv) Hs) as [a ->]. cbn. rewrite IH. by eexists.
Qed.

(** What [selected_pods] reads before matching. *)
Lemma candidates_read selector ns pods :
  core pods → synced pods = true →
  ∃ l, match selector_anchors selector with
       | [] => Informer.select pods (INamespace ns) | anchors => select_anchors pods anchors end = Ok l ∧
  (∀ o, o ∈ l → ∃ k, objects pods !! k = Some o) ∧
  (∀ k o, objects pods !! k = Some o → key_namespace k = ns → LabelSelector.matches selector o.["metadata"].["labels"] = true → o ∈ l).
Proof.
  intros C Hs. destruct (selector_anchors selector) as [|a l0] eqn:Ea.
  - destruct (select_synced pods (INamespace ns) Hs) as [l El]. exists l. split_and!; [done|..].
    + intros o. rewrite (elem_of_select _ _ _ _ C El). naive_solver.
    + intros k o Ho <- _. apply (elem_of_select _ _ _ _ C El). exists k. split; [done|]. apply namespace_indexed.
  - destruct (select_anchors_synced pods (a :: l0) Hs) as [l El]. exists l. split_and!; [done|..].
    + intros o. rewrite (elem_of_select_anchors _ _ _ _ C El). naive_solver.
    + intros k o Ho _ Hm. apply (elem_of_select_anchors _ _ _ _ C El).
      destruct (anchors_sound _ _ Hm) as (lk & lv & Hin & Hg); [by rewrite Ea|]. exists lk, lv, k. rewrite <- Ea.
      split_and!; [done..|]. by apply label_indexed.
Qed.

(** the Pods read for a Service or a disruption budget are exactly those a
    scan of the namespace would select, each once.  On any synchronised feed
    [selected_pods] answers, and a Pod is in the answer iff the store holds it
    in the object's namespace and the whole selector, expressions included,
    matches its labels. *)
Theorem selected_pods_exact ops object selector :
  let pods := run ops in
  let ns := str_or "" object.["metadata"].["namespace"] in
  synced pods = true → pod_selector object = Some selector →
  ∃ l, selected_pods object pods = Ok l ∧ NoDup (omap key_of l) ∧
  ∀ pod, pod ∈ l ↔ ∃ k, objects pods !! k = Some pod ∧ key_namespace k = ns ∧
                        LabelSelector.matches selector pod.["metadata"].["labels"] = true.
Proof.
  cbn zeta. intros Hs Hp. pose proof (wf_core _ (run_wf ops)) as C. unfold selected_pods. rewrite Hp. cbn zeta.
  set (ns := str_or "" _). destruct (candidates_read selector ns (run ops) C Hs) as (l & -> & Hsound & Hcomp).
  cbn [result_bind]. eexists. split; [done|]. set (keep := λ pod, _).
  destruct (first_of_keys_spec keep l ∅) as [Hnd Hel].
  - intros o (k & Ho)%Hsound. exists k. by eapply core_key.
  - intros o o' (k & Ho)%Hsound (k' & Ho')%Hsound E. rewrite (core_key _ C _ _ Ho), (core_key _ C _ _ Ho') in E.
    injection E as ->. congruence.
  - split; [done|]. intros pod. rewrite Hel. subst keep. cbn beta. rewrite andb_true_iff, str_eqb_eq. split.
    + intros (Ho & [Hns Hm] & _). destruct (Hsound _ Ho) as [k Hk]. exists k. split_and!; [done| |done].
      by rewrite <- (key_of_namespace _ _ (core_key _ C _ _ Hk)).
    + intros (k & Hk & Hns & Hm). split_and!; [by eapply Hcomp| |done|set_solver].
      by rewrite (key_of_namespace _ _ (core_key _ C _ _ Hk)).
Qed.

(** *** Witnesses *)

Definition demo_meta (n : string) (labels : list (string * Value)) : Value :=
  json_obj [("name", Str n); ("namespace", Str "d"); ("uid", Str n); ("resourceVersion", Str "1"); ("labels", json_obj labels)].

Definition demo_pod (n app : string) : Value :=
  json_obj [("kind", Str "Pod"); ("metadata", demo_meta n [("app", Str app)])].

(** A budget whose only anchor is an [In] expression. *)
Definition demo_budget : Value :=
  json_obj [("kind", Str "PodDisruptionBudget"); ("metadata", demo_meta "b" []);
            ("spec", json_obj [("selector", json_obj [("matchExpressions", Array [json_obj
               [("key", Str "app"); ("operator", Str "In"); ("values", Array [Str "web"; Str "api"])]])])])].

Definition demo_feed (l : list Value) : list Op := [OResetStarted (json_obj [("items", Array l)]) 0 1].

Lemma pod_membership_exact_witness :
  mkKey "d" "b" "b" ∈ pod_membership (mkDelta (Some (demo_pod "p" "web")) None ∅) (run (demo_feed [demo_budget])).
Proof.
  apply (pod_membership_exact (demo_feed [demo_budget])); [vm_compute; reflexivity|].
  exists (demo_pod "p" "web"), demo_budget. split_and!; [left|vm_compute; reflexivity..].
Defined.

Lemma selected_pods_exact_witness :
  ∃ l, selected_pods demo_budget (run (demo_feed [demo_pod "p" "web"; demo_pod "q" "db"])) = Ok l ∧ demo_pod "p" "web" ∈ l ∧
       demo_pod "q" "db" ∉ l.
Proof.
  destruct (selected_pods_exact (demo_feed [demo_pod "p" "web"; demo_pod "q" "db"]) demo_budget
    (default Null (pod_selector demo_budget))) as (l & H1 & _ & H2); [vm_compute; reflexivity..|].
  exists l. split_and!; [exact H1|..].
  - apply H2. exists (mkKey "d" "p" "p"). split_and!; vm_compute; reflexivity.
  - intros (k & _ & _ & H)%H2. vm_compute in H. discriminate H.
Defined.
