(* ===== verification/Client.v ===== *)
(** * The controllers' API client ([pkg/controller-manager/src/runner.rs],
      [pkg/apimachinery/src/reactor.rs])

    A controller is an interactive program: it asks the API server, and goes on
    with the answer.  [Prog] is that program, [exec] relates it to the traces
    it can produce, whatever the answers; a step of the reactor (a failure
    noted for the retry, a wake-up asked for, a write acknowledged to the
    informers) is part of the trace.

    The client's own protocol is [create]: a POST whose answer was lost may
    have been carried out, so its name and body are kept and settled before
    another child is made for the same owner.  Proved: until a POST is settled
    every POST for its owner repeats it word for word, after a GET that found
    nothing under its name. *)

From Stdlib Require Import ZArith Lia String Ascii.
From stdpp Require Import base gmap strings numbers option list.
From S2P Require Import Prelude Text BTree Json.
Open Scope string_scope.
Open Scope kube_scope.
Open Scope Z_scope.

(** ** Interactive programs *)

Inductive Request :=
  | QGet (path : string)
  | QList (path : string)
  | QPost (path : string) (body : Value)
  | QPut (path : string) (body : Value)
  | QPatch (path : string) (body : Value)
  | QPatchMerge (path : string) (body : Value)
  | QDelete (path : string) (options : option Value).

(** [ALost]: no response (a refused connection, a timeout, the write gate
    closed), so whether the request was carried out is not known.  A body
    that is not JSON is [None]. *)
Inductive Answer :=
  | ALost
  | AResponse (status : Z) (body : option Value).

(** What a pass tells the reactor and the informers. *)
Inductive Note :=
  | Failed
  | Requeue (delay : Z)
  | Acknowledged (path : string) (value : Value).

Inductive Event :=
  | EAsk (q : Request) (a : Answer)
  | ENote (n : Note).

Inductive Prog (R : Type) :=
  | Ret (r : R)
  | Ask (q : Request) (k : Answer → Prog R)
  | Tell (n : Note) (k : Prog R).
Arguments Ret {R} _.
Arguments Ask {R} _ _.
Arguments Tell {R} _ _.

Fixpoint bind {A B} (p : Prog A) (f : A → Prog B) : Prog B :=
  match p with
  | Ret x => f x
  | Ask q k => Ask q (λ a, bind (k a) f)
  | Tell n k => Tell n (bind k f)
  end.
Notation "x <== p ;; k" := (bind p (λ x, k)) (at level 100, p at next level, right associativity) : kube_scope.

(** [?] on a result inside a program. *)
Definition bind_ok {A B E} (p : Prog (result A E)) (f : A → Prog (result B E)) : Prog (result B E) :=
  bind p (λ r, match r with Ok x => f x | Err e => Ret (Err e) end).
Notation "x <-! p ;; k" := (bind_ok p (λ x, k)) (at level 100, p at next level, right associativity) : kube_scope.

Inductive exec {R} : Prog R → list Event → R → Prop :=
  | exec_ret r : exec (Ret r) [] r
  | exec_ask q k a t r : exec (k a) t r → exec (Ask q k) (EAsk q a :: t) r
  | exec_tell n k t r : exec k t r → exec (Tell n k) (ENote n :: t) r.

(** The run of a program against given answers. *)
Fixpoint play {R} (answers : list Answer) (p : Prog R) : option (list Event * R) :=
  match p with
  | Ret r => Some ([], r)
  | Ask q k => match answers with
               | [] => None
               | a :: rest => (λ tr, (EAsk q a :: tr.1, tr.2)) <$> play rest (k a)
               end
  | Tell n k => (λ tr, (ENote n :: tr.1, tr.2)) <$> play answers k
  end.

Lemma play_exec {R} answers (p : Prog R) t r : play answers p = Some (t, r) → exec p t r.
Proof.
  revert answers t. induction p as [x|q k IH|n k IH]; intros answers t; cbn.
  - intros [= <- <-]. constructor.
  - destruct answers as [|a rest]; [done|]. destruct (play rest (k a)) as [[t' r']|] eqn:E; [|done].
    cbn. intros [= <- <-]. constructor. by eapply IH.
  - destruct (play answers k) as [[t' r']|] eqn:E; [|done]. cbn. intros [= <- <-]. constructor. by eapply IH.
Qed.

Lemma exec_bind {A B} (p : Prog A) (f : A → Prog B) t r :
  exec (bind p f) t r ↔ ∃ t1 t2 x, exec p t1 x ∧ exec (f x) t2 r ∧ t = (t1 ++ t2)%list.
Proof.
  split.
  - revert t. induction p as [x|q k IH|n k IH]; intros t; cbn; intros E.
    + exists [], t, x. by repeat constructor.
    + inversion E; subst. destruct (IH a t0) as (t1 & t2 & x & H1 & H2 & ->); [done|].
      exists (EAsk q a :: t1), t2, x. by repeat constructor.
    + inversion E; subst. destruct (IH t0) as (t1 & t2 & x & H1 & H2 & ->); [done|].
      exists (ENote n :: t1), t2, x. by repeat constructor.
  - intros (t1 & t2 & x & H1 & H2 & ->). induction H1; cbn; [done|constructor; auto..].
Qed.

Lemma exec_bind_ok {A B E} (p : Prog (result A E)) (f : A → Prog (result B E)) t r :
  exec (bind_ok p f) t r ↔
  (∃ t1 t2 x, exec p t1 (Ok x) ∧ exec (f x) t2 r ∧ t = (t1 ++ t2)%list) ∨ (∃ e, exec p t (Err e) ∧ r = Err e).
Proof.
  unfold bind_ok. rewrite exec_bind. split.
  - intros (t1 & t2 & [x|e] & H1 & H2 & ->); [left; by exists t1, t2, x|]. inversion H2; subst. right. exists e.
    by rewrite app_nil_r.
  - intros [(t1 & t2 & x & H1 & H2 & ->)|(e & H1 & ->)]; [by exists t1, t2, (Ok x)|].
    exists t, [], (Err e). rewrite app_nil_r. by repeat constructor.
Qed.

Lemma exec_ret_inv {R} (x : R) t r : exec (Ret x) t r → t = [] ∧ r = x.
Proof. by inversion 1. Qed.

Lemma exec_ask_inv {R} q (k : Answer → Prog R) t r : exec (Ask q k) t r → ∃ a t', t = EAsk q a :: t' ∧ exec (k a) t' r.
Proof. inversion 1; subst. eauto. Qed.

Lemma exec_tell_inv {R} n (k : Prog R) t r : exec (Tell n k) t r → ∃ t', t = ENote n :: t' ∧ exec k t' r.
Proof. inversion 1; subst. eauto. Qed.

(** Every event of every run satisfies [P]. *)
Definition emits {R} (P : Event → Prop) (p : Prog R) : Prop := ∀ t r, exec p t r → Forall P t.

Lemma emits_ret {R} P (x : R) : emits P (Ret x).
Proof. intros t r [-> _]%exec_ret_inv. constructor. Qed.
Lemma emits_ask {R} P q (k : Answer → Prog R) : (∀ a, P (EAsk q a)) → (∀ a, emits P (k a)) → emits P (Ask q k).
Proof. intros Hq Hk t r (a & t' & -> & E)%exec_ask_inv. constructor; [done|]. by eapply Hk. Qed.
Lemma emits_tell {R} P n (k : Prog R) : P (ENote n) → emits P k → emits P (Tell n k).
Proof. intros Hn Hk t r (t' & -> & E)%exec_tell_inv. constructor; [done|]. by eapply Hk. Qed.
Lemma emits_bind {A B} P (p : Prog A) (f : A → Prog B) : emits P p → (∀ x, emits P (f x)) → emits P (bind p f).
Proof.
  intros Hp Hf t r (t1 & t2 & x & H1 & H2 & ->)%exec_bind. apply Forall_app. split; [by eapply Hp|by eapply Hf].
Qed.
Lemma emits_bind_ok {A B E} P (p : Prog (result A E)) (f : A → Prog (result B E)) :
  emits P p → (∀ x, emits P (f x)) → emits P (bind_ok p f).
Proof. intros Hp Hf. apply emits_bind; [done|]. intros [x|e]; [done|apply emits_ret]. Qed.
Lemma emits_weaken {R} (P Q : Event → Prop) (p : Prog R) : (∀ e, P e → Q e) → emits P p → emits Q p.
Proof. intros H Hp t r E. eapply Forall_impl; [by eapply Hp|done]. Qed.

Create HintDb emits.
#[export] Hint Resolve emits_ret : emits.

(** Walks a program and leaves the events it asks for. *)
Ltac walk_emits :=
  repeat (first [apply emits_ret | apply emits_bind_ok; [|intros ?] | apply emits_bind; [|intros ?] | apply emits_tell
                | apply emits_ask; [|intros ?] | case_match]).

(** ** The client *)

(** The error of a request: lost, refused with a status, or unreadable. *)
Inductive ClientError :=
  | Lost
  | Refused (status : Z)
  | Unreadable
  | Local (message : string).

Definition is_success (status : Z) : bool := (200 <=? status) && (status <=? 299).
(** [error_for_status]. *)
Definition is_error (status : Z) : bool := (400 <=? status) && (status <=? 599).

(** [reactor::check]: an error is noted, so that the pass is retried. *)
Definition check {A E} (r : result A E) : Prog (result A E) :=
  match r with Ok x => Ret (Ok x) | Err e => Tell Failed (Ret (Err e)) end.

(** A response that is neither a success nor 404 is noted and returned. *)
Definition respond (a : Answer) : Prog (result (Z * option Value) ClientError) :=
  match a with
  | ALost => check (Err Lost)
  | AResponse status body =>
      if is_success status || (status =? 404) then check (Ok (status, body)) else Tell Failed (check (Ok (status, body)))
  end.

Definition api_get (path : string) : Prog (result (Z * option Value) ClientError) := Ask (QGet path) respond.

(** A whole collection (the reflector follows the pages), or an error. *)
Definition api_list (path : string) : Prog (result Value ClientError) :=
  Ask (QList path) (λ a,
    check match a with
          | ALost => Err Lost
          | AResponse status body =>
              if is_error status then Err (Refused status)
              else match body with Some v => Ok v | None => Err Unreadable end
          end).

(** [error_for_status()?.json()]. *)
Definition json_answer (a : Answer) : result Value ClientError :=
  match a with
  | ALost => Err Lost
  | AResponse status body =>
      if is_error status then Err (Refused status)
      else match body with Some v => Ok v | None => Err Unreadable end
  end.

(** The object written is acknowledged to the informers. *)
Definition send_json (q : Request) (path : string) : Prog (result Value ClientError) :=
  Ask q (λ a,
    match json_answer a with
    | Err e => check (Err e)
    | Ok value =>
        Tell (Acknowledged path value)
          (if str_is value.["kind"] "Status" && (400 <=? default 0 (as_u64 value.["code"]))
           then Tell Failed (Ret (Ok value)) else Ret (Ok value))
    end).

Definition send_create (path : string) (body : Value) : Prog (result Value ClientError) := send_json (QPost path body) path.
Definition api_update (path : string) (body : Value) : Prog (result Value ClientError) := send_json (QPut path body) path.
Definition api_update_status (path : string) (body : Value) : Prog (result Value ClientError) :=
  send_json (QPut (path ++ "/status") body) path.
Definition api_patch (path : string) (body : Value) : Prog (result Value ClientError) := send_json (QPatch path body) path.
Definition api_patch_merge (path : string) (body : Value) : Prog (result Value ClientError) := send_json (QPatchMerge path body) path.

Definition api_delete (path : string) : Prog (result (Z * option Value) ClientError) := Ask (QDelete path None) respond.
Definition api_delete_with_options (path : string) (options : Value) : Prog (result (Z * option Value) ClientError) :=
  Ask (QDelete path (Some options)) respond.

Definition filled (v : Value) : option string :=
  match as_str v with Some s => if is_empty_str s then None else Some s | None => None end.

(** Deletes only the object observed: its UID and revision are preconditions. *)
Definition api_delete_observed (path : string) (observed : Value) : Prog (result (Z * option Value) ClientError) :=
  match filled observed.["metadata"].["uid"], filled observed.["metadata"].["resourceVersion"] with
  | None, _ => check (Err (Local "cannot delete unobserved UID"))
  | _, None => check (Err (Local "cannot delete without observed revision"))
  | Some uid, Some revision =>
      Ask (QDelete path (Some (json_obj [("apiVersion", Str "v1"); ("kind", Str "DeleteOptions");
             ("preconditions", json_obj [("uid", Str uid); ("resourceVersion", Str revision)])])))
        (λ a, match a with
              | ALost => check (Err Lost)
              | AResponse status body =>
                  if status =? 404 then Ret (Ok (status, body))
                  else if is_error status then check (Err (Refused status)) else Ret (Ok (status, body))
              end)
  end.

(** ** Creating once *)

Record PendingCreate := mkPending { pc_path : string; pc_body : Value; pc_owner : string }.

Definition create_owner (body : Value) : string :=
  let refs := as_array body.["metadata"].["ownerReferences"] in
  let owner := refs ≫= λ l, match head (List.filter (λ r, match as_bool r.["controller"] with Some b => b | None => false end) l) with
                            | Some r => Some r | None => head l end in
  match owner ≫= λ r, as_str r.["uid"] with
  | Some uid => uid
  | None => str_or "" body.["spec"].["claimRef"].["uid"]
  end.

Definition create_group (path name owner : string) : string := path ++ "/" ++ (if is_empty_str owner then name else owner).

(** Whether an answer settles a create: it was carried out, or refused for
    good.  A repeated POST answered 409 is not settled: the first one may have
    succeeded. *)
Definition definitive (repeated : bool) (r : result Value ClientError) : bool :=
  match r with
  | Ok _ => true
  | Err (Refused s) => (400 <=? s) && (s <=? 499) && (negb (s =? 409) || negb repeated) && negb (s =? 408) && negb (s =? 429)
  | Err _ => false
  end.

Notation Pending := (gmap string PendingCreate).

Definition finish_create (pending : Pending) (group : string) (p : PendingCreate) (repeated : bool) :
    Prog (Pending * result Value ClientError) :=
  r <== send_create (pc_path p) (pc_body p) ;;
  let pending := if definitive repeated r then delete group pending else pending in
  if repeated && is_ok r then Tell (Requeue 0) (Ret (pending, r)) else Ret (pending, r).

Definition pending_name (p : PendingCreate) : string := str_or "" (pc_body p).["metadata"].["name"].

Definition create (pending : Pending) (path : string) (body : Value) : Prog (Pending * result Value ClientError) :=
  match as_str body.["metadata"].["name"] with
  | None => Ret (pending, Err (Local "controller create requires an explicit name"))
  | Some name =>
      let owner := create_owner body in
      let group := create_group path name owner in
      let previous := pending !! group in
      let p := default (mkPending path body owner) previous in
      let pending := <[group := p]> pending in
      match previous with
      | None => finish_create pending group p false
      | Some _ =>
          r <== api_get (pc_path p ++ "/" ++ pending_name p) ;;
          match r with
          | Err e => Ret (pending, Err e)
          | Ok (status, answer) =>
              if is_success status then
                match answer with
                | None => Ret (pending, Err Unreadable)
                | Some existing =>
                    if str_eqb (create_owner existing) (pc_owner p)
                    then Tell (Acknowledged (pc_path p) existing) (Tell (Requeue 0) (Ret (delete group pending, Ok existing)))
                    else Ret (pending, Err (Local "ambiguous create name belongs to another owner"))
                end
              else if status =? 404 then finish_create pending group p true
              else Ret (pending, Err (Local "cannot resolve ambiguous create"))
          end
      end
  end.

Definition forget_creates (pending : Pending) (owner : string) : Pending :=
  filter (λ gp : string * PendingCreate, pc_owner gp.2 ≠ owner) pending.

(** ** What the client asks for *)

(** Notes, and the requests a step may make. *)
Definition asks (P : Request → Prop) (e : Event) : Prop := match e with EAsk q _ => P q | ENote _ => True end.

Lemma emits_check {A E} P (r : result A E) : emits (asks P) (check r).
Proof. destruct r; cbn; walk_emits; done. Qed.

Lemma emits_respond P a : emits (asks P) (respond a).
Proof. destruct a; cbn; walk_emits; done. Qed.

Lemma emits_send_json q p : emits (asks (λ x, x = q)) (send_json q p).
Proof.
  apply emits_ask; [done|]. intros a. destruct (json_answer a); [|apply (emits_check _ (Err _))].
  apply emits_tell; [done|]. destruct (_ && _); walk_emits; done.
Qed.

Lemma filled_Some v s : filled v = Some s → v = Str s.
Proof. unfold filled. destruct v; try done. cbn. destruct (is_empty_str _); [done|]. by intros [= ->]. Qed.

(** A DELETE that names the UID and the revision observed. *)
Definition names_observed (v : Value) (options : option Value) : Prop :=
  ∃ o u rv, options = Some o ∧ v.["metadata"].["uid"] = Str u ∧ v.["metadata"].["resourceVersion"] = Str rv ∧
    o.["preconditions"].["uid"] = Str u ∧ o.["preconditions"].["resourceVersion"] = Str rv.

Lemma emits_delete_observed p v : emits (asks (λ q, ∃ o, q = QDelete p o ∧ names_observed v o)) (api_delete_observed p v).
Proof.
  unfold api_delete_observed. destruct (filled v.["metadata"].["uid"]) as [u|] eqn:Eu; [|apply (emits_check _ (Err _))].
  destruct (filled v.["metadata"].["resourceVersion"]) as [rv|] eqn:Er; [|apply (emits_check _ (Err _))].
  apply filled_Some in Eu, Er. apply emits_ask.
  - intros a. eexists. split; [done|]. eexists _, u, rv. by split_and!.
  - intros [|s b]; [apply (emits_check _ (Err _))|]. destruct (s =? 404); [apply emits_ret|].
    destruct (is_error s); [apply (emits_check _ (Err _))|apply emits_ret].
Qed.

(** At most one DELETE is sent. *)
Lemma delete_observed_once p v t r : exec (api_delete_observed p v) t r →
  (length (List.filter (λ e, match e with EAsk _ _ => true | ENote _ => false end) t) ≤ 1)%nat.
Proof.
  unfold api_delete_observed.
  assert (∀ A (x : result A ClientError) t r, exec (check x) t r → List.filter (λ e, match e with EAsk _ _ => true | ENote _ => false end) t = []) as Hc.
  { intros A [x|e] t0 r0 E; cbn in E; [by apply exec_ret_inv in E as [-> _]|]. by apply exec_tell_inv in E as (? & -> & [-> _]%exec_ret_inv). }
  destruct (filled _) as [u|]; [|intros E; rewrite (Hc _ _ _ _ E); cbn; lia].
  destruct (filled _) as [rv|]; [|intros E; rewrite (Hc _ _ _ _ E); cbn; lia].
  intros (a & t' & -> & E)%exec_ask_inv. cbn. destruct a as [|s b]; [rewrite (Hc _ _ _ _ E); cbn; lia|].
  destruct (s =? 404); [apply exec_ret_inv in E as [-> _]; cbn; lia|].
  destruct (is_error s); [rewrite (Hc _ _ _ _ E); cbn; lia|apply exec_ret_inv in E as [-> _]; cbn; lia].
Qed.

(** ** A lost create is repeated, not replaced *)

Definition group_of (path : string) (body : Value) : option string :=
  (λ name, create_group path name (create_owner body)) <$> as_str body.["metadata"].["name"].

(** What a call has at stake: the create still open in its group, or its own. *)
Definition at_stake (pending : Pending) (g path : string) (body : Value) : PendingCreate :=
  default (mkPending path body (create_owner body)) (pending !! g).

Definition is_get (e : Event) : bool := match e with EAsk (QGet _) _ => true | _ => false end.

(** A call whose answers settle the create: the object was found, or the POST
    was answered for good. *)
Definition settling (t : list Event) : bool :=
  existsb (λ e, match e with
                | EAsk (QGet _) (AResponse s _) => is_success s
                | EAsk (QPost _ _) a => definitive (existsb is_get t) (json_answer a)
                | _ => false
                end) t.

(** An answer that leaves it in doubt whether the create was carried out, or
    will yet be: none at all, an error of the server, 408 or 429, a body that
    cannot be read, or 409 for a POST sent again (the first one may have been
    what it conflicts with). *)
Definition in_doubt (repeated : bool) (a : Answer) : Prop :=
  match a with
  | ALost => True
  | AResponse s body =>
      500 ≤ s ≤ 599 ∨ s = 408 ∨ s = 429 ∨ (s = 409 ∧ repeated = true) ∨ (is_error s = false ∧ body = None)
  end.

(** A call after which the create is still in doubt: no GET found the object,
    and no POST was answered for good. *)
Definition doubtful (t : list Event) : Prop :=
  ∀ q a, EAsk q a ∈ t →
    match q with
    | QGet _ => ∀ s b, a = AResponse s b → is_success s = false
    | QPost _ _ => in_doubt (existsb is_get t) a
    | _ => True
    end.

Lemma in_doubt_definitive repeated a : in_doubt repeated a → definitive repeated (json_answer a) = false.
Proof.
  destruct a as [|s body]; [done|]. cbn. unfold is_error.
  intros [H|[->|[->|[[-> ->]|[-> ->]]]]]; [|done..]. replace (400 <=? s) with true by lia.
  replace (s <=? 599) with true by lia. cbn. replace (s <=? 499) with false by lia. by rewrite andb_false_r.
Qed.

Lemma doubtful_settling t : doubtful t → settling t = false.
Proof.
  intros H. unfold settling. apply not_true_is_false. rewrite existsb_exists. intros (e & Hin%list_elem_of_In & He).
  destruct e as [[] a|]; try done; specialize (H _ _ Hin); cbn in H.
  - destruct a as [|s b]; [done|]. rewrite (H s b eq_refl) in He. done.
  - by rewrite in_doubt_definitive in He.
Qed.

Definition posts (t : list Event) (path : string) (body : Value) : Prop := ∃ a, EAsk (QPost path body) a ∈ t.

(** A GET of that path was answered 404, before anything else was asked. *)
Definition found_nothing (t : list Event) (path : string) : Prop := ∃ b t', t = EAsk (QGet path) (AResponse 404 b) :: t'.

(** A write: one request, its answer read, and notes. *)
Lemma send_json_exec q path t r :
  exec (send_json q path) t r →
  ∃ a t', t = EAsk q a :: t' ∧ r = json_answer a ∧ Forall (λ e, match e with ENote _ => True | _ => False end) t'.
Proof.
  intros (a & t' & -> & E)%exec_ask_inv. exists a, t'. split; [done|].
  destruct (json_answer a) as [v|e]; cbn in E.
  - apply exec_tell_inv in E as (t1 & -> & E). destruct (_ && _).
    + apply exec_tell_inv in E as (t2 & -> & E). apply exec_ret_inv in E as [-> ->]. split; [done|by repeat constructor].
    + apply exec_ret_inv in E as [-> ->]. split; [done|by repeat constructor].
  - apply exec_tell_inv in E as (t1 & -> & E). apply exec_ret_inv in E as [-> ->]. split; [done|by repeat constructor].
Qed.

Lemma send_create_exec path body t r :
  exec (send_create path body) t r →
  ∃ a t', t = EAsk (QPost path body) a :: t' ∧ r = json_answer a ∧ Forall (λ e, match e with ENote _ => True | _ => False end) t'.
Proof. apply send_json_exec. Qed.

Lemma existsb_notes (f : Event → bool) t :
  (∀ n, f (ENote n) = false) → Forall (λ e, match e with ENote _ => True | _ => False end) t → existsb f t = false.
Proof. intros Hf. induction 1 as [|[q a|n] t Hn Ht IH]; cbn; [done..|]. by rewrite Hf, IH. Qed.

Lemma notes_no_post t path body :
  Forall (λ e, match e with ENote _ => True | _ => False end) t → ¬ posts t path body.
Proof. intros Ht (a & Hin). rewrite Forall_forall in Ht. by apply Ht in Hin. Qed.

(** The last leg: one POST of what is at stake, kept open unless settled. *)
Lemma finish_create_exec pending g p repeated t pending' r :
  exec (finish_create pending g p repeated) t (pending', r) →
  ∃ a t', t = EAsk (QPost (pc_path p) (pc_body p)) a :: t' ∧
    Forall (λ e, match e with ENote _ => True | _ => False end) t' ∧
    pending' = (if definitive repeated (json_answer a) then delete g pending else pending).
Proof.
  intros (t1 & t2 & r1 & E1 & E2 & ->)%exec_bind. apply send_create_exec in E1 as (a & t' & -> & -> & Hn).
  exists a, (t' ++ t2)%list. split; [done|].
  assert (Forall (λ e, match e with ENote _ => True | _ => False end) t2 ∧
          pending' = (if definitive repeated (json_answer a) then delete g pending else pending)) as [H2 ->].
  { destruct (repeated && is_ok (json_answer a)).
    - apply exec_tell_inv in E2 as (t3 & -> & E2). apply exec_ret_inv in E2 as [-> [= -> _]]. by repeat constructor.
    - apply exec_ret_inv in E2 as [-> [= -> _]]. by repeat constructor. }
  split; [by apply Forall_app|done].
Qed.

Lemma respond_exec a t r :
  exec (respond a) t r → Forall (λ e, match e with ENote _ => True | _ => False end) t ∧
  r = match a with ALost => Err Lost | AResponse s b => Ok (s, b) end.
Proof.
  destruct a as [|s b]; cbn; intros E.
  - apply exec_tell_inv in E as (t1 & -> & E). apply exec_ret_inv in E as [-> ->]. by repeat constructor.
  - destruct (_ || _).
    + apply exec_ret_inv in E as [-> ->]. by repeat constructor.
    + apply exec_tell_inv in E as (t1 & -> & E). apply exec_ret_inv in E as [-> ->]. by repeat constructor.
Qed.

(** One call: it posts only what is at stake, a second time only after its
    name was found free, and forgets it only when it is settled. *)
Lemma create_step pending g path body t pending' r :
  group_of path body = Some g → exec (create pending path body) t (pending', r) →
  let p := at_stake pending g path body in
  (∀ pa b, posts t pa b → pa = pc_path p ∧ b = pc_body p ∧
     (is_Some (pending !! g) → found_nothing t (pc_path p ++ "/" ++ pending_name p))) ∧
  (pending' = <[g := p]> pending ∨ pending' = delete g (<[g := p]> pending)) ∧
  (settling t = false → pending' = <[g := p]> pending).
Proof.
  unfold group_of, at_stake. destruct (as_str body.["metadata"].["name"]) as [name|] eqn:En; [|done]. cbn.
  intros [= Hg] E. unfold create in E. rewrite En in E. cbn zeta in E. rewrite Hg in E.
  set (p := default _ _) in *. destruct (pending !! g) as [prev|] eqn:Ep.
  - apply exec_bind in E as (t1 & t2 & r1 & E1 & E2 & ->). apply exec_ask_inv in E1 as (a & t1' & -> & E1).
    apply respond_exec in E1 as [Hn1 ->].
    assert (∀ t3, Forall (λ e, match e with ENote _ => True | _ => False end) t3 →
      ∀ q pa b, ¬ posts ((EAsk (QGet q) a :: t1') ++ t3) pa b) as Hno.
    { intros t3 H3 q pa b (a' & [Hin|Hin]%elem_of_cons); [done|]. apply elem_of_app in Hin as [Hin|Hin].
      - by apply (notes_no_post t1' pa b Hn1); exists a'.
      - by apply (notes_no_post t3 pa b H3); exists a'. }
    destruct a as [|s ans].
    { apply exec_ret_inv in E2 as [-> [= <- _]]. split_and!; [intros pa b H; by apply Hno in H|by left|done]. }
    destruct (is_success s) eqn:Es.
    + destruct ans as [existing|]; [destruct (str_eqb _ _)|].
      * apply exec_tell_inv in E2 as (t3 & -> & E2). apply exec_tell_inv in E2 as (t4 & -> & E2).
        apply exec_ret_inv in E2 as [-> [= <- _]]. split_and!; [|by right|].
        -- intros pa b H. apply Hno in H; [done|by repeat constructor].
        -- intros H. exfalso. cbn in H. by rewrite Es in H.
      * apply exec_ret_inv in E2 as [-> [= <- _]]. split_and!; [intros pa b H; by apply Hno in H|by left|done].
      * apply exec_ret_inv in E2 as [-> [= <- _]]. split_and!; [intros pa b H; by apply Hno in H|by left|done].
    + destruct (s =? 404) eqn:E4.
      2: { apply exec_ret_inv in E2 as [-> [= <- _]]. split_and!; [intros pa b H; by apply Hno in H|by left|done]. }
      apply Z.eqb_eq in E4 as ->. apply finish_create_exec in E2 as (a & t3 & -> & Hn3 & ->). split_and!.
      * intros pa b (a' & Hin). cbn in Hin. apply elem_of_cons in Hin as [Hin|Hin]; [done|].
        apply elem_of_app in Hin as [Hin|Hin]; [by exfalso; apply (notes_no_post t1' pa b Hn1); exists a'|].
        apply elem_of_cons in Hin as [[= -> -> _]|Hin]; [|by exfalso; apply (notes_no_post t3 pa b Hn3); exists a'].
        split_and!; [done..|]. intros _. by eexists _, _.
      * destruct (definitive _ _); [by right|by left].
      * intros Hs. destruct (definitive true (json_answer a)) eqn:Ed; [|done]. exfalso. revert Hs. unfold settling. cbn.
        rewrite existsb_app. cbn. rewrite Ed. by rewrite orb_true_r.
  - apply finish_create_exec in E as (a & t' & -> & Hn & ->). split_and!.
    + intros pa b (a' & [[= -> -> _]|Hin]%elem_of_cons); [|by exfalso; apply (notes_no_post t' pa b Hn); exists a'].
      split_and!; [done..|]. by intros [? ?].
    + destruct (definitive _ _); [by right|by left].
    + intros Hs. destruct (definitive false (json_answer a)) eqn:Ed; [|done]. exfalso. revert Hs. unfold settling. cbn.
      rewrite (existsb_notes is_get t') by done. by rewrite Ed.
Qed.

(** A history of the client: creates and what was said, and owners given up. *)
Inductive Call :=
  | CCreate (path : string) (body : Value)
  | CForget (owner : string).

Inductive runs : Pending → list (Call * list Event) → Pending → Prop :=
  | runs_nil p : runs p [] p
  | runs_create p path body t p1 r h p2 :
      exec (create p path body) t (p1, r) → runs p1 h p2 → runs p ((CCreate path body, t) :: h) p2
  | runs_forget p owner h p2 :
      runs (forget_creates p owner) h p2 → runs p ((CForget owner, []) :: h) p2.

(** Whether a call leaves the open create [p] of group [g] open. *)
Definition leaves_open (g owner : string) (ct : Call * list Event) : Prop :=
  match ct.1 with
  | CCreate path body => group_of path body = Some g → doubtful ct.2
  | CForget o => o ≠ owner
  end.

Lemma create_other_group pending path body t pending' r g :
  exec (create pending path body) t (pending', r) → group_of path body ≠ Some g → pending' !! g = pending !! g.
Proof.
  intros E Hg. destruct (group_of path body) as [g'|] eqn:Eg.
  - destruct (create_step _ _ _ _ _ _ _ Eg E) as (_ & [->| ->] & _).
    + rewrite lookup_insert_ne; [done|congruence].
    + rewrite lookup_delete_ne, lookup_insert_ne; [done|congruence..].
  - unfold group_of in Eg. unfold create in E. destruct (as_str _); [done|]. by apply exec_ret_inv in E as [_ [= -> _]].
Qed.

Lemma runs_open h : ∀ pending pending' g p,
  runs pending h pending' → pending !! g = Some p → Forall (leaves_open g (pc_owner p)) h → pending' !! g = Some p.
Proof.
  induction h as [|[c t] h IH]; intros pending pending' g p Hr Hp HF; inversion Hr; subst; [done|..];
    inversion HF as [|? ? Hc HF']; subst; unfold leaves_open in Hc; cbn in Hc.
  - eapply IH; [done| |done]. destruct (decide (group_of path body = Some g)) as [Eg|Eg].
    + match goal with H : exec _ _ _ |- _ => destruct (create_step _ _ _ _ _ _ _ Eg H) as (_ & _ & Hk) end.
      rewrite (Hk (doubtful_settling _ (Hc Eg))), lookup_insert_eq. unfold at_stake. by rewrite Hp.
    + match goal with H : exec _ _ _ |- _ => by rewrite (create_other_group _ _ _ _ _ _ _ H Eg) end.
  - eapply IH; [done| |done]. unfold forget_creates. apply map_lookup_filter_Some. split; [done|]. cbn. congruence.
Qed.

Lemma runs_app h1 h2 p p' : runs p (h1 ++ h2) p' → ∃ q, runs p h1 q ∧ runs q h2 p'.
Proof.
  revert p. induction h1 as [|[c t] h1 IH]; intros p Hr; [exists p; by repeat constructor|].
  inversion Hr; subst; (edestruct IH as (q & H1 & H2); [done|]); exists q; (split; [by econstructor|done]).
Qed.

(** Every open create is kept with the owner its body names. *)
Definition owners_ok (pending : Pending) : Prop := map_Forall (λ _ p, pc_owner p = create_owner (pc_body p)) pending.

Lemma runs_owners h p p' : runs p h p' → owners_ok p → owners_ok p'.
Proof.
  induction 1 as [|p path body t p1 r h p2 E _ IH|p owner h p2 _ IH]; intros Hp; [done|..]; apply IH.
  - destruct (group_of path body) as [g|] eqn:Eg.
    + assert (owners_ok (<[g := at_stake p g path body]> p)) as Hi.
      { apply map_Forall_insert_2; [|done]. unfold at_stake. destruct (p !! g) eqn:E'; [by apply (Hp g)|done]. }
      destruct (create_step _ _ _ _ _ _ _ Eg E) as (_ & [->| ->] & _); [done|by apply map_Forall_delete].
    + unfold group_of in Eg. unfold create in E. destruct (as_str _); [done|]. by apply exec_ret_inv in E as [_ [= -> _]].
  - unfold forget_creates. intros g q [H _]%map_lookup_filter_Some. by apply (Hp g).
Qed.

(** C12: a create that is in doubt is never replaced by another.  In any
    history of the client, let a POST be sent for an owner (or, without an
    owner, for a name), and let every call of its group from then to a later
    POST leave it in doubt, the owner not being given up: no GET of the name
    found an object, and every POST was lost, answered 5xx, 408 or 429, or
    unreadably, or with 409 when it had been sent before.  Then the later POST
    has the same path and the same body, name included, and was sent only
    after a GET of that name was answered 404.  So whatever new name a retried
    controller has thought of meanwhile, what it sends is the object in
    doubt. *)
Theorem lost_create_repeated h1 h2 h3 path body t path' body' t' pending g pa b pa' b' :
  runs ∅ (h1 ++ (CCreate path body, t) :: h2 ++ (CCreate path' body', t') :: h3) pending →
  group_of path body = Some g → group_of path' body' = Some g →
  posts t pa b → posts t' pa' b' →
  Forall (leaves_open g (create_owner b)) ((CCreate path body, t) :: h2) →
  pa' = pa ∧ b' = b ∧ found_nothing t' (pa ++ "/" ++ str_or "" b.["metadata"].["name"]).
Proof.
  intros Hr Hg Hg' Hp Hp' HF. apply runs_app in Hr as (p0 & H1 & Hr).
  assert (owners_ok p0) as Ho by (eapply runs_owners; [exact H1|]; by apply map_Forall_empty).
  inversion Hr as [|? ? ? ? p1 r ? ? E1 Hr1|]; subst. apply runs_app in Hr1 as (p2 & H2 & Hr2).
  inversion Hr2 as [|? ? ? ? p3 r' ? ? E2 _|]; subst. inversion HF as [|? ? Hc HF']; subst.
  destruct (create_step _ _ _ _ _ _ _ Hg E1) as (Hpost & _ & Hkeep). destruct (Hpost _ _ Hp) as (-> & -> & _).
  rewrite (Hkeep (doubtful_settling _ (Hc Hg))) in H2. set (p := at_stake p0 g path body) in *.
  assert (pc_owner p = create_owner (pc_body p)) as Ep.
  { subst p. unfold at_stake. destruct (p0 !! g) eqn:E0; [by apply (Ho g)|done]. }
  assert (p2 !! g = Some p) as Hopen by (eapply runs_open; [exact H2|apply lookup_insert_eq|by rewrite Ep]).
  destruct (create_step _ _ _ _ _ _ _ Hg' E2) as (Hpost' & _ & _). destruct (Hpost' _ _ Hp') as (-> & -> & Hf).
  unfold at_stake in *. rewrite Hopen in *. split_and!; [done..|]. apply Hf. by eexists.
Qed.

(** *** Witness *)

Definition demo_child (n : string) : Value :=
  json_obj [("metadata", json_obj [("name", Str n); ("ownerReferences", Array [json_obj [("uid", Str "rs-1"); ("controller", Bool true)]])])].

(** The POST of [web-a] is lost; asked for [web-b] next, the client looks for
    [web-a], does not find it, and posts [web-a] again. *)
Definition demo_lost : list Event := [EAsk (QPost "/api/v1/pods" (demo_child "web-a")) ALost; ENote Failed].
Definition demo_retry : list Event :=
  [EAsk (QGet "/api/v1/pods/web-a") (AResponse 404 None); EAsk (QPost "/api/v1/pods" (demo_child "web-a")) ALost; ENote Failed].

Lemma demo_runs : ∃ p, runs ∅ [(CCreate "/api/v1/pods" (demo_child "web-a"), demo_lost); (CCreate "/api/v1/pods" (demo_child "web-b"), demo_retry)] p.
Proof.
  eexists. eapply runs_create; [apply (play_exec [ALost]); vm_compute; reflexivity|].
  eapply runs_create; [apply (play_exec [AResponse 404 None; ALost]); vm_compute; reflexivity|]. constructor.
Qed.

Lemma lost_create_repeated_witness : demo_child "web-a" ≠ demo_child "web-b" ∧ found_nothing demo_retry "/api/v1/pods/web-a".
Proof.
  split; [discriminate|]. destruct demo_runs as [p Hp].
  destruct (lost_create_repeated [] [] [] "/api/v1/pods" (demo_child "web-a") demo_lost "/api/v1/pods" (demo_child "web-b") demo_retry p
    "/api/v1/pods/rs-1" "/api/v1/pods" (demo_child "web-a") "/api/v1/pods" (demo_child "web-a") Hp eq_refl eq_refl) as (_ & _ & H).
  - exists ALost. left.
  - exists ALost. right. left.
  - constructor; [|constructor]. intros _ q a Hin. apply elem_of_cons in Hin as [E|Hin].
    + injection E as -> ->. exact I.
    + apply elem_of_cons in Hin as [E|Hin]; [discriminate E|]. by apply elem_of_nil in Hin.
  - exact H.
Defined.

(** ** What a create asks for *)

Definition is_post (path : string) (e : Event) : bool :=
  match e with EAsk (QPost p _) _ => str_eqb p path | _ => false end.

Definition count_posts (path : string) (t : list Event) : nat := length (List.filter (is_post path) t).

Lemma count_posts_app path t1 t2 : count_posts path (t1 ++ t2) = (count_posts path t1 + count_posts path t2)%nat.
Proof. unfold count_posts. by rewrite List.filter_app, length_app. Qed.

Lemma count_posts_notes path t : Forall (λ e, match e with ENote _ => True | _ => False end) t → count_posts path t = 0%nat.
Proof. unfold count_posts. induction 1 as [|[] t Hn Ht IH]; cbn; [done..|]. exact IH. Qed.

Lemma finish_create_posts pending g p repeated t x path :
  exec (finish_create pending g p repeated) t x → (count_posts path t ≤ 1)%nat.
Proof.
  destruct x as [pending' r]. intros (a & t' & -> & Hn & _)%finish_create_exec. pose proof (count_posts_notes path t' Hn) as H.
  unfold count_posts in *. cbn. destruct (str_eqb _ _); cbn; lia.
Qed.

(** A call of [create] sends one POST at most. *)
Lemma create_posts_once pending path body t x at_path : exec (create pending path body) t x → (count_posts at_path t ≤ 1)%nat.
Proof.
  unfold create. destruct (as_str _) as [name|]; [|intros [-> _]%exec_ret_inv; cbn; lia]. cbn zeta.
  destruct (pending !! _) as [prev|]; [|apply finish_create_posts].
  intros (t1 & t2 & r1 & E1 & E2 & ->)%exec_bind. apply exec_ask_inv in E1 as (a & t1' & -> & E1).
  apply respond_exec in E1 as [Hn ->]. rewrite count_posts_app.
  assert (count_posts at_path (EAsk (QGet (pc_path (default (mkPending path body (create_owner body)) (Some prev)) ++ "/" ++
    pending_name (default (mkPending path body (create_owner body)) (Some prev)))) a :: t1') = 0%nat) as H0.
  { pose proof (count_posts_notes at_path t1' Hn) as H. unfold count_posts in *. cbn. exact H. }
  rewrite H0. cbn [default from_option id] in *.
  destruct a as [|s b]; [apply exec_ret_inv in E2 as [-> _]; cbn; lia|]. destruct (is_success s).
  - destruct b as [existing|]; [destruct (str_eqb _ _)|]; [|apply exec_ret_inv in E2 as [-> _]; cbn; lia..].
    apply exec_tell_inv in E2 as (? & -> & E2). apply exec_tell_inv in E2 as (? & -> & E2). apply exec_ret_inv in E2 as [-> _]. cbn. lia.
  - destruct (s =? 404); [|apply exec_ret_inv in E2 as [-> _]; cbn; lia]. by apply finish_create_posts with (path := at_path) in E2.
Qed.

Definition no_delete (q : Request) : Prop := match q with QDelete _ _ => False | _ => True end.

(** A create asks by GET and POST alone. *)
Lemma emits_create_asks (P : Request → Prop) pending path body :
  (∀ p, P (QGet p)) → (∀ p b, P (QPost p b)) → emits (asks P) (create pending path body).
Proof.
  intros Hget Hpost. assert (∀ pending g p b, emits (asks P) (finish_create pending g p b)) as Hf.
  { intros ? g p b. apply emits_bind.
    - eapply emits_weaken; [|apply emits_send_json]. intros [q a|n]; [|done]. cbn. by intros ->.
    - intros r. destruct (_ && _); walk_emits; done. }
  unfold create. destruct (as_str _) as [nm|]; [|apply emits_ret]. cbn zeta. destruct (pending !! _) as [p|]; [|apply Hf].
  apply emits_bind; [apply emits_ask; [by intros ?; apply Hget|intros ?; apply emits_respond]|].
  intros [[s b]|e]; [|apply emits_ret]. destruct (is_success s).
  - destruct b as [v|]; [|apply emits_ret]. destruct (str_eqb _ _); walk_emits; done.
  - destruct (s =? 404); [apply Hf|apply emits_ret].
Qed.

Lemma emits_create pending path body : emits (asks no_delete) (create pending path body).
Proof. by apply emits_create_asks. Qed.

(** Every open create is filed under its own path. *)
Definition filed (pending : Pending) : Prop := ∀ g p, pending !! g = Some p → ∃ x, g = pc_path p ++ "/" ++ x.

Lemma create_filed pending path body t pending' r :
  exec (create pending path body) t (pending', r) → filed pending → filed pending'.
Proof.
  intros E Hf. destruct (group_of path body) as [g|] eqn:Eg.
  - assert (filed (<[g := at_stake pending g path body]> pending)) as Hi.
    { intros g' p. rewrite lookup_insert_Some. intros [[<- <-]|[_ H]]; [|by apply Hf]. unfold at_stake.
      destruct (pending !! g) eqn:E0; [by apply Hf|]. cbn. unfold group_of in Eg. destruct (as_str _); [|done].
      injection Eg as <-. unfold create_group. by eexists. }
    destruct (create_step _ _ _ _ _ _ _ Eg E) as (_ & [->| ->] & _); [done|].
    intros g' p [_ H]%lookup_delete_Some. by apply Hi.
  - unfold group_of in Eg. unfold create in E. destruct (as_str _); [done|]. by apply exec_ret_inv in E as [_ [= -> _]].
Qed.

(** So a create posts to the path it was given, or to one that its group's
    name spells out. *)
Lemma create_posts_path pending path body t pending' r g pa b :
  exec (create pending path body) t (pending', r) → filed pending → group_of path body = Some g → posts t pa b →
  pa = path ∨ ∃ x, g = pa ++ "/" ++ x.
Proof.
  intros E Hf Hg Hp. destruct (create_step _ _ _ _ _ _ _ Hg E) as (H & _ & _). destruct (H _ _ Hp) as (-> & _ & _).
  unfold at_stake. destruct (pending !! g) as [p|] eqn:E0; [right; by apply Hf|by left].
Qed.

(** A create with nothing open in its group posts what it was given. *)
Lemma create_fresh_posts pending path body t pending' r g pa b :
  exec (create pending path body) t (pending', r) → group_of path body = Some g → pending !! g = None → posts t pa b →
  pa = path ∧ b = body.
Proof.
  intros E Hg Hn Hp. destruct (create_step _ _ _ _ _ _ _ Hg E) as (H & _ & _). destruct (H _ _ Hp) as (-> & -> & _).
  unfold at_stake. by rewrite Hn.
Qed.

(** Writing over an object (PUT, PATCH) posts nothing and deletes nothing. *)
Lemma send_json_quiet q p t r :
  exec (send_json q p) t r → match q with QPost _ _ | QDelete _ _ => False | _ => True end →
  (∀ path, count_posts path t = 0%nat) ∧ (∀ path body, ¬ posts t path body) ∧ Forall (asks no_delete) t.
Proof.
  intros E%emits_send_json Hq. split_and!.
  - intros path. unfold count_posts. induction E as [|[q' a|n] t H _ IH]; cbn; [done| |done]. cbn in H. subst q'.
    destruct q; try done; exact IH.
  - intros path body (a & Hin). rewrite Forall_forall in E. apply E in Hin. cbn in Hin. by subst q.
  - eapply Forall_impl; [exact E|]. intros [q' a|n]; [|done]. cbn. intros ->. by destruct q.
Qed.

Lemma no_post_count path t : (∀ pa b, ¬ posts t pa b) → count_posts path t = 0%nat.
Proof.
  intros H. unfold count_posts. destruct (List.filter (is_post path) t) as [|e l] eqn:Ef; [done|].
  assert (In e (List.filter (is_post path) t)) as Hin by (rewrite Ef; by left). apply filter_In in Hin as [Hin He].
  destruct e as [[]|]; try done. exfalso. eapply H. exists a. by apply list_elem_of_In.
Qed.

Lemma posts_app t1 t2 pa b : posts (t1 ++ t2) pa b ↔ posts t1 pa b ∨ posts t2 pa b.
Proof. unfold posts. setoid_rewrite elem_of_app. naive_solver. Qed.

(** An unfinished DELETE posts nothing. *)
Lemma delete_observed_posts p v t r pa b : exec (api_delete_observed p v) t r → ¬ posts t pa b.
Proof. intros E%emits_delete_observed (a & Hin). rewrite Forall_forall in E. apply E in Hin as (o & H & _). done. Qed.

(** Whatever is asked of the one request sent. *)
Lemma send_asks (P : Request → Prop) q path : P q → emits (asks P) (send_json q path).
Proof. intros H. eapply emits_weaken; [|apply emits_send_json]. intros [q' a|n]; [|done]. cbn. by intros ->. Qed.
