(* ===== verification/Gc.v ===== *)
(** * The garbage collector ([pkg/controller-manager/src/gc.rs])

    One worker per resource discovered walks the objects of that resource: a
    terminating owner held by the [orphan] or [foregroundDeletion] finalizer is
    let go once its dependents have been dealt with, and an object all of whose
    owners are gone is deleted.  The passes are programs over the API client
    ([Client]); the feeds of the dependents are informer stores ([Informer]).

    Proved for every run, whatever the server answers: an object is deleted as
    garbage only after each of its owners was looked up and found gone, and
    only in the revision observed; an [orphan] finalizer is lifted only after
    every dependent a full LIST showed has been cut loose, a
    [foregroundDeletion] one only when none of them blocks. *)

From Stdlib Require Import ZArith Lia String Ascii.
From stdpp Require Import base gmap strings numbers option list.
From S2P Require Import Prelude Text BTree Json Informer Owned Client.
Open Scope string_scope.
Open Scope kube_scope.
Open Scope Z_scope.

Definition FOREGROUND_FINALIZER : string := "foregroundDeletion".
Definition ORPHAN_FINALIZER : string := "orphan".
Definition SKIP_RESOURCES : list string := ["events"; "componentstatuses"; "bindings"; "tokenreviews"].

Record Resource := mkResource { group_version : string; r_name : string; r_kind : string; namespaced : bool }.

Definition list_path (r : Resource) : string :=
  if str_eqb (group_version r) "v1" then "/api/v1/" ++ r_name r else "/apis/" ++ group_version r ++ "/" ++ r_name r.

Definition object_path (r : Resource) (namespace name : string) : string :=
  let root := if str_eqb (group_version r) "v1" then "/api/v1" else "/apis/" ++ group_version r in
  if namespaced r then root ++ "/namespaces/" ++ namespace ++ "/" ++ r_name r ++ "/" ++ name
  else root ++ "/" ++ r_name r ++ "/" ++ name.

Record Object := mkObject { resource : Resource; value : Value }.

Definition uid (o : Object) : string := str_or "" (value o).["metadata"].["uid"].
Definition name (o : Object) : string := str_or "" (value o).["metadata"].["name"].
Definition namespace (o : Object) : string := str_or "" (value o).["metadata"].["namespace"].
Definition path (o : Object) : string := object_path (resource o) (namespace o) (name o).
Definition deleting (o : Object) : bool := negb (is_null (value o).["metadata"].["deletionTimestamp"]).
Definition finalizers (o : Object) : list string := omap as_str (items (value o).["metadata"].["finalizers"]).
Definition owner_refs (o : Object) : list Value := items (value o).["metadata"].["ownerReferences"].

(** Pulls the walkable resources out of an [APIResourceList]. *)
Definition parse_resource (gv : string) (r : Value) : option Resource :=
  n ← as_str r.["name"];
  if str_contains_char "/" n || str_in n SKIP_RESOURCES then None
  else
    let verbs := omap as_str (items r.["verbs"]) in
    if negb (str_in "list" verbs) || negb (str_in "delete" verbs) then None
    else Some (mkResource gv n (str_or "" r.["kind"]) (default true (as_bool r.["namespaced"]))).

Definition parse_resource_list (gv : string) (list_ : Value) : list Resource :=
  omap (parse_resource gv) (items list_.["resources"]).

(** The preferred version of each group, or its first. *)
Definition group_versions (groups : Value) : list string :=
  omap (λ g, match as_str g.["preferredVersion"].["groupVersion"] with
             | Some gv => Some gv
             | None => match items g.["versions"] with v :: _ => as_str v.["groupVersion"] | [] => None end
             end) (items groups.["groups"]).

Fixpoint discover_versions (out : list Resource) (gvs : list string) : Prog (list Resource) :=
  match gvs with
  | [] => Ret out
  | gv :: rest =>
      r <== api_list ("/apis/" ++ gv) ;;
      match r with
      | Ok l => discover_versions (out ++ parse_resource_list gv l) rest
      | Err _ => Ret []
      end
  end.

(** Everything listable and deletable, or nothing if any part is unread. *)
Definition discover : Prog (list Resource) :=
  core <== api_list "/api/v1" ;;
  match core with
  | Err _ => Ret []
  | Ok core =>
      groups <== api_list "/apis" ;;
      match groups with
      | Err _ => Ret []
      | Ok groups => discover_versions (parse_resource_list "v1" core) (group_versions groups)
      end
  end.

(** ** Finalizers *)

Definition owned_by (owner_uid : string) (r : Value) : bool := str_is r.["uid"] owner_uid.

(** Cuts one owner reference; whether the dependent is free of that owner. *)
Definition strip_patch (child : Object) (owner_uid : string) : Value :=
  json_obj [("metadata", json_obj [("uid", (value child).["metadata"].["uid"]);
    ("resourceVersion", (value child).["metadata"].["resourceVersion"]);
    ("ownerReferences", Array (List.filter (λ r, negb (owned_by owner_uid r)) (owner_refs child)))])].

Definition strip_owner (child : Object) (owner_uid : string) : Prog bool :=
  let remaining := List.filter (λ r, negb (owned_by owner_uid r)) (owner_refs child) in
  if (length remaining =? length (owner_refs child))%nat then Ret true
  else
    r <== api_patch_merge (path child) (strip_patch child owner_uid) ;;
    Ret (is_ok r).

Definition finalizer_patch (obj : Object) (finalizer : string) : Value :=
  json_obj [("metadata", json_obj [("uid", (value obj).["metadata"].["uid"]);
    ("resourceVersion", (value obj).["metadata"].["resourceVersion"]);
    ("finalizers", Array (Str <$> List.filter (λ f, negb (str_eqb f finalizer)) (finalizers obj)))])].

Definition remove_finalizer (obj : Object) (finalizer : string) : Prog unit :=
  _ <== api_patch_merge (path obj) (finalizer_patch obj finalizer) ;; Ret tt.

(** Cuts every child loose; whether all of them are. *)
Fixpoint strip_all (children : list Object) (owner_uid : string) (all_cut : bool) : Prog bool :=
  match children with
  | [] => Ret all_cut
  | child :: rest => ok <== strip_owner child owner_uid ;; strip_all rest owner_uid (all_cut && ok)
  end.

Definition blocks (owner_uid : string) (child : Object) : bool :=
  existsb (λ r, owned_by owner_uid r && match as_bool r.["blockOwnerDeletion"] with Some b => b | None => false end) (owner_refs child).

Definition foreground_options (child : Object) : Value :=
  json_obj [("apiVersion", Str "meta.k8s.io/v1"); ("kind", Str "DeleteOptions"); ("propagationPolicy", Str "Foreground");
    ("preconditions", json_obj [("uid", (value child).["metadata"].["uid"]);
                                ("resourceVersion", (value child).["metadata"].["resourceVersion"])])].

(** Deletes the children not yet on their way; counts those that block. *)
Fixpoint delete_children (children : list Object) (owner_uid : string) (blocking : nat) (changed : bool) : Prog (nat * bool) :=
  match children with
  | [] => Ret (blocking, changed)
  | child :: rest =>
      let blocking := if blocks owner_uid child then S blocking else blocking in
      if deleting child then delete_children rest owner_uid blocking changed
      else
        r <== api_delete_with_options (path child) (foreground_options child) ;;
        delete_children rest owner_uid blocking
          match r with Ok (s, _) => changed || is_success s || (s =? 404) | Err _ => changed end
  end.

Definition incomplete_message (n : nat) : string :=
  "orphaning left " ++ show_u (Z.of_nat n) ++ " owner(s) with dependents still referencing them; retrying".

(** Only the first object is looked at.  Indexes out of range (never built)
    would panic; they are dropped here. *)
Definition process_finalizers (objects : list Object) (dependents : gmap string (list nat)) : Prog (result bool string) :=
  match List.filter deleting (take 1 objects) with
  | [] => Ret (Ok false)
  | owner :: _ =>
      let foreground := str_in FOREGROUND_FINALIZER (finalizers owner) in
      let orphan := str_in ORPHAN_FINALIZER (finalizers owner) in
      if negb foreground && negb orphan then Ret (Ok false)
      else
        let children := omap (λ i, objects !! i) (default [] (dependents !! uid owner)) in
        if orphan then
          all_cut <== strip_all children (uid owner) true ;;
          if all_cut : bool then _ <== remove_finalizer owner ORPHAN_FINALIZER ;; Ret (Ok true)
          else Ret (Err (incomplete_message 1))
        else
          bc <== delete_children children (uid owner) 0 false ;;
          if (bc.1 =? 0)%nat then _ <== remove_finalizer owner FOREGROUND_FINALIZER ;; Ret (Ok true)
          else Ret (Ok bc.2)
  end.

(** ** Background collection *)

Definition owner_kind (owner : Value) : string := str_or "" owner.["apiVersion"] ++ "/" ++ str_or "" owner.["kind"].

(** [(any_live, all_known)], the loop left at the first owner that decides. *)
Fixpoint owners_state (live known : gset string) (owners : list Value) : bool * bool :=
  match owners with
  | [] => (false, true)
  | owner :: rest =>
      if negb (bool_decide (owner_kind owner ∈ known)) then (false, false)
      else if bool_decide (str_or "" owner.["uid"] ∈ live) then (true, true)
      else owners_state live known rest
  end.

Fixpoint background_cascade (objects : list Object) (live known : gset string) (changed : bool) : Prog bool :=
  match objects with
  | [] => Ret changed
  | obj :: rest =>
      let owners := owner_refs obj in
      let '(any_live, all_known) := owners_state live known owners in
      if deleting obj || (length owners =? 0)%nat || any_live || negb all_known
      then background_cascade rest live known changed
      else
        r <== api_delete_observed (path obj) (value obj) ;;
        background_cascade rest live known
          match r with Ok (s, _) => changed || is_success s || (s =? 404) | Err _ => changed end
  end.

(** ** A pass over one object *)

(** The dependents the feeds show, each once: positions start after the owner. *)
Fixpoint add_children (resource : Resource) (l : list Value) (seen : gset string) (objects : list Object) (children : list nat) :
    result (gset string * list Object * list nat) string :=
  match l with
  | [] => Ok (seen, objects, children)
  | child :: rest =>
      k <-? key_result child ;;
      if decide (key_uid k ∈ seen) then add_children resource rest seen objects children
      else add_children resource rest ({[key_uid k]} ∪ seen) (objects ++ [mkObject resource child]) (children ++ [length objects])
  end.

Fixpoint feed_children (owner_uid : string) (l : list (Resource * Informer.Store)) (seen : gset string) (objects : list Object)
    (children : list nat) : result (list Object * list nat) string :=
  match l with
  | [] => Ok (objects, children)
  | (resource, feed) :: rest =>
      found <-? Informer.select feed (IOwner owner_uid) ;;
      r <-? add_children resource found seen objects children ;;
      feed_children owner_uid rest r.1.1 r.1.2 r.2
  end.

(** The dependents a full LIST of every resource shows. *)
Definition names_owner (owner_uid : string) (child : Value) : bool :=
  match as_array child.["metadata"].["ownerReferences"] with
  | Some refs => existsb (owned_by owner_uid) refs
  | None => false
  end.

Fixpoint list_children (owner_uid : string) (resources : list Resource) (seen : gset string) (objects : list Object)
    (children : list nat) : Prog (result (list Object * list nat) string) :=
  match resources with
  | [] => Ret (Ok (objects, children))
  | resource :: rest =>
      r <== api_list (list_path resource) ;;
      match r with
      | Err _ => Ret (Err "list failed")
      | Ok l =>
          match as_array l.["items"] with
          | None => Ret (Err "invalid GC collection")
          | Some its =>
              match add_children resource (List.filter (names_owner owner_uid) its) seen objects children with
              | Err e => Ret (Err e)
              | Ok (seen, objects, children) => list_children owner_uid rest seen objects children
              end
          end
      end
  end.

(** Looks every owner up: the UIDs still there, and the kinds looked up.
    [None]: an owner of a kind not discovered, so nothing is done. *)
Fixpoint look_up_owners (resources : list Resource) (namespace : string) (owners : list Value) (live known : gset string) :
    Prog (result (option (gset string * gset string)) string) :=
  match owners with
  | [] => Ret (Ok (Some (live, known)))
  | owner :: rest =>
      match head (List.filter (λ r, str_is owner.["apiVersion"] (group_version r) && str_is owner.["kind"] (r_kind r)) resources) with
      | None => Ret (Ok None)
      | Some resource =>
          match filled owner.["uid"], as_str owner.["name"] with
          | None, _ => Ret (Err "owner has no UID")
          | _, None => Ret (Err "owner has no name")
          | Some _, Some n =>
              r <== api_get (object_path resource namespace n) ;;
              let known' := {[group_version resource ++ "/" ++ r_kind resource]} ∪ known in
              match r with
              | Err _ => Ret (Err "owner lookup failed")
              | Ok (status, body) =>
                  if status =? 404 then look_up_owners resources namespace rest live known'
                  else if is_error status then Ret (Err "owner lookup refused")
                  else match body with
                       | None => Ret (Err "owner is not JSON")
                       | Some current =>
                           look_up_owners resources namespace rest
                             (if value_eqb current.["metadata"].["uid"] owner.["uid"]
                              then {[str_or "" owner.["uid"]]} ∪ live else live) known'
                       end
              end
          end
      end
  end.

Definition held (o : Object) : bool :=
  deleting o && existsb (λ f, str_eqb f FOREGROUND_FINALIZER || str_eqb f ORPHAN_FINALIZER) (finalizers o).

Definition lift_result {A E} (r : result A E) : Prog (result A E) := Ret r.

(** [Collection::reconcile]. *)
Definition reconcile (resource : Resource) (resources : list Resource) (feeds : list Informer.Store) (v : Value) :
    Prog (result unit string) :=
  let object := mkObject resource v in
  k <-! lift_result (key_result v) ;;
  oc <-! lift_result (feed_children (key_uid k) (zip resources feeds) {[key_uid k]} [object] []) ;;
  oc <-! (if held object then list_children (uid object) resources {[uid object]} [object] [] else Ret (Ok oc)) ;;
  _ <-! process_finalizers oc.1 {[key_uid k := oc.2]} ;;
  lk <-! look_up_owners resources (namespace object) (owner_refs object) ∅ ∅ ;;
  match lk with
  | None => Ret (Ok tt)
  | Some (live, known) => _ <== background_cascade [object] live known false ;; Ret (Ok tt)
  end.

(** The objects a change of a dependency wakes: those it owns, and its owners. *)
Definition gc_route (d : Delta) (primary : Feed) : list Key :=
  (concat ((λ object, match as_str object.["metadata"].["uid"] with
                      | Some u => keys_at primary (IOwner u) | None => [] end) <$> sides d)
   ++ omap (λ i, match i with IOwner u => key_for_uid primary u | _ => None end) (elements (affected d)))%list.

(** ** Old events *)

(** [EVENT_TTL], in milliseconds. *)
Definition EVENT_TTL : Z := 3600000.

Section Events.
  (** [DateTime::parse_from_rfc3339], to milliseconds; the clock. *)
  Variables (parse_from_rfc3339 : string → option Z) (now : Z).

Definition event_time (ev : Value) : option string :=
  match as_str ev.["lastTimestamp"] with
  | Some s => Some s
  | None => match as_str ev.["eventTime"] with Some s => Some s | None => as_str ev.["metadata"].["creationTimestamp"] end
  end.

(** The deadline is asked for again while it lies ahead. *)
Definition expire_event (ev : Value) : Prog unit :=
  match event_time ev ≫= parse_from_rfc3339 with
  | None => Ret tt
  | Some t =>
      let expiry := t + EVENT_TTL in
      let n := str_or "" ev.["metadata"].["name"] in
      let rest :=
        if negb (expiry <=? now) || is_empty_str n then Ret tt
        else _ <== api_delete_observed ("/api/v1/namespaces/" ++ str_or "default" ev.["metadata"].["namespace"] ++ "/events/" ++ n) ev ;; Ret tt in
      if now <=? expiry then Tell (Requeue (expiry - now)) rest else rest
  end.
End Events.

(** ** What the steps ask for *)

Definition is_list (q : Request) : Prop := match q with QList _ => True | _ => False end.
Definition is_get (q : Request) : Prop := match q with QGet _ => True | _ => False end.
Definition is_patch (q : Request) : Prop := match q with QPatchMerge _ _ => True | _ => False end.

Lemma emits_list p : emits (asks is_list) (api_list p).
Proof. apply emits_ask; [done|]. intros a. apply emits_check. Qed.

Lemma emits_get p : emits (asks is_get) (api_get p).
Proof. apply emits_ask; [done|]. intros a. apply emits_respond. Qed.

Lemma emits_patch_merge p b : emits (asks (λ q, q = QPatchMerge p b)) (api_patch_merge p b).
Proof. apply emits_send_json. Qed.

(** A PATCH says what its answer says. *)
Lemma patch_merge_exec p b t r :
  exec (api_patch_merge p b) t r → ∃ a, EAsk (QPatchMerge p b) a ∈ t ∧ r = json_answer a.
Proof.
  intros (a & t' & -> & E)%exec_ask_inv. exists a. split; [left|]. destruct (json_answer a); cbn in E.
  - apply exec_tell_inv in E as (t1 & -> & E). destruct (_ && _).
    + apply exec_tell_inv in E as (t2 & -> & E). by apply exec_ret_inv in E as [_ ->].
    + by apply exec_ret_inv in E as [_ ->].
  - apply exec_tell_inv in E as (t1 & -> & E). by apply exec_ret_inv in E as [_ ->].
Qed.

Lemma get_exec p t r :
  exec (api_get p) t r →
  ∃ a, EAsk (QGet p) a ∈ t ∧ r = match a with ALost => Err Lost | AResponse s b => Ok (s, b) end.
Proof. intros (a & t' & -> & [_ ->]%respond_exec)%exec_ask_inv. exists a. split; [left|done]. Qed.

Lemma list_exec p t v :
  exec (api_list p) t (Ok v) → ∃ s, t = [EAsk (QList p) (AResponse s (Some v))].
Proof.
  intros (a & t' & -> & E)%exec_ask_inv. destruct a as [|s [b|]]; cbn in E.
  - apply exec_tell_inv in E as (? & _ & E). by apply exec_ret_inv in E as [_ ?].
  - destruct (is_error s); cbn in E.
    + apply exec_tell_inv in E as (? & _ & E). by apply exec_ret_inv in E as [_ ?].
    + apply exec_ret_inv in E as [-> [= ->]]. by exists s.
  - destruct (is_error s); cbn in E; apply exec_tell_inv in E as (? & _ & E); by apply exec_ret_inv in E as [_ ?].
Qed.

(** ** Owners found gone *)

(** The owner was looked up, and its name held nothing or another object. *)
Definition found_gone (resources : list Resource) (ns : string) (t : list Event) (owner : Value) : Prop :=
  ∃ res n s b, res ∈ resources ∧ str_is owner.["apiVersion"] (group_version res) = true ∧
    str_is owner.["kind"] (r_kind res) = true ∧ as_str owner.["name"] = Some n ∧
    EAsk (QGet (object_path res ns n)) (AResponse s b) ∈ t ∧
    (s = 404 ∨ ∃ cur, b = Some cur ∧ is_error s = false ∧ value_eqb cur.["metadata"].["uid"] owner.["uid"] = false).

Lemma found_gone_app resources ns t1 t2 owner :
  found_gone resources ns t1 owner ∨ found_gone resources ns t2 owner → found_gone resources ns (t1 ++ t2) owner.
Proof.
  intros [(res & n & s & b & ?&?&?&?&H&?)|(res & n & s & b & ?&?&?&?&H&?)]; exists res, n, s, b; split_and!; try done;
    apply elem_of_app; tauto.
Qed.

Lemma look_up_owners_gone resources ns owners : ∀ live known t live' known',
  exec (look_up_owners resources ns owners live known) t (Ok (Some (live', known'))) →
  live ⊆ live' ∧ ∀ owner, owner ∈ owners → str_or "" owner.["uid"] ∈ live' ∨ found_gone resources ns t owner.
Proof.
  induction owners as [|owner owners IH]; intros live known t live' known' E; cbn [look_up_owners] in E.
  { apply exec_ret_inv in E as [-> [= <- <-]]. set_solver. }
  destruct (head (List.filter _ resources)) as [res|] eqn:Eh; [|by apply exec_ret_inv in E as [_ ?]].
  destruct (filled owner.["uid"]) as [us|]; [|by apply exec_ret_inv in E as [_ ?]].
  destruct (as_str owner.["name"]) as [n|] eqn:En; [|by apply exec_ret_inv in E as [_ ?]].
  apply exec_bind in E as (t1 & t2 & r & E1 & E2 & ->). apply get_exec in E1 as (a & Ha & ->).
  destruct a as [|s b]; [by apply exec_ret_inv in E2 as [_ ?]|].
  assert (res ∈ resources ∧ str_is owner.["apiVersion"] (group_version res) = true ∧ str_is owner.["kind"] (r_kind res) = true) as (Hr & Hv & Hkd).
  { destruct (List.filter _ resources) as [|x l] eqn:Ef; [done|]. cbn in Eh. injection Eh as ->.
    assert (In res (List.filter (λ r, str_is owner.["apiVersion"] (group_version r) && str_is owner.["kind"] (r_kind r)) resources)) as Hin
      by (rewrite Ef; by left).
    apply filter_In in Hin as [Hin [? ?]%andb_prop]. split_and!; [by apply list_elem_of_In|done..]. }
  assert ((s = 404 ∨ ∃ cur, b = Some cur ∧ is_error s = false ∧ value_eqb cur.["metadata"].["uid"] owner.["uid"] = false) →
    found_gone resources ns t1 owner) as Hgone by (intros Hg; exists res, n, s, b; by split_and!).
  assert (∀ live1 t2, exec (look_up_owners resources ns owners live1 ({[group_version res ++ "/" ++ r_kind res]} ∪ known)) t2 (Ok (Some (live', known'))) →
    live ⊆ live1 → str_or "" owner.["uid"] ∈ live1 ∨ found_gone resources ns t1 owner →
    live ⊆ live' ∧ ∀ owner0, owner0 ∈ owner :: owners → str_or "" owner0.["uid"] ∈ live' ∨ found_gone resources ns (t1 ++ t2) owner0) as Hrest.
  { intros live1 t2' E' Hsub Hor. destruct (IH _ _ _ _ _ E') as [Hs Hall]. split; [set_solver|].
    intros o [->|Hin]%elem_of_cons.
    - destruct Hor as [Hl|Hl]; [left; set_solver|right; apply found_gone_app; by left].
    - destruct (Hall o Hin) as [?|?]; [by left|right; apply found_gone_app; by right]. }
  destruct (s =? 404) eqn:E4; [apply Z.eqb_eq in E4; by eapply Hrest; [exact E2|done|right; apply Hgone; left]|].
  destruct (is_error s) eqn:Ee; [by apply exec_ret_inv in E2 as [_ ?]|]. destruct b as [cur|]; [|by apply exec_ret_inv in E2 as [_ ?]].
  destruct (value_eqb _ _) eqn:Ev; eapply Hrest; try exact E2; [set_solver|left; set_solver|done|].
  right. apply Hgone. right. by exists cur.
Qed.

Lemma owners_state_gone live known owners :
  owners_state live known owners = (false, true) → ∀ owner, owner ∈ owners → str_or "" owner.["uid"] ∉ live.
Proof.
  induction owners as [|o owners IH]; cbn; [set_solver|]. case_bool_decide; cbn; [|done]. case_bool_decide; [done|].
  intros E owner [->|Hin]%elem_of_cons; [done|by apply IH].
Qed.

Lemma emits_look_up resources ns owners live known : emits (asks is_get) (look_up_owners resources ns owners live known).
Proof.
  revert live known. induction owners as [|o owners IH]; intros live known; cbn [look_up_owners]; walk_emits; auto; first [apply emits_respond | done].
Qed.

Lemma emits_list_children u resources seen objects children : emits (asks is_list) (list_children u resources seen objects children).
Proof.
  revert seen objects children. induction resources as [|r resources IH]; intros seen objects children; cbn [list_children]; [apply emits_ret|].
  apply emits_bind; [apply emits_list|]. intros [l|e]; [|apply emits_ret]. destruct (as_array _); [|apply emits_ret].
  destruct (add_children _ _ _ _ _) as [[[? ?] ?]|]; [apply IH|apply emits_ret].
Qed.

(** Finalizers are dealt with by patches and foreground deletes. *)
Definition finalizer_request (q : Request) : Prop :=
  match q with
  | QPatchMerge _ _ => True
  | QDelete _ (Some options) => options.["propagationPolicy"] = Str "Foreground"
  | _ => False
  end.

Lemma emits_patch_any p b : emits (asks finalizer_request) (api_patch_merge p b).
Proof. eapply emits_weaken; [|apply emits_patch_merge]. intros [q a|n]; [|done]. by intros ->. Qed.

Lemma emits_strip_owner child u : emits (asks finalizer_request) (strip_owner child u).
Proof.
  unfold strip_owner. destruct (_ =? _)%nat; [apply emits_ret|]. apply emits_bind; [apply emits_patch_any|].
  intros r. apply emits_ret.
Qed.

Lemma emits_strip_all children u acc : emits (asks finalizer_request) (strip_all children u acc).
Proof.
  revert acc. induction children as [|c children IH]; intros acc; cbn [strip_all]; [apply emits_ret|].
  apply emits_bind; [apply emits_strip_owner|]. intros ok. apply IH.
Qed.

Lemma emits_remove_finalizer o f : emits (asks finalizer_request) (remove_finalizer o f).
Proof. apply emits_bind; [apply emits_patch_any|]. intros r. apply emits_ret. Qed.

Lemma emits_delete_children children u n c : emits (asks finalizer_request) (delete_children children u n c).
Proof.
  revert n c. induction children as [|ch children IH]; intros n c; cbn [delete_children]; [apply emits_ret|].
  destruct (deleting ch); [apply IH|]. apply emits_bind; [|intros r; apply IH].
  apply emits_ask; [done|]. intros a. apply emits_respond.
Qed.

Lemma emits_process_finalizers objects dependents : emits (asks finalizer_request) (process_finalizers objects dependents).
Proof.
  unfold process_finalizers. destruct (List.filter _ _) as [|owner rest]; [apply emits_ret|]. cbn zeta.
  destruct (_ && _); [apply emits_ret|]. destruct (str_in _ _).
  - apply emits_bind; [apply emits_strip_all|]. intros []; [|apply emits_ret].
    apply emits_bind; [apply emits_remove_finalizer|]. intros ?. apply emits_ret.
  - apply emits_bind; [apply emits_delete_children|]. intros bc. destruct (_ =? 0)%nat; [|apply emits_ret].
    apply emits_bind; [apply emits_remove_finalizer|]. intros ?. apply emits_ret.
Qed.

(** Where in a run an event falls. *)
Lemma app_split {A} (tx ty t1 t2 : list A) e :
  (tx ++ ty = t1 ++ e :: t2)%list →
  (∃ m, tx = (t1 ++ e :: m)%list) ∨ (∃ m, t1 = (tx ++ m)%list ∧ ty = (m ++ e :: t2)%list).
Proof.
  intros H. apply app_eq_inv in H as [(m & -> & Hm)|(m & -> & ->)].
  - destruct m as [|x m]; cbn in Hm.
    + right. exists []. rewrite !app_nil_r. by rewrite <- Hm.
    + injection Hm as <- ->. left. by exists m.
  - right. by exists m.
Qed.

Lemma Forall_mid {A} (P : A → Prop) t1 e t2 : Forall P (t1 ++ e :: t2) → P e.
Proof. intros [_ H]%Forall_app. by inversion H. Qed.


(** ** The dependents gathered *)

Lemma key_of_uid res v k : key_of v = Some k → uid (mkObject res v) = key_uid k.
Proof.
  unfold key_of, key_result, uid, nonempty_str. cbn. destruct (as_str v.["metadata"].["name"]); [|done]. destruct (is_empty_str _); [done|].
  unfold str_or. destruct (as_str v.["metadata"].["uid"]); [|done]. destruct (is_empty_str _); [done|]. by intros [= <-].
Qed.

Lemma add_children_spec res l : ∀ seen objs ch seen' objs' ch',
  add_children res l seen objs ch = Ok (seen', objs', ch') →
  ∃ new, objs' = (objs ++ new)%list ∧ ch' = (ch ++ seq (length objs) (length new))%list ∧
    (∀ o, o ∈ new → resource o = res ∧ value o ∈ l) ∧ seen ⊆ seen' ∧
    (∀ u, u ∈ seen' → u ∈ seen ∨ ∃ o, o ∈ new ∧ uid o = u) ∧
    (∀ v, v ∈ l → ∃ k, key_of v = Some k ∧ key_uid k ∈ seen').
Proof.
  induction l as [|v l IH]; intros seen objs ch seen' objs' ch' E; cbn in E.
  { injection E as <- <- <-. exists []. cbn. rewrite !app_nil_r. split_and!; try done; set_solver. }
  destruct (key_result v) as [k|] eqn:Ek; [|done]. cbn in E. pose proof Ek as Hk%key_result_of. case_decide as Hin.
  - destruct (IH _ _ _ _ _ _ E) as (new & -> & -> & H1 & H2 & H3 & H4). exists new. split_and!; try done; [set_solver|].
    intros v' [->|Hv]%elem_of_cons; [exists k; split; [done|set_solver]|by apply H4].
  - destruct (IH _ _ _ _ _ _ E) as (new & -> & -> & H1 & H2 & H3 & H4). exists (mkObject res v :: new).
    rewrite length_app, <- !app_assoc. cbn [length app seq]. rewrite Nat.add_1_r. split_and!; try done.
    + intros o [->|Ho]%elem_of_cons; [cbn; set_solver|]. destruct (H1 o Ho). set_solver.
    + set_solver.
    + intros u Hu. destruct (H3 u Hu) as [Hs|(o & Ho & Huo)].
      * apply elem_of_union in Hs as [->%elem_of_singleton|Hs]; [right|by left]. exists (mkObject res v). split; [left|by apply key_of_uid].
      * right. exists o. split; [by right|done].
    + intros v' [->|Hv]%elem_of_cons; [exists k; split; [done|set_solver]|by apply H4].
Qed.

Lemma feed_children_head u l : ∀ seen objs ch objs' ch',
  feed_children u l seen objs ch = Ok (objs', ch') → ∃ new, objs' = (objs ++ new)%list.
Proof.
  induction l as [|[res feed] l IH]; intros seen objs ch objs' ch' E; cbn in E.
  { injection E as <- <-. exists []. by rewrite app_nil_r. }
  destruct (Informer.select feed _) as [found|]; [|done]. cbn in E.
  destruct (add_children res found seen objs ch) as [[[seen1 objs1] ch1]|] eqn:Ea; [|done]. cbn in E.
  destruct (add_children_spec _ _ _ _ _ _ _ _ Ea) as (new & -> & _). destruct (IH _ _ _ _ _ E) as (new' & ->).
  exists (new ++ new')%list. by rewrite app_assoc.
Qed.

(** A dependent of [u] that a LIST of this run showed. *)
Definition shown (t : list Event) (u : string) (v : Value) : Prop :=
  names_owner u v = true ∧
  ∃ p s l its, EAsk (QList p) (AResponse s (Some l)) ∈ t ∧ as_array l.["items"] = Some its ∧ v ∈ its.

Lemma shown_app t1 t2 u v : shown (t1 ++ t2) u v ↔ shown t1 u v ∨ shown t2 u v.
Proof. unfold shown. setoid_rewrite elem_of_app. naive_solver. Qed.

(** After the LISTs: every resource was listed, the dependents gathered were
    all shown, and for every dependent shown one with its UID was gathered
    (unless it was seen before). *)
Lemma list_children_spec u resources : ∀ seen objs ch t objs' ch',
  exec (list_children u resources seen objs ch) t (Ok (objs', ch')) →
  ∃ new, objs' = (objs ++ new)%list ∧ ch' = (ch ++ seq (length objs) (length new))%list ∧
    (∀ o, o ∈ new → resource o ∈ resources ∧ shown t u (value o)) ∧
    (∀ v, shown t u v → ∃ k, key_of v = Some k ∧ (key_uid k ∈ seen ∨ ∃ o, o ∈ new ∧ uid o = key_uid k)) ∧
    (∀ res, res ∈ resources → ∃ s l, EAsk (QList (list_path res)) (AResponse s (Some l)) ∈ t).
Proof.
  induction resources as [|r resources IH]; intros seen objs ch t objs' ch' E; cbn [list_children] in E.
  { apply exec_ret_inv in E as [-> [= <- <-]]. exists []. cbn. rewrite !app_nil_r. split_and!; try done; [set_solver| |set_solver].
    intros v (_ & p & s & l & its & H & _). set_solver. }
  apply exec_bind in E as (t1 & t2 & x & E1 & E2 & ->). destruct x as [l|]; [|by apply exec_ret_inv in E2 as [_ ?]].
  apply list_exec in E1 as (s & ->). destruct (as_array l.["items"]) as [its|] eqn:Ei; [|by apply exec_ret_inv in E2 as [_ ?]].
  destruct (add_children r _ seen objs ch) as [[[seen1 objs1] ch1]|] eqn:Ea; [|by apply exec_ret_inv in E2 as [_ ?]].
  destruct (add_children_spec _ _ _ _ _ _ _ _ Ea) as (new1 & -> & -> & H1 & H2 & H3 & H4).
  destruct (IH _ _ _ _ _ _ E2) as (new2 & -> & -> & G1 & G2 & G3).
  assert (∀ v, v ∈ List.filter (names_owner u) its ↔ v ∈ its ∧ names_owner u v = true) as Hf
    by (intros v; by rewrite !list_elem_of_In, filter_In).
  exists (new1 ++ new2)%list. rewrite !length_app, seq_app, !app_assoc. split_and!; try done.
  - intros o [Ho|Ho]%elem_of_app.
    + destruct (H1 o Ho) as [-> [Hv Hn]%Hf]. split; [left|]. apply shown_app. left. split; [done|].
      exists (list_path r), s, l, its. split_and!; [left|done..].
    + destruct (G1 o Ho) as [? ?]. split; [by right|]. apply shown_app. by right.
  - intros v [(Hn & p & s' & l' & its' & Hin & Hi & Hv)|Hsh]%shown_app.
    + apply list_elem_of_singleton in Hin as [= -> -> ->]. assert (its' = its) as -> by congruence.
      destruct (H4 v) as (k & Hk & Hs); [by apply Hf|]. exists k. split; [done|].
      destruct (H3 _ Hs) as [?|(o & Ho & Hu)]; [by left|]. right. exists o. split; [apply elem_of_app; by left|done].
    + destruct (G2 v Hsh) as (k & Hk & [Hs|(o & Ho & Hu)]); exists k; (split; [done|]).
      * destruct (H3 _ Hs) as [?|(o & Ho & Hu)]; [by left|]. right. exists o. split; [apply elem_of_app; by left|done].
      * right. exists o. split; [apply elem_of_app; by right|done].
  - intros res [->|Hr]%elem_of_cons; [exists s, l; left|]. destruct (G3 res Hr) as (s' & l' & H). exists s', l'. by right.
Qed.

(** ** The parts of a pass *)

(** In order: the LISTs that confirm the dependents, the finalizers, the
    owners looked up, the collection; a pass may stop after any of them. *)
Record pass (object : Object) (resources : list Resource) (t : list Event) (ta tb tc td : list Event) : Prop := {
  pass_events : t = (ta ++ tb ++ tc ++ td)%list;
  pass_lists : Forall (asks is_list) ta;
  pass_finalizers : tb ≠ [] → ∃ objs ch x,
    exec (process_finalizers objs {[uid object := ch]}) tb x ∧ take 1 objs = [object] ∧
    (held object = true → exec (list_children (uid object) resources {[uid object]} [object] []) ta (Ok (objs, ch)));
  pass_lookups : Forall (asks is_get) tc;
  pass_collects : td ≠ [] → ∃ live known b,
    exec (look_up_owners resources (namespace object) (owner_refs object) ∅ ∅) tc (Ok (Some (live, known))) ∧
    exec (background_cascade [object] live known false) td b
}.

Lemma exec_lift {A E} (x : result A E) t r : exec (lift_result x) t r → t = [] ∧ r = x.
Proof. apply exec_ret_inv. Qed.

Lemma reconcile_pass resource resources feeds v t r :
  exec (reconcile resource resources feeds v) t r → ∃ ta tb tc td, pass (mkObject resource v) resources t ta tb tc td.
Proof.
  intros E. unfold reconcile in E. set (object := mkObject resource v) in *.
  assert (∀ ta, Forall (asks is_list) ta → t = ta → ∃ ta tb tc td, pass object resources t ta tb tc td) as Hstop.
  { intros ta Hta ->. exists ta, [], [], []. constructor; try done. by rewrite !app_nil_r. }
  apply exec_bind_ok in E as [(t0 & t1 & k & E0 & E & ->)|(e & [-> _]%exec_lift & _)]; [|by apply (Hstop [])].
  apply exec_lift in E0 as [-> E0]. symmetry in E0. apply key_result_of in E0. cbn [app] in *.
  apply exec_bind_ok in E as [(t2 & t3 & oc0 & E1 & E & ->)|(e & [-> _]%exec_lift & _)]; [|by apply (Hstop [])].
  apply exec_lift in E1 as [-> E1]. cbn [app] in *.
  apply exec_bind_ok in E as [(ta & t4 & oc & E2 & E & ->)|(e & E2 & _)].
  2: { apply (Hstop t3); [|done]. destruct (held object); [by eapply emits_list_children|by apply exec_ret_inv in E2 as [_ ?]]. }
  assert (Forall (asks is_list) ta ∧ take 1 oc.1 = [object] ∧
    (held object = true → exec (list_children (uid object) resources {[uid object]} [object] []) ta (Ok oc))) as (Ha & Htake & Hlist).
  { destruct (held object).
    - split_and!; [by eapply emits_list_children| |done]. destruct oc as [objs ch].
      destruct (list_children_spec _ _ _ _ _ _ _ _ E2) as (new & -> & _). done.
    - apply exec_ret_inv in E2 as [-> [= ->]]. split_and!; [constructor| |done]. destruct oc0 as [objs ch].
      symmetry in E1. apply feed_children_head in E1 as (new & ->). done. }
  assert (key_uid k = uid object) as Eu by (symmetry; by apply key_of_uid). rewrite Eu in E.
  apply exec_bind_ok in E as [(tb & t5 & ch & E3 & E & ->)|(e & E3 & _)].
  2: { exists ta, t4, [], []. constructor; try done; [by rewrite !app_nil_r|]. intros _. exists oc.1, oc.2, (Err e).
       split_and!; [done..|]. by rewrite <- surjective_pairing. }
  assert (tb ≠ [] → ∃ objs ch x, exec (process_finalizers objs {[uid object := ch]}) tb x ∧ take 1 objs = [object] ∧
    (held object = true → exec (list_children (uid object) resources {[uid object]} [object] []) ta (Ok (objs, ch)))) as Hfin.
  { intros _. exists oc.1, oc.2, (Ok ch). split_and!; [done..|]. by rewrite <- surjective_pairing. }
  apply exec_bind_ok in E as [(tc & td & lk & E4 & E & ->)|(e & E4 & _)].
  2: { exists ta, tb, t5, []. constructor; try done; [by rewrite !app_nil_r|by eapply emits_look_up]. }
  exists ta, tb, tc, td. constructor; try done; [by eapply emits_look_up|]. intros Hne.
  destruct lk as [[live known]|]; [|by apply exec_ret_inv in E as [-> _]]. apply exec_bind in E as (t6 & t7 & b & E5 & [-> _]%exec_ret_inv & ->).
  rewrite app_nil_r. by exists live, known, b.
Qed.

Lemma held_spec o : held o = true ↔ deleting o = true ∧ (FOREGROUND_FINALIZER ∈ finalizers o ∨ ORPHAN_FINALIZER ∈ finalizers o).
Proof.
  unfold held. rewrite andb_true_iff, existsb_exists. setoid_rewrite orb_true_iff. setoid_rewrite str_eqb_eq.
  setoid_rewrite <- list_elem_of_In. naive_solver.
Qed.

(** Only a held object is worked on, and it is the first. *)
Lemma process_finalizers_held objs dependents object t x :
  take 1 objs = [object] → exec (process_finalizers objs dependents) t x → t ≠ [] →
  held object = true ∧
  exec (let children := omap (λ i, objs !! i) (default [] (dependents !! uid object)) in
        if str_in ORPHAN_FINALIZER (finalizers object) then
          all_cut <== strip_all children (uid object) true ;;
          if all_cut : bool then _ <== remove_finalizer object ORPHAN_FINALIZER ;; Ret (Ok true)
          else Ret (Err (incomplete_message 1))
        else
          bc <== delete_children children (uid object) 0 false ;;
          if (bc.1 =? 0)%nat then _ <== remove_finalizer object FOREGROUND_FINALIZER ;; Ret (Ok true)
          else Ret (Ok bc.2)) t x.
Proof.
  intros Ht E Hne. unfold process_finalizers in E. rewrite Ht in E. cbn [List.filter] in E.
  destruct (deleting object) eqn:Ed; [|by apply exec_ret_inv in E as [-> _]]. cbn zeta in E.
  destruct (str_in FOREGROUND_FINALIZER (finalizers object)) eqn:Ef; destruct (str_in ORPHAN_FINALIZER (finalizers object)) eqn:Eo;
    cbn [negb andb] in E; try (by apply exec_ret_inv in E as [-> _]); (split; [|exact E]); apply held_spec; (split; [done|]).
  - left. by apply list_elem_of_In, str_in_In.
  - left. by apply list_elem_of_In, str_in_In.
  - right. by apply list_elem_of_In, str_in_In.
Qed.

Lemma found_gone_mono resources ns t t' owner : t ⊆ t' → found_gone resources ns t owner → found_gone resources ns t' owner.
Proof. intros Hs (res & n & s & b & ?&?&?&?&?&?). exists res, n, s, b. split_and!; try done. by apply Hs. Qed.

Lemma background_delete object live known t b t1 p options a t2 :
  exec (background_cascade [object] live known false) t b → t = (t1 ++ EAsk (QDelete p options) a :: t2)%list →
  p = path object ∧ deleting object = false ∧ owner_refs object ≠ [] ∧ names_observed (value object) options ∧
  ∀ owner, owner ∈ owner_refs object → str_or "" owner.["uid"] ∉ live.
Proof.
  intros E ->. cbn [background_cascade] in E. destruct (owners_state live known (owner_refs object)) as [any all] eqn:Eo.
  destruct (deleting object) eqn:Ed; [apply exec_ret_inv in E as [E _]; by destruct t1|].
  destruct (length (owner_refs object) =? 0)%nat eqn:En; [apply exec_ret_inv in E as [E _]; by destruct t1|].
  destruct any; [apply exec_ret_inv in E as [E _]; by destruct t1|].
  destruct all; [|apply exec_ret_inv in E as [E _]; by destruct t1]. cbn [orb negb] in E.
  apply exec_bind in E as (t3 & t4 & r & E1 & [-> _]%exec_ret_inv & E2). rewrite app_nil_r in E2. subst t3.
  unfold api_delete_observed in E1.
  destruct (filled (value object).["metadata"].["uid"]) as [u|] eqn:Eu.
  2: { apply exec_tell_inv in E1 as (t' & E1 & [-> _]%exec_ret_inv). destruct t1 as [|? [|]]; done. }
  destruct (filled (value object).["metadata"].["resourceVersion"]) as [rv|] eqn:Er.
  2: { apply exec_tell_inv in E1 as (t' & E1 & [-> _]%exec_ret_inv). destruct t1 as [|? [|]]; done. }
  apply exec_ask_inv in E1 as (a' & t' & E1 & E').
  assert (Forall (λ e, match e with ENote _ => True | _ => False end) t') as Hn.
  { destruct a' as [|s b']; cbn in E'; [apply exec_tell_inv in E' as (? & -> & [-> _]%exec_ret_inv); by repeat constructor|].
    destruct (s =? 404); [apply exec_ret_inv in E' as [-> _]; constructor|]. destruct (is_error s).
    - apply exec_tell_inv in E' as (? & -> & [-> _]%exec_ret_inv). by repeat constructor.
    - apply exec_ret_inv in E' as [-> _]. constructor. }
  assert (p = path object ∧ names_observed (value object) options) as [-> Hobs].
  { destruct t1 as [|e0 t1]; cbn in E1.
    - injection E1 as -> -> _ _. split; [done|]. apply filled_Some in Eu, Er. eexists _, u, rv. by split_and!.
    - injection E1 as _ E1. rewrite <- E1 in Hn. by apply Forall_mid in Hn. }
  split_and!; [done..| |done|by eapply owners_state_gone].
  intros H. by rewrite H in En.
Qed.

Lemma omap_seq_lookup {A} (pre new : list A) : omap (λ i, (pre ++ new)%list !! i) (seq (length pre) (length new)) = new.
Proof.
  revert pre. induction new as [|x new IH]; intros pre; [done|]. cbn [length seq]. cbn.
  rewrite lookup_app_r, Nat.sub_diag by lia. cbn. f_equal. specialize (IH (pre ++ [x])%list).
  rewrite length_app, Nat.add_1_r, <- app_assoc in IH. exact IH.
Qed.

(** A DELETE of a child not yet on its way, by the policy and in the revision
    in which it was gathered. *)
Definition deletes_child (children : list Object) (q : Request) : Prop :=
  match q with
  | QDelete p options => ∃ child, child ∈ children ∧ deleting child = false ∧ p = path child ∧ options = Some (foreground_options child)
  | _ => False
  end.

Lemma emits_delete_each all children u n c :
  children ⊆ all → emits (asks (deletes_child all)) (delete_children children u n c).
Proof.
  revert n c. induction children as [|ch children IH]; intros n c Hsub; cbn [delete_children]; [apply emits_ret|].
  assert (children ⊆ all) as Hsub' by set_solver. destruct (deleting ch) eqn:Ed; [by apply IH|].
  apply emits_bind; [|intros ?; by apply IH]. apply emits_ask; [|intros a; apply emits_respond].
  intros a. exists ch. split; [set_solver|]. by split_and!.
Qed.

Lemma emits_patch_only p b : emits (asks is_patch) (api_patch_merge p b).
Proof. eapply emits_weaken; [|apply emits_patch_merge]. intros [q a|n]; [|done]. by intros ->. Qed.

Lemma emits_remove_patches o f : emits (asks is_patch) (remove_finalizer o f).
Proof. apply emits_bind; [apply emits_patch_only|]. intros r. apply emits_ret. Qed.

Lemma emits_strip_patches children u acc : emits (asks is_patch) (strip_all children u acc).
Proof.
  revert acc. induction children as [|c children IH]; intros acc; cbn [strip_all]; [apply emits_ret|].
  apply emits_bind; [|intros ok; apply IH]. unfold strip_owner. destruct (_ =? _)%nat; [apply emits_ret|].
  apply emits_bind; [apply emits_patch_only|]. intros ?. apply emits_ret.
Qed.

(** Of the two finalizers only [foregroundDeletion], alone, has children deleted. *)
Lemma process_finalizers_delete object children objs dependents t x t1 p options a t2 :
  take 1 objs = [object] → omap (λ i, objs !! i) (default [] (dependents !! uid object)) = children →
  exec (process_finalizers objs dependents) t x → t = (t1 ++ EAsk (QDelete p options) a :: t2)%list →
  deleting object = true ∧ FOREGROUND_FINALIZER ∈ finalizers object ∧ ORPHAN_FINALIZER ∉ finalizers object ∧
  deletes_child children (QDelete p options).
Proof.
  intros Htake Hch E ->. destruct (process_finalizers_held _ _ _ _ _ Htake E) as [Hheld E']; [by destruct t1|]. clear E.
  cbn zeta in E'. rewrite Hch in E'. apply held_spec in Hheld as [Hd Hf].
  destruct (str_in ORPHAN_FINALIZER (finalizers object)) eqn:Eo; apply exec_bind in E' as (t3 & t4 & y & E1 & E2 & Et);
    symmetry in Et; apply app_split in Et as [(m & ->)|(m & -> & ->)].
  - by apply emits_strip_patches, Forall_mid in E1.
  - exfalso. destruct y; [|apply exec_ret_inv in E2 as [E2 _]; by destruct m].
    apply exec_bind in E2 as (t5 & t6 & u & E3 & [-> _]%exec_ret_inv & Et). rewrite app_nil_r in Et. subst t5.
    by apply emits_remove_patches, Forall_mid in E3.
  - assert (ORPHAN_FINALIZER ∉ finalizers object) as Hno.
    { intros H%list_elem_of_In%str_in_In. congruence. }
    apply (emits_delete_each children) in E1; [|done]. apply Forall_mid in E1.
    split_and!; [done|by destruct Hf|done|exact E1].
  - exfalso. destruct (y.1 =? 0)%nat; [|apply exec_ret_inv in E2 as [E2 _]; by destruct m].
    apply exec_bind in E2 as (t5 & t6 & u & E3 & [-> _]%exec_ret_inv & Et). rewrite app_nil_r in Et. subst t5.
    by apply emits_remove_patches, Forall_mid in E3.
Qed.

(** C13: the garbage collector deletes only garbage.  In any pass over an
    object, whatever the server answers, every DELETE is of one of two kinds.
    Either the object itself is terminating and held by [foregroundDeletion],
    not by [orphan], and the DELETE is of a dependent: an object that a LIST
    of this pass showed with the terminating object among its owners, not
    terminating yet, in the UID and revision listed, with the foreground
    policy passed on.  Or it deletes the object, which is not terminating and
    has owner references, in exactly the UID and revision observed, after
    every one of its owners, each of a kind discovered, was looked up in this
    pass and answered 404 or turned out to be another object. *)
Theorem gc_collects_only_garbage resource resources feeds v t r t1 p options a t2 :
  let object := mkObject resource v in
  exec (reconcile resource resources feeds v) t r → t = (t1 ++ EAsk (QDelete p options) a :: t2)%list →
  (v.["metadata"].["deletionTimestamp"] ≠ Null ∧ "foregroundDeletion" ∈ finalizers object ∧ "orphan" ∉ finalizers object ∧
   ∃ res child o, res ∈ resources ∧ shown t1 (uid object) child ∧ child.["metadata"].["deletionTimestamp"] = Null ∧
     p = path (mkObject res child) ∧ options = Some o ∧ o.["propagationPolicy"] = Str "Foreground" ∧
     o.["preconditions"].["uid"] = child.["metadata"].["uid"] ∧
     o.["preconditions"].["resourceVersion"] = child.["metadata"].["resourceVersion"]) ∨
  (p = path object ∧ v.["metadata"].["deletionTimestamp"] = Null ∧ owner_refs object ≠ [] ∧ names_observed v options ∧
   ∀ owner, owner ∈ owner_refs object → found_gone resources (namespace object) t1 owner).
Proof.
  cbn zeta. intros E Et. apply reconcile_pass in E as (ta & tb & tc & td & [Ht Ha Hb Hc Hd]). rewrite Ht in Et.
  assert (∀ o, deleting o = false → (value o).["metadata"].["deletionTimestamp"] = Null) as Hnull.
  { intros o. unfold deleting. by destruct (_.["deletionTimestamp"]). }
  apply app_split in Et as [(m & ->)|(m1 & -> & Et)]; [by apply Forall_mid in Ha|].
  apply app_split in Et as [(m & ->)|(m2 & -> & Et)].
  { left. destruct Hb as (objs & ch & x & Ex & Htake & Hlist); [by destruct m1|].
    destruct (process_finalizers_held _ _ _ _ _ Htake Ex) as [Hheld _]; [by destruct m1|].
    destruct (list_children_spec _ _ _ _ _ _ _ _ (Hlist Hheld)) as (new & -> & -> & H1 & _ & _).
    destruct (process_finalizers_delete (mkObject resource v) new _ _ _ _ m1 p options a m Htake
      ltac:(rewrite lookup_singleton_eq; apply (omap_seq_lookup [_] new)) Ex eq_refl) as (Hdel & Hf & Ho & child & Hin & Hcd & -> & ->).
    destruct (H1 child Hin) as [Hres Hsh]. split_and!; [intros H; unfold deleting in Hdel; cbn in Hdel; by rewrite H in Hdel|done..|].
    exists (Gc.resource child), (value child), (foreground_options child).
    split_and!; [done|apply shown_app; by left|by apply Hnull|by destruct child|done..]. }
  apply app_split in Et as [(m & ->)|(m3 & -> & ->)]; [by apply Forall_mid in Hc|].
  right. destruct Hd as (live & known & b & E1 & E2); [by destruct m3|].
  destruct (background_delete _ _ _ _ _ _ _ _ _ _ E2 eq_refl) as (-> & Hdel & Hown & Hobs & Hlive).
  split_and!; [done|by apply (Hnull _ Hdel)|done..|]. intros owner Ho. destruct (look_up_owners_gone _ _ _ _ _ _ _ _ E1) as [_ Hall].
  destruct (Hall owner Ho) as [H|H]; [by apply Hlive in H|]. eapply found_gone_mono; [|exact H]. set_solver.
Qed.

(** ** Letting an owner go *)

(** The dependent was freed of its owner: it had no reference to it, or the
    PATCH that cuts it was answered with the object. *)
Definition cut_loose (t : list Event) (u : string) (child : Object) : Prop :=
  existsb (owned_by u) (owner_refs child) = false ∨
  ∃ a v, EAsk (QPatchMerge (path child) (strip_patch child u)) a ∈ t ∧ json_answer a = Ok v.

Lemma cut_loose_mono t t' u child : t ⊆ t' → cut_loose t u child → cut_loose t' u child.
Proof. intros Hs [H|(a & v & H & Ha)]; [by left|right]. exists a, v. split; [by apply Hs|done]. Qed.

Lemma filter_length_all {A} (g : A → bool) l : length (List.filter (λ x, negb (g x)) l) = length l → existsb g l = false.
Proof.
  induction l as [|x l IH]; [done|]. cbn. destruct (g x); cbn; intros H; [|apply IH; lia].
  pose proof (List.filter_length_le (λ x, negb (g x)) l). lia.
Qed.

Lemma strip_owner_true child u t : exec (strip_owner child u) t true → cut_loose t u child.
Proof.
  unfold strip_owner. cbn zeta. destruct (_ =? _)%nat eqn:El; intros E.
  - left. by apply Nat.eqb_eq, filter_length_all in El.
  - apply exec_bind in E as (t1 & t2 & r & E1 & [-> Hr]%exec_ret_inv & ->). rewrite app_nil_r.
    apply patch_merge_exec in E1 as (a & Ha & ->). destruct (json_answer a) as [v|] eqn:Ej; [|done]. right. by exists a, v.
Qed.

Lemma strip_all_true children u : ∀ acc t,
  exec (strip_all children u acc) t true → acc = true ∧ ∀ child, child ∈ children → cut_loose t u child.
Proof.
  induction children as [|c children IH]; intros acc t E; cbn [strip_all] in E.
  { apply exec_ret_inv in E as [-> ->]. split; [done|]. set_solver. }
  apply exec_bind in E as (t1 & t2 & ok & E1 & E2 & ->). destruct (IH _ _ E2) as [[-> ->]%andb_prop Hall]. split; [done|].
  intros child [->|Hin]%elem_of_cons.
  - eapply cut_loose_mono; [|by apply strip_owner_true]. set_solver.
  - eapply cut_loose_mono; [|by apply Hall]. set_solver.
Qed.

Lemma delete_children_none children u : ∀ n c t c',
  exec (delete_children children u n c) t (0%nat, c') → n = 0%nat ∧ ∀ child, child ∈ children → blocks u child = false.
Proof.
  induction children as [|ch children IH]; intros n c t c' E; cbn [delete_children] in E.
  { apply exec_ret_inv in E as [-> [= -> _]]. split; [done|]. set_solver. }
  assert ((if blocks u ch then S n else n) = 0%nat ∧ ∀ child, child ∈ children → blocks u child = false) as [Hn Hall].
  { destruct (deleting ch); [by eapply IH|]. apply exec_bind in E as (t1 & t2 & r & _ & E & _). by eapply IH. }
  destruct (blocks u ch) eqn:Eb; [done|]. split; [done|]. intros child [->|Hin]%elem_of_cons; [done|by apply Hall].
Qed.

(** A patch that sets finalizers. *)
Definition lifts (q : Request) : Prop :=
  match q with QPatchMerge _ body => body.["metadata"].["finalizers"] ≠ Null | _ => False end.

Lemma emits_strip_no_lift child u : emits (asks (λ q, ¬ lifts q)) (strip_owner child u).
Proof.
  unfold strip_owner. destruct (_ =? _)%nat; [apply emits_ret|]. apply emits_bind; [|intros ?; apply emits_ret].
  eapply emits_weaken; [|apply emits_patch_merge]. intros [q a|n]; [|done]. intros ->. cbn. intros H. by apply H.
Qed.

Lemma emits_strip_all_no_lift children u acc : emits (asks (λ q, ¬ lifts q)) (strip_all children u acc).
Proof.
  revert acc. induction children as [|c children IH]; intros acc; cbn [strip_all]; [apply emits_ret|].
  apply emits_bind; [apply emits_strip_no_lift|]. intros ok. apply IH.
Qed.

Lemma emits_delete_children_no_lift children u n c : emits (asks (λ q, ¬ lifts q)) (delete_children children u n c).
Proof.
  revert n c. induction children as [|ch children IH]; intros n c; cbn [delete_children]; [apply emits_ret|].
  destruct (deleting ch); [apply IH|]. apply emits_bind; [|intros r; apply IH].
  apply emits_ask; [intros a H; done|]. intros a. apply emits_respond.
Qed.

(** The patch that lifts a finalizer is sent last, and alone. *)
Lemma remove_finalizer_lift o f t x t1 q a t2 :
  exec (remove_finalizer o f) t x → t = (t1 ++ EAsk q a :: t2)%list → q = QPatchMerge (path o) (finalizer_patch o f).
Proof.
  intros (t3 & t4 & r & E & [-> _]%exec_ret_inv & ->)%exec_bind Et. rewrite app_nil_r in Et. subst t3.
  apply emits_patch_merge in E. by apply Forall_mid in E.
Qed.

(** What has been done about a dependent when the finalizer is lifted. *)
Definition dealt_with (f : string) (t : list Event) (u : string) (child : Object) : Prop :=
  if str_eqb f ORPHAN_FINALIZER then cut_loose t u child else blocks u child = false.

Lemma process_finalizers_lift object children objs dependents t x t1 q a t2 :
  take 1 objs = [object] → omap (λ i, objs !! i) (default [] (dependents !! uid object)) = children →
  exec (process_finalizers objs dependents) t x → t = (t1 ++ EAsk q a :: t2)%list → lifts q →
  held object = true ∧ ∃ f, (f = ORPHAN_FINALIZER ∨ f = FOREGROUND_FINALIZER) ∧ f ∈ finalizers object ∧
    q = QPatchMerge (path object) (finalizer_patch object f) ∧
    ∀ child, child ∈ children → dealt_with f t1 (uid object) child.
Proof.
  intros Htake Hch E -> Hq. destruct (process_finalizers_held _ _ _ _ _ Htake E) as [Hheld E']; [by destruct t1|]. clear E.
  split; [done|]. cbn zeta in E'. rewrite Hch in E'. destruct (str_in ORPHAN_FINALIZER (finalizers object)) eqn:Eo.
  - apply exec_bind in E' as (t3 & t4 & cut & E1 & E2 & Et). exists ORPHAN_FINALIZER.
    symmetry in Et. apply app_split in Et as [(m & ->)|(m & -> & ->)]; [by apply emits_strip_all_no_lift, Forall_mid in E1|].
    destruct cut; [|apply exec_ret_inv in E2 as [E2 _]; by destruct m].
    apply exec_bind in E2 as (t5 & t6 & u & E3 & [-> _]%exec_ret_inv & Et). rewrite app_nil_r in Et. subst t5.
    split_and!; [by left|by apply list_elem_of_In, str_in_In|by eapply remove_finalizer_lift|].
    intros child Hin. unfold dealt_with. rewrite str_eqb_refl. destruct (strip_all_true _ _ _ _ E1) as [_ Hall].
    eapply cut_loose_mono; [|by apply Hall]. set_solver.
  - apply exec_bind in E' as (t3 & t4 & [n c] & E1 & E2 & Et). exists FOREGROUND_FINALIZER.
    symmetry in Et. apply app_split in Et as [(m & ->)|(m & -> & ->)]; [by apply emits_delete_children_no_lift, Forall_mid in E1|].
    cbn [fst snd] in E2. destruct (n =? 0)%nat eqn:En; [|apply exec_ret_inv in E2 as [E2 _]; by destruct m]. apply Nat.eqb_eq in En as ->.
    apply exec_bind in E2 as (t5 & t6 & u & E3 & [-> _]%exec_ret_inv & Et). rewrite app_nil_r in Et. subst t5.
    split_and!; [by right| |by eapply remove_finalizer_lift|].
    + apply held_spec in Hheld as [_ [H|H]]; [done|]. by apply list_elem_of_In, str_in_In in H; rewrite H in Eo.
    + intros child Hin. destruct (delete_children_none _ _ _ _ _ _ E1) as [_ Hall]. by apply Hall.
Qed.

Lemma no_list_shown t u v : Forall (asks finalizer_request) t → ¬ shown t u v.
Proof. intros HF (_ & p & s & l & its & Hin & _). rewrite Forall_forall in HF. by apply HF in Hin. Qed.

(** a terminating owner is let go only when its dependents have been dealt
    with.  In any pass, whatever the server answers, a PATCH that touches
    finalizers lifts [orphan] or [foregroundDeletion] from the object itself,
    which is terminating; by then every resource discovered has been listed in
    full, and for every dependent those lists showed (the owner itself apart)
    the one collected with its UID has, for [orphan], been cut loose by a PATCH
    the server answered, and, for [foregroundDeletion], does not block. *)
Theorem gc_releases_owner_last kind_of resources feeds v t r t1 q a t2 :
  let object := mkObject kind_of v in
  exec (reconcile kind_of resources feeds v) t r → t = (t1 ++ EAsk q a :: t2)%list → lifts q →
  held object = true ∧ ∃ f, (f = ORPHAN_FINALIZER ∨ f = FOREGROUND_FINALIZER) ∧ f ∈ finalizers object ∧
    q = QPatchMerge (path object) (finalizer_patch object f) ∧
    (∀ res, res ∈ resources → ∃ s l, EAsk (QList (list_path res)) (AResponse s (Some l)) ∈ t1) ∧
    (∀ w, shown t1 (uid object) w → ∃ k, key_of w = Some k ∧
       (key_uid k = uid object ∨ ∃ o, resource o ∈ resources ∧ shown t1 (uid object) (value o) ∧ uid o = key_uid k ∧
                                      dealt_with f t1 (uid object) o)).
Proof.
  cbn zeta. intros E Et Hq. apply reconcile_pass in E as (ta & tb & tc & td & [Ht Ha Hb Hc Hd]). rewrite Ht in Et.
  apply app_split in Et as [(m & ->)|(m1 & -> & Et)]; [apply Forall_mid in Ha; by destruct q|].
  apply app_split in Et as [(m & ->)|(m2 & -> & Et)].
  2: { apply app_split in Et as [(m & ->)|(m3 & -> & ->)]; [apply Forall_mid in Hc; by destruct q|].
       destruct Hd as (live & known & b & _ & E2); [by destruct m3|].
       assert (emits (asks (λ q, ¬ lifts q)) (background_cascade [mkObject kind_of v] live known false)) as He.
       { cbn [background_cascade]. destruct (owners_state _ _ _). destruct (_ || _); [apply emits_ret|]. apply emits_bind; [|intros ?; apply emits_ret].
         unfold api_delete_observed. walk_emits; try done. all: try (by intros ? Hx). }
       by apply He, Forall_mid in E2. }
  destruct Hb as (objs & ch & x & Ex & Htake & Hlist); [by destruct m1|].
  destruct (process_finalizers_held _ _ _ _ _ Htake Ex) as [Hheld _]; [by destruct m1|].
  destruct (list_children_spec _ _ _ _ _ _ _ _ (Hlist Hheld)) as (new & -> & -> & H1 & H2 & H3).
  assert (Forall (asks finalizer_request) m1) as Hm by (apply emits_process_finalizers in Ex; by apply Forall_app in Ex as [? _]).
  destruct (process_finalizers_lift (mkObject kind_of v) new _ _ _ _ m1 q a m Htake ltac:(rewrite lookup_singleton_eq; apply (omap_seq_lookup [_] new)) Ex eq_refl Hq)
    as (_ & f & Hf & Hin & -> & Hdealt).
  split; [done|]. exists f. split_and!; [done..| |].
  - intros res Hr. destruct (H3 res Hr) as (s & l & H). exists s, l. apply elem_of_app. by left.
  - intros w [Hw|Hw]%shown_app; [|by apply no_list_shown in Hw]. destruct (H2 w Hw) as (k & Hk & [Hu|(o & Ho & Hu)]); exists k; (split; [done|]).
    + left. by apply elem_of_singleton in Hu.
    + right. exists o. destruct (H1 o Ho) as [? ?]. split_and!; [done|by apply shown_app; left|done|].
      specialize (Hdealt o Ho). unfold dealt_with in *. destruct (str_eqb _ _); [|done]. eapply cut_loose_mono; [|exact Hdealt]. set_solver.
Qed.

(** ** Waking the collector *)

Lemma owner_indexed o k u : existsb (owned_by u) (items o.["metadata"].["ownerReferences"]) = true → IOwner u ∈ indexes o k.
Proof.
  intros (r & Hr & Hu)%existsb_exists. unfold indexes, indexes_list. cbn zeta. apply elem_of_list_to_set, elem_of_app. right.
  apply elem_of_app. left. apply list_elem_of_omap. exists r. split; [by apply list_elem_of_In|].
  unfold owned_by in Hu. apply str_is_spec in Hu. by rewrite Hu.
Qed.

(** Whatever happens to an object, every object that names it as an owner is
    looked at again. *)
Lemma gc_route_dependents ops d object u key o :
  let primary := Informer.run ops in
  synced primary = true → object ∈ sides d → as_str object.["metadata"].["uid"] = Some u →
  objects primary !! key = Some o → existsb (owned_by u) (owner_refs (mkObject (mkResource "" "" "" true) o)) = true →
  key ∈ gc_route d primary.
Proof.
  cbn zeta. intros Hs Hin Hu Ho Hr. pose proof (wf_core _ (run_wf ops)) as C. unfold gc_route. apply elem_of_app. left.
  apply list_elem_of_In, in_concat. eexists. split; [apply list_elem_of_In, list_elem_of_fmap; by exists object|]. cbn beta. rewrite Hu.
  apply list_elem_of_In. unfold keys_at. apply list_elem_of_omap. exists o. split; [|by eapply core_key].
  apply elem_of_select_or_empty; [done..|]. exists key. split; [done|]. by apply owner_indexed.
Qed.

(** *** Witnesses *)

Module GcDemo.

Definition pods : Resource := mkResource "v1" "pods" "Pod" true.
Definition replicasets : Resource := mkResource "apps/v1" "replicasets" "ReplicaSet" true.
Definition empty_feed : Informer.Store := run [OResetStarted (demo_list []) 0 1].

Definition pod : Value :=
  json_obj [("metadata", json_obj [("name", Str "p"); ("namespace", Str "d"); ("uid", Str "u-p"); ("resourceVersion", Str "7");
    ("ownerReferences", Array [json_obj [("apiVersion", Str "apps/v1"); ("kind", Str "ReplicaSet"); ("name", Str "web"); ("uid", Str "u-rs")]])])].

Definition rs : Value :=
  json_obj [("metadata", json_obj [("name", Str "web"); ("namespace", Str "d"); ("uid", Str "u-rs"); ("resourceVersion", Str "9");
    ("deletionTimestamp", Str "2024-01-01T00:00:00Z"); ("finalizers", Array [Str "orphan"])])].

(** The owner of the Pod has been replaced by another of its name. *)
Definition pod_answers : list Answer := [AResponse 200 (Some (json_obj [("metadata", json_obj [("uid", Str "u-new")])])); AResponse 200 None].
Definition pod_trace : list Event :=
  Eval vm_compute in default [] (fst <$> play pod_answers (reconcile pods [pods; replicasets] [empty_feed; empty_feed] pod)).
Lemma pod_exec : exec (reconcile pods [pods; replicasets] [empty_feed; empty_feed] pod) pod_trace (Ok tt).
Proof. apply (play_exec pod_answers). vm_compute. reflexivity. Qed.

(** The ReplicaSet is being orphaned: its Pod is listed, cut loose, and the
    finalizer lifted. *)
Definition rs_answers : list Answer :=
  [AResponse 200 (Some (demo_list [pod])); AResponse 200 (Some (demo_list [])); AResponse 200 (Some pod); AResponse 200 (Some rs)].
Definition rs_trace : list Event :=
  Eval vm_compute in default [] (fst <$> play rs_answers (reconcile replicasets [pods; replicasets] [empty_feed; empty_feed] rs)).
Lemma rs_exec : exec (reconcile replicasets [pods; replicasets] [empty_feed; empty_feed] rs) rs_trace (Ok tt).
Proof. apply (play_exec rs_answers). vm_compute. reflexivity. Qed.

End GcDemo.

Lemma gc_collects_only_garbage_witness :
  ∃ t1 p o a t2, GcDemo.pod_trace = (t1 ++ EAsk (QDelete p o) a :: t2)%list ∧
    ∀ owner, owner ∈ owner_refs (mkObject GcDemo.pods GcDemo.pod) → found_gone [GcDemo.pods; GcDemo.replicasets] "d" t1 owner.
Proof.
  eexists [_], _, _, _, []. split; [unfold GcDemo.pod_trace; reflexivity|].
  destruct (gc_collects_only_garbage _ _ _ _ GcDemo.pod_trace _ [_] _ _ _ [] GcDemo.pod_exec eq_refl) as [(H & _)|(_ & _ & _ & _ & H)].
  - exfalso. apply H. vm_compute. reflexivity.
  - exact H.
Defined.

Lemma demo_shown t : EAsk (QList "/api/v1/pods") (AResponse 200 (Some (demo_list [GcDemo.pod]))) ∈ t → shown t "u-rs" GcDemo.pod.
Proof.
  intros Hin. split; [vm_compute; reflexivity|]. exists "/api/v1/pods", 200, (demo_list [GcDemo.pod]), [GcDemo.pod].
  split_and!; [done|vm_compute; reflexivity|left].
Qed.

Lemma gc_releases_owner_last_witness :
  ∃ t1 q a t2, GcDemo.rs_trace = (t1 ++ EAsk q a :: t2)%list ∧ lifts q ∧
    ∃ o, uid o = "u-p" ∧ dealt_with ORPHAN_FINALIZER t1 "u-rs" o.
Proof.
  eexists [_; _; _; _], _, _, [_]. split; [unfold GcDemo.rs_trace; reflexivity|]. split; [discriminate|].
  destruct (gc_releases_owner_last _ _ _ _ GcDemo.rs_trace _ [_; _; _; _] _ _ [_] GcDemo.rs_exec eq_refl) as (_ & f & Hf & Hfin & _ & _ & Hall).
  - discriminate.
  - destruct Hf as [->| ->].
    2: { exfalso. vm_compute in Hfin. inversion Hfin as [|? ? ? H]; subst. inversion H. }
    destruct (Hall GcDemo.pod) as (k & Hk & [H|(o & _ & _ & Ho & Hd)]).
    + apply demo_shown. left.
    + vm_compute in Hk. injection Hk as <-. vm_compute in H. discriminate H.
    + exists o. vm_compute in Hk. injection Hk as <-. split; [exact Ho|exact Hd].
Defined.
