(* ===== verification/ReplicaSet.v ===== *)
(** * ReplicaSets and the event recorder
      ([pkg/controller-manager/src/replicaset.rs], [events.rs])

    One pass over a ReplicaSet (or a ReplicationController, which is the same
    controller over other paths): Pods that have ended are collected but for
    the newest, missing Pods are created from the template unless recreation
    is backing off, excess Pods are deleted newest first, and the status is
    written.  The pass is a program over the API client ([Client]); what it
    keeps between passes (open creates, backoff, events already recorded) is
    its context.

    Proved for every run, whatever the server answers: a pass asks for no more
    new Pods than are missing and deletes no more than are in excess, never
    does both, only ever deletes Pods it observed in the revision observed,
    keeps the newest Pod that has ended, and does nothing for a ReplicaSet
    that is terminating. *)

From Stdlib Require Import ZArith Lia String Ascii.
From stdpp Require Import base gmap strings numbers option list.
From S2P Require Import Prelude Text BTree Json Backoff Client.
Open Scope string_scope.
Open Scope kube_scope.
Open Scope Z_scope.

(** ** The event recorder *)

(** [AGGREGATION_INTERVAL], in nanoseconds. *)
Definition AGGREGATION_INTERVAL : Z := 30 * NANOS.

Record Seen := mkSeen { seen_name : string; seen_count : Z; seen_first : string; last_written : Z }.

(** What a controller keeps between passes.  [draws] counts the readings of
    the clock and the identifiers drawn. *)
Record Ctx := mkCtx { cx_pending : Pending; cx_backoff : CreateBackoff; cx_seen : gmap string Seen; draws : nat }.

Definition with_pending (c : Ctx) (p : Pending) : Ctx := mkCtx p (cx_backoff c) (cx_seen c) (draws c).
Definition with_backoff (c : Ctx) (b : CreateBackoff) : Ctx := mkCtx (cx_pending c) b (cx_seen c) (draws c).
Definition with_seen (c : Ctx) (s : gmap string Seen) : Ctx := mkCtx (cx_pending c) (cx_backoff c) s (draws c).
Definition drawn (c : Ctx) : Ctx := mkCtx (cx_pending c) (cx_backoff c) (cx_seen c) (S (draws c)).

Record Kind := mkKind { k_name : string; base : string; plural : string; k_api_version : string; k_kind : string; component : string }.

Definition REPLICA_SET : Kind := mkKind "replicaset" "/apis/apps/v1" "replicasets" "apps/v1" "ReplicaSet" "replicaset-controller".
Definition REPLICATION_CONTROLLER : Kind :=
  mkKind "replicationcontroller" "/api/v1" "replicationcontrollers" "v1" "ReplicationController" "replication-controller".

Section Controller.
  (** The identifiers, the clock ([Instant], in nanoseconds, and the two text
      forms of the wall clock), the host name, and the text of an error. *)
  Variables (uuid uuid_simple : nat → string) (instant : nat → Z) (stamp micro : nat → string).
  Variables (host : string) (show_error : ClientError → string).

Definition event_key (involved : Value) (etype reason message : string) : string :=
  let meta := involved.["metadata"] in
  str_or "default" meta.["namespace"] ++ "/" ++ str_or "" meta.["name"] ++ "/" ++ str_or "" meta.["uid"] ++ "/"
  ++ etype ++ "/" ++ reason ++ "/" ++ message.

Definition event_object (component : string) (involved : Value) (etype reason message event_name now now_micro : string) : Value :=
  let meta := involved.["metadata"] in
  let namespace := str_or "default" meta.["namespace"] in
  json_obj [("apiVersion", Str "v1"); ("kind", Str "Event");
    ("metadata", json_obj [("name", Str event_name); ("namespace", Str namespace)]);
    ("involvedObject", json_obj [("apiVersion", involved.["apiVersion"]); ("kind", involved.["kind"]); ("namespace", Str namespace);
                                 ("name", Str (str_or "" meta.["name"])); ("uid", meta.["uid"])]);
    ("reason", Str reason); ("message", Str message); ("type", Str etype);
    ("source", json_obj [("component", Str component); ("host", Str host)]);
    ("reportingComponent", Str component); ("reportingInstance", Str host);
    ("firstTimestamp", Str now); ("lastTimestamp", Str now); ("eventTime", Str now_micro); ("count", Num (PosInt 1))].

(** A repeat is counted, and written back at most once an interval. *)
Definition event (component : string) (c : Ctx) (involved : Value) (etype reason message : string) : Prog Ctx :=
  let n := draws c in
  let c := drawn c in
  let namespace := str_or "default" involved.["metadata"].["namespace"] in
  let key := event_key involved etype reason message in
  match cx_seen c !! key with
  | Some prev =>
      let count := wrap64 (seen_count prev + 1) in
      if instant n - last_written prev <? AGGREGATION_INTERVAL
      then Ret (with_seen c (<[key := mkSeen (seen_name prev) count (seen_first prev) (last_written prev)]> (cx_seen c)))
      else
        _ <== api_patch ("/api/v1/namespaces/" ++ namespace ++ "/events/" ++ seen_name prev)
                (json_obj [("count", Num (PosInt count)); ("firstTimestamp", Str (seen_first prev));
                           ("lastTimestamp", Str (stamp n)); ("eventTime", Str (micro n))]) ;;
        Ret (with_seen c (<[key := mkSeen (seen_name prev) count (seen_first prev) (instant n)]> (cx_seen c)))
  | None =>
      let event_name := str_or "" involved.["metadata"].["name"] ++ "." ++ String.substring 0 16 (uuid_simple n) in
      let c := with_seen c (<[key := mkSeen event_name 1 (stamp n) (instant n)]> (cx_seen c)) in
      r <== create (cx_pending c) ("/api/v1/namespaces/" ++ namespace ++ "/events")
              (event_object component involved etype reason message event_name (stamp n) (micro n)) ;;
      Ret (with_pending c r.1)
  end.

(** ** ReplicaSets *)

Definition owned_by (rs_uid : string) (pod : Value) : bool :=
  existsb (λ r, str_is r.["uid"] rs_uid) (items pod.["metadata"].["ownerReferences"]).

Definition ended (pod : Value) : bool :=
  let phase := str_or "Pending" pod.["status"].["phase"] in str_eqb phase "Succeeded" || str_eqb phase "Failed".
Definition going (pod : Value) : bool := negb (is_null pod.["metadata"].["deletionTimestamp"]).

Definition active_pods (rs_uid : string) (pods : list Value) : list Value :=
  List.filter (λ p, negb (ended p) && negb (going p)) (List.filter (owned_by rs_uid) pods).

Definition created (pod : Value) : string := str_or "" pod.["metadata"].["creationTimestamp"].

(** [sort_by(|a, b| tb.cmp(ta))]: stable, newest first. *)
Fixpoint insert_newest (x : Value) (l : list Value) : list Value :=
  match l with
  | [] => [x]
  | y :: rest => if str_ltb (created x) (created y) then y :: insert_newest x rest else x :: y :: rest
  end.
Definition newest_first (l : list Value) : list Value := foldr insert_newest [] l.

Definition terminal_pods (rs_uid : string) (pods : list Value) : list Value :=
  newest_first (List.filter (λ p, ended p && negb (going p)) (List.filter (owned_by rs_uid) pods)).

Definition failed_uids (terminal : list Value) : list string :=
  omap (λ p, as_str p.["metadata"].["uid"]) (List.filter (λ p, str_is p.["status"].["phase"] "Failed") terminal).

Definition pod_path (namespace : string) (pod : Value) : string :=
  "/api/v1/namespaces/" ++ namespace ++ "/pods/" ++ str_or "" pod.["metadata"].["name"].

(** Collects Pods that have ended; a Pod without a name is passed over. *)
Fixpoint collect_terminal (namespace : string) (l : list Value) : Prog unit :=
  match l with
  | [] => Ret tt
  | pod :: rest =>
      if is_empty_str (str_or "" pod.["metadata"].["name"]) then collect_terminal namespace rest
      else _ <== api_delete_observed (pod_path namespace pod) pod ;; collect_terminal namespace rest
  end.

Definition Failure : Type := option (string * string).
Definition get_or_insert (f : Failure) (reason : string) (message : string) : Failure :=
  match f with Some _ => f | None => Some (reason, message) end.

Definition build_pod_from_template (kind : Kind) (namespace rs_name rs_uid : string) (rs : Value) (n : nat) : Value :=
  let template := rs.["spec"].["template"] in
  let labels := template.["metadata"].["labels"] in
  json_obj [("apiVersion", Str "v1"); ("kind", Str "Pod");
    ("metadata", json_obj [("name", Str (rs_name ++ "-" ++ String.substring 0 5 (uuid n))); ("namespace", Str namespace);
       ("labels", if is_null labels then json_obj [] else labels);
       ("ownerReferences", Array [json_obj [("apiVersion", Str (k_api_version kind)); ("kind", Str (k_kind kind)); ("name", Str rs_name);
          ("uid", Str rs_uid); ("controller", Bool true); ("blockOwnerDeletion", Bool true)]])]);
    ("spec", template.["spec"]);
    ("status", json_obj [("phase", Str "Pending")])].

Fixpoint create_pods (kind : Kind) (c : Ctx) (namespace rs_name rs_uid : string) (rs : Value) (to_create : nat) (failure : Failure) :
    Prog (Ctx * Failure) :=
  match to_create with
  | O => Ret (c, failure)
  | S rest =>
      let pod := build_pod_from_template kind namespace rs_name rs_uid rs (draws c) in
      let c := drawn c in
      r <== create (cx_pending c) ("/api/v1/namespaces/" ++ namespace ++ "/pods") pod ;;
      let c := with_pending c r.1 in
      match r.2 with
      | Ok _ =>
          c <== event (component kind) c rs "Normal" "SuccessfulCreate" ("Created pod: " ++ str_or "?" pod.["metadata"].["name"]) ;;
          create_pods kind c namespace rs_name rs_uid rs rest failure
      | Err e =>
          c <== event (component kind) c rs "Warning" "FailedCreate" ("Error creating pod: " ++ show_error e) ;;
          create_pods kind c namespace rs_name rs_uid rs rest (get_or_insert failure "FailedCreate" (show_error e))
      end
  end.

Fixpoint delete_pods (kind : Kind) (c : Ctx) (namespace : string) (rs : Value) (l : list Value) (failure : Failure) : Prog (Ctx * Failure) :=
  match l with
  | [] => Ret (c, failure)
  | pod :: rest =>
      let pod_name := str_or "" pod.["metadata"].["name"] in
      if is_empty_str pod_name then delete_pods kind c namespace rs rest failure
      else
        r <== api_delete_observed (pod_path namespace pod) pod ;;
        match r with
        | Ok _ =>
            c <== event (component kind) c rs "Normal" "SuccessfulDelete" ("Deleted pod: " ++ pod_name) ;;
            delete_pods kind c namespace rs rest failure
        | Err e => delete_pods kind c namespace rs rest (get_or_insert failure "FailedDelete" (show_error e))
        end
  end.

Definition is_pod_ready (pod : Value) : bool :=
  existsb (λ c, str_is c.["type"] "Ready" && str_is c.["status"] "True") (items pod.["status"].["conditions"]).

Definition failure_conditions (existing : Value) (failure : Failure) (settled : bool) (now : string) : list Value :=
  let conditions := items existing in
  let has := existsb (λ c, str_is c.["type"] "ReplicaFailure") conditions in
  match failure with
  | Some (reason, message) =>
      if has then conditions
      else (conditions ++ [json_obj [("type", Str "ReplicaFailure"); ("status", Str "True"); ("reason", Str reason);
                                     ("message", Str message); ("lastTransitionTime", Str now)]])%list
  | None => if settled then List.filter (λ c, negb (str_is c.["type"] "ReplicaFailure")) conditions else conditions
  end.

Definition fully_labeled (rs pod : Value) : bool :=
  match as_object rs.["spec"].["template"].["metadata"].["labels"] with
  | None => true
  | Some want => forallb (λ kv, match Json.get pod.["metadata"].["labels"] kv.1 with Some v => value_eqb v kv.2 | None => false end) want
  end.

Definition num_nat (n : nat) : Value := Num (PosInt (Z.of_nat n)).

Definition rs_status (rs : Value) (active : list Value) (conditions : list Value) : Value :=
  let ready := length (List.filter is_pod_ready active) in
  json_obj ([("replicas", num_nat (length active)); ("fullyLabeledReplicas", num_nat (length (List.filter (fully_labeled rs) active)));
             ("readyReplicas", num_nat ready); ("availableReplicas", num_nat ready);
             ("observedGeneration", Num (PosInt (default 1 (as_u64 rs.["metadata"].["generation"]))))]
            ++ match conditions with [] => [] | _ => [("conditions", Array conditions)] end)%list.

Definition desired_replicas (rs : Value) : nat := Z.to_nat (default 1 (as_u64 rs.["spec"].["replicas"])).

(** Creates what is missing or deletes what is in excess; whether anything
    was tried, and the first refusal. *)
Definition manage_replicas (kind : Kind) (c : Ctx) (namespace rs_name rs_uid : string) (rs : Value) (active : list Value) (allowed : bool) :
    Prog (Ctx * Failure * bool) :=
  let current := length active in
  let desired := desired_replicas rs in
  if (current <? desired)%nat then
    if negb allowed then Ret (c, None, false)
    else r <== create_pods kind c namespace rs_name rs_uid rs (desired - current) None ;; Ret (r.1, r.2, true)
  else if (desired <? current)%nat then
    r <== delete_pods kind c namespace rs (take (current - desired) (newest_first active)) None ;; Ret (r.1, r.2, true)
  else Ret (c, None, false).

Definition reconcile_replicaset (kind : Kind) (c : Ctx) (namespace : string) (rs : Value) (all_pods : list Value) :
    Prog (Ctx * result unit string) :=
  match as_str rs.["metadata"].["name"] with
  | None => Ret (c, Err "replicaset missing name")
  | Some rs_name =>
      let rs_uid := str_or "" rs.["metadata"].["uid"] in
      if negb (is_null rs.["metadata"].["deletionTimestamp"]) then Ret (c, Ok tt)
      else
        let desired := desired_replicas rs in
        let active := active_pods rs_uid all_pods in
        let terminal := terminal_pods rs_uid all_pods in
        _ <== collect_terminal namespace (drop 1 terminal) ;;
        let current := length active in
        let now := instant (draws c) in
        let '(b, new_failure) := observe_failures (cx_backoff c) rs_uid (failed_uids terminal) now in
        let b := if negb new_failure && (desired <=? current)%nat then clear b rs_uid else b in
        let c := drawn (with_backoff c b) in
        let '(ok, requeue) := allowed b rs_uid now in
        let rest :=
          m <== manage_replicas kind c namespace rs_name rs_uid rs active ok ;;
          let '(c, failure, attempted) := m in
          let settled := attempted || (current =? desired)%nat in
          let conditions := failure_conditions rs.["status"].["conditions"] failure settled (stamp (draws c)) in
          match set_index rs "status" (rs_status rs active conditions) with
          | None => Ret (c, Err "panic")
          | Some updated =>
              _ <== api_update_status (base kind ++ "/namespaces/" ++ namespace ++ "/" ++ plural kind ++ "/" ++ rs_name) updated ;;
              Ret (drawn c, Ok tt)
          end in
        match requeue with Some d => Tell (Requeue d) rest | None => rest end
  end.

(** [Controller::reconcile]. *)
Definition reconcile (kind : Kind) (c : Ctx) (object : Value) (children : list Value) : Prog (Ctx * result unit string) :=
  reconcile_replicaset kind c (str_or "default" object.["metadata"].["namespace"]) object children.
End Controller.

(** ** What a pass asks for *)

Section Pass.
  Variables (uuid uuid_simple : nat → string) (instant : nat → Z) (stamp micro : nat → string).
  Variables (host : string) (show_error : ClientError → string).
  Implicit Types (c : Ctx) (rs : Value).

#[local] Notation event := (event uuid_simple instant stamp micro host).
#[local] Notation create_pods := (create_pods uuid uuid_simple instant stamp micro host show_error).
#[local] Notation delete_pods := (delete_pods uuid_simple instant stamp micro host show_error).
#[local] Notation manage_replicas := (manage_replicas uuid uuid_simple instant stamp micro host show_error).
#[local] Notation reconcile := (reconcile uuid uuid_simple instant stamp micro host show_error).

Definition namespace_of (object : Value) : string := str_or "default" object.["metadata"].["namespace"].
Definition pods_path (object : Value) : string := "/api/v1/namespaces/" ++ namespace_of object ++ "/pods".

Lemma str_app_cancel (p x y : string) : p ++ x = p ++ y → x = y.
Proof. induction p as [|a p IH]; cbn; [done|]. intros [= H]. by apply IH. Qed.

Lemma events_not_pods ns x y : "/api/v1/namespaces/" ++ ns ++ "/pods" ++ x ≠ "/api/v1/namespaces/" ++ ns ++ "/events" ++ y.
Proof. intros H. pose proof (str_app_cancel "/api/v1/namespaces/" _ _ H) as H1. by apply str_app_cancel in H1. Qed.

(** What the event recorder asks for: POSTs, GETs, and patches of Events. *)
Definition event_like (q : Request) : Prop :=
  match q with QPost _ _ | QGet _ => True | QPatch _ b => b.["spec"] = Null | _ => False end.

Lemma event_asks (P : Request → Prop) comp c obj etype reason message :
  (∀ q, event_like q → P q) → emits (asks P) (event comp c obj etype reason message).
Proof.
  intros H. unfold ReplicaSet.event. cbn zeta. destruct (_ !! _) as [prev|].
  - destruct (_ <? _); [apply emits_ret|]. apply emits_bind; [apply send_asks; by apply H|intros x; apply emits_ret].
  - apply emits_bind; [apply emits_create_asks; intros; by apply H|intros x; apply emits_ret].
Qed.

(** Recording an event posts to the events of the object's namespace, and
    deletes nothing. *)
Lemma event_elsewhere comp c rs etype reason message t c' path :
  (∀ x y, path ++ x ≠ "/api/v1/namespaces/" ++ namespace_of rs ++ "/events" ++ y) →
  exec (event comp c rs etype reason message) t c' → filed (cx_pending c) →
  filed (cx_pending c') ∧ count_posts path t = 0%nat ∧ Forall (asks no_delete) t.
Proof.
  intros Hpath. unfold ReplicaSet.event. cbn zeta. intros E Hf. destruct (cx_seen (drawn c) !! _) as [prev|].
  - destruct (_ <? _); [apply exec_ret_inv in E as [-> ->]; done|].
    apply exec_bind in E as (t1 & t2 & r & E1 & [-> ->]%exec_ret_inv & ->). rewrite app_nil_r.
    apply send_json_quiet in E1 as (? & _ & ?); done.
  - apply exec_bind in E as (t1 & t2 & [p r] & E1 & [-> ->]%exec_ret_inv & ->). rewrite app_nil_r.
    split_and!; [by eapply create_filed|  |by eapply emits_create].
    destruct (count_posts path t1) eqn:En; [done|]. exfalso. unfold count_posts in En.
    destruct (List.filter (is_post path) t1) as [|e l] eqn:Ef; [done|].
    assert (In e (List.filter (is_post path) t1)) as Hin by (rewrite Ef; by left).
    apply filter_In in Hin as [Hin He]. destruct e as [[]|]; try done. cbn [is_post] in He. apply str_eqb_eq in He as ->.
    eapply create_posts_path in E1 as [H|(x & H)]; [..|done| |exists a; by apply list_elem_of_In]; [| |done].
    + apply (Hpath "" ""). by rewrite str_app_nil_r.
    + unfold create_group in H. rewrite <- !str_app_assoc in H.
      set (tail := if is_empty_str _ then _ else _) in H. exact (Hpath ("/" ++ x) ("/" ++ tail) (eq_sym H)).
Qed.

Lemma event_exec comp c rs etype reason message t c' :
  exec (event comp c rs etype reason message) t c' → filed (cx_pending c) →
  filed (cx_pending c') ∧ count_posts (pods_path rs) t = 0%nat ∧ Forall (asks no_delete) t.
Proof. apply event_elsewhere. intros x y. unfold pods_path. rewrite <- !str_app_assoc. apply events_not_pods. Qed.

Lemma create_pods_exec kind rs n : ∀ c rs_name rs_uid f t c' f',
  exec (create_pods kind c (namespace_of rs) rs_name rs_uid rs n f) t (c', f') → filed (cx_pending c) →
  filed (cx_pending c') ∧ (count_posts (pods_path rs) t ≤ n)%nat ∧ Forall (asks no_delete) t.
Proof.
  induction n as [|n IH]; intros c rs_name rs_uid f t c' f' E Hf; cbn [ReplicaSet.create_pods] in E.
  { apply exec_ret_inv in E as [-> [= -> _]]. done. }
  apply exec_bind in E as (t1 & t2 & [p r] & E1 & E2 & ->). cbn [fst snd] in E2.
  pose proof (create_posts_once _ _ _ _ _ (pods_path rs) E1) as Hone. pose proof (emits_create _ _ _ _ _ E1) as Hd.
  apply create_filed in E1; [|done].
  assert (∃ reason msg et c1 c2 f2 t3 t4, t2 = (t3 ++ t4)%list ∧ filed (cx_pending c1) ∧ exec (event (component kind) c1 rs et reason msg) t3 c2 ∧
    exec (create_pods kind c2 (namespace_of rs) rs_name rs_uid rs n f2) t4 (c', f')) as (reason & msg & et & c1 & c2 & f2 & t3 & t4 & -> & Hf1 & E3 & E4).
  { destruct r as [v|e]; apply exec_bind in E2 as (t3 & t4 & c2 & E3 & E4 & ->); eexists _, _, _, _, c2, _, t3, t4; split_and!; [done| |exact E3|exact E4|done| |exact E3|exact E4]; done. }
  destruct (event_exec _ _ _ _ _ _ _ _ E3 Hf1) as (Hf2 & Hc2 & Hd2). destruct (IH _ _ _ _ _ _ _ E4 Hf2) as (Hf3 & Hc3 & Hd3).
  split_and!; [done| |rewrite !Forall_app; done]. rewrite !count_posts_app, Hc2. lia.
Qed.

(** The DELETEs of a list of Pods, and no more of them. *)
Definition deletes_among (ns : string) (pods : list Value) (e : Event) : Prop :=
  match e with
  | EAsk (QDelete p o) _ => ∃ pod, pod ∈ pods ∧ p = pod_path ns pod ∧ names_observed pod o
  | _ => True
  end.

Definition is_delete (e : Event) : bool := match e with EAsk (QDelete _ _) _ => true | _ => false end.
Definition count_deletes (t : list Event) : nat := length (List.filter is_delete t).

Lemma count_deletes_app t1 t2 : count_deletes (t1 ++ t2) = (count_deletes t1 + count_deletes t2)%nat.
Proof. unfold count_deletes. by rewrite List.filter_app, length_app. Qed.

Lemma no_delete_count t : Forall (asks no_delete) t → count_deletes t = 0%nat.
Proof. unfold count_deletes. induction 1 as [|[[]|] t H _ IH]; cbn; done. Qed.

Lemma no_delete_among ns pods t : Forall (asks no_delete) t → Forall (deletes_among ns pods) t.
Proof. intros H. eapply Forall_impl; [exact H|]. by intros [[]|]. Qed.

Lemma deletes_among_weaken ns (l l' : list Value) t : l ⊆ l' → Forall (deletes_among ns l) t → Forall (deletes_among ns l') t.
Proof. intros Hs H. eapply Forall_impl; [exact H|]. intros [[]|]; try done. cbn. naive_solver. Qed.

Lemma delete_observed_exec ns pod t r :
  exec (api_delete_observed (pod_path ns pod) pod) t r →
  Forall (deletes_among ns [pod]) t ∧ (count_deletes t ≤ 1)%nat ∧ ∀ path, count_posts path t = 0%nat.
Proof.
  intros E. pose proof (delete_observed_once _ _ _ _ E) as H1. apply emits_delete_observed in E. split_and!.
  - eapply Forall_impl; [exact E|]. intros [q a|n]; [|done]. intros (o & -> & Ho). cbn. exists pod. split_and!; [left|done..].
  - etransitivity; [|exact H1]. unfold count_deletes. clear. induction t as [|[[]|] t IH]; cbn; lia.
  - intros path. unfold count_posts. clear -E. induction E as [|[q a|n] t H _ IH]; cbn; [done| |done].
    destruct H as (o & -> & _). exact IH.
Qed.

Lemma delete_pods_exec kind rs l : ∀ c f t c' f',
  exec (delete_pods kind c (namespace_of rs) rs l f) t (c', f') → filed (cx_pending c) →
  filed (cx_pending c') ∧ count_posts (pods_path rs) t = 0%nat ∧ (count_deletes t ≤ length l)%nat ∧
  Forall (deletes_among (namespace_of rs) l) t.
Proof.
  induction l as [|pod l IH]; intros c f t c' f' E Hf; cbn [ReplicaSet.delete_pods] in E.
  { apply exec_ret_inv in E as [-> [= -> _]]. done. }
  assert (l ⊆ pod :: l) as Hsub by set_solver.
  destruct (is_empty_str _).
  { destruct (IH _ _ _ _ _ E Hf) as (? & ? & ? & ?). split_and!; [done..|cbn; lia|by eapply deletes_among_weaken]. }
  apply exec_bind in E as (t1 & t2 & r & E1 & E2 & ->). destruct (delete_observed_exec _ _ _ _ E1) as (Ha & Hc & Hp).
  assert (Forall (deletes_among (namespace_of rs) (pod :: l)) t1) as Ha' by (eapply deletes_among_weaken; [|exact Ha]; set_solver).
  destruct r as [v|e].
  - apply exec_bind in E2 as (t3 & t4 & c2 & E3 & E4 & ->). destruct (event_exec _ _ _ _ _ _ _ _ E3 Hf) as (Hf2 & Hc2 & Hd2).
    destruct (IH _ _ _ _ _ E4 Hf2) as (Hf3 & Hp3 & Hc3 & Ha3). split_and!; [done|..].
    + rewrite !count_posts_app, Hp, Hc2, Hp3. done.
    + rewrite !count_deletes_app, (no_delete_count _ Hd2). cbn. lia.
    + rewrite !Forall_app. split_and!; [done|by apply no_delete_among|by eapply deletes_among_weaken].
  - destruct (IH _ _ _ _ _ E2 Hf) as (Hf3 & Hp3 & Hc3 & Ha3). split_and!; [done|..].
    + by rewrite count_posts_app, Hp, Hp3.
    + rewrite count_deletes_app. cbn. lia.
    + rewrite Forall_app. split; [done|by eapply deletes_among_weaken].
Qed.

Lemma collect_terminal_exec ns l : ∀ t x path,
  exec (collect_terminal ns l) t x →
  count_posts path t = 0%nat ∧ (count_deletes t ≤ length l)%nat ∧ Forall (deletes_among ns l) t.
Proof.
  induction l as [|pod l IH]; intros t x path E; cbn [collect_terminal] in E.
  { by apply exec_ret_inv in E as [-> _]. }
  assert (l ⊆ pod :: l) as Hsub by set_solver. destruct (is_empty_str _).
  { destruct (IH _ _ path E) as (? & ? & ?). split_and!; [done|cbn; lia|by eapply deletes_among_weaken]. }
  apply exec_bind in E as (t1 & t2 & r & E1 & E2 & ->). destruct (delete_observed_exec _ _ _ _ E1) as (Ha & Hc & Hp).
  destruct (IH _ _ path E2) as (Hp3 & Hc3 & Ha3). split_and!.
  - by rewrite count_posts_app, Hp, Hp3.
  - rewrite count_deletes_app. cbn. lia.
  - rewrite Forall_app. split; [|by eapply deletes_among_weaken]. eapply deletes_among_weaken; [|exact Ha]. set_solver.
Qed.

Lemma manage_replicas_exec kind c rs_name rs_uid rs active ok t c' f att :
  exec (manage_replicas kind c (namespace_of rs) rs_name rs_uid rs active ok) t (c', f, att) → filed (cx_pending c) →
  let excess := take (length active - desired_replicas rs) (newest_first active) in
  filed (cx_pending c') ∧ (count_posts (pods_path rs) t ≤ desired_replicas rs - length active)%nat ∧
  (count_deletes t ≤ length excess)%nat ∧ Forall (deletes_among (namespace_of rs) excess) t.
Proof.
  intros E Hf. unfold ReplicaSet.manage_replicas in E. cbn zeta in *. destruct (length active <? desired_replicas rs)%nat eqn:E1.
  - destruct ok; cbn [negb] in E; [|apply exec_ret_inv in E as [-> [= -> _ _]]; split_and!; [done|cbn; lia|cbn; lia|constructor]].
    apply exec_bind in E as (t1 & t2 & [c1 f1] & E2 & [-> [= -> _ _]]%exec_ret_inv & ->). rewrite app_nil_r.
    destruct (create_pods_exec _ _ _ _ _ _ _ _ _ _ E2 Hf) as (? & ? & Hd). split_and!; [done..| |by apply no_delete_among].
    rewrite (no_delete_count _ Hd). lia.
  - destruct (desired_replicas rs <? length active)%nat eqn:E2.
    + apply exec_bind in E as (t1 & t2 & [c1 f1] & E3 & [-> [= -> _ _]]%exec_ret_inv & ->). rewrite app_nil_r.
      destruct (delete_pods_exec _ _ _ _ _ _ _ _ E3 Hf) as (? & Hp & ? & ?). split_and!; [done|rewrite Hp; lia|done..].
    + apply exec_ret_inv in E as [-> [= -> _ _]]. split_and!; [done|cbn; lia|cbn; lia|constructor].
Qed.

(** C15: a ReplicaSet pass neither overshoots nor undercuts.  Whatever the
    server answers and whatever is still open from before, one pass sends at
    most as many POSTs for Pods as are missing, and at most as many DELETEs as
    there are ended Pods beyond the newest and active Pods beyond the desired
    number; every DELETE is of such an ended Pod, or of one of the newest
    active Pods in excess, in the UID and revision observed.  So it never
    creates when it has enough, nor deletes an active Pod when it has too few;
    and a terminating ReplicaSet is left alone. *)
Theorem replicaset_pass_bounded kind c rs pods t c' r :
  exec (reconcile kind c rs pods) t (c', r) → filed (cx_pending c) →
  let rs_uid := str_or "" rs.["metadata"].["uid"] in
  let active := active_pods rs_uid pods in
  let ended := drop 1 (terminal_pods rs_uid pods) in
  let excess := take (length active - desired_replicas rs) (newest_first active) in
  filed (cx_pending c') ∧
  (count_posts (pods_path rs) t ≤ desired_replicas rs - length active)%nat ∧
  (count_deletes t ≤ length ended + length excess)%nat ∧
  Forall (deletes_among (namespace_of rs) (ended ++ excess)) t ∧
  (going rs = true → t = []).
Proof.
  cbn zeta. intros E Hf. unfold ReplicaSet.reconcile, reconcile_replicaset in E. fold (namespace_of rs) in E.
  destruct (as_str rs.["metadata"].["name"]) as [rs_name|]; [|apply exec_ret_inv in E as [-> [= -> _]]; split_and!; try done; cbn; lia].
  fold (going rs) in E. destruct (going rs) eqn:Eg; [apply exec_ret_inv in E as [-> [= -> _]]; split_and!; try done; cbn; lia|].
  set (rs_uid := str_or "" _) in *. set (active := active_pods rs_uid pods) in *. set (ended := drop 1 _) in *.
  apply exec_bind in E as (t1 & t2 & u & E1 & E & ->). destruct (collect_terminal_exec _ _ _ _ (pods_path rs) E1) as (Hp1 & Hc1 & Ha1).
  destruct (observe_failures _ _ _ _) as [b new_failure]. set (b' := if negb new_failure && _ then _ else _) in E.
  destruct (allowed b' rs_uid _) as [ok requeue]. set (c1 := drawn (with_backoff c b')) in *.
  set (excess := take _ _). set (rest := x <== _ ;; _) in E.
  assert (∀ t, exec rest t (c', r) → filed (cx_pending c') ∧ (count_posts (pods_path rs) t ≤ desired_replicas rs - length active)%nat ∧
    (count_deletes t ≤ length excess)%nat ∧ Forall (deletes_among (namespace_of rs) excess) t) as Hrest.
  { intros t E'. apply exec_bind in E' as (t3 & t4 & [[c2 f] att] & E2 & E3 & ->).
    destruct (manage_replicas_exec _ _ _ _ _ _ _ _ _ _ _ E2 Hf) as (Hf2 & Hp2 & Hc2 & Ha2).
    change (count_deletes t3 ≤ length excess)%nat in Hc2.
    destruct (set_index _ _ _) as [updated|]; [|apply exec_ret_inv in E3 as [-> [= -> _]]; by rewrite app_nil_r].
    apply exec_bind in E3 as (t5 & t6 & x & E4 & [-> [= -> _]]%exec_ret_inv & ->). rewrite app_nil_r.
    apply send_json_quiet in E4 as (Hp5 & _ & Hd); [|done].
    split_and!; [done|rewrite count_posts_app, Hp5; lia|rewrite count_deletes_app, (no_delete_count _ Hd); lia|].
    apply Forall_app. split; [done|by apply no_delete_among]. }
  assert (filed (cx_pending c') ∧ (count_posts (pods_path rs) t2 ≤ desired_replicas rs - length active)%nat ∧
    (count_deletes t2 ≤ length excess)%nat ∧ Forall (deletes_among (namespace_of rs) excess) t2) as (Hf2 & Hp2 & Hc2 & Ha2).
  { destruct requeue as [d|]; [|by apply Hrest]. apply exec_tell_inv in E as (t3 & -> & E). destruct (Hrest _ E) as (? & ? & ? & ?).
    split_and!; [done..|by constructor]. }
  split_and!; [done|rewrite count_posts_app, Hp1; lia|rewrite count_deletes_app; lia| |done].
  apply Forall_app. split; (eapply deletes_among_weaken; [|done]); set_solver.
Qed.
End Pass.

(** *** Witness *)

Module RsDemo.

Definition rs : Value :=
  json_obj [("metadata", json_obj [("name", Str "web"); ("namespace", Str "d"); ("uid", Str "u-rs")]);
            ("spec", json_obj [("replicas", Num (PosInt 1))])].

Definition pod (n phase at_ : string) : Value :=
  json_obj [("metadata", json_obj [("name", Str n); ("uid", Str n); ("resourceVersion", Str "1"); ("creationTimestamp", Str at_);
              ("ownerReferences", Array [json_obj [("uid", Str "u-rs")]])]);
            ("status", json_obj [("phase", Str phase)])].

(** Two running Pods for one wanted, and two that have ended. *)
Definition pods : list Value :=
  [pod "a" "Running" "2024-01-01"; pod "b" "Running" "2024-01-02"; pod "x" "Failed" "2024-01-01"; pod "y" "Succeeded" "2024-01-03"].

Definition ctx : Ctx := mkCtx ∅ Backoff.new ∅ 0.
Definition ids (n : nat) : string := "0123456789abcdef".
Definition no_text (n : nat) : string := "".
Definition clock (n : nat) : Z := Z.of_nat n.
Definition show_err (e : ClientError) : string := "refused".

Definition pass : Prog (Ctx * result unit string) := reconcile ids ids clock no_text no_text "h" show_err REPLICA_SET ctx rs pods.
Definition answers : list Answer := [AResponse 200 None; AResponse 200 None; AResponse 201 (Some Null); AResponse 200 (Some rs)].
Definition trace : list Event := Eval vm_compute in default [] (fst <$> play answers pass).

Lemma rs_pass_exec : ∃ x, exec pass trace x.
Proof. eexists. apply (play_exec answers). vm_compute. reflexivity. Qed.

End RsDemo.

Lemma replicaset_pass_bounded_witness :
  count_deletes RsDemo.trace = 2%nat ∧
  Forall (deletes_among "d" [RsDemo.pod "x" "Failed" "2024-01-01"; RsDemo.pod "b" "Running" "2024-01-02"]) RsDemo.trace.
Proof.
  split; [vm_compute; reflexivity|]. destruct RsDemo.rs_pass_exec as [[c' r] E].
  destruct (replicaset_pass_bounded RsDemo.ids RsDemo.ids RsDemo.clock RsDemo.no_text RsDemo.no_text "h" RsDemo.show_err REPLICA_SET
    RsDemo.ctx RsDemo.rs RsDemo.pods RsDemo.trace c' r E) as (_ & _ & _ & H & _).
  - intros g p Hg. cbn in Hg. by rewrite lookup_empty in Hg.
  - exact H.
Defined.
