(* ===== verification/Namespace.v ===== *)
(** * The namespace controller ([pkg/controller-manager/src/namespace.rs])

    Every live namespace gets its default ServiceAccount; a namespace that is
    being deleted is emptied, its Pods first, and its finalizer is cleared
    once nothing is left.  What can be in a namespace is discovered from the
    API server.  Passes are programs over the client of [Client]; the feeds
    of the informers are arguments.

    Proved: a namespace is finalized only after every kind of object that can
    be in it was listed and none was there; while the feed shows a Pod nothing
    but Pods is deleted; discovery returns every kind that can be listed and
    deleted, or fails. *)

From Stdlib Require Import ZArith Lia String Ascii.
From stdpp Require Import base gmap strings numbers option list.
From S2P Require Import Prelude Text BTree Json Informer Owned Client.
Open Scope string_scope.
Open Scope kube_scope.
Open Scope Z_scope.

Module NamespaceController.

(** ** Discovery *)

Notation Resources := (list (string * string)).

Definition has_verb (resource : Value) (verb : string) : bool :=
  existsb (λ s, str_is s verb) (items resource.["verbs"]).

Definition purgeable (resource : Value) : bool :=
  let name := str_or "" resource.["name"] in
  (match as_bool resource.["namespaced"] with Some true => true | _ => false end)
  && negb (is_empty_str name) && negb (str_contains_char "/" name) && has_verb resource "list" && has_verb resource "delete".

Definition collect_namespaced (api_root : string) (out : Resources) : Prog (result Resources ClientError) :=
  doc <-! api_list api_root ;;
  Ret match as_array doc.["resources"] with
      | None => Err (Local "invalid discovery resources")
      | Some resources => Ok (out ++ ((λ r, (api_root, str_or "" r.["name"])) <$> List.filter purgeable resources))%list
      end.

Definition group_root (group : Value) : option string :=
  (λ gv, "/apis/" ++ gv) <$> as_str group.["preferredVersion"].["groupVersion"].

Fixpoint collect_groups (groups : list Value) (out : Resources) : Prog (result Resources ClientError) :=
  match groups with
  | [] => Ret (Ok out)
  | group :: groups =>
      match group_root group with
      | None => collect_groups groups out
      | Some root => out <-! collect_namespaced root out ;; collect_groups groups out
      end
  end.

Definition discover_namespaced_resources : Prog (result Resources ClientError) :=
  out <-! collect_namespaced "/api/v1" [] ;;
  groups <-! api_list "/apis" ;;
  match as_array groups.["groups"] with
  | None => Ret (Err (Local "invalid discovery groups"))
  | Some groups => collect_groups groups out
  end.

(** ** Termination *)

Definition collection (namespace : string) (r : string * string) : string := r.1 ++ "/namespaces/" ++ namespace ++ "/" ++ r.2.
Definition item_path (namespace : string) (r : string * string) (name : string) : string := collection namespace r ++ "/" ++ name.

(** Deletes whose answers are ignored. *)
Fixpoint purge (namespace : string) (r : string * string) (l : list Value) : Prog unit :=
  match l with
  | [] => Ret tt
  | item :: l =>
      match as_str item.["metadata"].["name"] with
      | None => purge namespace r l
      | Some name => _ <== api_delete_observed (item_path namespace r name) item ;; purge namespace r l
      end
  end.

(** How many objects were listed. *)
Fixpoint purge_all (namespace : string) (resources : Resources) (remaining : nat) : Prog (result nat ClientError) :=
  match resources with
  | [] => Ret (Ok remaining)
  | r :: resources =>
      list <-! api_list (collection namespace r) ;;
      match as_array list.["items"] with
      | None => Ret (Err (Local "invalid collection"))
      | Some l => _ <== purge namespace r l ;; purge_all namespace resources (remaining + length l)
      end
  end.

Definition finalize_body (namespace : string) (observed : Value) : Value :=
  json_obj [("apiVersion", Str "v1"); ("kind", Str "Namespace");
            ("metadata", json_obj [("name", Str namespace); ("uid", observed.["metadata"].["uid"]);
                                   ("resourceVersion", observed.["metadata"].["resourceVersion"])]);
            ("spec", json_obj [("finalizers", Array [])])].

Definition finalize_path (namespace : string) : string := "/api/v1/namespaces/" ++ namespace ++ "/finalize".

Definition terminate_namespace (namespace : string) (resources : Resources) (observed : Value) : Prog (result unit ClientError) :=
  remaining <-! purge_all namespace resources 0 ;;
  if Nat.eqb remaining 0 then _ <== api_update (finalize_path namespace) (finalize_body namespace observed) ;; Ret (Ok tt)
  else Ret (Ok tt).

Definition terminating (ns : Value) : bool :=
  negb (is_null ns.["metadata"].["deletionTimestamp"]) || str_is ns.["status"].["phase"] "Terminating".

Definition is_pods (r : string * string) : bool := str_eqb r.1 "/api/v1" && str_eqb r.2 "pods".

(** [Iterator::position]. *)
Fixpoint position {A} (f : A → bool) (l : list A) : option nat :=
  match l with [] => None | x :: l => if f x then Some 0%nat else S <$> position f l end.

(** The Pods' feed first, the others in their order. *)
Definition purge_order (pods : option nat) (n : nat) : list nat :=
  (match pods with Some i => [i] | None => [] end ++ List.filter (λ i, negb (bool_decide (Some i = pods))) (seq 0 n))%list.

(** The objects not yet on their way out; a refused delete ends the pass. *)
Fixpoint delete_items (namespace : string) (r : string * string) (l : list Value) : Prog (result unit ClientError) :=
  match l with
  | [] => Ret (Ok tt)
  | item :: l =>
      if negb (is_null item.["metadata"].["deletionTimestamp"]) then delete_items namespace r l
      else _ <-! api_delete_observed (item_path namespace r (str_or "" item.["metadata"].["name"])) item ;; delete_items namespace r l
  end.

(** [None] when Pods are left and the rest waits. *)
Fixpoint delete_in_order (name : string) (resources : Resources) (feed : nat → result (list Value) string) (pods : option nat) (order : list nat)
    (remaining : nat) : Prog (result (option nat) ClientError) :=
  match order with
  | [] => Ret (Ok (Some remaining))
  | i :: order =>
      match resources !! i with
      | None => Ret (Err (Local "panic"))
      | Some r =>
          match feed i with
          | Err e => Ret (Err (Local e))
          | Ok items =>
              _ <-! delete_items name r items ;;
              if bool_decide (Some i = pods) && negb (Nat.eqb (length items) 0) then Ret (Ok None)
              else delete_in_order name resources feed pods order (remaining + length items)
          end
      end
  end.

(** [Controller::reconcile] of the terminator. *)
Definition reconcile_terminate (ns : Value) (resources : Resources) (feed : nat → result (list Value) string) : Prog (result unit ClientError) :=
  if negb (terminating ns) then Ret (Ok tt)
  else
    let name := str_or "" ns.["metadata"].["name"] in
    let pods := position is_pods resources in
    left <-! delete_in_order name resources feed pods (purge_order pods (length resources)) 0 ;;
    match left with
    | None => Ret (Ok tt)
    | Some remaining => if Nat.eqb remaining 0 then terminate_namespace name resources ns else Ret (Ok tt)
    end.

(** ** The default ServiceAccount *)

Definition service_account (namespace : string) : Value :=
  json_obj [("apiVersion", Str "v1"); ("kind", Str "ServiceAccount");
            ("metadata", json_obj [("name", Str "default"); ("namespace", Str namespace)])].

Definition accounts_path (namespace : string) : string := "/api/v1/namespaces/" ++ namespace ++ "/serviceaccounts".

Definition ensure_default_service_account (pending : Pending) (namespace : string) : Prog (Pending * result unit ClientError) :=
  r <== api_get (accounts_path namespace ++ "/default") ;;
  match r with
  | Err e => Ret (pending, Err e)
  | Ok (status, _) =>
      if is_success status then Ret (pending, Ok tt)
      else if negb (status =? 404) then Ret (pending, Err (Local "cannot observe default ServiceAccount"))
      else x <== create pending (accounts_path namespace) (service_account namespace) ;;
           Ret (x.1, match x.2 with Ok _ => Ok tt | Err e => Err e end)
  end.

Definition reconcile_provision (pending : Pending) (ns : Value) : Prog (Pending * result unit ClientError) :=
  if negb (terminating ns) then ensure_default_service_account pending (str_or "" ns.["metadata"].["name"]) else Ret (pending, Ok tt).

(** ** Which namespaces an object wakes *)

Definition route_namespace (d : Delta) (primary : Feed) : list Key :=
  concat ((λ object, keys_at primary (IName "" (str_or "" object.["metadata"].["namespace"]))) <$> sides d).
End NamespaceController.
Import NamespaceController.

(** ** Listing *)

Lemma api_list_exec path t (v : Value) :
  exec (api_list path) t (Ok v) → ∃ s, t = [EAsk (QList path) (AResponse s (Some v))] ∧ is_error s = false.
Proof.
  unfold api_list. intros (a & t' & -> & E)%exec_ask_inv. destruct a as [|s body].
  { by apply exec_tell_inv in E as (? & _ & [_ [=]]%exec_ret_inv). }
  destruct (is_error s) eqn:Es; [by apply exec_tell_inv in E as (? & _ & [_ [=]]%exec_ret_inv)|].
  destruct body as [w|]; [|by apply exec_tell_inv in E as (? & _ & [_ [=]]%exec_ret_inv)].
  apply exec_ret_inv in E as [-> [= ->]]. by exists s.
Qed.

(** The collection was listed, in full, and was empty. *)
Definition listed_empty (t : list Event) (path : string) : Prop :=
  ∃ s v, EAsk (QList path) (AResponse s (Some v)) ∈ t ∧ is_error s = false ∧ v.["items"] = Array [].

Lemma listed_empty_app t t' path : listed_empty t path ∨ listed_empty t' path → listed_empty (t ++ t') path.
Proof. intros [(s & v & H & ?)|(s & v & H & ?)]; exists s, v; (split; [|done]); apply elem_of_app; auto. Qed.

(** ** Emptying a namespace *)

Definition no_put (q : Request) : Prop := match q with QPut _ _ => False | _ => True end.

Lemma delete_observed_no_put p v : emits (asks no_put) (api_delete_observed p v).
Proof. eapply emits_weaken; [|apply emits_delete_observed]. intros [q a|n]; [|done]. by intros (o & -> & _). Qed.

Lemma api_list_no_put p : emits (asks no_put) (api_list p).
Proof. apply emits_ask; [done|]. intros a. apply emits_check. Qed.

Lemma purge_no_put ns r l : emits (asks no_put) (purge ns r l).
Proof.
  induction l as [|item l IH]; [apply emits_ret|]. cbn [purge]. destruct (as_str _); [|done].
  apply emits_bind; [apply delete_observed_no_put|by intros x].
Qed.

Lemma purge_all_no_put ns resources : ∀ n, emits (asks no_put) (purge_all ns resources n).
Proof.
  induction resources as [|r resources IH]; intros n; [apply emits_ret|]. cbn [purge_all]. apply emits_bind_ok; [apply api_list_no_put|].
  intros v. destruct (as_array _); [|apply emits_ret]. apply emits_bind; [apply purge_no_put|]. intros x. apply IH.
Qed.

Lemma purge_all_exec ns resources : ∀ n t m,
  exec (purge_all ns resources n) t (Ok m) → (n ≤ m)%nat ∧ (m = 0%nat → ∀ r, r ∈ resources → listed_empty t (collection ns r)).
Proof.
  induction resources as [|r resources IH]; intros n t m.
  { cbn. intros [-> [= ->]]%exec_ret_inv. split; [done|]. by intros _ r []%not_elem_of_nil. }
  cbn [purge_all]. intros E. apply exec_bind_ok in E as [(t1 & t2 & v & E1 & E2 & ->)|(e & _ & [=])].
  apply api_list_exec in E1 as (s & -> & Hs). destruct (as_array v.["items"]) as [l|] eqn:El; [|by apply exec_ret_inv in E2 as [_ [=]]].
  apply exec_bind in E2 as (t3 & t4 & u & _ & E2 & ->). apply IH in E2 as [Hle Hall]. split; [lia|]. intros -> r' [->|Hin]%elem_of_cons.
  - apply listed_empty_app. left. exists s, v. split_and!; [left|done|]. assert (l = []) as -> by (destruct l; [done|cbn in Hle; lia]).
    by destruct (v.["items"]); try done; injection El as ->.
  - apply listed_empty_app. right. apply listed_empty_app. right. by apply Hall.
Qed.

Lemma delete_items_deletes ns r l : emits (asks (λ q, ∃ n o, q = QDelete (item_path ns r n) o)) (delete_items ns r l).
Proof.
  induction l as [|item l IH]; [apply emits_ret|]. cbn [delete_items]. destruct (negb _); [done|]. apply emits_bind_ok; [|by intros x].
  eapply emits_weaken; [|apply emits_delete_observed]. intros [q a|n]; [|done]. cbn. intros (o & -> & _). eauto.
Qed.

Lemma delete_in_order_no_put name resources feed pods order : ∀ n, emits (asks no_put) (delete_in_order name resources feed pods order n).
Proof.
  induction order as [|i order IH]; intros n; [apply emits_ret|]. cbn [delete_in_order]. destruct (resources !! i) as [r|]; [|apply emits_ret].
  destruct (feed i) as [l|e]; [|apply emits_ret]. apply emits_bind_ok.
  - eapply emits_weaken; [|apply delete_items_deletes]. intros [q a|m]; [|done]. cbn. by intros (? & ? & ->).
  - intros x. destruct (_ && _); [apply emits_ret|apply IH].
Qed.

Lemma no_put_split t1 t2 p b a u v : Forall (asks no_put) t1 → (t1 ++ t2)%list = (u ++ EAsk (QPut p b) a :: v)%list →
  ∃ w, u = (t1 ++ w)%list ∧ t2 = (w ++ EAsk (QPut p b) a :: v)%list.
Proof.
  revert u. induction t1 as [|e t1 IH]; intros u H E; [by exists u|]. apply Forall_cons in H as [He H]. destruct u as [|e' u]; cbn in E.
  - injection E as -> _. done.
  - injection E as <- E. destruct (IH u H E) as (w & -> & ->). by exists w.
Qed.


(** ** Pods first *)

Lemma position_lookup {A} (f : A → bool) l : ∀ i, position f l = Some i → ∃ x, l !! i = Some x ∧ f x = true.
Proof.
  induction l as [|x l IH]; intros i; [done|]. cbn. destruct (f x) eqn:E; [intros [= <-]; by exists x|].
  destruct (position f l) as [j|]; [|done]. intros [= <-]. by apply IH.
Qed.

Lemma is_pods_eq r : is_pods r = true → r = ("/api/v1", "pods").
Proof. destruct r as [a b]. unfold is_pods. intros [H1 H2]%andb_true_iff. apply str_eqb_eq in H1, H2. cbn in *. congruence. Qed.

(** the Pods go first.  While the feed of Pods shows any in the namespace,
    a pass deletes Pods of that namespace and asks for nothing else: no other
    object is deleted, nothing is written, and the finalizer stays. *)
Theorem namespace_pods_first ns resources feed i l t x :
  exec (reconcile_terminate ns resources feed) t x →
  position is_pods resources = Some i → feed i = Ok l → l ≠ [] →
  ∀ q a, EAsk q a ∈ t → ∃ n o, q = QDelete (item_path (str_or "" ns.["metadata"].["name"]) ("/api/v1", "pods") n) o.
Proof.
  unfold reconcile_terminate. intros E Ep Ef Hl q a Hin. destruct (terminating ns); [|apply exec_ret_inv in E as [-> _]; by apply not_elem_of_nil in Hin].
  cbn [negb] in E. cbn zeta in E. rewrite Ep in E. unfold purge_order in E. cbn [app delete_in_order] in E.
  destruct (position_lookup _ _ _ Ep) as (r & Er & ->%is_pods_eq). rewrite Er, Ef in E.
  rewrite bool_decide_eq_true_2 in E by done. assert (negb (Nat.eqb (length l) 0) = true) as Hn by (by destruct l). rewrite Hn in E. cbn [andb] in E.
  set (p := delete_items _ _ _) in E. assert (Forall (asks (λ q, ∃ n o, q = QDelete (item_path (str_or "" ns.["metadata"].["name"]) ("/api/v1", "pods") n) o)) t) as H.
  { assert (emits (asks (λ q, ∃ n o, q = QDelete (item_path (str_or "" ns.["metadata"].["name"]) ("/api/v1", "pods") n) o)) (_ <-! p ;; Ret (Ok (None : option nat)))) as Hp.
    { apply emits_bind_ok; [apply delete_items_deletes|intros y; apply emits_ret]. }
    apply exec_bind_ok in E as [(t1 & t2 & left & E1 & E2 & ->)|(e & E1 & _)]; [|by apply Hp in E1].
    pose proof E1 as E1'. apply Hp in E1. apply exec_bind_ok in E1' as [(t3 & t4 & u & _ & [_ [= ->]]%exec_ret_inv & _)|(e & _ & [=])].
    apply exec_ret_inv in E2 as [-> _]. by rewrite app_nil_r. }
  rewrite Forall_forall in H. by apply H in Hin.
Qed.

(** ** Discovery *)

Lemma collect_namespaced_exec root out t out' :
  exec (collect_namespaced root out) t (Ok out') →
  ∃ s doc l, t = [EAsk (QList root) (AResponse s (Some doc))] ∧ as_array doc.["resources"] = Some l ∧
    out' = (out ++ ((λ r, (root, str_or "" r.["name"])) <$> List.filter purgeable l))%list.
Proof.
  unfold collect_namespaced. intros [(t1 & t2 & doc & E1 & E2 & ->)|(e & _ & [=])]%exec_bind_ok.
  apply api_list_exec in E1 as (s & -> & _). apply exec_ret_inv in E2 as [-> E2]. destruct (as_array doc.["resources"]) as [l|] eqn:El; [|done].
  injection E2 as ->. exists s, doc, l. done.
Qed.

(** The documents read, by where they were listed. *)
Definition documents (t : list Event) (root : string) (name : string) : Prop :=
  ∃ s doc l res, EAsk (QList root) (AResponse s (Some doc)) ∈ t ∧ as_array doc.["resources"] = Some l ∧ res ∈ l ∧ purgeable res = true ∧
    name = str_or "" res.["name"].

Lemma collect_groups_exec groups : ∀ out t out',
  exec (collect_groups groups out) t (Ok out') →
  Forall (λ e, match e with EAsk (QList p) (AResponse _ (Some _)) => p ∈ omap group_root groups | _ => False end) t ∧
  (∀ root, root ∈ omap group_root groups → ∃ s doc l, EAsk (QList root) (AResponse s (Some doc)) ∈ t ∧ as_array doc.["resources"] = Some l) ∧
  ∀ root name, (root, name) ∈ out' ↔ (root, name) ∈ out ∨ documents t root name.
Proof.
  induction groups as [|g groups IH]; intros out t out'.
  { intros [-> [= ->]]%exec_ret_inv. split_and!; [constructor|set_solver|]. intros root name. split; [by left|].
    intros [?|(s & doc & l & res & []%not_elem_of_nil & _)]; done. }
  cbn [collect_groups]. destruct (group_root g) as [root|] eqn:Eg.
  2: { intros E. apply IH in E. cbn. by rewrite Eg. }
  intros [(t1 & t2 & mid & E1 & E2 & ->)|(e & _ & [=])]%exec_bind_ok. apply collect_namespaced_exec in E1 as (s & doc & l & -> & El & ->).
  apply IH in E2 as (Hq & Hr & Ho). cbn. rewrite Eg. split_and!.
  - constructor; [left|]. eapply Forall_impl; [exact Hq|]. intros [[] [|? []]|]; try done. by right.
  - intros r [->|Hin]%elem_of_cons; [exists s, doc, l; split; [left|done]|]. destruct (Hr r Hin) as (s' & doc' & l' & H & El').
    exists s', doc', l'. split; [by right|done].
  - intros r n. rewrite Ho, elem_of_app, list_elem_of_fmap. split.
    + intros [[?|(res & [= -> ->] & Hres)]|H]; [by left| |].
      * right. exists s, doc, l, res. apply list_elem_of_In, filter_In in Hres as [? ?]. split_and!; [left|done|by apply list_elem_of_In|done..].
      * right. destruct H as (s' & doc' & l' & res & H & ?). exists s', doc', l', res. split; [by right|done].
    + intros [?|(s' & doc' & l' & res & [H|H]%elem_of_cons & El' & Hin & Hp & ->)]; [by left; left| |].
      * injection H as -> -> ->. rewrite El in El'. injection El' as ->. left. right. exists res. split; [done|].
        apply list_elem_of_In, filter_In. split; [by apply list_elem_of_In|done].
      * right. exists s', doc', l', res. done.
Qed.

(** discovery is complete, or fails.  When it succeeds, the core group and
    the preferred version of every group the server names were all read, and
    the kinds returned are exactly those in what was read that live in
    namespaces, are no subresources, and can be listed and deleted; so no kind
    of object is left out of a namespace's emptying silently. *)
Theorem discovery_complete t out :
  exec discover_namespaced_resources t (Ok out) →
  ∃ s v groups, EAsk (QList "/apis") (AResponse s (Some v)) ∈ t ∧ as_array v.["groups"] = Some groups ∧
    (∀ root, root = "/api/v1" ∨ root ∈ omap group_root groups →
       ∃ s doc l, EAsk (QList root) (AResponse s (Some doc)) ∈ t ∧ as_array doc.["resources"] = Some l) ∧
    ∀ root name, root ≠ "/apis" → (root, name) ∈ out ↔ documents t root name.
Proof.
  unfold discover_namespaced_resources. intros [(t1 & t2 & core & E1 & E2 & ->)|(e & _ & [=])]%exec_bind_ok.
  apply collect_namespaced_exec in E1 as (s1 & doc & l & -> & El & ->).
  apply exec_bind_ok in E2 as [(t3 & t4 & v & E3 & E4 & ->)|(e & _ & [=])]. apply api_list_exec in E3 as (s & -> & _).
  destruct (as_array v.["groups"]) as [groups|] eqn:Eg; [|by apply exec_ret_inv in E4 as [_ [=]]].
  apply collect_groups_exec in E4 as (Hq & Hr & Ho). exists s, v, groups. split_and!; [set_solver|done| |].
  - intros root [->|Hin]; [exists s1, doc, l; split; [left|done]|]. destruct (Hr root Hin) as (s' & doc' & l' & H & ?). exists s', doc', l'. split; [set_solver|done].
  - intros root name Hne. rewrite Ho, app_nil_l, list_elem_of_fmap. split.
    + intros [(res & [= -> ->] & Hres)|(s' & doc' & l' & res & H & ?)].
      * apply list_elem_of_In, filter_In in Hres as [Hin Hp]. exists s1, doc, l, res. split_and!; [left|done|by apply list_elem_of_In|done..].
      * exists s', doc', l', res. split; [set_solver|done].
    + intros (s' & doc' & l' & res & Hin & El' & Hres & Hp & ->). cbn [app] in Hin. apply elem_of_cons in Hin as [H|[H|H]%elem_of_cons].
      * injection H as -> -> ->. rewrite El in El'. injection El' as ->. left. exists res. split; [done|].
        apply list_elem_of_In, filter_In. split; [by apply list_elem_of_In|done].
      * by injection H as ->.
      * right. exists s', doc', l', res. done.
Qed.

(** ** Provisioning *)

(** The default ServiceAccount is created only in a namespace that stays, and
    only when the server said there is none. *)
Lemma account_only_when_absent pending ns t x path :
  exec (reconcile_provision pending ns) t x → count_posts path t ≠ 0%nat →
  terminating ns = false ∧
  ∃ body, head t = Some (EAsk (QGet (accounts_path (str_or "" ns.["metadata"].["name"]) ++ "/default")) (AResponse 404 body)).
Proof.
  unfold reconcile_provision. destruct (terminating ns); cbn [negb]; [by intros [-> _]%exec_ret_inv|].
  unfold ensure_default_service_account. intros (t1 & t2 & r & E1 & E2 & ->)%exec_bind. apply exec_ask_inv in E1 as (a & t3 & -> & E1).
  apply respond_exec in E1 as [Hn Hr]. cbn [app head]. unfold count_posts. cbn [List.filter is_post]. rewrite List.filter_app, length_app.
  intros Hp. split; [done|]. assert (length (List.filter (is_post path) t3) = 0%nat) as H3 by (by apply count_posts_notes).
  destruct a as [|s body]; subst r; [apply exec_ret_inv in E2 as [-> _]; cbn in Hp; lia|].
  destruct (is_success s); [apply exec_ret_inv in E2 as [-> _]; cbn in Hp; lia|].
  destruct (s =? 404) eqn:Es; cbn [negb] in E2; [|apply exec_ret_inv in E2 as [-> _]; cbn in Hp; lia].
  apply Z.eqb_eq in Es as ->. by exists body.
Qed.

(** *** Witnesses *)

Module NsDemo.
Definition ns : Value :=
  json_obj [("metadata", json_obj [("name", Str "d"); ("uid", Str "u"); ("resourceVersion", Str "7"); ("deletionTimestamp", Str "t")])].
Definition resources : Resources := [("/api/v1", "secrets"); ("/api/v1", "pods")].
Definition object (n : string) : Value := json_obj [("metadata", json_obj [("name", Str n); ("uid", Str n); ("resourceVersion", Str "3")])].
Definition nothing (_ : nat) : result (list Value) string := Ok [].
Definition items (l : list Value) : Answer := AResponse 200 (Some (json_obj [("items", Array l)])).

Definition trace : list Event :=
  Eval vm_compute in default [] (fst <$> play [items []; items []; AResponse 200 (Some Null)] (reconcile_terminate ns resources nothing)).
Lemma ns_pass_exec : ∃ x, exec (reconcile_terminate ns resources nothing) trace x.
Proof. eexists. apply (play_exec [items []; items []; AResponse 200 (Some Null)]). vm_compute. reflexivity. Qed.

Definition with_pods (i : nat) : result (list Value) string := Ok [object (if Nat.eqb i 1 then "p" else "s")].
Definition pods_trace : list Event :=
  Eval vm_compute in default [] (fst <$> play [AResponse 200 (Some Null)] (reconcile_terminate ns resources with_pods)).
Lemma pods_pass_exec : ∃ x, exec (reconcile_terminate ns resources with_pods) pods_trace x.
Proof. eexists. apply (play_exec [AResponse 200 (Some Null)]). vm_compute. reflexivity. Qed.

Definition deletes (t : list Event) : list string := omap (λ e, match e with EAsk (QDelete p _) _ => Some p | _ => None end) t.

(** When the feeds are still empty but the server has objects, the lists that
    confirm the absence delete what they find in the order of discovery: a
    Secret goes while a Pod that uses it is there. *)
Example confirming_deletes_before_pods :
  deletes (default [] (fst <$> play [items [object "s"]; AResponse 200 (Some Null); items [object "p"]; AResponse 200 (Some Null)]
                         (reconcile_terminate ns resources nothing))) =
  ["/api/v1/namespaces/d/secrets/s"; "/api/v1/namespaces/d/pods/p"].
Proof. vm_compute. reflexivity. Qed.

Definition resource (n : string) : Value :=
  json_obj [("name", Str n); ("namespaced", Bool true); ("verbs", Array [Str "list"; Str "delete"])].
Definition docs : list Answer :=
  [AResponse 200 (Some (json_obj [("resources", Array [resource "pods"; resource "pods/log"])]));
   AResponse 200 (Some (json_obj [("groups", Array [json_obj [("preferredVersion", json_obj [("groupVersion", Str "apps/v1")])]])]));
   AResponse 200 (Some (json_obj [("resources", Array [resource "deployments"])]))].
Definition discovery_trace : list Event := Eval vm_compute in default [] (fst <$> play docs discover_namespaced_resources).
Lemma discovery_exec : exec discover_namespaced_resources discovery_trace (Ok [("/api/v1", "pods"); ("/apis/apps/v1", "deployments")]).
Proof. apply (play_exec docs). vm_compute. reflexivity. Qed.
End NsDemo.


Lemma namespace_pods_first_witness : NsDemo.deletes NsDemo.pods_trace = ["/api/v1/namespaces/d/pods/p"] ∧
  ∀ q a, EAsk q a ∈ NsDemo.pods_trace → ∃ n o, q = QDelete (item_path "d" ("/api/v1", "pods") n) o.
Proof.
  split; [vm_compute; reflexivity|]. destruct NsDemo.pods_pass_exec as [x E].
  apply (namespace_pods_first NsDemo.ns NsDemo.resources NsDemo.with_pods 1 [NsDemo.object "p"] _ _ E); [vm_compute; reflexivity..|discriminate].
Defined.

Lemma discovery_complete_witness : documents NsDemo.discovery_trace "/apis/apps/v1" "deployments".
Proof.
  destruct (discovery_complete _ _ NsDemo.discovery_exec) as (s & v & groups & _ & _ & _ & H). apply H; [discriminate|]. right. left.
Defined.
