(* ===== verification/Deployment.v ===== *)
(** * The Deployment controller ([pkg/controller-manager/src/deployment.rs])

    The I/O around the arithmetic of [Rollout]: the ReplicaSet of the current
    template is found or created, the plan for this pass is written to the
    ReplicaSets, settled history is pruned, and the status is reported.  A
    pass is a program over the client, with the context of [ReplicaSet] (open
    creates, recorded events).  [json_text] is the text of a JSON value, as
    [serde_json] writes it.

    Proved: everything a pass asks for is what its plan says; and wherever a
    pass stops, whichever of its writes were made, the ReplicaSets are never
    told to give up more available Pods than the strategy allows. *)

From Stdlib Require Import ZArith Lia String Ascii.
From stdpp Require Import base gmap strings numbers option list.
From S2P Require Import Prelude Text BTree Json Rollout Backoff Client ReplicaSet.
Open Scope string_scope.
Open Scope kube_scope.
Open Scope Z_scope.

Module Deployment.

(** ** The template's hash: FNV-1a *)

Definition fnv_step (h : Z) (b : ascii) : Z := wrap64 (Z.lxor h (Z.of_nat (nat_of_ascii b)) * 1099511628211).

Fixpoint fnv (h : Z) (s : string) : Z := match s with EmptyString => h | String b s => fnv (fnv_step h b) s end.

Definition hex_digit (d : Z) : ascii := ascii_of_nat (Z.to_nat (if d <? 10 then 48 + d else 87 + d)).

(** [{:010x}] of a number below [2^40]. *)
Fixpoint hex (width : nat) (n : Z) (acc : string) : string :=
  match width with O => acc | S width => hex width (n / 16) (String (hex_digit (n mod 16)) acc) end.

Section Hash.
  Variable json_text : Value → string.

Definition compute_template_hash (template : Value) : string :=
  hex 10 (Z.land (fnv 14695981039346656037 (json_text template)) 1099511627775) "".
End Hash.

(** ** ReplicaSets *)

Definition sets_path (namespace : string) : string := "/apis/apps/v1/namespaces/" ++ namespace ++ "/replicasets".
Definition rs_path (namespace name : string) : string := sets_path namespace ++ "/" ++ name.

Definition by_name (owned : list Value) (name : string) : option Value := head (List.filter (λ rs, str_is rs.["metadata"].["name"] name) owned).

Definition Outcome : Type := Prog (Ctx * result unit ClientError).

Definition put {A} (c : Ctx) (p : Prog (result A ClientError)) : Outcome :=
  r <== p ;; Ret (c, match r with Ok _ => Ok tt | Err e => Err e end).

Definition scaled_set (rs : Value) (replicas : Z) : option Value := set_index2 rs "spec" "replicas" (num_i64 replicas).

Definition scale (c : Ctx) (namespace : string) (rs : Value) (replicas : Z) : Outcome :=
  if bool_decide (as_u64 rs.["spec"].["replicas"] = Some replicas) then Ret (c, Ok tt)
  else match scaled_set rs replicas with
       | None => Ret (c, Err (Local "panic"))
       | Some updated => put c (api_update (rs_path namespace (str_or "" rs.["metadata"].["name"])) updated)
       end.

(** [o["metadata"]["annotations"][REVISION] = revision], made if absent. *)
Definition with_revision (o : Value) (revision : Z) : option Value :=
  u ← (if is_null o.["metadata"].["annotations"] then set_index2 o "metadata" "annotations" (json_obj []) else Some o);
  a ← set_index u.["metadata"].["annotations"] REVISION (Str (show_u revision));
  set_index2 u "metadata" "annotations" a.

Definition set_revision (c : Ctx) (namespace name : string) (rs : Value) (revision : Z) : Outcome :=
  match with_revision rs revision with
  | None => Ret (c, Err (Local "panic"))
  | Some updated => put c (api_update (rs_path namespace name) updated)
  end.

Definition with_hash (labels : Value) (hash : string) : Value :=
  match as_object labels with Some m => Object (map_insert m "pod-template-hash" (Str hash)) | None => labels end.

Definition hashed_template (pod_template : Value) (hash : string) : option Value :=
  t ← (if is_null pod_template.["metadata"].["labels"] then set_index2 pod_template "metadata" "labels" (json_obj []) else Some pod_template);
  match as_object t.["metadata"].["labels"] with
  | Some m => set_index2 t "metadata" "labels" (Object (map_insert m "pod-template-hash" (Str hash)))
  | None => Some t
  end.

Definition new_set (namespace deploy_name deploy_uid set_name hash : string) (selector template : Value) (revision : Z) : Value :=
  let labels := with_hash (if is_null selector.["matchLabels"] then json_obj [] else selector.["matchLabels"]) hash in
  json_obj [("apiVersion", Str "apps/v1"); ("kind", Str "ReplicaSet");
    ("metadata", json_obj [("name", Str set_name); ("namespace", Str namespace); ("labels", labels);
       ("annotations", json_obj [(REVISION, Str (show_u revision))]);
       ("ownerReferences", Array [json_obj [("apiVersion", Str "apps/v1"); ("kind", Str "Deployment"); ("name", Str deploy_name);
          ("uid", Str deploy_uid); ("controller", Bool true); ("blockOwnerDeletion", Bool true)]])]);
    ("spec", json_obj [("replicas", num_i64 0); ("selector", json_obj [("matchLabels", labels)]); ("template", template)])].

Section Controller.
  Variables (json_text : Value → string) (uuid_simple : nat → string) (instant : nat → Z) (stamp micro : nat → string) (host : string).

#[local] Notation event := (event uuid_simple instant stamp micro host "deployment-controller").

Definition create_replicaset (c : Ctx) (namespace : string) (deploy : Value) (deploy_name deploy_uid set_name hash : string)
    (selector pod_template : Value) (revision : Z) : Outcome :=
  match hashed_template pod_template hash with
  | None => Ret (c, Err (Local "panic"))
  | Some template =>
      x <== create (cx_pending c) (sets_path namespace) (new_set namespace deploy_name deploy_uid set_name hash selector template revision) ;;
      match x.2 with
      | Err e => Ret (with_pending c x.1, Err e)
      | Ok _ => c <== event (with_pending c x.1) deploy "Normal" "ScalingReplicaSet" ("Created replica set " ++ set_name) ;; Ret (c, Ok tt)
      end
  end.

(** The ReplicaSet of the template, found (as the newest revision) or made. *)
Definition current_set (c : Ctx) (namespace : string) (deploy : Value) (deploy_name deploy_uid set_name hash : string) (owned : list Value) :
    Prog (Ctx * result RsView ClientError) :=
  let all_views := view_of <$> owned in
  match by_name owned set_name with
  | Some rs =>
      let v := view_of rs in
      let highest := foldr (λ r acc, Z.max (rs_revision r) acc) 0 all_views in
      if rs_revision v <? highest then
        let bumped := next_revision all_views in
        x <== set_revision c namespace set_name rs bumped ;;
        match x.2 with
        | Err e => Ret (x.1, Err e)
        | Ok _ =>
            c <== event x.1 deploy "Normal" "DeploymentRollback" ("Rolled back to replica set " ++ set_name ++ " as revision " ++ show_u bumped) ;;
            Ret (c, Ok (mkRs (rs_name v) bumped (spec_replicas v) (available v)))
        end
      else Ret (c, Ok v)
  | None =>
      let revision := next_revision all_views in
      x <== create_replicaset c namespace deploy deploy_name deploy_uid set_name hash deploy.["spec"].["selector"] deploy.["spec"].["template"] revision ;;
      Ret (x.1, match x.2 with Ok _ => Ok (mkRs set_name revision 0 0) | Err e => Err e end)
  end.

(** The new ReplicaSet, then the old ones. *)
Definition scale_new (c : Ctx) (namespace : string) (deploy : Value) (owned : list Value) (new : RsView) (n : Z) : Outcome :=
  if n =? spec_replicas new then Ret (c, Ok tt)
  else
    x <== match by_name owned (rs_name new) with Some rs => scale c namespace rs n | None => Ret (c, Ok tt) end ;;
    match x.2 with
    | Err e => Ret (x.1, Err e)
    | Ok _ =>
        c <== event x.1 deploy "Normal" "ScalingReplicaSet" ("Scaled up replica set " ++ rs_name new ++ " to " ++ show_u n) ;; Ret (c, Ok tt)
    end.

Fixpoint scale_olds (c : Ctx) (namespace : string) (deploy : Value) (owned : list Value) (l : list (string * Z)) : Outcome :=
  match l with
  | [] => Ret (c, Ok tt)
  | (name, n) :: l =>
      match by_name owned name with
      | None => scale_olds c namespace deploy owned l
      | Some rs =>
          x <== scale c namespace rs n ;;
          match x.2 with
          | Err e => Ret (x.1, Err e)
          | Ok _ =>
              c <== event x.1 deploy "Normal" "ScalingReplicaSet" ("Scaled down replica set " ++ name ++ " to " ++ show_u n) ;;
              scale_olds c namespace deploy owned l
          end
      end
  end.

(** A delete that fails is left for another pass. *)
Fixpoint prune (namespace : string) (owned : list Value) (l : list string) : Prog unit :=
  match l with
  | [] => Ret tt
  | name :: l =>
      match by_name owned name with
      | None => prune namespace owned l
      | Some observed => _ <== api_delete_observed (rs_path namespace name) observed ;; prune namespace owned l
      end
  end.

Definition make_plan (deploy : Value) (desired : Z) (new : RsView) (olds : list RsView) : Plan :=
  let '(surge, unavailable, recreate) := strategy deploy desired in
  if recreate : bool then plan_recreate desired new olds else plan_rolling desired surge unavailable new olds.

Definition roll (c : Ctx) (namespace : string) (deploy : Value) (owned : list Value) (desired history_limit : Z) (new : RsView) (olds : list RsView) :
    Outcome :=
  let plan := make_plan deploy desired new olds in
  x <== scale_new c namespace deploy owned new (new_replicas plan) ;;
  match x.2 with
  | Err e => Ret (x.1, Err e)
  | Ok _ =>
      y <== scale_olds x.1 namespace deploy owned (old plan) ;;
      match y.2 with
      | Err e => Ret (y.1, Err e)
      | Ok _ =>
          if (match old plan with [] => true | _ => false end) && (new_replicas plan =? desired)
          then _ <== prune namespace owned (prunable olds history_limit) ;; Ret (y.1, Ok tt)
          else Ret (y.1, Ok tt)
      end
  end.

(** ** Status *)

Definition deploy_condition (type status reason now : string) : Value :=
  json_obj [("type", Str type); ("status", Str status); ("reason", Str reason); ("lastTransitionTime", Str now)].

Definition status_of (deploy : Value) (mine : list Value) (new_name : string) (desired : Z) (paused : bool) (now : string) : Value :=
  let sum field := sum_u64 ((λ rs, default 0 (as_u64 rs.["status"].[field])) <$> mine) in
  let replicas := sum "replicas" in
  let available := sum "availableReplicas" in
  let updated := default 0 (by_name mine new_name ≫= λ rs, as_u64 rs.["status"].["replicas"]) in
  let max_unavailable := (strategy deploy desired).1.2 in
  let min_available := sat_sub desired max_unavailable in
  let is_available := (Z.max min_available 1 <=? available) || (desired =? 0) in
  let complete := (updated =? desired) && (replicas =? desired) && (available =? desired) in
  let progress := if paused then ("Unknown", "DeploymentPaused")
                  else if complete then ("True", "NewReplicaSetAvailable") else ("True", "ReplicaSetUpdated") in
  json_obj [("replicas", num_i64 replicas); ("updatedReplicas", num_i64 updated); ("readyReplicas", num_i64 (sum "readyReplicas"));
    ("availableReplicas", num_i64 available); ("unavailableReplicas", num_i64 (sat_sub desired available));
    ("observedGeneration", num_i64 (default 1 (as_u64 deploy.["metadata"].["generation"])));
    ("conditions", Array [deploy_condition "Available" (if is_available then "True" else "False")
                            (if is_available then "MinimumReplicasAvailable" else "MinimumReplicasUnavailable") now;
                          deploy_condition "Progressing" progress.1 progress.2 now])].

Definition status_object (deploy : Value) (mine : list Value) (new : RsView) (desired : Z) (paused : bool) (now : string) : option Value :=
  u ← (if str_is deploy.["metadata"].["annotations"].[REVISION] (show_u (rs_revision new)) then Some deploy
       else with_revision deploy (rs_revision new));
  set_index u "status" (status_of deploy mine (rs_name new) desired paused now).

Definition update_status (namespace : string) (deploy : Value) (deploy_name : string) (desired : Z) (new : RsView) (olds : list RsView)
    (paused : bool) (now : string) : Prog (result unit ClientError) :=
  r <== api_list (sets_path namespace) ;;
  match r with
  | Err _ => Ret (Ok tt)
  | Ok list =>
      let ours n := str_eqb n (rs_name new) || existsb (λ o, str_eqb (rs_name o) n) olds in
      let mine := List.filter (λ rs, ours (str_or "" rs.["metadata"].["name"])) (items list.["items"]) in
      match status_object deploy mine new desired paused now with
      | None => Ret (Err (Local "panic"))
      | Some updated =>
          _ <== api_update_status ("/apis/apps/v1/namespaces/" ++ namespace ++ "/deployments/" ++ deploy_name) updated ;; Ret (Ok tt)
      end
  end.

Definition reconcile_deployment (c : Ctx) (namespace : string) (deploy : Value) (existing_rs : list Value) (now : string) : Outcome :=
  match as_str deploy.["metadata"].["name"] with
  | None => Ret (c, Err (Local "deployment missing name"))
  | Some deploy_name =>
      let deploy_uid := str_or "" deploy.["metadata"].["uid"] in
      if negb (is_null deploy.["metadata"].["deletionTimestamp"]) then Ret (c, Ok tt)
      else
        let desired := default 1 (as_u64 deploy.["spec"].["replicas"]) in
        let paused := default false (as_bool deploy.["spec"].["paused"]) in
        let history_limit := default 10 (as_u64 deploy.["spec"].["revisionHistoryLimit"]) in
        let owned := List.filter (owned_by deploy_uid) existing_rs in
        let hash := compute_template_hash json_text deploy.["spec"].["template"] in
        let name := deploy_name ++ "-" ++ hash in
        x <== current_set c namespace deploy deploy_name deploy_uid name hash owned ;;
        match x.2 with
        | Err e => Ret (x.1, Err e)
        | Ok new =>
            let olds := List.filter (λ v, negb (str_eqb (rs_name v) name)) (view_of <$> owned) in
            y <== (if paused then Ret (x.1, Ok tt) else roll x.1 namespace deploy owned desired history_limit new olds) ;;
            match y.2 with
            | Err e => Ret (y.1, Err e)
            | Ok _ => r <== update_status namespace deploy deploy_name desired new olds paused now ;; Ret (y.1, r)
            end
        end
  end.
End Controller.
End Deployment.
Import Deployment.

(** ** What a pass asks for *)

(** The plan says this ReplicaSet runs [k]. *)
Definition told (p : Plan) (new_name n : string) (k : Z) : Prop := (n = new_name ∧ k = new_replicas p) ∨ (n, k) ∈ old p.

(** A write of a ReplicaSet that is owned: its spec is left alone, or its
    replicas become what [T] says. *)
Definition planned_put (ns : string) (owned : list Value) (T : string → Z → Prop) (path : string) (b : Value) : Prop :=
  ∃ rs n, rs ∈ owned ∧ rs.["metadata"].["name"] = Str n ∧ path = rs_path ns n ∧
    (b.["spec"] = rs.["spec"] ∨ ∃ k, scaled_set rs k = Some b ∧ T n k).

Lemma by_name_spec owned n rs : by_name owned n = Some rs → rs ∈ owned ∧ rs.["metadata"].["name"] = Str n.
Proof.
  unfold by_name. intros H. apply head_Some_elem_of, list_elem_of_In, filter_In in H as [Hin Hn]. split; [by apply list_elem_of_In|].
  unfold str_is in Hn. destruct (rs.["metadata"].["name"]); try done. by apply str_eqb_eq in Hn as ->.
Qed.

Lemma with_revision_spec o r u : with_revision o r = Some u → u.["spec"] = o.["spec"].
Proof.
  unfold with_revision. intros (w & Ew & H)%bind_Some. apply bind_Some in H as (a & _ & H). rewrite (set_index2_inner _ _ _ _ _ H "spec") by done.
  destruct (is_null _); [by apply (set_index2_inner _ _ _ _ _ Ew "spec")|by injection Ew as ->].
Qed.

Lemma put_asks (P : Request → Prop) c q path : P q → emits (asks P) (put c (send_json q path)).
Proof. intros H. apply emits_bind; [by apply send_asks|intros x; apply emits_ret]. Qed.

Section Pass.
  Variables (json_text : Value → string) (uuid_simple : nat → string) (instant : nat → Z) (stamp micro : nat → string) (host : string).

#[local] Notation event := (event uuid_simple instant stamp micro host "deployment-controller").
#[local] Notation current_set := (Deployment.current_set uuid_simple instant stamp micro host).
#[local] Notation scale_new := (Deployment.scale_new uuid_simple instant stamp micro host).
#[local] Notation scale_olds := (Deployment.scale_olds uuid_simple instant stamp micro host).
#[local] Notation roll := (Deployment.roll uuid_simple instant stamp micro host).
#[local] Notation reconcile_deployment := (Deployment.reconcile_deployment json_text uuid_simple instant stamp micro host).

Section Asks.
  Variables (P : Request → Prop) (ns : string) (owned : list Value).
  Hypothesis HE : ∀ q, event_like q → P q.

Lemma scale_asks c rs n k :
  rs.["metadata"].["name"] = Str n → (∀ b, scaled_set rs k = Some b → P (QPut (rs_path ns n) b)) → emits (asks P) (scale c ns rs k).
Proof.
  intros En H. unfold scale. case_bool_decide; [apply emits_ret|]. destruct (scaled_set rs k) as [b|]; [|apply emits_ret].
  apply put_asks. rewrite En. by apply H.
Qed.

Lemma then_event_asks c deploy etype reason message (k : Ctx → Outcome) :
  (∀ c, emits (asks P) (k c)) → emits (asks P) (c <== event c deploy etype reason message ;; k c).
Proof. intros H. apply emits_bind; [by apply event_asks|done]. Qed.

Lemma current_set_asks c deploy deploy_name deploy_uid set_name hash :
  (∀ rs b, rs ∈ owned → rs.["metadata"].["name"] = Str set_name → b.["spec"] = rs.["spec"] → P (QPut (rs_path ns set_name) b)) →
  emits (asks P) (current_set c ns deploy deploy_name deploy_uid set_name hash owned).
Proof.
  intros H. unfold Deployment.current_set. cbn zeta. destruct (by_name owned set_name) as [rs|] eqn:Eb.
  - destruct (_ <? _); [|apply emits_ret]. apply by_name_spec in Eb as [Hin Hn]. apply emits_bind.
    + unfold set_revision. destruct (with_revision _ _) as [u|] eqn:Eu; [|apply emits_ret]. apply put_asks. apply (H rs); [done..|].
      by apply with_revision_spec in Eu.
    + intros x. destruct (x.2); [|apply emits_ret]. apply emits_bind; [by apply event_asks|intros y; apply emits_ret].
  - apply emits_bind; [|intros x; apply emits_ret]. unfold create_replicaset. destruct (hashed_template _ _); [|apply emits_ret].
    apply emits_bind; [apply emits_create_asks; intros; by apply HE|]. intros x. destruct (x.2); [|apply emits_ret].
    apply then_event_asks. intros y. apply emits_ret.
Qed.

Lemma scale_new_asks c deploy new k :
  (∀ rs b, rs ∈ owned → rs.["metadata"].["name"] = Str (rs_name new) → scaled_set rs k = Some b → P (QPut (rs_path ns (rs_name new)) b)) →
  emits (asks P) (scale_new c ns deploy owned new k).
Proof.
  intros H. unfold Deployment.scale_new. destruct (k =? _); [apply emits_ret|]. apply emits_bind.
  - destruct (by_name owned (rs_name new)) as [rs|] eqn:Eb; [|apply emits_ret]. apply by_name_spec in Eb as [Hin Hn].
    eapply scale_asks; [exact Hn|]. intros b. by apply H.
  - intros x. destruct (x.2); [|apply emits_ret]. apply then_event_asks. intros y. apply emits_ret.
Qed.

Lemma scale_olds_asks deploy l : ∀ c,
  (∀ rs n k b, (n, k) ∈ l → rs ∈ owned → rs.["metadata"].["name"] = Str n → scaled_set rs k = Some b → P (QPut (rs_path ns n) b)) →
  emits (asks P) (scale_olds c ns deploy owned l).
Proof.
  induction l as [|[n k] l IH]; intros c H; [apply emits_ret|]. cbn [Deployment.scale_olds].
  assert (∀ c, emits (asks P) (scale_olds c ns deploy owned l)) as Hl by (intros c'; apply IH; intros; eapply H; eauto; by right).
  destruct (by_name owned n) as [rs|] eqn:Eb; [|apply Hl]. apply by_name_spec in Eb as [Hin Hn]. apply emits_bind.
  - eapply scale_asks; [exact Hn|]. intros b Hb. eapply H; [left|done..].
  - intros x. destruct (x.2); [|apply emits_ret]. by apply then_event_asks.
Qed.

Lemma prune_asks l : (∀ n o, n ∈ l → P (QDelete (rs_path ns n) o)) → emits (asks P) (prune ns owned l).
Proof.
  induction l as [|n l IH]; intros H; [apply emits_ret|]. cbn [prune].
  assert (emits (asks P) (prune ns owned l)) as Hl by (apply IH; intros; apply H; by right). destruct (by_name owned n) as [rs|]; [|done].
  apply emits_bind; [|done]. eapply emits_weaken; [|apply emits_delete_observed]. intros [q a|m]; [|done]. cbn. intros (o & -> & _). apply H. left.
Qed.

Lemma roll_asks c deploy desired limit new olds :
  let p := make_plan deploy desired new olds in
  (∀ path b, planned_put ns owned (told p (rs_name new)) path b → P (QPut path b)) →
  (∀ n o, n ∈ prunable olds limit → old p = [] → new_replicas p = desired → P (QDelete (rs_path ns n) o)) →
  emits (asks P) (roll c ns deploy owned desired limit new olds).
Proof.
  cbn zeta. intros Hput Hdel. unfold Deployment.roll. cbn zeta. set (p := make_plan _ _ _ _) in *. apply emits_bind.
  { apply scale_new_asks. intros rs b Hin Hn Hb. apply Hput. exists rs, (rs_name new). split_and!; [done..|]. right. exists (new_replicas p). split; [done|by left]. }
  intros x. destruct (x.2); [|apply emits_ret]. apply emits_bind.
  { apply scale_olds_asks. intros rs n k b Hk Hin Hn Hb. apply Hput. exists rs, n. split_and!; [done..|]. right. exists k. split; [done|by right]. }
  intros y. destruct (y.2); [|apply emits_ret]. destruct (_ && _) eqn:Es; [|apply emits_ret]. apply andb_true_iff in Es as [Eo En].
  apply emits_bind; [|intros z; apply emits_ret]. apply prune_asks. intros n o Hn. apply Hdel; [done|by destruct (old p)|by apply Z.eqb_eq].
Qed.
End Asks.

(** The ReplicaSet of the template as a pass finds it. *)
Definition new_of (owned : list Value) (set_name : string) : RsView :=
  match by_name owned set_name with Some rs => view_of rs | None => mkRs set_name 0 0 0 end.

Definition olds_of (owned : list Value) (set_name : string) : list RsView :=
  List.filter (λ v, negb (str_eqb (rs_name v) set_name)) (view_of <$> owned).

(** But for the revision, which no plan reads. *)
Definition same_counts (v w : RsView) : Prop := rs_name v = rs_name w ∧ spec_replicas v = spec_replicas w ∧ available v = available w.

Lemma make_plan_same deploy desired v w olds : same_counts v w → make_plan deploy desired v olds = make_plan deploy desired w olds.
Proof.
  intros (_ & Es & Ea). unfold make_plan. destruct (strategy deploy desired) as [[surge unavailable] []]; [done|].
  unfold plan_rolling. by rewrite Es, Ea.
Qed.

Lemma current_set_view c ns deploy deploy_name deploy_uid set_name hash owned t c' new :
  exec (current_set c ns deploy deploy_name deploy_uid set_name hash owned) t (c', Ok new) → same_counts new (new_of owned set_name) ∧ rs_name new = set_name.
Proof.
  unfold Deployment.current_set, new_of. cbn zeta. destruct (by_name owned set_name) as [rs|] eqn:Eb.
  - apply by_name_spec in Eb as [_ Hn]. assert (rs_name (view_of rs) = set_name) as Hv by (unfold view_of; cbn; by rewrite Hn).
    destruct (_ <? _); [|by intros [_ [= -> ->]]%exec_ret_inv]. intros (t1 & t2 & x & _ & E & _)%exec_bind.
    destruct (x.2); [|by apply exec_ret_inv in E as [_ [=]]]. apply exec_bind in E as (t3 & t4 & y & _ & [_ [= _ ->]]%exec_ret_inv & _). done.
  - intros (t1 & t2 & x & _ & [_ E]%exec_ret_inv & _)%exec_bind. injection E as _ E. destruct (x.2); [|done]. by injection E as ->.
Qed.

Definition deploy_path (ns name : string) : string := "/apis/apps/v1/namespaces/" ++ ns ++ "/deployments/" ++ name.

(** What a pass may ask for. *)
Definition planned (ns name set_name : string) (owned : list Value) (paused : bool) (desired limit : Z) (p : Plan) (q : Request) : Prop :=
  match q with
  | QPut path b => path = deploy_path ns name ++ "/status" ∨ planned_put ns owned (λ n k, paused = false ∧ told p set_name n k) path b
  | QDelete path _ => paused = false ∧ old p = [] ∧ new_replicas p = desired ∧ ∃ n, n ∈ prunable (olds_of owned set_name) limit ∧ path = rs_path ns n
  | QPatch _ b => b.["spec"] = Null
  | QPatchMerge _ _ => False
  | _ => True
  end.

Section Request.
  Variables (deploy : Value) (existing : list Value).
Definition d_name : string := str_or "" deploy.["metadata"].["name"].
Definition d_set : string := d_name ++ "-" ++ compute_template_hash json_text deploy.["spec"].["template"].
Definition d_owned : list Value := List.filter (owned_by (str_or "" deploy.["metadata"].["uid"])) existing.
Definition d_desired : Z := default 1 (as_u64 deploy.["spec"].["replicas"]).
Definition d_paused : bool := default false (as_bool deploy.["spec"].["paused"]).
Definition d_limit : Z := default 10 (as_u64 deploy.["spec"].["revisionHistoryLimit"]).
Definition d_new : RsView := new_of d_owned d_set.
Definition d_olds : list RsView := olds_of d_owned d_set.
Definition d_plan : Plan := make_plan deploy d_desired d_new d_olds.
End Request.

Lemma update_status_asks (P : Request → Prop) ns deploy name desired new olds paused now :
  (∀ p, P (QList p)) → (∀ b, P (QPut (deploy_path ns name ++ "/status") b)) → emits (asks P) (update_status ns deploy name desired new olds paused now).
Proof.
  intros Hl Hp. unfold update_status. apply emits_bind; [apply emits_ask; [by intros a; apply Hl|intros a; apply emits_check]|].
  intros [v|e]; [|apply emits_ret]. cbn zeta. destruct (status_object _ _ _ _ _ _) as [u|]; [|apply emits_ret].
  apply emits_bind; [apply send_asks, Hp|intros x; apply emits_ret].
Qed.

Lemma pass_planned c ns deploy existing now t x :
  exec (reconcile_deployment c ns deploy existing now) t x →
  (deploy.["metadata"].["deletionTimestamp"] = Null ∨ t = []) ∧
  Forall (asks (planned ns (d_name deploy) (d_set deploy) (d_owned deploy existing) (d_paused deploy) (d_desired deploy) (d_limit deploy)
                  (d_plan deploy existing))) t.
Proof.
  unfold Deployment.reconcile_deployment, d_set, d_name. destruct (as_str deploy.["metadata"].["name"]) as [name|] eqn:En; [|intros [-> _]%exec_ret_inv; auto].
  assert (str_or "" deploy.["metadata"].["name"] = name) as En' by (unfold str_or; by rewrite En). rewrite En'. cbn zeta.
  destruct (is_null deploy.["metadata"].["deletionTimestamp"]) eqn:Ed; cbn [negb]; [|intros [-> _]%exec_ret_inv; auto].
  intros E. split; [left; by destruct (deploy.["metadata"].["deletionTimestamp"])|].
  set (hash := compute_template_hash json_text deploy.["spec"].["template"]) in *. set (set_name := name ++ "-" ++ hash) in *.
  fold (d_owned deploy existing) in E. fold (d_desired deploy) in E. fold (d_paused deploy) in E. fold (d_limit deploy) in E. set (owned := d_owned deploy existing) in *.
  assert (d_plan deploy existing = make_plan deploy (d_desired deploy) (new_of owned set_name) (olds_of owned set_name)) as ->.
  { unfold d_plan, d_new, d_olds, d_set, d_name. by rewrite En'. }
  set (p := make_plan _ _ _ _). set (P := planned _ _ _ _ _ _ _ p).
  assert (∀ q, event_like q → P q) as HE by (intros []; try done).
  apply exec_bind in E as (t1 & t2 & [c1 r] & E1 & E2 & ->). apply Forall_app. split.
  { eapply current_set_asks in E1; [exact E1|done|]. intros rs b Hin Hn Hb. right. exists rs, set_name. auto. }
  cbn [fst snd] in E2. destruct r as [new|e]; [|apply exec_ret_inv in E2 as [-> _]; constructor].
  apply current_set_view in E1 as [Hsame Hname]. fold (olds_of owned set_name) in E2.
  apply exec_bind in E2 as (t3 & t4 & y & E3 & E4 & ->). apply Forall_app. split.
  - destruct (d_paused deploy) eqn:Epaused; [apply exec_ret_inv in E3 as [-> _]; constructor|].
    eapply roll_asks in E3; [exact E3|done| |]; rewrite (make_plan_same _ _ _ _ _ Hsame); fold p.
    + rewrite Hname. intros path b (rs & n & Hin & Hn & -> & Hb). right. exists rs, n. split_and!; [done..|].
      destruct Hb as [?|(k & ? & ?)]; [by left|right; exists k; done].
    + intros n o Hn Ho Hd. split_and!; [done..|]. by exists n.
  - destruct (y.2); [|apply exec_ret_inv in E4 as [-> _]; constructor].
    apply exec_bind in E4 as (t5 & t6 & z & E5 & [-> _]%exec_ret_inv & ->). rewrite app_nil_r. eapply update_status_asks in E5; [exact E5|done|by left].
Qed.

(** a pass does what its plan says and nothing else.  Whatever the server
    answers, a Deployment being deleted asks for nothing; otherwise the only
    objects written are its own status and ReplicaSets it owns, whose replicas
    become what the plan computed from the observed ReplicaSets says (and stay
    as they are while it is paused); only idle history beyond the limit is
    deleted, and only once the rollout has settled. *)
Theorem deployment_writes_planned c ns deploy existing now t x :
  exec (reconcile_deployment c ns deploy existing now) t x →
  ∀ q a, EAsk q a ∈ t →
    deploy.["metadata"].["deletionTimestamp"] = Null ∧
    planned ns (d_name deploy) (d_set deploy) (d_owned deploy existing) (d_paused deploy) (d_desired deploy) (d_limit deploy) (d_plan deploy existing) q.
Proof.
  intros E q a Hin. apply pass_planned in E as [Hd Hp]. rewrite Forall_forall in Hp. split; [|by apply (Hp _ Hin)].
  destruct Hd as [?| ->]; [done|]. by apply not_elem_of_nil in Hin.
Qed.

(** *** Whichever of the writes were carried out *)

(** What a ReplicaSet is told to run after these requests. *)
Definition after_put (ns : string) (r : RsView) (n : Z) (e : Event) : Z :=
  match e with
  | EAsk (QPut p b) _ => if str_eqb p (rs_path ns (rs_name r)) then default 0 (as_u64 b.["spec"].["replicas"]) else n
  | _ => n
  end.
Definition told_after (ns : string) (t : list Event) (r : RsView) : Z := fold_left (after_put ns r) t (spec_replicas r).

Lemma told_after_inv (Q : Z → Prop) ns t r :
  Q (spec_replicas r) → (∀ b a, EAsk (QPut (rs_path ns (rs_name r)) b) a ∈ t → Q (default 0 (as_u64 b.["spec"].["replicas"]))) → Q (told_after ns t r).
Proof.
  unfold told_after. generalize (spec_replicas r). induction t as [|e t IH]; intros n Hn H; [done|]. cbn. apply IH.
  - destruct e as [[| | |p b| | |] a|]; try done. cbn. destruct (str_eqb p _) eqn:E; [|done]. apply str_eqb_eq in E as ->. apply (H b a). left.
  - intros b a Hin. apply (H b a). by right.
Qed.

Lemma rs_path_inj ns n m : rs_path ns n = rs_path ns m → n = m.
Proof. unfold rs_path. intros H%str_app_cancel. by apply (str_app_cancel "/") in H. Qed.

Lemma status_not_set ns name n : deploy_path ns name ++ "/status" ≠ rs_path ns n.
Proof.
  unfold deploy_path, rs_path, sets_path. rewrite <- !str_app_assoc. intros H%str_app_cancel. by apply str_app_cancel in H.
Qed.

Lemma view_name rs n : rs.["metadata"].["name"] = Str n → rs_name (view_of rs) = n.
Proof. intros H. unfold view_of. cbn. by rewrite H. Qed.

Lemma view_unique owned rs rs' :
  NoDup (names (view_of <$> owned)) → rs ∈ owned → rs' ∈ owned → rs_name (view_of rs) = rs_name (view_of rs') → view_of rs = view_of rs'.
Proof.
  intros H Hin Hin' E. apply list_elem_of_lookup in Hin as [i Hi], Hin' as [j Hj]. unfold names in H.
  assert (i = j) as ->; [|congruence]. eapply (NoDup_lookup _ _ _ (rs_name (view_of rs)) H); rewrite !list_lookup_fmap; [by rewrite Hi|by rewrite Hj, E].
Qed.

Lemma scaled_count rs k b : scaled_set rs k = Some b → 0 ≤ k → default 0 (as_u64 b.["spec"].["replicas"]) = k.
Proof. intros H Hk. apply index2_set_index2 in H. rewrite H. unfold num_i64. destruct (Z.ltb_spec k 0); [lia|done]. Qed.

Lemma by_name_complete owned rs n : rs ∈ owned → rs.["metadata"].["name"] = Str n → ∃ rs', by_name owned n = Some rs'.
Proof.
  intros Hin Hn. unfold by_name. destruct (List.filter _ owned) as [|rs' l] eqn:E; [|by exists rs'].
  exfalso. assert (rs ∈ List.filter (λ rs, str_is rs.["metadata"].["name"] n) owned) as H.
  { apply list_elem_of_In, filter_In. split; [by apply list_elem_of_In|]. rewrite Hn. apply str_eqb_refl. }
  rewrite E in H. by apply not_elem_of_nil in H.
Qed.

(** A write to a ReplicaSet of the plan. *)
Lemma planned_put_count ns name set_name owned paused desired limit p r b :
  NoDup (names (view_of <$> owned)) → r ∈ (view_of <$> owned) → (∀ k, told p set_name (rs_name r) k → 0 ≤ k) →
  planned ns name set_name owned paused desired limit p (QPut (rs_path ns (rs_name r)) b) →
  let k := default 0 (as_u64 b.["spec"].["replicas"]) in k = spec_replicas r ∨ told p set_name (rs_name r) k.
Proof.
  cbn zeta. intros Hnd (rs0 & -> & Hin0)%list_elem_of_fmap Hpos [H|H]; [by apply eq_sym, status_not_set in H|].
  destruct H as (rs & n & Hin & Hn & Hp & Hb). apply rs_path_inj in Hp. subst n. apply view_name in Hn.
  rewrite (view_unique owned rs0 rs) by done. destruct Hb as [Hb|(k & Hb & _ & Ht)]; [left; unfold view_of; cbn; by rewrite Hb|].
  right. pose proof (Hpos k Ht). rewrite (scaled_count _ _ _ Hb) by done. by rewrite Hn.
Qed.

Lemma new_of_member owned set_name rs : by_name owned set_name = Some rs → new_of owned set_name ∈ (view_of <$> owned).
Proof. intros H. unfold new_of. rewrite H. apply by_name_spec in H as [H _]. apply list_elem_of_fmap. by exists rs. Qed.

Lemma new_of_name owned set_name : rs_name (new_of owned set_name) = set_name.
Proof. unfold new_of. destruct (by_name owned set_name) as [rs|] eqn:E; [|done]. apply by_name_spec in E as [_ E]. by apply view_name. Qed.

(** What a rolling plan tells an old ReplicaSet is what it is left with. *)
Lemma told_old desired surge unavailable new olds r k :
  fits desired surge new olds → NoDup (names olds) → r ∈ olds → rs_name r ≠ rs_name new →
  told (plan_rolling desired surge unavailable new olds) (rs_name new) (rs_name r) k → k = applied (plan_rolling desired surge unavailable new olds) r ∧ 0 ≤ k.
Proof.
  intros Hf Hn Hr Hne [[? _]|Hin]; [done|]. assert (k = applied (plan_rolling desired surge unavailable new olds) r) as ->.
  { unfold applied. by rewrite (map_get_nodup _ _ _ (plan_rolling_names _ _ _ _ _ Hn) Hin). }
  split; [done|]. destruct (rollout_surge_ceiling desired surge unavailable new olds Hf Hn) as [_ H]. by apply H.
Qed.

Lemma told_new desired surge unavailable new olds k :
  fits desired surge new olds → NoDup (names olds) → rs_name new ∉ names olds →
  told (plan_rolling desired surge unavailable new olds) (rs_name new) (rs_name new) k → k = new_replicas (plan_rolling desired surge unavailable new olds) ∧ 0 ≤ k.
Proof.
  intros Hf Hn Hne [[_ ->]|Hin]; [|by apply plan_rolling_members in Hin]. split; [done|]. pose proof Hf as (Hd & _ & _ & Hs & _).
  destruct (plan_rolling_cases desired surge unavailable new olds Hf Hn) as [[_ [[_ ->]|[H _]]]|(-> & _)]; lia.
Qed.

Lemma olds_not_new owned set_name r : r ∈ olds_of owned set_name → rs_name r ≠ set_name ∧ r ∈ (view_of <$> owned).
Proof.
  intros [Hin Hn]%list_elem_of_In%filter_In. split; [|by apply list_elem_of_In]. intros E. apply str_eqb_eq in E. by rewrite E in Hn.
Qed.

(** C16: A rolling update keeps its Pods available, wherever a pass stops, as
    long as no ReplicaSet reports more available Pods than it is told to run.
    (A status older than a scale-down does, and then the plan can drain too far:
    [Rollout.stale_status_overdrains].  The ReplicaSets have distinct names and
    the totals do not overflow.)  Whatever the server answers and whichever of
    the requests of a pass were carried out, in any order and any number of
    times, the ReplicaSets are left told to run so many Pods that, each giving
    up unavailable ones first, at least [replicas - maxUnavailable] Pods stay
    available, or as many as there were if there were fewer. *)
Theorem deployment_keeps_available c ns deploy existing now t x surge unavailable did :
  let new := d_new deploy existing in let olds := d_olds deploy existing in
  exec (reconcile_deployment c ns deploy existing now) t x →
  strategy deploy (d_desired deploy) = (surge, unavailable, false) → fits (d_desired deploy) surge new olds → 0 ≤ unavailable →
  NoDup (names (view_of <$> d_owned deploy existing)) → (∀ e, e ∈ did → e ∈ t) →
  Z.min (sat_sub (d_desired deploy) unavailable) (available new + sumZ available olds)
    ≤ Z.min (available new) (told_after ns did new) + sumZ (λ r, Z.min (available r) (told_after ns did r)) olds.
Proof.
  cbn zeta. intros E Hst Hf Hu Hnd Hdid. apply pass_planned in E as [_ HP]. rewrite Forall_forall in HP.
  assert (d_plan deploy existing = plan_rolling (d_desired deploy) surge unavailable (d_new deploy existing) (d_olds deploy existing)) as Ep.
  { unfold d_plan, make_plan. by rewrite Hst. }
  rewrite Ep in HP. unfold d_new, d_olds in *. set (owned := d_owned deploy existing) in *. set (sn := d_set deploy) in *.
  set (new := new_of owned sn) in *. set (olds := olds_of owned sn) in *. set (p := plan_rolling _ _ _ _ _) in *.
  assert (rs_name new = sn) as Hname by apply new_of_name.
  assert (NoDup (names olds)) as Hno by (by apply NoDup_filter_names).
  assert (rs_name new ∉ names olds) as Hni by (intros (r & Er & [Hr _]%olds_not_new)%list_elem_of_fmap; congruence).
  etransitivity; [by apply (availability_floor _ surge unavailable new olds)|]. fold p.
  pose proof Hf as (_ & _ & _ & _ & Hna & Hc & _). apply Z.add_le_mono.
  - enough (told_after ns did new = spec_replicas new ∨ told_after ns did new = new_replicas p) by lia.
    apply (told_after_inv (λ k, k = spec_replicas new ∨ k = new_replicas p)); [by left|]. intros b a Hin. apply Hdid, HP in Hin. cbn in Hin.
    destruct (by_name owned sn) as [rs|] eqn:Eb.
    + pose proof (new_of_member _ _ _ Eb) as Hm. fold new in Hm. apply planned_put_count in Hin; [|done..|].
      * rewrite <-Hname in Hin. destruct Hin as [?|Ht]; [by left|]. apply told_new in Ht as [? _]; auto.
      * intros k Ht. rewrite <-Hname in Ht. by apply told_new in Ht as [_ ?].
    + exfalso. destruct Hin as [Hin|(rs & n & Hrs & Hn & Hpath & _)]; [by apply eq_sym, status_not_set in Hin|].
      apply rs_path_inj in Hpath. subst n. rewrite Hname in Hn. destruct (by_name_complete _ _ _ Hrs Hn). congruence.
  - apply sumZ_le. intros r Hr. destruct (olds_not_new _ _ _ Hr) as [Hne Hm]. pose proof (Hc r Hr).
    enough (told_after ns did r = spec_replicas r ∨ told_after ns did r = applied p r) by lia.
    apply (told_after_inv (λ k, k = spec_replicas r ∨ k = applied p r)); [by left|]. intros b a Hin. apply Hdid, HP in Hin.
    assert (∀ k, told p sn (rs_name r) k → k = applied p r ∧ 0 ≤ k) as Ht by (intros k Hk; rewrite <-Hname in Hk, Hne; by apply told_old in Hk).
    apply planned_put_count in Hin; [|done..|]; [|intros k Hk; by apply Ht in Hk as [_ ?]]. destruct Hin as [?|Hk]; [by left|]. apply Ht in Hk as [? _]; auto.
Qed.
End Pass.

(** *** Witnesses *)

Module DeployDemo.
(** Texts written with apostrophes for quotes. *)
Fixpoint quoted (s : string) : string :=
  match s with EmptyString => "" | String c s => String (if Ascii.eqb c "'" then ascii_of_nat 34 else c) (quoted s) end.

(** The hash the source's own test pins. *)
Example template_hash_pinned :
  compute_template_hash (λ _, quoted "{'metadata':{'labels':{'app':'web'}},'spec':{'containers':[{'image':'busybox','name':'c'}]}}") Null = "604fe2c1f8".
Proof. vm_compute. reflexivity. Qed.

Definition text (_ : Value) : string := "template".
Definition hash : string := Eval vm_compute in compute_template_hash text Null.

Definition deploy (status : list (string * Value)) : Value :=
  json_obj [("metadata", json_obj [("name", Str "web"); ("namespace", Str "d"); ("uid", Str "u"); ("annotations", json_obj [(REVISION, Str "2")])]);
            ("spec", json_obj [("replicas", num_i64 3)]); ("status", json_obj status)].
Definition set (name revision : string) (spec avail : Z) : Value :=
  json_obj [("metadata", json_obj [("name", Str name); ("uid", Str name); ("resourceVersion", Str "3");
                                   ("annotations", json_obj [(REVISION, Str revision)]); ("ownerReferences", Array [json_obj [("uid", Str "u")]])]);
            ("spec", json_obj [("replicas", num_i64 spec)]);
            ("status", json_obj [("replicas", num_i64 spec); ("availableReplicas", num_i64 avail)])].
Definition sets : list Value := [set ("web-" ++ hash) "2" 1 1; set "web-old" "1" 3 3].

Definition ctx : Ctx := mkCtx ∅ Backoff.new ∅ 0.
Definition ids (n : nat) : string := "0123456789abcdef".
Definition no_text (n : nat) : string := "".
Definition clock (n : nat) : Z := Z.of_nat n.
Definition pass (sets : list Value) (d : Value) (now : string) := reconcile_deployment text ids clock no_text no_text "h" ctx "d" d sets now.
Definition ok : Answer := AResponse 200 (Some Null).
Definition trace : list Event := Eval vm_compute in default [] (fst <$> play [ok; ok; ALost] (pass sets (deploy []) "now")).

Lemma deploy_pass_exec : ∃ x, exec (pass sets (deploy []) "now") trace x.
Proof. eexists. apply (play_exec [ok; ok; ALost]). vm_compute. reflexivity. Qed.

Definition puts (t : list Event) : list (string * Value) :=
  omap (λ e, match e with EAsk (QPut p b) _ => Some (p, b.["spec"].["replicas"]) | _ => None end) t.
Definition events_said (t : list Event) : list Value := omap (λ e, match e with EAsk (QPost _ b) _ => Some b.["message"] | _ => None end) t.
Definition statuses (t : list Event) : list Value := omap (λ e, match e with EAsk (QPut p b) _ => Some b.["status"] | _ => None end) t.

(** The pass that creates a ReplicaSet also reports that it scaled it up, which
    it did not. *)
Example reports_a_scale_not_made :
  let t := default [] (fst <$> play [AResponse 201 (Some Null); ok; ok; ALost] (pass [] (deploy []) "now")) in
  puts t = [] ∧
  events_said t = [Null; Str ("Created replica set web-" ++ hash); Str ("Scaled up replica set web-" ++ hash ++ " to 3")].
Proof. split; vm_compute; reflexivity. Qed.

(** A Deployment that is rolled out, in the very status its last pass wrote:
    the next pass writes it again, since its conditions carry the time of the
    pass, and the write wakes the controller once more. *)
Definition settled_sets : list Value := [set ("web-" ++ hash) "2" 3 3].
Definition listing : Answer := AResponse 200 (Some (json_obj [("items", Array settled_sets)])).
Example settled_status_written_again :
  let first := statuses (default [] (fst <$> play [listing; ok] (pass settled_sets (deploy []) "12:00:00"))) in
  let again := default Null (head first) in
  first = [again] ∧ is_object again = true ∧
  ∃ other, statuses (default [] (fst <$> play [listing; ok] (pass settled_sets (deploy (entries again)) "12:00:01"))) = [other] ∧ value_eqb other again = false.
Proof. cbn zeta. split_and!; [vm_compute; reflexivity..|]. eexists. split; vm_compute; reflexivity. Qed.
End DeployDemo.

Lemma deployment_writes_planned_witness :
  DeployDemo.puts DeployDemo.trace = [(rs_path "d" "web-old", num_i64 2)] ∧ told (d_plan DeployDemo.text (DeployDemo.deploy []) DeployDemo.sets) "" "web-old" 2.
Proof.
  split; [vm_compute; reflexivity|]. destruct DeployDemo.deploy_pass_exec as [x E]. unfold DeployDemo.pass in E.
  eassert (EAsk (QPut _ _) _ ∈ DeployDemo.trace) as Hin by (apply list_elem_of_here).
  eapply deployment_writes_planned in Hin as [_ [H|H]]; [| |exact E]; [vm_compute in H; discriminate|].
  right. vm_compute. left.
Defined.

Lemma deployment_keeps_available_witness :
  3 ≤ Z.min 1 (told_after "d" DeployDemo.trace (mkRs ("web-" ++ DeployDemo.hash) 2 1 1)) + Z.min 3 (told_after "d" DeployDemo.trace (mkRs "web-old" 1 3 3)).
Proof.
  destruct DeployDemo.deploy_pass_exec as [x E]. unfold DeployDemo.pass in E.
  pose proof (deployment_keeps_available DeployDemo.text DeployDemo.ids DeployDemo.clock DeployDemo.no_text DeployDemo.no_text "h" DeployDemo.ctx "d" (DeployDemo.deploy [])
    DeployDemo.sets "now" DeployDemo.trace x 1 0 DeployDemo.trace E) as H. etransitivity; [|etransitivity; [apply H|]].
  - vm_compute. discriminate.
  - vm_compute. reflexivity.
  - split_and!; try (vm_compute; discriminate).
    intros r Hr. vm_compute in Hr. apply elem_of_cons in Hr as [->|[]%not_elem_of_nil]. vm_compute. split; discriminate.
  - done.
  - vm_compute. repeat constructor; rewrite ?elem_of_cons, ?elem_of_nil; intuition discriminate.
  - done.
  - vm_compute. discriminate.
Defined.
