(* ===== verification/StatefulSet.v ===== *)
(** * StatefulSets ([pkg/controller-manager/src/statefulset.rs])

    One pass over a StatefulSet: at most one Pod is created (the next ordinal,
    when the one before it is ready) or deleted (the highest ordinal), and the
    status is written.  The pass is a program over the API client.

    Proved: from Pods whose ordinals are 0, 1, ..., n-1, whatever the server
    answers, carrying out what a pass asks for leaves Pods whose ordinals have
    no gap; and what the pass does when there is a gap already. *)

From Stdlib Require Import ZArith Lia String Ascii.
From stdpp Require Import base gmap strings numbers option list.
From S2P Require Import Prelude Text BTree Json Backoff Client ReplicaSet.
Open Scope string_scope.
Open Scope kube_scope.
Open Scope Z_scope.

Module StatefulSet.

(** [rsplit(c).next()]: the text after the last [c]. *)
Definition last_part (c : ascii) (s : string) : string :=
  match split_once c (str_rev s) with Some (x, _) => str_rev x | None => s end.

Definition extract_ordinal (pod_name : string) : option Z := parse_u64 (last_part "-" pod_name).

(** [if let Some(map) = v.as_object_mut() { map.insert(k, x) }]. *)
Definition insert_key (v : Value) (k : string) (x : Value) : Value :=
  match v with Object m => Object (map_insert m k x) | _ => v end.

Definition build_statefulset_pod (namespace sts_name sts_uid : string) (ordinal : nat) (service_name : string) (sts : Value) : Value :=
  let template := sts.["spec"].["template"] in
  let pod_name := sts_name ++ "-" ++ show_u (Z.of_nat ordinal) in
  let labels := template.["metadata"].["labels"] in
  let labels := if is_null labels then json_obj [] else labels in
  let spec := insert_key template.["spec"] "hostname" (Str pod_name) in
  json_obj [("apiVersion", Str "v1"); ("kind", Str "Pod");
    ("metadata", json_obj [("name", Str pod_name); ("namespace", Str namespace);
       ("labels", insert_key labels "statefulset.kubernetes.io/pod-name" (Str pod_name));
       ("ownerReferences", Array [json_obj [("apiVersion", Str "apps/v1"); ("kind", Str "StatefulSet"); ("name", Str sts_name);
          ("uid", Str sts_uid); ("controller", Bool true); ("blockOwnerDeletion", Bool true)]])]);
    ("spec", if is_empty_str service_name then spec else insert_key spec "subdomain" (Str service_name));
    ("status", json_obj [("phase", Str "Pending")])].

Definition is_pod_ready (pod : Value) : bool :=
  existsb (λ c, str_is c.["type"] "Ready" && str_is c.["status"] "True") (items pod.["status"].["conditions"]).

Definition running (pod : Value) : bool :=
  let phase := str_or "Pending" pod.["status"].["phase"] in negb (str_eqb phase "Succeeded") && negb (str_eqb phase "Failed").

Definition ordinal (pod : Value) : Z := default 0 (extract_ordinal (str_or "" pod.["metadata"].["name"])).

Definition owned (sts_uid : string) (pods : list Value) : list Value :=
  List.filter running
    (List.filter (λ pod, existsb (λ r, str_is r.["uid"] sts_uid) (items pod.["metadata"].["ownerReferences"])) pods).

Definition owned_pods (sts_uid : string) (pods : list Value) : list Value := sort_by_key ordinal (owned sts_uid pods).

Definition update_status (namespace sts_name : string) (sts : Value) (owned_pods : list Value) : Prog unit :=
  let current := num_nat (length owned_pods) in
  match set_index sts "status"
          (json_obj [("replicas", current); ("readyReplicas", num_nat (length (List.filter is_pod_ready owned_pods)));
                     ("currentReplicas", current); ("updatedReplicas", current);
                     ("observedGeneration", Num (PosInt (default 1 (as_u64 sts.["metadata"].["generation"]))))]) with
  | None => Ret tt
  | Some updated =>
      _ <== api_update_status ("/apis/apps/v1/namespaces/" ++ namespace ++ "/statefulsets/" ++ sts_name) updated ;; Ret tt
  end.

(** Up by one when the Pod before it is ready, down by one from the top. *)
Definition scale (pending : Pending) (namespace sts_name sts_uid : string) (sts : Value) (owned_pods : list Value) : Prog Pending :=
  let desired := Z.to_nat (default 1 (as_u64 sts.["spec"].["replicas"])) in
  let service_name := str_or "" sts.["spec"].["serviceName"] in
  let current := length owned_pods in
  if (current <? desired)%nat then
    match last owned_pods with
    | Some prev_pod =>
        if negb (is_pod_ready prev_pod) then Ret pending
        else
          r <== create pending ("/api/v1/namespaces/" ++ namespace ++ "/pods")
                 (build_statefulset_pod namespace sts_name sts_uid current service_name sts) ;; Ret r.1
    | None =>
        r <== create pending ("/api/v1/namespaces/" ++ namespace ++ "/pods")
               (build_statefulset_pod namespace sts_name sts_uid current service_name sts) ;; Ret r.1
    end
  else if (desired <? current)%nat then
    match last owned_pods with
    | None => Ret pending
    | Some pod =>
        let pod_name := str_or "" pod.["metadata"].["name"] in
        if negb (str_eqb (str_or "" pod.["status"].["phase"]) "Terminating") && negb (is_empty_str pod_name)
        then _ <== api_delete_observed ("/api/v1/namespaces/" ++ namespace ++ "/pods/" ++ pod_name) pod ;; Ret pending
        else Ret pending
    end
  else Ret pending.

Definition reconcile_statefulset (pending : Pending) (namespace : string) (sts : Value) (all_pods : list Value) :
    Prog (Pending * result unit string) :=
  match as_str sts.["metadata"].["name"] with
  | None => Ret (pending, Err "statefulset missing name")
  | Some sts_name =>
      let sts_uid := str_or "" sts.["metadata"].["uid"] in
      if negb (is_null sts.["metadata"].["deletionTimestamp"]) then Ret (pending, Ok tt)
      else
        let owned_pods := owned_pods sts_uid all_pods in
        pending <== scale pending namespace sts_name sts_uid sts owned_pods ;;
        _ <== update_status namespace sts_name sts owned_pods ;;
        Ret (pending, Ok tt)
  end.

(** [Controller::reconcile]. *)
Definition reconcile (pending : Pending) (object : Value) (children : list Value) : Prog (Pending * result unit string) :=
  reconcile_statefulset pending (str_or "default" object.["metadata"].["namespace"]) object children.

End StatefulSet.

Import StatefulSet.

(** ** Names and ordinals *)

Lemma last_part_digits c s x : str_forall is_ascii_digit x = true → is_ascii_digit c = false → last_part c (s ++ String c x) = x.
Proof.
  intros Hx Hc. unfold last_part. rewrite str_rev_app_distr, str_rev_cons, <- str_app_assoc. cbn [append].
  rewrite split_once_app; [by rewrite str_rev_involutive|]. eapply str_forall_no_char; [|exact Hc]. by rewrite str_forall_rev.
Qed.

(** A Pod's name says its ordinal. *)
Lemma extract_ordinal_name s n : is_u64 n → extract_ordinal (s ++ "-" ++ show_u n) = Some n.
Proof.
  intros Hn. unfold extract_ordinal. cbn [append]. rewrite last_part_digits; [by apply parse_u64_show| |done].
  apply show_u_digits. by destruct Hn.
Qed.

(** ** What a pass asks for *)

(** The ordinals of the Pods a StatefulSet runs are 0, 1, ..., n-1. *)
Definition contiguous (sts_uid : string) (pods : list Value) : Prop :=
  map ordinal (owned sts_uid pods) ≡ₚ seqZ 0 (Z.of_nat (length (owned sts_uid pods))).

Lemma owned_app u l1 l2 : owned u (l1 ++ l2) = (owned u l1 ++ owned u l2)%list.
Proof. unfold owned. by rewrite !List.filter_app. Qed.

Lemma length_owned_pods u pods : length (owned_pods u pods) = length (owned u pods).
Proof. apply Permutation_length, sort_by_key_perm. Qed.

(** The Pod built for an ordinal is the StatefulSet's, and has it. *)
Lemma built_owned ns name uid n svc sts : is_u64 (Z.of_nat n) →
  owned uid [build_statefulset_pod ns name uid n svc sts] = [build_statefulset_pod ns name uid n svc sts] ∧
  ordinal (build_statefulset_pod ns name uid n svc sts) = Z.of_nat n.
Proof.
  intros Hn. set (pod := build_statefulset_pod _ _ _ _ _ _).
  assert (items pod.["metadata"].["ownerReferences"] = [json_obj [("apiVersion", Str "apps/v1"); ("kind", Str "StatefulSet"); ("name", Str name);
    ("uid", Str uid); ("controller", Bool true); ("blockOwnerDeletion", Bool true)]]) as Ho by reflexivity.
  assert (running pod = true) as Hr by reflexivity.
  assert (pod.["metadata"].["name"] = Str (name ++ "-" ++ show_u (Z.of_nat n))) as Hname by reflexivity. clearbody pod. split.
  - unfold owned. cbn [List.filter]. rewrite Ho.
    assert (∀ m, m = Str uid → str_is m uid = true) as Hu by (intros m ->; by apply str_is_spec).
    cbn [existsb]. rewrite Hu by reflexivity. cbn. by rewrite Hr.
  - unfold ordinal. rewrite Hname, str_or_Str. by rewrite extract_ordinal_name.
Qed.

Lemma seqZ_one n : seqZ n 1 = [n].
Proof. by rewrite seqZ_cons by lia. Qed.

Lemma contiguous_add u pods pod :
  contiguous u pods → owned u [pod] = [pod] → ordinal pod = Z.of_nat (length (owned u pods)) → contiguous u (pods ++ [pod]).
Proof.
  intros Hc Ho Hn. unfold contiguous. rewrite owned_app, Ho, map_app, length_app, Nat2Z.inj_add. cbn [map length].
  rewrite seqZ_app by lia. rewrite Hn. change (Z.of_nat 1) with 1. rewrite Z.add_0_l, seqZ_one.
  unfold contiguous in Hc. by rewrite Hc.
Qed.

Lemma last_sorted_max {A} (key : A → Z) l x : last (sort_by_key key l) = Some x → x ∈ l ∧ ∀ y, y ∈ l → key y ≤ key x.
Proof.
  intros Hl. pose proof (sort_by_key_sorted key l) as Hs. pose proof (sort_by_key_perm key l) as Hp.
  rewrite last_lookup in Hl. split; [rewrite <- Hp; by eapply list_elem_of_lookup_2|].
  intros y Hy. rewrite <- Hp in Hy. apply list_elem_of_lookup in Hy as [i Hi]. pose proof (lookup_lt_Some _ _ _ Hi).
  destruct (decide (i = pred (length (sort_by_key key l)))) as [->|Hne]; [rewrite Hl in Hi; by injection Hi as ->|].
  eapply Hs; [done|done|lia].
Qed.

Lemma owned_elem u pods pod : pod ∈ owned u pods → owned u [pod] = [pod] ∧ pod ∈ pods.
Proof.
  unfold owned. rewrite !elem_of_filter_b. intros [[Hin Ho] Hr]. split; [|done]. cbn [List.filter]. rewrite Ho. cbn [List.filter].
  by rewrite Hr.
Qed.

Lemma contiguous_remove u pods pod :
  contiguous u pods → last (owned_pods u pods) = Some pod → ∃ l1 l2, pods = (l1 ++ pod :: l2)%list ∧ contiguous u (l1 ++ l2).
Proof.
  intros Hc Hl. apply last_sorted_max in Hl as [Hin Hmax]. destruct (owned_elem _ _ _ Hin) as [Ho Hp].
  apply list_elem_of_split in Hp as (l1 & l2 & ->). exists l1, l2. split; [done|].
  change (pod :: l2) with ([pod] ++ l2)%list in *. unfold contiguous in *. rewrite !owned_app, Ho in *.
  set (n := length (owned u l1 ++ owned u l2)).
  assert (length (owned u l1 ++ [pod] ++ owned u l2) = S n) as En by (rewrite !length_app; cbn; unfold n; rewrite length_app; lia).
  rewrite En in Hc.
  assert (map ordinal (owned u l1 ++ [pod] ++ owned u l2) ≡ₚ ordinal pod :: map ordinal (owned u l1 ++ owned u l2)) as Hp.
  { rewrite !map_app. cbn [map app]. by rewrite Permutation_middle. }
  replace (Z.of_nat (S n)) with (Z.of_nat n + 1) in Hc by lia. rewrite seqZ_app in Hc by lia.
  rewrite Z.add_0_l, seqZ_one in Hc.
  assert (ordinal pod = Z.of_nat n) as E.
  { assert (Z.of_nat n ∈ map ordinal (owned u l1 ++ [pod] ++ owned u l2)) as Hi by (rewrite Hc; set_solver).
    apply list_elem_of_In, in_map_iff in Hi as (y & Hy & Hin'%list_elem_of_In). apply Hmax in Hin'.
    assert (ordinal pod ∈ map ordinal (owned u l1 ++ [pod] ++ owned u l2)) as Hi by (rewrite Hp; left).
    rewrite Hc in Hi. apply elem_of_app in Hi as [Hi|Hi]; [apply elem_of_seqZ in Hi; lia|]. apply list_elem_of_singleton in Hi. done. }
  rewrite Hp, E in Hc. rewrite (Permutation_app_comm (seqZ _ _)) in Hc. cbn [app] in Hc. by apply Permutation_cons_inv in Hc.
Qed.

Lemma update_status_exec ns name sts l t x : exec (update_status ns name sts l) t x →
  (∀ pa b, ¬ posts t pa b) ∧ Forall (asks no_delete) t.
Proof.
  unfold update_status. destruct (set_index _ _ _) as [u|].
  - intros (t1 & t2 & r & E & [-> _]%exec_ret_inv & ->)%exec_bind. rewrite app_nil_r. by apply send_json_quiet in E as (_ & ? & ?).
  - intros [-> _]%exec_ret_inv. split; [|constructor]. intros pa b (a & []%not_elem_of_nil).
Qed.

Definition desired (sts : Value) : nat := Z.to_nat (default 1 (as_u64 sts.["spec"].["replicas"])).

(** What the scaling step asks for, given the Pods of the StatefulSet. *)
Record scaling (ns name uid : string) (sts : Value) (l : list Value) (t : list Event) : Prop := {
  sc_once : (count_posts ("/api/v1/namespaces/" ++ ns ++ "/pods") t + count_deletes t ≤ 1)%nat;
  sc_post pa b : posts t pa b → (length l < desired sts)%nat ∧ pa = "/api/v1/namespaces/" ++ ns ++ "/pods" ∧
    b = build_statefulset_pod ns name uid (length l) (str_or "" sts.["spec"].["serviceName"]) sts ∧
    ∀ prev, last l = Some prev → is_pod_ready prev = true;
  sc_delete p o a : EAsk (QDelete p o) a ∈ t → (desired sts < length l)%nat ∧
    ∃ pod, last l = Some pod ∧ p = pod_path ns pod ∧ names_observed pod o }.

Lemma scaling_none ns name uid sts l : scaling ns name uid sts l [].
Proof. split; [cbn; lia|intros pa b (a & []%not_elem_of_nil)|intros p o a []%not_elem_of_nil]. Qed.

Lemma sts_built_group ns name uid n svc sts :
  ∃ x, group_of ("/api/v1/namespaces/" ++ ns ++ "/pods") (build_statefulset_pod ns name uid n svc sts) =
       Some (create_group ("/api/v1/namespaces/" ++ ns ++ "/pods") x uid).
Proof. eexists. reflexivity. Qed.

Lemma create_scaling pending ns name uid sts l t x :
  (length l < desired sts)%nat → (∀ prev, last l = Some prev → is_pod_ready prev = true) →
  (∀ n, pending !! create_group ("/api/v1/namespaces/" ++ ns ++ "/pods") n uid = None) →
  exec (r <== create pending ("/api/v1/namespaces/" ++ ns ++ "/pods")
           (build_statefulset_pod ns name uid (length l) (str_or "" sts.["spec"].["serviceName"]) sts) ;; Ret r.1) t x →
  scaling ns name uid sts l t.
Proof.
  intros Hlt Hr Hp (t1 & t2 & [p r] & E & [-> _]%exec_ret_inv & ->)%exec_bind. rewrite app_nil_r.
  pose proof (emits_create _ _ _ _ _ E) as Hd. split.
  - rewrite (no_delete_count _ Hd), Nat.add_0_r. by eapply create_posts_once.
  - intros pa b Hb. destruct (sts_built_group ns name uid (length l) (str_or "" sts.["spec"].["serviceName"]) sts) as [x' Hg].
    by destruct (create_fresh_posts _ _ _ _ _ _ _ _ _ E Hg (Hp x') Hb) as [-> ->].
  - intros q o a Hin. rewrite Forall_forall in Hd. by apply Hd in Hin.
Qed.

Lemma scale_exec pending ns name uid sts l t pending' :
  (∀ n, pending !! create_group ("/api/v1/namespaces/" ++ ns ++ "/pods") n uid = None) →
  exec (scale pending ns name uid sts l) t pending' → scaling ns name uid sts l t.
Proof.
  intros Hp. unfold scale. fold (desired sts). cbn zeta. destruct (length l <? desired sts)%nat eqn:E1.
  - apply Nat.ltb_lt in E1. destruct (last l) as [prev|] eqn:El.
    + destruct (is_pod_ready prev) eqn:Er; cbn [negb]; [|intros [-> _]%exec_ret_inv; apply scaling_none].
      apply create_scaling; [done| |done]. rewrite El. by intros ? [= <-].
    + apply create_scaling; [done| |done]. by rewrite El.
  - destruct (desired sts <? length l)%nat eqn:E2; [|intros [-> _]%exec_ret_inv; apply scaling_none]. apply Nat.ltb_lt in E2.
    destruct (last l) as [pod|] eqn:El; [|intros [-> _]%exec_ret_inv; apply scaling_none].
    destruct (_ && _); [|intros [-> _]%exec_ret_inv; apply scaling_none].
    intros (t1 & t2 & r & E & [-> _]%exec_ret_inv & ->)%exec_bind. rewrite app_nil_r. fold (pod_path ns pod) in E.
    destruct (delete_observed_exec _ _ _ _ E) as (Ha & Hc & Hn). split; [rewrite Hn; lia| |].
    + intros pa b Hb. by apply (delete_observed_posts _ _ _ _ _ _ E) in Hb.
    + intros p o a Hin. split; [done|]. rewrite Forall_forall in Ha. apply Ha in Hin as (pod' & ->%list_elem_of_singleton & Hpath & Ho).
      by exists pod.
Qed.

(** C17: a StatefulSet grows and shrinks at the top, one Pod at a time.  In a
    pass over Pods whose ordinals are 0, 1, ..., n-1, with no create of an
    earlier pass open, and whatever the server answers: at most one Pod is
    created or deleted; a Pod is created only when fewer than the desired
    number are there and the Pod with the highest ordinal is ready, and with
    it the ordinals are 0, ..., n; a Pod is deleted only when there are more
    than the desired number, in the revision observed, and without it the
    ordinals are 0, ..., n-2. *)
Theorem statefulset_stays_contiguous pending sts pods t pending' r :
  let uid := str_or "" sts.["metadata"].["uid"] in
  let n := length (owned uid pods) in
  exec (reconcile pending sts pods) t (pending', r) → contiguous uid pods → wf_value sts = true →
  (∀ x, pending !! create_group (pods_path sts) x uid = None) →
  (count_posts (pods_path sts) t + count_deletes t ≤ 1)%nat ∧
  (∀ pa b, posts t pa b → pa = pods_path sts ∧ (n < desired sts)%nat ∧ contiguous uid (pods ++ [b]) ∧
     ∀ prev, last (owned_pods uid pods) = Some prev → is_pod_ready prev = true) ∧
  (∀ p o a, EAsk (QDelete p o) a ∈ t → (desired sts < n)%nat ∧
     ∃ l1 pod l2, pods = (l1 ++ pod :: l2)%list ∧ p = pod_path (namespace_of sts) pod ∧ names_observed pod o ∧
       contiguous uid (l1 ++ l2)).
Proof.
  cbn zeta. intros E Hc Hw Hp. set (uid := str_or "" sts.["metadata"].["uid"]) in *.
  assert (scaling (namespace_of sts) (str_or "" sts.["metadata"].["name"]) uid sts (owned_pods uid pods) t) as [H1 H2 H3].
  { unfold reconcile, reconcile_statefulset in E. fold (namespace_of sts) in E. unfold str_or at 1.
    destruct (as_str sts.["metadata"].["name"]) as [name|]; [|apply exec_ret_inv in E as [-> _]; apply scaling_none]. cbn [default from_option id].
    destruct (negb _); [apply exec_ret_inv in E as [-> _]; apply scaling_none|]. fold uid in E.
    apply exec_bind in E as (t1 & t2 & q & E1 & E2 & ->). apply exec_bind in E2 as (t3 & t4 & u & E2 & [-> _]%exec_ret_inv & ->).
    rewrite app_nil_r. apply update_status_exec in E2 as [Hn Hd]. apply scale_exec in E1 as [S1 S2 S3]; [|done]. split.
    - rewrite count_posts_app, count_deletes_app, (no_delete_count _ Hd), (no_post_count _ _ Hn). lia.
    - intros pa b [Hb|Hb]%posts_app; [by apply S2|by apply Hn in Hb].
    - intros p o a [Hin|Hin]%elem_of_app; [by eapply S3|]. rewrite Forall_forall in Hd. by apply Hd in Hin. }
  rewrite length_owned_pods in *. split_and!; [done| |].
  - intros pa b Hb. destruct (H2 _ _ Hb) as (Hlt & -> & -> & Hr). split_and!; [done..| |done].
    destruct (built_owned (namespace_of sts) (str_or "" sts.["metadata"].["name"]) uid (length (owned uid pods))
      (str_or "" sts.["spec"].["serviceName"]) sts) as [Ho Hn].
    + assert (is_u64 (default 1 (as_u64 sts.["spec"].["replicas"]))) as Hu.
      { pose proof (wf_index _ "replicas" (wf_index _ "spec" Hw)) as Hr'. destruct (sts.["spec"].["replicas"]) as [| |[]| | |]; cbn; try (unfold is_u64, u64_max; lia).
        cbn in Hr'. unfold is_u64. lia. }
      unfold desired in Hlt. unfold is_u64 in *. lia.
    + by apply contiguous_add.
  - intros p o a Hin. destruct (H3 _ _ _ Hin) as (Hlt & pod & Hl & -> & Ho). split; [done|].
    destruct (contiguous_remove _ _ _ Hc Hl) as (l1 & l2 & -> & Hc'). by exists l1, pod, l2.
Qed.

(** *** Witness *)

Module StsDemo.

Definition sts (replicas : Z) : Value :=
  json_obj [("metadata", json_obj [("name", Str "web"); ("namespace", Str "d"); ("uid", Str "u-sts")]);
            ("spec", json_obj [("replicas", Num (PosInt replicas)); ("template", json_obj [("spec", json_obj [])])])].

Definition pod (n : string) : Value :=
  json_obj [("metadata", json_obj [("name", Str n); ("uid", Str n); ("resourceVersion", Str "1");
              ("ownerReferences", Array [json_obj [("uid", Str "u-sts")]])]);
            ("status", json_obj [("phase", Str "Running"); ("conditions", Array [json_obj [("type", Str "Ready"); ("status", Str "True")]])])].

Definition answers : list Answer := [AResponse 201 (Some Null); AResponse 200 (Some Null)].
Definition trace (replicas : Z) (pods : list Value) : list Event :=
  default [] (fst <$> play answers (reconcile ∅ (sts replicas) pods)).
Definition grown : list Event := Eval vm_compute in trace 3 [pod "web-1"; pod "web-0"].

Lemma grown_exec : ∃ x, exec (reconcile ∅ (sts 3) [pod "web-1"; pod "web-0"]) grown x.
Proof. eexists. apply (play_exec answers). vm_compute. reflexivity. Qed.

(** A missing Pod below the highest is never made again: the Pod asked for is
    named by the number of Pods, which is taken. *)
Example gap_asks_for_taken_name :
  map (λ e, match e with EAsk (QPost _ b) _ => Some b.["metadata"].["name"] | _ => None end) (trace 2 [pod "web-1"]) =
  [Some (Str "web-1"); None; None; None].
Proof. vm_compute. reflexivity. Qed.

End StsDemo.

Lemma statefulset_stays_contiguous_witness :
  ∃ b, posts StsDemo.grown "/api/v1/namespaces/d/pods" b ∧ b.["metadata"].["name"] = Str "web-2" ∧
       contiguous "u-sts" [StsDemo.pod "web-1"; StsDemo.pod "web-0"; b].
Proof.
  eexists. split; [eexists; unfold StsDemo.grown; left|]. split; [reflexivity|].
  destruct StsDemo.grown_exec as [[p' r] E].
  destruct (statefulset_stays_contiguous ∅ (StsDemo.sts 3) [StsDemo.pod "web-1"; StsDemo.pod "web-0"] StsDemo.grown p' r E)
    as (_ & H & _).
  - unfold contiguous. change (map ordinal _) with [1; 0]. change (seqZ _ _) with [0; 1]. apply perm_swap.
  - reflexivity.
  - intros x. apply lookup_empty.
  - destruct (H "/api/v1/namespaces/d/pods" _ ltac:(eexists; unfold StsDemo.grown; left)) as (_ & _ & Hc & _). exact Hc.
Defined.
