(* ===== verification/Job.v ===== *)
(** * Jobs ([pkg/controller-manager/src/job.rs])

    One pass over a Job: its Pods are counted, the deadline, the backoff limit
    and the completions are looked at in that order, missing Pods are created,
    and the status is written.  The pass is a program over the API client; the
    clock and the identifiers drawn are arguments.

    Proved: a pass never runs more Pods than [parallelism] allows or than
    completions are missing, deletes only the unfinished Pods of a Job past
    its deadline, and asks to be woken at the deadline; the verdict it writes
    follows from the counts, and a Job that has one is never touched again. *)

From Stdlib Require Import ZArith Lia String Ascii.
From stdpp Require Import base gmap strings numbers option list.
From S2P Require Import Prelude Text BTree Json Backoff Client ReplicaSet.
Open Scope string_scope.
Open Scope kube_scope.
Open Scope Z_scope.

Module Job.

Definition managed_here (job : Value) : bool :=
  match as_str job.["spec"].["managedBy"] with
  | None => true
  | Some m => str_eqb m "kubernetes.io/job-controller"
  end.

Definition over (cond : Value) : bool :=
  let ctype := str_or "" cond.["type"] in
  (str_eqb ctype "Complete" || str_eqb ctype "Failed") && str_eqb (str_or "" cond.["status"]) "True".

Definition finished (job : Value) : bool := existsb over (items job.["status"].["conditions"]).

Definition owned_pods (job_uid : string) (pods : list Value) : list Value :=
  List.filter (λ pod, existsb (λ r, str_is r.["uid"] job_uid) (items pod.["metadata"].["ownerReferences"])) pods.

Definition phase (pod : Value) : string := str_or "Pending" pod.["status"].["phase"].
Definition succeeded (pods : list Value) : nat := length (List.filter (λ p, str_eqb (phase p) "Succeeded") pods).
Definition failed (pods : list Value) : nat := length (List.filter (λ p, str_eqb (phase p) "Failed") pods).
Definition active (pods : list Value) : nat :=
  length (List.filter (λ p, negb (str_eqb (phase p) "Succeeded") && negb (str_eqb (phase p) "Failed")) pods).

Definition usize_or (d : Z) (v : Value) : nat := Z.to_nat (default d (as_u64 v)).
Definition completions (job : Value) : nat := usize_or 1 job.["spec"].["completions"].
Definition parallelism (job : Value) : nat := usize_or 1 job.["spec"].["parallelism"].
Definition backoff_limit (job : Value) : nat := usize_or 6 job.["spec"].["backoffLimit"].

Definition build_job_pod (namespace job_name job_uid : string) (job : Value) (uuid : string) : Value :=
  let template := job.["spec"].["template"] in
  let labels := template.["metadata"].["labels"] in
  let labels := if is_null labels then json_obj [] else labels in
  json_obj [("apiVersion", Str "v1"); ("kind", Str "Pod");
    ("metadata", json_obj [("name", Str (job_name ++ "-" ++ String.substring 0 5 uuid)); ("namespace", Str namespace);
       ("labels", match labels with Object m => Object (map_insert m "job-name" (Str job_name)) | _ => labels end);
       ("ownerReferences", Array [json_obj [("apiVersion", Str "batch/v1"); ("kind", Str "Job"); ("name", Str job_name);
          ("uid", Str job_uid); ("controller", Bool true); ("blockOwnerDeletion", Bool true)]])]);
    ("spec", match template.["spec"] with
             | Object s => Object (if contains_key s "restartPolicy" then s else map_insert s "restartPolicy" (Str "Never"))
             | spec => spec
             end);
    ("status", json_obj [("phase", Str "Pending")])].

(** The counts over the status there is, or a new status. *)
Definition count_status (status : Value) (active succeeded failed : nat) (now : string) : Value :=
  match status with
  | Object s =>
      let s := map_insert (map_insert (map_insert s "active" (num_nat active)) "succeeded" (num_nat succeeded)) "failed" (num_nat failed) in
      Object (if contains_key s "startTime" then s else map_insert s "startTime" (Str now))
  | _ => json_obj [("active", num_nat active); ("succeeded", num_nat succeeded); ("failed", num_nat failed); ("startTime", Str now)]
  end.

(** The first condition of the type is replaced unless it says the same; a
    missing one is appended. *)
Fixpoint put_condition (cond : Value) (ctype reason : string) (l : list Value) : list Value :=
  match l with
  | [] => [cond]
  | old :: rest =>
      if str_is old.["type"] ctype then
        (if negb (str_is old.["status"] "True") || negb (str_is old.["reason"] reason) then cond else old) :: rest
      else old :: put_condition cond ctype reason rest
  end.

Definition conclude (status : Value) (condition : option (string * string)) (now : string) : Value :=
  match condition, status with
  | Some (ctype, reason), Object s =>
      let cond := json_obj [("type", Str ctype); ("status", Str "True"); ("reason", Str reason); ("lastTransitionTime", Str now)] in
      let s := if str_eqb ctype "Complete" && is_null (Object s).["completionTime"] then map_insert s "completionTime" (Str now) else s in
      match map_get s "conditions" with
      | None => Object (map_insert s "conditions" (Array (put_condition cond ctype reason [])))
      | Some (Array l) => Object (map_insert s "conditions" (Array (put_condition cond ctype reason l)))
      | Some _ => Object s
      end
  | _, _ => status
  end.

Definition updated_job (job : Value) (active succeeded failed : nat) (condition : option (string * string)) (now : string) : option Value :=
  set_index job "status" (conclude (count_status job.["status"] active succeeded failed now) condition now).

Definition update_job_status (namespace job_name : string) (job : Value) (active succeeded failed : nat)
    (condition : option (string * string)) (now : string) : Prog unit :=
  match updated_job job active succeeded failed condition now with
  | None => Ret tt
  | Some updated => _ <== api_update ("/apis/batch/v1/namespaces/" ++ namespace ++ "/jobs/" ++ job_name) updated ;; Ret tt
  end.

Fixpoint delete_unfinished (namespace : string) (l : list Value) : Prog unit :=
  match l with
  | [] => Ret tt
  | pod :: rest =>
      let phase := str_or "" pod.["status"].["phase"] in
      let pod_name := str_or "" pod.["metadata"].["name"] in
      if negb (str_eqb phase "Succeeded") && negb (str_eqb phase "Failed") && negb (is_empty_str pod_name)
      then _ <== api_delete_observed ("/api/v1/namespaces/" ++ namespace ++ "/pods/" ++ pod_name) pod ;; delete_unfinished namespace rest
      else delete_unfinished namespace rest
  end.

(** [str::replace('Z', "+00:00")]. *)
Fixpoint spell_zulu (s : string) : string :=
  match s with
  | EmptyString => EmptyString
  | String c s' => if Ascii.eqb c "Z" then "+00:00" ++ spell_zulu s' else String c (spell_zulu s')
  end.

Section Controller.
  (** [chrono]: RFC 3339 times as nanoseconds, the last instant it can hold;
      the identifiers drawn. *)
  Variables (parse_rfc3339 : string → option Z) (max_utc : Z) (uuid : nat → string).

(** [Duration::try_seconds] holds milliseconds in an [i64]. *)
Definition deadline_at (start seconds : Z) : option Z :=
  if (seconds <=? i64_max) && (seconds * 1000 <=? i64_max) && (start + seconds * NANOS <=? max_utc)
  then Some (start + seconds * NANOS) else None.

Definition requeue_deadline {R} (start seconds now : Z) (k : Prog R) : Prog R :=
  match deadline_at start seconds with
  | Some at_ => if now <=? at_ then Tell (Requeue (at_ - now)) k else k
  | None => k
  end.

(** When the Job started and how long it may run. *)
Definition job_deadline (job : Value) : option (Z * Z) :=
  match as_u64 job.["spec"].["activeDeadlineSeconds"] with
  | None => None
  | Some deadline =>
      match as_str job.["status"].["startTime"] with
      | None => None
      | Some s => (λ start, (start, deadline)) <$> parse_rfc3339 (spell_zulu s)
      end
  end.

Definition past (start deadline now : Z) : bool :=
  let elapsed := Z.quot (now - start) NANOS in (0 <=? elapsed) && (deadline <=? elapsed).

Fixpoint create_pods (pending : Pending) (namespace job_name job_uid : string) (job : Value) (draws to_create : nat) : Prog Pending :=
  match to_create with
  | O => Ret pending
  | S rest =>
      r <== create pending ("/api/v1/namespaces/" ++ namespace ++ "/pods") (build_job_pod namespace job_name job_uid job (uuid draws)) ;;
      create_pods r.1 namespace job_name job_uid job (S draws) rest
  end.

(** From the backoff limit on. *)
Definition run_job (pending : Pending) (namespace job_name job_uid : string) (job : Value) (owned : list Value) (draws : nat) (stamp : string) :
    Prog (Pending * result unit string) :=
  let '(act, ok, bad) := (active owned, succeeded owned, failed owned) in
  if (backoff_limit job <? bad)%nat then
    _ <== update_job_status namespace job_name job act ok bad (Some ("Failed", "BackoffLimitExceeded")) stamp ;; Ret (pending, Ok tt)
  else if (completions job <=? ok)%nat then
    _ <== update_job_status namespace job_name job act ok bad (Some ("Complete", "Completed")) stamp ;; Ret (pending, Ok tt)
  else
    let to_create := if (act <? parallelism job)%nat && (ok + act <? completions job)%nat
                     then Nat.min (parallelism job - act) (completions job - ok - act) else O in
    pending <== create_pods pending namespace job_name job_uid job draws to_create ;;
    _ <== update_job_status namespace job_name job act ok bad None stamp ;;
    Ret (pending, Ok tt).

Definition reconcile_job (pending : Pending) (namespace : string) (job : Value) (all_pods : list Value) (draws : nat) (now : Z) (stamp : string) :
    Prog (Pending * result unit string) :=
  match as_str job.["metadata"].["name"] with
  | None => Ret (pending, Err "job missing name")
  | Some job_name =>
      let job_uid := str_or "" job.["metadata"].["uid"] in
      if negb (is_null job.["metadata"].["deletionTimestamp"]) then Ret (pending, Ok tt)
      else if negb (managed_here job) then Ret (pending, Ok tt)
      else if finished job then Ret (pending, Ok tt)
      else
        let owned := owned_pods job_uid all_pods in
        match job_deadline job with
        | Some (start, deadline) =>
            requeue_deadline start deadline now
              (if past start deadline now then
                 _ <== delete_unfinished namespace owned ;;
                 _ <== update_job_status namespace job_name job 0 (succeeded owned) (failed owned) (Some ("Failed", "DeadlineExceeded")) stamp ;;
                 Ret (pending, Ok tt)
               else run_job pending namespace job_name job_uid job owned draws stamp)
        | None => run_job pending namespace job_name job_uid job owned draws stamp
        end
  end.

(** [Controller::reconcile]. *)
Definition reconcile (pending : Pending) (object : Value) (children : list Value) (draws : nat) (now : Z) (stamp : string) :
    Prog (Pending * result unit string) :=
  reconcile_job pending (str_or "default" object.["metadata"].["namespace"]) object children draws now stamp.
End Controller.

End Job.
Import Job.

(** ** What a pass asks for *)

Definition unfinished (pod : Value) : bool :=
  let phase := str_or "" pod.["status"].["phase"] in negb (str_eqb phase "Succeeded") && negb (str_eqb phase "Failed").

(** PUTs and POSTs of Pods apart, nothing is asked. *)
Lemma update_job_status_exec ns name job a s f c now t x :
  exec (update_job_status ns name job a s f c now) t x →
  (∀ pa b, ¬ posts t pa b) ∧ Forall (asks no_delete) t ∧
  (∀ p u r, EAsk (QPut p u) r ∈ t → updated_job job a s f c now = Some u).
Proof.
  unfold update_job_status. destruct (updated_job _ _ _ _ _ _) as [u|].
  - intros (t1 & t2 & r & E & [-> _]%exec_ret_inv & ->)%exec_bind. rewrite app_nil_r.
    pose proof (send_json_quiet _ _ _ _ E I) as (_ & ? & ?). split_and!; [done..|]. intros p u' r' Hin.
    apply emits_send_json in E. rewrite Forall_forall in E. apply E in Hin. cbn in Hin. by injection Hin as _ ->.
  - intros [-> _]%exec_ret_inv. split_and!; [intros pa b (? & []%not_elem_of_nil)|constructor|intros ? ? ? []%not_elem_of_nil].
Qed.

Definition no_put (q : Request) : Prop := match q with QPut _ _ => False | _ => True end.

Lemma no_put_elem t p u a : Forall (asks no_put) t → EAsk (QPut p u) a ∉ t.
Proof. intros H Hin. rewrite Forall_forall in H. by apply H in Hin. Qed.

Lemma emits_create_no_put pending path body : emits (asks no_put) (create pending path body).
Proof. by apply emits_create_asks. Qed.

Lemma create_pods_asks uuid ns name uid job n : ∀ pending draws t x path,
  exec (create_pods uuid pending ns name uid job draws n) t x →
  (count_posts path t ≤ n)%nat ∧ Forall (asks no_delete) t ∧ Forall (asks no_put) t.
Proof.
  induction n as [|n IH]; intros pending draws t x path E; cbn [create_pods] in E.
  { apply exec_ret_inv in E as [-> _]. cbn. split_and!; [lia|constructor..]. }
  apply exec_bind in E as (t1 & t2 & r & E1 & E2 & ->). pose proof (create_posts_once _ _ _ _ _ path E1).
  destruct (IH _ _ _ _ path E2) as (? & ? & ?). rewrite count_posts_app, !Forall_app.
  split_and!; [lia|by eapply emits_create|done|by eapply emits_create_no_put|done].
Qed.

Lemma delete_unfinished_exec ns l : ∀ t x,
  exec (delete_unfinished ns l) t x →
  (∀ pa b, ¬ posts t pa b) ∧ Forall (asks no_put) t ∧ Forall (deletes_among ns (List.filter unfinished l)) t.
Proof.
  induction l as [|pod l IH]; intros t x E; cbn [delete_unfinished] in E.
  { apply exec_ret_inv in E as [-> _]. split_and!; [intros pa b (? & []%not_elem_of_nil)|constructor..]. }
  cbn zeta in E. cbn [List.filter]. fold (unfinished pod) in E. destruct (unfinished pod) eqn:Eu; cbn [andb] in E; [|by eapply IH].
  assert (List.filter unfinished l ⊆ pod :: List.filter unfinished l) as Hs by set_solver.
  destruct (negb _).
  - apply exec_bind in E as (t1 & t2 & r & E1 & E2 & ->). destruct (IH _ _ E2) as (H1 & H2 & H3). fold (pod_path ns pod) in E1.
    destruct (delete_observed_exec _ _ _ _ E1) as (Ha & _ & _). split_and!.
    + intros pa b [H|H]%posts_app; [by apply (delete_observed_posts _ _ _ _ _ _ E1) in H|by apply H1 in H].
    + apply Forall_app. split; [|done]. apply emits_delete_observed in E1. eapply Forall_impl; [exact E1|].
      intros [q a|nn]; [|done]. by intros (o & -> & _).
    + apply Forall_app. split; [eapply deletes_among_weaken; [|exact Ha]|by eapply deletes_among_weaken]; set_solver.
  - destruct (IH _ _ E) as (H1 & H2 & H3). split_and!; [done..|by eapply deletes_among_weaken].
Qed.

(** Whether the controller acts on a Job at all. *)
Definition acts_on (job : Value) : bool :=
  is_null job.["metadata"].["deletionTimestamp"] && managed_here job && negb (finished job).

(** How a Job ends, if it does: by its deadline, by its failures, or complete. *)
Definition verdict (deadline : option (Z * Z)) (job : Value) (owned : list Value) (now : Z) : option (string * string) :=
  if match deadline with Some (start, d) => past start d now | None => false end then Some ("Failed", "DeadlineExceeded")
  else if (backoff_limit job <? failed owned)%nat then Some ("Failed", "BackoffLimitExceeded")
  else if (completions job <=? succeeded owned)%nat then Some ("Complete", "Completed")
  else None.

(** What the rest of a pass may ask for. *)
Record job_run (job : Value) (owned : list Value) (late : bool) (v : option (string * string)) (stamp : string) (t : list Event) : Prop := {
  jr_posts path : (count_posts path t ≤ if v then 0 else Nat.min (parallelism job - active owned) (completions job - succeeded owned - active owned))%nat;
  jr_deletes : if late then Forall (deletes_among (namespace_of job) (List.filter unfinished owned)) t else Forall (asks no_delete) t;
  jr_put p u r : EAsk (QPut p u) r ∈ t →
    updated_job job (if late then 0%nat else active owned) (succeeded owned) (failed owned) v stamp = Some u }.

Lemma run_job_exec uuid pending name uid job owned draws stamp now t x :
  exec (run_job uuid pending (namespace_of job) name uid job owned draws stamp) t x →
  job_run job owned false (verdict None job owned now) stamp t.
Proof.
  unfold run_job, verdict. destruct (_ <? _)%nat; [|destruct (completions job <=? _)%nat].
  1,2: intros (t1 & t2 & r & E & [-> _]%exec_ret_inv & ->)%exec_bind; rewrite app_nil_r;
    apply update_job_status_exec in E as (Hp & Hd & Hu); split; [|done|done]; intros path; by rewrite (no_post_count _ _ Hp).
  set (n := if (_ : bool) then _ else _). intros (t1 & t2 & p & E1 & E2 & ->)%exec_bind.
  apply exec_bind in E2 as (t3 & t4 & u & E2 & [-> _]%exec_ret_inv & ->). rewrite app_nil_r.
  apply update_job_status_exec in E2 as (Hp & Hd & Hu). split.
  - intros path. destruct (create_pods_asks _ _ _ _ _ _ _ _ _ _ path E1) as (H & _ & _).
    rewrite count_posts_app, (no_post_count _ _ Hp). subst n. destruct (_ && _); lia.
  - apply Forall_app. split; [|done]. by destruct (create_pods_asks _ _ _ _ _ _ _ _ _ _ "" E1) as (_ & ? & _).
  - intros p' u' r [Hin|Hin]%elem_of_app; [|by eapply Hu].
    destruct (create_pods_asks _ _ _ _ _ _ _ _ _ _ "" E1) as (_ & _ & H). by apply (no_put_elem _ _ _ _ H) in Hin.
Qed.

(** A whole pass: what it asks for, and that it notes its deadline. *)
Lemma reconcile_job_exec parse max_utc uuid pending job pods draws now stamp t x :
  exec (reconcile parse max_utc uuid pending job pods draws now stamp) t x →
  let owned := owned_pods (str_or "" job.["metadata"].["uid"]) pods in
  let deadline := job_deadline parse job in
  let late := match deadline with Some (start, d) => past start d now | None => false end in
  t = [] ∨ acts_on job = true ∧ is_Some (as_str job.["metadata"].["name"]) ∧
    ∃ t', job_run job owned late (verdict deadline job owned now) stamp t' ∧
      t = (match deadline ≫= λ sd, deadline_at max_utc sd.1 sd.2 with
           | Some at_ => if now <=? at_ then [ENote (Requeue (at_ - now))] else []
           | None => []
           end ++ t')%list.
Proof.
  cbn zeta. unfold Job.reconcile, reconcile_job. fold (namespace_of job).
  destruct (as_str job.["metadata"].["name"]) as [name|]; [|intros [-> _]%exec_ret_inv; by left].
  unfold acts_on. destruct (is_null _); cbn [negb]; [|intros [-> _]%exec_ret_inv; by left].
  destruct (managed_here job); cbn [negb]; [|intros [-> _]%exec_ret_inv; by left].
  destruct (finished job); [intros [-> _]%exec_ret_inv; by left|]. set (owned := owned_pods _ pods).
  intros E. right. split; [done|]. split; [done|]. destruct (job_deadline parse job) as [[start d]|].
  2: { exists t. split; [|done]. by eapply run_job_exec in E. }
  cbn [mbind option_bind fst snd].
  assert (∀ t, exec (if past start d now then
      _ <== delete_unfinished (namespace_of job) owned ;;
      _ <== update_job_status (namespace_of job) name job 0 (succeeded owned) (failed owned) (Some ("Failed", "DeadlineExceeded")) stamp ;;
      Ret (pending, Ok tt)
    else run_job uuid pending (namespace_of job) name (str_or "" job.["metadata"].["uid"]) job owned draws stamp) t x →
    job_run job owned (past start d now) (verdict (Some (start, d)) job owned now) stamp t) as Hrest.
  { intros t'. unfold verdict. destruct (past start d now); [|exact (run_job_exec _ _ _ _ _ _ _ _ now _ _)].
    intros (t1 & t2 & u & E1 & E2 & ->)%exec_bind. apply exec_bind in E2 as (t3 & t4 & u' & E2 & [-> _]%exec_ret_inv & ->).
    rewrite app_nil_r. apply update_job_status_exec in E2 as (Hp & Hd & Hu). apply delete_unfinished_exec in E1 as (Hp1 & Hn1 & Hd1). split.
    - intros path. by rewrite count_posts_app, (no_post_count _ _ Hp), (no_post_count _ _ Hp1).
    - apply Forall_app. split; [done|]. by apply no_delete_among.
    - intros p' u'' r [Hin|Hin]%elem_of_app; [by apply (no_put_elem _ _ _ _ Hn1) in Hin|by eapply Hu]. }
  unfold requeue_deadline in E. destruct (deadline_at max_utc start d) as [at_|]; [|exists t; split; [by apply Hrest|done]].
  destruct (now <=? at_); [|exists t; split; [by apply Hrest|done]].
  apply exec_tell_inv in E as (t' & -> & E). exists t'. split; [by apply Hrest|done].
Qed.

(** C19: a Job never runs more Pods than it may.  In any pass, whatever the
    server answers: the POSTs for Pods are at most as many as [parallelism]
    leaves room for beside the Pods that run, and at most as many as
    completions are still missing; a DELETE is sent only when the deadline of
    the Job has passed, and only for one of its unfinished Pods, in the UID
    and revision observed; a Job that is terminating, finished or another
    controller's is not touched; and a pass before the deadline asks to be
    woken exactly then. *)
Theorem job_within_parallelism parse max_utc uuid pending job pods draws now stamp t x :
  exec (reconcile parse max_utc uuid pending job pods draws now stamp) t x →
  let owned := owned_pods (str_or "" job.["metadata"].["uid"]) pods in
  (∀ path, count_posts path t ≤ parallelism job - active owned ∧
           count_posts path t ≤ completions job - succeeded owned - active owned)%nat ∧
  (∀ p o a, EAsk (QDelete p o) a ∈ t → ∃ start d pod, job_deadline parse job = Some (start, d) ∧ past start d now = true ∧
     pod ∈ owned ∧ unfinished pod = true ∧ p = pod_path (namespace_of job) pod ∧ names_observed pod o) ∧
  (acts_on job = false → t = []) ∧
  (∀ start d at_, job_deadline parse job = Some (start, d) → deadline_at max_utc start d = Some at_ → now ≤ at_ → t ≠ [] →
     ENote (Requeue (at_ - now)) ∈ t).
Proof.
  cbn zeta. intros [->|(Ha & _ & t' & [H1 H2 H3] & ->)]%reconcile_job_exec.
  { split_and!; [cbn; lia|intros ? ? ? []%not_elem_of_nil|done..]. }
  set (notes := match _ with Some _ => _ | None => _ end).
  assert (∀ e, e ∈ notes → ∃ n, e = ENote n) as Hn.
  { intros e. subst notes. destruct (_ ≫= _) as [at_|]; [|by intros ?%not_elem_of_nil]. destruct (_ <=? _); [|by intros ?%not_elem_of_nil].
    intros ->%list_elem_of_singleton. by eexists. }
  split_and!.
  - intros path. rewrite count_posts_app. assert (count_posts path notes = 0%nat) as ->.
    { apply no_post_count. intros pa b (a & [n ?]%Hn). done. }
    specialize (H1 path). destruct (verdict _ _ _ _); lia.
  - intros p o a [[n ?]%Hn|Hin]%elem_of_app; [done|]. destruct (job_deadline parse job) as [[start d]|].
    2: { rewrite Forall_forall in H2. by apply H2 in Hin. }
    destruct (past start d now) eqn:Ep; rewrite Forall_forall in H2; [|by apply H2 in Hin].
    apply H2 in Hin as (pod & [Hpod Hu]%elem_of_filter_b & Hp & Ho). by exists start, d, pod.
  - by rewrite Ha.
  - intros start d at_ Ed Ea Hle _. apply elem_of_app. left. subst notes. rewrite Ed. cbn. rewrite Ea.
    rewrite (proj2 (Z.leb_le _ _) Hle). left.
Qed.

(** ** A verdict is final *)

(** The status the API server keeps: no conditions yet, or a list of them. *)
Definition conditions_ok (job : Value) : Prop :=
  match get job.["status"] "conditions" with None | Some (Array _) => True | Some _ => False end.

Lemma put_condition_over c ctype reason l :
  over c = true → (ctype = "Complete" ∨ ctype = "Failed") → existsb over (put_condition c ctype reason l) = true.
Proof.
  intros Hc Ht. induction l as [|old l IH]; cbn [put_condition existsb]; [by rewrite Hc|].
  destruct (str_is old.["type"] ctype) eqn:E; cbn [existsb]; [|by rewrite IH, orb_true_r].
  destruct (negb _ || negb _) eqn:Eb; [by rewrite Hc|]. apply orb_false_iff in Eb as [Es _]. apply negb_false_iff, str_is_spec in Es. apply str_is_spec in E.
  unfold over. rewrite E, Es. cbn. by destruct Ht as [-> | ->].
Qed.

Lemma count_status_conditions status a s f now :
  get (count_status status a s f now) "conditions" = get status "conditions" ∧
  (count_status status a s f now).["succeeded"] = num_nat s ∧ (count_status status a s f now).["failed"] = num_nat f ∧
  ∃ m, count_status status a s f now = Object m.
Proof.
  destruct status as [| | | | |m]; try (by split_and!; [..|eexists]). cbn [count_status]. cbn zeta. destruct (contains_key _ _).
  - split_and!; [| | |by eexists]; unfold index; cbn [get]; rewrite ?map_get_insert; done.
  - split_and!; [| | |by eexists]; unfold index; cbn [get]; rewrite ?map_get_insert; done.
Qed.

Lemma conclude_finished status v now m :
  status = Object m → (match map_get m "conditions" with None | Some (Array _) => True | Some _ => False end) →
  (∀ ct r, v = Some (ct, r) → ct = "Complete" ∨ ct = "Failed") →
  existsb over (items (conclude status v now).["conditions"]) =
    match v with Some _ => true | None => existsb over (items status.["conditions"]) end.
Proof.
  intros -> Hm Hv. destruct v as [[ctype reason]|]; [|done]. pose proof (Hv _ _ eq_refl) as Ht.
  cbn [conclude]. set (s := if (_ : bool) then _ else m).
  assert (map_get s "conditions" = map_get m "conditions") as Es by (subst s; destruct (_ && _); [by rewrite map_get_insert|done]).
  rewrite Es. set (c := json_obj _).
  assert (over c = true) as Hc by (destruct Ht as [-> | ->]; reflexivity).
  assert (∀ l, existsb over (items (Object (map_insert s "conditions" (Array (put_condition c ctype reason l)))).["conditions"]) = true) as H.
  { intros l. unfold index. cbn [get]. rewrite map_get_insert. cbn -[existsb over]. by apply put_condition_over. }
  destruct (map_get m "conditions") as [[]|]; try done; apply H.
Qed.

Lemma conclude_counts status v now k :
  k ≠ "conditions" → k ≠ "completionTime" → (conclude status v now).[k] = status.[k].
Proof.
  intros H1 H2. destruct v as [[ct r]|]; [|done]. destruct status as [| | | | |m]; try done. cbn [conclude].
  set (s := if (_ : bool) then _ else m). assert (map_get s k = map_get m k) as Es by (subst s; destruct (_ && _); [by rewrite map_get_insert_ne|done]).
  unfold index. destruct (map_get s "conditions") as [[]|]; cbn [get]; rewrite ?map_get_insert_ne by done; by rewrite Es.
Qed.

Lemma verdict_kind deadline job owned now ct r : verdict deadline job owned now = Some (ct, r) → ct = "Complete" ∨ ct = "Failed".
Proof.
  unfold verdict. destruct (match deadline with Some _ => _ | None => _ end); [intros [= <- _]; by right|].
  destruct (_ <? _)%nat; [intros [= <- _]; by right|]. destruct (_ <=? _)%nat; [intros [= <- _]; by left|done].
Qed.

(** a Job's status says how it went, and an end is final.  Whatever object
    a pass writes carries the numbers of its Pods that succeeded and failed.
    The pass ends the Job exactly when its deadline has passed, more Pods have
    failed than the backoff limit allows, or enough have succeeded, looked at
    in this order: then the object written is finished, and every later pass
    over it asks for nothing, whatever Pods it sees; otherwise the object is
    not finished. *)
Theorem job_verdict_final parse max_utc uuid pending job pods draws now stamp t x p u a :
  exec (reconcile parse max_utc uuid pending job pods draws now stamp) t x → EAsk (QPut p u) a ∈ t → conditions_ok job →
  let owned := owned_pods (str_or "" job.["metadata"].["uid"]) pods in
  u.["status"].["succeeded"] = num_nat (succeeded owned) ∧ u.["status"].["failed"] = num_nat (failed owned) ∧
  match verdict (job_deadline parse job) job owned now with
  | Some _ => finished u = true ∧
      ∀ pending' pods' draws' now' stamp' t' x', exec (reconcile parse max_utc uuid pending' u pods' draws' now' stamp') t' x' → t' = []
  | None => finished u = false
  end.
Proof.
  cbn zeta. intros E Hin Hok. apply reconcile_job_exec in E as [->|(Ha & _ & t' & [_ _ Hput] & ->)]; [by apply not_elem_of_nil in Hin|].
  apply elem_of_app in Hin as [Hin|Hin].
  { destruct (_ ≫= _); [|by apply not_elem_of_nil in Hin]. destruct (_ <=? _); [|by apply not_elem_of_nil in Hin].
    by apply list_elem_of_singleton in Hin. }
  apply Hput in Hin. clear Hput. set (owned := owned_pods _ pods) in *. set (v := verdict _ _ _ _) in *. unfold updated_job in Hin.
  set (late := match _ with Some _ => _ | None => _ end) in *. set (act := if late then 0%nat else active owned) in *.
  destruct (count_status_conditions job.["status"] act (succeeded owned) (failed owned) stamp) as (Hc & Hs & Hf & m & Em).
  set (status := count_status _ _ _ _ _) in *. rewrite (index_set_index _ _ _ _ Hin). rewrite !conclude_counts by done.
  split_and!; [done..|].
  assert (finished u = match v with Some _ => true | None => false end) as Hfin.
  { unfold finished. rewrite (index_set_index _ _ _ _ Hin).
    assert (finished job = false) as Hnf by (unfold acts_on in Ha; destruct (finished job); [by rewrite andb_false_r in Ha|done]).
    rewrite (conclude_finished status v stamp m Em).
    - destruct v; [done|]. unfold index at 1. rewrite Hc. exact Hnf.
    - unfold conditions_ok in Hok. rewrite Em in Hc. cbn [get] in Hc. rewrite Hc. exact Hok.
    - apply verdict_kind. }
  destruct v; [|done]. split; [done|]. intros pending' pods' draws' now' stamp' t2 x2 [->|(Ha' & _)]%reconcile_job_exec; [done|].
  unfold acts_on in Ha'. by rewrite Hfin, andb_false_r in Ha'.
Qed.

(** *** Witnesses *)

Module JobDemo.

Definition parse (s : string) : option Z := if str_eqb s "2024-01-01T00:00:00+00:00" then Some 0 else None.
Definition ids (n : nat) : string := "0123456789abcdef".
Definition max_utc : Z := 10 ^ 30.

(** Three completions, two at a time, within a minute. *)
Definition job : Value :=
  json_obj [("metadata", json_obj [("name", Str "sum"); ("namespace", Str "d"); ("uid", Str "u-job")]);
            ("spec", json_obj [("completions", Num (PosInt 3)); ("parallelism", Num (PosInt 2)); ("activeDeadlineSeconds", Num (PosInt 60))]);
            ("status", json_obj [("startTime", Str "2024-01-01T00:00:00Z")])].

Definition pod (n phase : string) : Value :=
  json_obj [("metadata", json_obj [("name", Str n); ("uid", Str n); ("resourceVersion", Str "1");
              ("ownerReferences", Array [json_obj [("uid", Str "u-job")]])]);
            ("status", json_obj [("phase", Str phase)])].

Definition pods : list Value := [pod "a" "Succeeded"; pod "b" "Running"].
Definition pass (seconds : Z) := reconcile parse max_utc ids ∅ job pods 0 (seconds * NANOS) "now".
Definition answers : list Answer := [AResponse 201 (Some Null); AResponse 200 (Some Null)].
Definition trace (seconds : Z) : list Event := default [] (fst <$> play answers (pass seconds)).
Definition early : list Event := Eval vm_compute in trace 10.
Definition late : list Event := Eval vm_compute in trace 60.

(** The object the late pass writes. *)
Definition ended : Value :=
  Eval vm_compute in default Null (head (omap (λ e, match e with EAsk (QPut _ u) _ => Some u | _ => None end) late)).

Lemma early_exec : ∃ x, exec (pass 10) early x.
Proof. eexists. apply (play_exec answers). vm_compute. reflexivity. Qed.
Lemma late_exec : ∃ x, exec (pass 60) late x.
Proof. eexists. apply (play_exec answers). vm_compute. reflexivity. Qed.

End JobDemo.

Lemma job_within_parallelism_witness :
  count_posts "/api/v1/namespaces/d/pods" JobDemo.early = 1%nat ∧ (count_posts "/api/v1/namespaces/d/pods" JobDemo.early ≤ 1)%nat ∧
  ENote (Requeue (50 * NANOS)) ∈ JobDemo.early.
Proof.
  split; [vm_compute; reflexivity|]. destruct JobDemo.early_exec as [x E].
  destruct (job_within_parallelism JobDemo.parse JobDemo.max_utc JobDemo.ids ∅ JobDemo.job JobDemo.pods 0 (10 * NANOS) "now" JobDemo.early x E)
    as (Hp & _ & _ & Hw).
  split; [apply (Hp "/api/v1/namespaces/d/pods")|].
  exact (Hw 0 60 (60 * NANOS) eq_refl eq_refl ltac:(unfold NANOS; lia) ltac:(discriminate)).
Defined.

Lemma job_verdict_final_witness : finished JobDemo.ended = true ∧ JobDemo.ended.["status"].["succeeded"] = num_nat 1.
Proof.
  destruct JobDemo.late_exec as [x E].
  destruct (job_verdict_final JobDemo.parse JobDemo.max_utc JobDemo.ids ∅ JobDemo.job JobDemo.pods 0 (60 * NANOS) "now" JobDemo.late x
    "/apis/batch/v1/namespaces/d/jobs/sum" JobDemo.ended (AResponse 200 (Some Null)) E) as (Hs & _ & Hv).
  - unfold JobDemo.late. right. right. left.
  - exact I.
  - split; [exact (proj1 Hv)|exact Hs].
Defined.
