(* ===== verification/DaemonSet.v ===== *)
(** * DaemonSets ([pkg/controller-manager/src/daemonset.rs])

    One pass over a DaemonSet: Pods that have ended are deleted (a failed one
    arms its node's backoff), every eligible node without a running Pod gets
    one, Pods on nodes that are not eligible any more are deleted, and the
    status is written when it changed.  The pass is a program over the API
    client with the context of [ReplicaSet]: open creates, backoff, recorded
    events.

    Proved: whatever the server answers, a pass asks for at most one Pod for a
    node, only for eligible nodes that have none, and deletes only Pods that
    have ended or whose node is not eligible; and a change of a node wakes
    every DaemonSet whose eligible nodes it changes. *)

From Stdlib Require Import ZArith Lia String Ascii.
From stdpp Require Import base gmap strings numbers option list.
From S2P Require Import Prelude Text BTree Json Backoff Informer Owned Client ReplicaSet.
Open Scope string_scope.
Open Scope kube_scope.
Open Scope Z_scope.

Module DaemonSet.

Definition is_pod_ready (pod : Value) : bool :=
  existsb (λ c, str_is c.["type"] "Ready" && str_is c.["status"] "True") (items pod.["status"].["conditions"]).

Definition node_matches_ds (node ds : Value) : bool :=
  match as_object ds.["spec"].["template"].["spec"].["nodeSelector"] with
  | None => true
  | Some sel =>
      forallb (λ kv, match Json.get node.["metadata"].["labels"] kv.1 with Some v => value_eqb v kv.2 | None => false end) sel
  end.

Definition pod_on_eligible (pod : Value) (eligible : list string) : bool :=
  match as_str pod.["spec"].["nodeName"] with Some n => str_in n eligible | None => false end.

Definition affected_daemonsets (d : Delta) (daemonsets : list Value) : list Key :=
  if match old_obj d, new_obj d with
     | Some old, Some new => value_eqb old.["metadata"].["labels"] new.["metadata"].["labels"]
     | _, _ => false
     end
  then []
  else omap key_of (List.filter (λ ds, existsb (λ node, node_matches_ds node ds) (sides d)) daemonsets).

(** The tolerations every daemon Pod has. *)
Definition DEFAULT_TOLERATIONS : list (string * string) :=
  [("node.kubernetes.io/not-ready", "NoExecute");
   ("node.kubernetes.io/unreachable", "NoExecute");
   ("node.kubernetes.io/disk-pressure", "NoSchedule");
   ("node.kubernetes.io/memory-pressure", "NoSchedule");
   ("node.kubernetes.io/pid-pressure", "NoSchedule");
   ("node.kubernetes.io/unschedulable", "NoSchedule");
   ("node.kubernetes.io/network-unavailable", "NoSchedule")].

Definition toleration_covers (key effect : string) (t : Value) : bool :=
  let tk := str_or "" t.["key"] in
  let te := str_or "" t.["effect"] in
  ((is_empty_str tk && str_is t.["operator"] "Exists") || str_eqb tk key) && (is_empty_str te || str_eqb te effect).

Definition add_toleration (arr : list Value) (ke : string * string) : list Value :=
  if existsb (toleration_covers ke.1 ke.2) arr then arr
  else (arr ++ [json_obj [("key", Str ke.1); ("operator", Str "Exists"); ("effect", Str ke.2)]])%list.

Definition daemon_spec (spec : Value) (node_name : string) : Value :=
  match spec with
  | Object s =>
      let s := map_insert s "nodeName" (Str node_name) in
      match map_get s "tolerations" with
      | None => Object (map_insert s "tolerations" (Array (fold_left add_toleration DEFAULT_TOLERATIONS [])))
      | Some (Array arr) => Object (map_insert s "tolerations" (Array (fold_left add_toleration DEFAULT_TOLERATIONS arr)))
      | Some _ => Object s
      end
  | _ => spec
  end.

Definition build_daemonset_pod (namespace ds_name ds_uid node_name : string) (ds : Value) (uuid : string) : Value :=
  let template := ds.["spec"].["template"] in
  let labels := template.["metadata"].["labels"] in
  json_obj [("apiVersion", Str "v1"); ("kind", Str "Pod");
    ("metadata", json_obj [("name", Str (ds_name ++ "-" ++ String.substring 0 5 uuid)); ("namespace", Str namespace);
       ("labels", if is_null labels then json_obj [] else labels);
       ("ownerReferences", Array [json_obj [("apiVersion", Str "apps/v1"); ("kind", Str "DaemonSet"); ("name", Str ds_name);
          ("uid", Str ds_uid); ("controller", Bool true); ("blockOwnerDeletion", Bool true)]])]);
    ("spec", daemon_spec template.["spec"] node_name);
    ("status", json_obj [("phase", Str "Pending")])].

Definition eligible_nodes (nodes : list Value) (ds : Value) : list string :=
  omap (λ n, as_str n.["metadata"].["name"]) (List.filter (λ n, node_matches_ds n ds) nodes).

Definition owned (ds_uid : string) (pods : list Value) : list Value :=
  List.filter (λ pod, existsb (λ r, str_is r.["uid"] ds_uid) (items pod.["metadata"].["ownerReferences"])) pods.
Definition terminal (ds_uid : string) (pods : list Value) : list Value := List.filter (λ p, ended p && negb (going p)) (owned ds_uid pods).
Definition active (ds_uid : string) (pods : list Value) : list Value := List.filter (λ p, negb (ended p) && negb (going p)) (owned ds_uid pods).

Definition nodes_with_pods (active : list Value) : list string := omap (λ p, as_str p.["spec"].["nodeName"]) active.

Definition ds_status (ds : Value) (eligible : list string) (active : list Value) : Value :=
  let desired := length eligible in
  let current := length (List.filter (λ p, pod_on_eligible p eligible) active) in
  let ready := length (List.filter (λ p, pod_on_eligible p eligible && is_pod_ready p) active) in
  json_obj [("desiredNumberScheduled", num_nat desired); ("currentNumberScheduled", num_nat current);
            ("updatedNumberScheduled", num_nat current); ("numberReady", num_nat ready); ("numberAvailable", num_nat ready);
            ("numberUnavailable", num_nat (desired - ready)); ("numberMisscheduled", num_nat (length active - current));
            ("observedGeneration", Num (PosInt (default 1 (as_u64 ds.["metadata"].["generation"]))))].

(** A node that runs a ready Pod has recovered. *)
Definition clear_recovered (ds_uid : string) (b : CreateBackoff) (active : list Value) : CreateBackoff :=
  fold_left (λ b pod, match as_str pod.["spec"].["nodeName"] with Some node => clear b (ds_uid ++ "/" ++ node) | None => b end)
    (List.filter is_pod_ready active) b.

Section Controller.
  Variables (uuid uuid_simple : nat → string) (instant : nat → Z) (stamp micro : nat → string).
  Variables (host : string) (show_error : ClientError → string).

#[local] Notation event := (event uuid_simple instant stamp micro host "daemonset-controller").

Definition arm (c : Ctx) (ds_uid : string) (pod : Value) (now : Z) : Ctx :=
  if str_is pod.["status"].["phase"] "Failed" then
    match as_str pod.["metadata"].["uid"] with
    | Some uid => with_backoff c (observe_failures (cx_backoff c) (ds_uid ++ "/" ++ str_or "" pod.["spec"].["nodeName"]) [uid] now).1
    | None => c
    end
  else c.

Fixpoint delete_terminal (c : Ctx) (namespace ds_uid : string) (ds : Value) (now : Z) (l : list Value) : Prog Ctx :=
  match l with
  | [] => Ret c
  | pod :: rest =>
      let node := str_or "" pod.["spec"].["nodeName"] in
      let c := arm c ds_uid pod now in
      let pod_name := str_or "" pod.["metadata"].["name"] in
      if is_empty_str pod_name then delete_terminal c namespace ds_uid ds now rest
      else
        c <== (if str_is pod.["status"].["phase"] "Failed"
               then event c ds "Warning" "FailedDaemonPod"
                      ("Found failed daemon pod " ++ namespace ++ "/" ++ pod_name ++ " on node " ++ node ++ ", will try to kill it")
               else Ret c) ;;
        r <== api_delete_observed (pod_path namespace pod) pod ;;
        c <== (match r with
               | Ok _ => event c ds "Normal" "SuccessfulDelete" ("Deleted pod: " ++ pod_name)
               | Err e => event c ds "Warning" "FailedDelete" ("Error deleting: " ++ show_error e)
               end) ;;
        delete_terminal c namespace ds_uid ds now rest
  end.

Definition tell_requeue {R} (r : option Z) (k : Prog R) : Prog R := match r with Some d => Tell (Requeue d) k | None => k end.

Fixpoint create_missing (c : Ctx) (namespace ds_name ds_uid : string) (ds : Value) (now : Z) (occupied eligible : list string) : Prog Ctx :=
  match eligible with
  | [] => Ret c
  | node :: rest =>
      if str_in node occupied then create_missing c namespace ds_name ds_uid ds now occupied rest
      else
        let '(ok, requeue) := allowed (cx_backoff c) (ds_uid ++ "/" ++ node) now in
        tell_requeue requeue
          (if negb ok then
             c <== event c ds "Normal" "BackingOff" ("Waiting before recreating a pod on node " ++ node ++ " after repeated failures") ;;
             create_missing c namespace ds_name ds_uid ds now occupied rest
           else
             let pod := build_daemonset_pod namespace ds_name ds_uid node ds (uuid (draws c)) in
             r <== create (cx_pending c) ("/api/v1/namespaces/" ++ namespace ++ "/pods") pod ;;
             c <== (match r.2 with
                    | Ok _ => event (with_pending (drawn c) r.1) ds "Normal" "SuccessfulCreate"
                                ("Created pod: " ++ str_or "?" pod.["metadata"].["name"])
                    | Err e => event (with_pending (drawn c) r.1) ds "Warning" "FailedCreate" ("Error creating: " ++ show_error e)
                    end) ;;
             create_missing c namespace ds_name ds_uid ds now occupied rest)
  end.

Fixpoint delete_misplaced (namespace : string) (eligible : list string) (l : list Value) : Prog unit :=
  match l with
  | [] => Ret tt
  | pod :: rest =>
      let node := str_or "" pod.["spec"].["nodeName"] in
      if negb (is_empty_str node) && negb (str_in node eligible) && negb (is_empty_str (str_or "" pod.["metadata"].["name"]))
      then _ <== api_delete_observed (pod_path namespace pod) pod ;; delete_misplaced namespace eligible rest
      else delete_misplaced namespace eligible rest
  end.

Definition reconcile_daemonset (c : Ctx) (namespace : string) (ds : Value) (all_pods nodes : list Value) :
    Prog (Ctx * result unit ClientError) :=
  match as_str ds.["metadata"].["name"] with
  | None => Ret (c, Err (Local "daemonset missing name"))
  | Some ds_name =>
      let ds_uid := str_or "" ds.["metadata"].["uid"] in
      if negb (is_null ds.["metadata"].["deletionTimestamp"]) then Ret (c, Ok tt)
      else
        let eligible := eligible_nodes nodes ds in
        let active := active ds_uid all_pods in
        let now := instant (draws c) in
        c <== delete_terminal (drawn c) namespace ds_uid ds now (terminal ds_uid all_pods) ;;
        c <== create_missing c namespace ds_name ds_uid ds now (nodes_with_pods active) eligible ;;
        _ <== delete_misplaced namespace eligible active ;;
        let c := with_backoff c (clear_recovered ds_uid (cx_backoff c) active) in
        let status := ds_status ds eligible active in
        if value_eqb ds.["status"] status then Ret (c, Ok tt)
        else
          match set_index ds "status" status with
          | None => Ret (c, Err (Local "panic"))
          | Some updated =>
              r <== api_update_status ("/apis/apps/v1/namespaces/" ++ namespace ++ "/daemonsets/" ++ ds_name) updated ;;
              Ret (c, match r with Ok _ => Ok tt | Err e => Err e end)
          end
  end.

(** [Controller::reconcile]: the nodes are read from a feed, which may not be
    synchronised. *)
Definition reconcile (c : Ctx) (object : Value) (children : list Value) (nodes : result (list Value) string) :
    Prog (Ctx * result unit ClientError) :=
  match nodes with
  | Err e => Ret (c, Err (Local e))
  | Ok nodes => reconcile_daemonset c (str_or "default" object.["metadata"].["namespace"]) object children nodes
  end.
End Controller.

End DaemonSet.
Import DaemonSet.

(** ** What a pass asks for *)

Lemma posts_count t path b : count_posts path t = 0%nat → ¬ posts t path b.
Proof.
  unfold count_posts. intros H (a & Hin). destruct (List.filter (is_post path) t) as [|e l] eqn:E; [|done].
  assert (In (EAsk (QPost path b) a) (List.filter (is_post path) t)) as Hf.
  { apply filter_In. split; [by apply list_elem_of_In|]. cbn. apply str_eqb_refl. }
  by rewrite E in Hf.
Qed.

Section Pass.
  Variables (uuid uuid_simple : nat → string) (instant : nat → Z) (stamp micro : nat → string).
  Variables (host : string) (show_error : ClientError → string).
  Implicit Types (c : Ctx) (ds : Value).

#[local] Notation event := (event uuid_simple instant stamp micro host).
#[local] Notation delete_terminal := (delete_terminal uuid_simple instant stamp micro host show_error).
#[local] Notation create_missing := (create_missing uuid uuid_simple instant stamp micro host show_error).
#[local] Notation reconcile := (reconcile uuid uuid_simple instant stamp micro host show_error).

(** What recording an event leaves alone: Pods, and creates of Pods. *)
Record quiet (ds : Value) (c : Ctx) (t : list Event) (c' : Ctx) : Prop := {
  q_filed : filed (cx_pending c');
  q_open x u : cx_pending c' !! create_group (pods_path ds) x u = cx_pending c !! create_group (pods_path ds) x u;
  q_posts b : ¬ posts t (pods_path ds) b }.

Lemma quiet_nil ds c : filed (cx_pending c) → quiet ds c [] c.
Proof. intros H. split; [done..|]. intros b (a & []%not_elem_of_nil). Qed.

Lemma quiet_app ds c1 t1 c2 t2 c3 : quiet ds c1 t1 c2 → quiet ds c2 t2 c3 → quiet ds c1 (t1 ++ t2) c3.
Proof.
  intros [F1 O1 P1] [F2 O2 P2]. split; [done|by intros; rewrite O2|]. intros b [H|H]%posts_app; [by apply P1 in H|by apply P2 in H].
Qed.

Lemma event_quiet comp c ds etype reason message t c' :
  exec (event comp c ds etype reason message) t c' → filed (cx_pending c) → quiet ds c t c' ∧ Forall (asks no_delete) t.
Proof.
  intros E Hf. destruct (event_exec _ _ _ _ _ _ _ _ _ _ _ _ _ E Hf) as (Hf' & Hc & Hd). split; [|done]. split; [done| |by intros b; apply posts_count].
  intros x u. unfold ReplicaSet.event in E. cbn zeta in E. destruct (cx_seen (drawn c) !! _) as [prev|].
  - destruct (_ <? _); [by apply exec_ret_inv in E as [_ ->]|].
    by apply exec_bind in E as (? & ? & ? & _ & [_ ->]%exec_ret_inv & _).
  - apply exec_bind in E as (t1 & t2 & [p r] & E1 & [_ ->]%exec_ret_inv & _). cbn. eapply create_other_group in E1; [exact E1|].
    intros H%(inj Some). unfold create_group in H. symmetry in H. set (tl := if is_empty_str u then x else u) in H. set (tl' := if is_empty_str _ then _ else _) in H.
    unfold pods_path in H. rewrite <- !str_app_assoc in H. exact (events_not_pods (namespace_of ds) ("/" ++ tl) ("/" ++ tl') H).
Qed.

Lemma arm_pending c u pod now : cx_pending (arm c u pod now) = cx_pending c.
Proof. unfold arm. destruct (str_is _ _); [|done]. by destruct (as_str _). Qed.

Lemma delete_terminal_exec ds uid now l : ∀ c t c',
  exec (delete_terminal c (namespace_of ds) uid ds now l) t c' → filed (cx_pending c) →
  quiet ds c t c' ∧ Forall (deletes_among (namespace_of ds) l) t.
Proof.
  induction l as [|pod l IH]; intros c t c' E Hf; cbn [DaemonSet.delete_terminal] in E.
  { apply exec_ret_inv in E as [-> ->]. split; [by apply quiet_nil|constructor]. }
  cbn zeta in E. set (c1 := arm c uid pod now) in *. assert (cx_pending c1 = cx_pending c) as E1 by apply arm_pending.
  assert (∀ t c2, quiet ds c1 t c2 → quiet ds c t c2) as Hcong by (intros t0 c2 [? Ho ?]; split; [done|by intros; rewrite Ho, E1|done]).
  assert (filed (cx_pending c1)) as Hf1 by by rewrite E1. assert (l ⊆ pod :: l) as Hs by set_solver.
  destruct (is_empty_str _).
  { destruct (IH _ _ _ E Hf1) as [Hq Hd]. split; [by apply Hcong|by eapply deletes_among_weaken]. }
  apply exec_bind in E as (t1 & t' & c2 & E2 & E & ->).
  assert (quiet ds c1 t1 c2 ∧ Forall (asks no_delete) t1) as [Q1 D1].
  { destruct (str_is _ _); [by eapply event_quiet|]. apply exec_ret_inv in E2 as [-> ->]. split; [by apply quiet_nil|constructor]. }
  apply exec_bind in E as (t2 & t'' & r & E3 & E & ->). destruct (delete_observed_exec _ _ _ _ E3) as (Ha & _ & Hp).
  apply exec_bind in E as (t3 & t4 & c3 & E4 & E & ->).
  assert (quiet ds c2 t3 c3 ∧ Forall (asks no_delete) t3) as [Q3 D3] by (destruct r; eapply event_quiet; [done|apply Q1|done|apply Q1]).
  destruct (IH _ _ _ E) as [Q4 D4]; [apply Q3|]. split.
  - apply Hcong. eapply quiet_app; [exact Q1|]. eapply quiet_app; [|by eapply quiet_app]. destruct Q1. split; [done..|].
    intros b. by apply posts_count.
  - rewrite !Forall_app. split_and!; [by apply no_delete_among| |by apply no_delete_among|by eapply deletes_among_weaken].
    eapply deletes_among_weaken; [|exact Ha]. set_solver.
Qed.

(** The group a DaemonSet's Pods are created in. *)
Definition ds_group (ds : Value) (uid : string) : string := create_group (pods_path ds) "" uid.

Lemma ds_built_group ds name uid node id : is_empty_str uid = false →
  group_of (pods_path ds) (build_daemonset_pod (namespace_of ds) name uid node ds id) = Some (ds_group ds uid).
Proof. intros Hu. unfold group_of, ds_group, create_group. cbn -[create_owner append pods_path]. change (create_owner _) with uid. by rewrite Hu. Qed.

(** Open creates are of Pods this pass has made. *)
Definition made_open (ds : Value) (uid : string) (c : Ctx) (made : list (string * Value)) : Prop :=
  ∀ p, cx_pending c !! ds_group ds uid = Some p → pc_body p ∈ made.*2.

Lemma create_made ds name uid node id c made t p r :
  is_empty_str uid = false → filed (cx_pending c) → made_open ds uid c made →
  let pod := build_daemonset_pod (namespace_of ds) name uid node ds id in
  exec (create (cx_pending c) (pods_path ds) pod) t (p, r) →
  (∀ b, posts t (pods_path ds) b → b ∈ (made ++ [(node, pod)])%list.*2) ∧
  (∀ q, p !! ds_group ds uid = Some q → pc_body q ∈ (made ++ [(node, pod)])%list.*2) ∧ filed p.
Proof.
  cbn zeta. intros Hu Hf Hm E. set (pod := build_daemonset_pod _ _ _ _ _ _) in *. pose proof (ds_built_group ds name uid node id Hu) as Hg. fold pod in Hg.
  destruct (create_step _ _ _ _ _ _ _ Hg E) as (Hp & Hpend & _). set (at_ := at_stake _ _ _ _) in *.
  assert (pc_body at_ ∈ (made ++ [(node, pod)])%list.*2) as Hat.
  { rewrite fmap_app, elem_of_app. subst at_. unfold at_stake. destruct (cx_pending c !! ds_group ds uid) as [q|] eqn:Eq; [left; by apply Hm|right]. cbn. left. }
  split_and!; [|..|by eapply create_filed].
  - intros b (_ & -> & _)%Hp. done.
  - intros q Hq. destruct Hpend as [->| ->].
    + rewrite lookup_insert_eq in Hq. by injection Hq as <-.
    + by rewrite lookup_delete_eq in Hq.
Qed.

Lemma tell_requeue_exec {R} r (k : Prog R) t x :
  exec (tell_requeue r k) t x →
  ∃ notes t', Forall (λ e, match e with ENote _ => True | _ => False end) notes ∧ t = (notes ++ t')%list ∧ exec k t' x.
Proof.
  unfold tell_requeue. destruct r as [z|]; [|intros E; by exists [], t].
  intros (t' & -> & E)%exec_tell_inv. exists [ENote (Requeue z)], t'. split_and!; [by repeat constructor|done|exact E].
Qed.

Lemma create_missing_exec ds name uid now occupied eligible : ∀ c made t c',
  exec (create_missing c (namespace_of ds) name uid ds now occupied eligible) t c' →
  is_empty_str uid = false → filed (cx_pending c) → made_open ds uid c made →
  ∃ new, new.*1 `sublist_of` List.filter (λ n, negb (str_in n occupied)) eligible ∧
    (∀ node b, (node, b) ∈ new → ∃ id, b = build_daemonset_pod (namespace_of ds) name uid node ds id) ∧
    (∀ b, posts t (pods_path ds) b → b ∈ (made ++ new)%list.*2) ∧ Forall (asks no_delete) t ∧ filed (cx_pending c').
Proof.
  induction eligible as [|node rest IH]; intros c made t c' E Hu Hf Hm; cbn [DaemonSet.create_missing] in E.
  { apply exec_ret_inv in E as [-> ->]. exists []. split_and!; [done| |intros b (a & []%not_elem_of_nil)|constructor|done].
    intros node b []%not_elem_of_nil. }
  cbn [List.filter]. destruct (str_in node occupied); cbn [negb]; [by eapply IH|].
  destruct (allowed _ _ _) as [ok requeue].
  apply tell_requeue_exec in E as (notes & t' & Hnotes & -> & E').
  assert (∀ b, ¬ posts notes (pods_path ds) b) as Hnp by (intros b; by apply notes_no_post).
  assert (Forall (asks no_delete) notes) as Hnd by (eapply Forall_impl; [exact Hnotes|]; by intros []).
  destruct ok; cbn [negb] in E'.
  - apply exec_bind in E' as (t1 & t2 & [p r] & E1 & E2 & ->). set (pod := build_daemonset_pod _ _ _ _ _ _) in *.
    pose proof (emits_create _ _ _ _ _ E1) as Hd1. fold (pods_path ds) in E1.
    destruct (create_made ds name uid node _ c made t1 p r Hu Hf Hm E1) as (Hp1 & Ho1 & Hf1). fold pod in Hp1, Ho1.
    apply exec_bind in E2 as (t3 & t4 & c2 & E2 & E3 & ->). cbn [fst snd] in E2. set (c1 := with_pending (drawn c) p) in *.
    assert (quiet ds c1 t3 c2 ∧ Forall (asks no_delete) t3) as [[Fq Oq Pq] Dq] by (destruct r; by eapply event_quiet).
    destruct (IH c2 (made ++ [(node, pod)])%list _ _ E3 Hu Fq) as (new & Hsub & Hb & Hp & Hd & Hf').
    { intros q Hq. unfold ds_group in Hq. rewrite Oq in Hq. by apply Ho1. }
    exists ((node, pod) :: new). split_and!; [by constructor| | | |done].
    + intros n b [[= -> ->]|Hin]%elem_of_cons; [by eexists|by eapply Hb].
    + rewrite <- app_assoc in Hp. cbn [app] in Hp.
      intros b Hpb. rewrite !posts_app in Hpb. destruct Hpb as [H|[H|[H|H]]]; [by apply Hnp in H| |by apply Pq in H|by apply Hp].
      apply Hp1 in H. rewrite fmap_app, elem_of_app in H. rewrite fmap_app, elem_of_app. destruct H as [H|H]; [by left|right].
      cbn in *. apply list_elem_of_singleton in H as ->. left.
    + rewrite !Forall_app. by split_and!.
  - apply exec_bind in E' as (t1 & t2 & c2 & E1 & E2 & ->). destruct (event_quiet _ _ _ _ _ _ _ _ E1 Hf) as [[Fq Oq Pq] Dq].
    destruct (IH c2 made _ _ E2 Hu Fq) as (new & Hsub & Hb & Hp & Hd & Hf').
    { intros q Hq. unfold ds_group in Hq. rewrite Oq in Hq. by apply Hm. }
    exists new. split_and!; [by constructor|done| |rewrite !Forall_app; by split_and!|done].
    intros b Hpb. rewrite !posts_app in Hpb. destruct Hpb as [H|[H|H]]; [by apply Hnp in H|by apply Pq in H|by apply Hp].
Qed.

(** A Pod of the DaemonSet whose node it is not eligible for any more. *)
Definition misplaced (eligible : list string) (pod : Value) : bool :=
  let node := str_or "" pod.["spec"].["nodeName"] in negb (is_empty_str node) && negb (str_in node eligible).

Lemma delete_misplaced_exec ns eligible l : ∀ t x,
  exec (delete_misplaced ns eligible l) t x → (∀ pa b, ¬ posts t pa b) ∧ Forall (deletes_among ns (List.filter (misplaced eligible) l)) t.
Proof.
  induction l as [|pod l IH]; intros t x E; cbn [delete_misplaced] in E.
  { apply exec_ret_inv in E as [-> _]. split; [intros pa b (a & []%not_elem_of_nil)|constructor]. }
  cbn zeta in E. fold (misplaced eligible pod) in E. cbn [List.filter]. destruct (misplaced eligible pod); cbn [andb] in E; [|by eapply IH].
  set (l' := List.filter _ l) in *. assert (l' ⊆ pod :: l') as Hs by set_solver. destruct (negb _).
  - apply exec_bind in E as (t1 & t2 & r & E1 & E2 & ->). destruct (IH _ _ E2) as [Hp Hd].
    destruct (delete_observed_exec _ _ _ _ E1) as (Ha & _ & _). split.
    + intros pa b [H|H]%posts_app; [by apply (delete_observed_posts _ _ _ _ _ _ E1) in H|by apply Hp in H].
    + apply Forall_app. split; [eapply deletes_among_weaken; [|exact Ha]|by eapply deletes_among_weaken]; set_solver.
  - destruct (IH _ _ E) as [Hp Hd]. split; [done|by eapply deletes_among_weaken].
Qed.


End Pass.

(** a change of a node wakes every DaemonSet it matters to.  If a delta of
    the node feed does not wake a DaemonSet, the node before it and the node
    after it are both among the DaemonSet's eligible nodes or both not, a
    node that is not there being not eligible. *)
Theorem node_wakes_daemonsets d daemonsets ds k :
  ds ∈ daemonsets → key_of ds = Some k → k ∉ affected_daemonsets d daemonsets →
  (∀ o, old_obj d = Some o → no_floats o.["metadata"].["labels"] = true) →
  from_option (λ n, node_matches_ds n ds) false (old_obj d) = from_option (λ n, node_matches_ds n ds) false (new_obj d).
Proof.
  intros Hin Hk Hno Hfl. unfold affected_daemonsets in Hno.
  assert (k ∉ omap key_of (List.filter (λ ds, existsb (λ node, node_matches_ds node ds) (sides d)) daemonsets) →
    existsb (λ node, node_matches_ds node ds) (sides d) = false) as Hsides.
  { intros H. apply not_true_iff_false. intros Hs. apply H. apply list_elem_of_omap. exists ds. split; [|done]. by apply elem_of_filter_b. }
  destruct (old_obj d) as [o|] eqn:Eo, (new_obj d) as [n|] eqn:En; cbn [from_option]; [|..|done].
  - destruct (value_eqb _ _) eqn:Ev.
    + apply value_eqb_eq in Ev; [|by eapply Hfl]. unfold node_matches_ds. by rewrite Ev.
    + specialize (Hsides Hno). unfold sides in Hsides. rewrite Eo, En in Hsides. cbn in Hsides. destruct (node_matches_ds o ds); [done|].
      by destruct (node_matches_ds n ds).
  - specialize (Hsides Hno). unfold sides in Hsides. rewrite Eo, En in Hsides. cbn in Hsides. by destruct (node_matches_ds o ds).
  - specialize (Hsides Hno). unfold sides in Hsides. rewrite Eo, En in Hsides. cbn in Hsides. by destruct (node_matches_ds n ds).
Qed.

(** *** Witnesses *)

Module DsDemo.

Definition ds : Value :=
  json_obj [("metadata", json_obj [("name", Str "net"); ("namespace", Str "d"); ("uid", Str "u-ds")]);
            ("spec", json_obj [("template", json_obj [("spec", json_obj [("nodeSelector", json_obj [("zone", Str "a")])])])])].

Definition node (n zone : string) : Value :=
  json_obj [("metadata", json_obj [("name", Str n); ("namespace", Str ""); ("uid", Str n); ("labels", json_obj [("zone", Str zone)])])].

Definition pod (n phase on : string) : Value :=
  json_obj [("metadata", json_obj [("name", Str n); ("uid", Str n); ("resourceVersion", Str "1");
              ("ownerReferences", Array [json_obj [("uid", Str "u-ds")]])]);
            ("spec", json_obj [("nodeName", Str on)]); ("status", json_obj [("phase", Str phase)])].

(** n1 has its Pod, n2 needs one, n3 has one it should not. *)
Definition nodes : list Value := [node "n1" "a"; node "n2" "a"; node "n3" "b"].
Definition pods : list Value := [pod "p1" "Running" "n1"; pod "p3" "Running" "n3"].

Definition ctx : Ctx := mkCtx ∅ (with_params NANOS (900 * NANOS)) ∅ 0.
Definition ids (n : nat) : string := "0123456789abcdef".
Definition no_text (n : nat) : string := "".
Definition clock (n : nat) : Z := Z.of_nat n.
Definition show_err (e : ClientError) : string := "refused".
Definition pass := reconcile ids ids clock no_text no_text "h" show_err ctx ds pods (Ok nodes).
Definition answers : list Answer := [AResponse 201 (Some Null); AResponse 201 (Some Null); AResponse 200 None; AResponse 200 (Some Null)].
Definition trace : list Event := Eval vm_compute in default [] (fst <$> play answers pass).

Lemma ds_pass_exec : ∃ x, exec pass trace x.
Proof. eexists. apply (play_exec answers). vm_compute. reflexivity. Qed.

(** Two failed Pods of one node, not gone yet, are counted again and again:
    each observation forgets the other. *)
Example failures_counted_again :
  let see c u := arm c "u-ds" (pod u "Failed" "n1") 0 in
  let count c := failures <$> inner (cx_backoff c) !! "u-ds/n1" in
  count (see (see ctx "x") "y") = Some 2 ∧ count (see (see (see (see ctx "x") "y") "x") "y") = Some 4.
Proof. split; vm_compute; reflexivity. Qed.

End DsDemo.


Lemma node_wakes_daemonsets_witness :
  let d := mkDelta (Some (DsDemo.node "n1" "a")) (Some (DsDemo.node "n1" "a")) ∅ in
  affected_daemonsets d [DsDemo.ds] = [] ∧
  from_option (λ n, node_matches_ds n DsDemo.ds) false (old_obj d) = from_option (λ n, node_matches_ds n DsDemo.ds) false (new_obj d).
Proof.
  cbn zeta. split; [reflexivity|]. apply (node_wakes_daemonsets _ [DsDemo.ds] _ (mkKey "d" "net" "u-ds")).
  - left.
  - reflexivity.
  - change (affected_daemonsets _ _) with (@nil Key). apply not_elem_of_nil.
  - cbn [old_obj]. intros o [= <-]. reflexivity.
Defined.
