(* ===== verification/VolumeBinder.v ===== *)
(** * Binding volumes to claims ([pkg/controller-manager/src/persistentvolume.rs])

    The controller of PersistentVolumeClaims and PersistentVolumes: it
    resolves a claim's class, picks the volume that fits with the least
    waste, writes the binding (the volume first, then the claim), hands a
    claim no volume fits to its provisioner, and keeps both objects alive by
    finalizers while they are in use.  A pass is a program over the API
    client with the context of [ReplicaSet] (open creates, recorded events);
    what it reads from the informers (volumes, classes, Pods) is an argument.

    Proved: the volume picked satisfies the claim and is the best of those
    that do; a claim is given a volume only after that volume was written to
    name it, or named it already, and a volume is never taken from another
    claim; a volume is reported Released, and its protection lifted, only when
    the claim it names is gone. *)

From Stdlib Require Import ZArith Lia String Ascii.
From stdpp Require Import base gmap strings numbers option list.
From S2P Require Import Prelude Text BTree Json F64 Quantity Selector Backoff Client ReplicaSet.
Open Scope string_scope.
Open Scope kube_scope.
Open Scope Z_scope.

Module VolumeBinder.

Definition ANN_STORAGE_PROVISIONER : string := "volume.kubernetes.io/storage-provisioner".
Definition ANN_STORAGE_PROVISIONER_BETA : string := "volume.beta.kubernetes.io/storage-provisioner".
Definition ANN_SELECTED_NODE : string := "volume.kubernetes.io/selected-node".
Definition ANN_PROVISIONED_BY : string := "pv.kubernetes.io/provisioned-by".
Definition ANN_BIND_COMPLETED : string := "pv.kubernetes.io/bind-completed".
Definition ANN_BOUND_BY_CONTROLLER : string := "pv.kubernetes.io/bound-by-controller".
Definition ANN_IS_DEFAULT_CLASS : string := "storageclass.kubernetes.io/is-default-class".
Definition ANN_IS_DEFAULT_CLASS_BETA : string := "storageclass.beta.kubernetes.io/is-default-class".
Definition PVC_PROTECTION : string := "kubernetes.io/pvc-protection".
Definition PV_PROTECTION : string := "kubernetes.io/pv-protection".
Definition NO_PROVISIONER : string := "kubernetes.io/no-provisioner".

(** ** Choosing *)

Definition is_default_class (c : Value) : bool :=
  let a := c.["metadata"].["annotations"] in
  str_is a.[ANN_IS_DEFAULT_CLASS] "true" || str_is a.[ANN_IS_DEFAULT_CLASS_BETA] "true".

(** The last of a stable sort by creation time. *)
Definition newer (best : option Value) (c : Value) : option Value :=
  match best with
  | Some b => if str_ltb (created c) (created b) then Some b else Some c
  | None => Some c
  end.

(** The classes are given in the order their map is walked. *)
Definition default_class_name (classes : list (string * Value)) : option string :=
  fold_left newer (List.filter is_default_class (snd <$> classes)) None ≫= λ c, as_str c.["metadata"].["name"].

Definition nonempty (s : string) : option string := if is_empty_str s then None else Some s.

Definition claim_class (pvc : Value) (default_class : option string) : option string :=
  match as_str pvc.["spec"].["storageClassName"] with
  | Some c => nonempty c
  | None =>
      match as_str pvc.["metadata"].["annotations"].["volume.beta.kubernetes.io/storage-class"] with
      | Some c => nonempty c
      | None => default_class
      end
  end.

Definition has_finalizer (obj : Value) (finalizer : string) : bool :=
  existsb (λ f, str_is f finalizer) (items obj.["metadata"].["finalizers"]).

Definition mounts (claim : string) (p : Value) : bool :=
  existsb (λ v, str_is v.["persistentVolumeClaim"].["claimName"] claim) (items p.["spec"].["volumes"]).

Definition pod_using_claim (pods : list Value) (claim : string) : option string :=
  head (List.filter (mounts claim)
          (List.filter (λ p, negb (str_in (str_or "" p.["status"].["phase"]) ["Succeeded"; "Failed"])) pods))
  ≫= λ p, as_str p.["metadata"].["name"].

Definition modes (v : Value) : list string := omap as_str (items v.["spec"].["accessModes"]).

Definition capacity (pv : Value) : Z := parse_bytes (str_or "0" pv.["spec"].["capacity"].["storage"]).
Definition requested (pvc : Value) : Z := parse_bytes (str_or "0" pvc.["spec"].["resources"].["requests"].["storage"]).

Definition volume_satisfies (pv pvc : Value) (namespace claim_name : string) (class : option string) : bool :=
  let ref_ns := str_or "" pv.["spec"].["claimRef"].["namespace"] in
  let ref_name := str_or "" pv.["spec"].["claimRef"].["name"] in
  let prebound_to_us := str_eqb ref_ns namespace && str_eqb ref_name claim_name in
  let phase := str_or "" pv.["status"].["phase"] in
  if negb (is_null pv.["metadata"].["deletionTimestamp"]) then false
  else if negb (is_empty_str ref_name) && negb prebound_to_us then false
  else if negb prebound_to_us && negb (str_in phase [""; "Pending"; "Available"]) then false
  else if negb (str_eqb (str_or "" pv.["spec"].["storageClassName"]) (default "" class)) then false
  else if negb (str_eqb (str_or "Filesystem" pvc.["spec"].["volumeMode"]) (str_or "Filesystem" pv.["spec"].["volumeMode"])) then false
  else if negb (forallb (λ m, str_in m (modes pv)) (modes pvc)) then false
  else if capacity pv <? requested pvc then false
  else
    let selector := pvc.["spec"].["selector"] in
    if negb (is_null selector) && negb (LabelSelector.matches selector pv.["metadata"].["labels"]) then false else true.

Definition prebound (pv : Value) (namespace claim_name : string) : bool :=
  str_is pv.["spec"].["claimRef"].["name"] claim_name && str_is pv.["spec"].["claimRef"].["namespace"] namespace.

Definition better (best : option (Value * Z * bool)) (size : Z) (pre : bool) : bool :=
  match best with
  | None => true
  | Some (_, best_size, best_pre) =>
      match pre, best_pre with
      | true, false => true
      | false, true => false
      | _, _ => size <? best_size
      end
  end.

Definition consider (pvc : Value) (namespace claim_name : string) (class : option string) (best : option (Value * Z * bool)) (pv : Value) :
    option (Value * Z * bool) :=
  if negb (volume_satisfies pv pvc namespace claim_name class) then best
  else if better best (capacity pv) (prebound pv namespace claim_name)
       then Some (pv, capacity pv, prebound pv namespace claim_name) else best.

Definition pick_volume (pvs : list Value) (pvc : Value) (namespace claim_name : string) (class : option string) : option Value :=
  (λ b, b.1.1) <$> fold_left (consider pvc namespace claim_name class) pvs None.

Definition volume_named (pvc : Value) : option string := as_str pvc.["spec"].["volumeName"] ≫= nonempty.

Definition needs_choice (pvs : list Value) (pvc : Value) (namespace claim_name : string) (class : option string) : bool :=
  if (if volume_named pvc then true else false) || negb (is_null pvc.["metadata"].["deletionTimestamp"]) then false
  else match pick_volume pvs pvc namespace claim_name class with
       | Some pv => negb (prebound pv namespace claim_name)
       | None => false
       end.

(** ** Writing *)

Definition Outcome : Type := Prog (Ctx * result unit ClientError).

(** [?] on a call whose answer is not used. *)
Definition then_ok {A} (c : Ctx) (p : Prog (result A ClientError)) : Outcome :=
  r <== p ;; Ret (c, match r with Ok _ => Ok tt | Err e => Err e end).

Definition claim_path (namespace name : string) : string := "/api/v1/namespaces/" ++ namespace ++ "/persistentvolumeclaims/" ++ name.
Definition volume_path (name : string) : string := "/api/v1/persistentvolumes/" ++ name.

(** An object's identity and revision, which a patch carries. *)
Definition observed (obj : Value) : list (string * Value) :=
  [("uid", obj.["metadata"].["uid"]); ("resourceVersion", obj.["metadata"].["resourceVersion"])].

Definition set_claim_phase (c : Ctx) (path : string) (pvc : Value) (phase : string) : Outcome :=
  if str_is pvc.["status"].["phase"] phase then Ret (c, Ok tt)
  else match set_index2 pvc "status" "phase" (Str phase) with
       | None => Ret (c, Err (Local "panic"))
       | Some updated => then_ok c (api_update_status path updated)
       end.

Definition finalizers_patch (obj : Value) (l : list Value) : Value :=
  json_obj [("metadata", json_obj (observed obj ++ [("finalizers", Array l)])%list)].

Definition add_finalizer (c : Ctx) (path : string) (obj : Value) (finalizer : string) : Outcome :=
  then_ok c (api_patch path (finalizers_patch obj (items obj.["metadata"].["finalizers"] ++ [Str finalizer])%list)).

Definition remove_finalizer (c : Ctx) (path : string) (obj : Value) (finalizer : string) : Outcome :=
  if negb (has_finalizer obj finalizer) then Ret (c, Ok tt)
  else then_ok c (api_patch_merge path
         (finalizers_patch obj (List.filter (λ f, negb (str_is f finalizer)) (items obj.["metadata"].["finalizers"])))).

Section Controller.
  Variables (uuid_simple : nat → string) (instant : nat → Z) (stamp micro : nat → string) (host : string).

#[local] Notation event := (event uuid_simple instant stamp micro host "persistentvolume-controller").

Definition bound_status (pvc pv : Value) (phase_now cap_now : string) : option Value :=
  u ← (if is_object pvc.["status"] then Some pvc else set_index pvc "status" (json_obj []));
  u ← set_index2 u "status" "phase" (Str "Bound");
  u ← set_index2 u "status" "accessModes" (Array (items pv.["spec"].["accessModes"]));
  if is_empty_str cap_now || negb (str_eqb phase_now "Bound")
  then set_index2 u "status" "capacity" (json_obj [("storage", Str (str_or "" pv.["spec"].["capacity"].["storage"]))])
  else Some u.

Definition set_bound_status (c : Ctx) (namespace name : string) (pvc pv : Value) : Outcome :=
  let phase_now := str_or "" pvc.["status"].["phase"] in
  let cap_now := str_or "" pvc.["status"].["capacity"].["storage"] in
  if str_eqb phase_now "Bound" && negb (is_empty_str cap_now) then Ret (c, Ok tt)
  else
    match bound_status pvc pv phase_now cap_now with
    | None => Ret (c, Err (Local "panic"))
    | Some updated =>
        r <== api_update_status (claim_path namespace name) updated ;;
        match r with
        | Err e => Ret (c, Err e)
        | Ok _ =>
            if negb (str_eqb phase_now "Bound") then
              c <== event c pvc "Normal" "Bound" ("Claim bound to volume " ++ str_or "" pv.["metadata"].["name"]) ;; Ret (c, Ok tt)
            else Ret (c, Ok tt)
        end
    end.

Definition claim_ref (namespace name uid : string) : Value :=
  json_obj [("kind", Str "PersistentVolumeClaim"); ("apiVersion", Str "v1"); ("namespace", Str namespace); ("name", Str name); ("uid", Str uid)].

(** The volume as it is written: it names the claim, and who bound it. *)
Definition bound_volume (pv : Value) (namespace name uid : string) : option Value :=
  u ← set_index2 pv "spec" "claimRef" (claim_ref namespace name uid);
  match as_object u.["metadata"].["annotations"] with
  | Some m => set_index2 u "metadata" "annotations" (Object (map_insert m ANN_BOUND_BY_CONTROLLER (Str "yes")))
  | None => set_index2 u "metadata" "annotations" (json_obj [(ANN_BOUND_BY_CONTROLLER, Str "yes")])
  end.

Definition bind_patch (pvc : Value) (pv_name : string) : Value :=
  json_obj [("metadata", json_obj (observed pvc ++
              [("annotations", json_obj [(ANN_BIND_COMPLETED, Str "yes"); (ANN_BOUND_BY_CONTROLLER, Str "yes")])])%list);
            ("spec", json_obj [("volumeName", Str pv_name)])].

Definition pre_bound (pv : Value) (namespace name uid : string) : bool :=
  str_is pv.["spec"].["claimRef"].["namespace"] namespace && str_is pv.["spec"].["claimRef"].["name"] name
  && negb (is_empty_str uid) && str_is pv.["spec"].["claimRef"].["uid"] uid.

(** The second half: the claim names the volume. *)
Definition bind_claim (c : Ctx) (namespace name : string) (pvc pv : Value) (pv_name : string) : Outcome :=
  r <== api_patch (claim_path namespace name) (bind_patch pvc pv_name) ;;
  match r with
  | Err e => Ret (c, Err e)
  | Ok bound =>
      if str_is bound.["kind"] "Status" then Ret (c, Err (Local "claim not bound"))
      else
        x <== set_bound_status c namespace name bound pv ;;
        match x.2 with
        | Err e => Ret (x.1, Err e)
        | Ok _ => c <== event x.1 pvc "Normal" "ProvisioningSucceeded" ("Successfully bound volume " ++ pv_name) ;; Ret (c, Ok tt)
        end
  end.

Definition bind (c : Ctx) (namespace name : string) (pvc pv : Value) : Outcome :=
  match as_str pv.["metadata"].["name"] with
  | None => Ret (c, Err (Local "volume has no name"))
  | Some pv_name =>
      let uid := str_or "" pvc.["metadata"].["uid"] in
      match bound_volume pv namespace name uid with
      | None => Ret (c, Err (Local "panic"))
      | Some volume =>
          if pre_bound pv namespace name uid then bind_claim c namespace name pvc pv pv_name
          else
            r <== api_update (volume_path pv_name) volume ;;
            match r with
            | Err e => Ret (c, Err e)
            | Ok _ => bind_claim c namespace name pvc pv pv_name
            end
      end
  end.

(** A claim that names its volume. *)
Definition sync_bound_claim (c : Ctx) (namespace name : string) (pvc : Value) (volume_name : string) : Outcome :=
  let path := claim_path namespace name in
  r <== api_get (volume_path volume_name) ;;
  match r with
  | Err e => Ret (c, Err e)
  | Ok (status, body) =>
      if status =? 404 then
        c <== event c pvc "Warning" "ClaimLost" ("Bound claim has lost its PersistentVolume " ++ volume_name) ;;
        set_claim_phase c path pvc "Lost"
      else if is_error status then Ret (c, Err (Refused status))
      else
        match body with
        | None => Ret (c, Err Unreadable)
        | Some pv =>
            let ref_ns := str_or "" pv.["spec"].["claimRef"].["namespace"] in
            let ref_name := str_or "" pv.["spec"].["claimRef"].["name"] in
            let ref_uid := str_or "" pv.["spec"].["claimRef"].["uid"] in
            let claim_uid := str_or "" pvc.["metadata"].["uid"] in
            if negb (is_empty_str ref_name) && (negb (str_eqb ref_ns namespace) || negb (str_eqb ref_name name)) then
              c <== event c pvc "Warning" "ClaimMisbound"
                      ("Volume " ++ volume_name ++ " is bound to " ++ ref_ns ++ "/" ++ ref_name ++ ", not to this claim") ;;
              set_claim_phase c path pvc "Lost"
            else if is_empty_str ref_name || (is_empty_str ref_uid && negb (is_empty_str claim_uid)) then
              bind c namespace name pvc pv
            else if negb (is_empty_str claim_uid) && negb (str_eqb ref_uid claim_uid) then
              c <== event c pvc "Warning" "ClaimMisbound"
                      ("Volume " ++ volume_name ++ " is bound to an earlier claim of this name (uid " ++ ref_uid ++ ")") ;;
              set_claim_phase c path pvc "Lost"
            else set_bound_status c namespace name pvc pv
        end
  end.

Definition provisioner_patch (pvc : Value) (provisioner : string) : Value :=
  json_obj [("metadata", json_obj (observed pvc ++
    [("annotations", json_obj [(ANN_STORAGE_PROVISIONER, Str provisioner); (ANN_STORAGE_PROVISIONER_BETA, Str provisioner)])])%list)].

(** A double quote. *)
Definition quote : string := String (ascii_of_nat 34) "".

(** Nothing matched: the class's provisioner is told, or the claim waits. *)
Definition provision (c : Ctx) (path : string) (pvc : Value) (class : option Value) : Outcome :=
  match class with
  | None =>
      c <== event c pvc "Warning" "FailedBinding" "no persistent volumes available for this claim and no storage class is set" ;;
      set_claim_phase c path pvc "Pending"
  | Some class =>
      let provisioner := str_or "" class.["provisioner"] in
      if is_empty_str provisioner || str_eqb provisioner NO_PROVISIONER then
        c <== event c pvc "Normal" "WaitForFirstConsumer"
                ("storage class " ++ quote ++ str_or "" class.["metadata"].["name"] ++ quote
                 ++ " provisions nothing; waiting for an administrator to create a matching PersistentVolume") ;;
        set_claim_phase c path pvc "Pending"
      else
        let wffc := str_is class.["volumeBindingMode"] "WaitForFirstConsumer" in
        let selected : option string := as_str pvc.["metadata"].["annotations"].[ANN_SELECTED_NODE] ≫= nonempty in
        if wffc && (if selected then false else true) then
          c <== event c pvc "Normal" "WaitForFirstConsumer" "waiting for first consumer to be created before binding" ;;
          set_claim_phase c path pvc "Pending"
        else
          let waiting (c : Ctx) : Outcome :=
            c <== event c pvc "Normal" "ExternalProvisioning"
                    ("Waiting for a volume to be created either by the external provisioner '" ++ provisioner
                     ++ "' or manually by the system administrator") ;;
            set_claim_phase c path pvc "Pending" in
          if str_is pvc.["metadata"].["annotations"].[ANN_STORAGE_PROVISIONER] provisioner then waiting c
          else
            r <== api_patch path (provisioner_patch pvc provisioner) ;;
            match r with Err e => Ret (c, Err e) | Ok _ => waiting c end
  end.

Fixpoint lookup_class (classes : list (string * Value)) (name : string) : option Value :=
  match classes with
  | [] => None
  | (n, v) :: rest => if str_eqb n name then Some v else lookup_class rest name
  end.

(** One claim.  The volumes are a list of the pass's own: what the code
    writes into it after a bind is read by nobody. *)
Definition sync_claim (c : Ctx) (namespace : string) (pvc : Value) (pvs : list Value) (classes : list (string * Value))
    (default_class : option string) (pods : list Value) : Outcome :=
  match as_str pvc.["metadata"].["name"] with
  | None => Ret (c, Err (Local "claim has no name"))
  | Some name =>
      let path := claim_path namespace name in
      if negb (is_null pvc.["metadata"].["deletionTimestamp"]) then
        match pod_using_claim pods name with
        | Some user =>
            c <== event c pvc "Normal" "VolumeInUse" ("Claim is in use by pod " ++ user ++ "; deletion is deferred") ;; Ret (c, Ok tt)
        | None => remove_finalizer c path pvc PVC_PROTECTION
        end
      else if negb (has_finalizer pvc PVC_PROTECTION) then add_finalizer c path pvc PVC_PROTECTION
      else
        let class_name := claim_class pvc default_class in
        match as_str pvc.["spec"].["storageClassName"], class_name with
        | None, Some cn =>
            then_ok c (api_patch path (json_obj [("metadata", json_obj (observed pvc)); ("spec", json_obj [("storageClassName", Str cn)])]))
        | _, _ =>
            match volume_named pvc with
            | Some volume_name => sync_bound_claim c namespace name pvc volume_name
            | None =>
                match pick_volume pvs pvc namespace name class_name with
                | Some pv => bind c namespace name pvc pv
                | None => provision c path pvc (class_name ≫= lookup_class classes)
                end
            end
        end
  end.

(** Whether a claim is there: only a 404 says it is not. *)
Definition claim_exists (namespace name : string) : Prog bool :=
  r <== api_get (claim_path namespace name) ;;
  Ret match r with Ok (status, _) => negb (status =? 404) | Err _ => true end.

Definition bound_claim (pv : Value) : option (string * string) :=
  match as_str pv.["spec"].["claimRef"].["namespace"], as_str pv.["spec"].["claimRef"].["name"] with
  | Some ns, Some cn => if negb (is_empty_str ns) && negb (is_empty_str cn) then Some (ns, cn) else None
  | _, _ => None
  end.

(** What is said about a volume whose claim has just gone. *)
Definition report_released (c : Ctx) (pv : Value) : Prog Ctx :=
  let policy := str_or "Retain" pv.["spec"].["persistentVolumeReclaimPolicy"] in
  let provisioned_by := str_or "" pv.["metadata"].["annotations"].[ANN_PROVISIONED_BY] in
  if str_eqb policy "Delete" then
    if negb (is_empty_str provisioned_by) then
      event c pv "Normal" "VolumeDelete" ("Claim released; deletion is up to the provisioner '" ++ provisioned_by ++ "'")
    else event c pv "Warning" "VolumeFailedDelete"
           "reclaim policy is Delete but no provisioner is recorded on this volume; it will stay Released until deleted by hand"
  else if str_eqb policy "Recycle" then
    event c pv "Warning" "VolumeFailedRecycle" "the Recycle reclaim policy is removed upstream; treating as Retain"
  else Ret c.

Definition sync_volume (c : Ctx) (pv : Value) : Outcome :=
  match as_str pv.["metadata"].["name"] with
  | None => Ret (c, Err (Local "volume has no name"))
  | Some name =>
      let path := volume_path name in
      if negb (is_null pv.["metadata"].["deletionTimestamp"]) then
        still_bound <== match bound_claim pv with Some (ns, cn) => claim_exists ns cn | None => Ret false end ;;
        if (still_bound : bool) then
          c <== event c pv "Normal" "VolumeInUse" "Volume is still bound to a claim; deletion is deferred" ;; Ret (c, Ok tt)
        else remove_finalizer c path pv PV_PROTECTION
      else if negb (has_finalizer pv PV_PROTECTION) then add_finalizer c path pv PV_PROTECTION
      else
        let phase_now := str_or "" pv.["status"].["phase"] in
        want <== match bound_claim pv with
                 | None => Ret "Available"
                 | Some (ns, cn) => e <== claim_exists ns cn ;; Ret (if (e : bool) then "Bound" else "Released")
                 end ;;
        c <== (if str_eqb want "Released" && negb (str_eqb phase_now "Released") then report_released c pv else Ret c) ;;
        if negb (str_eqb phase_now want) then
          match set_index pv "status" (json_obj [("phase", Str want)]) with
          | None => Ret (c, Err (Local "panic"))
          | Some updated => then_ok c (api_update_status path updated)
          end
        else Ret (c, Ok tt)
  end.

(** [Controller::reconcile] of the claims: what the feeds of classes, Pods and
    volumes answer, the volumes once more when the lock has been taken. *)
Definition reconcile_claim (c : Ctx) (pvc : Value) (classes : result (list (string * Value)) string) (pods : result (list Value) string)
    (pvs locked : result (list Value) string) : Outcome :=
  match classes with
  | Err e => Ret (c, Err (Local e))
  | Ok classes =>
      let default_ := default_class_name classes in
      let class := default "" (claim_class pvc default_) in
      let ns := str_or "default" pvc.["metadata"].["namespace"] in
      let name := str_or "" pvc.["metadata"].["name"] in
      match pods, pvs with
      | Err e, _ => Ret (c, Err (Local e))
      | _, Err e => Ret (c, Err (Local e))
      | Ok pods, Ok pvs =>
          if needs_choice pvs pvc ns name (nonempty class) then
            match locked with
            | Err e => Ret (c, Err (Local e))
            | Ok pvs => sync_claim c ns pvc pvs classes default_ pods
            end
          else sync_claim c ns pvc pvs classes default_ pods
      end
  end.
End Controller.
End VolumeBinder.
Import VolumeBinder.

(** ** The volume picked *)

(** What a claim may be given, by rank: a volume that names it first, then
    the smaller one. *)
Definition at_least_as_good (ns name : string) (pv pv' : Value) : Prop :=
  (prebound pv' ns name = true → prebound pv ns name = true) ∧
  (prebound pv ns name = prebound pv' ns name → capacity pv ≤ capacity pv').

Lemma at_least_as_good_trans ns name a b c :
  at_least_as_good ns name a b → at_least_as_good ns name b c → at_least_as_good ns name a c.
Proof.
  intros [H1 H2] [H3 H4]. split; [tauto|]. intros E.
  destruct (prebound a ns name), (prebound b ns name), (prebound c ns name); try done; try (by specialize (H3 eq_refl)); try (by specialize (H1 eq_refl));
    specialize (H2 eq_refl); specialize (H4 eq_refl); lia.
Qed.

Lemma at_least_as_good_refl ns name a : at_least_as_good ns name a a.
Proof. split; [done|lia]. Qed.

(** The best so far: a volume of those seen that satisfies the claim, as good
    as every other of them. *)
Definition best_of (pvc : Value) (ns name : string) (class : option string) (l : list Value) (best : option (Value * Z * bool)) : Prop :=
  match best with
  | None => ∀ pv, pv ∈ l → volume_satisfies pv pvc ns name class = false
  | Some (pv, size, pre) => size = capacity pv ∧ pre = prebound pv ns name ∧ pv ∈ l ∧ volume_satisfies pv pvc ns name class = true ∧
      ∀ pv', pv' ∈ l → volume_satisfies pv' pvc ns name class = true → at_least_as_good ns name pv pv'
  end.

Lemma consider_best pvc ns name class l best pv :
  best_of pvc ns name class l best → best_of pvc ns name class (l ++ [pv]) (consider pvc ns name class best pv).
Proof.
  unfold consider. destruct (volume_satisfies pv pvc ns name class) eqn:Es; cbn [negb].
  2: { destruct best as [[[b sz] pre]|]; cbn [best_of].
       - intros (-> & -> & Hin & Hs & Hb). split_and!; [done..|set_solver|done|]. intros pv' [H|H]%elem_of_app Hs'; [by apply Hb|].
         apply list_elem_of_singleton in H. congruence.
       - intros Hn pv' [H|H]%elem_of_app; [by apply Hn|]. apply list_elem_of_singleton in H. congruence. }
  destruct best as [[[b sz] pre]|]; cbn [best_of better].
  - intros (-> & -> & Hin & Hs & Hb).
    destruct (match prebound pv ns name with true => _ | false => _ end) eqn:Eb; cbn [best_of].
    + assert (at_least_as_good ns name pv b) as Hg.
      { unfold at_least_as_good. destruct (prebound pv ns name), (prebound b ns name); try done; split; try done; intros; lia. }
      split_and!; [done..|set_solver|done|]. intros pv' [H|H]%elem_of_app Hs'; [eapply at_least_as_good_trans; [exact Hg|by apply Hb]|].
      apply list_elem_of_singleton in H as ->. apply at_least_as_good_refl.
    + split_and!; [done..|set_solver|done|]. intros pv' [H|H]%elem_of_app Hs'; [by apply Hb|]. apply list_elem_of_singleton in H as ->.
      unfold at_least_as_good. destruct (prebound pv ns name), (prebound b ns name); try done; split; try done; intros; lia.
  - intros Hn. split_and!; [done..|set_solver|done|]. intros pv' [H|H]%elem_of_app Hs'; [by rewrite Hn in Hs'|].
    apply list_elem_of_singleton in H as ->. apply at_least_as_good_refl.
Qed.

Lemma fold_best pvc ns name class l2 : ∀ l1 best,
  best_of pvc ns name class l1 best → best_of pvc ns name class (l1 ++ l2) (fold_left (consider pvc ns name class) l2 best).
Proof.
  induction l2 as [|pv l2 IH]; intros l1 best H; [by rewrite app_nil_r|]. cbn [fold_left].
  rewrite (cons_middle pv l1 l2), app_assoc. by apply IH, consider_best.
Qed.

Lemma pick_volume_spec pvs pvc ns name class :
  match pick_volume pvs pvc ns name class with
  | Some pv => pv ∈ pvs ∧ volume_satisfies pv pvc ns name class = true ∧
      ∀ pv', pv' ∈ pvs → volume_satisfies pv' pvc ns name class = true → at_least_as_good ns name pv pv'
  | None => ∀ pv, pv ∈ pvs → volume_satisfies pv pvc ns name class = false
  end.
Proof.
  unfold pick_volume. assert (best_of pvc ns name class [] None) as H0 by (intros pv []%not_elem_of_nil).
  pose proof (fold_best pvc ns name class pvs [] None H0) as H. cbn [app] in H. destruct (fold_left _ _ _) as [[[pv sz] pre]|]; [|exact H].
  destruct H as (_ & _ & H). exact H.
Qed.

(** What it means that a volume may be given to a claim. *)
Record suits (pv pvc : Value) (ns name : string) (class : option string) : Prop := {
  su_alive : pv.["metadata"].["deletionTimestamp"] = Null;
  su_free : str_or "" pv.["spec"].["claimRef"].["name"] = "" ∨
            (str_or "" pv.["spec"].["claimRef"].["namespace"] = ns ∧ str_or "" pv.["spec"].["claimRef"].["name"] = name);
  su_class : str_or "" pv.["spec"].["storageClassName"] = default "" class;
  su_mode : str_or "Filesystem" pvc.["spec"].["volumeMode"] = str_or "Filesystem" pv.["spec"].["volumeMode"];
  su_modes m : m ∈ modes pvc → m ∈ modes pv;
  su_size : requested pvc ≤ capacity pv;
  su_labels : pvc.["spec"].["selector"] = Null ∨ LabelSelector.matches pvc.["spec"].["selector"] pv.["metadata"].["labels"] = true }.

Lemma volume_satisfies_suits pv pvc ns name class : volume_satisfies pv pvc ns name class = true → suits pv pvc ns name class.
Proof.
  unfold volume_satisfies. cbn zeta. destruct (is_null pv.["metadata"].["deletionTimestamp"]) eqn:E1; cbn [negb]; [|done].
  set (pre := str_eqb _ ns && _). destruct (negb (is_empty_str _) && negb pre) eqn:E2; [done|]. destruct (negb pre && _); [done|].
  destruct (str_eqb (str_or "" pv.["spec"].["storageClassName"]) _) eqn:E3; cbn [negb]; [|done].
  destruct (str_eqb (str_or "Filesystem" _) _) eqn:E4; cbn [negb]; [|done]. destruct (forallb _ _) eqn:E5; cbn [negb]; [|done].
  destruct (_ <? _) eqn:E6; [done|]. destruct (negb (is_null pvc.["spec"].["selector"]) && _) eqn:E7; [done|]. intros _.
  apply str_eqb_eq in E3, E4. split; try done.
  - by destruct (pv.["metadata"].["deletionTimestamp"]).
  - apply andb_false_iff in E2 as [E2|E2]; apply negb_false_iff in E2.
    + left. by destruct (str_or "" pv.["spec"].["claimRef"].["name"]).
    + right. subst pre. apply andb_true_iff in E2 as [H1 H2]. apply str_eqb_eq in H1, H2. done.
  - intros m Hm%list_elem_of_In. rewrite forallb_forall in E5. by apply list_elem_of_In, str_in_In, E5.
  - lia.
  - apply andb_false_iff in E7 as [E7|E7]; apply negb_false_iff in E7; [left; by destruct (pvc.["spec"].["selector"])|by right].
Qed.

(** a claim gets the volume that fits it best, if any fits.  The volume
    picked is one of those offered, is not going away, names no other claim,
    has the claim's class, volume mode and labels, every access mode it asks
    for and at least the space; a volume that names the claim is preferred to
    one that does not, and among equals the smallest is taken.  None is picked
    only when none of them satisfies the claim. *)
Theorem volume_choice_exact pvs pvc ns name class :
  match pick_volume pvs pvc ns name class with
  | Some pv => pv ∈ pvs ∧ suits pv pvc ns name class ∧
      ∀ pv', pv' ∈ pvs → volume_satisfies pv' pvc ns name class = true →
        (prebound pv' ns name = true → prebound pv ns name = true) ∧
        (prebound pv ns name = prebound pv' ns name → capacity pv ≤ capacity pv')
  | None => ∀ pv, pv ∈ pvs → volume_satisfies pv pvc ns name class = false
  end.
Proof.
  pose proof (pick_volume_spec pvs pvc ns name class) as H. destruct (pick_volume _ _ _ _ _) as [pv|]; [|done].
  destruct H as (Hin & Hs & Hb). split_and!; [done|by apply volume_satisfies_suits|exact Hb].
Qed.

(** ** What a pass asks for *)

(** The program asks only for what [P] allows. *)
Notation asking P p := (emits (asks P) p).

Lemma asks_weaken {R} (P Q : Request → Prop) (p : Prog R) : (∀ q, P q → Q q) → asking P p → asking Q p.
Proof. intros H. apply emits_weaken. intros [q a|n]; [apply H|done]. Qed.

Lemma asking_send (P : Request → Prop) q path : P q → asking P (send_json q path).
Proof. apply send_asks. Qed.

Lemma asking_get (P : Request → Prop) path : P (QGet path) → asking P (api_get path).
Proof. intros H. apply emits_ask; [done|]. intros a. apply emits_respond. Qed.

Lemma asking_then_ok {A} P c (p : Prog (result A ClientError)) : asking P p → asking P (then_ok c p).
Proof. intros H. apply emits_bind; [done|]. intros x. apply emits_ret. Qed.

Section Pass.
  Variables (uuid_simple : nat → string) (instant : nat → Z) (stamp micro : nat → string) (host : string).

#[local] Notation event := (event uuid_simple instant stamp micro host).
#[local] Notation bind := (VolumeBinder.bind uuid_simple instant stamp micro host).
#[local] Notation bind_claim := (VolumeBinder.bind_claim uuid_simple instant stamp micro host).
#[local] Notation set_bound_status := (VolumeBinder.set_bound_status uuid_simple instant stamp micro host).
#[local] Notation sync_bound_claim := (VolumeBinder.sync_bound_claim uuid_simple instant stamp micro host).
#[local] Notation provision := (VolumeBinder.provision uuid_simple instant stamp micro host).
#[local] Notation sync_claim := (VolumeBinder.sync_claim uuid_simple instant stamp micro host).
#[local] Notation sync_volume := (VolumeBinder.sync_volume uuid_simple instant stamp micro host).
#[local] Notation reconcile_claim := (VolumeBinder.reconcile_claim uuid_simple instant stamp micro host).

Lemma asking_event comp c obj etype reason message : asking event_like (event comp c obj etype reason message).
Proof. by apply event_asks. Qed.

(** Everything but the binding itself: volumes are not written, and no claim
    is given one. *)
Definition no_bind (q : Request) : Prop :=
  match q with
  | QPut p _ => ∀ n, p ≠ volume_path n
  | QPatch _ b => b.["spec"].["volumeName"] = Null
  | _ => True
  end.

Lemma event_no_bind q : event_like q → no_bind q.
Proof. destruct q; try done. cbn. by intros ->. Qed.

Lemma asking_event_no_bind comp c obj etype reason message : asking no_bind (event comp c obj etype reason message).
Proof. eapply asks_weaken; [apply event_no_bind|apply asking_event]. Qed.

Lemma claim_not_volume ns name x n : claim_path ns name ++ x ≠ volume_path n.
Proof. unfold claim_path, volume_path. cbn. by intros [=]. Qed.

Lemma asking_claim_phase c ns name pvc phase : asking no_bind (set_claim_phase c (claim_path ns name) pvc phase).
Proof.
  unfold set_claim_phase. destruct (str_is _ _); [apply emits_ret|]. destruct (set_index2 _ _ _ _); [|apply emits_ret].
  apply asking_then_ok, asking_send. intros n. apply claim_not_volume.
Qed.

Lemma asking_set_bound_status c ns name pvc pv : asking no_bind (set_bound_status c ns name pvc pv).
Proof.
  unfold VolumeBinder.set_bound_status. cbn zeta. destruct (_ && _); [apply emits_ret|]. destruct (bound_status _ _ _ _); [|apply emits_ret].
  apply emits_bind; [apply asking_send; intros n; apply claim_not_volume|]. intros [x|e]; [|apply emits_ret].
  destruct (negb _); [|apply emits_ret]. apply emits_bind; [apply asking_event_no_bind|intros y; apply emits_ret].
Qed.

Lemma asking_provision c ns name pvc class : asking no_bind (provision c (claim_path ns name) pvc class).
Proof.
  assert (∀ c et re me, asking no_bind (Client.bind (event "persistentvolume-controller" c pvc et re me) (λ c, set_claim_phase c (claim_path ns name) pvc "Pending"))) as Hw.
  { intros c0 et re me. apply emits_bind; [apply asking_event_no_bind|]. intros x. apply asking_claim_phase. }
  unfold VolumeBinder.provision. destruct class as [class|]; [|apply Hw]. cbn zeta. destruct (_ || _); [apply Hw|]. destruct (_ && _); [apply Hw|].
  destruct (str_is _ _); [apply Hw|]. apply emits_bind; [by apply asking_send|]. intros [x|e]; [apply Hw|apply emits_ret].
Qed.

(** ** Bindings *)

(** The volume names no claim, or one of this namespace and name. *)
Definition bindable (pv : Value) (ns name : string) : Prop :=
  str_or "" pv.["spec"].["claimRef"].["name"] = "" ∨
  (str_or "" pv.["spec"].["claimRef"].["namespace"] = ns ∧ str_or "" pv.["spec"].["claimRef"].["name"] = name).

(** How a pass over a claim binds: [read] says which volumes it has read. *)
Record binding (ns name : string) (pvc : Value) (read : Value → Prop) (t : list Event) : Prop := {
  bi_volume n u a : EAsk (QPut (volume_path n) u) a ∈ t →
    ∃ pv, read pv ∧ pv.["metadata"].["name"] = Str n ∧ bindable pv ns name ∧
      u.["spec"].["claimRef"] = claim_ref ns name (str_or "" pvc.["metadata"].["uid"]) ∧
      u.["metadata"].["resourceVersion"] = pv.["metadata"].["resourceVersion"];
  bi_claim t1 p b a t2 n : t = (t1 ++ EAsk (QPatch p b) a :: t2)%list → b.["spec"].["volumeName"] = Str n →
    p = claim_path ns name ∧ b.["metadata"].["resourceVersion"] = pvc.["metadata"].["resourceVersion"] ∧
    b.["metadata"].["uid"] = pvc.["metadata"].["uid"] ∧
    ∃ pv, read pv ∧ pv.["metadata"].["name"] = Str n ∧
      (pre_bound pv ns name (str_or "" pvc.["metadata"].["uid"]) = true ∨
       ∃ u a', EAsk (QPut (volume_path n) u) a' ∈ t1 ∧ is_ok (json_answer a') = true ∧
         u.["spec"].["claimRef"] = claim_ref ns name (str_or "" pvc.["metadata"].["uid"])) }.

Lemma binding_none ns name pvc read t : Forall (asks no_bind) t → binding ns name pvc read t.
Proof.
  rewrite Forall_forall. intros H. split.
  - intros n u a Hin. apply H in Hin. by destruct (Hin n).
  - intros t1 p b a t2 n -> Hb. assert (EAsk (QPatch p b) a ∈ (t1 ++ EAsk (QPatch p b) a :: t2)%list) as Hin by set_solver.
    apply H in Hin. cbn in Hin. congruence.
Qed.

(** Events around a binding that bind nothing. *)
Lemma binding_app ns name pvc read t1 t2 : Forall (asks no_bind) t1 → binding ns name pvc read t2 → binding ns name pvc read (t1 ++ t2).
Proof.
  intros H [B1 B2]. pose proof (binding_none ns name pvc read t1 H) as [N1 N2]. split.
  - intros n u a [Hin|Hin]%elem_of_app; [by eapply N1|by eapply B1].
  - intros t3 p b a t4 n E Hb. apply app_eq_app in E as (l & [[-> E]|[-> E]]).
    + destruct l as [|e l]; cbn in E.
      * subst t2. destruct (B2 [] p b a t4 n eq_refl Hb) as (? & ? & ? & pv & ? & ? & [?|(u & a' & []%not_elem_of_nil & _)]).
        split_and!; [done..|]. exists pv. split_and!; [done..|by left].
      * injection E as <- _. exfalso. rewrite Forall_app, Forall_cons in H. destruct H as (_ & H & _). cbn in H. congruence.
    + destruct (B2 l p b a t4 n E Hb) as (? & ? & ? & pv & ? & ? & Ho). split_and!; [done..|]. exists pv. split_and!; [done..|].
      destruct Ho as [?|(u & a' & Hin & ?)]; [by left|right]. exists u, a'. split; [set_solver|done].
Qed.

Lemma bound_volume_fields pv ns name uid u : bound_volume pv ns name uid = Some u →
  u.["spec"].["claimRef"] = claim_ref ns name uid ∧ u.["metadata"].["resourceVersion"] = pv.["metadata"].["resourceVersion"].
Proof.
  unfold bound_volume. destruct (set_index2 pv _ _ _) as [u1|] eqn:E1; [|done]. cbn.
  assert (∀ x, set_index2 u1 "metadata" "annotations" x = Some u →
    u.["spec"].["claimRef"] = claim_ref ns name uid ∧ u.["metadata"].["resourceVersion"] = pv.["metadata"].["resourceVersion"]) as H.
  { intros x E2. rewrite (set_index2_inner _ _ _ _ _ E2 "spec") by done. rewrite (index2_set_index2 _ _ _ _ _ E1).
    rewrite (index2_set_index2_ne _ _ _ _ _ _ E2) by done. by rewrite (set_index2_inner _ _ _ _ _ E1 "metadata"). }
  destruct (as_object _); apply H.
Qed.

(** The claim's half of a binding: its PATCH comes first. *)
Lemma bind_claim_exec c ns name pvc pv n t x :
  exec (bind_claim c ns name pvc pv n) t x →
  ∃ a t', t = EAsk (QPatch (claim_path ns name) (bind_patch pvc n)) a :: t' ∧ Forall (asks no_bind) t'.
Proof.
  intros (t1 & t2 & r & E1 & E2 & ->)%exec_bind. apply send_json_exec in E1 as (a & t3 & -> & _ & Hn). exists a, (t3 ++ t2)%list. split; [done|].
  apply Forall_app. split; [eapply Forall_impl; [exact Hn|]; by intros []|]. destruct r as [bound|e].
  2: { by apply exec_ret_inv in E2 as [-> _]. }
  destruct (str_is _ _); [by apply exec_ret_inv in E2 as [-> _]|].
  apply exec_bind in E2 as (t4 & t5 & [c1 y] & E3 & E4 & ->). apply Forall_app. split; [by eapply asking_set_bound_status|].
  cbn [fst snd] in E4. destruct y as [u|e]; [|by apply exec_ret_inv in E4 as [-> _]].
  apply exec_bind in E4 as (t6 & t7 & c2 & E5 & [-> _]%exec_ret_inv & ->). rewrite app_nil_r. by eapply asking_event_no_bind.
Qed.

Lemma single_patch_split t1 q a t2 t3 p b a' t4 :
  Forall (asks no_bind) t1 → Forall (asks no_bind) t3 → (t1 ++ EAsk q a :: t3)%list = (t2 ++ EAsk (QPatch p b) a' :: t4)%list →
  b.["spec"].["volumeName"] ≠ Null → q = QPatch p b ∧ t2 = t1.
Proof.
  intros H1 H3 E Hb. revert t2 E. induction H1 as [|e t1 He _ IH]; intros [|e' t2]; cbn; intros [= ? ?]; subst.
  - done.
  - exfalso. rewrite Forall_app, Forall_cons in H3. destruct H3 as (_ & H3 & _). done.
  - exfalso. by apply Hb in He.
  - destruct (IH t2) as [-> ->]; [done|done].
Qed.

Lemma bind_binding c ns name pvc pv (read : Value → Prop) t x :
  exec (bind c ns name pvc pv) t x → bindable pv ns name → read pv → binding ns name pvc read t.
Proof.
  unfold VolumeBinder.bind. intros E Hb Hr. destruct (as_str pv.["metadata"].["name"]) as [n|] eqn:En.
  2: { apply exec_ret_inv in E as [-> _]. by apply binding_none. }
  assert (pv.["metadata"].["name"] = Str n) as En' by (by destruct (pv.["metadata"].["name"]); try done; injection En as ->). clear En.
  destruct (bound_volume _ _ _ _) as [volume|] eqn:Ev; [|apply exec_ret_inv in E as [-> _]; by apply binding_none].
  apply bound_volume_fields in Ev as [Ec Erv]. destruct (pre_bound _ _ _ _) eqn:Ep.
  - apply bind_claim_exec in E as (a & t' & -> & Ht'). split.
    + intros m u a' [Hin|Hin]%elem_of_cons; [done|]. rewrite Forall_forall in Ht'. apply Ht' in Hin. by destruct (Hin m).
    + intros t1 p b a' t2 m E Hm. apply (single_patch_split []) in E as [[= -> <-] ->]; [|done..|congruence].
      assert (m = n) as -> by (cbn in Hm; by injection Hm as ->). split_and!; [done..|]. exists pv. split_and!; [done..|by left].
  - apply exec_bind in E as (t1 & t2 & r & E1 & E2 & ->). apply send_json_exec in E1 as (a & t3 & -> & -> & Hn).
    assert (Forall (asks no_bind) t3) as Ht3 by (eapply Forall_impl; [exact Hn|]; by intros []).
    assert (∀ m u a', EAsk (QPut (volume_path m) u) a' ∈ EAsk (QPut (volume_path n) volume) a :: t3 → m = n ∧ u = volume) as Hput.
    { intros m u a' [Hin|Hin]%elem_of_cons.
      - by injection Hin as -> -> _.
      - rewrite Forall_forall in Ht3. apply Ht3 in Hin. by destruct (Hin m). }
    assert (∀ m u a' tl, Forall (asks no_bind) tl → EAsk (QPut (volume_path m) u) a' ∈ ((EAsk (QPut (volume_path n) volume) a :: t3) ++ tl)%list → m = n ∧ u = volume) as Hput'.
    { intros m u a' tl Htl [Hin|Hin]%elem_of_app; [by eapply Hput|]. rewrite Forall_forall in Htl. apply Htl in Hin. by destruct (Hin m). }
    assert (∀ m, m = n → ∃ pv0, read pv0 ∧ pv0.["metadata"].["name"] = Str m ∧ bindable pv0 ns name ∧
      volume.["spec"].["claimRef"] = claim_ref ns name (str_or "" pvc.["metadata"].["uid"]) ∧
      volume.["metadata"].["resourceVersion"] = pv0.["metadata"].["resourceVersion"]) as Hvol by (intros m ->; by exists pv).
    destruct (json_answer a) as [v|e] eqn:Ea.
    2: { apply exec_ret_inv in E2 as [-> _]. split.
         - intros m u a' Hin. destruct (Hput' _ _ _ _ (Forall_nil_2 _) Hin) as [-> ->]. by apply Hvol.
         - intros t1 p b a' t2 m E Hm. exfalso. rewrite app_nil_r in E. destruct t1 as [|e1 t1]; [done|]. injection E as _ ->.
           rewrite Forall_app, Forall_cons in Ht3. destruct Ht3 as (_ & Ht3 & _). cbn in Ht3. congruence. }
    apply bind_claim_exec in E2 as (a2 & t' & -> & Ht'). split.
    + intros m u a' [Hin|[Hin|Hin]%elem_of_cons]%elem_of_app; [apply Hput in Hin as [-> ->]; by apply Hvol|done|].
      rewrite Forall_forall in Ht'. apply Ht' in Hin. by destruct (Hin m).
    + intros t1 p b a' t5 m E Hm. destruct t1 as [|e1 t1]; [done|]. injection E as <- E.
      apply single_patch_split in E as [[= -> <-] ->]; [|done..|congruence]. assert (m = n) as -> by (cbn in Hm; by injection Hm as ->).
      split_and!; [done..|]. exists pv. split_and!; [done..|]. right. exists volume, a. split_and!; [left|by rewrite Ea|done].
Qed.

Lemma binding_weaken ns name pvc (read read' : Value → Prop) t :
  (∀ pv, read pv → read' pv) → binding ns name pvc read t → binding ns name pvc read' t.
Proof.
  intros H [B1 B2]. split.
  - intros n u a Hin. destruct (B1 _ _ _ Hin) as (pv & ? & ?). exists pv. auto.
  - intros t1 p b a t2 n E Hb. destruct (B2 _ _ _ _ _ _ E Hb) as (? & ? & ? & pv & ? & ?). split_and!; [done..|]. exists pv. auto.
Qed.

(** The volume a claim names is read by a GET. *)
Definition got (t : list Event) (pv : Value) : Prop := ∃ p s, EAsk (QGet p) (AResponse s (Some pv)) ∈ t.

Lemma sync_bound_claim_binding c ns name pvc volume_name t x :
  exec (sync_bound_claim c ns name pvc volume_name) t x → binding ns name pvc (got t) t.
Proof.
  unfold VolumeBinder.sync_bound_claim. cbn zeta. intros (t1 & t2 & r & E1 & E2 & ->)%exec_bind.
  apply exec_ask_inv in E1 as (a & t3 & -> & E1). apply respond_exec in E1 as [Hn Hr].
  assert (Forall (asks no_bind) (EAsk (QGet (volume_path volume_name)) a :: t3)) as H1 by (constructor; [done|]; eapply Forall_impl; [exact Hn|]; by intros []).
  assert (Forall (asks no_bind) t2 → binding ns name pvc (got ((EAsk (QGet (volume_path volume_name)) a :: t3) ++ t2)) ((EAsk (QGet (volume_path volume_name)) a :: t3) ++ t2)) as Hquiet.
  { intros H. apply binding_none, Forall_app. done. }
  assert (∀ c et re me ph t y, exec (Client.bind (event "persistentvolume-controller" c pvc et re me) (λ c, set_claim_phase c (claim_path ns name) pvc ph)) t y → Forall (asks no_bind) t) as Hw.
  { intros c0 et re me ph t y E. eapply emits_bind in E; [exact E|apply asking_event_no_bind|]. intros c1. apply asking_claim_phase. }
  destruct a as [|s body]; subst r; [apply exec_ret_inv in E2 as [-> _]; by apply Hquiet|].
  destruct (s =? 404); [apply Hquiet; by eapply Hw|]. destruct (is_error s); [apply exec_ret_inv in E2 as [-> _]; by apply Hquiet|].
  destruct body as [pv|]; [|apply exec_ret_inv in E2 as [-> _]; by apply Hquiet].
  destruct (negb _ && _) eqn:Eo; [apply Hquiet; by eapply Hw|].
  destruct (is_empty_str _ || _) eqn:Eb.
  - eapply binding_app; [done|]. refine (bind_binding _ _ _ _ _ _ _ _ E2 _ _).
    + apply andb_false_iff in Eo as [Eo|Eo].
      * left. apply negb_false_iff in Eo. by destruct (str_or "" pv.["spec"].["claimRef"].["name"]).
      * right. apply orb_false_iff in Eo as [H H']. apply negb_false_iff, str_eqb_eq in H, H'. done.
    + eexists _, s. apply elem_of_app. left. left.
  - apply Hquiet. match type of E2 with context [if ?b then _ else _] => destruct b end; [by eapply Hw|by eapply asking_set_bound_status].
Qed.

(** A claim on its way out: its protection is lifted, or it waits. *)
Lemma leaving_claim_binding c ns name pvc pods read t x :
  exec (match pod_using_claim pods name with
        | Some user => c <== event "persistentvolume-controller" c pvc "Normal" "VolumeInUse" ("Claim is in use by pod " ++ user ++ "; deletion is deferred") ;; Ret (c, Ok tt)
        | None => remove_finalizer c (claim_path ns name) pvc PVC_PROTECTION
        end) t x → binding ns name pvc read t.
Proof.
  intros E. apply binding_none. destruct (pod_using_claim pods name).
  - eapply emits_bind in E; [exact E|apply asking_event_no_bind|]. intros c1. apply emits_ret.
  - unfold remove_finalizer in E. destruct (negb _); [apply exec_ret_inv in E as [-> _]; constructor|].
    eapply asking_then_ok in E; [exact E|]. by apply asking_send.
Qed.

Lemma sync_claim_binding c ns name pvc l classes dc pods t x :
  name = str_or "" pvc.["metadata"].["name"] → exec (sync_claim c ns pvc l classes dc pods) t x →
  binding ns name pvc (λ pv, pv ∈ l ∨ got t pv) t.
Proof.
  intros Hname E. unfold VolumeBinder.sync_claim in E.
  destruct (as_str pvc.["metadata"].["name"]) as [nm|] eqn:En; [|apply exec_ret_inv in E as [-> _]; by apply binding_none].
  assert (nm = name) as -> by (unfold str_or in Hname; by rewrite En in Hname). cbn zeta in E.
  destruct (negb (is_null _)); [by eapply leaving_claim_binding|].
  assert (∀ b, b.["spec"].["volumeName"] = Null → exec (then_ok c (api_patch (claim_path ns name) b)) t x →
    binding ns name pvc (λ pv, pv ∈ l ∨ got t pv) t) as Hpatch.
  { intros b Hb E'. apply binding_none. eapply asking_then_ok in E'; [exact E'|]. by apply asking_send. }
  destruct (negb (has_finalizer _ _)); [by refine (Hpatch _ _ E)|].
  assert (exec match volume_named pvc with
               | Some v => sync_bound_claim c ns name pvc v
               | None => match pick_volume l pvc ns name (claim_class pvc dc) with
                         | Some pv => bind c ns name pvc pv
                         | None => provision c (claim_path ns name) pvc (claim_class pvc dc ≫= lookup_class classes)
                         end
               end t x → binding ns name pvc (λ pv, pv ∈ l ∨ got t pv) t) as Hrest.
  { clear E. destruct (volume_named pvc) as [vn|]; intros E.
    - eapply binding_weaken; [|eapply sync_bound_claim_binding; exact E]. by right.
    - pose proof (pick_volume_spec l pvc ns name (claim_class pvc dc)) as Hpick. destruct (pick_volume _ _ _ _ _) as [pv|].
      + destruct Hpick as (Hin & Hs & _). apply volume_satisfies_suits in Hs.
        refine (bind_binding _ _ _ _ _ _ _ _ E _ _); [exact (su_free _ _ _ _ _ Hs)|by left].
      + apply binding_none. eapply asking_provision. exact E. }
  destruct (as_str pvc.["spec"].["storageClassName"]) as [sc|]; [by apply Hrest|].
  destruct (claim_class pvc dc) as [cn|]; [by refine (Hpatch _ _ E)|by apply Hrest].
Qed.


(** ** What keeps an object alive *)

(** The claim was asked for, and is gone. *)
Definition claim_gone (t : list Event) (ns cn : string) : Prop := ∃ body, EAsk (QGet (claim_path ns cn)) (AResponse 404 body) ∈ t.

Definition no_volume_write (q : Request) : Prop :=
  match q with QPut _ _ | QPatchMerge _ _ => False | _ => True end.

Lemma asking_event_no_write comp c obj etype reason message : asking no_volume_write (event comp c obj etype reason message).
Proof. eapply asks_weaken; [|apply asking_event]. by intros []. Qed.

Lemma asking_report_released c pv : asking no_volume_write (VolumeBinder.report_released uuid_simple instant stamp micro host c pv).
Proof.
  unfold report_released. cbn zeta. destruct (str_eqb _ _); [destruct (negb _); apply asking_event_no_write|].
  destruct (str_eqb _ _); [apply asking_event_no_write|apply emits_ret].
Qed.

Lemma claim_exists_exec ns cn t b :
  exec (claim_exists ns cn) t b → Forall (asks no_volume_write) t ∧ (b = false → claim_gone t ns cn).
Proof.
  unfold claim_exists. intros (t1 & t2 & r & E1 & [-> ->]%exec_ret_inv & ->)%exec_bind. rewrite app_nil_r.
  apply exec_ask_inv in E1 as (a & t3 & -> & E1). apply respond_exec in E1 as [Hn Hr]. split.
  - constructor; [done|]. eapply Forall_impl; [exact Hn|]. by intros [].
  - destruct a as [|s body]; subst r; [done|]. intros H%negb_false_iff. apply Z.eqb_eq in H as ->. exists body. left.
Qed.

(** The claim a volume names, looked up. *)
Lemma bound_lookup_exec {A} pv (k : bool → A) (d : A) t x :
  exec (match bound_claim pv with Some (ns, cn) => e <== claim_exists ns cn ;; Ret (k e) | None => Ret d end) t x →
  Forall (asks no_volume_write) t ∧
  match bound_claim pv with
  | None => x = d
  | Some (ns, cn) => x = k true ∨ x = k false ∧ claim_gone t ns cn
  end.
Proof.
  destruct (bound_claim pv) as [[ns cn]|]; [|intros [-> ->]%exec_ret_inv; done].
  intros (t1 & t2 & e & E1 & [-> ->]%exec_ret_inv & ->)%exec_bind. rewrite app_nil_r. apply claim_exists_exec in E1 as [H1 H2].
  split; [done|]. destruct e; [by left|right; auto].
Qed.

Lemma remove_finalizer_exec c path obj f t x :
  exec (remove_finalizer c path obj f) t x →
  Forall (asks (λ q, q = QPatchMerge path (finalizers_patch obj (List.filter (λ v, negb (str_is v f)) (items obj.["metadata"].["finalizers"]))))) t.
Proof.
  unfold remove_finalizer. destruct (negb _); [intros [-> _]%exec_ret_inv; constructor|]. intros E.
  eapply asking_then_ok in E; [exact E|]. by apply asking_send.
Qed.

Lemma claim_gone_app t t' ns cn : claim_gone t ns cn → claim_gone (t ++ t') ns cn.
Proof. intros [body H]. exists body. apply elem_of_app. by left. Qed.

Lemma no_write_put t p u a : Forall (asks no_volume_write) t → EAsk (QPut p u) a ∉ t.
Proof. rewrite Forall_forall. intros H Hin. by apply H in Hin. Qed.

Lemma no_write_merge t p u a : Forall (asks no_volume_write) t → EAsk (QPatchMerge p u) a ∉ t.
Proof. rewrite Forall_forall. intros H Hin. by apply H in Hin. Qed.

(** A volume's status is written with the phase wanted, and nothing else is. *)
Lemma volume_status_write c name pv phase_now want t x :
  exec (if negb (str_eqb phase_now want) then
          match set_index pv "status" (json_obj [("phase", Str want)]) with
          | None => Ret (c, Err (Local "panic"))
          | Some updated => then_ok c (api_update_status (volume_path name) updated)
          end
        else Ret (c, Ok tt)) t x →
  Forall (asks (λ q, match q with QPut _ u => u.["status"].["phase"] = Str want | _ => False end)) t.
Proof.
  destruct (negb _); [|intros [-> _]%exec_ret_inv; constructor].
  destruct (set_index _ _ _) as [u|] eqn:Eu; [|intros [-> _]%exec_ret_inv; constructor]. intros E.
  apply index_set_index in Eu. eapply asking_then_ok in E; [exact E|]. apply asking_send. cbn. by rewrite Eu.
Qed.

(** a volume is given up only when its claim is gone.  In any pass over a
    volume, whatever the server answers: its protection is lifted only when
    it is being deleted and either names no claim or the claim it names was
    asked for and answered 404, never on a failed read; and it is reported
    Released only when the claim it names was answered 404. *)
Theorem volume_given_up_only_unclaimed c pv t x :
  exec (sync_volume c pv) t x →
  let unclaimed := match bound_claim pv with None => True | Some (ns, cn) => claim_gone t ns cn end in
  (∀ p b a, EAsk (QPatchMerge p b) a ∈ t → pv.["metadata"].["deletionTimestamp"] ≠ Null ∧ unclaimed) ∧
  (∀ p u a, EAsk (QPut p u) a ∈ t → pv.["metadata"].["deletionTimestamp"] = Null ∧
     (u.["status"].["phase"] = Str "Released" → unclaimed ∧ bound_claim pv ≠ None) ∧
     (u.["status"].["phase"] = Str "Available" → bound_claim pv = None)).
Proof.
  cbn zeta. unfold VolumeBinder.sync_volume. destruct (as_str pv.["metadata"].["name"]) as [name|].
  2: { intros [-> _]%exec_ret_inv. split; intros ??? []%not_elem_of_nil. }
  cbn zeta. destruct (is_null pv.["metadata"].["deletionTimestamp"]) eqn:Ed; cbn [negb].
  2: { intros (t1 & t2 & sb & E1 & E2 & ->)%exec_bind.
       assert (Forall (asks no_volume_write) t1 ∧ (sb = false → match bound_claim pv with None => True | Some (ns, cn) => claim_gone t1 ns cn end)) as [H1 Hsb].
       { destruct (bound_claim pv) as [[ns cn]|]; [by apply claim_exists_exec in E1|]. apply exec_ret_inv in E1 as [-> ->]. split; [constructor|done]. }
       assert (pv.["metadata"].["deletionTimestamp"] ≠ Null) as Hd by (intros Hd; by rewrite Hd in Ed). destruct sb.
       - apply exec_bind in E2 as (t3 & t4 & c1 & E2 & [-> _]%exec_ret_inv & ->). apply asking_event_no_write in E2.
         assert (Forall (asks no_volume_write) (t1 ++ t3 ++ [])) as H by (rewrite app_nil_r; by apply Forall_app).
         split; intros p b a Hin; exfalso; [eapply no_write_merge|eapply no_write_put]; done.
       - apply remove_finalizer_exec in E2. split; intros p b a [Hin|Hin]%elem_of_app.
         + exfalso. by eapply no_write_merge.
         + split; [done|]. specialize (Hsb eq_refl). destruct (bound_claim pv) as [[ns cn]|]; [by apply claim_gone_app|done].
         + exfalso. by eapply no_write_put.
         + exfalso. rewrite Forall_forall in E2. by apply E2 in Hin. }
  assert (pv.["metadata"].["deletionTimestamp"] = Null) as Hd by (by destruct (pv.["metadata"].["deletionTimestamp"])).
  destruct (negb (has_finalizer _ _)).
  { intros E. assert (Forall (asks no_volume_write) t) as H by (eapply asking_then_ok in E; [exact E|]; by apply asking_send).
    split; intros p b a Hin; exfalso; [eapply no_write_merge|eapply no_write_put]; done. }
  intros (t1 & t2 & want & E1 & E2 & ->)%exec_bind. apply (bound_lookup_exec _ (λ e : bool, if e then "Bound" else "Released")) in E1 as [H1 Hwant].
  apply exec_bind in E2 as (t3 & t4 & c1 & E2 & E3 & ->).
  assert (Forall (asks no_volume_write) (t1 ++ t3)) as H2.
  { apply Forall_app. split; [done|]. destruct (_ && _); [by apply asking_report_released in E2|]. apply exec_ret_inv in E2 as [-> _]. constructor. }
  apply volume_status_write in E3. rewrite Forall_forall in E3. rewrite app_assoc. split; intros p u a [Hin|Hin]%elem_of_app.
  - exfalso. by eapply no_write_merge.
  - exfalso. by apply E3 in Hin.
  - exfalso. by eapply no_write_put.
  - apply E3 in Hin. cbn in Hin. split; [done|]. split; intros Hp; rewrite Hp in Hin; injection Hin as <-; destruct (bound_claim pv) as [[ns cn]|]; try done.
    + split; [|done]. destruct Hwant as [?|[_ Hg]]; [done|]. by do 2 apply claim_gone_app.
    + by destruct Hwant as [?|[? _]].
Qed.
End Pass.

(** *** Witnesses *)

Module PvDemo.
Definition pv (name : string) (size phase : string) (ref : list (string * Value)) : Value :=
  json_obj [("metadata", json_obj [("name", Str name); ("resourceVersion", Str "5"); ("finalizers", Array [Str PV_PROTECTION])]);
            ("spec", json_obj [("storageClassName", Str "fast"); ("capacity", json_obj [("storage", Str size)]);
                               ("accessModes", Array [Str "ReadWriteOnce"]); ("claimRef", json_obj ref)]);
            ("status", json_obj [("phase", Str phase)])].
Definition claim : Value :=
  json_obj [("metadata", json_obj [("name", Str "data"); ("namespace", Str "d"); ("uid", Str "u-new"); ("resourceVersion", Str "9");
                                   ("finalizers", Array [Str PVC_PROTECTION])]);
            ("spec", json_obj [("storageClassName", Str "fast"); ("accessModes", Array [Str "ReadWriteOnce"]);
                               ("resources", json_obj [("requests", json_obj [("storage", Str "1Gi")])])])].
Definition ref (uid : string) : list (string * Value) := [("namespace", Str "d"); ("name", Str "data"); ("uid", Str uid)].

Definition ctx : Ctx := mkCtx ∅ Backoff.new ∅ 0.
Definition ids (n : nat) : string := "0123456789abcdef".
Definition no_text (n : nat) : string := "".
Definition clock (n : nat) : Z := Z.of_nat n.
Definition pass (pvs : list Value) := reconcile_claim ids clock no_text no_text "h" ctx claim (Ok []) (Ok []) (Ok pvs) (Ok pvs).
Definition answers : list Answer := [AResponse 200 (Some Null); AResponse 409 None].
Definition trace : list Event := Eval vm_compute in default [] (fst <$> play answers (pass [pv "big" "10Gi" "Available" []; pv "small" "2Gi" "Available" []])).

Lemma pv_pass_exec : ∃ x, exec (pass [pv "big" "10Gi" "Available" []; pv "small" "2Gi" "Available" []]) trace x.
Proof. eexists. apply (play_exec answers). vm_compute. reflexivity. Qed.

(** The requests a pass sends, in order. *)
Definition asked (t : list Event) : list (string * string) :=
  omap (λ e, match e with
             | EAsk (QPut p _) _ => Some ("put", p)
             | EAsk (QPatch p b) _ => Some ("patch", p)
             | _ => None
             end) t.

(** A volume that a deleted claim of the same name held, with that claim's
    data on it and in phase Released, is picked for the new claim and bound to
    it: its reference is compared by namespace and name only. *)
Example released_volume_rebound :
  let old := pv "used" "2Gi" "Released" (ref "u-old") in
  pick_volume [old] claim "d" "data" (Some "fast") = Some old ∧
  asked (default [] (fst <$> play answers (pass [old]))) =
    [("put", volume_path "used"); ("patch", claim_path "d" "data")].
Proof. split; vm_compute; reflexivity. Qed.

Definition volume : Value := pv "small" "2Gi" "Bound" (ref "u-new").
Definition volume_pass := sync_volume ids clock no_text no_text "h" ctx volume.
Definition volume_trace : list Event :=
  Eval vm_compute in default [] (fst <$> play [AResponse 404 None; AResponse 200 (Some Null)] volume_pass).

Lemma volume_pass_exec : ∃ x, exec volume_pass volume_trace x.
Proof. eexists. apply (play_exec [AResponse 404 None; AResponse 200 (Some Null)]). vm_compute. reflexivity. Qed.
End PvDemo.


Lemma volume_given_up_only_unclaimed_witness :
  PvDemo.asked PvDemo.volume_trace = [("put", volume_path "small" ++ "/status")] ∧ claim_gone PvDemo.volume_trace "d" "data".
Proof.
  split; [vm_compute; reflexivity|]. destruct PvDemo.volume_pass_exec as [x E].
  destruct (volume_given_up_only_unclaimed PvDemo.ids PvDemo.clock PvDemo.no_text PvDemo.no_text "h" _ _ _ _ E) as [_ H].
  edestruct H as (_ & Hr & _); [apply list_elem_of_further, list_elem_of_here|]. destruct Hr as [Hg _]; [vm_compute; reflexivity|exact Hg].
Defined.
