(* ===== verification/SchedState.v ===== *)
(** * The scheduler's view of the cluster ([pkg/scheduler/src/scheduler.rs])

    [SchedulingState]: the workloads waiting and placed, what each node has
    promised, the reservations made before their writes are seen back, and
    the snapshot each scheduling decision reads.  Virtual machines are
    scheduled as the pod they would have been ([virtualmachine.rs],
    [kubevirt.rs]).  Proved: the usage kept by incremental charging is always
    the sum over what is placed, and a snapshot charges every workload once. *)

From Stdlib Require Import ZArith Lia String Ascii.
From stdpp Require Import base gmap strings numbers option list.
From S2P Require Import Prelude Text BTree Informer Json Quantity Filter.
Open Scope string_scope.
Open Scope kube_scope.
Open Scope Z_scope.

(** ** Virtual machines *)

Definition node_of (vmi : Value) : option string :=
  match nonempty_str vmi.["status"].["nodeName"] with
  | Some n => Some n
  | None => nonempty_str vmi.["spec"].["nodeName"]
  end.

(** [matches!(o["status"]["phase"].as_str(), Some("Succeeded" | "Failed"))]. *)
Definition is_terminal (o : Value) : bool :=
  match as_str o.["status"].["phase"] with
  | Some p => str_eqb p "Succeeded" || str_eqb p "Failed"
  | None => false
  end.

Definition vcpu_count (v : Value) : Z := Z.max 1 (default 1 (as_u64 v)).

Definition vcpus (vmi : Value) : Z :=
  let cpu := vmi.["spec"].["domain"].["cpu"] in
  wrap64 (wrap64 (vcpu_count cpu.["cores"] * vcpu_count cpu.["sockets"]) * vcpu_count cpu.["threads"]).

Definition first_str (l : list Value) : option string := head (omap as_str l).

Definition requests (vmi : Value) : Z * Z :=
  let domain := vmi.["spec"].["domain"] in
  let res := domain.["resources"].["requests"] in
  let memory := default 0 (parse_bytes <$>
    first_str [domain.["memory"].["guest"]; res.["memory"]; domain.["resources"].["limits"].["memory"]]) in
  let cpu :=
    match as_str res.["cpu"] with
    | Some req => parse_cpu_millis req
    | None =>
        if default false (as_bool domain.["cpu"].["dedicatedCpuPlacement"])
        then wrap64 (vcpus vmi * 1000) else 0
    end in
  (cpu, memory).

Definition SHIM_KEYS : list string := ["nodeSelector"; "affinity"; "tolerations"; "priorityClassName"; "schedulerName"].

Definition scheduling_shim (vmi : Value) : Value :=
  let '(cpu, mem) := requests vmi in
  let spec0 := json_obj [("containers", Array [json_obj [("name", Str "vm");
    ("resources", json_obj [("requests", json_obj [("cpu", Str (show_u cpu ++ "m")); ("memory", Str (show_u mem))])])]])] in
  let spec := fold_left (λ s key, let x := vmi.["spec"].[key] in
                if is_null x then s else Object (map_insert (entries s) key x)) SHIM_KEYS spec0 in
  json_obj [("apiVersion", Str "v1"); ("kind", Str "Pod");
            ("metadata", json_obj [("name", vmi.["metadata"].["name"]); ("namespace", vmi.["metadata"].["namespace"]);
                                   ("labels", vmi.["metadata"].["labels"])]);
            ("spec", spec);
            ("status", json_obj [("phase", Str "Pending")])].

Definition active_migration (vmi : Value) : option Value :=
  let state := vmi.["status"].["migrationState"] in
  let is_true v := match as_bool v with Some b => b | None => false end in
  let done := is_true state.["completed"] || is_true state.["failed"] in
  match nonempty_str state.["migrationUid"] with
  | Some _ => if done then None else Some state
  | None => None
  end.

Definition wants_migration_target (vmi : Value) : bool :=
  match active_migration vmi with
  | Some m =>
      match nonempty_str m.["targetNode"] with Some _ => false | None => true end
      && negb (match as_bool m.["abortRequested"] with Some b => b | None => false end)
  | None => false
  end.

(** [false]: a Pod; [true]: a VMI. *)
Notation ScheduleKey := (bool * Key)%type.

(** ** The state *)

Record Assumption := mkAssumption { a_node : string; a_object : Value; waiting_for_volume : bool }.

Record SchedulingState := mkSched {
  pending : gmap ScheduleKey Value;
  s_placed : gmap ScheduleKey (string * Value);
  s_usage : gmap string NodeUsage;
  assumptions : gmap ScheduleKey Assumption;
  targets : gmap ScheduleKey (string * Value);
  target_assumptions : gmap ScheduleKey (string * Value);
  queued : gmap ScheduleKey Z
}.

Definition default_state : SchedulingState := mkSched ∅ ∅ ∅ ∅ ∅ ∅ ∅.

Definition charge (u : gmap string NodeUsage) (vm : bool) (node : string) (pod : Value) : gmap string NodeUsage :=
  let '(cpu, mem) := pod_requests pod in
  let e := default no_usage (u !! node) in
  <[node := mkUsage (wrap64 (cpu_milli e + cpu)) (wrap64 (mem_bytes e + mem))
                    (wrap64 (pods e + (if vm then 0 else 1)))]> u.

Definition uncharge (u : gmap string NodeUsage) (vm : bool) (node : string) (pod : Value) : gmap string NodeUsage :=
  let '(cpu, mem) := pod_requests pod in
  let e := default no_usage (u !! node) in
  <[node := mkUsage (wrap64 (cpu_milli e - cpu)) (wrap64 (mem_bytes e - mem))
                    (wrap64 (pods e - (if vm then 0 else 1)))]> u.

Definition pending_workload (vm : bool) (object : Value) : bool :=
  if negb (is_null object.["metadata"].["deletionTimestamp"]) then false
  else if vm then
    negb (is_terminal object)
    && (match node_of object with Some _ => false | None => true end || wants_migration_target object)
  else
    negb (is_terminal object)
    && match nonempty_str object.["spec"].["nodeName"] with Some _ => false | None => true end.

Definition placed_workload (vm : bool) (object : Value) : option (string * Value) :=
  if is_terminal object then None
  else if vm then (λ n, (n, scheduling_shim object)) <$> node_of object
  else (λ n, (n, object)) <$> nonempty_str object.["spec"].["nodeName"].

Definition migration_target (vm : bool) (object : Value) : option (string * Value) :=
  if negb vm || is_terminal object then None
  else
    let state := object.["status"].["migrationState"] in
    match nonempty_str state.["targetNode"] with
    | None => None
    | Some target =>
        if match nonempty_str state.["migrationUid"] with Some _ => false | None => true end
           || match as_bool state.["failed"] with Some b => b | None => false end
           || (match as_bool state.["completed"] with Some b => b | None => false end
               && match node_of object with Some n => str_eqb n target | None => false end)
        then None
        else Some (target, scheduling_shim object)
    end.

(** [if let Some((node, pod)) = self.placed.remove(key) { uncharge(..) }]. *)
Definition unplace (s : SchedulingState) (k : ScheduleKey) : SchedulingState :=
  match s_placed s !! k with
  | Some (node, pod) =>
      mkSched (pending s) (delete k (s_placed s)) (uncharge (s_usage s) k.1 node pod) (assumptions s) (targets s)
              (target_assumptions s) (queued s)
  | None => s
  end.

Definition untarget (s : SchedulingState) (k : ScheduleKey) : SchedulingState :=
  match targets s !! k with
  | Some (node, pod) =>
      mkSched (pending s) (s_placed s) (uncharge (s_usage s) k.1 node pod) (assumptions s) (delete k (targets s))
              (target_assumptions s) (queued s)
  | None => s
  end.

Definition place (s : SchedulingState) (k : ScheduleKey) (np : string * Value) : SchedulingState :=
  mkSched (pending s) (<[k := np]> (s_placed s)) (charge (s_usage s) k.1 np.1 np.2) (assumptions s) (targets s)
          (target_assumptions s) (queued s).

Definition target (s : SchedulingState) (k : ScheduleKey) (np : string * Value) : SchedulingState :=
  mkSched (pending s) (s_placed s) (charge (s_usage s) k.1 np.1 np.2) (assumptions s) (<[k := np]> (targets s))
          (target_assumptions s) (queued s).

Definition with_pending (s : SchedulingState) (p : gmap ScheduleKey Value) : SchedulingState :=
  mkSched p (s_placed s) (s_usage s) (assumptions s) (targets s) (target_assumptions s) (queued s).
Definition with_assumptions (s : SchedulingState) (a : gmap ScheduleKey Assumption) : SchedulingState :=
  mkSched (pending s) (s_placed s) (s_usage s) a (targets s) (target_assumptions s) (queued s).
Definition with_target_assumptions (s : SchedulingState) (a : gmap ScheduleKey (string * Value)) : SchedulingState :=
  mkSched (pending s) (s_placed s) (s_usage s) (assumptions s) (targets s) a (queued s).
Definition with_queued (s : SchedulingState) (q : gmap ScheduleKey Z) : SchedulingState :=
  mkSched (pending s) (s_placed s) (s_usage s) (assumptions s) (targets s) (target_assumptions s) q.

Definition remove (s : SchedulingState) (k : ScheduleKey) : SchedulingState :=
  let s := with_pending s (delete k (pending s)) in
  let s := with_queued s (delete k (queued s)) in
  let s := with_assumptions s (delete k (assumptions s)) in
  let s := with_target_assumptions s (delete k (target_assumptions s)) in
  untarget (unplace s k) k.

(** A later version of the object fences a bind issued with the assumed one. *)
Definition fenced (a : Assumption) (object : Value) : bool :=
  negb (waiting_for_volume a)
  && negb (value_eqb (a_object a).["metadata"].["resourceVersion"] object.["metadata"].["resourceVersion"]).

(** The object is pending, or it is not: the pending, reserved and queued maps. *)
Definition observe_pending (s : SchedulingState) (k : ScheduleKey) (object : Value) (now : Z) : SchedulingState :=
  if pending_workload k.1 object then
    let s := with_queued s (match queued s !! k with Some _ => queued s | None => <[k := now]> (queued s) end) in
    let s := with_pending s (<[k := object]> (pending s)) in
    match assumptions s !! k with
    | Some a => if fenced a object then with_assumptions s (delete k (assumptions s)) else s
    | None => s
    end
  else
    let s := with_assumptions s (delete k (assumptions s)) in
    with_queued s (delete k (queued s)).

(** The migration target of the object, if any. *)
Definition observe_target (s : SchedulingState) (k : ScheduleKey) (object : Value) : SchedulingState :=
  let s := untarget s k in
  let t := migration_target k.1 object in
  let s :=
    if match t with Some _ => true | None => false end || negb (wants_migration_target object)
    then with_target_assumptions s (delete k (target_assumptions s)) else s in
  match t with Some np => target s k np | None => s end.

Definition observe_new (s : SchedulingState) (vm : bool) (object : Value) (now : Z) : SchedulingState :=
  match key_of object with
  | None => s
  | Some key =>
      let k := (vm, key) in
      let s := unplace s k in
      let s := with_pending s (delete k (pending s)) in
      let s := observe_pending s k object now in
      let s := observe_target s k object in
      match placed_workload vm object with Some np => place s k np | None => s end
  end.

Definition observe (s : SchedulingState) (vm : bool) (delta : Delta) (now : Z) : SchedulingState :=
  let s :=
    match old_obj delta ≫= key_of with
    | Some key =>
        if decide ((new_obj delta ≫= key_of) = Some key) then s else remove s (vm, key)
    | None => s
    end in
  match new_obj delta with
  | Some object => observe_new s vm object now
  | None => s
  end.

(** [pod["spec"]["nodeName"] = json!(node)]: panics ([None]) when the object
    or its spec is neither an object nor null. *)
Definition bind_to (pod : Value) (node : string) : option Value := set_index2 pod "spec" "nodeName" (Str node).

Definition reserve_target (s : SchedulingState) (k : ScheduleKey) (object : Value) (node : string) : option SchedulingState :=
  shim ← bind_to (scheduling_shim object) node;
  Some (with_target_assumptions s (<[k := (node, shim)]> (target_assumptions s))).

Definition reserve (s : SchedulingState) (k : ScheduleKey) (object : Value) (node : string) (waiting : bool) :
    SchedulingState :=
  with_assumptions s (<[k := mkAssumption node object waiting]> (assumptions s)).

(** *** The snapshot *)

(** Charge one more workload to the snapshot. *)
Definition push (st : ClusterState) (vm : bool) (node : string) (pod : Value) : ClusterState :=
  mkState (charge (usage st) vm node pod) (placed st ++ [(node, pod)]).

Definition push_target (s : SchedulingState) (current : ScheduleKey) (st : ClusterState)
    (e : ScheduleKey * (string * Value)) : ClusterState :=
  let '(k, (node, shim)) := e in
  if bool_decide (k = current) || bool_decide (is_Some (targets s !! k)) then st else push st k.1 node shim.

Definition push_assumption (s : SchedulingState) (current : ScheduleKey) (st : ClusterState)
    (e : ScheduleKey * Assumption) : option ClusterState :=
  let '(k, reserved) := e in
  if bool_decide (k = current) || bool_decide (is_Some (s_placed s !! k)) then Some st
  else
    pod ← bind_to (if k.1 then scheduling_shim (a_object reserved) else a_object reserved) (a_node reserved);
    Some (push st k.1 (a_node reserved) pod).

Definition push_nominated (s : SchedulingState) (current : ScheduleKey) (prio : option Z) (st : ClusterState)
    (e : ScheduleKey * Value) : option ClusterState :=
  let '(k, p) := e in
  if bool_decide (k = current) || k.1 || bool_decide (is_Some (assumptions s !! k)) then Some st
  else
    match nonempty_str p.["status"].["nominatedNodeName"] with
    | None => Some st
    | Some node =>
        if match prio with Some q => pod_priority p <? q | None => false end then Some st
        else
          held ← bind_to p node;
          Some (push st false node held)
    end.

Fixpoint fold_opt {A B} (f : A → B → option A) (l : list B) (a : A) : option A :=
  match l with [] => Some a | x :: l' => a' ← f a x; fold_opt f l' a' end.

(** The hash maps are walked in some order, here that of [map_to_list]. *)
Definition snapshot (s : SchedulingState) (current : ScheduleKey) : option (ClusterState * option string) :=
  let st := mkState (s_usage s) ((map_to_list (s_placed s)).*2 ++ (map_to_list (targets s)).*2) in
  let st := fold_left (push_target s current) (map_to_list (target_assumptions s)) st in
  st ← fold_opt (push_assumption s current) (map_to_list (assumptions s)) st;
  let prio := pod_priority <$> pending s !! current in
  st ← fold_opt (push_nominated s current prio) (map_to_list (pending s)) st;
  Some (st, a_node <$> assumptions s !! current).

(** ** What a node has promised *)

Inductive comp := Cpu | Mem | Slots.

Definition amount_of (c : comp) (u : NodeUsage) : Z :=
  match c with Cpu => cpu_milli u | Mem => mem_bytes u | Slots => pods u end.

(** What a workload takes of a component. *)
Definition request_of (c : comp) (vm : bool) (pod : Value) : Z :=
  match c with
  | Cpu => (pod_requests pod).1
  | Mem => (pod_requests pod).2
  | Slots => if vm then 0 else 1
  end.

Definition promised (c : comp) (u : gmap string NodeUsage) (n : string) : Z :=
  amount_of c (default no_usage (u !! n)).

Definition at_n (n node : string) (z : Z) : Z := if str_eqb node n then z else 0.

(** The workloads of a map, on one node. *)
Definition load (c : comp) (n : string) (m : gmap ScheduleKey (string * Value)) : Z :=
  map_fold (λ k np acc, at_n n np.1 (request_of c k.1 np.2) + acc) 0 m.

Lemma promised_charge c u vm node pod n :
  is_u64 (promised c u n) →
  promised c (charge u vm node pod) n = wrap64 (promised c u n + at_n n node (request_of c vm pod)).
Proof.
  intros Hu. unfold promised, charge, at_n, request_of in *. destruct (pod_requests pod) as [cpu mem]. cbn [fst snd].
  destruct (str_eqb node n) eqn:E.
  - apply str_eqb_eq in E as ->. rewrite lookup_insert_eq. by destruct c.
  - apply str_eqb_neq in E. rewrite lookup_insert_ne by done. by rewrite Z.add_0_r, wrap64_small.
Qed.

Lemma promised_uncharge c u vm node pod n :
  is_u64 (promised c u n) →
  promised c (uncharge u vm node pod) n = wrap64 (promised c u n - at_n n node (request_of c vm pod)).
Proof.
  intros Hu. unfold promised, uncharge, at_n, request_of in *. destruct (pod_requests pod) as [cpu mem]. cbn [fst snd].
  destruct (str_eqb node n) eqn:E.
  - apply str_eqb_eq in E as ->. rewrite lookup_insert_eq. by destruct c.
  - apply str_eqb_neq in E. rewrite lookup_insert_ne by done. by rewrite Z.sub_0_r, wrap64_small.
Qed.

Lemma load_insert c n m k np :
  m !! k = None → load c n (<[k := np]> m) = at_n n np.1 (request_of c k.1 np.2) + load c n m.
Proof. intros H. unfold load. rewrite map_fold_insert_L; [done| |done]. intros. lia. Qed.

Lemma load_delete c n m k np :
  m !! k = Some np → load c n (delete k m) = load c n m - at_n n np.1 (request_of c k.1 np.2).
Proof.
  intros H. rewrite <- (insert_delete_id m k np H) at 2. rewrite load_insert by apply lookup_delete_eq. lia.
Qed.

(** The usage is the sum, at its width, over what is placed and targeted; a
    pending Pod is not placed. *)
Record accounted (s : SchedulingState) : Prop := {
  acc_usage : ∀ c n, promised c (s_usage s) n = wrap64 (load c n (s_placed s) + load c n (targets s));
  acc_pending : ∀ k, k.1 = false → is_Some (pending s !! k) → s_placed s !! k = None
}.

Lemma accounted_u64 s c n : accounted s → is_u64 (promised c (s_usage s) n).
Proof. intros H. rewrite (acc_usage s H). apply wrap64_range. Qed.

Definition unplaced (s : SchedulingState) (k : ScheduleKey) : Prop := s_placed s !! k = None.
Definition untargeted (s : SchedulingState) (k : ScheduleKey) : Prop := targets s !! k = None.

Lemma unplace_accounted s k : accounted s → accounted (unplace s k) ∧ unplaced (unplace s k) k.
Proof.
  intros Hs. unfold unplace, unplaced. destruct (s_placed s !! k) as [[node pod]|] eqn:E; [|done].
  split; [|apply lookup_delete_eq]. split; cbn [s_usage s_placed targets pending].
  - intros c n. rewrite promised_uncharge by (by apply accounted_u64). rewrite (acc_usage s Hs), wrap64_sub_l.
    rewrite (load_delete _ _ _ _ _ E). f_equal. cbn [fst snd]. lia.
  - intros k' Hk Hp. apply lookup_delete_None. right. by apply (acc_pending s Hs).
Qed.

Lemma untarget_accounted s k : accounted s → accounted (untarget s k) ∧ untargeted (untarget s k) k.
Proof.
  intros Hs. unfold untarget, untargeted. destruct (targets s !! k) as [[node pod]|] eqn:E; [|done].
  split; [|apply lookup_delete_eq]. split; cbn [s_usage s_placed targets pending].
  - intros c n. rewrite promised_uncharge by (by apply accounted_u64). rewrite (acc_usage s Hs), wrap64_sub_l.
    rewrite (load_delete _ _ _ _ _ E). f_equal. cbn [fst snd]. lia.
  - apply (acc_pending s Hs).
Qed.

Lemma target_accounted s k np : accounted s → untargeted s k → accounted (target s k np).
Proof.
  intros Hs Hu. split; cbn [target s_usage s_placed targets pending].
  - intros c n. rewrite promised_charge by (by apply accounted_u64). rewrite (acc_usage s Hs), wrap64_add_l.
    rewrite load_insert by done. f_equal. lia.
  - apply (acc_pending s Hs).
Qed.

Lemma place_accounted s k np :
  accounted s → unplaced s k → (k.1 = false → pending s !! k = None) → accounted (place s k np).
Proof.
  intros Hs Hu Hp. split; cbn [place s_usage s_placed targets pending].
  - intros c n. rewrite promised_charge by (by apply accounted_u64). rewrite (acc_usage s Hs), wrap64_add_l.
    rewrite load_insert by done. f_equal. lia.
  - intros k' Hk Hk'. destruct (decide (k' = k)) as [->|Hne].
    + rewrite Hp in Hk' by done. by destruct Hk'.
    + rewrite lookup_insert_ne by done. by apply (acc_pending s Hs).
Qed.

(** The other maps do not matter. *)
Lemma accounted_same s s' :
  s_usage s' = s_usage s → s_placed s' = s_placed s → targets s' = targets s →
  (∀ k, k.1 = false → is_Some (pending s' !! k) → is_Some (pending s !! k) ∨ s_placed s !! k = None) →
  accounted s → accounted s'.
Proof.
  intros E1 E2 E3 Hp Hs. split; rewrite ?E1, ?E2, ?E3; [apply (acc_usage s Hs)|].
  intros k Hk Hk'. destruct (Hp k Hk Hk') as [?|?]; [by apply (acc_pending s Hs)|done].
Qed.

Lemma remove_accounted s k : accounted s → accounted (remove s k).
Proof.
  intros Hs. unfold remove. apply untarget_accounted, unplace_accounted.
  eapply accounted_same; [..|exact Hs]; try done. intros k' _ Hk'. left. cbn in Hk'.
  destruct Hk' as [x Hx]. apply lookup_delete_Some in Hx as [_ Hx]. by eexists.
Qed.

(** A Pod that is pending has no node, so it is not placed. *)
Lemma pending_not_placed object : pending_workload false object = true → placed_workload false object = None.
Proof.
  unfold pending_workload, placed_workload. destruct (negb (is_null _)); [done|].
  destruct (is_terminal object); [done|]. cbn. by destruct (nonempty_str object.["spec"].["nodeName"]).
Qed.

Lemma untarget_fields s k : pending (untarget s k) = pending s ∧ s_placed (untarget s k) = s_placed s.
Proof. unfold untarget. by destruct (targets s !! k) as [[]|]. Qed.

Lemma observe_pending_fields s k object now :
  let s' := observe_pending s k object now in
  s_usage s' = s_usage s ∧ s_placed s' = s_placed s ∧ targets s' = targets s
  ∧ pending s' = if pending_workload k.1 object then <[k := object]> (pending s) else pending s.
Proof.
  unfold observe_pending. destruct (pending_workload k.1 object); [|done].
  cbn. destruct (assumptions s !! k) as [a|]; [|done]. by destruct (fenced a object).
Qed.

Lemma observe_target_accounted s k object :
  accounted s →
  let s' := observe_target s k object in accounted s' ∧ s_placed s' = s_placed s ∧ pending s' = pending s.
Proof.
  intros Hs. unfold observe_target. destruct (untarget_accounted s k Hs) as [H4 U4].
  destruct (untarget_fields s k) as [G1 G2]. set (s4 := untarget s k) in *. cbn zeta.
  set (drop := _ || negb (wants_migration_target object)).
  set (s5 := if drop then with_target_assumptions s4 (delete k (target_assumptions s4)) else s4).
  assert (accounted s5 ∧ untargeted s5 k ∧ s_placed s5 = s_placed s ∧ pending s5 = pending s) as (H5 & U5 & G3 & G4).
  { subst s5. destruct drop; [|done]. split_and!; try done.
    eapply (accounted_same s4); [..|exact H4]; try done. intros; by left. }
  destruct (migration_target k.1 object) as [np|]; [|done]. split_and!; try done. by apply target_accounted.
Qed.

Lemma observe_new_accounted s vm object now : accounted s → accounted (observe_new s vm object now).
Proof.
  intros Hs. unfold observe_new. destruct (key_of object) as [key|]; [|done]. set (k := (vm, key)). cbn zeta.
  destruct (unplace_accounted s k Hs) as [H1 U1]. set (s1 := unplace s k) in *.
  set (s2 := with_pending s1 (delete k (pending s1))).
  destruct (observe_pending_fields s2 k object now) as (F1 & F2 & F3 & F4).
  set (s3 := observe_pending s2 k object now) in *.
  assert (pending s2 !! k = None) as P2 by apply lookup_delete_eq.
  assert (accounted s3) as H3.
  { eapply (accounted_same s1); [by rewrite F1|by rewrite F2|by rewrite F3| |done].
    intros k' Hk' Hp. destruct (decide (k' = k)) as [->|Hne]; [by right|left].
    rewrite F4 in Hp. destruct (pending_workload k.1 object); [rewrite lookup_insert_ne in Hp by done|];
      (cbn in Hp; rewrite lookup_delete_ne in Hp by done; done). }
  destruct (observe_target_accounted s3 k object H3) as (H6 & G5 & G6).
  destruct (placed_workload vm object) as [np|] eqn:Ep; [|done].
  apply place_accounted; [done|unfold unplaced; by rewrite G5, F2|].
  intros Hk. rewrite G6, F4. destruct (pending_workload k.1 object) eqn:E; [|done].
  cbn in Hk. subst vm. by rewrite (pending_not_placed object E) in Ep.
Qed.

Lemma observe_accounted s vm delta now : accounted s → accounted (observe s vm delta now).
Proof.
  intros Hs. unfold observe. set (s1 := match old_obj delta ≫= key_of with
             | Some key => if decide ((new_obj delta ≫= key_of) = Some key) then s else remove s (vm, key)
             | None => s
             end).
  assert (accounted s1) as H1.
  { subst s1. destruct (old_obj delta ≫= key_of) as [key|]; [|done]. case_decide; [done|by apply remove_accounted]. }
  destruct (new_obj delta) as [object|]; [by apply observe_new_accounted|done].
Qed.

(** What happens to the state: watch events, reservations and their release. *)
Inductive sstep : SchedulingState → SchedulingState → Prop :=
| s_observe s vm delta now : sstep s (observe s vm delta now)
| s_reserve s k object node waiting : sstep s (reserve s k object node waiting)
| s_reserve_target s k object node s' : reserve_target s k object node = Some s' → sstep s s'
| s_release s k : sstep s (with_assumptions s (delete k (assumptions s)))
| s_release_target s k : sstep s (with_target_assumptions s (delete k (target_assumptions s))).

Lemma sstep_accounted s s' : sstep s s' → accounted s → accounted s'.
Proof.
  intros Hst Hs. destruct Hst as [s vm delta now|s k object node waiting|s k object node s' E|s k|s k].
  - by apply observe_accounted.
  - eapply accounted_same; [..|exact Hs]; try done. intros; by left.
  - unfold reserve_target in E. destruct (bind_to _ _); [|done]. injection E as <-.
    eapply accounted_same; [..|exact Hs]; try done. intros; by left.
  - eapply accounted_same; [..|exact Hs]; try done. intros; by left.
  - eapply accounted_same; [..|exact Hs]; try done. intros; by left.
Qed.

Lemma default_accounted : accounted default_state.
Proof. split; [|done]. intros c n. by destruct c. Qed.

Lemma reachable_accounted s : rtc sstep default_state s → accounted s.
Proof.
  assert (∀ s0 s1, rtc sstep s0 s1 → accounted s0 → accounted s1) as Hg; [|intros H; by apply (Hg _ _ H), default_accounted].
  induction 1 as [|x y z Hxy _ IH]; [done|]. intros Hx. apply IH. by eapply sstep_accounted.
Qed.

(** C30: In every reachable state what a node has promised — milli-CPU, bytes
    and Pod slots — is exactly the sum over the workloads placed on it and the
    migrations targeted at it, kept by charging and uncharging alone; and a
    pending Pod is never also placed. *)
Theorem usage_is_sum (s : SchedulingState) :
  rtc sstep default_state s →
  (∀ c n, promised c (s_usage s) n = wrap64 (load c n (s_placed s) + load c n (targets s)))
  ∧ ∀ key, is_Some (pending s !! (false, key)) → s_placed s !! (false, key) = None.
Proof.
  intros H%reachable_accounted. split; [apply (acc_usage s H)|]. intros key. by apply (acc_pending s H).
Qed.

(** ** What a scheduling decision sees *)

(** A snapshot's usage is the sum over the pods it lists (the Pod slots apart,
    which a listed virtual machine does not take). *)
Definition consistent (st : ClusterState) : Prop :=
  ∀ c n, c ≠ Slots →
    promised c (usage st) n = wrap64 (sumZ (λ np, at_n n np.1 (request_of c false np.2)) (placed st)).

Lemma request_any c vm pod : c ≠ Slots → request_of c vm pod = request_of c false pod.
Proof. by destruct c. Qed.

Lemma push_consistent st vm node pod : consistent st → consistent (push st vm node pod).
Proof.
  intros H c n Hc. cbn [push usage placed].
  rewrite promised_charge by (rewrite H by done; apply wrap64_range). rewrite H, wrap64_add_l by done.
  rewrite sumZ_app, sumZ_cons, sumZ_nil. f_equal. cbn [fst snd]. rewrite (request_any c vm) by done. lia.
Qed.

Lemma load_sum c n m :
  c ≠ Slots → load c n m = sumZ (λ np, at_n n np.1 (request_of c false np.2)) (map_to_list m).*2.
Proof.
  intros Hc. unfold load. rewrite map_fold_foldr. induction (map_to_list m) as [|[k np] l IH]; [done|].
  cbn [foldr uncurry]. rewrite fmap_cons, sumZ_cons, <- IH. cbn [fst snd]. by rewrite (request_any c k.1).
Qed.

(** The keys behind the pods of a snapshot; [true] marks a migration target. *)
Notation Entry := ((bool * ScheduleKey) * (string * Value))%type.

(** [fold] adds, for some of the keys of [l], an entry of the given role. *)
Definition extends (role : bool) (fresh : ScheduleKey → Prop) (keys : list ScheduleKey) (st st' : ClusterState) : Prop :=
  ∃ es : list Entry, placed st' = (placed st ++ es.*2)%list
    ∧ es.*1 `sublist_of` (pair role <$> keys) ∧ ∀ rk, rk ∈ es.*1 → fresh rk.2.

Lemma extends_refl role fresh k st : extends role fresh [k] st st.
Proof.
  exists []. split_and!; [by rewrite app_nil_r|apply sublist_nil_l|]. intros e He. by apply not_elem_of_nil in He.
Qed.

Lemma extends_push (role vm : bool) (fresh : ScheduleKey → Prop) k st node pod :
  fresh k → extends role fresh [k] st (push st vm node pod).
Proof.
  intros Hk. exists [((role, k), (node, pod))]. split_and!; [done|done|].
  intros e ->%list_elem_of_singleton. done.
Qed.

Lemma extends_cons role fresh k ks st st1 st2 :
  extends role fresh [k] st st1 → extends role fresh ks st1 st2 → extends role fresh (k :: ks) st st2.
Proof.
  intros (e1 & P1 & S1 & F1) (e2 & P2 & S2 & F2). exists (e1 ++ e2)%list. split_and!.
  - rewrite P2, P1, fmap_app. by rewrite app_assoc.
  - rewrite fmap_app. change (k :: ks) with ([k] ++ ks)%list. rewrite fmap_app. by apply sublist_app.
  - intros e. rewrite fmap_app. intros [?|?]%elem_of_app; auto.
Qed.

Lemma push_target_spec s current st e :
  consistent st →
  let st' := push_target s current st e in
  consistent st' ∧ extends true (λ k, targets s !! k = None) [e.1] st st'.
Proof.
  intros Hc. destruct e as [k [node shim]]. unfold push_target.
  destruct (bool_decide (k = current) || bool_decide (is_Some (targets s !! k))) eqn:E.
  - split; [done|apply extends_refl].
  - split; [by apply push_consistent|]. apply (extends_push true). apply orb_false_iff in E as [_ E].
    apply bool_decide_eq_false in E. by apply eq_None_not_Some.
Qed.

Lemma push_assumption_spec s current st e st' :
  consistent st → push_assumption s current st e = Some st' →
  consistent st' ∧ extends false (λ k, s_placed s !! k = None) [e.1] st st'.
Proof.
  intros Hc. destruct e as [k a]. unfold push_assumption.
  destruct (bool_decide (k = current) || bool_decide (is_Some (s_placed s !! k))) eqn:E.
  - intros [= <-]. split; [done|apply extends_refl].
  - destruct (bind_to _ _) as [pod|]; [|done]. intros [= <-].
    split; [by apply push_consistent|]. apply (extends_push false). apply orb_false_iff in E as [_ E].
    apply bool_decide_eq_false in E. by apply eq_None_not_Some.
Qed.

Lemma push_nominated_spec s current prio st e st' :
  consistent st → push_nominated s current prio st e = Some st' →
  consistent st' ∧ extends false (λ k, k.1 = false ∧ assumptions s !! k = None) [e.1] st st'.
Proof.
  intros Hc. destruct e as [k p]. unfold push_nominated.
  destruct (bool_decide (k = current) || k.1 || bool_decide (is_Some (assumptions s !! k))) eqn:E.
  - intros [= <-]. split; [done|apply extends_refl].
  - destruct (nonempty_str p.["status"].["nominatedNodeName"]) as [node|].
    2:{ intros [= <-]. split; [done|apply extends_refl]. }
    destruct (match prio with Some q => pod_priority p <? q | None => false end).
    { intros [= <-]. split; [done|apply extends_refl]. }
    destruct (bind_to p node) as [held|]; [|done]. intros [= <-].
    split; [by apply push_consistent|]. apply (extends_push false).
    apply orb_false_iff in E as [E E1]. apply orb_false_iff in E as [_ E2].
    apply bool_decide_eq_false in E1. split; [done|by apply eq_None_not_Some].
Qed.

Lemma fold_spec {B} (f : ClusterState → ScheduleKey * B → ClusterState) role fresh l st :
  (∀ st e, consistent st → let st' := f st e in consistent st' ∧ extends role fresh [e.1] st st') →
  consistent st →
  let st' := fold_left f l st in consistent st' ∧ extends role fresh l.*1 st st'.
Proof.
  intros Hf. revert st. induction l as [|e l IH]; intros st Hc; cbn [fold_left].
  - split; [done|]. exists []. split_and!; [by rewrite app_nil_r|done|]. intros e He. by apply not_elem_of_nil in He.
  - destruct (Hf st e Hc) as [H1 X1]. destruct (IH _ H1) as [H2 X2]. split; [done|]. rewrite fmap_cons.
    by eapply extends_cons.
Qed.

Lemma fold_opt_spec {B} (f : ClusterState → ScheduleKey * B → option ClusterState) role fresh l st st' :
  (∀ st e st', consistent st → f st e = Some st' → consistent st' ∧ extends role fresh [e.1] st st') →
  consistent st → fold_opt f l st = Some st' →
  consistent st' ∧ extends role fresh l.*1 st st'.
Proof.
  intros Hf. revert st. induction l as [|e l IH]; intros st Hc; cbn [fold_opt].
  - intros [= <-]. split; [done|]. exists []. split_and!; [by rewrite app_nil_r|done|].
    intros e He. by apply not_elem_of_nil in He.
  - destruct (f st e) as [st1|] eqn:E; cbn [mbind option_bind]; [|done]. intros Hr.
    destruct (Hf st e st1 Hc E) as [H1 X1]. destruct (IH _ H1 Hr) as [H2 X2]. split; [done|]. rewrite fmap_cons.
    by eapply extends_cons.
Qed.

Lemma roles_nodup role keys (l : list (bool * ScheduleKey)) :
  NoDup keys → l `sublist_of` (pair role <$> keys) → NoDup l ∧ ∀ e, e ∈ l → e.1 = role ∧ e.2 ∈ keys.
Proof.
  intros Hk Hs. split.
  - eapply sublist_NoDup; [|exact Hs]. apply NoDup_fmap_2; [|done]. by intros ?? [= ->].
  - intros e He. eapply sublist_subseteq in He; [|done]. by apply list_elem_of_fmap in He as (k & -> & ?).
Qed.

(** The entries a snapshot starts from. *)
Definition placed_entries (s : SchedulingState) : list Entry := (λ kv, ((false, kv.1), kv.2)) <$> map_to_list (s_placed s).
Definition target_entries (s : SchedulingState) : list Entry := (λ kv, ((true, kv.1), kv.2)) <$> map_to_list (targets s).

Lemma key_present {V} (m : gmap ScheduleKey V) k : k ∈ (map_to_list m).*1 → is_Some (m !! k).
Proof. intros ([k' x] & -> & Hx)%list_elem_of_fmap. apply elem_of_map_to_list in Hx. by eexists. Qed.

(** Entries of one role come from disjoint maps. *)
Lemma entries_nodup s l1 l2 l3 :
  accounted s →
  l1 `sublist_of` (pair true <$> (map_to_list (target_assumptions s)).*1) → (∀ x, x ∈ l1 → targets s !! x.2 = None) →
  l2 `sublist_of` (pair false <$> (map_to_list (assumptions s)).*1) → (∀ x, x ∈ l2 → s_placed s !! x.2 = None) →
  l3 `sublist_of` (pair false <$> (map_to_list (pending s)).*1) →
  (∀ x, x ∈ l3 → x.2.1 = false ∧ assumptions s !! x.2 = None) →
  NoDup (((placed_entries s).*1 ++ (target_entries s).*1) ++ l1 ++ l2 ++ l3).
Proof.
  intros Hs S1 F1 S2 F2 S3 F3.
  assert ((placed_entries s).*1 = pair false <$> (map_to_list (s_placed s)).*1) as Ep
    by (unfold placed_entries; by rewrite <- !list_fmap_compose).
  assert ((target_entries s).*1 = pair true <$> (map_to_list (targets s)).*1) as Et
    by (unfold target_entries; by rewrite <- !list_fmap_compose).
  destruct (roles_nodup false _ (placed_entries s).*1 (NoDup_fst_map_to_list (s_placed s))) as [Dp Rp]; [by rewrite Ep|].
  destruct (roles_nodup true _ (target_entries s).*1 (NoDup_fst_map_to_list (targets s))) as [Dt Rt]; [by rewrite Et|].
  destruct (roles_nodup true _ l1 (NoDup_fst_map_to_list _) S1) as [D1 R1].
  destruct (roles_nodup false _ l2 (NoDup_fst_map_to_list _) S2) as [D2 R2].
  destruct (roles_nodup false _ l3 (NoDup_fst_map_to_list _) S3) as [D3 R3].
  assert (∀ x, x ∈ l3 → s_placed s !! x.2 = None) as F3'.
  { intros x Hx. destruct (F3 x Hx) as [Hvm _], (R3 x Hx) as [_ Hk]. by apply (acc_pending s Hs), key_present. }
  assert (∀ x, x ∈ (placed_entries s).*1 → x.1 = false ∧ is_Some (s_placed s !! x.2)) as Rp'.
  { intros x Hx. destruct (Rp x Hx). split; [done|by apply key_present]. }
  assert (∀ x, x ∈ (target_entries s).*1 → x.1 = true ∧ is_Some (targets s !! x.2)) as Rt'.
  { intros x Hx. destruct (Rt x Hx). split; [done|by apply key_present]. }
  rewrite !NoDup_app. split_and!; try done.
  - intros x Hp%Rp' Ht%Rt'. destruct Hp as [Hp _], Ht as [Ht _]. congruence.
  - intros x Hx. rewrite !elem_of_app. apply elem_of_app in Hx as [[Hr [v Hk]]%Rp'|[Hr [v Hk]]%Rt'];
      (intros [Hl|[Hl|Hl]];
       [destruct (R1 x Hl) as [Er _]; specialize (F1 x Hl)|destruct (R2 x Hl) as [Er _]; specialize (F2 x Hl)|
        destruct (R3 x Hl) as [Er _]; specialize (F3' x Hl)]); congruence.
  - intros x Hx. destruct (R1 x Hx) as [Er _]. rewrite elem_of_app.
    intros [Hl|Hl]; [destruct (R2 x Hl)|destruct (R3 x Hl)]; congruence.
  - intros x Hx Hl. destruct (R2 x Hx) as [_ [v Hk]%key_present], (F3 x Hl). congruence.
Qed.

(** The cluster a decision is made against accounts for what it lists: its
    CPU and memory usage on each node is the sum over its pods there, and the
    pods are those of distinct workloads, each at most once as a placement
    and once as a migration target — a reservation is not counted beside the
    placement it became, nor a nomination beside a reservation. *)
Theorem snapshot_charges_once (s : SchedulingState) (current : ScheduleKey) (st : ClusterState) (node : option string) :
  rtc sstep default_state s → snapshot s current = Some (st, node) →
  consistent st ∧ ∃ es : list Entry, placed st = es.*2 ∧ NoDup es.*1.
Proof.
  intros Hs%reachable_accounted. unfold snapshot. set (st0 := mkState (s_usage s) _).
  assert (consistent st0) as H0.
  { intros c n Hc. subst st0. cbn [usage placed]. by rewrite (acc_usage s Hs), sumZ_app, !load_sum. }
  destruct (fold_spec (push_target s current) true (λ k, targets s !! k = None) (map_to_list (target_assumptions s)) st0)
    as [H1 (e1 & P1 & S1 & F1)]; [intros; by apply push_target_spec|done|].
  set (st1 := fold_left _ _ st0) in *.
  destruct (fold_opt (push_assumption s current) (map_to_list (assumptions s)) st1) as [st2|] eqn:E2; cbn [mbind option_bind]; [|done].
  destruct (fold_opt_spec _ false (λ k, s_placed s !! k = None) _ _ _
    ltac:(intros; by eapply push_assumption_spec) H1 E2) as [H2 (e2 & P2 & S2 & F2)].
  destruct (fold_opt (push_nominated _ _ _) (map_to_list (pending s)) st2) as [st3|] eqn:E3; cbn [mbind option_bind]; [|done].
  destruct (fold_opt_spec _ false (λ k, k.1 = false ∧ assumptions s !! k = None) _ _ _
    ltac:(intros; by eapply push_nominated_spec) H2 E3) as [H3 (e3 & P3 & S3 & F3)].
  intros [= <- _]. split; [done|].
  exists ((placed_entries s ++ target_entries s) ++ e1 ++ e2 ++ e3)%list. split.
  - rewrite P3, P2, P1. subst st0. cbn [placed]. rewrite !fmap_app. unfold placed_entries, target_entries.
    rewrite <- !list_fmap_compose, !app_assoc. done.
  - rewrite !fmap_app. by apply entries_nodup.
Qed.

(** *** Witnesses *)

Definition demo_object (n node : string) : Value :=
  json_obj [("metadata", json_obj [("name", Str n); ("namespace", Str "d"); ("uid", Str n)]);
            ("spec", json_obj [("nodeName", Str node);
                               ("containers", Array [json_obj [("name", Str "c");
                                  ("resources", json_obj [("requests", json_obj [("cpu", Str "500m")])])]])])].

(** A bound Pod is seen, a second is pending and reserved on the same node. *)
Definition demo_sched : SchedulingState :=
  let s := observe default_state false (mkDelta None (Some (demo_object "a" "n1")) ∅) 0 in
  let s := observe s false (mkDelta None (Some (demo_object "b" "")) ∅) 1 in
  reserve s (false, mkKey "d" "b" "b") (demo_object "b" "") "n1" false.

Lemma demo_sched_reachable : rtc sstep default_state demo_sched.
Proof. eapply rtc_l; [apply s_observe|]. eapply rtc_l; [apply s_observe|]. eapply rtc_l; [apply s_reserve|]. apply rtc_refl. Qed.

Lemma usage_is_sum_witness : promised Cpu (s_usage demo_sched) "n1" = 500.
Proof.
  destruct (usage_is_sum demo_sched demo_sched_reachable) as [H _]. rewrite (H Cpu "n1"). vm_compute. reflexivity.
Defined.

Lemma snapshot_charges_once_witness :
  ∃ st node, snapshot demo_sched (false, mkKey "d" "c" "c") = Some (st, node)
    ∧ promised Cpu (usage st) "n1" = 1000 ∧ consistent st.
Proof.
  destruct (snapshot demo_sched (false, mkKey "d" "c" "c")) as [[st node]|] eqn:E; [|exfalso; by vm_compute in E].
  exists st, node. split; [reflexivity|]. split.
  - vm_compute in E. injection E as <- _. vm_compute. reflexivity.
  - exact (proj1 (snapshot_charges_once demo_sched (false, mkKey "d" "c" "c") st node demo_sched_reachable E)).
Defined.
