(* ===== verification/Schedule.v ===== *)
(** * Placing a workload ([pkg/scheduler/src/scheduler.rs], [volumebinding.rs])

    Where a Pod's storage can be ([filter_node], [rwop_conflict]), the
    decision for one Pod ([schedule_pod]): filters, scores, claims before the
    Pod, the reservation before the write, and preemption when nothing fits;
    the decision for a virtual machine and for the target of its migration;
    and what is reported of a workload that cannot be placed.  The filters
    and scores are those of [Filter], the victims those of [Preemption], the
    reservations those of [SchedState].

    Parameters: [show_err] is the text of a client error; [fresh] the fresh
    part of each Event (name suffix, times, host); [now_s] and [now_us] the
    time to the second and to the microsecond.

    Proved: a Pod is bound exactly when some node passes every filter, its
    storage included, and to one of the best of those; the storage filter
    says what the claims say; preemption evicts only the victims selected,
    after the node was nominated; a migration goes to the best other node. *)

From Stdlib Require Import ZArith Lia String Ascii.
From stdpp Require Import base gmap strings numbers option list.
From S2P Require Import Prelude Text BTree Informer Json Quantity Selector Filter Preemption SchedState Client.
Open Scope string_scope.
Open Scope kube_scope.
Open Scope Z_scope.

Module Volumes.

Definition ANN_SELECTED_NODE : string := "volume.kubernetes.io/selected-node".

Record VolumeState := mkVolumes {
  claims : gmap (string * string) Value; volumes : gmap string Value; classes : gmap string Value;
  capacities : list Value; capacity_tracking : list string }.

Definition claim (s : VolumeState) (namespace name : string) : option Value := claims s !! (namespace, name).

Definition claim_of (pod_name : string) (v : Value) : option string :=
  match as_str v.["persistentVolumeClaim"].["claimName"] with
  | Some c => Some c
  | None => match get v "ephemeral" with Some _ => Some (pod_name ++ "-" ++ str_or "" v.["name"]) | None => None end
  end.

Definition pod_claims (pod : Value) : list string := omap (claim_of (str_or "" pod.["metadata"].["name"])) (items pod.["spec"].["volumes"]).

Definition uses_storage (pod : Value) : bool := match pod_claims pod with [] => false | _ => true end.

Definition is_unbound (namespace : string) (s : VolumeState) (c : string) : bool :=
  match claim s namespace c with Some pvc => is_empty_str (str_or "" pvc.["spec"].["volumeName"]) | None => true end.

Definition unbound_claims (pod : Value) (namespace : string) (s : VolumeState) : list string := List.filter (is_unbound namespace s) (pod_claims pod).

Definition one_pod_only (namespace : string) (s : VolumeState) (c : string) : bool :=
  match claim s namespace c with
  | Some pvc => existsb (λ v, str_is v "ReadWriteOncePod") (items pvc.["spec"].["accessModes"])
  | None => false
  end.

(** The first claim wanted that this Pod holds. *)
Definition held_by (namespace me : string) (wanted : list string) (other : Value) : option string :=
  if negb (str_eqb (str_or "default" other.["metadata"].["namespace"]) namespace) then None
  else if str_eqb (str_or "" other.["metadata"].["name"]) me then None
  else head (List.filter (λ w, str_in w (pod_claims other)) wanted).

Definition rwop_conflict (pod : Value) (namespace : string) (s : VolumeState) (placed : list (string * Value)) : option string :=
  let me := str_or "" pod.["metadata"].["name"] in
  let wanted := List.filter (one_pod_only namespace s) (pod_claims pod) in
  match wanted with
  | [] => None
  | _ => head (omap (λ np, (λ want, "persistentvolumeclaim " ++ namespace ++ "/" ++ want ++ " is ReadWriteOncePod and is already used by pod "
                                      ++ str_or "" np.2.["metadata"].["name"]) <$> held_by namespace me wanted np.2) placed)
  end.

Definition capacity_fits (pvc : Value) (class_name : string) (node : Value) (s : VolumeState) : bool :=
  let want := parse_bytes (str_or "0" pvc.["spec"].["resources"].["requests"].["storage"]) in
  let labels := node.["metadata"].["labels"] in
  existsb (λ cap,
    if negb (str_is cap.["storageClassName"] class_name) then false
    else if negb (is_null cap.["nodeTopology"]) && negb (LabelSelector.matches cap.["nodeTopology"] labels) then false
    else
      let limit := match as_str cap.["maximumVolumeSize"] with Some l => l | None => str_or "0" cap.["capacity"] end in
      want <=? parse_bytes limit) (capacities s).

Definition nonempty (v : Value) : option string := as_str v ≫= λ s, if is_empty_str s then None else Some s.

(** One claim, on one node. *)
Definition claim_allows (namespace : string) (node : Value) (s : VolumeState) (claim_name : string) : result unit string :=
  let node_name := str_or "" node.["metadata"].["name"] in
  match claim s namespace claim_name with
  | None => Ok tt
  | Some pvc =>
      let volume_name := str_or "" pvc.["spec"].["volumeName"] in
      if negb (is_empty_str volume_name) then
        match volumes s !! volume_name with
        | None => Ok tt
        | Some pv =>
            match items pv.["spec"].["nodeAffinity"].["required"].["nodeSelectorTerms"] with
            | [] => Ok tt
            | terms =>
                if existsb (λ t, node_selector_term_matches t (as_object node.["metadata"].["labels"]) node_name) terms then Ok tt
                else Err ("volume " ++ volume_name ++ " (claim " ++ claim_name ++ ") is not available on this node")
            end
        end
      else
        let fits :=
          match nonempty pvc.["spec"].["storageClassName"] with
          | None => Ok tt
          | Some class_name =>
              match classes s !! class_name with
              | None => Ok tt
              | Some class =>
                  if str_in (str_or "" class.["provisioner"]) (capacity_tracking s) && negb (capacity_fits pvc class_name node s)
                  then Err ("no published storage capacity for class " ++ class_name ++ " on this node") else Ok tt
              end
          end in
        match nonempty pvc.["metadata"].["annotations"].[ANN_SELECTED_NODE] with
        | Some selected => if str_eqb selected node_name then fits else Err ("claim " ++ claim_name ++ " already selected node " ++ selected)
        | None => fits
        end
  end.

Fixpoint claims_allow (namespace : string) (node : Value) (s : VolumeState) (l : list string) : result unit string :=
  match l with [] => Ok tt | c :: l => _ <-? claim_allows namespace node s c ;; claims_allow namespace node s l end.

Definition filter_node (pod : Value) (namespace : string) (node : Value) (s : VolumeState) : result unit string :=
  claims_allow namespace node s (pod_claims pod).
End Volumes.
Import Volumes.

Module Scheduler.

(** ** What is said *)

(** Reasons counted, in the order they were first seen. *)
Fixpoint count_reason (counts : list (string * Z)) (r : string) : list (string * Z) :=
  match counts with
  | [] => [(r, 1)]
  | (r', n) :: counts => if str_eqb r' r then (r', n + 1) :: counts else (r', n) :: count_reason counts r
  end.

(** Most common first, then by text. *)
Definition before (a b : string * Z) : bool := (b.2 <? a.2) || ((a.2 =? b.2) && negb (str_ltb b.1 a.1)).
Fixpoint insert_count (x : string * Z) (l : list (string * Z)) : list (string * Z) :=
  match l with [] => [x] | y :: l' => if before x y then x :: l else y :: insert_count x l' end.

Definition unschedulable_message (nodes : Z) (refused : list string) : string :=
  if nodes =? 0 then "0/0 nodes are available: no nodes are registered."
  else
    let counts := foldr insert_count [] (fold_left count_reason refused []) in
    "0/" ++ show_u nodes ++ " nodes are available: " ++ String.concat ", " ((λ rn, show_u rn.2 ++ " " ++ rn.1) <$> counts) ++ ".".

Definition COMPONENT : string := "default-scheduler".
Definition SCHEDULED_AT : string := "storm.io/scheduled-at".

(** An Event; [fresh] is its name suffix, time, microsecond time and host. *)
Record Fresh := mkFresh { f_suffix : string; f_time : string; f_micro : string; f_host : string }.

Definition event (fresh : Fresh) (pod : Value) (etype reason action message : string) : Value :=
  let meta := pod.["metadata"] in
  let namespace := str_or "default" meta.["namespace"] in
  let name := str_or "" meta.["name"] in
  json_obj [("apiVersion", Str "v1"); ("kind", Str "Event");
    ("metadata", json_obj [("name", Str (name ++ "." ++ String.substring 0 16 (f_suffix fresh))); ("namespace", Str namespace)]);
    ("involvedObject", json_obj [("apiVersion", Str "v1"); ("kind", Str "Pod"); ("namespace", Str namespace); ("name", Str name); ("uid", meta.["uid"])]);
    ("reason", Str reason); ("message", Str message); ("type", Str etype); ("action", Str action); ("count", num_i64 1);
    ("firstTimestamp", Str (f_time fresh)); ("lastTimestamp", Str (f_time fresh)); ("eventTime", Str (f_micro fresh));
    ("source", json_obj [("component", Str COMPONENT); ("host", Str (f_host fresh))]);
    ("reportingComponent", Str COMPONENT); ("reportingInstance", Str (f_host fresh))].

Definition failed_scheduling (fresh : Fresh) (pod : Value) (why : string) : Value := event fresh pod "Warning" "FailedScheduling" "Scheduling" why.

Definition pod_path (namespace name : string) : string := "/api/v1/namespaces/" ++ namespace ++ "/pods/" ++ name.
Definition events_path (namespace : string) : string := "/api/v1/namespaces/" ++ namespace ++ "/events".

(** [PodScheduled=False], when it says something new. *)
Definition report_pod_scheduled_false (fresh : Fresh) (ns : string) (pod : Value) (reason why : string) (with_event : bool) (now_s : string) : Prog unit :=
  let name := str_or "" pod.["metadata"].["name"] in
  let current := head (List.filter (λ c, str_is c.["type"] "PodScheduled") (items pod.["status"].["conditions"])) in
  let says (c : Value) := str_is c.["status"] "False" && str_is c.["reason"] reason && str_is c.["message"] why in
  if (match current with Some c => says c | None => false end) then Ret tt
  else
    let since := match current with
                 | Some c => if str_is c.["status"] "False" then default now_s (as_str c.["lastTransitionTime"]) else now_s
                 | None => now_s
                 end in
    _ <== api_patch (pod_path ns name ++ "/status")
            (json_obj [("metadata", json_obj [("uid", pod.["metadata"].["uid"])]);
                       ("status", json_obj [("conditions", Array [json_obj [("type", Str "PodScheduled"); ("status", Str "False");
                          ("reason", Str reason); ("message", Str why); ("lastTransitionTime", Str since)]])])]) ;;
    if negb with_event then Ret tt
    else _ <== send_create (events_path ns) (failed_scheduling fresh pod why) ;; Ret tt.

(** ** Pods *)

Record Bind := mkBind { b_node : string; b_path : string; b_body : Value }.
Inductive Placement :=
  | PBind (b : Bind)
  | PWaiting (node : string) (patches : list (string * Value))
  | PUnschedulable (why : string).

Section Controller.
  Variables (show_err : ClientError → string) (fresh : nat → Fresh).

Definition eviction (v : Value) : Value :=
  json_obj [("apiVersion", Str "policy/v1"); ("kind", Str "Eviction");
            ("metadata", json_obj [("name", Str (str_or "" v.["metadata"].["name"])); ("namespace", Str (str_or "default" v.["metadata"].["namespace"]))]);
            ("deleteOptions", json_obj [("preconditions", json_obj [("uid", v.["metadata"].["uid"])])])].

Definition eviction_path (v : Value) : string :=
  pod_path (str_or "default" v.["metadata"].["namespace"]) (str_or "" v.["metadata"].["name"]) ++ "/eviction".

(** The victims in turn, until one is refused. *)
Fixpoint evict (why node : string) (pod : Value) (i : nat) (evicted : Z) (l : list Value) : Prog string :=
  match l with
  | [] => Ret (why ++ " Preemption: " ++ show_u evicted ++ " pod(s) evicted on node " ++ node ++ ".")
  | v :: l =>
      let vns := str_or "default" v.["metadata"].["namespace"] in
      r <== send_create (eviction_path v) (eviction v) ;;
      match r with
      | Err e => Ret (why ++ " Preemption: evicting " ++ vns ++ "/" ++ str_or "" v.["metadata"].["name"] ++ " on " ++ node ++ " was refused: " ++ show_err e)
      | Ok _ =>
          _ <== send_create (events_path vns)
                  (event (fresh i) v "Normal" "Preempted" "Preempting"
                     ("Preempted by pod " ++ str_or "" pod.["metadata"].["uid"] ++ " on node " ++ node)) ;;
          evict why node pod (S i) (evicted + 1) l
      end
  end.

Definition nomination (pod : Value) (node : string) : Value :=
  json_obj [("metadata", json_obj [("uid", pod.["metadata"].["uid"])]); ("status", json_obj [("nominatedNodeName", Str node)])].

Definition storage_allows (pod : Value) (namespace : string) (vols : VolumeState) (n : Value) : bool := is_ok (filter_node pod namespace n vols).

Definition preempt (namespace : string) (pod : Value) (nodes : list Value) (state : ClusterState) (vols : VolumeState) (why : string) : Prog string :=
  if negb (may_preempt pod) then Ret why
  else if waiting_for_victims pod state then Ret (why ++ " Waiting for preempted pods to terminate.")
  else if negb (existsb (λ np, pod_priority np.2 <? pod_priority pod) (placed state)) then Ret why
  else
    let candidates := List.filter (storage_allows pod namespace vols) nodes in
    r <== api_list "/apis/policy/v1/poddisruptionbudgets" ;;
    match r with
    | Err e => Ret (why ++ " Preemption: cannot read PodDisruptionBudgets: " ++ show_err e)
    | Ok l =>
        match select pod candidates nodes state (items l.["items"]) with
        | None => Ret (why ++ " Preemption: no lower-priority pods whose removal would make room.")
        | Some c =>
            r <== api_patch_merge (pod_path namespace (str_or "" pod.["metadata"].["name"]) ++ "/status") (nomination pod (cand_node c)) ;;
            match r with
            | Err e => Ret (why ++ " Preemption: could not nominate node " ++ cand_node c ++ ": " ++ show_err e)
            | Ok _ => evict why (cand_node c) pod 0 0 (victims c)
            end
        end
    end.

(** Why a node is refused, if it is. *)
Definition refusal_of (pod : Value) (namespace : string) (nodes : list Value) (state : ClusterState) (vols : VolumeState) (node : Value) : option string :=
  match match run_filters pod node (used state node) state nodes with
        | Pass => pod_count_filter node (used state node)
        | fail => fail
        end with
  | Fail reason => Some reason
  | Pass => match filter_node pod namespace node vols with Ok _ => None | Err reason => Some reason end
  end.

Definition feasible (pod : Value) (namespace : string) (nodes : list Value) (state : ClusterState) (vols : VolumeState) : list Value :=
  List.filter (λ n, match refusal_of pod namespace nodes state vols n with None => true | Some _ => false end) nodes.

(** The head of a stable sort, best score first. *)
Definition best_node (pod : Value) (nodes : list Value) (state : ClusterState) (l : list Value) : option Value :=
  head (sort_by_key (λ n, - score_node pod n (used state n) state nodes) l).

Definition selected_patch (observed : Value) (node : string) : Value :=
  json_obj [("metadata", json_obj [("uid", observed.["metadata"].["uid"]); ("resourceVersion", observed.["metadata"].["resourceVersion"]);
                                   ("annotations", json_obj [(ANN_SELECTED_NODE, Str node)])])].

Definition pvc_path (namespace name : string) : string := "/api/v1/namespaces/" ++ namespace ++ "/persistentvolumeclaims/" ++ name.

Fixpoint claim_patches (namespace node : string) (vols : VolumeState) (l : list string) : result (list (string * Value)) string :=
  match l with
  | [] => Ok []
  | c :: l =>
      let already := default "" (claim vols namespace c ≫= λ v, as_str v.["metadata"].["annotations"].[ANN_SELECTED_NODE]) in
      if str_eqb already node then claim_patches namespace node vols l
      else match claim vols namespace c with
           | None => Err ("claim " ++ namespace ++ "/" ++ c ++ " disappeared")
           | Some observed => rest <-? claim_patches namespace node vols l ;; Ok ((pvc_path namespace c, selected_patch observed node) :: rest)
           end
  end.

(** The Pod as it is bound. *)
Definition bound_pod (pod : Value) (node now_s now_us : string) : option Value :=
  p ← set_index2 pod "spec" "nodeName" (Str node);
  p ← (if is_object p.["metadata"].["annotations"] then Some p else set_index2 p "metadata" "annotations" (json_obj []));
  a ← set_index p.["metadata"].["annotations"] SCHEDULED_AT (Str now_us);
  p ← set_index2 p "metadata" "annotations" a;
  p ← set_index2 p "status" "phase" (Str "Pending");
  set_index2 (remove_at p "status" "nominatedNodeName") "status" "conditions"
    (Array [json_obj [("type", Str "PodScheduled"); ("status", Str "True"); ("reason", Str "Scheduled"); ("message", Str ("Bound to node " ++ node));
                      ("lastTransitionTime", Str now_s)]]).

Definition schedule_pod (namespace : string) (pod : Value) (nodes : list Value) (state : ClusterState) (vols : VolumeState)
    (observed : SchedulingState) (key : ScheduleKey) (now_s now_us : string) : Prog (SchedulingState * result Placement string) :=
  match as_str pod.["metadata"].["name"] with
  | None => Ret (observed, Err "pod missing name")
  | Some pod_name =>
      match rwop_conflict pod namespace vols (placed state) with
      | Some reason => Ret (observed, Ok (PUnschedulable reason))
      | None =>
          match best_node pod nodes state (feasible pod namespace nodes state vols) with
          | None =>
              let refused := omap (refusal_of pod namespace nodes state vols) nodes in
              why <== preempt namespace pod nodes state vols (unschedulable_message (Z.of_nat (length nodes)) refused) ;;
              Ret (observed, Ok (PUnschedulable why))
          | Some chosen =>
              match as_str chosen.["metadata"].["name"] with
              | None => Ret (observed, Err "node missing name")
              | Some chosen_name =>
                  match unbound_claims pod namespace vols with
                  | [] =>
                      let observed := reserve observed key pod chosen_name false in
                      Ret (observed, match bound_pod pod chosen_name now_s now_us with
                                     | Some body => Ok (PBind (mkBind chosen_name (pod_path namespace pod_name) body))
                                     | None => Err "panic"
                                     end)
                  | unbound =>
                      Ret (observed, match claim_patches namespace chosen_name vols unbound with
                                     | Ok patches => Ok (PWaiting chosen_name patches)
                                     | Err e => Err e
                                     end)
                  end
              end
          end
      end
  end.
End Controller.

(** ** Virtual machines *)

Definition status_path (ns name : string) : string := "/apis/kubevirt.io/v1/namespaces/" ++ ns ++ "/virtualmachineinstances/" ++ name ++ "/status".
Definition migrations_path (ns : string) : string := "/apis/kubevirt.io/v1/namespaces/" ++ ns ++ "/virtualmachineinstancemigrations".

Definition report_unschedulable (ns name : string) (vmi : Value) (why : string) : Prog unit :=
  let message := "no node can run this VM: " ++ why in
  if str_is vmi.["status"].["message"] message && str_is vmi.["status"].["reason"] "Unschedulable" then Ret tt
  else
    _ <== api_patch_merge (status_path ns name)
            (json_obj [("status", json_obj [("phase", Str "Pending"); ("reason", Str "Unschedulable"); ("message", Str message)])]) ;;
    Ret tt.

(** Why a node is refused; a machine takes no Pod slot and mounts no claim. *)
Definition vm_refusal (shim : Value) (nodes : list Value) (state : ClusterState) (node : Value) : option string :=
  match run_filters shim node (used state node) state nodes with Pass => None | Fail reason => Some reason end.

Definition vm_feasible (shim : Value) (nodes : list Value) (state : ClusterState) : list Value :=
  List.filter (λ n, match vm_refusal shim nodes state n with None => true | Some _ => false end) nodes.

Definition vm_refused (shim : Value) (nodes : list Value) (state : ClusterState) : list string :=
  omap (λ n, (λ reason, str_or "?" n.["metadata"].["name"] ++ ": " ++ reason) <$> vm_refusal shim nodes state n) nodes.

(** What a placed machine takes of its node, in the state of this pass. *)
Definition charge_vm (state : ClusterState) (vmi shim : Value) (node : string) : ClusterState :=
  let '(cpu, mem) := requests vmi in
  let e := default no_usage (usage state !! node) in
  mkState (<[node := mkUsage (wrap64 (cpu_milli e + cpu)) (wrap64 (mem_bytes e + mem)) (pods e)]> (usage state)) (placed state ++ [(node, shim)])%list.

Definition placement (vmi : Value) (node : string) : Value :=
  let phase := if is_empty_str (str_or "" vmi.["status"].["phase"]) then [("phase", Str "Pending")] else [] in
  json_obj [("metadata", json_obj [("uid", vmi.["metadata"].["uid"]); ("resourceVersion", vmi.["metadata"].["resourceVersion"])]);
            ("status", json_obj (("nodeName", Str node) :: phase))].

Definition schedule_virtual_machine (vmi : Value) (nodes : list Value) (state : ClusterState) (observed : SchedulingState) (key : ScheduleKey) :
    Prog (ClusterState * SchedulingState) :=
  let name := str_or "" vmi.["metadata"].["name"] in
  let ns := str_or "default" vmi.["metadata"].["namespace"] in
  if is_empty_str name then Ret (state, observed)
  else
    let shim := scheduling_shim vmi in
    match best_node shim nodes state (vm_feasible shim nodes state) with
    | None =>
        let refused := vm_refused shim nodes state in
        _ <== report_unschedulable ns name vmi (match refused with [] => "no nodes are registered" | _ => String.concat "; " refused end) ;;
        Ret (state, observed)
    | Some node =>
        let chosen := node_name_of node in
        if is_empty_str chosen then Ret (state, observed)
        else
          let observed := reserve observed key vmi chosen false in
          r <== api_patch_merge (status_path ns name) (placement vmi chosen) ;;
          Ret (match r with Ok _ => charge_vm state vmi shim chosen | Err _ => state end, observed)
    end.

(** *** Migrations *)

(** A key the machine already selects on keeps its value; [None] is a panic. *)
Definition add_node_selector (shim added : Value) : option Value :=
  match as_object added with
  | None => Some shim
  | Some m =>
      let sel := default [] (as_object shim.["spec"].["nodeSelector"]) in
      set_index2 shim "spec" "nodeSelector"
        (Object (fold_left (λ s kv, if contains_key s kv.1 then s else map_insert s kv.1 kv.2) m sel))
  end.

(** The first of the best so far, and the refusals in order. *)
Definition consider (shim : Value) (source : string) (nodes : list Value) (state : ClusterState)
    (acc : option (Value * Z) * list string) (node : Value) : option (Value * Z) * list string :=
  let '(best, refused) := acc in
  let n := node_name_of node in
  if str_eqb n source then (best, refused ++ [(n ++ ": the VM is already there")%string])%list
  else match run_filters shim node (used state node) state nodes with
       | Fail reason => (best, refused ++ [(n ++ ": " ++ reason)%string])%list
       | Pass =>
           let score := score_node shim node (used state node) state nodes in
           (match best with Some (_, b) => if b <? score then Some (node, score) else best | None => Some (node, score) end, refused)
       end.

Definition choose_migration_target (shim : Value) (source : string) (nodes : list Value) (state : ClusterState) : option string * list string :=
  let '(best, refused) := fold_left (consider shim source nodes state) nodes (None, []) in
  (match best with
   | Some (n, _) => if is_empty_str (node_name_of n) then None else Some (node_name_of n)
   | None => None
   end, refused).

Definition migration (ns uid : string) : Prog (option Value) :=
  if is_empty_str uid then Ret None
  else
    r <== api_list (migrations_path ns) ;;
    Ret (match r with
         | Ok l => head (List.filter (λ m, str_is m.["metadata"].["uid"] uid) (items l.["items"]))
         | Err _ => None
         end).

(** [reports]: the last refusal written for each migration. *)
Definition report_migration (reports : gmap string string) (ns uid : string) (scheduled : bool) (message now_s : string) : Prog (gmap string string) :=
  if is_empty_str uid then Ret reports
  else
    let last := reports !! uid in
    if (match last with Some m => str_eqb m message | None => scheduled end) then Ret reports
    else
      let reports := if scheduled then delete uid reports else <[uid := message]> reports in
      m <== migration ns uid ;;
      match m ≫= λ m, as_str m.["metadata"].["name"] with
      | None => Ret reports
      | Some name =>
          _ <== api_patch_merge (migrations_path ns ++ "/" ++ name ++ "/status")
                  (json_obj [("status", json_obj [("conditions", Array [json_obj
                     [("type", Str "TargetScheduled"); ("status", Str (if scheduled then "True" else "False"));
                      ("reason", Str (if scheduled then "Scheduled" else "Unschedulable")); ("message", Str message);
                      ("lastTransitionTime", Str now_s)]])])]) ;;
          Ret reports
      end.

Definition target_patch (vmi : Value) (node : string) : Value :=
  json_obj [("metadata", json_obj [("uid", vmi.["metadata"].["uid"]); ("resourceVersion", vmi.["metadata"].["resourceVersion"])]);
            ("status", json_obj [("migrationState", json_obj [("targetNode", Str node)])])].

(** [None]: it panicked. *)
Definition schedule_migration_target (vmi : Value) (nodes : list Value) (state : ClusterState) (observed : SchedulingState) (key : ScheduleKey)
    (reports : gmap string string) (now_s : string) : Prog (option (SchedulingState * gmap string string)) :=
  let name := str_or "" vmi.["metadata"].["name"] in
  let ns := str_or "default" vmi.["metadata"].["namespace"] in
  let source := default "" (node_of vmi) in
  let uid := str_or "" vmi.["status"].["migrationState"].["migrationUid"] in
  m <== migration ns uid ;;
  match match m with
        | Some m => add_node_selector (scheduling_shim vmi) m.["spec"].["addedNodeSelector"]
        | None => Some (scheduling_shim vmi)
        end with
  | None => Ret None
  | Some shim =>
      match choose_migration_target shim source nodes state with
      | (None, refused) =>
          let why := match refused with [] => "no other node is registered" | _ => String.concat "; " refused end in
          reports <== report_migration reports ns uid false ("no node can take this migration: " ++ why) now_s ;;
          Ret (Some (observed, reports))
      | (Some chosen, _) =>
          match reserve_target observed key vmi chosen with
          | None => Ret None
          | Some reserved =>
              r <== api_patch_merge (status_path ns name) (target_patch vmi chosen) ;;
              match r with
              | Ok _ =>
                  reports <== report_migration reports ns uid true ("target node " ++ chosen) now_s ;;
                  Ret (Some (reserved, reports))
              | Err _ => Ret (Some (with_target_assumptions reserved (delete key (target_assumptions reserved)), reports))
              end
          end
      end
  end.
End Scheduler.
Import Scheduler.

(** ** Storage *)

(** What a claim asks of a node: its volume's affinity when it is bound and
    the volume is known; otherwise the node it has selected, if any, and room
    for it where the driver publishes what room there is. *)
Definition claim_fits (node : Value) (s : VolumeState) (pvc : Value) : Prop :=
  let volume_name := str_or "" pvc.["spec"].["volumeName"] in
  let node_name := str_or "" node.["metadata"].["name"] in
  (volume_name ≠ "" → ∀ pv, volumes s !! volume_name = Some pv →
     let terms := items pv.["spec"].["nodeAffinity"].["required"].["nodeSelectorTerms"] in
     terms = [] ∨ ∃ t, t ∈ terms ∧ node_selector_term_matches t (as_object node.["metadata"].["labels"]) node_name = true) ∧
  (volume_name = "" →
     (∀ n, pvc.["metadata"].["annotations"].[ANN_SELECTED_NODE] = Str n → n ≠ "" → n = node_name) ∧
     (∀ k class, pvc.["spec"].["storageClassName"] = Str k → k ≠ "" → classes s !! k = Some class →
        str_or "" class.["provisioner"] ∈ capacity_tracking s → capacity_fits pvc k node s = true)).

(** A claim that is not there asks nothing. *)
Definition storage_fits (namespace : string) (node : Value) (s : VolumeState) (c : string) : Prop :=
  ∀ pvc, claim s namespace c = Some pvc → claim_fits node s pvc.

Lemma nonempty_Some v s : nonempty v = Some s ↔ v = Str s ∧ s ≠ "".
Proof.
  unfold nonempty. destruct v; cbn; try naive_solver. destruct s0; cbn; naive_solver.
Qed.

Lemma nonempty_None v : nonempty v = None ↔ ∀ s, v = Str s → s = "".
Proof.
  split; intros H.
  - intros s ->. destruct s as [|a s]; [done|]. by cbn in H.
  - destruct (nonempty v) as [s|] eqn:E; [|done]. apply nonempty_Some in E as [-> E]. exfalso. by apply E, H.
Qed.

Lemma str_in_elem x l : str_in x l = true ↔ x ∈ l.
Proof.
  unfold str_in. rewrite existsb_exists. split.
  - intros (y & Hy & E). apply str_eqb_eq in E as ->. by apply list_elem_of_In.
  - intros H. exists x. split; [by apply list_elem_of_In|apply str_eqb_refl].
Qed.

Lemma claim_allows_spec namespace node s c : claim_allows namespace node s c = Ok tt ↔ storage_fits namespace node s c.
Proof.
  unfold claim_allows, storage_fits. cbn zeta. destruct (claim s namespace c) as [pvc|]; [|naive_solver].
  match goal with |- ?a = ?b ↔ _ => enough (a = b ↔ claim_fits node s pvc) by naive_solver end.
  unfold claim_fits. cbn zeta. rewrite <-(is_empty_str_spec (str_or "" pvc.["spec"].["volumeName"])). destruct (is_empty_str _) eqn:Ee; cbn [negb].
  - set (fits := match nonempty pvc.["spec"].["storageClassName"] with None => _ | Some _ => _ end).
    assert (fits = Ok tt ↔ ∀ k class, pvc.["spec"].["storageClassName"] = Str k → k ≠ "" → classes s !! k = Some class →
        str_or "" class.["provisioner"] ∈ capacity_tracking s → capacity_fits pvc k node s = true) as Hf.
    { subst fits. destruct (nonempty _) as [k|] eqn:Ek.
      - apply nonempty_Some in Ek as [Ek Hk]. rewrite Ek. destruct (classes s !! k) as [class|] eqn:Ec; [|naive_solver].
        destruct (str_in _ _) eqn:Ei; cbn [andb].
        + apply str_in_elem in Ei. destruct (capacity_fits pvc k node s) eqn:Efit; cbn [negb]; split; try done; [naive_solver|].
          intros H. assert (capacity_fits pvc k node s = true) by (by eapply H). congruence.
        + split; [|done]. intros _ k' class' [= <-] _ Ec' Hi. rewrite Ec in Ec'. injection Ec' as <-. apply str_in_elem in Hi. congruence.
      - pose proof (proj1 (nonempty_None _) Ek) as Hk. split; [|done]. intros _ k class E Hne. by apply Hk in E. }
    destruct (nonempty (pvc.["metadata"].["annotations"].[ANN_SELECTED_NODE])) as [n|] eqn:En.
    + apply nonempty_Some in En as [En Hne]. destruct (str_eqb n _) eqn:Eq.
      * apply str_eqb_eq in Eq. rewrite Hf. split; [|naive_solver]. intros H. split; [done|]. intros _. split; [|done]. intros m Hm _. congruence.
      * split; [done|]. intros [_ H]. destruct (H eq_refl) as [Hs _]. apply Hs in En; [|done]. subst n. by rewrite str_eqb_refl in Eq.
    + pose proof (proj1 (nonempty_None _) En) as Hn. rewrite Hf. split; [|naive_solver]. intros H. split; [done|]. intros _. split; [|done].
      intros m Hm Hne. by apply Hn in Hm.
  - destruct (volumes s !! _) as [pv|] eqn:Ev; [|naive_solver]. destruct (items _) as [|t0 terms] eqn:Et.
    { split; [|done]. intros _. split; [|done]. intros _ pv' Epv. injection Epv as <-. by left. }
    destruct (existsb _ _) eqn:Ex.
    + split; [|done]. intros _. split; [|done]. intros _ pv' Epv. injection Epv as <-. right. rewrite Et.
      apply existsb_exists in Ex as (t & Ht & Hm). exists t. split; [by apply list_elem_of_In|done].
    + split; [done|]. intros [H _]. exfalso. destruct (H ltac:(done) pv eq_refl) as [H0|(t & Ht & Hm)]; [by rewrite Et in H0|].
      rewrite Et in Ht. enough (true = false) by done. rewrite <-Ex. symmetry. apply existsb_exists. exists t. split; [by apply list_elem_of_In|done].
Qed.

Lemma claims_allow_spec namespace node s l : claims_allow namespace node s l = Ok tt ↔ Forall (storage_fits namespace node s) l.
Proof.
  induction l as [|c l IH]; cbn; [split; [constructor|done]|]. rewrite Forall_cons, <-claim_allows_spec, <-IH.
  destruct (claim_allows namespace node s c) as [[]|e]; cbn; naive_solver.
Qed.

(** a node can host a Pod's storage exactly when every claim agrees.  A
    bound claim whose volume is known needs one of the volume's node selector
    terms to match; an unbound one keeps the node it has selected and needs
    published room where the driver publishes any.  The filter passes exactly
    the nodes for which this holds of every claim the Pod mounts, ephemeral
    ones included. *)
Theorem volume_filter_exact pod namespace node s :
  filter_node pod namespace node s = Ok tt ↔ ∀ c, c ∈ pod_claims pod → storage_fits namespace node s c.
Proof. unfold filter_node. by rewrite claims_allow_spec, Forall_forall. Qed.

(** ** The decision *)

(** The node can take the Pod: it is feasible, has a Pod slot free, and can
    host the storage of every claim the Pod mounts. *)
Definition placeable (pod : Value) (namespace : string) (nodes : list Value) (state : ClusterState) (vols : VolumeState) (node : Value) : Prop :=
  Filter.feasible pod node (used state node) state nodes ∧ slot_free node (used state node) ∧
  ∀ c, c ∈ pod_claims pod → storage_fits namespace node vols c.

Lemma refusal_of_None pod namespace nodes state vols node :
  refusal_of pod namespace nodes state vols node = None ↔ placeable pod namespace nodes state vols node.
Proof.
  unfold placeable. rewrite <-run_filters_feasible, <-pod_count_spec, <-volume_filter_exact.
  unfold refusal_of. destruct (run_filters _ _ _ _ _); [|naive_solver]. destruct (pod_count_filter _ _); [|naive_solver].
  destruct (filter_node _ _ _ _) as [[]|]; naive_solver.
Qed.

Lemma feasible_spec pod namespace nodes state vols n :
  n ∈ feasible pod namespace nodes state vols ↔ n ∈ nodes ∧ placeable pod namespace nodes state vols n.
Proof.
  unfold feasible. rewrite <-refusal_of_None, list_elem_of_In, filter_In, <-list_elem_of_In. destruct (refusal_of _ _ _ _ _ _); naive_solver.
Qed.

Lemma sort_head {A} (key : A → Z) l x : head (sort_by_key key l) = Some x → x ∈ l ∧ ∀ y, y ∈ l → key x ≤ key y.
Proof.
  intros H. pose proof (sort_by_key_perm key l) as Hp. pose proof (sort_by_key_sorted key l) as Hs.
  destruct (sort_by_key key l) as [|z l'] eqn:E; [done|]. injection H as ->. split; [rewrite <-Hp; left|].
  intros y Hy. rewrite <-Hp in Hy. apply elem_of_cons in Hy as [->|Hy]; [done|]. apply key_sorted_cons in Hs as [Hs _]. by apply Hs.
Qed.

Lemma sort_head_None {A} (key : A → Z) l : head (sort_by_key key l) = None → l = [].
Proof.
  intros H. pose proof (sort_by_key_perm key l) as Hp. destruct (sort_by_key key l); [|done]. by apply Permutation_nil_l in Hp.
Qed.

(** The node chosen: one of those that pass, and of those one of the best. *)
Definition chosen (pod : Value) (namespace : string) (nodes : list Value) (state : ClusterState) (vols : VolumeState) (node : Value) : Prop :=
  node ∈ nodes ∧ placeable pod namespace nodes state vols node ∧
  ∀ n, n ∈ nodes → placeable pod namespace nodes state vols n → score_node pod n (used state n) state nodes ≤ score_node pod node (used state node) state nodes.

Lemma best_node_spec pod namespace nodes state vols :
  match best_node pod nodes state (feasible pod namespace nodes state vols) with
  | Some n => chosen pod namespace nodes state vols n
  | None => ∀ n, n ∈ nodes → ¬ placeable pod namespace nodes state vols n
  end.
Proof.
  unfold best_node. destruct (head _) as [n|] eqn:E.
  - apply sort_head in E as [Hn Hmax]. apply feasible_spec in Hn as [? ?]. split_and!; [done..|]. intros m Hm Hp.
    specialize (Hmax m (proj2 (feasible_spec _ _ _ _ _ _) (conj Hm Hp))). lia.
  - apply sort_head_None in E. intros n Hn Hp. assert (n ∈ feasible pod namespace nodes state vols) as H by (by apply feasible_spec). rewrite E in H. by apply not_elem_of_nil in H.
Qed.

Lemma bound_pod_node pod node now_s now_us body : bound_pod pod node now_s now_us = Some body → body.["spec"].["nodeName"] = Str node.
Proof.
  unfold bound_pod. intros (p1 & E1 & H)%bind_Some. apply bind_Some in H as (p2 & E2 & H). apply bind_Some in H as (a & _ & H).
  apply bind_Some in H as (p3 & E3 & H). apply bind_Some in H as (p4 & E4 & H). apply index2_set_index2 in E1.
  assert (p2.["spec"] = p1.["spec"]) as H2 by (destruct (is_object _); [by injection E2 as ->|by apply (set_index2_inner _ _ _ _ _ E2 "spec")]).
  rewrite (set_index2_inner _ _ _ _ _ H "spec") by done.
  assert ((remove_at p4 "status" "nominatedNodeName").["spec"] = p4.["spec"]) as ->.
  { unfold remove_at. destruct p4 as [| | | | |m]; try done. destruct (map_get m "status") as [[| | | | |inner]|]; try done.
    unfold index, get. by rewrite map_get_insert_ne. }
  rewrite (set_index2_inner _ _ _ _ _ E4 "spec"), (set_index2_inner _ _ _ _ _ E3 "spec"), H2 by done. done.
Qed.

(** A claim that is there and names its volume. *)
Definition bound_claim (namespace : string) (s : VolumeState) (c : string) : Prop :=
  ∃ pvc v, claim s namespace c = Some pvc ∧ pvc.["spec"].["volumeName"] = Str v ∧ v ≠ "".

(** A claim that one Pod may use at a time. *)
Definition exclusive (namespace : string) (s : VolumeState) (c : string) : Prop :=
  ∃ pvc, claim s namespace c = Some pvc ∧ Str "ReadWriteOncePod" ∈ items pvc.["spec"].["accessModes"].

(** No other Pod of the namespace that has been placed mounts such a claim of
    this Pod. *)
Definition claims_free (pod : Value) (namespace : string) (s : VolumeState) (placed : list (string * Value)) : Prop :=
  ∀ c node other, c ∈ pod_claims pod → exclusive namespace s c → (node, other) ∈ placed →
    str_or "default" other.["metadata"].["namespace"] = namespace →
    str_or "" other.["metadata"].["name"] ≠ str_or "" pod.["metadata"].["name"] → c ∉ pod_claims other.

Lemma is_unbound_spec namespace s c : is_unbound namespace s c = false ↔ bound_claim namespace s c.
Proof.
  unfold is_unbound, bound_claim, str_or. destruct (claim s namespace c) as [pvc|]; [|naive_solver].
  destruct (as_str pvc.["spec"].["volumeName"]) as [v|] eqn:E; cbn.
  - assert (pvc.["spec"].["volumeName"] = Str v) as Ev by (by destruct (pvc.["spec"].["volumeName"]); try done; injection E as ->).
    destruct v as [|ch v]; cbn; (split; [intros H; try done|intros (pvc' & v' & [= <-] & Ev' & Hne); try done; congruence]).
    by exists pvc, (String ch v).
  - split; [done|]. intros (pvc' & v & [= <-] & Ev & _). by rewrite Ev in E.
Qed.

Lemma unbound_claims_spec pod namespace s c :
  c ∈ unbound_claims pod namespace s ↔ c ∈ pod_claims pod ∧ ¬ bound_claim namespace s c.
Proof.
  unfold unbound_claims. rewrite list_elem_of_In, filter_In, <-list_elem_of_In, <-is_unbound_spec. destruct (is_unbound _ _ _); naive_solver.
Qed.

Lemma one_pod_only_spec namespace s c : one_pod_only namespace s c = true ↔ exclusive namespace s c.
Proof.
  unfold one_pod_only, exclusive. destruct (claim s namespace c) as [pvc|]; [|naive_solver]. rewrite existsb_exists.
  setoid_rewrite <-list_elem_of_In. setoid_rewrite str_is_spec. naive_solver.
Qed.

Lemma filter_head_None {A} (f : A → bool) l : head (List.filter f l) = None ↔ ∀ x, x ∈ l → f x = false.
Proof.
  induction l as [|x l IH]; cbn; [split; [by intros _ ? ?%not_elem_of_nil|done]|]. destruct (f x) eqn:E; cbn.
  - split; [done|]. intros H. specialize (H x ltac:(left)). congruence.
  - rewrite IH. setoid_rewrite elem_of_cons. naive_solver.
Qed.

Lemma omap_head_None {A B} (f : A → option B) l : head (omap f l) = None ↔ ∀ x, x ∈ l → f x = None.
Proof.
  induction l as [|x l IH]; cbn; [split; [by intros _ ? ?%not_elem_of_nil|done]|]. destruct (f x) eqn:E; cbn.
  - split; [done|]. intros H. specialize (H x ltac:(left)). congruence.
  - rewrite IH. setoid_rewrite elem_of_cons. naive_solver.
Qed.

Lemma held_by_None namespace me wanted other :
  held_by namespace me wanted other = None ↔
  (str_or "default" other.["metadata"].["namespace"] = namespace → str_or "" other.["metadata"].["name"] ≠ me → ∀ c, c ∈ wanted → c ∉ pod_claims other).
Proof.
  unfold held_by. destruct (str_eqb (str_or "default" _) namespace) eqn:En; cbn [negb].
  2: { split; [|done]. intros _ H. rewrite H, str_eqb_refl in En. done. }
  destruct (str_eqb _ me) eqn:Em; [apply str_eqb_eq in Em; naive_solver|].
  apply str_eqb_eq in En. assert (str_or "" other.["metadata"].["name"] ≠ me) as Hm by (intros H; by rewrite H, str_eqb_refl in Em).
  rewrite filter_head_None. setoid_rewrite <-not_true_iff_false. setoid_rewrite str_in_elem. naive_solver.
Qed.

Lemma rwop_conflict_None pod namespace s placed : rwop_conflict pod namespace s placed = None ↔ claims_free pod namespace s placed.
Proof.
  unfold rwop_conflict, claims_free. cbn zeta. set (wanted := List.filter _ (pod_claims pod)).
  assert (∀ c, c ∈ wanted ↔ c ∈ pod_claims pod ∧ exclusive namespace s c) as Hw.
  { intros c. subst wanted. by rewrite list_elem_of_In, filter_In, <-list_elem_of_In, one_pod_only_spec. }
  assert (match wanted with [] => None | _ => head (omap (λ np, (λ want, "persistentvolumeclaim " ++ namespace ++ "/" ++ want ++ " is ReadWriteOncePod and is already used by pod "
      ++ str_or "" np.2.["metadata"].["name"]) <$> held_by namespace (str_or "" pod.["metadata"].["name"]) wanted np.2) placed) end = None
    ↔ ∀ np, np ∈ placed → held_by namespace (str_or "" pod.["metadata"].["name"]) wanted np.2 = None) as ->.
  { destruct wanted as [|w l] eqn:E.
    - split; [|done]. intros _ np _. apply held_by_None. intros _ _ c H. by apply not_elem_of_nil in H.
    - rewrite omap_head_None. setoid_rewrite fmap_None. done. }
  split.
  - intros H c node other Hc Hx Hin Hn Hm. specialize (H (node, other) Hin). rewrite held_by_None in H. apply (H Hn Hm c), Hw. done.
  - intros H [node other] Hin. apply held_by_None. intros Hn Hm c [Hc Hx]%Hw. by apply (H c node other).
Qed.

(** The choice told to the claims: each patch is of a claim not bound, in the
    revision seen, and names the node; and no such claim is left out unless it
    names the node already. *)
Definition choice_told (pod : Value) (namespace n : string) (vols : VolumeState) (patches : list (string * Value)) : Prop :=
  (∀ p b, (p, b) ∈ patches → ∃ c pvc, c ∈ pod_claims pod ∧ ¬ bound_claim namespace vols c ∧ claim vols namespace c = Some pvc ∧
     p = pvc_path namespace c ∧ b.["metadata"].["uid"] = pvc.["metadata"].["uid"] ∧
     b.["metadata"].["resourceVersion"] = pvc.["metadata"].["resourceVersion"] ∧
     b.["metadata"].["annotations"].["volume.kubernetes.io/selected-node"] = Str n) ∧
  (n ≠ "" → ∀ c, c ∈ pod_claims pod → ¬ bound_claim namespace vols c → ∃ pvc, claim vols namespace c = Some pvc ∧
     (pvc.["metadata"].["annotations"].["volume.kubernetes.io/selected-node"] = Str n ∨ ∃ b, (pvc_path namespace c, b) ∈ patches)).

Lemma claim_patches_in namespace node vols l patches p b :
  claim_patches namespace node vols l = Ok patches → (p, b) ∈ patches →
  ∃ c v, c ∈ l ∧ claim vols namespace c = Some v ∧ p = pvc_path namespace c ∧ b = selected_patch v node.
Proof.
  revert patches. induction l as [|c l IH]; intros patches; cbn; [intros [= <-] H; by apply not_elem_of_nil in H|].
  assert (∀ ps, claim_patches namespace node vols l = Ok ps → (p, b) ∈ ps →
    ∃ c' v, c' ∈ c :: l ∧ claim vols namespace c' = Some v ∧ p = pvc_path namespace c' ∧ b = selected_patch v node) as Hl.
  { intros ps E Hin. destruct (IH ps E Hin) as (c' & v & ? & ? & ? & ?). exists c', v. split_and!; [by right|done..]. }
  destruct (str_eqb _ _); [by apply Hl|]. destruct (claim vols namespace c) as [v|] eqn:Ec; [|done].
  destruct (claim_patches namespace node vols l) as [rest|]; [|done]. intros [= <-] [[= -> ->]|Hin]%elem_of_cons; [|by eapply Hl].
  exists c, v. split_and!; [left|done..].
Qed.

Lemma claim_patches_all namespace node vols l patches c :
  claim_patches namespace node vols l = Ok patches → node ≠ "" → c ∈ l →
  ∃ v, claim vols namespace c = Some v ∧
    (v.["metadata"].["annotations"].[ANN_SELECTED_NODE] = Str node ∨ ∃ b, (pvc_path namespace c, b) ∈ patches).
Proof.
  intros E Hne. revert patches E. induction l as [|c0 l IH]; intros patches E Hc; [by apply not_elem_of_nil in Hc|]. cbn in E.
  assert (∀ ps, claim_patches namespace node vols l = Ok ps → ps ⊆ patches → c ∈ l →
    ∃ v, claim vols namespace c = Some v ∧ (v.["metadata"].["annotations"].[ANN_SELECTED_NODE] = Str node ∨ ∃ b, (pvc_path namespace c, b) ∈ patches)) as Hl.
  { intros ps Ep Hs Hin. destruct (IH ps Ep Hin) as (v & Hv & [?|(b & Hb)]); exists v; (split; [done|]); [by left|right]. exists b. by apply Hs. }
  destruct (str_eqb _ _) eqn:Es.
  - apply elem_of_cons in Hc as [->|Hc]; [|by eapply Hl]. apply str_eqb_eq in Es.
    destruct (claim vols namespace c0) as [v|]; [|by subst node]. cbn in Es. exists v. split; [done|]. left.
    destruct (_.[ANN_SELECTED_NODE]); cbn in Es; by subst node.
  - destruct (claim vols namespace c0) as [v|] eqn:Ec; [|done].
    destruct (claim_patches namespace node vols l) as [rest|]; [|done]. injection E as <-.
    apply elem_of_cons in Hc as [->|Hc]; [|eapply Hl; [done| |done]; intros x Hx; by right].
    exists v. split; [done|]. right. eexists. left.
Qed.

Lemma claim_patches_told pod namespace n vols patches :
  claim_patches namespace n vols (unbound_claims pod namespace vols) = Ok patches → choice_told pod namespace n vols patches.
Proof.
  intros E. split.
  - intros p b Hin. destruct (claim_patches_in _ _ _ _ _ _ _ E Hin) as (c & v & [Hc Hu]%unbound_claims_spec & Hv & -> & ->).
    exists c, v. by split_and!.
  - intros Hne c Hc Hu. eapply claim_patches_all; [done..|]. by apply unbound_claims_spec.
Qed.

Section Pass.
  Variables (show_err : ClientError → string) (fresh : nat → Fresh).
#[local] Notation schedule_pod := (Scheduler.schedule_pod show_err fresh).
#[local] Notation preempt := (Scheduler.preempt show_err fresh).
#[local] Notation evict := (Scheduler.evict show_err fresh).

(** C33: a Pod goes to the best node that can run it.  A Pod is bound only to a
    node that is feasible, has a Pod slot free and can host its storage, that
    scores as high as every other such node, and only when no other placed Pod
    mounts a claim of it that one Pod may use at a time and all its claims name
    their volumes; the choice is reserved before anything is written.  With
    claims not bound yet the same choice is told to those claims instead: every
    one of them that does not name the node already is patched, in the revision
    seen, to name it, and nothing else is.  It is called unschedulable only
    when another Pod holds such a claim, or no node can take it. *)
Theorem pod_bound_to_best namespace pod nodes state vols observed key now_s now_us t observed' r :
  exec (schedule_pod namespace pod nodes state vols observed key now_s now_us) t (observed', r) →
  match r with
  | Ok (PBind b) =>
      t = [] ∧ claims_free pod namespace vols (placed state) ∧ (∀ c, c ∈ pod_claims pod → bound_claim namespace vols c) ∧
      (∃ node, chosen pod namespace nodes state vols node ∧ node.["metadata"].["name"] = Str (b_node b)) ∧
      (b_body b).["spec"].["nodeName"] = Str (b_node b) ∧ b_path b = pod_path namespace (str_or "" pod.["metadata"].["name"]) ∧
      observed' = reserve observed key pod (b_node b) false
  | Ok (PWaiting n patches) =>
      t = [] ∧ claims_free pod namespace vols (placed state) ∧ (∃ c, c ∈ pod_claims pod ∧ ¬ bound_claim namespace vols c) ∧
      (∃ node, chosen pod namespace nodes state vols node ∧ node.["metadata"].["name"] = Str n) ∧ observed' = observed ∧
      choice_told pod namespace n vols patches
  | Ok (PUnschedulable _) =>
      observed' = observed ∧
      (¬ claims_free pod namespace vols (placed state) ∨ ∀ n, n ∈ nodes → ¬ placeable pod namespace nodes state vols n)
  | Err _ => t = []
  end.
Proof.
  unfold Scheduler.schedule_pod. destruct (as_str pod.["metadata"].["name"]) as [pn|] eqn:En; [|by intros [-> [= _ ->]]%exec_ret_inv].
  pose proof (rwop_conflict_None pod namespace vols (placed state)) as Hfree.
  destruct (rwop_conflict _ _ _ _) as [reason|] eqn:Ec; [intros [-> [= -> ->]]%exec_ret_inv; split; [done|left; by intros H%Hfree]|].
  apply proj1 in Hfree. specialize (Hfree eq_refl).
  pose proof (best_node_spec pod namespace nodes state vols) as Hb. destruct (best_node _ _ _ _) as [node|].
  2: { intros (t1 & t2 & why & _ & [_ [= -> ->]]%exec_ret_inv & _)%exec_bind. split; [done|]. by right. }
  destruct (as_str node.["metadata"].["name"]) as [nn|] eqn:Enn; [|by intros [-> [= _ ->]]%exec_ret_inv].
  assert (node.["metadata"].["name"] = Str nn) as Hnn by (destruct (node.["metadata"].["name"]); try done; by injection Enn as ->).
  pose proof (unbound_claims_spec pod namespace vols) as Hun. pose proof (claim_patches_told pod namespace nn vols) as Htold.
  destruct (unbound_claims pod namespace vols) as [|c l] eqn:Eu.
  - intros [-> E]%exec_ret_inv. injection E as -> E. destruct (bound_pod _ _ _ _) as [body|] eqn:Ebp; [|by subst r]. subst r. cbn [b_node b_body b_path].
    split_and!; [done..| |by exists node|by eapply bound_pod_node|unfold str_or; by rewrite En|done].
    intros c Hc. apply is_unbound_spec. destruct (is_unbound namespace vols c) eqn:Ei; [|done].
    assert (c ∈ unbound_claims pod namespace vols) as H by (apply list_elem_of_In, filter_In; split; [by apply list_elem_of_In|done]).
    rewrite Eu in H. by apply not_elem_of_nil in H.
  - intros [-> [-> E]%pair_eq]%exec_ret_inv. destruct (claim_patches _ _ _ _) as [ps|e] eqn:Ep; [|by subst r]. subst r.
    split_and!; [done..| |by exists node|done|by apply Htold]. exists c. apply Hun. left.
Qed.

(** *** Preemption *)

(** What evicting asks for: an Eviction of a victim, that names the UID
    recorded for it, or an Event. *)
Definition evicts (l : list Value) (q : Request) : Prop :=
  match q with
  | QPost p b =>
      (∃ v, v ∈ l ∧ p = pod_path (str_or "default" v.["metadata"].["namespace"]) (str_or "" v.["metadata"].["name"]) ++ "/eviction" ∧
         b.["kind"] = Str "Eviction" ∧ b.["deleteOptions"].["preconditions"].["uid"] = v.["metadata"].["uid"])
      ∨ (∃ ns, p = events_path ns ∧ b.["kind"] = Str "Event")
  | _ => False
  end.

Lemma evict_asks why node pod l : ∀ i n, emits (asks (evicts l)) (evict why node pod i n l).
Proof.
  induction l as [|v l IH]; intros i n; [apply emits_ret|]. cbn [Scheduler.evict]. cbn zeta. apply emits_bind.
  - apply send_asks. left. exists v. split_and!; [left|done..].
  - intros [x|e]; [|apply emits_ret]. apply emits_bind.
    + apply send_asks. right. eauto.
    + intros y. eapply emits_weaken; [|apply IH]. intros [q a|m]; [|done]. cbn. destruct q; try done. intros [(w & ? & ?)|?]; [left|by right].
      exists w. split; [by right|done].
Qed.

(** C34: preemption evicts the selected victims, after the node was nominated.
    Whatever the server answers, a POST is an Event, or the eviction of a
    victim of the candidate selected, for the disruption budgets just read,
    among exactly the nodes that can host the Pod's storage.  The victim is
    placed on that node, has a lower priority than the Pod and is not already
    going; the eviction has the UID recorded for the victim as precondition
    (a virtual machine's stand-in has none recorded); and it is asked only
    after a patch of the Pod's status that names the node, for the Pod's UID,
    was answered with success, so no Pod is evicted for a Pod that was not
    told where to wait.  A Pod with [preemptionPolicy: Never] evicts none. *)
Theorem preempt_evicts_selected namespace pod nodes state vols why t x u p b a v :
  exec (preempt namespace pod nodes state vols why) t x → t = (u ++ EAsk (QPost p b) a :: v)%list →
  pod.["spec"].["preemptionPolicy"] ≠ Str "Never" ∧
  ∃ s l candidates c, EAsk (QList "/apis/policy/v1/poddisruptionbudgets") (AResponse s (Some l)) ∈ u ∧
    (∀ n, n ∈ candidates ↔ n ∈ nodes ∧ ∀ cl, cl ∈ pod_claims pod → storage_fits namespace n vols cl) ∧
    select pod candidates nodes state (items l.["items"]) = Some c ∧
    (∃ node, node ∈ candidates ∧ node.["metadata"].["name"] = Str (cand_node c)) ∧
    (∀ w, w ∈ victims c → (cand_node c, w) ∈ placed state ∧ pod_priority w < pod_priority pod ∧ w.["metadata"].["deletionTimestamp"] = Null) ∧
    (∃ a' body, EAsk (QPatchMerge (pod_path namespace (str_or "" pod.["metadata"].["name"]) ++ "/status") body) a' ∈ u ∧ is_ok (json_answer a') = true ∧
       body.["status"].["nominatedNodeName"] = Str (cand_node c) ∧ body.["metadata"].["uid"] = pod.["metadata"].["uid"]) ∧
    evicts (victims c) (QPost p b).
Proof.
  unfold Scheduler.preempt. destruct (may_preempt pod) eqn:Emay; cbn [negb]; [|intros [-> _]%exec_ret_inv ?; by destruct u].
  destruct (waiting_for_victims _ _); [intros [-> _]%exec_ret_inv ?; by destruct u|].
  destruct (negb _); [intros [-> _]%exec_ret_inv ?; by destruct u|].
  intros (t1 & t2 & r & E1 & E2 & ->)%exec_bind Et. split; [intros H; unfold may_preempt in Emay; apply str_is_spec in H; by rewrite H in Emay|]. unfold api_list in E1. apply exec_ask_inv in E1 as (a1 & t3 & -> & E1).
  assert (Forall (λ e, match e with EAsk _ _ => False | ENote _ => True end) t3 ∧
    match r with Ok l => ∃ s, a1 = AResponse s (Some l) | Err _ => True end) as [Hn3 Hr].
  { destruct a1 as [|s body]; [apply exec_tell_inv in E1 as (? & -> & [-> ->]%exec_ret_inv); split; [by repeat constructor|done]|].
    destruct (is_error s); [apply exec_tell_inv in E1 as (? & -> & [-> ->]%exec_ret_inv); split; [by repeat constructor|done]|].
    destruct body as [w|]; [|apply exec_tell_inv in E1 as (? & -> & [-> ->]%exec_ret_inv); split; [by repeat constructor|done]].
    apply exec_ret_inv in E1 as [-> ->]. split; [constructor|eauto]. }
  assert (∀ t', Forall (λ e, match e with EAsk _ _ => False | ENote _ => True end) t' → ∀ u t'', (t' ++ t'')%list = (u ++ EAsk (QPost p b) a :: v)%list →
    ∃ w, u = (t' ++ w)%list ∧ t'' = (w ++ EAsk (QPost p b) a :: v)%list) as Hskip.
  { clear. induction t' as [|e t' IH]; intros H u t'' E; [by exists u|]. apply Forall_cons in H as [He H]. destruct u as [|e' u]; cbn in E; [by injection E as -> _|].
    injection E as <- E. destruct (IH H u t'' E) as (w & -> & ->). by exists w. }
  cbn in Et. destruct u as [|e0 u]; [done|]. injection Et as <- Et. apply Hskip in Et as (w & -> & ->); [|done].
  destruct r as [l|e]; [|apply exec_ret_inv in E2 as [E2 _]; by destruct w]. destruct Hr as [s ->].
  destruct (select _ _ _ _ _) as [c|] eqn:Esel; [|apply exec_ret_inv in E2 as [E2 _]; by destruct w].
  apply exec_bind in E2 as (t4 & t5 & r2 & E3 & E4 & Ew). apply send_json_exec in E3 as (a2 & t6 & -> & -> & Hn6). symmetry in Ew. cbn in Ew.
  destruct w as [|e1 w]; [done|]. injection Ew as <- Ew. apply Hskip in Ew as (w' & -> & ->); [|done].
  destruct (json_answer a2) as [ans|] eqn:Ea; [|apply exec_ret_inv in E4 as [E4 _]; by destruct w'].
  destruct (select_victims _ _ _ _ _ _ Esel) as [Hnode Hv].
  exists s, l, (List.filter (storage_allows pod namespace vols) nodes), c. split_and!; [left| |done|done|done| |].
  - intros n. rewrite list_elem_of_In, filter_In, <-list_elem_of_In, <-volume_filter_exact. unfold storage_allows.
    destruct (filter_node _ _ _ _) as [[]|]; naive_solver.
  - exists a2, (nomination pod (cand_node c)). split_and!; [right; apply elem_of_app; right; left|by rewrite Ea|done..].
  - apply evict_asks in E4. rewrite Forall_app, Forall_cons in E4. by destruct E4 as (_ & H & _).
Qed.
End Pass.

(** *** Machines *)

(** Every filter passes for a machine's stand-in. *)
Definition vm_placeable (shim : Value) (nodes : list Value) (state : ClusterState) (node : Value) : Prop :=
  run_filters shim node (used state node) state nodes = Pass.

(** One of the best of the nodes in [P]. *)
Definition best_of (shim : Value) (nodes : list Value) (state : ClusterState) (P : Value → Prop) (node : Value) : Prop :=
  node ∈ nodes ∧ P node ∧ ∀ n, n ∈ nodes → P n → score_node shim n (used state n) state nodes ≤ score_node shim node (used state node) state nodes.

Lemma vm_feasible_spec shim nodes state n : n ∈ vm_feasible shim nodes state ↔ n ∈ nodes ∧ vm_placeable shim nodes state n.
Proof.
  unfold vm_feasible, vm_placeable. rewrite list_elem_of_In, filter_In, <-list_elem_of_In. unfold vm_refusal. destruct (run_filters _ _ _ _ _); naive_solver.
Qed.

Lemma vm_best_spec shim nodes state :
  match best_node shim nodes state (vm_feasible shim nodes state) with
  | Some n => best_of shim nodes state (vm_placeable shim nodes state) n
  | None => ∀ n, n ∈ nodes → ¬ vm_placeable shim nodes state n
  end.
Proof.
  unfold best_node. destruct (head _) as [n|] eqn:E.
  - apply sort_head in E as [Hn Hmax]. apply vm_feasible_spec in Hn as [? ?]. split_and!; [done..|]. intros m Hm Hp.
    specialize (Hmax m (proj2 (vm_feasible_spec _ _ _ _) (conj Hm Hp))). lia.
  - apply sort_head_None in E. intros n Hn Hp. assert (n ∈ vm_feasible shim nodes state) as H by (by apply vm_feasible_spec). rewrite E in H. by apply not_elem_of_nil in H.
Qed.

(** The loop's choice after the nodes seen. *)
Definition best_seen (shim : Value) (source : string) (nodes : list Value) (state : ClusterState) (seen : list Value) (best : option (Value * Z)) : Prop :=
  let P n := node_name_of n ≠ source ∧ vm_placeable shim nodes state n in
  match best with
  | Some (n, b) => n ∈ seen ∧ P n ∧ b = score_node shim n (used state n) state nodes ∧ ∀ m, m ∈ seen → P m → score_node shim m (used state m) state nodes ≤ b
  | None => ∀ m, m ∈ seen → ¬ P m
  end.

Lemma consider_step shim source nodes state seen best refused node :
  best_seen shim source nodes state seen best → best_seen shim source nodes state (seen ++ [node]) (consider shim source nodes state (best, refused) node).1.
Proof.
  intros H. cbn [consider]. cbn zeta.
  assert (¬ (node_name_of node ≠ source ∧ vm_placeable shim nodes state node) → best_seen shim source nodes state (seen ++ [node]) best) as Hskip.
  { intros Hn. destruct best as [[n b]|]; cbn in H |- *.
    - destruct H as (? & ? & ? & Hm). split_and!; [apply elem_of_app; by left|naive_solver..|]. intros m [|Hx%list_elem_of_singleton]%elem_of_app HP; [by apply Hm|by subst].
    - intros m [|Hx%list_elem_of_singleton]%elem_of_app; [by apply H|by subst]. }
  destruct (str_eqb _ source) eqn:Es; [apply Hskip; apply str_eqb_eq in Es; naive_solver|].
  assert (node_name_of node ≠ source) as Hs by (intros Hs; by rewrite Hs, str_eqb_refl in Es).
  destruct (run_filters _ _ _ _ _) eqn:Er; [|apply Hskip; unfold vm_placeable; rewrite Er; by intros [_ ?]].
  assert (∀ b, (∀ m, m ∈ seen → node_name_of m ≠ source ∧ vm_placeable shim nodes state m → score_node shim m (used state m) state nodes ≤ b) →
    b ≤ score_node shim node (used state node) state nodes →
    best_seen shim source nodes state (seen ++ [node]) (Some (node, score_node shim node (used state node) state nodes))) as Htake.
  { intros b Hb Hle. cbn. split_and!; [apply elem_of_app; right; left|done..|]. intros m [Hm|Hx%list_elem_of_singleton]%elem_of_app HP; [by specialize (Hb m Hm HP); lia|by subst]. }
  destruct best as [[n b]|]; cbn in H |- *.
  - destruct H as (Hn & HP & -> & Hm). destruct (_ <? _) eqn:El; [apply Htake with (b := score_node shim n (used state n) state nodes); [done|lia]|].
    apply Z.ltb_ge in El. cbn. split_and!; [apply elem_of_app; by left|by destruct HP|by destruct HP|done|].
    intros m [|Hx%list_elem_of_singleton]%elem_of_app HPm; [by apply Hm|subst; lia].
  - apply Htake with (b := score_node shim node (used state node) state nodes); [|lia]. intros m Hm HP. by destruct (H m Hm).
Qed.

Lemma consider_all shim source nodes state l : ∀ seen best refused,
  best_seen shim source nodes state seen best →
  best_seen shim source nodes state (seen ++ l) (fold_left (consider shim source nodes state) l (best, refused)).1.
Proof.
  induction l as [|node l IH]; intros seen best refused H; [by rewrite app_nil_r|]. cbn [fold_left].
  pose proof (consider_step shim source nodes state seen best refused node H) as H1.
  destruct (consider shim source nodes state (best, refused) node) as [best' refused'].
  replace (seen ++ node :: l)%list with ((seen ++ [node]) ++ l)%list by (by rewrite <-app_assoc). by apply IH.
Qed.

Lemma choose_best shim source nodes state :
  match (choose_migration_target shim source nodes state).1 with
  | Some n => n ≠ source ∧ n ≠ "" ∧ ∃ node, node_name_of node = n ∧ best_of shim nodes state (λ m, node_name_of m ≠ source ∧ vm_placeable shim nodes state m) node
  | None => (∃ node, node ∈ nodes ∧ node_name_of node = "") ∨ ∀ node, node ∈ nodes → node_name_of node ≠ source → ¬ vm_placeable shim nodes state node
  end.
Proof.
  unfold choose_migration_target. pose proof (consider_all shim source nodes state nodes [] None [] ltac:(by intros m ?%not_elem_of_nil)) as H. cbn [app] in H.
  destruct (fold_left _ _ _) as [[[n b]|] refused]; cbn [fst] in H |- *.
  - destruct H as (Hn & [Hs Hp] & -> & Hm). destruct (is_empty_str (node_name_of n)) eqn:E.
    + left. exists n. split; [done|by apply is_empty_str_spec].
    + split_and!; [done|intros E'; by rewrite E' in E|]. exists n. done.
  - right. intros node Hn Hs Hp. by apply (H node Hn).
Qed.

(** a migration goes to the best other node.  The target chosen for a
    migrating machine is never the node it is on; it passes every filter, and
    no other node that is not the source and passes scores higher.  Only when
    no such node exists (every node having a name) is none chosen. *)
Theorem migration_target_best shim source nodes state :
  match (choose_migration_target shim source nodes state).1 with
  | Some n => n ≠ source ∧ n ≠ "" ∧ ∃ node, node_name_of node = n ∧ best_of shim nodes state (λ m, node_name_of m ≠ source ∧ vm_placeable shim nodes state m) node
  | None => (∃ node, node ∈ nodes ∧ node_name_of node = "") ∨ ∀ node, node ∈ nodes → node_name_of node ≠ source → ¬ vm_placeable shim nodes state node
  end.
Proof. apply choose_best. Qed.

(** The selector grown by a migration: a key already there keeps its value,
    the others take the first value added. *)
Lemma grown_get (added sel : Map) k :
  map_get (fold_left (λ s kv, if contains_key s kv.1 then s else map_insert s kv.1 kv.2) added sel) k =
  match map_get sel k with Some v => Some v | None => map_get added k end.
Proof.
  revert sel. induction added as [|[k' v'] added IH]; intros sel; cbn [fold_left map_get fst snd]; [by destruct (map_get sel k)|].
  rewrite IH. unfold contains_key. destruct (str_eqb k k') eqn:E.
  - apply str_eqb_eq in E as ->. destruct (map_get sel k') eqn:Es; [by rewrite Es|]. by rewrite map_get_insert_eq.
  - destruct (map_get sel k') eqn:Es; [done|]. rewrite map_get_insert_ne; [done|]. intros ->. by rewrite str_eqb_refl in E.
Qed.

Lemma shim_spec_object vmi : ∃ m, (scheduling_shim vmi).["spec"] = Object m.
Proof.
  unfold scheduling_shim. destruct (requests vmi) as [cpu mem]. set (f := λ s key, _).
  assert (∀ l x, (∃ m, x = Object m) → ∃ m, fold_left f l x = Object m) as H.
  { induction l as [|k l IH]; intros x Hx; [done|]. cbn [fold_left]. apply IH. unfold f. destruct (is_null _); [done|]. by eexists. }
  apply H. by eexists.
Qed.

Lemma set_spec_total (m : Map) (k : string) (x : Value) : ∀ o, o.["spec"] = Object m → set_index2 o "spec" k x ≠ None.
Proof. intros o E. unfold set_index2. destruct o; try done. rewrite E. done. Qed.

(** a machine is placed on the best node and charged to it.  Whatever the
    server answers: a machine with a name, some node passing every filter and
    every node having a name, is written — in the revision seen — to a node
    that passes every filter and scores as high as any other that does; it is
    reserved there before the write, and charged to the node in this pass
    exactly when the write was accepted, so the next machine sees the memory
    taken. *)
Theorem vm_placed_on_best vmi nodes state observed key t state' observed' :
  exec (schedule_virtual_machine vmi nodes state observed key) t (state', observed') →
  str_or "" vmi.["metadata"].["name"] ≠ "" → (∀ n, n ∈ nodes → node_name_of n ≠ "") →
  (∃ n, n ∈ nodes ∧ vm_placeable (scheduling_shim vmi) nodes state n) →
  ∃ node a t', best_of (scheduling_shim vmi) nodes state (vm_placeable (scheduling_shim vmi) nodes state) node ∧
    t = EAsk (QPatchMerge (status_path (str_or "default" vmi.["metadata"].["namespace"]) (str_or "" vmi.["metadata"].["name"])) (placement vmi (node_name_of node))) a :: t' ∧
    observed' = reserve observed key vmi (node_name_of node) false ∧
    state' = if is_ok (json_answer a) then charge_vm state vmi (scheduling_shim vmi) (node_name_of node) else state.
Proof.
  unfold schedule_virtual_machine. cbn zeta. intros E Hname Hnodes (m & Hm & Hp).
  destruct (is_empty_str (str_or "" _)) eqn:E1; [by apply is_empty_str_spec in E1|].
  pose proof (vm_best_spec (scheduling_shim vmi) nodes state) as Hb. destruct (best_node _ _ _ _) as [node|]; [|by destruct (Hb m Hm)].
  destruct (is_empty_str (node_name_of node)) eqn:E2; [apply is_empty_str_spec in E2; by destruct (Hnodes node (proj1 Hb))|].
  apply exec_bind in E as (t1 & t2 & r & E3 & [-> [= -> ->]]%exec_ret_inv & ->). apply send_json_exec in E3 as (a & t3 & -> & -> & Hn).
  exists node, a, (t3 ++ [])%list. split_and!; [done..|]. by destruct (json_answer a).
Qed.

(** Where a migration's machine may go: the machine's own constraints, or
    those and the selector of a migration of that UID. *)
Definition narrowed (vmi : Value) (uid : string) (shim : Value) : Prop :=
  shim = scheduling_shim vmi ∨
  ∃ m, m.["metadata"].["uid"] = Str uid ∧ add_node_selector (scheduling_shim vmi) m.["spec"].["addedNodeSelector"] = Some shim.

Definition reads (q : Request) : Prop := match q with QList _ => True | _ => False end.

Lemma migration_exec ns uid t m : exec (migration ns uid) t m →
  Forall (asks reads) t ∧ match m with Some m => m.["metadata"].["uid"] = Str uid | None => True end.
Proof.
  unfold migration. destruct (is_empty_str uid); [intros [-> ->]%exec_ret_inv; split; [constructor|done]|].
  intros (t1 & t2 & r & E1 & [-> ->]%exec_ret_inv & ->)%exec_bind. split.
  - rewrite app_nil_r. revert E1. apply (emits_ask (asks reads)); [done|]. intros [|s b]; [apply emits_check|]. destruct (is_error s); [apply emits_check|]. destruct b; [apply emits_ret|apply emits_check].
  - destruct r as [l|e]; [|done]. destruct (head _) as [m|] eqn:Eh; [|done].
    assert (m ∈ List.filter (λ m, str_is m.["metadata"].["uid"] uid) (items l.["items"])) as Hm by (by apply head_Some_elem_of).
    apply list_elem_of_In, filter_In in Hm as [_ Hm]. by apply str_is_spec in Hm.
Qed.

(** What sets no target: reads, and reports on a migration. *)
Definition sets_none (q : Request) : Prop :=
  match q with QPatchMerge _ b => b.["status"].["migrationState"] = Null | QList _ => True | _ => False end.

Lemma report_sets_none reports ns uid scheduled message now_s : emits (asks sets_none) (report_migration reports ns uid scheduled message now_s).
Proof.
  unfold report_migration. cbn zeta. destruct (is_empty_str uid); [apply emits_ret|]. destruct (match reports !! uid with Some _ => _ | None => _ end); [apply emits_ret|].
  apply emits_bind.
  - intros t r [H _]%migration_exec. eapply Forall_impl; [done|]. intros [q x|]; [|done]. by destruct q.
  - intros m. destruct (m ≫= _) as [name|]; [|apply emits_ret]. apply emits_bind; [by apply send_asks|]. intros y. apply emits_ret.
Qed.

Lemma reserve_target_total observed key vmi n : ∃ s shim, reserve_target observed key vmi n = Some s ∧
  s = with_target_assumptions observed (<[key := (n, shim)]> (target_assumptions observed)).
Proof.
  unfold reserve_target, bind_to. destruct (shim_spec_object vmi) as [m Em]. pose proof (set_spec_total m "nodeName" (Str n) _ Em) as Ht.
  destruct (set_index2 _ _ _ _) as [shim|]; [|done]. by eexists _, _.
Qed.

Lemma narrowed_total vmi m : ∃ shim, add_node_selector (scheduling_shim vmi) m.["spec"].["addedNodeSelector"] = Some shim.
Proof.
  unfold add_node_selector. destruct (as_object _); [|by eexists]. destruct (shim_spec_object vmi) as [m' Em].
  match goal with |- ∃ _, set_index2 _ _ ?k ?x = _ => pose proof (set_spec_total m' k x _ Em) as Ht end.
  destruct (set_index2 _ _ _ _) as [shim|]; [by eexists|done].
Qed.

(** a migration's target is held exactly while it stands.  Whatever the
    server answers, the pass does not panic, and either the best node other
    than the machine's own, under the machine's constraints and those of its
    migration, was written as the target — and is charged for the machine
    afterwards exactly when that write was accepted — or no target was
    written and the reservations are as before. *)
Theorem migration_target_held vmi nodes state observed key reports now_s t r :
  exec (schedule_migration_target vmi nodes state observed key reports now_s) t r →
  ∃ observed' reports', r = Some (observed', reports') ∧
    ∃ shim, narrowed vmi (str_or "" vmi.["status"].["migrationState"].["migrationUid"]) shim ∧
    let other m := node_name_of m ≠ default "" (node_of vmi) ∧ vm_placeable shim nodes state m in
    ((∃ node a, best_of shim nodes state other node ∧
        EAsk (QPatchMerge (status_path (str_or "default" vmi.["metadata"].["namespace"]) (str_or "" vmi.["metadata"].["name"])) (target_patch vmi (node_name_of node))) a ∈ t ∧
        fst <$> target_assumptions observed' !! key = (if is_ok (json_answer a) then Some (node_name_of node) else None))
     ∨ Forall (asks sets_none) t ∧ observed' = observed ∧ ((∃ node, node ∈ nodes ∧ node_name_of node = "") ∨ ∀ node, node ∈ nodes → ¬ other node)).
Proof.
  unfold schedule_migration_target. cbn zeta. intros (t1 & t2 & m & E1 & E2 & ->)%exec_bind. apply migration_exec in E1 as [Hr Hm].
  set (uid := str_or "" vmi.["status"].["migrationState"].["migrationUid"]) in *.
  assert (∃ shim, narrowed vmi uid shim ∧ match m with Some m => add_node_selector (scheduling_shim vmi) m.["spec"].["addedNodeSelector"] | None => Some (scheduling_shim vmi) end = Some shim)
    as (shim & Hs & E).
  { destruct m as [m|]; [|eexists; split; [by left|done]]. destruct (narrowed_total vmi m) as [shim E]. exists shim. split; [right; by exists m|done]. }
  rewrite E in E2. clear E Hm m. pose proof (choose_best shim (default "" (node_of vmi)) nodes state) as Hc.
  destruct (choose_migration_target _ _ _ _) as [[n|] refused]; cbn [fst] in Hc.
  - destruct Hc as (Hns & Hne & node & <- & Hb). destruct (reserve_target_total observed key vmi (node_name_of node)) as (s & bound & E & Es). rewrite E in E2.
    apply exec_bind in E2 as (t3 & t4 & x & E3 & E4 & ->). apply send_json_exec in E3 as (a & t5 & -> & -> & _).
    assert (∃ observed' reports', r = Some (observed', reports') ∧ fst <$> target_assumptions observed' !! key = (if is_ok (json_answer a) then Some (node_name_of node) else None))
      as (o & rp & -> & Hk).
    { destruct (json_answer a) as [w|e]; cbn [is_ok] in *.
      - apply exec_bind in E4 as (t6 & t7 & rp & _ & [_ ->]%exec_ret_inv & _). eexists _, _. split; [done|]. subst s. cbn. by rewrite lookup_insert_eq.
      - apply exec_ret_inv in E4 as [_ ->]. eexists _, _. split; [done|]. cbn. by rewrite lookup_delete_eq. }
    exists o, rp. split; [done|]. exists shim. split; [done|]. left. exists node, a. split_and!; [done| |done]. apply elem_of_app. right. left.
  - apply exec_bind in E2 as (t3 & t4 & rp & E3 & [-> ->]%exec_ret_inv & ->). apply report_sets_none in E3. exists observed, rp. split; [done|].
    exists shim. split; [done|]. right. split_and!; [|done|destruct Hc as [?|Hc]; [by left|right; intros node Hn []; by eapply Hc]].
    rewrite app_nil_r, Forall_app. split; [|done]. eapply Forall_impl; [done|]. intros [q x|]; [|done]. by destruct q.
Qed.

(** *** Witnesses *)

Module SchedDemo.
Definition two_nodes : list Value := [demo_node; json_obj [("metadata", json_obj [("name", Str "n2"); ("labels", json_obj [("zone", Str "b")])]); ("status", demo_node.["status"])]].
Definition idle : ClusterState := mkState ∅ [].
Definition storage : VolumeState := mkVolumes ∅ ∅ ∅ [] [].
Definition fresh (i : nat) : Fresh := mkFresh "0123456789abcdef0123" "2024-01-01T00:00:00Z" "2024-01-01T00:00:00.000001Z" "host".
Definition show (e : ClientError) : string := "error".
Definition pod : Value := demo_pod "high" 10 "2".
Definition key : ScheduleKey := (false, mkKey "d" "high" "high").
Definition done_ (v : Value) : Answer := AResponse 200 (Some v).

Definition machine : Value :=
  json_obj [("metadata", json_obj [("name", Str "vm"); ("namespace", Str "d"); ("uid", Str "u1"); ("resourceVersion", Str "7")]);
            ("spec", json_obj [("domain", json_obj [("memory", json_obj [("guest", Str "1Gi")])])]);
            ("status", json_obj [("nodeName", Str "n1"); ("migrationState", json_obj [("migrationUid", Str "m1")])])].
Definition vkey : ScheduleKey := (true, mkKey "d" "vm" "u1").
(** A migration that asks for zone a. *)
Definition to_zone_a : Value :=
  json_obj [("metadata", json_obj [("name", Str "mig"); ("uid", Str "m1")]); ("spec", json_obj [("addedNodeSelector", json_obj [("zone", Str "a")])])].

(** The target asked for, if any. *)
Definition target_asked (t : list Event) : option string :=
  head (omap (λ e, match e with EAsk (QPatchMerge _ b) _ => as_str b.["status"].["migrationState"].["targetNode"] | _ => None end) t).

Definition migrate (answers : list Answer) : option (option string) :=
  (λ tr, target_asked tr.1) <$> play answers (schedule_migration_target machine two_nodes idle default_state vkey ∅ "now").

(** The migration's selector is honoured when the migration can be read... *)
Example selector_honoured : migrate [done_ (json_obj [("items", Array [to_zone_a])]); done_ Null; done_ Null] = Some None.
Proof. vm_compute. reflexivity. Qed.

(** ...but a failed read drops it: the machine is sent to a node its migration excludes. *)
Example selector_dropped_on_failed_read : migrate [ALost; done_ Null] = Some (Some "n2").
Proof. vm_compute. reflexivity. Qed.
End SchedDemo.
Import SchedDemo.

Lemma pod_bound_to_best_witness :
  ∃ b, play [] (schedule_pod show fresh "d" pod two_nodes idle storage default_state key "s" "us") =
         Some ([], (reserve default_state key pod "n1" false, Ok (PBind b))) ∧
       ∃ node, chosen pod "d" two_nodes idle storage node ∧ node.["metadata"].["name"] = Str "n1".
Proof.
  destruct (play [] (schedule_pod show fresh "d" pod two_nodes idle storage default_state key "s" "us")) as [[t [o [[b| |]|e]]]|] eqn:E; vm_compute in E; try done.
  assert (t = [] ∧ o = reserve default_state key pod "n1" false ∧ b_node b = "n1") as (-> & -> & Hb) by (injection E as <- <- <-; by vm_compute).
  exists b. split; [done|].
  assert (exec (schedule_pod show fresh "d" pod two_nodes idle storage default_state key "s" "us") [] (reserve default_state key pod "n1" false, Ok (PBind b))) as Hx.
  { apply (play_exec []). rewrite <-E. vm_compute. reflexivity. }
  destruct (pod_bound_to_best show fresh "d" pod two_nodes idle storage default_state key "s" "us" _ _ _ Hx) as (_ & _ & _ & H & _). by rewrite Hb in H.
Defined.

(** A cluster with one node, full of pods that matter less. *)
Lemma preempt_evicts_selected_witness :
  ∃ t x u p b a v c, exec (preempt show fresh "d" pod [demo_node] demo_cluster storage "full.") t x ∧ t = (u ++ EAsk (QPost p b) a :: v)%list ∧
    p = "/api/v1/namespaces/d/pods/low/eviction" ∧ evicts (victims c) (QPost p b) ∧
    ∀ w, w ∈ victims c → (cand_node c, w) ∈ demo_placed ∧ pod_priority w < 10.
Proof.
  pose (answers := [done_ (json_obj [("items", Array [])]); done_ Null; done_ Null; done_ Null]).
  destruct (play answers (preempt show fresh "d" pod [demo_node] demo_cluster storage "full.")) as [[t x]|] eqn:E; [|by vm_compute in E].
  apply play_exec in E as Hx.
  assert (∃ u b a v, t = (u ++ EAsk (QPost "/api/v1/namespaces/d/pods/low/eviction" b) a :: v)%list) as (u & b & a & v & Ht).
  { vm_compute in E. injection E as <- _.
    match goal with |- ∃ _ _ _ _, ?e1 :: ?e2 :: ?e3 :: EAsk (QPost ?p ?b) ?a :: ?rest = _ => exists [e1; e2; e3], b, a, rest
                  | |- ∃ _ _ _ _, ?e1 :: ?e2 :: EAsk (QPost ?p ?b) ?a :: ?rest = _ => exists [e1; e2], b, a, rest end.
    reflexivity. }
  destruct (preempt_evicts_selected show fresh "d" pod [demo_node] demo_cluster storage "full." t x u _ b a v Hx Ht)
    as (_ & s & l & candidates & c & _ & _ & _ & _ & Hv & _ & He).
  exists t, x, u, "/api/v1/namespaces/d/pods/low/eviction", b, a, v, c. split_and!; [exact Hx|exact Ht|reflexivity|exact He|].
  intros w Hw. destruct (Hv w Hw) as (? & ? & _). split; done.
Defined.

Lemma vm_placed_on_best_witness :
  ∃ node a t', best_of (scheduling_shim machine) two_nodes idle (vm_placeable (scheduling_shim machine) two_nodes idle) node ∧
    a = done_ Null ∧ exec (schedule_virtual_machine machine two_nodes idle default_state vkey)
      (EAsk (QPatchMerge (status_path "d" "vm") (placement machine (node_name_of node))) a :: t')
      (charge_vm idle machine (scheduling_shim machine) (node_name_of node), reserve default_state vkey machine (node_name_of node) false).
Proof.
  assert (∀ x, x ∈ two_nodes → node_name_of x ≠ "") as Hn.
  { intros x H. unfold two_nodes in H. apply elem_of_cons in H as [->|H]; [by vm_compute|]. apply elem_of_cons in H as [->|H]; [by vm_compute|]. by apply not_elem_of_nil in H. }
  assert (∃ n, n ∈ two_nodes ∧ vm_placeable (scheduling_shim machine) two_nodes idle n) as Hp by (exists demo_node; split; [left|by vm_compute]).
  destruct (play [done_ Null] (schedule_virtual_machine machine two_nodes idle default_state vkey)) as [[t [state' observed']]|] eqn:E; [|by vm_compute in E].
  apply play_exec in E as Hx.
  destruct (vm_placed_on_best machine two_nodes idle default_state vkey t state' observed' Hx ltac:(by vm_compute) Hn Hp) as (node & a & t' & Hb & -> & -> & ->).
  assert (a = done_ Null) as -> by (vm_compute in E; injection E; intros; subst; reflexivity). clear E. exists node, (done_ Null), t'. done.
Defined.

Lemma migration_target_held_witness :
  ∃ t observed' reports', exec (schedule_migration_target machine two_nodes idle default_state vkey ∅ "now") t (Some (observed', reports')) ∧
    fst <$> target_assumptions observed' !! vkey = Some "n2".
Proof.
  destruct (play [ALost; done_ Null] (schedule_migration_target machine two_nodes idle default_state vkey ∅ "now")) as [[t r]|] eqn:E; [|by vm_compute in E].
  apply play_exec in E as Hx. destruct (migration_target_held machine two_nodes idle default_state vkey ∅ "now" t r Hx) as (o & rp & -> & _).
  exists t, o, rp. split; [done|]. vm_compute in E. injection E as _ <- _. by vm_compute.
Defined.
