(* ===== verification/WorkQueue.v ===== *)
(** * The deduplicating work queue ([apimachinery/src/workqueue.rs])

    Every controller and the scheduler take their keys from a [WorkQueue].
    Each public method locks the queue's state for its whole body, so it is an
    atomic function on [State]; [next_selected] locks once per round of its
    loop, and [poll] is that critical section.  A step relation over the
    methods ([step]) interleaves any number of producers and workers; a worker
    holds a [Work] guard between its [poll] and the guard's drop ([done]).

    [HashSet] iterates in an unspecified order: the definitions take the order
    as a parameter [iter], and the theorems hold for every order that visits
    each key once.  [Instant] is a [Z].  [unwrap]/[expect] on a missing entry
    is a panic, the [None] of the operations; the theorems show it unreachable. *)

From stdpp Require Import base gmap list numbers option sorting.
From Stdlib Require Import ZArith Lia.
From S2P Require Import Prelude.
Open Scope Z_scope.

Section Queue.
Context {K : Type} `{Countable K}.

Record Entry := mkEntry {
  queued : bool;
  processing : bool;
  dirty : bool;
  deadline : option Z;
}.

Definition entry_default : Entry := mkEntry false false false None.

(** [BTreeMap<Instant, HashSet<K>>]: ascending, one bucket per instant. *)
Notation Deadlines := (list (Z * gset K)).

Record State := mkState {
  ready : list K;
  entries : gmap K Entry;
  deadlines : Deadlines;
}.

Definition new : State := mkState [] ∅ [].

(** [entries.entry(key).or_default()] *)
Definition entry_or_default (m : gmap K Entry) (k : K) : Entry :=
  default entry_default (m !! k).

(** [deadlines.entry(when).or_default().insert(key)] *)
Fixpoint dl_insert (dl : Deadlines) (when : Z) (k : K) : Deadlines :=
  match dl with
  | [] => [(when, {[k]})]
  | (w, X) :: dl' =>
      if when =? w then (w, {[k]} ∪ X) :: dl'
      else if when <? w then (when, {[k]}) :: dl
      else (w, X) :: dl_insert dl' when k
  end.

Fixpoint remove_deadline (dl : Deadlines) (k : K) (when : Z) : Deadlines :=
  match dl with
  | [] => []
  | (w, X) :: dl' =>
      if when =? w then
        let X' := X ∖ {[k]} in
        if decide (X' = ∅) then dl' else (w, X') :: dl'
      else (w, X) :: remove_deadline dl' k when
  end.

Definition add (st : State) (k : K) : State :=
  let e := entry_or_default (entries st) k in
  if processing e then
    mkState (ready st) (<[k := mkEntry (queued e) true true (deadline e)]> (entries st)) (deadlines st)
  else if negb (queued e) then
    mkState (ready st ++ [k]) (<[k := mkEntry true (processing e) (dirty e) (deadline e)]> (entries st))
            (deadlines st)
  else mkState (ready st) (<[k := e]> (entries st)) (deadlines st).

Definition add_at (st : State) (k : K) (dl : Z) : State :=
  let e := entry_or_default (entries st) k in
  let old := deadline e in
  if match old with Some o => o <=? dl | None => false end then
    mkState (ready st) (<[k := e]> (entries st)) (deadlines st)
  else
    let entries' := <[k := mkEntry (queued e) (processing e) (dirty e) (Some dl)]> (entries st) in
    let deadlines' := match old with
                      | Some o => remove_deadline (deadlines st) k o
                      | None => deadlines st
                      end in
    mkState (ready st) entries' (dl_insert deadlines' dl k).

Definition cancel_deadline (st : State) (k : K) : State :=
  match entries st !! k with
  | None => st
  | Some e =>
      let deadlines' := match deadline e with
                        | Some old => remove_deadline (deadlines st) k old
                        | None => deadlines st
                        end in
      let e' := mkEntry (queued e) (processing e) (dirty e) None in
      let entries' := if negb (queued e) && negb (processing e)
                      then delete k (entries st)
                      else <[k := e']> (entries st) in
      mkState (ready st) entries' deadlines'
  end.

(** The body of [for key in due]. *)
Definition fire (k : K) (r : list K) (m : gmap K Entry) : option (list K * gmap K Entry) :=
  match m !! k with
  | None => None
  | Some e =>
      if processing e then Some (r, <[k := mkEntry (queued e) true true None]> m)
      else if negb (queued e) then Some (r ++ [k], <[k := mkEntry true (processing e) (dirty e) None]> m)
      else Some (r, <[k := mkEntry (queued e) (processing e) (dirty e) None]> m)
  end.

Fixpoint fire_keys (ks : list K) (r : list K) (m : gmap K Entry) : option (list K * gmap K Entry) :=
  match ks with
  | [] => Some (r, m)
  | k :: ks' => match fire k r m with
                | Some (r', m') => fire_keys ks' r' m'
                | None => None
                end
  end.

Variable iter : gset K → list K.

(** [while first.when <= now { pop_first; for key in due ... }] *)
Fixpoint fire_due (now : Z) (dl : Deadlines) (r : list K) (m : gmap K Entry) : option State :=
  match dl with
  | [] => Some (mkState r m [])
  | (w, due) :: dl' =>
      if w <=? now then
        match fire_keys (iter due) r m with
        | Some (r', m') => fire_due now dl' r' m'
        | None => None
        end
      else Some (mkState r m dl)
  end.

(** What one round of [next_selected] ends in: a key to work on, or the
    instant to sleep until (none: until notified). *)
Inductive Polled :=
| Working (k : K)
| Waiting (when : option Z).

(** [VecDeque::remove(i)]. *)
Definition remove_at (l : list K) (i : nat) : list K := take i l ++ drop (S i) l.

Definition poll (select : list K → option nat) (now : Z) (st : State) : option (State * Polled) :=
  match fire_due now (deadlines st) (ready st) (entries st) with
  | None => None
  | Some s =>
      match (i ← select (ready s); k ← ready s !! i; Some (i, k)) with
      | Some (i, k) =>
          match entries s !! k with
          | None => None
          | Some e =>
              Some (mkState (remove_at (ready s) i)
                            (<[k := mkEntry false true (dirty e) (deadline e)]> (entries s))
                            (deadlines s),
                    Working k)
          end
      | None => Some (s, Waiting (fst <$> head (deadlines s)))
      end
  end.

(** [next]: the oldest ready key. *)
Definition select_first (r : list K) : option nat :=
  match r with [] => None | _ => Some 0%nat end.

(** [next_by]: the first of the least keys ([Iterator::min_by]). *)
Fixpoint min_by_go (cmp : K → K → comparison) (best : nat) (b : K) (i : nat) (r : list K) : nat :=
  match r with
  | [] => best
  | k :: r' => match cmp b k with
               | Gt => min_by_go cmp i k (S i) r'
               | _ => min_by_go cmp best b (S i) r'
               end
  end.
Definition select_min (cmp : K → K → comparison) (r : list K) : option nat :=
  match r with [] => None | k :: r' => Some (min_by_go cmp 0 k 1 r') end.

Definition next (now : Z) (st : State) : option (State * Polled) := poll select_first now st.
Definition next_by (cmp : K → K → comparison) (now : Z) (st : State) : option (State * Polled) :=
  poll (select_min cmp) now st.

(** Dropping the [Work] guard. *)
Definition done (st : State) (k : K) : option State :=
  match entries st !! k with
  | None => None
  | Some e =>
      if dirty e then
        Some (mkState (ready st ++ [k]) (<[k := mkEntry true false false (deadline e)]> (entries st))
                      (deadlines st))
      else if bool_decide (deadline e = None) then
        Some (mkState (ready st) (delete k (entries st)) (deadlines st))
      else
        Some (mkState (ready st) (<[k := mkEntry (queued e) false (dirty e) (deadline e)]> (entries st))
                      (deadlines st))
  end.

(** ** Interleavings

    The queue with the guards currently held by workers. *)

Record System := mkSystem { queue : State; held : list K }.

Inductive Label :=
| LAdd (k : K)
| LAddAt (k : K) (d : Z)
| LCancel (k : K)
| LPoll (select : list K → option nat) (now : Z) (r : Polled)
| LDone (k : K).

Definition hold_polled (r : Polled) (ks : list K) : list K :=
  match r with Working k => k :: ks | Waiting _ => ks end.

Inductive step : System → Label → System → Prop :=
| step_add st ks k : step (mkSystem st ks) (LAdd k) (mkSystem (add st k) ks)
| step_add_at st ks k d : step (mkSystem st ks) (LAddAt k d) (mkSystem (add_at st k d) ks)
| step_cancel st ks k : step (mkSystem st ks) (LCancel k) (mkSystem (cancel_deadline st k) ks)
| step_poll st ks sel now st' r :
    poll sel now st = Some (st', r) →
    step (mkSystem st ks) (LPoll sel now r) (mkSystem st' (hold_polled r ks))
| step_done st ks1 ks2 k st' :
    done st k = Some st' →
    step (mkSystem st (ks1 ++ k :: ks2)) (LDone k) (mkSystem st' (ks1 ++ ks2)).

Inductive steps : System → list Label → System → Prop :=
| steps_nil s : steps s [] s
| steps_cons s l s' ls s'' : step s l s' → steps s' ls s'' → steps s (l :: ls) s''.

Definition init : System := mkSystem new [].
Definition reachable (s : System) : Prop := ∃ ls, steps init ls s.

(** ** The invariant *)

Definition dl_mem (dl : Deadlines) (w : Z) (k : K) : Prop := ∃ X, (w, X) ∈ dl ∧ k ∈ X.
Definition dl_wf (dl : Deadlines) : Prop :=
  StronglySorted (λ a b, a.1 < b.1) dl ∧ Forall (λ b, b.2 ≠ ∅) dl.

(** The ready list and the entries: a key is in the list once exactly when
    its entry says queued, never queued and processing at once, dirty only
    while processing. *)
Record core_inv (r : list K) (m : gmap K Entry) : Prop := {
  ci_nodup : NoDup r;
  ci_ready : ∀ k, k ∈ r ↔ ∃ e, m !! k = Some e ∧ queued e = true;
  ci_excl : ∀ k e, m !! k = Some e → ¬ (queued e = true ∧ processing e = true);
  ci_dirty : ∀ k e, m !! k = Some e → dirty e = true → processing e = true;
}.

(** Some reason keeps each entry in the map (nothing leaks), and the
    deadline index and the entries agree. *)
Record inv (st : State) : Prop := {
  inv_core : core_inv (ready st) (entries st);
  inv_kept : ∀ k e, entries st !! k = Some e →
    queued e = true ∨ processing e = true ∨ deadline e ≠ None;
  inv_dl : dl_wf (deadlines st);
  inv_index : ∀ k w, dl_mem (deadlines st) w k ↔
    ∃ e, entries st !! k = Some e ∧ deadline e = Some w;
}.

Record sys_inv (s : System) : Prop := {
  si_queue : inv (queue s);
  si_nodup : NoDup (held s);
  si_held : ∀ k, k ∈ held s ↔ ∃ e, entries (queue s) !! k = Some e ∧ processing e = true;
}.

(** A pass over [k] is still owed. *)
Definition pending (r : list K) (m : gmap K Entry) (k : K) : Prop :=
  k ∈ r ∨ ∃ e, m !! k = Some e ∧ processing e = true ∧ dirty e = true.
Definition proc (m : gmap K Entry) (k : K) : Prop :=
  ∃ e, m !! k = Some e ∧ processing e = true.
Definition kept (m : gmap K Entry) : Prop := ∀ k e, m !! k = Some e →
  queued e = true ∨ processing e = true ∨ deadline e ≠ None.

(** ** Lemmas on the ready list and the entries *)

Local Ltac lookups :=
  repeat match goal with
  | H : context [<[_:=_]> _ !! _] |- _ => rewrite lookup_insert in H; case_decide; simplify_eq
  | H : context [delete _ _ !! _] |- _ => rewrite lookup_delete in H; case_decide; simplify_eq
  | |- context [<[_:=_]> _ !! _] => rewrite lookup_insert; case_decide; simplify_eq
  | |- context [delete _ _ !! _] => rewrite lookup_delete; case_decide; simplify_eq
  end.

Definition sound (e : Entry) : Prop :=
  ¬ (queued e = true ∧ processing e = true) ∧ (dirty e = true → processing e = true).

Lemma core_sound r m k e : core_inv r m → m !! k = Some e → sound e.
Proof. intros [] He. split; eauto. Qed.

Lemma core_queued r m k e : core_inv r m → m !! k = Some e → queued e = true ↔ k ∈ r.
Proof. intros C He. rewrite (ci_ready _ _ C). naive_solver. Qed.

Lemma core_update r m k e :
  core_inv r m → sound e → (queued e = true ↔ k ∈ r) → core_inv r (<[k := e]> m).
Proof.
  intros [Hn Hr He Hd] [S1 S2] Hq. split; [done| | |]; intros k'; [|intros e'..].
  - destruct (decide (k' = k)) as [->|Hne].
    + rewrite <- Hq. split; [intros; exists e; lookups; done|intros (? & ? & ?); lookups; done].
    + rewrite Hr. by setoid_rewrite lookup_insert_ne; [|done].
  - intros; lookups; eauto.
  - intros; lookups; eauto.
Qed.

Lemma core_push r m k e :
  core_inv r m → k ∉ r → sound e → queued e = true → core_inv (r ++ [k]) (<[k := e]> m).
Proof.
  intros [Hn Hr He Hd] Hk [S1 S2] Hq. split.
  - apply NoDup_app. split; [done|]. split; [|apply NoDup_singleton]. set_solver.
  - intros k'. rewrite elem_of_app, list_elem_of_singleton, Hr.
    destruct (decide (k' = k)) as [->|Hne].
    + split; [intros; exists e; lookups; done|auto].
    + setoid_rewrite lookup_insert_ne; [|done]. naive_solver.
  - intros k' e'. intros; lookups; eauto.
  - intros k' e'. intros; lookups; eauto.
Qed.

Lemma core_delete r m k : core_inv r m → k ∉ r → core_inv r (delete k m).
Proof.
  intros [Hn Hr He Hd] Hk. split; [done| | |]; intros k'; [|intros e' ?; lookups; eauto..].
  rewrite Hr. destruct (decide (k' = k)) as [->|Hne].
  - split; [|intros (? & ? & ?); lookups; done]. intros Hq. by apply Hr in Hq.
  - by setoid_rewrite lookup_delete_ne; [|done].
Qed.

Lemma remove_at_spec (r : list K) i k :
  r !! i = Some k → NoDup r →
  NoDup (remove_at r i) ∧ ∀ k', k' ∈ remove_at r i ↔ k' ∈ r ∧ k' ≠ k.
Proof.
  intros Hi Hn. unfold remove_at.
  assert (r ≡ₚ k :: (take i r ++ drop (S i) r)) as P.
  { rewrite <- (take_drop_middle r i k Hi) at 1. by rewrite Permutation_middle. }
  revert P. generalize (take i r ++ drop (S i) r). intros l P.
  pose proof Hn as Hn'. rewrite P in Hn'. apply NoDup_cons in Hn' as [Hk Hn'].
  split; [done|]. intros k'. rewrite P. set_solver.
Qed.

Lemma core_take r m i k e :
  core_inv r m → r !! i = Some k → sound e → queued e = false →
  core_inv (remove_at r i) (<[k := e]> m).
Proof.
  intros [Hn Hr He Hd] Hi [S1 S2] Hq.
  destruct (remove_at_spec r i k Hi Hn) as [Hn' Hm].
  split; [done| | |]; intros k'; [|intros e' ?; lookups; eauto..].
  rewrite Hm, Hr. destruct (decide (k' = k)) as [->|Hne].
  - split; [naive_solver|]. intros (? & ? & ?). lookups. congruence.
  - setoid_rewrite lookup_insert_ne; [|done]. naive_solver.
Qed.

(** ** Lemmas on the deadline index *)

Lemma dl_mem_cons w X dl w' k :
  dl_mem ((w, X) :: dl) w' k ↔ (w' = w ∧ k ∈ X) ∨ dl_mem dl w' k.
Proof. unfold dl_mem. set_solver. Qed.

Lemma dl_mem_nil w k : ¬ dl_mem [] w k.
Proof. unfold dl_mem. set_solver. Qed.

Lemma dl_mem_insert dl w k w' k' :
  dl_mem (dl_insert dl w k) w' k' ↔ (w' = w ∧ k' = k) ∨ dl_mem dl w' k'.
Proof.
  induction dl as [|[w1 X] dl IH]; simpl.
  - rewrite dl_mem_cons. set_solver.
  - destruct (Z.eqb_spec w w1) as [->|]; [|destruct (Z.ltb_spec w w1)];
      rewrite !dl_mem_cons, ?IH, ?elem_of_union, ?elem_of_singleton; naive_solver.
Qed.

Lemma dl_mem_above dl w k :
  Forall (λ b : Z * gset K, w < b.1) dl → ¬ dl_mem dl w k.
Proof. intros Ha (X & Hin & _). rewrite Forall_forall in Ha. apply Ha in Hin. simpl in Hin. lia. Qed.

Lemma dl_mem_remove dl w k w' k' :
  dl_wf dl → dl_mem (remove_deadline dl k w) w' k' ↔ dl_mem dl w' k' ∧ ¬ (w' = w ∧ k' = k).
Proof.
  intros [Hs _]. induction Hs as [|[w1 X] dl Hs IH Ha]; simpl.
  - split; [by intros ?%dl_mem_nil|by intros [?%dl_mem_nil _]].
  - destruct (Z.eqb_spec w w1) as [->|Hne].
    + pose proof (dl_mem_above dl w1 k' Ha) as Hno.
      assert (k' ∈ X ∖ {[k]} ↔ k' ∈ X ∧ k' ≠ k) as HX by set_solver.
      case_decide as E; rewrite ?dl_mem_cons; [rewrite E in HX|];
        destruct (decide (w' = w1)) as [->|]; set_solver.
    + rewrite !dl_mem_cons, IH. naive_solver.
Qed.

Lemma dl_insert_above dl w k w0 :
  Forall (λ b : Z * gset K, w0 < b.1) dl → w0 < w → Forall (λ b : Z * gset K, w0 < b.1) (dl_insert dl w k).
Proof.
  intros Ha Hw. induction Ha as [|[w1 X] dl H1 Ha IH]; simpl; [by repeat constructor|].
  repeat case_match; repeat constructor; done.
Qed.

Lemma dl_insert_wf dl w k : dl_wf dl → dl_wf (dl_insert dl w k).
Proof.
  intros [Hs Hne]. revert Hne. induction Hs as [|[w1 X] dl Hs IH Ha]; intros Hne; simpl.
  - split; repeat constructor. simpl. set_solver.
  - inversion_clear Hne as [|?? Hx Hd]. destruct (IH Hd) as [IH1 IH2]. simpl in *.
    destruct (Z.eqb_spec w w1) as [->|]; [|destruct (Z.ltb_spec w w1)]; split; repeat constructor; simpl;
      try done; try set_solver.
    + eapply List.Forall_impl; [|exact Ha]. simpl. lia.
    + apply dl_insert_above; [done|lia].
Qed.

Lemma remove_deadline_above dl w k w0 :
  Forall (λ b : Z * gset K, w0 < b.1) dl → Forall (λ b : Z * gset K, w0 < b.1) (remove_deadline dl k w).
Proof.
  intros Ha. induction Ha as [|[w1 X] dl H1 Ha IH]; simpl; [constructor|].
  repeat case_match; repeat constructor; done.
Qed.

Lemma remove_deadline_wf dl w k : dl_wf dl → dl_wf (remove_deadline dl k w).
Proof.
  intros [Hs Hne]. revert Hne. induction Hs as [|[w1 X] dl Hs IH Ha]; intros Hne; simpl.
  { split; constructor. }
  inversion_clear Hne as [|?? Hx Hd]. destruct (IH Hd) as [IH1 IH2]. simpl in *.
  destruct (Z.eqb_spec w w1) as [->|]; [case_decide|]; split; try (constructor; simpl); try done.
  by apply remove_deadline_above.
Qed.

(** ** Firing due deadlines *)

(** What firing may do to the queue: append to the ready list, keep every
    owed pass, leave who is processing alone. *)
Record evolves (r : list K) (m : gmap K Entry) (r' : list K) (m' : gmap K Entry) : Prop := {
  ev_prefix : r `prefix_of` r';
  ev_proc : ∀ k, proc m k ↔ proc m' k;
  ev_pending : ∀ k, pending r m k → pending r' m' k;
  ev_kept : kept m → kept m';
}.

Lemma evolves_refl r m : evolves r m r m.
Proof. done. Qed.

Lemma evolves_trans r1 m1 r2 m2 r3 m3 :
  evolves r1 m1 r2 m2 → evolves r2 m2 r3 m3 → evolves r1 m1 r3 m3.
Proof.
  intros [p1 q1 d1 k1] [p2 q2 d2 k2]. split; [by etrans| |auto|auto].
  intros k. by rewrite q1, q2.
Qed.

Lemma fire_spec r m k e :
  core_inv r m → m !! k = Some e →
  ∃ r' e', fire k r m = Some (r', <[k := e']> m) ∧
    core_inv r' (<[k := e']> m) ∧ evolves r m r' (<[k := e']> m) ∧
    pending r' (<[k := e']> m) k ∧ deadline e' = None.
Proof.
  intros C He. pose proof (core_sound _ _ _ _ C He) as [S1 S2].
  pose proof (core_queued _ _ _ _ C He) as Hq. unfold fire. rewrite He.
  assert (∀ r' e', r `prefix_of` r' → processing e' = processing e → (dirty e = true → dirty e' = true) →
    (queued e' = true ∨ processing e' = true) → evolves r m r' (<[k := e']> m)) as Hev.
  { intros r' e' Hp Ep Ed Hk. split; [done| | |].
    - intros k'. unfold proc. split; intros (x & Hx & ?); lookups; eexists; split; lookups; eauto; congruence.
    - intros k' [Hin|(x & Hx & Hpx & Hdx)].
      + left. destruct Hp as [l ->]. set_solver.
      + right. destruct (decide (k = k')) as [<-|Hne].
        * exists e'. lookups. split; [done|]. split; [congruence|]. naive_solver.
        * exists x. lookups. done.
    - intros Hkept k' x Hx. lookups; [naive_solver|eauto]. }
  destruct (processing e) eqn:Ep; [|destruct (queued e) eqn:Eq]; simpl; do 2 eexists; (split; [done|]).
  - split; [|split; [|split; [right; eexists; lookups; done|done]]].
    + apply core_update; [done| |]; [split; simpl; [intros [? _]; auto|done]|]. simpl. tauto.
    + apply Hev; simpl; auto.
  - split; [|split; [|split; [left; tauto|done]]].
    + apply core_update; [done| |simpl; tauto]. split; simpl; [by intros [_ ?]|]. tauto.
    + apply Hev; simpl; auto.
  - split; [|split; [|split; [left; set_solver|done]]].
    + apply core_push; [done| | |done]; [intros Hin; apply Hq in Hin; done|].
      split; simpl; [by intros [_ ?]|]. tauto.
    + apply Hev; simpl; auto. by exists [k].
Qed.

(** The keys of one bucket: each is in the map because the index says so. *)
Lemma fire_keys_spec (P : Z → K → Prop) w ks r m :
  core_inv r m → NoDup ks → (∀ k, ¬ P w k) →
  (∀ k w', (w' = w ∧ k ∈ ks) ∨ P w' k ↔ ∃ e, m !! k = Some e ∧ deadline e = Some w') →
  ∃ r' m', fire_keys ks r m = Some (r', m') ∧
    core_inv r' m' ∧ evolves r m r' m' ∧ (∀ k, k ∈ ks → pending r' m' k) ∧
    (∀ k w', P w' k ↔ ∃ e, m' !! k = Some e ∧ deadline e = Some w').
Proof.
  intros C Hnd HP. revert r m C. induction Hnd as [|k ks Hk Hnd IH]; intros r m C Hidx; simpl.
  { exists r, m. split; [done|]. split; [done|]. split; [apply evolves_refl|]. split; [set_solver|].
    intros k w'. rewrite <- Hidx. set_solver. }
  destruct (proj1 (Hidx k w)) as (e & He & Hd); [left; set_solver|].
  destruct (fire_spec r m k e C He) as (r1 & e1 & -> & C1 & V1 & Hp1 & Hd1).
  destruct (IH r1 _ C1) as (r2 & m2 & -> & C2 & V2 & Hp2 & Hidx2).
  - intros k' w'. destruct (decide (k' = k)) as [->|Hne].
    + rewrite lookup_insert_eq. split; [|intros (? & [= <-] & ?); congruence].
      intros [[-> Hin]|HPk]; [done|].
      destruct (proj1 (Hidx k w')) as (e' & He' & Hd'); [by right|].
      assert (w' = w) as -> by congruence. by apply HP in HPk.
    + rewrite lookup_insert_ne by done. rewrite <- Hidx. set_solver.
  - exists r2, m2. split; [done|]. split; [done|]. split; [by eapply evolves_trans|].
    split; [|done]. intros k' [->|Hin]%elem_of_cons; [by apply (ev_pending _ _ _ _ V2)|auto].
Qed.

Context (iter_spec : ∀ X, iter X ≡ₚ elements X).

Lemma fire_due_spec now dl r m :
  core_inv r m → dl_wf dl →
  (∀ k w, dl_mem dl w k ↔ ∃ e, m !! k = Some e ∧ deadline e = Some w) →
  ∃ s, fire_due now dl r m = Some s ∧
    core_inv (ready s) (entries s) ∧ evolves r m (ready s) (entries s) ∧ dl_wf (deadlines s) ∧
    (∀ k w, dl_mem (deadlines s) w k ↔ ∃ e, entries s !! k = Some e ∧ deadline e = Some w) ∧
    (∀ k w, dl_mem dl w k → w ≤ now → pending (ready s) (entries s) k) ∧
    (∀ k w, dl_mem dl w k → now < w → dl_mem (deadlines s) w k).
Proof.
  intros C [Hs Hne]. revert r m C Hne.
  induction Hs as [|[w due] dl Hs IH Ha]; intros r m C Hne Hidx; simpl.
  { exists (mkState r m []). split_and!; try done; [repeat constructor|].
    intros k w Hm. by apply dl_mem_nil in Hm. }
  inversion_clear Hne as [|?? Hx Hd]. destruct (Z.leb_spec w now) as [Hw|Hw].
  - destruct (fire_keys_spec (dl_mem dl) w (iter due) r m C) as (r1 & m1 & -> & C1 & V1 & Hp1 & Hidx1).
    + rewrite iter_spec. apply NoDup_elements.
    + intros k. by apply dl_mem_above.
    + intros k w'. rewrite <- Hidx, dl_mem_cons, iter_spec, elem_of_elements. done.
    + destruct (IH r1 m1 C1 Hd Hidx1) as (s & -> & C2 & V2 & Hwf & Hidx2 & Hfire & Hkeep).
      exists s. split; [done|]. split; [done|]. split; [by eapply evolves_trans|].
      split; [done|]. split; [done|]. split.
      * intros k w'. rewrite dl_mem_cons. intros [[-> Hin]|Hin] Hle; [|eauto].
        apply (ev_pending _ _ _ _ V2), Hp1. by rewrite iter_spec, elem_of_elements.
      * intros k w'. rewrite dl_mem_cons. intros [[-> Hin]|Hin] Hlt; [lia|eauto].
  - exists (mkState r m ((w, due) :: dl)). simpl. split; [done|]. split; [done|].
    split; [apply evolves_refl|]. split; [by repeat constructor|]. split; [done|]. split; [|done].
    intros k w'. rewrite dl_mem_cons. intros [[-> Hin]|(X & Hin & _)] Hle; [lia|].
    rewrite Forall_forall in Ha. apply Ha in Hin. simpl in Hin. lia.
Qed.

(** ** Each method keeps the invariant *)

Lemma default_lookup m k : entry_or_default m k = entry_default ∨ m !! k = Some (entry_or_default m k).
Proof. unfold entry_or_default. destruct (m !! k); simpl; auto. Qed.

Lemma inv_or_default st k : inv st →
  let e := entry_or_default (entries st) k in
  sound e ∧ (queued e = true ↔ k ∈ ready st) ∧
  (∀ w, dl_mem (deadlines st) w k ↔ deadline e = Some w).
Proof.
  intros I. pose proof I as [C Hk Hwf Hidx]. unfold entry_or_default.
  destruct (entries st !! k) as [e|] eqn:He; simpl.
  - split; [by eapply core_sound|]. split; [by eapply core_queued|].
    intros w. rewrite Hidx. naive_solver.
  - split; [split; [by intros [? _]|done]|]. rewrite (ci_ready _ _ C). split; [naive_solver|].
    intros w. rewrite Hidx. naive_solver.
Qed.

(** Replacing one entry without touching its deadline keeps the index. *)
Lemma index_update st k e :
  inv st → deadline e = deadline (entry_or_default (entries st) k) →
  ∀ k' w, dl_mem (deadlines st) w k' ↔ ∃ x, <[k := e]> (entries st) !! k' = Some x ∧ deadline x = Some w.
Proof.
  intros I Hd k' w. destruct (inv_or_default st k I) as (_ & _ & Hi).
  destruct (decide (k' = k)) as [->|Hne].
  - rewrite Hi, lookup_insert_eq, <- Hd. naive_solver.
  - rewrite lookup_insert_ne by done. apply I.
Qed.

Lemma kept_insert (m : gmap K Entry) k e :
  kept m → queued e = true ∨ processing e = true ∨ deadline e ≠ None → kept (<[k := e]> m).
Proof. intros Hk He k' x Hx. lookups; eauto. Qed.

Lemma add_inv st k : inv st → inv (add st k).
Proof.
  intros I. pose proof I as [C Hk Hwf Hidx].
  destruct (inv_or_default st k I) as (Hs & Hq & _). pose proof Hs as [S1 S2].
  unfold add. set (e := entry_or_default (entries st) k) in *.
  destruct (processing e) eqn:Ep; [|destruct (queued e) eqn:Eq]; simpl.
  - split; simpl; [|apply kept_insert; auto|done|by apply index_update].
    apply core_update; [done| |done]. split; simpl; [intros [? _]; auto|done].
  - split; simpl; [|apply kept_insert; auto|done|by apply index_update].
    apply core_update; [done|done|]. by rewrite Eq.
  - split; simpl; [|apply kept_insert; auto|done|by apply index_update].
    apply core_push; [done| | |done]; [intros Hin; apply Hq in Hin; congruence|].
    split; simpl; [by intros [_ ?]|done].
Qed.

Lemma add_at_inv st k d : inv st → inv (add_at st k d).
Proof.
  intros I. pose proof I as [C Hk Hwf Hidx].
  destruct (inv_or_default st k I) as ([S1 S2] & Hq & Hi).
  unfold add_at. set (e := entry_or_default (entries st) k) in *.
  destruct (deadline e) as [o|] eqn:Ed; [destruct (Z.leb_spec o d)|].
  - split; simpl; [by apply core_update|apply kept_insert; [done|right; right; congruence]|done|].
    by apply index_update.
  - split; simpl; [by apply core_update|apply kept_insert; simpl; auto| |].
    + by apply dl_insert_wf, remove_deadline_wf.
    + intros k' w. rewrite dl_mem_insert, dl_mem_remove by done.
      destruct (decide (k' = k)) as [->|Hne].
      * rewrite lookup_insert_eq, Hi. simpl. naive_solver.
      * rewrite lookup_insert_ne by done. rewrite <- Hidx. naive_solver.
  - split; simpl; [by apply core_update|apply kept_insert; simpl; auto|by apply dl_insert_wf|].
    intros k' w. rewrite dl_mem_insert. destruct (decide (k' = k)) as [->|Hne].
    + rewrite lookup_insert_eq, Hi. simpl. naive_solver.
    + rewrite lookup_insert_ne by done. rewrite <- Hidx. naive_solver.
Qed.

Lemma cancel_inv st k : inv st → inv (cancel_deadline st k).
Proof.
  intros I. pose proof I as [C Hk Hwf Hidx]. unfold cancel_deadline.
  destruct (entries st !! k) as [e|] eqn:He; [|done].
  pose proof (core_sound _ _ _ _ C He) as [S1 S2].
  pose proof (core_queued _ _ _ _ C He) as Hq.
  set (dl := match deadline e with Some old => _ | None => _ end).
  assert (dl_wf dl ∧ ∀ k' w, dl_mem dl w k' ↔ dl_mem (deadlines st) w k' ∧ k' ≠ k) as [Hdl Hmem].
  { subst dl. destruct (deadline e) as [o|] eqn:Ed; (split; [by try apply remove_deadline_wf|]); intros k' w.
    - rewrite dl_mem_remove by done. rewrite Hidx. split; [|naive_solver].
      intros [(x & Hx & Hw) Hn]. split; [by exists x|]. intros ->. apply Hn. split; congruence.
    - rewrite Hidx. split; [|naive_solver]. intros (x & Hx & Hw). split; [by exists x|].
      intros ->. congruence. }
  destruct (queued e) eqn:Eq; [|destruct (processing e) eqn:Ep]; simpl; split; simpl; try done.
  - apply core_update; [done|split; simpl; [tauto|auto]|simpl; tauto].
  - apply kept_insert; simpl; auto.
  - intros k' w. rewrite Hmem, Hidx. destruct (decide (k' = k)) as [->|Hne]; lookups; naive_solver.
  - apply core_update; [done|split; simpl; auto|simpl; tauto].
  - apply kept_insert; simpl; auto.
  - intros k' w. rewrite Hmem, Hidx. destruct (decide (k' = k)) as [->|Hne]; lookups; naive_solver.
  - apply core_delete; [done|]. intros Hin. apply Hq in Hin. done.
  - intros k' x Hx. lookups. eauto.
  - intros k' w. rewrite Hmem, Hidx. destruct (decide (k' = k)) as [->|Hne]; lookups; naive_solver.
Qed.

Lemma poll_spec sel now st :
  inv st → ∃ st' res, poll sel now st = Some (st', res) ∧ inv st' ∧
    match res with
    | Working k => ∃ s i e,
        fire_due now (deadlines st) (ready st) (entries st) = Some s ∧
        sel (ready s) = Some i ∧ ready s !! i = Some k ∧ entries s !! k = Some e ∧
        evolves (ready st) (entries st) (ready s) (entries s) ∧
        queued e = true ∧ processing e = false ∧ dirty e = false ∧
        st' = mkState (remove_at (ready s) i) (<[k := mkEntry false true false (deadline e)]> (entries s)) (deadlines s)
    | Waiting _ =>
        fire_due now (deadlines st) (ready st) (entries st) = Some st' ∧
        evolves (ready st) (entries st) (ready st') (entries st')
    end ∧
    (∀ k w, dl_mem (deadlines st) w k → w ≤ now → res = Working k ∨ pending (ready st') (entries st') k) ∧
    (∀ k w, dl_mem (deadlines st) w k → now < w → dl_mem (deadlines st') w k).
Proof.
  intros [C Hk Hwf Hidx]. unfold poll.
  destruct (fire_due_spec now _ _ _ C Hwf Hidx) as (s & Efd & C1 & V1 & Hwf1 & Hidx1 & Hfire & Hkeep).
  rewrite Efd. destruct (sel (ready s)) as [i|] eqn:Es; simpl; [destruct (ready s !! i) as [k|] eqn:Ei; simpl|].
  2,3: do 2 eexists; split; [done|]; simpl; split; [split; try done; by apply (ev_kept _ _ _ _ V1)|];
       split; [done|]; split; [eauto|done].
  assert (k ∈ ready s) as Hin by by eapply list_elem_of_lookup_2.
  apply (ci_ready _ _ C1) in Hin as (e & He & Hq). rewrite He.
  pose proof (core_sound _ _ _ _ C1 He) as [S1 S2].
  assert (processing e = false) as Ep by (destruct (processing e); [exfalso; auto|done]).
  assert (dirty e = false) as Ed by (destruct (dirty e); [rewrite S2 in Ep; done|done]).
  rewrite Ed. do 2 eexists. split; [done|]. simpl. split; [|split; [|split]].
  - split; simpl; [|apply kept_insert; [by apply (ev_kept _ _ _ _ V1)|simpl; auto]|done|].
    + apply core_take; [done|done|split; simpl; [by intros [? _]|done]|done].
    + intros k' w. rewrite Hidx1. destruct (decide (k' = k)) as [->|]; lookups; naive_solver.
  - exists s, i, e. done.
  - intros k' w Hm Hle. destruct (decide (k' = k)) as [->|Hne]; [by left|right].
    destruct (Hfire k' w Hm Hle) as [Hr|(x & Hx & ?)].
    + left. apply (remove_at_spec _ _ k Ei (ci_nodup _ _ C1)). done.
    + right. exists x. lookups. done.
  - done.
Qed.

Lemma done_spec st k : inv st → proc (entries st) k →
  ∃ st', done st k = Some st' ∧ inv st' ∧
    (∀ k', proc (entries st') k' ↔ proc (entries st) k' ∧ k' ≠ k) ∧
    (∀ k', pending (ready st) (entries st) k' → pending (ready st') (entries st') k') ∧
    (∀ k' w, dl_mem (deadlines st') w k' ↔ dl_mem (deadlines st) w k').
Proof.
  intros [C Hk Hwf Hidx] (e & He & Hp). unfold done. rewrite He.
  pose proof (core_sound _ _ _ _ C He) as [S1 S2].
  assert (queued e = false) as Eq by (destruct (queued e); [exfalso; auto|done]).
  assert (k ∉ ready st) as Hnr.
  { intros Hin. apply (ci_ready _ _ C) in Hin as (? & ? & ?). congruence. }
  destruct (dirty e) eqn:Ed; [|case_bool_decide as En]; eexists; (split; [done|]); simpl;
    (split; [split; simpl; try done|split; [|split]]); simpl; try done.
  - apply core_push; [done|done| |done]. split; simpl; [by intros [_ ?]|done].
  - apply kept_insert; simpl; auto.
  - intros k' w. rewrite Hidx. destruct (decide (k' = k)) as [->|]; lookups; naive_solver.
  - intros k'. unfold proc. destruct (decide (k' = k)) as [->|]; lookups; naive_solver.
  - intros k' [Hin|(x & Hx & ?)]; [left; set_solver|].
    destruct (decide (k' = k)) as [->|]; [left; set_solver|right]. exists x. lookups. done.
  - by apply core_delete.
  - intros k' x Hx. lookups. eauto.
  - intros k' w. rewrite Hidx. destruct (decide (k' = k)) as [->|]; lookups; naive_solver.
  - intros k'. unfold proc. destruct (decide (k' = k)) as [->|]; lookups; naive_solver.
  - intros k' [Hin|(x & Hx & Hpx & Hdx)]; [by left|right].
    exists x. lookups; [congruence|done].
  - apply core_update; [done|split; simpl; [by intros [_ ?]|congruence]|simpl]. rewrite Eq. naive_solver.
  - apply kept_insert; simpl; auto.
  - intros k' w. rewrite Hidx. destruct (decide (k' = k)) as [->|]; lookups; naive_solver.
  - intros k'. unfold proc. destruct (decide (k' = k)) as [->|]; lookups; naive_solver.
  - intros k' [Hin|(x & Hx & Hpx & Hdx)]; [by left|right].
    exists x. lookups; [congruence|done].
Qed.

(** ** Every interleaving keeps the invariant *)

Lemma proc_insert (m : gmap K Entry) k e k' :
  proc (<[k := e]> m) k' ↔ if decide (k' = k) then processing e = true else proc m k'.
Proof. unfold proc. case_decide; lookups; naive_solver. Qed.

Lemma proc_or_default m k : proc m k ↔ processing (entry_or_default m k) = true.
Proof. unfold proc, entry_or_default. destruct (m !! k); simpl; naive_solver. Qed.

Lemma add_proc st k k' : proc (entries (add st k)) k' ↔ proc (entries st) k'.
Proof.
  unfold add. set (e := entry_or_default (entries st) k).
  destruct (processing e) eqn:Ep; [|destruct (queued e)]; simpl; rewrite proc_insert; case_decide; subst; try done;
    rewrite proc_or_default; fold e; simpl; by rewrite Ep.
Qed.

Lemma add_at_proc st k d k' : proc (entries (add_at st k d)) k' ↔ proc (entries st) k'.
Proof.
  unfold add_at. set (e := entry_or_default (entries st) k).
  destruct (match deadline e with Some o => o <=? d | None => false end); simpl;
    rewrite proc_insert; case_decide; subst; try done; rewrite proc_or_default; done.
Qed.

Lemma cancel_proc st k k' : proc (entries (cancel_deadline st k)) k' ↔ proc (entries st) k'.
Proof.
  unfold cancel_deadline. destruct (entries st !! k) as [e|] eqn:He; [|done]. simpl.
  destruct (negb (queued e) && negb (processing e)) eqn:Eb.
  - apply andb_true_iff in Eb as [_ Eb%negb_true_iff]. unfold proc.
    destruct (decide (k' = k)) as [->|Hne].
    + rewrite lookup_delete_eq, He. split; [by intros (? & ? & ?)|intros (? & [= <-] & ?); congruence].
    + by rewrite lookup_delete_ne.
  - rewrite proc_insert. case_decide; subst; [|done]. unfold proc. simpl. naive_solver.
Qed.

Lemma init_inv : sys_inv init.
Proof.
  split; simpl; [|constructor|intros k; set_solver].
  split; simpl; [split|..]; try set_solver; [constructor|split; constructor|].
  intros k w. split; [by intros ?%dl_mem_nil|set_solver].
Qed.

Lemma step_inv s l s' : sys_inv s → step s l s' → sys_inv s'.
Proof.
  intros [I Hn Hh] Hstep. destruct Hstep as [st ks k|st ks k d|st ks k|st ks sel now st' r Hp|st ks1 ks2 k st' Hd];
    simpl in *.
  - split; simpl; [by apply add_inv|done|]. intros k'. rewrite Hh. symmetry. apply add_proc.
  - split; simpl; [by apply add_at_inv|done|]. intros k'. rewrite Hh. symmetry. apply add_at_proc.
  - split; simpl; [by apply cancel_inv|done|]. intros k'. rewrite Hh. symmetry. apply cancel_proc.
  - destruct (poll_spec sel now st I) as (st2 & r2 & Hp2 & I2 & Hres & _).
    rewrite Hp in Hp2. injection Hp2 as <- <-.
    destruct r as [k|w]; simpl.
    + destruct Hres as (s & i & e & _ & _ & _ & He & V & _ & Ep & _ & ->).
      split; [done| |]; simpl.
      * constructor; [|done]. rewrite Hh. intros Hpk. apply (ev_proc _ _ _ _ V) in Hpk as (? & ? & ?). congruence.
      * intros k'. rewrite elem_of_cons, Hh. setoid_rewrite (ev_proc _ _ _ _ V).
        fold (proc (<[k:=mkEntry false true false (deadline e)]> (entries s)) k'). rewrite proc_insert.
        case_decide; simpl; naive_solver.
    + destruct Hres as [_ V]. split; [done|done|]. simpl. intros k'. rewrite Hh. apply (ev_proc _ _ _ _ V).
  - assert (proc (entries st) k) as Hpk by (apply Hh; set_solver).
    destruct (done_spec st k I Hpk) as (st2 & Hd2 & I2 & Hpr & _).
    rewrite Hd in Hd2. injection Hd2 as <-.
    assert (NoDup (k :: ks1 ++ ks2)) as [Hk Hn']%NoDup_cons by by rewrite Permutation_middle.
    split; simpl; [done|done|]. intros k'. fold (proc (entries st') k'). rewrite Hpr.
    unfold proc. rewrite <- Hh. set_solver.
Qed.

Lemma steps_inv s ls s' : sys_inv s → steps s ls s' → sys_inv s'.
Proof. intros I H1. induction H1; eauto using step_inv. Qed.

Lemma reachable_inv s : reachable s → sys_inv s.
Proof. intros [ls Hls]. eapply steps_inv; [apply init_inv|done]. Qed.

(** ** What each step does to an owed pass and to a deadline *)

Definition owed (s : System) (k : K) : Prop := pending (ready (queue s)) (entries (queue s)) k.
Definition returns (l : Label) (k : K) : Prop := ∃ sel now, l = LPoll sel now (Working k).

Lemma add_pending st k k' :
  pending (ready st) (entries st) k' ∨ k' = k ∧ inv st → pending (ready (add st k)) (entries (add st k)) k'.
Proof.
  unfold add. set (e := entry_or_default (entries st) k) in *.
  intros [[Hin|(x & Hx & Hp & Hd)]|[-> I]].
  - repeat case_match; simpl; left; set_solver.
  - destruct (decide (k' = k)) as [->|Hne].
    + assert (e = x) as -> by (unfold e, entry_or_default; by rewrite Hx). rewrite Hp. simpl.
      right. eexists. lookups. done.
    + repeat case_match; simpl; right; exists x; lookups; done.
  - destruct (inv_or_default st k I) as (_ & Hq & _). fold e in Hq.
    destruct (processing e) eqn:Ep; [|destruct (queued e) eqn:Eq]; simpl.
    + right. eexists. lookups. done.
    + left. tauto.
    + left. set_solver.
Qed.

Lemma step_owed s l s' k : sys_inv s → step s l s' → owed s k → returns l k ∨ owed s' k.
Proof.
  unfold owed. intros [I Hn Hh] Hstep Hk.
  destruct Hstep as [st ks x|st ks x d|st ks x|st ks sel now st' r Hp|st ks1 ks2 x st' Hd]; simpl in *.
  - right. apply add_pending. by left.
  - right. unfold add_at. set (e := entry_or_default (entries st) x).
    assert (∀ e', processing e' = processing e → dirty e' = dirty e →
      pending (ready st) (<[x := e']> (entries st)) k) as Hup.
    { intros e' Ep Ed. destruct Hk as [Hin|(y & Hy & ? & ?)]; [by left|right].
      destruct (decide (k = x)) as [->|]; [|exists y; lookups; done].
      exists e'. lookups. rewrite Ep, Ed. unfold e, entry_or_default. by rewrite Hy. }
    case_match; simpl; by apply Hup.
  - right. unfold cancel_deadline. destruct (entries st !! x) as [e|] eqn:He; [|done]. simpl.
    destruct Hk as [Hin|(y & Hy & Hpy & Hdy)]; [by left|right].
    destruct (decide (k = x)) as [->|].
    + simplify_eq. rewrite Hpy, andb_false_r. eexists. lookups. done.
    + case_match; exists y; lookups; done.
  - destruct (poll_spec sel now st I) as (st2 & r2 & Hp2 & I2 & Hres & _).
    rewrite Hp in Hp2. injection Hp2 as <- <-.
    destruct r as [x|w].
    + destruct Hres as (s & i & e & Efd & _ & Hi & He & V & _ & _ & _ & ->). simpl.
      destruct (decide (k = x)) as [->|Hne]; [left; by do 2 eexists|right].
      apply (ev_pending _ _ _ _ V) in Hk as [Hin|(y & Hy & ?)].
      * left. apply (remove_at_spec _ _ x Hi); [|done].
        destruct (fire_due_spec now (deadlines st) (ready st) (entries st)) as (s2 & Es2 & C2 & _); [apply I..|].
        assert (s2 = s) as -> by congruence. apply C2.
      * right. exists y. lookups. done.
    + right. destruct Hres as [_ V]. by apply (ev_pending _ _ _ _ V).
  - right. assert (proc (entries st) x) as Hpx by (apply Hh; set_solver).
    destruct (done_spec st x I Hpx) as (st2 & Hd2 & _ & _ & Hpend & _).
    rewrite Hd in Hd2. injection Hd2 as <-. auto.
Qed.

Lemma steps_owed s ls s' k :
  sys_inv s → steps s ls s' → owed s k → (∃ l, l ∈ ls ∧ returns l k) ∨ owed s' k.
Proof.
  intros I H1. induction H1 as [s|s l s1 ls s2 Hst _ IH]; intros Hk; [by right|].
  destruct (step_owed _ _ _ _ I Hst Hk) as [Hr|Ho].
  - left. exists l. split; [set_solver|done].
  - destruct (IH (step_inv _ _ _ I Hst) Ho) as [(l' & ? & ?)|]; [left; exists l'; set_solver|by right].
Qed.

Definition timer (s : System) (k : K) (d : Z) : Prop := dl_mem (deadlines (queue s)) d k.

(** The steps that may move [k]'s deadline [d]: a cancel, an earlier
    [add_at], a poll at or after [d]. *)
Definition touches (k : K) (d : Z) (l : Label) : Prop :=
  match l with
  | LCancel k' => k' = k
  | LAddAt k' d' => k' = k ∧ d' < d
  | LPoll _ now _ => d ≤ now
  | _ => False
  end.

Lemma step_timer s l s' k d :
  sys_inv s → step s l s' → timer s k d → ¬ touches k d l → timer s' k d.
Proof.
  unfold timer. intros [I Hn Hh] Hstep Hk Ht.
  destruct Hstep as [st ks x|st ks x d'|st ks x|st ks sel now st' r Hp|st ks1 ks2 x st' Hd]; simpl in *.
  - unfold add. by repeat case_match.
  - unfold add_at. destruct (inv_or_default st x I) as (_ & _ & Hi).
    set (e := entry_or_default (entries st) x) in *.
    destruct (deadline e) as [o|] eqn:Ed; [destruct (Z.leb_spec o d')|]; simpl; [done| |].
    + rewrite dl_mem_insert, dl_mem_remove by apply I. right. split; [done|].
      intros [<- ->]. apply Ht. split; [done|lia].
    + rewrite dl_mem_insert. by right.
  - unfold cancel_deadline. destruct (entries st !! x) as [e|] eqn:He; [|done]. simpl.
    destruct (deadline e) as [o|]; [|done]. rewrite dl_mem_remove by apply I.
    split; [done|]. intros [_ ->]. by apply Ht.
  - destruct (poll_spec sel now st I) as (st2 & r2 & Hp2 & _ & _ & _ & Hkeep).
    rewrite Hp in Hp2. injection Hp2 as <- <-. apply Hkeep; [done|lia].
  - assert (proc (entries st) x) as Hpx by (apply Hh; set_solver).
    destruct (done_spec st x I Hpx) as (st2 & Hd2 & _ & _ & _ & Hdl).
    rewrite Hd in Hd2. injection Hd2 as <-. by rewrite Hdl.
Qed.

Lemma steps_timer s ls s' k d :
  sys_inv s → steps s ls s' → timer s k d → Forall (λ l, ¬ touches k d l) ls → timer s' k d.
Proof.
  intros I H1. induction H1 as [s|s l s1 ls s2 Hst _ IH]; intros Hk Hf; [done|].
  inversion_clear Hf. eauto using step_inv, step_timer.
Qed.

(** ** Oldest first *)

Definition fifo_label (l : Label) : Prop :=
  match l with LPoll sel _ _ => sel = select_first | _ => True end.
Definition is_poll (l : Label) : bool := match l with LPoll _ _ _ => true | _ => false end.

Lemma step_position s l s' k i :
  sys_inv s → step s l s' → fifo_label l → ready (queue s) !! i = Some k →
  returns l k ∨ ready (queue s') !! (if is_poll l then pred i else i) = Some k ∧ (is_poll l = true → (0 < i)%nat).
Proof.
  intros [I Hn Hh] Hstep Hf Hi.
  destruct Hstep as [st ks x|st ks x d'|st ks x|st ks sel now st' r Hp|st ks1 ks2 x st' Hd]; simpl in *.
  - right. split; [|done]. unfold add. repeat case_match; simpl; try done. by apply lookup_app_l_Some.
  - right. split; [|done]. unfold add_at. by repeat case_match.
  - right. split; [|done]. unfold cancel_deadline. by repeat case_match.
  - subst sel. destruct (poll_spec select_first now st I) as (st2 & r2 & Hp2 & _ & Hres & _).
    rewrite Hp in Hp2. injection Hp2 as <- <-. destruct r as [x|w].
    + destruct Hres as (s & j & e & _ & Hsel & Hj & _ & V & _ & _ & _ & ->). simpl.
      assert (j = 0%nat) as -> by (unfold select_first in Hsel; case_match; congruence).
      assert (ready s !! i = Some k) as Hi' by (by eapply prefix_lookup_Some; [|apply (ev_prefix _ _ _ _ V)]).
      destruct i as [|i]; [left; exists select_first, now; congruence|right].
      split; [|lia]. unfold remove_at. simpl. by rewrite lookup_drop.
    + destruct Hres as [Efd V]. exfalso. revert Hp. unfold poll. rewrite Efd.
      assert (ready st' !! i = Some k) as Hi' by (by eapply prefix_lookup_Some; [|apply (ev_prefix _ _ _ _ V)]).
      unfold select_first. destruct (ready st'); [done|]. simpl. repeat case_match; congruence.
  - right. split; [|done]. unfold done in Hd. repeat case_match; simplify_eq; simpl; try done.
    by apply lookup_app_l_Some.
Qed.

Lemma steps_position s ls s' k i :
  sys_inv s → steps s ls s' → Forall fifo_label ls → ready (queue s) !! i = Some k →
  (i < length (List.filter is_poll ls))%nat → ∃ l, l ∈ ls ∧ returns l k.
Proof.
  intros I H1. revert i I. induction H1 as [s|s l s1 ls s2 Hst _ IH]; intros i I Hf Hi Hlen; simpl in *; [lia|].
  inversion_clear Hf as [|?? Hl Hls].
  destruct (step_position _ _ _ _ _ I Hst Hl Hi) as [Hr|[Hi' Hpos]].
  - exists l. set_solver.
  - destruct (IH (if is_poll l then pred i else i)) as (l' & ? & ?); [by eapply step_inv|done|done| |].
    + destruct (is_poll l); simpl in *; [specialize (Hpos eq_refl)|]; lia.
    + exists l'. set_solver.
Qed.

Lemma min_by_go_spec (cmp : K → K → comparison) (f : K → Z) r best b i pre :
  (∀ x y, cmp x y = (f x ?= f y)) → i = length pre → pre !! best = Some b →
  (∀ j x, pre !! j = Some x → f b ≤ f x ∧ (f x = f b → (best ≤ j)%nat)) →
  ∃ k, (pre ++ r) !! min_by_go cmp best b i r = Some k ∧
    ∀ j x, (pre ++ r) !! j = Some x → f k ≤ f x ∧ (f x = f k → (min_by_go cmp best b i r ≤ j)%nat).
Proof.
  intros Hc. revert best b i pre. induction r as [|k r IH]; intros best b i pre -> Hb Hmin; simpl.
  { exists b. rewrite app_nil_r. done. }
  rewrite Hc. replace (pre ++ k :: r) with ((pre ++ [k]) ++ r) by by rewrite <- app_assoc.
  assert (∀ c best', (∀ j x, pre !! j = Some x → f c ≤ f x ∧ (f x = f c → (best' ≤ j)%nat)) →
    (f c ≤ f k ∧ (f k = f c → (best' ≤ length pre)%nat)) →
    ∀ j x, (pre ++ [k]) !! j = Some x → f c ≤ f x ∧ (f x = f c → (best' ≤ j)%nat)) as Hext.
  { intros c best' H1 H2 j x. rewrite lookup_snoc_Some. intros [[Hj Hx]|[-> <-]]; [eauto|done]. }
  destruct (Z.compare_spec (f b) (f k)) as [E|E|E]; apply IH; try (by rewrite length_app; simpl; lia).
  - by apply lookup_app_l_Some.
  - apply Hext; [done|]. split; [lia|]. intros _. apply lookup_lt_Some in Hb. lia.
  - by apply lookup_app_l_Some.
  - apply Hext; [done|]. lia.
  - by rewrite lookup_app_r, Nat.sub_diag by lia.
  - apply Hext; [|lia]. intros j x Hj. destruct (Hmin j x Hj). lia.
Qed.

(** ** What the queue promises *)

(** C40: in every reachable state of the queue, whatever the interleaving of
    producers, timers and workers: the ready list and the held guards have
    no duplicates, no key is both ready and being worked on, a key is ready
    exactly when its entry says queued and held exactly when it says
    processing, no entry is kept without a reason, and the deadline index
    holds exactly the entries' deadlines in ascending non-empty buckets. *)
Theorem queue_invariant s :
  reachable s →
  NoDup (ready (queue s)) ∧ NoDup (held s) ∧
  (∀ k, k ∈ held s → k ∉ ready (queue s)) ∧ sys_inv s.
Proof.
  intros Hr. pose proof (reachable_inv s Hr) as I. split; [apply I|]. split; [apply I|]. split; [|done].
  intros k (e & He & Hp)%(si_held _ I) (e' & He' & Hq)%(ci_ready _ _ (inv_core _ (si_queue _ I))).
  apply (ci_excl _ _ (inv_core _ (si_queue _ I)) k e He). split; congruence.
Qed.

(** the queue's [unwrap]s and [expect] never panic: in every reachable
    state a worker's round of [next]/[next_by] (any selection, any time)
    produces a result, and dropping any held guard does. *)
Theorem queue_never_panics s :
  reachable s →
  (∀ sel now, is_Some (poll sel now (queue s))) ∧
  (∀ k, k ∈ held s → is_Some (done (queue s) k)).
Proof.
  intros I%reachable_inv. split.
  - intros sel now. destruct (poll_spec sel now _ (si_queue _ I)) as (st & r & -> & _). done.
  - intros k Hk%(si_held _ I). destruct (done_spec _ k (si_queue _ I) Hk) as (st & -> & _). done.
Qed.

(** C3: no event is lost.  After [add(key)], however the other operations
    interleave, either a worker is handed the key in a later round, or a
    pass over it is still owed; and an owed key that a worker currently
    holds goes to the ready list when that worker finishes. *)
Theorem event_not_lost s k ls s' :
  reachable s →
  steps (mkSystem (add (queue s) k) (held s)) ls s' →
  (∃ l, l ∈ ls ∧ returns l k) ∨
  (owed s' k ∧ (k ∈ held s' → ∀ st, done (queue s') k = Some st → k ∈ ready st)).
Proof.
  intros I%reachable_inv Hls.
  assert (step s (LAdd k) (mkSystem (add (queue s) k) (held s))) as Hst by (destruct s; constructor).
  pose proof (step_inv _ _ _ I Hst) as I1.
  destruct (steps_owed _ _ _ k I1 Hls) as [?|Ho]; [|by left|right].
  { apply (add_pending (queue s) k). right. split; [done|apply I]. }
  split; [done|]. intros Hh st Hd. pose proof (steps_inv _ _ _ I1 Hls) as I2.
  destruct (done_spec _ k (si_queue _ I2)) as (st2 & Hd2 & _ & Hpr & Hpend & _); [by apply (si_held _ I2)|].
  rewrite Hd in Hd2. injection Hd2 as <-.
  destruct (Hpend k Ho) as [?|(e & He & Hp & _)]; [done|].
  exfalso. destruct (proj1 (Hpr k)) as [_ Hne]; [by exists e|done].
Qed.

(** [add_at] keeps the earliest requested deadline, an event cannot
    erase it, and it fires.  After [add_at(key, d)] the key has a deadline
    [d'] no later than [d]; it survives any steps but a cancel of the key,
    an earlier [add_at] and a round at or past [d']; and such a round hands
    the key out or leaves a pass over it owed. *)
Theorem deadline_kept s k d :
  reachable s →
  ∃ d', d' ≤ d ∧ timer (mkSystem (add_at (queue s) k d) (held s)) k d' ∧
    (∀ ls s', steps (mkSystem (add_at (queue s) k d) (held s)) ls s' →
      Forall (λ l, ¬ touches k d' l) ls →
      timer s' k d' ∧
      ∀ sel now st r, d' ≤ now → poll sel now (queue s') = Some (st, r) →
        r = Working k ∨ pending (ready st) (entries st) k).
Proof.
  intros I%reachable_inv.
  assert (step s (LAddAt k d) (mkSystem (add_at (queue s) k d) (held s))) as Hst by (destruct s; constructor).
  pose proof (step_inv _ _ _ I Hst) as I1.
  assert (∃ d', d' ≤ d ∧ timer (mkSystem (add_at (queue s) k d) (held s)) k d') as (d' & Hle & Ht).
  { unfold timer. simpl. unfold add_at. destruct (inv_or_default (queue s) k (si_queue _ I)) as (_ & _ & Hi).
    destruct (deadline (entry_or_default (entries (queue s)) k)) as [o|] eqn:Eo; [destruct (Z.leb_spec o d)|]; simpl.
    - exists o. split; [done|]. by apply Hi.
    - exists d. split; [lia|]. rewrite dl_mem_insert. auto.
    - exists d. split; [lia|]. rewrite dl_mem_insert. auto. }
  exists d'. split; [done|]. split; [done|]. intros ls s' Hls Hf.
  pose proof (steps_timer _ _ _ _ _ I1 Hls Ht Hf) as Ht'. split; [done|].
  intros sel now st r Hnow Hp. pose proof (steps_inv _ _ _ I1 Hls) as I2.
  destruct (poll_spec sel now _ (si_queue _ I2)) as (st2 & r2 & Hp2 & _ & _ & Hfire & _).
  rewrite Hp in Hp2. injection Hp2 as <- <-. by apply (Hfire k d').
Qed.

(** bounded waiting under [next].  If workers only use [next] (oldest
    first), a key at position [i] of the ready list is handed out within
    [i + 1] rounds, whatever else happens to the queue meanwhile. *)
Theorem fifo_bounded_wait s ls s' k i :
  reachable s → steps s ls s' → Forall fifo_label ls →
  ready (queue s) !! i = Some k →
  (i < length (List.filter is_poll ls))%nat →
  ∃ l, l ∈ ls ∧ returns l k.
Proof. intros I%reachable_inv. by apply steps_position. Qed.

(** [next_by] with a priority order hands out a ready key of least
    priority value, and the oldest such key (equal priorities stay FIFO). *)
Theorem next_by_least (cmp : K → K → comparison) (f : K → Z) (r : list K) :
  (∀ x y, cmp x y = (f x ?= f y)) → r ≠ [] →
  ∃ i k, select_min cmp r = Some i ∧ r !! i = Some k ∧
    ∀ j x, r !! j = Some x → f k ≤ f x ∧ (f x = f k → (i ≤ j)%nat).
Proof.
  intros Hc Hne. destruct r as [|k0 r]; [done|]. simpl.
  destruct (min_by_go_spec cmp f r 0 k0 1 [k0] Hc) as (k & Hk & Hmin); [done|done| |].
  - intros [|j] x; [|by destruct j]. simpl. intros [= <-]. lia.
  - do 2 eexists. split; [done|]. split; [exact Hk|]. exact Hmin.
Qed.
End Queue.

(** ** Concrete runs *)

(** A producer, a timer and one worker: key 7 is added, taken, added again
    while it is worked on, and its deadline passes. *)
Definition demo_labels : list (@Label nat) :=
  [LAdd 7%nat; LAddAt 7%nat 50; LPoll select_first 10 (Working 7%nat); LAdd 7%nat; LDone 7%nat].
Definition demo_state : @System nat _ _ :=
  mkSystem (mkState [7%nat] {[7%nat := mkEntry true false false (Some 50)]} [(50, {[7%nat]})]) [].

Lemma demo_reachable : reachable elements demo_state.
Proof.
  exists demo_labels.
  eapply steps_cons; [constructor|]. eapply steps_cons; [constructor|].
  eapply steps_cons; [by constructor|]. eapply steps_cons; [constructor|].
  eapply steps_cons; [by apply (step_done _ _ [] [])|]. constructor.
Qed.

Lemma queue_invariant_witness :
  NoDup (ready (queue demo_state)) ∧ NoDup (held demo_state) ∧
  (∀ k, k ∈ held demo_state → k ∉ ready (queue demo_state)) ∧ sys_inv demo_state.
Proof. apply (queue_invariant elements); [reflexivity|exact demo_reachable]. Defined.

Lemma queue_never_panics_witness : is_Some (poll elements select_first 60 (queue demo_state)).
Proof. apply (queue_never_panics elements); [reflexivity|exact demo_reachable]. Defined.

Lemma event_not_lost_witness :
  (∃ l, l ∈ [] ∧ returns (K := nat) l 8%nat) ∨
  (owed (mkSystem (add (queue demo_state) 8%nat) []) 8%nat ∧
   (8%nat ∈ [] → ∀ st, done (add (queue demo_state) 8%nat) 8%nat = Some st → 8%nat ∈ ready st)).
Proof.
  apply (event_not_lost elements (λ _, reflexivity _) demo_state 8%nat [] (mkSystem (add (queue demo_state) 8%nat) [])).
  - exact demo_reachable.
  - constructor.
Defined.

Lemma deadline_kept_witness :
  ∃ d', d' ≤ 40 ∧ timer (mkSystem (add_at (queue demo_state) 7%nat 40) (held demo_state)) 7%nat d'.
Proof.
  destruct (deadline_kept elements (λ _, reflexivity _) demo_state 7%nat 40 demo_reachable) as (d' & H1 & H2 & _).
  exists d'. exact (conj H1 H2).
Defined.

Definition demo_rest : @System nat _ _ :=
  mkSystem (mkState [] {[7%nat := mkEntry false true false None]} []) [7%nat].

Lemma fifo_bounded_wait_witness :
  ∃ l, l ∈ [LPoll select_first 60 (Working 7%nat)] ∧ returns l 7%nat.
Proof.
  apply (fifo_bounded_wait elements (λ _, reflexivity _) demo_state _ demo_rest 7%nat 0).
  - exact demo_reachable.
  - eapply steps_cons; [by constructor|constructor].
  - by repeat constructor.
  - reflexivity.
  - simpl. lia.
Defined.

Lemma next_by_least_witness :
  ∃ i k, select_min Nat.compare [3; 1; 2; 1]%nat = Some i ∧ [3; 1; 2; 1]%nat !! i = Some k ∧
    ∀ j x, [3; 1; 2; 1]%nat !! j = Some x → Z.of_nat k ≤ Z.of_nat x ∧ (Z.of_nat x = Z.of_nat k → (i ≤ j)%nat).
Proof.
  apply next_by_least; [|discriminate]. intros x y. symmetry. apply Nat2Z.inj_compare.
Defined.
