(* ===== verification/Lease.v ===== *)
(** * Leadership terms ([apimachinery/src/lease.rs])

    The write gate every mutating request of the controller-manager and the
    scheduler passes, the loop that keeps a term renewed, and the local
    observation of a Lease record a candidate measures expiry with.

    Instants and durations are nanoseconds on the process's monotonic clock.
    The gate is a [Mutex<Permission>] shared by clones of a [WriteGate]; each
    method locks it once, so it is an atomic function on [Permission]. *)

From stdpp Require Import base strings list sets option.
From Stdlib Require Import ZArith Lia String.
From S2P Require Import Prelude Text Json.
Open Scope Z_scope.

Definition from_secs (n : Z) : Z := n * 1000000000.

Definition RENEW_DEADLINE : Z := from_secs 10.
Definition RENEW_ATTEMPT : Z := from_secs 5.

Inductive Permission :=
| Unrestricted
| Follower
| Leader (expires : Z).

(** [WriteGate::default]. *)
Definition gate_default : Permission := Unrestricted.

Definition close (_ : Permission) : Permission := Follower.

Definition start (_ : Permission) (attempted : Z) : Permission :=
  Leader (attempted + RENEW_DEADLINE).

Definition renew (g : Permission) (now attempted : Z) : Permission * bool :=
  match g with
  | Leader expires =>
      if now <? expires
      then (Leader (Z.max expires (attempted + RENEW_DEADLINE)), true)
      else (Follower, false)
  | _ => (Follower, false)
  end.

Definition remaining (g : Permission) (now : Z) : option Z :=
  match g with
  | Leader expires => Some (sat_sub expires now)
  | _ => None
  end.

Definition budget (g : Permission) (now : Z) : result Z string :=
  match g with
  | Unrestricted => Ok (from_secs 30)
  | Leader expires =>
      let r := sat_sub expires now in
      if r =? 0 then Err "leadership renewal deadline expired"%string
      else Ok (Z.min r (from_secs 5))
  | Follower => Err "mutations require an active leadership term"%string
  end.

(** ** [hold]

    The loop awaits twice per round: the sleep and the renewal.  A round is
    given what the clock reads when each of them returns, and whether the
    renewal future resolved to [true] before its timeout.  [inl] ends the
    loop, with the gate closed; [inr] goes round again. *)
Record HoldRound := mkRound {
  woke : Z;        (** the clock after the sleep: [attempted] *)
  returned : Z;    (** the clock after the renewal *)
  renewed : bool;  (** [timeout(..., renew()).await.unwrap_or(false)] *)
}.

Definition hold_round (g : Permission) (now : Z) (r : HoldRound) : Permission + Permission :=
  match remaining g now with
  | None => inl (close g)
  | Some _ =>
      match remaining g (woke r) with
      | None => inl (close g)
      | Some rem =>
          if rem =? 0 then inl (close g)
          else if renewed r then
            let '(g', ok) := renew g (returned r) (woke r) in
            if ok then inr g' else inl (close g')
          else inr g
      end
  end.

(** How long the round sleeps, and how long it lets the renewal run. *)
Definition hold_sleep (retry : Z) (g : Permission) (now : Z) : option Z :=
  Z.min retry <$> remaining g now.
Definition hold_timeout (g : Permission) (now : Z) : option Z :=
  (λ r, Z.min r RENEW_ATTEMPT) <$> remaining g now.

(** The loop over the rounds its environment produces; [None] while it is
    still holding when they run out. *)
Fixpoint hold (g : Permission) (now : Z) (rounds : list HoldRound) : option Permission :=
  match rounds with
  | [] => match remaining g now with None => Some (close g) | Some _ => None end
  | r :: rs =>
      match hold_round g now r with
      | inl g' => Some g'
      | inr g' => hold g' (returned r) rs
      end
  end.

(** ** Observing a Lease record *)

Record Observation := mkObs {
  record : option Value;
  observed_at : option Z;
}.
Definition obs_default : Observation := mkObs None None.

(** [Observation::expired].  The [unwrap] is on the field the same call or an
    earlier one set together with [record]; [None] is its panic. *)
Definition expired (o : Observation) (spec : Value) (duration now : Z) : Observation * option bool :=
  let o' := if option_value_eqb (record o) (Some spec) then o else mkObs (Some spec) (Some now) in
  (o', (λ at_, duration <=? sat_sub now at_) <$> observed_at o').

(** ** The gate *)

Lemma budget_Ok g now r :
  budget g now = Ok r →
  g = Unrestricted ∧ r = from_secs 30 ∨
  ∃ e, g = Leader e ∧ now < e ∧ 0 < r ∧ now + r ≤ e ∧ r ≤ from_secs 5.
Proof.
  unfold budget, sat_sub. destruct g as [| |e]; [intros [= <-]; by left|done|].
  destruct (Z.eqb_spec (Z.max 0 (e - now)) 0); [done|]. intros [= <-]. right. exists e.
  unfold from_secs in *. split; [done|]. lia.
Qed.

Lemma renew_true g now attempted g' :
  renew g now attempted = (g', true) →
  ∃ e, g = Leader e ∧ now < e ∧ g' = Leader (Z.max e (attempted + RENEW_DEADLINE)).
Proof.
  unfold renew. destruct g as [| |e]; try done. destruct (Z.ltb_spec now e); [|done].
  intros [= <-]. eauto.
Qed.

Lemma renew_false g now attempted g' : renew g now attempted = (g', false) → g' = Follower.
Proof. unfold renew. destruct g as [| |e]; [naive_solver..|]. case_match; naive_solver. Qed.

(** One round: it goes round again only with a live term; the deadline moves
    only after a successful renewal, to ten seconds past its start. *)
Lemma hold_round_inr g now r g' :
  hold_round g now r = inr g' →
  ∃ e, g = Leader e ∧ woke r < e ∧
    (renewed r = false ∧ g' = g ∨
     renewed r = true ∧ returned r < e ∧ g' = Leader (Z.max e (woke r + RENEW_DEADLINE))).
Proof.
  unfold hold_round. destruct g as [| |e]; simpl; try done.
  unfold sat_sub. destruct (Z.eqb_spec (Z.max 0 (e - woke r)) 0); [done|].
  intros Hr. exists e. split; [done|]. split; [lia|].
  destruct (renewed r); [right|left; naive_solver]. split; [done|].
  destruct (Z.ltb_spec (returned r) e); [|done]. split; [done|]. naive_solver.
Qed.

Lemma hold_round_inl g now r g' : hold_round g now r = inl g' → g' = Follower.
Proof.
  unfold hold_round. destruct (remaining g now); [|naive_solver].
  destruct (remaining g (woke r)) as [rem|]; [|naive_solver].
  destruct (rem =? 0); [naive_solver|]. destruct (renewed r); [|done].
  destruct (renew g (returned r) (woke r)) as [g1 []]; naive_solver.
Qed.

Lemma hold_ends g now rounds g' : hold g now rounds = Some g' → g' = Follower.
Proof.
  revert g now. induction rounds as [|r rs IH]; intros g now; simpl.
  - destruct (remaining g now); naive_solver.
  - destruct (hold_round g now r) as [g1|g1] eqn:E; [|apply IH].
    apply hold_round_inl in E. naive_solver.
Qed.

(** The gate while the loop is still holding. *)
Fixpoint holding (g : Permission) (now : Z) (rounds : list HoldRound) : option Permission :=
  match rounds with
  | [] => Some g
  | r :: rs => match hold_round g now r with
               | inl _ => None
               | inr g' => holding g' (returned r) rs
               end
  end.

(** When each attempt that was granted started. *)
Definition grants (a0 : Z) (rounds : list HoldRound) : list Z :=
  a0 :: (woke <$> filter (λ r, renewed r = true) rounds).

Lemma holding_deadline g now rounds g' e a0 :
  g = Leader e → e = a0 + RENEW_DEADLINE →
  holding g now rounds = Some g' →
  ∃ a, a ∈ grants a0 rounds ∧ g' = Leader (a + RENEW_DEADLINE) ∧ a0 ≤ a.
Proof.
  revert g now e a0. induction rounds as [|r rs IH]; intros g now e a0 -> -> Hh; simpl in Hh.
  { exists a0. simplify_eq. split; [set_solver|]. split; [done|lia]. }
  destruct (hold_round (Leader (a0 + RENEW_DEADLINE)) now r) as [g1|g1] eqn:E; [done|].
  apply hold_round_inr in E as (e & [= <-] & _ & [[Hr ->]|(Hr & _ & ->)]).
  - destruct (IH _ _ _ _ eq_refl eq_refl Hh) as (a & Ha & ? & ?). exists a. split; [|done].
    unfold grants in *. rewrite filter_cons_False by congruence. done.
  - replace (Z.max (a0 + RENEW_DEADLINE) (woke r + RENEW_DEADLINE))
      with (Z.max a0 (woke r) + RENEW_DEADLINE) in Hh by lia.
    destruct (IH _ _ _ _ eq_refl eq_refl Hh) as (a & Ha & ? & ?).
    exists a. split; [|split; [done|lia]]. unfold grants in *. rewrite filter_cons_True by done.
    destruct (Z.max_spec a0 (woke r)) as [[_ E]|[_ E]]; rewrite E in Ha; set_solver.
Qed.

(** a leadership term is bounded by its renewals.  Take a term started by
    an attempt at [a0] and any run of the renewal loop (clock readings and
    renewal outcomes are arbitrary).  While the loop holds, a mutation admitted
    by the gate at [now] with time budget [r] ends at or before ten seconds
    past the start of some attempt that was granted; once the loop returns,
    the gate is closed and admits nothing at any time. *)
Theorem term_bounded a0 now0 rounds :
  (∀ g now r, holding (start Follower a0) now0 rounds = Some g → budget g now = Ok r →
     ∃ a, a ∈ grants a0 rounds ∧ now < a + RENEW_DEADLINE ∧ now + r ≤ a + RENEW_DEADLINE) ∧
  (∀ g now, hold (start Follower a0) now0 rounds = Some g → is_ok (budget g now) = false).
Proof.
  split.
  - intros g now r Hh Hb.
    destruct (holding_deadline _ _ _ _ _ _ eq_refl eq_refl Hh) as (a & Ha & -> & _).
    exists a. split; [done|]. apply budget_Ok in Hb as [[? _]|(e & [= <-] & ? & _ & ? & _)]; done.
  - intros g now ->%hold_ends. done.
Qed.

(** a term that nobody renews ends.  If every renewal attempt fails or
    times out and the clock passes the deadline, the renewal loop returns with
    the gate closed. *)
Theorem hold_terminates a0 now0 rounds last :
  Forall (λ r, renewed r = false) rounds →
  a0 + RENEW_DEADLINE ≤ woke last →
  hold (start Follower a0) now0 (rounds ++ [last]) = Some Follower.
Proof.
  unfold start. generalize now0. induction rounds as [|r rs IH]; intros now Hf Hl; simpl.
  - unfold hold_round. simpl. unfold sat_sub.
    destruct (Z.eqb_spec (Z.max 0 (a0 + RENEW_DEADLINE - woke last)) 0); [done|lia].
  - inversion_clear Hf as [|?? Hr Hrs]. unfold hold_round. simpl.
    destruct (sat_sub (a0 + RENEW_DEADLINE) (woke r) =? 0); [done|]. rewrite Hr. auto.
Qed.

Lemma hold_terminates_witness :
  hold (start Follower 0) 0
    ([mkRound (from_secs 2) (from_secs 7) false] ++ [mkRound (from_secs 10) (from_secs 12) true]) = Some Follower.
Proof. apply hold_terminates; [by repeat constructor|vm_compute; discriminate]. Defined.
