(* ===== verification/LeaderElection.v ===== *)
(** * Leader election ([controller-manager/src/leaderelection.rs],
    [scheduler/src/leaderelection.rs])

    One Lease object names the leader.  [begin_attempt] is
    [try_acquire_or_renew] from the GET's answer to the request it sends (or
    its refusal), [accepted] reads that request's answer.  The two source
    files differ in comments and in the client type only; but the clients
    differ in [create].  The scheduler's ([scheduler.rs]) is one POST.  The
    controller-manager's ([runner.rs]) keeps a create open until its answer is
    known: the next create of the name first GETs it, takes what it finds for
    the answer, and posts the first body again when it finds nothing.
    [Client] tells them apart.

    The second half composes it with the write gate of [Lease] and with the
    [run] loop ([scheduler.rs]: close, acquire, start, hold) into a step
    relation over any number of candidates, an API server with optimistic
    concurrency, a network that delays, loses and reorders requests, and
    candidates that are paused or cancelled between any two steps. *)

From stdpp Require Import base strings list sets option functions relations.
From Stdlib Require Import ZArith Lia String.
From S2P Require Import Prelude Text Json Lease.
Open Scope string_scope.
Open Scope list_scope.
Open Scope Z_scope.

Definition LEASE_DURATION_SECS : Z := 15.
Definition RETRY_PERIOD : Z := from_secs 2.

Record LeaderElector := mkElector {
  name : string;
  namespace : string;
  identity : string;
}.

(** The answer to [api.get(&self.get_path)] as the code tells them apart. *)
Inductive GetResponse :=
| GetFailed                 (** a transport error *)
| NotFound                  (** status 404 *)
| NotSuccess                (** any other status that is no success *)
| BadJson                   (** a body that does not parse *)
| Found (lease : Value).

Inductive Request :=
| Create (body : Value)
| Update (body : Value).

Inductive Decision :=
| Refuse            (** return false *)
| Send (r : Request)
| Panic.            (** the [unwrap] of [Observation::expired] *)

Definition lease_spec (el : LeaderElector) (acquire renew : string) (transitions : Z) : Value :=
  json_obj [("holderIdentity", Str (identity el));
            ("leaseDurationSeconds", Num (PosInt LEASE_DURATION_SECS));
            ("acquireTime", Str acquire);
            ("renewTime", Str renew);
            ("leaseTransitions", Num (if transitions <? 0 then NegInt transitions else PosInt transitions))].

Definition create_body (el : LeaderElector) (now_micro : string) : Value :=
  json_obj [("apiVersion", Str "coordination.k8s.io/v1");
            ("kind", Str "Lease");
            ("metadata", json_obj [("name", Str (name el)); ("namespace", Str (namespace el))]);
            ("spec", lease_spec el now_micro now_micro 0)].

Definition update_body (el : LeaderElector) (rv acquire renew : string) (transitions : Z) : Value :=
  json_obj [("apiVersion", Str "coordination.k8s.io/v1");
            ("kind", Str "Lease");
            ("metadata", json_obj [("name", Str (name el)); ("namespace", Str (namespace el));
                                   ("resourceVersion", Str rv)]);
            ("spec", lease_spec el acquire renew transitions)].

(** [i64::saturating_add(1)]. *)
Definition saturating_succ (n : Z) : Z := Z.min i64_max (n + 1).

Definition begin_attempt (el : LeaderElector) (obs : Observation) (now_micro : string) (now : Z)
    (resp : GetResponse) : Observation * Decision :=
  match resp with
  | GetFailed => (obs, Refuse)
  | NotFound => (obs, Send (Create (create_body el now_micro)))
  | NotSuccess => (obs, Refuse)
  | BadJson => (obs, Refuse)
  | Found lease =>
      let rv := str_or "" (index (index lease "metadata") "resourceVersion") in
      if negb (str_is (index lease "kind") "Lease") || is_empty_str rv then (obs, Refuse)
      else
        let spec := index lease "spec" in
        let holder := str_or "" (index spec "holderIdentity") in
        let lease_dur := default LEASE_DURATION_SECS (as_i64 (index spec "leaseDurationSeconds")) in
        let transitions := default 0 (as_i64 (index spec "leaseTransitions")) in
        let acquire_time := str_or now_micro (index spec "acquireTime") in
        let held_by_us := str_eqb holder (identity el) in
        if lease_dur <=? 0 then (obs, Refuse)
        else
          match expired obs spec (from_secs lease_dur) now with
          | (obs', None) => (obs', Panic)
          | (obs', Some ex) =>
              if negb held_by_us && negb (is_empty_str holder) && negb ex then (obs', Refuse)
              else
                let '(new_acquire, new_transitions) :=
                  if held_by_us then (acquire_time, transitions)
                  else (now_micro, saturating_succ transitions) in
                (obs', Send (Update (update_body el rv new_acquire now_micro new_transitions)))
          end
  end.

(** [Ok(v) if v["kind"] == "Lease"]. *)
Definition accepted (answer : option Value) : bool :=
  match answer with Some v => str_is (index v "kind") "Lease" | None => false end.

(** ** The API server's side, as the client relies on it

    The Lease's [spec] with its [resourceVersion], and the next revision the
    store will use.  Create succeeds only when there is no Lease, an update
    only with the current [resourceVersion]; anything else answers a Status. *)
Record Server := mkServer { lease : option (Value * Z); next_rv : Z }.

Definition lease_object (el : LeaderElector) (sp : Value) (rv : Z) : Value :=
  json_obj [("apiVersion", Str "coordination.k8s.io/v1");
            ("kind", Str "Lease");
            ("metadata", json_obj [("name", Str (name el)); ("namespace", Str (namespace el));
                                   ("resourceVersion", Str (show_u rv))]);
            ("spec", sp)].
Definition status_object : Value := json_obj [("kind", Str "Status"); ("status", Str "Failure")].

Definition serve_get (el : LeaderElector) (s : Server) : GetResponse :=
  match lease s with None => NotFound | Some (sp, rv) => Found (lease_object el sp rv) end.

Definition commit (el : LeaderElector) (s : Server) (body : Value) : Server * Value :=
  let sp := index body "spec" in
  (mkServer (Some (sp, next_rv s)) (next_rv s + 1), lease_object el sp (next_rv s)).

Definition serve_put (el : LeaderElector) (s : Server) (r : Request) : Server * Value :=
  match r, lease s with
  | Create body, None => commit el s body
  | Create _, Some _ => (s, status_object)
  | Update body, Some (_, rv) =>
      if str_is (index (index body "metadata") "resourceVersion") (show_u rv)
      then commit el s body else (s, status_object)
  | Update _, None => (s, status_object)
  end.

(** ** Candidates *)

(** What was sent; a create is sent for the first time or again. *)
Inductive Sent := SentUpdate | SentCreate (again : bool).

Inductive Phase :=
| Idle
| Asking (attempted : Z)                        (** the GET is out *)
| Answered (attempted : Z) (resp : GetResponse)
| Resolving (attempted : Z)                     (** [create]'s GET of a create left open is out *)
| Waiting (attempted : Z) (id : nat) (w : Sent) (** the PUT/POST is out *)
| Replied (attempted : Z) (answer : option Value).

Record Candidate := mkCandidate {
  gate : Permission;
  obs : Observation;
  in_hold : bool;        (** inside [hold], or still in [acquire] *)
  phase : Phase;
  opened : option Value; (** the Lease's entry of [pending_creates] *)
}.

Definition candidate_init : Candidate := mkCandidate Follower obs_default false Idle None.

Definition with_phase (c : Candidate) (p : Phase) : Candidate := mkCandidate (gate c) (obs c) (in_hold c) p (opened c).

(** What [run] does with the answer of an attempt that started at [a]: in
    [acquire], success starts the term; in [hold], success renews it, and a
    renewal that comes too late ends it. *)
Definition finish (c : Candidate) (now a : Z) (answer : option Value) : Candidate :=
  if negb (accepted answer) then with_phase c Idle
  else if in_hold c then
    let '(g, ok) := renew (gate c) now a in
    mkCandidate (if ok then g else close g) (obs c) ok Idle (opened c)
  else mkCandidate (start (gate c) a) (obs c) true Idle (opened c).

(** ** The client's [create]

    [Posting] is the scheduler's, [Keeping] the controller-manager's. *)
Inductive Client := Posting | Keeping.

Definition sent (r : Request) : Sent := match r with Create _ => SentCreate false | Update _ => SentUpdate end.

(** Whether the request goes out as it is: a keeping client with a create of
    the Lease open resolves that one first. *)
Definition sends (cl : Client) (c : Candidate) (r : Request) : bool :=
  match cl, r, opened c with Keeping, Create _, Some _ => false | _, _, _ => true end.

Definition opens (cl : Client) (c : Candidate) (r : Request) : option Value :=
  match cl, r with Keeping, Create b => Some b | _, _ => opened c end.

(** [definitive]: a create that was answered is settled, but for the 409 a
    repeated one is refused with. *)
Definition settled (c : Candidate) (w : Sent) (answer : option Value) : option Value :=
  match w, answer with
  | SentCreate again, Some v => if accepted (Some v) || negb again then None else opened c
  | _, _ => opened c
  end.

Record Message := mkMessage { msg_id : nat; msg_from : nat; msg_req : Request }.

(** The world; the fields from [committed] on are ghost state that no step
    reads: the specs written so far, when each candidate last wrote the
    Lease, the latest instant any of its terms reached, who wrote the current
    record, when that record was written and when its writer took over, and
    the wall-clock stamps each candidate has used. *)
Record World := mkWorld {
  now : Z;
  server : Server;
  cands : nat → Candidate;
  messages : list Message;
  next_id : nat;
  committed : list Value;
  last_commit : nat → option Z;
  granted : nat → option Z;
  holder : option nat;
  commit_at : Z;
  acquired_at : Z;
  stamps : nat → list string;
}.

Definition leading (w : World) (i : nat) : Prop := is_ok (budget (gate (cands w i)) (now w)) = true.

Section Election.
(** The candidates' identities; [default_identity] is a host name and a
    fresh UUID, so they are distinct and not empty. *)
Context (ident : nat → string) (lname lns : string) (client : Client).

Definition elector (i : nat) : LeaderElector := mkElector lname lns (ident i).

Definition set_cand (w : World) (i : nat) (c : Candidate) : World :=
  mkWorld (now w) (server w) (<[i := c]> (cands w)) (messages w) (next_id w) (committed w)
    (last_commit w) (granted w) (holder w) (commit_at w) (acquired_at w) (stamps w).

(** The answer reaches candidate [i] if it still waits for request [id]. *)
Definition deliver (w : World) (i id : nat) (answer : option Value) : nat → Candidate :=
  match phase (cands w i) with
  | Waiting a id' s =>
      let c := cands w i in
      if bool_decide (id = id')
      then <[i := mkCandidate (gate c) (obs c) (in_hold c) (Replied a answer) (settled c s answer)]> (cands w)
      else cands w
  | _ => cands w
  end.

Definition raise_grant (g : option Z) (c : Candidate) : option Z :=
  match gate c with
  | Leader e => Some (match g with Some x => Z.max x e | None => e end)
  | _ => g
  end.

Inductive estep : World → World → Prop :=
| e_tick w t :
    now w ≤ t →
    estep w (mkWorld t (server w) (cands w) (messages w) (next_id w) (committed w) (last_commit w)
               (granted w) (holder w) (commit_at w) (acquired_at w) (stamps w))
| e_start w i :
    phase (cands w i) = Idle →
    estep w (set_cand w i (with_phase (cands w i) (Asking (now w))))
| e_get w i a :
    phase (cands w i) = Asking a →
    estep w (set_cand w i (with_phase (cands w i) (Answered a (serve_get (elector i) (server w)))))
| e_get_fails w i a r :
    phase (cands w i) = Asking a → r = GetFailed ∨ r = NotSuccess ∨ r = BadJson →
    estep w (set_cand w i (with_phase (cands w i) (Answered a r)))
| e_refuse w i a resp stamp o :
    phase (cands w i) = Answered a resp →
    begin_attempt (elector i) (obs (cands w i)) stamp (now w) resp = (o, Refuse) →
    estep w (set_cand w i (mkCandidate (gate (cands w i)) o (in_hold (cands w i)) Idle (opened (cands w i))))
| e_send w i a resp stamp o req :
    phase (cands w i) = Answered a resp →
    stamp ∉ stamps w i →
    begin_attempt (elector i) (obs (cands w i)) stamp (now w) resp = (o, Send req) →
    sends client (cands w i) req = true →
    estep w (mkWorld (now w) (server w)
               (<[i := mkCandidate (gate (cands w i)) o (in_hold (cands w i)) (Waiting a (next_id w) (sent req))
                      (opens client (cands w i) req)]> (cands w))
               (mkMessage (next_id w) i req :: messages w) (S (next_id w)) (committed w) (last_commit w)
               (granted w) (holder w) (commit_at w) (acquired_at w) (<[i := stamp :: stamps w i]> (stamps w)))
| e_retry w i a resp stamp o req :
    phase (cands w i) = Answered a resp →
    begin_attempt (elector i) (obs (cands w i)) stamp (now w) resp = (o, Send req) →
    sends client (cands w i) req = false →
    estep w (set_cand w i (mkCandidate (gate (cands w i)) o (in_hold (cands w i)) (Resolving a) (opened (cands w i))))
| e_resolved w i a v :
    phase (cands w i) = Resolving a → serve_get (elector i) (server w) = Found v →
    estep w (set_cand w i (mkCandidate (gate (cands w i)) (obs (cands w i)) (in_hold (cands w i)) (Replied a (Some v)) None))
| e_repost w i a b :
    phase (cands w i) = Resolving a → serve_get (elector i) (server w) = NotFound → opened (cands w i) = Some b →
    estep w (mkWorld (now w) (server w)
               (<[i := with_phase (cands w i) (Waiting a (next_id w) (SentCreate true))]> (cands w))
               (mkMessage (next_id w) i (Create b) :: messages w) (S (next_id w)) (committed w) (last_commit w)
               (granted w) (holder w) (commit_at w) (acquired_at w) (stamps w))
| e_serve w ms1 ms2 id i req s' v :
    messages w = ms1 ++ mkMessage id i req :: ms2 →
    serve_put (elector i) (server w) req = (s', v) →
    lease s' = lease (server w) →
    estep w (mkWorld (now w) s' (deliver w i id (Some v)) (ms1 ++ ms2) (next_id w) (committed w)
               (last_commit w) (granted w) (holder w) (commit_at w) (acquired_at w) (stamps w))
| e_commit w ms1 ms2 id i req s' v sp rv :
    messages w = ms1 ++ mkMessage id i req :: ms2 →
    serve_put (elector i) (server w) req = (s', v) →
    lease s' = Some (sp, rv) → lease s' ≠ lease (server w) →
    estep w (mkWorld (now w) s' (deliver w i id (Some v)) (ms1 ++ ms2) (next_id w) (sp :: committed w)
               (<[i := Some (now w)]> (last_commit w)) (granted w) (Some i) (now w)
               (if bool_decide (holder w = Some i) then acquired_at w else now w) (stamps w))
| e_lose w ms1 ms2 id i req :
    messages w = ms1 ++ mkMessage id i req :: ms2 →
    estep w (mkWorld (now w) (server w) (deliver w i id None) (ms1 ++ ms2) (next_id w) (committed w)
               (last_commit w) (granted w) (holder w) (commit_at w) (acquired_at w) (stamps w))
| e_other_write w rv :
    next_rv (server w) ≤ rv →
    estep w (mkWorld (now w) (mkServer (lease (server w)) rv) (cands w) (messages w) (next_id w) (committed w)
               (last_commit w) (granted w) (holder w) (commit_at w) (acquired_at w) (stamps w))
| e_abandon w i :
    estep w (set_cand w i (with_phase (cands w i) Idle))
| e_finish w i a answer :
    phase (cands w i) = Replied a answer →
    let c := finish (cands w i) (now w) a answer in
    estep w (mkWorld (now w) (server w) (<[i := c]> (cands w)) (messages w) (next_id w) (committed w)
               (last_commit w) (<[i := raise_grant (granted w i) c]> (granted w)) (holder w) (commit_at w)
               (acquired_at w) (stamps w))
| e_close w i :
    estep w (set_cand w i (mkCandidate (close (gate (cands w i))) (obs (cands w i)) false Idle (opened (cands w i)))).

Definition world_init (t rv : Z) : World :=
  mkWorld t (mkServer None rv) (λ _, candidate_init) [] 0 [] (λ _, None) (λ _, None) None t t (λ _, []).

Definition ereachable (w : World) : Prop := ∃ t rv, 1 ≤ rv ∧ rtc estep (world_init t rv) w.

(** No candidate is resolving a create it left open; and the worlds reached
    without one ever having done so. *)
Definition no_retry (w : World) : Prop := ∀ i a, phase (cands w i) ≠ Resolving a.
Definition retry_free (w : World) : Prop :=
  ∃ t rv, 1 ≤ rv ∧ rtc (λ w1 w2, estep w1 w2 ∧ no_retry w2) (world_init t rv) w.

(** ** The invariant *)

Definition lease_ns : Z := from_secs LEASE_DURATION_SECS.

Definition body_of (r : Request) : Value := match r with Create b | Update b => b end.
Definition msg_spec (m : Message) : Value := index (body_of (msg_req m)) "spec".

(** A record candidate [i] wrote, with a stamp it has used. *)
Definition spec_by (w : World) (i : nat) (sp : Value) : Prop :=
  ∃ acq stamp tr, sp = lease_spec (elector i) acq stamp tr ∧ stamp ∈ stamps w i.

Definition gate_ok (w : World) (i : nat) (g : Permission) : Prop :=
  match g with
  | Unrestricted => False
  | Follower => True
  | Leader e => ∃ x, granted w i = Some x ∧ e ≤ x
  end.

(** An observed record was committed, and if it is the current one then it
    was committed before it was observed. *)
Definition obs_ok (w : World) (o : Observation) : Prop :=
  match record o with
  | None => True
  | Some sp => sp ∈ committed w ∧ ∃ t, observed_at o = Some t ∧
      ∀ rv, lease (server w) = Some (sp, rv) → commit_at w ≤ t
  end.

Definition phase_ok (w : World) (i : nat) (p : Phase) : Prop :=
  match p with
  | Idle => True
  | Asking a | Waiting a _ _ => a ≤ now w
  | Resolving _ => False
  | Answered a resp => a ≤ now w ∧
      match resp with
      | Found v => ∃ sp rv, v = lease_object (elector i) sp rv ∧ sp ∈ committed w ∧
          0 ≤ rv < next_rv (server w) ∧
          ∀ sp' rv', lease (server w) = Some (sp', rv') → rv = rv' ↔ sp = sp'
      | _ => True
      end
  | Replied a answer => accepted answer = true → ∃ c, last_commit w i = Some c ∧ a ≤ c
  end.

Definition cand_ok (w : World) (i : nat) (c : Candidate) : Prop :=
  gate_ok w i (gate c) ∧ obs_ok w (obs c) ∧ phase_ok w i (phase c).

(** A request in flight writes a record nobody has written; an update that
    can still succeed renews its sender's own record, or comes at least one
    lease duration after the record it replaces. *)
Definition msg_ok (w : World) (m : Message) : Prop :=
  spec_by w (msg_from m) (msg_spec m) ∧ msg_spec m ∉ committed w ∧
  match msg_req m with
  | Create _ => True
  | Update b => ∃ rv, index (index b "metadata") "resourceVersion" = Str (show_u rv) ∧
      0 ≤ rv < next_rv (server w) ∧
      ∀ sp, lease (server w) = Some (sp, rv) → holder w = Some (msg_from m) ∨ commit_at w + lease_ns ≤ now w
  end.

Record core_ok (w : World) : Prop := {
  co_rv : 0 ≤ next_rv (server w);
  co_none : lease (server w) = None → committed w = [] ∧ holder w = None ∧ ∀ i, last_commit w i = None;
  co_some : ∀ sp rv, lease (server w) = Some (sp, rv) →
    ∃ h, holder w = Some h ∧ spec_by w h sp ∧ sp ∈ committed w ∧ 0 ≤ rv < next_rv (server w) ∧
      last_commit w h = Some (commit_at w) ∧ acquired_at w ≤ commit_at w ≤ now w;
  co_committed : ∀ sp, sp ∈ committed w → ∃ i, spec_by w i sp;
  co_old : ∀ i c, last_commit w i = Some c → holder w ≠ Some i → c + lease_ns ≤ acquired_at w;
  co_granted : ∀ i e, granted w i = Some e → ∃ c, last_commit w i = Some c ∧ e ≤ c + RENEW_DEADLINE;
}.

Record einv (w : World) : Prop := {
  ei_core : core_ok w;
  ei_cands : ∀ i, cand_ok w i (cands w i);
  ei_msgs : ∀ m, m ∈ messages w → msg_ok w m;
  ei_fresh : NoDup (msg_spec <$> messages w);
}.

Context (ident_inj : ∀ i j, ident i = ident j → i = j) (ident_ne : ∀ i, ident i ≠ "").

(** ** Records and requests *)

Lemma lease_spec_holder el a r t : index (lease_spec el a r t) "holderIdentity" = Str (identity el).
Proof. reflexivity. Qed.
Lemma lease_spec_renew el a r t : index (lease_spec el a r t) "renewTime" = Str r.
Proof. reflexivity. Qed.
Lemma lease_spec_duration el a r t :
  index (lease_spec el a r t) "leaseDurationSeconds" = Num (PosInt LEASE_DURATION_SECS).
Proof. reflexivity. Qed.
Lemma lease_spec_no_floats el a r t : no_floats (lease_spec el a r t) = true.
Proof. simpl. by destruct (t <? 0). Qed.

Lemma spec_by_fresh w i j acq stamp tr :
  stamp ∉ stamps w i → ¬ spec_by w j (lease_spec (elector i) acq stamp tr).
Proof.
  intros Hn (acq' & stamp' & tr' & E & Hin).
  assert (ident i = ident j) as ->%ident_inj.
  { apply (f_equal (λ v, index v "holderIdentity")) in E. rewrite !lease_spec_holder in E. by injection E. }
  apply (f_equal (λ v, index v "renewTime")) in E. rewrite !lease_spec_renew in E. injection E as <-. done.
Qed.

Lemma spec_by_unique w i j sp : spec_by w i sp → spec_by w j sp → i = j.
Proof.
  intros (? & ? & ? & -> & _) (? & ? & ? & E & _). apply ident_inj.
  apply (f_equal (λ v, index v "holderIdentity")) in E. rewrite !lease_spec_holder in E. by injection E.
Qed.

Lemma lease_object_parts el sp rv :
  index (lease_object el sp rv) "kind" = Str "Lease" ∧
  index (index (lease_object el sp rv) "metadata") "resourceVersion" = Str (show_u rv) ∧
  index (lease_object el sp rv) "spec" = sp.
Proof. by split_and!. Qed.

Lemma spec_by_parts w i sp : spec_by w i sp →
  index sp "holderIdentity" = Str (ident i) ∧
  index sp "leaseDurationSeconds" = Num (PosInt LEASE_DURATION_SECS) ∧ no_floats sp = true.
Proof.
  intros (acq & st & tr & -> & _). split; [done|]. split; [done|]. apply lease_spec_no_floats.
Qed.

Lemma committed_eqb w sp x : core_ok w → x ∈ committed w → value_eqb x sp = true ↔ x = sp.
Proof.
  intros C Hx. destruct (co_committed _ C _ Hx) as (j & (_ & _ & Hn)%spec_by_parts).
  by apply value_eqb_eq.
Qed.

(** What an attempt does with a record written by candidate [h]: it sends
    only if the record is its own or the observation has expired, and then
    an update of exactly the version it read. *)
Lemma begin_attempt_found w i h o stamp t sp rv o' d :
  core_ok w → spec_by w h sp → obs_ok w o →
  begin_attempt (elector i) o stamp t (Found (lease_object (elector i) sp rv)) = (o', d) →
  o' = o ∧ d = Refuse ∨
  ∃ t', o' = mkObs (Some sp) (Some t') ∧
    (record o = Some sp ∧ observed_at o = Some t' ∨ record o ≠ Some sp ∧ t' = t) ∧
    (d = Refuse ∨ ∃ acq tr, d = Send (Update (update_body (elector i) (show_u rv) acq stamp tr)) ∧
      (h = i ∨ t' + lease_ns ≤ t)).
Proof.
  intros C Hsp Ho. destruct (spec_by_parts _ _ _ Hsp) as (Hh & Hd & _). unfold begin_attempt.
  destruct (lease_object_parts (elector i) sp rv) as (Ek & Er & Es). rewrite Ek, Er, Es, Hd, Hh.
  change (str_is (Str "Lease") "Lease") with true. rewrite !str_or_Str. cbn [negb orb].
  destruct (is_empty_str (show_u rv)); cbv iota; [intros E; injection E as <- <-; by left|].
  change (default LEASE_DURATION_SECS (as_i64 (Num (PosInt LEASE_DURATION_SECS)))) with 15.
  change (15 <=? 0) with false. cbv iota. unfold expired.
  assert (∃ t', (if option_value_eqb (record o) (Some sp) then o else mkObs (Some sp) (Some t)) =
      mkObs (Some sp) (Some t') ∧
      (record o = Some sp ∧ observed_at o = Some t' ∨ record o ≠ Some sp ∧ t' = t)) as (t' & -> & Ht').
  { unfold obs_ok in Ho. destruct o as [[x|] at_]; simpl in Ho.
    - destruct Ho as (Hx & t1 & [= ->] & _). cbn [record option_value_eqb].
      pose proof (committed_eqb w sp x C Hx) as Hiff.
      destruct (value_eqb x sp) eqn:E.
      + assert (x = sp) as -> by by apply Hiff. exists t1. auto.
      + exists t. split; [done|]. right. split; [|done]. simpl. intros [= ->].
        assert (false = true) by by apply Hiff. done.
    - exists t. split; [done|]. right. split; [done|]. done. }
  cbn [observed_at fmap option_fmap option_map].
  assert (is_empty_str (ident h) = false) as ->.
  { pose proof (ident_ne h). by destruct (ident h). }
  intros E. right. exists t'. unfold elector in E. cbn [identity] in E. fold (elector i) in E.
  destruct (str_eqb (ident h) (ident i)) eqn:Eid.
  - apply str_eqb_eq, ident_inj in Eid. subst h. simpl in E. injection E as <- <-.
    split; [done|]. split; [done|]. right. eauto 6.
  - cbn [negb andb] in E. destruct (from_secs 15 <=? sat_sub t t') eqn:Ex; cbn [negb] in E;
      injection E as <- <-; (split; [done|]); (split; [done|]); [|by left].
    right. do 2 eexists. split; [done|]. right. apply Z.leb_le in Ex. unfold lease_ns, sat_sub, from_secs in *.
    change LEASE_DURATION_SECS with 15. lia.
Qed.

(** ** Steps that do not write the Lease *)

(** [w'] differs from [w] at most by time passing, revisions of other
    objects, more stamps and longer terms. *)
Record frame (w w' : World) : Prop := {
  fr_now : now w ≤ now w';
  fr_lease : lease (server w') = lease (server w);
  fr_rv : next_rv (server w) ≤ next_rv (server w');
  fr_committed : committed w' = committed w;
  fr_last : last_commit w' = last_commit w;
  fr_holder : holder w' = holder w;
  fr_commit_at : commit_at w' = commit_at w;
  fr_acquired : acquired_at w' = acquired_at w;
  fr_stamps : ∀ i, stamps w i ⊆ stamps w' i;
  fr_granted : ∀ i x, granted w i = Some x → ∃ y, granted w' i = Some y ∧ x ≤ y;
}.

Lemma frame_spec w w' i sp : frame w w' → spec_by w i sp → spec_by w' i sp.
Proof.
  intros F (acq & st & tr & -> & Hin). exists acq, st, tr. split; [done|]. by apply (fr_stamps _ _ F).
Qed.

Lemma frame_cand w w' i c : frame w w' → cand_ok w i c → cand_ok w' i c.
Proof.
  intros F (Hg & Ho & Hp). destruct F as [Hn Hl Hr Hc Hlc Hh Hca Ha Hs Hgr]. split_and!.
  - destruct (gate c) as [| |e]; simpl in *; try done. destruct Hg as (x & Hx & ?).
    destruct (Hgr _ _ Hx) as (y & Hy & ?). exists y. split; [done|lia].
  - unfold obs_ok in *. rewrite Hl, Hc, Hca. done.
  - unfold phase_ok in *. rewrite ?Hl, ?Hc, ?Hlc. destruct (phase c) as [|a|a r|a|a id sn|a ans]; try done; try lia.
    destruct Hp as [Ha' Hp]. split; [lia|]. destruct r as [| | | |v]; try done.
    destruct Hp as (sp & rv & -> & ? & ? & ?). exists sp, rv. split_and!; try done; lia.
Qed.

Lemma frame_msg w w' m : frame w w' → msg_ok w m → msg_ok w' m.
Proof.
  intros F (Hs & Hc & Hm). split; [by eapply frame_spec|].
  destruct F as [Hn Hl Hr Hco Hlc Hh Hca Ha Hst Hgr]. rewrite Hco, ?Hl, ?Hh, ?Hca. split; [done|].
  destruct (msg_req m) as [b|b]; [done|]. destruct Hm as (rv & ? & ? & Hm). exists rv. rewrite ?Hl, ?Hh, ?Hca.
  split_and!; try done; try lia. intros sp Hsp. destruct (Hm sp Hsp); [by left|right; lia].
Qed.

Lemma frame_core w w' :
  frame w w' → core_ok w →
  (∀ i e, granted w' i = Some e → ∃ c, last_commit w i = Some c ∧ e ≤ c + RENEW_DEADLINE) → core_ok w'.
Proof.
  intros F C Hg. pose proof F as [Hn Hl Hr Hco Hlc Hh Hca Ha Hst Hgr]. split.
  - pose proof (co_rv _ C). lia.
  - rewrite Hl, Hco, Hlc, Hh. apply C.
  - intros sp rv. rewrite Hl, Hco, Hlc, Hh, Hca, Ha. intros (h & ? & ? & ? & ? & ? & ?)%(co_some _ C).
    exists h. split_and!; try done; try lia. by eapply frame_spec.
  - rewrite Hco. intros sp (i & Hi)%(co_committed _ C). exists i. by eapply frame_spec.
  - rewrite Hlc, Hh, Ha. apply C.
  - rewrite Hlc. done.
Qed.

(** A step of one candidate, messages only being added or removed. *)
Lemma frame_einv w w' :
  einv w → frame w w' →
  (∀ i e, granted w' i = Some e → ∃ c, last_commit w i = Some c ∧ e ≤ c + RENEW_DEADLINE) →
  (∀ i, cands w' i = cands w i ∨ cand_ok w' i (cands w' i)) →
  (∀ m, m ∈ messages w' → m ∈ messages w ∨ msg_ok w' m) →
  NoDup (msg_spec <$> messages w') → einv w'.
Proof.
  intros [C Hc Hm Hf] F Hg Hcs Hms Hnd. split; [by eapply frame_core| | |done].
  - intros i. destruct (Hcs i) as [->|]; [|done]. eapply frame_cand; [done|]. apply Hc.
  - intros m [Hin|]%Hms; [|done]. eapply frame_msg; [done|]. by apply Hm.
Qed.

Lemma cand_insert (w : World) (f : nat → Candidate) i c w' :
  cand_ok w' i c → (∀ j, f j = cands w j) →
  ∀ j, (<[i := c]> f) j = cands w j ∨ cand_ok w' j ((<[i := c]> f) j).
Proof.
  intros Hc Hf j. destruct (decide (j = i)) as [->|Hne].
  - right. by rewrite fn_lookup_insert.
  - left. rewrite fn_lookup_insert_ne by congruence. done.
Qed.

Lemma deliver_cands w w' i id ans :
  einv w → frame w w' →
  (∀ a, accepted ans = true → a ≤ now w → ∃ c, last_commit w' i = Some c ∧ a ≤ c) →
  ∀ j, deliver w i id ans j = cands w j ∨ cand_ok w' j (deliver w i id ans j).
Proof.
  intros I F Ha. unfold deliver. pose proof (ei_cands _ I i) as Hi.
  destruct (phase (cands w i)) as [|a|a r|a|a id' sn|a r] eqn:Ep; try by left.
  case_bool_decide; [|by left]. apply cand_insert; [|done].
  pose proof Hi as (_ & _ & Hp). rewrite Ep in Hp. simpl in Hp.
  destruct (frame_cand _ _ _ _ F Hi) as (Hg & Ho & _). split_and!; [done|done|]. simpl. auto.
Qed.

Lemma msg_remove (ms ms1 ms2 : list Message) m :
  ms = ms1 ++ m :: ms2 → NoDup (msg_spec <$> ms) →
  NoDup (msg_spec <$> ms1 ++ ms2) ∧ (∀ x, x ∈ ms1 ++ ms2 → x ∈ ms ∧ msg_spec x ≠ msg_spec m).
Proof.
  intros ->. rewrite !fmap_app, fmap_cons, <- Permutation_middle. intros [Hn Hnd]%NoDup_cons.
  split; [done|]. intros x Hx. split; [set_solver|]. intros E. apply Hn. rewrite <- E, <- fmap_app.
  by apply list_elem_of_fmap_2.
Qed.

Lemma frame_refl w w' :
  now w' = now w → server w' = server w → committed w' = committed w → last_commit w' = last_commit w →
  holder w' = holder w → commit_at w' = commit_at w → acquired_at w' = acquired_at w →
  (∀ i, stamps w i ⊆ stamps w' i) → granted w' = granted w → frame w w'.
Proof. intros E1 E2 E3 E4 E5 E6 E7 E8 E9. split; rewrite ?E1, ?E2, ?E9; try done; try lia. eauto with lia. Qed.

Lemma set_cand_einv w i c : einv w → cand_ok w i c → einv (set_cand w i c).
Proof.
  intros I Hc. apply (frame_einv w); [done|by apply frame_refl|apply I|by apply cand_insert| |apply I].
  intros m. by left.
Qed.

Lemma last_commit_now w i c : core_ok w → last_commit w i = Some c → c ≤ now w.
Proof.
  intros C Hc. destruct (lease (server w)) as [[sp rv]|] eqn:El.
  - destruct (co_some _ C _ _ El) as (h & Hh & _ & _ & _ & Hl & Ha).
    destruct (decide (h = i)) as [->|Hne]; [naive_solver lia|].
    assert (c + lease_ns ≤ acquired_at w) by (eapply (co_old _ C i c Hc); congruence).
    unfold lease_ns, from_secs in *. change LEASE_DURATION_SECS with 15 in *. lia.
  - destruct (co_none _ C El) as (_ & _ & Hn). rewrite Hn in Hc. done.
Qed.

(** The observation after an attempt that read [sp]. *)
Lemma observed_ok w sp t' o :
  core_ok w → sp ∈ committed w → obs_ok w o →
  (record o = Some sp ∧ observed_at o = Some t' ∨ record o ≠ Some sp ∧ t' = now w) →
  (∀ rv, lease (server w) = Some (sp, rv) → commit_at w ≤ t').
Proof.
  intros C Hsp Ho [[Hr Ht]|[_ ->]] rv Hl.
  - unfold obs_ok in Ho. rewrite Hr in Ho. destruct Ho as (_ & t1 & Ht1 & Hc). naive_solver.
  - destruct (co_some _ C _ _ Hl) as (h & _ & _ & _ & _ & _ & ?). lia.
Qed.

Lemma attempt_obs w i resp a stamp o' d :
  einv w → phase (cands w i) = Answered a resp →
  begin_attempt (elector i) (obs (cands w i)) stamp (now w) resp = (o', d) →
  obs_ok w o' ∧ a ≤ now w ∧
  match d with
  | Panic => False
  | Refuse => True
  | Send (Create b) => index b "spec" = lease_spec (elector i) stamp stamp 0
  | Send (Update b) => ∃ acq tr rv, b = update_body (elector i) (show_u rv) acq stamp tr ∧
      0 ≤ rv < next_rv (server w) ∧
      ∀ sp, lease (server w) = Some (sp, rv) → holder w = Some i ∨ commit_at w + lease_ns ≤ now w
  end.
Proof.
  intros I Hp Hb. pose proof (ei_core _ I) as C. destruct (ei_cands _ I i) as (_ & Ho & Hph).
  rewrite Hp in Hph. destruct Hph as [Ha Hph].
  destruct resp as [| | | |v]; try (injection Hb as <- <-; done).
  destruct Hph as (sp & rv & -> & Hsp & Hrv & Hiff).
  destruct (co_committed _ C _ Hsp) as (h & Hh).
  destruct (begin_attempt_found w _ h _ _ _ _ _ _ _ C Hh Ho Hb) as [[-> ->]|(t' & -> & Ht & Hd)]; [done|].
  pose proof (observed_ok w sp t' _ C Hsp Ho Ht) as Hobs.
  split; [split; [done|eauto]|]. split; [done|].
  destruct Hd as [->|(acq & tr & -> & Hd)]; [done|]. exists acq, tr, rv. split; [done|]. split; [done|].
  intros sp' Hl. assert (sp' = sp) as -> by (symmetry; by apply (Hiff _ _ Hl)).
  destruct (co_some _ C _ _ Hl) as (h' & Hho & Hsp' & _).
  assert (h' = h) as -> by by eapply spec_by_unique.
  destruct Hd as [->|Hd]; [by left|right]. pose proof (Hobs _ Hl). lia.
Qed.

Lemma send_einv w i a resp stamp o req :
  einv w → phase (cands w i) = Answered a resp → stamp ∉ stamps w i →
  begin_attempt (elector i) (obs (cands w i)) stamp (now w) resp = (o, Send req) →
  einv (mkWorld (now w) (server w)
          (<[i := mkCandidate (gate (cands w i)) o (in_hold (cands w i)) (Waiting a (next_id w) (sent req))
                      (opens client (cands w i) req)]> (cands w))
          (mkMessage (next_id w) i req :: messages w) (S (next_id w)) (committed w) (last_commit w)
          (granted w) (holder w) (commit_at w) (acquired_at w) (<[i := stamp :: stamps w i]> (stamps w))).
Proof.
  intros I Hp Hst Hb. pose proof (ei_core _ I) as C.
  destruct (attempt_obs _ _ _ _ _ _ _ I Hp Hb) as (Ho & Ha & Hd).
  assert (∃ acq tr, index (body_of req) "spec" = lease_spec (elector i) acq stamp tr) as (acq & tr & Hsp).
  { destruct req as [b|b]; [eauto|]. destruct Hd as (acq & tr & rv & -> & _). by exists acq, tr. }
  assert (∀ j, ¬ spec_by w j (lease_spec (elector i) acq stamp tr)) as Hfresh by (intros j; by apply spec_by_fresh).
  apply (frame_einv w); [done| |apply I| | |]; simpl.
  - apply frame_refl; try done. simpl. intros j. destruct (decide (i = j)) as [->|].
    + rewrite fn_lookup_insert. set_solver.
    + by rewrite fn_lookup_insert_ne.
  - apply cand_insert; [|done]. pose proof (ei_cands _ I i) as (Hg & _ & _). done.
  - intros m [->|Hin]%elem_of_cons; [right|by left]. split; [|split]; simpl.
    + unfold msg_spec. simpl. rewrite Hsp. exists acq, stamp, tr. split; [done|].
      simpl. rewrite fn_lookup_insert. set_solver.
    + unfold msg_spec. simpl. rewrite Hsp. intros (j & Hj)%(co_committed _ C). by eapply Hfresh.
    + destruct req as [b|b]; [done|]. destruct Hd as (? & ? & rv & -> & Hrv & Hl).
      exists rv. split; [done|]. done.
  - constructor; [|apply I]. unfold msg_spec at 1. simpl. rewrite Hsp.
    intros (m & Em & Hin)%list_elem_of_fmap. destruct (ei_msgs _ I _ Hin) as (Hby & _). eapply Hfresh.
    rewrite Em. done.
Qed.

Lemma finish_einv w i a answer :
  einv w → phase (cands w i) = Replied a answer →
  let c := finish (cands w i) (now w) a answer in
  einv (mkWorld (now w) (server w) (<[i := c]> (cands w)) (messages w) (next_id w) (committed w)
          (last_commit w) (<[i := raise_grant (granted w i) c]> (granted w)) (holder w) (commit_at w)
          (acquired_at w) (stamps w)).
Proof.
  intros I Hp c. pose proof (ei_core _ I) as C. destruct (ei_cands _ I i) as (Hg & Ho & Hph).
  rewrite Hp in Hph. simpl in Hph.
  assert (obs c = obs (cands w i) ∧ phase c = Idle) as [Eo Ep].
  { unfold c, finish. repeat case_match; done. }
  assert (match gate c with
          | Leader e => ∃ x, (granted w i = Some x ∧ e ≤ x) ∨
              (∃ cc, last_commit w i = Some cc ∧ x = cc + RENEW_DEADLINE ∧ e ≤ x)
          | Unrestricted => False | Follower => True end) as Hgc.
  { unfold c, finish. destruct (accepted answer); simpl.
    2:{ destruct (gate (cands w i)); naive_solver. }
    destruct (Hph eq_refl) as (cc & Hcc & Hle). destruct (in_hold (cands w i)); simpl.
    - destruct (gate (cands w i)) as [| |e]; simpl in *; [done|done|].
      destruct (now w <? e); simpl; [|done]. destruct Hg as (x & Hx & Hex).
      destruct (co_granted _ C _ _ Hx) as (c1 & Hc1 & Hxc). assert (c1 = cc) as -> by congruence.
      exists (cc + RENEW_DEADLINE). right. exists cc. split; [done|]. split; [done|lia].
    - exists (cc + RENEW_DEADLINE). right. exists cc. split; [done|]. split; [done|lia]. }
  apply (frame_einv w); [done| | | |by left|apply I]; simpl.
  - split; simpl; try done; try lia. intros j x Hx. destruct (decide (i = j)) as [<-|Hne].
    + rewrite fn_lookup_insert. unfold raise_grant. rewrite Hx.
      destruct (gate c) as [| |e]; [exists x|exists x|exists (Z.max x e)]; (split; [done|lia]).
    + rewrite fn_lookup_insert_ne by done. exists x. split; [done|lia].
  - intros j e. destruct (decide (i = j)) as [<-|Hne]; [|rewrite fn_lookup_insert_ne by done; apply I].
    rewrite fn_lookup_insert. unfold raise_grant.
    destruct (gate c) as [| |e1] eqn:Eg; [apply I|apply I|]. intros [= <-].
    destruct Hgc as (x & [[Hx Hle]|(cc & Hcc & -> & Hle)]).
    + rewrite Hx. destruct (co_granted _ C _ _ Hx) as (c1 & ? & ?). exists c1. split; [done|lia].
    + exists cc. split; [done|]. destruct (granted w i) as [y|] eqn:Ey; [|done].
      destruct (co_granted _ C _ _ Ey) as (c1 & ? & ?). assert (c1 = cc) as -> by congruence. lia.
  - apply cand_insert; [|done]. split_and!; rewrite ?Eo, ?Ep; try done. unfold gate_ok. simpl.
    rewrite fn_lookup_insert. unfold raise_grant. destruct (gate c) as [| |e1]; try done.
    eexists. split; [done|]. case_match; lia.
Qed.

(** ** The step that writes the Lease *)

Lemma serve_put_commits el s r s' v :
  serve_put el s r = (s', v) → lease s' ≠ lease s →
  s' = mkServer (Some (index (body_of r) "spec", next_rv s)) (next_rv s + 1) ∧
  match r with
  | Create _ => lease s = None
  | Update b => ∃ sp rv, lease s = Some (sp, rv) ∧
      index (index b "metadata") "resourceVersion" = Str (show_u rv)
  end.
Proof.
  unfold serve_put, commit. destruct r as [b|b]; destruct (lease s) as [[sp rv]|] eqn:El;
    try (intros [= <- _] Hne; congruence).
  - intros [= <- _] _. done.
  - destruct (str_is _ _) eqn:Es; [|intros [= <- _] Hne; congruence].
    intros [= <- _] _. split; [done|]. exists sp, rv. split; [done|]. by apply str_is_spec.
Qed.

Lemma commit_einv w ms1 ms2 id i req s' v sp rv :
  einv w → messages w = ms1 ++ mkMessage id i req :: ms2 →
  serve_put (elector i) (server w) req = (s', v) →
  lease s' = Some (sp, rv) → lease s' ≠ lease (server w) →
  einv (mkWorld (now w) s' (deliver w i id (Some v)) (ms1 ++ ms2) (next_id w) (sp :: committed w)
          (<[i := Some (now w)]> (last_commit w)) (granted w) (Some i) (now w)
          (if bool_decide (holder w = Some i) then acquired_at w else now w) (stamps w)).
Proof.
  intros I Hm Hs Hl Hne. pose proof (ei_core _ I) as C.
  destruct (serve_put_commits _ _ _ _ _ Hs Hne) as [-> Hreq]. simpl in Hl. injection Hl as Esp Erv.
  destruct (ei_msgs _ I (mkMessage id i req)) as (Hby & Hfresh & Hmsg); [rewrite Hm; set_solver|].
  unfold msg_spec in Hby, Hfresh. simpl in Hby, Hfresh, Hmsg. rewrite Esp in Hby, Hfresh.
  destruct (msg_remove _ _ _ _ Hm (ei_fresh _ I)) as [Hnd Hms].
  pose proof (co_rv _ C) as Hrv0.
  (* time since the record this one replaces *)
  assert (∀ c j, last_commit w j = Some c → j ≠ i →
    c + lease_ns ≤ if bool_decide (holder w = Some i) then acquired_at w else now w) as Hold.
  { intros c j Hc Hj. destruct (lease (server w)) as [[sp0 rv0]|] eqn:El.
    2:{ destruct (co_none _ C El) as (_ & _ & Hn). rewrite Hn in Hc. done. }
    destruct (co_some _ C _ _ El) as (h & Hh & _ & _ & Hrv1 & Hlc & Hacq).
    case_bool_decide as Ehi; [apply (co_old _ C j c Hc); congruence|].
    destruct (decide (h = j)) as [->|Hhj].
    - assert (c = commit_at w) as -> by congruence.
      destruct req as [b|b]; [done|]. destruct Hreq as (sp1 & rv1 & [= <- <-] & Hb).
      destruct Hmsg as (rv2 & Hb2 & Hr2 & Hx). rewrite Hb in Hb2. injection Hb2 as E%show_u_inj; [|lia..].
      subst rv2. destruct (Hx _ eq_refl) as [?|]; [congruence|done].
    - assert (c + lease_ns ≤ acquired_at w) by (apply (co_old _ C j c Hc); congruence). lia. }
  assert (∀ j c, last_commit w j = Some c → ∃ c', (<[i := Some (now w)]> (last_commit w)) j = Some c' ∧ c ≤ c') as Hmono.
  { intros j c Hc. destruct (decide (i = j)) as [<-|]; [rewrite fn_lookup_insert|rewrite fn_lookup_insert_ne by done].
    - exists (now w). split; [done|]. by eapply last_commit_now.
    - exists c. split; [done|lia]. }
  set (w' := mkWorld _ _ _ _ _ _ _ _ _ _ _ _).
  split; simpl.
  - split; simpl; [lia|done| | | |].
    + intros sp' rv' [= <- <-]. exists i. split; [done|]. split; [by rewrite Esp|]. split; [rewrite Esp; set_solver|].
      split; [lia|]. rewrite fn_lookup_insert. split; [done|]. case_bool_decide as Eh; [|lia].
      destruct (lease (server w)) as [[sp0 rv0]|] eqn:El.
      * destruct (co_some _ C _ _ El) as (h & _ & _ & _ & _ & _ & ?). lia.
      * destruct (co_none _ C El) as (_ & ? & _). congruence.
    + intros sp' [->|Hin]%elem_of_cons; [by exists i|]. apply (co_committed _ C _ Hin).
    + intros j c. destruct (decide (i = j)) as [<-|Hij]; [done|]. rewrite fn_lookup_insert_ne by done.
      intros Hc _. by apply (Hold c j).
    + intros j e (c & Hc & Hle)%(co_granted _ C). destruct (Hmono j c Hc) as (c' & ? & ?).
      exists c'. split; [done|lia].
  - assert (∀ j c, cand_ok w j c → cand_ok w' j c) as Hok.
    { intros j c (Hg & Ho & Hp). split_and!.
      - by destruct (gate c).
      - unfold obs_ok in *. simpl. destruct (record (obs c)) as [x|]; [|done].
        destruct Ho as (Hx & t & Ht & _). split; [set_solver|]. exists t. split; [done|].
        intros rv' [= Ex _]. congruence.
      - destruct (phase c) as [|a|a r|a|a id' sn|a ans]; simpl in *; try done.
        + destruct Hp as [Ha Hp]. split; [done|]. destruct r as [| | | |vv]; try done.
          destruct Hp as (x & rvx & -> & Hx & Hrx & _). exists x, rvx. split; [done|]. split; [set_solver|].
          split; [lia|]. intros x' rv' [= <- <-]. split; [lia|congruence].
        + intros Hacc. destruct (Hp Hacc) as (c0 & Hc & Hac). destruct (Hmono j c0 Hc) as (c' & ? & ?).
          exists c'. split; [done|lia]. }
    intros j. pose proof (Hok j _ (ei_cands _ I j)) as Hj.
    change (cand_ok w' j (deliver w i id (Some v) j)).
    assert (last_commit w' = <[i := Some (now w)]> (last_commit w)) as Elc by done.
    assert (now w' = now w) as Enow by done. clearbody w'. clear Hold. unfold deliver.
    destruct (phase (cands w i)) as [|a|a r|a|a id' sn|a r] eqn:Ep; try done.
    case_bool_decide; [|done]. destruct (decide (i = j)) as [<-|Hij]; [|by rewrite fn_lookup_insert_ne].
    rewrite fn_lookup_insert. destruct Hj as (Hg & Ho & Hp). split_and!; [done|done|].
    simpl. intros _. exists (now w). rewrite Elc. split; [by rewrite fn_lookup_insert|].
    rewrite Ep in Hp. simpl in Hp. by rewrite Enow in Hp.
  - intros m [Hin Hneq]%Hms. destruct (ei_msgs _ I m Hin) as (Hb & Hc & Hr). split; [done|]. subst w'. simpl. split.
    + intros [E|?]%elem_of_cons; [|done]. apply Hneq. unfold msg_spec at 2. simpl. congruence.
    + destruct (msg_req m) as [b|b]; [done|]. destruct Hr as (rvm & ? & ? & _). exists rvm.
      split; [done|]. split; [lia|]. intros sp0 [= _ E]. lia.
  - done.
Qed.

Lemma estep_inv w w' : einv w → estep w w' → client = Posting ∨ no_retry w' → einv w'.
Proof.
  intros I Hst Hcl. pose proof (ei_core _ I) as C.
  assert (∀ i p, phase_ok w i p → cand_ok w i (with_phase (cands w i) p)) as Hwp.
  { intros i p Hp. destruct (ei_cands _ I i) as (Hg & Ho & _). done. }
  destruct Hst as [w t Ht|w i Hp|w i a Hp|w i a r Hp Hr|w i a resp st o Hp Hb|w i a resp st o req Hp Hst Hb _|
    w i a resp st o req Hp Hb Hsn|w i a v Hp|w i a b Hp|
    w ms1 ms2 id i req s' v Hm Hs Hl|w ms1 ms2 id i req s' v sp rv Hm Hs Hl Hne|w ms1 ms2 id i req Hm|
    w rv Hrv|w i|w i a ans Hp c|w i].
  - apply (frame_einv w); try done; [|apply I|by left|by left|apply I]. split; simpl; try done; try lia; eauto with lia.
  - apply set_cand_einv; [done|]. apply Hwp. simpl. lia.
  - apply set_cand_einv; [done|]. apply Hwp. pose proof (proj2 (proj2 (ei_cands _ I i))) as Hph.
    rewrite Hp in Hph. simpl in *. split; [done|]. unfold serve_get.
    destruct (lease (server w)) as [[sp rv]|] eqn:El; [|done].
    destruct (co_some _ C _ _ El) as (h & _ & _ & ? & ? & _). exists sp, rv. split_and!; try done; try lia.
    intros sp' rv' [= <- <-]. done.
  - apply set_cand_einv; [done|]. apply Hwp. pose proof (proj2 (proj2 (ei_cands _ I i))) as Hph.
    rewrite Hp in Hph. simpl in *. split; [done|]. by destruct Hr as [->|[->| ->]].
  - apply set_cand_einv; [done|]. destruct (attempt_obs _ _ _ _ _ _ _ I Hp Hb) as (Ho & _).
    destruct (ei_cands _ I i) as (Hg & _). done.
  - by eapply send_einv.
  - exfalso. destruct Hcl as [->|Hn]; [done|]. apply (Hn i a). simpl. by rewrite fn_lookup_insert.
  - exfalso. pose proof (proj2 (proj2 (ei_cands _ I i))) as Hph. by rewrite Hp in Hph.
  - exfalso. pose proof (proj2 (proj2 (ei_cands _ I i))) as Hph. by rewrite Hp in Hph.
  - assert (frame w (mkWorld (now w) s' (deliver w i id (Some v)) (ms1 ++ ms2) (next_id w) (committed w)
               (last_commit w) (granted w) (holder w) (commit_at w) (acquired_at w) (stamps w))) as F.
    { split; simpl; try done; try lia; [|eauto with lia]. revert Hs. unfold serve_put, commit.
      repeat case_match; intros [= <- _]; simpl; lia. }
    destruct (msg_remove _ _ _ _ Hm (ei_fresh _ I)) as [Hnd Hms].
    apply (frame_einv w); try done; [apply I| |].
    + apply deliver_cands; [done|done|]. simpl. intros a Ha _.
      (* an accepted answer is a write *)
      revert Hs Hl Ha. unfold serve_put, commit.
      destruct req as [b|b]; destruct (lease (server w)) as [[sp0 rv0]|] eqn:El; try (intros [= <- <-]; done).
      destruct (str_is _ _); [|intros [= <- <-]; done]. intros [= <- <-]. simpl. intros [= _ E].
      destruct (co_some _ C _ _ El) as (h & _ & _ & _ & ? & _). lia.
    + intros m [? _]%Hms. by left.
  - by eapply commit_einv.
  - destruct (msg_remove _ _ _ _ Hm (ei_fresh _ I)) as [Hnd Hms].
    apply (frame_einv w); try done; [by apply frame_refl|apply I| |].
    + apply deliver_cands; [done|by apply frame_refl|done].
    + intros m [? _]%Hms. by left.
  - apply (frame_einv w); try done; [|apply I|by left|by left|apply I]. split; simpl; try done; try lia; eauto with lia.
  - apply set_cand_einv; [done|]. by apply Hwp.
  - by apply finish_einv.
  - apply set_cand_einv; [done|]. destruct (ei_cands _ I i) as (_ & Ho & _). done.
Qed.

Lemma init_einv t rv : 1 ≤ rv → einv (world_init t rv).
Proof.
  intros Hrv. split; simpl; [|done|set_solver|constructor].
  split; simpl; try done; [lia|set_solver].
Qed.

Lemma retry_free_inv w : retry_free w → einv w.
Proof.
  intros (t & rv & Hrv & Hs). pose proof (init_einv t rv Hrv) as I. revert I.
  induction Hs as [|w1 w2 w3 [H1 Hn] _ IH]; [done|]. intros I. apply IH. eapply estep_inv; [done|done|by right].
Qed.

Lemma rtc_inv w w' : client = Posting → rtc estep w w' → einv w → einv w'.
Proof.
  intros Hcl Hs. induction Hs as [|w1 w2 w3 H1 _ IH]; [done|]. intros I. apply IH.
  eapply estep_inv; [done|done|by left].
Qed.

Lemma ereachable_inv w : client = Posting → ereachable w → einv w.
Proof. intros Hcl (t & rv & Hrv & Hs). eapply rtc_inv; [done|done|by apply init_einv]. Qed.

(** Only the candidate named by the current record can have a live term. *)
Lemma granted_holder w i e :
  core_ok w → granted w i = Some e → acquired_at w < e → holder w = Some i ∨ e ≤ acquired_at w.
Proof.
  intros C Hg He. destruct (co_granted _ C _ _ Hg) as (c & Hc & Hle).
  destruct (decide (holder w = Some i)) as [?|Hn]; [by left|right].
  pose proof (co_old _ C _ _ Hc Hn). unfold lease_ns, RENEW_DEADLINE, from_secs in *.
  change LEASE_DURATION_SECS with 15 in *. lia.
Qed.

Lemma acquired_now w i c : core_ok w → last_commit w i = Some c → acquired_at w ≤ now w.
Proof.
  intros C Hc. destruct (lease (server w)) as [[sp rv]|] eqn:El.
  - destruct (co_some _ C _ _ El) as (h & _ & _ & _ & _ & _ & ?). lia.
  - destruct (co_none _ C El) as (_ & _ & Hn). rewrite Hn in Hc. done.
Qed.

Lemma live_holder w i e : einv w → granted w i = Some e → now w < e → holder w = Some i.
Proof.
  intros I Hg He. pose proof (ei_core _ I) as C. destruct (co_granted _ C _ _ Hg) as (c & Hc & _).
  pose proof (acquired_now _ _ _ C Hc). destruct (granted_holder _ _ _ C Hg) as [?|?]; [lia|done|lia].
Qed.

Lemma leading_live w i r :
  einv w → budget (gate (cands w i)) (now w) = Ok r → ∃ e, granted w i = Some e ∧ now w < e ∧ now w + r ≤ e.
Proof.
  intros I Hb. destruct (ei_cands _ I i) as (Hg & _ & _).
  apply budget_Ok in Hb as [[E _]|(e & E & ? & ? & ? & _)]; rewrite E in Hg; [done|].
  destruct Hg as (x & Hx & ?). exists x. split; [done|lia].
Qed.

Lemma estep_granted w w' i e : estep w w' → granted w i = Some e → ∃ e', granted w' i = Some e' ∧ e ≤ e'.
Proof.
  intros Hst Hg. destruct Hst; simpl; try (exists e; split; [done|lia]).
  destruct (decide (i0 = i)) as [->|]; [|rewrite fn_lookup_insert_ne by done; exists e; split; [done|lia]].
  rewrite fn_lookup_insert. unfold raise_grant. rewrite Hg. case_match; eexists; (split; [done|lia]).
Qed.

Lemma leading_unique w i j : einv w → leading w i → leading w j → i = j.
Proof.
  intros I. unfold leading. intros Hi Hj.
  destruct (budget (gate (cands w i)) (now w)) as [r|] eqn:Ei; [|done].
  destruct (budget (gate (cands w j)) (now w)) as [r'|] eqn:Ej; [|done].
  destruct (leading_live _ _ _ I Ei) as (e & He & ? & _).
  destruct (leading_live _ _ _ I Ej) as (e' & He' & ? & _).
  pose proof (live_holder _ _ _ I He). pose proof (live_holder _ _ _ I He'). naive_solver.
Qed.

(** C1: leadership of the scheduler is exclusive.  Let any number of
    candidates with distinct, non-empty identities contend for one Lease that
    nobody else writes or deletes, each stamping its records with times it has
    not used before, on clocks that run at the same rate, with a client whose
    create is one POST, over a network that delays, loses and reorders
    requests, each candidate paused or cancelled at any point.  Then in every
    reachable state at most one candidate's write gate admits a mutation. *)
Theorem mutual_exclusion w i j : client = Posting → ereachable w → leading w i → leading w j → i = j.
Proof. intros Hcl I%ereachable_inv; [|done]. by apply leading_unique. Qed.

(** Leadership of the controller-manager is exclusive as long as no candidate
    comes to repeat a create of the Lease that it left open: then and only
    then its client can answer with another candidate's Lease
    ([manager_two_leaders]). *)
Theorem manager_exclusion w i j : retry_free w → leading w i → leading w j → i = j.
Proof. intros I%retry_free_inv. by apply leading_unique. Qed.

(** A mutation never outlives its term.  If candidate [i]'s gate admits
    a mutation with time budget [r], then in every later state up to the end
    of that budget (even if [i] has lost or closed its term since) no other
    candidate's gate admits one. *)
Theorem mutation_exclusive w w' i j r :
  client = Posting → ereachable w → budget (gate (cands w i)) (now w) = Ok r →
  rtc estep w w' → now w' < now w + r → leading w' j → i = j.
Proof.
  intros Hcl Hr Hb Hst Ht Hj. pose proof (ereachable_inv _ Hcl Hr) as I.
  destruct (leading_live _ _ _ I Hb) as (e & He & _ & Hle).
  assert (∃ e', granted w' i = Some e' ∧ e ≤ e') as (e' & He' & ?).
  { clear Ht Hj Hb Hr Hle I. revert e He. induction Hst as [w|w1 w2 w3 H1 _ IH]; intros e He.
    - exists e. split; [done|lia].
    - destruct (estep_granted _ _ _ _ H1 He) as (e1 & He1 & ?).
      destruct (IH e1 He1) as (e3 & ? & ?). exists e3. split; [done|lia]. }
  pose proof (rtc_inv _ _ Hcl Hst I) as I'.
  unfold leading in Hj. destruct (budget (gate (cands w' j)) (now w')) as [r'|] eqn:Ej; [|done].
  destruct (leading_live _ _ _ I' Ej) as (ej & Hej & Hlj & _).
  pose proof (live_holder _ _ _ I' Hej Hlj). assert (now w' < e') as Hlt by lia.
  pose proof (live_holder _ _ _ I' He' Hlt). congruence.
Qed.
End Election.

(** ** A concrete election *)

(** Two candidates; the first finds no Lease, creates it and starts its term. *)
Definition demo_ident (i : nat) : string := String.append "cand-" (show_u (Z.of_nat i)).

Lemma demo_ident_inj i j : demo_ident i = demo_ident j → i = j.
Proof. unfold demo_ident. intros [= E]. apply show_u_inj in E; lia. Qed.
Lemma demo_ident_ne i : demo_ident i ≠ "".
Proof. done. Qed.

Definition demo_el := elector demo_ident "kube-scheduler" "kube-system".
Definition demo_step := estep demo_ident "kube-scheduler" "kube-system" Posting.
Definition demo_spec : Value := lease_spec (demo_el 0) "t0" "t0" 0.
Definition demo_leader : Candidate := mkCandidate (Leader RENEW_DEADLINE) obs_default true Idle None.

(** The world right after candidate 0's attempt at time 0 was granted. *)
Definition demo_world : World :=
  mkWorld 0 (mkServer (Some (demo_spec, 7)) 8)
    (<[0%nat := demo_leader]>
      (<[0%nat := with_phase candidate_init (Replied 0 (Some (lease_object (demo_el 0) demo_spec 7)))]>
      (<[0%nat := with_phase candidate_init (Waiting 0 0 (SentCreate false))]>
      (<[0%nat := with_phase candidate_init (Answered 0 NotFound)]>
      (<[0%nat := with_phase candidate_init (Asking 0)]> (λ _, candidate_init))))))
    [] 1 [demo_spec] (<[0%nat := Some 0]> (λ _, None)) (<[0%nat := Some RENEW_DEADLINE]> (λ _, None))
    (Some 0%nat) 0 0 (<[0%nat := ["t0"]]> (λ _, [])).

Lemma demo_world_reachable : ereachable demo_ident "kube-scheduler" "kube-system" Posting demo_world.
Proof.
  exists 0, 7. split; [lia|].
  eapply rtc_l; [apply (e_start _ _ _ _ _ 0); reflexivity|].
  eapply rtc_l; [apply (e_get _ _ _ _ _ 0 0); reflexivity|].
  eapply rtc_l; [eapply (e_send _ _ _ _ _ 0 0 NotFound "t0"); [reflexivity|apply not_elem_of_nil|reflexivity|reflexivity]|].
  eapply rtc_l; [eapply (e_commit _ _ _ _ _ [] [] 0 0); [reflexivity|reflexivity|reflexivity|discriminate]|].
  eapply rtc_l; [eapply (e_finish _ _ _ _ _ 0 0); reflexivity|].
  apply rtc_refl.
Qed.

Lemma demo_leading : leading demo_world 0.
Proof. reflexivity. Qed.

Lemma mutual_exclusion_witness : leading demo_world 0 ∧ 0%nat = 0%nat.
Proof.
  split; [reflexivity|].
  apply (mutual_exclusion demo_ident "kube-scheduler" "kube-system" Posting demo_ident_inj demo_ident_ne demo_world);
    [reflexivity|exact demo_world_reachable|exact demo_leading|exact demo_leading].
Defined.

Lemma mutation_exclusive_witness : budget (gate (cands demo_world 0)) (now demo_world) = Ok (from_secs 5) ∧ 0%nat = 0%nat.
Proof.
  split; [reflexivity|].
  apply (mutation_exclusive demo_ident "kube-scheduler" "kube-system" Posting demo_ident_inj demo_ident_ne
           demo_world demo_world 0 0 (from_secs 5));
    [reflexivity|exact demo_world_reachable|reflexivity|apply rtc_refl|reflexivity|exact demo_leading].
Defined.

Lemma unused_stamp w i st : stamps w i = [] → st ∉ stamps w i.
Proof. intros ->. apply not_elem_of_nil. Qed.


(** One step, and the world it leads to computed. *)
Ltac estep_by tac :=
  eapply rtc_l; [tac|];
  match goal with |- rtc _ ?w _ => let w' := eval vm_compute in w in change w with w' end.

(** Two controller-managers and no Lease yet.  Candidate 0's first POST is
    lost; its second attempt GETs the Lease before candidate 1 has created it,
    so it calls [create] again, whose GET then finds candidate 1's Lease: both
    take it that they lead. *)
Example manager_two_leaders :
  ∃ w, ereachable demo_ident "kube-controller-manager" "kube-system" Keeping w ∧ leading w 0 ∧ leading w 1.
Proof.
  eexists. split.
  - exists 0, 7. split; [lia|].
    estep_by ltac:(apply (e_start _ _ _ _ _ 0); reflexivity).
    estep_by ltac:(apply (e_get _ _ _ _ _ 0 0); reflexivity).
    estep_by ltac:(eapply (e_send _ _ _ _ _ 0 0 NotFound "t0"); [reflexivity|apply unused_stamp; reflexivity|reflexivity|reflexivity]).
    estep_by ltac:(eapply (e_lose _ _ _ _ _ [] [] 0 0); reflexivity).
    estep_by ltac:(eapply (e_finish _ _ _ _ _ 0 0); reflexivity).
    estep_by ltac:(apply (e_start _ _ _ _ _ 0); reflexivity).
    estep_by ltac:(apply (e_get _ _ _ _ _ 0 0); reflexivity).
    estep_by ltac:(apply (e_start _ _ _ _ _ 1); reflexivity).
    estep_by ltac:(apply (e_get _ _ _ _ _ 1 0); reflexivity).
    estep_by ltac:(eapply (e_send _ _ _ _ _ 1 0 NotFound "t1"); [reflexivity|apply unused_stamp; reflexivity|reflexivity|reflexivity]).
    estep_by ltac:(eapply (e_commit _ _ _ _ _ [] [] 1 1); [reflexivity|reflexivity|reflexivity|discriminate]).
    estep_by ltac:(eapply (e_finish _ _ _ _ _ 1 0); reflexivity).
    estep_by ltac:(eapply (e_retry _ _ _ _ _ 0 0 NotFound "t2"); reflexivity).
    estep_by ltac:(eapply (e_resolved _ _ _ _ _ 0 0); reflexivity).
    estep_by ltac:(eapply (e_finish _ _ _ _ _ 0 0); reflexivity).
    apply rtc_refl.
  - split; reflexivity.
Qed.
