(* ===== verification/Cron.v ===== *)
(** * Cron schedules ([pkg/apimachinery/src/cron.rs])

    Parsing a five-field schedule, whether it fires at an instant, its next
    start, its missed starts, and its validation.  An instant is a number of
    nanoseconds, counted from midnight UTC of day 0, and a date is a number of
    days; what a date is called (year, month, day, weekday) is chrono's, a
    parameter given by the rules of the Gregorian calendar.  Leap seconds are
    not represented. *)

From Stdlib Require Import ZArith Lia String Ascii.
From stdpp Require Import base gmap strings numbers option list sorting.
From S2P Require Import Prelude Text.
Open Scope string_scope.
Open Scope kube_scope.
Open Scope Z_scope.

(** ** The calendar *)

Class Chrono := {
  year : Z → Z;
  month : Z → Z;
  day : Z → Z;
  num_days_from_sunday : Z → Z;
  number_from_monday : Z → Z;
  from_ymd_opt : Z → Z → Z → option Z;
  min_day : Z;
  max_day : Z }.

Definition leap (y : Z) : bool := (y mod 4 =? 0) && (negb (y mod 100 =? 0) || (y mod 400 =? 0)).

Definition days_in_month (y m : Z) : Z :=
  if (m =? 2) then (if leap y then 29 else 28)
  else if (m =? 4) || (m =? 6) || (m =? 9) || (m =? 11) then 30 else 31.

Definition valid_date (y m d : Z) : Prop := 1 ≤ m ≤ 12 ∧ 1 ≤ d ≤ days_in_month y m.

Definition next_date (ymd : Z * Z * Z) : Z * Z * Z :=
  let '(y, m, d) := ymd in
  if d <? days_in_month y m then (y, m, d + 1)
  else if m <? 12 then (y, m + 1, 1)
  else (y + 1, 1, 1).

Definition date `{Chrono} (n : Z) : Z * Z * Z := (year n, month n, day n).

(** What chrono documents: dates are those of the proleptic Gregorian calendar,
    each the successor of the one before, and the days of the week repeat. *)
Class ChronoLaws `{Chrono} : Prop := {
  date_valid n : min_day ≤ n ≤ max_day → valid_date (year n) (month n) (day n);
  date_succ n : min_day ≤ n < max_day → date (n + 1) = next_date (date n);
  sunday_range n : 0 ≤ num_days_from_sunday n < 7;
  sunday_succ n : num_days_from_sunday (n + 1) = (num_days_from_sunday n + 1) mod 7;
  monday_sunday n : number_from_monday n = if num_days_from_sunday n =? 0 then 7 else num_days_from_sunday n;
  ymd_opt y m d : -262142 ≤ y ≤ 262141 → is_Some (from_ymd_opt y m d) ↔ valid_date y m d }.

Definition SECOND : Z := 1000000000.
Definition MINUTE : Z := 60 * SECOND.
Definition HOUR : Z := 60 * MINUTE.
Definition DAY : Z := 24 * HOUR.

Definition date_naive (t : Z) : Z := t / DAY.
Definition hour_of (t : Z) : Z := (t mod DAY) / HOUR.
Definition minute_of (t : Z) : Z := (t mod HOUR) / MINUTE.
Definition trunc_minute (t : Z) : Z := t - t mod MINUTE.

(** ** Fields *)

Definition MAX_LOOKBACK_DAYS : Z := 7.
Definition TOO_MANY_MISSED : Z := 100.

Definition is_any (field : string) : bool := (field =? "*")%kube || (field =? "?")%kube.

(** One part of a field: the range it names and its step; [None] skips it. *)
Definition parse_part (part : string) (min max : Z) : option (Z * Z * Z) :=
  let part := trim part in
  let '(base, step) :=
    match split_once "/" part with
    | Some (b, s) => (b, default 0 (parse_u32 s))
    | None => (part, 1)
    end in
  if (step =? 0) then None
  else if is_any base then Some (min, max, step)
  else
    match split_once "-" base with
    | Some (a, b) =>
        match parse_u32 (trim a), parse_u32 (trim b) with
        | Some a, Some b => if a <=? b then Some (a, b, step) else None
        | _, _ => None
        end
    | None => v ← parse_u32 (trim base); Some (v, v, step)
    end.

(** The [while] loop of a part, [last] being [hi.min(max)]. *)
Fixpoint take_steps (fuel : nat) (v last step min : Z) (out : gset Z) : gset Z :=
  match fuel with
  | O => out
  | S fuel =>
      if v <=? last
      then take_steps fuel (wrap32 (v + step)) last step min (if min <=? v then {[v]} ∪ out else out)
      else out
  end.

Definition add_part (min max : Z) (out : gset Z) (part : string) : gset Z :=
  match parse_part part min max with
  | Some (lo, hi, step) => take_steps (Z.to_nat (max + 2)) lo (Z.min hi max) step min out
  | None => out
  end.

Definition parse_field (field : string) (min max : Z) : gset Z :=
  fold_left (add_part min max) (split_on "," field) ∅.

(** ** Matching *)

Section Schedules.
  Context `{Chrono}.

Definition matches (schedule : string) (at_ : Z) : bool :=
  match split_whitespace schedule with
  | [f0; f1; f2; f3; f4] =>
      let minute_set := parse_field f0 0 59 in
      let hour_set := parse_field f1 0 23 in
      let dom_set := parse_field f2 1 31 in
      let month_set := parse_field f3 1 12 in
      let dow_set := parse_field f4 0 7 in
      if negb (bool_decide (minute_of at_ ∈ minute_set)) || negb (bool_decide (hour_of at_ ∈ hour_set))
         || negb (bool_decide (month (date_naive at_) ∈ month_set))
      then false
      else
        let dow := number_from_monday (date_naive at_) in
        let cron_dow := if dow =? 7 then 0 else dow in
        let dow_matches := bool_decide (cron_dow ∈ dow_set) || ((cron_dow =? 0) && bool_decide (7 ∈ dow_set)) in
        let dom_matches := bool_decide (day (date_naive at_) ∈ dom_set) in
        if negb (is_any f2) && negb (is_any f4) then dom_matches || dow_matches else dom_matches && dow_matches
  | _ => false
  end.

Inductive Invalid : Type :=
| WrongFieldCount (n : nat)
| EmptyField (field value : string)
| ImpossibleDate.

Definition specs : list (string * Z * Z) :=
  [("minute", 0, 59); ("hour", 0, 23); ("day-of-month", 1, 31); ("month", 1, 12); ("day-of-week", 0, 7)].

Fixpoint first_empty (fields : list string) (specs : list (string * Z * Z)) : option Invalid :=
  match fields, specs with
  | f :: fields, (name, lo, hi) :: specs =>
      if bool_decide (parse_field f lo hi = ∅) then Some (EmptyField name f) else first_empty fields specs
  | _, _ => None
  end.

(** Some day of the set exists in some month of the set, in 2024 to 2027. *)
Definition possible (days months : gset Z) : bool :=
  existsb (λ y, existsb (λ m, bool_decide (m ∈ months) &&
    existsb (λ d, bool_decide (d ∈ days) && bool_decide (is_Some (from_ymd_opt y m d))) (seqZ 1 31)) (seqZ 1 12)) (seqZ 2024 4).

Definition validate (schedule : string) : result unit Invalid :=
  match split_whitespace schedule with
  | [f0; f1; f2; f3; f4] =>
      match first_empty [f0; f1; f2; f3; f4] specs with
      | Some e => Err e
      | None =>
          if negb (is_any f2) && negb (possible (parse_field f2 1 31) (parse_field f3 1 12))
          then Err ImpossibleDate else Ok tt
      end
  | fields => Err (WrongFieldCount (List.length fields))
  end.

(** ** The next start *)

Definition sorted_values (s : gset Z) : list Z := merge_sort Z.le (elements s).

(** [NaiveDate::and_hms_opt(..).unwrap()]: a panic for an hour or minute that is
    none. *)
Definition at_time (d h m : Z) : option Z :=
  if (h <? 24) && (m <? 60) then Some (d * DAY + h * HOUR + m * MINUTE) else None.

Fixpoint first_minute (d h : Z) (minutes : list Z) (after : Z) : option (option Z) :=
  match minutes with
  | [] => Some None
  | m :: minutes =>
      at_ ← at_time d h m;
      if after <? at_ then Some (Some at_) else first_minute d h minutes after
  end.

Fixpoint first_time (d : Z) (hours minutes : list Z) (after : Z) : option (option Z) :=
  match hours with
  | [] => Some None
  | h :: hours =>
      r ← first_minute d h minutes after;
      match r with Some at_ => Some (Some at_) | None => first_time d hours minutes after end
  end.

Definition day_matches (f2 f4 : string) (dom dow : gset Z) (d : Z) : bool :=
  let weekday := num_days_from_sunday d in
  let weekday_matches := bool_decide (weekday ∈ dow) || ((weekday =? 0) && bool_decide (7 ∈ dow)) in
  if negb (is_any f2) && negb (is_any f4)
  then bool_decide (day d ∈ dom) || weekday_matches
  else bool_decide (day d ∈ dom) && weekday_matches.

Fixpoint search_days (offsets : list Z) (after : Z) (f2 f4 : string) (hours minutes : list Z) (dom months dow : gset Z) :
    option (result Z Invalid) :=
  match offsets with
  | [] => Some (Err ImpossibleDate)
  | offset :: offsets =>
      let d := date_naive after + offset in
      if max_day <? d then Some (Err ImpossibleDate)
      else if negb (bool_decide (month d ∈ months)) || negb (day_matches f2 f4 dom dow d)
      then search_days offsets after f2 f4 hours minutes dom months dow
      else
        r ← first_time d hours minutes after;
        match r with
        | Some at_ => Some (Ok at_)
        | None => search_days offsets after f2 f4 hours minutes dom months dow
        end
  end.

Definition SEARCH_DAYS : Z := 366 * 8.

(** [None] is a panic. *)
Definition next_start (schedule : string) (after : Z) : option (result Z Invalid) :=
  match validate schedule with
  | Err e => Some (Err e)
  | Ok _ =>
      match split_whitespace schedule with
      | [f0; f1; f2; f3; f4] =>
          search_days (seqZ 0 (SEARCH_DAYS + 1)) after f2 f4 (sorted_values (parse_field f1 0 23))
            (sorted_values (parse_field f0 0 59)) (parse_field f2 1 31) (parse_field f3 1 12) (parse_field f4 0 7)
      | _ => None
      end
  end.

(** ** Missed starts *)

Inductive MissedError : Type :=
| TooMany (n : Z)
| TooFarBehind.

(** [DateTime + Duration] and [DateTime - Duration] panic out of range. *)
Definition in_range (t : Z) : option Z :=
  if (min_day <=? date_naive t) && (date_naive t <=? max_day) then Some t else None.

Fixpoint walk_minutes (fuel : nat) (schedule : string) (t end_ : Z) (out : list Z) : option (result (list Z) MissedError) :=
  match fuel with
  | O => None
  | S fuel =>
      if t <=? end_ then
        let out := if matches schedule t then (out ++ [t])%list else out in
        if matches schedule t && (TOO_MANY_MISSED <? Z.of_nat (List.length out))
        then Some (Err (TooMany (Z.of_nat (List.length out))))
        else t' ← in_range (t + MINUTE); walk_minutes fuel schedule t' end_ out
      else Some (Ok out)
  end.

Definition WALK_FUEL : nat := Z.to_nat (MAX_LOOKBACK_DAYS * 24 * 60 + 2).

Definition missed_starts (schedule : string) (since now : Z) : option (result (list Z) MissedError) :=
  if now <? since then Some (Ok [])
  else if MAX_LOOKBACK_DAYS * DAY <? now - since then Some (Err TooFarBehind)
  else t ← in_range (trunc_minute since + MINUTE); walk_minutes WALK_FUEL schedule t (trunc_minute now) [].

(** [Duration::seconds] panics past its own range, [i64::MAX] milliseconds. *)
Definition duration_seconds (s : Z) : option Z :=
  if (- (i64_max / 1000) <=? s) && (s <=? i64_max / 1000) then Some (s * SECOND) else None.

Definition start_to_run (schedule : string) (last_schedule : option Z) (created now : Z) (starting_deadline_secs : option Z) :
    option (result (option Z) MissedError) :=
  let since := default created last_schedule in
  since ← match starting_deadline_secs with
          | Some deadline =>
              d ← duration_seconds deadline;
              earliest ← in_range (now - d);
              Some (if since <? earliest then earliest else since)
          | None => Some since
          end;
  r ← missed_starts schedule since now;
  Some (match r with Ok starts => Ok (list.last starts) | Err e => Err e end).

End Schedules.

(** ** The calendar's recurrences *)

Definition days_before (y m : Z) : Z :=
  nth (Z.to_nat (m - 1)) [0; 31; 59; 90; 120; 151; 181; 212; 243; 273; 304; 334; 365] 0 + (if leap y && (2 <? m) then 1 else 0).

(** The day of the year, from 0, and the length of a year. *)
Definition day_of_year (y m d : Z) : Z := days_before y m + d - 1.
Definition year_length (y : Z) : Z := if leap y then 366 else 365.

Lemma days_before_succ y m : 1 ≤ m ≤ 12 → days_before y (m + 1) = days_before y m + days_in_month y m.
Proof.
  intros Hm. assert (m = 1 ∨ m = 2 ∨ m = 3 ∨ m = 4 ∨ m = 5 ∨ m = 6 ∨ m = 7 ∨ m = 8 ∨ m = 9 ∨ m = 10 ∨ m = 11 ∨ m = 12) by lia.
  unfold days_before, days_in_month. destruct (leap y); destruct_or!; by subst m.
Qed.
Lemma days_before_end y : days_before y 13 = year_length y.
Proof. unfold days_before, year_length. by destruct (leap y). Qed.
Lemma days_in_month_bounds y m : 28 ≤ days_in_month y m ≤ 31.
Proof. unfold days_in_month. repeat case_match; lia. Qed.

Lemma days_before_mono y m m' : 1 ≤ m → m < m' → m' ≤ 13 → days_before y m + days_in_month y m ≤ days_before y m'.
Proof.
  intros H1 Hlt H2. rewrite <- days_before_succ by lia.
  assert (∀ k : nat, m + 1 + Z.of_nat k ≤ 13 → days_before y (m + 1) ≤ days_before y (m + 1 + Z.of_nat k)) as Hk.
  { induction k as [|k IH]; intros Hb; [by replace (m + 1 + Z.of_nat 0) with (m + 1) by lia|].
    replace (m + 1 + Z.of_nat (S k)) with (m + 1 + Z.of_nat k + 1) by lia.
    rewrite (days_before_succ y (m + 1 + Z.of_nat k)) by lia. pose proof (days_in_month_bounds y (m + 1 + Z.of_nat k)). specialize (IH ltac:(lia)). lia. }
  specialize (Hk (Z.to_nat (m' - (m + 1)))). replace (m + 1 + Z.of_nat (Z.to_nat (m' - (m + 1)))) with m' in Hk by lia. lia.
Qed.

Lemma day_of_year_bounds y m d : valid_date y m d → 0 ≤ day_of_year y m d < year_length y.
Proof.
  intros [Hm Hd]. unfold day_of_year. rewrite <- days_before_end.
  pose proof (days_before_mono y m 13 ltac:(lia) ltac:(lia) ltac:(lia)).
  assert (days_before y 1 = 0) as H1 by (unfold days_before; by destruct (leap y)).
  destruct (decide (m = 1)) as [->|]; [lia|]. pose proof (days_before_mono y 1 m ltac:(lia) ltac:(lia) ltac:(lia)).
  pose proof (days_in_month_bounds y 1). lia.
Qed.

Lemma day_of_year_inj y m d m' d' :
  valid_date y m d → valid_date y m' d' → day_of_year y m d = day_of_year y m' d' → m = m' ∧ d = d'.
Proof.
  unfold day_of_year. intros [Hm Hd] [Hm' Hd'] E.
  destruct (Z.lt_trichotomy m m') as [Hlt|[->|Hlt]]; [|lia|].
  - pose proof (days_before_mono y m m' ltac:(lia) ltac:(lia) ltac:(lia)). lia.
  - pose proof (days_before_mono y m' m ltac:(lia) ltac:(lia) ltac:(lia)). lia.
Qed.

(** A day later is the next day of the year, or the first of the next one. *)
Lemma next_date_doy y m d :
  valid_date y m d →
  (day_of_year y m d + 1 < year_length y ∧
   ∃ m' d', next_date (y, m, d) = (y, m', d') ∧ valid_date y m' d' ∧ day_of_year y m' d' = day_of_year y m d + 1)
  ∨ (day_of_year y m d + 1 = year_length y ∧ next_date (y, m, d) = (y + 1, 1, 1)).
Proof.
  intros Hv. pose proof Hv as [Hm Hd]. unfold next_date. destruct (Z.ltb_spec d (days_in_month y m)).
  - left. assert (valid_date y m (d + 1)) as Hv' by (split; lia). pose proof (day_of_year_bounds _ _ _ Hv') as Hb.
    unfold day_of_year in *. split; [lia|]. exists m, (d + 1). split_and!; [done|done|lia].
  - pose proof (days_before_succ y m ltac:(lia)) as Hs. destruct (Z.ltb_spec m 12).
    + left. assert (valid_date y (m + 1) 1) as Hv' by (pose proof (days_in_month_bounds y (m + 1)); split; lia).
      pose proof (day_of_year_bounds _ _ _ Hv') as Hb. unfold day_of_year in *. split; [lia|].
      exists (m + 1), 1. split_and!; [done|done|lia].
    + right. assert (m = 12) as -> by lia. change (12 + 1) with 13 in Hs. rewrite days_before_end in Hs.
      unfold day_of_year. split; [lia|done].
Qed.

Lemma leap_mod y i : leap (y + i) = leap (y mod 400 + i).
Proof.
  unfold leap. pose proof (Z.div_mod y 400 ltac:(lia)) as Hy. set (q := y / 400) in *. set (r := y mod 400) in *.
  assert (∀ c e, 400 = c * e → c ≠ 0 → (y + i) mod c = (r + i) mod c) as Hc.
  { intros c e Hce Hc. rewrite Hy. replace (400 * q + r + i) with (r + i + (e * q) * c) by (rewrite Hce; ring).
    by rewrite Z_mod_plus_full. }
  by rewrite (Hc 4 100), (Hc 100 4), (Hc 400 1) by lia.
Qed.

(** A leap year follows any year within eight, within seven of one that is none. *)
Definition next_leap (r j : Z) : bool :=
  leap (r + j) && forallb (λ i, negb (leap (r + i))) (seqZ 1 (j - 1)) && (leap r || (j <=? 7)).

Lemma leap_within y :
  ∃ j, 1 ≤ j ≤ 8 ∧ leap (y + j) = true ∧ (∀ i, 1 ≤ i < j → leap (y + i) = false) ∧ (leap y = false → j ≤ 7).
Proof.
  assert (forallb (λ r, existsb (next_leap r) (seqZ 1 8)) (seqZ 0 400) = true) as Hall by (vm_compute; reflexivity).
  rewrite forallb_forall in Hall.
  assert (0 ≤ y mod 400 < 400) as Hr by (apply Z.mod_pos_bound; lia).
  specialize (Hall (y mod 400)). rewrite <- list_elem_of_In, elem_of_seqZ in Hall. specialize (Hall ltac:(lia)).
  apply existsb_exists in Hall as (j & Hj & Hl). rewrite <- list_elem_of_In, elem_of_seqZ in Hj.
  unfold next_leap in Hl. apply andb_true_iff in Hl as [[Hl Hn]%andb_true_iff Hs]. exists j. split_and!; [lia|lia| | |].
  - by rewrite leap_mod.
  - intros i Hi. rewrite leap_mod. rewrite forallb_forall in Hn. specialize (Hn i).
    rewrite <- list_elem_of_In, elem_of_seqZ in Hn. specialize (Hn ltac:(lia)). by apply negb_true_iff.
  - rewrite <- (Z.add_0_r y), leap_mod, Z.add_0_r. intros Hf. rewrite Hf in Hs. cbn in Hs. lia.
Qed.

Section Calendar.
  Context `{ChronoLaws}.

(** [k] days on, within the year. *)
Lemma date_in_year n y m d k :
  min_day ≤ n → n + k ≤ max_day → 0 ≤ k → date n = (y, m, d) → valid_date y m d → day_of_year y m d + k < year_length y →
  ∃ m' d', date (n + k) = (y, m', d') ∧ valid_date y m' d' ∧ day_of_year y m' d' = day_of_year y m d + k.
Proof.
  intros Hn Hk Hpos Hd Hv. revert k Hpos Hk. apply (natlike_ind (λ k, n + k ≤ max_day → _ → _)).
  - intros _ _. rewrite !Z.add_0_r. by exists m, d.
  - intros k Hpos IH Hk Hy. destruct IH as (m1 & d1 & E & Hv1 & Ed); [lia|lia|].
    replace (n + Z.succ k) with (n + k + 1) by lia. rewrite date_succ, E by lia.
    destruct (next_date_doy y m1 d1 Hv1) as [(_ & m' & d' & -> & Hv' & E')|[He _]]; [|lia].
    exists m', d'. split_and!; [done|done|lia].
Qed.

Lemma date_reach n y m d m' d' :
  date n = (y, m, d) → valid_date y m d → valid_date y m' d' → day_of_year y m d ≤ day_of_year y m' d' →
  min_day ≤ n → n + (day_of_year y m' d' - day_of_year y m d) ≤ max_day →
  date (n + (day_of_year y m' d' - day_of_year y m d)) = (y, m', d').
Proof.
  intros Hd Hv Hv' Hle Hn Hk. pose proof (day_of_year_bounds y m' d' Hv').
  destruct (date_in_year n y m d (day_of_year y m' d' - day_of_year y m d)) as (m1 & d1 & E & Hv1 & Ed); [lia..|done|done|lia|].
  destruct (day_of_year_inj y m1 d1 m' d' Hv1 Hv') as [-> ->]; [lia|done].
Qed.

(** New Year's Day of the next year. *)
Lemma date_new_year n y m d :
  date n = (y, m, d) → valid_date y m d → min_day ≤ n → n + (year_length y - day_of_year y m d) ≤ max_day →
  date (n + (year_length y - day_of_year y m d)) = (y + 1, 1, 1).
Proof.
  intros Hd Hv Hn Hk. pose proof (day_of_year_bounds y m d Hv).
  destruct (date_in_year n y m d (year_length y - day_of_year y m d - 1)) as (m1 & d1 & E & Hv1 & Ed); [lia..|done|done|lia|].
  replace (n + (year_length y - day_of_year y m d)) with (n + (year_length y - day_of_year y m d - 1) + 1) by lia.
  rewrite date_succ, E by lia. destruct (next_date_doy y m1 d1 Hv1) as [(? & _)|[_ ->]]; [lia|done].
Qed.

Lemma valid_first y : valid_date y 1 1.
Proof. split; [lia|]. pose proof (days_in_month_bounds y 1). lia. Qed.
Lemma first_doy y : day_of_year y 1 1 = 0.
Proof. unfold day_of_year, days_before. by destruct (leap y). Qed.

(** [j] years without a 29 February on. *)
Lemma date_years n y j :
  date n = (y, 1, 1) → 0 ≤ j → (∀ i, 0 ≤ i < j → leap (y + i) = false) → min_day ≤ n → n + 365 * j ≤ max_day →
  date (n + 365 * j) = (y + j, 1, 1).
Proof.
  intros Hd Hpos Hl Hn. revert j Hpos Hl. apply (natlike_ind (λ j, (∀ i, 0 ≤ i < j → _) → n + 365 * j ≤ max_day → _)).
  - intros _ _. replace (n + 365 * 0) with n by lia. by rewrite Z.add_0_r.
  - intros j Hpos IH Hl Hk. specialize (IH ltac:(intros; apply Hl; lia) ltac:(lia)).
    pose proof (date_new_year _ _ _ _ IH (valid_first _)) as E. rewrite first_doy in E. unfold year_length in E.
    rewrite (Hl j) in E by lia. replace (n + 365 * Z.succ j) with (n + 365 * j + (365 - 0)) by lia.
    rewrite E by lia. f_equal. f_equal. lia.
Qed.

(** Every date of the calendar comes again within 2921 days. *)
Definition RECURRENCE : Z := 2921.

Lemma date_eta n : date n = (year n, month n, day n).
Proof. done. Qed.

Lemma recur_every_year n y m d m' d' :
  min_day ≤ n → n + RECURRENCE ≤ max_day → date n = (y, m, d) → valid_date y m d →
  valid_date y m' d' → valid_date (y + 1) m' d' →
  ∃ k, 1 ≤ k ≤ RECURRENCE ∧ month (n + k) = m' ∧ day (n + k) = d'.
Proof.
  unfold RECURRENCE. intros Hn Hk Hd Hv Hv' Hv1. pose proof (day_of_year_bounds _ _ _ Hv) as Hb.
  pose proof (day_of_year_bounds _ _ _ Hv') as Hb'. pose proof (day_of_year_bounds _ _ _ Hv1) as Hb1.
  assert (∀ x, year_length x ≤ 366) as Hl by (intros x; unfold year_length; case_match; lia).
  pose proof (Hl y). pose proof (Hl (y + 1)). destruct (Z.lt_ge_cases (day_of_year y m d) (day_of_year y m' d')).
  - exists (day_of_year y m' d' - day_of_year y m d). split; [lia|].
    pose proof (date_reach n y m d m' d' Hd Hv Hv' ltac:(lia) Hn ltac:(lia)) as E. by injection E as _ -> ->.
  - pose proof (date_new_year n y m d Hd Hv Hn ltac:(lia)) as E.
    pose proof (date_reach _ _ _ _ m' d' E (valid_first _) Hv1) as E2. rewrite first_doy in E2.
    specialize (E2 ltac:(lia) ltac:(lia) ltac:(lia)).
    exists (year_length y - day_of_year y m d + day_of_year (y + 1) m' d'). split; [lia|].
    replace (n + (year_length y - day_of_year y m d + day_of_year (y + 1) m' d'))
      with (n + (year_length y - day_of_year y m d) + (day_of_year (y + 1) m' d' - 0)) by lia.
    by injection E2 as _ -> ->.
Qed.

Lemma leap_day y : leap y = true → valid_date y 2 29 ∧ day_of_year y 2 29 = 59.
Proof. intros E. split; [split; [lia|]; unfold days_in_month; by rewrite E|unfold day_of_year, days_before; by rewrite E]. Qed.

Lemma recur_leap_day n y m d :
  min_day ≤ n → n + RECURRENCE ≤ max_day → date n = (y, m, d) → valid_date y m d →
  ∃ k, 1 ≤ k ≤ RECURRENCE ∧ month (n + k) = 2 ∧ day (n + k) = 29.
Proof.
  unfold RECURRENCE. intros Hn Hk Hd Hv. pose proof (day_of_year_bounds _ _ _ Hv) as Hb.
  destruct (decide (leap y = true ∧ day_of_year y m d < 59)) as [[Hl Hlt]|Hno].
  - destruct (leap_day y Hl) as [Hv' Ed]. exists (59 - day_of_year y m d). split; [lia|].
    pose proof (date_reach n y m d 2 29 Hd Hv Hv' ltac:(lia) Hn ltac:(lia)) as E. rewrite Ed in E. by injection E as _ -> ->.
  - destruct (leap_within y) as (j & Hj & Hl & Hi & H7). destruct (leap_day _ Hl) as [Hv' Ed].
    set (k0 := year_length y - day_of_year y m d).
    assert (k0 + 365 * (j - 1) + 59 ≤ 2921) as Hb2.
    { unfold k0, year_length in *. destruct (leap y) eqn:Ey; [|specialize (H7 eq_refl); lia].
      assert (¬ day_of_year y m d < 59) by (intros ?; by apply Hno). lia. }
    assert (1 ≤ k0) by (unfold k0; lia).
    pose proof (date_new_year n y m d Hd Hv Hn ltac:(unfold k0 in *; lia)) as E1. fold k0 in E1.
    pose proof (date_years (n + k0) (y + 1) (j - 1) E1 ltac:(lia)) as E2.
    replace (y + 1 + (j - 1)) with (y + j) in E2 by lia.
    specialize (E2 ltac:(intros i Hi'; replace (y + 1 + i) with (y + (1 + i)) by lia; apply Hi; lia) ltac:(lia) ltac:(lia)).
    pose proof (date_reach _ _ _ _ 2 29 E2 (valid_first _) Hv') as E3. rewrite first_doy, Ed in E3.
    specialize (E3 ltac:(lia) ltac:(lia) ltac:(lia)). exists (k0 + 365 * (j - 1) + 59). split; [lia|].
    replace (n + (k0 + 365 * (j - 1) + 59)) with (n + k0 + 365 * (j - 1) + (59 - 0)) by lia. by injection E3 as _ -> ->.
Qed.

Lemma date_recurs n y0 m' d' :
  min_day ≤ n → n + RECURRENCE ≤ max_day → valid_date y0 m' d' →
  ∃ k, 1 ≤ k ≤ RECURRENCE ∧ month (n + k) = m' ∧ day (n + k) = d'.
Proof.
  intros Hn Hk [Hm Hd']. assert (min_day ≤ n ≤ max_day) as Hr by (unfold RECURRENCE in *; lia).
  pose proof (date_valid n Hr) as Hv.
  destruct (decide (m' = 2 ∧ d' = 29)) as [[-> ->]|Hno]; [by eapply recur_leap_day|].
  assert (∀ y, valid_date y m' d') as Hall.
  { intros y. split; [done|]. unfold days_in_month in *. destruct (Z.eqb_spec m' 2); [|done]. repeat case_match; lia. }
  eapply recur_every_year; eauto using date_eta.
Qed.

Lemma weekday_add n k : 0 ≤ k → num_days_from_sunday (n + k) = (num_days_from_sunday n + k) mod 7.
Proof.
  revert k. apply natlike_ind.
  - rewrite !Z.add_0_r. pose proof (sunday_range n). by rewrite Z.mod_small.
  - intros k Hpos IH. replace (n + Z.succ k) with (n + k + 1) by lia. rewrite sunday_succ, IH.
    rewrite Zplus_mod_idemp_l. f_equal. lia.
Qed.

(** A month has every day of the week in its first seven days. *)
Lemma weekday_in_month n m w :
  min_day ≤ n → n + RECURRENCE + 6 ≤ max_day → 1 ≤ m ≤ 12 → 0 ≤ w < 7 →
  ∃ k, 1 ≤ k ≤ RECURRENCE + 6 ∧ month (n + k) = m ∧ num_days_from_sunday (n + k) = w.
Proof.
  intros Hn Hk Hm Hw. destruct (date_recurs n 2024 m 1) as (k & Hk1 & Em & Ed); [lia|lia| |].
  { split; [lia|]. pose proof (days_in_month_bounds 2024 m). lia. }
  set (j := (w - num_days_from_sunday (n + k)) mod 7). assert (0 ≤ j < 7) as Hj by (apply Z.mod_pos_bound; lia).
  exists (k + j). split; [lia|]. replace (n + (k + j)) with (n + k + j) by lia. split.
  - pose proof (days_in_month_bounds (year (n + k)) m) as Hb.
    destruct (date_in_year (n + k) (year (n + k)) m 1 j) as (m1 & d1 & E & Hv1 & Ey); [unfold RECURRENCE in *; lia..| | | |].
    + by rewrite date_eta, Em, Ed.
    + split; lia.
    + pose proof (day_of_year_bounds (year (n + k)) m (1 + j)) as Hd. unfold valid_date in Hd. unfold day_of_year in *. lia.
    + destruct (day_of_year_inj (year (n + k)) m1 d1 m (1 + j) Hv1) as [-> ->].
      * split; lia.
      * unfold day_of_year in *. lia.
      * by injection E as _ -> _.
  - rewrite weekday_add by lia. unfold j. rewrite Zplus_mod_idemp_r.
    replace (num_days_from_sunday (n + k) + (w - num_days_from_sunday (n + k))) with w by lia. by apply Z.mod_small.
Qed.
End Calendar.

(** ** Fields *)

Lemma take_steps_mono fuel v last step min out x : x ∈ out → x ∈ take_steps fuel v last step min out.
Proof.
  revert v out. induction fuel as [|fuel IH]; intros v out Hx; cbn [take_steps]; [done|].
  repeat case_match; try done; apply IH; set_solver.
Qed.

Lemma take_steps_range fuel v last step min out x :
  x ∈ take_steps fuel v last step min out → x ∈ out ∨ min ≤ x ≤ last.
Proof.
  revert v out. induction fuel as [|fuel IH]; intros v out; cbn [take_steps]; [by left|].
  destruct (Z.leb_spec v last); [|by left]. intros [Hx|Hx]%IH; [|by right].
  destruct (Z.leb_spec min v); [|by left]. set_unfold. destruct Hx as [->|Hx]; [right; lia|by left].
Qed.

(** A part is its arithmetic progression, when its step does not wrap around. *)
Lemma take_steps_exact fuel v last step min out x :
  0 ≤ v → 0 < step → last + step ≤ u32_max → last - v < Z.of_nat fuel →
  x ∈ take_steps fuel v last step min out ↔ x ∈ out ∨ (min ≤ x ≤ last ∧ ∃ k, 0 ≤ k ∧ x = v + k * step).
Proof.
  unfold u32_max. intros Hv Hs Hm. revert v out Hv. induction fuel as [|fuel IH]; intros v out Hv Hf; cbn [take_steps].
  { split; [by left|]. intros [?|(? & k & ? & ->)]; [done|nia]. }
  destruct (Z.leb_spec v last) as [Hle|Hgt].
  - unfold wrap32. rewrite Z.mod_small by lia. rewrite IH by lia. destruct (Z.leb_spec min v) as [Hmin|Hmin].
    + rewrite elem_of_union, elem_of_singleton. split.
      * intros [[->|Hx]|(Hx & k & Hk & ->)]; [right; split; [lia|exists 0; lia]|by left|right; split; [lia|]].
        exists (k + 1). lia.
      * intros [Hx|(Hx & k & Hk & ->)]; [by left; right|]. destruct (decide (k = 0)) as [->|]; [left; left; lia|].
        right. split; [lia|]. exists (k - 1). lia.
    + split; (intros [Hx|(Hx & k & Hk & ->)]; [by left|right; split; [lia|]]).
      * exists (k + 1). lia.
      * destruct (decide (k = 0)) as [->|]; [lia|]. exists (k - 1). lia.
  - split; [by left|]. intros [?|(? & k & ? & ->)]; [done|nia].
Qed.

Lemma parse_field_range field min max x : x ∈ parse_field field min max → min ≤ x ≤ max.
Proof.
  unfold parse_field. assert (∀ out, (∀ y, y ∈ out → min ≤ y ≤ max) →
    x ∈ fold_left (add_part min max) (split_on "," field) out → min ≤ x ≤ max) as Hg; [|apply Hg; set_solver].
  induction (split_on "," field) as [|part l IH]; intros out Hout; cbn [fold_left]; [apply Hout|].
  apply IH. intros y. unfold add_part. destruct (parse_part part min max) as [[[lo hi] step]|]; [|apply Hout].
  intros [Hy|Hy]%take_steps_range; [by apply Hout|lia].
Qed.

Definition any_set (min max : Z) : gset Z := list_to_set (seqZ min (max - min + 1)).

Lemma parse_field_any field min max :
  is_any field = true → 0 ≤ min → max < 1000 → parse_field field min max = any_set min max.
Proof.
  intros Ha Hmin Hmax. assert (split_on "," field = [field] ∧ parse_part field min max = Some (min, max, 1)) as [Es Ep].
  { unfold is_any in Ha. apply orb_true_iff in Ha as [E%str_eqb_eq|E%str_eqb_eq]; by subst. }
  apply set_eq. intros x. unfold parse_field, any_set. rewrite Es. cbn [fold_left]. unfold add_part. rewrite Ep.
  rewrite elem_of_list_to_set, elem_of_seqZ. unfold u32_max. destruct (decide (min ≤ max)) as [Hle|].
  - rewrite Z.min_id, take_steps_exact by (unfold u32_max; lia). split.
    + intros [?|(? & _)]; [set_solver|lia].
    + intros. right. split; [lia|]. exists (x - min). lia.
  - split; [|lia]. intros [?|?]%take_steps_range; [set_solver|lia].
Qed.

(** A field read as one part: [*/n], [a-b], [a-b/n]. *)
Lemma parse_field_part field lo hi step min max x :
  split_on "," field = [field] → parse_part field min max = Some (lo, hi, step) →
  0 ≤ lo → 0 < step → 0 ≤ max → max + step ≤ u32_max →
  x ∈ parse_field field min max ↔ min ≤ x ≤ Z.min hi max ∧ ∃ k, 0 ≤ k ∧ x = lo + k * step.
Proof.
  intros Es Ep Hlo Hs H0 Hm. unfold parse_field. rewrite Es. cbn [fold_left]. unfold add_part. rewrite Ep.
  rewrite take_steps_exact by lia. set_solver.
Qed.

(** A step close to [2^32] wraps around and counts down. *)
Example wrapped_step : parse_field "5/4294967295" 0 59 = {[0; 1; 2; 3; 4; 5]}.
Proof. vm_compute. reflexivity. Qed.

(** ** Instants *)

Definition instant (d h m : Z) : Z := d * DAY + h * HOUR + m * MINUTE.
Definition on_minute (t : Z) : Prop := t mod MINUTE = 0.

Lemma instant_parts d h m :
  0 ≤ h < 24 → 0 ≤ m < 60 →
  date_naive (instant d h m) = d ∧ hour_of (instant d h m) = h ∧ minute_of (instant d h m) = m ∧ on_minute (instant d h m).
Proof.
  unfold instant, date_naive, hour_of, minute_of, on_minute, DAY, HOUR, MINUTE, SECOND. intros Hh Hm.
  split_and!; Z.to_euclidean_division_equations; lia.
Qed.

Lemma on_minute_instant t :
  on_minute t → t = instant (date_naive t) (hour_of t) (minute_of t) ∧ 0 ≤ hour_of t < 24 ∧ 0 ≤ minute_of t < 60.
Proof.
  unfold instant, date_naive, hour_of, minute_of, on_minute, DAY, HOUR, MINUTE, SECOND. intros H.
  split_and!; Z.to_euclidean_division_equations; lia.
Qed.

Lemma instant_lt d h m d' h' m' :
  0 ≤ h < 24 → 0 ≤ m < 60 → 0 ≤ h' < 24 → 0 ≤ m' < 60 →
  instant d h m < instant d' h' m' ↔ d < d' ∨ (d = d' ∧ (h < h' ∨ (h = h' ∧ m < m'))).
Proof. unfold instant, DAY, HOUR, MINUTE, SECOND. lia. Qed.

(** ** The search *)

Lemma sorted_values_spec s : StronglySorted Z.le (sorted_values s) ∧ ∀ x, x ∈ sorted_values s ↔ x ∈ s.
Proof.
  split; [apply StronglySorted_merge_sort; typeclasses eauto|]. intros x. unfold sorted_values.
  by rewrite merge_sort_Permutation, elem_of_elements.
Qed.

(** The first of a day's candidate times after [after]. *)
Definition earliest (cand : Z → Prop) (after : Z) (r : option Z) : Prop :=
  match r with
  | Some t => cand t ∧ after < t ∧ ∀ t', cand t' → after < t' → t ≤ t'
  | None => ∀ t', cand t' → t' ≤ after
  end.

Lemma first_minute_spec d h minutes after :
  0 ≤ h < 24 → StronglySorted Z.le minutes → Forall (λ m, 0 ≤ m < 60) minutes →
  ∃ r, first_minute d h minutes after = Some r ∧ earliest (λ t, ∃ m, m ∈ minutes ∧ t = instant d h m) after r.
Proof.
  intros Hh. induction minutes as [|m minutes IH]; intros Hs Hf; cbn [first_minute].
  { exists None. split; [done|]. intros t' (? & []%elem_of_nil & _). }
  apply StronglySorted_inv in Hs as [Hs Hle]. apply Forall_cons in Hf as [Hm Hf]. unfold at_time.
  replace ((h <? 24) && (m <? 60)) with true by (symmetry; apply andb_true_iff; split; lia). cbn [mbind option_bind].
  change (d * DAY + h * HOUR + m * MINUTE) with (instant d h m).
  destruct (Z.ltb_spec after (instant d h m)) as [Hlt|Hge].
  - exists (Some (instant d h m)). split; [done|]. split_and!; [exists m; split; [left|done]|done|].
    intros t' (m' & [->|Hm']%elem_of_cons & ->) _; [done|]. rewrite List.Forall_forall in Hle.
    specialize (Hle m' (proj1 (list_elem_of_In _ _) Hm')). unfold instant, MINUTE, SECOND. lia.
  - destruct (IH Hs Hf) as (r & E & Hr). exists r. split; [done|]. destruct r as [t|].
    + destruct Hr as ((m' & Hm' & ->) & Ha & Hall). split_and!; [exists m'; split; [by right|done]|done|].
      intros t' (m1 & [->|Hm1]%elem_of_cons & ->) Ht; [lia|]. apply Hall; [by exists m1|done].
    + intros t' (m1 & [->|Hm1]%elem_of_cons & ->); [done|]. apply Hr. by exists m1.
Qed.

Lemma first_time_spec d hours minutes after :
  StronglySorted Z.le hours → Forall (λ h, 0 ≤ h < 24) hours →
  StronglySorted Z.le minutes → Forall (λ m, 0 ≤ m < 60) minutes →
  ∃ r, first_time d hours minutes after = Some r ∧
    earliest (λ t, ∃ h m, h ∈ hours ∧ m ∈ minutes ∧ t = instant d h m) after r.
Proof.
  intros Hsh Hfh Hs Hf. induction hours as [|h hours IH]; cbn [first_time].
  { exists None. split; [done|]. intros t' (? & ? & []%elem_of_nil & _). }
  apply StronglySorted_inv in Hsh as [Hsh Hle]. apply Forall_cons in Hfh as [Hh Hfh].
  rewrite List.Forall_forall in Hle.
  destruct (first_minute_spec d h minutes after Hh Hs Hf) as (r & -> & Hr). cbn [mbind option_bind].
  destruct r as [t|].
  - exists (Some t). split; [done|]. destruct Hr as ((m & Hm & ->) & Ha & Hall).
    split_and!; [exists h, m; split_and!; [left|done|done]|done|].
    intros t' (h1 & m1 & Hh1 & Hm1 & ->) Ht. apply elem_of_cons in Hh1 as [->|Hh1]; [apply Hall; [by exists m1|done]|].
    specialize (Hle h1 (proj1 (list_elem_of_In _ _) Hh1)). rewrite Forall_forall in Hf. pose proof (Hf m Hm). pose proof (Hf m1 Hm1).
    destruct (decide (h = h1)) as [->|]; [apply Hall; [by exists m1|done]|]. cbn beta in *. unfold instant, HOUR, MINUTE, SECOND. lia.
  - destruct (IH Hsh Hfh) as (r & -> & Hr'). exists r. split; [by destruct r|]. destruct r as [t|].
    + destruct Hr' as ((h1 & m1 & Hh1 & Hm1 & ->) & Ha & Hall). split_and!; [exists h1, m1; split_and!; [by right|done|done]|done|].
      intros t' (h2 & m2 & [->|Hh2]%elem_of_cons & Hm2 & ->) Ht; [|apply Hall; [by exists h2, m2|done]].
      exfalso. assert (instant d h m2 ≤ after) by (apply Hr; by exists m2). lia.
    + intros t' (h2 & m2 & [->|Hh2]%elem_of_cons & Hm2 & ->); [apply Hr; by exists m2|apply Hr'; by exists h2, m2].
Qed.

Section Next.
  Context `{ChronoLaws}.

(** What the two day rules agree on. *)
Definition fits (f2 f4 : string) (dom months dow : gset Z) (d : Z) : bool :=
  bool_decide (month d ∈ months) && day_matches f2 f4 dom dow d.

Lemma matches_fits f0 f1 f2 f3 f4 schedule t :
  split_whitespace schedule = [f0; f1; f2; f3; f4] →
  matches schedule t = true ↔
  minute_of t ∈ parse_field f0 0 59 ∧ hour_of t ∈ parse_field f1 0 23 ∧
  fits f2 f4 (parse_field f2 1 31) (parse_field f3 1 12) (parse_field f4 0 7) (date_naive t) = true.
Proof.
  intros E. unfold matches, fits, day_matches. rewrite E, monday_sunday.
  pose proof (sunday_range (date_naive t)) as Hr. set (w := num_days_from_sunday (date_naive t)) in *.
  assert ((if (if w =? 0 then 7 else w) =? 7 then 0 else if w =? 0 then 7 else w) = w) as ->.
  { destruct (Z.eqb_spec w 0) as [->|]; [done|]. destruct (Z.eqb_spec w 7); lia. }
  repeat case_bool_decide; cbn [negb orb andb]; naive_solver.
Qed.

Definition candidate (offsets : list Z) (after : Z) (fit : Z → bool) (hours minutes : list Z) (t : Z) : Prop :=
  ∃ offset h m, offset ∈ offsets ∧ date_naive after + offset ≤ max_day ∧ fit (date_naive after + offset) = true ∧
    h ∈ hours ∧ m ∈ minutes ∧ t = instant (date_naive after + offset) h m.

Lemma search_days_spec offsets after f2 f4 hours minutes dom months dow :
  StronglySorted Z.lt offsets → StronglySorted Z.le hours → Forall (λ h, 0 ≤ h < 24) hours →
  StronglySorted Z.le minutes → Forall (λ m, 0 ≤ m < 60) minutes →
  let cand := candidate offsets after (fits f2 f4 dom months dow) hours minutes in
  (∃ t, search_days offsets after f2 f4 hours minutes dom months dow = Some (Ok t) ∧ earliest cand after (Some t)) ∨
  (search_days offsets after f2 f4 hours minutes dom months dow = Some (Err ImpossibleDate) ∧ earliest cand after None).
Proof.
  intros Hso Hsh Hfh Hs Hf. induction offsets as [|o offsets IH]; cbn [search_days].
  { right. split; [done|]. intros t' (? & ? & ? & []%elem_of_nil & _). }
  apply StronglySorted_inv in Hso as [Hso Hlt]. rewrite List.Forall_forall in Hlt.
  assert (∀ o', o' ∈ offsets → o < o') as Hlt' by (intros o' Ho; apply Hlt; by apply list_elem_of_In). clear Hlt.
  set (d := date_naive after + o). specialize (IH Hso).
  destruct (Z.ltb_spec max_day d) as [Hmax|Hmax].
  { right. split; [done|]. intros t' (o' & h & m & [->|Ho]%elem_of_cons & Hb & _); [unfold d in *; lia|].
    specialize (Hlt' o' Ho). unfold d in *. lia. }
  assert (∀ r, earliest (candidate offsets after (fits f2 f4 dom months dow) hours minutes) after r →
    (∀ t', fits f2 f4 dom months dow d = true → (∃ h m, h ∈ hours ∧ m ∈ minutes ∧ t' = instant d h m) → t' ≤ after) →
    earliest (candidate (o :: offsets) after (fits f2 f4 dom months dow) hours minutes) after r) as Hskip.
  { intros [t|] Hr Hd.
    - destruct Hr as ((o' & h & m & Ho & Hx) & Ha & Hall). split_and!; [exists o', h, m; split; [by right|done]|done|].
      intros t' (o1 & h1 & m1 & [->|Ho1]%elem_of_cons & ? & ? & ? & ? & ->) Ht.
      + exfalso. fold d in Ht. assert (instant d h1 m1 ≤ after); [|lia]. apply Hd; [done|]. by exists h1, m1.
      + apply Hall; [|done]. by exists o1, h1, m1.
    - intros t' (o1 & h1 & m1 & [->|Ho1]%elem_of_cons & ? & ? & ? & ? & ->); [apply Hd; [done|by exists h1, m1]|].
      apply Hr. by exists o1, h1, m1. }
  destruct (negb (bool_decide (month d ∈ months)) || negb (day_matches f2 f4 dom dow d)) eqn:Ef.
  - assert (fits f2 f4 dom months dow d = false) as Hn
      by (unfold fits; by destruct (bool_decide _), (day_matches _ _ _ _ _)).
    destruct IH as [(t & -> & Hr)|[-> Hr]]; [left; exists t|right]; (split; [done|]); apply Hskip; try done; congruence.
  - assert (fits f2 f4 dom months dow d = true) as Hy
      by (unfold fits; by destruct (bool_decide _), (day_matches _ _ _ _ _)).
    destruct (first_time_spec d hours minutes after Hsh Hfh Hs Hf) as (r & -> & Hr). cbn [mbind option_bind].
    destruct r as [t|].
    + left. exists t. split; [done|]. destruct Hr as ((h & m & Hh & Hm & ->) & Ha & Hall).
      split_and!; [exists o, h, m; split_and!; [left|done..]|done|].
      intros t' (o1 & h1 & m1 & [->|Ho1]%elem_of_cons & ? & ? & ? & ? & ->) Ht; [apply Hall; [by exists h1, m1|done]|].
      rewrite Forall_forall in Hfh, Hf. pose proof (Hfh h Hh). pose proof (Hf m Hm). pose proof (Hfh h1 ltac:(done)).
      pose proof (Hf m1 ltac:(done)). specialize (Hlt' o1 Ho1). cbn beta in *.
      unfold d, instant, DAY, HOUR, MINUTE, SECOND. lia.
    + destruct IH as [(t & -> & Hr')|[-> Hr']]; [left; exists t|right]; (split; [done|]); apply Hskip; auto.
Qed.

(** ** Validation *)

Lemma first_empty_None fields sp :
  first_empty fields sp = None → ∀ i f name lo hi, fields !! i = Some f → sp !! i = Some (name, lo, hi) → parse_field f lo hi ≠ ∅.
Proof.
  revert sp. induction fields as [|f fields IH]; intros [|[[n l] h] sp]; cbn; try (intros _ [|i]; done).
  case_bool_decide; [done|]. intros Hn [|i] f' name lo hi; [by intros [= <-] [= <- <- <-]|]. exact (IH sp Hn i f' name lo hi).
Qed.

Lemma set_inhabited (s : gset Z) : s ≠ ∅ → ∃ x, x ∈ s.
Proof. intros Hs. apply set_choose_L in Hs. done. Qed.

Lemma days_in_month_leap y m : days_in_month y m ≤ days_in_month 2024 m.
Proof. unfold days_in_month. change (leap 2024) with true. cbv iota. repeat case_match; lia. Qed.

Lemma possible_spec days months :
  possible days months = true ↔ ∃ y m d, m ∈ months ∧ d ∈ days ∧ valid_date y m d.
Proof.
  unfold possible. rewrite existsb_exists. split.
  - intros (y & Hy & (m & _ & [Hm%bool_decide_eq_true (d & _ & [Hd%bool_decide_eq_true Hv%bool_decide_eq_true]%andb_true_iff)%existsb_exists]%andb_true_iff)%existsb_exists).
    exists y, m, d. apply list_elem_of_In, elem_of_seqZ in Hy. apply ymd_opt in Hv; [done|lia].
  - intros (y & m & d & Hm & Hd & [Hv1 Hv2]). exists 2024. split; [apply list_elem_of_In, elem_of_seqZ; lia|].
    pose proof (days_in_month_leap y m). pose proof (days_in_month_bounds 2024 m).
    apply existsb_exists. exists m. split; [apply list_elem_of_In, elem_of_seqZ; lia|].
    apply andb_true_iff. split; [by apply bool_decide_eq_true|]. apply existsb_exists. exists d.
    split; [apply list_elem_of_In, elem_of_seqZ; lia|]. apply andb_true_iff. split; apply bool_decide_eq_true; [done|].
    apply ymd_opt; [lia|]. split; lia.
Qed.

Lemma validate_Ok schedule :
  validate schedule = Ok tt →
  ∃ f0 f1 f2 f3 f4, split_whitespace schedule = [f0; f1; f2; f3; f4] ∧
    parse_field f0 0 59 ≠ ∅ ∧ parse_field f1 0 23 ≠ ∅ ∧ parse_field f2 1 31 ≠ ∅ ∧ parse_field f3 1 12 ≠ ∅ ∧
    parse_field f4 0 7 ≠ ∅ ∧ (is_any f2 = false → possible (parse_field f2 1 31) (parse_field f3 1 12) = true).
Proof.
  unfold validate. destruct (split_whitespace schedule) as [|f0 [|f1 [|f2 [|f3 [|f4 [|]]]]]]; try done.
  destruct (first_empty _ _) eqn:Ee; [done|]. pose proof (first_empty_None _ _ Ee) as Hn. clear Ee.
  destruct (negb (is_any f2) && _) eqn:Ep; [done|]. intros _. exists f0, f1, f2, f3, f4. split_and!; [done|..].
  - by eapply (Hn 0%nat).
  - by eapply (Hn 1%nat).
  - by eapply (Hn 2%nat).
  - by eapply (Hn 3%nat).
  - by eapply (Hn 4%nat).
  - intros E. rewrite E in Ep. cbn in Ep. by apply negb_false_iff.
Qed.

(** A satisfiable day comes within the days the search covers, after today. *)
Lemma fit_within n f2 f4 f3 :
  min_day ≤ n → n + SEARCH_DAYS ≤ max_day →
  parse_field f2 1 31 ≠ ∅ → parse_field f3 1 12 ≠ ∅ → parse_field f4 0 7 ≠ ∅ →
  (is_any f2 = false → possible (parse_field f2 1 31) (parse_field f3 1 12) = true) →
  ∃ k, 1 ≤ k ≤ SEARCH_DAYS ∧
    fits f2 f4 (parse_field f2 1 31) (parse_field f3 1 12) (parse_field f4 0 7) (n + k) = true.
Proof.
  unfold SEARCH_DAYS. intros Hn Hmax H2 H3 H4 Hp. destruct (is_any f2) eqn:E2.
  - destruct (set_inhabited _ H3) as [m Hm]. destruct (set_inhabited _ H4) as [v Hv].
    pose proof (parse_field_range _ _ _ _ Hm) as Hm'. pose proof (parse_field_range _ _ _ _ Hv) as Hv'.
    destruct (weekday_in_month n m (v mod 7)) as (k & Hk & Em & Ew); [lia|unfold RECURRENCE; lia|lia|apply Z.mod_pos_bound; lia|].
    unfold RECURRENCE in Hk. exists k. split; [lia|]. unfold fits, day_matches. rewrite Em, Ew, E2, bool_decide_eq_true_2 by done.
    cbn [negb andb]. rewrite (parse_field_any f2) by (done || lia).
    assert (min_day ≤ n + k ≤ max_day) as Hr by lia. destruct (date_valid (n + k) Hr) as [_ Hd].
    pose proof (days_in_month_bounds (year (n + k)) (month (n + k))).
    rewrite bool_decide_eq_true_2 by (unfold any_set; rewrite elem_of_list_to_set, elem_of_seqZ; lia). cbn [andb].
    destruct (decide (v = 7)) as [->|]; [|rewrite Z.mod_small by lia; by rewrite bool_decide_eq_true_2].
    change (7 mod 7) with 0. rewrite (bool_decide_eq_true_2 (7 ∈ _)) by done. by rewrite orb_true_r.
  - destruct (proj1 (possible_spec _ _) (Hp eq_refl)) as (y & m & d & Hm & Hd & Hv).
    destruct (date_recurs n y m d) as (k & Hk & Em & Ed); [lia|unfold RECURRENCE; lia|done|].
    unfold RECURRENCE in Hk. exists k. split; [lia|]. unfold fits, day_matches. rewrite Em, Ed, E2, !bool_decide_eq_true_2 by done.
    cbn [negb andb orb]. destruct (is_any f4) eqn:E4; [|done]. cbn [negb]. rewrite (parse_field_any f4) by (done || lia).
    pose proof (sunday_range (n + k)).
    by rewrite bool_decide_eq_true_2 by (unfold any_set; rewrite elem_of_list_to_set, elem_of_seqZ; lia).
Qed.

Lemma seqZ_sorted k n : StronglySorted Z.lt (seqZ k n).
Proof.
  destruct (Z.lt_ge_cases n 0); [rewrite seqZ_nil by lia; constructor|].
  revert n H1 k. apply (natlike_ind (λ n, ∀ k, _)); [intros k; rewrite seqZ_nil by lia; constructor|].
  intros n Hn IH k. rewrite seqZ_cons by lia. rewrite Z.pred_succ. constructor; [apply IH|].
  apply List.Forall_forall. intros x Hx%list_elem_of_In%elem_of_seqZ. lia.
Qed.

Lemma field_values field lo hi :
  StronglySorted Z.le (sorted_values (parse_field field lo hi)) ∧
  Forall (λ x, lo ≤ x ≤ hi) (sorted_values (parse_field field lo hi)).
Proof.
  destruct (sorted_values_spec (parse_field field lo hi)) as [H1' H2']. split; [done|].
  apply Forall_forall. intros x Hx%H2'. by eapply parse_field_range.
Qed.

(** The next start of a schedule.  A schedule that validates always has one,
    whatever instant is asked about: the search of eight years never fails and
    never panics, 29 February across a century without one included; the start
    is after the instant, the schedule fires then, and at no whole minute in
    between. *)
Theorem next_start_exact schedule after :
  validate schedule = Ok tt → min_day ≤ date_naive after → date_naive after + SEARCH_DAYS ≤ max_day →
  ∃ t, next_start schedule after = Some (Ok t) ∧ after < t ∧ on_minute t ∧ matches schedule t = true ∧
    ∀ t', after < t' → t' < t → on_minute t' → matches schedule t' = false.
Proof.
  intros Hv Hmin Hmax. unfold next_start. rewrite Hv.
  destruct (validate_Ok schedule Hv) as (f0 & f1 & f2 & f3 & f4 & Es & N0 & N1 & N2 & N3 & N4 & Hp). rewrite Es.
  destruct (field_values f1 0 23) as [Hsh Hfh]. destruct (field_values f0 0 59) as [Hsm Hfm].
  assert (Forall (λ h, 0 ≤ h < 24) (sorted_values (parse_field f1 0 23))) as Hfh' by (eapply Forall_impl; [exact Hfh|]; cbn; lia).
  assert (Forall (λ m, 0 ≤ m < 60) (sorted_values (parse_field f0 0 59))) as Hfm' by (eapply Forall_impl; [exact Hfm|]; cbn; lia).
  destruct (search_days_spec (seqZ 0 (SEARCH_DAYS + 1)) after f2 f4 _ _ (parse_field f2 1 31) (parse_field f3 1 12) (parse_field f4 0 7)
    (seqZ_sorted _ _) Hsh Hfh' Hsm Hfm') as [(t & Et & Hc & Ha & Hfirst)|[_ Hnone]].
  - exists t. split; [done|]. destruct Hc as (o & h & m & Ho & Hle & Hfit & Hh & Hm & ->). rewrite Forall_forall in Hfh', Hfm'.
    destruct (instant_parts (date_naive after + o) h m (Hfh' _ Hh) (Hfm' _ Hm)) as (Ed & Eh & Em & Eo).
    split_and!; [done|done| |].
    + apply (matches_fits f0 f1 f2 f3 f4 schedule _ Es). rewrite Ed, Eh, Em. split_and!; [| |done]; by apply sorted_values_spec.
    + intros t' H1 H2 Ho'. destruct (matches schedule t') eqn:E; [|done].
      apply (matches_fits f0 f1 f2 f3 f4 schedule t' Es) in E as (Hm' & Hh' & Hf').
      destruct (on_minute_instant t' Ho') as (Ei & Hr1 & Hr2). assert (instant (date_naive after + o) h m ≤ t'); [|lia].
      apply Hfirst; [|done]. exists (date_naive t' - date_naive after), (hour_of t'), (minute_of t').
      assert (date_naive after ≤ date_naive t' ≤ date_naive after + o).
      { rewrite <- Ed. split; apply Z.div_le_mono; unfold DAY, HOUR, MINUTE, SECOND; lia. }
      replace (date_naive after + (date_naive t' - date_naive after)) with (date_naive t') by lia.
      apply elem_of_seqZ in Ho. split_and!; [apply elem_of_seqZ; lia|lia|done|by apply sorted_values_spec..|done].
  - exfalso. destruct (fit_within (date_naive after) f2 f4 f3) as (k & Hk & Hfit); [done..|].
    destruct (set_inhabited _ N1) as [h Hh]. destruct (set_inhabited _ N0) as [m Hm].
    pose proof (parse_field_range _ _ _ _ Hh). pose proof (parse_field_range _ _ _ _ Hm).
    assert (instant (date_naive after + k) h m ≤ after) as Hle.
    { apply Hnone. exists k, h, m. split_and!; [apply elem_of_seqZ; lia|lia|done|by apply sorted_values_spec..|done]. }
    revert Hle. unfold instant, date_naive, DAY, HOUR, MINUTE, SECOND. Z.to_euclidean_division_equations; lia.
Qed.

(** A schedule that is refused never fires, unless both its day fields are
    restricted: they are then a union, and one may fire without the other. *)
Lemma refused_never_fires schedule e f0 f1 f2 f3 f4 t :
  split_whitespace schedule = [f0; f1; f2; f3; f4] → is_any f2 = true ∨ is_any f4 = true →
  validate schedule = Err e → min_day ≤ date_naive t ≤ max_day → matches schedule t = false.
Proof.
  intros Es Hany Hv Hr. destruct (matches schedule t) eqn:E; [exfalso|done].
  apply (matches_fits f0 f1 f2 f3 f4 schedule t Es) in E as (Hm & Hh & Hf). unfold fits, day_matches in Hf.
  apply andb_true_iff in Hf as [Hmon%bool_decide_eq_true Hf].
  replace (negb (is_any f2) && negb (is_any f4)) with false in Hf
    by (by destruct Hany as [-> | ->]; destruct (is_any _)).
  apply andb_true_iff in Hf as [Hd%bool_decide_eq_true Hw].
  assert (parse_field f4 0 7 ≠ ∅) as H4.
  { intros E. rewrite E in Hw. rewrite !bool_decide_eq_false_2 in Hw by set_solver. by rewrite andb_false_r in Hw. }
  assert (possible (parse_field f2 1 31) (parse_field f3 1 12) = true) as Hp.
  { apply possible_spec. exists (year (date_naive t)), (month (date_naive t)), (day (date_naive t)).
    split_and!; [done|done|by apply date_valid]. }
  unfold validate in Hv. rewrite Es in Hv. cbn [first_empty specs] in Hv.
  rewrite !bool_decide_eq_false_2 in Hv by (try done; set_solver). rewrite Hp, andb_false_r in Hv. done.
Qed.

(** ** Missed starts *)

Definition minutes_from (t : Z) (n : Z) : list Z := (λ i, t + i * MINUTE) <$> seqZ 0 n.

(** The whole minutes after [since] and up to [now] the schedule fires at. *)
Definition starts_between (schedule : string) (since now : Z) : list Z :=
  List.filter (matches schedule)
    (minutes_from (trunc_minute since + MINUTE) ((trunc_minute now - trunc_minute since) / MINUTE)).

Lemma minutes_from_cons t n : 0 < n → minutes_from t n = t :: minutes_from (t + MINUTE) (n - 1).
Proof.
  intros Hn. unfold minutes_from. rewrite seqZ_cons by lia. cbn [fmap list_fmap]. f_equal; [lia|].
  replace (seqZ (Z.succ 0) (Z.pred n)) with (Z.add 1 <$> seqZ 0 (n - 1)) by (rewrite fmap_add_seqZ; f_equal; lia).
  rewrite <- list_fmap_compose. apply list_fmap_ext. intros i x _. cbn. lia.
Qed.

Definition capped (l : list Z) : result (list Z) MissedError :=
  if Z.of_nat (List.length l) <=? TOO_MANY_MISSED then Ok l else Err (TooMany (TOO_MANY_MISSED + 1)).

Lemma date_mono t t' : t ≤ t' → date_naive t ≤ date_naive t'.
Proof. intros. apply Z.div_le_mono; unfold DAY, HOUR, MINUTE, SECOND; lia. Qed.

Lemma walk_minutes_spec schedule n : ∀ fuel t out,
  (n < fuel)%nat → Z.of_nat (List.length out) ≤ TOO_MANY_MISSED →
  min_day ≤ date_naive t → date_naive (t + Z.of_nat n * MINUTE) ≤ max_day →
  walk_minutes fuel schedule t (t + (Z.of_nat n - 1) * MINUTE) out
    = Some (capped (out ++ List.filter (matches schedule) (minutes_from t (Z.of_nat n)))%list).
Proof.
  unfold TOO_MANY_MISSED. induction n as [|n IH]; intros [|fuel] t out Hfuel Hlen Hmin Hmax; try lia; cbn [walk_minutes].
  - destruct (Z.leb_spec t (t + (Z.of_nat 0 - 1) * MINUTE)) as [Hle|_]; [unfold MINUTE, SECOND in *; lia|].
    unfold minutes_from. cbn [seqZ Z.to_nat seq fmap list_fmap List.filter]. rewrite app_nil_r.
    unfold capped, TOO_MANY_MISSED. destruct (Z.leb_spec (Z.of_nat (List.length out)) 100); [done|lia].
  - destruct (Z.leb_spec t (t + (Z.of_nat (S n) - 1) * MINUTE)) as [_|Hgt]; [|unfold MINUTE, SECOND in *; lia].
    rewrite minutes_from_cons by lia. replace (Z.of_nat (S n) - 1) with (Z.of_nat n) by lia. cbn [List.filter].
    assert (in_range (t + MINUTE) = Some (t + MINUTE)) as Hr.
    { unfold in_range. pose proof (date_mono t (t + MINUTE) ltac:(unfold MINUTE, SECOND; lia)).
      pose proof (date_mono (t + MINUTE) (t + Z.of_nat (S n) * MINUTE) ltac:(unfold MINUTE, SECOND; lia)).
      destruct (Z.leb_spec min_day (date_naive (t + MINUTE))), (Z.leb_spec (date_naive (t + MINUTE)) max_day); (done || lia). }
    replace (t + Z.of_nat n * MINUTE) with (t + MINUTE + (Z.of_nat n - 1) * MINUTE) by ring.
    assert (∀ out', Z.of_nat (List.length out') ≤ 100 →
      walk_minutes fuel schedule (t + MINUTE) (t + MINUTE + (Z.of_nat n - 1) * MINUTE) out'
      = Some (capped (out' ++ List.filter (matches schedule) (minutes_from (t + MINUTE) (Z.of_nat n)))%list)) as IH'.
    { intros out' Ho. apply IH; [lia|done| |].
      - pose proof (date_mono t (t + MINUTE) ltac:(unfold MINUTE, SECOND; lia)). lia.
      - replace (t + MINUTE + Z.of_nat n * MINUTE) with (t + Z.of_nat (S n) * MINUTE) by lia. done. }
    unfold TOO_MANY_MISSED. destruct (matches schedule t) eqn:Em; cbn [andb].
    + replace (out ++ t :: List.filter (matches schedule) (minutes_from (t + MINUTE) (Z.of_nat n)))%list
        with ((out ++ [t]) ++ List.filter (matches schedule) (minutes_from (t + MINUTE) (Z.of_nat n)))%list by by rewrite <- app_assoc.
      destruct (Z.ltb_spec 100 (Z.of_nat (List.length (out ++ [t])))) as [Hover|Hok].
      * rewrite length_app in Hover. cbn [List.length] in Hover. unfold capped, TOO_MANY_MISSED. rewrite !length_app. cbn [List.length].
        destruct (Z.leb_spec (Z.of_nat (List.length out + 1 + List.length (List.filter (matches schedule) (minutes_from (t + MINUTE) (Z.of_nat n))))) 100); [lia|].
        do 3 f_equal. lia.
      * rewrite Hr. cbn [mbind option_bind]. by rewrite IH'.
    + rewrite Hr. cbn [mbind option_bind]. by rewrite IH'.
Qed.

Lemma cron_sorted_filter (R : Z → Z → Prop) p l : StronglySorted R l → StronglySorted R (List.filter p l).
Proof.
  induction 1 as [|x l _ IH Hx]; cbn; [constructor|]. destruct (p x); [|done]. constructor; [done|].
  apply List.Forall_forall. intros y [Hy _]%List.filter_In. by eapply List.Forall_forall.
Qed.

Lemma trunc_minute_spec t : trunc_minute t ≤ t < trunc_minute t + MINUTE ∧ on_minute (trunc_minute t).
Proof. unfold trunc_minute, on_minute, MINUTE, SECOND. split; Z.to_euclidean_division_equations; lia. Qed.

Lemma missed_starts_spec schedule since now :
  since ≤ now → now - since ≤ MAX_LOOKBACK_DAYS * DAY → min_day ≤ date_naive since → date_naive (now + MINUTE) ≤ max_day →
  missed_starts schedule since now = Some (capped (starts_between schedule since now)).
Proof.
  intros Hle Hwin Hmin Hmax. unfold missed_starts. destruct (Z.ltb_spec now since); [lia|].
  destruct (Z.ltb_spec (MAX_LOOKBACK_DAYS * DAY) (now - since)); [lia|].
  destruct (trunc_minute_spec since) as [Hs Hso]. destruct (trunc_minute_spec now) as [Hn Hno].
  set (n := (trunc_minute now - trunc_minute since) / MINUTE).
  assert (trunc_minute now = trunc_minute since + n * MINUTE ∧ 0 ≤ n ∧ n ≤ MAX_LOOKBACK_DAYS * 24 * 60 + 1) as (En & H0n & Hnb).
  { unfold n, on_minute, MAX_LOOKBACK_DAYS, DAY, HOUR, MINUTE, SECOND in *. Z.to_euclidean_division_equations; lia. }
  pose proof (date_mono since (trunc_minute since + MINUTE) ltac:(lia)).
  pose proof (date_mono (trunc_minute since + MINUTE) (now + MINUTE) ltac:(lia)).
  unfold in_range. destruct (Z.leb_spec min_day (date_naive (trunc_minute since + MINUTE))); [|lia].
  destruct (Z.leb_spec (date_naive (trunc_minute since + MINUTE)) max_day); [|lia]. cbn [andb mbind option_bind].
  replace (trunc_minute now) with (trunc_minute since + MINUTE + (Z.of_nat (Z.to_nat n) - 1) * MINUTE) by (rewrite Z2Nat.id by lia; lia).
  rewrite walk_minutes_spec; [|unfold WALK_FUEL; lia|done|done|].
  - unfold starts_between. fold n. by rewrite Z2Nat.id by lia.
  - rewrite Z2Nat.id by lia. pose proof (date_mono (trunc_minute since + MINUTE + n * MINUTE) (now + MINUTE) ltac:(lia)). lia.
Qed.

Lemma starts_between_elem schedule since now t :
  since ≤ now → t ∈ starts_between schedule since now ↔ since < t ≤ now ∧ on_minute t ∧ matches schedule t = true.
Proof.
  intros Hle. unfold starts_between. rewrite elem_of_filter_b. unfold minutes_from.
  destruct (trunc_minute_spec since) as [Hs Hso]. destruct (trunc_minute_spec now) as [Hn Hno].
  set (n := (trunc_minute now - trunc_minute since) / MINUTE). rewrite list_elem_of_fmap.
  assert (trunc_minute now = trunc_minute since + n * MINUTE ∧ 0 ≤ n) as (En & H0n).
  { unfold n, on_minute, MINUTE, SECOND in *. Z.to_euclidean_division_equations; lia. }
  split.
  - intros [(i & -> & Hi%elem_of_seqZ) Hm]. split_and!; [..|done].
    + unfold MINUTE, SECOND in *. lia.
    + unfold MINUTE, SECOND in *. lia.
    + unfold on_minute in *. replace (trunc_minute since + MINUTE + i * MINUTE) with (trunc_minute since + (1 + i) * MINUTE) by ring.
      by rewrite Z_mod_plus_full.
  - intros (Ht & Ho & Hm). split; [|done]. exists ((t - trunc_minute since) / MINUTE - 1).
    unfold on_minute, MINUTE, SECOND in *. split; [|apply elem_of_seqZ]; Z.to_euclidean_division_equations; lia.
Qed.

(** The window a deadline leaves. *)
Definition window (last_schedule : option Z) (created now : Z) (deadline : option Z) : Z :=
  let since := default created last_schedule in
  match deadline with Some d => Z.max since (now - d * SECOND) | None => since end.

(** Catching up.  When no more than a hundred starts were missed in a window
    of at most a week, the start acted on is the latest one the schedule fires
    at, after the last run, not older than the starting deadline and not in the
    future, if there is one; with more, none is.  It never panics. *)
Theorem start_to_run_latest schedule last_schedule created now deadline :
  let since := window last_schedule created now deadline in
  since ≤ now → now - since ≤ MAX_LOOKBACK_DAYS * DAY →
  min_day ≤ date_naive (default created last_schedule) → date_naive (now + MINUTE) ≤ max_day →
  (∀ d, deadline = Some d → 0 ≤ d ≤ i64_max / 1000 ∧ min_day ≤ date_naive (now - d * SECOND)) →
  ∃ r, start_to_run schedule last_schedule created now deadline = Some r ∧
    match r with
    | Ok (Some t) => since < t ≤ now ∧ on_minute t ∧ matches schedule t = true ∧
        ∀ t', t < t' ≤ now → on_minute t' → matches schedule t' = false
    | Ok None => ∀ t', since < t' ≤ now → on_minute t' → matches schedule t' = false
    | Err e => e = TooMany (TOO_MANY_MISSED + 1) ∧
        TOO_MANY_MISSED < Z.of_nat (List.length (starts_between schedule since now))
    end.
Proof.
  intros since Hle Hwin Hmin Hmax Hdl. unfold start_to_run.
  assert (match deadline with
          | Some d => d0 ← duration_seconds d; e ← in_range (now - d0);
                      Some (if default created last_schedule <? e then e else default created last_schedule)
          | None => Some (default created last_schedule)
          end = Some since) as ->.
  { unfold since, window. destruct deadline as [d|]; [|done]. destruct (Hdl d eq_refl) as [Hd Hd2]. unfold duration_seconds.
    destruct (Z.leb_spec (- (i64_max / 1000)) d); [|lia]. destruct (Z.leb_spec d (i64_max / 1000)); [|lia].
    cbn [andb mbind option_bind]. unfold in_range.
    pose proof (date_mono (now - d * SECOND) (now + MINUTE) ltac:(unfold MINUTE, SECOND; lia)).
    destruct (Z.leb_spec min_day (date_naive (now - d * SECOND))); [|lia].
    destruct (Z.leb_spec (date_naive (now - d * SECOND)) max_day); [|lia]. cbn [andb mbind option_bind].
    destruct (Z.ltb_spec (default created last_schedule) (now - d * SECOND)); f_equal; lia. }
  cbn [mbind option_bind]. assert (min_day ≤ date_naive since) as Hms.
  { pose proof (date_mono (default created last_schedule) since) as Hd.
    etrans; [exact Hmin|apply Hd]. unfold since, window. destruct deadline; lia. }
  rewrite missed_starts_spec by done. cbn [mbind option_bind]. eexists. split; [reflexivity|]. unfold capped.
  destruct (Z.leb_spec (Z.of_nat (List.length (starts_between schedule since now))) TOO_MANY_MISSED) as [Hb|Hb]; [|done].
  pose proof (starts_between_elem schedule since now) as Hel.
  destruct (list.last (starts_between schedule since now)) as [t|] eqn:El.
  - apply last_Some in El as [l El]. assert (t ∈ starts_between schedule since now) as Ht by (rewrite El; set_solver).
    apply Hel in Ht as (H1 & H2 & H3); [|done]. split_and!; [lia|lia|done|done|]. intros t' Ht' Ho'.
    destruct (matches schedule t') eqn:E; [|done]. exfalso.
    assert (t' ∈ starts_between schedule since now) as Hin by (apply Hel; [done|]; split_and!; [lia|lia|done|done]).
    assert (StronglySorted Z.lt (starts_between schedule since now)) as Hss.
    { unfold starts_between, minutes_from. apply cron_sorted_filter, (StronglySorted_fmap _ Z.lt); [|apply seqZ_sorted].
      intros x y. unfold MINUTE, SECOND. lia. }
    rewrite El in Hss, Hin. apply elem_of_app in Hin as [Hin|Hin%list_elem_of_singleton]; [|lia].
    pose proof (StronglySorted_app_1_elem_of _ l [t] t' t Hss Hin) as Hlt. specialize (Hlt ltac:(set_solver)). lia.
  - apply last_None in El. intros t' Ht' Ho'. destruct (matches schedule t') eqn:E; [|done]. exfalso.
    assert (t' ∈ starts_between schedule since now) as Hin by (apply Hel; [done|]; split_and!; [lia|lia|done|done]).
    rewrite El in Hin. by apply elem_of_nil in Hin.
Qed.
End Next.

(** ** The Gregorian calendar *)

Module Gregorian.

(** Days from 1 March of the year 0, in eras of 400 years; the range covers the
    years 1896 to 1904. *)
Definition ERA : Z := 146097.
Definition year_of_era (doe : Z) : Z := (doe - doe / 1460 + doe / 36524 - doe / 146096) / 365.
Definition civil (n : Z) : Z * Z * Z :=
  let era := n / ERA in
  let doe := n mod ERA in
  let yoe := year_of_era doe in
  let doy := doe - (365 * yoe + yoe / 4 - yoe / 100) in
  let mp := (5 * doy + 2) / 153 in
  let d := doy - (153 * mp + 2) / 5 + 1 in
  let m := if mp <? 10 then mp + 3 else mp - 9 in
  (yoe + era * 400 + (if m <=? 2 then 1 else 0), m, d).

Definition valid_b (y m d : Z) : bool := (1 <=? m) && (m <=? 12) && (1 <=? d) && (d <=? days_in_month y m).

#[local] Instance chrono : Chrono := {|
  year n := (civil n).1.1;
  month n := (civil n).1.2;
  day n := (civil n).2;
  num_days_from_sunday n := (n + 3) mod 7;
  number_from_monday n := let w := (n + 3) mod 7 in if w =? 0 then 7 else w;
  from_ymd_opt y m d := if valid_b y m d then Some 0 else None;
  min_day := 692400;
  max_day := 695700 |}.

Definition eq3 (a b : Z * Z * Z) : bool := (a.1.1 =? b.1.1) && (a.1.2 =? b.1.2) && (a.2 =? b.2).

(** Every day of a range is a date, and the next day is the next date. *)
Definition day_ok (doe : Z) : bool :=
  let c := civil doe in valid_b c.1.1 c.1.2 c.2 && eq3 (civil (doe + 1)) (next_date c).

Fixpoint days_ok (n : nat) (doe : Z) : bool :=
  match n with O => true | S n => day_ok doe && days_ok n (doe + 1) end.

Lemma range_ok : days_ok 3400 692400 = true.
Proof. vm_compute. reflexivity. Qed.

Lemma days_ok_at n : ∀ doe k, days_ok n doe = true → doe ≤ k < doe + Z.of_nat n → day_ok k = true.
Proof.
  induction n as [|n IH]; intros doe k Ho Hk; [lia|]. cbn [days_ok] in Ho. apply andb_true_iff in Ho as [Hd Ho].
  destruct (decide (k = doe)) as [->|]; [done|]. apply (IH (doe + 1)); [done|lia].
Qed.

Lemma valid_b_spec y m d : valid_b y m d = true ↔ valid_date y m d.
Proof. unfold valid_b, valid_date. rewrite !andb_true_iff, !Z.leb_le. lia. Qed.

#[local] Instance laws : ChronoLaws.
Proof.
  split.
  - intros n Hn. cbn [min_day max_day year month day chrono] in *.
    assert (day_ok n = true) as Hok by (apply (days_ok_at _ _ _ range_ok); lia).
    unfold day_ok in Hok. apply andb_true_iff in Hok as [Hok _]. by apply valid_b_spec.
  - intros n Hn. unfold date. cbn [min_day max_day year month day chrono] in *.
    assert (day_ok n = true) as Hok by (apply (days_ok_at _ _ _ range_ok); lia).
    unfold day_ok in Hok. apply andb_true_iff in Hok as [_ Hok]. unfold eq3 in Hok.
    apply andb_true_iff in Hok as [[H1 H2]%andb_true_iff H3]. apply Z.eqb_eq in H1, H2, H3. rewrite H1, H2, H3.
    destruct (civil n) as [[y m] d]. cbn [fst snd]. by destruct (next_date (y, m, d)) as [[? ?] ?].
  - intros n. apply Z.mod_pos_bound. lia.
  - intros n. cbn [num_days_from_sunday chrono]. rewrite Zplus_mod_idemp_l. f_equal. lia.
  - done.
  - intros y m d _. cbn [from_ymd_opt chrono]. rewrite <- valid_b_spec. destruct (valid_b y m d); split; try done; by intros [? ?].
Qed.

(** 29 February at midnight, asked for on 1 March 1896: eight years on, 1900
    having none. *)
Definition march_1896 : Z := 692500 * DAY.

Lemma next_start_exact_witness :
  ∃ t, next_start "0 0 29 2 *" march_1896 = Some (Ok t) ∧ march_1896 < t ∧ matches "0 0 29 2 *" t = true.
Proof.
  destruct (next_start_exact "0 0 29 2 *" march_1896) as (t & E & Hlt & _ & Hm & _).
  - vm_compute. reflexivity.
  - vm_compute. discriminate.
  - vm_compute. discriminate.
  - exists t. split; [exact E|]. split; [exact Hlt|exact Hm].
Defined.

Example leap_day_date : date (date_naive march_1896) = (1896, 3, 1) ∧
  (r ← next_start "0 0 29 2 *" march_1896; match r with Ok t => Some (date (date_naive t)) | Err _ => None end)
    = Some (1904, 2, 29).
Proof. split; vm_compute; reflexivity. Qed.

(** Hourly, last run three hours ago, a deadline of 90 minutes: the latest of
    the missed starts. *)
Lemma start_to_run_latest_witness :
  start_to_run "0 * * * *" (Some (march_1896 + 9 * HOUR)) march_1896 (march_1896 + 12 * HOUR + 5 * MINUTE) (Some 5400)
    = Some (Ok (Some (march_1896 + 12 * HOUR))).
Proof.
  destruct (start_to_run_latest "0 * * * *" (Some (march_1896 + 9 * HOUR)) march_1896 (march_1896 + 12 * HOUR + 5 * MINUTE) (Some 5400))
    as (r & E & _).
  - vm_compute. discriminate.
  - vm_compute. discriminate.
  - vm_compute. discriminate.
  - vm_compute. discriminate.
  - intros d [= <-]. vm_compute. split; [split; discriminate|discriminate].
  - rewrite E. rewrite <- E. vm_compute. reflexivity.
Defined.
End Gregorian.
