(* ===== verification/CronJob.v ===== *)
(** * CronJobs ([pkg/controller-manager/src/cronjob.rs])

    One pass over a CronJob: the start that is owed, if any, is found from the
    schedule and the last one recorded ([Cron]); a Job is created for it as
    the concurrency policy allows, the start is recorded in the status, the
    history of finished Jobs is trimmed and the lifetime counters are written.
    The pass is a program over the API client; clock readings and texts of
    times are arguments.

    Proved: a pass creates one Job at most, only for a start later than the
    one recorded and not in the future, never beside an active one under
    [Forbid], and asks for that start to be recorded; once it is, no later
    pass acts on it again.  And what happens when the recording fails. *)

From Stdlib Require Import ZArith Lia String Ascii.
From stdpp Require Import base gmap strings numbers option list.
From S2P Require Import Prelude Text BTree Json F64 Backoff Client ReplicaSet Cron.
Open Scope string_scope.
Open Scope kube_scope.
Open Scope Z_scope.

Module CronJob.

Definition has_condition (ctype : string) (job : Value) : bool :=
  existsb (λ c, str_is c.["type"] ctype && str_is c.["status"] "True") (items job.["status"].["conditions"]).

Definition owned_jobs (uid : string) (jobs : list Value) : list Value :=
  List.filter (λ job, existsb (λ r, str_is r.["uid"] uid) (items job.["metadata"].["ownerReferences"])) jobs.

Definition successful (owned : list Value) : list Value := List.filter (has_condition "Complete") owned.
Definition unsuccessful (owned : list Value) : list Value :=
  List.filter (λ j, negb (has_condition "Complete" j) && has_condition "Failed" j) owned.
Definition active (owned : list Value) : list Value :=
  List.filter (λ j, negb (has_condition "Complete" j) && negb (has_condition "Failed" j)) owned.

Definition job_path (namespace : string) (job : Value) : string :=
  "/apis/batch/v1/namespaces/" ++ namespace ++ "/jobs/" ++ str_or "" job.["metadata"].["name"].

Fixpoint delete_jobs (namespace : string) (l : list Value) : Prog unit :=
  match l with
  | [] => Ret tt
  | job :: rest =>
      if is_empty_str (str_or "" job.["metadata"].["name"]) then delete_jobs namespace rest
      else _ <== api_delete_observed (job_path namespace job) job ;; delete_jobs namespace rest
  end.

(** [sort_by(|a, b| ta.cmp(tb))]: stable, oldest first. *)
Fixpoint insert_oldest (x : Value) (l : list Value) : list Value :=
  match l with
  | [] => [x]
  | y :: rest => if str_ltb (created y) (created x) then y :: insert_oldest x rest else x :: y :: rest
  end.
Definition oldest_first (l : list Value) : list Value := foldr insert_oldest [] l.

(** The Jobs that leave the history. *)
Definition pruned (jobs : list Value) (limit : nat) : list Value :=
  if (length jobs <=? limit)%nat then [] else take (length jobs - limit) (oldest_first jobs).

Definition cleanup_history (namespace : string) (jobs : list Value) (limit : nat) : Prog nat :=
  _ <== delete_jobs namespace (pruned jobs limit) ;; Ret (length jobs - limit)%nat.

(** The object a status PUT stored, if it did. *)
Definition written (resp : result Value ClientError) : option Value :=
  match resp with
  | Ok v => if negb (str_is v.["kind"] "Status") && is_string v.["metadata"].["resourceVersion"] then Some v else None
  | Err _ => None
  end.

Definition later (a : option string) (b : string) : option string :=
  match a with Some x => Some (if str_ltb b x then x else b) | None => Some b end.
Definition last_completion (jobs : list Value) : option string :=
  fold_left later (omap (λ j, as_str j.["status"].["completionTime"]) jobs) None.

Definition active_ref (namespace : string) (j : Value) : option Value :=
  match as_str j.["metadata"].["name"], as_str j.["metadata"].["uid"] with
  | Some name, Some uid =>
      Some (json_obj [("apiVersion", Str "batch/v1"); ("kind", Str "Job"); ("name", Str name); ("namespace", Str namespace); ("uid", Str uid)])
  | _, _ => None
  end.

(** The counters: what is retained and what was ever pruned. *)
Definition stats (prior : Value) (active retained_ok retained_bad pruned_ok pruned_bad : Z) : Value :=
  let ever_ok := wrap64 (default 0 (as_u64 prior.["prunedSucceeded"]) + pruned_ok) in
  let ever_bad := wrap64 (default 0 (as_u64 prior.["prunedFailed"]) + pruned_bad) in
  let succeeded := wrap64 (retained_ok + ever_ok) in
  let failed := wrap64 (retained_bad + ever_bad) in
  let total := wrap64 (succeeded + failed) in
  json_obj [("succeeded", Num (PosInt succeeded)); ("failed", Num (PosInt failed)); ("active", Num (PosInt active));
            ("prunedSucceeded", Num (PosInt ever_ok)); ("prunedFailed", Num (PosInt ever_bad));
            ("failureRate", Num (Float (if total =? 0 then f64_zero else f64_div (f64_of_Z failed) (f64_of_Z total))))].

Definition build_job (namespace name uid : string) (cj : Value) (timestamp : Z) : Value :=
  let template := cj.["spec"].["jobTemplate"] in
  json_obj [("apiVersion", Str "batch/v1"); ("kind", Str "Job");
    ("metadata", json_obj [("name", Str (name ++ "-" ++ show_z timestamp)); ("namespace", Str namespace);
       ("labels", template.["metadata"].["labels"]);
       ("ownerReferences", Array [json_obj [("apiVersion", Str "batch/v1"); ("kind", Str "CronJob"); ("name", Str name);
          ("uid", Str uid); ("controller", Bool true); ("blockOwnerDeletion", Bool true)]])]);
    ("spec", template.["spec"])].

Section Controller.
  Context `{Chrono}.
  (** RFC 3339 times as nanoseconds, the texts of times and errors. *)
  Variables (parse_rfc3339 : string → option Z) (format_time : Z → string) (show_time : Z → string) (show_missed : MissedError → string).
  (** The recorder's clock and identifiers. *)
  Variables (uuid_simple : nat → string) (instant : nat → Z) (stamp micro : nat → string) (host : string).

#[local] Notation event := (event uuid_simple instant stamp micro host "cronjob-controller").

Definition last_schedule (cj : Value) : option Z := as_str cj.["status"].["lastScheduleTime"] ≫= parse_rfc3339.
Definition created_at (cj : Value) (now : Z) : Z := default now (as_str cj.["metadata"].["creationTimestamp"] ≫= parse_rfc3339).

(** The start owed now; [None]: chrono panics. *)
Definition due (schedule : string) (cj : Value) (now : Z) : option (result (option Z) MissedError) :=
  start_to_run schedule (last_schedule cj) (created_at cj now) now (as_i64 cj.["spec"].["startingDeadlineSeconds"]).

Definition status_path (namespace name : string) : string := "/apis/batch/v1/namespaces/" ++ namespace ++ "/cronjobs/" ++ name.

Definition create_job (c : Ctx) (namespace name uid : string) (cj : Value) (timestamp : Z) : Prog Ctx :=
  r <== create (cx_pending c) ("/apis/batch/v1/namespaces/" ++ namespace ++ "/jobs") (build_job namespace name uid cj timestamp) ;;
  Ret (with_pending c r.1).

(** What the concurrency policy makes of a start. *)
Definition start (c : Ctx) (namespace name uid : string) (cj : Value) (active_jobs : list Value) (scheduled_for timestamp : Z) : Prog Ctx :=
  let concurrency := str_or "Allow" cj.["spec"].["concurrencyPolicy"] in
  if str_eqb concurrency "Forbid" then
    match active_jobs with
    | [] => create_job c namespace name uid cj timestamp
    | _ => event c cj "Normal" "MissSchedule"
             ("Skipped the " ++ show_time scheduled_for ++ " run: concurrencyPolicy is Forbid and "
              ++ show_u (Z.of_nat (length active_jobs)) ++ " job(s) are still active")
    end
  else if str_eqb concurrency "Replace" then
    _ <== delete_jobs namespace active_jobs ;;
    c <== create_job c namespace name uid cj timestamp ;;
    event c cj "Normal" "SuccessfulCreate" ("Replaced the running job and started the " ++ show_time scheduled_for ++ " run")
  else
    c <== create_job c namespace name uid cj timestamp ;;
    event c cj "Normal" "SuccessfulCreate" ("Started the job for the " ++ show_time scheduled_for ++ " run").

(** The status with the start recorded; [None] panics. *)
Definition mark (latest : Value) (namespace : string) (active_jobs successful_jobs : list Value) (scheduled_for : Z) : option Value :=
  u ← set_index2 latest "status" "lastScheduleTime" (Str (format_time scheduled_for));
  u ← set_index2 u "status" "active" (Array (omap (active_ref namespace) active_jobs));
  match last_completion successful_jobs with
  | Some t => set_index2 u "status" "lastSuccessfulTime" (Str t)
  | None => Some u
  end.

(** A status PUT: the base of the next write is what it stored. *)
Definition put_status (path : string) (latest updated : Value) : Prog Value :=
  resp <== api_update_status path updated ;; Ret (default latest (written resp)).

Definition requeue_at {R} (at_ : option (result Z Invalid)) (now : Z) (k : Prog R) : Prog R :=
  match at_ with
  | Some (Ok next) => if now <=? next then Tell (Requeue (next - now)) k else k
  | _ => k
  end.

Definition successful_limit (cj : Value) : nat := Z.to_nat (default 3 (as_u64 cj.["spec"].["successfulJobsHistoryLimit"])).
Definition failed_limit (cj : Value) : nat := Z.to_nat (default 1 (as_u64 cj.["spec"].["failedJobsHistoryLimit"])).

(** [write_stats]. *)
Definition write_stats (path : string) (cj : Value) (active retained_ok retained_bad pruned_ok pruned_bad : nat) : Prog (result unit string) :=
  match set_index2 cj "status" "storm.io/stats"
          (stats cj.["status"].["storm.io/stats"] (Z.of_nat active) (Z.of_nat retained_ok) (Z.of_nat retained_bad)
             (Z.of_nat pruned_ok) (Z.of_nat pruned_bad)) with
  | None => Ret (Err "panic")
  | Some updated => _ <== api_update_status path updated ;; Ret (Ok tt)
  end.

(** The end of every pass: the history is trimmed, the counters written. *)
Definition finish (c : Ctx) (namespace path : string) (cj : Value) (owned : list Value) (latest : Value) : Prog (Ctx * result unit string) :=
  ok <== cleanup_history namespace (successful owned) (successful_limit cj) ;;
  bad <== cleanup_history namespace (unsuccessful owned) (failed_limit cj) ;;
  r <== write_stats path latest (length (active owned)) (length (successful owned) - ok) (length (unsuccessful owned) - bad) ok bad ;;
  Ret (c, r).

Definition reconcile_cronjob (c : Ctx) (namespace : string) (cj : Value) (all_jobs : list Value) (now timestamp : Z) :
    Prog (Ctx * result unit string) :=
  match as_str cj.["metadata"].["name"], as_str cj.["spec"].["schedule"] with
  | None, _ => Ret (c, Err "cronjob missing name")
  | _, None => Ret (c, Err "cronjob missing schedule")
  | Some name, Some schedule =>
      let uid := str_or "" cj.["metadata"].["uid"] in
      if default false (as_bool cj.["spec"].["suspend"]) then Ret (c, Ok tt)
      else
        let owned := owned_jobs uid all_jobs in
        let active_jobs := active owned in
        let path := status_path namespace name in
        match next_start schedule now with
        | None => Ret (c, Err "panic")
        | at_ => requeue_at at_ now (
            match due schedule cj now with
            | None => Ret (c, Err "panic")
            | Some (Err e) =>
                c <== event c cj "Warning" "TooManyMissedTimes"
                        ("Cannot determine the missed start times (" ++ show_missed e ++ "); resuming from now. Set startingDeadlineSeconds to bound how far back the controller looks.") ;;
                match set_index2 cj "status" "lastScheduleTime" (Str (format_time now)) with
                | None => Ret (c, Err "panic")
                | Some updated => latest <== put_status path cj updated ;; finish c namespace path cj owned latest
                end
            | Some (Ok None) => finish c namespace path cj owned cj
            | Some (Ok (Some scheduled_for)) =>
                c <== start c namespace name uid cj active_jobs scheduled_for timestamp ;;
                match mark cj namespace active_jobs (successful owned) scheduled_for with
                | None => Ret (c, Err "panic")
                | Some updated => latest <== put_status path cj updated ;; finish c namespace path cj owned latest
                end
            end)
        end
  end.

(** [Controller::reconcile]. *)
Definition reconcile (c : Ctx) (object : Value) (children : list Value) (now timestamp : Z) : Prog (Ctx * result unit string) :=
  reconcile_cronjob c (str_or "default" object.["metadata"].["namespace"]) object children now timestamp.
End Controller.

End CronJob.
Import CronJob.

(** ** The start that is owed *)

Section Due.
  Context `{Chrono}.

Lemma in_range_Some t u : in_range t = Some u → u = t.
Proof. unfold in_range. destruct (_ && _); [by intros [= ->]|done]. Qed.

Lemma walk_minutes_elem fuel schedule end_ : ∀ t out l, walk_minutes fuel schedule t end_ out = Some (Ok l) →
  ∀ x, x ∈ l → x ∈ out ∨ (t ≤ x ≤ end_ ∧ matches schedule x = true).
Proof.
  induction fuel as [|fuel IH]; intros t out l; [done|]. cbn [walk_minutes]. destruct (t <=? end_) eqn:Et; [|intros [= <-]; by left].
  apply Z.leb_le in Et. cbn zeta. set (out' := if matches schedule t then _ else out).
  destruct (_ && _); [done|]. destruct (in_range (t + MINUTE)) as [t'|] eqn:Er; [|done]. apply in_range_Some in Er as ->. cbn.
  intros E x [Hx|[Hx Hm]]%(IH _ _ _ E); [|right; unfold MINUTE, SECOND in *; split; [lia|done]].
  subst out'. destruct (matches schedule t) eqn:Em; [|by left]. apply elem_of_app in Hx as [Hx|Hx%list_elem_of_singleton]; [by left|subst x].
  right. split; [lia|done].
Qed.

(** The start acted on is later than the one recorded and not in the future. *)
Lemma start_to_run_after schedule last created now deadline t :
  start_to_run schedule (Some last) created now deadline = Some (Ok (Some t)) → last < t ≤ now ∧ matches schedule t = true.
Proof.
  unfold start_to_run. cbn [default from_option]. intros E.
  assert (∃ since, last ≤ since ∧ missed_starts schedule since now ≫= (λ r, Some (match r with Ok starts => Ok (list.last starts) | Err e => Err e end))
    = Some (Ok (Some t))) as (since & Hs & E').
  { destruct deadline as [d|]; [|by exists last]. destruct (duration_seconds d) as [d'|]; [|done]. cbn in E.
    destruct (in_range (now - d')) as [e|]; [|done]. cbn in E. eexists. split; [|exact E]. destruct (last <? e) eqn:El; lia. }
  clear E. destruct (missed_starts schedule since now) as [[l|e]|] eqn:Em; [|done..]. cbn in E'. injection E' as El.
  assert (t ∈ l) as Hin by (apply last_Some_elem_of; done). clear El. unfold missed_starts in Em.
  destruct (now <? since); [injection Em as <-; by apply not_elem_of_nil in Hin|]. destruct (_ <? now - since); [done|].
  destruct (in_range _) as [t0|] eqn:Er; [|done]. apply in_range_Some in Er as ->. cbn in Em.
  destruct (walk_minutes_elem _ _ _ _ _ _ Em t Hin) as [[]%not_elem_of_nil|[Ht Hm]]. split; [|done].
  unfold trunc_minute, MINUTE, SECOND in *. pose proof (Z.mod_pos_bound since (60 * 1000000000)). pose proof (Z.mod_pos_bound now (60 * 1000000000)). lia.
Qed.
End Due.

(** ** What a pass asks for *)

Definition jobs_path (cj : Value) : string := "/apis/batch/v1/namespaces/" ++ namespace_of cj ++ "/jobs".

Lemma jobs_not_events cj ns x y : jobs_path cj ++ x ≠ "/api/v1/namespaces/" ++ ns ++ "/events" ++ y.
Proof. unfold jobs_path. cbn. by intros [=]. Qed.

(** DELETEs are of these Jobs, in the revision observed. *)
Definition job_deletes (ns : string) (jobs : list Value) (e : Event) : Prop :=
  match e with
  | EAsk (QDelete p o) _ => ∃ job, job ∈ jobs ∧ p = job_path ns job ∧ names_observed job o
  | _ => True
  end.

Lemma job_deletes_none ns l t : Forall (asks no_delete) t → Forall (job_deletes ns l) t.
Proof. intros H. eapply Forall_impl; [exact H|]. by intros [[]|]. Qed.

Lemma job_deletes_weaken ns (l l' : list Value) t : l ⊆ l' → Forall (job_deletes ns l) t → Forall (job_deletes ns l') t.
Proof. intros Hs H. eapply Forall_impl; [exact H|]. intros [[]|]; try done. cbn. naive_solver. Qed.

Lemma delete_jobs_exec ns l : ∀ t x, exec (delete_jobs ns l) t x → (∀ pa b, ¬ posts t pa b) ∧ Forall (job_deletes ns l) t.
Proof.
  induction l as [|job l IH]; intros t x E; cbn [delete_jobs] in E.
  { apply exec_ret_inv in E as [-> _]. split; [intros pa b (a & []%not_elem_of_nil)|constructor]. }
  assert (l ⊆ job :: l) as Hs by set_solver.
  destruct (is_empty_str _); [destruct (IH _ _ E); split; [done|by eapply job_deletes_weaken]|].
  apply exec_bind in E as (t1 & t2 & r & E1 & E2 & ->). destruct (IH _ _ E2) as [Hp Hd]. split.
  - intros pa b [H|H]%posts_app; [by apply (delete_observed_posts _ _ _ _ _ _ E1) in H|by apply Hp in H].
  - apply Forall_app. split; [|by eapply job_deletes_weaken]. apply emits_delete_observed in E1. eapply Forall_impl; [exact E1|].
    intros [q a|n]; [|done]. intros (o & -> & Ho). exists job. split_and!; [left|done..].
Qed.

(** What part of a pass posts and deletes. *)
Record does (cj : Value) (max : nat) (l : list Value) (c : Ctx) (t : list Event) (c' : Ctx) : Prop := {
  do_filed : filed (cx_pending c');
  do_posts : (count_posts (jobs_path cj) t ≤ max)%nat;
  do_deletes : Forall (job_deletes (namespace_of cj) l) t }.

Lemma does_app cj n1 n2 l1 l2 c1 t1 c2 t2 c3 :
  does cj n1 l1 c1 t1 c2 → does cj n2 l2 c2 t2 c3 → does cj (n1 + n2) (l1 ++ l2) c1 (t1 ++ t2) c3.
Proof.
  intros [F1 P1 D1] [F2 P2 D2]. split; [done|rewrite count_posts_app; lia|]. apply Forall_app.
  split; (eapply job_deletes_weaken; [|done]); set_solver.
Qed.

Lemma does_silent cj c t : filed (cx_pending c) → (∀ pa b, ¬ posts t pa b) → Forall (asks no_delete) t → does cj 0 [] c t c.
Proof. intros Hf Hp Hd. split; [done|by rewrite (no_post_count _ _ Hp)|by apply job_deletes_none]. Qed.

Lemma no_posts_nil pa b : ¬ posts [] pa b.
Proof. intros (a & []%not_elem_of_nil). Qed.

Section Pass.
  Context `{Chrono}.
  Variables (parse_rfc3339 : string → option Z) (format_time : Z → string) (show_time : Z → string) (show_missed : MissedError → string).
  Variables (uuid_simple : nat → string) (instant : nat → Z) (stamp micro : nat → string) (host : string).

#[local] Notation event := (event uuid_simple instant stamp micro host).
#[local] Notation start := (start show_time uuid_simple instant stamp micro host).
#[local] Notation due := (due parse_rfc3339).
#[local] Notation reconcile := (reconcile parse_rfc3339 format_time show_time show_missed uuid_simple instant stamp micro host).

Lemma event_does comp c cj etype reason message t c' :
  exec (event comp c cj etype reason message) t c' → filed (cx_pending c) → does cj 0 [] c t c'.
Proof.
  intros E Hf. destruct (event_elsewhere _ _ _ _ _ _ _ _ _ _ _ _ _ (jobs_path cj) (jobs_not_events cj _) E Hf) as (? & Hp & Hd).
  split; [done|by rewrite Hp|by apply job_deletes_none].
Qed.

Lemma create_job_does c cj name uid ts t c' :
  exec (create_job c (namespace_of cj) name uid cj ts) t c' → filed (cx_pending c) → does cj 1 [] c t c'.
Proof.
  intros (t1 & t2 & [p r] & E & [-> ->]%exec_ret_inv & ->)%exec_bind Hf. rewrite app_nil_r.
  split; [by eapply create_filed|by eapply create_posts_once|by eapply job_deletes_none, emits_create].
Qed.

(** Whether the policy lets a start run beside the active Jobs. *)
Definition may_start (cj : Value) (act : list Value) : bool :=
  negb (str_eqb (str_or "Allow" cj.["spec"].["concurrencyPolicy"]) "Forbid") || match act with [] => true | _ => false end.

Lemma start_does c cj name uid act s ts t c' :
  exec (start c (namespace_of cj) name uid cj act s ts) t c' → filed (cx_pending c) →
  does cj (if may_start cj act then 1 else 0) act c t c'.
Proof.
  intros E Hf. unfold CronJob.start, may_start in *. cbn zeta in E. destruct (str_eqb _ "Forbid") eqn:Ef; cbn [negb orb].
  - destruct act; [by eapply create_job_does|]. destruct (event_does _ _ _ _ _ _ _ _ E Hf) as [? ? Hd].
    split; [done..|]. eapply job_deletes_weaken; [|exact Hd]. set_solver.
  - destruct (str_eqb _ "Replace").
    + apply exec_bind in E as (t1 & t' & u & E1 & E & ->). apply delete_jobs_exec in E1 as [P1 D1].
      apply exec_bind in E as (t2 & t3 & c2 & E2 & E3 & ->). pose proof (create_job_does _ _ _ _ _ _ _ E2 Hf) as Dc.
      pose proof (event_does _ _ _ _ _ _ _ _ E3 (do_filed _ _ _ _ _ _ Dc)) as De.
      destruct (does_app _ _ _ _ _ _ _ _ _ _ Dc De) as [F P D]. split; [done|rewrite count_posts_app, (no_post_count _ _ P1); exact P|].
      apply Forall_app. split; [done|]. eapply job_deletes_weaken; [|exact D]. set_solver.
    + apply exec_bind in E as (t2 & t3 & c2 & E2 & E3 & ->). pose proof (create_job_does _ _ _ _ _ _ _ E2 Hf) as Dc.
      pose proof (event_does _ _ _ _ _ _ _ _ E3 (do_filed _ _ _ _ _ _ Dc)) as De.
      destruct (does_app _ _ _ _ _ _ _ _ _ _ Dc De) as [F P D]. split; [done..|]. eapply job_deletes_weaken; [|exact D]. set_solver.
Qed.

Lemma put_does cj path latest updated c t x : exec (put_status path latest updated) t x → filed (cx_pending c) → does cj 0 [] c t c.
Proof.
  intros (t1 & t2 & r & E & [-> _]%exec_ret_inv & ->)%exec_bind Hf. rewrite app_nil_r.
  apply send_json_quiet in E as (_ & ? & ?); [by apply does_silent|done].
Qed.

(** The finished Jobs a pass drops from the history. *)
Definition trimmed (cj : Value) (owned : list Value) : list Value :=
  (pruned (successful owned) (successful_limit cj) ++ pruned (unsuccessful owned) (failed_limit cj))%list.

Lemma cleanup_does cj jobs n c t x :
  exec (cleanup_history (namespace_of cj) jobs n) t x → filed (cx_pending c) → does cj 0 (pruned jobs n) c t c.
Proof.
  intros (t1 & t2 & u & E & [-> _]%exec_ret_inv & ->)%exec_bind Hf. rewrite app_nil_r. apply delete_jobs_exec in E as [P D].
  split; [done|by rewrite (no_post_count _ _ P)|done].
Qed.

Lemma finish_does c path cj owned latest t c' r :
  exec (finish c (namespace_of cj) path cj owned latest) t (c', r) → filed (cx_pending c) → does cj 0 (trimmed cj owned) c t c'.
Proof.
  intros (t1 & t' & ok & E1 & E & ->)%exec_bind Hf. apply exec_bind in E as (t2 & t'' & bad & E2 & E & ->).
  apply exec_bind in E as (t3 & t4 & x & E3 & [-> [= -> _]]%exec_ret_inv & ->). rewrite app_nil_r.
  pose proof (cleanup_does _ _ _ _ _ _ E1 Hf) as D1. pose proof (cleanup_does _ _ _ _ _ _ E2 Hf) as D2.
  assert (does cj 0 [] c t3 c) as D3.
  { unfold write_stats in E3. destruct (set_index2 _ _ _ _).
    - apply exec_bind in E3 as (t4 & t5 & y & E3 & [-> _]%exec_ret_inv & ->). rewrite app_nil_r.
      apply send_json_quiet in E3 as (_ & ? & ?); [by apply does_silent|done].
    - apply exec_ret_inv in E3 as [-> _]. by apply does_silent; [|intros; apply no_posts_nil|constructor]. }
  pose proof (does_app _ _ _ _ _ _ _ _ _ _ D1 (does_app _ _ _ _ _ _ _ _ _ _ D2 D3)) as D. by rewrite app_nil_r in D.
Qed.

Lemma requeue_at_exec {R} at_ now (k : Prog R) t x :
  exec (requeue_at at_ now k) t x →
  ∃ notes t', t = (notes ++ t')%list ∧ (∀ pa b, ¬ posts notes pa b) ∧ Forall (asks no_delete) notes ∧ exec k t' x.
Proof.
  assert (exec k t x → ∃ notes t', t = (notes ++ t')%list ∧ (∀ pa b, ¬ posts notes pa b) ∧ Forall (asks no_delete) notes ∧ exec k t' x) as H0
    by (exists [], t; split_and!; [done|intros; apply no_posts_nil|constructor|done]).
  unfold requeue_at. destruct at_ as [[next|]|]; [|done..]. destruct (now <=? next); [|done].
  intros (t' & -> & E)%exec_tell_inv. exists [ENote (Requeue (next - now))], t'. split_and!; [done| |by repeat constructor|exact E].
  intros pa b (a & ?%list_elem_of_singleton). done.
Qed.

(** What a pass does, by the start it finds: nothing but trimming without
    one, and a PUT that records it with one. *)
Lemma reconcile_does c cj jobs now ts t c' r :
  exec (reconcile c cj jobs now ts) t (c', r) → filed (cx_pending c) →
  let owned := owned_jobs (str_or "" cj.["metadata"].["uid"]) jobs in
  let act := active owned in
  does cj 0 (trimmed cj owned) c t c' ∨
  ∃ schedule s, as_str cj.["spec"].["schedule"] = Some schedule ∧ default false (as_bool cj.["spec"].["suspend"]) = false ∧
    due schedule cj now = Some (Ok (Some s)) ∧
    does cj (if may_start cj act then 1 else 0) (act ++ trimmed cj owned) c t c' ∧
    ∀ u, mark format_time cj (namespace_of cj) act (successful owned) s = Some u →
      ∃ p a, EAsk (QPut p u) a ∈ t.
Proof.
  cbn zeta. intros E Hf. set (owned := owned_jobs _ jobs) in *.
  assert (∀ l, does cj 0 l c [] c) as Hnil by (intros l; split; [done|cbn; lia|constructor]).
  unfold CronJob.reconcile, reconcile_cronjob in E. fold (namespace_of cj) in E.
  destruct (as_str cj.["metadata"].["name"]) as [name|]; [|apply exec_ret_inv in E as [-> [= -> _]]; left; apply Hnil].
  destruct (as_str cj.["spec"].["schedule"]) as [schedule|]; [|apply exec_ret_inv in E as [-> [= -> _]]; left; apply Hnil].
  destruct (default false _) eqn:Es; [apply exec_ret_inv in E as [-> [= -> _]]; left; apply Hnil|]. cbn zeta in E. fold owned in E.
  destruct (next_start schedule now) as [next|]; [|apply exec_ret_inv in E as [-> [= -> _]]; left; apply Hnil].
  apply requeue_at_exec in E as (notes & t' & -> & Hno & Hnd & E').
  assert (does cj 0 [] c notes c) as Dn by (by apply does_silent).
  destruct (due schedule cj now) as [[[s|]|e]|] eqn:Ed.
  - right. exists schedule, s. do 3 (split; [done|]).
    apply exec_bind in E' as (t1 & t2 & c1 & E1 & E2 & ->). pose proof (start_does _ _ _ _ _ _ _ _ _ E1 Hf) as D1.
    destruct (mark _ _ _ _ _ _) as [updated|] eqn:Em.
    + apply exec_bind in E2 as (t3 & t4 & latest & E2 & E3 & ->). pose proof (put_does cj _ _ _ c1 _ _ E2 (do_filed _ _ _ _ _ _ D1)) as D2.
      pose proof (finish_does _ _ _ _ _ _ _ _ E3 (do_filed _ _ _ _ _ _ D1)) as D3. split.
      * pose proof (does_app _ _ _ _ _ _ _ _ _ _ Dn (does_app _ _ _ _ _ _ _ _ _ _ D1 (does_app _ _ _ _ _ _ _ _ _ _ D2 D3))) as D.
        cbn [app Nat.add] in D. by rewrite Nat.add_0_r in D.
      * intros u [= <-]. apply exec_bind in E2 as (t5 & t6 & y & E2 & _ & ->). apply exec_ask_inv in E2 as (a & t7 & -> & _).
        eexists _, a. apply elem_of_app; right. apply elem_of_app; right. apply elem_of_app; left. apply elem_of_app; left. left.
    + split; [|done]. apply exec_ret_inv in E2 as [-> [= -> _]]. rewrite app_nil_r.
      pose proof (does_app _ _ _ _ _ _ _ _ _ _ Dn D1) as [F P D]. split; [done..|]. eapply job_deletes_weaken; [|exact D]. set_solver.
  - left. exact (does_app _ _ _ _ _ _ _ _ _ _ Dn (finish_does _ _ _ _ _ _ _ _ E' Hf)).
  - left. apply exec_bind in E' as (t1 & t2 & c1 & E1 & E2 & ->). pose proof (event_does _ _ _ _ _ _ _ _ E1 Hf) as D1.
    destruct (set_index2 _ _ _ _) as [updated|].
    + apply exec_bind in E2 as (t3 & t4 & latest & E2 & E3 & ->). pose proof (put_does cj _ _ _ c1 _ _ E2 (do_filed _ _ _ _ _ _ D1)) as D2.
      pose proof (finish_does _ _ _ _ _ _ _ _ E3 (do_filed _ _ _ _ _ _ D1)) as D3.
      exact (does_app _ _ _ _ _ _ _ _ _ _ Dn (does_app _ _ _ _ _ _ _ _ _ _ D1 (does_app _ _ _ _ _ _ _ _ _ _ D2 D3))).
    + apply exec_ret_inv in E2 as [-> [= -> _]]. rewrite app_nil_r. pose proof (does_app _ _ _ _ _ _ _ _ _ _ Dn D1) as [F P D].
      split; [done..|]. eapply job_deletes_weaken; [|exact D]. set_solver.
  - left. apply exec_ret_inv in E' as [-> [= -> _]]. rewrite app_nil_r. destruct Dn as [F P D]. split; [done..|].
    eapply job_deletes_weaken; [|exact D]. set_solver.
Qed.

Lemma mark_time latest ns act ok s u : mark format_time latest ns act ok s = Some u → u.["status"].["lastScheduleTime"] = Str (format_time s).
Proof.
  unfold mark. destruct (set_index2 latest _ _ _) as [u1|] eqn:E1; [|done]. cbn.
  destruct (set_index2 u1 _ _ _) as [u2|] eqn:E2; [|done]. cbn. apply index2_set_index2 in E1.
  assert (u2.["status"].["lastScheduleTime"] = Str (format_time s)) as H2 by (by rewrite (index2_set_index2_ne _ _ _ _ _ _ E2)).
  destruct (last_completion ok) as [x|]; [|by intros [= <-]]. intros E3. by rewrite (index2_set_index2_ne _ _ _ _ _ _ E3).
Qed.

(** C20: a scheduled start of a CronJob runs at most once.  Whatever the server
    answers, a pass sends one POST for a Job at most, and deletes only Jobs
    the policy replaces or the history drops, in the revision observed.  It
    posts only for a start that is due: one the schedule fires at, later than
    the last one recorded and not in the future, and under [Forbid] only when
    no Job is active.  The pass also asks to store the CronJob with that start
    recorded; and a later pass over a CronJob where it is recorded posts only
    for a start that is later still. *)
Theorem cronjob_start_once c cj jobs now ts t c' r :
  exec (reconcile c cj jobs now ts) t (c', r) → filed (cx_pending c) →
  let owned := owned_jobs (str_or "" cj.["metadata"].["uid"]) jobs in
  let act := active owned in
  (count_posts (jobs_path cj) t ≤ 1)%nat ∧
  Forall (job_deletes (namespace_of cj) (act ++ trimmed cj owned)) t ∧
  (count_posts (jobs_path cj) t ≠ 0%nat → ∃ schedule s,
     as_str cj.["spec"].["schedule"] = Some schedule ∧ due schedule cj now = Some (Ok (Some s)) ∧ may_start cj act = true ∧
     (∀ l, last_schedule parse_rfc3339 cj = Some l → l < s ≤ now ∧ matches schedule s = true) ∧
     (∀ u, mark format_time cj (namespace_of cj) act (successful owned) s = Some u →
        (∃ p a, EAsk (QPut p u) a ∈ t) ∧ u.["status"].["lastScheduleTime"] = Str (format_time s)) ∧
     ∀ cj2 c2 jobs2 now2 ts2 t2 c2' r2,
       cj2.["spec"].["schedule"] = Str schedule → cj2.["status"].["lastScheduleTime"] = Str (format_time s) →
       parse_rfc3339 (format_time s) = Some s → filed (cx_pending c2) →
       exec (reconcile c2 cj2 jobs2 now2 ts2) t2 (c2', r2) → count_posts (jobs_path cj2) t2 ≠ 0%nat →
       ∃ s2, due schedule cj2 now2 = Some (Ok (Some s2)) ∧ s < s2 ≤ now2).
Proof.
  cbn zeta. intros E Hf. apply reconcile_does in E; [|done]. cbn zeta in E. set (owned := owned_jobs _ jobs) in *.
  destruct E as [[F P D]|(schedule & s & Esch & _ & Ed & [F P D] & Hput)].
  { split_and!; [lia| |intros H0; lia]. eapply job_deletes_weaken; [|exact D]. set_solver. }
  split_and!; [destruct (may_start _ _); lia|done|]. intros Hne. exists schedule, s.
  destruct (may_start cj (active owned)) eqn:Em; [|lia]. do 3 (split; [done|]). split_and!.
  - intros l El. unfold CronJob.due in Ed. rewrite El in Ed. by apply start_to_run_after in Ed.
  - intros u Hu. split; [by apply Hput|by eapply mark_time].
  - intros cj2 c2 jobs2 now2 ts2 t2 c2' r2 Hsch Hlast Hparse Hf2 E2 Hne2. apply reconcile_does in E2; [|done]. cbn zeta in E2.
    destruct E2 as [[_ P2 _]|(schedule2 & s2 & Esch2 & _ & Ed2 & _)]; [lia|]. rewrite Hsch in Esch2. injection Esch2 as <-.
    exists s2. split; [done|]. unfold CronJob.due in Ed2. unfold last_schedule in Ed2. rewrite Hlast in Ed2. cbn in Ed2. rewrite Hparse in Ed2.
    by apply start_to_run_after in Ed2 as [? _].
Qed.
End Pass.

(** *** Witness *)

Module CjDemo.
#[local] Existing Instance Gregorian.chrono.

(** Times as their number of nanoseconds. *)
Definition text (t : Z) : string := show_z t.
Definition parse (s : string) : option Z := parse_digits s.
Definition noon : Z := Gregorian.march_1896 + 12 * HOUR.

(** Hourly, one at a time; the start of 11 o'clock is recorded. *)
Definition cj (last : Z) : Value :=
  json_obj [("metadata", json_obj [("name", Str "tick"); ("namespace", Str "d"); ("uid", Str "u-cj")]);
            ("spec", json_obj [("schedule", Str "0 * * * *"); ("concurrencyPolicy", Str "Forbid")]);
            ("status", json_obj [("lastScheduleTime", Str (text last))])].

Definition ctx : Ctx := mkCtx ∅ Backoff.new ∅ 0.
Definition ids (n : nat) : string := "0123456789abcdef".
Definition no_text (n : nat) : string := "".
Definition clock (n : nat) : Z := Z.of_nat n.
Definition show_missed (e : MissedError) : string := "missed".
Definition pass (now ts : Z) (object : Value) (jobs : list Value) :=
  reconcile parse text text show_missed ids clock no_text no_text "h" ctx object jobs now ts.

(** Five past twelve. *)
Definition at_ : Z := noon + 5 * MINUTE.
Definition answers : list Answer := [AResponse 201 (Some Null); AResponse 409 None; AResponse 409 None].
Definition names (t : list Event) : list Value := omap (λ e, match e with EAsk (QPost _ b) _ => Some b.["metadata"].["name"] | _ => None end) t.
Definition trace : list Event := Eval vm_compute in default [] (fst <$> play answers (pass at_ 7 (cj (noon - HOUR)) [])).

Lemma cj_pass_exec : ∃ x, exec (pass at_ 7 (cj (noon - HOUR)) []) trace x.
Proof. eexists. apply (play_exec answers). vm_compute. reflexivity. Qed.

(** When the write that records the start is refused, the next pass runs the
    same start again: the Job's name is made from the clock, not from the
    start, so it does not collide with the first one. *)
Example lost_marker_runs_twice :
  names trace = [Str "tick-7"] ∧
  names (default [] (fst <$> play answers (pass (at_ + MINUTE) 67 (cj (noon - HOUR)) []))) = [Str "tick-67"] ∧
  due parse "0 * * * *" (cj (noon - HOUR)) at_ = due parse "0 * * * *" (cj (noon - HOUR)) (at_ + MINUTE).
Proof. split_and!; vm_compute; reflexivity. Qed.

(** A CronJob that is being deleted goes on starting Jobs. *)
Example terminating_cronjob_starts :
  let dying := default Null (set_index2 (cj (noon - HOUR)) "metadata" "deletionTimestamp" (Str "t")) in
  names (default [] (fst <$> play answers (pass at_ 7 dying []))) = [Str "tick-7"].
Proof. vm_compute. reflexivity. Qed.

End CjDemo.

Lemma cronjob_start_once_witness :
  count_posts "/apis/batch/v1/namespaces/d/jobs" CjDemo.trace = 1%nat ∧
  ∃ s, due (H := Gregorian.chrono) CjDemo.parse "0 * * * *" (CjDemo.cj (CjDemo.noon - HOUR)) CjDemo.at_ = Some (Ok (Some s)) ∧
    CjDemo.noon - HOUR < s ≤ CjDemo.at_.
Proof.
  split; [vm_compute; reflexivity|]. destruct CjDemo.cj_pass_exec as [[c' r] E].
  destruct (cronjob_start_once (H := Gregorian.chrono) CjDemo.parse CjDemo.text CjDemo.text CjDemo.show_missed CjDemo.ids CjDemo.clock CjDemo.no_text CjDemo.no_text "h"
    CjDemo.ctx (CjDemo.cj (CjDemo.noon - HOUR)) [] CjDemo.at_ 7 CjDemo.trace c' r E) as (_ & _ & H).
  - intros g p Hg. cbn in Hg. by rewrite lookup_empty in Hg.
  - destruct H as (schedule & s & Es & Ed & _ & Hl & _); [vm_compute; discriminate|]. injection Es as <-. exists s.
    split; [exact Ed|]. apply (Hl (CjDemo.noon - HOUR)). vm_compute. reflexivity.
Defined.
