(* ===== verification/Quota.v ===== *)
(** * Resource quotas ([pkg/apimachinery/src/quota.rs],
      [pkg/apiserver/src/quota_admission.rs])

    What an object charges, which quotas cover it, and the admission that
    charges a create to them by compare-and-swap.  Other clients may write
    between any two store operations of a charge: [env] is what they do. *)

From Stdlib Require Import ZArith Lia String Ascii.
From stdpp Require Import base gmap strings numbers option list.
From S2P Require Import Prelude Text BTree Json F64 Quantity Store ApiError Codec Storage PodResources.
Open Scope string_scope.
Open Scope kube_scope.
Open Scope Z_scope.

(** ** Accounting *)

Notation Usage := (BTreeMap Z).

Definition wrap_i128 (z : Z) : Z := (z + 2 ^ 127) mod 2 ^ 128 - 2 ^ 127.

Definition is_cpu (key : string) : bool := str_in key ["cpu"; "requests.cpu"; "limits.cpu"].

Definition format (key : string) (n : Z) : string :=
  if is_cpu key && negb (Z.rem n 1000 =? 0) then show_z n ++ "m"
  else if is_cpu key then show_z (Z.quot n 1000)
  else show_z n.

Definition add (u : Usage) (key : string) (n : Z) : Usage :=
  map_insert u key (wrap_i128 (default 0 (map_get u key) + n)).

(** The containers (and init containers) that do not set the amount a quota on
    [key] needs. *)
Definition missing (pod : Value) (key : string) : list string :=
  match (if str_in key ["cpu"; "memory"; "ephemeral-storage"] then Some ("requests", key)
         else match split_once "." key with
              | Some (kind, res) => if str_in kind ["requests"; "limits"] then Some (kind, res) else None
              | None => None
              end) with
  | None => []
  | Some (kind, res) =>
      (λ c, str_or "" c.["name"]) <$>
        List.filter (λ c, match Json.get c.["resources"].[kind] res with None => true | Some _ => false end)
          (items pod.["spec"].["containers"] ++ items pod.["spec"].["initContainers"])
  end.

Definition is_terminal (pod : Value) : bool :=
  match as_str pod.["status"].["phase"] with Some p => str_in p ["Succeeded"; "Failed"] | None => false end.

Section Accounting.
  Variable float_text : f64 → string.

Definition parse (key : string) (v : Value) : Z :=
  match v with
  | Str s => if is_cpu key then parse_cpu_millis s else parse_bytes s
  | Num n => let s := number_text float_text n in if is_cpu key then parse_cpu_millis s else parse_bytes s
  | _ => 0
  end.

(** The compute a Pod holds of one kind. *)
Definition pod_compute (pod : Value) (kind : string) : Usage :=
  fold_left (λ total kv, add total kv.1 (parse kv.1 kv.2)) (entries pod.["spec"].["overhead"])
    (containers_total (wrapping wrap_i128) kind parse pod).

Definition usage (resource group : string) (obj : Value) : Usage :=
  if (resource =? "pods")%kube && is_terminal obj then []
  else
    let count := if is_empty_str group then "count/" ++ resource else "count/" ++ resource ++ "." ++ group in
    let u := add [] count 1 in
    if negb (is_empty_str group) then u
    else if (resource =? "pods")%kube then
      let u := add u "pods" 1 in
      let u := fold_left (λ u kv,
        let u := add u ("requests." ++ kv.1) kv.2 in
        if str_in kv.1 ["cpu"; "memory"; "ephemeral-storage"] then add u kv.1 kv.2 else u) (pod_compute obj "requests") u in
      fold_left (λ u kv, add u ("limits." ++ kv.1) kv.2) (pod_compute obj "limits") u
    else if (resource =? "services")%kube then
      let u := add u "services" 1 in
      let u := if (str_or "ClusterIP" obj.["spec"].["type"] =? "LoadBalancer")%kube
               then add u "services.loadbalancers" 1 else u in
      let np := Z.of_nat (List.length (List.filter (λ p, negb (default 0 (as_i64 p.["nodePort"]) =? 0)%Z)
                                                   (items obj.["spec"].["ports"]))) in
      if 0 <? np then add u "services.nodeports" np else u
    else if (resource =? "persistentvolumeclaims")%kube then
      let u := add u "persistentvolumeclaims" 1 in
      let storage := parse "requests.storage" obj.["spec"].["resources"].["requests"].["storage"] in
      let u := add u "requests.storage" storage in
      match as_str obj.["spec"].["storageClassName"] with
      | Some class =>
          if is_empty_str class then u
          else add (add u (class ++ ".storageclass.storage.k8s.io/requests.storage") storage)
                   (class ++ ".storageclass.storage.k8s.io/persistentvolumeclaims") 1
      | None => u
      end
    else if str_in resource ["secrets"; "configmaps"; "replicationcontrollers"; "resourcequotas"] then add u resource 1
    else u.

Definition best_effort (pod : Value) : bool :=
  let req := pod_compute pod "requests" in
  let lim := pod_compute pod "limits" in
  forallb (λ r, (default 0 (map_get req r) =? 0) && (default 0 (map_get lim r) =? 0)) ["cpu"; "memory"]
  && forallb (λ l, forallb (λ c, forallb (λ k, forallb (λ r,
       match Json.get c.["resources"].[k] r with None => true | Some _ => false end) ["cpu"; "memory"]) ["requests"; "limits"])
     (items pod.["spec"].[l])) ["containers"; "initContainers"].

Definition scopes_of (quota : Value) : list (string * string * list string) :=
  omap (λ s, (λ s, (s, "Exists", [])) <$> as_str s) (items quota.["spec"].["scopes"])
  ++ ((λ e, (str_or "" e.["scopeName"], str_or "Exists" e.["operator"], omap as_str (items e.["values"])))
       <$> items quota.["spec"].["scopeSelector"].["matchExpressions"]).

Definition scope_covers (obj : Value) (scope : string * string * list string) : bool :=
  let '(name, op, values) := scope in
  if (name =? "Terminating")%kube then
    match as_i64 obj.["spec"].["activeDeadlineSeconds"] with Some d => 0 <=? d | None => false end
  else if (name =? "NotTerminating")%kube then is_null obj.["spec"].["activeDeadlineSeconds"]
  else if (name =? "BestEffort")%kube then best_effort obj
  else if (name =? "NotBestEffort")%kube then negb (best_effort obj)
  else if (name =? "PriorityClass")%kube then
    let pc := str_or "" obj.["spec"].["priorityClassName"] in
    if (op =? "In")%kube then str_in pc values
    else if (op =? "NotIn")%kube then negb (str_in pc values)
    else if (op =? "Exists")%kube then negb (is_empty_str pc)
    else if (op =? "DoesNotExist")%kube then is_empty_str pc
    else false
  else false.

Definition matches (quota : Value) (resource group : string) (obj : Value) : bool :=
  match scopes_of quota with
  | [] => true
  | scopes => (resource =? "pods")%kube && is_empty_str group && forallb (scope_covers obj) scopes
  end.

Definition tracked (quota : Value) (u : Usage) : Usage :=
  List.filter (λ kv, match as_object quota.["spec"].["hard"] with Some h => contains_key h kv.1 | None => false end) u.

Definition resource_list (hard : Map) (u : Usage) : Value :=
  Object (fold_left (λ m kv, map_insert m kv.1 (Str (format kv.1 (default 0 (map_get u kv.1))))) hard []).

Definition same (a b : Value) : bool :=
  match as_object a, as_object b with
  | Some a, Some b =>
      Nat.eqb (List.length a) (List.length b)
      && forallb (λ kv, match map_get b kv.1 with Some w => (parse kv.1 kv.2 =? parse kv.1 w)%Z | None => false end) a
  | _, _ => value_eqb a b
  end.

(** ** Admission *)

Definition CHARGED_AT : string := "quota.rustkube.io/charged-at".
Definition COMPUTE : list string :=
  ["cpu"; "memory"; "ephemeral-storage"; "requests.cpu"; "requests.memory"; "requests.ephemeral-storage";
   "limits.cpu"; "limits.memory"; "limits.ephemeral-storage"].

Definition show_list (u : Usage) (keys : list string) : string :=
  String.concat "," ((λ k, k ++ "=" ++ format k (default 0 (map_get u k))) <$> keys).

Definition amounts (v : Value) : Usage := (λ kv, (kv.1, parse kv.1 kv.2)) <$> entries v.
Definition used_of (q : Value) : Usage := amounts q.["status"].["used"].
Definition hard_of (q : Value) : Usage := amounts q.["status"].["hard"].

(** What a Pod must set and does not, by the quota's compute resources. *)
Definition unset (q : Value) (obj : Value) : list string :=
  omap (λ k, match missing obj k with [] => None | m => Some (k ++ " for: " ++ String.concat "," m) end)
    (List.filter (λ k, str_in k COMPUTE) (entries q.["spec"].["hard"]).*1).

Definition over (q : Value) (delta : Usage) : list string :=
  (List.filter (λ kn, match map_get (hard_of q) kn.1 with
                      | Some h => h <? wrap_i128 (default 0 (map_get (used_of q) kn.1) + kn.2)
                      | None => false
                      end) delta).*1.

Definition refusal (q : Value) (resource : string) (obj : Value) (delta : Usage) : option string :=
  let qname := str_or "" q.["metadata"].["name"] in
  let why := if (resource =? "pods")%kube then unset q obj else [] in
  match why with
  | _ :: _ => Some ("failed quota: " ++ qname ++ ": must specify " ++ String.concat "; " why)
  | [] =>
      if negb (is_object q.["status"].["hard"]) then
        Some ("status unknown for quota: " ++ qname ++ ", resource: " ++ default "" (fst <$> head delta))
      else
        match over q delta with
        | [] => None
        | ks => Some ("exceeded quota: " ++ qname ++ ", requested: " ++ show_list delta ks ++ ", used: "
                      ++ show_list (used_of q) ks ++ ", limited: " ++ show_list (hard_of q) ks)
        end
  end.

Definition rev (v : Value) : option Z := as_str v.["metadata"].["resourceVersion"] ≫= parse_u64.

(** The new [used], [sign] being 1 or -1. *)
Definition charged (used delta : Usage) (sign : Z) : Usage :=
  fold_left (λ u kn, map_insert u kn.1 (Z.max (wrap_i128 (default 0 (map_get u kn.1) + wrap_i128 (sign * kn.2))) 0)) delta used.

(** The quota as it is written back; [None] is a panic of an index assignment. *)
Definition with_charge (q : Value) (hard : Map) (used : Usage) (now : string) : option Value :=
  q ← set_index2 q "status" "used" (resource_list hard used);
  q ← (if is_object q.["metadata"].["annotations"] then Some q else set_index2 q "metadata" "annotations" (Object []));
  a ← set_index q.["metadata"].["annotations"] CHARGED_AT (Str now);
  set_index2 q "metadata" "annotations" a.

Section Admission.
  Context {S : Type} `{KvStore S} `{JsonCodec}.
  (** The text of the clock, at an attempt. *)
  Variable now : nat → string.

(** The attempts of a charge; [env] is what others write before attempt [i]
    reads and before it writes. *)
Fixpoint charge_go (n : nat) (env_read env_write : nat → S → S) (s : S) (key resource : string) (obj : Value)
    (delta : Usage) (sign : Z) : S * option (result unit ApiError) :=
  match n with
  | O => (s, Some (Err (conflict "quota charge kept losing its race; try again")))
  | Datatypes.S n =>
      let s := env_read n s in
      match Storage.get s key with
      | None => (s, None)
      | Some (Err e) => (s, Some (Err e))
      | Some (Ok q) =>
          match (if 0 <? sign then refusal q resource obj delta else None) with
          | Some why => (s, Some (Err (forbidden why)))
          | None =>
              let used := charged (used_of q) delta sign in
              match as_object q.["spec"].["hard"] with
              | None => (s, Some (Ok tt))
              | Some hard =>
                  match with_charge q hard used (now n) with
                  | None => (s, None)
                  | Some q =>
                      let s := env_write n s in
                      let '(s, r) := update float_text s key q (rev q) in
                      match r with
                      | None => (s, None)
                      | Some (Ok _) => (s, Some (Ok tt))
                      | Some (Err e) =>
                          if (reason e =? "Conflict")%kube
                          then charge_go n env_read env_write s key resource obj delta sign
                          else (s, Some (Err e))
                      end
                  end
              end
          end
      end
  end.

Definition ATTEMPTS : nat := 10.

Definition charge (env_read env_write : nat → S → S) := charge_go ATTEMPTS env_read env_write.

Definition forbidden_for (resource name why : string) : ApiError :=
  forbidden (resource ++ " " ++ quoted name ++ " is forbidden: " ++ why).

Fixpoint plan_go (resource namespace group name : string) (obj : Value) (u : Usage) (quotas : list Value) :
    result (list (string * Usage)) ApiError :=
  match quotas with
  | [] => Ok []
  | q :: quotas =>
      if negb (matches q resource group obj) then plan_go resource namespace group name obj u quotas
      else
        let delta := tracked q u in
        let tracks_compute := (resource =? "pods")%kube && existsb (λ kv, str_in kv.1 COMPUTE) (entries q.["spec"].["hard"]) in
        if match delta with [] => negb tracks_compute | _ => false end
        then plan_go resource namespace group name obj u quotas
        else
          match refusal q resource obj delta with
          | Some why => Err (forbidden_for resource name why)
          | None =>
              match plan_go resource namespace group name obj u quotas with
              | Err e => Err e
              | Ok plan => Ok ((namespaced_key "resourcequotas" namespace (str_or "" q.["metadata"].["name"]), delta) :: plan)
              end
          end
  end.

(** What others do meanwhile, by the item charged and by the item given back. *)
Record Envs := mkEnvs {
  charge_read : nat → nat → S → S;
  charge_write : nat → nat → S → S;
  undo_read : nat → nat → S → S;
  undo_write : nat → nat → S → S }.

Fixpoint give_back (env : Envs) (s : S) (resource : string) (obj : Value) (i : nat) (done : list (string * Usage)) : option S :=
  match done with
  | [] => Some s
  | (key, delta) :: done =>
      match charge (undo_read env i) (undo_write env i) s key resource obj delta (-1) with
      | (_, None) => None
      | (s, Some _) => give_back env s resource obj (Datatypes.S i) done
      end
  end.

Fixpoint charge_plan (env : Envs) (s : S) (resource name : string) (obj : Value) (i : nat) (done plan : list (string * Usage)) :
    S * option (result unit ApiError) :=
  match plan with
  | [] => (s, Some (Ok tt))
  | (key, delta) :: plan =>
      match charge (charge_read env i) (charge_write env i) s key resource obj delta 1 with
      | (s, None) => (s, None)
      | (s, Some (Ok _)) => charge_plan env s resource name obj (Datatypes.S i) (done ++ [(key, delta)]) plan
      | (s, Some (Err e)) =>
          match give_back env s resource obj 0 done with
          | None => (s, None)
          | Some s => (s, Some (Err (if (status e =? 403)%Z then forbidden_for resource name (message e) else e)))
          end
      end
  end.

Definition admit_quota (env : Envs) (s : S) (resource namespace : string) (obj : Value) : S * option (result unit ApiError) :=
  match list_page s (namespace_prefix "resourcequotas" namespace) 500 None with
  | None => (s, None)
  | Some (Err _) => (s, Some (Ok tt))
  | Some (Ok page) =>
      match lp_items page with
      | [] => (s, Some (Ok tt))
      | quotas =>
          let group := match split_once "/" (resource_to_api_version resource) with Some (g, _) => g | None => "" end in
          let u := usage resource group obj in
          let name := str_or "" obj.["metadata"].["name"] in
          match plan_go resource namespace group name obj u quotas with
          | Err e => (s, Some (Err e))
          | Ok plan => charge_plan env s resource name obj 0 [] plan
          end
      end
  end.
End Admission.
End Accounting.

(** ** Amounts as text *)

Lemma show_z_nonneg n : 0 ≤ n → show_z n = show_u n.
Proof. intros Hn. unfold show_z. destruct (Z.ltb_spec n 0); [lia|done]. Qed.

Lemma parse_cpu_millis_m n : 0 < n < 2 ^ 53 → parse_cpu_millis (show_u n ++ "m") = n.
Proof.
  intros Hn. destruct (show_u_ends n ltac:(lia)) as (a & t & b & u & E1 & E2 & Ha & Hb). unfold parse_cpu_millis.
  rewrite (trim_plain _ a (t ++ "m") "m" (str_rev (show_u n))); [|by rewrite E1|by rewrite str_rev_app_distr|by apply digit_plain|done].
  rewrite strip_suffix_app. destruct (parse_f64_show n Hn) as (f & -> & Hf).
  rewrite (f64_repr_max0 _ _ Hf), (f64_repr_to_u64 _ _ Hf). unfold u64_max. lia.
Qed.

Lemma parse_cpu_millis_whole q : 0 ≤ q → q * 1000 < 2 ^ 53 → parse_cpu_millis (show_u q) = q * 1000.
Proof.
  intros H0 Hq. destruct (show_u_ends q H0) as (a & t & b & u & E1 & E2 & Ha & Hb). unfold parse_cpu_millis.
  rewrite (trim_plain _ a t b u) by auto using digit_plain.
  erewrite (strip_suffix_digit _ "m" _ b u) by (done || (left; reflexivity)).
  destruct (decide (q = 0)) as [->|Hn]; [reflexivity|]. destruct (parse_f64_show q ltac:(lia)) as (f & -> & Hf).
  rewrite (f64_repr_max0 _ _ Hf), (f64_repr_to_u64 _ (q * 1000)); [unfold u64_max; lia|].
  apply (f64_repr_mul _ _ _ _ (q * 1000) 0); try lia; [done|by apply f64_repr_of_Z].
Qed.

(** An amount below 2^53 is read back as it was printed. *)
Lemma parse_format ft key n : 0 ≤ n < 2 ^ 53 → parse ft key (Str (format key n)) = n.
Proof.
  intros Hn. unfold parse, format. destruct (is_cpu key); cbn [andb]; [|rewrite show_z_nonneg by lia; by apply parse_bytes_plain].
  rewrite Z.rem_mod_nonneg, Z.quot_div_nonneg by lia. destruct (Z.eqb_spec (n mod 1000) 0) as [E|E]; cbn [negb].
  - assert (0 ≤ n / 1000) by (apply Z.div_pos; lia). assert (n = n / 1000 * 1000) as En by (rewrite (Z.div_mod n 1000) at 1; lia).
    rewrite show_z_nonneg, parse_cpu_millis_whole by lia. lia.
  - rewrite show_z_nonneg by lia. apply parse_cpu_millis_m. destruct (decide (n = 0)) as [->|]; [done|lia].
Qed.

Lemma wrap_i128_small z : - 2 ^ 126 ≤ z ≤ 2 ^ 126 → wrap_i128 z = z.
Proof. intros Hz. unfold wrap_i128. rewrite Z.mod_small; lia. Qed.

(** ** What a charge writes *)

Lemma amounts_get ft v k : map_get (amounts ft v) k = parse ft k <$> map_get (entries v) k.
Proof.
  unfold amounts. induction (entries v) as [|[k' x] m IH]; [done|]. cbn. destruct (str_eqb k k') eqn:E; [|done].
  apply str_eqb_eq in E as ->. done.
Qed.

Lemma resource_list_get hard u k :
  map_get (entries (resource_list hard u)) k
  = if contains_key hard k then Some (Str (format k (default 0 (map_get u k)))) else None.
Proof.
  unfold resource_list. cbn [entries as_object default].
  assert (∀ acc, map_get (fold_left (λ m kv, map_insert m kv.1 (Str (format kv.1 (default 0 (map_get u kv.1))))) hard acc) k
    = if contains_key hard k then Some (Str (format k (default 0 (map_get u k)))) else map_get acc k) as Hg; [|apply (Hg [])].
  unfold contains_key. induction hard as [|[k' x] hard IH]; intros acc; [done|]. cbn [fold_left fst map_get]. rewrite IH, map_get_insert.
  destruct (str_eqb k k') eqn:E; [|done]. apply str_eqb_eq in E as ->. by destruct (map_get hard k').
Qed.

Lemma resource_list_strings hard u : Forall (λ kv, ∃ s, kv.2 = Str s) (entries (resource_list hard u)).
Proof.
  unfold resource_list. cbn [entries as_object default].
  assert (∀ acc : Map, Forall (λ kv, ∃ s, kv.2 = Str s) acc → Forall (λ kv, ∃ s, kv.2 = Str s)
    (fold_left (λ m kv, map_insert m kv.1 (Str (format kv.1 (default 0 (map_get u kv.1))))) hard acc)) as Hg; [|apply Hg; constructor].
  induction hard as [|[k x] hard IH]; intros acc Ha; [done|]. cbn [fold_left fst]. apply IH.
  clear IH. induction Ha as [|[k' y] acc Hy Ha IH]; cbn [map_insert]; [repeat constructor; eauto|].
  repeat case_match; repeat constructor; eauto.
Qed.

Lemma resource_list_tidy hard u : wf_value (resource_list hard u) = true ∧ no_floats (resource_list hard u) = true.
Proof.
  pose proof (resource_list_strings hard u) as Hs. unfold resource_list in *. cbn [entries as_object default] in Hs.
  set (m := fold_left _ hard []) in *. cbn [wf_value no_floats].
  assert (forallb (λ kv, wf_value kv.2) m = true ∧ forallb (λ kv, no_floats kv.2) m = true) as [H1 H2].
  { change (Forall (λ kv : string * Value, ∃ s, kv.2 = Str s) m) in Hs. clearbody m. clear -Hs.
    induction Hs as [|[k v] l [x Hx] Hs [IH1 IH2]]; [done|]. cbn in *. subst v. done. }
  split; [|done]. rewrite H1, andb_true_r.
  assert (∀ acc : Map, keys_sorted acc = true → keys_sorted (fold_left
    (λ m kv, map_insert m kv.1 (Str (format kv.1 (default 0 (map_get u kv.1))))) hard acc) = true) as Hg; [|by apply Hg].
  clear. induction hard as [|[k x] hard IH]; intros acc Ha; [done|]. cbn [fold_left]. apply IH. by apply keys_sorted_insert.
Qed.

Lemma charged_get0 used delta k :
  keys_sorted delta = true → 0 ≤ get0 used k < 2 ^ 60 → 0 ≤ get0 delta k < 2 ^ 60 →
  get0 (charged used delta 1) k = get0 used k + get0 delta k.
Proof.
  intros Hs Hu Hd. unfold charged. rewrite (fold_get0 (λ e v, Z.max (wrap_i128 (e + wrap_i128 (1 * v))) 0)) by done.
  unfold get0 in *. destruct (map_get delta k) as [n|]; cbn [default from_option id] in *; [|lia].
  rewrite Z.mul_1_l, (wrap_i128_small n), wrap_i128_small by lia. lia.
Qed.

(** ** Index assignments *)

Lemma set_index_tidy v k x w :
  set_index v k x = Some w → is_object w = true ∧
  (wf_value v = true → wf_value x = true → wf_value w = true) ∧
  (no_floats v = true → no_floats x = true → no_floats w = true).
Proof.
  intros E. split_and!.
  - destruct v; try done; cbn in E; by injection E as <-.
  - intros H1 H2. eapply wf_set_index; [exact H1|exact H2|exact E].
  - intros H1 H2. destruct v as [| | | | |m]; try done; cbn in E; injection E as <-; cbn; [by rewrite H2|].
    by apply forallb_insert.
Qed.

Lemma no_floats_index v k : no_floats v = true → no_floats (index v k) = true.
Proof.
  destruct v as [| | | | |m]; try done. intros Hn. unfold index. cbn. destruct (map_get m k) as [x|] eqn:E; [|done].
  apply map_get_In in E. cbn in Hn. rewrite forallb_forall in Hn. exact (Hn _ E).
Qed.

Lemma set_index2_tidy v k1 k2 x w :
  set_index2 v k1 k2 x = Some w → wf_value v = true → wf_value x = true → no_floats v = true → no_floats x = true →
  is_object w = true ∧ wf_value w = true ∧ no_floats w = true.
Proof.
  unfold set_index2. destruct (set_index (index v k1) k2 x) as [i|] eqn:Ei; [|done]. intros Ew Hv Hx Hnv Hnx.
  destruct (set_index_tidy _ _ _ _ Ei) as (_ & Hi1 & Hi2). destruct (set_index_tidy _ _ _ _ Ew) as (Ho & Hw1 & Hw2).
  split_and!; [done|apply Hw1; [done|apply Hi1; [by apply wf_index|done]]|apply Hw2; [done|apply Hi2; [by apply no_floats_index|done]]].
Qed.

Lemma with_charge_spec q hard used now q' :
  with_charge q hard used now = Some q' → wf_value q = true → no_floats q = true →
  is_object q' = true ∧ wf_value q' = true ∧ no_floats q' = true ∧ q'.["status"].["used"] = resource_list hard used ∧
  q'.["spec"] = q.["spec"] ∧ q'.["status"].["hard"] = q.["status"].["hard"] ∧
  q'.["metadata"].["resourceVersion"] = q.["metadata"].["resourceVersion"].
Proof.
  unfold with_charge. intros E Hwf Hnf. destruct (resource_list_tidy hard used) as [Hr1 Hr2].
  destruct (set_index2 q "status" "used" (resource_list hard used)) as [q1|] eqn:E1; cbn [mbind option_bind] in E; [|done].
  destruct (set_index2_tidy _ _ _ _ _ E1) as (O1 & W1 & N1); [done..|].
  destruct (if is_object q1.["metadata"].["annotations"] then Some q1 else _) as [q2|] eqn:E2; cbn [mbind option_bind] in E; [|done].
  destruct (set_index q2.["metadata"].["annotations"] CHARGED_AT (Str now)) as [a|] eqn:E3; cbn [mbind option_bind] in E; [|done].
  assert (∀ k, k ≠ "metadata" → q2.[k] = q1.[k]) as H21.
  { intros k Hk. destruct (is_object q1.["metadata"].["annotations"]); [by injection E2 as <-|]. by eapply set_index2_inner. }
  assert (q2.["metadata"].["resourceVersion"] = q1.["metadata"].["resourceVersion"]) as Hrv2.
  { destruct (is_object q1.["metadata"].["annotations"]); [by injection E2 as <-|]. unfold set_index2 in E2.
    destruct (set_index q1.["metadata"] "annotations" (Object [])) as [m|] eqn:Em; [|done].
    rewrite (index_set_index _ _ _ _ E2). by apply (index_set_index_ne _ _ _ _ "resourceVersion") in Em. }
  assert (is_object q2 = true ∧ wf_value q2 = true ∧ no_floats q2 = true) as (O2 & W2 & N2).
  { destruct (is_object q1.["metadata"].["annotations"]); [by injection E2 as <-|]. by eapply set_index2_tidy. }
  destruct (set_index_tidy _ _ _ _ E3) as (_ & W3 & N3).
  destruct (set_index2_tidy _ _ _ _ _ E) as (O4 & W4 & N4);
    [done|apply W3; [by do 2 apply wf_index|done]|done|apply N3; [by do 2 apply no_floats_index|done]|].
  pose proof (set_index2_inner _ _ _ _ _ E) as H42. split_and!; [done|done|done|..].
  - rewrite H42, H21 by done. by eapply index2_set_index2.
  - rewrite H42, H21 by done. by apply (set_index2_inner _ _ _ _ _ E1).
  - rewrite H42, H21 by done. unfold set_index2 in E1.
    destruct (set_index q.["status"] "used" _) as [st|] eqn:Es; [|done]. rewrite (index_set_index _ _ _ _ E1).
    by apply (index_set_index_ne _ _ _ _ "hard") in Es.
  - unfold set_index2 in E. destruct (set_index q2.["metadata"] "annotations" a) as [m|] eqn:Em; [|done].
    rewrite (index_set_index _ _ _ _ E). apply (index_set_index_ne _ _ _ _ "resourceVersion") in Em; [|done]. rewrite Em, Hrv2.
    by rewrite (set_index2_inner _ _ _ _ _ E1 "metadata").
Qed.

(** ** The quantities of a stored object *)

Section Stored.
  Variable float_text : f64 → string.

Lemma walk_map_get r path m k :
  map_get (walk_map float_text r path m).1 k = (λ x, (walk_entry float_text r path k x).1) <$> map_get m k.
Proof.
  induction m as [|[k' x] m IH]; [done|]. cbn [walk_map map_get].
  destruct (walk_entry float_text r path k' x) as [x' c1] eqn:Ex. destruct (walk_map float_text r path m) as [m' c2].
  cbn [fst map_get]. destruct (str_eqb k k') eqn:E; [|done]. apply str_eqb_eq in E as ->. cbn. by rewrite Ex.
Qed.

Lemma walk_strings r path m : Forall (λ kv, ∃ s, kv.2 = Str s) m → (walk_map float_text r path m).1 = m.
Proof.
  induction 1 as [|[k x] m [s Hs] _ IH]; [done|]. cbn in Hs. subst x. cbn [walk_map walk_entry walk].
  destruct (walk_map float_text r path m) as [m' c2]. cbn in *. by rewrite IH.
Qed.

Lemma index_object v k m : index v k = Object m → ∃ vm, v = Object vm ∧ map_get vm k = Some (Object m).
Proof.
  unfold index. destruct v as [| | | | |vm]; try done. cbn. intros E. exists vm. split; [done|].
  destruct (map_get vm k); cbn in E; congruence.
Qed.

(** A map of strings two levels down is stored as it is. *)
Lemma stored_strings key v m :
  v.["status"].["used"] = Object m → Forall (λ kv, ∃ s, kv.2 = Str s) m →
  (stored_form float_text key v).["status"].["used"] = Object m.
Proof.
  intros Hv Hm. destruct (index_object _ _ _ Hv) as (st & Hst & Hu). destruct (index_object v "status" st Hst) as (vm & -> & Hs).
  unfold stored_form. set (v' := (numbers_to_strings _ _ _).1).
  assert (v'.["status"].["used"] = Object m) as Hv'.
  { unfold v', numbers_to_strings. case_match; [|done]. rewrite walk_Object.
    pose proof (walk_map_get (metric_resource key) [] vm "status") as Hg. rewrite Hs in Hg.
    destruct (walk_map float_text (metric_resource key) [] vm) as [vm' c]. cbn [fst fmap option_fmap option_map walk_entry] in Hg |- *.
    unfold index at 2. cbn [Json.get]. rewrite Hg. cbn [default from_option id]. rewrite walk_Object.
    pose proof (walk_map_get (metric_resource key) ["status"] st "used") as Hg2. rewrite Hu in Hg2.
    destruct (walk_map float_text (metric_resource key) ["status"] st) as [st' c']. cbn [fst fmap option_fmap option_map walk_entry] in Hg2 |- *.
    unfold index. cbn [Json.get]. rewrite Hg2. cbn [default from_option id]. rewrite walk_Object.
    pose proof (walk_strings (metric_resource key) ["used"; "status"] m Hm) as Hw.
    destruct (walk_map float_text (metric_resource key) ["used"; "status"] m) as [m' c'']. cbn in Hw |- *. by rewrite Hw. }
  unfold strip_resource_version, remove_at. destruct v' as [| | | | |w]; try done.
  destruct (map_get w "metadata") as [[| | | | |i]|]; try done.
  rewrite <- Hv'. unfold index. cbn [Json.get]. by rewrite map_get_insert_ne.
Qed.

Lemma inject_status v r o : inject_resource_version v r = Some o → o.["status"] = v.["status"].
Proof.
  unfold inject_resource_version. destruct (match Json.get v "metadata" with Some m => is_object m | None => false end).
  - cbn [mbind option_bind]. intros E. by apply (set_index2_inner _ _ _ _ _ E).
  - destruct (set_index v "metadata" (json_obj [])) as [v1|] eqn:E1; cbn [mbind option_bind]; [|done]. intros E.
    rewrite (set_index2_inner _ _ _ _ _ E) by done. by apply (index_set_index_ne _ _ _ _ "status") in E1.
Qed.

End Stored.

(** ** A charge *)

Section ChargeTheorems.
  Context {S : Type} `{HL : KvStoreLaws S} `{JsonCodec}.
  Variable float_text : f64 → string.
  Variable now : nat → string.
  Implicit Types s : S.

(** What others may do in between: any writes, while revisions last. *)
Definition interference (env : nat → S → S) : Prop :=
  ∀ n s, kv_wf s → serving s → rev_room (revision s) → writes float_text s (env n s) ∧ rev_room (revision (env n s)).

Definition ready (s : S) : Prop := kv_wf s ∧ serving s ∧ rev_room (revision s) ∧ tidy s.

Lemma interference_ready env n s : interference env → ready s → writes float_text s (env n s) ∧ ready (env n s).
Proof.
  intros He (Hwf & Hs & Hr & Ht). destruct (He n s Hwf Hs Hr) as [Hw Hr']. split; [done|].
  destruct (writes_wf float_text s _ Hwf Hs Hw) as (H1 & H2 & _). split_and!; [done..|].
  by eapply (writes_tidy float_text s).
Qed.

(** A read of a tidy store: the object with the revision that wrote it. *)
Lemma get_tidy s key q :
  ready s → Storage.get s key = Some (Ok q) →
  wf_value q = true ∧ no_floats q = true ∧ rev q = Some (rev_of (view s) key) ∧
  rev_of (view s) key ≠ 0 ∧ is_u64 (rev_of (view s) key).
Proof.
  intros (Hwf & Hs & _ & Ht) E. unfold Storage.get in E. rewrite get_ok in E by done.
  destruct (map_get (view s) key) as [[b r]|] eqn:Eg; [|done]. destruct (Ht _ _ _ Eg) as (o & Hd & Ho & Hw & Hn).
  unfold decode_at in E. rewrite Hd in E. destruct (inject_object o r Ho) as (q' & Hi & _ & Hrv). rewrite Hi in E.
  injection E as <-. pose proof (view_wf s Hwf) as (_ & Hb & Hrev). pose proof (Hrev _ _ _ Eg) as Hr.
  assert (is_u64 r) as Hu by (unfold is_u64, u64_max, i64_max in *; lia).
  unfold rev_of. rewrite Eg. cbn. split_and!; [| | |lia|done].
  - unfold inject_resource_version in Hi. destruct (match Json.get o "metadata" with Some m => is_object m | None => false end).
    + cbn [mbind option_bind] in Hi. by eapply set_index2_tidy in Hi as (_ & ? & _).
    + destruct (set_index o "metadata" (json_obj [])) as [o1|] eqn:E1; cbn [mbind option_bind] in Hi; [|done].
      destruct (set_index_tidy _ _ _ _ E1) as (_ & H1 & H2).
      eapply set_index2_tidy in Hi as (_ & ? & _); [done|by apply H1|done|by apply H2|done].
  - unfold inject_resource_version in Hi. destruct (match Json.get o "metadata" with Some m => is_object m | None => false end).
    + cbn [mbind option_bind] in Hi. by eapply set_index2_tidy in Hi as (_ & _ & ?).
    + destruct (set_index o "metadata" (json_obj [])) as [o1|] eqn:E1; cbn [mbind option_bind] in Hi; [|done].
      destruct (set_index_tidy _ _ _ _ E1) as (_ & H1 & H2).
      eapply set_index2_tidy in Hi as (_ & _ & ?); [done|by apply H1|done|by apply H2|done].
  - unfold rev. rewrite Hrv. cbn. by apply parse_u64_show.
Qed.

(** What a refusal rules out. *)
Lemma refusal_None q resource obj delta k n h :
  refusal float_text q resource obj delta = None → map_get delta k = Some n → map_get (hard_of float_text q) k = Some h →
  wrap_i128 (get0 (used_of float_text q) k + n) ≤ h.
Proof.
  unfold refusal. destruct (if (resource =? "pods")%kube then _ else []) as [|]; [|done].
  destruct (negb (is_object q.["status"].["hard"])); [done|]. destruct (over float_text q delta) as [|x l] eqn:Eo; [|done].
  intros _ Hd Hh. unfold over in Eo. apply fmap_nil_inv in Eo. apply map_get_In in Hd.
  destruct (Z.le_gt_cases (wrap_i128 (get0 (used_of float_text q) k + n)) h) as [|Hgt]; [done|exfalso].
  assert (In (k, n) (List.filter (λ kn : string * Z, match map_get (hard_of float_text q) kn.1 with
     | Some h => h <? wrap_i128 (default 0 (map_get (used_of float_text q) kn.1) + kn.2) | None => false end) delta)) as Hin.
  { apply List.filter_In. split; [done|]. cbn [fst snd]. rewrite Hh. apply Z.ltb_lt. exact Hgt. }
  rewrite Eo in Hin. done.
Qed.

(** C27: A quota is never overrun.  Whatever other clients write between the
    steps of a charge, when it succeeds there is the quota as it was stored
    just before the write (never a stale copy), it did not refuse the object,
    and what is stored afterwards is its usage with the object's added to it,
    resource by resource; where the quota limits a resource the new usage is
    within the limit.  Nothing else is changed.  (Amounts are below 2^53, the
    integers a quantity keeps exactly.) *)
Theorem charge_within_quota env_read env_write s key resource obj delta s' :
  ready s → interference env_read → interference env_write → keys_sorted delta = true →
  charge float_text now env_read env_write s key resource obj delta 1 = (s', Some (Ok tt)) →
  ∃ sw q, writes float_text s sw ∧ Storage.get sw key = Some (Ok q) ∧ refusal float_text q resource obj delta = None ∧
    match as_object q.["spec"].["hard"] with
    | None => s' = sw
    | Some hard =>
        (∀ k, k ≠ key → Storage.get s' k = Storage.get sw k) ∧
        ∃ q', Storage.get s' key = Some (Ok q') ∧
        ∀ k, contains_key hard k = true →
          let u := get0 (used_of float_text q) k in let d := get0 delta k in
          0 ≤ u → 0 ≤ d → u + d < 2 ^ 53 →
          get0 (used_of float_text q') k = u + d ∧
          ∀ h, map_get (hard_of float_text q) k = Some h → contains_key delta k = true → u + d ≤ h
    end.
Proof.
  intros Hready Her Hew Hsorted. unfold charge. generalize ATTEMPTS as n. intros n. revert s Hready.
  induction n as [|n IH]; intros s Hready; cbn [charge_go]; [done|].
  destruct (interference_ready env_read n s Her Hready) as [Hw1 Hr1]. set (s1 := env_read n s) in *.
  destruct (Storage.get s1 key) as [[q|e]|] eqn:Eq; [|done|done]. cbn [Z.ltb Z.compare].
  destruct (refusal float_text q resource obj delta) as [why|] eqn:Eref; [done|].
  destruct (as_object q.["spec"].["hard"]) as [hard|] eqn:Eh.
  2: { intros [= <-]. exists s1, q. rewrite Eh. by split_and!. }
  destruct (with_charge q hard (charged (used_of float_text q) delta 1) (now n)) as [q1|] eqn:Eq1; [|done].
  destruct (interference_ready env_write n s1 Hew Hr1) as [Hw2 Hr2]. set (s2 := env_write n s1) in *.
  destruct (get_tidy s1 key q Hr1 Eq) as (Hwq & Hnq & Hrev & Hnz & Hu64).
  destruct (with_charge_spec _ _ _ _ _ Eq1 Hwq Hnq) as (Ho & Hw' & Hn' & Hused & _ & _ & Hrv).
  assert (rev q1 = Some (rev_of (view s1) key)) as Hrev1 by (unfold rev; by rewrite Hrv). rewrite Hrev1.
  pose proof (tidy_storable float_text key q1 Ho Hw' Hn') as Hst.
  destruct (stored_form_codec float_text key q1 Hst) as (Hso & _ & b & Hb & Hd).
  unfold update. unfold stored_form in Hb. rewrite Hb.
  destruct Hr1 as (Hwf1 & Hs1 & Hroom1 & Ht1). pose proof Hr2 as (Hwf2 & Hs2 & Hroom2 & Ht2).
  destruct (decide (rev_of (view s2) key = rev_of (view s1) key)) as [Hsame|Hdiff].
  - destruct (put_ok s2 key b (Some (rev_of (view s1) key)) Hwf2 Hs2 Hroom2 Hsame) as (s3 & Hp & Hwf3 & Hs3 & Hlt & Hv & _).
    rewrite Hp. destruct (inject_object (stored_form float_text key q1) (revision s3) Hso) as (o & Hi & _ & _).
    unfold stored_form in Hi. rewrite Hi. cbn [mbind option_bind]. intros [= <-].
    pose proof (cas_unseen float_text s1 s2 s3 key b _ _ Hwf1 Hs1 eq_refl Hnz Hw2 Hu64 Hp) as Hcas.
    assert (Storage.get s2 key = Some (Ok q)) as Eq2 by (rewrite <- Eq; by apply get_frame).
    exists s2, q. split_and!; [by eapply writes_trans|done|done|]. rewrite Eh. split.
    { intros k Hk. apply get_frame; try done. by rewrite Hv, map_get_insert_ne. }
    exists o. split; [by eapply (put_stored float_text s2 s3 key q1 b o)|]. intros k Hk Hu0 Hd0 Hlt53.
    set (u := get0 (used_of float_text q) k) in *. set (d := get0 delta k) in *.
    assert (get0 (used_of float_text o) k = u + d) as Hget.
    { unfold used_of, get0. rewrite amounts_get, (inject_status _ _ _ Hi).
      assert ((stored_form float_text key q1).["status"].["used"] = resource_list hard (charged (used_of float_text q) delta 1)) as Hsu
        by (apply stored_strings; [done|apply resource_list_strings]).
      unfold stored_form in Hsu. rewrite Hsu, resource_list_get, Hk. cbn [fmap option_fmap option_map default from_option id].
      fold (get0 (charged (used_of float_text q) delta 1) k). rewrite charged_get0 by (fold u d; done || lia).
      apply parse_format. lia. }
    split; [done|]. intros h Hh Hin. unfold contains_key in Hin. destruct (map_get delta k) as [m|] eqn:Em; [|done].
    assert (d = m) as Hdm by (unfold d, get0; by rewrite Em).
    pose proof (refusal_None q resource obj delta k m h Eref Em Hh) as Hle. fold u in Hle.
    rewrite wrap_i128_small in Hle by lia. lia.
  - rewrite put_conflict by done. cbn [from_error reason]. intros E.
    destruct (IH s2 Hr2 E) as (sw & q' & Hw & Hrest). exists sw, q'. split; [|done].
    exact (writes_trans _ _ _ _ Hw1 (writes_trans _ _ _ _ Hw2 Hw)).
Qed.
End ChargeTheorems.

Example pod_usage :
  let pod := json_obj [("spec", json_obj [
    ("containers", Array [json_obj [("name", Str "c"); ("resources", json_obj [("requests", json_obj [("cpu", Str "500m")])])]]);
    ("overhead", json_obj [("cpu", Str "100m")])])] in
  map_get (usage (λ _, "") "pods" "" pod) "requests.cpu" = Some 600 ∧
  map_get (usage (λ _, "") "pods" "" pod) "count/pods" = Some 1 ∧ missing pod "limits.cpu" = ["c"].
Proof. vm_compute. auto. Qed.

(** ** Witness: two of two pods *)

Module QuotaDemo.
#[local] Existing Instance Demo.codec.

Definition quota_key : string := namespaced_key "resourcequotas" "default" "q".
Definition quota : Value :=
  json_obj [("metadata", json_obj [("name", Str "q")]);
            ("spec", json_obj [("hard", json_obj [("pods", Str "2")])]);
            ("status", json_obj [("hard", json_obj [("pods", Str "2")]); ("used", json_obj [("pods", Str "1")])])].
Definition store : MemStore.t := Eval vm_compute in (create Demo.floats Demo.store0 quota_key quota).1.
Definition pod : Value := json_obj [("metadata", json_obj [("name", Str "p")])].
Definition delta : Usage := [("pods", 1)].

Lemma quota_wf : kv_wf store.
Proof. apply (mem_wf_put 0 _ quota_key _ false Demo.wf0). done. Qed.

Lemma quota_tidy : tidy store.
Proof.
  intros k b r E. change (view store) with (snd (MemStore.inner store)) in E. cbn [MemStore.inner store snd map_get] in E.
  match type of E with (if ?c then _ else _) = _ => destruct c; [|done] end. injection E as <- <-.
  eexists. split; [vm_compute; reflexivity|]. split_and!; vm_compute; reflexivity.
Qed.

Lemma alone : interference Demo.floats (λ _ s, s).
Proof. intros n s _ _ Hr. split; [constructor|done]. Qed.
End QuotaDemo.

#[local] Existing Instance Demo.codec.

Lemma charge_within_quota_witness :
  ∃ s', charge Demo.floats (λ _, "now") (λ _ s, s) (λ _ s, s)
          QuotaDemo.store QuotaDemo.quota_key "pods" QuotaDemo.pod QuotaDemo.delta 1 = (s', Some (Ok tt)) ∧
  ∃ sw q, refusal Demo.floats q "pods" QuotaDemo.pod QuotaDemo.delta = None ∧
    Storage.get sw QuotaDemo.quota_key = Some (Ok q).
Proof.
  eexists. split; [vm_compute; reflexivity|].
  edestruct (charge_within_quota Demo.floats (λ _, "now") (λ _ s, s) (λ _ s, s)
    QuotaDemo.store QuotaDemo.quota_key "pods" QuotaDemo.pod QuotaDemo.delta) as (sw & q & _ & Hg & Hr & _).
  - split; [exact QuotaDemo.quota_wf|]. split; [reflexivity|]. split; [reflexivity|exact QuotaDemo.quota_tidy].
  - exact QuotaDemo.alone.
  - exact QuotaDemo.alone.
  - reflexivity.
  - vm_compute. reflexivity.
  - exists sw, q. split; [exact Hr|exact Hg].
Defined.
