(* ===== verification/QuotaRecount.v ===== *)
(** * The quota controller ([pkg/controller-manager/src/resourcequota.rs])

    What a quota's namespace really holds, counted again: the objects of the
    watched kinds from the informers, other [count/] keys by a LIST, with the
    rules of [Quota] that admission charges by.  A usage lower than the stored
    one is not written within [SETTLE] of a charge.

    Parameters: [float_text] as in [Quota]; [parse_rfc3339] gives a time in
    nanoseconds, like [now].

    Proved: what a pass writes is the sum over the objects that the quota
    matches, in the revision observed, and it lowers nothing while a charge
    may not be visible yet. *)

From Stdlib Require Import ZArith Lia String Ascii.
From stdpp Require Import base gmap strings numbers option list.
From S2P Require Import Prelude Text BTree Json F64 Quantity Informer Owned Client Quota.
Open Scope string_scope.
Open Scope kube_scope.
Open Scope Z_scope.

Module Recount.
Definition SECOND : Z := 1000000000.
Definition RESYNC : Z := 300 * SECOND.
Definition SETTLE : Z := 5 * SECOND.

(** The watched kinds, (path, plural, group), in the order of the feeds. *)
Definition WATCHED : list (string * string * string) :=
  [("/api/v1/pods", "pods", ""); ("/api/v1/services", "services", ""); ("/api/v1/secrets", "secrets", "");
   ("/api/v1/configmaps", "configmaps", ""); ("/api/v1/persistentvolumeclaims", "persistentvolumeclaims", "");
   ("/api/v1/replicationcontrollers", "replicationcontrollers", ""); ("/api/v1/resourcequotas", "resourcequotas", "");
   ("/apis/apps/v1/replicasets", "replicasets", "apps")].

Definition list_path (base ns resource : string) : string := base ++ "/namespaces/" ++ ns ++ "/" ++ resource.

(** How many there are, by LIST. *)
Definition count (ns resource group : string) : Prog (result Z ClientError) :=
  base <-! (if is_empty_str group then Ret (Ok "/api/v1")
            else g <-! api_list ("/apis/" ++ group) ;; Ret (Ok ("/apis/" ++ group ++ "/" ++ str_or "v1" g.["preferredVersion"].["version"]))) ;;
  l <-! api_list (list_path base ns resource) ;;
  Ret (Ok (Z.of_nat (length (items l.["items"])))).

Definition count_target (key : string) : option (string * string) :=
  rest ← strip_prefix "count/" key; Some (match split_once "." rest with Some p => p | None => (rest, "") end).

Definition watched (resource group : string) : bool := existsb (λ w, str_eqb w.1.2 resource && str_eqb w.2 group) WATCHED.

Definition scoped (q : Value) : bool :=
  (match items q.["spec"].["scopes"] with [] => false | _ => true end) || is_object q.["spec"].["scopeSelector"].

Section Controller.
  Variables (float_text : f64 → string) (parse_rfc3339 : string → option Z).

(** How long a lower usage must wait, if it must. *)
Definition settling (q : Value) (now : Z) : option Z :=
  s ← as_str q.["metadata"].["annotations"].[CHARGED_AT];
  at_ ← parse_rfc3339 s;
  let age := Z.max 0 (now - at_) in
  if age <? SETTLE then Some (SETTLE - age) else None.

Definition add_all (used : Usage) (l : Usage) : Usage := fold_left (λ u kn, add u kn.1 kn.2) l used.

(** One kind's objects in the namespace. *)
Definition tally_kind (q : Value) (resource group : string) (objs : list Value) (used : Usage) : Usage :=
  fold_left (λ u obj, if matches float_text q resource group obj then add_all u (tracked q (usage float_text resource group obj)) else u) objs used.

Fixpoint tally (q : Value) (ns : string) (kinds : list (string * string * string)) (feeds : list Feed) (used : Usage) : result Usage string :=
  match kinds, feeds with
  | (_, resource, group) :: kinds, feed :: feeds =>
      objs <-? Informer.select feed (INamespace ns) ;; tally q ns kinds feeds (tally_kind q resource group objs used)
  | _, _ => Ok used
  end.

Fixpoint count_keys (q : Value) (ns : string) (keys : list string) (used : Usage) : Prog (result Usage ClientError) :=
  match keys with
  | [] => Ret (Ok used)
  | key :: keys =>
      match count_target key with
      | None => count_keys q ns keys used
      | Some (resource, group) =>
          if scoped q || watched resource group then count_keys q ns keys used
          else n <-! count ns resource group ;; count_keys q ns keys (map_insert used key n)
      end
  end.

Definition lowers (hard : Map) (desired stored : Value) : bool :=
  existsb (λ kv, parse float_text kv.1 desired.[kv.1] <? parse float_text kv.1 stored.[kv.1]) hard.

Definition quota_path (ns name : string) : string := "/api/v1/namespaces/" ++ ns ++ "/resourcequotas/" ++ name.

Definition reconcile (q : Value) (feeds : list Feed) (now : Z) : Prog (result unit ClientError) :=
  if negb (is_null q.["metadata"].["deletionTimestamp"]) then Ret (Ok tt)
  else
    let ns := str_or "default" q.["metadata"].["namespace"] in
    let name := str_or "" q.["metadata"].["name"] in
    let hard := default [] (as_object q.["spec"].["hard"]) in
    match tally q ns WATCHED feeds [] with
    | Err e => Ret (Err (Local e))
    | Ok used =>
        used <-! count_keys q ns hard.*1 used ;;
        let desired := resource_list hard used in
        let stored := q.["status"].["used"] in
        match (if lowers hard desired stored then settling q now else None) with
        | Some wait => Tell (Requeue wait) (Ret (Ok tt))
        | None =>
            Tell (Requeue RESYNC)
              (if same float_text q.["status"].["hard"] (Object hard) && same float_text stored desired then Ret (Ok tt)
               else match set_index q "status" (json_obj [("hard", Object hard); ("used", desired)]) with
                    | None => Ret (Err (Local "panic"))
                    | Some updated => _ <-! api_update_status (quota_path ns name) updated ;; Ret (Ok tt)
                    end)
        end
    end.
End Controller.
End Recount.
Import Recount.

Section Theorems.
  Variables (float_text : f64 → string) (parse_rfc3339 : string → option Z).

(** ** What the namespace holds *)

(** What one object takes of [k], and what the objects of the watched kinds
    take together. *)
Definition takes (q : Value) (k resource group : string) (obj : Value) : Z :=
  if matches float_text q resource group obj
  then sumZ (λ kn : string * Z, if str_eqb k kn.1 then kn.2 else 0) (tracked q (usage float_text resource group obj)) else 0.

Fixpoint held (q : Value) (ns k : string) (kinds : list (string * string * string)) (feeds : list Feed) : Z :=
  match kinds, feeds with
  | (_, resource, group) :: kinds, feed :: feeds =>
      sumZ (takes q k resource group) (select_or_empty feed (INamespace ns)) + held q ns k kinds feeds
  | _, _ => 0
  end.

Lemma wrap_i128_add a b : wrap_i128 (wrap_i128 a + b) = wrap_i128 (a + b).
Proof.
  unfold wrap_i128. f_equal. replace ((a + 2 ^ 127) mod 2 ^ 128 - 2 ^ 127 + b + 2 ^ 127) with ((a + 2 ^ 127) mod 2 ^ 128 + b) by lia.
  rewrite Zplus_mod_idemp_l. f_equal. lia.
Qed.

(** [u] holds [z] of [k], at the width of the counter. *)
Definition holds (u : Usage) (k : string) (z : Z) : Prop := default 0 (map_get u k) = wrap_i128 z.

Lemma add_holds u k k' n z : holds u k z → holds (add u k' n) k (z + if str_eqb k k' then n else 0).
Proof.
  unfold holds, add. intros Hu. rewrite map_get_insert. destruct (str_eqb k k') eqn:E; cbn [default from_option id].
  - apply str_eqb_eq in E as ->. by rewrite Hu, wrap_i128_add.
  - by rewrite Z.add_0_r.
Qed.

Lemma add_all_holds k l : ∀ u z, holds u k z → holds (add_all u l) k (z + sumZ (λ kn : string * Z, if str_eqb k kn.1 then kn.2 else 0) l).
Proof.
  induction l as [|[k' n] l IH]; intros u z Hu; [by rewrite sumZ_nil, Z.add_0_r|]. rewrite sumZ_cons, Z.add_assoc. cbn [add_all fold_left fst snd].
  by apply IH, add_holds.
Qed.

Lemma tally_kind_holds q resource group k objs : ∀ u z, holds u k z →
  holds (tally_kind float_text q resource group objs u) k (z + sumZ (takes q k resource group) objs).
Proof.
  induction objs as [|obj objs IH]; intros u z Hu; [by rewrite sumZ_nil, Z.add_0_r|]. rewrite sumZ_cons, Z.add_assoc. cbn [tally_kind fold_left].
  apply IH. unfold takes. destruct (matches _ _ _ _ _); [by apply add_all_holds|by rewrite Z.add_0_r].
Qed.

Lemma tally_holds q ns k kinds : ∀ feeds u z used, holds u k z → tally float_text q ns kinds feeds u = Ok used → holds used k (z + held q ns k kinds feeds).
Proof.
  induction kinds as [|[[p resource] group] kinds IH]; intros feeds u z used Hu; cbn [tally held]; [intros [= <-]; by rewrite Z.add_0_r|].
  destruct feeds as [|feed feeds]; [intros [= <-]; by rewrite Z.add_0_r|]. unfold select_or_empty. destruct (Informer.select feed _) as [objs|]; [|done].
  cbn [result_bind]. rewrite Z.add_assoc. apply IH. by apply tally_kind_holds.
Qed.

(** ** Keys counted by a LIST *)

Definition listed_key (q : Value) (k : string) : option (string * string) :=
  rg ← count_target k; if scoped q || watched rg.1 rg.2 then None else Some rg.

(** The server listed that many. *)
Definition listed (t : list Event) (ns resource : string) (n : Z) : Prop :=
  ∃ base s l, EAsk (QList (list_path base ns resource)) (AResponse s (Some l)) ∈ t ∧ n = Z.of_nat (length (items l.["items"])).

Lemma api_list_ok path t (v : Value) : exec (api_list path) t (Ok v) → ∃ s, EAsk (QList path) (AResponse s (Some v)) ∈ t.
Proof.
  unfold api_list. intros (a & t' & -> & E)%exec_ask_inv. destruct a as [|s body].
  { by apply exec_tell_inv in E as (? & _ & [_ [=]]%exec_ret_inv). }
  destruct (is_error s); [by apply exec_tell_inv in E as (? & _ & [_ [=]]%exec_ret_inv)|].
  destruct body as [w|]; [|by apply exec_tell_inv in E as (? & _ & [_ [=]]%exec_ret_inv)].
  apply exec_ret_inv in E as [-> [= ->]]. exists s. left.
Qed.

Definition only_lists (q : Request) : Prop := match q with QList _ => True | _ => False end.

Lemma api_list_asks path : emits (asks only_lists) (api_list path).
Proof. apply emits_ask; [done|]. intros [|s b]; [apply emits_check|]. destruct (is_error s); [apply emits_check|]. destruct b; [apply emits_ret|apply emits_check]. Qed.

Lemma count_asks ns resource group : emits (asks only_lists) (count ns resource group).
Proof.
  apply emits_bind_ok; [destruct (is_empty_str group); [apply emits_ret|]; apply emits_bind_ok; [apply api_list_asks|intros g; apply emits_ret]|].
  intros base. apply emits_bind_ok; [apply api_list_asks|]. intros l. apply emits_ret.
Qed.

Lemma count_listed ns resource group t n : exec (count ns resource group) t (Ok n) → listed t ns resource n.
Proof.
  intros [(t1 & t2 & base & _ & E & ->)|(e & _ & [=])]%exec_bind_ok. apply exec_bind_ok in E as [(t3 & t4 & l & E3 & E4 & ->)|(e & _ & [=])].
  apply exec_ret_inv in E4 as [-> [= ->]]. apply api_list_ok in E3 as [s Hs]. exists base, s, l. split; [rewrite !elem_of_app; auto|done].
Qed.

Lemma count_keys_spec q ns keys : NoDup keys → ∀ used t r, exec (count_keys q ns keys used) t r →
  Forall (asks only_lists) t ∧ ∀ used', r = Ok used' → ∀ k,
    match (if bool_decide (k ∈ keys) then listed_key q k else None) with
    | Some (resource, group) => ∃ n, map_get used' k = Some n ∧ listed t ns resource n
    | None => map_get used' k = map_get used k
    end.
Proof.
  unfold listed_key. induction 1 as [|key keys Hkey Hnd IH]; intros used t r; cbn [count_keys].
  { intros [-> ->]%exec_ret_inv. split; [constructor|]. by intros used' [= <-] k. }
  assert (∀ used t, (rg ← count_target key; if scoped q || watched rg.1 rg.2 then None else Some rg) = None → exec (count_keys q ns keys used) t r →
    Forall (asks only_lists) t ∧ ∀ used', r = Ok used' → ∀ k,
    match (if bool_decide (k ∈ key :: keys) then rg ← count_target k; if scoped q || watched rg.1 rg.2 then None else Some rg else None) with
    | Some (resource, group) => ∃ n, map_get used' k = Some n ∧ listed t ns resource n
    | None => map_get used' k = map_get used k
    end) as Hskip.
  { intros u t' Hn E. destruct (IH u t' r E) as [Ha Hk]. split; [done|]. intros used' Hr k. specialize (Hk used' Hr k).
    destruct (decide (k = key)) as [->|Hne]; [rewrite bool_decide_true, Hn by left; by rewrite bool_decide_false in Hk|].
    by rewrite (bool_decide_ext (k ∈ key :: keys) (k ∈ keys)) by (rewrite elem_of_cons; naive_solver). }
  destruct (count_target key) as [[resource group]|] eqn:Et; cbn [mbind option_bind fst snd] in Hskip; [|by apply Hskip].
  destruct (scoped q || watched resource group) eqn:Ew; [by apply Hskip|]. clear Hskip.
  intros [(t1 & t2 & n & E1 & E2 & ->)|(e & E & ->)]%exec_bind_ok; [|split; [by apply count_asks in E|done]].
  pose proof (count_asks _ _ _ _ _ E1) as Ha1. apply count_listed in E1. destruct (IH _ _ _ E2) as [Ha2 Hk]. split; [by apply Forall_app|].
  intros used' Hr k. specialize (Hk used' Hr k).
  assert (∀ resource n, listed t2 ns resource n → listed (t1 ++ t2) ns resource n) as Hl.
  { intros r' m (base & s & l & Hin & ->). exists base, s, l. split; [apply elem_of_app; by right|done]. }
  destruct (decide (k = key)) as [->|Hne].
  - rewrite bool_decide_true, Et by left. cbn [mbind option_bind fst snd]. rewrite Ew. rewrite bool_decide_false in Hk by done.
    exists n. split; [by rewrite Hk, map_get_insert_eq|]. destruct E1 as (base & s & l & Hin & ->). exists base, s, l. split; [apply elem_of_app; by left|done].
  - rewrite (bool_decide_ext (k ∈ key :: keys) (k ∈ keys)) by (rewrite elem_of_cons; naive_solver).
    destruct (if bool_decide (k ∈ keys) then _ else _) as [[r' g']|]; [|by rewrite Hk, map_get_insert_ne].
    destruct Hk as (m & Hm & Hlm). exists m. split; [done|by apply Hl].
Qed.

Lemma contains_key_elem (m : Map) k : contains_key m k = true → k ∈ m.*1.
Proof.
  unfold contains_key. induction m as [|[k' v] m IH]; cbn; [done|]. destruct (str_eqb k k') eqn:E; [apply str_eqb_eq in E as ->; left|].
  intros H. right. by apply IH.
Qed.

Lemma sorted_keys_nodup (m : Map) : keys_sorted m = true → NoDup m.*1.
Proof.
  induction m as [|[k v] m IH]; [constructor|]. intros [Ha Hs]%keys_sorted_cons. cbn. apply list.NoDup_cons. split; [|by apply IH].
  intros (kv & -> & Hin)%list_elem_of_fmap. unfold above in Ha. rewrite Forall_forall in Ha. apply Ha in Hin. cbn in Hin. by apply str_ltb_neq in Hin.
Qed.

Lemma hard_nodup q : wf_value q = true → NoDup (default [] (as_object q.["spec"].["hard"])).*1.
Proof.
  intros Hwf. destruct (q.["spec"].["hard"]) as [| | | | |m] eqn:E; try apply NoDup_nil_2. cbn [as_object default from_option id].
  assert (wf_value (Object m) = true) as Hm by (rewrite <-E; by repeat apply wf_index). cbn in Hm. apply andb_true_iff in Hm as [Hs _]. by apply sorted_keys_nodup.
Qed.

(** a quota's usage is what its namespace holds.  Whatever the server
    answers, a pass writes at most the status of this quota, in the revision
    observed: its hard limits, and for each of them the sum over the objects
    of the watched kinds that the quota matches — or, for a count of another
    kind, the number the server listed.  It writes only when that differs from
    what is stored, and lowers an amount only when no charge of the last
    [SETTLE] may still be invisible; a failed read or LIST writes nothing. *)
Theorem quota_recount_exact q feeds now t x p b a :
  exec (reconcile float_text parse_rfc3339 q feeds now) t x → EAsk (QPut p b) a ∈ t → wf_value q = true →
  let ns := str_or "default" q.["metadata"].["namespace"] in
  let hard := default [] (as_object q.["spec"].["hard"]) in
  p = quota_path ns (str_or "" q.["metadata"].["name"]) ++ "/status" ∧ b.["metadata"] = q.["metadata"] ∧ b.["status"].["hard"] = Object hard ∧
  (∀ k, contains_key hard k = true → ∃ n, b.["status"].["used"].[k] = Str (format k n) ∧
     match listed_key q k with
     | Some (resource, _) => listed t ns resource n
     | None => n = wrap_i128 (held q ns k WATCHED feeds)
     end) ∧
  (lowers float_text hard b.["status"].["used"] q.["status"].["used"] = true → settling parse_rfc3339 q now = None) ∧
  same float_text q.["status"].["hard"] (Object hard) && same float_text q.["status"].["used"] b.["status"].["used"] = false.
Proof.
  unfold reconcile. destruct (is_null _); cbn [negb]; [|intros [-> _]%exec_ret_inv Hin; by apply not_elem_of_nil in Hin].
  intros E Hin Hwf. set (ns := str_or "default" q.["metadata"].["namespace"]) in *. set (hard := default [] (as_object q.["spec"].["hard"])) in *.
  destruct (tally _ _ _ _ _ _) as [used0|e] eqn:Et; [|apply exec_ret_inv in E as [-> _]; by apply not_elem_of_nil in Hin].
  assert (NoDup hard.*1) as Hnd by (by apply hard_nodup).
  apply exec_bind_ok in E as [(t1 & t2 & used & E1 & E2 & ->)|(e & E & _)].
  2: { apply (count_keys_spec q ns _ Hnd) in E as [Ha _]. rewrite Forall_forall in Ha. by apply Ha in Hin. }
  destruct (count_keys_spec q ns _ Hnd _ _ _ E1) as [Ha Hk]. specialize (Hk used eq_refl).
  apply elem_of_app in Hin as [Hin|Hin]; [rewrite Forall_forall in Ha; by apply Ha in Hin|]. cbn zeta in E2.
  destruct (if lowers _ _ _ _ then _ else _) as [wait|] eqn:Ew.
  { apply exec_tell_inv in E2 as (t3 & -> & [-> _]%exec_ret_inv). apply elem_of_cons in Hin as [Hin|Hin]; [done|by apply not_elem_of_nil in Hin]. }
  apply exec_tell_inv in E2 as (t3 & -> & E2). apply elem_of_cons in Hin as [Hin|Hin]; [done|].
  destruct (same _ _ _ && same _ _ _) eqn:Es; [apply exec_ret_inv in E2 as [-> _]; by apply not_elem_of_nil in Hin|].
  destruct (set_index _ _ _) as [u|] eqn:Eu; [|apply exec_ret_inv in E2 as [-> _]; by apply not_elem_of_nil in Hin].
  assert (Forall (asks (λ r, r = QPut (quota_path ns (str_or "" q.["metadata"].["name"]) ++ "/status") u)) t3) as Hp.
  { revert E2. apply emits_bind_ok; [apply emits_send_json|]. intros ?. apply emits_ret. }
  rewrite Forall_forall in Hp. apply Hp in Hin. cbn in Hin. injection Hin as -> ->. clear Hp.
  assert (u.["metadata"] = q.["metadata"]) as -> by (eapply index_set_index_ne; [|exact Eu]; done). rewrite (index_set_index _ _ _ _ Eu).
  split_and!; [done..| | |exact Es].
  - intros k Hc. exists (default 0 (map_get used k)). split.
    + change (index (resource_list hard used) k = Str (format k (default 0 (map_get used k)))). pose proof (resource_list_get hard used k) as Hg.
      rewrite Hc in Hg. unfold index, Json.get. unfold resource_list in Hg |- *. cbn [entries as_object default from_option id] in Hg. by rewrite Hg.
    + specialize (Hk k). rewrite bool_decide_true in Hk by (by apply contains_key_elem). destruct (listed_key q k) as [[resource group]|].
      * destruct Hk as (n & -> & (base & s & l & Hl & ->)). exists base, s, l. split; [apply elem_of_app; by left|done].
      * rewrite Hk. by apply (tally_holds q ns k WATCHED feeds [] 0).
  - intros Hl. change (lowers float_text hard (resource_list hard used) q.["status"].["used"] = true) in Hl. by rewrite Hl in Ew.
Qed.
End Theorems.

(** *** Witness *)

Module RecountDemo.
Definition quota : Value :=
  json_obj [("metadata", json_obj [("name", Str "q"); ("namespace", Str "d"); ("resourceVersion", Str "3")]);
            ("spec", json_obj [("hard", json_obj [("count/widgets.x.io", Str "5"); ("secrets", Str "4")])])].
Definition secret (n : string) : Value := json_obj [("metadata", json_obj [("name", Str n); ("namespace", Str "d"); ("uid", Str n)])].
(** Two secrets, nothing else; three widgets listed by the server. *)
Definition feeds : list Feed :=
  Informer.run (demo_feed []) :: Informer.run (demo_feed []) :: Informer.run (demo_feed [secret "a"; secret "b"]) :: replicate 5 (Informer.run (demo_feed [])).
Definition answers : list Answer :=
  [AResponse 200 (Some (json_obj [("preferredVersion", json_obj [("version", Str "v1")])]));
   AResponse 200 (Some (json_obj [("items", Array [Null; Null; Null])])); AResponse 200 (Some (json_obj []))].
Definition text (f : f64) : string := "".

Definition written : option (list Value) :=
  (λ tr : list Event * result unit ClientError, omap (λ e, match e with EAsk (QPut _ b) _ => Some b.["status"].["used"] | _ => None end) tr.1)
    <$> play answers (reconcile text (λ _, None) quota feeds 0).
Example recounted : written = Some [json_obj [("count/widgets.x.io", Str "3"); ("secrets", Str "2")]].
Proof. vm_compute. reflexivity. Qed.
End RecountDemo.
Import RecountDemo.

Lemma quota_recount_exact_witness :
  ∃ t x p b a, exec (reconcile text (λ _, None) quota feeds 0) t x ∧ EAsk (QPut p b) a ∈ t ∧ b.["metadata"] = quota.["metadata"] ∧
    ∃ n, b.["status"].["used"].["secrets"] = Str (format "secrets" n) ∧ n = 2.
Proof.
  destruct (play answers (reconcile text (λ _, None) quota feeds 0)) as [[t x]|] eqn:E; [|by vm_compute in E].
  apply play_exec in E as Hx. vm_compute in E. injection E as Et _.
  assert (∃ p b a, EAsk (QPut p b) a ∈ t) as (p & b & a & Hin) by (rewrite <-Et; eexists _, _, _; do 3 right; left).
  clear Et. exists t, x, p, b, a.
  destruct (quota_recount_exact text (λ _, None) quota feeds 0 t x p b a Hx Hin ltac:(by vm_compute)) as (_ & Hm & _ & Hu & _).
  split_and!; [done..|]. destruct (Hu "secrets" ltac:(by vm_compute)) as (n & Hn & Hv). exists n. split; [done|]. rewrite Hv. by vm_compute.
Defined.
