(* ===== verification/WatchStream.v ===== *)
(** * Watch responses ([pkg/apiserver/src/watch.rs])

    Turning watch events into the lines of a watch response: the selectors of
    the request, the initial state, bookmarks, and the query parameters.  What
    a client that applies the lines ends up with is proved to be the matching
    objects of the store. *)

From Stdlib Require Import ZArith Lia String Ascii.
From stdpp Require Import base gmap strings numbers option list.
From S2P Require Import Prelude Text BTree Json F64 Quantity Store ApiError Codec Storage WatchCache Selector.
Import Query.
Open Scope string_scope.
Open Scope kube_scope.
Open Scope Z_scope.

(** ** Definitions *)

Definition BOOKMARK_INTERVAL_SECS : Z := 45.

Definition wants_partial_metadata (accept : string) : bool := contains_sub "as=PartialObjectMetadata" accept.

Definition to_partial_object_metadata (obj : Value) : Value :=
  json_obj [("apiVersion", Str "meta.k8s.io/v1"); ("kind", Str "PartialObjectMetadata");
            ("metadata", default (Object []) (Json.get obj "metadata"))].

(** This module's [inject_resource_version]: only into a [metadata] that is there. *)
Definition stamp_version (obj : Value) (revision : Z) : Value :=
  match obj with
  | Object m =>
      match map_get m "metadata" with
      | Some (Object i) => Object (map_insert m "metadata" (Object (map_insert i "resourceVersion" (Str (show_u revision)))))
      | _ => obj
      end
  | _ => obj
  end.

Definition split_key (key : string) : option string * string :=
  let parts := split_on "/" (trim_start_char "/" key) in
  let resource_len := match parts !! 1%nat with Some seg => if str_contains_char "." seg then 2%nat else 1%nat | None => 1%nat end in
  match drop (1 + resource_len) parts with
  | [namespace; name] => (Some namespace, name)
  | [name] => (None, name)
  | _ => (None, default "" (list.last parts))
  end.

(** The type and object of a BOOKMARK. *)
Definition bookmark (revision : Z) (initial_end : bool) (api_version kind : string) : string * Value :=
  let meta := json_obj [("resourceVersion", Str (show_u revision))] in
  let meta := if initial_end
              then json_obj [("annotations", json_obj [("k8s.io/initial-events-end", Str "true")]);
                             ("resourceVersion", Str (show_u revision))]
              else meta in
  ("BOOKMARK", json_obj [("apiVersion", Str api_version); ("kind", Str kind); ("metadata", meta)]).

Definition has_kind (obj : Value) : bool := match Json.get obj "kind" ≫= as_str with Some _ => true | None => false end.

(** [None] is a panic: an index assignment into a value that is no object. *)
Definition backfill_type (obj : Value) (api_version kind : string) : option Value :=
  if has_kind obj then Some obj
  else obj ← set_index obj "apiVersion" (Str api_version); set_index obj "kind" (Str kind).

Section Rendering.
  Context `{JsonCodec}.
  Variable number_text : Number → string.
  Variable json_text : Value → string.
  (** The options of the response that rendering reads. *)
  Variable label_sel field_sel : option string.
  Variable api_version kind : string.
  Variable metadata_only : bool.
  Variable transform : option (Value → Value).

Definition selected (obj : Value) : bool := matches_selectors number_text json_text obj label_sel field_sel.

Definition project (obj : Value) : Value :=
  let obj := match transform with Some f => f obj | None => obj end in
  if metadata_only then to_partial_object_metadata obj else obj.

Definition render_line (line : string * Value) : string :=
  match to_vec (json_obj [("object", line.2); ("type", Str line.1)]) with Ok text => text | Err _ => "" end ++ String "010" "".

(** The type and object of the line of a live event, [Some None] when it is
    filtered out, [None] a panic. *)
Definition event_object (event : WatchEvent) : option (option (string * Value)) :=
  let finish event_type obj := o ← backfill_type (project obj) api_version kind; Some (Some (event_type, o)) in
  match event with
  | Added _ value revision =>
      let obj := match from_slice value with Ok v => v | Err _ => Object [] end in
      let obj := stamp_version obj revision in
      if negb (selected obj) then Some None else finish "ADDED" obj
  | Modified _ value revision prev_value =>
      let obj := match from_slice value with Ok v => v | Err _ => Object [] end in
      let obj := stamp_version obj revision in
      let now := selected obj in
      let before := prev_value ≫= λ b, match from_slice b with Ok p => Some (selected p) | Err _ => None end in
      match before, now with
      | Some false, true => finish "ADDED" obj
      | _, true => finish "MODIFIED" obj
      | Some true, false => finish "DELETED" obj
      | _, false => Some None
      end
  | Deleted key revision prev_value =>
      match prev_value ≫= λ b, match from_slice b with Ok p => if is_object p then Some p else None | Err _ => None end with
      | Some obj =>
          let obj := stamp_version obj revision in
          if negb (selected obj) then Some None else finish "DELETED" obj
      | None =>
          let '(namespace, name) := split_key key in
          let meta := match namespace with
                      | Some ns => json_obj [("name", Str name); ("namespace", Str ns); ("resourceVersion", Str (show_u revision))]
                      | None => json_obj [("name", Str name); ("resourceVersion", Str (show_u revision))]
                      end in
          Some (Some ("DELETED", json_obj [("apiVersion", Str api_version); ("kind", Str kind); ("metadata", meta)]))
      end
  | WatchError code message _ =>
      Some (Some ("ERROR", json_obj [("apiVersion", Str "v1"); ("code", Num (PosInt code)); ("kind", Str "Status");
        ("message", Str message); ("reason", Str (if code =? 410 then "Expired" else "ServiceUnavailable")); ("status", Str "Failure")]))
  | Bookmark revision => Some (Some (bookmark revision false api_version kind))
  end.

Definition render_event (event : WatchEvent) : option (option string) :=
  option_map (option_map render_line) (event_object event).

Definition initial_object (obj : Value) (list_rev : Z) : option (option (string * Value)) :=
  obj ← backfill_type obj api_version kind;
  let has_rv := match get_path obj ["metadata"; "resourceVersion"] ≫= as_str with Some s => negb (is_empty_str s) | None => false end in
  let obj := if has_rv then obj else stamp_version obj list_rev in
  if negb (selected obj) then Some None else Some (Some ("ADDED", project obj)).

Definition render_initial_added (obj : Value) (list_rev : Z) : option (option string) :=
  option_map (option_map render_line) (initial_object obj list_rev).

(** ** The stream *)

(** What wakes the stream's task: an event or the end of its source, a
    heartbeat, the deadline, the client's going away. *)
Inductive Input :=
| Recv (event : option WatchEvent)
| IdleTick
| DeadlinePassed
| ClientGone.

(** The initial part: the lines, and whether the task goes on. *)
Fixpoint serve_initial (expired : nat → bool) (i : nat) (items : list Value) (list_rev : Z) : option (list string * bool) :=
  match items with
  | [] => Some ([], true)
  | obj :: items =>
      if expired i then Some ([], false)
      else
        l ← render_initial_added obj list_rev;
        '(ls, on) ← serve_initial expired (S i) items list_rev;
        Some (option_list l ++ ls, on)%list
  end.

Fixpoint serve_live (allow_bookmarks : bool) (inputs : list Input) (last_rev : Z) : option (list string) :=
  match inputs with
  | [] => Some []
  | ClientGone :: _ | DeadlinePassed :: _ | Recv None :: _ => Some []
  | Recv (Some event) :: inputs =>
      l ← render_event event;
      match event with
      | WatchError _ _ _ => Some (option_list l)
      | _ => ls ← serve_live allow_bookmarks inputs (event_revision event); Some (option_list l ++ ls)%list
      end
  | IdleTick :: inputs =>
      ls ← serve_live allow_bookmarks inputs last_rev;
      Some (if allow_bookmarks then render_line (bookmark last_rev false api_version kind) :: ls else ls)
  end.

(** The lines of a response. *)
Definition watch_response (initial : option (list Value * Z)) (initial_end_bookmark allow_bookmarks : bool)
    (expired : nat → bool) (inputs : list Input) : option (list string) :=
  match initial with
  | None => serve_live allow_bookmarks inputs 0
  | Some (items, list_rev) =>
      '(ls, on) ← serve_initial expired 0 items list_rev;
      if negb on then Some ls
      else
        let ls := if initial_end_bookmark then (ls ++ [render_line (bookmark list_rev true api_version kind)])%list else ls in
        rest ← serve_live allow_bookmarks inputs list_rev;
        Some (ls ++ rest)%list
  end.
End Rendering.

(** ** Query parameters *)

Record WatchParams := mkParams {
  wp_watch : bool;
  wp_resource_version : option Z;
  wp_resource_version_raw : option string;
  wp_resource_version_match : option string;
  wp_limit : option Z;
  wp_continue_token : option string;
  wp_label_selector : option string;
  wp_field_selector : option string;
  wp_allow_watch_bookmarks : bool;
  wp_send_initial_events : bool;
  wp_timeout_seconds : option string }.

Definition no_params : WatchParams := mkParams false None None None None None None None false false None.

(** One decoded pair of the query. *)
Definition take_param (p : WatchParams) (kv : string * string) : WatchParams :=
  let '(key, val) := kv in
  let flag := str_in val ["true"; "1"] in
  let keep old := if is_empty_str val then old else Some val in
  match p with
  | mkParams w rv raw m lim c l f b i t =>
      if (key =? "watch")%kube then mkParams flag rv raw m lim c l f b i t
      else if (key =? "allowWatchBookmarks")%kube then mkParams w rv raw m lim c l f flag i t
      else if (key =? "sendInitialEvents")%kube then mkParams w rv raw m lim c l f b flag t
      else if (key =? "resourceVersion")%kube then mkParams w (parse_u64 val) (Some val) m lim c l f b i t
      else if (key =? "resourceVersionMatch")%kube then mkParams w rv raw (Some val) lim c l f b i t
      else if (key =? "timeoutSeconds")%kube then mkParams w rv raw m lim c l f b i (keep t)
      else if (key =? "limit")%kube then mkParams w rv raw m (parse_u64 val) c l f b i t
      else if (key =? "continue")%kube then mkParams w rv raw m lim (keep c) l f b i t
      else if (key =? "labelSelector")%kube then mkParams w rv raw m lim c (keep l) f b i t
      else if (key =? "fieldSelector")%kube then mkParams w rv raw m lim c l (keep f) b i t
      else p
  end.

(** [from_query], over the pairs [form_urlencoded::parse] decodes. *)
Definition from_query (pairs : list (string * string)) : WatchParams := fold_left take_param pairs no_params.

(** Seconds; [Some 0] is already expired. *)
Definition timeout (p : WatchParams) : result (option Z) ApiError :=
  match wp_timeout_seconds p with
  | None => Ok None
  | Some raw =>
      match parse_i64 (trim raw) with
      | None => Err (bad_request ("timeoutSeconds: Invalid value: " ++ quoted raw ++ ": must be an integer"))
      | Some secs => Ok (if secs =? 0 then None else if secs <? 0 then Some 0 else Some secs)
      end
  end.

Definition wants_initial_state (p : WatchParams) : bool :=
  wp_send_initial_events p || match wp_resource_version p with None => true | Some r => (r =? 0)%Z end.

Definition read (debug : string → string) (p : WatchParams) : result Read ApiError :=
  from_params debug (wp_resource_version_raw p) (wp_resource_version_match p).

(** ** Selectors and versions *)

(** The field selector does not look at [metadata.resourceVersion]. *)
Definition path_ignores_version (f : string) : bool :=
  match split_on "." f with
  | [k] => negb (k =? "metadata")%kube
  | k :: k2 :: _ => negb ((k =? "metadata")%kube && (k2 =? "resourceVersion")%kube)
  | [] => false
  end.

Definition ignores_version (field_sel : option string) : bool :=
  forallb (λ req, path_ignores_version (field req)) (default [] (parse_field_selector <$> field_sel)).

Lemma stamp_get obj r k : k ≠ "metadata" → Json.get (stamp_version obj r) k = Json.get obj k.
Proof.
  intros Hk. destruct obj as [| | | | |m]; try done. cbn [stamp_version].
  destruct (map_get m "metadata") as [[| | | | |i]|] eqn:E; try done. cbn [Json.get]. by rewrite map_get_insert_ne.
Qed.

Lemma stamp_metadata obj r k : k ≠ "resourceVersion" →
  (Json.get (stamp_version obj r) "metadata" ≫= λ m, Json.get m k) = (Json.get obj "metadata" ≫= λ m, Json.get m k).
Proof.
  intros Hk. destruct obj as [| | | | |m]; try done. cbn [stamp_version Json.get].
  destruct (map_get m "metadata") as [[| | | | |i]|] eqn:E; cbn [Json.get]; rewrite ?E; try done.
  rewrite map_get_insert_eq. cbn [mbind option_bind Json.get]. by rewrite map_get_insert_ne.
Qed.

Lemma stamp_path obj r k ks :
  match k :: ks with [k] => k ≠ "metadata" | k :: k2 :: _ => ¬ (k = "metadata" ∧ k2 = "resourceVersion") | [] => True end →
  get_path (stamp_version obj r) (k :: ks) = get_path obj (k :: ks).
Proof.
  intros Hp. cbn [get_path]. destruct (decide (k = "metadata")) as [->|Hk]; [|by rewrite stamp_get].
  destruct ks as [|k2 ks]; [done|]. cbn [get_path].
  assert (k2 ≠ "resourceVersion") as Hk2 by (intros ->; by apply Hp).
  pose proof (stamp_metadata obj r k2 Hk2) as E.
  destruct (Json.get (stamp_version obj r) "metadata"), (Json.get obj "metadata"); cbn [mbind option_bind] in *; rewrite ?E; try done.
  - by rewrite <- E.
Qed.

Section Selected.
  Variable number_text : Number → string.
  Variable json_text : Value → string.

Lemma stamp_resolve obj r path :
  path_ignores_version path = true → resolve_field number_text json_text (stamp_version obj r) path = resolve_field number_text json_text obj path.
Proof.
  intros Hp. unfold resolve_field. rewrite stamp_get by done.
  set (p := if str_eqb path "source" && _ then _ else _).
  assert (path_ignores_version p = true) as Hp' by (unfold p; by case_match). clearbody p. clear Hp path.
  unfold path_ignores_version in Hp'. destruct (split_on "." p) as [|k ks]; [done|]. rewrite stamp_path; [done|].
  destruct ks as [|k2 ks].
  - by apply negb_true_iff, str_eqb_neq in Hp'.
  - intros [-> ->]. done.
Qed.

Lemma stamp_selected label_sel field_sel obj r :
  ignores_version field_sel = true →
  selected number_text json_text label_sel field_sel (stamp_version obj r) = selected number_text json_text label_sel field_sel obj.
Proof.
  intros Hi. unfold selected, matches_selectors.
  assert (entries (index (index (stamp_version obj r) "metadata") "labels") = entries (index (index obj "metadata") "labels")) as ->.
  { f_equal. pose proof (stamp_metadata obj r "labels" ltac:(done)) as E. unfold index.
    destruct (Json.get (stamp_version obj r) "metadata"), (Json.get obj "metadata"); cbn in *; first [by rewrite E|by rewrite <- E|done]. }
  assert (∀ reqs, forallb (λ req, path_ignores_version (field req)) reqs = true →
    matches_field_selector number_text json_text (stamp_version obj r) reqs = matches_field_selector number_text json_text obj reqs) as Hf.
  { unfold matches_field_selector. induction reqs as [|q reqs IH]; [done|]. cbn. intros [H1 H2]%andb_true_iff.
    by rewrite stamp_resolve, IH. }
  unfold ignores_version in Hi. by rewrite (Hf _ Hi).
Qed.
End Selected.

(** ** What a client holds *)

Section Client.
  Context `{JsonCodec}.
  Variable number_text : Number → string.
  Variable json_text : Value → string.
  Variable label_sel field_sel : option string.
  Variable api_version kind : string.
  Variable metadata_only : bool.
  Variable transform : option (Value → Value).
  Notation selected := (selected number_text json_text label_sel field_sel).
  Notation project := (project metadata_only transform).
  Notation event_object := (event_object number_text json_text label_sel field_sel api_version kind metadata_only transform).

(** A client's copy, by store key: DELETED removes, anything else sets. *)
Definition client_apply (c : BTreeMap Value) (key : string) (line : string * Value) : BTreeMap Value :=
  if (line.1 =? "DELETED")%kube then map_remove c key else map_insert c key line.2.

Definition event_key (e : WatchEvent) : option string :=
  match e with Added k _ _ | Modified k _ _ _ | Deleted k _ _ => Some k | _ => None end.

(** The pump's snapshot and the client's copy, event by event. *)
Fixpoint client_follow (m : Snapshot) (c : BTreeMap Value) (evs : list WatchEvent) : option (BTreeMap Value) :=
  match evs with
  | [] => Some c
  | ev :: evs =>
      let '(m', ev') := apply_event m ev in
      o ← event_object ev';
      let c' := match event_key ev', o with Some k, Some line => client_apply c k line | _, _ => c end in
      client_follow m' c' evs
  end.

(** The stored value reads as an object that names its kind. *)
Definition readable_value (b : bytes) : Prop :=
  ∃ o, from_slice b = Ok o ∧ is_object o = true ∧ is_object (index o "metadata") = true ∧ has_kind o = true.

(** What a client sees of one entry of the snapshot. *)
Definition seen (e : bytes * Z) : option Value :=
  match from_slice e.1 with
  | Ok o => let o := stamp_version o e.2 in if selected o then Some (project o) else None
  | Err _ => None
  end.

Definition seen_map (m : Snapshot) : BTreeMap Value := omap (λ kv, (λ v, (kv.1, v)) <$> seen kv.2) m.

(** Events tell the truth about what they replace, or say nothing. *)
Fixpoint truthful (m : Snapshot) (evs : list WatchEvent) : Prop :=
  match evs with
  | [] => True
  | ev :: evs =>
      match ev with
      | Added k v _ => map_get m k = None ∧ readable_value v
      | Modified k v _ p => (p = None ∨ p = fst <$> map_get m k) ∧ is_Some (map_get m k) ∧ readable_value v
      | Deleted k _ p => (p = None ∨ p = fst <$> map_get m k) ∧ is_Some (map_get m k)
      | _ => True
      end ∧ truthful (apply_event m ev).1 evs
  end.

Lemma seen_map_get m k : map_get (seen_map m) k = map_get m k ≫= seen ∨ keys_sorted m = false.
Proof.
  destruct (keys_sorted m) eqn:Hs; [left|by right]. induction m as [|[k' e] m IH]; [done|].
  apply keys_sorted_cons in Hs as [Ha Hs]. specialize (IH Hs). unfold seen_map in *. cbn [omap list_omap map_get fst snd].
  destruct (str_eqb k k') eqn:E.
  - apply str_eqb_eq in E as ->. cbn [mbind option_bind]. destruct (seen e); cbn [fmap option_fmap option_map].
    + cbn [map_get]. by rewrite str_eqb_refl.
    + rewrite IH, (map_get_above k' m Ha). done.
  - destruct (seen e); cbn [fmap option_fmap option_map]; [|done]. cbn [map_get]. by rewrite E.
Qed.

Lemma seen_map_sorted m : keys_sorted m = true → keys_sorted (seen_map m) = true.
Proof.
  induction m as [|[k e] m IH]; [done|]. intros [Ha Hs]%keys_sorted_cons. specialize (IH Hs).
  unfold seen_map in *. cbn [omap list_omap fst snd]. destruct (seen e); cbn [fmap option_fmap option_map]; [|done].
  apply keys_sorted_cons. split; [|done]. clear -Ha. induction Ha as [|[k' e'] m Hk _ IH]; [constructor|].
  cbn [omap list_omap fst snd]. destruct (seen e'); cbn [fmap option_fmap option_map]; [constructor; done|done].
Qed.

Lemma seen_insert m k e :
  keys_sorted m = true →
  seen_map (map_insert m k e) = match seen e with Some v => map_insert (seen_map m) k v | None => map_remove (seen_map m) k end.
Proof.
  intros Hs. pose proof (keys_sorted_insert m k e Hs) as Hs'. apply map_ext.
  - by apply seen_map_sorted.
  - destruct (seen e); [by apply keys_sorted_insert, seen_map_sorted|by apply keys_sorted_remove, seen_map_sorted].
  - intros k'. destruct (seen_map_get (map_insert m k e) k') as [->|?]; [|congruence]. rewrite map_get_insert.
    destruct (seen_map_get m k') as [Hm|?]; [|congruence].
    destruct (str_eqb k' k) eqn:E; cbn [mbind option_bind].
    + apply str_eqb_eq in E as ->. destruct (seen e); [by rewrite map_get_insert_eq|].
      rewrite map_get_remove_eq; [done|by apply seen_map_sorted].
    + apply str_eqb_neq in E. destruct (seen e); [rewrite map_get_insert_ne by done|rewrite map_get_remove_ne by done]; by rewrite Hm.
Qed.

Lemma seen_remove m k : keys_sorted m = true → seen_map (map_remove m k) = map_remove (seen_map m) k.
Proof.
  intros Hs. pose proof (keys_sorted_remove m k Hs) as Hs'. apply map_ext.
  - by apply seen_map_sorted.
  - by apply keys_sorted_remove, seen_map_sorted.
  - intros k'. destruct (seen_map_get (map_remove m k) k') as [->|?]; [|congruence].
    destruct (seen_map_get m k') as [Hm|?]; [|congruence]. destruct (str_eqb k' k) eqn:E.
    + apply str_eqb_eq in E as ->. rewrite !map_get_remove_eq; [done|by apply seen_map_sorted|done].
    + apply str_eqb_neq in E. by rewrite !map_get_remove_ne.
Qed.

(** The transform keeps a kind, so a line never needs one filled in. *)
Definition keeps_kind : Prop := match transform with Some f => ∀ o, has_kind o = true → has_kind (f o) = true | None => True end.

Lemma project_kind o : keeps_kind → has_kind o = true → has_kind (project o) = true.
Proof.
  intros Hk Ho. unfold WatchStream.project, keeps_kind in *. destruct metadata_only; [done|].
  destruct transform; [by apply Hk|done].
Qed.

Lemma stamp_kind o r : has_kind (stamp_version o r) = has_kind o.
Proof. unfold has_kind. by rewrite stamp_get. Qed.

Lemma finish_line o r (t : string) :
  keeps_kind → has_kind o = true →
  (x ← backfill_type (project (stamp_version o r)) api_version kind; Some (Some (t, x))) = Some (Some (t, project (stamp_version o r))).
Proof.
  intros Hk Ho. unfold backfill_type. rewrite project_kind; [done|done|by rewrite stamp_kind].
Qed.

(** The client's copy follows one event. *)
Lemma follow_event m ev evs :
  ignores_version field_sel = true → keeps_kind → keys_sorted m = true →
  (∀ k e, map_get m k = Some e → readable_value e.1) → truthful m (ev :: evs) →
  client_follow m (seen_map m) (ev :: evs) = client_follow (apply_event m ev).1 (seen_map (apply_event m ev).1) evs
  ∧ keys_sorted (apply_event m ev).1 = true ∧ (∀ k e, map_get (apply_event m ev).1 k = Some e → readable_value e.1).
Proof.
  intros Hi Hk Hs Hread [Hev _]. cbn [client_follow].
  assert (∀ o r, selected (stamp_version o r) = selected o) as Hsel by (intros; by apply stamp_selected).
  destruct ev as [k v r|k v r p|k r p|r|code msg r]; cbn [apply_event fst event_key].
  - destruct Hev as [Habs Hv]. pose proof Hv as (o & Hd & Ho & _ & Hkd). split_and!.
    + cbn [WatchStream.event_object]. rewrite Hd, seen_insert by done. unfold seen. cbn [fst snd]. rewrite Hd.
      destruct (selected (stamp_version o r)); cbn [negb].
      * by rewrite finish_line.
      * cbn [mbind option_bind]. rewrite (map_remove_absent (seen_map m)); [done|].
        destruct (seen_map_get m k) as [->|?]; [by rewrite Habs|congruence].
    + by apply keys_sorted_insert.
    + intros k' e. rewrite map_get_insert. case_match; [intros [= <-]; exact Hv|apply Hread].
  - destruct Hev as (Hp & [e He] & Hv). pose proof Hv as (o & Hd & Ho & _ & Hkd).
    pose proof (Hread _ _ He) as (o0 & Hd0 & Ho0 & _ & Hkd0). split_and!.
    + assert (or_else p (fst <$> map_get m k) = Some e.1) as -> by (rewrite He in *; by destruct Hp as [-> | ->]).
      cbn [WatchStream.event_object mbind option_bind]. rewrite Hd, Hd0, seen_insert by done. unfold seen. cbn [fst snd]. rewrite Hd.
      rewrite Hsel. destruct (selected o0) eqn:E0, (selected o) eqn:E1; cbn [event_key].
      * by rewrite finish_line.
      * by rewrite finish_line.
      * by rewrite finish_line.
      * cbn [mbind option_bind]. rewrite (map_remove_absent (seen_map m)); [done|].
        destruct (seen_map_get m k) as [->|?]; [|congruence]. rewrite He. cbn [mbind option_bind]. unfold seen. by rewrite Hd0, Hsel, E0.
    + by apply keys_sorted_insert.
    + intros k' e'. rewrite map_get_insert. case_match; [intros [= <-]; exact Hv|apply Hread].
  - destruct Hev as (Hp & [e He]). pose proof (Hread _ _ He) as (o0 & Hd0 & Ho0 & _ & Hkd0). split_and!.
    + assert (or_else p (fst <$> map_get m k) = Some e.1) as -> by (rewrite He in *; by destruct Hp as [-> | ->]).
      cbn [WatchStream.event_object mbind option_bind]. rewrite Hd0, Ho0, seen_remove by done.
      rewrite Hsel. destruct (selected o0) eqn:E0; cbn [negb].
      * by rewrite finish_line.
      * cbn [mbind option_bind]. rewrite (map_remove_absent (seen_map m)); [done|].
        destruct (seen_map_get m k) as [->|?]; [|congruence]. rewrite He. cbn [mbind option_bind]. unfold seen. by rewrite Hd0, Hsel, E0.
    + by apply keys_sorted_remove.
    + intros k' e'. destruct (str_eqb k' k) eqn:E.
      * apply str_eqb_eq in E as ->. by rewrite map_get_remove_eq.
      * apply str_eqb_neq in E. rewrite map_get_remove_ne by done. apply Hread.
  - by split_and!.
  - by split_and!.
Qed.

Lemma client_tracks m evs :
  ignores_version field_sel = true → keeps_kind → keys_sorted m = true →
  (∀ k e, map_get m k = Some e → readable_value e.1) → truthful m evs →
  client_follow m (seen_map m) evs = Some (seen_map (replay m evs)).
Proof.
  intros Hi Hk. revert m. induction evs as [|ev evs IH]; intros m Hs Hread Ht; [done|].
  destruct (follow_event m ev evs Hi Hk Hs Hread Ht) as (E & Hs' & Hread'). rewrite E.
  apply IH; [done|done|by destruct Ht].
Qed.

Lemma inject_stamp o r :
  is_object (index o "metadata") = true → Storage.inject_resource_version o r = Some (stamp_version o r).
Proof.
  unfold index. destruct o as [| | | | |m]; try done. cbn [Json.get stamp_version].
  destruct (map_get m "metadata") as [[| | | | |i]|] eqn:E; try done. intros _.
  unfold Storage.inject_resource_version, set_index2, index. cbn [Json.get]. rewrite E. cbn [is_object mbind option_bind Json.get].
  by rewrite E.
Qed.

Notation initial_object := (initial_object number_text json_text label_sel field_sel api_version kind metadata_only transform).

Lemma initial_line o r list_rev :
  is_object (index o "metadata") = true → has_kind o = true →
  initial_object (stamp_version o r) list_rev
  = Some (if selected (stamp_version o r) then Some ("ADDED", project (stamp_version o r)) else None).
Proof.
  intros Hm Hk. unfold WatchStream.initial_object, backfill_type. rewrite stamp_kind, Hk. cbn [mbind option_bind].
  replace (match get_path (stamp_version o r) ["metadata"; "resourceVersion"] ≫= as_str with
           | Some s => negb (is_empty_str s) | None => false end) with true; [by destruct (selected (stamp_version o r))|].
  unfold index in Hm. destruct o as [| | | | |m]; try done. cbn [Json.get stamp_version] in *.
  destruct (map_get m "metadata") as [[| | | | |i]|] eqn:E; try done. cbn [get_path Json.get].
  rewrite map_get_insert_eq. cbn [mbind option_bind Json.get]. rewrite map_get_insert_eq. cbn [mbind option_bind as_str].
  pose proof (show_u_nonempty r). by destruct (show_u r).
Qed.

(** The initial events are the copy itself, in key order. *)
Lemma initial_tracks list_rev m :
  (∀ k e, In (k, e) m → readable_value e.1) →
  ∃ vs, decode_items (to_items m) = Some (Ok vs) ∧ Forall (λ o, is_Some (initial_object o list_rev)) vs ∧
    omap (λ o, default None (initial_object o list_rev)) vs = (λ x : string * Value, ("ADDED", x.2)) <$> seen_map m.
Proof.
  intros Hread. induction m as [|[k [b r]] m IH]; [by exists []|].
  destruct IH as (vs & Ev & Ef & Eo); [intros k' e Hin; apply (Hread k' e); by right|].
  destruct (Hread k (b, r)) as (o & Hd & Ho & Hm & Hk); [by left|]. cbn [fst] in Hd.
  exists (stamp_version o r :: vs). split_and!.
  - cbn [to_items fmap list_fmap decode_items fst snd]. unfold decode_at. rewrite Hd, inject_stamp by done. cbn [mbind option_bind].
    change ((λ kv : string * (bytes * Z), (kv.1, kv.2.1, kv.2.2)) <$> m) with (to_items m). by rewrite Ev.
  - constructor; [|done]. by rewrite initial_line.
  - unfold seen_map in *. cbn [omap list_omap fst snd]. unfold seen at 1. cbn [fst snd]. rewrite Hd, initial_line by done. cbn [default].
    destruct (selected (stamp_version o r)); cbn [fmap option_fmap option_map list_fmap from_option id]; by rewrite Eo.
Qed.
End Client.

(** A watch shows a client exactly what it selected.  A client lists what its
    selectors match (its initial events) and applies the events of everything
    written since, as the cache completes and the response renders them: it
    then holds exactly the objects under the prefix that match the selectors,
    each in its latest state with its latest version, whichever of them came
    to match, stopped matching, changed or were deleted on the way. *)
Theorem selector_watch_exact {S} `{HL : KvStoreLaws S} `{JsonCodec} number_text json_text label_sel field_sel api_version kind
    metadata_only transform (s s' : S) prefix evs list_rev :
  ignores_version field_sel = true → keeps_kind transform → kv_wf s → serving s →
  (∀ k e, map_get (view s) k = Some e → readable_value e.1) →
  emits prefix s evs s' → truthful (matching (view s) prefix None) evs →
  let seen := seen_map number_text json_text label_sel field_sel metadata_only transform in
  (∃ vs, decode_items (to_items (matching (view s) prefix None)) = Some (Ok vs) ∧
     omap (λ o, default None (initial_object number_text json_text label_sel field_sel api_version kind metadata_only transform o list_rev)) vs
     = (λ x : string * Value, ("ADDED", x.2)) <$> seen (matching (view s) prefix None)) ∧
  client_follow number_text json_text label_sel field_sel api_version kind metadata_only transform
    (matching (view s) prefix None) (seen (matching (view s) prefix None)) evs
  = Some (seen (matching (view s') prefix None)).
Proof.
  intros Hi Hk Hwf Hs Hread He Ht seen. pose proof (view_wf s Hwf) as (Hsorted & _).
  assert (keys_sorted (matching (view s) prefix None) = true) as Hm by (by apply keys_sorted_filter).
  assert (∀ k e, In (k, e) (matching (view s) prefix None) → readable_value e.1) as Hr.
  { intros k e [Hin _]%filter_In. apply (Hread k). by apply map_get_sorted_In. }
  split.
  - destruct (initial_tracks number_text json_text label_sel field_sel api_version kind metadata_only transform list_rev _ Hr)
      as (vs & E1 & _ & E2). by exists vs.
  - subst seen. rewrite client_tracks; [|done|done|done| |done].
    + by rewrite (replay_emits prefix s evs s').
    + intros k e Hg%map_get_In. by eapply Hr.
Qed.

(** ** Witness: the second pod is created while [web] is watched *)

#[local] Existing Instance Demo.codec.

Definition demo_number (_ : Number) : string := "".
Definition demo_json (_ : Value) : string := "".
Definition worker_bytes : bytes :=
  Eval vm_compute in match map_get (view Demo.store2) Demo.key2 with Some (b, _) => b | None => "" end.

Lemma demo_emits : emits "/registry/pods/" Demo.store1 [Added Demo.key2 worker_bytes 2] Demo.store2.
Proof.
  eassert (_ = [Added Demo.key2 worker_bytes 2]) as <-;
    [|apply (emits_put "/registry/pods/" Demo.store1 Demo.key2 worker_bytes (Some 0) Demo.store2 2 None [] Demo.store2);
      [done|done|vm_compute; reflexivity|constructor]].
  vm_compute. reflexivity.
Qed.

Lemma demo_readable : ∀ k e, map_get (view Demo.store2) k = Some e → readable_value e.1.
Proof.
  intros k e Hg. apply map_get_In in Hg. change (view Demo.store2) with (snd (MemStore.inner Demo.store2)) in Hg.
  cbn [Demo.store2 MemStore.inner snd In] in Hg.
  destruct Hg as [[= _ <-]|[[= _ <-]|[]]]; (eexists; split; [vm_compute; reflexivity|]; vm_compute; auto).
Qed.

Lemma selector_watch_exact_witness :
  client_follow demo_number demo_json None (Some "metadata.name=worker") "v1" "Pod" false None
    (matching (view Demo.store1) "/registry/pods/" None)
    (seen_map demo_number demo_json None (Some "metadata.name=worker") false None (matching (view Demo.store1) "/registry/pods/" None))
    [Added Demo.key2 worker_bytes 2]
  = Some (seen_map demo_number demo_json None (Some "metadata.name=worker") false None (matching (view Demo.store2) "/registry/pods/" None)).
Proof.
  apply (selector_watch_exact demo_number demo_json None (Some "metadata.name=worker") "v1" "Pod" false None
    Demo.store1 Demo.store2 "/registry/pods/" [Added Demo.key2 worker_bytes 2] 1).
  - vm_compute. reflexivity.
  - exact I.
  - exact Demo.wf1.
  - reflexivity.
  - intros k e Hg. apply (demo_readable k e). apply map_get_In in Hg. apply map_get_sorted_In; [reflexivity|].
    change (view Demo.store1) with (snd (MemStore.inner Demo.store1)) in Hg. cbn [Demo.store1 MemStore.inner snd In] in Hg.
    destruct Hg as [E|[]]. left. exact E.
  - exact demo_emits.
  - split; [|exact I]. split; [reflexivity|]. apply (demo_readable Demo.key2 (worker_bytes, 2)). reflexivity.
Defined.
