(* ===== verification/LimitRanger.v ===== *)
(** * LimitRanger ([pkg/apiserver/src/limitranger.rs])

    The defaults a namespace's LimitRanges give the containers of a Pod, and
    the limits they set.  Amounts are [f64]s.  Parameters: how [serde_json]
    prints a value that is no string, and Rust a float to six places. *)

From Stdlib Require Import ZArith Lia String Ascii.
From stdpp Require Import base gmap strings numbers option list.
From Stdlib.Floats Require Import SpecFloat.
From S2P Require Import Prelude Text BTree Json F64 Quantity PodResources.
Open Scope string_scope.
Open Scope kube_scope.
Open Scope Z_scope.

Definition ANNOTATION : string := "kubernetes.io/limit-ranger".

(** [f64::MAX]. *)
Definition F64_MAX : f64 := S754_finite false 9007199254740991 971.

#[export] Instance f64_amount : Amount f64 := {| a_zero := f64_zero; a_add := f64_add; a_lt := f64_lt |}.

(** [v[k1][k2][k3] = x]. *)
Definition set_index3 (v : Value) (k1 k2 k3 : string) (x : Value) : option Value :=
  inner ← set_index2 v.[k1] k2 k3 x; set_index v k1 inner.

(** [if !v[k1][k2].is_object() { v[k1][k2] = {} }]. *)
Definition ensure_object2 (v : Value) (k1 k2 : string) : option Value :=
  if is_object v.[k1].[k2] then Some v else set_index2 v k1 k2 (Object []).

(** [list.iter_mut().for_each(f)], [f] with what it captures. *)
Fixpoint each_container {A} (f : A → Value → option (A * Value)) (acc : A) (l : list Value) : option (A * list Value) :=
  match l with
  | [] => Some (acc, [])
  | c :: l => '(acc, c) ← f acc c; '(acc, l) ← each_container f acc l; Some (acc, c :: l)
  end.

Definition containers_at {A} (f : A → Value → option (A * Value)) (key : string) (acc : A) (pod : Value) : option (A * Value) :=
  match Json.get pod "spec" ≫= λ s, Json.get s key with
  | Some (Array l) => '(acc, l) ← each_container f acc l; pod ← set_index2 pod "spec" key (Array l); Some (acc, pod)
  | _ => Some (acc, pod)
  end.

Definition for_containers {A} (f : A → Value → option (A * Value)) (acc : A) (pod : Value) : option (A * Value) :=
  '(acc, pod) ← containers_at f "containers" acc pod; containers_at f "initContainers" acc pod.

(** One limit: the request it implies. *)
Definition request_from_limit (c : Value) (kv : string * Value) : option Value :=
  match Json.get c.["resources"].["requests"] kv.1 with
  | Some _ => Some c
  | None => c ← ensure_object2 c "resources" "requests"; set_index3 c "resources" "requests" kv.1 kv.2
  end.

Definition container_requests (c : Value) : option Value :=
  match Json.get c "resources" ≫= λ r, Json.get r "limits" with
  | Some (Object limits) => foldl (λ c kv, c ← c; request_from_limit c kv) (Some c) limits
  | _ => Some c
  end.

Definition requests_from_limits (pod : Value) : option Value :=
  snd <$> for_containers (λ (_ : unit) c, c ← container_requests c; Some (tt, c)) tt pod.

Definition items_of (ranges : list Value) (kind : string) : list Value :=
  List.filter (λ i, str_is i.["type"] kind) (ranges ≫= λ r, items r.["spec"].["limits"]).

(** One default: the container, and the resource if it was filled. *)
Definition fill (dest : string) (acc : Value * list string) (kv : string * Value) : option (Value * list string) :=
  let '(c, which) := acc in
  match Json.get c.["resources"].[dest] kv.1 with
  | Some _ => Some acc
  | None =>
      c ← (if is_object c.["resources"] then Some c else set_index c "resources" (Object []));
      c ← ensure_object2 c "resources" dest;
      c ← set_index3 c "resources" dest kv.1 kv.2;
      Some (c, (which ++ [kv.1])%list)
  end.

Definition fill_all (field dest : string) (item : Value) (acc : Value * list string) : option (Value * list string) :=
  foldl (λ acc kv, acc ← acc; fill dest acc kv) (Some acc) (entries item.[field]).

(** One item of a range on one container: its limits, then its requests. *)
Definition fill_item (acc : Value * list string * list string) (item : Value) : option (Value * list string * list string) :=
  let '(c, lim_set, req_set) := acc in
  '(c, lim_set) ← fill_all "default" "limits" item (c, lim_set);
  '(c, req_set) ← fill_all "defaultRequest" "requests" item (c, req_set);
  Some (c, lim_set, req_set).

Definition default_container (its : list Value) (set : list string) (c : Value) : option (list string * Value) :=
  let name := str_or "" c.["name"] in
  '(c, lim_set, req_set) ← foldl (λ acc item, acc ← acc; fill_item acc item) (Some (c, [], [])) its;
  let set := match req_set with [] => set | _ => (set ++ [String.concat ", " req_set ++ " request for container " ++ name]%string)%list end in
  let set := match lim_set with [] => set | _ => (set ++ [String.concat ", " lim_set ++ " limit for container " ++ name]%string)%list end in
  Some (set, c).

(** The Pod, and the text of the annotation if anything was set. *)
Definition default_pod (pod : Value) (ranges : list Value) : option (Value * option string) :=
  match items_of ranges "Container" with
  | [] => Some (pod, None)
  | its =>
      '(set, pod) ← for_containers (default_container its) [] pod;
      Some (pod, match set with [] => None | _ => Some ("LimitRanger plugin set: " ++ String.concat "; " set) end)
  end.

Definition annotate (pod : Value) (text : string) : option Value :=
  pod ← ensure_object2 pod "metadata" "annotations"; set_index3 pod "metadata" "annotations" ANNOTATION (Str text).

Section Limits.
  Variable float_text : f64 → string.
  Variable json_text : Value → string.
  Variable fixed6 : f64 → string.

Definition amount (resource : string) (q : Value) : option f64 :=
  s ← match q with Str s => Some s | Num n => Some (number_text float_text n) | _ => None end;
  Some (f64_of_Z (if (resource =? "cpu")%kube then parse_cpu_millis s else parse_bytes s)).

Definition q_text (v : Value) : string := match v with Str s => s | other => json_text other end.

Definition amount_or (d : f64) (resource : string) (q : Value) : f64 := default d (amount resource q).

Definition min_errors (scope : string) (requests limits : Map) (kv : string * Value) : list string :=
  let '(res, min) := kv in
  let m := amount_or f64_zero res min in
  let says := "minimum " ++ res ++ " usage per " ++ scope ++ " is " ++ q_text min in
  (match map_get requests res with
   | Some r => if f64_lt (amount_or f64_zero res r) m then [(says ++ ", but request is " ++ q_text r)%string] else []
   | None => [(says ++ ".  No request is specified")%string]
   end
   ++ match map_get limits res with
      | Some l => if f64_lt (amount_or f64_zero res l) m then [(says ++ ", but limit is " ++ q_text l)%string] else []
      | None => []
      end)%list.

Definition max_errors (scope : string) (requests limits : Map) (kv : string * Value) : list string :=
  let '(res, max) := kv in
  let m := amount_or F64_MAX res max in
  let says := "maximum " ++ res ++ " usage per " ++ scope ++ " is " ++ q_text max in
  (match map_get limits res with
   | Some l => if f64_lt m (amount_or f64_zero res l) then [(says ++ ", but limit is " ++ q_text l)%string] else []
   | None => [(says ++ ".  No limit is specified")%string]
   end
   ++ match map_get requests res with
      | Some r => if f64_lt m (amount_or f64_zero res r) then [(says ++ ", but request is " ++ q_text r)%string] else []
      | None => []
      end)%list.

Definition ratio_errors (scope : string) (requests limits : Map) (kv : string * Value) : list string :=
  let '(res, ratio) := kv in
  let want := default F64_MAX (parse_f64 (q_text ratio)) in
  let says := res ++ " max limit to request ratio per " ++ scope ++ " is " ++ q_text ratio in
  match map_get limits res, map_get requests res with
  | Some l, Some r =>
      let l := amount_or f64_zero res l in
      let r := amount_or f64_zero res r in
      if f64_lt f64_zero r && f64_lt want (f64_div l r) then [(says ++ ", but provided ratio is " ++ fixed6 (f64_div l r))%string] else []
  | None, _ => [(says ++ ", but no limit is specified")%string]
  | _, _ => []
  end.

Definition check (scope : string) (item : Value) (requests limits : Map) : list string :=
  ((entries item.["min"] ≫= min_errors scope requests limits)
   ++ (entries item.["max"] ≫= max_errors scope requests limits)
   ++ (entries item.["maxLimitRequestRatio"] ≫= ratio_errors scope requests limits))%list.

Definition all_containers (pod : Value) : list Value := (items pod.["spec"].["containers"] ++ items pod.["spec"].["initContainers"])%list.

Definition pod_sum (pod : Value) (kind : string) : Map :=
  (λ kv, (kv.1, Str (if (kv.1 =? "cpu")%kube then show_u (f64_to_u64 kv.2) ++ "m" else show_u (f64_to_u64 kv.2))))
  <$> containers_total f64_amount kind (amount_or f64_zero) pod.

Definition container_check (item c : Value) : list string :=
  check "Container" item (entries c.["resources"].["requests"]) (entries c.["resources"].["limits"]).

Definition validate_pod (pod : Value) (ranges : list Value) : list string :=
  ((items_of ranges "Container" ≫= λ item, all_containers pod ≫= container_check item)
   ++ (items_of ranges "Pod" ≫= λ item, check "Pod" item (pod_sum pod "requests") (pod_sum pod "limits")))%list.

Definition claim_check (req item : Value) : list string :=
  let have := amount_or f64_zero "storage" req in
  let but := ", but request is " ++ q_text req in
  (match Json.get item.["min"] "storage" with
   | Some m => if f64_lt have (amount_or f64_zero "storage" m)
               then [("minimum storage usage per PersistentVolumeClaim is " ++ q_text m ++ but)%string] else []
   | None => []
   end
   ++ match Json.get item.["max"] "storage" with
      | Some m => if f64_lt (amount_or F64_MAX "storage" m) have
                  then [("maximum storage usage per PersistentVolumeClaim is " ++ q_text m ++ but)%string] else []
      | None => []
      end)%list.

Definition validate_pvc (pvc : Value) (ranges : list Value) : list string :=
  items_of ranges "PersistentVolumeClaim" ≫= claim_check pvc.["spec"].["resources"].["requests"].["storage"].
End Limits.

Example defaults_and_limits :
  let range := json_obj [("spec", json_obj [("limits", Array [json_obj [("default", json_obj [("cpu", Str "500m")]);
                 ("max", json_obj [("cpu", Str "1")]); ("type", Str "Container")]])])] in
  let pod := json_obj [("spec", json_obj [("containers", Array [json_obj [("name", Str "c")]])])] in
  match default_pod pod [range] with
  | Some (pod', Some text) =>
      text = "LimitRanger plugin set: cpu limit for container c" ∧
      validate_pod (λ _, "") (λ _, "") (λ _, "") pod' [range] = [] ∧
      validate_pod (λ _, "") (λ _, "") (λ _, "") pod [range] = ["maximum cpu usage per Container is 1.  No limit is specified"]
  | _ => False
  end.
Proof. vm_compute. done. Qed.

(** ** Theorems: defaults *)

Definition listed (c : Value) (dest k : string) : option Value := Json.get c.["resources"].[dest] k.

Lemma get_set_eq v k x w : set_index v k x = Some w → Json.get w k = Some x.
Proof. unfold set_index, Json.get. destruct v; try done; intros [= <-]; [cbn; by rewrite str_eqb_refl|by rewrite map_get_insert_eq]. Qed.

Lemma get_set_ne v k x w k' : k' ≠ k → set_index v k x = Some w → Json.get w k' = Json.get v k'.
Proof.
  intros Hne. unfold set_index, Json.get. destruct v; try done; intros [= <-]; [|by rewrite map_get_insert_ne].
  cbn. apply str_eqb_neq in Hne. by rewrite Hne.
Qed.

Lemma listed_set3 c dest k x c' d k' :
  set_index3 c "resources" dest k x = Some c' →
  listed c' d k' = if (d =? dest)%kube && (k' =? k)%kube then Some x else listed c d k'.
Proof.
  unfold set_index3, set_index2, listed. destruct (set_index c.["resources"].[dest] k x) as [l|] eqn:El; [|done]. cbn [mbind option_bind].
  destruct (set_index c.["resources"] dest l) as [r|] eqn:Er; cbn [mbind option_bind]; [|done]. intros Ec. rewrite (index_set_index _ _ _ _ Ec).
  destruct (d =? dest)%kube eqn:Ed.
  - apply str_eqb_eq in Ed as ->. rewrite (index_set_index _ _ _ _ Er). cbn [andb]. destruct (k' =? k)%kube eqn:Ek.
    + apply str_eqb_eq in Ek as ->. by apply get_set_eq in El.
    + apply str_eqb_neq in Ek. by apply (get_set_ne _ _ _ _ k' Ek) in El.
  - cbn [andb]. apply str_eqb_neq in Ed. by rewrite (index_set_index_ne _ _ _ _ _ Ed Er).
Qed.

Lemma listed_ensure c dest c' d k : ensure_object2 c "resources" dest = Some c' → listed c' d k = listed c d k.
Proof.
  unfold ensure_object2, listed. destruct (is_object c.["resources"].[dest]) eqn:Eo; [by intros [= <-]|]. intros E.
  destruct (decide (d = dest)) as [->|Hne].
  - rewrite (index2_set_index2 _ _ _ _ _ E). by destruct c.["resources"].[dest].
  - by rewrite (index2_set_index2_ne _ _ _ _ _ d E Hne).
Qed.

Lemma listed_fill dest c which kv c' which' d k :
  fill dest (c, which) kv = Some (c', which') →
  listed c' d k = match listed c d k with Some v => Some v | None => if (d =? dest)%kube && (k =? kv.1)%kube then Some kv.2 else None end.
Proof.
  unfold fill. fold (listed c dest kv.1). destruct (listed c dest kv.1) as [v|] eqn:El.
  - intros [= <- <-]. destruct (listed c d k) eqn:Ek; [done|]. destruct ((d =? dest)%kube && (k =? kv.1)%kube) eqn:E; [|done].
    apply andb_true_iff in E as [->%str_eqb_eq ->%str_eqb_eq]. congruence.
  - destruct (if is_object c.["resources"] then Some c else _) as [c1|] eqn:E1; cbn [mbind option_bind]; [|done].
    destruct (ensure_object2 c1 "resources" dest) as [c2|] eqn:E2; cbn [mbind option_bind]; [|done].
    destruct (set_index3 c2 "resources" dest kv.1 kv.2) as [c3|] eqn:E3; cbn [mbind option_bind]; [|done]. intros [= <- <-].
    assert (listed c1 d k = listed c d k) as H1.
    { destruct (is_object c.["resources"]) eqn:Eo; [by injection E1 as <-|]. unfold listed. rewrite (index_set_index _ _ _ _ E1). by destruct c.["resources"]. }
    rewrite (listed_set3 _ _ _ _ _ d k E3), (listed_ensure _ _ _ d k E2), H1.
    destruct ((d =? dest)%kube && (k =? kv.1)%kube) eqn:E; [|by destruct (listed c d k)].
    apply andb_true_iff in E as [->%str_eqb_eq ->%str_eqb_eq]. by rewrite El.
Qed.

Lemma foldl_None {A B} (f : A → B → option A) l : foldl (λ acc x, acc ← acc; f acc x) None l = None.
Proof. by induction l. Qed.

Lemma listed_fill_all field dest item c which c' which' d k :
  fill_all field dest item (c, which) = Some (c', which') →
  listed c' d k = match listed c d k with Some v => Some v | None => if (d =? dest)%kube then map_get (entries item.[field]) k else None end.
Proof.
  unfold fill_all. generalize (entries item.[field]) as l. intros l. revert c which. induction l as [|kv l IH]; intros c which.
  - intros [= <- <-]. destruct (listed c d k); [done|]. by destruct (d =? dest)%kube.
  - cbn [foldl]. cbn [mbind option_bind]. destruct (fill dest (c, which) kv) as [[c1 w1]|] eqn:E1; [|by rewrite foldl_None].
    intros E. rewrite (IH _ _ E), (listed_fill _ _ _ _ _ _ d k E1). destruct (listed c d k); [done|].
    destruct kv as [k0 v0]. cbn [fst snd map_get]. destruct (d =? dest)%kube; cbn [andb]; [|done]. by destruct (k =? k0)%kube.
Qed.

(** The default the items give resource [k]: the first item's that has one. *)
Definition first_default (field k : string) (its : list Value) : option Value := head (omap (λ item, map_get (entries item.[field]) k) its).

Lemma listed_items its c lim req c' lim' req' d k :
  foldl (λ acc item, acc ← acc; fill_item acc item) (Some (c, lim, req)) its = Some (c', lim', req') →
  listed c' d k = match listed c d k with
                  | Some v => Some v
                  | None => if (d =? "limits")%kube then first_default "default" k its
                            else if (d =? "requests")%kube then first_default "defaultRequest" k its else None
                  end.
Proof.
  revert c lim req. induction its as [|item its IH]; intros c lim req; cbn [foldl].
  - intros [= <- <- <-]. destruct (listed c d k); [done|]. unfold first_default. by destruct (d =? "limits")%kube, (d =? "requests")%kube.
  - cbn [mbind option_bind]. unfold fill_item at 2. destruct (fill_all "default" "limits" item (c, lim)) as [[c1 l1]|] eqn:E1; cbn [mbind option_bind]; [|by rewrite foldl_None].
    destruct (fill_all "defaultRequest" "requests" item (c1, req)) as [[c2 r2]|] eqn:E2; cbn [mbind option_bind]; [|by rewrite foldl_None].
    intros E. rewrite (IH _ _ _ E), (listed_fill_all _ _ _ _ _ _ _ d k E2), (listed_fill_all _ _ _ _ _ _ _ d k E1).
    destruct (listed c d k); [done|]. unfold first_default. cbn [omap list_omap].
    destruct (d =? "limits")%kube eqn:El.
    + apply str_eqb_eq in El as ->. cbn. by destruct (map_get (entries item.["default"]) k).
    + destruct (d =? "requests")%kube; [|done]. by destruct (map_get (entries item.["defaultRequest"]) k).
Qed.

(** The LimitRanges of a namespace fill gaps and override nothing.  After
    defaulting, a container's request or limit for a resource is the one it came
    with; where it had none, it is the default of the first LimitRange item that
    has one for that resource; and where no item has one, it is still absent. *)
Theorem defaults_fill_gaps its set c set' c' :
  default_container its set c = Some (set', c') →
  ∀ k, listed c' "limits" k = match listed c "limits" k with Some v => Some v | None => first_default "default" k its end ∧
       listed c' "requests" k = match listed c "requests" k with Some v => Some v | None => first_default "defaultRequest" k its end.
Proof.
  unfold default_container. destruct (foldl _ _ its) as [[[c1 lim] req]|] eqn:E; cbn [mbind option_bind]; [|done]. intros [= _ <-] k.
  by rewrite !(listed_items _ _ _ _ _ _ _ _ k E).
Qed.

(** ** Theorems: limits *)

Section LimitTheorems.
  Variable float_text : f64 → string.
  Variable json_text : Value → string.
  Variable fixed6 : f64 → string.

(** A quantity in its unit: millicores, or bytes; unreadable is none. *)
Definition units (resource : string) (q : Value) : option Z :=
  s ← match q with Str s => Some s | Num n => Some (number_text float_text n) | _ => None end;
  Some (if (resource =? "cpu")%kube then parse_cpu_millis s else parse_bytes s).
Definition units0 (resource : string) (q : Value) : Z := default 0 (units resource q).

Lemma amount_units0 res q : amount_or float_text f64_zero res q = f64_of_Z (units0 res q).
Proof. unfold amount_or, amount, units0, units. by destruct q. Qed.

(** Amounts below 2^53, which a double holds exactly. *)
Definition exact (m : Map) : Prop := ∀ res v, In (res, v) m → 0 ≤ units0 res v < 2 ^ 53.

Lemma exact_get m res v : exact m → map_get m res = Some v → 0 ≤ units0 res v < 2 ^ 53.
Proof. intros He Hg. apply He. by apply map_get_In. Qed.

(** What an item of a LimitRange demands of requests and limits. *)
Definition at_least (requests limits : Map) (kv : string * Value) : Prop :=
  (∃ r, map_get requests kv.1 = Some r ∧ units0 kv.1 kv.2 ≤ units0 kv.1 r) ∧
  (∀ l, map_get limits kv.1 = Some l → units0 kv.1 kv.2 ≤ units0 kv.1 l).
Definition at_most (requests limits : Map) (kv : string * Value) : Prop :=
  (∃ l, map_get limits kv.1 = Some l ∧ units0 kv.1 l ≤ units0 kv.1 kv.2) ∧
  (∀ r, map_get requests kv.1 = Some r → units0 kv.1 r ≤ units0 kv.1 kv.2).
Definition within_ratio (requests limits : Map) (kv : string * Value) : Prop :=
  ∃ l, map_get limits kv.1 = Some l ∧
    ∀ r, map_get requests kv.1 = Some r → 0 < units0 kv.1 r →
      f64_lt (default F64_MAX (parse_f64 (q_text json_text kv.2))) (f64_div (f64_of_Z (units0 kv.1 l)) (f64_of_Z (units0 kv.1 r))) = false.

Definition within (item : Value) (requests limits : Map) : Prop :=
  Forall (at_least requests limits) (entries item.["min"]) ∧ Forall (at_most requests limits) (entries item.["max"]) ∧
  Forall (within_ratio requests limits) (entries item.["maxLimitRequestRatio"]).

Definition measurable (item : Value) (requests limits : Map) : Prop :=
  exact (entries item.["min"]) ∧ exact (entries item.["max"]) ∧ Forall (λ kv, units kv.1 kv.2 ≠ None) (entries item.["max"]) ∧
  exact requests ∧ exact limits.

Lemma lt_units res a b : 0 ≤ units0 res a < 2 ^ 53 → 0 ≤ units0 res b < 2 ^ 53 →
  f64_lt (f64_of_Z (units0 res a)) (f64_of_Z (units0 res b)) = false ↔ units0 res b ≤ units0 res a.
Proof. intros Ha Hb. rewrite f64_lt_of_Z by done. apply Z.ltb_ge. Qed.

Lemma bind_nil {A B} (f : A → list B) l : l ≫= f = [] ↔ Forall (λ x, f x = []) l.
Proof.
  induction l as [|x l IH]; [split; [constructor|done]|]. rewrite Forall_cons, <- IH. cbn. split.
  - intros [? ?]%app_eq_nil. done.
  - intros [-> ->]. done.
Qed.

Lemma app_nil_iff {A} (l1 l2 : list A) : (l1 ++ l2)%list = [] ↔ l1 = [] ∧ l2 = [].
Proof. split; [apply app_eq_nil|by intros [-> ->]]. Qed.

Lemma one_error (b : bool) (e : string) : (if b then [e] else []) = [] ↔ b = false.
Proof. by destruct b. Qed.

Lemma min_errors_nil scope requests limits kv :
  0 ≤ units0 kv.1 kv.2 < 2 ^ 53 → exact requests → exact limits →
  min_errors float_text json_text scope requests limits kv = [] ↔ at_least requests limits kv.
Proof.
  intros Hm Hr Hl. destruct kv as [res m]. unfold min_errors, at_least. cbn [fst snd] in *. rewrite amount_units0.
  rewrite app_nil_iff. f_equiv.
  - destruct (map_get requests res) as [r|] eqn:Er; [|split; [done|by intros (? & ? & _)]].
    pose proof (exact_get _ _ _ Hr Er). rewrite one_error, amount_units0, lt_units by done. naive_solver.
  - destruct (map_get limits res) as [l|] eqn:El; [|naive_solver].
    pose proof (exact_get _ _ _ Hl El). rewrite one_error, amount_units0, lt_units by done. naive_solver.
Qed.

Lemma max_errors_nil scope requests limits kv :
  0 ≤ units0 kv.1 kv.2 < 2 ^ 53 → units kv.1 kv.2 ≠ None → exact requests → exact limits →
  max_errors float_text json_text scope requests limits kv = [] ↔ at_most requests limits kv.
Proof.
  intros Hm Hu Hr Hl. destruct kv as [res m]. unfold max_errors, at_most. cbn [fst snd] in *.
  assert (amount_or float_text F64_MAX res m = f64_of_Z (units0 res m)) as -> by (unfold amount_or, amount, units0, units in *; by destruct m).
  rewrite app_nil_iff. f_equiv.
  - destruct (map_get limits res) as [l|] eqn:El; [|split; [done|by intros (? & ? & _)]].
    pose proof (exact_get _ _ _ Hl El). rewrite one_error, amount_units0, lt_units by done. naive_solver.
  - destruct (map_get requests res) as [r|] eqn:Er; [|naive_solver].
    pose proof (exact_get _ _ _ Hr Er). rewrite one_error, amount_units0, lt_units by done. naive_solver.
Qed.

Lemma ratio_errors_nil scope requests limits kv :
  exact requests → ratio_errors float_text json_text fixed6 scope requests limits kv = [] ↔ within_ratio requests limits kv.
Proof.
  intros Hr. destruct kv as [res q]. unfold ratio_errors, within_ratio. cbn [fst snd].
  destruct (map_get limits res) as [l|]; [|split; [done|by intros (? & ? & _)]].
  destruct (map_get requests res) as [r|] eqn:Er; [|naive_solver]. rewrite one_error, !amount_units0, andb_false_iff.
  change f64_zero with (f64_of_Z 0). pose proof (exact_get _ _ _ Hr Er). rewrite f64_lt_of_Z by lia. rewrite Z.ltb_ge. split.
  - intros H1. exists l. split; [done|]. intros r' [= <-]. destruct H1; [lia|done].
  - intros (l' & [= <-] & H1). destruct (Z.le_gt_cases (units0 res r) 0); [by left|right]. by apply H1.
Qed.

Lemma check_within scope item requests limits :
  measurable item requests limits → check float_text json_text fixed6 scope item requests limits = [] ↔ within item requests limits.
Proof.
  intros (H1 & H2 & H3 & H4 & H5). unfold check, within. rewrite !app_nil_iff, !bind_nil. f_equiv; [|f_equiv]; rewrite !List.Forall_forall.
  - split; intros H [res m] Hin; specialize (H _ Hin); by apply (min_errors_nil scope requests limits (res, m) (H1 _ _ Hin)) in H.
  - rewrite List.Forall_forall in H3.
    split; intros H [res m] Hin; specialize (H _ Hin); by apply (max_errors_nil scope requests limits (res, m) (H2 _ _ Hin) (H3 _ Hin)) in H.
  - split; intros H kv Hin; specialize (H _ Hin); by apply (ratio_errors_nil scope) in H.
Qed.

(** LimitRanger admits a Pod exactly when it keeps to every LimitRange of
    its namespace: each container, and the Pod's total, requests and limits at
    least each [min], at most each [max] and within each ratio.  The checks are
    made in floating point; below 2^53 units they are the integer comparisons. *)
Theorem limit_ranges_enforced pod ranges :
  (∀ item c, In item (items_of ranges "Container") → In c (all_containers pod) →
     measurable item (entries c.["resources"].["requests"]) (entries c.["resources"].["limits"])) →
  (∀ item, In item (items_of ranges "Pod") → measurable item (pod_sum float_text pod "requests") (pod_sum float_text pod "limits")) →
  validate_pod float_text json_text fixed6 pod ranges = [] ↔
    (∀ item c, In item (items_of ranges "Container") → In c (all_containers pod) →
       within item (entries c.["resources"].["requests"]) (entries c.["resources"].["limits"])) ∧
    (∀ item, In item (items_of ranges "Pod") → within item (pod_sum float_text pod "requests") (pod_sum float_text pod "limits")).
Proof.
  intros Hc Hp. unfold validate_pod. rewrite app_nil_iff, !bind_nil, !List.Forall_forall. f_equiv.
  - split.
    + intros H item c Hi Hin. specialize (H item Hi). rewrite bind_nil, List.Forall_forall in H. apply (check_within "Container"); [by apply Hc|]. by apply H.
    + intros H item Hi. rewrite bind_nil, List.Forall_forall. intros c Hin. unfold container_check. apply check_within; [by apply Hc|]. by apply H.
  - split; intros H item Hi; apply (check_within "Pod"); by (apply Hp || apply H).
Qed.
End LimitTheorems.

(** ** Witnesses *)

Module LimitDemo.
Definition item : Value := json_obj [("default", json_obj [("cpu", Str "500m")]); ("max", json_obj [("cpu", Str "1")]); ("type", Str "Container")].
Definition range : Value := json_obj [("spec", json_obj [("limits", Array [item])])].
Definition container (limits : list (string * Value)) : Value :=
  json_obj [("name", Str "c"); ("resources", json_obj [("limits", json_obj limits); ("requests", json_obj [("memory", Str "1Gi")])])].
Definition pod (limits : list (string * Value)) : Value := json_obj [("spec", json_obj [("containers", Array [container limits])])].
Definition text (f : f64) : string := "".
Definition json (v : Value) : string := "".
End LimitDemo.

Lemma defaults_fill_gaps_witness :
  ∃ set' c', default_container [LimitDemo.item] [] (LimitDemo.container []) = Some (set', c') ∧ listed c' "limits" "cpu" = Some (Str "500m").
Proof.
  do 2 eexists. assert (default_container [LimitDemo.item] [] (LimitDemo.container []) = Some (_, _)) as E by (vm_compute; reflexivity).
  split; [exact E|]. destruct (defaults_fill_gaps _ _ _ _ _ E "cpu") as [H _]. exact H.
Defined.

Lemma limit_ranges_enforced_witness :
  ¬ within LimitDemo.text LimitDemo.json LimitDemo.item
      (entries (LimitDemo.container [("cpu", Str "2")]).["resources"].["requests"]) (entries (LimitDemo.container [("cpu", Str "2")]).["resources"].["limits"]).
Proof.
  intros Hw. assert (validate_pod LimitDemo.text LimitDemo.json LimitDemo.text (LimitDemo.pod [("cpu", Str "2")]) [LimitDemo.range] = []) as E.
  { apply (limit_ranges_enforced LimitDemo.text LimitDemo.json LimitDemo.text).
    - intros item c [<-|[]] [<-|[]]. split_and!; try (intros res v Hin; repeat destruct Hin as [[= <- <-]|Hin]; try done; vm_compute; by split).
      constructor; [by vm_compute|constructor].
    - intros item [].
    - split; [|intros item []]. by intros item c [<-|[]] [<-|[]]. }
  vm_compute in E. discriminate.
Defined.
