(* ===== verification/Schema.v ===== *)
(** * Structural schemas of custom resources ([pkg/apiserver/src/schema.rs])

    Defaulting, pruning and validation of a custom resource under its CRD
    version's [openAPIV3Schema], an untyped JSON value.  The recursion follows
    the schema: a subschema is reached through [properties],
    [additionalProperties] or [items].  [regex] is the [regex] crate
    ([Regex::new] and [is_match]), [debug] and [json_text] the [{:?}] text of a
    string and the JSON text of a value. *)

From Stdlib Require Import ZArith Lia String Ascii.
From stdpp Require Import base gmap strings numbers option list.
From S2P Require Import Prelude Text BTree Json F64 Quantity Store ApiError Selector.
Open Scope string_scope.
Open Scope kube_scope.
Open Scope Z_scope.

Definition OBJECT_META : list string :=
  ["name"; "generateName"; "namespace"; "selfLink"; "uid"; "resourceVersion"; "generation"; "creationTimestamp";
   "deletionTimestamp"; "deletionGracePeriodSeconds"; "labels"; "annotations"; "ownerReferences"; "finalizers"; "managedFields"].

Inductive FieldValidation := Ignore | Warn | Strict.

(** [query] is the decoded query string. *)
Definition from_query (query : list (string * string)) : FieldValidation :=
  match List.find (λ kv, (kv.1 =? "fieldValidation")%kube) query with
  | Some (_, v) => if (v =? "Strict")%kube then Strict else if (v =? "Ignore")%kube then Ignore else Warn
  | None => Warn
  end.

(** ** Reaching a subschema *)

(** [f] of the entry of [m] under [k]. *)
Section OnKey.
  Context {A : Type} (f : Value → A) (d : A).
Fixpoint on_key (m : Map) (k : string) : A :=
  match m with
  | [] => d
  | (k', v) :: m => if (k =? k')%kube then f v else on_key m k
  end.

Definition on_field (v : Value) (k : string) : A := match v with Object m => on_key m k | _ => d end.
End OnKey.

(** [schema[k].as_bool().unwrap_or(false)]. *)
Definition flag (schema : Value) (k : string) : bool := default false (as_bool schema.[k]).

(** What a schema does to a value at a path: the value it becomes, and the
    paths pruned. *)
Notation Walker := (Value → string → Value * list string).

Inductive Extra := NoExtra | AnyExtra | ExtraBy (w : Walker).

(** ** Defaults *)

Definition fill_default (m : Map) (key : string) (schema : Value) : Map :=
  let nullable := flag schema "nullable" in
  match Json.get schema "default" with
  | None => if negb nullable && match map_get m key with Some Null => true | _ => false end then map_remove m key else m
  | Some d =>
      match map_get m key with
      | None => map_insert m key d
      | Some Null => if nullable then m else map_insert m key d
      | Some _ => m
      end
  end.

Definition fill_defaults (props m : Map) : Map := fold_left (λ m ks, fill_default m ks.1 ks.2) props m.

(** [defaults]: declared properties are filled and descended into, others
    descended into under an object [additionalProperties]. *)
Section DefaultProps.
  Variable f : Value → Value → Value.
Fixpoint default_props (props m : Map) : Map :=
  match props with
  | [] => m
  | (k, s) :: props =>
      let m := fill_default m k s in
      default_props props match map_get m k with Some v => map_insert m k (f s v) | None => m end
  end.
End DefaultProps.

Fixpoint defaults (schema obj : Value) {struct schema} : Value :=
  match obj with
  | Object m =>
      let m := on_field (λ v, match v with Object props => default_props defaults props m | _ => m end) m schema "properties" in
      let declared := entries schema.["properties"] in
      Object (on_field
        (λ extra, match extra with
                  | Object _ => (λ kv, if contains_key declared kv.1 then kv else (kv.1, defaults extra kv.2)) <$> m
                  | _ => m
                  end) m schema "additionalProperties")
  | Array l => Array (on_field (λ s, defaults s <$> l) l schema "items")
  | v => v
  end.

Definition default_only (obj schema : Value) : Value := defaults schema obj.

(** ** Pruning *)

Definition prune_meta (v : Value) (path : string) : Value * list string :=
  match v with
  | Object meta =>
      (Object (List.filter (λ kv, str_in kv.1 OBJECT_META) meta),
       (λ kv, path ++ "." ++ kv.1) <$> List.filter (λ kv : string * Value, negb (str_in kv.1 OBJECT_META)) meta)
  | v => (v, [])
  end.

Definition keep (r : Value * list string) : option Value * list string := (Some r.1, r.2).

(** One key of an object. *)
Definition walk_entry (embedded preserve : bool) (prop : string → option Walker) (extra : Extra) (path : string) (kv : string * Value) :
    option Value * list string :=
  let '(k, v) := kv in
  let child := path ++ "." ++ k in
  if embedded && ((k =? "apiVersion")%kube || (k =? "kind")%kube) then (Some v, [])
  else if embedded && (k =? "metadata")%kube then keep (prune_meta v child)
  else
    match prop k with
    | Some w => keep (w v child)
    | None =>
        match extra with
        | AnyExtra => (Some v, [])
        | ExtraBy w => keep (w v child)
        | NoExtra => if preserve then (Some v, []) else (None, [child])
        end
    end.

Fixpoint walk_entries (f : string * Value → option Value * list string) (m : Map) : Map * list string :=
  match m with
  | [] => ([], [])
  | kv :: m =>
      let '(v, u) := f kv in
      let '(m, u') := walk_entries f m in
      (match v with Some v => (kv.1, v) :: m | None => m end, (u ++ u')%list)
  end.

Definition item_path (path : string) (i : nat) : string := path ++ "[" ++ show_u (Z.of_nat i) ++ "]".
Arguments item_path : simpl never.

Fixpoint walk_items (w : Walker) (path : string) (i : nat) (l : list Value) : list Value * list string :=
  match l with
  | [] => ([], [])
  | v :: l =>
      let '(v, u) := w v (item_path path i) in
      let '(l, u') := walk_items w path (i + 1) l in
      (v :: l, (u ++ u')%list)
  end.

Fixpoint walk (schema : Value) (resource : bool) (obj : Value) (path : string) {struct schema} : Value * list string :=
  match obj with
  | Object m =>
      let prop := on_field (λ v, match v with Object props => on_key (λ s, Some (walk s false)) None props | _ => λ _, None end)
                    (λ _, None) schema "properties" in
      let extra := on_field (λ s, match s with Bool true => AnyExtra | Object _ => ExtraBy (walk s false) | _ => NoExtra end)
                     NoExtra schema "additionalProperties" in
      let embedded := resource || flag schema "x-kubernetes-embedded-resource" in
      let preserve := flag schema "x-kubernetes-preserve-unknown-fields" in
      let '(m, u) := walk_entries (walk_entry embedded preserve prop extra path) (fill_defaults (entries schema.["properties"]) m) in
      (Object m, u)
  | Array l =>
      on_field (λ s, let '(l, u) := walk_items (walk s false) path 0 l in (Array l, u)) (obj, []) schema "items"
  | v => (v, [])
  end.

Definition apply (obj schema : Value) : Value * list string := walk schema true obj "".

(** ** Validation *)

Inductive Seg := Key (k : string) | Index (i : nat).
Record FieldError := mkFieldError { fe_field : string; fe_detail : string; fe_pointer : list Seg }.

Definition seg_step (v : option Value) (s : Seg) : option Value :=
  match s with
  | Key k => v ← v; Json.get v k
  | Index i => l ← (v ← v; as_array v); l !! i
  end.
Definition at_ptr (v : Value) (pointer : list Seg) : option Value := fold_left seg_step pointer (Some v).

Definition path_step (out : string) (s : Seg) : string :=
  match s with
  | Key k => (if is_empty_str out then out else out ++ ".") ++ k
  | Index i => out ++ "[" ++ show_u (Z.of_nat i) ++ "]"
  end.
Definition path_of (pointer : list Seg) : string := fold_left path_step pointer "".

Definition type_of (v : Value) : string :=
  match v with
  | Null => "null"
  | Bool _ => "boolean"
  | Num (Float _) => "number"
  | Num _ => "integer"
  | Str _ => "string"
  | Array _ => "array"
  | Object _ => "object"
  end.

(** [Value::as_f64]. *)
Definition as_f64 (v : Value) : option f64 :=
  match v with
  | Num (PosInt n) => Some (f64_of_Z n)
  | Num (NegInt n) => Some (f64_of_Z n)
  | Num (Float f) => Some f
  | _ => None
  end.

(** [s.chars().count()]: the bytes that start a character. *)
Fixpoint chars_count (s : string) : Z :=
  match s with
  | EmptyString => 0
  | String c s => (if is_cont c then 0 else 1) + chars_count s
  end.

Definition REQUIRED : string := "Required value".

Section Validate.
  Variables (debug : string → string) (json_text : Value → string).
  Variable regex : string → option (string → bool).

Definition shown (v : Value) : string := match v with Str s => debug s | v => json_text v end.
Definition err (ptr : list Seg) (detail : string) : FieldError := mkFieldError (path_of ptr) detail ptr.
Definition err_if (b : bool) (ptr : list Seg) (detail : string) : list FieldError := if b then [err ptr detail] else [].

(** The type: an error, and whether anything else applies to the value. *)
Definition check_type (schema v : Value) (ptr : list Seg) : list FieldError * bool :=
  let path := path_of ptr in
  let int_or_string := flag schema "x-kubernetes-int-or-string" in
  let got := type_of v in
  let wrong want := [err ptr ("Invalid value: " ++ quoted got ++ ": " ++ path ++ " in body must be of type " ++ want ++ ": " ++ quoted got)] in
  if is_null v then
    (if negb (flag schema "nullable") && (is_string schema.["type"] || int_or_string)
     then wrong (str_or "integer,string" schema.["type"]) else [], false)
  else if int_or_string then
    if negb (got =? "string")%kube && negb (got =? "integer")%kube then (wrong "integer,string", false) else ([], true)
  else
    match as_str schema.["type"] with
    | Some want =>
        if negb (got =? want)%kube && negb ((want =? "number")%kube && (got =? "integer")%kube) then (wrong want, false) else ([], true)
    | None => ([], true)
    end.

Definition check_enum (schema v : Value) (ptr : list Seg) : list FieldError :=
  match as_array schema.["enum"] with
  | Some allowed =>
      err_if (negb (existsb (value_eqb v) allowed)) ptr
        ("Unsupported value: " ++ shown v ++ ": supported values: " ++ String.concat ", " (shown <$> allowed))
  | None => []
  end.

(** [schema[k].as_u64().filter(|m| refused(m))]: the error of a refused bound. *)
Definition check_bound (schema : Value) (k : string) (refused : Z → bool) (ptr : list Seg) (detail : Z → string) : list FieldError :=
  match as_u64 schema.[k] with Some m => err_if (refused m) ptr (detail m) | None => [] end.

Definition check_string (schema : Value) (s : string) (ptr : list Seg) : list FieldError :=
  let path := path_of ptr in
  let len := chars_count s in
  (check_bound schema "maxLength" (λ m, (m <? len)%Z) ptr (λ m, "Too long: may not be more than " ++ show_u m ++ " bytes")%string
   ++ check_bound schema "minLength" (λ m, len <? m) ptr
        (λ m, "Invalid value: " ++ debug s ++ ": " ++ path ++ " in body should be at least " ++ show_u m ++ " chars long")%string
   ++ match as_str schema.["pattern"] with
      | Some pat =>
          err_if (match regex pat with Some is_match => negb (is_match s) | None => false end) ptr
            ("Invalid value: " ++ debug s ++ ": " ++ path ++ " in body should match '" ++ pat ++ "'")%string
      | None => []
      end)%list.

(** A limit on a number: exceeded when [beyond], or met when [exclusive]. *)
Definition check_limit (schema n : Value) (k exclusive side : string) (beyond : f64 → bool) (met : f64 → bool) (ptr : list Seg) : list FieldError :=
  let says how := "Invalid value: " ++ json_text n ++ ": " ++ path_of ptr ++ " in body should be " ++ how ++ json_text schema.[k] in
  match as_f64 schema.[k] with
  | Some lim =>
      if flag schema exclusive && met lim then [err ptr (says (side ++ " than "))]
      else err_if (beyond lim) ptr (says (side ++ " than or equal to "))
  | None => []
  end.

Definition EPSILON : f64 := default f64_zero (parse_f64 "1e-9").

Definition not_multiple (x m : f64) : bool :=
  f64_lt f64_zero m && f64_lt EPSILON (SpecFloat.SFabs (f64_sub (f64_div x m) (f64_round (f64_div x m)))).

Definition check_number (schema v : Value) (ptr : list Seg) : list FieldError :=
  let x := default f64_zero (as_f64 v) in
  (check_limit schema v "maximum" "exclusiveMaximum" "less" (λ max, f64_lt max x) (λ max, f64_le max x) ptr
   ++ check_limit schema v "minimum" "exclusiveMinimum" "greater" (λ min, f64_lt x min) (λ min, f64_le x min) ptr
   ++ match as_f64 schema.["multipleOf"] with
      | Some m => err_if (not_multiple x m) ptr
                    ("Invalid value: " ++ json_text v ++ ": " ++ path_of ptr ++ " in body should be a multiple of " ++ json_text schema.["multipleOf"])%string
      | None => []
      end)%list.

(** The items that repeat an earlier one, by [same]. *)
Fixpoint repeats (same : Value → Value → bool) (detail : Value → string) (ptr : list Seg) (i : nat) (before l : list Value) : list FieldError :=
  match l with
  | [] => []
  | v :: l => (err_if (existsb (same v) before) (ptr ++ [Index i]) (detail v) ++ repeats same detail ptr (i + 1) (before ++ [v]) l)%list
  end.

Definition map_keys (schema : Value) : list string := omap as_str (items schema.["x-kubernetes-list-map-keys"]).
Definition key_of (keys : list string) (item : Value) : list Value := (λ k, default Null (Json.get item k)) <$> keys.
Definition key_text (keys : list string) (item : Value) : string :=
  "Duplicate value: map[string]interface {}{" ++ String.concat ", " (zip_with (λ name v, debug name ++ ":" ++ shown v) keys (key_of keys item)) ++ "}".

Definition check_unique (schema : Value) (l : list Value) (ptr : list Seg) : list FieldError :=
  let kind := str_or "" schema.["x-kubernetes-list-type"] in
  if (kind =? "set")%kube then repeats value_eqb (λ v, "Duplicate value: " ++ shown v) ptr 0 [] l
  else if (kind =? "map")%kube then
    let keys := map_keys schema in
    repeats (λ a b, value_eqb (Array (key_of keys a)) (Array (key_of keys b))) (key_text keys) ptr 0 [] l
  else [].

Definition check_count (schema : Value) (max min what : string) (n : Z) (ptr : list Seg) : list FieldError :=
  (check_bound schema max (λ m, m <? n) ptr (λ m, "Too many: " ++ show_u n ++ ": must have at most " ++ show_u m ++ " items")%string
   ++ check_bound schema min (λ m, n <? m) ptr
        (λ m, "Invalid value: " ++ show_u n ++ ": " ++ path_of ptr ++ " in body should have at least " ++ show_u m ++ " " ++ what)%string)%list.

Definition check_required (schema : Value) (m : Map) (ptr : list Seg) : list FieldError :=
  omap as_str (items schema.["required"]) ≫= λ r, err_if (negb (contains_key m r)) (ptr ++ [Key r]) REQUIRED.

Fixpoint check_items (f : Value → list Seg → list FieldError) (ptr : list Seg) (i : nat) (l : list Value) : list FieldError :=
  match l with
  | [] => []
  | v :: l => (f v (ptr ++ [Index i]) ++ check_items f ptr (i + 1) l)%list
  end.

Definition IDENTITY : list string := ["apiVersion"; "kind"; "metadata"].

Fixpoint check (schema v : Value) (ptr : list Seg) (resource : bool) {struct schema} : list FieldError :=
  let '(errs, more) := check_type schema v ptr in
  if negb more then errs
  else
    (errs ++ check_enum schema v ptr ++
     match v with
     | Str s => check_string schema s ptr
     | Num _ => check_number schema v ptr
     | Array l =>
         (check_count schema "maxItems" "minItems" "items" (Z.of_nat (length l)) ptr ++ check_unique schema l ptr
          ++ on_field (λ s, check_items (λ x ptr, check s x ptr false) ptr 0 l) [] schema "items")%list
     | Object m =>
         let embedded := resource || flag schema "x-kubernetes-embedded-resource" in
         let extra := on_field (λ s, match s with Object _ => Some (check s) | _ => None end) None schema "additionalProperties" in
         let prop := on_field (λ v, match v with Object props => on_key (λ s, Some (check s)) None props | _ => λ _, None end)
                       (λ _, None) schema "properties" in
         (check_count schema "maxProperties" "minProperties" "properties" (Z.of_nat (length m)) ptr ++ check_required schema m ptr
          ++ m ≫= λ kx,
               if embedded && str_in kx.1 IDENTITY then []
               else match (match prop kx.1 with Some f => Some f | None => extra end) with
                    | Some f => f kx.2 (ptr ++ [Key kx.1])%list false
                    | None => []
                    end)%list
     | _ => []
     end)%list.

(** An error the stored object already had. *)
Definition ratcheted (obj old : Value) (e : FieldError) : bool :=
  let before := at_ptr old (fe_pointer e) in
  if (fe_detail e =? REQUIRED)%kube then match before with Some _ => false | None => true end
  else option_value_eqb (at_ptr obj (fe_pointer e)) before.

Definition validate (obj schema : Value) (old : option Value) : list FieldError :=
  let errs := check schema obj [] true in
  match old with Some old => List.filter (λ e, negb (ratcheted obj old e)) errs | None => errs end.
End Validate.

Definition fe_text (e : FieldError) : string := fe_field e ++ ": " ++ fe_detail e.

Definition invalid_message (obj : Value) (errs : list FieldError) : string :=
  let group := match as_str obj.["apiVersion"] with
               | Some v => match split_once "/" (str_rev v) with Some (_, g) => str_rev g | None => "" end
               | None => ""
               end in
  let what := match errs with [e] => fe_text e | _ => "[" ++ String.concat ", " (fe_text <$> errs) ++ "]" end in
  str_or "" obj.["kind"] ++ "." ++ group ++ " " ++ quoted (str_or "" obj.["metadata"].["name"]) ++ " is invalid: " ++ what.

(** ** Duplicate keys of a YAML body *)

Definition DQUOTE : ascii := "034".
Definition SQUOTE : ascii := "'".

(** [key: value]; [pre] is what was read, last character first. *)
Fixpoint split_key_go (quote : option ascii) (pre s : string) : option (string * string) :=
  match s with
  | EmptyString => None
  | String c after =>
      match quote with
      | Some q => split_key_go (if Ascii.eqb c q then None else quote) (String c pre) after
      | None =>
          if (Ascii.eqb c DQUOTE || Ascii.eqb c SQUOTE) && is_empty_str pre then split_key_go (Some c) (String c pre) after
          else if Ascii.eqb c ":" && (is_empty_str after || starts_with after " ") then Some (str_rev pre, trim after)
          else split_key_go None (String c pre) after
      end
  end.
Definition split_key (s : string) : option (string * string) := split_key_go None "" s.

(** [- ] starts an item: its indentation, its text, and whether there was one. *)
Fixpoint list_items (fuel : nat) (indent : nat) (rest : string) (new_item : bool) : nat * string * bool :=
  match fuel, strip_prefix "- " rest with
  | S fuel, Some r => list_items fuel (indent + 2) (trim_start r) true
  | _, _ => (indent, rest, new_item)
  end.

(** The open mappings, innermost first: indentation and keys seen. *)
Notation Mappings := (list (nat * list string)).

Fixpoint close_mappings (indent : nat) (new_item : bool) (stack : Mappings) : Mappings :=
  match stack with
  | (ind, keys) :: rest =>
      if Nat.ltb indent ind || (new_item && Nat.eqb ind indent) then close_mappings indent new_item rest else stack
  | [] => []
  end.

Definition trim_quotes (s : string) : string :=
  let trim_both c s := trim_end_char c (trim_start_char c s) in trim_both SQUOTE (trim_both DQUOTE s).

Fixpoint yaml_scan (i : nat) (stack : Mappings) (scalar_indent : option nat) (lines : list string) : option string :=
  match lines with
  | [] => None
  | line :: lines =>
      let trimmed := trim_start line in
      let indent := (String.length line - String.length trimmed)%nat in
      if is_empty_str trimmed || starts_with trimmed "#" || (trimmed =? "---")%kube then yaml_scan (i + 1) stack scalar_indent lines
      else if match scalar_indent with Some si => Nat.ltb si indent | None => false end then yaml_scan (i + 1) stack scalar_indent lines
      else
        let '(indent, rest, new_item) := list_items (String.length trimmed) indent trimmed false in
        let stack := close_mappings indent new_item stack in
        match split_key rest with
        | None => yaml_scan (i + 1) stack None lines
        | Some (raw_key, value) =>
            let key := trim_quotes raw_key in
            let scalar := if starts_with value "|" || starts_with value ">" then Some indent else None in
            match stack with
            | (ind, keys) :: outer =>
                if Nat.eqb ind indent then
                  if str_in key keys then Some ("line " ++ show_u (Z.of_nat (i + 1)) ++ ": key " ++ quoted key ++ " already set in map")
                  else yaml_scan (i + 1) ((ind, key :: keys) :: outer) scalar lines
                else yaml_scan (i + 1) ((indent, [key]) :: stack) scalar lines
            | [] => yaml_scan (i + 1) [(indent, [key])] scalar lines
            end
        end
  end.

(** [lossy] is [String::from_utf8_lossy]. *)
Definition yaml_duplicate (lossy : string → string) (body : string) : option string :=
  yaml_scan 0 [] None (split_on "010" (lossy body)).

Example spec_repeats_foo :
  yaml_duplicate (λ s, s) (String.concat (String "010" "") [""; "kind: Widget"; "spec:"; "  foo: a"; "  ports:"; "  - name: x"; "  - name: y"; "  foo: b"])
  = Some ("line 8: key " ++ quoted "foo" ++ " already set in map").
Proof. vm_compute. reflexivity. Qed.

(** ** Theorems: reaching subschemas *)

Lemma on_key_spec {A} (f : Value → A) d m k : on_key f d m k = match map_get m k with Some x => f x | None => d end.
Proof. induction m as [|[k' x] m IH]; [done|]. cbn. by destruct (k =? k')%kube. Qed.

Lemma on_field_spec {A} (f : Value → A) d v k : on_field f d v k = match Json.get v k with Some x => f x | None => d end.
Proof. destruct v as [| | | | |m]; try done. apply on_key_spec. Qed.

Definition props_of (schema : Value) : Map := entries schema.["properties"].

Definition extra_of (schema : Value) : Extra :=
  match Json.get schema "additionalProperties" with
  | Some (Bool true) => AnyExtra
  | Some (Object m) => ExtraBy (walk (Object m) false)
  | _ => NoExtra
  end.

Definition embeds (schema : Value) (resource : bool) : bool := resource || flag schema "x-kubernetes-embedded-resource".

Definition entry_walk (schema : Value) (resource : bool) : string → string * Value → option Value * list string :=
  walk_entry (embeds schema resource) (flag schema "x-kubernetes-preserve-unknown-fields")
    (λ k, (λ s, walk s false) <$> map_get (props_of schema) k) (extra_of schema).

Lemma walk_entries_ext f g m : (∀ kv, f kv = g kv) → walk_entries f m = walk_entries g m.
Proof. intros E. induction m as [|kv m IH]; [done|]. cbn. by rewrite E, IH. Qed.

Lemma walk_object schema r m path :
  walk schema r (Object m) path =
  let '(m', u) := walk_entries (entry_walk schema r path) (fill_defaults (props_of schema) m) in (Object m', u).
Proof.
  assert (walk schema r (Object m) path =
    let '(m', u) := walk_entries (walk_entry (embeds schema r) (flag schema "x-kubernetes-preserve-unknown-fields")
       (on_field (λ v, match v with Object props => on_key (λ s, Some (walk s false)) None props | _ => λ _, None end) (λ _, None) schema "properties")
       (on_field (λ s, match s with Bool true => AnyExtra | Object _ => ExtraBy (walk s false) | _ => NoExtra end) NoExtra schema "additionalProperties")
       path) (fill_defaults (props_of schema) m) in (Object m', u)) as -> by (by destruct schema).
  erewrite walk_entries_ext; [done|]. intros [k v]. unfold entry_walk, walk_entry, extra_of.
  rewrite !on_field_spec. assert ((match Json.get schema "properties" with
     | Some (Object props) => on_key (λ s, Some (walk s false)) None props | _ => λ _, None end) k
     = (λ s, walk s false) <$> map_get (props_of schema) k) as Hp.
  { unfold props_of, index. destruct (Json.get schema "properties") as [[| | | | |props]|]; try done. cbn.
    rewrite on_key_spec. by destruct (map_get props k). }
  destruct (Json.get schema "properties") as [[]|]; rewrite <- Hp; destruct (Json.get schema "additionalProperties") as [[| [] | | | |]|]; done.
Qed.

Lemma walk_array schema r l path :
  walk schema r (Array l) path =
  match Json.get schema "items" with Some s => let '(l, u) := walk_items (walk s false) path 0 l in (Array l, u) | None => (Array l, []) end.
Proof. rewrite <- (on_field_spec (λ s, let '(l, u) := walk_items (walk s false) path 0 l in (Array l, u)) (Array l, [])). by destruct schema. Qed.

(** Induction along [properties] and along a schema's own entries. *)
Lemma schema_ind (P : Value → Prop) :
  (∀ schema, (∀ k s, map_get (props_of schema) k = Some s → P s) → (∀ k s, Json.get schema k = Some s → P s) → P schema) →
  ∀ schema, P schema.
Proof.
  intros Hstep. assert (∀ schema, P schema ∧ ∀ k s, Json.get schema k = Some s → P s) as H; [|intros s; apply H].
  induction schema as [| | | | |m IH] using Value_ind'; try (split; [apply Hstep; done|done]).
  assert (∀ k s, map_get m k = Some s → P s ∧ ∀ k' s', Json.get s k' = Some s' → P s') as Hm.
  { intros k s Hg%map_get_In. rewrite List.Forall_forall in IH. apply (IH (k, s) Hg). }
  assert (∀ k s, Json.get (Object m) k = Some s → P s) as Hk by (intros k s Hg; by apply (Hm k)). split; [|done].
  apply Hstep; [|done]. intros k s Hg. unfold props_of, index in Hg. cbn in Hg.
  destruct (map_get m "properties") as [p|] eqn:Ep; [|done]. destruct p as [| | | | |props]; try done. by apply (Hm _ _ Ep) with k.
Qed.

Lemma wf_props schema : wf_value schema = true → wf_value (Object (props_of schema)) = true.
Proof.
  intros Hw. apply (wf_index _ "properties") in Hw. unfold props_of. by destruct schema.["properties"].
Qed.

(** ** Theorems: defaults *)

(** What a declared property's value becomes. *)
Definition filled (s : Value) (o : option Value) : option Value :=
  match o with
  | None => Json.get s "default"
  | Some Null => if flag s "nullable" then Some Null else Json.get s "default"
  | Some v => Some v
  end.

Lemma fill_default_sorted m k s : keys_sorted m = true → keys_sorted (fill_default m k s) = true.
Proof. intros Hs. unfold fill_default. repeat case_match; try done; by first [apply keys_sorted_insert|apply keys_sorted_remove]. Qed.

Lemma fill_default_get m k s k' :
  keys_sorted m = true → map_get (fill_default m k s) k' = if (k' =? k)%kube then filled s (map_get m k) else map_get m k'.
Proof.
  intros Hs. unfold fill_default, filled. destruct (k' =? k)%kube eqn:E.
  - apply str_eqb_eq in E as ->. destruct (Json.get s "default") as [d|].
    + destruct (map_get m k) as [[]|] eqn:Eg; try done; [destruct (flag s "nullable"); [done|]|]; apply map_get_insert_eq.
    + destruct (map_get m k) as [[]|] eqn:Eg; destruct (flag s "nullable"); cbn; try done. by apply map_get_remove_eq.
  - apply str_eqb_neq in E. destruct (Json.get s "default") as [d|].
    + destruct (map_get m k) as [[]|]; try done; [destruct (flag s "nullable"); [done|]|]; by apply map_get_insert_ne.
    + destruct (negb _ && _); [by apply map_get_remove_ne|done].
Qed.

Lemma fill_sorted props m : keys_sorted m = true → keys_sorted (fill_defaults props m) = true.
Proof. unfold fill_defaults. revert m. induction props as [|[k s] props IH]; intros m Hm; [done|]. cbn. by apply IH, fill_default_sorted. Qed.

Lemma fill_get props m k :
  keys_sorted props = true → keys_sorted m = true →
  map_get (fill_defaults props m) k = match map_get props k with Some s => filled s (map_get m k) | None => map_get m k end.
Proof.
  unfold fill_defaults. revert m. induction props as [|[k1 s] props IH]; intros m Hp Hm; [done|].
  apply keys_sorted_cons in Hp as [Ha Hp]. cbn. rewrite (IH _ Hp (fill_default_sorted _ _ _ Hm)), fill_default_get by done.
  destruct (k =? k1)%kube eqn:E; [|done]. apply str_eqb_eq in E as ->. by rewrite (map_get_above _ _ Ha).
Qed.

Lemma fill_default_wf m k s :
  wf_value (Object m) = true → wf_value s = true → wf_value (Object (fill_default m k s)) = true.
Proof.
  intros Hm Hs. assert (∀ d, Json.get s "default" = Some d → wf_value d = true) as Hd.
  { intros d E. destruct s as [| | | | |sm]; try done. by apply (wf_map_get sm "default"). }
  unfold fill_default. destruct (Json.get s "default") as [d|].
  - repeat case_match; try done; apply wf_object_insert; auto.
  - case_match; [by apply wf_object_remove|done].
Qed.

Lemma fill_wf props m : wf_value (Object props) = true → wf_value (Object m) = true → wf_value (Object (fill_defaults props m)) = true.
Proof.
  unfold fill_defaults. revert m. induction props as [|[k s] props IH]; intros m Hp Hm; [done|]. cbn [fold_left fst snd].
  apply andb_true_iff in Hp as [Hk Hp]. apply andb_true_iff in Hp as [Hs Hp]. apply keys_sorted_cons in Hk as [_ Hk].
  apply IH; [apply andb_true_iff; done|]. by apply fill_default_wf.
Qed.

(** ** Theorems: one object *)

Lemma walk_entries_above f m k : above k m → above k (walk_entries f m).1.
Proof.
  unfold above. induction m as [|[k' v] m IH]; intros Ha; [done|]. apply Forall_cons in Ha as [H1 H2]. cbn.
  destruct (f (k', v)) as [[v'|] u], (walk_entries f m) as [m' u'] eqn:E; cbn in *; [constructor|]; auto.
Qed.

Lemma walk_entries_sorted f m : keys_sorted m = true → keys_sorted (walk_entries f m).1 = true.
Proof.
  induction m as [|[k v] m IH]; intros Hs; [done|]. apply keys_sorted_cons in Hs as [Ha Hs].
  pose proof (walk_entries_above f m k Ha) as Ha'. cbn. destruct (f (k, v)) as [[v'|] u], (walk_entries f m) as [m' u'] eqn:E; cbn in *; [|auto].
  apply (keys_sorted_cons k v' m'). auto.
Qed.

Lemma walk_entries_get f m k : keys_sorted m = true → map_get (walk_entries f m).1 k = v ← map_get m k; (f (k, v)).1.
Proof.
  induction m as [|[k' v] m IH]; intros Hs; [done|]. apply keys_sorted_cons in Hs as [Ha Hs]. specialize (IH Hs).
  pose proof (walk_entries_above f m k' Ha) as Ha'. cbn. destruct (f (k', v)) as [o u] eqn:Ef, (walk_entries f m) as [m' u'] eqn:E; cbn in *.
  destruct (k =? k')%kube eqn:Ek.
  - apply str_eqb_eq in Ek as ->. cbn. rewrite Ef. cbn. destruct o; cbn; [by rewrite str_eqb_refl|by apply map_get_above].
  - destruct o; cbn; [rewrite Ek|]; done.
Qed.

Lemma walk_entries_unknown f m k v : In (k, v) m → ∀ p, p ∈ (f (k, v)).2 → p ∈ (walk_entries f m).2.
Proof.
  induction m as [|[k' v'] m IH]; intros Hin p Hp; [done|]. cbn. destruct (f (k', v')) as [o u] eqn:Ef, (walk_entries f m) as [m' u'] eqn:E.
  cbn in *. apply elem_of_app. destruct Hin as [[= <- <-]|Hin]; [left; by rewrite Ef in Hp|right; eauto].
Qed.

Lemma walk_entries_fixed f m : (∀ k v, In (k, v) m → f (k, v) = (Some v, [])) → walk_entries f m = (m, []).
Proof.
  induction m as [|[k v] m IH]; intros Hf; [done|]. cbn [walk_entries]. rewrite (Hf k v) by (by left). rewrite IH by (intros; apply Hf; by right). done.
Qed.

Lemma walk_items_spec w path i l :
  (∀ j v, l !! j = Some v → ∃ p, (walk_items w path i l).1 !! j = Some (w v p).1 ∧ ∀ q, q ∈ (w v p).2 → q ∈ (walk_items w path i l).2) ∧
  (∀ j v', (walk_items w path i l).1 !! j = Some v' → ∃ v p, l !! j = Some v ∧ v' = (w v p).1) ∧
  ((∀ v p, v ∈ l → w (w v p).1 p = ((w v p).1, [])) → walk_items w path i (walk_items w path i l).1 = ((walk_items w path i l).1, [])).
Proof.
  revert i. induction l as [|v l IH]; intros i; [done|]. cbn. destruct (IH (i + 1)%nat) as (H1 & H2 & H3).
  destruct (w v _) as [v1 u1] eqn:Ew, (walk_items w path (i + 1) l) as [l' u'] eqn:E. cbn in *. split_and!.
  - intros [|j] x Hx; cbn in Hx.
    + injection Hx as <-. eexists. rewrite Ew. split; [done|]. intros q Hq. apply elem_of_app. by left.
    + destruct (H1 j x Hx) as (p & Hp & Hu). exists p. split; [done|]. intros q Hq. apply elem_of_app. right. auto.
  - intros [|j] x Hx; cbn in Hx; [injection Hx as <-; eexists v, _; by rewrite Ew|eauto].
  - intros Hw. rewrite H3 by (intros; apply Hw; by right).
    specialize (Hw v (item_path path i) ltac:(by left)). rewrite Ew in Hw. cbn in Hw. by rewrite Hw.
Qed.

(** ** Theorems: pruning is idempotent *)

Arguments walk : simpl never.

Lemma walk_null schema r obj path : is_null (walk schema r obj path).1 = is_null obj.
Proof.
  destruct obj; try (by destruct schema).
  - rewrite walk_array. destruct (Json.get schema "items") as [s|]; [|done]. by destruct (walk_items _ _ _ _).
  - rewrite walk_object. by destruct (walk_entries _ _).
Qed.

Lemma entry_null schema r path k v v' : (entry_walk schema r path (k, v)).1 = Some v' → is_null v' = is_null v.
Proof.
  unfold entry_walk, walk_entry. destruct (embeds schema r && _); [by intros [= <-]|].
  destruct (embeds schema r && _); [destruct v; by intros [= <-]|].
  destruct (map_get (props_of schema) k) as [s|]; cbn; [intros [= <-]; apply walk_null|].
  unfold extra_of. destruct (Json.get schema "additionalProperties") as [[| [] | | | |]|]; cbn; try (destruct (flag _ _); by intros [= <-]).
  - by intros [= <-].
  - intros [= <-]. apply walk_null.
Qed.

Lemma entry_declared schema r path k v s : map_get (props_of schema) k = Some s → ∃ v', (entry_walk schema r path (k, v)).1 = Some v'.
Proof. intros Hs. unfold entry_walk, walk_entry. destruct (embeds schema r && _); [by eexists|]. destruct (embeds schema r && _); [by eexists|]. rewrite Hs. by eexists. Qed.

Lemma prune_meta_idem v path : prune_meta (prune_meta v path).1 path = ((prune_meta v path).1, []).
Proof.
  destruct v as [| | | | |m]; try done. unfold prune_meta. cbn [fst]. rewrite Store.filter_filter. f_equal.
  - f_equal. apply List.filter_ext. intros kv. by destruct (str_in _ _).
  - clear. induction m as [|kv m IH]; [done|]. cbn [List.filter]. destruct (str_in kv.1 OBJECT_META) eqn:E; [|done]. cbn [List.filter]. by rewrite E.
Qed.

Lemma fill_settled schema r path m :
  keys_sorted (props_of schema) = true → keys_sorted m = true →
  let m2 := (walk_entries (entry_walk schema r path) (fill_defaults (props_of schema) m)).1 in
  fill_defaults (props_of schema) m2 = m2.
Proof.
  intros Hp Hm m2. assert (keys_sorted m2 = true) as Hs2 by (by apply walk_entries_sorted, fill_sorted).
  apply map_ext; [by apply fill_sorted|done|]. intros k. rewrite fill_get by done. destruct (map_get (props_of schema) k) as [s|] eqn:Es; [|done].
  assert (map_get m2 k = v ← filled s (map_get m k); (entry_walk schema r path (k, v)).1) as ->.
  { unfold m2. rewrite walk_entries_get by (by apply fill_sorted). rewrite fill_get by done. by rewrite Es. }
  destruct (filled s (map_get m k)) as [v|] eqn:Ef; cbn [mbind option_bind].
  - destruct (entry_declared schema r path k v s Es) as [v' Hv']. rewrite Hv'. apply entry_null in Hv'. unfold filled in *.
    destruct v'; try done. destruct v; try done. destruct (flag s "nullable"); [done|]. by destruct (map_get m k) as [[]|].
  - unfold filled in *. destruct (map_get m k) as [[]|]; try done. by destruct (flag s "nullable").
Qed.

Lemma wf_In m k v : wf_value (Object m) = true → In (k, v) m → wf_value v = true.
Proof. intros [_ Hf]%andb_true_iff Hin. rewrite forallb_forall in Hf. by apply (Hf (k, v)). Qed.

Lemma wf_elem l v : wf_value (Array l) = true → v ∈ l → wf_value v = true.
Proof. cbn. rewrite forallb_forall. intros Hf Hv. apply Hf. by apply list_elem_of_In. Qed.

Lemma wf_get v k x : wf_value v = true → Json.get v k = Some x → wf_value x = true.
Proof. destruct v; try done. apply wf_map_get. Qed.

Lemma walk_idem schema : wf_value schema = true → ∀ r obj path, wf_value obj = true →
  walk schema r (walk schema r obj path).1 path = ((walk schema r obj path).1, []).
Proof.
  induction schema as [schema IHp IHk] using schema_ind. intros Hws r obj path Hwo. pose proof (wf_props _ Hws) as Hwp.
  destruct obj as [| | | |l|m]; try (by destruct schema).
  - rewrite walk_array. destruct (Json.get schema "items") as [s|] eqn:Es; [|cbn; by rewrite walk_array, Es].
    destruct (walk_items_spec (walk s false) path 0 l) as (_ & _ & Hidem). destruct (walk_items (walk s false) path 0 l) as [l' u] eqn:E. cbn in *.
    rewrite walk_array, Es. rewrite Hidem; [done|]. intros v p Hv. apply (IHk _ _ Es); [by eapply wf_get|]. by apply (wf_elem l).
  - rewrite walk_object. destruct (andb_prop _ _ Hwo) as [Hsm _]. destruct (andb_prop _ _ Hwp) as [Hsp _].
    pose proof (fill_settled schema r path m Hsp Hsm) as Hfill.
    assert (∀ k v', In (k, v') (walk_entries (entry_walk schema r path) (fill_defaults (props_of schema) m)).1 →
              entry_walk schema r path (k, v') = (Some v', [])) as Hfix.
    { intros k v' Hin. apply map_get_sorted_In in Hin; [|by apply walk_entries_sorted, fill_sorted].
      rewrite walk_entries_get in Hin by (by apply fill_sorted).
      destruct (map_get (fill_defaults (props_of schema) m) k) as [v|] eqn:Ev; [|done]. cbn in Hin.
      assert (wf_value v = true) as Hwv by (eapply wf_map_get; [|done]; by apply fill_wf).
      unfold entry_walk, walk_entry in *. destruct (embeds schema r && _); [by injection Hin as <-|].
      destruct (embeds schema r && _); [injection Hin as <-; unfold keep; by rewrite prune_meta_idem|].
      destruct (map_get (props_of schema) k) as [s|] eqn:Es; cbn in *.
      - injection Hin as <-. unfold keep. rewrite (IHp _ _ Es); [done| |done]. by eapply (wf_map_get (props_of schema)).
      - unfold extra_of in *. destruct (Json.get schema "additionalProperties") as [e|] eqn:Ee; [|by destruct (flag _ _)].
        destruct e as [| [] | | | |em]; try (destruct (flag _ _); done); injection Hin as <-; [done|].
        unfold keep. rewrite (IHk _ _ Ee); [done|by apply (wf_get schema "additionalProperties")|done]. }
    destruct (walk_entries _ _) as [m2 u]. cbn in *. rewrite walk_object, Hfill, walk_entries_fixed by done. done.
Qed.

(** ** Theorems: what is stored *)

(** The paths a schema has a place for. *)
Fixpoint covered (schema : Value) (resource : bool) (ptr : list Seg) : bool :=
  match ptr with
  | [] => true
  | Key k :: ptr =>
      if embeds schema resource && ((k =? "apiVersion")%kube || (k =? "kind")%kube) then true
      else if embeds schema resource && (k =? "metadata")%kube then
        match ptr with Key f :: _ => str_in f OBJECT_META | _ => true end
      else
        match map_get (props_of schema) k with
        | Some s => covered s false ptr
        | None =>
            match Json.get schema "additionalProperties" with
            | Some (Bool true) => true
            | Some (Object m) => covered (Object m) false ptr
            | _ => flag schema "x-kubernetes-preserve-unknown-fields"
            end
        end
  | Index _ :: ptr => match Json.get schema "items" with Some s => covered s false ptr | None => true end
  end.

(** A value that is neither [null] nor a container. *)
Definition solid (v : Value) : bool := match v with Bool _ | Num _ | Str _ => true | _ => false end.

Lemma at_ptr_cons v s p : at_ptr v (s :: p) = x ← seg_step (Some v) s; at_ptr x p.
Proof.
  unfold at_ptr. cbn [fold_left]. destruct (seg_step (Some v) s) as [x|]; [done|]. cbn [mbind option_bind].
  induction p as [|s' p IH]; [done|]. cbn [fold_left]. by destruct s'.
Qed.

Lemma solid_at v p x : at_ptr v p = Some x → solid x = true → solid v = true → p = [] ∧ v = x.
Proof. intros Ha _ Hv. destruct p as [|[k|i] p]; [by injection Ha as ->| |]; rewrite at_ptr_cons in Ha; by destruct v. Qed.

Lemma walk_solid schema r v path : is_object v = false → is_array v = false → walk schema r v path = (v, []).
Proof. intros Ho Ha. by destruct v, schema. Qed.

Lemma meta_at v path f p : at_ptr (prune_meta v path).1 (Key f :: p) = if str_in f OBJECT_META then at_ptr v (Key f :: p) else None.
Proof.
  rewrite !at_ptr_cons. destruct v as [| | | | |m]; cbn [prune_meta fst seg_step Json.get mbind option_bind]; try by destruct (str_in f OBJECT_META).
  assert (map_get (List.filter (λ kv, str_in kv.1 OBJECT_META) m) f = if str_in f OBJECT_META then map_get m f else None) as ->.
  { induction m as [|[k x] m IH]; [by destruct (str_in f OBJECT_META)|]. cbn [List.filter fst].
    destruct (f =? k)%kube eqn:Ek.
    - apply str_eqb_eq in Ek as ->. cbn [map_get]. rewrite str_eqb_refl. destruct (str_in k OBJECT_META) eqn:E; [cbn [map_get]; by rewrite str_eqb_refl|].
      rewrite IH. done.
    - cbn [map_get]. rewrite Ek. destruct (str_in k OBJECT_META); [cbn [map_get]; by rewrite Ek|done]. }
  by destruct (str_in f OBJECT_META).
Qed.

Lemma fill_keeps props m k v : map_get m k = Some v → is_null v = false → map_get (fill_defaults props m) k = Some v.
Proof.
  intros Hg Hn. unfold fill_defaults. revert m Hg. induction props as [|[k' s] props IH]; intros m Hg; [done|]. cbn [fold_left fst snd]. apply IH.
  unfold fill_default. destruct (decide (k = k')) as [<-|Hne]; rewrite ?Hg.
  - destruct (Json.get s "default"), v; rewrite ?andb_false_r; done.
  - repeat case_match; try done; by rewrite ?map_get_insert_ne, ?map_get_remove_ne.
Qed.

Lemma walk_entries_first f m k v v' : map_get m k = Some v → (f (k, v)).1 = Some v' → map_get (walk_entries f m).1 k = Some v'.
Proof.
  intros Hg Hf. induction m as [|[k1 v1] m IH]; [done|]. cbn in Hg |- *. destruct (f (k1, v1)) as [o u] eqn:Ef, (walk_entries f m) as [m' u'].
  cbn in *. destruct (k =? k1)%kube eqn:Ek.
  - apply str_eqb_eq in Ek as <-. injection Hg as ->. rewrite Ef in Hf. cbn in Hf. subst o. cbn. by rewrite str_eqb_refl.
  - destruct o; cbn; rewrite ?Ek; auto.
Qed.

(** The server's own metadata passes. *)
Lemma walk_metadata schema m path f :
  is_object (Object m).["metadata"] = true → str_in f OBJECT_META = true →
  (walk schema true (Object m) path).1.["metadata"].[f] = (Object m).["metadata"].[f].
Proof.
  intros Ho Hf. unfold index in Ho at 1. cbn [Json.get] in Ho. destruct (map_get m "metadata") as [[| | | | |meta]|] eqn:Em; try done.
  rewrite walk_object. pose proof (walk_entries_first (entry_walk schema true path) (fill_defaults (props_of schema) m) "metadata" (Object meta) _
    (fill_keeps _ _ _ _ Em eq_refl) eq_refl) as Hw. destruct (walk_entries _ _) as [m2 u]. cbn [fst] in *.
  pose proof (meta_at (Object meta) (path ++ "." ++ "metadata") f []) as Hm. rewrite Hf, !at_ptr_cons in Hm. cbn [seg_step mbind option_bind] in Hm.
  unfold index at 2 4. cbn [Json.get]. rewrite Hw, Em. cbn [default from_option id]. unfold index.
  destruct (Json.get (prune_meta _ _).1 f), (Json.get (Object meta) f); cbn in *; congruence.
Qed.

(** One step into an object, before and after. *)
Lemma walk_key schema r m path k :
  wf_value schema = true → wf_value (Object m) = true →
  Json.get (walk schema r (Object m) path).1 k =
    v ← match map_get (props_of schema) k with Some s => filled s (map_get m k) | None => map_get m k end;
    (entry_walk schema r path (k, v)).1.
Proof.
  intros Hws Hwo. pose proof (wf_props _ Hws) as Hwp. destruct (andb_prop _ _ Hwo) as [Hsm _]. destruct (andb_prop _ _ Hwp) as [Hsp _].
  rewrite walk_object. pose proof (walk_entries_get (entry_walk schema r path) (fill_defaults (props_of schema) m) k (fill_sorted _ _ Hsm)) as Hg.
  destruct (walk_entries _ _) as [m2 u]. cbn in *. by rewrite Hg, fill_get.
Qed.

Lemma walk_key_wf schema m k v :
  wf_value schema = true → wf_value (Object m) = true →
  match map_get (props_of schema) k with Some s => filled s (map_get m k) | None => map_get m k end = Some v → wf_value v = true.
Proof.
  intros Hws Hwo. pose proof (wf_props _ Hws) as Hwp. destruct (andb_prop _ _ Hwo) as [Hsm _]. destruct (andb_prop _ _ Hwp) as [Hsp _].
  rewrite <- fill_get by done. apply wf_map_get. by apply fill_wf.
Qed.

Lemma walked_covered ptr schema r obj path x :
  wf_value schema = true → wf_value obj = true → at_ptr (walk schema r obj path).1 ptr = Some x → covered schema r ptr = true.
Proof.
  revert schema r obj path. induction ptr as [|[k|i] ptr IH]; intros schema r obj path Hws Hwo Ha; [done| |].
  - rewrite at_ptr_cons in Ha. destruct obj as [| | | |l|m]; try (by destruct schema).
    { rewrite walk_array in Ha. destruct (Json.get schema "items"); [|done]. by destruct (walk_items _ _ _ _). }
    cbn [seg_step mbind option_bind] in Ha. rewrite walk_key in Ha by done.
    destruct (match map_get (props_of schema) k with Some s => _ | None => _ end) as [v|] eqn:Ev; [|done].
    pose proof (walk_key_wf schema m k v Hws Hwo Ev) as Hwv. cbn [mbind option_bind] in Ha.
    unfold entry_walk, walk_entry in Ha. cbn [covered]. destruct (embeds schema r && _); [done|].
    destruct (embeds schema r && _).
    { unfold keep in Ha. cbn [fst mbind option_bind] in Ha. destruct ptr as [|[f|] ptr]; try done. rewrite meta_at in Ha. by destruct (str_in f OBJECT_META). }
    destruct (map_get (props_of schema) k) as [s|] eqn:Es; cbn [fmap option_fmap option_map] in Ha.
    { apply (IH _ _ _ _ (wf_map_get _ _ _ (wf_props _ Hws) Es) Hwv Ha). }
    unfold extra_of in Ha. destruct (Json.get schema "additionalProperties") as [e|] eqn:Ee; [|by destruct (flag schema _)].
    destruct e as [| [] | | | |em]; try done; try (by destruct (flag schema _)). apply (IH _ _ _ _ (wf_get _ _ _ Hws Ee) Hwv Ha).
  - rewrite at_ptr_cons in Ha. cbn [covered]. destruct (Json.get schema "items") as [s|] eqn:Es; [|done].
    destruct obj as [| | | |l|m]; try (by destruct schema).
    + rewrite walk_array, Es in Ha. destruct (walk_items_spec (walk s false) path 0 l) as (_ & H2 & _).
      destruct (walk_items _ _ _ _) as [l' u]. cbn [fst seg_step mbind option_bind as_array] in *. destruct (l' !! i) as [v'|] eqn:Ev; [|done]. destruct (H2 _ _ Ev) as (v & p & Hv & ->).
      apply (IH s false v p); [by apply (wf_get schema "items")| |done]. by apply (wf_elem l), list_elem_of_lookup_2 with i.
    + rewrite walk_object in Ha. by destruct (walk_entries _ _).
Qed.

Lemma filled_kept schema m k v :
  map_get m k = Some v → is_null v = false →
  match map_get (props_of schema) k with Some s => filled s (map_get m k) | None => map_get m k end = Some v.
Proof. intros -> Hn. destruct (map_get (props_of schema) k); [|done]. by destruct v. Qed.

Lemma solid_inside v p x : at_ptr v p = Some x → solid x = true → is_null v = false.
Proof. intros Ha Hx. destruct v; try done. destruct p as [|[k|i] p]; [by injection Ha as <-| |]; by rewrite at_ptr_cons in Ha. Qed.

(** A value the client set, at a path the schema has a place for, is stored. *)
Lemma covered_kept ptr schema r obj path x :
  wf_value schema = true → wf_value obj = true → at_ptr obj ptr = Some x → solid x = true → covered schema r ptr = true →
  at_ptr (walk schema r obj path).1 ptr = Some x.
Proof.
  revert schema r obj path. induction ptr as [|[k|i] ptr IH]; intros schema r obj path Hws Hwo Ha Hx Hc.
  - injection Ha as ->. rewrite walk_solid; by destruct x.
  - rewrite at_ptr_cons in Ha |- *. destruct obj as [| | | | |m]; try done. cbn [seg_step mbind option_bind Json.get] in Ha.
    destruct (map_get m k) as [v|] eqn:Ev; [|done]. cbn [mbind option_bind] in Ha. pose proof (solid_inside _ _ _ Ha Hx) as Hn.
    assert (wf_value v = true) as Hwv by (by eapply wf_map_get).
    cbn [seg_step mbind option_bind]. rewrite walk_key, (filled_kept _ _ _ v) by done. cbn [mbind option_bind].
    unfold entry_walk, walk_entry. cbn [covered] in Hc. destruct (embeds schema r && _); [done|]. destruct (embeds schema r && _).
    { unfold keep. cbn [fst mbind option_bind]. destruct ptr as [|[f|j] ptr]; [injection Ha as ->; by destruct x|by rewrite meta_at, Hc|]. rewrite at_ptr_cons in Ha |- *. by destruct v. }
    destruct (map_get (props_of schema) k) as [s|] eqn:Es; cbn [fmap option_fmap option_map].
    { apply IH; try done. by apply (wf_map_get _ k s (wf_props _ Hws)). }
    unfold extra_of. destruct (Json.get schema "additionalProperties") as [e|] eqn:Ee; [|by rewrite Hc].
    destruct e as [| [] | | | |em]; try done; try (by rewrite Hc). apply IH; try done. by apply (wf_get schema "additionalProperties").
  - rewrite at_ptr_cons in Ha |- *. destruct obj as [| | | |l|]; try done. cbn [seg_step mbind option_bind as_array] in Ha.
    destruct (l !! i) as [v|] eqn:Ev; [|done]. cbn [mbind option_bind] in Ha. rewrite walk_array. cbn [covered] in Hc.
    destruct (Json.get schema "items") as [s|] eqn:Es; [|cbn [fst seg_step mbind option_bind as_array]; by rewrite Ev].
    destruct (walk_items_spec (walk s false) path 0 l) as (H1 & _ & _). destruct (H1 _ _ Ev) as (p & Hp & _).
    destruct (walk_items _ _ _ _) as [l' u]. cbn [fst seg_step mbind option_bind as_array] in *. rewrite Hp. cbn [mbind option_bind].
    apply IH; try done; [by apply (wf_get schema "items")|]. by apply (wf_elem l), list_elem_of_lookup_2 with i.
Qed.

(** What is not reported had a place. *)
Lemma unreported_covered ptr schema r obj path x :
  wf_value schema = true → wf_value obj = true → (walk schema r obj path).2 = [] → at_ptr obj ptr = Some x → solid x = true →
  covered schema r ptr = true.
Proof.
  revert schema r obj path. induction ptr as [|[k|i] ptr IH]; intros schema r obj path Hws Hwo Hu Ha Hx; [done| |].
  - rewrite at_ptr_cons in Ha. destruct obj as [| | | | |m]; try done. cbn [seg_step mbind option_bind Json.get] in Ha.
    destruct (map_get m k) as [v|] eqn:Ev; [|done]. cbn [mbind option_bind] in Ha. pose proof (solid_inside _ _ _ Ha Hx) as Hn.
    assert (wf_value v = true) as Hwv by (by eapply wf_map_get). pose proof (wf_props _ Hws) as Hwp.
    destruct (andb_prop _ _ Hwo) as [Hsm _]. destruct (andb_prop _ _ Hwp) as [Hsp _].
    assert ((entry_walk schema r path (k, v)).2 = []) as He.
    { apply elem_of_nil_inv. intros q Hq. rewrite walk_object in Hu.
      pose proof (walk_entries_unknown (entry_walk schema r path) (fill_defaults (props_of schema) m) k v) as Hin.
      assert (q ∈ (walk_entries (entry_walk schema r path) (fill_defaults (props_of schema) m)).2) as Hq'.
      { apply Hin; [|done]. apply map_get_In. rewrite fill_get by done. by apply filled_kept. }
      destruct (walk_entries _ _) as [m2 u]. cbn in Hu, Hq'. rewrite Hu in Hq'. by apply not_elem_of_nil in Hq'. }
    unfold entry_walk, walk_entry in He. cbn [covered]. destruct (embeds schema r && _); [done|]. destruct (embeds schema r && _).
    { destruct ptr as [|[f|j] ptr]; try done. rewrite at_ptr_cons in Ha. destruct v as [| | | | |meta]; try done. cbn [seg_step mbind option_bind Json.get] in Ha.
      destruct (map_get meta f) as [y|] eqn:Ef; [|done]. unfold keep, prune_meta in He. cbn [snd] in He. apply fmap_nil_inv in He.
      apply map_get_In in Ef. destruct (str_in f OBJECT_META) eqn:Eo; [done|]. exfalso.
      assert (In (f, y) (List.filter (λ kv : string * Value, negb (str_in kv.1 OBJECT_META)) meta)) as Hin by (apply List.filter_In; cbn [fst]; by rewrite Eo).
      by rewrite He in Hin. }
    destruct (map_get (props_of schema) k) as [s|] eqn:Es; cbn [fmap option_fmap option_map] in He.
    { apply (IH s false v _ (wf_map_get _ k s Hwp Es) Hwv He Ha Hx). }
    unfold extra_of in He. destruct (Json.get schema "additionalProperties") as [e|] eqn:Ee; [|by destruct (flag schema _)].
    destruct e as [| [] | | | |em]; try done; try (by destruct (flag schema _)).
    apply (IH _ false v _ (wf_get _ _ _ Hws Ee) Hwv He Ha Hx).
  - rewrite at_ptr_cons in Ha. destruct obj as [| | | |l|]; try done. cbn [seg_step mbind option_bind as_array] in Ha.
    destruct (l !! i) as [v|] eqn:Ev; [|done]. cbn [mbind option_bind] in Ha. rewrite walk_array in Hu. cbn [covered].
    destruct (Json.get schema "items") as [s|] eqn:Es; [|done].
    destruct (walk_items_spec (walk s false) path 0 l) as (H1 & _ & _). destruct (H1 _ _ Ev) as (p & _ & Hp).
    destruct (walk_items _ _ _ _) as [l' u]. cbn [snd] in *. subst u.
    apply (IH s false v p); try done; [by apply (wf_get schema "items")|by apply (wf_elem l), list_elem_of_lookup_2 with i|].
    apply elem_of_nil_inv. intros q Hq. by apply Hp, not_elem_of_nil in Hq.
Qed.

(** C26: What a schema makes of a custom resource.  The result is a fixed point:
    a second pass changes nothing and reports nothing.  It holds nothing at a
    path the schema has no place for; every value the client set at a path it
    has a place for is there unchanged, whatever was pruned or defaulted around
    it; and when no field is reported as unknown, every value the client set was
    at such a path, so nothing was lost. *)
Theorem schema_stored_form obj schema :
  wf_value obj = true → wf_value schema = true →
  let '(out, unknown) := apply obj schema in
  apply out schema = (out, []) ∧
  (∀ ptr x, at_ptr out ptr = Some x → covered schema true ptr = true) ∧
  (∀ ptr x, at_ptr obj ptr = Some x → solid x = true → covered schema true ptr = true → at_ptr out ptr = Some x) ∧
  (unknown = [] → ∀ ptr x, at_ptr obj ptr = Some x → solid x = true → at_ptr out ptr = Some x).
Proof.
  intros Hwo Hws. unfold apply. pose proof (walk_idem schema Hws true obj "" Hwo) as Hi.
  pose proof (λ ptr x, walked_covered ptr schema true obj "" x Hws Hwo) as Hc.
  pose proof (λ ptr x, covered_kept ptr schema true obj "" x Hws Hwo) as Hk.
  pose proof (λ ptr x, unreported_covered ptr schema true obj "" x Hws Hwo) as Hu.
  destruct (walk schema true obj "") as [out unknown]. cbn [fst snd] in *. split_and!; eauto.
Qed.

(** ** Theorems: ratcheting *)

Section Ratchet.
  Variables (debug : string → string) (json_text : Value → string).
  Variable regex : string → option (string → bool).
  Notation check := (check debug json_text regex).

(** An error below [ptr], about [v]: a missing value is really missing. *)
Definition located (v : Value) (ptr : list Seg) (e : FieldError) : Prop :=
  ∃ suffix, fe_pointer e = (ptr ++ suffix)%list ∧ ((fe_detail e =? REQUIRED)%kube = true → at_ptr v suffix = None).

Lemma located_here v ptr d : (d =? REQUIRED)%kube = false → located v ptr (err ptr d).
Proof. intros Hd. exists []. split; [by rewrite app_nil_r|]. cbn [err fe_detail]. by rewrite Hd. Qed.

Lemma located_if v ptr b d : (d =? REQUIRED)%kube = false → Forall (located v ptr) (err_if b ptr d).
Proof. intros Hd. destruct b; repeat constructor. by apply located_here. Qed.

Lemma located_bound v schema k refused ptr detail :
  (∀ m, (detail m =? REQUIRED)%kube = false) → Forall (located v ptr) (check_bound schema k refused ptr detail).
Proof. intros Hd. unfold check_bound. destruct (as_u64 _); [by apply located_if|constructor]. Qed.

Lemma located_down v s x ptr e : seg_step (Some v) s = Some x → located x (ptr ++ [s]) e → located v ptr e.
Proof.
  intros Hs (suffix & Hp & Hd). exists (s :: suffix). split; [by rewrite Hp, <- app_assoc|]. intros Hr. rewrite at_ptr_cons, Hs. by apply Hd.
Qed.

Lemma located_type v schema ptr : Forall (located v ptr) (check_type schema v ptr).1.
Proof. unfold check_type. repeat case_match; cbn [fst]; repeat constructor; by apply located_here. Qed.

Lemma located_limit v schema n k exclusive side beyond met ptr :
  Forall (located v ptr) (check_limit json_text schema n k exclusive side beyond met ptr).
Proof.
  unfold check_limit. destruct (as_f64 _); [|constructor]. destruct (flag _ _ && _); [repeat constructor; by apply located_here|by apply located_if].
Qed.

Lemma located_repeats v same detail ptr i before l :
  (∀ x, (detail x =? REQUIRED)%kube = false) → Forall (located v ptr) (repeats same detail ptr i before l).
Proof.
  intros Hd. revert i before. induction l as [|x l IH]; intros i before; [constructor|]. cbn. apply Forall_app. split; [|apply IH].
  destruct (existsb _ _); [|constructor]. apply Forall_singleton. exists [Index i]. split; [done|]. cbn [err fe_detail]. by rewrite Hd.
Qed.

Lemma located_count v schema max min what n ptr : Forall (located v ptr) (check_count schema max min what n ptr).
Proof. unfold check_count. apply Forall_app. split; by apply located_bound. Qed.

Lemma located_required schema m ptr : Forall (located (Object m) ptr) (check_required schema m ptr).
Proof.
  unfold check_required. apply Forall_bind. apply List.Forall_forall. intros r _. unfold compose. destruct (contains_key m r) eqn:E; [constructor|].
  apply Forall_singleton. exists [Key r]. split; [done|]. intros _. rewrite at_ptr_cons. cbn. unfold contains_key in E. by destruct (map_get m r).
Qed.

Lemma located_items f l ptr i :
  (∀ j x p, l !! j = Some x → Forall (located x p) (f x p)) →
  ∀ before, length before = i → Forall (located (Array (before ++ l)) ptr) (check_items f ptr i l).
Proof.
  revert i. induction l as [|x l IH]; intros i Hf before Hi; [constructor|]. cbn. apply Forall_app. split.
  - eapply Forall_impl; [apply (Hf 0%nat x); done|]. intros e. apply located_down. cbn. subst i. by rewrite list_lookup_middle.
  - replace (before ++ x :: l)%list with ((before ++ [x]) ++ l)%list by (by rewrite <- app_assoc). apply IH.
    + intros j. apply (Hf (S j)).
    + rewrite length_app. cbn. lia.
Qed.

Lemma check_unfold schema v ptr r :
  check schema v ptr r =
  let '(errs, more) := check_type schema v ptr in
  if negb more then errs
  else
    (errs ++ check_enum debug json_text schema v ptr ++
     match v with
     | Str s => check_string debug regex schema s ptr
     | Num _ => check_number json_text schema v ptr
     | Array l =>
         (check_count schema "maxItems" "minItems" "items" (Z.of_nat (length l)) ptr ++ check_unique debug json_text schema l ptr
          ++ match Json.get schema "items" with Some s => check_items (λ x ptr, check s x ptr false) ptr 0 l | None => [] end)%list
     | Object m =>
         let extra := match Json.get schema "additionalProperties" with Some (Object e) => Some (check (Object e)) | _ => None end in
         (check_count schema "maxProperties" "minProperties" "properties" (Z.of_nat (length m)) ptr ++ check_required schema m ptr
          ++ m ≫= λ kx,
               if embeds schema r && str_in kx.1 IDENTITY then []
               else match (match map_get (props_of schema) kx.1 with Some s => Some (check s) | None => extra end) with
                    | Some f => f kx.2 (ptr ++ [Key kx.1])%list false
                    | None => []
                    end)%list
     | _ => []
     end)%list.
Proof.
  destruct schema as [| | | | |sm]; try reflexivity. cbn [Schema.check]. destruct (check_type (Object sm) v ptr) as [errs []]; [|done]. cbn [negb].
  destruct v as [| | | |l|m]; try reflexivity; do 4 f_equal; [by rewrite on_field_spec|].
  apply list_bind_ext; [|done]. intros [k x]. cbn [fst snd]. rewrite !on_field_spec. unfold props_of, index, embeds.
  destruct (_ && _); [done|]. destruct (Json.get (Object sm) "properties") as [[| | | | |props]|]; cbn [default from_option entries as_object id map_get];
    rewrite ?on_key_spec; try destruct (map_get props k); destruct (Json.get (Object sm) "additionalProperties") as [[]|]; done.
Qed.

Lemma check_located schema : ∀ v ptr r, wf_value v = true → Forall (located v ptr) (check schema v ptr r).
Proof.
  induction schema as [schema IHp IHk] using schema_ind. intros v ptr r Hwv. rewrite check_unfold.
  pose proof (located_type v schema ptr) as Ht. destruct (check_type schema v ptr) as [errs []]; cbn [negb fst] in *; [|done].
  apply Forall_app. split; [done|]. apply Forall_app. split.
  { unfold check_enum. destruct (as_array _); [by apply located_if|constructor]. }
  destruct v as [| | |s|l|m]; try constructor.
  - unfold check_number. repeat (apply Forall_app; split); try apply located_limit. destruct (as_f64 _); [by apply located_if|constructor].
  - unfold check_string. repeat (apply Forall_app; split); try by apply located_bound. destruct (as_str _); [by apply located_if|constructor].
  - apply Forall_app. split; [apply located_count|]. apply Forall_app. split.
    + unfold check_unique. destruct (_ =? "set")%kube; [by apply located_repeats|]. destruct (_ =? "map")%kube; [by apply located_repeats|constructor].
    + destruct (Json.get schema "items") as [s|] eqn:Es; [|constructor].
      apply (located_items (λ x ptr, check s x ptr false) l ptr 0) with (before := []); [|done]. intros j x p Hx. apply (IHk _ _ Es).
      by apply (wf_elem l), list_elem_of_lookup_2 with j.
  - apply Forall_app. split; [apply located_count|]. apply Forall_app. split; [apply located_required|].
    apply Forall_bind, List.Forall_forall. intros [k x] Hin. unfold compose. cbn [fst snd]. destruct (_ && _); [constructor|].
    destruct (match map_get (props_of schema) k with Some s => _ | None => _ end) as [f|] eqn:Ef; [|constructor].
    assert (∀ p, Forall (located x p) (f x p false)) as Hf.
    { pose proof (wf_In _ _ _ Hwv Hin) as Hwx. destruct (map_get (props_of schema) k) as [s|] eqn:Es; [injection Ef as <-; intros p; by apply (IHp _ _ Es)|].
      destruct (Json.get schema "additionalProperties") as [[]|] eqn:Ee; try done. injection Ef as <-. intros p. by apply (IHk _ _ Ee). }
    eapply Forall_impl; [apply Hf|]. intros e. apply located_down. apply andb_prop in Hwv as [Hs _]. by apply map_get_sorted_In.
Qed.

Lemma wf_at v p x : wf_value v = true → at_ptr v p = Some x → wf_value x = true.
Proof.
  revert v. induction p as [|[k|i] p IH]; intros v Hw Ex; [by injection Ex as <-| |]; rewrite at_ptr_cons in Ex; cbn [seg_step mbind option_bind] in Ex.
  - destruct (Json.get v k) as [y|] eqn:Ey; [|done]. apply (IH y); [by eapply wf_get|done].
  - destruct v as [| | | |l|]; try done. cbn [as_array mbind option_bind] in Ex.
    destruct (l !! i) as [y|] eqn:Ey; [|done]. apply (IH y); [by apply (wf_elem l), list_elem_of_lookup_2 with i|done].
Qed.

(** Ratcheting lets an object be written back as it is stored, whatever
    the schema has become since: every error of an unchanged value is dropped,
    and so is a required field that was missing before. *)
Theorem unchanged_always_valid obj schema : wf_value obj = true → validate debug json_text regex obj schema (Some obj) = [].
Proof.
  intros Hw. unfold validate. pose proof (check_located schema obj [] true Hw) as Hl.
  induction (check schema obj [] true) as [|e errs IH]; [done|]. apply Forall_cons in Hl as [(suffix & Hp & Hd) Hl]. cbn [List.filter].
  assert (ratcheted obj obj e = true) as ->; [|by apply IH]. unfold ratcheted. rewrite Hp. cbn [app].
  destruct (fe_detail e =? REQUIRED)%kube; [by rewrite Hd|]. destruct (at_ptr obj suffix) as [x|] eqn:Ex; [|done].
  by apply value_eqb_refl, (wf_at obj suffix).
Qed.
End Ratchet.

(** ** Witnesses *)

Module SchemaDemo.
Definition schema : Value :=
  json_obj [("properties", json_obj [("spec", json_obj [("properties", json_obj [
     ("replicas", json_obj [("default", num_i64 1); ("type", Str "integer")]);
     ("size", json_obj [("maximum", num_i64 3); ("type", Str "integer")])]); ("required", Array [Str "size"])])]); ("type", Str "object")].
Definition widget : Value := json_obj [("kind", Str "Widget"); ("metadata", json_obj [("name", Str "w")]); ("spec", json_obj [("foo", Str "x"); ("size", num_i64 5)])].
Definition stored : Value := json_obj [("kind", Str "Widget"); ("metadata", json_obj [("name", Str "w")]); ("spec", json_obj [("replicas", num_i64 1); ("size", num_i64 5)])].
End SchemaDemo.

Lemma schema_stored_form_witness :
  apply SchemaDemo.widget SchemaDemo.schema = (SchemaDemo.stored, [".spec.foo"]) ∧ apply SchemaDemo.stored SchemaDemo.schema = (SchemaDemo.stored, []).
Proof.
  split; [reflexivity|]. pose proof (schema_stored_form SchemaDemo.widget SchemaDemo.schema eq_refl eq_refl) as H.
  change (apply SchemaDemo.widget SchemaDemo.schema) with (SchemaDemo.stored, [".spec.foo"]) in H. exact (proj1 H).
Defined.

Lemma unchanged_always_valid_witness :
  validate id (λ _, "") (λ _, None) SchemaDemo.stored SchemaDemo.schema (Some SchemaDemo.stored) = [] ∧
  length (validate id (λ _, "") (λ _, None) SchemaDemo.stored SchemaDemo.schema None) = 1%nat.
Proof. split; [apply unchanged_always_valid; reflexivity|vm_compute; reflexivity]. Defined.
