(* ===== verification/Hpa.v ===== *)
(** * The Horizontal Pod Autoscaler ([pkg/controller-manager/src/hpa.rs])

    How many replicas a target should have, from the usage its Pods report:
    the calculation of one metric ([calculate]), the stabilization windows
    ([stabilize]) and the rate policies and bounds ([limit]), and the pass
    that reads the metrics, writes the target and reports.  Numbers are the
    [f64]s of [F64]; an [Instant] is a number of nanoseconds.

    What is not in the source is a parameter: [order] is the order in which a
    [HashMap] is walked (the sums of floats depend on it), [debug] and
    [json_text] the [{:?}] text of a string and the text of a JSON value, and
    [show_err] and [status_text] the texts of a client error and of an HTTP
    status.

    Proved: a count within [minReplicas..maxReplicas] is moved within it and
    only towards what was recommended; the pruned history of recommendations
    gives what the whole of it would; Pods without a measurement never move
    the count the way the measured ones do; and a pass writes its target only
    with such a count. *)

From Stdlib Require Import ZArith Lia String Ascii Sorted.
From Stdlib.Floats Require Import SpecFloat.
From stdpp Require Import base gmap strings numbers option list.
From S2P Require Import Prelude Text BTree Json F64 Quantity Selector Client Schema.
Open Scope string_scope.
Open Scope kube_scope.
Open Scope Z_scope.

Module Hpa.

Definition SECOND : Z := 1000000000.
Definition SYNC : Z := 15 * SECOND.
Definition TOLERANCE : f64 := default f64_zero (parse_f64 "0.1").
Definition one : f64 := f64_of_Z 1.
Definition hundred : f64 := f64_of_Z 100.

(** Comparisons as they are written: [a > b], [a < b]. *)
Definition f64_gt (a b : f64) : bool := f64_lt b a.
Definition f64_abs (a : f64) : f64 := SFabs a.
(** [f as u32]. *)
Definition f64_to_u32 (f : f64) : Z := Z.min u32_max (f64_to_u64 f).
(** [Iterator::sum]. *)
Definition f64_sum (l : list f64) : f64 := fold_left f64_add l f64_zero.

Record History := mkHistory { recommendations : list (Z * Z); events : list (Z * Z) }.
Definition no_history : History := mkHistory [] [].

(** ** Quantities *)

Definition literal (s : string) : f64 := default f64_zero (parse_f64 s).

Definition cpu_cores (s0 : string) : f64 :=
  let s := trim s0 in
  let '(num, mult) :=
    match strip_suffix "n" s with
    | Some num => (num, literal "1e-9")
    | None =>
        match strip_suffix "u" s with
        | Some num => (num, literal "1e-6")
        | None =>
            match strip_suffix "m" s with
            | Some num => (num, literal "1e-3")
            | None => (s, one)
            end
        end
    end in
  match parse_f64 num with Some v => f64_mul v mult | None => f64_zero end.

Definition quantity (resource s : string) : f64 :=
  if str_eqb resource "cpu" then cpu_cores s else f64_of_Z (parse_bytes s).

Inductive Target := Utilization (t : f64) | AverageValue (t : f64).

Record PodState := mkPod { p_name : string; p_pending : bool; p_ready : bool; p_request : option f64 }.

Record Computed := mkComputed { c_replicas : Z; c_utilization : option Z; c_average : f64 }.

(** ** One metric *)

(** The Pods sorted: measured (with how many), not ready, and not measured. *)
Record SortedPods := mkSorted { s_metrics : BTreeMap f64; s_ready : Z; s_unready : list PodState; s_missing : list PodState }.

Definition sort_pod (resource : string) (usage : BTreeMap f64) (s : SortedPods) (p : PodState) : SortedPods :=
  if p_pending p || (str_eqb resource "cpu" && negb (p_ready p))
  then mkSorted (s_metrics s) (s_ready s) (s_unready s ++ [p])%list (s_missing s)
  else match map_get usage (p_name p) with
       | Some v => mkSorted (map_insert (s_metrics s) (p_name p) v) (s_ready s + 1) (s_unready s) (s_missing s)
       | None => mkSorted (s_metrics s) (s_ready s) (s_unready s) (s_missing s ++ [p])%list
       end.

Definition sort_pods (resource : string) (usage : BTreeMap f64) (pods : list PodState) : SortedPods :=
  fold_left (sort_pod resource usage) pods (mkSorted [] 0 [] []).

Definition request_of (pods : list PodState) (name : string) : option f64 :=
  head (List.filter (λ p, str_eqb (p_name p) name) pods) ≫= p_request.

Section Calculate.
  Variable order : BTreeMap f64 → BTreeMap f64.

Definition ratio (target : Target) (pods : list PodState) (m : BTreeMap f64) : f64 * option Z * f64 :=
  let sum := f64_sum (snd <$> order m) in
  let avg := f64_div sum (f64_of_Z (Z.of_nat (length m))) in
  match target with
  | Utilization t =>
      let req := f64_sum (omap (λ kv, request_of pods kv.1) (order m)) in
      let util := if f64_gt req f64_zero then f64_div (f64_mul sum hundred) req else f64_zero in
      (f64_div util t, Some (f64_to_i64 (f64_round util)), avg)
  | AverageValue t => (f64_div avg t, None, avg)
  end.

(** [1.0 - r] is within the tolerance. *)
Definition tolerated (r : f64) : bool := f64_le (f64_abs (f64_sub one r)) TOLERANCE.

(** What a Pod without a measurement is taken to use. *)
Definition assumed (target : Target) (usage_ratio : f64) (p : PodState) : f64 :=
  if f64_lt usage_ratio one then
    match target with
    | Utilization t => f64_div (f64_mul (default f64_zero (p_request p)) (f64_max t hundred)) hundred
    | AverageValue t => t
    end
  else f64_zero.

Definition fill (target : Target) (usage_ratio : f64) (with_unready : bool) (s : SortedPods) : BTreeMap f64 :=
  let metrics := fold_left (λ m p, map_insert m (p_name p) (assumed target usage_ratio p)) (s_missing s) (s_metrics s) in
  if with_unready then fold_left (λ m p, map_insert m (p_name p) f64_zero) (s_unready s) metrics else metrics.

(** The count once the gaps are filled. *)
Definition refilled (current : Z) (usage_ratio new_ratio : f64) (n : nat) : Z :=
  if tolerated new_ratio || (f64_lt usage_ratio one && f64_gt new_ratio one) || (f64_gt usage_ratio one && f64_lt new_ratio one)
  then current
  else
    let replicas := f64_to_u32 (f64_ceil (f64_mul new_ratio (f64_of_Z (Z.of_nat n)))) in
    if (f64_lt new_ratio one && (current <? replicas)) || (f64_gt new_ratio one && (replicas <? current)) then current else replicas.

Definition calculate (current : Z) (resource : string) (target : Target) (pods : list PodState) (usage : BTreeMap f64) :
    result Computed string :=
  match pods with
  | [] => Err "no pods match the target's selector"
  | _ =>
      let s := sort_pods resource usage pods in
      match s_metrics s with
      | [] => Err ("did not receive metrics for targeted pods (pods might be unready): no " ++ resource ++ " usage for any")
      | _ =>
          let unrequested := match target with
                             | Utilization _ => head (List.filter (λ p, match p_request p with None => true | Some _ => false end) pods)
                             | AverageValue _ => None
                             end in
          match unrequested with
          | Some p => Err ("missing request for " ++ resource ++ " in pod " ++ p_name p)
          | None =>
              let '(usage_ratio, utilization, average) := ratio target pods (s_metrics s) in
              let scale_up_with_unready := negb (match s_unready s with [] => true | _ => false end) && f64_gt usage_ratio one in
              if negb scale_up_with_unready && (match s_missing s with [] => true | _ => false end) then
                let replicas := if tolerated usage_ratio then current
                                else f64_to_u32 (f64_ceil (f64_mul usage_ratio (f64_of_Z (s_ready s)))) in
                Ok (mkComputed replicas utilization average)
              else
                let metrics := fill target usage_ratio scale_up_with_unready s in
                let new_ratio := (ratio target pods metrics).1.1 in
                Ok (mkComputed (refilled current usage_ratio new_ratio (length metrics)) utilization average)
          end
      end
  end.
End Calculate.

(** ** Behaviour *)

Inductive Select := SMax | SMin | SDisabled.
#[export] Instance Select_eq_dec : EqDecision Select.
Proof. solve_decision. Defined.

(** A policy: Pods (or percent), value, period in seconds. *)
Notation Policy := (bool * Z * Z)%type.
Record Rules := mkRules { window : Z; select : Select; policies : list Policy }.

Definition policy_of (p : Value) : option Policy :=
  t ← as_str p.["type"]; v ← as_i64 p.["value"]; s ← as_u64 p.["periodSeconds"]; Some (str_eqb t "Pods", v, s).

Definition rules (hpa : Value) (up : bool) : Rules :=
  let b := hpa.["spec"].["behavior"].[if up then "scaleUp" else "scaleDown"] in
  let window := default (if up then 0 else 300) (as_u64 b.["stabilizationWindowSeconds"]) in
  let select := match as_str b.["selectPolicy"] with
                | Some s => if str_eqb s "Min" then SMin else if str_eqb s "Disabled" then SDisabled else SMax
                | None => SMax
                end in
  let given := omap policy_of (items b.["policies"]) in
  let policies := match given with [] => if up then [(false, 100, 15); (true, 4, 15)] else [(false, 100, 15)] | _ => given end in
  mkRules window select policies.

(** [now.duration_since(t).as_secs()], which does not go below 0. *)
Definition age (now t : Z) : Z := Z.max 0 (now - t) / SECOND.

Definition stabilize (h : History) (now desired current : Z) (up down : Rules) : History * Z :=
  let longest := Z.max (window up) (window down) in
  let kept := List.filter (λ tr, age now tr.1 <=? longest) (recommendations h) in
  let step (a : Z * Z) (tr : Z * Z) :=
    (if age now tr.1 <=? window up then Z.min a.1 tr.2 else a.1,
     if age now tr.1 <=? window down then Z.max a.2 tr.2 else a.2) in
  let recs := fold_left step kept (desired, desired) in
  (mkHistory (kept ++ [(now, desired)])%list (events h), Z.min (Z.max current recs.1) recs.2).

Definition changed_in (h : History) (now period : Z) : Z * Z :=
  fold_left (λ a td, if 0 <? td.2 then (wrap_i64 (a.1 + td.2), a.2) else (a.1, wrap_i64 (a.2 - td.2)))
    (List.filter (λ td, age now td.1 <=? period) (events h)) (0, 0).

(** The count the policy's period started with. *)
Definition start (h : History) (now current period : Z) : Z :=
  let '(added, removed) := changed_in h now period in wrap_i64 (wrap_i64 (current - added) + removed).

Definition up_proposal (h : History) (now current : Z) (p : Policy) : Z :=
  let '(pods, v, period) := p in
  let s := start h now current period in
  if pods : bool then wrap_i64 (s + v)
  else f64_to_i64 (f64_ceil (f64_mul (f64_of_Z s) (f64_add one (f64_div (f64_of_Z v) hundred)))).

Definition down_proposal (h : History) (now current : Z) (p : Policy) : Z :=
  let '(pods, v, period) := p in
  let s := start h now current period in
  if pods : bool then wrap_i64 (s - v)
  else f64_to_i64 (f64_mul (f64_of_Z s) (f64_sub one (f64_div (f64_of_Z v) hundred))).

(** [Iterator::max] and [min]. *)
Definition best_of (pick : Z → Z → Z) (l : list Z) : option Z :=
  match l with [] => None | x :: l => Some (fold_left pick l x) end.

Definition up_limit (h : History) (now current : Z) (up : Rules) : Z :=
  Z.max (match select up with
         | SDisabled => current
         | s => default current (best_of (if bool_decide (s = SMin) then Z.min else Z.max) (up_proposal h now current <$> policies up))
         end) current.

Definition down_limit (h : History) (now current : Z) (down : Rules) : Z :=
  Z.max (Z.min (match select down with
                | SDisabled => current
                | s => default current (best_of (if bool_decide (s = SMin) then Z.max else Z.min) (down_proposal h now current <$> policies down))
                end) current) 0.

Definition TooMany : string * string := ("TooManyReplicas", "the desired replica count is more than the maximum replica count").
Definition TooFew : string * string := ("TooFewReplicas", "the desired replica count is less than the minimum replica count").
Definition UpLimit : string * string := ("ScaleUpLimit", "the desired replica count is increasing faster than the maximum scale rate").
Definition DownLimit : string * string := ("ScaleDownLimit", "the desired replica count is decreasing faster than the maximum scale rate").

Definition limit (h : History) (now desired current min max : Z) (up down : Rules) : Z * option (string * string) :=
  if current <? desired then
    let limit := wrap32 (up_limit h now current up) in
    if Z.min max limit <? desired then (if limit <? max then (limit, Some UpLimit) else (max, Some TooMany)) else (desired, None)
  else if desired <? current then
    let limit := wrap32 (down_limit h now current down) in
    if desired <? Z.max min limit then (if min <? limit then (limit, Some DownLimit) else (min, Some TooFew)) else (desired, None)
  else if max <? desired then (max, Some TooMany)
  else if desired <? min then (min, Some TooFew)
  else (desired, None).

(** ** A pass *)

Definition condition (kind : string) (status : bool) (reason message now : string) : Value :=
  json_obj [("type", Str kind); ("status", Str (if status then "True" else "False")); ("reason", Str reason);
            ("message", Str message); ("lastTransitionTime", Str now)].

Definition DEFAULT_METRIC : Value :=
  json_obj [("type", Str "Resource");
            ("resource", json_obj [("name", Str "cpu");
               ("target", json_obj [("type", Str "Utilization"); ("averageUtilization", num_i64 80)])])].

Definition metric_specs (hpa : Value) : list Value :=
  match items hpa.["spec"].["metrics"] with [] => [DEFAULT_METRIC] | m => m end.

(** [Iterator::sum::<Option<f64>>]: none as soon as one is. *)
Definition sum_all (l : list (option f64)) : option f64 := f64_sum <$> mapM id l.

Definition pod_request (resource : string) (p : Value) : option f64 :=
  let containers := items p.["spec"].["containers"] in
  let each c := quantity resource <$> as_str c.["resources"].["requests"].[resource] in
  match containers with [] => None | _ => sum_all (each <$> containers) end.

Definition pod_state (resource : string) (p : Value) : PodState :=
  mkPod (str_or "" p.["metadata"].["name"]) (str_eqb (str_or "Pending" p.["status"].["phase"]) "Pending")
    (existsb (λ c, str_is c.["type"] "Ready" && str_is c.["status"] "True") (items p.["status"].["conditions"]))
    (pod_request resource p).

Definition pod_states (pods : list Value) (resource : string) : list PodState := pod_state resource <$> pods.

Definition usage_of (resource : string) (m : Value) : option (string * f64) :=
  name ← as_str m.["metadata"].["name"];
  containers ← as_array m.["containers"];
  Some (name, f64_sum ((λ c, match as_str c.["usage"].[resource] with Some q => quantity resource q | None => f64_zero end) <$> containers)).

Definition usage_by_pod (list : Value) (resource : string) : BTreeMap f64 :=
  fold_left (λ m kv, map_insert m kv.1 kv.2) (omap (usage_of resource) (items list.["items"])) [].

(** [owned::preserve_transition_times]. *)
Definition TRANSITION : string := "lastTransitionTime".

(** Both maps but for the time are the same: the time is kept. *)
Definition keep_time (old new : Map) : Map :=
  if value_eqb (Object (map_remove old TRANSITION)) (Object (map_remove new TRANSITION))
  then match map_get old TRANSITION with Some t => map_insert new TRANSITION t | None => new end
  else new.

Fixpoint preserve_transition_times (current desired : Value) {struct current} : Value :=
  match current, desired with
  | Object old, Object new =>
      let keep (kv : string * Value) : string * Value :=
        (kv.1, (fix look (l : Map) : Value :=
                  match l with
                  | [] => kv.2
                  | (k, o) :: l => if str_eqb k kv.1 then preserve_transition_times o kv.2 else look l
                  end) old) in
      Object (keep <$> keep_time old new)
  | Array old, Array new =>
      Array ((fix zip (l l' : list Value) : list Value :=
                match l, l' with
                | o :: l, n :: l' => preserve_transition_times o n :: zip l l'
                | _, l' => l'
                end) old new)
  | _, desired => desired
  end.

Section Controller.
  Variables (debug : string → string) (json_text : Value → string) (show_err : ClientError → string) (status_text : Z → string).
  Variable order : nat → BTreeMap f64 → BTreeMap f64.

(** The metrics are read without the client's bookkeeping. *)
Definition pod_metrics (namespace : string) : Prog (result Value string) :=
  Ask (QGet ("/apis/metrics.k8s.io/v1beta1/namespaces/" ++ namespace ++ "/pods"))
    (λ a, Ret match a with
              | ALost => Err (show_err Lost)
              | AResponse status body =>
                  if negb (is_success status) then Err ("metrics.k8s.io answered " ++ status_text status)
                  else match body with Some v => Ok v | None => Err (show_err Unreadable) end
              end).

Definition hpa_path (namespace name : string) : string :=
  "/apis/autoscaling/v2/namespaces/" ++ namespace ++ "/horizontalpodautoscalers/" ++ name.

Definition write_status (namespace name : string) (hpa : Value) (status : Map) : Prog (result unit ClientError) :=
  let status := preserve_transition_times hpa.["status"] (Object status) in
  if value_eqb hpa.["status"] status then Ret (Ok tt)
  else match set_index hpa "status" status with
       | None => Ret (Err (Local "panic"))
       | Some updated => r <== api_update_status (hpa_path namespace name) updated ;; Ret match r with Ok _ => Ok tt | Err e => Err e end
       end.

(** What the metrics so far ask for: the highest count, what is reported, and
    what went wrong. *)
Record Tally := mkTally { t_desired : option Z; t_metrics : list Value; t_errors : list string }.

Definition target_of (res : string) (t : Value) : Target :=
  match as_str t.["type"] with
  | Some "AverageValue" => AverageValue (quantity res (str_or "0" t.["averageValue"]))
  | _ => Utilization (default (f64_of_Z 80) (as_f64 t.["averageUtilization"]))
  end.

Definition measured (res : string) (c : Computed) : Value :=
  let average := if str_eqb res "cpu" then show_z (f64_to_i64 (f64_round (f64_mul (c_average c) (f64_of_Z 1000)))) ++ "m"
                 else show_z (f64_to_i64 (f64_round (c_average c))) in
  let cur := [("averageValue", Str average)] in
  let cur := match c_utilization c with Some u => (cur ++ [("averageUtilization", num_i64 u)])%list | None => cur end in
  json_obj [("type", Str "Resource"); ("resource", json_obj [("name", Str res); ("current", json_obj cur)])].

Definition evaluate_spec (current : Z) (pods : list Value) (metrics : result Value string) (i : nat) (acc : Tally) (spec : Value) : Tally :=
  let fail e := mkTally (t_desired acc) (t_metrics acc) (t_errors acc ++ [e])%list in
  if negb (str_is spec.["type"] "Resource") then fail ("metric type " ++ json_text spec.["type"] ++ " is not supported (rustkube#89)")
  else
    let res := str_or "cpu" spec.["resource"].["name"] in
    match metrics with
    | Err e => fail ("failed to get " ++ res ++ " utilization: unable to get metrics for resource " ++ res ++ ": " ++ e)
    | Ok list =>
        match calculate (order i) current res (target_of res spec.["resource"].["target"]) (pod_states pods res) (usage_by_pod list res) with
        | Ok c => mkTally (Some match t_desired acc with Some d => Z.max d (c_replicas c) | None => c_replicas c end)
                    (t_metrics acc ++ [measured res c])%list (t_errors acc)
        | Err e => fail ("failed to get " ++ res ++ " utilization: " ++ e)
        end
    end.

Fixpoint evaluate (current : Z) (pods : list Value) (metrics : result Value string) (i : nat) (acc : Tally) (specs : list Value) : Tally :=
  match specs with
  | [] => acc
  | spec :: specs => evaluate current pods metrics (S i) (evaluate_spec current pods metrics i acc spec) specs
  end.

(** The kinds that can be scaled: which feed holds them, and their resource. *)
Definition scalable (kind : string) : option (nat * string) :=
  if str_eqb kind "Deployment" then Some (0%nat, "deployments")
  else if str_eqb kind "ReplicaSet" then Some (1%nat, "replicasets")
  else if str_eqb kind "StatefulSet" then Some (2%nat, "statefulsets")
  else None.

Definition target_path (namespace resource name : string) : string :=
  "/apis/apps/v1/namespaces/" ++ namespace ++ "/" ++ resource ++ "/" ++ name.

Definition targeted (target p : Value) : bool :=
  LabelSelector.matches target.["spec"].["selector"] p.["metadata"].["labels"] && is_null p.["metadata"].["deletionTimestamp"]
  && negb (str_is p.["status"].["phase"] "Failed") && negb (str_is p.["status"].["phase"] "Succeeded").

Definition scale_to (target : Value) (desired : Z) : option Value := set_index2 target "spec" "replicas" (num_i64 desired).

Definition limited_condition (limited : option (string * string)) (now_s : string) : Value :=
  match limited with
  | Some (reason, message) => condition "ScalingLimited" true reason message now_s
  | None => condition "ScalingLimited" false "DesiredWithinRange" "the desired count is within the acceptable range" now_s
  end.

Definition active_condition (metrics : list Value) (now_s : string) : Value :=
  condition "ScalingActive" true "ValidMetricFound"
    ("the HPA was able to successfully calculate a replica count from "
     ++ String.concat ", " (omap (λ m, as_str m.["resource"].["name"]) metrics) ++ " resource utilization") now_s.

Notation Histories := (gmap string History).

(** The target is written and the change recorded, then the status. *)
Definition rescale (all : Histories) (namespace hpa_name key : string) (hpa target : Value) (path : string) (current desired now : Z) (now_s : string)
    (status : Map) (tally : Tally) (limited : option (string * string)) : Prog (Histories * result unit ClientError) :=
  let finish (all : Histories) (status : Map) (rescaled : Value) :=
    r <== write_status namespace hpa_name hpa
            (map_insert status "conditions" (Array [rescaled; active_condition (t_metrics tally) now_s; limited_condition limited now_s])) ;;
    Ret (all, r) in
  if negb (desired =? current) then
    match scale_to target desired with
    | None => Ret (all, Err (Local "panic"))
    | Some updated =>
        r <== api_update path updated ;;
        match r with
        | Err e => Ret (all, Err e)
        | Ok _ =>
            let h := default no_history (all !! key) in
            finish (<[key := mkHistory (recommendations h) (events h ++ [(now, desired - current)])%list]> all)
              (map_insert status "lastScaleTime" (Str now_s))
              (condition "AbleToScale" true "SucceededRescale" ("the HPA controller was able to update the target scale to " ++ show_z desired) now_s)
        end
    end
  else finish all status (condition "AbleToScale" true "ReadyForNewScale" "recommended size matches current size" now_s).

Definition reconcile_hpa (all : Histories) (namespace : string) (hpa : Value) (feed : nat → result (list Value) string)
    (all_pods : result (list Value) string) (now : Z) (now_s : string) : Prog (Histories * result unit ClientError) :=
  Tell (Requeue SYNC)
  match as_str hpa.["metadata"].["name"] with
  | None => Ret (all, Err (Local "HPA missing name"))
  | Some hpa_name =>
      let write status := r <== write_status namespace hpa_name hpa status ;; Ret (all, r) in
      let target_ref := hpa.["spec"].["scaleTargetRef"] in
      let kind := str_or "" target_ref.["kind"] in
      let target_name := str_or "" target_ref.["name"] in
      match match scalable kind with None => Ok None | Some (i, resource) => l <-? feed i ;; Ok ((λ t, (resource, t)) <$> head l) end with
      | Err e => Ret (all, Err (Local e))
      | Ok target =>
          let min := wrap32 (default 1 (as_u64 hpa.["spec"].["minReplicas"])) in
          let max := wrap32 (default 10 (as_u64 hpa.["spec"].["maxReplicas"])) in
          let status := entries (json_obj [("currentMetrics", Array []); ("conditions", Array [])]) in
          let status := if is_null hpa.["status"].["lastScaleTime"] then status
                        else map_insert status "lastScaleTime" hpa.["status"].["lastScaleTime"] in
          let counted (n : Z) := map_insert (map_insert status "currentReplicas" (num_i64 n)) "desiredReplicas" (num_i64 n) in
          match target with
          | None =>
              let current := default 0 (as_u64 hpa.["status"].["currentReplicas"]) in
              write (map_insert (counted current) "conditions" (Array [condition "AbleToScale" false "FailedGetScale"
                ("the HPA controller was unable to get the target's current scale: " ++ kind ++ " " ++ debug target_name ++ " not found or not supported") now_s]))
          | Some (resource, target) =>
              let current := wrap32 (default 1 (as_u64 target.["spec"].["replicas"])) in
              let status := counted current in
              let able := condition "AbleToScale" true "SucceededGetScale" "the HPA controller was able to get the target's current scale" now_s in
              if current =? 0 then
                write (map_insert status "conditions" (Array [able; condition "ScalingActive" false "ScalingDisabled"
                  "scaling is disabled since the replica count of the target is zero" now_s]))
              else
                match all_pods with
                | Err e => Ret (all, Err (Local e))
                | Ok ps =>
                    metrics <== pod_metrics namespace ;;
                    let tally := evaluate current (List.filter (targeted target) ps) metrics 0 (mkTally None [] []) (metric_specs hpa) in
                    let status := map_insert status "currentMetrics" (Array (t_metrics tally)) in
                    match t_desired tally with
                    | None =>
                        write (map_insert status "conditions" (Array [able; condition "ScalingActive" false "FailedGetResourceMetric"
                          ("the HPA was unable to compute the replica count: " ++ String.concat "; " (t_errors tally)) now_s]))
                    | Some raw =>
                        let key := namespace ++ "/" ++ hpa_name in
                        let '(up, down) := (rules hpa true, rules hpa false) in
                        let '(h, stabilized) := stabilize (default no_history (all !! key)) now raw current up down in
                        let '(desired, limited) := limit h now stabilized current min max up down in
                        rescale (<[key := h]> all) namespace hpa_name key hpa target (target_path namespace resource target_name) current desired now now_s
                          (map_insert status "desiredReplicas" (num_i64 desired)) tally limited
                    end
                end
          end
      end
  end.
End Controller.
End Hpa.
Import Hpa.

(** ** Bounds *)

(** What is asked of a count and its limits: the count is within the bounds,
    and no policy allows more replicas than a [u32] holds. *)
Record settled (h : History) (now current min max : Z) (up : Rules) : Prop := {
  st_range : min ≤ current ≤ max;
  st_u32 : 0 ≤ current ≤ u32_max;
  st_rate : up_limit h now current up ≤ u32_max;
}.

Lemma up_limit_ge h now current up : current ≤ up_limit h now current up.
Proof. unfold up_limit. lia. Qed.

Lemma down_limit_le h now current down : 0 ≤ current → 0 ≤ down_limit h now current down ≤ current.
Proof. unfold down_limit. lia. Qed.

Lemma wrap32_id z : 0 ≤ z ≤ u32_max → wrap32 z = z.
Proof. intros H. apply Z.mod_small. unfold u32_max in H. lia. Qed.

Lemma limit_moves h now desired current min max up down :
  settled h now current min max up →
  let '(r, limited) := limit h now desired current min max up down in
  min ≤ r ≤ max ∧ Z.min current desired ≤ r ≤ Z.max current desired ∧
  (current < r → r ≤ up_limit h now current up) ∧ (r < current → down_limit h now current down ≤ r) ∧
  (limited = None ↔ r = desired).
Proof.
  intros [Hr Hu Hl]. unfold limit. pose proof (up_limit_ge h now current up). pose proof (down_limit_le h now current down (proj1 Hu)).
  cbn zeta. rewrite !wrap32_id by lia.
  destruct (Z.ltb_spec current desired); [|destruct (Z.ltb_spec desired current)].
  - destruct (Z.ltb_spec (Z.min max (up_limit h now current up)) desired); [destruct (Z.ltb_spec (up_limit h now current up) max)|];
      split_and!; try lia; split; try done; lia.
  - destruct (Z.ltb_spec desired (Z.max min (down_limit h now current down))); [destruct (Z.ltb_spec min (down_limit h now current down))|];
      split_and!; try lia; split; try done; lia.
  - destruct (Z.ltb_spec max desired); [lia|]. destruct (Z.ltb_spec desired min); [lia|]. split_and!; try lia; split; done.
Qed.

(** C24: The count stays within its bounds, and moves only towards what is
    recommended, while the arithmetic does not wrap.  From a count within
    [minReplicas..maxReplicas], when the scale-up limit of the policies fits a
    u32 (past that it wraps, down to 0: [scale_up_to_zero]), whatever is
    recommended, the count decided is within the bounds too, lies between the
    present count and the recommended one, exceeds no scale-up limit and
    undercuts no scale-down limit; it is the recommended one exactly when no
    limit is reported. *)
Theorem hpa_limit_in_range h now desired current min max up down :
  settled h now current min max up →
  let '(r, limited) := limit h now desired current min max up down in
  min ≤ r ≤ max ∧ Z.min current desired ≤ r ≤ Z.max current desired ∧
  (current < r → r ≤ up_limit h now current up) ∧ (r < current → down_limit h now current down ≤ r) ∧
  (limited = None ↔ r = desired).
Proof. apply limit_moves. Qed.

(** ** Stabilization *)

(** The windows over everything ever recommended: the lowest count of the
    scale-up window and the highest of the scale-down one bound the move. *)
Definition within (now window : Z) (past : list (Z * Z)) : list Z := snd <$> List.filter (λ tr, age now tr.1 <=? window) past.

Definition stabilize_whole (past : list (Z * Z)) (now desired current : Z) (up down : Rules) : Z :=
  let lowest := foldr Z.min desired (within now (window up) past) in
  let highest := foldr Z.max desired (within now (window down) past) in
  Z.min (Z.max current lowest) highest.

(** The passes so far: when, what was recommended, and the count then. *)
Definition stabilize_run (h : History) (past : list (Z * Z * Z)) (up down : Rules) : History :=
  fold_left (λ h x, (stabilize h x.1.1 x.1.2 x.2 up down).1) past h.

Lemma age_mono now now' t : now ≤ now' → age now t ≤ age now' t.
Proof. intros H. apply Z.div_le_mono; unfold SECOND; lia. Qed.

Lemma filter_filter_weaker {A} (f g : A → bool) l : (∀ x, f x = true → g x = true) → List.filter f (List.filter g l) = List.filter f l.
Proof.
  intros H. induction l as [|x l IH]; [done|]. cbn. destruct (g x) eqn:Eg; cbn; [by rewrite IH|].
  destruct (f x) eqn:Ef; [|done]. apply H in Ef. congruence.
Qed.

Definition recent (now longest : Z) (l : list (Z * Z)) : list (Z * Z) := List.filter (λ tr, age now tr.1 <=? longest) l.

Lemma recent_later now now' longest l : now ≤ now' → recent now' longest (recent now longest l) = recent now' longest l.
Proof. intros H. apply filter_filter_weaker. intros x. pose proof (age_mono _ _ x.1 H). lia. Qed.

Lemma recent_app now longest l l' : recent now longest (l ++ l') = (recent now longest l ++ recent now longest l')%list.
Proof. apply List.filter_app. Qed.

(** Nothing pruned is missed. *)
Lemma stabilize_run_recent up down : ∀ past h now all,
  (∀ n, now ≤ n → recent n (Z.max (window up) (window down)) (recommendations h) = recent n (Z.max (window up) (window down)) all) →
  StronglySorted Z.le (now :: (fst ∘ fst <$> past)) →
  ∀ n, Forall (λ x, x ≤ n) (now :: (fst ∘ fst <$> past)) →
  recent n (Z.max (window up) (window down)) (recommendations (stabilize_run h past up down)) =
  recent n (Z.max (window up) (window down)) (all ++ (fst <$> past)).
Proof.
  induction past as [|[[t d] c] past IH]; intros h now all Hh Hs n Hn.
  { cbn. rewrite app_nil_r. apply Hh. by apply Forall_inv in Hn. }
  cbn in Hs, Hn. apply StronglySorted_inv in Hs as [Hs Hle]. apply Forall_cons in Hn as [_ Hn]. apply Forall_cons in Hle as [Hle _].
  unfold stabilize_run in *. cbn [fold_left fst snd fmap list_fmap].
  rewrite (IH _ t (all ++ [(t, d)])%list); [by rewrite <-(assoc_L (++)%list)| |done|done].
  intros m Hm. cbn [stabilize fst recommendations]. rewrite !recent_app. f_equal.
  change (List.filter _ (recommendations h)) with (recent t (Z.max (window up) (window down)) (recommendations h)).
  rewrite recent_later by done. apply Hh. lia.
Qed.

Lemma within_recent now w longest l : w ≤ longest → within now w (recent now longest l) = within now w l.
Proof. intros H. unfold within, recent. rewrite filter_filter_weaker; [done|]. intros x. lia. Qed.

Lemma windows_fold now up down l : ∀ lo hi,
  fold_left (λ (a : Z * Z) (tr : Z * Z), (if age now tr.1 <=? window up then Z.min a.1 tr.2 else a.1, if age now tr.1 <=? window down then Z.max a.2 tr.2 else a.2))
    l (lo, hi) = (foldr Z.min lo (within now (window up) l), foldr Z.max hi (within now (window down) l)).
Proof.
  assert (∀ l lo x, foldr Z.min (Z.min lo x) l = Z.min x (foldr Z.min lo l)) as Hmin by (induction l0; cbn; intros; [lia|rewrite IHl0; lia]).
  assert (∀ l lo x, foldr Z.max (Z.max lo x) l = Z.max x (foldr Z.max lo l)) as Hmax by (induction l0; cbn; intros; [lia|rewrite IHl0; lia]).
  induction l as [|[t r] l IH]; intros lo hi; [done|]. unfold within in *. cbn. rewrite IH.
  destruct (age now t <=? window up), (age now t <=? window down); cbn; by rewrite ?Hmin, ?Hmax.
Qed.

(** the pruned history decides as the whole one.  However many passes came
    before, with clocks that do not run back, the recommendation is
    stabilized exactly as if every recommendation ever made were still kept:
    moved up no further than the lowest of the scale-up window, down no
    further than the highest of the scale-down window. *)
Theorem hpa_stabilize_whole past now desired current up down :
  StronglySorted Z.le (fst ∘ fst <$> past) → Forall (λ x, x.1.1 ≤ now) past →
  (stabilize (stabilize_run no_history past up down) now desired current up down).2 =
  stabilize_whole (fst <$> past) now desired current up down.
Proof.
  intros Hs Hn. unfold stabilize. cbn [snd]. rewrite windows_fold. cbn [fst snd]. unfold stabilize_whole.
  set (longest := Z.max (window up) (window down)).
  assert (List.filter (λ tr : Z * Z, age now tr.1 <=? longest) (recommendations (stabilize_run no_history past up down)) = recent now longest (fst <$> past)) as ->.
  2: by rewrite !within_recent by (unfold longest; lia).
  destruct past as [|[[t d] c] past]; [done|].
  change (recent now longest (recommendations (stabilize_run no_history (((t, d), c) :: past) up down)) = recent now longest (fst <$> (((t, d), c) :: past))).
  rewrite (stabilize_run_recent up down _ no_history t []); [done|done| |].
  - constructor; [done|]. cbn in Hs |- *. apply StronglySorted_inv in Hs as [_ H]. by constructor.
  - constructor; [by apply Forall_inv in Hn|]. apply Forall_fmap. eapply Forall_impl; [exact Hn|]. done.
Qed.

(** ** Pods without a measurement *)

Lemma beside_finite r k e0 :
  f64_is_nan r = false → SFltb r (S754_finite false k e0) = true ∨ SFltb (S754_finite false k e0) r = true ∨ r = S754_finite false k e0.
Proof.
  intros Hn. destruct r as [s|[]| |[] m e]; try done; [by left|by left|by right; left|by left|]. unfold SFltb, SFcompare.
  destruct (Z.compare_spec e e0) as [->|H|H]; [|by left|right; left; by apply Z.compare_lt_iff in H as ->].
  rewrite Z.compare_refl. change (Pos.compare_cont Eq) with Pos.compare. rewrite (Pos.compare_antisym m).
  destruct (Pos.compare_spec m k) as [->|H|H]; cbn; auto.
Qed.

Lemma one_finite : ∃ k e0, one = S754_finite false k e0.
Proof. vm_compute. eauto. Qed.

(** A number is below one, above it, or one. *)
Lemma beside_one r : f64_is_nan r = false → f64_lt r one = true ∨ f64_gt r one = true ∨ r = one.
Proof. destruct one_finite as (k & e0 & ->). apply beside_finite. Qed.

Lemma one_tolerated : tolerated one = true.
Proof. vm_compute. reflexivity. Qed.

Lemma refilled_up current u r n : f64_gt u one = true → f64_is_nan r = false → current ≤ refilled current u r n.
Proof.
  intros Hu Hn. unfold refilled. rewrite Hu. destruct (tolerated r) eqn:Et; [done|]. cbn [orb andb].
  destruct (_ && f64_gt r one); [done|]. destruct (f64_lt r one) eqn:El; [done|]. cbn [orb andb].
  destruct (beside_one r Hn) as [H|[H| -> ]]; [congruence| |by rewrite one_tolerated in Et]. rewrite H. cbn. case_match; lia.
Qed.

Lemma refilled_down current u r n : f64_lt u one = true → f64_is_nan r = false → refilled current u r n ≤ current.
Proof.
  intros Hu Hn. unfold refilled. rewrite Hu. destruct (tolerated r) eqn:Et; [done|]. cbn [orb andb].
  destruct (f64_gt r one) eqn:Eg; [done|]. cbn [orb andb]. destruct (_ && f64_lt r one); [done|].
  destruct (beside_one r Hn) as [H|[H| -> ]]; [|congruence|by rewrite one_tolerated in Et]. rewrite H. cbn. rewrite orb_false_r. case_match; lia.
Qed.

(** Some Pod has no measurement that counts. *)
Definition gaps (s : SortedPods) (usage_ratio : f64) : Prop :=
  s_missing s ≠ [] ∨ (s_unready s ≠ [] ∧ f64_gt usage_ratio one = true).

(** Pods without a measurement never move the count the way the measured
    ones do.  When the measured Pods are above the target, and some Pod was
    not measured or is not ready, the count is never lowered; when they are
    below it, and some Pod was not measured, the count is never raised. *)
Theorem hpa_gaps_hold_back order current resource target pods usage c :
  calculate order current resource target pods usage = Ok c →
  let s := sort_pods resource usage pods in
  let u := (ratio order target pods (s_metrics s)).1.1 in
  let filled := (ratio order target pods (fill target u (negb (match s_unready s with [] => true | _ => false end) && f64_gt u one) s)).1.1 in
  gaps s u → f64_is_nan filled = false →
  (f64_gt u one = true → current ≤ c_replicas c) ∧ (f64_lt u one = true → c_replicas c ≤ current).
Proof.
  unfold calculate. destruct pods as [|p pods]; [done|]. cbn zeta. set (ps := p :: pods). set (s := sort_pods resource usage ps).
  destruct (s_metrics s) as [|kv m] eqn:Em; [done|]. rewrite <-Em. destruct (match target with Utilization _ => _ | _ => _ end); [done|].
  destruct (ratio order target ps (s_metrics s)) as [[u util] avg] eqn:Er. cbn [fst].
  set (wu := negb (match s_unready s with [] => true | _ => false end) && f64_gt u one). destruct (negb wu && _) eqn:Eg; intros [= <-] Hgap Hn; cbn [c_replicas].
  - exfalso. apply andb_true_iff in Eg as [Ew Em']. destruct Hgap as [H|[H Hu]]; [by destruct (s_missing s)|].
    subst wu. rewrite Hu in Ew. by destruct (s_unready s).
  - split; intros Hu; [by apply refilled_up|by apply refilled_down].
Qed.

(** ** What a pass writes *)

Section Pass.
  Variables (debug : string → string) (json_text : Value → string) (show_err : ClientError → string) (status_text : Z → string).
  Variable order : nat → BTreeMap f64 → BTreeMap f64.

#[local] Notation evaluate := (Hpa.evaluate json_text order).
#[local] Notation reconcile_hpa := (Hpa.reconcile_hpa debug json_text show_err status_text order).

Lemma evaluate_unmeasured current pods e specs : ∀ i acc, t_desired (evaluate current pods (Err e) i acc specs) = t_desired acc.
Proof. induction specs as [|spec specs IH]; intros i acc; [done|]. cbn. rewrite IH. unfold evaluate_spec. by destruct (negb _). Qed.

Lemma start_events h h' now current period : events h = events h' → start h now current period = start h' now current period.
Proof. intros E. unfold start, changed_in. by rewrite E. Qed.

Lemma up_limit_events h h' now current up : events h = events h' → up_limit h now current up = up_limit h' now current up.
Proof.
  intros E. unfold up_limit. assert (up_proposal h now current <$> policies up = up_proposal h' now current <$> policies up) as ->; [|done].
  apply list_fmap_ext. intros _ [[pods v] period] _. unfold up_proposal. by rewrite (start_events h h').
Qed.

Lemma write_status_asks (P : Request → Prop) ns name hpa status :
  (∀ b, P (QPut (hpa_path ns name ++ "/status") b)) → emits (asks P) (write_status ns name hpa status).
Proof.
  intros H. unfold write_status. cbn zeta. destruct (value_eqb _ _); [apply emits_ret|]. destruct (set_index _ _ _); [|apply emits_ret].
  apply emits_bind; [by apply send_asks|intros x; apply emits_ret].
Qed.

(** The target is given the count [r]: it is one that can be scaled, with a
    count that is neither zero nor [r] already, and [r] is within the bounds
    when the count is. *)
Definition scales (all : gmap string History) (ns name : string) (hpa : Value) (feed : nat → result (list Value) string) (now : Z) (p : string) (b : Value) : Prop :=
  let target_ref := hpa.["spec"].["scaleTargetRef"] in
  let min := wrap32 (default 1 (as_u64 hpa.["spec"].["minReplicas"])) in
  let max := wrap32 (default 10 (as_u64 hpa.["spec"].["maxReplicas"])) in
  ∃ i resource target rest r,
    scalable (str_or "" target_ref.["kind"]) = Some (i, resource) ∧ feed i = Ok (target :: rest) ∧
    p = target_path ns resource (str_or "" target_ref.["name"]) ∧ scale_to target r = Some b ∧
    let current := wrap32 (default 1 (as_u64 target.["spec"].["replicas"])) in
    current ≠ 0 ∧ r ≠ current ∧
    (settled (default no_history (all !! (ns ++ "/" ++ name))) now current min max (rules hpa true) → min ≤ r ≤ max).

Lemma rescale_asks (P : Request → Prop) all ns name key hpa target path current desired now now_s status tally limited :
  (∀ b, P (QPut (hpa_path ns name ++ "/status") b)) →
  (desired ≠ current → ∀ b, scale_to target desired = Some b → P (QPut path b)) →
  emits (asks P) (rescale all ns name key hpa target path current desired now now_s status tally limited).
Proof.
  intros Hs Hp. unfold rescale. cbn zeta. destruct (Z.eqb_spec desired current) as [->|Hne]; cbn [negb].
  - apply emits_bind; [by apply write_status_asks|intros x; apply emits_ret].
  - destruct (scale_to target desired) as [b|] eqn:Eb; [|apply emits_ret]. apply emits_bind.
    + apply send_asks. by apply Hp.
    + intros [v|e]; [|apply emits_ret]. apply emits_bind; [by apply write_status_asks|intros x; apply emits_ret].
Qed.

Definition metrics_path (ns : string) : string := "/apis/metrics.k8s.io/v1beta1/namespaces/" ++ ns ++ "/pods".

(** a pass of the autoscaler writes its target only on a measurement, and
    only within the bounds.  Whatever the server answers, a pass reads the
    metrics, reports its own status, and may write one other object: the
    target it names, after the metrics were answered with success, with a new
    count that lies within [minReplicas..maxReplicas] if the old one does.
    Nothing else is asked for, and without metrics no count is changed. *)
Theorem hpa_pass_safe all ns hpa feed pods now now_s t x :
  exec (reconcile_hpa all ns hpa feed pods now now_s) t x →
  let name := str_or "" hpa.["metadata"].["name"] in
  ∀ q a, EAsk q a ∈ t →
    match q with
    | QGet p => p = metrics_path ns
    | QPut p b =>
        p = hpa_path ns name ++ "/status" ∨
        (scales all ns name hpa feed now p b ∧ ∃ s body, is_success s = true ∧ EAsk (QGet (metrics_path ns)) (AResponse s (Some body)) ∈ t)
    | _ => False
    end.
Proof.
  unfold Hpa.reconcile_hpa. intros (t0 & -> & E)%exec_tell_inv. cbn zeta in *.
  enough (Forall (asks (λ q, match q with
    | QGet p => p = metrics_path ns
    | QPut p b => p = hpa_path ns (str_or "" hpa.["metadata"].["name"]) ++ "/status" ∨
        (scales all ns (str_or "" hpa.["metadata"].["name"]) hpa feed now p b ∧
         ∃ s body, is_success s = true ∧ EAsk (QGet (metrics_path ns)) (AResponse s (Some body)) ∈ t0)
    | _ => False end)) t0) as H.
  { intros q a [Hin|Hin]%elem_of_cons; [done|]. rewrite Forall_forall in H. apply H in Hin. cbn in Hin. destruct q; try done.
    destruct Hin as [?|[? (s & answer & ? & ?)]]; [by left|right; split; [done|]]. exists s, answer. split; [done|by right]. }
  destruct (as_str hpa.["metadata"].["name"]) as [name|] eqn:En; [|apply exec_ret_inv in E as [-> _]; constructor].
  assert (str_or "" hpa.["metadata"].["name"] = name) as -> by (unfold str_or; by rewrite En).
  set (P := λ q, match q with QGet _ => _ | QPut _ _ => _ | _ => _ end).
  assert (∀ st, emits (asks P) (r <== write_status ns name hpa st ;; Ret (all, r))) as Hw.
  { intros st. apply emits_bind; [apply write_status_asks; by left|intros y; apply emits_ret]. }
  destruct (match scalable _ with None => _ | Some _ => _ end) as [target|e] eqn:Et; [|apply exec_ret_inv in E as [-> _]; constructor].
  destruct target as [[resource target]|]; [|by eapply Hw].
  destruct (scalable _) as [[i resource']|] eqn:Esc; [|done]. destruct (feed i) as [l|e] eqn:Ef; [|done]. cbn in Et.
  destruct l as [|target' rest]; [done|]. injection Et as -> ->. destruct (Z.eqb_spec (wrap32 (default 1 (as_u64 target.["spec"].["replicas"]))) 0) as [|Hz]; [by eapply Hw|].
  destruct pods as [ps|e]; [|apply exec_ret_inv in E as [-> _]; constructor].
  apply exec_bind in E as (t1 & t2 & metrics & E1 & E2 & ->). unfold pod_metrics in E1. apply exec_ask_inv in E1 as (a & t3 & -> & [-> Ha]%exec_ret_inv).
  apply Forall_app. split; [constructor; [done|constructor]|].
  destruct (t_desired _) as [raw|] eqn:Eraw; [|by eapply Hw].
  destruct (stabilize _ _ _ _ _ _) as [h stabilized] eqn:Estab. destruct (limit _ _ _ _ _ _ _ _) as [r limited] eqn:Elim.
  eapply rescale_asks in E2; [exact E2|by left|]. intros Hne b Hb. right. split.
  - exists i, resource, target, rest, r. cbn zeta. split_and!; [done..|]. intros Hset.
    assert (settled h now (wrap32 (default 1 (as_u64 target.["spec"].["replicas"]))) (wrap32 (default 1 (as_u64 hpa.["spec"].["minReplicas"])))
      (wrap32 (default 10 (as_u64 hpa.["spec"].["maxReplicas"]))) (rules hpa true)) as Hset'.
    { destruct Hset as [? ? Hu]. split; [done..|]. rewrite <-Hu. apply Z.eq_le_incl, up_limit_events. by injection Estab as <- _. }
    pose proof (limit_moves _ _ stabilized _ _ _ _ (rules hpa false) Hset') as H. rewrite Elim in H. tauto.
  - subst metrics. destruct a as [|s body]; [by rewrite evaluate_unmeasured in Eraw|].
    destruct (is_success s) eqn:Es; cbn [negb] in Eraw; [|by rewrite evaluate_unmeasured in Eraw].
    destruct body as [v|]; [|by rewrite evaluate_unmeasured in Eraw]. exists s, v. split; [done|by left].
Qed.
End Pass.

(** ** Statuses that say nothing new *)

Section MapValues.
Context {A : Type} (g : string → A → A).

Definition map_values (m : BTreeMap A) : BTreeMap A := (λ kv, (kv.1, g kv.1 kv.2)) <$> m.

Lemma map_get_values m k : map_get (map_values m) k = g k <$> map_get m k.
Proof. induction m as [|[k' v] m IH]; [done|]. cbn. destruct (str_eqb k k') eqn:E; [by apply str_eqb_eq in E as ->|done]. Qed.

Lemma keys_sorted_values m : keys_sorted (map_values m) = keys_sorted m.
Proof. induction m as [|[k v] m IH]; [done|]. cbn in *. destruct m as [|[k' v'] m]; [done|]. cbn in *. by rewrite IH. Qed.
End MapValues.

Lemma map_insert_same {A} (m : BTreeMap A) k v : keys_sorted m = true → map_get m k = Some v → map_insert m k v = m.
Proof.
  intros Hs Hg. apply map_ext; [by apply keys_sorted_insert|done|]. intros k'. destruct (str_eqb k' k) eqn:E.
  - apply str_eqb_eq in E as ->. by rewrite map_get_insert_eq.
  - apply map_get_insert_ne. intros ->. by rewrite (proj2 (str_eqb_eq k k) eq_refl) in E.
Qed.

Lemma map_remove_insert {A} (m : BTreeMap A) k v : keys_sorted m = true → map_remove (map_insert m k v) k = map_remove m k.
Proof.
  intros Hs. apply map_ext; [by apply keys_sorted_remove, keys_sorted_insert|by apply keys_sorted_remove|]. intros k'. destruct (str_eqb k' k) eqn:E.
  - apply str_eqb_eq in E as ->. by rewrite !map_get_remove_eq by (done || by apply keys_sorted_insert).
  - assert (k' ≠ k) by (intros ->; by rewrite (proj2 (str_eqb_eq k k) eq_refl) in E). by rewrite !map_get_remove_ne, map_get_insert_ne.
Qed.

(** The value under a key, its times preserved. *)
Definition kept_value (old : Map) (k : string) (v : Value) : Value :=
  match map_get old k with Some o => preserve_transition_times o v | None => v end.

Lemma preserve_object old new :
  preserve_transition_times (Object old) (Object new) = Object (map_values (kept_value old) (keep_time old new)).
Proof.
  cbn. f_equal. apply list_fmap_ext. intros _ [k v] _. cbn. f_equal. unfold kept_value.
  induction old as [|[k' o] old IH]; [done|]. cbn. rewrite (String.eqb_sym k' k : str_eqb k' k = str_eqb k k'). by destruct (str_eqb k k').
Qed.

Lemma keep_time_same old new : keys_sorted new = true → map_get old TRANSITION = map_get new TRANSITION → keep_time old new = new.
Proof. intros Hs E. unfold keep_time. rewrite E. destruct (value_eqb _ _); [|done]. destruct (map_get new TRANSITION) eqn:Et; [by apply map_insert_same|done]. Qed.

Lemma preserve_same v : wf_value v = true → preserve_transition_times v v = v.
Proof.
  induction v as [|b|n|s|l IH|m IH] using Value_ind'; intros Hwf; try done.
  - cbn. f_equal. cbn in Hwf. induction IH as [|v l Hv _ IHl]; [done|]. cbn in Hwf. apply andb_true_iff in Hwf as [H1 H2]. f_equal; auto.
  - rewrite preserve_object. cbn in Hwf. apply andb_true_iff in Hwf as [Hs Hf]. rewrite keep_time_same by done. f_equal.
    apply map_ext; [by rewrite keys_sorted_values|done|]. intros k. rewrite map_get_values. destruct (map_get m k) as [v|] eqn:E; [|done]. cbn.
    unfold kept_value. rewrite E. f_equal. apply map_get_In in E. rewrite Forall_forall in IH. rewrite forallb_forall in Hf.
    apply list_elem_of_In in E as Hin. apply (IH _ Hin). by apply (Hf _ E).
Qed.

(** Two conditions that differ only in their time. *)
Definition same_but_time (c c' : Value) : Prop :=
  ∃ m t t', wf_value (Object m) = true ∧ wf_value t = true ∧ c = Object (map_insert m TRANSITION t) ∧ c' = Object (map_insert m TRANSITION t').

Lemma preserve_condition c c' : same_but_time c c' → preserve_transition_times c c' = c.
Proof.
  intros (m & t & t' & Hm & Ht & -> & ->). assert (keys_sorted m = true) as Hs by (cbn in Hm; by apply andb_true_iff in Hm as [? _]).
  pose proof (wf_object_insert _ TRANSITION _ Hm Ht) as Hwf. rewrite preserve_object.
  assert (keep_time (map_insert m TRANSITION t) (map_insert m TRANSITION t') = map_insert m TRANSITION t) as ->.
  { unfold keep_time. rewrite !map_remove_insert, map_get_insert_eq, map_insert_twice by done.
    by rewrite (value_eqb_refl (Object (map_remove m TRANSITION))) by (by apply wf_object_remove). }
  pose proof (preserve_same _ Hwf) as E. rewrite preserve_object, keep_time_same in E; [exact E|by apply keys_sorted_insert|done].
Qed.

Lemma preserve_conditions l l' : Forall2 same_but_time l l' → preserve_transition_times (Array l) (Array l') = Array l.
Proof. intros H. cbn. f_equal. induction H as [|c c' l l' Hc _ IH]; [done|]. f_equal; [by apply preserve_condition|done]. Qed.

(** a status that says nothing new is not written.  When the status a pass
    computes differs from the one the object has only in when its conditions
    were last seen to change, no request is sent at all, so the controller's
    own report never wakes it. *)
Theorem hpa_echo_quiet ns name hpa st cs cs' :
  wf_value hpa = true → wf_value (Object st) = true →
  hpa.["status"] = Object (map_insert st "conditions" (Array cs)) → Forall2 same_but_time cs cs' →
  write_status ns name hpa (map_insert st "conditions" (Array cs')) = Ret (Ok tt).
Proof.
  intros Hwf Hst Hs Hcs. unfold write_status. cbn zeta. rewrite Hs. assert (keys_sorted st = true) as Hk by (cbn in Hst; by apply andb_true_iff in Hst as [? _]).
  assert (preserve_transition_times (Object (map_insert st "conditions" (Array cs))) (Object (map_insert st "conditions" (Array cs'))) =
    Object (map_insert st "conditions" (Array cs))) as ->.
  2: { rewrite <-Hs, value_eqb_refl; [done|]. by apply wf_index. }
  rewrite preserve_object, keep_time_same; [|by apply keys_sorted_insert|by rewrite !map_get_insert_ne]. f_equal.
  apply map_ext; [rewrite keys_sorted_values; by apply keys_sorted_insert|by apply keys_sorted_insert|]. intros k. rewrite map_get_values.
  unfold kept_value. destruct (decide (k = "conditions")) as [->|Hne].
  - rewrite !map_get_insert_eq. cbn [fmap option_fmap option_map]. f_equal. by apply preserve_conditions.
  - rewrite !map_get_insert_ne by done. destruct (map_get st k) as [v|] eqn:E; [|done]. cbn. f_equal. apply preserve_same. by eapply wf_map_get.
Qed.

(** *** Witnesses *)

Module HpaDemo.
Definition pod (n : string) (cores : Z) : PodState := mkPod n false true (Some (f64_of_Z cores)).
Definition same (m : BTreeMap f64) : BTreeMap f64 := m.
Definition half : f64 := literal "0.5".
Definition tenth : f64 := literal "0.1".
Definition up : Rules := rules Null true.
Definition down : Rules := rules Null false.

(** Two Pods measured exactly at the target and two not measured: the count is
    halved, since a missing measurement is taken for 0 unless the measured
    ones are below the target. *)
Example on_target_with_gaps_halves :
  c_replicas <$> (match calculate same 4 "cpu" (Utilization (f64_of_Z 50)) [pod "a" 1; pod "b" 1; pod "c" 1; pod "d" 1] [("a", half); ("b", half)] with
                  | Ok c => Some c | Err _ => None end) = Some 2.
Proof. vm_compute. reflexivity. Qed.

(** A count outside its bounds is not brought back into them as long as the
    recommendation moves it: 15 of at most 10, 2 of at least 5. *)
Example outside_bounds_stays_outside :
  limit no_history 0 15 20 1 10 up down = (15, None) ∧ limit no_history 0 2 1 5 10 up down = (2, None).
Proof. split; vm_compute; reflexivity. Qed.

(** A policy of [2^32 - 5] Pods takes a count of 5 down to nothing. *)
Example scale_up_to_zero :
  limit no_history 0 8 5 1 10 (mkRules 0 SMax [(true, 4294967291, 15)]) down = (0, Some UpLimit).
Proof. vm_compute. reflexivity. Qed.

Definition hpa (conditions : list Value) : Value :=
  json_obj [("metadata", json_obj [("name", Str "web")]);
            ("spec", json_obj [("scaleTargetRef", json_obj [("kind", Str "Deployment"); ("name", Str "web")]); ("maxReplicas", num_i64 5)]);
            ("status", json_obj [("currentReplicas", num_i64 1); ("conditions", Array conditions)])].
Definition target : Value :=
  json_obj [("metadata", json_obj [("name", Str "web")]);
            ("spec", json_obj [("replicas", num_i64 2); ("selector", json_obj [("matchLabels", json_obj [("app", Str "web")])])])].
Definition web_pod (n : string) : Value :=
  json_obj [("metadata", json_obj [("name", Str n); ("labels", json_obj [("app", Str "web")])]);
            ("spec", json_obj [("containers", Array [json_obj [("resources", json_obj [("requests", json_obj [("cpu", Str "1")])])]])]);
            ("status", json_obj [("phase", Str "Running"); ("conditions", Array [json_obj [("type", Str "Ready"); ("status", Str "True")]])])].
Definition usage (n : string) : Value :=
  json_obj [("metadata", json_obj [("name", Str n)]); ("containers", Array [json_obj [("usage", json_obj [("cpu", Str "1600m")])]])].
Definition metrics : Value := json_obj [("items", Array [usage "a"; usage "b"])].

Definition pass :=
  reconcile_hpa (λ s, s) (λ _, "") (λ _, "") (λ _, "") (λ _, same) ∅ "d" (hpa []) (λ _, Ok [target]) (Ok [web_pod "a"; web_pod "b"]) 0 "t".
Definition answers : list Answer := [AResponse 200 (Some metrics); AResponse 200 (Some Null); AResponse 200 (Some Null)].
Definition trace : list Event := Eval vm_compute in default [] (fst <$> play answers pass).

Lemma hpa_pass_exec : ∃ x, exec pass trace x.
Proof. eexists. apply (play_exec answers). vm_compute. reflexivity. Qed.

(** At 160 % of the request against 80 %, two replicas become four. *)
Definition written : list (string * Value) :=
  omap (λ e, match e with EAsk (QPut p b) _ => Some (p, b.["spec"].["replicas"]) | _ => None end) trace.
Example hpa_doubles : head written = Some ("/apis/apps/v1/namespaces/d/deployments/web", num_i64 4).
Proof. vm_compute. reflexivity. Qed.

Definition cond (time : string) : Value := condition "AbleToScale" true "ReadyForNewScale" "recommended size matches current size" time.
End HpaDemo.

Lemma hpa_limit_in_range_witness :
  settled no_history 0 2 1 100 HpaDemo.up ∧ let '(r, limited) := limit no_history 0 50 2 1 100 HpaDemo.up HpaDemo.down in 1 ≤ r ≤ 100 ∧ r ≠ 50.
Proof.
  assert (settled no_history 0 2 1 100 HpaDemo.up) as H by (split; [lia|unfold u32_max; lia|vm_compute; discriminate]). split; [exact H|].
  pose proof (hpa_limit_in_range no_history 0 50 2 1 100 HpaDemo.up HpaDemo.down H) as R.
  destruct (limit no_history 0 50 2 1 100 HpaDemo.up HpaDemo.down) as [r l] eqn:E. destruct R as (R & _ & _ & _ & Hn). split; [exact R|].
  intros Hr. apply Hn in Hr. rewrite Hr in E. vm_compute in E. discriminate.
Defined.

Lemma hpa_stabilize_whole_witness :
  let past := [(0, 10, 4); (400 * SECOND, 2, 10)] in
  (stabilize (stabilize_run no_history past HpaDemo.up HpaDemo.down) (500 * SECOND) 3 6 HpaDemo.up HpaDemo.down).2 = 3 ∧
  stabilize_whole (fst <$> past) (500 * SECOND) 3 6 HpaDemo.up HpaDemo.down = 3.
Proof.
  cbn zeta. rewrite <-(hpa_stabilize_whole [(0, 10, 4); (400 * SECOND, 2, 10)] (500 * SECOND) 3 6 HpaDemo.up HpaDemo.down).
  - split; vm_compute; reflexivity.
  - repeat constructor; vm_compute; discriminate.
  - repeat constructor; vm_compute; discriminate.
Defined.

Lemma hpa_gaps_hold_back_witness :
  ∃ c, calculate HpaDemo.same 4 "cpu" (Utilization (f64_of_Z 50)) [HpaDemo.pod "a" 1; HpaDemo.pod "b" 1; HpaDemo.pod "c" 1] [("a", HpaDemo.tenth)] = Ok c ∧ c_replicas c ≤ 4.
Proof.
  eexists. split; [vm_compute; reflexivity|].
  eapply (hpa_gaps_hold_back HpaDemo.same 4 "cpu" (Utilization (f64_of_Z 50)) [HpaDemo.pod "a" 1; HpaDemo.pod "b" 1; HpaDemo.pod "c" 1] [("a", HpaDemo.tenth)]).
  - vm_compute. reflexivity.
  - left. vm_compute. discriminate.
  - vm_compute. reflexivity.
  - vm_compute. reflexivity.
Defined.

Lemma hpa_pass_safe_witness :
  ∃ s body, is_success s = true ∧ EAsk (QGet (metrics_path "d")) (AResponse s (Some body)) ∈ HpaDemo.trace.
Proof.
  destruct HpaDemo.hpa_pass_exec as [x E]. unfold HpaDemo.pass in E.
  pose proof (hpa_pass_safe (λ s, s) (λ _, "") (λ _, "") (λ _, "") (λ _, HpaDemo.same) _ _ _ _ _ _ _ _ _ E) as H.
  eassert (EAsk (QPut _ _) _ ∈ HpaDemo.trace) as Hin by (apply list_elem_of_further, list_elem_of_further, list_elem_of_here).
  apply H in Hin as [H'|[_ H']]; [vm_compute in H'; discriminate|exact H'].
Defined.

Lemma hpa_echo_quiet_witness :
  write_status "d" "web" (HpaDemo.hpa [HpaDemo.cond "then"])
    (map_insert [("currentReplicas", num_i64 1)] "conditions" (Array [HpaDemo.cond "now"])) = Ret (Ok tt).
Proof.
  apply (hpa_echo_quiet "d" "web" (HpaDemo.hpa [HpaDemo.cond "then"]) [("currentReplicas", num_i64 1)] [HpaDemo.cond "then"]).
  - vm_compute. reflexivity.
  - vm_compute. reflexivity.
  - vm_compute. reflexivity.
  - constructor; [|constructor]. exists (entries (HpaDemo.cond "")), (Str "then"), (Str "now"). split_and!; vm_compute; reflexivity.
Defined.
