(* ===== verification/HpaV1.v ===== *)
(** * The autoscaler's older version ([pkg/apiserver/src/handlers/hpa_v1.rs])

    An [autoscaling/v1] HorizontalPodAutoscaler is a view of the stored
    [autoscaling/v2] object: one percentage stands for the CPU metric, and
    what v1 has no field for rides in annotations, as JSON text ([to_v1],
    [to_v2]).  A read answers the view, a write is converted back and stored.
    [None] is a panic: an object, or its metadata, that is no object.

    The text of a value and its reading are the [JsonCodec] of [Codec].

    Proved: an object read as v1 and written back is stored as it was, up to
    the place of the CPU metric in the list, when its CPU metrics say no more
    than v1 can; the examples show what is lost when they do. *)

From Stdlib Require Import ZArith Lia String Ascii.
From stdpp Require Import base gmap strings numbers option list.
From S2P Require Import Prelude Text BTree Json Codec.
Open Scope string_scope.
Open Scope kube_scope.
Open Scope Z_scope.

Module HpaV1.
Definition ANN_METRICS : string := "autoscaling.alpha.kubernetes.io/metrics".
Definition ANN_BEHAVIOR : string := "autoscaling.alpha.kubernetes.io/behavior".
Definition ANN_CURRENT : string := "autoscaling.alpha.kubernetes.io/current-metrics".
Definition ANN_CONDITIONS : string := "autoscaling.alpha.kubernetes.io/conditions".

Definition is_cpu_utilization (m : Value) : bool :=
  str_is m.["type"] "Resource" && str_is m.["resource"].["name"] "cpu" && str_is m.["resource"].["target"].["type"] "Utilization".

Definition is_cpu_current (m : Value) : bool :=
  str_is m.["type"] "Resource" && str_is m.["resource"].["name"] "cpu" && negb (is_null m.["resource"].["current"].["averageUtilization"]).

(** The first that is [cpu], and the others in order. *)
Fixpoint split_first (cpu : Value → bool) (l : list Value) : option Value * list Value :=
  match l with
  | [] => (None, [])
  | m :: l => if cpu m then (Some m, l) else let '(found, rest) := split_first cpu l in (found, m :: rest)
  end.

(** [for k in keys { if !v[k].is_null() { s.insert(k, v[k].clone()) } }]. *)
Definition copy_fields (keys : list string) (v : Value) : Map :=
  fold_left (λ s k, if is_null v.[k] then s else map_insert s k v.[k]) keys [].

Definition SPEC_KEYS : list string := ["scaleTargetRef"; "minReplicas"; "maxReplicas"].
Definition STATUS_KEYS : list string := ["observedGeneration"; "lastScaleTime"; "currentReplicas"; "desiredReplicas"].

Section Convert.
  Context `{JsonCodec}.

Definition text_of (v : Value) : string := match to_vec v with Ok s => s | Err _ => "" end.

Definition set_ann (obj : Value) (key : string) (v : Value) : option Value :=
  o ← (if is_object obj.["metadata"].["annotations"] then Some obj else set_index2 obj "metadata" "annotations" (json_obj []));
  a ← set_index o.["metadata"].["annotations"] key (Str (text_of v));
  set_index2 o "metadata" "annotations" a.

Definition take_ann (obj : Value) (key : string) : Value * option Value :=
  match obj with
  | Object o =>
      match map_get o "metadata" with
      | Some (Object meta) =>
          match map_get meta "annotations" with
          | Some (Object anns) =>
              match map_get anns key with
              | Some raw =>
                  let anns := map_remove anns key in
                  let meta := match anns with [] => map_remove meta "annotations" | _ => map_insert meta "annotations" (Object anns) end in
                  (Object (map_insert o "metadata" (Object meta)),
                   as_str raw ≫= λ s, match from_slice s with Ok v => Some v | Err _ => None end)
              | None => (obj, None)
              end
          | _ => (obj, None)
          end
      | _ => (obj, None)
      end
  | _ => (obj, None)
  end.

(** [if c { set_ann(..) }]. *)
Definition set_ann_if (c : bool) (obj : Value) (key : string) (v : Value) : option Value := if c then set_ann obj key v else Some obj.

Definition nonempty {A} (l : list A) : bool := match l with [] => false | _ => true end.

Definition stamp (o : Value) (version : string) : option Value :=
  o ← set_index o "apiVersion" (Str version); set_index o "kind" (Str "HorizontalPodAutoscaler").

Definition insert_opt (m : Map) (k : string) (v : option Value) : Map := match v with Some x => map_insert m k x | None => m end.

Definition status_to_v1 (o st : Value) : option Value :=
  if negb (is_object st) then Some o
  else
    let '(cpu, rest) := split_first is_cpu_current (items st.["currentMetrics"]) in
    let n := insert_opt (copy_fields STATUS_KEYS st) "currentCPUUtilizationPercentage" ((λ m, m.["resource"].["current"].["averageUtilization"]) <$> cpu) in
    o ← set_ann_if (nonempty rest) o ANN_CURRENT (Array rest);
    o ← set_ann_if (nonempty (items st.["conditions"])) o ANN_CONDITIONS st.["conditions"];
    set_index o "status" (Object n).

Definition to_v1 (v2 : Value) : option Value :=
  o ← stamp v2 "autoscaling/v1";
  let spec := v2.["spec"] in
  let '(cpu, rest) := split_first is_cpu_utilization (items spec.["metrics"]) in
  let s := insert_opt (copy_fields SPEC_KEYS spec) "targetCPUUtilizationPercentage" ((λ m, m.["resource"].["target"].["averageUtilization"]) <$> cpu) in
  o ← set_ann_if (nonempty rest) o ANN_METRICS (Array rest);
  o ← set_ann_if (negb (is_null spec.["behavior"])) o ANN_BEHAVIOR spec.["behavior"];
  o ← set_index o "spec" (Object s);
  status_to_v1 o v2.["status"].

Definition cpu_metric (t : Z) : Value :=
  json_obj [("type", Str "Resource");
            ("resource", json_obj [("name", Str "cpu"); ("target", json_obj [("type", Str "Utilization"); ("averageUtilization", num_i64 t)])])].
Definition cpu_current (u : Z) : Value :=
  json_obj [("type", Str "Resource"); ("resource", json_obj [("name", Str "cpu"); ("current", json_obj [("averageUtilization", num_i64 u)])])].

(** The CPU metric, if a percentage is given, then the others. *)
Definition joined (make : Z → Value) (percent : Value) (extra : option Value) : list Value :=
  (match as_i64 percent with Some t => [make t] | None => [] end ++ match extra with Some v => items v | None => [] end)%list.

Definition insert_list (m : Map) (k : string) (l : list Value) : Map := match l with [] => m | _ => map_insert m k (Array l) end.

Definition to_v2 (v1 : Value) : option Value :=
  o ← stamp v1 "autoscaling/v2";
  let '(o, extra) := take_ann o ANN_METRICS in
  let '(o, behavior) := take_ann o ANN_BEHAVIOR in
  let '(o, current) := take_ann o ANN_CURRENT in
  let '(o, conditions) := take_ann o ANN_CONDITIONS in
  let spec := v1.["spec"] in
  let s := insert_list (copy_fields SPEC_KEYS spec) "metrics" (joined cpu_metric spec.["targetCPUUtilizationPercentage"] extra) in
  o ← set_index o "spec" (Object (insert_opt s "behavior" behavior));
  let st := v1.["status"] in
  if negb (is_object st) then Some o
  else
    let n := insert_list (copy_fields STATUS_KEYS st) "currentMetrics" (joined cpu_current st.["currentCPUUtilizationPercentage"] current) in
    set_index o "status" (Object (insert_opt n "conditions" conditions)).

Fixpoint convert_all (l : list Value) : option (list Value) :=
  match l with [] => Some [] | x :: l => y ← to_v1 x; r ← convert_all l; Some (y :: r) end.

Definition convert_value (v : Value) : option Value :=
  match as_str v.["kind"] with
  | Some kind =>
      if str_eqb kind "HorizontalPodAutoscaler" then to_v1 v
      else if str_eqb kind "HorizontalPodAutoscalerList" then
        l ← set_index v "apiVersion" (Str "autoscaling/v1");
        match l.["items"] with
        | Array items => items ← convert_all items; set_index l "items" (Array items)
        | _ => touch l "items"
        end
      else Some v
  | None => Some v
  end.
End Convert.
End HpaV1.
Import HpaV1.

(** ** Annotations *)

Definition ann (o : Value) (k : string) : Value := o.["metadata"].["annotations"].[k].

(** The same object but for one annotation, which became [v]. *)
Definition annotated (o o' : Value) (k : string) (v : Value) : Prop :=
  ann o' k = v ∧ (∀ k', k' ≠ k → ann o' k' = ann o k') ∧ (∀ x, x ≠ "annotations" → o'.["metadata"].[x] = o.["metadata"].[x]) ∧
  (∀ x, x ≠ "metadata" → o'.[x] = o.[x]) ∧ wf_value o' = true ∧ is_object o' = true ∧ is_object o'.["metadata"] = true.

(** What both directions start from. *)
Definition annotatable (o : Value) : Prop := wf_value o = true ∧ is_object o = true ∧ is_object o.["metadata"] = true.

Section Roundtrip.
  Context `{JsonCodec}.

Lemma index_not_object v k : is_object v = false → v.[k] = Null.
Proof. by destruct v. Qed.

Lemma wf_set_index2 v k1 k2 x w : wf_value v = true → wf_value x = true → set_index2 v k1 k2 x = Some w → wf_value w = true.
Proof.
  unfold set_index2. intros Hv Hx. destruct (set_index v.[k1] k2 x) as [i|] eqn:E; [|done]. intros Hw.
  exact (wf_set_index _ _ _ _ Hv (wf_set_index _ _ _ _ (wf_index _ _ Hv) Hx E) Hw).
Qed.

Lemma set_ann_spec o k v : annotatable o → ∃ o', set_ann o k v = Some o' ∧ annotated o o' k (Str (text_of v)).
Proof.
  intros (Hwf & Ho & Hm). unfold set_ann.
  assert (∃ o1, (if is_object o.["metadata"].["annotations"] then Some o else set_index2 o "metadata" "annotations" (json_obj [])) = Some o1 ∧
    (∀ k', ann o1 k' = ann o k') ∧ (∀ x, x ≠ "annotations" → o1.["metadata"].[x] = o.["metadata"].[x]) ∧ (∀ x, x ≠ "metadata" → o1.[x] = o.[x]) ∧
    annotatable o1 ∧ is_object o1.["metadata"].["annotations"] = true) as (o1 & -> & Ha & Hx & Ht & (Hwf1 & Ho1 & Hm1) & Hann).
  { destruct (is_object o.["metadata"].["annotations"]) eqn:E; [by exists o|].
    destruct (set_index2_object o "metadata" "annotations" (json_obj []) Ho Hm) as (w & Ew & Ho' & Hm'). exists w. split_and!; [done|..].
    - intros k'. unfold ann. rewrite (index2_set_index2 _ _ _ _ _ Ew). by rewrite (index_not_object _ k' E).
    - intros x Hx. by apply (index2_set_index2_ne _ _ _ _ _ _ Ew).
    - by apply (set_index2_inner _ _ _ _ _ Ew).
    - split_and!; [|done..]. refine (wf_set_index2 _ _ _ _ _ Hwf _ Ew). done.
    - by rewrite (index2_set_index2 _ _ _ _ _ Ew). }
  cbn [mbind option_bind]. destruct (o1.["metadata"].["annotations"]) as [| | | | |anns] eqn:Eanns; try done. cbn [set_index mbind option_bind].
  destruct (set_index2_object o1 "metadata" "annotations" (Object (map_insert anns k (Str (text_of v)))) Ho1 Hm1) as (w & Ew & Ho' & Hm'). exists w. split; [done|].
  pose proof (index2_set_index2 _ _ _ _ _ Ew) as Hset. split_and!; [| | | | |done..].
  - unfold ann. rewrite Hset. unfold index. cbn [Json.get]. by rewrite map_get_insert_eq.
  - intros k' Hne. rewrite <-Ha. unfold ann. rewrite Hset, Eanns. unfold index. cbn [Json.get]. by rewrite map_get_insert_ne.
  - intros x Hne. rewrite <-Hx by done. by apply (index2_set_index2_ne _ _ _ _ _ _ Ew).
  - intros x Hne. rewrite <-Ht by done. by apply (set_index2_inner _ _ _ _ _ Ew).
  - refine (wf_set_index2 _ _ _ _ _ Hwf1 _ Ew). apply wf_object_insert; [|done]. rewrite <-Eanns. by repeat apply wf_index.
Qed.

(** What a reserved annotation says. *)
Definition said (v : Value) : option Value := as_str v ≫= λ s, match from_slice s with Ok v => Some v | Err _ => None end.

Lemma take_ann_spec o k o' r : annotatable o → take_ann o k = (o', r) → annotated o o' k Null ∧ r = said (ann o k).
Proof.
  intros (Hwf & Ho & Hm) E. unfold take_ann in E.
  assert (ann o k = Null → (o', r) = (o, None) → annotated o o' k Null ∧ r = said (ann o k)) as Hsame.
  { intros Hn [= -> ->]. rewrite Hn. split; [|done]. split_and!; done. }
  destruct o as [| | | | |m]; try done. destruct (map_get m "metadata") as [[| | | | |meta]|] eqn:Em; try (unfold index in Hm; cbn in Hm; by rewrite Em in Hm).
  assert ((Object m).["metadata"] = Object meta) as Emeta by (unfold index; cbn [Json.get]; by rewrite Em).
  assert (ann (Object m) = index (Object meta).["annotations"]) as Hann by (unfold ann; by rewrite Emeta). cbn [Json.get] in Hann.
  destruct (map_get meta "annotations") as [[| | | | |anns]|] eqn:Ea;
    try (apply Hsame; [rewrite Hann; unfold index; cbn [Json.get]; by rewrite Ea|by rewrite E]).
  assert (index (Object meta) "annotations" = Object anns) as Eanns by (unfold index; cbn [Json.get]; by rewrite Ea). rewrite Eanns in Hann.
  destruct (map_get anns k) as [raw|] eqn:Er; [|apply Hsame; [rewrite Hann; unfold index; cbn [Json.get]; by rewrite Er|by rewrite E]].
  assert (ann (Object m) k = raw) as Hk by (rewrite Hann; unfold index; cbn [Json.get]; by rewrite Er). clear Hsame.
  set (meta' := match map_remove anns k with [] => map_remove meta "annotations" | _ => map_insert meta "annotations" (Object (map_remove anns k)) end) in E.
  injection E as <- <-. rewrite Hk. split; [|done].
  assert (wf_value (Object meta) = true) as Hwm by (rewrite <-Emeta; by apply wf_index).
  assert (wf_value (Object anns) = true) as Hwa by (rewrite <-Eanns; by apply wf_index).
  assert (keys_sorted anns = true ∧ keys_sorted meta = true) as [Hsa Hsm] by (cbn in Hwa, Hwm; apply andb_true_iff in Hwa, Hwm; tauto).
  assert ((Object (map_insert m "metadata" (Object meta'))).["metadata"] = Object meta') as Emeta' by (unfold index; cbn [Json.get]; by rewrite map_get_insert_eq).
  assert (∀ k', (Object meta').["annotations"].[k'] = (Object (map_remove anns k)).[k']) as Hget.
  { intros k'. unfold meta'. destruct (map_remove anns k) as [|p l] eqn:El.
    - unfold index at 2. cbn [Json.get]. by rewrite map_get_remove_eq.
    - unfold index at 2. cbn [Json.get]. by rewrite map_get_insert_eq. }
  unfold annotated, ann. rewrite Emeta', Emeta. split_and!; [| | | | |done|done].
  - rewrite Hget. unfold index. cbn [Json.get]. by rewrite map_get_remove_eq.
  - intros k' Hne. rewrite Hget, Eanns. unfold index. cbn [Json.get]. by rewrite map_get_remove_ne.
  - intros x Hne. unfold meta', index. cbn [Json.get]. destruct (map_remove anns k); [by rewrite map_get_remove_ne|by rewrite map_get_insert_ne].
  - intros x Hne. unfold index. cbn [Json.get]. by rewrite map_get_insert_ne.
  - apply wf_object_insert; [done|]. unfold meta'. destruct (map_remove anns k) eqn:El; [by apply wf_object_remove|].
    apply wf_object_insert; [done|]. rewrite <-El. by apply wf_object_remove.
Qed.

(** ** The pieces *)

Lemma index_insert m k x k' : (Object (map_insert m k x)).[k'] = if bool_decide (k' = k) then x else (Object m).[k'].
Proof. unfold index. cbn [Json.get]. case_bool_decide as E; [subst; by rewrite map_get_insert_eq|by rewrite map_get_insert_ne]. Qed.

Lemma copy_fields_go keys v k : ∀ s,
  (Object (fold_left (λ s k, if is_null v.[k] then s else map_insert s k v.[k]) keys s)).[k] =
  if bool_decide (k ∈ keys) && negb (is_null v.[k]) then v.[k] else (Object s).[k].
Proof.
  induction keys as [|k0 keys IH]; intros s; [by rewrite bool_decide_false by apply not_elem_of_nil|]. cbn [fold_left]. rewrite IH.
  destruct (bool_decide_reflect (k ∈ keys)) as [Hk|Hk].
  - rewrite (bool_decide_true (k ∈ k0 :: keys)) by (by right). destruct (is_null v.[k]) eqn:En; cbn [andb negb]; [|done].
    destruct (is_null v.[k0]) eqn:E0; [done|]. rewrite index_insert. case_bool_decide; [subst; congruence|done].
  - cbn [andb]. destruct (decide (k = k0)) as [->|Hne].
    + rewrite bool_decide_true by left. destruct (is_null v.[k0]) eqn:E; cbn [andb negb]; [done|]. by rewrite index_insert, bool_decide_true.
    + rewrite bool_decide_false by (rewrite elem_of_cons; naive_solver). cbn [andb]. destruct (is_null v.[k0]); [done|]. by rewrite index_insert, bool_decide_false.
Qed.

Lemma copy_fields_get keys v k : (Object (copy_fields keys v)).[k] = if bool_decide (k ∈ keys) then v.[k] else Null.
Proof. unfold copy_fields. rewrite copy_fields_go. destruct (bool_decide _); [|done]. by destruct (v.[k]). Qed.

Lemma index_insert_opt m k x k' : (Object (insert_opt m k x)).[k'] = if bool_decide (k' = k) then default (Object m).[k'] x else (Object m).[k'].
Proof.
  destruct x as [x|]; cbn [insert_opt default from_option id]; [apply index_insert|by case_bool_decide].
Qed.

Lemma index_insert_list m k l k' : (Object (insert_list m k l)).[k'] = if bool_decide (k' = k) then (match l with [] => (Object m).[k'] | _ => Array l end) else (Object m).[k'].
Proof.
  destruct l as [|x l]; cbn [insert_list]; [by case_bool_decide|]. apply index_insert.
Qed.

Lemma split_first_spec cpu l f rest : split_first cpu l = (f, rest) →
  l ≡ₚ match f with Some m => m :: rest | None => rest end ∧ match f with Some m => m ∈ l ∧ cpu m = true | None => True end.
Proof.
  revert f rest. induction l as [|m l IH]; intros f rest; cbn [split_first]; [by intros [= <- <-]|]. destruct (cpu m) eqn:E.
  - intros [= <- <-]. split_and!; [done|left|done].
  - destruct (split_first cpu l) as [f' rest']. intros [= <- <-]. destruct (IH _ _ eq_refl) as [Hp Hf]. destruct f' as [m'|].
    + destruct Hf as [Hin Hc]. split_and!; [rewrite Hp; apply Permutation_swap|by right|done].
    + by rewrite Hp.
Qed.

Lemma as_i64_num_i64 t : i64_min ≤ t ≤ i64_max → as_i64 (num_i64 t) = Some t.
Proof. intros Ht. unfold num_i64, as_i64. destruct (t <? 0) eqn:E; [done|]. destruct (t <=? i64_max) eqn:E'; [done|]. lia. Qed.

Lemma said_text v : wf_value v = true → no_floats v = true → said (Str (text_of v)) = Some v.
Proof. intros Hw Hf. unfold said, text_of. cbn [as_str mbind option_bind]. destruct (codec_roundtrip v Hw Hf) as (b & -> & ->). done. Qed.

Lemma set_ann_if_spec c o k v : annotatable o → ann o k = Null →
  ∃ o', set_ann_if c o k v = Some o' ∧ annotated o o' k (if c then Str (text_of v) else Null).
Proof. intros Ho Hk. destruct c; [by apply set_ann_spec|]. exists o. split; [done|]. destruct Ho as (? & ? & ?). split_and!; done. Qed.

Lemma annotated_annotatable o o' k v : annotated o o' k v → annotatable o'.
Proof. intros (_ & _ & _ & _ & ? & ? & ?). done. Qed.

Lemma wf_item v m : wf_value v = true → m ∈ items v → wf_value m = true.
Proof.
  unfold items. destruct v as [| | | |l|]; intros Hv Hin; cbn in Hin; try (by apply not_elem_of_nil in Hin). cbn in Hv. rewrite forallb_forall in Hv.
  apply Hv. by apply list_elem_of_In.
Qed.

Lemma wf_copy_fields keys v : wf_value v = true → wf_value (Object (copy_fields keys v)) = true.
Proof.
  intros Hv. unfold copy_fields. assert (∀ s, wf_value (Object s) = true →
    wf_value (Object (fold_left (λ s k, if is_null v.[k] then s else map_insert s k v.[k]) keys s)) = true) as H1; [|by apply H1].
  induction keys as [|k keys IH]; intros s Hs; [done|]. cbn [fold_left]. apply IH. destruct (is_null _); [done|]. apply wf_object_insert; [done|by apply wf_index].
Qed.

Lemma wf_insert_opt m k x : wf_value (Object m) = true → (∀ v, x = Some v → wf_value v = true) → wf_value (Object (insert_opt m k x)) = true.
Proof. intros Hm Hx. destruct x as [v|]; [|done]. apply wf_object_insert; [done|by apply Hx]. Qed.

(** An assignment at the top leaves the metadata alone. *)
Lemma set_top_spec o k x : annotatable o → k ≠ "metadata" → wf_value x = true →
  ∃ o', set_index o k x = Some o' ∧ annotatable o' ∧ o'.[k] = x ∧ ∀ y, y ≠ k → o'.[y] = o.[y].
Proof.
  intros (Hw & Ho & Hm) Hk Hx. destruct o as [| | | | |m]; try done. exists (Object (map_insert m k x)). split; [done|].
  split_and!; [split_and!; [by apply wf_object_insert|done|]| |].
  - rewrite index_insert, bool_decide_false; [done|]. congruence.
  - by rewrite index_insert, bool_decide_true.
  - intros y Hy. by rewrite index_insert, bool_decide_false.
Qed.

Lemma stamp_spec o version : annotatable o → ∃ o', stamp o version = Some o' ∧ annotatable o' ∧ ∀ y, y ≠ "apiVersion" → y ≠ "kind" → o'.[y] = o.[y].
Proof.
  intros Ho. unfold stamp. destruct (set_top_spec o "apiVersion" (Str version) Ho) as (o1 & -> & H1 & _ & S1); [done..|]. cbn [mbind option_bind].
  destruct (set_top_spec o1 "kind" (Str "HorizontalPodAutoscaler") H1) as (o2 & -> & H2 & _ & S2); [done..|]. exists o2. split_and!; [done..|].
  intros y Ha Hk. by rewrite S2, S1.
Qed.

Definition RESERVED : list string := [ANN_METRICS; ANN_BEHAVIOR; ANN_CURRENT; ANN_CONDITIONS].

(** What the view carries in its annotations. *)
Definition carried (c : bool) (v : Value) : Value := if c then Str (text_of v) else Null.

(** Two objects alike but for version, spec, status and the reserved annotations. *)
Definition alike (o o' : Value) : Prop :=
  (∀ k, k ∉ RESERVED → ann o' k = ann o k) ∧ (∀ x, x ≠ "annotations" → o'.["metadata"].[x] = o.["metadata"].[x]) ∧
  ∀ x, x ∉ ["apiVersion"; "kind"; "metadata"; "spec"; "status"] → o'.[x] = o.[x].

Lemma status_to_v1_spec o st cpu rest : annotatable o → wf_value st = true → ann o ANN_CURRENT = Null → ann o ANN_CONDITIONS = Null → o.["status"] = st →
  split_first is_cpu_current (items st.["currentMetrics"]) = (cpu, rest) →
  ∃ o', status_to_v1 o st = Some o' ∧ annotatable o' ∧ alike o o' ∧ o'.["spec"] = o.["spec"] ∧ ann o' ANN_METRICS = ann o ANN_METRICS ∧ ann o' ANN_BEHAVIOR = ann o ANN_BEHAVIOR ∧
    ann o' ANN_CURRENT = carried (is_object st && nonempty rest) (Array rest) ∧
    ann o' ANN_CONDITIONS = carried (is_object st && nonempty (items st.["conditions"])) st.["conditions"] ∧
    o'.["status"] = if is_object st then
      Object (insert_opt (copy_fields STATUS_KEYS st) "currentCPUUtilizationPercentage" ((λ m, m.["resource"].["current"].["averageUtilization"]) <$> cpu))
    else st.
Proof.
  intros Ho Hst Hc Hd Es Ecpu. unfold status_to_v1. destruct (is_object st) eqn:Eo; cbn [negb andb carried]; [|by exists o]. rewrite Ecpu.
  destruct (set_ann_if_spec (nonempty rest) o ANN_CURRENT (Array rest) Ho Hc) as (o1 & -> & H1). cbn [mbind option_bind].
  pose proof (annotated_annotatable _ _ _ _ H1) as Ho1. destruct H1 as (A1 & B1 & C1 & D1 & _).
  destruct (set_ann_if_spec (nonempty (items st.["conditions"])) o1 ANN_CONDITIONS st.["conditions"] Ho1) as (o2 & -> & H2); [by rewrite B1|]. cbn [mbind option_bind].
  pose proof (annotated_annotatable _ _ _ _ H2) as Ho2. destruct H2 as (A2 & B2 & C2 & D2 & _).
  destruct (set_top_spec o2 "status" (Object (insert_opt (copy_fields STATUS_KEYS st) "currentCPUUtilizationPercentage"
    ((λ m, m.["resource"].["current"].["averageUtilization"]) <$> cpu))) Ho2) as (o3 & E3 & Ho3 & T3 & S3); [done| |].
  { apply wf_insert_opt; [by apply wf_copy_fields|]. intros v Hv. destruct cpu as [m|]; [|done]. injection Hv as <-.
    assert (wf_value m = true) as Hm; [|by repeat apply wf_index]. destruct (split_first_spec _ _ _ _ Ecpu) as (_ & Hin & _).
    eapply wf_item; [|exact Hin]. by apply wf_index. }
  exists o3. rewrite E3. assert (∀ k, ann o3 k = ann o2 k) as Ha by (intros k; unfold ann; by rewrite S3). split_and!; [done..| | | | | | |].
  - split_and!.
    + intros k Hk. rewrite Ha, B2, B1; [done|..]; intros ->; apply Hk; set_solver.
    + intros x Hx. by rewrite S3, C2, C1 by done.
    + intros x Hx. rewrite S3, D2, D1; [done|..]; intros ->; apply Hx; set_solver.
  - by rewrite S3, D2, D1.
  - by rewrite Ha, B2, B1.
  - by rewrite Ha, B2, B1.
  - by rewrite Ha, B2.
  - by rewrite Ha.
  - done.
Qed.

Lemma alike_trans a b c : alike a b → alike b c → alike a c.
Proof. intros (A1 & B1 & C1) (A2 & B2 & C2). split_and!; intros x Hx; [by rewrite A2, A1|by rewrite B2, B1|by rewrite C2, C1]. Qed.

(** *** To v1 *)
Lemma to_v1_spec v2 cpu rest cur others :
  annotatable v2 → (∀ k, k ∈ RESERVED → ann v2 k = Null) →
  split_first is_cpu_utilization (items v2.["spec"].["metrics"]) = (cpu, rest) →
  split_first is_cpu_current (items v2.["status"].["currentMetrics"]) = (cur, others) →
  ∃ v1, to_v1 v2 = Some v1 ∧ annotatable v1 ∧ alike v2 v1 ∧
    v1.["spec"] = Object (insert_opt (copy_fields SPEC_KEYS v2.["spec"]) "targetCPUUtilizationPercentage" ((λ m, m.["resource"].["target"].["averageUtilization"]) <$> cpu)) ∧
    ann v1 ANN_METRICS = carried (nonempty rest) (Array rest) ∧
    ann v1 ANN_BEHAVIOR = carried (negb (is_null v2.["spec"].["behavior"])) v2.["spec"].["behavior"] ∧
    ann v1 ANN_CURRENT = carried (is_object v2.["status"] && nonempty others) (Array others) ∧
    ann v1 ANN_CONDITIONS = carried (is_object v2.["status"] && nonempty (items v2.["status"].["conditions"])) v2.["status"].["conditions"] ∧
    v1.["status"] = if is_object v2.["status"] then
      Object (insert_opt (copy_fields STATUS_KEYS v2.["status"]) "currentCPUUtilizationPercentage" ((λ m, m.["resource"].["current"].["averageUtilization"]) <$> cur))
    else v2.["status"].
Proof.
  intros Ho Hr Ecpu Ecur. unfold to_v1. destruct (stamp_spec v2 "autoscaling/v1" Ho) as (o0 & -> & H0 & S0). cbn [mbind option_bind]. rewrite Ecpu.
  assert (∀ k, ann o0 k = ann v2 k) as Ha0 by (intros k; unfold ann; by rewrite S0).
  destruct (set_ann_if_spec (nonempty rest) o0 ANN_METRICS (Array rest) H0) as (o1 & -> & H1); [rewrite Ha0; apply Hr; set_solver|]. cbn [mbind option_bind].
  pose proof (annotated_annotatable _ _ _ _ H1) as Ho1. destruct H1 as (A1 & B1 & C1 & D1 & _).
  destruct (set_ann_if_spec (negb (is_null v2.["spec"].["behavior"])) o1 ANN_BEHAVIOR v2.["spec"].["behavior"] Ho1) as (o2 & -> & H2);
    [rewrite B1, Ha0 by done; apply Hr; set_solver|]. cbn [mbind option_bind].
  pose proof (annotated_annotatable _ _ _ _ H2) as Ho2. destruct H2 as (A2 & B2 & C2 & D2 & _).
  destruct (set_top_spec o2 "spec" (Object (insert_opt (copy_fields SPEC_KEYS v2.["spec"]) "targetCPUUtilizationPercentage"
    ((λ m, m.["resource"].["target"].["averageUtilization"]) <$> cpu))) Ho2) as (o3 & -> & Ho3 & T3 & S3); [done| |].
  { destruct Ho as [Hw _]. apply wf_insert_opt; [by apply wf_copy_fields, wf_index|]. intros v Hv. destruct cpu as [m|]; [|done]. injection Hv as <-.
    assert (wf_value m = true) as Hm; [|by repeat apply wf_index]. destruct (split_first_spec _ _ _ _ Ecpu) as (_ & Hin & _).
    eapply wf_item; [|exact Hin]. by repeat apply wf_index. }
  cbn [mbind option_bind]. assert (∀ k, ann o3 k = ann o2 k) as Ha3 by (intros k; unfold ann; by rewrite S3).
  destruct (status_to_v1_spec o3 v2.["status"] cur others Ho3) as (v1 & -> & Hv1 & Hal & Esp & Em & Eb & Ec & Ed & Est); [| | | |exact Ecur|].
  { destruct Ho as [Hw _]. by apply wf_index. }
  { rewrite Ha3, B2, B1, Ha0 by done. apply Hr. set_solver. }
  { rewrite Ha3, B2, B1, Ha0 by done. apply Hr. set_solver. }
  { by rewrite S3, D2, D1, S0. }
  exists v1. split_and!; [done|done| |by rewrite Esp|by rewrite Em, Ha3, B2|by rewrite Eb, Ha3|done..].
  eapply alike_trans; [|exact Hal]. split_and!.
  - intros k Hk. rewrite Ha3, B2, B1, Ha0; [done|..]; intros ->; apply Hk; set_solver.
  - intros x Hx. by rewrite S3, C2, C1, S0 by done.
  - intros x Hx. rewrite S3, D2, D1, S0; [done|..]; intros ->; apply Hx; set_solver.
Qed.

(** *** To v2 *)
Lemma to_v2_spec v1 : annotatable v1 →
  ∃ w, to_v2 v1 = Some w ∧ (∀ k, ann w k = if bool_decide (k ∈ RESERVED) then Null else ann v1 k) ∧
    (∀ x, x ≠ "annotations" → w.["metadata"].[x] = v1.["metadata"].[x]) ∧
    (∀ x, x ∉ ["apiVersion"; "kind"; "metadata"; "spec"; "status"] → w.[x] = v1.[x]) ∧
    w.["spec"] = Object (insert_opt (insert_list (copy_fields SPEC_KEYS v1.["spec"]) "metrics"
      (joined cpu_metric v1.["spec"].["targetCPUUtilizationPercentage"] (said (ann v1 ANN_METRICS)))) "behavior" (said (ann v1 ANN_BEHAVIOR))) ∧
    w.["status"] = if is_object v1.["status"] then Object (insert_opt (insert_list (copy_fields STATUS_KEYS v1.["status"]) "currentMetrics"
      (joined cpu_current v1.["status"].["currentCPUUtilizationPercentage"] (said (ann v1 ANN_CURRENT)))) "conditions" (said (ann v1 ANN_CONDITIONS))) else v1.["status"].
Proof.
  intros Ho. unfold to_v2. destruct (stamp_spec v1 "autoscaling/v2" Ho) as (o0 & -> & H0 & S0). cbn [mbind option_bind].
  assert (∀ k, ann o0 k = ann v1 k) as Ha0 by (intros k; unfold ann; by rewrite S0).
  destruct (take_ann o0 ANN_METRICS) as [o1 x1] eqn:E1. apply take_ann_spec in E1 as [H1 ->]; [|done].
  pose proof (annotated_annotatable _ _ _ _ H1) as Ho1. destruct H1 as (A1 & B1 & C1 & D1 & _).
  destruct (take_ann o1 ANN_BEHAVIOR) as [o2 x2] eqn:E2. apply take_ann_spec in E2 as [H2 ->]; [|done].
  pose proof (annotated_annotatable _ _ _ _ H2) as Ho2. destruct H2 as (A2 & B2 & C2 & D2 & _).
  destruct (take_ann o2 ANN_CURRENT) as [o3 x3] eqn:E3. apply take_ann_spec in E3 as [H3 ->]; [|done].
  pose proof (annotated_annotatable _ _ _ _ H3) as Ho3. destruct H3 as (A3 & B3 & C3 & D3 & _).
  destruct (take_ann o3 ANN_CONDITIONS) as [o4 x4] eqn:E4. apply take_ann_spec in E4 as [H4 ->]; [|done].
  destruct H4 as (A4 & B4 & C4 & D4 & _ & Hobj & _).
  rewrite (Ha0 ANN_METRICS), (B1 ANN_BEHAVIOR), (Ha0 ANN_BEHAVIOR), (B2 ANN_CURRENT), (B1 ANN_CURRENT), (Ha0 ANN_CURRENT),
    (B3 ANN_CONDITIONS), (B2 ANN_CONDITIONS), (B1 ANN_CONDITIONS), (Ha0 ANN_CONDITIONS) by done.
  assert (∀ k, ann o4 k = if bool_decide (k ∈ RESERVED) then Null else ann v1 k) as Hann.
  { intros k. destruct (decide (k = ANN_CONDITIONS)) as [->|N4]; [done|]. rewrite B4 by done. destruct (decide (k = ANN_CURRENT)) as [->|N3]; [done|].
    rewrite B3 by done. destruct (decide (k = ANN_BEHAVIOR)) as [->|N2]; [done|]. rewrite B2 by done. destruct (decide (k = ANN_METRICS)) as [->|N1]; [done|].
    rewrite B1, Ha0, bool_decide_false by (done || (unfold RESERVED; set_solver)). done. }
  destruct o4 as [| | | | |m4]; try done. cbn [set_index mbind option_bind]. set (spec := Object (insert_opt _ "behavior" _)).
  assert (∀ y, y ≠ "spec" → (Object (map_insert m4 "spec" spec)).[y] = (Object m4).[y]) as Sp by (intros y Hy; by rewrite index_insert, bool_decide_false).
  assert (∀ y, y ≠ "metadata" → y ≠ "apiVersion" → y ≠ "kind" → (Object m4).[y] = v1.[y]) as Top by (intros y ???; by rewrite D4, D3, D2, D1, S0).
  assert (∀ y, y ≠ "annotations" → (Object m4).["metadata"].[y] = v1.["metadata"].[y]) as Meta by (intros y Hy; by rewrite C4, C3, C2, C1, S0 by done).
  destruct (is_object v1.["status"]) eqn:Es; cbn [negb].
  - eexists. split; [done|]. split_and!.
    + intros k. rewrite <-Hann. unfold ann. by rewrite index_insert, bool_decide_false, Sp.
    + intros x Hx. rewrite index_insert, bool_decide_false, Sp by done. by apply Meta.
    + intros x Hx. rewrite index_insert, bool_decide_false, Sp, Top; [done|..]; intros ->; apply Hx; set_solver.
    + by rewrite index_insert, bool_decide_false, index_insert, bool_decide_true.
    + by rewrite index_insert, bool_decide_true.
  - eexists. split; [done|]. split_and!.
    + intros k. rewrite <-Hann. unfold ann. by rewrite Sp.
    + intros x Hx. rewrite Sp by done. by apply Meta.
    + intros x Hx. rewrite Sp, Top; [done|..]; intros ->; apply Hx; set_solver.
    + by rewrite index_insert, bool_decide_true.
    + by rewrite Sp, Top.
Qed.

(** *** There and back *)

Lemma copy_absent keys v k : bool_decide (k ∈ keys) = false → (Object (copy_fields keys v)).[k] = Null.
Proof. intros Hk. by rewrite copy_fields_get, Hk. Qed.

Lemma copy_present keys v k : k ∈ keys → (Object (copy_fields keys v)).[k] = v.[k].
Proof. intros Hk. by rewrite copy_fields_get, bool_decide_true. Qed.

Lemma other_key (k k' : string) (keys : list string) : k ∈ keys → bool_decide (k' ∈ keys) = false → k ≠ k'.
Proof. intros Hk Hn ->. by rewrite bool_decide_true in Hn. Qed.

Lemma joined_back make (avg : Value → Value) cpu rest :
  (∀ m, cpu = Some m → ∃ t, i64_min ≤ t ≤ i64_max ∧ m = make t ∧ avg m = num_i64 t) →
  wf_value (Array rest) = true → no_floats (Array rest) = true →
  joined make (default Null (avg <$> cpu)) (said (carried (nonempty rest) (Array rest))) = match cpu with Some m => m :: rest | None => rest end.
Proof.
  intros Hm Hw Hf. unfold joined.
  assert (match said (carried (nonempty rest) (Array rest)) with Some v => items v | None => [] end = rest) as -> by (destruct rest; [done|]; cbn [nonempty carried]; by rewrite said_text).
  destruct cpu as [m|]; [|done]. destruct (Hm m eq_refl) as (t & Ht & -> & Ea). cbn [fmap option_fmap option_map default from_option id]. by rewrite Ea, as_i64_num_i64.
Qed.

Lemma items_joined m k l : (Object m).[k] = Null → items (Object (insert_list m k l)).[k] = l.
Proof. intros Hk. rewrite index_insert_list, bool_decide_true by done. destruct l; [by rewrite Hk|done]. Qed.

Lemma floats_index v k : no_floats v = true → no_floats v.[k] = true.
Proof.
  unfold index. destruct v as [| | | | |m]; try done. cbn [Json.get]. intros Hv. destruct (map_get m k) eqn:E; [|done]. apply map_get_In in E.
  cbn in Hv. rewrite forallb_forall in Hv. by apply (Hv (k, v)).
Qed.

(** The items left over of a well-formed list without floats are such a list. *)
Lemma rest_storable cpu v f rest : wf_value v = true → no_floats v = true → split_first cpu (items v) = (f, rest) →
  wf_value (Array rest) = true ∧ no_floats (Array rest) = true.
Proof.
  intros Hw Hf E. apply split_first_spec in E as [Hp _].
  assert (∀ m, m ∈ rest → m ∈ items v) as Hin by (intros m Hm; rewrite Hp; destruct f; [by right|done]).
  assert (∀ m, m ∈ items v → wf_value m = true ∧ no_floats m = true) as Hi.
  { intros m Hm. split; [by eapply wf_item|]. unfold items in Hm. destruct v as [| | | |l|]; cbn in Hm; try (by apply not_elem_of_nil in Hm).
    cbn in Hf. rewrite forallb_forall in Hf. apply Hf. by apply list_elem_of_In. }
  cbn. rewrite !forallb_forall. split; intros m Hm%list_elem_of_In; by apply Hi, Hin.
Qed.

(** A part (the spec, the status) after both conversions: fields copied, the
    list [L] rebuilt from the percentage [P] and its annotation, [B] from its own. *)
Lemma part_back keys P L B make (avg : Value → Value) v cpu rest extra (w : Value) :
  (∀ k, k ∈ [P; L; B] → bool_decide (k ∈ keys) = false) → NoDup [P; L; B] →
  (∀ m, cpu = Some m → ∃ t, i64_min ≤ t ≤ i64_max ∧ m = make t ∧ avg m = num_i64 t) → wf_value (Array rest) = true → no_floats (Array rest) = true →
  let v1 := Object (insert_opt (copy_fields keys v) P (avg <$> cpu)) in
  w = Object (insert_opt (insert_list (copy_fields keys v1) L (joined make v1.[P] (said (carried (nonempty rest) (Array rest))))) B extra) →
  items w.[L] = match cpu with Some m => m :: rest | None => rest end ∧ (∀ k, k ∈ keys → w.[k] = v.[k]) ∧ w.[B] = default Null extra.
Proof.
  intros Hk Hnd Hm Hw Hf v1 ->. apply list.NoDup_cons in Hnd as [HP Hnd]. apply list.NoDup_cons in Hnd as [HL _].
  assert (P ≠ L ∧ P ≠ B ∧ L ≠ B) as (? & ? & ?) by (split_and!; intros ->; [apply HP|apply HP|apply HL]; set_solver).
  assert (bool_decide (P ∈ keys) = false ∧ bool_decide (L ∈ keys) = false ∧ bool_decide (B ∈ keys) = false) as (KP & KL & KB) by (split_and!; apply Hk; set_solver).
  assert (v1.[P] = default Null (avg <$> cpu)) as -> by (unfold v1; by rewrite index_insert_opt, bool_decide_true, copy_absent).
  split_and!.
  - rewrite index_insert_opt, bool_decide_false, items_joined by (done || by apply copy_absent). by apply joined_back.
  - intros k Hin. rewrite index_insert_opt, bool_decide_false, index_insert_list, bool_decide_false, copy_present by (done || by eapply other_key).
    unfold v1. by rewrite index_insert_opt, bool_decide_false, copy_present by (done || by eapply other_key).
  - rewrite index_insert_opt, bool_decide_true, index_insert_list, bool_decide_false, copy_absent by done. done.
Qed.

Lemma reserved_spec k : k ∈ ["targetCPUUtilizationPercentage"; "metrics"; "behavior"] → bool_decide (k ∈ SPEC_KEYS) = false.
Proof. intros Hk. repeat (apply elem_of_cons in Hk as [->|Hk]; [done|]). by apply not_elem_of_nil in Hk. Qed.

Lemma reserved_status k : k ∈ ["currentCPUUtilizationPercentage"; "currentMetrics"; "conditions"] → bool_decide (k ∈ STATUS_KEYS) = false.
Proof. intros Hk. repeat (apply elem_of_cons in Hk as [->|Hk]; [done|]). by apply not_elem_of_nil in Hk. Qed.

(** What v1 can say: no reserved annotation of its own, no floats, and CPU
    metrics that give a percentage and nothing else. *)
Definition expressible (v2 : Value) : Prop :=
  annotatable v2 ∧ no_floats v2 = true ∧ (∀ k, k ∈ RESERVED → ann v2 k = Null) ∧
  (∀ m, m ∈ items v2.["spec"].["metrics"] → is_cpu_utilization m = true → ∃ t, i64_min ≤ t ≤ i64_max ∧ m = cpu_metric t) ∧
  (∀ m, m ∈ items v2.["status"].["currentMetrics"] → is_cpu_current m = true → ∃ u, i64_min ≤ u ≤ i64_max ∧ m = cpu_current u) ∧
  (v2.["status"].["conditions"] = Null ∨ items v2.["status"].["conditions"] ≠ []).

(** C36: an autoscaler read as v1 and written back is what it was.  For an
    object v1 can express, reading the stored v2 object as v1 and converting
    the view back gives its target, bounds, behavior, replica counts and
    conditions unchanged, the same metrics and current metrics (the CPU one
    first), its metadata and annotations as they were, and every other field
    untouched. *)
Theorem v1_roundtrip v2 : expressible v2 →
  ∃ v1 w, to_v1 v2 = Some v1 ∧ to_v2 v1 = Some w ∧
    items w.["spec"].["metrics"] ≡ₚ items v2.["spec"].["metrics"] ∧
    (∀ k, k ∈ "behavior" :: SPEC_KEYS → w.["spec"].[k] = v2.["spec"].[k]) ∧
    (∀ k, ann w k = ann v2 k) ∧ (∀ x, x ≠ "annotations" → w.["metadata"].[x] = v2.["metadata"].[x]) ∧
    (∀ x, x ∉ ["apiVersion"; "kind"; "metadata"; "spec"; "status"] → w.[x] = v2.[x]) ∧
    if is_object v2.["status"] then
      items w.["status"].["currentMetrics"] ≡ₚ items v2.["status"].["currentMetrics"] ∧
      ∀ k, k ∈ "conditions" :: STATUS_KEYS → w.["status"].[k] = v2.["status"].[k]
    else w.["status"] = v2.["status"].
Proof.
  intros (Ho & Hf & Hr & Hm & Hc & Hd). destruct (split_first is_cpu_utilization (items v2.["spec"].["metrics"])) as [cpu rest] eqn:Ecpu.
  destruct (split_first is_cpu_current (items v2.["status"].["currentMetrics"])) as [cur others] eqn:Ecur.
  destruct (to_v1_spec v2 cpu rest cur others Ho Hr Ecpu Ecur) as (v1 & E1 & Hv1 & (Al1 & Al2 & Al3) & Esp & Em & Eb & Ec & Ed & Est).
  destruct (to_v2_spec v1 Hv1) as (w & E2 & Wa & Wm & Wt & Wsp & Wst). exists v1, w. destruct Ho as [Hw _].
  assert (∀ k1 k2, wf_value v2.[k1].[k2] = true ∧ no_floats v2.[k1].[k2] = true) as Hst by (intros; split; [by repeat apply wf_index|by repeat apply floats_index]).
  destruct (rest_storable _ _ _ _ (proj1 (Hst _ _)) (proj2 (Hst _ _)) Ecpu) as [Hwr Hfr].
  destruct (rest_storable _ _ _ _ (proj1 (Hst _ _)) (proj2 (Hst _ _)) Ecur) as [Hwo Hfo].
  destruct (split_first_spec _ _ _ _ Ecpu) as [Hp Hpc]. destruct (split_first_spec _ _ _ _ Ecur) as [Hq Hqc].
  rewrite Em, Esp in Wsp. apply (part_back SPEC_KEYS "targetCPUUtilizationPercentage" "metrics" "behavior" cpu_metric (λ m, m.["resource"].["target"].["averageUtilization"]) v2.["spec"] cpu rest)
    in Wsp as (Wmet & Wkeys & Wbeh); [|by apply reserved_spec|by apply (bool_decide_unpack _)| |done|done].
  2: { intros m ->. destruct Hpc as [Hin Hcpu]. destruct (Hm m Hin Hcpu) as (t & Ht & ->). exists t. split_and!; [lia..|done|done]. }
  split_and!; [done|done|by rewrite Wmet, Hp| | |intros x Hx; by rewrite Wm, Al2|intros x Hx; by rewrite Wt, Al3|].
  - intros k [->|Hk]%elem_of_cons; [|by apply Wkeys]. rewrite Wbeh, Eb. destruct (is_null v2.["spec"].["behavior"]) eqn:En; cbn [negb carried].
    + by destruct (v2.["spec"].["behavior"]).
    + by rewrite said_text by apply Hst.
  - intros k. rewrite Wa. case_bool_decide as Hk; [by rewrite Hr|by apply Al1].
  - destruct (is_object v2.["status"]) eqn:Eo; [|by rewrite Wst, Est, Eo]. rewrite Est, Ec in Wst. cbn [is_object andb] in Wst.
    apply (part_back STATUS_KEYS "currentCPUUtilizationPercentage" "currentMetrics" "conditions" cpu_current (λ m, m.["resource"].["current"].["averageUtilization"]) v2.["status"] cur others)
      in Wst as (Wmet2 & Wkeys2 & Wcond); [|by apply reserved_status|by apply (bool_decide_unpack _)| |done|done].
    2: { intros m ->. destruct Hqc as [Hin Hcpu]. destruct (Hc m Hin Hcpu) as (t & Ht & ->). exists t. split_and!; [lia..|done|done]. }
    split; [by rewrite Wmet2, Hq|]. intros k [->|Hk]%elem_of_cons; [|by apply Wkeys2]. rewrite Wcond, Ed. cbn [andb].
    destruct (items v2.["status"].["conditions"]) eqn:En; cbn [nonempty carried]; [by destruct Hd as [->|Hd]|by rewrite said_text by apply Hst].
Qed.
End Roundtrip.

(** *** Examples *)

#[local] Existing Instance tagged_codec.

Module HpaV1Demo.
Definition hpa (metrics : list Value) (current : list Value) : Value :=
  json_obj [("apiVersion", Str "autoscaling/v2"); ("kind", Str "HorizontalPodAutoscaler");
            ("metadata", json_obj [("name", Str "web"); ("annotations", json_obj [("note", Str "kept")])]);
            ("spec", json_obj [("maxReplicas", num_i64 5); ("metrics", Array metrics); ("behavior", json_obj [("scaleUp", json_obj [])])]);
            ("status", json_obj [("currentReplicas", num_i64 2); ("currentMetrics", Array current);
                                 ("conditions", Array [json_obj [("type", Str "AbleToScale"); ("status", Str "True")]])])].
Definition memory : Value := json_obj [("type", Str "Resource"); ("resource", json_obj [("name", Str "memory")])].
Definition there_and_back (v : Value) : option Value := v1 ← to_v1 v; to_v2 v1.

(** The CPU metric is v1's percentage; the others ride in an annotation. *)
Example v1_view :
  (λ v, (v.["spec"].["targetCPUUtilizationPercentage"], v.["spec"].["metrics"], said (ann v ANN_METRICS))) <$> to_v1 (hpa [memory; cpu_metric 70] [])
  = Some (num_i64 70, Null, Some (Array [memory])).
Proof. vm_compute. reflexivity. Qed.

(** What the autoscaler measures beside the percentage is lost on the way... *)
Definition measured : Value :=
  json_obj [("type", Str "Resource"); ("resource", json_obj [("name", Str "cpu"); ("current", json_obj [("averageUtilization", num_i64 42); ("averageValue", Str "420m")])])].
Example average_value_lost :
  (λ w, items w.["status"].["currentMetrics"]) <$> there_and_back (hpa [] [measured]) = Some [cpu_current 42].
Proof. vm_compute. reflexivity. Qed.

(** ...and a CPU metric without a percentage is lost altogether. *)
Definition no_percentage : Value :=
  json_obj [("type", Str "Resource"); ("resource", json_obj [("name", Str "cpu"); ("target", json_obj [("type", Str "Utilization")])])].
Example metric_lost : (λ w, items w.["spec"].["metrics"]) <$> there_and_back (hpa [no_percentage] []) = Some [].
Proof. vm_compute. reflexivity. Qed.
End HpaV1Demo.
Import HpaV1Demo.

Lemma v1_roundtrip_witness : ∃ v1 w, to_v1 (hpa [memory; cpu_metric 70] [cpu_current 42]) = Some v1 ∧ to_v2 v1 = Some w ∧
  items w.["spec"].["metrics"] ≡ₚ [memory; cpu_metric 70].
Proof.
  destruct (v1_roundtrip (hpa [memory; cpu_metric 70] [cpu_current 42])) as (v1 & w & E1 & E2 & Hm & _).
  - split_and!; [done|done| | | |by right].
    + intros k Hk. repeat (apply elem_of_cons in Hk as [->|Hk]; [done|]). by apply not_elem_of_nil in Hk.
    + intros m Hin Hc. change (m ∈ [memory; cpu_metric 70]) in Hin. repeat (apply elem_of_cons in Hin as [->|Hin]; [first [by vm_compute in Hc|exists 70; split; [by vm_compute|done]]|]). by apply not_elem_of_nil in Hin.
    + intros m Hin Hc. change (m ∈ [cpu_current 42]) in Hin. repeat (apply elem_of_cons in Hin as [->|Hin]; [first [by vm_compute in Hc|exists 42; split; [by vm_compute|done]]|]). by apply not_elem_of_nil in Hin.
  - by exists v1, w.
Defined.
