(* ===== verification/Effect.v ===== *)
(** * Effects: a store shared with others

    The operations of the API server that read and write the store in several
    steps run in a small state monad: the state is the store and what other
    clients will do, one step of which is taken before each store operation.
    A result is a value, an API error or a panic ([None]). *)

From Stdlib Require Import ZArith Lia String Ascii.
From stdpp Require Import base gmap strings numbers option list.
From S2P Require Import Prelude Text BTree Json F64 Quantity Store ApiError Codec Storage.
Open Scope string_scope.
Open Scope kube_scope.
Open Scope Z_scope.

Record World (S : Type) := mkWorld { st : S; others : list (S → S) }.
Arguments mkWorld {S} _ _.
Arguments st {S} _.
Arguments others {S} _.

Definition M (S A : Type) : Type := World S → World S * option (result A ApiError).

Definition mret {S A} (x : A) : M S A := λ w, (w, Some (Ok x)).
Definition mraise {S A} (e : ApiError) : M S A := λ w, (w, Some (Err e)).
Definition mpanic {S A} : M S A := λ w, (w, None).
Definition mthen {S A B} (m : M S A) (k : A → M S B) : M S B := λ w,
  match m w with
  | (w, Some (Ok x)) => k x w
  | (w, Some (Err e)) => (w, Some (Err e))
  | (w, None) => (w, None)
  end.
Notation "x <~ m ;; k" := (mthen m (λ x, k)) (at level 100, m at next level, right associativity) : kube_scope.

(** A value that is there, or a panic. *)
Definition mget {S A} (o : option A) : M S A := match o with Some x => mret x | None => mpanic end.

(** The outcome of a step as a value: nothing is raised. *)
Definition mtry {S A} (m : M S A) : M S (result A ApiError) := λ w,
  match m w with (w, Some r) => (w, Some (Ok r)) | (w, None) => (w, None) end.

(** A pure step that may raise. *)
Definition mlift {S A} (r : result A ApiError) : M S A := match r with Ok x => mret x | Err e => mraise e end.

(** What others do before the next store operation. *)
Definition meanwhile {S} (w : World S) : World S :=
  match others w with f :: fs => mkWorld (f (st w)) fs | [] => w end.

(** ** Store operations *)

Section Operations.
  Context {S : Type} `{KvStore S} `{JsonCodec}.
  Variable float_text : f64 → string.

Definition s_get (key : string) : M S Value := λ w,
  let w := meanwhile w in (w, Storage.get (st w) key).

Definition s_list (prefix : string) (limit : Z) (token : option string) : M S ListPage := λ w,
  let w := meanwhile w in (w, Storage.list_page (st w) prefix limit token).

Definition s_create (key : string) (obj : Value) : M S Value := λ w,
  let w := meanwhile w in
  let '(s, r) := create float_text (st w) key obj in (mkWorld s (others w), r).

Definition s_update (key : string) (obj : Value) (prev : option Z) : M S Value := λ w,
  let w := meanwhile w in
  let '(s, r) := update float_text (st w) key obj prev in (mkWorld s (others w), r).

Definition s_delete (key : string) (prev : option Z) : M S unit := λ w,
  let w := meanwhile w in
  let '(s, r) := delete (st w) key prev in (mkWorld s (others w), Some r).

(** [let _ = storage.delete(key, None).await], for one key and for several. *)
Definition drop_key (key : string) : M S unit := _ <~ mtry (s_delete key None);; mret tt.

Fixpoint drop_keys (keys : list string) : M S unit :=
  match keys with
  | [] => mret tt
  | k :: keys => _ <~ drop_key k;; drop_keys keys
  end.
End Operations.

(** ** Reasoning *)

Lemma mthen_Ok {S A B} (m : M S A) (k : A → M S B) w w' y :
  mthen m k w = (w', Some (Ok y)) → ∃ w1 x, m w = (w1, Some (Ok x)) ∧ k x w1 = (w', Some (Ok y)).
Proof. unfold mthen. destruct (m w) as [w1 [[x|e]|]]; try done. eauto. Qed.

Lemma mtry_inv {S A} (m : M S A) w w' r : mtry m w = (w', Some r) → ∃ x, r = Ok x ∧ m w = (w', Some x).
Proof. unfold mtry. destruct (m w) as [w1 [x|]]; [|done]. intros [= <- <-]. eauto. Qed.

Section Steps.
  Context {S : Type} `{HL : KvStoreLaws S} `{JsonCodec}.
  Variable float_text : f64 → string.
  Implicit Types (s : S) (w : World S).

(** A store that serves and has room for a write. *)
Definition live s : Prop := kv_wf s ∧ serving s ∧ rev_room (revision s).

(** What others may do: any writes, while revisions last. *)
Definition friendly (f : S → S) : Prop := ∀ s, live s → writes float_text s (f s) ∧ live (f s).

Definition tame w : Prop := live (st w) ∧ Forall friendly (others w).

Lemma meanwhile_tame w : tame w → tame (meanwhile w) ∧ writes float_text (st w) (st (meanwhile w)).
Proof.
  intros [Hl Hf]. unfold meanwhile. destruct (others w) as [|f fs] eqn:Eo; [split; [split; [done|by rewrite Eo]|apply writes_refl]|].
  inversion Hf as [|? ? Hk Hfs]; subst. by destruct (Hk (st w) Hl) as [? ?].
Qed.

(** A computation that writes nothing itself. *)
Definition reads {A} (m : M S A) : Prop := ∀ w w' r, tame w → m w = (w', r) → tame w' ∧ writes float_text (st w) (st w').

Lemma reads_mret {A} (x : A) : reads (mret x).
Proof. intros w w' r Hw [= <- <-]. split; [done|apply writes_refl]. Qed.
Lemma reads_mraise {A} e : reads (@mraise S A e).
Proof. intros w w' r Hw [= <- <-]. split; [done|apply writes_refl]. Qed.
Lemma reads_mpanic {A} : reads (@mpanic S A).
Proof. intros w w' r Hw [= <- <-]. split; [done|apply writes_refl]. Qed.
Lemma reads_mget {A} (o : option A) : reads (mget o).
Proof. destruct o; [apply reads_mret|apply reads_mpanic]. Qed.
Lemma reads_mlift {A} (r : result A ApiError) : reads (mlift r).
Proof. destruct r; [apply reads_mret|apply reads_mraise]. Qed.
Lemma reads_mthen {A B} (m : M S A) (k : A → M S B) : reads m → (∀ x, reads (k x)) → reads (mthen m k).
Proof.
  intros Hm Hk w w' r Hw. unfold mthen. destruct (m w) as [w1 [[x|e]|]] eqn:E; destruct (Hm _ _ _ Hw E) as [Hw1 H1].
  - intros E2. destruct (Hk x _ _ _ Hw1 E2) as [? ?]. split; [done|by eapply writes_trans].
  - by intros [= <- <-].
  - by intros [= <- <-].
Qed.
Lemma reads_mtry {A} (m : M S A) : reads m → reads (mtry m).
Proof. intros Hm w w' r Hw. unfold mtry. destruct (m w) as [w1 [x|]] eqn:E; intros [= <- <-]; by eapply Hm. Qed.
Lemma reads_if {A} (b : bool) (m1 m2 : M S A) : reads m1 → reads m2 → reads (if b then m1 else m2).
Proof. by destruct b. Qed.
Lemma reads_s_get key : reads (s_get key).
Proof. intros w w' r Hw [= <- <-]. by apply meanwhile_tame. Qed.

(** A read sees the store as it is then. *)
Lemma s_get_Ok key w w' v :
  tame w → s_get key w = (w', Some (Ok v)) →
  tame w' ∧ writes float_text (st w) (st w') ∧ Storage.get (st w') key = Some (Ok v).
Proof. intros Hw E. destruct (reads_s_get key _ _ _ Hw E) as [? ?]. split_and!; [done..|]. unfold s_get in E. by injection E as <- <-. Qed.
End Steps.

Create HintDb reads.
#[export] Hint Resolve reads_mret reads_mraise reads_mpanic reads_mget reads_mlift reads_mthen reads_mtry reads_if reads_s_get : reads.

(** Walks through a computation that only reads. *)
Ltac solve_reads := repeat (first [apply reads_mthen; [|intros ?] | apply reads_if | apply reads_mtry | solve [auto with reads]]).
