(* ===== verification/Evict.v ===== *)
(** * Evictions and disruption budgets ([pkg/apiserver/src/eviction.rs],
      [pkg/controller-manager/src/pdb.rs])

    An eviction deletes a Pod if every PodDisruptionBudget that selects it
    permits one more disruption, and is refused with 429 otherwise.  The
    decision counts the Pods live; the controller reports the same numbers in
    the budget's status.  Proved: an eviction that goes through, with nobody
    else writing, leaves each budget the healthy Pods it asked for; a refused
    one leaves the store alone; and the status the controller reports is the
    number the eviction decides by.  [Module EvictionGaps] shows what the code
    does not keep: two evictions at once, [matchExpressions]. *)

From Stdlib Require Import ZArith Lia String Ascii.
From stdpp Require Import base gmap strings numbers option list.
From S2P Require Import Prelude Text BTree Json F64 Quantity Store ApiError Codec Storage Effect Selector.
Open Scope string_scope.
Open Scope kube_scope.
Open Scope Z_scope.

(** Resolves an IntOrString field to a count; a percentage is of [total],
    rounded up. *)
Definition intstr_to_count (v : Value) (total : Z) : option Z :=
  if is_null v then None
  else match as_i64 v with
       | Some n => Some n
       | None =>
           match as_str v with
           | None => None
           | Some s =>
               match strip_suffix "%" s ≫= parse_f64 with
               | Some p => Some (f64_to_i64 (f64_ceil (f64_mul (f64_div p (f64_of_Z 100)) (f64_of_Z total))))
               | None => parse_i64 s
               end
           end
       end.

(** [matchLabels] only; a selector without it matches everything. *)
Definition selector_matches (selector labels : Value) : bool :=
  match Json.get selector "matchLabels" ≫= as_object with
  | None => is_object selector
  | Some ml => forallb (λ kv, match as_object labels ≫= (λ pl, map_get pl kv.1) with
                              | Some pv => value_eqb pv kv.2 | None => false end) ml
  end.

Definition is_ready (pod : Value) : bool :=
  match as_array pod.["status"].["conditions"] with
  | Some cs => existsb (λ c, str_is c.["type"] "Ready" && str_is c.["status"] "True") cs
  | None => false
  end.

Definition count_if (f : Value → bool) (l : list Value) : Z := Z.of_nat (List.length (List.filter f l)).

(** The healthy Pods a budget asks for, of [total]. *)
Definition desired_healthy (spec : Value) (total : Z) : Z :=
  match intstr_to_count spec.["minAvailable"] total with
  | Some n => n
  | None =>
      match intstr_to_count spec.["maxUnavailable"] total with
      | Some n => wrap_i64 (total - n)
      | None => 0
      end
  end.

Definition selected (pdb : Value) (pod : Value) : bool := selector_matches pdb.["spec"].["selector"] pod.["metadata"].["labels"].
Definition expected_pods (pdb : Value) (pods : list Value) : Z := count_if (selected pdb) pods.
Definition current_healthy (pdb : Value) (pods : list Value) : Z := count_if (λ p, selected pdb p && is_ready p) pods.
Definition asked (pdb : Value) (pods : list Value) : Z := desired_healthy pdb.["spec"] (expected_pods pdb pods).

(** [healthy - desired] over the Pods listed. *)
Definition allowed_of (pdb : Value) (pods : list Value) : Z :=
  wrap_i64 (current_healthy pdb pods - asked pdb pods).

Inductive Response :=
  | Created (eviction : Value)
  | TooManyRequests (status : Value).

Definition too_many (namespace : string) (pdb : Value) : Value :=
  let pdb_name := str_or "?" pdb.["metadata"].["name"] in
  json_obj [("apiVersion", Str "v1"); ("kind", Str "Status"); ("metadata", json_obj []); ("status", Str "Failure");
    ("message", Str ("Cannot evict pod as it would violate the pod's disruption budget (" ++ namespace ++ "/" ++ pdb_name
                     ++ "): disruptionsAllowed=0"));
    ("reason", Str "TooManyRequests");
    ("details", json_obj [("causes", Array [json_obj [("reason", Str "DisruptionBudget");
       ("message", Str ("The disruption budget " ++ pdb_name ++ " needs 0 more healthy pods"))]])]);
    ("code", Num (PosInt 429))].

Definition eviction_of (namespace name : string) : Value :=
  json_obj [("apiVersion", Str "policy/v1"); ("kind", Str "Eviction");
            ("metadata", json_obj [("name", Str name); ("namespace", Str namespace)])].

Section Handler.
  Context {S : Type} `{KvStore S} `{JsonCodec}.
  (** The webhooks of [pods/eviction] CREATE. *)
  Variable h_eviction : Value → result Value ApiError.

Definition disruptions_allowed (pdb : Value) (namespace : string) : M S Z :=
  page <~ s_list (namespace_prefix "pods" namespace) 5000 None;;
  mret (allowed_of pdb (lp_items page)).

(** The first budget that selects the Pod and permits no disruption. *)
Fixpoint check_budgets (namespace : string) (pod : Value) (pdbs : list Value) : M S (option Value) :=
  match pdbs with
  | [] => mret None
  | pdb :: rest =>
      if negb (selected pdb pod) then check_budgets namespace pod rest
      else
        allowed <~ disruptions_allowed pdb namespace;;
        if allowed <=? 0 then mret (Some pdb) else check_budgets namespace pod rest
  end.

(** [body] is [None] when it is not JSON. *)
Definition create_eviction (namespace name : string) (body : option Value) : M S Response :=
  let pod_key := namespaced_key "pods" namespace name in
  pod <~ s_get pod_key;;
  _ <~ mlift (h_eviction (default (eviction_of namespace name) body));;
  pdbs <~ s_list (namespace_prefix "poddisruptionbudgets" namespace) 1000 None;;
  refusing <~ check_budgets namespace pod (lp_items pdbs);;
  match refusing with
  | Some pdb => mret (TooManyRequests (too_many namespace pdb))
  | None =>
      _ <~ s_delete pod_key None;;
      mret (Created (eviction_of namespace name))
  end.
End Handler.

(** ** The controller's report *)

Module Pdb.

(** [apimachinery::selector::matches], expressions included. *)
Definition selector_matches (selector labels : Value) : bool := LabelSelector.matches selector labels.

Definition pdb_status (pdb : Value) (pods : list Value) : Value :=
  let matched := List.filter (λ p, selector_matches pdb.["spec"].["selector"] p.["metadata"].["labels"]) pods in
  let expected := Z.of_nat (List.length matched) in
  let healthy := count_if is_ready matched in
  let desired := desired_healthy pdb.["spec"] expected in
  let allowed := Z.max (wrap_i64 (healthy - desired)) 0 in
  json_obj [("currentHealthy", num_i64 healthy); ("desiredHealthy", num_i64 desired);
            ("disruptionsAllowed", num_i64 allowed); ("expectedPods", num_i64 expected);
            ("observedGeneration", Num (PosInt (default 1 (as_u64 pdb.["metadata"].["generation"]))))].

(** The object and the path to PUT it at; nothing when the status is as it
    was.  ([None]: indexing a budget that is not an object panics.) *)
Definition reconcile_pdb (pdb : Value) (pods : list Value) : option (option (string * Value)) :=
  let namespace := str_or "default" pdb.["metadata"].["namespace"] in
  let name := str_or "" pdb.["metadata"].["name"] in
  updated ← set_index pdb "status" (pdb_status pdb pods);
  Some (if value_eqb updated.["status"] pdb.["status"] then None
        else Some ("/apis/policy/v1/namespaces/" ++ namespace ++ "/poddisruptionbudgets/" ++ name ++ "/status", updated)).

End Pdb.

(** ** The decision *)

Lemma count_if_app f l1 l2 : count_if f (l1 ++ l2) = count_if f l1 + count_if f l2.
Proof. unfold count_if. rewrite List.filter_app, length_app. lia. Qed.

Lemma count_if_one f v : 0 ≤ count_if f [v] ≤ 1.
Proof. unfold count_if. cbn [List.filter]. destruct (f v); cbn [List.length]; lia. Qed.

Lemma count_if_nonneg f l : 0 ≤ count_if f l.
Proof. unfold count_if. lia. Qed.

Lemma f64_to_i64_le f : f64_to_i64 f ≤ i64_max.
Proof.
  assert (∀ m e, 0 ≤ mag_trunc m e) as Hm by (intros; unfold mag_trunc; apply Z.shiftl_nonneg; lia).
  unfold f64_to_i64. destruct f as [|[]| |[] m e]; unfold i64_max, i64_min; try specialize (Hm m e); lia.
Qed.

Lemma parse_i64_le s n : parse_i64 s = Some n → n ≤ i64_max.
Proof.
  unfold parse_i64, parse_signed. intros H.
  assert (parse_unsigned i64_max s = Some n → n ≤ i64_max) as Hu.
  { unfold parse_unsigned. destruct (parse_digits _) as [d|]; [|done]. destruct (Z.leb_spec d i64_max); [|done]. by intros [= <-]. }
  assert (∀ t, match parse_digits t with Some n => if i64_min <=? - n then Some (- n) else None | None => None end = Some n → n ≤ i64_max) as Hn.
  { intros t. destruct (parse_digits t) as [d|] eqn:E; [|done]. destruct (i64_min <=? - d); [|done]. intros [= <-].
    assert (0 ≤ d) by (destruct t; [done|]; cbn [parse_digits] in E; apply parse_digits_go_bounds in E as [_ E]; lia). unfold i64_max. lia. }
  destruct s as [|[[] [] [] [] [] [] [] []] t]; try by apply Hu. by apply (Hn t).
Qed.

Lemma intstr_to_count_i64 v total n : intstr_to_count v total = Some n → wf_value v = true → n ≤ i64_max.
Proof.
  unfold intstr_to_count. intros H Hw. destruct v as [|b|[z|z|f]|s|l|m]; cbn [is_null as_i64 as_str] in H; try done.
  - destruct (Z.leb_spec z i64_max); [injection H as <-; lia|done].
  - injection H as <-. cbn [wf_value number_wf] in Hw. apply andb_prop in Hw as [_ Hw]. apply Z.ltb_lt in Hw.
    unfold i64_max. lia.
  - destruct (strip_suffix "%" s ≫= parse_f64); [injection H as <-; apply f64_to_i64_le|by eapply parse_i64_le].
Qed.

Lemma wrap_i64_range z : i64_min ≤ wrap_i64 z ≤ i64_max.
Proof. unfold wrap_i64, i64_min, i64_max. pose proof (Z.mod_pos_bound (z + 9223372036854775808) 18446744073709551616). lia. Qed.

Lemma desired_i64 spec total : wf_value spec = true → desired_healthy spec total ≤ i64_max.
Proof.
  intros Hw. unfold desired_healthy. destruct (intstr_to_count spec.["minAvailable"] total) as [n|] eqn:E.
  - eapply intstr_to_count_i64; [done|]. by apply wf_index.
  - destruct (intstr_to_count spec.["maxUnavailable"] total); [apply wrap_i64_range|unfold i64_min, i64_max; lia].
Qed.

(** A positive difference, as [i64], is a real one. *)
Lemma wrap_positive h d : 0 ≤ h → d ≤ i64_max → 0 < wrap_i64 (h - d) → d + 1 ≤ h.
Proof.
  unfold wrap_i64, i64_max. intros Hh Hd Hw. destruct (Z_le_gt_dec (d + 1) h); [done|].
  rewrite Z.mod_small in Hw by lia. lia.
Qed.

Lemma map_remove_split {A} (m : BTreeMap A) k x :
  map_get m k = Some x → ∃ l1 l2, m = (l1 ++ (k, x) :: l2)%list ∧ map_remove m k = (l1 ++ l2)%list.
Proof.
  induction m as [|[k' v] m IH]; [done|]. cbn. destruct (str_eqb k k') eqn:E.
  - intros [= ->]. apply str_eqb_eq in E as ->. by exists [], m.
  - intros H. destruct (IH H) as (l1 & l2 & -> & ->). by exists ((k', v) :: l1), l2.
Qed.

Lemma decode_items_join `{JsonCodec} l1 l2 v1 v2 :
  decode_items l1 = Some (Ok v1) → decode_items l2 = Some (Ok v2) → decode_items (l1 ++ l2) = Some (Ok (v1 ++ v2)%list).
Proof.
  revert v1. induction l1 as [|[[k b] r] l1 IH]; intros v1; cbn [decode_items app]; [by intros [= <-]|].
  destruct (decode_at b r) as [[v|e]|]; cbn [mbind option_bind]; try done.
  destruct (decode_items l1) as [[ws|e]|]; cbn [mbind option_bind]; try done. intros [= <-] H2.
  by rewrite (IH ws eq_refl H2).
Qed.

(** A selector without expressions means the same to both. *)
Definition labels_only (selector : Value) : bool :=
  is_object selector && match Json.get selector "matchExpressions" ≫= as_array with Some (_ :: _) => false | _ => true end.

Lemma labels_only_agree selector labels :
  labels_only selector = true → Pdb.selector_matches selector labels = selector_matches selector labels.
Proof.
  unfold labels_only, Pdb.selector_matches, LabelSelector.matches, selector_matches. intros [Ho He]%andb_prop.
  rewrite Ho. destruct selector; try done. cbn [is_null negb].
  assert (forallb (λ e, LabelSelector.expr_ok e labels) (default [] (Json.get (Object m) "matchExpressions" ≫= as_array)) = true) as ->.
  { destruct (Json.get (Object m) "matchExpressions" ≫= as_array) as [[]|]; done. }
  rewrite andb_true_r. destruct (Json.get (Object m) "matchLabels" ≫= as_object) as [ml|]; [|done]. cbn [default from_option id].
  induction ml as [|[k v] ml IH]; [done|]. cbn [forallb]. rewrite IH. by destruct labels.
Qed.

(** The Pods a budget covers, by the selector every other part of the system
    reads; the healthy ones among them, and how many it wants of them. *)
Definition covers (pdb pod : Value) : bool := LabelSelector.matches pdb.["spec"].["selector"] pod.["metadata"].["labels"].
Definition healthy_under (pdb : Value) (pods : list Value) : Z := count_if (λ p, covers pdb p && is_ready p) pods.
Definition wanted_under (pdb : Value) (pods : list Value) : Z := desired_healthy pdb.["spec"] (count_if (covers pdb) pods).

Lemma covers_selected pdb pod : labels_only pdb.["spec"].["selector"] = true → covers pdb pod = selected pdb pod.
Proof. intros H. by apply labels_only_agree. Qed.

Lemma covers_counts pdb pods :
  labels_only pdb.["spec"].["selector"] = true →
  healthy_under pdb pods = current_healthy pdb pods ∧ wanted_under pdb pods = asked pdb pods.
Proof.
  intros H. unfold healthy_under, current_healthy, wanted_under, asked, expected_pods, count_if. split.
  - do 2 f_equal. apply List.filter_ext. intros p. by rewrite covers_selected.
  - do 3 f_equal. apply List.filter_ext. intros p. by rewrite covers_selected.
Qed.

Lemma decode_items_in `{JsonCodec} l vs k b r v :
  decode_items l = Some (Ok vs) → (k, b, r) ∈ l → decode_at b r = Some (Ok v) → v ∈ vs.
Proof.
  revert vs. induction l as [|[[k' b'] r'] l IH]; intros vs; [by intros _ ?%not_elem_of_nil|]. cbn [decode_items].
  destruct (decode_at b' r') as [[v'|e]|] eqn:Ed; cbn [mbind option_bind]; try done.
  destruct (decode_items l) as [[ws|e]|]; cbn [mbind option_bind]; try done. intros [= <-] [[= -> -> ->]|Hin]%elem_of_cons Hv; [|right; by eapply IH].
  rewrite Ed in Hv. injection Hv as ->. left.
Qed.

Section Decision.
  Context {S : Type} `{HL : KvStoreLaws S} `{JsonCodec}.
  Variable h_eviction : Value → result Value ApiError.
  Implicit Types (s : S).

Lemma check_budgets_alone s ns pod pdbs w r :
  check_budgets ns pod pdbs (mkWorld s []) = (w, r) →
  w = mkWorld s [] ∧
  (r = Some (Ok None) → ∀ pdb, pdb ∈ pdbs → selected pdb pod = true →
     ∃ page, list_page s (namespace_prefix "pods" ns) 5000 None = Some (Ok page) ∧ 0 < allowed_of pdb (lp_items page)).
Proof.
  revert w r. induction pdbs as [|pdb pdbs IH]; intros w r; cbn [check_budgets]; [intros [= <- <-]; split; [done|]; set_solver|].
  destruct (selected pdb pod) eqn:Es; cbn [negb].
  - unfold disruptions_allowed, mthen, s_list, mret. cbn [st others meanwhile].
    destruct (list_page s _ 5000 None) as [[page|e]|] eqn:El; [|by intros [= <- <-]..].
    destruct (allowed_of pdb (lp_items page) <=? 0) eqn:Ea; [by intros [= <- <-]|]. intros E.
    destruct (IH _ _ E) as [-> HI]. split; [done|]. intros Hr pdb' [->|Hin]%elem_of_cons Hs; [exists page; split; [done|lia]|].
    destruct (HI Hr pdb' Hin Hs) as (page' & Hp' & Hpos). assert (page' = page) as -> by congruence. by exists page.
  - intros E. destruct (IH _ _ E) as [-> HI]. split; [done|]. intros Hr pdb' [->|Hin]%elem_of_cons Hs; [congruence|by apply HI].
Qed.

(** A page that is large enough holds every object of the prefix. *)
Lemma page_complete s prefix limit key b r v page :
  kv_wf s → serving s → listable prefix → 0 < limit ≤ i64_max →
  (Z.of_nat (List.length (matching (view s) prefix None)) ≤ limit) →
  list_page s prefix limit None = Some (Ok page) →
  map_get (view s) key = Some (b, r) → starts_with key prefix = true → decode_at b r = Some (Ok v) → v ∈ lp_items page.
Proof.
  intros Hwf Hs Hp Hlim Hfit. unfold list_page, list_pinned. rewrite !list_now by (done || lia). cbn [page_of lr_items]. unfold take_limit.
  replace (limit =? 0) with false by lia. rewrite !take_ge by lia.
  destruct (decode_items _) as [[vs|e]|] eqn:Ed; [|done..]. cbn [mbind option_bind]. intros [= <-]. cbn [lp_items]. intros Hk Hpre Hv.
  eapply decode_items_in; [exact Ed| |exact Hv]. destruct (map_remove_split _ _ _ Hk) as (l1 & l2 & Em & _).
  unfold matching. rewrite Em, List.filter_app, to_items_app. apply elem_of_app. right. cbn. rewrite Hpre. cbn. left.
Qed.

(** Removing one key of a listing removes one object. *)
Lemma list_after_delete s s' prefix limit key x page :
  kv_wf s → serving s → kv_wf s' → serving s' → listable prefix → 0 < limit ≤ i64_max →
  (Z.of_nat (List.length (matching (view s) prefix None)) ≤ limit) →
  map_get (view s) key = Some x → starts_with key prefix = true → view s' = map_remove (view s) key →
  list_page s prefix limit None = Some (Ok page) →
  ∃ v1 v v2 page', lp_items page = (v1 ++ v :: v2)%list ∧
    list_page s' prefix limit None = Some (Ok page') ∧ lp_items page' = (v1 ++ v2)%list.
Proof.
  intros Hwf Hs Hwf' Hs' Hp Hlim Hfit Hk Hpre Hv. unfold list_page, list_pinned.
  rewrite !list_now by (done || lia). cbn [page_of lr_items]. unfold take_limit.
  replace (limit =? 0) with false by lia. destruct (map_remove_split _ _ _ Hk) as (l1 & l2 & Em & Er).
  assert (matching (view s) prefix None = (matching l1 prefix None ++ (key, x) :: matching l2 prefix None)%list) as Ea.
  { unfold matching. rewrite Em, List.filter_app. cbn. by rewrite Hpre. }
  assert (matching (view s') prefix None = (matching l1 prefix None ++ matching l2 prefix None)%list) as Ea'.
  { unfold matching. by rewrite Hv, Er, List.filter_app. }
  rewrite Ea in Hfit |- *. rewrite Ea'. rewrite length_app in Hfit. cbn in Hfit.
  rewrite !take_ge by (rewrite ?length_app; cbn; lia). rewrite !to_items_app.
  change (to_items ((key, x) :: matching l2 prefix None)) with ((key, x.1, x.2) :: to_items (matching l2 prefix None)).
  destruct (decode_items _) as [[vs|e]|] eqn:Ed; [|done..]. cbn [mbind option_bind]. intros [= <-]. cbn [lp_items].
  apply decode_items_app in Ed as (v1 & v2' & Hd1 & Hd2 & ->). cbn [decode_items] in Hd2.
  destruct (decode_at _ _) as [[v|e]|]; [|done..]. cbn [mbind option_bind] in Hd2.
  destruct (decode_items (to_items (matching l2 prefix None))) as [[v2|e]|] eqn:E2; [|done..]. injection Hd2 as <-.
  rewrite (decode_items_join _ _ v1 v2 Hd1 E2). cbn [mbind option_bind]. eexists v1, v, v2, _. by split_and!.
Qed.
End Decision.

Lemma key_in_namespace r ns n : starts_with (namespaced_key r ns n) (namespace_prefix r ns) = true.
Proof.
  apply starts_with_spec. exists n. unfold namespaced_key, namespace_prefix. by rewrite <- !str_app_assoc.
Qed.

Section Evictions.
  Context {S : Type} `{HL : KvStoreLaws S} `{JsonCodec}.
  Variable h_eviction : Value → result Value ApiError.
  Implicit Types (s : S).

Lemma check_budgets_refuses s ns pod pdbs w pdb :
  check_budgets ns pod pdbs (mkWorld s []) = (w, Some (Ok (Some pdb))) →
  pdb ∈ pdbs ∧ selected pdb pod = true ∧
  ∃ page, list_page s (namespace_prefix "pods" ns) 5000 None = Some (Ok page) ∧ allowed_of pdb (lp_items page) ≤ 0.
Proof.
  revert w. induction pdbs as [|p pdbs IH]; intros w; cbn [check_budgets]; [done|].
  destruct (selected p pod) eqn:Es; cbn [negb].
  - unfold disruptions_allowed, mthen, s_list, mret. cbn [st others meanwhile].
    destruct (list_page s _ 5000 None) as [[page|e]|] eqn:El; [|done..].
    destruct (allowed_of p (lp_items page) <=? 0) eqn:Ea.
    + intros [= <- <-]. split_and!; [left|done|]. exists page. split; [done|lia].
    + intros (? & ? & pg & Hpg & ?)%IH. split_and!; [by right|done|]. by exists pg.
  - intros (? & ? & ?)%IH. split_and!; [by right|done..].
Qed.

Lemma allowed_leaves pdb pods v1 v v2 :
  wf_value pdb = true → pods = (v1 ++ v :: v2)%list → 0 < allowed_of pdb pods →
  asked pdb pods ≤ current_healthy pdb (v1 ++ v2).
Proof.
  intros Hw E Ha. unfold allowed_of in Ha. apply wrap_positive in Ha.
  - unfold current_healthy in Ha. rewrite E in Ha at 2. rewrite count_if_app in Ha. cbn [app] in Ha.
    change (v :: v2) with ([v] ++ v2)%list in Ha. rewrite count_if_app in Ha. unfold current_healthy. rewrite count_if_app.
    pose proof (count_if_one (λ p, selected pdb p && is_ready p) v). lia.
  - apply count_if_nonneg.
  - by apply desired_i64, wf_index.
Qed.

(** C14: an eviction that goes through keeps every disruption budget by labels,
    and one that is refused changes nothing.  With no other writer, at most
    5000 Pods and 1000 budgets in the namespace: a Created answer means that
    the store lost exactly the Pod, and for every stored budget that covers it
    by a selector without expressions (the handler does not read
    [matchExpressions], see [EvictionGaps]) the healthy Pods it covers
    afterwards are at least as many as it wanted, of those it covered, before;
    a 429 answer names a budget whose labels select the Pod and that permits
    no disruption by the handler's count, and the store is as it was. *)
Theorem eviction_respects_budgets s ns name body w resp :
  kv_wf s → serving s → rev_room (revision s) →
  listable (namespace_prefix "pods" ns) → listable (namespace_prefix "poddisruptionbudgets" ns) →
  Z.of_nat (List.length (matching (view s) (namespace_prefix "pods" ns) None)) ≤ 5000 →
  Z.of_nat (List.length (matching (view s) (namespace_prefix "poddisruptionbudgets" ns) None)) ≤ 1000 →
  create_eviction h_eviction ns name body (mkWorld s []) = (w, Some (Ok resp)) →
  ∃ pod, get s (namespaced_key "pods" ns name) = Some (Ok pod) ∧
    match resp with
    | Created _ =>
        view (st w) = map_remove (view s) (namespaced_key "pods" ns name) ∧
        ∀ key b r pdb, map_get (view s) key = Some (b, r) → starts_with key (namespace_prefix "poddisruptionbudgets" ns) = true →
          decode_at b r = Some (Ok pdb) → wf_value pdb = true → labels_only pdb.["spec"].["selector"] = true → covers pdb pod = true →
          ∃ before after, list_page s (namespace_prefix "pods" ns) 5000 None = Some (Ok before) ∧
            list_page (st w) (namespace_prefix "pods" ns) 5000 None = Some (Ok after) ∧
            wanted_under pdb (lp_items before) ≤ healthy_under pdb (lp_items after)
    | TooManyRequests status =>
        st w = s ∧
        ∃ pdbs pdb page, list_page s (namespace_prefix "poddisruptionbudgets" ns) 1000 None = Some (Ok pdbs) ∧
          pdb ∈ lp_items pdbs ∧ selected pdb pod = true ∧ status = too_many ns pdb ∧
          list_page s (namespace_prefix "pods" ns) 5000 None = Some (Ok page) ∧ allowed_of pdb (lp_items page) ≤ 0
    end.
Proof.
  intros Hwf Hs Hroom Hl Hlb Hfit Hfitb E. unfold create_eviction in E.
  apply mthen_Ok in E as (w1 & pod & E1 & E). unfold s_get in E1. cbn [meanwhile st others] in E1. injection E1 as <- Hpod.
  apply mthen_Ok in E as (w2 & ev & E2 & E). unfold mlift in E2.
  destruct (h_eviction _); [|done]. injection E2 as <- _.
  apply mthen_Ok in E as (w3 & pdbs & E3 & E). unfold s_list in E3. cbn [meanwhile st others] in E3. injection E3 as <- Hpdbs.
  exists pod. split; [done|]. apply mthen_Ok in E as (w4 & refusing & E4 & E).
  destruct (check_budgets_alone s ns pod (lp_items pdbs) w4 _ E4) as [-> Hall]. destruct refusing as [pdb|].
  - injection E as <- <-. split; [done|]. destruct (check_budgets_refuses _ _ _ _ _ _ E4) as (? & ? & page & ? & ?). by exists pdbs, pdb, page.
  - apply mthen_Ok in E as (w5 & u & E5 & E). injection E as <- <-. unfold s_delete in E5. cbn [meanwhile st others] in E5. unfold delete in E5.
    destruct (delete_ok s (namespaced_key "pods" ns name) None Hwf Hs Hroom I) as (s' & Hd & Hwf' & Hs' & _ & Hv & _).
    rewrite Hd in E5. injection E5 as <- _. cbn [st]. split; [done|]. intros key b r pdb Hkey Hpre Hdec Hw Hlo Hsel.
    assert (pdb ∈ lp_items pdbs) as Hin by (by eapply (page_complete s _ 1000 key b r pdb pdbs)).
    rewrite covers_selected in Hsel by done. destruct (Hall eq_refl pdb Hin Hsel) as (page & Hp & Hpos).
    assert (is_Some (map_get (view s) (namespaced_key "pods" ns name))) as [bx Hx].
    { unfold get in Hpod. rewrite get_ok in Hpod by done. destruct (map_get _ (namespaced_key "pods" ns name)) as [[b0 r0]|]; [by eexists|done]. }
    destruct (list_after_delete s s' (namespace_prefix "pods" ns) 5000 (namespaced_key "pods" ns name) bx page)
      as (v1 & v & v2 & page' & Ei & Hp' & Ei'); try done; [apply key_in_namespace|].
    exists page, page'. split_and!; [done..|]. rewrite (proj2 (covers_counts _ _ Hlo)), (proj1 (covers_counts _ _ Hlo)), Ei'.
    by eapply allowed_leaves.
Qed.
End Evictions.

(** ** The report *)

Lemma filter_twice {A} (f g : A → bool) l : List.filter g (List.filter f l) = List.filter (λ x, f x && g x) l.
Proof. induction l as [|x l IH]; [done|]. cbn. destruct (f x); cbn; [destruct (g x); by rewrite ?IH|done]. Qed.

Lemma as_i64_num z : z ≤ i64_max → as_i64 (num_i64 z) = Some z.
Proof. intros H. unfold num_i64. destruct (Z.ltb_spec z 0); cbn [as_i64]; [done|]. by rewrite (proj2 (Z.leb_le _ _) H). Qed.

Lemma no_floats_num z : no_floats (num_i64 z) = true.
Proof. unfold num_i64. by destruct (z <? 0). Qed.

Lemma no_floats_obj l : forallb (λ kv : string * Value, no_floats kv.2) l = true → no_floats (json_obj l) = true.
Proof.
  intros Hl. unfold json_obj. cbn [no_floats].
  assert (∀ m : Map, forallb (λ kv, no_floats kv.2) m = true →
    forallb (λ kv, no_floats kv.2) (fold_left (λ m kv, map_insert m kv.1 kv.2) l m) = true) as H; [|by apply H].
  induction l as [|[k v] l IH]; intros m Hm; [done|]. cbn in *. apply andb_prop in Hl as [Hv Hl]. apply IH; [done|].
  by apply forallb_insert.
Qed.

(** what a budget reports is what an eviction decides by.  For a selector
    without expressions, over the same Pods, the status the controller writes
    has the counts the eviction handler computes, [disruptionsAllowed] is its
    number cut off at zero, so it reads zero exactly when an eviction would be
    refused; and writing the status makes the next pass write nothing. *)
Theorem budget_report_agrees pdb pods path updated :
  labels_only pdb.["spec"].["selector"] = true →
  Pdb.reconcile_pdb pdb pods = Some (Some (path, updated)) →
  let status := updated.["status"] in
  (status.["currentHealthy"] = num_i64 (current_healthy pdb pods) ∧
   status.["expectedPods"] = num_i64 (expected_pods pdb pods) ∧
   status.["desiredHealthy"] = num_i64 (asked pdb pods) ∧
   as_i64 status.["disruptionsAllowed"] = Some (Z.max (allowed_of pdb pods) 0)) ∧
  (as_i64 status.["disruptionsAllowed"] = Some 0 ↔ allowed_of pdb pods ≤ 0) ∧
  Pdb.reconcile_pdb updated pods = Some None.
Proof.
  intros Hl Hr. unfold Pdb.reconcile_pdb in Hr. destruct (set_index pdb "status" (Pdb.pdb_status pdb pods)) as [u|] eqn:Eu; [|done].
  cbn [mbind option_bind] in Hr. destruct (value_eqb _ _); [done|]. injection Hr as _ <-. cbn zeta.
  rewrite (index_set_index _ _ _ _ Eu).
  assert (List.filter (λ p, Pdb.selector_matches pdb.["spec"].["selector"] p.["metadata"].["labels"]) pods
          = List.filter (selected pdb) pods) as Ef.
  { apply List.filter_ext. intros p. unfold selected. by apply labels_only_agree. }
  assert (count_if is_ready (List.filter (selected pdb) pods) = current_healthy pdb pods) as Eh.
  { unfold count_if, current_healthy, count_if. by rewrite filter_twice. }
  assert (as_i64 (Pdb.pdb_status pdb pods).["disruptionsAllowed"] = Some (Z.max (allowed_of pdb pods) 0)) as Ed.
  { change ((Pdb.pdb_status pdb pods).["disruptionsAllowed"]) with
      (let F := List.filter (λ p, Pdb.selector_matches pdb.["spec"].["selector"] p.["metadata"].["labels"]) pods in
       num_i64 (Z.max (wrap_i64 (count_if is_ready F - desired_healthy pdb.["spec"] (Z.of_nat (List.length F)))) 0)).
    cbn zeta. rewrite Ef, Eh. change (desired_healthy _ _) with (asked pdb pods). fold (allowed_of pdb pods).
    rewrite as_i64_num; [done|]. pose proof (wrap_i64_range (current_healthy pdb pods - asked pdb pods)).
    unfold allowed_of, i64_max in *. lia. }
  split; [|split].
  - split_and!; [..|done]; unfold Pdb.pdb_status; cbn zeta; rewrite ?Ef, ?Eh; done.
  - rewrite Ed. split; [intros [= H]; lia|intros H; f_equal; lia].
  - unfold Pdb.reconcile_pdb. assert (Pdb.pdb_status u pods = Pdb.pdb_status pdb pods) as Es.
    { unfold Pdb.pdb_status. pose proof (index_set_index_ne pdb "status" _ u "spec" ltac:(done) Eu) as ->.
      by pose proof (index_set_index_ne pdb "status" _ u "metadata" ltac:(done) Eu) as ->. }
    rewrite Es, (set_index_twice _ _ _ _ _ Eu), Eu. cbn [mbind option_bind].
    rewrite (index_set_index _ _ _ _ Eu). replace (value_eqb _ _) with true; [done|]. symmetry. apply value_eqb_eq; [|done].
    unfold Pdb.pdb_status. cbn zeta. apply no_floats_obj. cbn [forallb snd]. by rewrite !no_floats_num.
Qed.

(** *** Witnesses *)

Module EvictDemo.

#[export] Instance codec : JsonCodec := tagged_codec.

Definition pod (n app : string) : Value :=
  json_obj [("kind", Str "Pod");
            ("metadata", json_obj [("name", Str n); ("namespace", Str "d"); ("labels", json_obj [("app", Str app)])]);
            ("status", json_obj [("conditions", Array [json_obj [("type", Str "Ready"); ("status", Str "True")]])])].

Definition budget (selector : Value) (min : Value) : Value :=
  json_obj [("kind", Str "PodDisruptionBudget"); ("metadata", json_obj [("name", Str "b"); ("namespace", Str "d")]);
            ("spec", json_obj [("selector", selector); ("minAvailable", min)])].

Definition by_label : Value := json_obj [("matchLabels", json_obj [("app", Str "web")])].

Definition store_with (b : Value) : MemStore.t :=
  let put k o s := (create Demo.floats s k o).1 in
  put (namespaced_key "pods" "d" "x") (pod "x" "web")
    (put (namespaced_key "pods" "d" "y") (pod "y" "web") (put (namespaced_key "poddisruptionbudgets" "d" "b") b Demo.store0)).

(** Two Pods, of which half must stay. *)
Definition s0 : MemStore.t := Eval vm_compute in store_with (budget by_label (Str "50%")).

Lemma s0_wf : kv_wf s0.
Proof. split_and!; try done. intros k v r H. repeat (cbn in H; case_match; [injection H as <- <-; cbn; lia|]). done. Qed.

Definition no_hooks (v : Value) : result Value ApiError := Ok v.

(** Evicting [n] with nobody else about. *)
Definition evict (n : string) (s : MemStore.t) : World MemStore.t * option (result Response ApiError) :=
  create_eviction no_hooks "d" n None (mkWorld s []).

Definition s1 : MemStore.t := Eval vm_compute in st (evict "x" s0).1.

End EvictDemo.

#[local] Existing Instance EvictDemo.codec.

Lemma eviction_respects_budgets_witness :
  view EvictDemo.s1 = map_remove (view EvictDemo.s0) (namespaced_key "pods" "d" "x") ∧
  ∃ e, (EvictDemo.evict "y" EvictDemo.s1).2 = Some (Ok (TooManyRequests e)).
Proof.
  split; [|eexists; vm_compute; reflexivity].
  destruct (eviction_respects_budgets EvictDemo.no_hooks EvictDemo.s0 "d" "x" None (mkWorld EvictDemo.s1 [])
    (Created (eviction_of "d" "x"))) as (pod & _ & H & _); [apply EvictDemo.s0_wf|done|done| | | | | |exact H].
  - split; [done|]. vm_compute. reflexivity.
  - split; [done|]. vm_compute. reflexivity.
  - vm_compute. discriminate.
  - vm_compute. discriminate.
  - vm_compute. reflexivity.
Defined.

Lemma budget_report_agrees_witness :
  ∃ path updated, Pdb.reconcile_pdb (EvictDemo.budget EvictDemo.by_label (Str "50%")) [EvictDemo.pod "x" "web"; EvictDemo.pod "y" "web"]
    = Some (Some (path, updated)) ∧ as_i64 updated.["status"].["disruptionsAllowed"] = Some 1.
Proof.
  eexists _, _. split; [vm_compute; reflexivity|].
  destruct (budget_report_agrees (EvictDemo.budget EvictDemo.by_label (Str "50%")) [EvictDemo.pod "x" "web"; EvictDemo.pod "y" "web"] _ _
    eq_refl ltac:(vm_compute; reflexivity)) as ((_ & _ & _ & H) & _). rewrite H. vm_compute. reflexivity.
Defined.

(** ** What is not kept *)

Module EvictionGaps.

(** Two evictions at once: the second runs between the first's count and its
    delete.  Each sees one disruption allowed, both go through, and the budget
    of 50% is left with no Pod at all. *)
Example concurrent_evictions_break_budget :
  let other s := st (EvictDemo.evict "y" s).1 in
  let '(w, r) := create_eviction EvictDemo.no_hooks "d" "x" None
                   (mkWorld EvictDemo.s0 [id; id; id; other]) in
  r = Some (Ok (Created (eviction_of "d" "x"))) ∧ matching (view (st w)) (namespace_prefix "pods" "d") None = [].
Proof. vm_compute. split; reflexivity. Qed.

(** The handler does not read [matchExpressions]: a budget that selects no Pod
    of the kind evicted (its expression excludes it) still blocks it, while
    the controller reports on the Pods the expression selects. *)
Example expressions_ignored :
  let selector := json_obj [("matchExpressions", Array [json_obj [("key", Str "app"); ("operator", Str "In"); ("values", Array [Str "db"])]])] in
  selected (EvictDemo.budget selector (Num (PosInt 2))) (EvictDemo.pod "x" "web") = true ∧
  Pdb.selector_matches selector (EvictDemo.pod "x" "web").["metadata"].["labels"] = false.
Proof. split; vm_compute; reflexivity. Qed.

(** The comment says the delete is graceful; it removes the Pod at once,
    finalizers and all. *)
Example finalizers_skipped :
  let p := default Null (set_index2 (EvictDemo.pod "x" "web") "metadata" "finalizers" (Array [Str "example.com/hold"])) in
  let s := (create Demo.floats Demo.store0 (namespaced_key "pods" "d" "x") p).1 in
  map_get (view (st (EvictDemo.evict "x" s).1)) (namespaced_key "pods" "d" "x") = None.
Proof. vm_compute. reflexivity. Qed.

End EvictionGaps.
