(* ===== verification/Admission.v ===== *)
(** * Built-in admission ([pkg/apiserver/src/builtin_admission.rs])

    What the API server itself changes in, or refuses of, an object that is
    created or updated.  [base64] and [json_text] are the encodings of the
    [base64] and [serde_json] crates, [debug] the [{:?}] text of a string. *)

From Stdlib Require Import ZArith Lia String Ascii.
From stdpp Require Import base gmap strings numbers option list.
From S2P Require Import Prelude Text BTree Json F64 Quantity Store ApiError Codec Storage Effect.
Open Scope string_scope.
Open Scope kube_scope.
Open Scope Z_scope.

(** ** Secrets *)

Section Secrets.
  Variables (base64 : string → string) (json_text : Value → string).

Definition string_data_text (v : Value) : string :=
  match v with Str s => s | Null => "" | other => json_text other end.

Fixpoint fold_entries (obj : Value) (entries : Map) : option Value :=
  match entries with
  | [] => Some obj
  | (k, v) :: entries => obj ← set_index2 obj "data" k (Str (base64 (string_data_text v))); fold_entries obj entries
  end.

(** The object, and whether it changed; [None] is a panic. *)
Definition fold_string_data (obj : Value) : option (Value * bool) :=
  match obj with
  | Object m =>
      match map_get m "stringData" with
      | None => Some (obj, false)
      | Some string_data =>
          let obj := Object (map_remove m "stringData") in
          match string_data with
          | Object entries =>
              obj ← (if is_object obj.["data"] then Some obj else set_index obj "data" (Object []));
              obj ← fold_entries obj entries;
              Some (obj, true)
          | _ => Some (obj, true)
          end
      end
  | _ => Some (obj, false)
  end.
End Secrets.

(** ** Services *)

Definition unset_str (v : Value) : bool := match as_str v with Some s => is_empty_str s | None => true end.

(** [if unset(&spec[k]) { spec[k] = v }]. *)
Definition default_field (spec : Value) (k v : string) : option Value :=
  if unset_str spec.[k] then set_index spec k (Str v) else Some spec.

Definition default_service_spec (obj : Value) : option Value :=
  obj ← (if is_object obj.["spec"] then Some obj else set_index obj "spec" (Object []));
  spec ← default_field obj.["spec"] "type" "ClusterIP";
  let external_name := str_is spec.["type"] "ExternalName" in
  spec ← default_field spec "sessionAffinity" "None";
  spec ← (if external_name then Some spec
          else
            spec ← default_field spec "internalTrafficPolicy" "Cluster";
            spec ← default_field spec "ipFamilyPolicy" "SingleStack";
            match as_array spec.["ipFamilies"] with
            | Some (_ :: _) => Some spec
            | _ => set_index spec "ipFamilies" (Array [Str "IPv4"])
            end);
  set_index obj "spec" spec.

Definition default_service_port (p : Value) : option Value :=
  p ← match as_str p.["protocol"] with Some _ => Some p | None => set_index p "protocol" (Str "TCP") end;
  if is_null p.["targetPort"] then
    match as_i64 p.["port"] with
    | Some port => set_index p "targetPort" (num_i64 port)
    | None => Some p
    end
  else Some p.

Definition default_service_ports (obj : Value) : option Value :=
  obj ← default_service_spec obj;
  obj ← touch2 obj "spec" "ports";
  match as_array obj.["spec"].["ports"] with
  | None => Some obj
  | Some ports => ports ← mapM default_service_port ports; set_index2 obj "spec" "ports" (Array ports)
  end.

(** ** Jobs *)

Definition is_lower_ascii (c : ascii) : bool := let n := Z.of_N (N_of_ascii c) in (97 <=? n) && (n <=? 122).
Definition is_upper_ascii (c : ascii) : bool := let n := Z.of_N (N_of_ascii c) in (65 <=? n) && (n <=? 90).

Definition ends_with (s p : string) : bool := match strip_suffix p s with Some _ => true | None => false end.

Definition is_dns_label (l : string) : bool :=
  negb (is_empty_str l) && Nat.leb (String.length l) 63
  && str_forall (λ c, is_lower_ascii c || is_ascii_digit c || Ascii.eqb c "-") l
  && negb (starts_with l "-") && negb (ends_with l "-").

Definition is_subdomain (h : string) : bool :=
  negb (is_empty_str h) && Nat.leb (String.length h) 253 && forallb is_dns_label (split_on "." h).

Definition is_path_char (c : ascii) : bool :=
  is_lower_ascii c || is_upper_ascii c || is_ascii_digit c || str_contains_char c "/-._~%!$&'()*+,;=:".

Definition job_managed_by (debug : string → string) (old : option Value) (new : Value) : result unit ApiError :=
  let value := new.["spec"].["managedBy"] in
  match old with
  | Some old =>
      if value_eqb old.["spec"].["managedBy"] value then Ok tt
      else
        let shown := match as_str value with Some s => debug s | None => "null" end in
        Err (invalid ("spec.managedBy: Invalid value: " ++ shown ++ ": field is immutable"))
  | None =>
      match as_str value with
      | None => if is_null value then Ok tt else Err (invalid "spec.managedBy: Invalid value: must be a string")
      | Some m =>
          if Nat.ltb 63 (String.length m) then Err (invalid "spec.managedBy: Too long: may not be more than 63 bytes")
          else
            let ok := match split_once "/" m with
                      | Some (host, path) => is_subdomain host && negb (is_empty_str path) && str_forall is_path_char path
                      | None => false
                      end in
            if ok then Ok tt
            else Err (invalid ("spec.managedBy: Invalid value: " ++ debug m ++ ": must be a domain-prefixed path (such as "
                               ++ quoted "acme.io/foo" ++ ")"))
      end
  end.

(** ** Pods *)

Definition gate_names (p : Value) : list string := omap (λ g, as_str g.["name"]) (items p.["spec"].["schedulingGates"]).

Definition pod_gates_update (old new : Value) : result unit ApiError :=
  match List.find (λ g, negb (str_in g (gate_names old))) (gate_names new) with
  | Some added =>
      Err (invalid ("spec.schedulingGates: Forbidden: only deletion is allowed, but found new scheduling gate '" ++ added ++ "'"))
  | None => Ok tt
  end.

(** ** PersistentVolumeClaims *)

Definition SPEC_IMMUTABLE : string :=
  "spec: Forbidden: spec is immutable after creation except resources.requests and volumeAttributesClassName for bound claims".

(** The part of a claim's spec an update may not change, given the old claim. *)
Definition immutable_spec (old spec : Value) : Value :=
  match spec with
  | Object m =>
      let m := map_remove (map_remove m "resources") "volumeAttributesClassName" in
      let m := if contains_key m "volumeMode" then m else map_insert m "volumeMode" (Str "Filesystem") in
      let m := if is_empty_str (str_or "" old.["spec"].["volumeName"]) then map_remove m "volumeName" else m in
      let m := if is_null old.["spec"].["storageClassName"] then map_remove m "storageClassName" else m in
      Object (List.filter (λ kv, negb (is_null kv.2)) m)
  | v => v
  end.

Definition without_storage (r : Value) : option Value := r ← touch r "requests"; Some (remove_at r "requests" "storage").

Definition amount_of (v : Value) : Z := match as_str v with Some s => parse_bytes s | None => 0 end.

(** [Ok true]: the storage request grew. *)
Definition pvc_update_valid (old new : Value) : option (result bool ApiError) :=
  if negb (value_eqb (immutable_spec old old.["spec"]) (immutable_spec old new.["spec"])) then Some (Err (invalid SPEC_IMMUTABLE))
  else
    let or := old.["spec"].["resources"] in
    let nr := new.["spec"].["resources"] in
    if value_eqb or nr then Some (Ok false)
    else if negb (str_is old.["status"].["phase"] "Bound") then Some (Err (invalid SPEC_IMMUTABLE))
    else
      o ← without_storage or;
      n ← without_storage nr;
      if negb (value_eqb o n)
      then Some (Err (invalid "spec.resources: Forbidden: only resources.requests.storage may be changed"))
      else
        let was := amount_of or.["requests"].["storage"] in
        let now := amount_of nr.["requests"].["storage"] in
        let has := amount_of old.["status"].["capacity"].["storage"] in
        if (now <? was) && (now <? has)
        then Some (Err (invalid ("spec.resources.requests.storage: Forbidden: field can not be less than status.capacity ("
                                 ++ str_or "?" old.["status"].["capacity"].["storage"] ++ ")")))
        else Some (Ok (was <? now)).

Section Claims.
  Context {S : Type} `{KvStore S} `{JsonCodec}.

Definition pvc_update (old new : Value) : M S unit :=
  grew <~ match pvc_update_valid old new with Some r => mlift r | None => mpanic end;;
  if grew then
    let class := str_or "" old.["spec"].["storageClassName"] in
    expandable <~ (if is_empty_str class then mret false
                   else
                     sc <~ mtry (s_get (cluster_key "storageclasses" class));;
                     mret match sc with Ok sc => match as_bool sc.["allowVolumeExpansion"] with Some true => true | _ => false end
                                   | Err _ => false end);;
    if expandable then mret tt
    else mraise (forbidden "only dynamically provisioned pvc can be resized and the storageclass that provisions the pvc must support resize")
  else mret tt.
End Claims.

Example service_defaults :
  default_service_ports (json_obj [("spec", json_obj [("ports", Array [json_obj [("port", Num (PosInt 80))]])])])
  = Some (json_obj [("spec", json_obj [("internalTrafficPolicy", Str "Cluster"); ("ipFamilies", Array [Str "IPv4"]);
                                       ("ipFamilyPolicy", Str "SingleStack");
                                       ("ports", Array [json_obj [("port", Num (PosInt 80)); ("protocol", Str "TCP"); ("targetPort", Num (PosInt 80))]]);
                                       ("sessionAffinity", Str "None"); ("type", Str "ClusterIP")])]).
Proof. vm_compute. reflexivity. Qed.
Definition refused {A} (r : result A ApiError) : bool := match r with Ok _ => false | Err _ => true end.
Example managed_by :
  let job m := json_obj [("spec", json_obj [("managedBy", Str m)])] in
  job_managed_by quoted None (job "acme.io/foo") = Ok tt ∧ refused (job_managed_by quoted None (job "acme.io")) = true ∧
  refused (job_managed_by quoted None (job "Acme.io/foo")) = true ∧ refused (job_managed_by quoted (Some (job "a.io/x")) (job "a.io/y")) = true.
Proof. vm_compute. auto. Qed.
