(* ===== verification/ServiceAlloc.v ===== *)
(** * Service addresses and node ports ([pkg/apiserver/src/service_ip.rs],
      [pkg/apiserver/src/node_port.rs])

    An address or a port is claimed by creating its key, so exactly one caller
    can have it.  The operations run in the monad of [Effect]. *)

From Stdlib Require Import ZArith Lia String Ascii.
From stdpp Require Import base gmap strings numbers option list.
From S2P Require Import Prelude Text BTree Json F64 Quantity Store ApiError Codec Storage Effect.
Open Scope string_scope.
Open Scope kube_scope.
Open Scope Z_scope.

(** ** IPv4 addresses *)

(** One octet of [Ipv4Addr::from_str]: one to three digits, no leading zero. *)
Definition parse_octet (s : string) : option Z :=
  if Nat.leb (String.length s) 3 && negb (starts_with s "0" && Nat.ltb 1 (String.length s)) then
    match parse_digits s with Some n => if n <=? 255 then Some n else None | None => None end
  else None.

Definition parse_ipv4 (s : string) : option Z :=
  match split_on "." s with
  | [a; b; c; d] =>
      a ← parse_octet a; b ← parse_octet b; c ← parse_octet c; d ← parse_octet d;
      Some (((a * 256 + b) * 256 + c) * 256 + d)
  | _ => None
  end.

Definition show_ipv4 (v : Z) : string :=
  show_u (v / 16777216) ++ "." ++ show_u (v / 65536 mod 256) ++ "." ++ show_u (v / 256 mod 256) ++ "." ++ show_u (v mod 256).

(** ** Candidates *)

Definition IP_PREFIX : string := "/registry/serviceipallocations".
Definition ip_key (ip : string) : string := IP_PREFIX ++ "/" ++ ip.

Definition parse_cidr (cidr : string) : option (Z * Z) :=
  '(addr, prefix) ← split_once "/" cidr;
  a ← parse_ipv4 addr;
  p ← parse_u32 prefix;
  Some (a, p).

Definition static_band (count : Z) : Z := Z.min (Z.min (Z.max (count / 16) 16) 256) count.

Definition usable (count o : Z) : bool := (1 <=? o) && (o + 1 <? count).

(** A range from a random point on, wrapping. *)
Definition spin (start lo len : Z) : list Z :=
  let first := if len =? 0 then 0 else start mod len in
  (λ i, lo + (first + i) mod len) <$> seqZ 0 len.

Definition candidates (count start : Z) : list Z :=
  let band := static_band count in
  List.filter (usable count) (spin start band (count - band) ++ spin start 0 band).

Section Claims.
  Context {S : Type} `{KvStore S} `{JsonCodec}.
  Variable float_text : f64 → string.

Definition claim_at (key : string) (rec : Value) : M S bool :=
  r <~ mtry (s_create float_text key rec);;
  match r with
  | Ok _ => mret true
  | Err e => if is_already_exists e then mret false else mraise e
  end.

(** ** Cluster addresses *)

Definition claim_ip (ip namespace name : string) : M S bool :=
  claim_at (ip_key ip) (json_obj [("ip", Str ip); ("name", Str name); ("namespace", Str namespace)]).

Definition namespace_of (obj : Value) : string := str_or "default" obj.["metadata"].["namespace"].
Definition name_of (obj : Value) : string := str_or "" obj.["metadata"].["name"].

Definition held_ip (obj : Value) : option string :=
  match as_str obj.["spec"].["clusterIP"] with
  | Some ip => if (ip =? "None")%kube || is_empty_str ip then None else Some ip
  | None => None
  end.

Definition release_ip (obj : Value) : M S unit :=
  match held_ip obj with Some ip => drop_key (ip_key ip) | None => mret tt end.

Definition claim_ip_for (obj : Value) : M S unit := λ w,
  match held_ip obj with
  | None => mret tt w
  | Some ip =>
      match claim_ip ip (namespace_of obj) (name_of obj) w with
      | (w, Some _) => (w, Some (Ok tt))
      | (w, None) => (w, None)
      end
  end.

(** The addresses claimed, by the keys the watch cache shows, or none. *)
Definition claimed_ips (keys : result (list string) Error) : list Z :=
  match keys with
  | Ok keys => omap (λ k, strip_prefix (IP_PREFIX ++ "/") k ≫= parse_ipv4) keys
  | Err _ => []
  end.

Definition set_ip (obj : Value) (ip : string) : option Value :=
  obj ← set_index2 obj "spec" "clusterIP" (Str ip);
  obj ← set_index2 obj "spec" "clusterIPs" (Array [Str ip]);
  match as_str obj.["spec"].["type"] with
  | Some _ => Some obj
  | None => set_index2 obj "spec" "type" (Str "ClusterIP")
  end.

Fixpoint try_offsets (base : Z) (offsets taken : list Z) (cidr namespace name : string) (obj : Value) : M S Value :=
  match offsets with
  | [] => mraise (invalid ("no ClusterIP available in " ++ cidr))
  | o :: offsets =>
      let v := base + o in
      if u32_max <? v then try_offsets base offsets taken cidr namespace name obj
      else if bool_decide (v ∈ taken) then try_offsets base offsets taken cidr namespace name obj
      else
        got <~ claim_ip (show_ipv4 v) namespace name;;
        if got then mget (set_ip obj (show_ipv4 v))
        else try_offsets base offsets (v :: taken) cidr namespace name obj
  end.

(** [allocate] of [service_ip.rs]; [start] is the random number drawn. *)
Definition allocate_ip (cidr : string) (keys : result (list string) Error) (start : Z) (obj : Value) : M S Value :=
  if (str_or "ClusterIP" obj.["spec"].["type"] =? "ExternalName")%kube then mret obj
  else
    let namespace := namespace_of obj in
    let name := name_of obj in
    match as_str obj.["spec"].["clusterIP"] with
    | Some ip =>
        if (ip =? "None")%kube then mget (set_index2 obj "spec" "clusterIPs" (Array [Str "None"]))
        else if negb (is_empty_str ip) then
          got <~ claim_ip ip namespace name;;
          if got then mget (set_index2 obj "spec" "clusterIPs" (Array [Str ip]))
          else mraise (invalid ("ClusterIP " ++ ip ++ " is already allocated"))
        else
          match parse_cidr cidr with
          | None => mret obj
          | Some (base, prefix) =>
              try_offsets base (candidates (2 ^ (32 - Z.min prefix 32)) start) (claimed_ips keys) cidr namespace name obj
          end
    | None =>
        match parse_cidr cidr with
        | None => mret obj
        | Some (base, prefix) =>
            try_offsets base (candidates (2 ^ (32 - Z.min prefix 32)) start) (claimed_ips keys) cidr namespace name obj
        end
    end.

(** ** Node ports *)

Definition PORT_PREFIX : string := "/registry/servicenodeportallocations".
Definition port_key (port : Z) : string := PORT_PREFIX ++ "/" ++ show_u port.
Definition u16_max : Z := 65535.
Definition parse_u16 : string → option Z := parse_unsigned u16_max.

Definition parse_range (s : string) : option (Z * Z) :=
  '(a, b) ← split_once "-" s;
  a ← parse_u16 (trim a);
  b ← parse_u16 (trim b);
  if (0 <? a) && (a <=? b) then Some (a, b) else None.

Definition svc_type (svc : Value) : string := str_or "ClusterIP" svc.["spec"].["type"].

Definition allocates (svc : Value) : bool :=
  if (svc_type svc =? "NodePort")%kube then true
  else if (svc_type svc =? "LoadBalancer")%kube
       then negb (match as_bool svc.["spec"].["allocateLoadBalancerNodePorts"] with Some false => true | _ => false end)
       else false.

Definition may_have (svc : Value) : bool := str_in (svc_type svc) ["NodePort"; "LoadBalancer"].
Definition has_cluster_ip (svc : Value) : bool := negb (svc_type svc =? "ExternalName")%kube.

Definition node_port (p : Value) : Z :=
  match as_u64 p.["nodePort"] with Some n => if n <=? u16_max then n else 0 | None => 0 end.
Definition proto (p : Value) : string := str_or "TCP" p.["protocol"].

Definition held_ports (svc : Value) : list Z := List.filter (λ n, negb (n =? 0)) (node_port <$> items svc.["spec"].["ports"]).

Definition invalid_svc (svc : Value) (errs : list string) : ApiError :=
  invalid ("Service " ++ quoted (name_of svc) ++ " is invalid: " ++ String.concat ", " errs).

Definition claim_port (port : Z) (svc : Value) : M S bool :=
  claim_at (port_key port) (json_obj [("name", svc.["metadata"].["name"]); ("namespace", svc.["metadata"].["namespace"]);
                                      ("port", Num (PosInt port))]).

Definition claimed_ports (keys : result (list string) Error) : list Z :=
  match keys with
  | Ok keys => omap (λ k, strip_prefix (PORT_PREFIX ++ "/") k ≫= parse_u16) keys
  | Err _ => []
  end.

Record Plan := mkPlan { claimed : list string; release : list string }.
Definition no_plan : Plan := mkPlan [] [].
Definition push_claim (p : Plan) (k : string) : Plan := mkPlan (claimed p ++ [k]) (release p).
Definition push_release (p : Plan) (k : string) : Plan := mkPlan (claimed p) (release p ++ [k]).

Definition commit (p : Plan) : M S unit := drop_keys (release p).
Definition abort (p : Plan) : M S unit := drop_keys (claimed p).

(** The address, kept, carried over or dropped with the type; [None] a panic. *)
Definition patch_ip (old new : Value) : option (Value * list string) :=
  let oip := str_or "" old.["spec"].["clusterIP"] in
  let nip := str_or "" new.["spec"].["clusterIP"] in
  if has_cluster_ip old && negb (is_empty_str oip) then
    if has_cluster_ip new then
      if is_empty_str nip then
        new ← set_index2 new "spec" "clusterIP" (Str oip);
        new ← (if is_array old.["spec"].["clusterIPs"] then set_index2 new "spec" "clusterIPs" old.["spec"].["clusterIPs"] else Some new);
        Some (new, [])
      else if negb (nip =? oip)%kube
           then Some (new, ["spec.clusterIP: Invalid value: " ++ quoted nip ++ ": field is immutable"])
           else Some (new, [])
    else if is_empty_str nip || (nip =? oip)%kube
         then Some (remove_at (remove_at new "spec" "clusterIP") "spec" "clusterIPs", [])
         else Some (new, [])
  else Some (new, []).

(** One port of the new object, given the old ones. *)
Definition patch_port (keep new_may : bool) (old_ports : list Value) (p : Value) : option Value :=
  let pname := str_or "" p.["name"] in
  let prev := match List.find (λ o, (str_or "" o.["name"] =? pname)%kube) old_ports with Some o => node_port o | None => 0 end in
  if prev =? 0 then Some p
  else if new_may && keep && (node_port p =? 0)%Z then set_index p "nodePort" (Num (PosInt prev))
  else if negb new_may && (node_port p =? prev)%Z then
    match p with Object m => Some (Object (map_remove m "nodePort")) | _ => None end
  else Some p.

Definition patch_ports (old new : Value) : option Value :=
  new ← touch2 new "spec" "ports";
  match as_array new.["spec"].["ports"] with
  | None => Some new
  | Some ports =>
      ports ← mapM (patch_port (may_have old) (may_have new) (items old.["spec"].["ports"])) ports;
      set_index2 new "spec" "ports" (Array ports)
  end.

Definition indexed {A} (l : list A) : list (nat * A) := zip (seq 0 (List.length l)) l.

Definition port_at (i : nat) : string := "spec.ports[" ++ show_u (Z.of_nat i) ++ "].nodePort: ".

Definition patch_and_check (range : Z * Z) (old : option Value) (new : Value) : option (result Value ApiError) :=
  '(new, errs) ← match old with
                 | Some old => '(n, e) ← patch_ip old new; n ← patch_ports old n; Some (n, e)
                 | None => Some (new, [])
                 end;
  let ports := indexed (items new.["spec"].["ports"]) in
  let errs1 :=
    if may_have new then []
    else omap (λ ip : nat * Value, if (node_port ip.2 =? 0)%Z then None
                 else Some (port_at ip.1 ++ "Forbidden: may not be used when `type` is '" ++ svc_type new ++ "'")) ports in
  let errs2 :=
    omap (λ ip : nat * Value,
      let n := node_port ip.2 in
      if negb (n =? 0)%Z && may_have new && negb ((fst range <=? n) && (n <=? snd range))
      then Some (port_at ip.1 ++ "Invalid value: " ++ show_u n
                 ++ ": provided port is not in the valid range. The range of valid ports is " ++ show_u (fst range) ++ "-" ++ show_u (snd range))
      else None) ports in
  match (errs ++ errs1 ++ errs2)%list with
  | [] => Some (Ok new)
  | errs => Some (Err (invalid_svc new errs))
  end.

(** The ports the object names: claimed exactly, unless it held them. *)
Fixpoint named_ports (new : Value) (before : list Z) (ports : list (nat * Value)) (taken_here : list Z)
    (by_number : list (Z * string)) (plan : Plan) (errs : list string) :
    World S → World S * option (result (list Z * list string) ApiError * Plan) := λ w,
  match ports with
  | [] => (w, Some (Ok (taken_here, errs), plan))
  | (i, p) :: ports =>
      let n := node_port p in
      if n =? 0 then named_ports new before ports taken_here by_number plan errs w
      else if existsb (λ xq, (xq.1 =? n)%Z && (xq.2 =? proto p)%kube) by_number
      then named_ports new before ports taken_here by_number plan (errs ++ [port_at i ++ "Duplicate value: " ++ show_u n]) w
      else
        let by_number := (by_number ++ [(n, proto p)])%list in
        if bool_decide (n ∈ before) || bool_decide (n ∈ taken_here)
        then named_ports new before ports (n :: taken_here) by_number plan errs w
        else
          match claim_port n new w with
          | (w, None) => (w, None)
          | (w, Some (Err e)) => (w, Some (Err e, plan))
          | (w, Some (Ok true)) =>
              named_ports new before ports (n :: taken_here) by_number (push_claim plan (port_key n)) errs w
          | (w, Some (Ok false)) =>
              named_ports new before ports taken_here by_number plan
                (errs ++ [port_at i ++ "Invalid value: " ++ show_u n ++ ": provided port is already allocated"]) w
          end
  end.

(** One dynamic port: the first free one from a random start. *)
Fixpoint first_port (new : Value) (avoid : list Z) (ports : list Z) (view : list Z) : M S (option Z * list Z) :=
  match ports with
  | [] => mret (None, view)
  | port :: ports =>
      if bool_decide (port ∈ view) || bool_decide (port ∈ avoid) then first_port new avoid ports view
      else
        got <~ claim_port port new;;
        if got then mret (Some port, view) else first_port new avoid ports (port :: view)
  end.

Definition set_port (new : Value) (i : nat) (port : Z) : option Value :=
  match as_array new.["spec"].["ports"] with
  | Some ports =>
      p ← ports !! i;
      p ← set_index p "nodePort" (Num (PosInt port));
      set_index2 new "spec" "ports" (Array (<[i := p]> ports))
  | None => None
  end.

Definition port_candidates (range : Z * Z) (start : Z) : list Z :=
  let span := snd range - fst range + 1 in (λ off, fst range + (start mod span + off) mod span) <$> seqZ 0 span.

(** [starts i] is the random number drawn for port [i]. *)
Fixpoint dynamic_ports (range : Z * Z) (starts : nat → Z) (before : list Z) (idx : list nat) (new : Value) (view taken_here : list Z)
    (plan : Plan) : World S → World S * option (result (Value * list Z) ApiError * Plan) := λ w,
  match idx with
  | [] => (w, Some (Ok (new, taken_here), plan))
  | i :: idx =>
      if negb (node_port (default Null (items new.["spec"].["ports"] !! i)) =? 0)%Z
      then dynamic_ports range starts before idx new view taken_here plan w
      else
        match first_port new (taken_here ++ before) (port_candidates range (starts i)) view w with
        | (w, None) => (w, None)
        | (w, Some (Err e)) => (w, Some (Err e, plan))
        | (w, Some (Ok (None, _))) =>
            (w, Some (Err (invalid_svc new [port_at i ++ "Internal error: range is full (" ++ show_u (fst range) ++ "-"
                                              ++ show_u (snd range) ++ ")"]), plan))
        | (w, Some (Ok (Some port, view))) =>
            let plan := push_claim plan (port_key port) in
            match set_port new i port with
            | None => (w, None)
            | Some new => dynamic_ports range starts before idx new view (port :: taken_here) plan w
            end
        end
  end.

Record Env := mkEnv {
  e_cidr : string;
  e_range : Z * Z;
  e_ip_keys : result (list string) Error;
  e_ip_start : Z;
  e_port_keys : result (list string) Error;
  e_port_starts : nat → Z }.

Definition live_ip (svc : Value) : option string := if has_cluster_ip svc then held_ip svc else None.

(** The ports of [allocate] in [node_port.rs]. *)
Definition allocate_ports (env : Env) (old : option Value) (new : Value) (plan : Plan) :
    World S → World S * option (result Value ApiError * Plan) := λ w,
  let before := default [] (held_ports <$> old) in
  let ports := items new.["spec"].["ports"] in
  match named_ports new before (indexed ports) [] [] plan [] w with
  | (w, None) => (w, None)
  | (w, Some (Err e, plan)) => (w, Some (Err e, plan))
  | (w, Some (Ok (taken_here, _ :: _ as errs), plan)) => (w, Some (Err (invalid_svc new errs), plan))
  | (w, Some (Ok (taken_here, []), plan)) =>
      match (if allocates new
             then dynamic_ports (e_range env) (e_port_starts env) before (seq 0 (List.length ports)) new
                    (claimed_ports (e_port_keys env)) taken_here plan w
             else (w, Some (Ok (new, taken_here), plan))) with
      | (w, None) => (w, None)
      | (w, Some (Err e, plan)) => (w, Some (Err e, plan))
      | (w, Some (Ok (new, taken_here), plan)) =>
          let gone := List.filter (λ n, negb (bool_decide (n ∈ taken_here))) (remove_dups before) in
          (w, Some (Ok new, fold_left push_release (port_key <$> gone) plan))
      end
  end.

(** [allocate] of [node_port.rs]: the address, then the ports. *)
Definition allocate_service (env : Env) (old : option Value) (new : Value) :
    World S → World S * option (result Value ApiError * Plan) := λ w,
  let old_ip := old ≫= live_ip in
  match (if has_cluster_ip new && match old_ip with None => true | Some _ => false end
         then allocate_ip (e_cidr env) (e_ip_keys env) (e_ip_start env) new w
         else (w, Some (Ok new))) with
  | (w, None) => (w, None)
  | (w, Some (Err e)) => (w, Some (Err e, no_plan))
  | (w, Some (Ok new)) =>
      let plan :=
        if has_cluster_ip new && match old_ip with None => true | Some _ => false end
        then match held_ip new with Some ip => push_claim no_plan (ip_key ip) | None => no_plan end
        else no_plan in
      let plan :=
        match old_ip with
        | Some ip => if str_is new.["spec"].["clusterIP"] ip then plan else push_release plan (ip_key ip)
        | None => plan
        end in
      allocate_ports env old new plan w
  end.

Definition plan_service (env : Env) (old : option Value) (new : Value) : M S (Value * Plan) := λ w,
  match patch_and_check (e_range env) old new with
  | None => (w, None)
  | Some (Err e) => (w, Some (Err e))
  | Some (Ok new) =>
      match allocate_service env old new w with
      | (w, None) => (w, None)
      | (w, Some (Err e, plan)) =>
          match abort plan w with (w, None) => (w, None) | (w, Some _) => (w, Some (Err e)) end
      | (w, Some (Ok new, plan)) => (w, Some (Ok (new, plan)))
      end
  end.

Definition release_ports (svc : Value) : M S unit := drop_keys (port_key <$> remove_dups (held_ports svc)).
Definition release_all (svc : Value) : M S unit := _ <~ release_ip svc;; release_ports svc.

(** ** Repair: claiming what stored Services hold *)

(** A claim whose error does not matter; did it get the key? *)
Definition claim_quietly (m : M S bool) : M S bool := λ w,
  match m w with
  | (w, Some (Ok got)) => (w, Some (Ok got))
  | (w, Some (Err _)) => (w, Some (Ok false))
  | (w, None) => (w, None)
  end.

Fixpoint claim_each (claims : list (M S bool)) (n : Z) : M S Z :=
  match claims with
  | [] => mret n
  | c :: claims => got <~ claim_quietly c;; claim_each claims (if got then n + 1 else n)
  end.

(** [claim_for] of [node_port.rs]. *)
Definition claim_ports_for (svc : Value) : M S unit :=
  _ <~ claim_each ((λ n, claim_port n svc) <$> remove_dups (held_ports svc)) 0;; mret tt.

(** The stored Services, the first 10,000 of them. *)
Definition stored_services (w : World S) : option (result ListPage ApiError) :=
  Storage.list_page (st w) (cluster_prefix "services") 10000 None.

Definition ip_claim_of (svc : Value) : option (M S bool) :=
  ip ← held_ip svc; Some (claim_ip ip (namespace_of svc) (name_of svc)).

Definition reconcile_ips : M S Z := λ w,
  let w := meanwhile w in
  match stored_services w with
  | None => (w, None)
  | Some (Err _) => (w, Some (Ok 0))
  | Some (Ok page) => claim_each (omap ip_claim_of (lp_items page)) 0 w
  end.

Definition reconcile_ports : M S Z := λ w,
  let w := meanwhile w in
  match stored_services w with
  | None => (w, None)
  | Some (Err _) => (w, Some (Ok 0))
  | Some (Ok page) =>
      claim_each (concat ((λ svc, (λ n, claim_port n svc) <$> remove_dups (held_ports svc)) <$> lp_items page)) 0 w
  end.

(** The addresses more than one of the stored Services holds, with the holders. *)
Definition holder_entry (svc : Value) : option (string * string) :=
  ip ← held_ip svc; Some (ip, namespace_of svc ++ "/" ++ name_of svc).

Definition add_holder (m : BTreeMap (list string)) (e : string * string) : BTreeMap (list string) :=
  map_insert m e.1 (default [] (map_get m e.1) ++ [e.2])%list.

Definition shared_by (items : list Value) : BTreeMap (list string) :=
  List.filter (λ kv, Nat.ltb 1 (List.length kv.2)) (fold_left add_holder (omap holder_entry items) []).

Definition duplicates (s : S) : option (BTreeMap (list string)) :=
  match Storage.list_page s (cluster_prefix "services") 10000 None with
  | None => None
  | Some (Err _) => Some []
  | Some (Ok page) => Some (shared_by (lp_items page))
  end.
End Claims.

Example ips : parse_cidr "10.96.0.0/28" = Some (174063616, 28) ∧ show_ipv4 174063617 = "10.96.0.1" ∧ parse_ipv4 "10.96.0.01" = None.
Proof. vm_compute. auto. Qed.

(** ** The candidates *)

Lemma elem_of_spin start lo len x : 0 ≤ start → 0 ≤ len → x ∈ spin start lo len ↔ lo ≤ x < lo + len.
Proof.
  intros Hs Hl. unfold spin. rewrite list_elem_of_fmap. destruct (decide (len = 0)) as [->|Hn].
  { setoid_rewrite elem_of_seqZ. split; [intros (? & _ & ?)|]; lia. }
  apply Z.eqb_neq in Hn as E. rewrite E. setoid_rewrite elem_of_seqZ. pose proof (Z.mod_pos_bound start len ltac:(lia)) as Hf. split.
  - intros (i & -> & _). pose proof (Z.mod_pos_bound (start mod len + i) len ltac:(lia)). lia.
  - intros Hx. exists ((x - lo - start mod len) mod len). split; [|apply Z.mod_pos_bound; lia].
    rewrite Zplus_mod_idemp_r. replace (start mod len + _) with (x - lo) by lia. rewrite Z.mod_small by lia. lia.
Qed.

Lemma NoDup_spin start lo len : 0 ≤ len → NoDup (spin start lo len).
Proof.
  intros Hl. apply NoDup_fmap_2_strong; [|apply NoDup_seqZ].
  intros i j Hi Hj E. apply elem_of_seqZ in Hi, Hj. set (f := if len =? 0 then 0 else start mod len) in E.
  assert ((f + i - (f + j)) mod len = 0) as Hd.
  { rewrite Zminus_mod. replace ((f + i) mod len) with ((f + j) mod len) by lia. by rewrite Z.sub_diag, Zmod_0_l. }
  replace (f + i - (f + j)) with (i - j) in Hd by lia.
  apply Z.mod_divide in Hd as [q Hq]; [|lia]. assert (q = 0) by nia. lia.
Qed.

Lemma static_band_bounds count : 1 ≤ count → 0 ≤ static_band count ≤ count.
Proof. unfold static_band. lia. Qed.

Lemma NoDup_List_filter {A} (f : A → bool) l : NoDup l → NoDup (List.filter f l).
Proof.
  induction 1 as [|x l Hx _ IH]; cbn; [constructor|]. destruct (f x); [|done]. constructor; [|done].
  by rewrite elem_of_filter_b; intros [? _].
Qed.

(** Every address of the range but its first and last is offered, once. *)
Lemma candidates_exact count start : 1 ≤ count → 0 ≤ start → candidates count start ≡ₚ seqZ 1 (count - 2).
Proof.
  intros Hc Hs. pose proof (static_band_bounds count Hc) as Hb. apply NoDup_Permutation; [|apply NoDup_seqZ|].
  - apply NoDup_List_filter, NoDup_app. split_and!; [apply NoDup_spin; lia| |apply NoDup_spin; lia].
    intros x Hx Hx'. apply elem_of_spin in Hx, Hx'; lia.
  - intros x. unfold candidates. rewrite elem_of_filter_b, elem_of_app, !elem_of_spin, elem_of_seqZ by lia.
    unfold usable. rewrite andb_true_iff, Z.leb_le, Z.ltb_lt. lia.
Qed.

(** ** Claims *)

Section ClaimTheorems.
  Context {S : Type} `{HL : KvStoreLaws S} `{JsonCodec}.
  Variable float_text : f64 → string.
  Implicit Types (s : S) (w : World S).

(** A store that serves, with room for [n] more writes. *)
Definition ready (n : Z) s : Prop := kv_wf s ∧ serving s ∧ 0 ≤ n ∧ revision s + n ≤ i64_max.

Lemma ready_room n s : ready n s → 0 < n → kv_wf s ∧ serving s ∧ rev_room (revision s).
Proof. intros (H1 & H2 & _ & H3) Hn. split_and!; [done..|]. unfold rev_room. lia. Qed.

Lemma ready_le n m s : ready n s → 0 ≤ m ≤ n → ready m s.
Proof. intros (H1 & H2 & _ & H3) Hn. split_and!; [done|done|lia|lia]. Qed.

Lemma create_claims s key rec :
  kv_wf s → serving s → rev_room (revision s) → storable float_text key rec → contains_key (view s) key = false →
  ∃ s' o b, create float_text s key rec = (s', Some (Ok o)) ∧ kv_wf s' ∧ serving s' ∧
    revision s' ≤ revision s + 1 ∧ view s' = map_insert (view s) key b.
Proof.
  intros Hwf Hs Hroom Hrec Habs. destruct (stored_form_codec float_text key rec Hrec) as (Ho & _ & b & Hb & _).
  destruct (put_ok s key b (Some 0) Hwf Hs Hroom) as (s' & Hp & Hwf' & Hs' & _ & Hv & _ & Hone); [by apply rev_of_absent|].
  destruct (inject_object (stored_form float_text key rec) (revision s') Ho) as (o & Hi & _).
  exists s', o, (b, revision s'). split_and!; [|done..]. unfold create. unfold stored_form in Hb, Hi. by rewrite Hb, Hp, Hi.
Qed.

Lemma create_taken s key rec :
  kv_wf s → serving s → storable float_text key rec → contains_key (view s) key = true →
  ∃ e, create float_text s key rec = (s, Some (Err e)) ∧ is_already_exists e = true.
Proof.
  intros Hwf Hs Hrec Hin. destruct (stored_form_codec float_text key rec Hrec) as (_ & _ & b & Hb & _).
  eexists. unfold create. unfold stored_form in Hb. rewrite Hb, put_conflict; try done.
  intros Hz. apply rev_of_absent in Hz; [|done]. congruence.
Qed.

(** A claim succeeds exactly when the key is free when the store is asked. *)
Lemma claim_at_spec w key rec :
  let w1 := meanwhile w in
  kv_wf (st w1) → serving (st w1) → rev_room (revision (st w1)) → storable float_text key rec →
  if contains_key (view (st w1)) key then claim_at float_text key rec w = (w1, Some (Ok false))
  else ∃ s' b, claim_at float_text key rec w = (mkWorld s' (others w1), Some (Ok true)) ∧ kv_wf s' ∧ serving s' ∧
    revision s' ≤ revision (st w1) + 1 ∧ view s' = map_insert (view (st w1)) key b.
Proof.
  intros w1 Hwf Hs Hroom Hrec. unfold claim_at, mthen, mtry, s_create. fold w1.
  destruct (contains_key (view (st w1)) key) eqn:Ek.
  - destruct (create_taken (st w1) key rec Hwf Hs Hrec Ek) as (e & -> & He). rewrite He. by destruct w1.
  - destruct (create_claims (st w1) key rec Hwf Hs Hroom Hrec Ek) as (s' & o & b & -> & H1 & H2 & H3 & H4). by exists s', b.
Qed.

Lemma drop_key_alone n s key :
  ready (n + 1) s → 0 ≤ n →
  ∃ s', drop_key key (mkWorld s []) = (mkWorld s' [], Some (Ok tt)) ∧ ready n s' ∧ view s' = map_remove (view s) key.
Proof.
  intros Hr Hn. pose proof (ready_room _ _ Hr ltac:(lia)) as (Hwf & Hs & Hroom).
  destruct (delete_ok s key None Hwf Hs Hroom I) as (s' & Hd & Hwf' & Hs' & _ & Hv & _ & Hone).
  exists s'. unfold drop_key, mthen, mtry, s_delete, delete. cbn [meanwhile others st]. rewrite Hd. destruct Hr as (_ & _ & _ & Hr).
  split_and!; [done| |done]. split_and!; [done|done|lia|lia].
Qed.

(** ** What an attempt has claimed *)

(** [m] is [base] with the keys [ks], free in [base], claimed. *)
Definition claims_over (base m : View) (ks : list string) : Prop :=
  (∀ k, k ∈ ks → map_get base k = None ∧ contains_key m k = true) ∧ (∀ k, k ∉ ks → map_get m k = map_get base k).

Lemma claims_over_nil m : claims_over m m [].
Proof. split; [|done]. intros k Hk. by apply elem_of_nil in Hk. Qed.

Lemma claims_over_absent base m ks k : claims_over base m ks → contains_key m k = false → k ∉ ks ∧ map_get base k = None.
Proof.
  intros [H1 H2] Hk. assert (k ∉ ks) as Hn by (intros Hin; apply H1 in Hin as [_ ?]; congruence). split; [done|].
  rewrite <- H2 by done. unfold contains_key in Hk. by destruct (map_get m k).
Qed.

Lemma claims_over_insert base m ks k b :
  claims_over base m ks → contains_key m k = false → claims_over base (map_insert m k b) (ks ++ [k]).
Proof.
  intros Hc Hk. destruct (claims_over_absent _ _ _ _ Hc Hk) as [Hn Hb]. destruct Hc as [H1 H2]. split.
  - intros k' Hk'. destruct (decide (k' = k)) as [->|Hne].
    + split; [done|]. unfold contains_key. by rewrite map_get_insert_eq.
    + apply elem_of_app in Hk' as [Hk'|Hk']; [|by apply list_elem_of_singleton in Hk'].
      unfold contains_key. rewrite map_get_insert_ne by done. by apply H1.
  - intros k' Hk'. apply not_elem_of_app in Hk' as [Hk' Hne]. rewrite list_elem_of_singleton in Hne.
    rewrite map_get_insert_ne by done. by apply H2.
Qed.

Lemma drop_keys_alone ks : ∀ n s, ready (n + Z.of_nat (length ks)) s → 0 ≤ n →
  ∃ s', drop_keys ks (mkWorld s []) = (mkWorld s' [], Some (Ok tt)) ∧ ready n s' ∧
    view s' = fold_left map_remove ks (view s).
Proof.
  induction ks as [|k ks IH]; intros n s Hr Hn.
  - exists s. split_and!; [done| |done]. by rewrite Z.add_0_r in Hr.
  - destruct (drop_key_alone (n + Z.of_nat (length ks)) s k) as (s1 & E1 & Hr1 & Hv1); [|lia|].
    { eapply ready_le; [done|]. cbn [length]. lia. }
    destruct (IH n s1 Hr1 Hn) as (s2 & E2 & Hr2 & Hv2). exists s2. cbn [drop_keys fold_left]. unfold mthen.
    rewrite E1. split_and!; [done|done|]. by rewrite Hv2, Hv1.
Qed.

Lemma map_get_removes {A} ks : ∀ (m : BTreeMap A) k, keys_sorted m = true →
  map_get (fold_left map_remove ks m) k = if bool_decide (k ∈ ks) then None else map_get m k.
Proof.
  induction ks as [|k0 ks IH]; intros m k Hs; [done|]. cbn [fold_left]. rewrite IH by by apply keys_sorted_remove.
  destruct (decide (k = k0)) as [->|Hne].
  - rewrite map_get_remove_eq by done. rewrite (bool_decide_true (k0 ∈ k0 :: ks)) by set_solver. by case_match.
  - rewrite map_get_remove_ne by done. rewrite (bool_decide_ext (k ∈ k0 :: ks) (k ∈ ks)) by set_solver. done.
Qed.

Lemma keys_sorted_removes {A} ks : ∀ (m : BTreeMap A), keys_sorted m = true → keys_sorted (fold_left map_remove ks m) = true.
Proof. induction ks as [|k ks IH]; intros m Hs; [done|]. by apply IH, keys_sorted_remove. Qed.

(** Giving back what was claimed restores the store. *)
Lemma abort_restores base plan s :
  ready (Z.of_nat (length (claimed plan))) s → keys_sorted base = true → claims_over base (view s) (claimed plan) →
  ∃ s', abort plan (mkWorld s []) = (mkWorld s' [], Some (Ok tt)) ∧ view s' = base.
Proof.
  intros Hr Hb [H1 H2]. destruct (drop_keys_alone (claimed plan) 0 s) as (s' & E & _ & Hv); [done|done|].
  exists s'. split; [done|]. pose proof (view_wf s (proj1 Hr)) as (Hs & _). rewrite Hv.
  apply map_ext; [by apply keys_sorted_removes|done|]. intros k. rewrite map_get_removes by done.
  case_bool_decide as Hk; [|by apply H2]. symmetry. by apply H1.
Qed.

(** ** Cluster addresses *)

(** A step of others that leaves the store serving and the key [k] claimed. *)
Definition keeps (k : string) (f : S → S) : Prop :=
  ∀ s, live s → live (f s) ∧ (contains_key (view s) k = true → contains_key (view (f s)) k = true).

Definition kept (k : string) w : Prop := live (st w) ∧ Forall (keeps k) (others w).

Lemma meanwhile_kept k w :
  kept k w → kept k (meanwhile w) ∧ (contains_key (view (st w)) k = true → contains_key (view (st (meanwhile w))) k = true).
Proof.
  intros [Hl Hf]. unfold meanwhile. destruct (others w) as [|f fs] eqn:Eo; [split; [|done]; split; [done|by rewrite Eo]|].
  inversion Hf as [|? ? Hk Hfs]; subst. destruct (Hk (st w) Hl) as [Hl' Hc]. done.
Qed.

Lemma ip_record_storable key ip name namespace :
  storable float_text key (json_obj [("ip", Str ip); ("name", Str name); ("namespace", Str namespace)]).
Proof. by apply tidy_storable. Qed.

(** A claim of an address leaves what is claimed claimed, and gets only what
    nobody held. *)
Lemma claim_ip_kept k ip namespace name w w' r :
  kept k w → claim_ip float_text ip namespace name w = (w', r) →
  (contains_key (view (st w)) k = true → contains_key (view (st w')) k = true) ∧
  match r with
  | Some (Ok true) => contains_key (view (st w')) (ip_key ip) = true ∧ (contains_key (view (st w)) k = true → ip_key ip ≠ k)
  | Some (Ok false) => kept k w'
  | _ => False
  end.
Proof.
  intros Hk E. destruct (meanwhile_kept k w Hk) as [Hk1 Hc1]. destruct Hk1 as [(Hwf & Hs & Hroom) Hf].
  pose proof (claim_at_spec w (ip_key ip) _ Hwf Hs Hroom (ip_record_storable _ ip name namespace)) as Hspec. unfold claim_ip in E.
  destruct (contains_key (view (st (meanwhile w))) (ip_key ip)) eqn:Ek.
  - rewrite Hspec in E. injection E as <- <-. done.
  - destruct Hspec as (s' & b & Ec & _ & _ & _ & Hv). rewrite Ec in E. injection E as <- <-. cbn [st]. rewrite Hv.
    unfold contains_key. rewrite map_get_insert_eq. split_and!; [|done|].
    + intros Hc. apply Hc1 in Hc. destruct (decide (k = ip_key ip)) as [->|]; [by rewrite map_get_insert_eq|].
      by rewrite map_get_insert_ne.
    + intros Hc He. subst k. apply Hc1 in Hc. congruence.
Qed.

Lemma set_ip_spec obj ip svc :
  set_ip obj ip = Some svc →
  svc.["spec"].["clusterIP"] = Str ip ∧ svc.["metadata"] = obj.["metadata"] ∧ svc.["spec"].["ports"] = obj.["spec"].["ports"] ∧
  (has_cluster_ip obj = true → has_cluster_ip svc = true).
Proof.
  unfold set_ip. destruct (set_index2 obj "spec" "clusterIP" (Str ip)) as [o1|] eqn:E1; cbn [mbind option_bind]; [|done].
  destruct (set_index2 o1 "spec" "clusterIPs" _) as [o2|] eqn:E2; cbn [mbind option_bind]; [|done]. intros E.
  pose proof (λ k, index2_set_index2_ne _ _ _ _ _ k E1) as N1. pose proof (λ k, index2_set_index2_ne _ _ _ _ _ k E2) as N2.
  pose proof (set_index2_inner _ _ _ _ _ E1) as M1. pose proof (set_index2_inner _ _ _ _ _ E2) as M2.
  apply index2_set_index2 in E1.
  assert (o2.["spec"].["clusterIP"] = Str ip) as Hip by (by rewrite N2).
  assert (o2.["metadata"] = obj.["metadata"]) as Hm by (by rewrite M2, M1).
  assert (o2.["spec"].["ports"] = obj.["spec"].["ports"]) as Hp by (by rewrite N2, N1).
  assert (o2.["spec"].["type"] = obj.["spec"].["type"]) as Ht by (by rewrite N2, N1).
  destruct (as_str o2.["spec"].["type"]) as [t|] eqn:Et.
  - injection E as <-. split_and!; [done..|]. unfold has_cluster_ip, svc_type. by rewrite Ht.
  - pose proof (λ k, index2_set_index2_ne _ _ _ _ _ k E) as N3. pose proof (set_index2_inner _ _ _ _ _ E) as M3.
    rewrite N3, M3, N3 by done. split_and!; [done..|]. intros _. unfold has_cluster_ip, svc_type.
    by rewrite (index2_set_index2 _ _ _ _ _ E).
Qed.

Lemma set_ip_held obj ip svc : set_ip obj ip = Some svc → ∀ x, held_ip svc = Some x → x = ip.
Proof. intros E x. unfold held_ip. apply set_ip_spec in E as [-> _]. cbn. destruct (_ || _); congruence. Qed.

Lemma try_offsets_kept k base cidr namespace name obj offsets : ∀ taken w w' r,
  kept k w → try_offsets float_text base offsets taken cidr namespace name obj w = (w', r) →
  (contains_key (view (st w)) k = true → contains_key (view (st w')) k = true) ∧
  ∀ svc ip, r = Some (Ok svc) → held_ip svc = Some ip →
    contains_key (view (st w')) (ip_key ip) = true ∧ (contains_key (view (st w)) k = true → ip_key ip ≠ k).
Proof.
  induction offsets as [|o offsets IH]; intros taken w w' r Hk; cbn [try_offsets]; [by intros [= <- <-]|].
  destruct (u32_max <? base + o); [by apply IH|]. case_bool_decide; [by apply IH|]. unfold mthen.
  destruct (claim_ip float_text (show_ipv4 (base + o)) namespace name w) as [w1 r1] eqn:Ec.
  destruct (claim_ip_kept k _ _ _ _ _ _ Hk Ec) as [Hc Hr1]. destruct r1 as [[[|]|]|]; try done.
  - intros E. assert (w' = w1 ∧ r = match set_ip obj (show_ipv4 (base + o)) with Some x => Some (Ok x) | None => None end) as [-> ->].
    { destruct (set_ip obj _); cbn in E; injection E as <- <-; done. }
    split; [done|]. intros svc ip Hr Hip. destruct (set_ip obj _) as [o'|] eqn:Es; [|done]. injection Hr as ->.
    apply (set_ip_held _ _ _ Es) in Hip as ->. done.
  - intros E. destruct (IH _ _ _ _ Hr1 E) as [Hin Hgot]. split; [by auto|]. intros svc ip Hr Hip.
    destruct (Hgot svc ip Hr Hip) as [H3 H4]. split; [done|]. auto.
Qed.

Lemma allocate_ip_kept k cidr keys start obj w w' svc ip :
  kept k w → has_cluster_ip obj = true → allocate_ip float_text cidr keys start obj w = (w', Some (Ok svc)) → held_ip svc = Some ip →
  contains_key (view (st w')) (ip_key ip) = true ∧ (contains_key (view (st w)) k = true → ip_key ip ≠ k).
Proof.
  intros Hk Hc. unfold allocate_ip. unfold has_cluster_ip, svc_type in Hc. apply negb_true_iff in Hc. rewrite Hc.
  assert (held_ip obj = None → ∀ E : (match parse_cidr cidr with None => mret obj | Some (base, prefix) =>
     try_offsets float_text base (candidates (2 ^ (32 - Z.min prefix 32)) start) (claimed_ips keys) cidr (namespace_of obj) (name_of obj) obj end) w
     = (w', Some (Ok svc)), held_ip svc = Some ip →
     contains_key (view (st w')) (ip_key ip) = true ∧ (contains_key (view (st w)) k = true → ip_key ip ≠ k)) as Hdyn.
  { intros Hn E Hip. destruct (parse_cidr cidr) as [[base prefix]|]; [|by injection E as <- <-; congruence].
    destruct (try_offsets_kept k _ _ _ _ _ _ _ _ _ _ Hk E) as [_ H2]. by apply (H2 svc). }
  destruct (as_str obj.["spec"].["clusterIP"]) as [a|] eqn:Ea.
  2:{ apply Hdyn. unfold held_ip. by rewrite Ea. }
  destruct (a =? "None")%kube eqn:En.
  { intros E Hip. apply str_eqb_eq in En as ->. destruct (set_index2 obj "spec" "clusterIPs" _) as [o|] eqn:Es; [|done].
    injection E as <- <-. unfold held_ip in Hip. rewrite (index2_set_index2_ne _ _ _ _ _ "clusterIP" Es), Ea in Hip by done. done. }
  destruct (is_empty_str a) eqn:Ee; cbn [negb]; [apply Hdyn; unfold held_ip; by rewrite Ea, En, Ee|].
  unfold mthen. destruct (claim_ip float_text a _ _ w) as [w1 r1] eqn:Ec.
  destruct (claim_ip_kept k _ _ _ _ _ _ Hk Ec) as [_ Hr1]. destruct r1 as [[[|]|]|]; try done. intros E Hip.
  destruct (set_index2 obj "spec" "clusterIPs" _) as [o|] eqn:Es; [|done]. injection E as <- <-.
  unfold held_ip in Hip. rewrite (index2_set_index2_ne _ _ _ _ _ "clusterIP" Es), Ea, En, Ee in Hip by done. cbn in Hip.
  by injection Hip as <-.
Qed.

(** No two Services get the same address.  One Service is given an address,
    whether it asked for it or was handed one; any other clients write in
    between, without giving that claim back; another Service is then given an
    address, from any range, with any view of the claims and any random start:
    it is a different one. *)
Theorem cluster_ips_distinct cidr1 keys1 start1 obj1 svc1 w w1 ip cidr2 keys2 start2 obj2 svc2 w2 :
  live (st w) → live (st w1) → Forall (keeps (ip_key ip)) (others w) → Forall (keeps (ip_key ip)) (others w1) →
  has_cluster_ip obj1 = true → has_cluster_ip obj2 = true →
  allocate_ip float_text cidr1 keys1 start1 obj1 w = (w1, Some (Ok svc1)) → held_ip svc1 = Some ip →
  allocate_ip float_text cidr2 keys2 start2 obj2 w1 = (w2, Some (Ok svc2)) → held_ip svc2 ≠ Some ip.
Proof.
  intros Hl Hl1 Hf Hf1 Hc1 Hc2 E1 Hip1 E2 Hip2.
  destruct (allocate_ip_kept (ip_key ip) _ _ _ _ _ _ _ _ (conj Hl Hf) Hc1 E1 Hip1) as [Hin _].
  by destruct (allocate_ip_kept (ip_key ip) _ _ _ _ _ _ _ _ (conj Hl1 Hf1) Hc2 E2 Hip2) as [_ H2]; apply H2.
Qed.

(** ** A free address is found *)

Lemma parse_octet_range (t : string) n : parse_octet t = Some n → 0 ≤ n ≤ 255.
Proof.
  unfold parse_octet. case_match; [|done]. destruct (parse_digits t) as [m|] eqn:Em; [|done].
  destruct (m <=? 255) eqn:El; [|done]. intros [= <-]. apply Z.leb_le in El. split; [|done].
  unfold parse_digits in Em. destruct t as [|c t]; [done|]. apply parse_digits_go_bounds in Em; [|done]. lia.
Qed.

Lemma parse_ipv4_range (t : string) v : parse_ipv4 t = Some v → 0 ≤ v ≤ u32_max.
Proof.
  unfold parse_ipv4. destruct (split_on "." t) as [|a [|b [|c [|d [|]]]]]; try done.
  destruct (parse_octet a) eqn:Ea, (parse_octet b) eqn:Eb, (parse_octet c) eqn:Ec, (parse_octet d) eqn:Ed; try done.
  cbn [mbind option_bind]. intros [= <-]. apply parse_octet_range in Ea, Eb, Ec, Ed. unfold u32_max. lia.
Qed.

Lemma parse_cidr_range cidr base prefix : parse_cidr cidr = Some (base, prefix) → 0 ≤ base.
Proof.
  unfold parse_cidr. destruct (split_once "/" cidr) as [[a p]|]; [|done]. cbn [mbind option_bind].
  destruct (parse_ipv4 a) as [x|] eqn:Ea; [|done]. cbn [mbind option_bind].
  destruct (parse_u32 p); [|done]. intros [= <- _]. by apply parse_ipv4_range in Ea as [? _].
Qed.

(** The text of an address is an address a Service holds. *)
Lemma show_ipv4_held v : 0 ≤ v → (show_ipv4 v =? "None")%kube || is_empty_str (show_ipv4 v) = false.
Proof.
  intros Hv. assert (0 ≤ v / 16777216) as Hd by (apply Z.div_pos; lia). unfold show_ipv4.
  destruct (show_u (v / 16777216)) as [|a t] eqn:Es; [by apply show_u_nonempty in Es|].
  pose proof (show_u_digits _ Hd) as Hdig. rewrite Es in Hdig. cbn [str_forall] in Hdig. apply andb_true_iff in Hdig as [Ha _].
  cbn [String.append is_empty_str]. rewrite orb_false_r. apply str_eqb_neq. intros [= -> _]. done.
Qed.

Lemma set_ip_total obj ip :
  is_object obj = true → is_object obj.["spec"] = true → ∃ svc, set_ip obj ip = Some svc ∧ svc.["spec"].["clusterIP"] = Str ip.
Proof.
  intros Ho Hs. assert (is_Some (set_ip obj ip)) as [svc E].
  { unfold set_ip.
    destruct (set_index2_object obj "spec" "clusterIP" (Str ip) Ho Hs) as (o1 & -> & Ho1 & Hs1). cbn [mbind option_bind].
    destruct (set_index2_object o1 "spec" "clusterIPs" (Array [Str ip]) Ho1 Hs1) as (o2 & -> & Ho2 & Hs2). cbn [mbind option_bind].
    destruct (as_str o2.["spec"].["type"]); [done|].
    by destruct (set_index2_object o2 "spec" "type" (Str "ClusterIP") Ho2 Hs2) as (o3 & -> & _). }
  exists svc. split; [done|]. by apply set_ip_spec in E as [? _].
Qed.

Lemma try_offsets_finds base cidr namespace name obj s o offsets : ∀ taken,
  live s → 0 ≤ base → (∀ x, x ∈ offsets → 0 ≤ x) → is_object obj = true → is_object obj.["spec"] = true →
  o ∈ offsets → base + o ≤ u32_max → base + o ∉ taken → contains_key (view s) (ip_key (show_ipv4 (base + o))) = false →
  ∃ s' svc x, try_offsets float_text base offsets taken cidr namespace name obj (mkWorld s []) = (mkWorld s' [], Some (Ok svc)) ∧
    x ∈ offsets ∧ base + x ≤ u32_max ∧ held_ip svc = Some (show_ipv4 (base + x)) ∧
    contains_key (view s) (ip_key (show_ipv4 (base + x))) = false ∧
    contains_key (view s') (ip_key (show_ipv4 (base + x))) = true.
Proof.
  intros taken (Hwf & Hs & Hroom) Hb Hpos Hobj Hspec Ho Hmax. revert taken.
  induction offsets as [|x offsets IH]; [by apply elem_of_nil in Ho|]. intros taken Ht Hfree.
  assert (∀ taken, (o = x → False) → base + o ∉ taken →
    ∃ s' svc y, try_offsets float_text base offsets taken cidr namespace name obj (mkWorld s []) = (mkWorld s' [], Some (Ok svc)) ∧
    y ∈ x :: offsets ∧ base + y ≤ u32_max ∧ held_ip svc = Some (show_ipv4 (base + y)) ∧
    contains_key (view s) (ip_key (show_ipv4 (base + y))) = false ∧
    contains_key (view s') (ip_key (show_ipv4 (base + y))) = true) as Hskip.
  { intros taken' Hne Ht'. apply elem_of_cons in Ho as [?|Ho]; [done|].
    destruct (IH ltac:(set_solver) Ho taken' Ht' Hfree) as (s' & svc & y & E & Hy & Hrest).
    exists s', svc, y. split; [done|]. split; [by apply elem_of_cons; right|done]. }
  cbn [try_offsets]. destruct (u32_max <? base + x) eqn:Eu; [apply Hskip; [|done]; apply Z.ltb_lt in Eu; lia|]. apply Z.ltb_ge in Eu.
  case_bool_decide as Hin; [apply Hskip; [intros ->; done|done]|]. unfold mthen, claim_ip.
  pose proof (claim_at_spec (mkWorld s []) (ip_key (show_ipv4 (base + x))) _ Hwf Hs Hroom
    (ip_record_storable _ (show_ipv4 (base + x)) name namespace)) as Hc. cbn [meanwhile others st] in Hc.
  destruct (contains_key (view s) (ip_key (show_ipv4 (base + x)))) eqn:Ek.
  - rewrite Hc. apply Hskip; [by intros ->; congruence|]. apply not_elem_of_cons. split; [|done]. intros He.
    rewrite He in Hfree. congruence.
  - destruct Hc as (s' & b & -> & _ & _ & _ & Hv). destruct (set_ip_total obj (show_ipv4 (base + x)) Hobj Hspec) as (svc & Es & Hip).
    rewrite Es. exists s', svc, x. split_and!; [done|set_solver|done| |done|].
    + unfold held_ip. rewrite Hip. cbn [as_str]. rewrite show_ipv4_held; [done|]. specialize (Hpos x ltac:(set_solver)). lia.
    + rewrite Hv. unfold contains_key. by rewrite map_get_insert_eq.
Qed.

(** A Service without an address gets one while any is left.  If some address
    of the range other than its first and last is neither claimed nor thought
    claimed, the allocation succeeds, with an address of the range that nobody
    had claimed and that is claimed afterwards. *)
Theorem free_address_found cidr keys start obj s base prefix o :
  let count := 2 ^ (32 - Z.min prefix 32) in
  live s → has_cluster_ip obj = true → is_object obj = true → is_object obj.["spec"] = true →
  str_or "" obj.["spec"].["clusterIP"] = "" → parse_cidr cidr = Some (base, prefix) → 0 ≤ start →
  1 ≤ o < count - 1 → base + o ≤ u32_max → base + o ∉ claimed_ips keys →
  contains_key (view s) (ip_key (show_ipv4 (base + o))) = false →
  ∃ s' svc v, allocate_ip float_text cidr keys start obj (mkWorld s []) = (mkWorld s' [], Some (Ok svc)) ∧
    base < v < base + count - 1 ∧ v ≤ u32_max ∧ held_ip svc = Some (show_ipv4 v) ∧
    contains_key (view s) (ip_key (show_ipv4 v)) = false ∧ contains_key (view s') (ip_key (show_ipv4 v)) = true.
Proof.
  intros count Hl Hc Hobj Hspec Hempty Hcidr Hstart Ho Hmax Hnt Hfree.
  pose proof (parse_cidr_range _ _ _ Hcidr) as Hb.
  assert (∀ x, x ∈ candidates count start ↔ 1 ≤ x < count - 1) as Hin.
  { intros x. rewrite candidates_exact by lia. rewrite elem_of_seqZ. lia. }
  destruct (try_offsets_finds base cidr (namespace_of obj) (name_of obj) obj s o (candidates count start) (claimed_ips keys))
    as (s' & svc & x & E & Hx & Hrest); try done; [intros x Hx; apply Hin in Hx; lia|by apply Hin|].
  exists s', svc, (base + x). apply Hin in Hx. split; [|by split; [lia|]]. unfold allocate_ip.
  unfold has_cluster_ip, svc_type in Hc. apply negb_true_iff in Hc. rewrite Hc, Hcidr. unfold str_or in Hempty.
  destruct (as_str obj.["spec"].["clusterIP"]) as [a|]; [|done]. cbn in Hempty. subst a. done.
Qed.

(** ** Plans *)

(** The names in the object are JSON the store takes. *)
Definition named (svc : Value) : Prop :=
  wf_value svc.["metadata"].["name"] = true ∧ no_floats svc.["metadata"].["name"] = true ∧
  wf_value svc.["metadata"].["namespace"] = true ∧ no_floats svc.["metadata"].["namespace"] = true.

Lemma named_ext svc svc' : svc'.["metadata"] = svc.["metadata"] → named svc → named svc'.
Proof. unfold named. by intros ->. Qed.

Lemma port_record_storable key port svc :
  named svc → 0 ≤ port ≤ u16_max →
  storable float_text key (json_obj [("name", svc.["metadata"].["name"]); ("namespace", svc.["metadata"].["namespace"]);
                                     ("port", Num (PosInt port))]).
Proof.
  intros (Hn1 & Hn2 & Hn3 & Hn4) Hp. set (a := svc.["metadata"].["name"]) in *. set (b := svc.["metadata"].["namespace"]) in *.
  change (json_obj _) with (Object [("name", a); ("namespace", b); ("port", Num (PosInt port))]).
  apply tidy_storable; [done|..]; cbn [wf_value no_floats forallb snd].
  - rewrite Hn1, Hn3. change (keys_sorted _) with true. cbn -[Z.leb Z.ltb]. unfold u16_max in Hp. unfold u64_max. lia.
  - by rewrite Hn2, Hn4.
Qed.

(** How far an attempt has come: what [plan] lists is claimed over [base], and
    there is room to give it back and for [n] more writes. *)
Definition progress (base : View) (n : Z) (plan : Plan) s : Prop :=
  claims_over base (view s) (claimed plan) ∧ ready (n + Z.of_nat (length (claimed plan))) s.

Definition grown (plan plan' : Plan) : Prop :=
  release plan' = release plan ∧ ∀ k, k ∈ claimed plan → k ∈ claimed plan'.

Lemma grown_refl plan : grown plan plan.
Proof. by split. Qed.
Lemma grown_push plan plan' k : grown (push_claim plan k) plan' → grown plan plan' ∧ k ∈ claimed plan'.
Proof. intros [Hr Hc]. split; [split; [done|]; intros k' Hk'|]; apply Hc; cbn; set_solver. Qed.

Lemma progress_le base n m plan s : progress base n plan s → 0 ≤ m ≤ n → progress base m plan s.
Proof. intros [Hc Hr] Hm. split; [done|]. eapply ready_le; [done|]. lia. Qed.

(** A claim either fails and changes nothing or puts its key on the plan. *)
Lemma progress_claim base n plan s key rec :
  progress base (n + 2) plan s → 0 ≤ n → storable float_text key rec →
  claim_at float_text key rec (mkWorld s []) = (mkWorld s [], Some (Ok false)) ∧ contains_key (view s) key = true ∨
  ∃ s', claim_at float_text key rec (mkWorld s []) = (mkWorld s' [], Some (Ok true)) ∧ progress base n (push_claim plan key) s' ∧
    contains_key (view s) key = false.
Proof.
  intros [Hc Hr] Hn Hrec. pose proof (ready_room _ _ Hr ltac:(lia)) as (Hwf & Hs & Hroom).
  pose proof (claim_at_spec (mkWorld s []) key rec Hwf Hs Hroom Hrec) as Hspec. cbn [meanwhile others st] in Hspec.
  destruct (contains_key (view s) key) eqn:Ek; [left; done|right].
  destruct Hspec as (s' & b & -> & Hwf' & Hs' & Hone & Hv). exists s'. split_and!; [done| |done]. split.
  - cbn [push_claim claimed]. rewrite Hv. by apply claims_over_insert.
  - destruct Hr as (_ & _ & _ & Hr). split_and!; [done|done|lia|]. cbn [push_claim claimed]. rewrite length_app. cbn. lia.
Qed.

Lemma progress_claim_port base n plan s port svc :
  progress base (n + 2) plan s → 0 ≤ n → named svc → 0 ≤ port ≤ u16_max →
  claim_port float_text port svc (mkWorld s []) = (mkWorld s [], Some (Ok false)) ∧ contains_key (view s) (port_key port) = true ∨
  ∃ s', claim_port float_text port svc (mkWorld s []) = (mkWorld s' [], Some (Ok true)) ∧
    progress base n (push_claim plan (port_key port)) s' ∧ contains_key (view s) (port_key port) = false.
Proof. intros Hp Hn Hsvc Hport. by apply progress_claim; [..|apply port_record_storable]. Qed.

Lemma node_port_range p : wf_value p = true → 0 ≤ node_port p ≤ u16_max.
Proof.
  intros Hp. pose proof (wf_index p "nodePort" Hp) as Hw. unfold node_port, as_u64.
  destruct p.["nodePort"] as [| |[z|z|f]| | |]; cbn -[Z.leb Z.ltb] in Hw; unfold u16_max; try lia.
  destruct (z <=? 65535) eqn:E; lia.
Qed.

Lemma named_ports_progress base new before ports : ∀ n taken by_number plan errs s,
  named new → Forall (λ ip : nat * Value, wf_value ip.2 = true) ports → 0 ≤ n →
  progress base (n + 2 * Z.of_nat (length ports)) plan s →
  ∃ s' taken' errs' plan',
    named_ports float_text new before ports taken by_number plan errs (mkWorld s []) = (mkWorld s' [], Some (Ok (taken', errs'), plan')) ∧
    progress base n plan' s' ∧ grown plan plan' ∧
    (∀ x, x ∈ taken' → x ∈ taken ∨ x ∈ before ∨ port_key x ∈ claimed plan') ∧ (∀ x, x ∈ taken → x ∈ taken') ∧
    (∀ e, e ∈ errs → e ∈ errs') ∧
    (errs' = [] → ∀ ip, ip ∈ ports → node_port ip.2 ≠ 0 → node_port ip.2 ∈ taken').
Proof.
  induction ports as [|[i p] ports IH]; intros n taken by_number plan errs s Hnew Hwf Hn Hp.
  { exists s, taken, errs, plan. split_and!; try done; [|set_solver|set_solver]. eapply progress_le; [done|]. lia. }
  inversion Hwf as [|? ? Hwp Hwf']; subst. cbn [length] in Hp. pose proof (node_port_range p Hwp) as Hrange.
  assert (progress base (n + 2 * Z.of_nat (length ports)) plan s) as Hp' by (eapply progress_le; [done|lia]).
  cbn [named_ports]. destruct (node_port p =? 0) eqn:E0.
  { destruct (IH n taken by_number plan errs s Hnew Hwf' Hn Hp') as (s' & t' & e' & plan' & E & Hpr & Hex & H3 & H4 & H5 & H6).
    exists s', t', e', plan'. split_and!; try done. intros He ip Hip. apply elem_of_cons in Hip as [->|Hip]; [cbn; lia|by apply H6]. }
  destruct (existsb _ by_number).
  { edestruct (IH n taken by_number plan) as (s' & t' & e' & plan' & E & Hpr & Hex & H3 & H4 & H5 & H6); [done..|].
    exists s', t', e', plan'. split; [exact E|]. split_and!; try done; [set_solver|]. intros ->.
    exfalso. eapply not_elem_of_nil, H5, elem_of_app. right. by apply list_elem_of_singleton. }
  set (bn := (by_number ++ [(node_port p, proto p)])%list).
  destruct (bool_decide (node_port p ∈ before) || bool_decide (node_port p ∈ taken)) eqn:Eh.
  { destruct (IH n (node_port p :: taken) bn plan errs s Hnew Hwf' Hn Hp') as (s' & t' & e' & plan' & E & Hpr & Hex & H3 & H4 & H5 & H6).
    exists s', t', e', plan'. split_and!; try done; [|set_solver|].
    - intros x Hx. apply H3 in Hx as [Hx|Hx]; [|by right]. apply elem_of_cons in Hx as [->|Hx]; [|by left].
      apply orb_true_iff in Eh as [Eh|Eh]; apply bool_decide_eq_true in Eh; auto.
    - intros He ip Hip Hz. apply elem_of_cons in Hip as [->|Hip]; [apply H4; set_solver|by apply H6]. }
  destruct (progress_claim_port base (n + 2 * Z.of_nat (length ports)) plan s (node_port p) new) as [[Ec _]|(s1 & Ec & Hp1 & _)];
    [eapply progress_le; [exact Hp|lia]|lia|done|done|..]; rewrite Ec.
  - edestruct (IH n taken bn plan) as (s' & t' & e' & plan' & E & Hpr & Hex & H3 & H4 & H5 & H6); [done..|].
    exists s', t', e', plan'. split; [exact E|]. split_and!; try done; [set_solver|]. intros ->.
    exfalso. eapply not_elem_of_nil, H5, elem_of_app. right. by apply list_elem_of_singleton.
  - destruct (IH n (node_port p :: taken) bn (push_claim plan (port_key (node_port p))) errs s1 Hnew Hwf' Hn Hp1)
      as (s' & t' & e' & plan' & E & Hpr & Hex & H3 & H4 & H5 & H6).
    apply grown_push in Hex as [Hex Hk]. exists s', t', e', plan'. split_and!; try done; [|set_solver|].
    + intros x Hx. apply H3 in Hx as [Hx|Hx]; [|by right]. apply elem_of_cons in Hx as [->|Hx]; [by right; right|by left].
    + intros He ip Hip Hz. apply elem_of_cons in Hip as [->|Hip]; [apply H4; set_solver|by apply H6].
Qed.

Lemma first_port_progress base n plan new avoid ports : ∀ seen s,
  progress base (n + 2) plan s → 0 ≤ n → named new → (∀ x, x ∈ ports → 0 ≤ x ≤ u16_max) →
  ∃ s' r seen', first_port float_text new avoid ports seen (mkWorld s []) = (mkWorld s' [], Some (Ok (r, seen'))) ∧
    match r with
    | None => progress base n plan s'
    | Some port => port ∈ ports ∧ port ∉ avoid ∧ progress base n (push_claim plan (port_key port)) s'
    end.
Proof.
  induction ports as [|x ports IH]; intros seen s Hp Hn Hnew Hr.
  { exists s, None, seen. split; [done|]. eapply progress_le; [done|lia]. }
  assert (∀ seen, ∃ s' r seen', first_port float_text new avoid ports seen (mkWorld s []) = (mkWorld s' [], Some (Ok (r, seen'))) ∧
    match r with
    | None => progress base n plan s'
    | Some port => port ∈ x :: ports ∧ port ∉ avoid ∧ progress base n (push_claim plan (port_key port)) s'
    end) as Hnext.
  { intros seen'. destruct (IH seen' s Hp Hn Hnew ltac:(set_solver)) as (s' & r & v' & E & Hrest). exists s', r, v'. split; [done|].
    destruct r; [|done]. split; [set_solver|]. by destruct Hrest. }
  cbn [first_port]. destruct (bool_decide (x ∈ seen) || bool_decide (x ∈ avoid)) eqn:Eh; [apply Hnext|].
  apply orb_false_iff in Eh as [_ Hav]. apply bool_decide_eq_false in Hav. unfold mthen.
  destruct (progress_claim_port base n plan s x new) as [[-> _]|(s1 & -> & Hp1 & _)]; [done|done|done|set_solver|apply Hnext|].
  exists s1, (Some x), seen. split; [done|]. split; [set_solver|done].
Qed.

Lemma items_set2 v x v2 : set_index2 v "spec" "ports" (Array x) = Some v2 → items v2.["spec"].["ports"] = x.
Proof. intros E. apply index2_set_index2 in E. by rewrite E. Qed.

Lemma elem_of_held svc x : x ∈ held_ports svc ↔ x ≠ 0 ∧ ∃ p, p ∈ items svc.["spec"].["ports"] ∧ node_port p = x.
Proof.
  unfold held_ports. rewrite elem_of_filter_b, list_elem_of_fmap, negb_true_iff, Z.eqb_neq. split.
  - intros [(p & -> & Hp) Hx]. split; [done|]. by exists p.
  - intros [Hx (p & Hp & <-)]. split; [by exists p|done].
Qed.

Lemma live_ip_ext svc svc' :
  svc'.["spec"].["type"] = svc.["spec"].["type"] → svc'.["spec"].["clusterIP"] = svc.["spec"].["clusterIP"] → live_ip svc' = live_ip svc.
Proof. intros E1 E2. unfold live_ip, has_cluster_ip, svc_type, held_ip. by rewrite E1, E2. Qed.

Lemma set_port_spec new i port new' :
  set_port new i port = Some new' → 0 ≤ port ≤ u16_max →
  (∀ x, x ∈ held_ports new' → x ∈ held_ports new ∨ x = port) ∧ new'.["metadata"] = new.["metadata"] ∧ live_ip new' = live_ip new.
Proof.
  unfold set_port. intros E Hport. destruct (as_array new.["spec"].["ports"]) as [ports|] eqn:Ep; [|done].
  destruct (ports !! i) as [p|] eqn:Ei; [|done]. cbn [mbind option_bind] in E.
  destruct (set_index p "nodePort" (Num (PosInt port))) as [p'|] eqn:Es; [|done]. cbn [mbind option_bind] in E. split_and!.
  - intros x. rewrite !elem_of_held, (items_set2 _ _ _ E). intros [Hx (q & Hq & Hn)].
    apply list_elem_of_lookup in Hq as [j Hq]. apply list_lookup_insert_Some in Hq as [(-> & <- & _)|[_ Hq]].
    + right. unfold node_port in Hn. rewrite (index_set_index _ _ _ _ Es) in Hn. cbn [as_u64] in Hn.
      destruct (port <=? u16_max) eqn:El; lia.
    + left. split; [done|]. exists q. split; [|done]. unfold items. rewrite Ep. by eapply list_elem_of_lookup_2.
  - by apply (set_index2_inner _ _ _ _ _ E).
  - apply live_ip_ext; by apply (index2_set_index2_ne _ _ _ _ _ _ E).
Qed.

Lemma port_candidates_range range start x :
  fst range ≤ snd range → x ∈ port_candidates range start → fst range ≤ x ≤ snd range.
Proof.
  intros Hr Hx. unfold port_candidates in Hx. apply list_elem_of_fmap in Hx as (o & -> & _).
  pose proof (Z.mod_pos_bound (start mod (snd range - fst range + 1) + o) (snd range - fst range + 1) ltac:(lia)). lia.
Qed.

Lemma dynamic_ports_progress base n range starts before idx : ∀ new seen taken plan s w' r,
  0 < fst range ≤ snd range → snd range ≤ u16_max → named new → 0 ≤ n → progress base (n + 2 * Z.of_nat (length idx)) plan s →
  dynamic_ports float_text range starts before idx new seen taken plan (mkWorld s []) = (w', Some r) →
  ∃ s', w' = mkWorld s' [] ∧ progress base n (snd r) s' ∧
    match fst r with
    | Err _ => True
    | Ok (new', taken') => grown plan (snd r) ∧ (∀ x, x ∈ taken → x ∈ taken') ∧ live_ip new' = live_ip new ∧
        (∀ x, x ∈ held_ports new' → x ∈ held_ports new ∨ port_key x ∈ claimed (snd r) ∧ x ∈ taken' ∧ 0 ≤ x)
    end.
Proof.
  induction idx as [|i idx IH]; intros new seen taken plan s w' r Hlo Hhi Hnew Hn Hp; cbn [dynamic_ports].
  { intros [= <- <-]. exists s. split; [done|]. split; [eapply progress_le; [done|lia]|]. split_and!; [apply grown_refl|by auto..]. }
  cbn [length] in Hp. case_match; [apply IH; try done; eapply progress_le; [done|lia]|].
  destruct (first_port_progress base (n + 2 * Z.of_nat (length idx)) plan new (taken ++ before) (port_candidates range (starts i)) seen s)
    as (s1 & got & seen' & -> & Hgot); [eapply progress_le; [done|lia]|lia|done| |].
  { intros x Hx. apply port_candidates_range in Hx; lia. }
  destruct got as [port|].
  2:{ intros [= <- <-]. exists s1. split_and!; [done| |done]. eapply progress_le; [done|lia]. }
  destruct Hgot as (Hport & _ & Hp1). apply port_candidates_range in Hport; [|lia].
  destruct (set_port new i port) as [new1|] eqn:Es; [|done].
  destruct (set_port_spec _ _ _ _ Es ltac:(lia)) as (Hheld & Hmeta & Hip). intros E.
  destruct (IH new1 seen' (port :: taken) _ s1 w' r Hlo Hhi (named_ext _ _ Hmeta Hnew) Hn Hp1 E) as (s' & -> & Hpr & Hr).
  exists s'. split_and!; [done|done|]. destruct (fst r) as [[new' taken']|]; [|done]. destruct Hr as (Hex & Ht & Hl & Hh).
  apply grown_push in Hex as [Hex Hk]. split_and!; [done|set_solver|congruence|]. intros x Hx.
  apply Hh in Hx as [Hx|Hx]; [|by right]. apply Hheld in Hx as [Hx| ->]; [by left|right]. split_and!; [done|set_solver|lia].
Qed.

Lemma try_offsets_progress base n m cidr namespace name obj offsets : ∀ taken s w' r,
  progress base (n + 2) no_plan s → 0 ≤ n → 0 ≤ m → (∀ x, x ∈ offsets → 0 ≤ x) →
  try_offsets float_text m offsets taken cidr namespace name obj (mkWorld s []) = (w', Some r) →
  ∃ s', w' = mkWorld s' [] ∧
    match r with
    | Err _ => progress base n no_plan s'
    | Ok svc => ∃ ip, set_ip obj ip = Some svc ∧ held_ip svc = Some ip ∧ progress base n (push_claim no_plan (ip_key ip)) s'
    end.
Proof.
  induction offsets as [|x offsets IH]; intros taken s w' r Hp Hn Hm Hpos; cbn [try_offsets].
  { intros [= <- <-]. exists s. split; [done|]. eapply progress_le; [done|lia]. }
  assert (∀ taken, try_offsets float_text m offsets taken cidr namespace name obj (mkWorld s []) = (w', Some r) → _) as Hnext
    by (intros taken'; apply IH; [done|done|done|set_solver]).
  destruct (u32_max <? m + x); [apply Hnext|]. case_bool_decide; [apply Hnext|]. unfold mthen, claim_ip.
  destruct (progress_claim base n no_plan s (ip_key (show_ipv4 (m + x))) _ Hp Hn (ip_record_storable _ (show_ipv4 (m + x)) name namespace))
    as [[-> _]|(s1 & -> & Hp1 & _)]; [apply Hnext|].
  destruct (set_ip obj (show_ipv4 (m + x))) as [svc|] eqn:Es; [|done]. intros [= <- <-]. exists s1. split; [done|].
  exists (show_ipv4 (m + x)). split_and!; [done| |done]. apply set_ip_spec in Es as [Hip _]. unfold held_ip. rewrite Hip. cbn [as_str].
  rewrite show_ipv4_held; [done|]. specialize (Hpos x ltac:(set_solver)). lia.
Qed.

Lemma candidates_nonneg prefix start x : 0 ≤ start → x ∈ candidates (2 ^ (32 - Z.min prefix 32)) start → 0 ≤ x.
Proof. intros _ Hx. unfold candidates in Hx. apply elem_of_filter_b in Hx as [_ Hu]. unfold usable in Hu. lia. Qed.

(** The plan an allocated address makes. *)
Definition ip_plan (svc : Value) : Plan :=
  match held_ip svc with Some ip => push_claim no_plan (ip_key ip) | None => no_plan end.

Definition same_ports (svc obj : Value) : Prop :=
  svc.["metadata"] = obj.["metadata"] ∧ svc.["spec"].["ports"] = obj.["spec"].["ports"].

Lemma allocate_ip_progress base n cidr keys start obj s w' r :
  progress base (n + 2) no_plan s → 0 ≤ n → 0 ≤ start → has_cluster_ip obj = true →
  allocate_ip float_text cidr keys start obj (mkWorld s []) = (w', Some r) →
  ∃ s', w' = mkWorld s' [] ∧
    match r with
    | Err _ => progress base n no_plan s'
    | Ok svc => progress base n (ip_plan svc) s' ∧ has_cluster_ip svc = true ∧ same_ports svc obj
    end.
Proof.
  intros Hp Hn Hstart Hc. unfold allocate_ip. pose proof Hc as Hc'. unfold has_cluster_ip, svc_type in Hc'.
  apply negb_true_iff in Hc'. rewrite Hc'.
  assert (progress base n no_plan s) as Hp0 by (eapply progress_le; [done|lia]).
  assert (∀ x o, set_index2 obj "spec" "clusterIPs" x = Some o →
    held_ip o = held_ip obj ∧ has_cluster_ip o = true ∧ same_ports o obj) as Hset.
  { intros x o E. pose proof (λ k, index2_set_index2_ne _ _ _ _ _ k E) as Hne.
    split_and!; [unfold held_ip; by rewrite Hne|unfold has_cluster_ip, svc_type; by rewrite Hne|].
    split; [by apply (set_index2_inner _ _ _ _ _ E)|by rewrite Hne]. }
  assert (held_ip obj = None → (match parse_cidr cidr with None => mret obj | Some (b, prefix) =>
     try_offsets float_text b (candidates (2 ^ (32 - Z.min prefix 32)) start) (claimed_ips keys) cidr (namespace_of obj) (name_of obj) obj end)
     (mkWorld s []) = (w', Some r) → ∃ s', w' = mkWorld s' [] ∧
    match r with
    | Err _ => progress base n no_plan s'
    | Ok svc => progress base n (ip_plan svc) s' ∧ has_cluster_ip svc = true ∧ same_ports svc obj
    end) as Hdyn.
  { intros Hnone E. destruct (parse_cidr cidr) as [[b prefix]|] eqn:Ecidr.
    - apply parse_cidr_range in Ecidr. destruct (try_offsets_progress base n b _ _ _ _ _ _ _ _ _ Hp Hn Ecidr (λ x, candidates_nonneg prefix start x Hstart) E)
        as (s' & -> & Hr). exists s'. split; [done|]. destruct r as [svc|]; [|done]. destruct Hr as (ip & Es & Hip & Hpr).
      unfold ip_plan. rewrite Hip. destruct (set_ip_spec _ _ _ Es) as (_ & ? & ? & Hcl). split_and!; [done|by apply Hcl|done].
    - injection E as <- <-. exists s. split; [done|]. unfold ip_plan. rewrite Hnone. done. }
  destruct (as_str obj.["spec"].["clusterIP"]) as [a|] eqn:Ea; [|apply Hdyn; unfold held_ip; by rewrite Ea].
  destruct (a =? "None")%kube eqn:En.
  { destruct (set_index2 obj "spec" "clusterIPs" _) as [o|] eqn:Es; [|done]. intros [= <- <-]. exists s. split; [done|].
    destruct (Hset _ _ Es) as (Hh & ? & ?). unfold ip_plan. rewrite Hh. unfold held_ip. by rewrite Ea, En. }
  destruct (is_empty_str a) eqn:Ee; cbn [negb]; [apply Hdyn; unfold held_ip; by rewrite Ea, En, Ee|]. unfold mthen, claim_ip.
  destruct (progress_claim base n no_plan s (ip_key a) _ Hp Hn (ip_record_storable _ a (name_of obj) (namespace_of obj)))
    as [[-> _]|(s1 & -> & Hp1 & _)]; [intros [= <- <-]; by exists s|].
  destruct (set_index2 obj "spec" "clusterIPs" _) as [o|] eqn:Es; [|done]. intros [= <- <-]. exists s1. split; [done|].
  destruct (Hset _ _ Es) as (Hh & ? & ?). unfold ip_plan. rewrite Hh. unfold held_ip. by rewrite Ea, En, Ee.
Qed.

Lemma push_releases keys : ∀ plan, fold_left push_release keys plan = mkPlan (claimed plan) (release plan ++ keys)%list.
Proof.
  induction keys as [|k keys IH]; intros [c r]; cbn [fold_left push_release claimed release]; [by rewrite app_nil_r|].
  rewrite IH. cbn [push_release claimed release]. by rewrite <- app_assoc.
Qed.

Lemma elem_of_indexed {A} (l : list A) x : x ∈ l ↔ ∃ i, (i, x) ∈ indexed l.
Proof.
  unfold indexed. split.
  - intros Hx. apply list_elem_of_lookup in Hx as [i Hi]. exists i. apply list_elem_of_lookup. exists i.
    apply lookup_zip_with_Some. exists i, x. split_and!; [done| |done]. apply lookup_seq. split; [lia|]. by apply lookup_lt_Some in Hi.
  - intros [i Hi]. by apply elem_of_zip_r in Hi.
Qed.

Lemma allocate_ports_progress base n env old new plan s w' r plan' :
  0 < fst (e_range env) ≤ snd (e_range env) → snd (e_range env) ≤ u16_max →
  named new → wf_value new.["spec"].["ports"] = true → 0 ≤ n →
  progress base (n + 4 * Z.of_nat (length (items new.["spec"].["ports"]))) plan s →
  allocate_ports float_text env old new plan (mkWorld s []) = (w', Some (r, plan')) →
  ∃ s', w' = mkWorld s' [] ∧ progress base n plan' s' ∧
    match r with
    | Err _ => True
    | Ok svc => live_ip svc = live_ip new ∧ (∀ k, k ∈ claimed plan → k ∈ claimed plan') ∧
        ∃ gone, release plan' = (release plan ++ (port_key <$> gone))%list ∧ (∀ x, x ∈ gone → x ∈ default [] (held_ports <$> old)) ∧
        ∀ x, x ∈ held_ports svc → (x ∈ default [] (held_ports <$> old) ∨ port_key x ∈ claimed plan') ∧ 0 ≤ x ∧ x ∉ gone
    end.
Proof.
  intros Hlo Hhi Hnew Hwf Hn Hp. unfold allocate_ports. set (ports := items new.["spec"].["ports"]) in *.
  set (before := default [] (held_ports <$> old)).
  assert (∀ p, p ∈ ports → wf_value p = true) as Hwp.
  { intros p Hin. unfold ports, items, as_array in Hin. destruct new.["spec"].["ports"] as [| | | |l|]; try by apply elem_of_nil in Hin.
    cbn in Hin, Hwf. apply forallb_forall with (x := p) in Hwf; [done|]. by apply list_elem_of_In. }
  destruct (named_ports_progress base new before (indexed ports) (n + 2 * Z.of_nat (length ports)) [] [] plan [] s)
    as (s1 & taken & errs & plan1 & -> & Hp1 & Hex1 & Hfrom & _ & _ & Hall); [done| |lia| |].
  { apply Forall_forall. intros [i p] Hip. apply Hwp, elem_of_indexed. by exists i. }
  { eapply progress_le; [done|]. unfold indexed. rewrite length_zip_with, length_seq. lia. }
  destruct errs as [|e errs]; [|intros [= <- <- <-]; exists s1; split_and!; [done|eapply progress_le; [done|lia]|done]].
  specialize (Hall eq_refl).
  assert (∀ x, x ∈ held_ports new → x ∈ taken ∧ 0 ≤ x) as Hheld.
  { intros x Hx. apply elem_of_held in Hx as [Hx (p & Hin & <-)]. split; [|by apply node_port_range, Hwp].
    apply elem_of_indexed in Hin as [i Hi]. by apply (Hall (i, p)). }
  assert (∀ w2 svc (taken2 : list Z) plan2 s2, progress base n plan2 s2 → w2 = mkWorld s2 [] → grown plan1 plan2 →
    (∀ x, x ∈ taken → x ∈ taken2) → live_ip svc = live_ip new →
    (∀ x, x ∈ held_ports svc → x ∈ held_ports new ∨ port_key x ∈ claimed plan2 ∧ x ∈ taken2 ∧ 0 ≤ x) →
    (w2, Some (Ok svc, fold_left push_release (port_key <$> List.filter (λ n, negb (bool_decide (n ∈ taken2))) (remove_dups before)) plan2))
    = (w', Some (r, plan')) → ∃ s', w' = mkWorld s' [] ∧ progress base n plan' s' ∧
    match r with
    | Err _ => True
    | Ok svc => live_ip svc = live_ip new ∧ (∀ k, k ∈ claimed plan → k ∈ claimed plan') ∧
        ∃ gone, release plan' = (release plan ++ (port_key <$> gone))%list ∧ (∀ x, x ∈ gone → x ∈ before) ∧
        ∀ x, x ∈ held_ports svc → (x ∈ before ∨ port_key x ∈ claimed plan') ∧ 0 ≤ x ∧ x ∉ gone
    end) as Hfinish.
  { intros w2 svc taken2 plan2 s2 Hp2 -> [Hr2 Hc2] Ht2 Hip2 Hh2 [= <- <- <-]. rewrite push_releases. exists s2. split; [done|].
    split; [done|]. cbn [claimed release]. destruct Hex1 as [Hr1 Hc1]. split_and!; [done|by auto|]. eexists. split; [by rewrite Hr2, Hr1|]. split.
    - intros x Hx. apply elem_of_filter_b in Hx as [Hx _]. by rewrite elem_of_remove_dups in Hx.
    - intros x Hx. assert ((x ∈ before ∨ port_key x ∈ claimed plan2) ∧ x ∈ taken2 ∧ 0 ≤ x) as (Hc & Hin & Hpos).
      { apply Hh2 in Hx as [Hx|(? & ? & ?)]; [|by auto]. apply Hheld in Hx as [Hx Hpos]. split_and!; [|by auto|done].
        apply Hfrom in Hx as [Hx|[Hx|Hx]]; [by apply elem_of_nil in Hx|by left|right; by auto]. }
      split_and!; [done|done|]. rewrite elem_of_filter_b, negb_true_iff, bool_decide_eq_false. by intros [_ ?]. }
  destruct (allocates new).
  - destruct (dynamic_ports float_text (e_range env) (e_port_starts env) before _ new _ taken plan1 (mkWorld s1 [])) as [w2 [r2|]] eqn:Ed; [|done].
    destruct (dynamic_ports_progress base n _ _ _ _ _ _ _ _ _ _ _ Hlo Hhi Hnew Hn ltac:(by rewrite length_seq) Ed) as (s2 & -> & Hp2 & Hr2).
    destruct r2 as [[[svc taken2]|e] plan2]; cbn [fst snd] in *.
    + destruct Hr2 as (? & ? & ? & ?). by apply (Hfinish _ _ _ _ s2).
    + intros [= <- <- <-]. by exists s2.
  - apply (Hfinish _ _ _ _ s1); try done; [eapply progress_le; [done|lia]|by auto].
Qed.

Lemma live_ip_Some svc ip :
  live_ip svc = Some ip → has_cluster_ip svc = true ∧ svc.["spec"].["clusterIP"] = Str ip ∧ is_empty_str ip = false ∧ (ip =? "None")%kube = false.
Proof.
  unfold live_ip. destruct (has_cluster_ip svc); [|done]. unfold held_ip, as_str.
  destruct svc.["spec"].["clusterIP"] as [| | |a| |]; try done. destruct (a =? "None")%kube eqn:En; [done|].
  destruct (is_empty_str a) eqn:Ee; [done|]. by intros [= <-].
Qed.

(** An update that keeps an address keeps the one the object had. *)
Lemma patch_keeps_ip range old new svc ip :
  patch_and_check range (Some old) new = Some (Ok svc) → live_ip old = Some ip → has_cluster_ip svc = true →
  svc.["spec"].["clusterIP"] = Str ip.
Proof.
  unfold patch_and_check. destruct (patch_ip old new) as [[n e]|] eqn:Eip; cbn [mbind option_bind]; [|done].
  destruct (patch_ports old n) as [n'|] eqn:Ep; cbn [mbind option_bind]; [|done]. intros E Hold Hc.
  assert (n' = svc ∧ e = []) as [-> ->].
  { destruct e as [|x e]; [|done]. destruct (_ ++ _ ++ _)%list; [by injection E as <-|done]. }
  assert (svc.["spec"].["clusterIP"] = n.["spec"].["clusterIP"] ∧ svc.["spec"].["type"] = n.["spec"].["type"]) as [Hip Ht].
  { unfold patch_ports, touch2 in Ep. destruct (match Json.get n.["spec"] "ports" with Some _ => Some n | None => _ end) as [n1|] eqn:E1; [|done].
    cbn [mbind option_bind] in Ep.
    assert (∀ k, k ≠ "ports" → n1.["spec"].[k] = n.["spec"].[k]) as Hn1.
    { intros k Hk. destruct (Json.get n.["spec"] "ports"); [by injection E1 as <-|]. by apply (index2_set_index2_ne _ _ _ _ _ _ E1). }
    rewrite <- !Hn1 by done. destruct (as_array n1.["spec"].["ports"]) as [l|]; [|by injection Ep as <-].
    destruct (mapM _ l) as [l'|]; [|done]. cbn [mbind option_bind] in Ep.
    split; by rewrite (index2_set_index2_ne _ _ _ _ _ _ Ep). }
  rewrite Hip. assert (has_cluster_ip n = true) as Hn by (unfold has_cluster_ip, svc_type in *; by rewrite <- Ht).
  apply live_ip_Some in Hold as (Hco & Hio & Hne & _). unfold patch_ip in Eip. rewrite Hco, Hio, str_or_Str, Hne in Eip.
  cbn [negb andb] in Eip. destruct (has_cluster_ip new) eqn:Ecn.
  - destruct (is_empty_str (str_or "" new.["spec"].["clusterIP"])) eqn:En.
    + destruct (set_index2 new "spec" "clusterIP" (Str ip)) as [n1|] eqn:E1; [|done]. cbn [mbind option_bind] in Eip.
      apply index2_set_index2 in E1. destruct (is_array old.["spec"].["clusterIPs"]); cbn [mbind option_bind] in Eip; [|by injection Eip as <-].
      destruct (set_index2 n1 "spec" "clusterIPs" _) as [n2|] eqn:E2; [|done]. injection Eip as <-.
      by rewrite (index2_set_index2_ne _ _ _ _ _ _ E2).
    + destruct (str_or "" new.["spec"].["clusterIP"] =? ip)%kube eqn:Eq; cbn [negb] in Eip; [|done]. injection Eip as <-.
      apply str_eqb_eq in Eq. subst ip. unfold str_or, as_str in *. by destruct new.["spec"].["clusterIP"].
  - exfalso. assert (n.["spec"].["type"] = new.["spec"].["type"]) as Htn.
    { destruct (_ || _); injection Eip as <-; [|done]. by rewrite !index2_remove_at_ne. }
    unfold has_cluster_ip, svc_type in *. rewrite Htn in Hn. congruence.
Qed.

Lemma ip_port_keys ip port : ip_key ip ≠ port_key port.
Proof. unfold ip_key, port_key, IP_PREFIX, PORT_PREFIX. discriminate. Qed.

Lemma port_key_inj x y : 0 ≤ x → 0 ≤ y → port_key x = port_key y → x = y.
Proof. intros Hx Hy E. unfold port_key in E. apply str_app_inv_l in E. cbn in E. injection E as E. by apply show_u_inj. Qed.

Lemma allocate_service_progress env old new s w' r plan :
  0 < fst (e_range env) ≤ snd (e_range env) → snd (e_range env) ≤ u16_max → 0 ≤ e_ip_start env →
  named new → wf_value new.["spec"].["ports"] = true → ready (2 + 4 * Z.of_nat (length (items new.["spec"].["ports"]))) s →
  (∀ o, old = Some o → wf_value o = true) →
  (∀ ip, old ≫= live_ip = Some ip → has_cluster_ip new = true → new.["spec"].["clusterIP"] = Str ip) →
  allocate_service float_text env old new (mkWorld s []) = (w', Some (r, plan)) →
  ∃ s', w' = mkWorld s' [] ∧ progress (view s) 0 plan s' ∧
    match r with
    | Err _ => True
    | Ok svc =>
        (∀ x, x ∈ held_ports svc → (x ∈ default [] (held_ports <$> old) ∨ port_key x ∈ claimed plan) ∧ port_key x ∉ release plan) ∧
        (∀ ip, live_ip svc = Some ip → (old ≫= live_ip = Some ip ∨ ip_key ip ∈ claimed plan) ∧ ip_key ip ∉ release plan)
    end.
Proof.
  intros Hlo Hhi Hstart Hnew Hwf Hr Hold Hpatch. set (len := Z.of_nat (length (items new.["spec"].["ports"]))) in *.
  assert (progress (view s) (4 * len + 2) no_plan s) as Hp.
  { split; [apply claims_over_nil|]. eapply ready_le; [done|]. cbn. lia. }
  assert (∀ x, x ∈ default [] (held_ports <$> old) → 0 ≤ x) as Hpos.
  { intros x Hx. destruct old as [o|]; [|by apply elem_of_nil in Hx]. apply elem_of_held in Hx as [_ (p & Hin & <-)]. apply node_port_range.
    specialize (Hold o eq_refl). pose proof (wf_index _ "ports" (wf_index _ "spec" Hold)) as Hw. unfold items, as_array in Hin.
    destruct o.["spec"].["ports"] as [| | | |l|]; try by apply elem_of_nil in Hin. cbn in Hw, Hin.
    apply forallb_forall with (x := p) in Hw; [done|]. by apply list_elem_of_In. }
  assert (∀ s1 new1 plan1, progress (view s) (4 * len) plan1 s1 → same_ports new1 new → (∀ k, k ∈ release plan1 → ∃ ip, k = ip_key ip) →
    (∀ ip, live_ip new1 = Some ip → (old ≫= live_ip = Some ip ∨ ip_key ip ∈ claimed plan1) ∧ ip_key ip ∉ release plan1) →
    allocate_ports float_text env old new1 plan1 (mkWorld s1 []) = (w', Some (r, plan)) →
    ∃ s', w' = mkWorld s' [] ∧ progress (view s) 0 plan s' ∧
    match r with
    | Err _ => True
    | Ok svc =>
        (∀ x, x ∈ held_ports svc → (x ∈ default [] (held_ports <$> old) ∨ port_key x ∈ claimed plan) ∧ port_key x ∉ release plan) ∧
        (∀ ip, live_ip svc = Some ip → (old ≫= live_ip = Some ip ∨ ip_key ip ∈ claimed plan) ∧ ip_key ip ∉ release plan)
    end) as Hports.
  { intros s1 new1 plan1 Hp1 [Hm1 Hports1] Hrel1 Hip1 E.
    destruct (allocate_ports_progress (view s) 0 env old new1 plan1 s1 w' r plan) as (s' & -> & Hpr & Hres); try done;
      [by eapply named_ext|by rewrite Hports1|rewrite Hports1; exact Hp1|].
    exists s'. split_and!; [done|done|]. destruct r as [svc|]; [|done]. destruct Hres as (Hl & Hc & gone & Hrel & Hgone & Hheld). split.
    - intros x Hx. destruct (Hheld x Hx) as (? & Hx0 & Hng). split; [done|]. rewrite Hrel, not_elem_of_app. split.
      + intros Hin. apply Hrel1 in Hin as [ip Hin]. by eapply ip_port_keys.
      + intros Hin. apply list_elem_of_fmap in Hin as (y & Hy & Hin). apply port_key_inj in Hy; [by subst|done|by apply Hpos, Hgone].
    - intros ip Hip. rewrite Hl in Hip. destruct (Hip1 ip Hip) as [Hc1 Hn1]. split; [destruct Hc1; auto|].
      rewrite Hrel, not_elem_of_app. split; [done|]. intros Hin. apply list_elem_of_fmap in Hin as (y & Hy & _). by eapply ip_port_keys. }
  unfold allocate_service. destruct (old ≫= live_ip) as [oip|] eqn:Eo.
  - rewrite andb_false_r. cbv beta iota zeta. rewrite andb_false_r. apply Hports; [destruct (str_is _ _); (eapply progress_le; [exact Hp|lia])|by split|..].
    { intros k Hk. exists oip. destruct (str_is _ _); set_solver. }
    intros ip Hip. apply live_ip_Some in Hip as (Hc & Hip & _). pose proof (Hpatch oip eq_refl Hc) as Hsame.
    assert (ip = oip) as -> by congruence. rewrite Hsame. unfold str_is. cbn. rewrite str_eqb_refl. cbn. by split; [left|apply not_elem_of_nil].
  - rewrite andb_true_r. destruct (has_cluster_ip new) eqn:Ec.
    + destruct (allocate_ip float_text (e_cidr env) (e_ip_keys env) (e_ip_start env) new (mkWorld s [])) as [w1 [r1|]] eqn:Ea; [|done].
      destruct (allocate_ip_progress (view s) (4 * len) _ _ _ _ _ _ _ Hp ltac:(lia) Hstart Ec Ea) as (s1 & -> & Hr1).
      destruct r1 as [svc1|e1]; [|intros [= <- <- <-]; exists s1; split_and!; [done|eapply progress_le; [done|lia]|done]].
      destruct Hr1 as (Hp1 & Hc1 & Hsame). rewrite Hc1. cbn [andb]. fold (ip_plan svc1). apply (Hports s1); [done|done|..].
      * intros k Hk. unfold ip_plan in Hk. destruct (held_ip svc1); by apply elem_of_nil in Hk.
      * intros ip Hip. unfold live_ip in Hip. rewrite Hc1 in Hip. unfold ip_plan. rewrite Hip. cbn. set_solver.
    + rewrite Ec. cbn [andb]. apply Hports; [eapply progress_le; [done|lia]|done|set_solver|].
      intros ip Hip. unfold live_ip in Hip. by rewrite Ec in Hip.
Qed.

(** C28: Planning a Service write takes what it needs and nothing else.  This is
    about the plan alone, with no other writer, valid ranges, room in the store
    and a Service that passed the checks made before anything is claimed and
    whose names and ports are JSON the store takes; a write refused later, by a
    quota, is not covered.  When the plan is refused for any reason, the store
    is what it was before: whatever the attempt had claimed is given back.  When
    it succeeds, the plan's claims are exactly what changed, each of them free
    before; the cluster address of a Service that is not ExternalName, and every
    node port of the new object, is one the old object held or one just claimed;
    and nothing the new object holds is on the list to be released. *)
Theorem plan_exact env old new new1 s w' r :
  patch_and_check (e_range env) old new = Some (Ok new1) →
  0 < fst (e_range env) ≤ snd (e_range env) → snd (e_range env) ≤ u16_max → 0 ≤ e_ip_start env →
  named new1 → wf_value new1.["spec"].["ports"] = true → ready (2 + 4 * Z.of_nat (length (items new1.["spec"].["ports"]))) s →
  (∀ o, old = Some o → wf_value o = true) →
  plan_service float_text env old new (mkWorld s []) = (w', Some r) →
  match r with
  | Err _ => view (st w') = view s
  | Ok (svc, plan) => claims_over (view s) (view (st w')) (claimed plan) ∧
      (∀ x, x ∈ held_ports svc → (x ∈ default [] (held_ports <$> old) ∨ port_key x ∈ claimed plan) ∧ port_key x ∉ release plan) ∧
      (∀ ip, live_ip svc = Some ip → (old ≫= live_ip = Some ip ∨ ip_key ip ∈ claimed plan) ∧ ip_key ip ∉ release plan)
  end.
Proof.
  intros Epatch Hlo Hhi Hstart Hnew Hwf Hr Hold. unfold plan_service. rewrite Epatch.
  destruct (allocate_service float_text env old new1 (mkWorld s [])) as [w1 [[r1 plan1]|]] eqn:Ea; [|done].
  destruct (allocate_service_progress env old new1 s w1 r1 plan1) as (s1 & -> & [Hc1 Hr1] & Hres); try done.
  { intros ip Hip Hcl. destruct old as [o|]; [|done]. by eapply patch_keeps_ip. }
  destruct r1 as [svc|e]; [intros [= <- <-]; done|].
  destruct (abort_restores (view s) plan1 s1) as (s2 & -> & Hv); [done|by apply view_wf, Hr|done|]. intros [= <- <-]. done.
Qed.

(** ** Repair *)

Lemma claim_ip_ready n s ip namespace name :
  ready (n + 1) s → 0 ≤ n →
  ∃ s' got, claim_ip float_text ip namespace name (mkWorld s []) = (mkWorld s' [], Some (Ok got)) ∧ ready n s' ∧
    contains_key (view s') (ip_key ip) = true ∧ ∀ k, contains_key (view s) k = true → contains_key (view s') k = true.
Proof.
  intros Hr Hn. pose proof (ready_room _ _ Hr ltac:(lia)) as (Hwf & Hs & Hroom).
  pose proof (claim_at_spec (mkWorld s []) (ip_key ip) _ Hwf Hs Hroom (ip_record_storable _ ip name namespace)) as Hc.
  cbn [meanwhile others st] in Hc. unfold claim_ip. destruct (contains_key (view s) (ip_key ip)) eqn:Ek.
  - rewrite Hc. exists s, false. split_and!; [done| |done|done]. eapply ready_le; [done|lia].
  - destruct Hc as (s' & b & -> & Hwf' & Hs' & Hone & Hv). exists s', true. destruct Hr as (_ & _ & _ & Hr).
    unfold contains_key in *. rewrite Hv, map_get_insert_eq. split_and!; [done|split_and!; [done|done|lia|lia]|done|].
    intros k Hk. destruct (decide (k = ip_key ip)) as [->|]; [by rewrite map_get_insert_eq|by rewrite map_get_insert_ne].
Qed.

Lemma claim_each_ips items : ∀ n c s, ready (n + Z.of_nat (length items)) s → 0 ≤ n →
  ∃ s' c', claim_each (omap (ip_claim_of float_text) items) c (mkWorld s []) = (mkWorld s' [], Some (Ok c')) ∧
    (∀ k, contains_key (view s) k = true → contains_key (view s') k = true) ∧
    ∀ svc ip, svc ∈ items → held_ip svc = Some ip → contains_key (view s') (ip_key ip) = true.
Proof.
  induction items as [|svc items IH]; intros n c s Hr Hn.
  { exists s, c. split_and!; [done|done|]. intros ? ? Hin. by apply elem_of_nil in Hin. }
  cbn [length] in Hr. cbn [omap list_omap]. unfold ip_claim_of at 1. destruct (held_ip svc) as [ip|] eqn:Eip; cbn [mbind option_bind].
  - destruct (claim_ip_ready (n + Z.of_nat (length items)) s ip (namespace_of svc) (name_of svc)) as (s1 & got & E & Hr1 & Hin & Hk);
      [eapply ready_le; [done|lia]|lia|].
    destruct (IH n (if got then c + 1 else c) s1 Hr1 Hn) as (s' & c' & E' & Hk' & Hall). exists s', c'.
    cbn [claim_each]. unfold mthen, claim_quietly. rewrite E. split_and!; [done|by auto|].
    intros svc' ip' Hs' Hip'. apply elem_of_cons in Hs' as [->|Hs']; [|by eapply Hall]. apply Hk'. congruence.
  - destruct (IH n c s) as (s' & c' & E' & Hk' & Hall); [eapply ready_le; [done|lia]|done|]. exists s', c'. split_and!; [done|done|].
    intros svc' ip' Hs' Hip'. apply elem_of_cons in Hs' as [->|Hs']; [congruence|by eapply Hall].
Qed.

(** The start-up repair makes existing addresses safe.  After it, the address
    of every Service it listed is claimed, so by the exclusion of claims no
    later Service is given it; it takes no claim away. *)
Theorem reconcile_claims_held s page :
  stored_services (mkWorld s []) = Some (Ok page) → ready (Z.of_nat (length (lp_items page))) s →
  ∃ s' n, reconcile_ips float_text (mkWorld s []) = (mkWorld s' [], Some (Ok n)) ∧
    (∀ k, contains_key (view s) k = true → contains_key (view s') k = true) ∧
    ∀ svc ip, svc ∈ lp_items page → held_ip svc = Some ip → contains_key (view s') (ip_key ip) = true.
Proof.
  intros Hpage Hr. unfold reconcile_ips. cbn [meanwhile others]. rewrite Hpage.
  destruct (claim_each_ips (lp_items page) 0 0 s Hr) as (s' & c' & E & Hk & Hall); [done|]. by exists s', c'.
Qed.
End ClaimTheorems.

(** ** The duplicates check *)

Lemma keys_sorted_holders es : ∀ m, keys_sorted m = true → keys_sorted (fold_left add_holder es m) = true.
Proof. induction es as [|e es IH]; intros m Hm; [done|]. by apply IH, keys_sorted_insert. Qed.

Definition held_by (items : list Value) (ip : string) : list string :=
  (λ svc, namespace_of svc ++ "/" ++ name_of svc) <$> List.filter (λ svc, bool_decide (held_ip svc = Some ip)) items.

Lemma holders_of items ip : ∀ m,
  default [] (map_get (fold_left add_holder (omap holder_entry items) m) ip) = (default [] (map_get m ip) ++ held_by items ip)%list.
Proof.
  induction items as [|svc items IH]; intros m; [cbn; by rewrite app_nil_r|].
  cbn [omap list_omap]. unfold holder_entry at 1, held_by. cbn [List.filter]. destruct (held_ip svc) as [a|] eqn:Ea; cbn [mbind option_bind].
  - cbn [fold_left]. rewrite IH. unfold add_holder. cbn [fst snd]. case_bool_decide as Eq.
    + injection Eq as ->. rewrite map_get_insert_eq. cbn [default from_option id fmap list_fmap]. by rewrite <- app_assoc.
    + rewrite map_get_insert_ne by congruence. done.
  - rewrite IH. by rewrite bool_decide_false by done.
Qed.

Lemma shared_lookup (m : BTreeMap (list string)) k l :
  keys_sorted m = true →
  map_get (List.filter (λ kv, Nat.ltb 1 (List.length kv.2)) m) k = Some l ↔ map_get m k = Some l ∧ (1 < List.length l)%nat.
Proof.
  intros Hs. assert (keys_sorted (List.filter (λ kv, Nat.ltb 1 (List.length kv.2)) m) = true) as Hs' by by apply keys_sorted_filter.
  rewrite <- Nat.ltb_lt. split.
  - intros Hg. apply map_get_In, filter_In in Hg as [Hg Hl]. split; [by apply map_get_sorted_In|done].
  - intros [Hg Hl]. apply map_get_sorted_In; [done|]. apply filter_In. split; [by apply map_get_In|done].
Qed.

(** The check for shared addresses misses none and invents none: it reports
    an address exactly when more than one of the listed Services holds it, with
    exactly those Services, in the order listed. *)
Theorem shared_by_exact items ip holders :
  map_get (shared_by items) ip = Some holders ↔ holders = held_by items ip ∧ (1 < List.length holders)%nat.
Proof.
  unfold shared_by. rewrite shared_lookup by by apply keys_sorted_holders. pose proof (holders_of items ip []) as Hh. cbn in Hh.
  destruct (map_get (fold_left add_holder (omap holder_entry items) []) ip) as [l|] eqn:E; cbn in Hh; subst.
  - split; [by intros [[= <-] ?]|by intros [-> ?]].
  - rewrite <- Hh. split; [by intros [? _]|]. intros [-> Hl]. cbn in Hl. lia.
Qed.

(** ** Witnesses *)

Module ServiceDemo.
#[export] Existing Instance Demo.codec.

Definition svc (name : string) (spec : list (string * Value)) : Value :=
  json_obj [("kind", Str "Service"); ("metadata", json_obj [("name", Str name); ("namespace", Str "default")]); ("spec", json_obj spec)].
Definition web : Value := svc "web" [("type", Str "ClusterIP")].
Definition api : Value := svc "api" [("type", Str "ClusterIP")].
Definition world0 : World MemStore.t := mkWorld Demo.store0 [λ s, s].
Definition cidr : string := "10.96.0.0/28".

Definition run1 := Eval vm_compute in allocate_ip Demo.floats cidr (Ok []) 3 web world0.
Definition world1 : World MemStore.t := Eval vm_compute in run1.1.
Definition svc1 : Value := Eval vm_compute in match run1.2 with Some (Ok v) => v | _ => Null end.
Definition run2 := Eval vm_compute in allocate_ip Demo.floats cidr (Err Conflict) 3 api world1.
Definition svc2 : Value := Eval vm_compute in match run2.2 with Some (Ok v) => v | _ => Null end.

Lemma live0 : live Demo.store0.
Proof. split_and!; [apply Demo.wf0|done|done]. Qed.
Lemma live1 : live (st world1).
Proof. split_and!; [|done|done]. apply (mem_wf_put 0 [] "/registry/serviceipallocations/10.96.0.3" _ false Demo.wf0). done. Qed.

(** A Service that asks for a node port somebody holds. *)
Definition ports (n : Z) : Value := Array [json_obj [("port", Num (PosInt 80)); ("nodePort", Num (PosInt n))]].
Definition np (name : string) : Value := svc name [("ports", ports 30001); ("type", Str "NodePort")].
Definition env : Env := mkEnv cidr (30000, 30003) (Ok []) 3 (Ok []) (λ _, 0).
Definition held_run := Eval vm_compute in claim_port Demo.floats 30001 (np "first") (mkWorld Demo.store0 []).
Definition held_store : MemStore.t := Eval vm_compute in st held_run.1.
Lemma ready_held : ready 6 held_store.
Proof.
  split_and!; [|done|done|done]. apply (mem_wf_put 0 [] "/registry/servicenodeportallocations/30001" _ false Demo.wf0). done.
Qed.
End ServiceDemo.
Import ServiceDemo.

Lemma cluster_ips_distinct_witness :
  held_ip svc1 = Some "10.96.0.3" ∧ held_ip svc2 = Some "10.96.0.4" ∧ held_ip svc2 ≠ Some "10.96.0.3".
Proof.
  split_and!; [reflexivity|reflexivity|].
  apply (cluster_ips_distinct Demo.floats cidr (Ok []) 3 web svc1 world0 world1 "10.96.0.3" cidr (Err Conflict) 3 api svc2 run2.1
           live0 live1).
  - apply Forall_singleton. intros s Hs. by split.
  - by apply Forall_nil.
  - reflexivity.
  - reflexivity.
  - vm_compute. reflexivity.
  - reflexivity.
  - vm_compute. reflexivity.
Defined.

Lemma free_address_found_witness :
  ∃ s' v svc, allocate_ip Demo.floats cidr (Ok []) 3 web (mkWorld Demo.store0 []) = (mkWorld s' [], Some (Ok svc)) ∧
    174063616 < v < 174063616 + 2 ^ 4 - 1 ∧ held_ip svc = Some (show_ipv4 v).
Proof.
  destruct (free_address_found Demo.floats cidr (Ok []) 3 web Demo.store0 174063616 28 7)
    as (s' & svc & v & E & Hv & _ & Hip & _).
  - apply live0.
  - reflexivity.
  - reflexivity.
  - reflexivity.
  - reflexivity.
  - vm_compute. reflexivity.
  - done.
  - vm_compute. split; congruence.
  - vm_compute. discriminate.
  - apply not_elem_of_nil.
  - vm_compute. reflexivity.
  - exists s', v, svc. split; [exact E|]. split; [exact Hv|exact Hip].
Defined.

(** The address it was given on the way is given back. *)
Lemma plan_exact_witness :
  view (st (plan_service Demo.floats env None (np "second") (mkWorld held_store [])).1) = view held_store.
Proof.
  assert (patch_and_check (e_range env) None (np "second") = Some (Ok (np "second"))) as E by (vm_compute; reflexivity).
  pose proof (λ r, plan_exact Demo.floats env None (np "second") (np "second") held_store
    (plan_service Demo.floats env None (np "second") (mkWorld held_store [])).1 (Err r) E) as P.
  eapply P.
  - vm_compute. split; congruence.
  - vm_compute. congruence.
  - vm_compute. congruence.
  - vm_compute. auto.
  - reflexivity.
  - apply ready_held.
  - done.
  - vm_compute. reflexivity.
Defined.

(** An ExternalName Service may carry any address: it is accepted without a
    claim, and deleting it gives back the claim of whoever holds the address. *)
Example external_name_releases :
  let ext := svc "ext" [("clusterIP", Str "10.96.0.3"); ("externalName", Str "x.example"); ("type", Str "ExternalName")] in
  held_ip svc1 = Some "10.96.0.3" ∧ contains_key (view (st world1)) (ip_key "10.96.0.3") = true ∧
  plan_service Demo.floats env None ext world1 = (world1, Some (Ok (ext, no_plan))) ∧
  contains_key (view (st (release_all ext world1).1)) (ip_key "10.96.0.3") = false.
Proof. vm_compute. auto. Qed.

(** A Service written straight to storage, without a claim. *)
Module Bootstrap.
Definition kube : Value := svc "kubernetes" [("clusterIP", Str "10.96.0.1"); ("type", Str "ClusterIP")].
Definition kube_key : string := namespaced_key "services" "default" "kubernetes".
Definition store : MemStore.t := Eval vm_compute in (create Demo.floats Demo.store0 kube_key kube).1.
Lemma store_ready : ready 1 store.
Proof. split_and!; [|done|done|done]. apply (mem_wf_put 0 [] kube_key _ false Demo.wf0). done. Qed.
Definition listed : ListPage := Eval vm_compute in
  match stored_services (mkWorld store []) with Some (Ok p) => p | _ => {| lp_items := []; lp_continue_token := None; lp_revision := 0; lp_remaining := None |} end.
End Bootstrap.

Lemma reconcile_claims_held_witness :
  ∃ s' n, reconcile_ips Demo.floats (mkWorld Bootstrap.store []) = (mkWorld s' [], Some (Ok n)) ∧
    contains_key (view s') (ip_key "10.96.0.1") = true.
Proof.
  destruct (reconcile_claims_held Demo.floats Bootstrap.store Bootstrap.listed) as (s' & n & E & _ & Hall).
  - vm_compute. reflexivity.
  - apply Bootstrap.store_ready.
  - exists s', n. split; [exact E|]. eapply Hall; [by apply list_elem_of_In; left|reflexivity].
Defined.
