(* ===== verification/Endpoints.v ===== *)
(** * Services and their endpoints ([pkg/controller-manager/src/service.rs],
    [endpointslicemirroring.rs])

    What a Service's traffic goes to.  For a Service with a selector the
    controller writes the Endpoints and one EndpointSlice of the running Pods
    it selects; for one without, it mirrors the Endpoints somebody wrote by
    hand into slices, one for each address type and port set, of at most
    [MAX_PER_SLICE] endpoints each.  A pass is a program over the client; the
    informers it reads are the feeds of [Owned].

    Parameter: [json_text], the text [serde_json] gives a value (it orders
    ports and feeds the hash of a slice's name).

    Proved: an existing object is overwritten only in the revision read and
    only when the Service controls it; what is written names exactly the Pods
    selected, running and with an address; the mirrored slices hold every
    address that is an IP, once, under its own type and ports, and no slice
    is too long; nothing of a Service is deleted while the server still has
    that Service. *)

From Stdlib Require Import ZArith Lia String Ascii.
From stdpp Require Import base gmap strings numbers option list.
From S2P Require Import Prelude Text BTree Json Quantity Selector Informer Owned Client ServiceAlloc.
Open Scope string_scope.
Open Scope kube_scope.
Open Scope Z_scope.

Module Addresses.

(** ** [Ipv6Addr::from_str] *)

Definition is_hex (c : ascii) : bool :=
  let n := nat_of_ascii c in
  (Nat.leb 48 n && Nat.leb n 57) || (Nat.leb 65 n && Nat.leb n 70) || (Nat.leb 97 n && Nat.leb n 102).
Definition is_dec (c : ascii) : bool := let n := nat_of_ascii c in Nat.leb 48 n && Nat.leb n 57.

Fixpoint run (ok : ascii → bool) (s : string) : string * string :=
  match s with
  | EmptyString => ("", "")
  | String c s' => if ok c then let '(a, b) := run ok s' in (String c a, b) else ("", s)
  end.

(** A group: one to four hexadecimal digits. *)
Definition read_hextet (s : string) : option string :=
  let '(digits, rest) := run is_hex s in
  if is_empty_str digits || Nat.ltb 4 (String.length digits) then None else Some rest.

Definition read_char (c : ascii) (s : string) : option string :=
  match s with String c' s' => if Ascii.eqb c c' then Some s' else None | EmptyString => None end.

Definition read_octet (s : string) : option string :=
  let '(digits, rest) := run is_dec s in match parse_octet digits with Some _ => Some rest | None => None end.

Definition read_ipv4 (s : string) : option string :=
  s ← read_octet s; s ← read_char "." s; s ← read_octet s; s ← read_char "." s;
  s ← read_octet s; s ← read_char "." s; read_octet s.

(** The separator before every group but the first. *)
Definition read_separator (i : nat) (s : string) : option string := match i with O => Some s | S _ => read_char ":" s end.

(** Up to [room] more groups, [i] read so far: how many were read, whether the
    last two are an IPv4 address, and the rest. *)
Fixpoint read_groups (room i : nat) (s : string) : nat * bool * string :=
  match room with
  | O => (i, false, s)
  | S room' =>
      match (if Nat.ltb 0 room' then (s ← read_separator i s; read_ipv4 s) else None) with
      | Some rest => (S (S i), true, rest)
      | None =>
          match (s ← read_separator i s; read_hextet s) with
          | Some rest => read_groups room' (S i) rest
          | None => (i, false, s)
          end
      end
  end.

Definition is_ipv6 (s : string) : bool :=
  let '(head_size, head_v4, rest) := read_groups 8 0 s in
  if Nat.eqb head_size 8 then is_empty_str rest
  else if head_v4 then false
  else match (s ← read_char ":" rest; read_char ":" s) with
       | None => false
       | Some rest => is_empty_str (read_groups (7 - head_size) 0 rest).2
       end.

Example ipv6_texts :
  (is_ipv6 <$> ["::"; "::1"; "fe80::1"; "1:2:3:4:5:6:7:8"; "::ffff:10.0.0.1"; "1:2:3:4:5:6:1.2.3.4"; "2001:DB8::"]) = replicate 7 true ∧
  (is_ipv6 <$> [""; ":"; ":::"; "1::2::3"; "12345::"; "1:2:3:4:5:6:7"; "1:2:3:4:5:6:7:8:9"; "::1.2.3"; "fe80::1%eth0"; "1.2.3.4"; "1:2:3:4:5:6:7::8:9"]) = replicate 11 false.
Proof. vm_compute. done. Qed.

Definition address_type (ip : string) : option string :=
  match parse_ipv4 ip with Some _ => Some "IPv4" | None => if is_ipv6 ip then Some "IPv6" else None end.
End Addresses.
Import Addresses.

Module Mirroring.
Definition MANAGED_BY : string := "endpointslicemirroring-controller.k8s.io".
Definition MAX_PER_SLICE : nat := 1000.
Definition SERVICE_NAME : string := "kubernetes.io/service-name".
Definition MANAGED_BY_LABEL : string := "endpointslice.kubernetes.io/managed-by".
Definition SKIP_MIRROR : string := "endpointslice.kubernetes.io/skip-mirror".
Definition DROPPED_ANNOTATIONS : list string :=
  ["endpoints.kubernetes.io/last-change-trigger-time"; "kubectl.kubernetes.io/last-applied-configuration"].

Definition has_selector (svc : Value) : bool :=
  match as_object svc.["spec"].["selector"] with Some (_ :: _) => true | _ => false end.

Definition mirrors (endpoints : Value) : bool :=
  negb (str_is endpoints.["metadata"].["labels"].[SKIP_MIRROR] "true") && is_null endpoints.["metadata"].["deletionTimestamp"].

Definition is_mirrored (slice : Value) (namespace service : string) : bool :=
  let labels := slice.["metadata"].["labels"] in
  str_is slice.["metadata"].["namespace"] namespace && str_is labels.[SERVICE_NAME] service && str_is labels.[MANAGED_BY_LABEL] MANAGED_BY.

(** FNV-1a, its low 32 bits in hexadecimal. *)
Fixpoint fnv_go (h : Z) (s : string) : Z :=
  match s with EmptyString => h | String b s => fnv_go (wrap64 (Z.lxor h (Z.of_nat (nat_of_ascii b)) * 1099511628211)) s end.
Fixpoint hex (width : nat) (n : Z) (acc : string) : string :=
  match width with
  | O => acc
  | S width => let d := n mod 16 in hex width (n / 16) (String (ascii_of_nat (Z.to_nat (if d <? 10 then 48 + d else 87 + d))) acc)
  end.
Definition fnv (s : string) : string := hex 8 (Z.land (fnv_go 14695981039346656037 s) 4294967295) "".

Definition slice_port (p : Value) : Value :=
  json_obj ([("name", Str (str_or "" p.["name"])); ("port", p.["port"]); ("protocol", Str (str_or "TCP" p.["protocol"]))]
            ++ match as_str p.["appProtocol"] with Some a => [("appProtocol", Str a)] | None => [] end)%list.

Definition endpoint (addr : Value) (ready : bool) : Value :=
  let text field := match as_str addr.[field] with Some v => if is_empty_str v then [] else [(field, Str v)] | None => [] end in
  json_obj ([("addresses", Array [addr.["ip"]]); ("conditions", json_obj [("ready", Bool ready)])]
            ++ text "hostname" ++ text "nodeName"
            ++ (if is_object addr.["targetRef"] then [("targetRef", addr.["targetRef"])] else []))%list.

(** The first [n] characters of UTF-8 text. *)
Fixpoint take_chars (n : nat) (s : string) : string :=
  match s with
  | EmptyString => ""
  | String b s' =>
      let k := nat_of_ascii b in
      if Nat.leb 128 k && Nat.ltb k 192 then String b (take_chars n s')
      else match n with O => "" | S n => String b (take_chars n s') end
  end.

(** [chunks]. *)
Fixpoint chunks_go {A} (fuel size : nat) (l : list A) : list (list A) :=
  match fuel, l with
  | O, _ | _, [] => []
  | S fuel, _ => take size l :: chunks_go fuel size (drop size l)
  end.
Definition chunks {A} (size : nat) (l : list A) : list (list A) := chunks_go (length l) size l.

Section Text.
  Variable json_text : Value → string.

Fixpoint insert_text (x : Value) (l : list Value) : list Value :=
  match l with [] => [x] | y :: l' => if str_ltb (json_text y) (json_text x) then y :: insert_text x l' else x :: l end.

Definition slice_ports (subset : Value) : Value := Array (foldr insert_text [] (slice_port <$> items subset.["ports"])).

Notation Group := (string * Value * list Value)%type.

(** The group of this type and these ports, or a new one at the end. *)
Fixpoint push_group (kind : string) (ports ep : Value) (groups : list Group) : list Group :=
  match groups with
  | [] => [(kind, ports, [ep])]
  | (k, p, eps) :: rest => if str_eqb k kind && value_eqb p ports then (k, p, (eps ++ [ep])%list) :: rest else (k, p, eps) :: push_group kind ports ep rest
  end.

Definition add_address (ports : Value) (ready : bool) (groups : list Group) (addr : Value) : list Group :=
  match as_str addr.["ip"] ≫= address_type with
  | Some kind => push_group kind ports (endpoint addr ready) groups
  | None => groups
  end.

Definition add_subset (groups : list Group) (subset : Value) : list Group :=
  let ports := slice_ports subset in
  let groups := fold_left (add_address ports true) (items subset.["addresses"]) groups in
  fold_left (add_address ports false) (items subset.["notReadyAddresses"]) groups.

Definition groups_of (endpoints : Value) : list Group := fold_left add_subset (items endpoints.["subsets"]) [].

Definition slice_labels (meta : Value) (name : string) : Value :=
  Object (map_insert (map_insert (default [] (as_object meta.["labels"])) SERVICE_NAME (Str name)) MANAGED_BY_LABEL (Str MANAGED_BY)).

Definition slice_annotations (meta : Value) : Map := foldr (λ a m, map_remove m a) (default [] (as_object meta.["annotations"])) DROPPED_ANNOTATIONS.

Definition slice_name (name kind : string) (ports : Value) (i : nat) : string :=
  take_chars 230 name ++ "-" ++ fnv (kind ++ "/" ++ json_text ports ++ "/" ++ show_u (Z.of_nat i)).

Definition slice_of (meta : Value) (kind : string) (ports : Value) (i : nat) (chunk : list Value) : Value :=
  let name := str_or "" meta.["name"] in
  let annotations := slice_annotations meta in
  json_obj [("apiVersion", Str "discovery.k8s.io/v1"); ("kind", Str "EndpointSlice");
    ("metadata", json_obj ([("name", Str (slice_name name kind ports i)); ("namespace", Str (str_or "" meta.["namespace"])); ("labels", slice_labels meta name);
       ("ownerReferences", Array [json_obj [("apiVersion", Str "v1"); ("kind", Str "Endpoints"); ("name", Str name); ("uid", meta.["uid"]);
                                            ("controller", Bool true); ("blockOwnerDeletion", Bool true)]])]
       ++ match annotations with [] => [] | _ => [("annotations", Object annotations)] end)%list);
    ("addressType", Str kind); ("endpoints", Array chunk); ("ports", ports)].

Definition slices_of (meta : Value) (g : Group) : list Value :=
  let '(kind, ports, eps) := g in imap (slice_of meta kind ports) (chunks MAX_PER_SLICE eps).

Definition desired (endpoints : Value) : list Value := concat (slices_of endpoints.["metadata"] <$> groups_of endpoints).
End Text.
End Mirroring.
Import Mirroring.

Module ServiceController.
Definition Outcome : Type := Prog (Pending * result unit ClientError).
Definition fail (pending : Pending) (e : ClientError) : Outcome := Ret (pending, Err e).
Definition done_ (pending : Pending) : Outcome := Ret (pending, Ok tt).

(** ** What a Service with a selector gets *)

Definition selects_pod (selector : Map) (pod : Value) : bool :=
  match as_object pod.["metadata"].["labels"] with
  | Some labels => forallb (λ kv, option_value_eqb (map_get labels kv.1) (Some kv.2)) selector
  | None => false
  end.

Definition serving (pod : Value) : bool :=
  str_eqb (str_or "Pending" pod.["status"].["phase"]) "Running" && match as_str pod.["status"].["podIP"] with Some _ => true | None => false end.

Definition matching_pods (selector : Map) (pods : list Value) : list Value := List.filter serving (List.filter (selects_pod selector) pods).

Definition pod_ref (namespace : string) (pod : Value) : Value :=
  json_obj [("kind", Str "Pod"); ("name", Str (str_or "" pod.["metadata"].["name"])); ("namespace", Str namespace);
            ("uid", Str (str_or "" pod.["metadata"].["uid"]))].

Definition address (namespace : string) (pod : Value) : Value :=
  json_obj [("ip", Str (str_or "" pod.["status"].["podIP"])); ("nodeName", Str (str_or "" pod.["spec"].["nodeName"]));
            ("targetRef", pod_ref namespace pod)].

(** [json!] of a u64. *)
Definition service_port (port : Value) : Value :=
  let number := match as_u64 port.["targetPort"] with Some n => n | None => default 0 (as_u64 port.["port"]) end in
  json_obj [("name", Str (str_or "" port.["name"])); ("port", Num (PosInt number)); ("protocol", Str (str_or "TCP" port.["protocol"]))].

Definition owner_ref (name uid : string) : Value :=
  json_obj [("apiVersion", Str "v1"); ("kind", Str "Service"); ("name", Str name); ("uid", Str uid);
            ("controller", Bool true); ("blockOwnerDeletion", Bool true)].

Definition endpoints_object (namespace name uid : string) (addresses ports : list Value) : Value :=
  json_obj [("apiVersion", Str "v1"); ("kind", Str "Endpoints");
    ("metadata", json_obj [("name", Str name); ("namespace", Str namespace); ("labels", json_obj [(SKIP_MIRROR, Str "true")]);
                           ("ownerReferences", Array [owner_ref name uid])]);
    ("subsets", Array match addresses with [] => [] | _ => [json_obj [("addresses", Array addresses); ("ports", Array ports)]] end)].

Definition slice_endpoint (a : Value) : Value :=
  json_obj [("addresses", Array [Str (str_or "" a.["ip"])]); ("conditions", json_obj [("ready", Bool true)]);
            ("nodeName", a.["nodeName"]); ("targetRef", a.["targetRef"])].

Definition slice_object (namespace name uid : string) (addresses ports : list Value) : Value :=
  json_obj [("apiVersion", Str "discovery.k8s.io/v1"); ("kind", Str "EndpointSlice");
    ("metadata", json_obj [("name", Str name); ("namespace", Str namespace);
       ("labels", json_obj [(SERVICE_NAME, Str name); (MANAGED_BY_LABEL, Str "endpointslice-controller.k8s.io")]);
       ("ownerReferences", Array [owner_ref name uid])]);
    ("addressType", Str "IPv4"); ("endpoints", Array (slice_endpoint <$> addresses)); ("ports", Array ports)].

Definition endpoints_path (namespace name : string) : string := "/api/v1/namespaces/" ++ namespace ++ "/endpoints/" ++ name.
Definition slice_path (namespace name : string) : string := "/apis/discovery.k8s.io/v1/namespaces/" ++ namespace ++ "/endpointslices/" ++ name.

(** ** Writing it *)

(** [rsplit_once('/')]: what is before the last slash. *)
Fixpoint before_slash (s : string) : option string :=
  match s with
  | EmptyString => None
  | String c s' => match before_slash s' with Some p => Some (String c p) | None => if Ascii.eqb c "/" then Some "" else None end
  end.

Definition first_owner (o : Value) : Value := match items o.["metadata"].["ownerReferences"] with r :: _ => r.["uid"] | [] => Null end.

Definition controlled (owner current : Value) : bool :=
  existsb (λ r, value_eqb r.["uid"] owner && value_eqb r.["controller"] (Bool true)) (items current.["metadata"].["ownerReferences"]).

Definition agrees (fields : list string) (annotations : bool) (current desired : Value) : bool :=
  forallb (λ f, value_eqb current.[f] desired.[f]) fields
  && value_eqb current.["metadata"].["labels"] desired.["metadata"].["labels"]
  && (negb annotations || value_eqb current.["metadata"].["annotations"] desired.["metadata"].["annotations"]).

Definition upsert (pending : Pending) (path : string) (desired : Value) (fields : list string) (annotations : bool) : Outcome :=
  r <== api_get path ;;
  match r with
  | Err e => fail pending e
  | Ok (status, body) =>
      if status =? 404 then
        match before_slash path with
        | None => fail pending (Local "panic")
        | Some parent => x <== create pending parent desired ;; Ret (x.1, match x.2 with Ok _ => Ok tt | Err e => Err e end)
        end
      else if is_error status then fail pending (Refused status)
      else
        match body with
        | None => fail pending Unreadable
        | Some current =>
            if negb (controlled (first_owner desired) current) then fail pending (Local "refusing to overwrite endpoints owned by another Service UID")
            else if agrees fields annotations current desired then done_ pending
            else
              match set_index2 desired "metadata" "resourceVersion" current.["metadata"].["resourceVersion"] with
              | None => fail pending (Local "panic")
              | Some updated => r <== api_update path updated ;; Ret (pending, match r with Ok _ => Ok tt | Err e => Err e end)
              end
        end
  end.

(** [?] on an outcome. *)
Definition and_then (p : Outcome) (k : Pending → Outcome) : Outcome :=
  x <== p ;; match x.2 with Ok _ => k x.1 | Err e => Ret (x.1, Err e) end.

Definition reconcile_service (pending : Pending) (namespace : string) (svc : Value) (all_pods : list Value) : Outcome :=
  match as_str svc.["metadata"].["name"] with
  | None => fail pending (Local "service missing name")
  | Some name =>
      if negb (has_selector svc) then done_ pending
      else
        let uid := str_or "" svc.["metadata"].["uid"] in
        let addresses := address namespace <$> matching_pods (default [] (as_object svc.["spec"].["selector"])) all_pods in
        let ports := service_port <$> items svc.["spec"].["ports"] in
        and_then (upsert pending (endpoints_path namespace name) (endpoints_object namespace name uid addresses ports) ["subsets"] false) (λ pending,
        upsert pending (slice_path namespace name) (slice_object namespace name uid addresses ports) ["addressType"; "endpoints"; "ports"] false)
  end.

(** ** The mirrored slices *)

Definition mirrored_slices (slices : Feed) (namespace name : string) : result (list Value) string :=
  l <-? Informer.select slices (ILabel SERVICE_NAME name) ;; Ok (List.filter (λ s, is_mirrored s namespace name) l).

Definition unwanted (wanted : list Value) (owner slice : Value) : bool :=
  negb (existsb (λ n, value_eqb n slice.["metadata"].["name"]) wanted) || negb (value_eqb (first_owner slice) owner).

Fixpoint delete_all (pending : Pending) (path : Value → string) (l : list Value) : Outcome :=
  match l with
  | [] => done_ pending
  | o :: l => r <== api_delete_observed (path o) o ;; match r with Ok _ => delete_all pending path l | Err e => fail pending e end
  end.

Fixpoint upsert_all (pending : Pending) (namespace : string) (l : list Value) : Outcome :=
  match l with
  | [] => done_ pending
  | s :: l => and_then (upsert pending (slice_path namespace (str_or "" s.["metadata"].["name"])) s ["addressType"; "endpoints"; "ports"] true)
                (λ pending, upsert_all pending namespace l)
  end.

Definition named_slice (namespace : string) (s : Value) : string := slice_path namespace (str_or "" s.["metadata"].["name"]).

Section Feeds.
  Variables (json_text : Value → string) (pods slices endpoints : Feed).

Definition wanted_slices (svc : Value) (eps : list Value) : list Value :=
  match eps with
  | ep :: _ => if negb (has_selector svc) && mirrors ep then desired json_text ep else []
  | [] => []
  end.

Definition mirror (pending : Pending) (svc : Value) : Outcome :=
  let ns := str_or "default" svc.["metadata"].["namespace"] in
  let name := str_or "" svc.["metadata"].["name"] in
  match mirrored_slices slices ns name with
  | Err e => fail pending (Local e)
  | Ok current =>
      match Informer.select endpoints (IName ns name) with
      | Err e => fail pending (Local e)
      | Ok eps =>
          let want := wanted_slices svc eps in
          let owner := match eps with e :: _ => e.["metadata"].["uid"] | [] => Null end in
          let wanted := (λ s, s.["metadata"].["name"]) <$> want in
          and_then (delete_all pending (named_slice ns) (List.filter (unwanted wanted owner) current)) (λ pending,
          upsert_all pending ns want)
      end
  end.

(** Ascending UID, those without one first; a stable sort. *)
Definition uid_before (a b : Value) : bool :=
  match as_str a.["metadata"].["uid"], as_str b.["metadata"].["uid"] with
  | None, Some _ => true
  | Some x, Some y => str_ltb x y
  | _, None => false
  end.
Fixpoint insert_uid (x : Value) (l : list Value) : list Value :=
  match l with [] => [x] | y :: l' => if uid_before y x then y :: insert_uid x l' else x :: l end.

Definition reconcile (pending : Pending) (svc : Value) : Outcome :=
  if negb (is_null svc.["metadata"].["deletionTimestamp"]) then done_ pending
  else
    and_then (mirror pending svc) (λ pending,
    if negb (has_selector svc) then done_ pending
    else match selected_pods svc pods with
         | Err e => fail pending (Local e)
         | Ok l => reconcile_service pending (str_or "default" svc.["metadata"].["namespace"]) svc (foldr insert_uid [] l)
         end).

(** ** A Service that is gone *)

Definition owned_by_service (uid : string) (item : Value) : bool :=
  existsb (λ r, str_is r.["kind"] "Service" && value_eqb r.["controller"] (Bool true) && str_is r.["uid"] uid) (items item.["metadata"].["ownerReferences"]).

Definition named_endpoints (namespace : string) (o : Value) : string := endpoints_path namespace (str_or "" o.["metadata"].["name"]).

Definition deleted (pending : Pending) (k : Key) (children : list Value) : Outcome :=
  let ns := key_namespace k in
  r <== api_get ("/api/v1/namespaces/" ++ ns ++ "/services/" ++ key_name k) ;;
  match r with
  | Err e => fail pending e
  | Ok (status, body) =>
      let name_free := status =? 404 in
      let gone := if name_free then Ok tt
                  else if is_error status then Err (Refused status)
                  else match body with
                       | None => Err Unreadable
                       | Some current => if str_is current.["metadata"].["uid"] (key_uid k) then Err (Local "Service still exists") else Ok tt
                       end in
      match gone with
      | Err e => fail pending e
      | Ok _ =>
          match (if name_free then mirrored_slices slices ns (key_name k) else Ok []) with
          | Err e => fail pending (Local e)
          | Ok mirrored =>
              and_then (delete_all pending (named_slice ns) mirrored) (λ pending,
              match Informer.select slices (IOwner (key_uid k)) with
              | Err e => fail pending (Local e)
              | Ok owned =>
                  and_then (delete_all pending (named_endpoints ns) (List.filter (owned_by_service (key_uid k)) children)) (λ pending,
                  delete_all pending (named_slice ns) (List.filter (owned_by_service (key_uid k)) owned))
              end)
          end
      end
  end.
End Feeds.

(** ** Which Services a change wakes *)

(** Only the Service owner references; [as_array_mut] through [IndexMut]. *)
Definition keep_services (o : Value) : option Value :=
  match o.["metadata"].["ownerReferences"] with
  | Array refs => set_index2 o "metadata" "ownerReferences" (Array (List.filter (λ r, str_is r.["kind"] "Service") refs))
  | v => set_index2 o "metadata" "ownerReferences" v
  end.

(** [None]: it panicked. *)
Definition keep_side (o : option Value) : option (option Value) :=
  match o with None => Some None | Some o => o ← keep_services o; Some (Some o) end.

Definition service_owned (d : Delta) : option Delta :=
  old ← keep_side (old_obj d); new ← keep_side (new_obj d); Some (mkDelta old new (affected d)).

Definition labelled_service (primary : Feed) (slice : Value) : list Key :=
  let labels := slice.["metadata"].["labels"] in
  if negb (str_is labels.[MANAGED_BY_LABEL] MANAGED_BY) then []
  else match as_str labels.[SERVICE_NAME] with
       | Some svc => keys_at primary (IName (str_or "" slice.["metadata"].["namespace"]) svc)
       | None => []
       end.

Definition slice_services (d : Delta) (primary : Feed) : option (list Key) :=
  d' ← service_owned d; Some (elements (owner_keys d' primary) ++ concat (labelled_service primary <$> sides d))%list.

Definition endpoints_services (d : Delta) (primary : Feed) : list Key :=
  concat ((λ ep, keys_at primary (IName (str_or "" ep.["metadata"].["namespace"]) (str_or "" ep.["metadata"].["name"]))) <$> sides d).
End ServiceController.
Import ServiceController.

(** ** What a pass writes *)

(** One upsert: it reads the object first; it creates only what is not there,
    and replaces only what is controlled by the owner it names and differs. *)
Lemma upsert_exec pending path desired fields annotations t x :
  exec (upsert pending path desired fields annotations) t x →
  ∃ a t', t = EAsk (QGet path) a :: t' ∧
    ∀ q a', EAsk q a' ∈ t' →
      match q with
      | QGet _ | QPost _ _ => ∃ b, a = AResponse 404 b
      | QPut p b => p = path ∧ ∃ s cur, a = AResponse s (Some cur) ∧ controlled (first_owner desired) cur = true ∧
                      agrees fields annotations cur desired = false ∧
                      set_index2 desired "metadata" "resourceVersion" cur.["metadata"].["resourceVersion"] = Some b
      | _ => False
      end.
Proof.
  unfold upsert. intros (t1 & t2 & r & E1 & E2 & ->)%exec_bind. apply exec_ask_inv in E1 as (a & t1' & -> & E1). apply respond_exec in E1 as [Hn ->].
  exists a, (t1' ++ t2)%list. split; [done|].
  assert (∀ q a', EAsk q a' ∈ (t1' ++ t2)%list → EAsk q a' ∈ t2) as Hskip.
  { intros q a' [H|H]%elem_of_app; [|done]. rewrite Forall_forall in Hn. by apply Hn in H. }
  intros q a' H%Hskip. clear Hskip Hn.
  destruct a as [|s body]; [apply exec_ret_inv in E2 as [-> _]; by apply not_elem_of_nil in H|].
  destruct (s =? 404) eqn:E4.
  - apply Z.eqb_eq in E4 as ->. destruct (before_slash path); [|apply exec_ret_inv in E2 as [-> _]; by apply not_elem_of_nil in H].
    apply exec_bind in E2 as (t3 & t4 & y & E3 & [-> _]%exec_ret_inv & ->). rewrite app_nil_r in H.
    apply (emits_create_asks (λ q, match q with QGet _ | QPost _ _ => True | _ => False end)) in E3; [|done..].
    rewrite Forall_forall in E3. apply E3 in H. cbn in H. destruct q; try done; by eexists.
  - destruct (is_error s); [apply exec_ret_inv in E2 as [-> _]; by apply not_elem_of_nil in H|].
    destruct body as [cur|]; [|apply exec_ret_inv in E2 as [-> _]; by apply not_elem_of_nil in H].
    destruct (controlled _ cur) eqn:Ec; [cbn [negb] in E2|apply exec_ret_inv in E2 as [-> _]; by apply not_elem_of_nil in H].
    destruct (agrees _ _ _ _) eqn:Ea; [apply exec_ret_inv in E2 as [-> _]; by apply not_elem_of_nil in H|].
    destruct (set_index2 _ _ _ _) as [u|] eqn:Eu; [|apply exec_ret_inv in E2 as [-> _]; by apply not_elem_of_nil in H].
    apply exec_bind in E2 as (t3 & t4 & y & E3 & [-> _]%exec_ret_inv & ->). rewrite app_nil_r in H. apply emits_send_json in E3.
    rewrite Forall_forall in E3. apply E3 in H. cbn in H. subst q. split; [done|]. by exists s, cur.
Qed.

Lemma exec_and_then p k t x :
  exec (and_then p k) t x → (∃ e, exec p t (x.1, Err e) ∧ x.2 = Err e) ∨
  ∃ t1 t2 pending, t = (t1 ++ t2)%list ∧ exec p t1 (pending, Ok tt) ∧ exec (k pending) t2 x.
Proof.
  intros (t1 & t2 & [pending r] & E1 & E2 & ->)%exec_bind. cbn in E2. destruct r as [[]|e].
  - right. by exists t1, t2, pending.
  - left. apply exec_ret_inv in E2 as [-> ->]. rewrite app_nil_r. by exists e.
Qed.

(** Every PUT of [owner]'s objects follows a read of the object it replaces,
    controlled by that owner, and is made in the revision read. *)
Definition put_own (owners : Value → Prop) (t : list Event) (e : Event) : Prop :=
  match e with
  | EAsk (QPut p b) _ => ∃ s cur, EAsk (QGet p) (AResponse s (Some cur)) ∈ t ∧ controlled (first_owner b) cur = true ∧ owners (first_owner b) ∧
                           b.["metadata"].["resourceVersion"] = cur.["metadata"].["resourceVersion"]
  | _ => True
  end.
Definition careful (owners : Value → Prop) (t : list Event) : Prop := Forall (put_own owners t) t.

Lemma careful_app owners t1 t2 : careful owners t1 → careful owners t2 → careful owners (t1 ++ t2).
Proof.
  intros H1 H2. apply Forall_app. split; eapply Forall_impl; try done; intros [[]|]; try done; cbn; intros (s & cur & Hin & H); exists s, cur;
    (split; [apply elem_of_app; auto|done]).
Qed.

Lemma careful_weaken (P Q : Value → Prop) t : (∀ v, P v → Q v) → careful P t → careful Q t.
Proof. intros HPQ Ht. eapply Forall_impl; [exact Ht|]. intros [[]|]; try done. cbn. intros (s & cur & ? & ? & ? & ?). exists s, cur. split_and!; auto. Qed.

Lemma careful_and_then owners p k t x :
  (∀ t x, exec p t x → careful owners t) → (∀ pending t x, exec (k pending) t x → careful owners t) →
  exec (and_then p k) t x → careful owners t.
Proof. intros Hp Hk [(e & E & _)|(t1 & t2 & pending & -> & E1 & E2)]%exec_and_then; [by eapply Hp|]. apply careful_app; eauto. Qed.

Lemma upsert_careful (owners : Value → Prop) pending path desired fields annotations t x :
  owners (first_owner desired) → exec (upsert pending path desired fields annotations) t x → careful owners t.
Proof.
  intros Ho (a & t' & -> & H)%upsert_exec. apply Forall_cons. split; [done|]. apply Forall_forall. intros [q a'|n] Hin; [|done].
  specialize (H _ _ Hin). destruct q; try done. destruct H as (-> & s & cur & -> & Hc & _ & Hb). cbn. exists s, cur. split; [left|].
  assert (first_owner body = first_owner desired) as ->.
  { unfold first_owner. by rewrite (index2_set_index2_ne _ _ _ _ _ "ownerReferences" Hb). }
  split_and!; [done..|]. by apply index2_set_index2 in Hb.
Qed.

(** Every DELETE is of one of these objects, as it was observed. *)
Definition deletes_of (path : Value → string) (l : list Value) (q : Request) : Prop :=
  match q with QDelete p o => ∃ v, v ∈ l ∧ p = path v ∧ names_observed v o | _ => False end.

Lemma delete_all_asks pending path l : emits (asks (deletes_of path l)) (delete_all pending path l).
Proof.
  induction l as [|o l IH]; [apply emits_ret|]. cbn [delete_all]. apply emits_bind.
  - eapply emits_weaken; [|apply emits_delete_observed]. intros [q a|n]; [|done]. intros (opts & -> & Ho). exists o. split; [left|done].
  - intros [y|e]; [|apply emits_ret]. eapply emits_weaken; [|exact IH]. intros [q a|n]; [|done]. cbn. destruct q; try done.
    intros (v & ? & ?). exists v. split; [by right|done].
Qed.

Lemma delete_all_careful owners pending path l t x : exec (delete_all pending path l) t x → careful owners t.
Proof. intros E%delete_all_asks. eapply Forall_impl; [exact E|]. intros [q a|n]; [|done]. by destruct q. Qed.

Lemma upsert_no_delete pending path desired fields annotations : emits (asks no_delete) (upsert pending path desired fields annotations).
Proof.
  intros t x (a & t' & -> & H)%upsert_exec. apply Forall_cons. split; [done|]. apply Forall_forall. intros [q a'|n] Hin; [|done].
  specialize (H _ _ Hin). by destruct q.
Qed.

Lemma emits_and_then P p k : emits P p → (∀ pending, emits P (k pending)) → emits P (and_then p k).
Proof. intros Hp Hk. apply emits_bind; [done|]. intros [pending [[]|e]]; cbn; [apply Hk|apply emits_ret]. Qed.

Lemma upsert_all_no_delete namespace l : ∀ pending, emits (asks no_delete) (upsert_all pending namespace l).
Proof. induction l as [|s l IH]; intros pending; [apply emits_ret|]. apply emits_and_then; [apply upsert_no_delete|apply IH]. Qed.

Lemma upsert_all_careful (owners : Value → Prop) namespace l : Forall (λ s, owners (first_owner s)) l →
  ∀ pending t x, exec (upsert_all pending namespace l) t x → careful owners t.
Proof.
  induction 1 as [|s l Hs Hl IH]; intros pending t x; cbn [upsert_all]; [intros [-> _]%exec_ret_inv; constructor|].
  apply careful_and_then; [intros ? ?; by apply upsert_careful|exact IH].
Qed.

Lemma reconcile_service_no_delete pending namespace svc pods : emits (asks no_delete) (reconcile_service pending namespace svc pods).
Proof.
  unfold reconcile_service. destruct (as_str _) as [name|]; [|apply emits_ret]. destruct (negb _); [apply emits_ret|].
  apply emits_and_then; [|intros ?]; apply upsert_no_delete.
Qed.

Lemma reconcile_service_careful (owners : Value → Prop) pending namespace svc pods t x :
  owners (Str (str_or "" svc.["metadata"].["uid"])) → exec (reconcile_service pending namespace svc pods) t x → careful owners t.
Proof.
  intros Ho. unfold reconcile_service. destruct (as_str _) as [name|]; [|intros [-> _]%exec_ret_inv; constructor].
  destruct (negb _); [intros [-> _]%exec_ret_inv; constructor|]. apply careful_and_then; [intros ? ?|intros ? ? ?]; by apply upsert_careful.
Qed.

Lemma desired_owner json_text ep : Forall (λ s, first_owner s = ep.["metadata"].["uid"]) (desired json_text ep).
Proof.
  apply Forall_concat, Forall_fmap, Forall_forall. intros [[kind ports] eps] _. cbn. apply Forall_lookup. intros i s Hs.
  rewrite list_lookup_imap in Hs. destruct (chunks _ _ !! i) as [c|]; [|done]. injection Hs as <-.
  unfold slice_of. destruct (slice_annotations _); reflexivity.
Qed.

Section Pass.
  Variables (json_text : Value → string) (pods slices endpoints : Feed).

(** The Service, or the Endpoints of its name when it selects nothing. *)
Definition writes_for (svc owner : Value) : Prop :=
  owner = Str (str_or "" svc.["metadata"].["uid"]) ∨
  has_selector svc = false ∧ ∃ ep l, Informer.select endpoints (IName (str_or "default" svc.["metadata"].["namespace"]) (str_or "" svc.["metadata"].["name"])) = Ok (ep :: l)
    ∧ mirrors ep = true ∧ owner = ep.["metadata"].["uid"].

(** a Service's controller touches only what is the Service's.  Whatever
    the server answers: an existing object is replaced only after it was read,
    in the revision read, and only when the reading shows it controlled by the
    Service — or, for a Service that selects nothing, by the hand-written
    Endpoints of its name; only slices mirrored for this Service are deleted,
    as observed; and a Service being deleted is left alone. *)
Theorem service_touches_own pending svc t x :
  exec (reconcile json_text pods slices endpoints pending svc) t x →
  let ns := str_or "default" svc.["metadata"].["namespace"] in let name := str_or "" svc.["metadata"].["name"] in
  (∀ p b a, EAsk (QPut p b) a ∈ t → ∃ s cur, EAsk (QGet p) (AResponse s (Some cur)) ∈ t ∧
     controlled (first_owner b) cur = true ∧ writes_for svc (first_owner b) ∧ b.["metadata"].["resourceVersion"] = cur.["metadata"].["resourceVersion"]) ∧
  (∀ p o a, EAsk (QDelete p o) a ∈ t → ∃ l s, Informer.select slices (ILabel SERVICE_NAME name) = Ok l ∧ s ∈ l ∧ is_mirrored s ns name = true ∧
     p = named_slice ns s ∧ names_observed s o) ∧
  (is_null svc.["metadata"].["deletionTimestamp"] = false → t = []).
Proof.
  unfold reconcile. destruct (is_null _); cbn [negb].
  2: { intros [-> _]%exec_ret_inv. split_and!; [intros ??? H; by apply not_elem_of_nil in H..|done]. }
  intros E. set (ns := str_or "default" svc.["metadata"].["namespace"]). set (name := str_or "" svc.["metadata"].["name"]). assert (careful (writes_for svc) t ∧ Forall (asks (λ q, no_delete q ∨ ∃ l, Informer.select slices (ILabel SERVICE_NAME name) = Ok l ∧
    deletes_of (named_slice ns) (List.filter (λ s, is_mirrored s ns name) l) q)) t) as [Hc Hd].
  2: { split_and!; [| |done].
    - intros p b a Hin. unfold careful in Hc. rewrite Forall_forall in Hc. by apply Hc in Hin.
    - intros p o a Hin. rewrite Forall_forall in Hd. apply Hd in Hin as [Hin|(l & El & s & Hs & -> & Ho)]; [done|].
      apply list_elem_of_In, filter_In in Hs as [Hs Hm]. exists l, s. split_and!; [done|by apply list_elem_of_In|done..]. }
  assert (∀ q, no_delete q → no_delete q ∨ ∃ l, Informer.select slices (ILabel SERVICE_NAME name) = Ok l ∧
    deletes_of (named_slice ns) (List.filter (λ s, is_mirrored s ns name) l) q) as Hl by (by left).
  split.
  - revert E. apply careful_and_then.
    + intros t1 y. unfold mirror, mirrored_slices. fold ns name. destruct (Informer.select slices _) as [l|] eqn:El; [|intros [-> _]%exec_ret_inv; constructor].
      cbn [result_bind]. destruct (Informer.select endpoints _) as [eps|] eqn:Ee; [|intros [-> _]%exec_ret_inv; constructor].
      apply careful_and_then; [intros ? ?; apply delete_all_careful|]. apply upsert_all_careful. unfold wanted_slices.
      destruct eps as [|ep eps]; [constructor|]. destruct (negb (has_selector svc) && mirrors ep) eqn:Em; [|constructor].
      apply andb_true_iff in Em as [Hs%negb_true_iff Hm]. eapply Forall_impl; [apply desired_owner|]. intros s Hs'. right. split; [done|].
      by exists ep, eps.
    + intros pending' t1 y. destruct (negb _); [intros [-> _]%exec_ret_inv; constructor|].
      destruct (selected_pods _ _); [|intros [-> _]%exec_ret_inv; constructor]. apply reconcile_service_careful. by left.
  - revert E. apply emits_and_then.
    + unfold mirror, mirrored_slices. fold ns name. destruct (Informer.select slices _) as [l|] eqn:El; [|apply emits_ret].
      destruct (Informer.select endpoints _) as [eps|]; [|apply emits_ret]. apply emits_and_then.
      * eapply emits_weaken; [|apply delete_all_asks]. intros [q a|n]; [|done]. intros Hq. right. exists l. split; [done|].
        destruct q; try done. destruct Hq as (v & Hv & ?). exists v. split; [|done]. apply list_elem_of_In, filter_In in Hv as [Hv _]. by apply list_elem_of_In.
      * intros pending'. eapply emits_weaken; [|apply upsert_all_no_delete]. intros [q a|n]; [|done]. apply Hl.
    + intros pending'. destruct (negb _); [apply emits_ret|]. destruct (selected_pods _ _); [|apply emits_ret].
      eapply emits_weaken; [|apply reconcile_service_no_delete]. intros [q a|n]; [|done]. apply Hl.
Qed.
End Pass.

(** ** The mirrored slices *)

(** What each address of the Endpoints asks for: its type, its subset's ports
    and its endpoint; an address that is no IP asks for nothing. *)
Definition entry_of (ports : Value) (ready : bool) (addr : Value) : option (string * Value * Value) :=
  (λ kind, (kind, ports, endpoint addr ready)) <$> (as_str addr.["ip"] ≫= address_type).
Definition subset_entries (json_text : Value → string) (subset : Value) : list (string * Value * Value) :=
  (omap (entry_of (slice_ports json_text subset) true) (items subset.["addresses"])
   ++ omap (entry_of (slice_ports json_text subset) false) (items subset.["notReadyAddresses"]))%list.

(** What a slice holds. *)
Definition slice_contents (s : Value) : list (string * Value * Value) := (λ e, (str_or "" s.["addressType"], s.["ports"], e)) <$> items s.["endpoints"].

Definition flat (g : string * Value * list Value) : list (string * Value * Value) := let '(k, p, eps) := g in (λ e, (k, p, e)) <$> eps.

Lemma push_group_flat kind ports ep groups : no_floats ports = true →
  concat (flat <$> push_group kind ports ep groups) ≡ₚ concat (flat <$> groups) ++ [(kind, ports, ep)].
Proof.
  intros Hf. induction groups as [|[[k p] eps] groups IH]; [done|]. cbn [push_group]. destruct (str_eqb k kind && value_eqb p ports) eqn:E.
  - apply andb_true_iff in E as [->%str_eqb_eq Ep]. apply value_eqb_eq_r in Ep as ->; [|done]. cbn. rewrite fmap_app, <- !app_assoc.
    apply Permutation_app_head, Permutation_app_comm.
  - cbn. by rewrite IH, app_assoc.
Qed.

Lemma add_addresses_grouped ports ready addrs groups l : no_floats ports = true →
  concat (flat <$> groups) ≡ₚ l →
  concat (flat <$> fold_left (add_address ports ready) addrs groups) ≡ₚ l ++ omap (entry_of ports ready) addrs.
Proof.
  intros Hf. revert groups l. induction addrs as [|addr addrs IH]; intros groups l Hp; [cbn; by rewrite app_nil_r|]. cbn [fold_left omap list_omap].
  unfold add_address at 2, entry_of at 1. destruct (as_str addr.["ip"] ≫= address_type) as [kind|]; cbn [fmap option_fmap option_map]; [|by apply IH].
  replace (l ++ _ :: _)%list with ((l ++ [(kind, ports, endpoint addr ready)]) ++ omap (entry_of ports ready) addrs)%list by (by rewrite <-app_assoc).
  apply IH. by rewrite push_group_flat, Hp.
Qed.

Lemma groups_grouped json_text subsets : Forall (λ s, no_floats (slice_ports json_text s) = true) subsets →
  ∀ groups l, concat (flat <$> groups) ≡ₚ l →
    concat (flat <$> fold_left (add_subset json_text) subsets groups) ≡ₚ l ++ concat (subset_entries json_text <$> subsets).
Proof.
  induction 1 as [|s subsets Hs Hss IH]; intros groups l Hg; [cbn; by rewrite app_nil_r|]. cbn [fold_left fmap list_fmap concat].
  rewrite app_assoc. apply IH. unfold add_subset, subset_entries. rewrite app_assoc. by repeat apply add_addresses_grouped.
Qed.

Lemma chunks_go_spec {A} size fuel (l : list A) : (0 < size)%nat → (length l ≤ fuel)%nat →
  concat (chunks_go fuel size l) = l ∧ Forall (λ c, 0 < length c ≤ size)%nat (chunks_go fuel size l).
Proof.
  intros Hsize. revert l. induction fuel as [|fuel IH]; intros l Hl; [destruct l; [by split|cbn in Hl; lia]|].
  destruct l as [|x l]; [by split|]. cbn [chunks_go concat]. destruct (IH (drop size (x :: l))) as [Hc Hf]; [rewrite length_drop; cbn in Hl |- *; lia|].
  split; [by rewrite Hc, take_drop|]. constructor; [|done]. rewrite length_take. cbn [length]. lia.
Qed.

Lemma chunks_spec {A} (l : list A) : concat (chunks MAX_PER_SLICE l) = l ∧ Forall (λ c, 0 < length c ≤ MAX_PER_SLICE)%nat (chunks MAX_PER_SLICE l).
Proof. apply chunks_go_spec; [unfold MAX_PER_SLICE; lia|done]. Qed.

Lemma slice_of_fields json_text meta kind ports i chunk :
  (slice_of json_text meta kind ports i chunk).["addressType"] = Str kind ∧ (slice_of json_text meta kind ports i chunk).["ports"] = ports ∧
  (slice_of json_text meta kind ports i chunk).["endpoints"] = Array chunk ∧
  is_mirrored (slice_of json_text meta kind ports i chunk) (str_or "" meta.["namespace"]) (str_or "" meta.["name"]) = true.
Proof.
  split_and!; [done..|]. unfold is_mirrored.
  assert ((slice_of json_text meta kind ports i chunk).["metadata"].["labels"] = slice_labels meta (str_or "" meta.["name"])) as ->
    by (unfold slice_of; by destruct (slice_annotations meta)).
  assert ((slice_of json_text meta kind ports i chunk).["metadata"].["namespace"] = Str (str_or "" meta.["namespace"])) as ->
    by (unfold slice_of; by destruct (slice_annotations meta)).
  unfold slice_labels. set (m := default [] _). set (name := str_or "" meta.["name"]).
  assert ((Object (map_insert (map_insert m SERVICE_NAME (Str name)) MANAGED_BY_LABEL (Str MANAGED_BY))).[SERVICE_NAME] = Str name) as ->
    by (unfold index; cbn [Json.get]; by rewrite map_get_insert_ne, map_get_insert_eq).
  assert ((Object (map_insert (map_insert m SERVICE_NAME (Str name)) MANAGED_BY_LABEL (Str MANAGED_BY))).[MANAGED_BY_LABEL] = Str MANAGED_BY) as ->
    by (unfold index; cbn [Json.get]; by rewrite map_get_insert_eq).
  cbn [str_is as_str]. by rewrite !str_eqb_refl.
Qed.

Lemma slices_of_spec json_text meta g :
  concat (slice_contents <$> slices_of json_text meta g) = flat g ∧
  Forall (λ s, (0 < length (items s.["endpoints"]) ≤ MAX_PER_SLICE)%nat ∧ is_mirrored s (str_or "" meta.["namespace"]) (str_or "" meta.["name"]) = true) (slices_of json_text meta g).
Proof.
  destruct g as [[kind ports] eps]. cbn [slices_of flat]. destruct (chunks_spec eps) as [Hc Hf]. split.
  - rewrite <-Hc at 2. clear Hf Hc. generalize (slice_of_fields json_text meta kind ports).
    generalize (slice_of json_text meta kind ports). generalize (chunks MAX_PER_SLICE eps). clear.
    intros l f Hfields. revert f Hfields. induction l as [|c l IH]; intros f Hfields; [done|]. cbn [imap fmap list_fmap concat]. rewrite fmap_app.
    destruct (Hfields 0%nat c) as (E1 & E2 & E3 & _). unfold slice_contents at 1. rewrite E1, E2, E3. cbn [items str_or as_str default from_option id as_array].
    f_equal. apply (IH (f ∘ S)). intros i. apply Hfields.
  - apply Forall_lookup. intros i s Hs. rewrite list_lookup_imap in Hs. destruct (chunks _ _ !! i) as [c|] eqn:E; [|done]. injection Hs as <-.
    destruct (slice_of_fields json_text meta kind ports i c) as (_ & _ & E3 & Hm). rewrite E3. split; [|done]. by eapply Forall_lookup in Hf.
Qed.

(** the mirrored slices hold the Endpoints, no more and no less.  Together
    they hold, once each, the endpoint of every address that is an IP — ready
    or not, as listed — under the address's own type and its subset's ports;
    no slice is empty or holds more than [MAX_PER_SLICE] of them; and each is
    one that a later pass recognises as mirrored for this Service. *)
Theorem mirrored_slices_exact json_text ep :
  Forall (λ s, no_floats (slice_ports json_text s) = true) (items ep.["subsets"]) →
  concat (slice_contents <$> desired json_text ep) ≡ₚ concat (subset_entries json_text <$> items ep.["subsets"]) ∧
  Forall (λ s, (0 < length (items s.["endpoints"]) ≤ MAX_PER_SLICE)%nat ∧
               is_mirrored s (str_or "" ep.["metadata"].["namespace"]) (str_or "" ep.["metadata"].["name"]) = true) (desired json_text ep).
Proof.
  intros Hf. split.
  - rewrite <-(groups_grouped json_text _ Hf [] []) by done. unfold desired, groups_of. generalize (fold_left (add_subset json_text) (items ep.["subsets"]) []).
    intros groups. induction groups as [|g groups IH]; [done|]. cbn [fmap list_fmap concat]. rewrite fmap_app, concat_app.
    by rewrite (proj1 (slices_of_spec json_text _ g)), IH.
  - apply Forall_concat, Forall_fmap, Forall_forall. intros g _. apply (slices_of_spec json_text).
Qed.

(** ** A Service that is gone *)

Definition service_path (k : Key) : string := "/api/v1/namespaces/" ++ key_namespace k ++ "/services/" ++ key_name k.

(** nothing of a Service is deleted while the server has it.  Whatever the
    informers say, a pass for a Service gone deletes only after the server
    was asked for the Service and answered that there is none of that name,
    or one with another UID; it deletes, as observed, only what names the
    Service of that UID as its controller, and the slices mirrored for the
    name only when the name is free. *)
Theorem service_gone_first slices pending k children t x p o a :
  exec (deleted slices pending k children) t x → EAsk (QDelete p o) a ∈ t →
  ∃ a0 t' v, t = EAsk (QGet (service_path k)) a0 :: t' ∧ names_observed v o ∧
    ((∃ b, a0 = AResponse 404 b) ∨ ∃ s cur, a0 = AResponse s (Some cur) ∧ is_error s = false ∧ cur.["metadata"].["uid"] ≠ Str (key_uid k)) ∧
    (owned_by_service (key_uid k) v = true ∧ (v ∈ children ∧ p = named_endpoints (key_namespace k) v ∨ p = named_slice (key_namespace k) v) ∨
     is_mirrored v (key_namespace k) (key_name k) = true ∧ p = named_slice (key_namespace k) v ∧ ∃ b, a0 = AResponse 404 b).
Proof.
  unfold deleted. fold (service_path k). cbn zeta. intros (t1 & t2 & r & E1 & E2 & ->)%exec_bind Hin. apply exec_ask_inv in E1 as (a0 & t1' & -> & E1).
  apply respond_exec in E1 as [Hn ->]. apply elem_of_app in Hin as [Hin|Hin].
  { apply elem_of_cons in Hin as [Hin|Hin]; [done|]. rewrite Forall_forall in Hn. by apply Hn in Hin. }
  destruct a0 as [|s body]; [apply exec_ret_inv in E2 as [-> _]; by apply not_elem_of_nil in Hin|].
  set (gone := if s =? 404 then _ else _) in E2.
  assert (gone = Ok tt → (∃ b, AResponse s body = AResponse 404 b) ∨ ∃ s' cur, AResponse s body = AResponse s' (Some cur) ∧ is_error s' = false ∧ cur.["metadata"].["uid"] ≠ Str (key_uid k)) as Hgone.
  { unfold gone. destruct (s =? 404) eqn:E4; [apply Z.eqb_eq in E4 as ->; left; by eexists|]. destruct (is_error s) eqn:Es; [done|].
    destruct body as [cur|]; [|done]. destruct (str_is _ _) eqn:Eu; [done|]. intros _. right. exists s, cur. split_and!; [done..|].
    intros Hc. apply str_is_spec in Hc. congruence. }
  destruct gone as [[]|e]; [|apply exec_ret_inv in E2 as [-> _]; by apply not_elem_of_nil in Hin]. specialize (Hgone eq_refl).
  destruct (if s =? 404 then mirrored_slices _ _ _ else _) as [mirrored|e] eqn:Em; [|apply exec_ret_inv in E2 as [-> _]; by apply not_elem_of_nil in Hin].
  set (P q := deletes_of (named_slice (key_namespace k)) mirrored q ∨ deletes_of (named_endpoints (key_namespace k)) (List.filter (owned_by_service (key_uid k)) children) q ∨
    ∃ owned, deletes_of (named_slice (key_namespace k)) (List.filter (owned_by_service (key_uid k)) owned) q).
  assert (Forall (asks P) t2) as HP.
  { revert E2. apply emits_and_then; [eapply emits_weaken; [|apply delete_all_asks]; intros [q a'|]; [by left|done]|]. intros pending1.
    destruct (Informer.select _ _) as [owned|]; [|apply emits_ret]. apply emits_and_then.
    - eapply emits_weaken; [|apply delete_all_asks]. intros [q a'|]; [by right; left|done].
    - intros pending2. eapply emits_weaken; [|apply delete_all_asks]. intros [q a'|]; [|done]. intros H. right. right. by exists owned. }
  rewrite Forall_forall in HP. apply HP in Hin. cbn in Hin. clear HP. exists (AResponse s body), (t1' ++ t2)%list.
  destruct Hin as [(v & Hv & -> & Ho)|[(v & Hv & -> & Ho)|(owned & v & Hv & -> & Ho)]]; exists v; (split; [done|]); (split; [done|]); (split; [done|]).
  - right. destruct (s =? 404) eqn:E4; [|injection Em as <-; by apply not_elem_of_nil in Hv]. apply Z.eqb_eq in E4 as ->.
    unfold mirrored_slices in Em. destruct (Informer.select _ _); [|done]. injection Em as <-. apply list_elem_of_In, filter_In in Hv as [_ Hm].
    split_and!; [done..|by eexists].
  - left. apply list_elem_of_In, filter_In in Hv as [Hv Hm]. split; [done|]. left. split; [by apply list_elem_of_In|done].
  - left. apply list_elem_of_In, filter_In in Hv as [Hv Hm]. split; [done|by right].
Qed.

(** ** What is published *)

(** A run left the object there with these fields: it was found so, or written
    so and the write was accepted. *)
Definition published (t : list Event) (path : string) (fields : list string) (o : Value) : Prop :=
  (∃ s cur, EAsk (QGet path) (AResponse s (Some cur)) ∈ t ∧ ∀ f, f ∈ fields → value_eqb cur.[f] o.[f] = true) ∨
  (∃ q a, EAsk q a ∈ t ∧ is_ok (json_answer a) = true ∧
     ((∃ b, q = QPut path b ∧ ∀ f, f ∈ fields → b.[f] = o.[f]) ∨ ∃ parent, before_slash path = Some parent ∧ q = QPost parent o)).

(** No create for the object at this path, of this owner, is still open. *)
Definition none_open (pending : Pending) (path name uid : string) : Prop :=
  ∀ parent, before_slash path = Some parent → pending !! create_group parent name uid = None.

Lemma create_first_ok pending path body name t pending' v :
  body.["metadata"].["name"] = Str name → pending !! create_group path name (create_owner body) = None →
  exec (create pending path body) t (pending', Ok v) → pending' = pending ∧ ∃ a, EAsk (QPost path body) a ∈ t ∧ is_ok (json_answer a) = true.
Proof.
  intros Hn Hg. unfold create. rewrite Hn. cbn [as_str]. cbn zeta. rewrite Hg. cbn [default from_option id]. unfold finish_create.
  intros (t1 & t2 & r & E1 & E2 & ->)%exec_bind. apply send_create_exec in E1 as (a & t' & -> & -> & _). cbn [andb] in E2.
  apply exec_ret_inv in E2 as [_ E]. apply pair_eq in E as [-> E]. rewrite <-E. cbn [definitive]. split; [|exists a; split; [left|by rewrite <-E]].
  by rewrite delete_insert_id.
Qed.

Lemma upsert_published pending path o name fields annotations t pending' :
  o.["metadata"].["name"] = Str name → none_open pending path name (create_owner o) →
  exec (upsert pending path o fields annotations) t (pending', Ok tt) → "metadata" ∉ fields → pending' = pending ∧ published t path fields o.
Proof.
  intros Hn Hg. unfold upsert. intros (t1 & t2 & r & E1 & E2 & ->)%exec_bind Hm. apply exec_ask_inv in E1 as (a & t1' & -> & E1). apply respond_exec in E1 as [_ ->].
  destruct a as [|s body]; [by apply exec_ret_inv in E2 as [_ [=]]|]. destruct (s =? 404).
  - destruct (before_slash path) as [parent|] eqn:Eb; [|by apply exec_ret_inv in E2 as [_ [=]]].
    apply exec_bind in E2 as (t3 & t4 & [pend r] & E3 & [-> E4]%exec_ret_inv & ->). cbn in E4. injection E4 as -> E4. destruct r as [v|]; [|done].
    apply (create_first_ok _ _ _ _ _ _ _ Hn (Hg _ Eb)) in E3 as (-> & a & Ha & Hok). split; [done|].
    right. exists (QPost parent o), a. split_and!; [rewrite !elem_of_app; auto|done|]. right. by exists parent.
  - destruct (is_error s); [by apply exec_ret_inv in E2 as [_ [=]]|]. destruct body as [cur|]; [|by apply exec_ret_inv in E2 as [_ [=]]].
    destruct (negb _); [by apply exec_ret_inv in E2 as [_ [=]]|]. destruct (agrees _ _ _ _) eqn:Ea.
    + apply exec_ret_inv in E2 as [_ [= ->]]. split; [done|]. left. exists s, cur. split; [left|]. unfold agrees in Ea. rewrite !andb_true_iff in Ea. destruct Ea as [[Ea _] _]. intros f Hf.
      rewrite forallb_forall in Ea. apply Ea. by apply list_elem_of_In.
    + destruct (set_index2 _ _ _ _) as [u|] eqn:Eu; [|by apply exec_ret_inv in E2 as [_ [=]]].
      apply exec_bind in E2 as (t3 & t4 & r & E3 & [-> E4]%exec_ret_inv & ->). injection E4 as -> E4. apply send_json_exec in E3 as (a & t5 & -> & -> & _).
      split; [done|]. right. exists (QPut path u), a. split_and!; [rewrite !elem_of_app; right; left; left|by destruct (json_answer a)|]. left. exists u. split; [done|].
      intros f Hf. apply (set_index2_inner _ _ _ _ _ Eu). by intros ->.
Qed.

(** What a Service of this selector sends traffic to. *)
Definition backs (selector : Map) (pod : Value) : Prop :=
  (∃ labels, pod.["metadata"].["labels"] = Object labels ∧ ∀ k v, (k, v) ∈ selector → option_value_eqb (map_get labels k) (Some v) = true) ∧
  pod.["status"].["phase"] = Str "Running" ∧ ∃ ip, pod.["status"].["podIP"] = Str ip.

Lemma matching_pods_spec selector pods pod : pod ∈ matching_pods selector pods ↔ pod ∈ pods ∧ backs selector pod.
Proof.
  unfold matching_pods, backs. rewrite list_elem_of_In, filter_In, filter_In, <-list_elem_of_In. unfold selects_pod, serving.
  rewrite andb_true_iff, str_eqb_eq. split.
  - intros [[Hin Hl] [Hp Hi]]. split_and!; [done| | |].
    + destruct (pod.["metadata"].["labels"]) as [| | | | |labels]; try done. exists labels. split; [done|]. cbn in Hl. rewrite forallb_forall in Hl.
      intros k v Hkv. apply (Hl (k, v)). by apply list_elem_of_In.
    + unfold str_or in Hp. destruct (pod.["status"].["phase"]); try done. cbn in Hp. by subst.
    + destruct (pod.["status"].["podIP"]); try done. by eexists.
  - intros (Hin & (labels & -> & Hl) & -> & (ip & ->)). cbn. split_and!; [done| |done..]. apply forallb_forall. intros [k v] Hkv. apply Hl. by apply list_elem_of_In.
Qed.

Lemma endpoints_backends namespace name uid addresses ports :
  concat ((λ s, items s.["addresses"]) <$> items (endpoints_object namespace name uid addresses ports).["subsets"]) = addresses.
Proof. destruct addresses as [|a l]; [done|]. exact (app_nil_r _). Qed.

Lemma published_app t1 t2 path fields o : published t1 path fields o ∨ published t2 path fields o → published (t1 ++ t2) path fields o.
Proof. unfold published. setoid_rewrite elem_of_app. naive_solver. Qed.

(** C23: a pass publishes exactly the Pods that back the Service.  When a pass
    over a Service with a selector succeeds, no create of its Endpoints or its
    slice being open from an earlier pass (an open one is sent again as it was,
    see [stale_create_published]), an Endpoints object was found there or
    accepted whose addresses are exactly those of the given Pods that carry
    every label of the selector, are running and have an address; so was a
    slice whose endpoints are the same addresses, in the same order; and the
    creates open are those that were. *)
Theorem endpoints_published pending namespace svc pods t pending' name :
  let uid := str_or "" svc.["metadata"].["uid"] in
  exec (reconcile_service pending namespace svc pods) t (pending', Ok tt) → svc.["metadata"].["name"] = Str name → has_selector svc = true →
  none_open pending (endpoints_path namespace name) name uid → none_open pending (slice_path namespace name) name uid →
  pending' = pending ∧ ∃ e s addresses,
    published t (endpoints_path namespace name) ["subsets"] e ∧ published t (slice_path namespace name) ["addressType"; "endpoints"; "ports"] s ∧
    concat ((λ s, items s.["addresses"]) <$> items e.["subsets"]) = addresses ∧ items s.["endpoints"] = slice_endpoint <$> addresses ∧
    ∀ a, a ∈ addresses ↔ ∃ pod, a = address namespace pod ∧ pod ∈ pods ∧ backs (default [] (as_object svc.["spec"].["selector"])) pod.
Proof.
  intros uid. unfold reconcile_service. intros E Hname Hs He Hl. rewrite Hname, Hs in E. cbn [as_str negb] in E. cbn zeta in E.
  set (addresses := address namespace <$> _) in E. apply exec_and_then in E as [(e & _ & [=])|(t1 & t2 & pending1 & -> & E1 & E2)].
  apply (upsert_published _ _ _ name) in E1 as [-> H1]; [|done|exact He|set_solver].
  apply (upsert_published _ _ _ name) in E2 as [-> H2]; [|done|exact Hl|set_solver]. split; [done|].
  eexists _, _, addresses. split_and!; [apply published_app; by left|apply published_app; by right|apply endpoints_backends|done|].
  intros a. unfold addresses. rewrite list_elem_of_fmap. by setoid_rewrite matching_pods_spec.
Qed.

(** *** Witnesses *)

Module EpDemo.
Definition svc : Value :=
  json_obj [("metadata", json_obj [("name", Str "web"); ("namespace", Str "d"); ("uid", Str "s1")]);
            ("spec", json_obj [("selector", json_obj [("app", Str "web")]);
                               ("ports", Array [json_obj [("name", Str "http"); ("port", num_i64 80); ("targetPort", Str "http")]])])].
Definition pod (name ip ready : string) : Value :=
  json_obj [("metadata", json_obj [("name", Str name); ("namespace", Str "d"); ("uid", Str name); ("labels", json_obj [("app", Str "web"); ("pod", Str name)])]);
            ("spec", json_obj [("nodeName", Str "n1"); ("containers", Array [json_obj [("ports", Array [json_obj [("name", Str "http"); ("containerPort", num_i64 8080)]])]])]);
            ("status", json_obj [("phase", Str "Running"); ("podIP", Str ip); ("conditions", Array [json_obj [("type", Str "Ready"); ("status", Str ready)]])])].
Definition accepted : Answer := AResponse 201 (Some (json_obj [])).
Definition missing : Answer := AResponse 404 None.

Definition pass : option (list Event * (Pending * result unit ClientError)) :=
  play [missing; accepted; missing; accepted] (reconcile_service ∅ "d" svc [pod "a" "10.0.0.1" "True"; pod "b" "10.0.0.2" "False"]).

Definition posted (i : nat) (l : list Event) : Value :=
  default Null (head (drop i (omap (λ e, match e with EAsk (QPost _ b) _ => Some b | _ => None end) l))).

(** A Pod that runs but is not ready is published as ready. *)
Example unready_pod_published :
  (λ tr, (λ e, (e.["addresses"], e.["conditions"].["ready"])) <$> items (posted 1 tr.1).["endpoints"]) <$> pass =
  Some [(Array [Str "10.0.0.1"], Bool true); (Array [Str "10.0.0.2"], Bool true)].
Proof. vm_compute. reflexivity. Qed.

(** A target port given by name is replaced by the Service's own port. *)
Example named_target_port_lost :
  (λ tr, (λ p, p.["port"]) <$> items (posted 1 tr.1).["ports"]) <$> pass = Some [num_i64 80].
Proof. vm_compute. reflexivity. Qed.

(** A create whose answer was lost is sent again with the addresses of then:
    the pass succeeds, and has published a Pod that is gone. *)
Definition lost_pass : option (list Event * (Pending * result unit ClientError)) :=
  play [missing; ALost] (reconcile_service ∅ "d" svc [pod "a" "10.0.0.1" "True"]).
Example stale_create_published :
  (lost_pass ≫= λ tr, play [missing; missing; accepted; missing; accepted] (reconcile_service tr.2.1 "d" svc [pod "b" "10.0.0.2" "True"])) ≫=
    (λ tr, match tr.2.2 with
           | Ok _ => Some (concat ((λ s, (λ a, a.["ip"]) <$> items s.["addresses"]) <$> items (posted 0 tr.1).["subsets"]))
           | Err _ => None
           end) = Some [Str "10.0.0.1"].
Proof. vm_compute. reflexivity. Qed.

Definition manual : Value :=
  json_obj [("metadata", json_obj [("name", Str "web"); ("namespace", Str "d"); ("uid", Str "e1")]);
            ("subsets", Array [json_obj [("addresses", Array [json_obj [("ip", Str "10.0.0.1")]; json_obj [("ip", Str "fe80::1")]; json_obj [("ip", Str "nowhere")]]);
                                         ("ports", Array [json_obj [("port", num_i64 80)]])]])].
Definition text (v : Value) : string := "".
(** An informer that has listed its collection and found nothing. *)
Definition nothing : Feed := Informer.run (demo_feed []).
Definition key : Key := mkKey "d" "web" "s1".
(** What a Service that was replaced left behind. *)
Definition left_over : Value :=
  json_obj [("metadata", json_obj [("name", Str "web"); ("uid", Str "x1"); ("resourceVersion", Str "5"); ("ownerReferences", Array [owner_ref "web" "s1"])]);
            ("subsets", Array [Null])].
End EpDemo.
Import EpDemo.

Lemma endpoints_published_witness :
  ∃ t, exec (reconcile_service ∅ "d" svc [pod "a" "10.0.0.1" "True"; pod "b" "10.0.0.2" "False"]) t (∅, Ok tt) ∧
    ∃ e, published t (endpoints_path "d" "web") ["subsets"] e ∧ address "d" (pod "a" "10.0.0.1" "True") ∈ concat ((λ s, items s.["addresses"]) <$> items e.["subsets"]).
Proof.
  destruct pass as [[t [p r]]|] eqn:E; [|by vm_compute in E]. apply play_exec in E as Hx.
  assert (r = Ok tt) as -> by (vm_compute in E; by injection E as _ _ <-). clear E.
  destruct (endpoints_published ∅ "d" svc _ t p "web" Hx eq_refl eq_refl) as (-> & e & s & addresses & He & _ & Ha & _ & Hin).
  1-2: intros parent _; apply lookup_empty.
  exists t. split; [done|]. exists e. split; [done|]. rewrite Ha. apply Hin. exists (pod "a" "10.0.0.1" "True"). split_and!; [done|left|].
  split_and!; [|done|by eexists]. eexists. split; [done|]. intros k v H. apply list_elem_of_singleton in H. by injection H as -> ->.
Defined.

Lemma mirrored_slices_exact_witness :
  length (concat (slice_contents <$> desired text manual)) = 2%nat ∧ Forall (λ s, (length (items s.["endpoints"]) ≤ 1000)%nat) (desired text manual).
Proof.
  destruct (mirrored_slices_exact text manual) as [Hp Hf]; [repeat constructor|]. split; [by rewrite Hp|].
  eapply Forall_impl; [exact Hf|]. intros s [H _]. unfold MAX_PER_SLICE in H. lia.
Defined.

Lemma service_touches_own_witness :
  ∃ t x b a, exec (reconcile text nothing nothing nothing ∅ svc) t x ∧ EAsk (QPut (endpoints_path "d" "web") b) a ∈ t ∧
    writes_for nothing svc (first_owner b) ∧ b.["metadata"].["resourceVersion"] = Str "5".
Proof.
  destruct (play [AResponse 200 (Some left_over); accepted; missing; accepted] (reconcile text nothing nothing nothing ∅ svc)) as [[t x]|] eqn:E; [|by vm_compute in E].
  apply play_exec in E as Hx. vm_compute in E. injection E as Et _.
  assert (∃ b a, EAsk (QPut (endpoints_path "d" "web") b) a ∈ t ∧ b.["metadata"].["resourceVersion"] = Str "5") as (b & a & Hin & Hrv).
  { rewrite <-Et. eexists _, _. split; [right; left|reflexivity]. }
  clear Et. exists t, x, b, a. destruct (service_touches_own text nothing nothing nothing ∅ svc t x Hx) as (H & _ & _).
  destruct (H _ _ _ Hin) as (_ & _ & _ & _ & Hw & _). done.
Defined.

Lemma service_gone_first_witness :
  ∃ t x o a, exec (deleted nothing ∅ key [left_over]) t x ∧ EAsk (QDelete (endpoints_path "d" "web") o) a ∈ t ∧ ∃ t', t = EAsk (QGet (service_path key)) missing :: t'.
Proof.
  destruct (play [missing; accepted] (deleted nothing ∅ key [left_over])) as [[t x]|] eqn:E; [|by vm_compute in E].
  apply play_exec in E as Hx. vm_compute in E. injection E as Et _.
  assert (∃ o a, EAsk (QDelete (endpoints_path "d" "web") o) a ∈ t) as (o & a & Hin) by (rewrite <-Et; eexists _, _; right; left).
  destruct (service_gone_first nothing ∅ key [left_over] t x _ _ _ Hx Hin) as (a0 & t' & v & Ht & _).
  exists t, x, o, a. split_and!; [done..|]. exists t'. rewrite Ht in Et |- *. by injection Et as <- _.
Defined.
