(* ===== verification/Generation.v ===== *)
(** * [metadata.generation] of built-in objects ([pkg/apiserver/src/generation.rs])

    What a create and an update make of an object's generation, and what a
    controller may conclude from two equal generations.  An update is a
    function of the stored object and the new one; [None] is a panic. *)

From Stdlib Require Import ZArith Lia String Ascii.
From stdpp Require Import base gmap strings numbers option list.
From S2P Require Import Prelude Text BTree Json.
Open Scope string_scope.
Open Scope kube_scope.
Open Scope Z_scope.

Inductive Tracks := Spec | SpecAndAnnotations | Webhooks | PodSpec.

Definition tracks (resource : string) : option Tracks :=
  if (resource =? "pods")%kube then Some PodSpec
  else if (resource =? "deployments")%kube then Some SpecAndAnnotations
  else if str_in resource ["mutatingwebhookconfigurations"; "validatingwebhookconfigurations"] then Some Webhooks
  else if str_in resource
            ["replicasets"; "statefulsets"; "daemonsets"; "replicationcontrollers"; "jobs"; "cronjobs";
             "poddisruptionbudgets"; "networkpolicies"; "ingresses"; "customresourcedefinitions";
             "validatingadmissionpolicies"; "validatingadmissionpolicybindings";
             "mutatingadmissionpolicies"; "mutatingadmissionpolicybindings"; "flowschemas";
             "prioritylevelconfigurations"; "deviceclasses"; "resourceslices"] then Some Spec
  else None.

Definition resource_of (key : string) : option string :=
  rest ← strip_prefix "/registry/" key;
  seg ← head (split_on "/" rest);
  if negb (is_empty_str seg) && negb (str_contains_char "." seg) then Some seg else None.

Definition on_create (resource : string) (obj : Value) : Value :=
  match tracks resource with
  | None => obj
  | Some _ => insert_at obj "metadata" "generation" (num_i64 1)
  end.

Definition without_node (v : Value) : Value :=
  match Json.get v "spec" with
  | Some (Object m) => Object (map_remove m "nodeName")
  | Some s => s
  | None => Null
  end.

Definition differs (a b : option Value) : bool := negb (option_value_eqb a b).

Definition changed (t : Tracks) (stored obj : Value) : bool :=
  match t with
  | Spec => differs (Json.get stored "spec") (Json.get obj "spec")
  | SpecAndAnnotations =>
      differs (Json.get stored "spec") (Json.get obj "spec")
      || differs (Json.get stored.["metadata"] "annotations") (Json.get obj.["metadata"] "annotations")
  | Webhooks => differs (Json.get stored "webhooks") (Json.get obj "webhooks")
  | PodSpec => negb (value_eqb (without_node stored) (without_node obj))
  end.

(** The stored generation, when it is one. *)
Definition stored_generation (v : Value) : option Z :=
  match as_i64 v.["metadata"].["generation"] with Some g => if 0 <? g then Some g else None | None => None end.

Definition deleting (stored obj : Value) : bool :=
  is_null stored.["metadata"].["deletionTimestamp"] && is_string obj.["metadata"].["deletionTimestamp"].

(** [obj["metadata"].as_object_mut().map(|m| m.remove("generation"))]. *)
Definition drop_generation (obj : Value) : option Value :=
  obj ← touch obj "metadata"; Some (remove_at obj "metadata" "generation").

Definition on_update_through (subresource : option string) (key : string) (stored obj : Value) : option Value :=
  match resource_of key with
  | None => Some obj
  | Some resource =>
      if match subresource with Some s => (s =? "status")%kube | None => false end then
        match stored.["metadata"].["generation"] with
        | Null => drop_generation obj
        | g => set_index2 obj "metadata" "generation" g
        end
      else if negb (is_object obj.["metadata"]) then Some obj
      else
        let old := stored_generation stored in
        let next (generation : Z) :=
          let generation := if deleting stored obj then wrap_i64 (generation + 1) else generation in
          set_index2 obj "metadata" "generation" (num_i64 generation) in
        match tracks resource with
        | Some t =>
            let base := default 1 old in
            next (if changed t stored obj then wrap_i64 (base + 1) else base)
        | None => match old with Some g => next g | None => drop_generation obj end
        end
  end.

(** ** Theorems *)

Lemma get_set_index v k x w k' : k' ≠ k → set_index v k x = Some w → Json.get w k' = Json.get v k'.
Proof.
  intros Hne. destruct v; try done; intros [= <-]; cbn.
  - apply str_eqb_neq in Hne. by rewrite Hne.
  - by rewrite map_get_insert_ne.
Qed.

Lemma get_set_index2 v k1 k2 x w k : set_index2 v k1 k2 x = Some w → k ≠ k1 → Json.get w k = Json.get v k.
Proof. unfold set_index2. destruct (set_index _ _ _); [|done]. intros E Hk. by eapply get_set_index. Qed.

Lemma option_value_eqb_eq a b : no_floats (default Null a) = true → option_value_eqb a b = true ↔ a = b.
Proof.
  destruct a as [x|], b as [y|]; cbn; try done. intros Hx. rewrite value_eqb_eq by done. split; congruence.
Qed.

(** What an object asks for, by kind. *)
Definition asked (t : Tracks) (v : Value) : option Value :=
  match t with
  | Spec | SpecAndAnnotations => Json.get v "spec"
  | Webhooks => Json.get v "webhooks"
  | PodSpec => Some (without_node v)
  end.

Lemma asked_set_generation t v x w : set_index2 v "metadata" "generation" x = Some w → asked t w = asked t v.
Proof.
  intros E. pose proof (get_set_index2 _ _ _ _ _ "spec" E ltac:(done)) as Hs.
  destruct t; cbn; unfold without_node; rewrite ?Hs; try done. by apply (get_set_index2 _ _ _ _ _ "webhooks" E).
Qed.

Lemma changed_false t stored obj : changed t stored obj = false → option_value_eqb (asked t stored) (asked t obj) = true.
Proof.
  destruct t; unfold changed, differs; cbn [asked].
  - by intros ?%negb_false_iff.
  - by intros [?%negb_false_iff _]%orb_false_iff.
  - by intros ?%negb_false_iff.
  - by intros ?%negb_false_iff.
Qed.

Lemma wrap_i64_id z : 0 ≤ z ≤ i64_max → wrap_i64 z = z.
Proof. unfold wrap_i64, i64_max. intros Hz. repeat case_match; rewrite ?Z.mod_small in *; lia. Qed.

Lemma generation_of_set v g w : 0 < g ≤ i64_max → set_index2 v "metadata" "generation" (num_i64 g) = Some w → stored_generation w = Some g.
Proof.
  intros Hg E. unfold stored_generation. rewrite (index2_set_index2 _ _ _ _ _ E). unfold num_i64.
  replace (g <? 0) with false by lia. cbn [as_i64]. replace (g <=? i64_max) with true by lia. by replace (0 <? g) with true by lia.
Qed.

(** One update of the stored object: through the main resource, whatever the
    body says, or through [/status], which leaves what is asked as it was. *)
Definition is_status (subresource : option string) : bool :=
  match subresource with Some s => (s =? "status")%kube | None => false end.

Record updated (key : string) (t : Tracks) (subresource : option string) (stored body new : Value) : Prop := {
  up_written : on_update_through subresource key stored body = Some new;
  up_metadata : is_object body.["metadata"] = true;
  up_room : ∃ g, stored_generation stored = Some g ∧ g + 2 ≤ i64_max;
  up_status : is_status subresource = true → asked t body = asked t stored }.

Lemma updated_step key t sub stored body new g :
  (resource_of key ≫= tracks) = Some t → updated key t sub stored body new → stored_generation stored = Some g →
  ∃ g', stored_generation new = Some g' ∧ g ≤ g' ∧ asked t new = asked t body ∧
    (g' = g → option_value_eqb (asked t stored) (asked t new) = true ∨ asked t new = asked t stored).
Proof.
  intros Hkey [Hw Hm (g0 & Hg0 & Hroom) Hst] Hg. assert (g0 = g) as -> by congruence.
  destruct (resource_of key) as [resource|] eqn:Er; cbn [mbind option_bind] in Hkey; [|done].
  unfold on_update_through in Hw. rewrite Er in Hw. fold (is_status sub) in Hw. destruct (is_status sub) eqn:Es.
  - assert (set_index2 body "metadata" "generation" stored.["metadata"].["generation"] = Some new) as E.
    { unfold stored_generation, as_i64 in Hg. by destruct stored.["metadata"].["generation"] as [| |[z|z|f]| | |]. }
    exists g. split_and!; [|lia|by eapply asked_set_generation|].
    + unfold stored_generation. by rewrite (index2_set_index2 _ _ _ _ _ E).
    + intros _. right. rewrite (asked_set_generation _ _ _ _ E). by apply Hst.
  - rewrite Hm, Hkey, Hg in Hw. cbn [negb default from_option id] in Hw. assert (0 < g) as Hpos.
    { unfold stored_generation in Hg. destruct (as_i64 _) as [z|]; [|done]. destruct (0 <? z) eqn:Ez; [|done]. injection Hg as <-. lia. }
    rewrite (asked_set_generation t _ _ _ Hw).
    assert (∀ b : bool, (if b then wrap_i64 (g + 1) else g) = g + Z.b2z b) as Hb by (intros []; cbn; rewrite ?wrap_i64_id; lia).
    rewrite Hb in Hw. assert (∀ (b : bool) h, 0 ≤ h → h + 1 ≤ i64_max → (if b then wrap_i64 (h + 1) else h) = h + Z.b2z b) as Hb'
      by (intros [] h H0 H1; cbn; rewrite ?wrap_i64_id; lia).
    rewrite Hb' in Hw by (destruct (changed t stored body); cbn; lia).
    exists (g + Z.b2z (changed t stored body) + Z.b2z (deleting stored body)).
    split_and!; [|by destruct (changed t stored body), (deleting stored body); cbn; lia|done|].
    + apply (generation_of_set body); [|done]. destruct (changed t stored body), (deleting stored body); cbn; lia.
    + intros He. left. apply changed_false. destruct (changed t stored body) eqn:Ec; [|done].
      destruct (deleting stored body); cbn in He; lia.
Qed.

(** The versions of one object, from a first to a last. *)
Inductive history (key : string) (t : Tracks) : Value → Value → Prop :=
| history_refl v : history key t v v
| history_step v w sub body x : history key t v w → updated key t sub w body x → history key t v x.

(** A generation names what is asked for.  Along any history of updates of a
    built-in object of a kind that tracks it, through the main resource with
    any body or through [/status], generations never go back; and two versions
    with the same generation ask for the same [spec] (a Pod's apart from the
    node it is bound to, a webhook configuration's [webhooks]): a controller
    that reports the generation it has acted on has acted on what is stored. *)
Theorem generation_names_spec key t v x g :
  (resource_of key ≫= tracks) = Some t → history key t v x → stored_generation v = Some g → no_floats (default Null (asked t v)) = true →
  ∃ g', stored_generation x = Some g' ∧ g ≤ g' ∧ (g' = g → asked t x = asked t v).
Proof.
  intros Hkey Hh Hg Hn. induction Hh as [v|v w sub body x Hh IH Hup]; [by exists g|].
  destruct (IH Hg Hn) as (g1 & Hg1 & Hle & Hsame). destruct (updated_step _ _ _ _ _ _ _ Hkey Hup Hg1) as (g' & Hg' & Hle' & _ & Hsame').
  exists g'. split_and!; [done|lia|]. intros ->. assert (g1 = g) as -> by lia. specialize (Hsame eq_refl).
  destruct (Hsame' eq_refl) as [Hq|Hq]; [|congruence]. rewrite <- Hsame. symmetry. apply option_value_eqb_eq in Hq; [done|].
  by rewrite Hsame.
Qed.

(** Applying the update again, as the write path does after the webhooks,
    changes nothing. *)
Lemma on_update_idempotent key sub stored obj obj' :
  on_update_through sub key stored obj = Some obj' → is_object obj.["metadata"] = true →
  stored.["metadata"].["generation"] ≠ Null → (resource_of key ≫= tracks) ≠ None →
  on_update_through sub key stored obj' = Some obj'.
Proof.
  intros E Hm Hnn Ht. unfold on_update_through in *. destruct (resource_of key) as [r|]; [|done]. cbn [mbind option_bind] in Ht.
  destruct (match sub with Some s => (s =? "status")%kube | None => false end).
  - destruct stored.["metadata"].["generation"]; try done; rewrite (set_index2_twice _ _ _ _ _ _ E); exact E.
  - rewrite Hm in E. cbn [negb] in E. destruct (tracks r) as [t|]; [|done].
    assert (is_object obj'.["metadata"] = true) as Hm'.
    { unfold set_index2 in E. destruct obj.["metadata"] as [| | | | |m]; try done. apply index_set_index in E. by rewrite E. }
    rewrite Hm'. cbn [negb].
    assert (changed t stored obj' = changed t stored obj) as Hc.
    { pose proof (get_set_index2 _ _ _ _ _ "spec" E ltac:(done)) as Hs. pose proof (get_set_index2 _ _ _ _ _ "webhooks" E ltac:(done)) as Hw.
      assert (Json.get obj'.["metadata"] "annotations" = Json.get obj.["metadata"] "annotations") as Ha.
      { unfold set_index2 in E. destruct (set_index obj.["metadata"] _ _) as [i|] eqn:Ei; [|done]. apply index_set_index in E. rewrite E.
        by apply (get_set_index _ _ _ _ "annotations") in Ei. }
      destruct t; unfold changed, without_node; by rewrite ?Hs, ?Hw, ?Ha. }
    assert (deleting stored obj' = deleting stored obj) as Hd.
    { unfold deleting. by rewrite (index2_set_index2_ne _ _ _ _ _ "deletionTimestamp" E). }
    rewrite Hc, Hd, (set_index2_twice _ _ _ _ _ _ E). exact E.
Qed.

(** [obj'] is [obj] but for the generation. *)
Definition same_but_generation (obj obj' : Value) : Prop :=
  (∀ f, f ≠ "generation" → obj'.["metadata"].[f] = obj.["metadata"].[f]) ∧ (∀ k, k ≠ "metadata" → obj'.[k] = obj.[k]) ∧
  is_object obj'.["metadata"] = true.

Lemma set_generation_same obj x obj' : set_index2 obj "metadata" "generation" x = Some obj' → is_object obj.["metadata"] = true → same_but_generation obj obj'.
Proof.
  intros E Hm. split_and!; [intros f Hf; by apply (index2_set_index2_ne _ _ _ _ _ f E)|by apply (set_index2_inner _ _ _ _ _ E)|].
  unfold set_index2 in E. destruct obj.["metadata"] as [| | | | |m]; try done. apply index_set_index in E. by rewrite E.
Qed.

Lemma drop_generation_same obj obj' : drop_generation obj = Some obj' → is_object obj.["metadata"] = true → same_but_generation obj obj'.
Proof.
  unfold drop_generation, touch. destruct obj as [| | | | |m]; try done. unfold index, Json.get.
  destruct (map_get m "metadata") as [v|] eqn:Ev; [|done]. cbn [mbind option_bind default from_option id]. intros E Hm. injection E as <-.
  split_and!; [intros f Hf; by apply (index2_remove_at_ne (Object m))|intros k Hk; by apply (index_remove_at_ne (Object m))|].
  unfold remove_at. rewrite Ev. destruct v; try done. unfold index, Json.get. by rewrite map_get_insert_eq.
Qed.

Lemma on_update_fields sub key stored obj obj' :
  on_update_through sub key stored obj = Some obj' → is_object obj.["metadata"] = true → same_but_generation obj obj'.
Proof.
  intros E Hm. unfold on_update_through in E. destruct (resource_of key) as [r|]; [|injection E as <-; by split].
  destruct (match sub with Some s => (s =? "status")%kube | None => false end).
  - destruct stored.["metadata"].["generation"]; eauto using set_generation_same, drop_generation_same.
  - rewrite Hm in E. cbn [negb] in E. destruct (tracks r); [by eapply set_generation_same|].
    destruct (stored_generation stored); [by eapply set_generation_same|by apply drop_generation_same].
Qed.

(** ** Witnesses *)

Definition deploy (replicas g : Z) : Value :=
  json_obj [("kind", Str "Deployment"); ("metadata", json_obj [("generation", num_i64 g); ("name", Str "web")]);
            ("spec", json_obj [("replicas", num_i64 replicas)])].

Lemma generation_names_spec_witness :
  ∃ g', stored_generation (deploy 3 2) = Some g' ∧ 1 ≤ g' ∧ (g' = 1 → asked SpecAndAnnotations (deploy 3 2) = asked SpecAndAnnotations (deploy 2 1)).
Proof.
  apply (generation_names_spec "/registry/deployments/default/web" SpecAndAnnotations (deploy 2 1) (deploy 3 2) 1); try reflexivity.
  eapply (history_step _ _ _ (deploy 2 1) None (deploy 3 7)); [apply history_refl|].
  split; [reflexivity|reflexivity|exists 1; split; [reflexivity|unfold i64_max; lia]|done].
Defined.
