(* ===== verification/Handlers.v ===== *)
(** * The write path of the REST handlers ([pkg/apiserver/src/handlers/resource.rs])

    PUT, PATCH (as a guaranteed update), [/status], DELETE, deletecollection
    and the namespace's [/finalize], over the store monad of [Effect]: the
    whole handlers, with the server-owned fields, finalizers, preconditions
    and retries.  [Hooks] is what the admission webhooks answer, over HTTP;
    the theorems hold whatever they say.  A custom resource is written under
    its schema ([Schema]); the warnings of [fieldValidation=Warn] are not
    modelled. *)

From Stdlib Require Import ZArith Lia String Ascii.
From stdpp Require Import base gmap strings numbers option list.
From S2P Require Import Prelude Text BTree Json F64 Schema Quantity Store ApiError Codec Storage Effect Selector WatchStream ServiceAlloc Generation Admission.
Open Scope string_scope.
Open Scope kube_scope.
Open Scope Z_scope.

(** ** What the server decides about a body *)

Definition ensure_object (obj : Value) (k : string) : option Value :=
  if is_object obj.[k] then Some obj else set_index obj k (Object []).

Definition keep_field (obj stored : Value) (field : string) : option Value :=
  match Json.get stored.["metadata"] field with
  | Some v => if is_null v then Some obj else set_index2 obj "metadata" field v
  | None => Some obj
  end.

Definition keep_server_fields (obj stored : Value) (name : string) (namespace : option string) : option Value :=
  obj ← ensure_object obj "metadata";
  obj ← set_index2 obj "metadata" "name" (Str name);
  obj ← match namespace with Some ns => set_index2 obj "metadata" "namespace" (Str ns) | None => Some obj end;
  obj ← keep_field obj stored "uid";
  keep_field obj stored "creationTimestamp".

Definition priority_policy (v : Value) : string := str_or "PreemptLowerPriority" v.["preemptionPolicy"].
Definition empty_map (v : Value) : bool := is_null v || match as_object v with Some [] => true | _ => false end.
Definition same_data (old new : Value) (f : string) : bool :=
  value_eqb old.[f] new.[f] || (empty_map old.[f] && empty_map new.[f]).
Definition is_true (v : Value) : bool := match as_bool v with Some true => true | _ => false end.

Definition check_immutable (key : string) (old new : Value) : result unit ApiError :=
  if starts_with key "/registry/priorityclasses/" then
    if negb (value_eqb old.["value"] new.["value"]) then Err (invalid "value: Forbidden: may not be changed in an update.")
    else if negb (priority_policy old =? priority_policy new)%kube
         then Err (invalid "preemptionPolicy: Invalid value: field is immutable")
         else Ok tt
  else
    match (if starts_with key "/registry/configmaps/" then Some ["data"; "binaryData"]
           else if starts_with key "/registry/secrets/" then Some ["data"; "stringData"] else None) with
    | None => Ok tt
    | Some fields =>
        if negb (is_true old.["immutable"]) then Ok tt
        else if negb (is_true new.["immutable"])
             then Err (invalid "immutable: Forbidden: field is immutable when `immutable` is set")
             else if forallb (same_data old new) fields then Ok tt
                  else Err (invalid "data: Forbidden: field is immutable when `immutable` is set")
    end.

Definition keep_namespace_finalizers (existing body : Value) : option Value :=
  let stored := existing.["spec"].["finalizers"] in
  if is_null stored then Some (remove_at body "spec" "finalizers")
  else body ← ensure_object body "spec"; set_index2 body "spec" "finalizers" stored.

(** ** Strategies *)

Inductive Strategy := BuiltIn | Custom (status_subresource : bool) (schema : option Value) (validation : FieldValidation).

Definition strict (status : Strategy) : bool := match status with Custom _ _ Strict => true | _ => false end.

Definition undeclared (unknown : list string) : ApiError :=
  bad_request ("strict decoding error: " ++ String.concat ", " ((λ p, "unknown field " ++ quoted (trim_start_char "." p)) <$> unknown)
               ++ " (" ++ String.concat ", " ((λ p, p ++ ": field not declared in schema") <$> unknown) ++ ")").

Definition apply_schema (status : Strategy) (obj : Value) : result Value ApiError :=
  match status with
  | Custom _ (Some schema) validation =>
      let '(obj, unknown) := Schema.apply obj schema in
      match unknown, validation with
      | _ :: _, Strict => Err (undeclared unknown)
      | _, _ => Ok obj
      end
  | _ => Ok obj
  end.

Definition outside_metadata (m : Map) : Map := List.filter (λ kv, negb (kv.1 =? "metadata")%kube) m.

Definition custom_changed (status_subresource : bool) (obj stored : Map) : bool :=
  if status_subresource then negb (option_value_eqb (map_get obj "spec") (map_get stored "spec"))
  else negb (value_eqb (Object (outside_metadata stored)) (Object (outside_metadata obj))).

Section Strategies.
  Variables (debug : string → string) (json_text : Value → string) (regex : string → option (string → bool)).

Definition validate_schema (status : Strategy) (obj : Value) (old : option Value) : result unit ApiError :=
  match status with
  | Custom _ (Some schema) _ =>
      match Schema.validate debug json_text regex obj schema old with
      | [] => Ok tt
      | errs => Err (invalid (invalid_message obj errs))
      end
  | _ => Ok tt
  end.

Definition strategy_on_create (status : Strategy) (obj : Value) : result Value ApiError :=
  match status with
  | BuiltIn => Ok obj
  | Custom status_subresource _ _ =>
      match apply_schema status obj with
      | Err e => Err e
      | Ok (Object o) =>
          let o := if status_subresource then map_remove o "status" else o in
          let obj := insert_at (Object o) "metadata" "generation" (num_i64 1) in
          match validate_schema status obj None with Ok _ => Ok obj | Err e => Err e end
      | Ok v => Ok v
      end
  end.

(** The generation of the object [o] that replaces [stored]. *)
Definition next_generation (status_subresource : bool) (o : Map) (stored : Value) : Z :=
  let base := default 1 (stored_generation stored) in
  let changed := match stored with
                 | Object m => custom_changed status_subresource o m
                 | _ => if status_subresource then negb (option_value_eqb (map_get o "spec") None) else true
                 end in
  if changed then wrap_i64 (base + 1) else base.

Definition strategy_on_update (status : Strategy) (obj stored : Value) : option (result Value ApiError) :=
  match status with
  | BuiltIn => Some (Ok obj)
  | Custom status_subresource _ _ =>
      match apply_schema status obj with
      | Err e => Some (Err e)
      | Ok (Object o) =>
          let o := if status_subresource
                   then match Json.get stored "status" with Some s => map_insert o "status" s | None => map_remove o "status" end
                   else o in
          obj ← ensure_object (Object o) "metadata";
          obj ← set_index2 obj "metadata" "generation" (num_i64 (next_generation status_subresource o stored));
          Some match validate_schema status obj (Some stored) with Ok _ => Ok obj | Err e => Err e end
      | Ok v => Some (Ok v)
      end
  end.
End Strategies.

(** ** Deletion options *)

Record DeleteOptions := mkDelete {
  grace_period_seconds : option Z;
  propagation_policy : option string;
  precondition_uid : option string;
  precondition_rv : option string;
  dry_run : bool }.

Definition parse_delete_body `{JsonCodec} (body : string) : DeleteOptions :=
  let v := match from_slice body with Ok v => v | Err _ => Null end in
  mkDelete (as_i64 v.["gracePeriodSeconds"]) (as_str v.["propagationPolicy"])
    (as_str v.["preconditions"].["uid"]) (as_str v.["preconditions"].["resourceVersion"])
    (existsb (λ x, str_is x "All") (items v.["dryRun"])).

Definition is_none {A} (o : option A) : bool := match o with None => true | Some _ => false end.

(** One pair of the query string; the body wins. *)
Definition delete_param (o : DeleteOptions) (kv : string * string) : DeleteOptions :=
  let '(k, v) := kv in
  let '(mkDelete grace policy uid rv dry) := o in
  if (k =? "dryRun")%kube && (v =? "All")%kube then mkDelete grace policy uid rv true
  else if (k =? "propagationPolicy")%kube && is_none policy then mkDelete grace (Some v) uid rv dry
  else if (k =? "orphanDependents")%kube && is_none policy && (v =? "true")%kube then mkDelete grace (Some "Orphan") uid rv dry
  else if (k =? "gracePeriodSeconds")%kube && is_none grace then mkDelete (parse_i64 v) policy uid rv dry
  else o.

Definition parse_delete_options `{JsonCodec} (body : string) (query : list (string * string)) : DeleteOptions :=
  fold_left delete_param query (parse_delete_body body).

Definition check_preconditions (obj : Value) (opts : DeleteOptions) : result unit ApiError :=
  if match precondition_uid opts with Some uid => negb (str_is obj.["metadata"].["uid"] uid) | None => false end
  then Err (conflict "the UID in the precondition no longer matches the UID of the object")
  else if match precondition_rv opts with Some rv => negb (str_is obj.["metadata"].["resourceVersion"] rv) | None => false end
  then Err (conflict "the resourceVersion in the precondition no longer matches the object")
  else Ok tt.

Definition ensure_finalizer (finalizers : list Value) (name : string) : list Value :=
  if existsb (λ f, str_is f name) finalizers then finalizers else (finalizers ++ [Str name])%list.

Definition delete_success (name : string) (namespace : option string) (kind : string) : Value :=
  let details := ([("kind", Str kind); ("name", Str name)] ++ match namespace with Some ns => [("namespace", Str ns)] | None => [] end)%list in
  json_obj [("apiVersion", Str "v1"); ("details", json_obj details); ("kind", Str "Status"); ("metadata", json_obj []); ("status", Str "Success")].

Definition implied_finalizer (opts : DeleteOptions) : option string :=
  match propagation_policy opts with
  | Some p => if (p =? "Foreground")%kube then Some "foregroundDeletion" else if (p =? "Orphan")%kube then Some "orphan" else None
  | None => None
  end.

Definition with_implied (opts : DeleteOptions) (finalizers : list Value) : list Value :=
  match implied_finalizer opts with Some f => ensure_finalizer finalizers f | None => finalizers end.

(** What a delete makes of an object that has to outlive it. *)
Definition mark_deleted (now : string) (opts : DeleteOptions) (fresh : Value) : option Value :=
  let fins := with_implied opts (items fresh.["metadata"].["finalizers"]) in
  fresh ← (if is_null fresh.["metadata"].["deletionTimestamp"]
           then set_index2 fresh "metadata" "deletionTimestamp" (Str now) else Some fresh);
  fresh ← match grace_period_seconds opts with
          | Some g => set_index2 fresh "metadata" "deletionGracePeriodSeconds" (num_i64 g)
          | None => Some fresh
          end;
  set_index2 fresh "metadata" "finalizers" (Array fins).

(** ** Status writes *)

Fixpoint merge_json (dst src : Value) {struct src} : Value :=
  match src with
  | Object s =>
      match dst with
      | Object d =>
          Object ((fix go (d : Map) (s : Map) : Map :=
                     match s with
                     | [] => d
                     | (k, v) :: s => go (map_insert d k (merge_json (default Null (map_get d k)) v)) s
                     end) d s)
      | _ => src
      end
  | _ => src
  end.

Definition status_field (merge : bool) (patch : Value) (existing : Value) (f : string) : option Value :=
  match Json.get patch.["metadata"] f with
  | None => Some existing
  | Some new =>
      existing ← ensure_object existing "metadata";
      set_index2 existing "metadata" f (if merge then merge_json existing.["metadata"].[f] new else new)
  end.

Definition status_write_metadata (existing patch : Value) (merge : bool) : option Value :=
  existing ← status_field merge patch existing "labels";
  status_field merge patch existing "annotations".

(** [put_status]'s mutation. *)
Definition with_status (body existing : Value) : option Value :=
  existing ← match Json.get body "status" with Some status => set_index existing "status" status | None => Some existing end;
  status_write_metadata existing body false.

Definition precondition_of (body : Value) : option string :=
  match as_str body.["metadata"].["resourceVersion"] with
  | Some rv => if is_empty_str rv then None else Some rv
  | None => None
  end.

(** ** The handlers *)

(** What the admission webhooks answer to the [n]th attempt of a write. *)
Record Hooks := mkHooks {
  h_update : nat → Value → Value → result Value ApiError;
  h_delete : Value → result unit ApiError }.

Section Server.
  Context {S : Type} `{KvStore S} `{JsonCodec}.
  Variable float_text : f64 → string.
  Variables (base64 debug : string → string) (json_text : Value → string) (regex : string → option (string → bool)).
  Variables (env : Env) (hooks : Hooks) (now : string).

(** The strategy's part of an update. *)
Definition revise (status : Strategy) (obj stored : Value) : M S Value :=
  r <~ mget (strategy_on_update debug json_text regex status obj stored);; mlift r.

Definition finalizers_left (obj : Value) : bool := match items obj.["metadata"].["finalizers"] with [] => false | _ => true end.
Definition terminating (obj : Value) : bool := is_string obj.["metadata"].["deletionTimestamp"].
Definition prev_rev (obj : Value) : option Z := as_str obj.["metadata"].["resourceVersion"] ≫= parse_u64.

Definition persist_or_finalize (key : string) (obj : Value) : M S Value :=
  if terminating obj && negb (finalizers_left obj) then
    _ <~ s_delete key (prev_rev obj);; mret obj
  else s_update float_text key obj (prev_rev obj).

Definition builtin_update (subresource : option string) (key : string) (existing body : Value) : M S (Value * option Plan) :=
  body <~ (if starts_with key "/registry/secrets/" then mget (fst <$> fold_string_data base64 json_text body) else mret body);;
  body <~ mget (on_update_through subresource key existing (numbers_to_strings float_text (metric_resource key) body).1);;
  body <~ (if starts_with key "/registry/namespaces/" then mget (keep_namespace_finalizers existing body) else mret body);;
  _ <~ mlift (check_immutable key existing body);;
  _ <~ (if starts_with key "/registry/persistentvolumeclaims/" then pvc_update existing body else mret tt);;
  _ <~ (if starts_with key "/registry/pods/" then mlift (pod_gates_update existing body) else mret tt);;
  _ <~ (if starts_with key "/registry/jobs/" then mlift (job_managed_by debug (Some existing) body) else mret tt);;
  if starts_with key "/registry/services/" then
    body <~ mget (default_service_ports body);;
    r <~ plan_service float_text env (Some existing) body;;
    mret (r.1, Some r.2)
  else mret (body, None).

(** The write landed, or failed: the plan's claims. *)
Definition settle (plan : option Plan) (written : result Value ApiError) : M S unit :=
  match plan, written with
  | Some plan, Ok _ => commit plan
  | Some plan, Err _ => abort plan
  | None, _ => mret tt
  end.

(** What a body may not say, given the URL and the stored object. *)
Definition body_error (body existing : Value) (name : string) (namespace : option string) : option ApiError :=
  let meta := body.["metadata"] in
  let named := match as_str meta.["name"] with Some n => negb (is_empty_str n) && negb (n =? name)%kube | None => false end in
  let placed := match as_str meta.["namespace"], namespace with
                | Some ns, Some want => negb (is_empty_str ns) && negb (ns =? want)%kube
                | _, _ => false
                end in
  let identified := match as_str meta.["uid"] with
                    | Some u => negb (is_empty_str u) && negb (str_is existing.["metadata"].["uid"] u)
                    | None => false
                    end in
  if named then
    Some (bad_request ("the name of the object (" ++ str_or "" meta.["name"] ++ ") does not match the name on the URL (" ++ name ++ ")"))
  else if placed then
    Some (bad_request ("the namespace of the object (" ++ str_or "" meta.["namespace"] ++ ") does not match the namespace on the URL ("
                       ++ default "" namespace ++ ")"))
  else if identified then
    Some (conflict ("Precondition failed: UID in precondition: " ++ str_or "" existing.["metadata"].["uid"] ++ ", UID in object meta: "
                    ++ str_or "" meta.["uid"]))
  else None.

Definition put_object (key name : string) (namespace : option string) (body : Value) (status : Strategy) : M S Value :=
  existing <~ s_get key;;
  if negb (is_object body) then mraise (invalid "the body of a PUT must be an object")
  else
    body <~ mget (ensure_object body "metadata");;
    match body_error body existing name namespace with
    | Some e => mraise e
    | None =>
        body <~ mget (keep_server_fields body existing name namespace);;
        body <~ revise status body existing;;
        bp <~ builtin_update None key existing body;;
        let '(body, plan) := bp in
        written <~ mtry (
          body <~ mlift (h_update hooks 0 body existing);;
          body <~ mget (keep_server_fields body existing name namespace);;
          body <~ revise status body existing;;
          body <~ mget (on_update_through None key existing body);;
          body <~ (if starts_with key "/registry/secrets/" then mget (fst <$> fold_string_data base64 json_text body) else mret body);;
          persist_or_finalize key body);;
        _ <~ settle plan written;;
        mlift written
    end.

Definition MODIFIED (name : string) : ApiError :=
  conflict ("Operation cannot be fulfilled on " ++ quoted name
            ++ ": the object has been modified; please apply your changes to the latest version and try again").

(** One attempt: read, mutate, admit, swap. *)
Definition attempt_update (n : nat) (subresource : option string) (key : string) (precondition : option string)
    (mutate : Value → option (result Value ApiError)) : M S (result Value ApiError) :=
  fresh <~ s_get key;;
  let read_rv := str_or "" fresh.["metadata"].["resourceVersion"] in
  let name := str_or "" fresh.["metadata"].["name"] in
  if match precondition with Some want => negb (want =? read_rv)%kube | None => false end then mraise (MODIFIED name)
  else
    let stored_meta := json_obj [("metadata", json_obj [("creationTimestamp", fresh.["metadata"].["creationTimestamp"]);
                                                       ("uid", fresh.["metadata"].["uid"])])] in
    let namespace := as_str fresh.["metadata"].["namespace"] in
    m <~ mget (mutate fresh);;
    obj <~ mlift m;;
    if negb (is_object obj.["metadata"]) then mraise (invalid "metadata must be an object")
    else
      bp <~ builtin_update subresource key fresh obj;;
      let '(obj, plan) := bp in
      obj <~ mget (keep_server_fields obj stored_meta name namespace);;
      written <~ mtry (
        obj <~ mlift (h_update hooks n obj fresh);;
        obj <~ mget (keep_server_fields obj stored_meta name namespace);;
        obj <~ mget (on_update_through subresource key fresh obj);;
        obj <~ mget (set_index2 obj "metadata" "resourceVersion" (Str read_rv));;
        persist_or_finalize key obj);;
      _ <~ settle plan written;;
      mret written.

(** [budget]: after each attempt, was there still time within
    [PATCH_RETRY_BUDGET]? *)
Fixpoint guaranteed_update (budget : list bool) (n : nat) (subresource : option string) (key : string) (precondition : option string)
    (mutate : Value → option (result Value ApiError)) : M S Value :=
  written <~ attempt_update n subresource key precondition mutate;;
  match written, budget with
  | Err e, true :: budget =>
      if (reason e =? "Conflict")%kube then guaranteed_update budget (n + 1) subresource key precondition mutate else mraise e
  | _, _ => mlift written
  end.

Definition put_status (budget : list bool) (key : string) (body : Value) : M S Value :=
  guaranteed_update budget 0 (Some "status") key (precondition_of body) (λ existing, Ok <$> with_status body existing).

Definition perform_delete (budget : list bool) (key : string) (obj : Value) (opts : DeleteOptions) (name : string)
    (namespace : option string) (kind : string) : M S Value :=
  _ <~ mlift (check_preconditions obj opts);;
  _ <~ mlift (h_delete hooks obj);;
  let finalizers := with_implied opts (items obj.["metadata"].["finalizers"]) in
  let outlives := match finalizers with [] => false | _ => true end in
  if dry_run opts then mret (if outlives then obj else delete_success name namespace kind)
  else if outlives then
    guaranteed_update budget 0 None key (precondition_rv opts) (λ fresh, Ok <$> mark_deleted now opts fresh)
  else
    _ <~ (if (kind =? "services")%kube then release_all obj else mret tt);;
    _ <~ s_delete key None;;
    mret (delete_success name namespace kind).

(** A namespace terminates: marked, with the [kubernetes] finalizer. *)
Definition mark_namespace (obj : Value) : option Value :=
  ns ← ensure_object obj "metadata";
  ns ← set_index2 ns "metadata" "deletionTimestamp" (Str now);
  ns ← ensure_object ns "status";
  ns ← set_index2 ns "status" "phase" (Str "Terminating");
  let finalizers := ensure_finalizer (items ns.["spec"].["finalizers"]) "kubernetes" in
  ns ← ensure_object ns "spec";
  set_index2 ns "spec" "finalizers" (Array finalizers).

Definition no_spec_finalizers (obj : Value) : bool := match items obj.["spec"].["finalizers"] with [] => true | _ => false end.

Definition terminate_namespace (name : string) (obj : Value) (opts : DeleteOptions) : M S Value :=
  let key := cluster_key "namespaces" name in
  _ <~ mlift (check_preconditions obj opts);;
  _ <~ mlift (h_delete hooks obj);;
  if dry_run opts then mret obj
  else if terminating obj && no_spec_finalizers obj then _ <~ s_delete key None;; mret obj
  else
    ns <~ mget (mark_namespace obj);;
    s_update float_text key ns (prev_rev ns).

Definition finalize_namespace (name : string) (body : Value) : M S Value :=
  let key := cluster_key "namespaces" name in
  obj <~ s_get key;;
  let submitted := body.["spec"].["finalizers"] in
  obj <~ mget (ensure_object obj "spec");;
  obj <~ mget (set_index2 obj "spec" "finalizers" (if is_array submitted then submitted else Array []));;
  if no_spec_finalizers obj && terminating obj then _ <~ s_delete key None;; mret obj
  else s_update float_text key obj (prev_rev obj).

Definition delete_cluster_resource (budget : list bool) (resource name : string) (query : list (string * string)) (body : string) : M S Value :=
  let key := cluster_key resource name in
  obj <~ s_get key;;
  let opts := parse_delete_options body query in
  _ <~ mlift (check_preconditions obj opts);;
  if (resource =? "namespaces")%kube then terminate_namespace name obj opts
  else perform_delete budget key obj opts name None resource.

Definition delete_namespaced_resource (budget : list bool) (namespace resource name : string) (query : list (string * string)) (body : string) : M S Value :=
  let key := namespaced_key resource namespace name in
  obj <~ s_get key;;
  perform_delete budget key obj (parse_delete_options body query) name (Some namespace) resource.

(** ** [deletecollection] *)

Definition refuse_namespaced (resource : string) : ApiError :=
  api_error 405 "MethodNotAllowed"
    ("the server does not allow this method on the requested resource (deletecollection " ++ resource ++ " across namespaces)").

Definition object_namespace (obj : Value) : option string :=
  match as_str obj.["metadata"].["namespace"] with Some ns => if is_empty_str ns then None else Some ns | None => None end.

Definition object_key (store_resource : string) (namespace : option string) (name : string) : string :=
  match namespace with Some ns => namespaced_key store_resource ns name | None => cluster_key store_resource name end.

(** The objects deleted, and for each its name and whether it is gone. *)
Fixpoint delete_each (budget : list bool) (matched : list Value) (store_resource kind : string) (opts : DeleteOptions)
    (out : list Value) (removed : list (string * bool)) : M S (list Value * list (string * bool)) :=
  match matched with
  | [] => mret (out, removed)
  | obj :: matched =>
      match as_str obj.["metadata"].["name"] with
      | None => delete_each budget matched store_resource kind opts out removed
      | Some name =>
          let namespace := object_namespace obj in
          result <~ mtry (if (store_resource =? "namespaces")%kube then terminate_namespace name obj opts
                          else perform_delete budget (object_key store_resource namespace name) obj opts name namespace kind);;
          match result with
          | Ok r =>
              let gone := str_is r.["kind"] "Status" in
              delete_each budget matched store_resource kind opts (out ++ [if gone then obj else r]) (removed ++ [(name, gone)])
          | Err e => if status e =? 404 then delete_each budget matched store_resource kind opts out removed else mraise e
          end
      end
  end.

Definition delete_listed (budget : list bool) (matched : list Value) (cluster_path : bool) (store_resource kind : string)
    (opts : DeleteOptions) : M S (list Value * list (string * bool)) :=
  if cluster_path && existsb (λ o, negb (is_none (object_namespace o))) matched then mraise (refuse_namespaced store_resource)
  else delete_each budget matched store_resource kind opts [] [].

End Server.

(** ** Theorems: server-owned fields *)

Lemma ensure_object_spec obj k obj' :
  ensure_object obj k = Some obj' → is_object obj'.[k] = true ∧ (∀ k', k' ≠ k → obj'.[k'] = obj.[k']) ∧ (∀ f, obj'.[k].[f] = obj.[k].[f]).
Proof.
  unfold ensure_object. destruct (is_object obj.[k]) eqn:E; [by intros [= <-]|]. intros Hs. split_and!; [|by intros; eapply index_set_index_ne|intros f];
    rewrite (index_set_index _ _ _ _ Hs); [done|]. by destruct obj.[k].
Qed.

(** [obj] has the identity of [stored], an object called [name] in [namespace]. *)
Definition identity (obj stored : Value) (name : string) (namespace : option string) : Prop :=
  obj.["metadata"].["name"] = Str name ∧
  (∀ ns, namespace = Some ns → obj.["metadata"].["namespace"] = Str ns) ∧
  (∀ f, f = "uid" ∨ f = "creationTimestamp" → stored.["metadata"].[f] ≠ Null → obj.["metadata"].[f] = stored.["metadata"].[f]).

Lemma keep_field_spec obj stored f obj' :
  keep_field obj stored f = Some obj' →
  (stored.["metadata"].[f] ≠ Null → obj'.["metadata"].[f] = stored.["metadata"].[f]) ∧
  (∀ g, g ≠ f → obj'.["metadata"].[g] = obj.["metadata"].[g]) ∧ (∀ k, k ≠ "metadata" → obj'.[k] = obj.[k]).
Proof.
  unfold keep_field. assert (stored.["metadata"].[f] = default Null (Json.get stored.["metadata"] f)) as -> by done.
  destruct (Json.get stored.["metadata"] f) as [v|]; cbn [default from_option id]; [|intros E; injection E as <-; done].
  destruct (is_null v) eqn:En; [intros E; injection E as <-; by destruct v|]. intros E. split_and!.
  - intros _. by apply index2_set_index2 in E.
  - intros g Hg. by apply (index2_set_index2_ne _ _ _ _ _ g E).
  - by apply (set_index2_inner _ _ _ _ _ E).
Qed.

Lemma keep_server_identity obj stored name namespace obj' :
  keep_server_fields obj stored name namespace = Some obj' →
  identity obj' stored name namespace ∧ (∀ k, k ≠ "metadata" → obj'.[k] = obj.[k]) ∧
  (∀ f, f ∉ ["name"; "namespace"; "uid"; "creationTimestamp"] → obj'.["metadata"].[f] = obj.["metadata"].[f]).
Proof.
  unfold keep_server_fields. destruct (ensure_object obj "metadata") as [o1|] eqn:E1; cbn [mbind option_bind]; [|done].
  destruct (set_index2 o1 "metadata" "name" (Str name)) as [o2|] eqn:E2; cbn [mbind option_bind]; [|done].
  destruct (match namespace with Some ns => _ | None => _ end) as [o3|] eqn:E3; cbn [mbind option_bind]; [|done].
  destruct (keep_field o3 stored "uid") as [o4|] eqn:E4; cbn [mbind option_bind]; [|done]. intros E5.
  destruct (ensure_object_spec _ _ _ E1) as (_ & Hk1 & Hsame). destruct (keep_field_spec _ _ _ _ E4) as (H4 & Hm4 & Hk4).
  destruct (keep_field_spec _ _ _ _ E5) as (H5 & Hm5 & Hk5).
  assert (∀ f, f ≠ "namespace" → o3.["metadata"].[f] = o2.["metadata"].[f]) as Hm3.
  { intros f Hf. destruct namespace; [by apply (index2_set_index2_ne _ _ _ _ _ f E3)|by injection E3 as <-]. }
  assert (∀ k, k ≠ "metadata" → o3.[k] = o2.[k]) as Hk3.
  { intros k Hk. destruct namespace; [by apply (set_index2_inner _ _ _ _ _ E3)|by injection E3 as <-]. }
  split; [split_and!|split].
  - rewrite Hm5, Hm4, Hm3 by done. by apply index2_set_index2 in E2.
  - intros ns ->. rewrite Hm5, Hm4 by done. by apply index2_set_index2 in E3.
  - intros f [->| ->] Hnn; [rewrite Hm5 by done; by apply H4|by apply H5].
  - intros k Hk. by rewrite Hk5, Hk4, Hk3, (set_index2_inner _ _ _ _ _ E2), Hk1.
  - intros f Hf. by rewrite Hm5, Hm4, Hm3, (index2_set_index2_ne _ _ _ _ _ f E2), Hsame by set_solver.
Qed.

Lemma identity_ext obj obj' stored name namespace :
  (∀ f, f ∈ ["name"; "namespace"; "uid"; "creationTimestamp"] → obj'.["metadata"].[f] = obj.["metadata"].[f]) →
  identity obj stored name namespace → identity obj' stored name namespace.
Proof.
  intros Hm (H1 & H2 & H3). split_and!.
  - rewrite Hm by set_solver. done.
  - intros ns Hns. rewrite Hm by set_solver. by apply H2.
  - intros f Hf Hnn. rewrite Hm by (destruct Hf; subst; set_solver). by apply H3.
Qed.

(** ** Theorems: swaps *)

Section ServerTheorems.
  Context {S : Type} `{HL : KvStoreLaws S} `{JsonCodec}.
  Variable float_text : f64 → string.
  Variables (base64 debug : string → string) (json_text : Value → string).
  Variables (env : Env) (hooks : Hooks) (now : string).
  Implicit Types (s : S) (w : World S).

(** What a write of [obj] leaves under [key]: the object with its new version,
    or nothing when it was the write that cleared the last finalizer. *)
Definition left_behind (key : string) (obj out : Value) s s' : Prop :=
  kv_wf s ∧ kv_wf s' ∧ serving s' ∧
  if terminating obj && negb (finalizers_left obj)
  then out = obj ∧ view s' = map_remove (view s) key
  else revision s < revision s' ∧ inject_resource_version (stored_form float_text key obj) (revision s') = Some out ∧
       ∃ b, to_vec (stored_form float_text key obj) = Ok b ∧ view s' = map_insert (view s) key (b, revision s').

Lemma persist_spec key obj r w w' res :
  tame float_text w → prev_rev obj = Some r → is_u64 r → r ≠ 0 →
  persist_or_finalize float_text key obj w = (w', Some res) →
  match res with
  | Err _ => w' = meanwhile w
  | Ok out => rev_of (view (st (meanwhile w))) key = r ∧ left_behind key obj out (st (meanwhile w)) (st w')
  end.
Proof.
  intros Hw Hr Hu Hnz. unfold persist_or_finalize, left_behind. rewrite Hr.
  destruct (meanwhile_tame _ _ Hw) as [[(Hwf & Hs & Hroom) _] _]. set (w1 := meanwhile w) in *.
  destruct (decide (rev_of (view (st w1)) key = r)) as [He|Hne].
  - destruct (terminating obj && negb (finalizers_left obj)).
    + unfold mthen, s_delete, delete. fold w1.
      assert (contains_key (view (st w1)) key = true) as Hc.
      { destruct (contains_key (view (st w1)) key) eqn:Ec; [done|]. apply rev_of_absent in Ec; [|done]. congruence. }
      destruct (delete_ok (st w1) key (Some r) Hwf Hs Hroom (conj Hc He)) as (s' & -> & Hwf' & Hs' & _ & Hv & _).
      intros [= <- <-]. done.
    + unfold s_update, update. fold w1. fold (stored_form float_text key obj).
      destruct (to_vec (stored_form float_text key obj)) as [b|e] eqn:Eb; [|intros [= <- <-]; by destruct w1].
      destruct (put_ok (st w1) key b (Some r) Hwf Hs Hroom He) as (s' & -> & Hwf' & Hs' & Hlt & Hv & _).
      destruct (inject_resource_version _ (revision s')) as [o|] eqn:Ei; [|done]. intros [= <- <-]. split_and!; try done. by exists b.
  - destruct (terminating obj && negb (finalizers_left obj)).
    + unfold mthen, s_delete, delete. fold w1. rewrite delete_conflict by done. intros [= <- <-]. by destruct w1.
    + unfold s_update, update. fold w1. fold (stored_form float_text key obj).
      destruct (to_vec (stored_form float_text key obj)) as [b|e]; [rewrite put_conflict by done|]; intros [= <- <-]; by destruct w1.
Qed.

(** What the built-in rules make of a body, for every kind but Services. *)
Definition builtin_shape (subresource : option string) (key : string) (existing body : Value) : option Value :=
  body ← (if starts_with key "/registry/secrets/" then fst <$> fold_string_data base64 json_text body else Some body);
  body ← on_update_through subresource key existing (numbers_to_strings float_text (metric_resource key) body).1;
  if starts_with key "/registry/namespaces/" then keep_namespace_finalizers existing body else Some body.

Lemma mget_Ok {A} (o : option A) w w' x : mget o w = (w', Some (Ok x)) → w' = w ∧ o = Some x.
Proof. destruct o; [|done]. by intros [= <- <-]. Qed.
Lemma mlift_Ok {A} (r : result A ApiError) w w' x : mlift r w = (w', Some (Ok x)) → w' = w ∧ r = Ok x.
Proof. destruct r; [|done]. by intros [= <- <-]. Qed.

Lemma builtin_update_reads subresource key existing body :
  starts_with key "/registry/services/" = false → reads float_text (builtin_update float_text base64 debug json_text env subresource key existing body).
Proof. intros Hk. unfold builtin_update. rewrite Hk. unfold pvc_update. solve_reads. case_match; auto with reads. Qed.

Lemma builtin_update_shape subresource key existing body w w' body' plan :
  starts_with key "/registry/services/" = false →
  builtin_update float_text base64 debug json_text env subresource key existing body w = (w', Some (Ok (body', plan))) →
  plan = None ∧ builtin_shape subresource key existing body = Some body' ∧ check_immutable key existing body' = Ok tt.
Proof.
  intros Hk. unfold builtin_update, builtin_shape. rewrite Hk. intros E.
  apply mthen_Ok in E as (w1 & b1 & E1 & E). apply mthen_Ok in E as (w2 & b2 & E2 & E). apply mthen_Ok in E as (w3 & b3 & E3 & E).
  apply mthen_Ok in E as (w4 & [] & E4 & E). apply mthen_Ok in E as (w5 & ? & _ & E). apply mthen_Ok in E as (w6 & ? & _ & E).
  apply mthen_Ok in E as (w7 & ? & _ & E). injection E as <- <- <-. split; [done|]. apply mlift_Ok in E4 as [_ E4]. split; [|done].
  assert ((if starts_with key "/registry/secrets/" then fst <$> fold_string_data base64 json_text body else Some body) = Some b1) as ->.
  { destruct (starts_with key "/registry/secrets/"); [by apply mget_Ok in E1 as [_ ?]|by injection E1 as <- <-]. }
  cbn [mbind option_bind]. apply mget_Ok in E2 as [_ ->]. cbn [mbind option_bind].
  destruct (starts_with key "/registry/namespaces/"); [by apply mget_Ok in E3 as [_ ?]|by injection E3 as <- <-].
Qed.

(** The object an attempt writes: the mutated object as the built-in rules and
    then the webhooks leave it, with the fields the server owns. *)
Definition prepared (n : nat) (subresource : option string) (key : string) (fresh m obj : Value) : Prop :=
  let name := str_or "" fresh.["metadata"].["name"] in
  let namespace := as_str fresh.["metadata"].["namespace"] in
  let stored_meta := json_obj [("metadata", json_obj [("creationTimestamp", fresh.["metadata"].["creationTimestamp"]);
                                                     ("uid", fresh.["metadata"].["uid"])])] in
  ∃ b k h h1 h2,
    builtin_shape subresource key fresh m = Some b ∧ check_immutable key fresh b = Ok tt ∧
    keep_server_fields b stored_meta name namespace = Some k ∧
    h_update hooks n k fresh = Ok h ∧ keep_server_fields h stored_meta name namespace = Some h1 ∧
    on_update_through subresource key fresh h1 = Some h2 ∧
    set_index2 h2 "metadata" "resourceVersion" (Str (str_or "" fresh.["metadata"].["resourceVersion"])) = Some obj.

(** One attempt that swapped: it replaced exactly the version it had read. *)
Definition swapped (n : nat) (subresource : option string) (key : string) (precondition : option string)
    (mutate : Value → option (result Value ApiError)) (out : Value) s s' : Prop :=
  ∃ sr sw fresh m obj,
    writes float_text s sr ∧ live sr ∧ Storage.get sr key = Some (Ok fresh) ∧
    (∀ want, precondition = Some want → want = str_or "" fresh.["metadata"].["resourceVersion"]) ∧
    mutate fresh = Some (Ok m) ∧ prepared n subresource key fresh m obj ∧
    writes float_text sr sw ∧ map_get (view sw) key = map_get (view sr) key ∧ left_behind key obj out sw s'.

Lemma attempt_swaps n subresource key precondition mutate w w' written :
  tame float_text w → starts_with key "/registry/services/" = false →
  attempt_update float_text base64 debug json_text env hooks n subresource key precondition mutate w = (w', Some (Ok written)) →
  match written with
  | Err _ => tame float_text w' ∧ writes float_text (st w) (st w')
  | Ok out => swapped n subresource key precondition mutate out (st w) (st w')
  end.
Proof.
  intros Hw Hk E. unfold attempt_update in E.
  apply mthen_Ok in E as (w1 & fresh & E1 & E). destruct (s_get_Ok _ _ _ _ _ Hw E1) as (Hw1 & Hwr1 & Hget).
  destruct (match precondition with Some want => negb (want =? _)%kube | None => false end) eqn:Epre; [done|].
  apply mthen_Ok in E as (w1' & m & Em & E). apply mget_Ok in Em as [-> Em].
  apply mthen_Ok in E as (w1' & m' & Em' & E). apply mlift_Ok in Em' as [-> ->].
  destruct (is_object m'.["metadata"]) eqn:Emo; cbn [negb] in E; [|done].
  apply mthen_Ok in E as (w2 & [b plan] & Eb & E). destruct (builtin_update_reads _ _ _ _ Hk _ _ _ Hw1 Eb) as [Hw2 Hwr2].
  destruct (builtin_update_shape _ _ _ _ _ _ _ _ Hk Eb) as (-> & Hshape & Himm).
  apply mthen_Ok in E as (w2' & k & Ekeep & E). apply mget_Ok in Ekeep as [-> Ekeep].
  apply mthen_Ok in E as (w3 & written' & Etry & E). cbn [settle] in E. injection E as <- ->.
  apply mtry_inv in Etry as (res & [= ->] & Etry). unfold mthen at 1 in Etry.
  destruct (h_update hooks n k fresh) as [h|e] eqn:Eh; cbn [mlift mret mraise] in Etry.
  2:{ injection Etry as <- <-. split; [done|by eapply writes_trans]. }
  unfold mthen at 1 in Etry. destruct (keep_server_fields h _ _ _) as [h1|] eqn:Ekeep1; cbn [mget mret mpanic] in Etry; [|done].
  unfold mthen at 1 in Etry. destruct (on_update_through subresource key fresh h1) as [h2|] eqn:Egen; cbn [mget mret mpanic] in Etry; [|done].
  unfold mthen at 1 in Etry. destruct (set_index2 h2 "metadata" "resourceVersion" _) as [obj|] eqn:Erv; cbn [mget mret mpanic] in Etry; [|done].
  destruct Hw1 as [Hl1 Hf1]. pose proof Hl1 as (Hwf1 & Hs1 & _). destruct (get_version _ _ _ Hwf1 Hs1 Hget) as [Hver Hrange].
  assert (is_u64 (rev_of (view (st w1)) key)) as Hu by (unfold is_u64, u64_max, i64_max in *; lia).
  assert (prev_rev obj = Some (rev_of (view (st w1)) key)) as Hprev.
  { unfold prev_rev. rewrite (index2_set_index2 _ _ _ _ _ Erv), Hver, str_or_Str. cbn. by apply parse_u64_show. }
  pose proof (persist_spec key obj _ _ _ _ Hw2 Hprev Hu ltac:(lia) Etry) as Hp.
  destruct (meanwhile_tame _ _ Hw2) as [Hw2' Hwr3]. destruct res as [out|e].
  - destruct Hp as [Hcas Hleft]. exists (st w1), (st (meanwhile w2)), fresh, m', obj. split_and!; try done.
    + intros want ->. apply negb_false_iff, str_eqb_eq in Epre. done.
    + exists b, k, h, h1, h2. split_and!; try done.
    + by eapply writes_trans.
    + eapply (unseen_same float_text); try done; [lia|by eapply writes_trans].
  - subst w3. split; [done|]. eapply writes_trans; [done|]. by eapply writes_trans.
Qed.
Lemma stored_meta_fields fresh f :
  f = "uid" ∨ f = "creationTimestamp" →
  (json_obj [("metadata", json_obj [("creationTimestamp", fresh.["metadata"].["creationTimestamp"]);
                                    ("uid", fresh.["metadata"].["uid"])])]).["metadata"].[f] = fresh.["metadata"].[f].
Proof. by intros [->| ->]. Qed.

Lemma keep_server_object obj stored name namespace obj' :
  keep_server_fields obj stored name namespace = Some obj' → is_object obj'.["metadata"] = true.
Proof. intros E. destruct (keep_server_identity _ _ _ _ _ E) as ((Hn & _) & _). by destruct (obj'.["metadata"]). Qed.

(** Whatever the webhooks answered. *)
Lemma prepared_identity n subresource key fresh m obj :
  prepared n subresource key fresh m obj →
  identity obj fresh (str_or "" fresh.["metadata"].["name"]) (as_str fresh.["metadata"].["namespace"]).
Proof.
  intros (b & k & h & h1 & h2 & _ & _ & _ & _ & Hkeep & Hgen & Hrv).
  destruct (keep_server_identity _ _ _ _ _ Hkeep) as [Hid _].
  destruct (on_update_fields _ _ _ _ _ Hgen (keep_server_object _ _ _ _ _ Hkeep)) as [Hm _].
  apply (identity_ext h1).
  - intros f Hf. rewrite (index2_set_index2_ne _ _ _ _ _ f Hrv), Hm by set_solver. done.
  - destruct Hid as (H1 & H2 & H3). split_and!; [done..|]. intros f Hf. rewrite <- (stored_meta_fields fresh f Hf). by apply H3.
Qed.

Lemma swapped_later n subresource key precondition mutate out s s1 s' :
  writes float_text s s1 → swapped n subresource key precondition mutate out s1 s' →
  swapped n subresource key precondition mutate out s s'.
Proof.
  intros Hw (sr & sw & fresh & m & obj & Hr & Hrest). exists sr, sw, fresh, m, obj. split; [by eapply writes_trans|done].
Qed.

Lemma guaranteed_swapped budget n subresource key precondition mutate w w' out :
  tame float_text w → starts_with key "/registry/services/" = false →
  guaranteed_update float_text base64 debug json_text env hooks budget n subresource key precondition mutate w = (w', Some (Ok out)) →
  ∃ n', (n ≤ n')%nat ∧ swapped n' subresource key precondition mutate out (st w) (st w').
Proof.
  intros Hw Hk E. revert n w Hw E. induction budget as [|b budget IH]; intros n w Hw E; cbn [guaranteed_update] in E;
    apply mthen_Ok in E as (w1 & written & E1 & E); pose proof (attempt_swaps _ _ _ _ _ _ _ _ Hw Hk E1) as Ha; destruct written as [o|e].
  - injection E as <- <-. by exists n.
  - done.
  - injection E as <- <-. by exists n.
  - destruct b; [|done]. destruct (reason e =? "Conflict")%kube; [|done]. destruct Ha as [Hw1 Hwr].
    destruct (IH _ _ Hw1 E) as (n' & Hn' & Hs). exists n'. split; [lia|by eapply swapped_later].
Qed.

(** C8: A PATCH, a [/status] write or a delete that waits for finalizers of any
    object but a Service (keys outside [/registry/services/]; a Service's write
    also moves its addresses, see [ServiceAlloc]) is atomic, however often it
    had to be retried and whatever other clients, writing through the same store
    operations, and webhooks did meanwhile.  When the update succeeds, one of
    its attempts read an object, applied the mutation to that object and
    replaced precisely the version it had read: between its read and its write
    the key did not change.  The precondition held of that version, the update
    rules of the kind allowed the change, and the object written has the name,
    namespace, UID and creation time of the object read.  What is left is the
    object at a new revision, or nothing if the object was being deleted and no
    finalizer remained. *)
Theorem guaranteed_update_swaps budget n subresource key precondition mutate w w' out :
  tame float_text w → starts_with key "/registry/services/" = false →
  guaranteed_update float_text base64 debug json_text env hooks budget n subresource key precondition mutate w = (w', Some (Ok out)) →
  ∃ n' sr sw fresh m obj,
    (n ≤ n')%nat ∧ writes float_text (st w) sr ∧ Storage.get sr key = Some (Ok fresh) ∧
    (∀ want, precondition = Some want → want = str_or "" fresh.["metadata"].["resourceVersion"]) ∧
    mutate fresh = Some (Ok m) ∧ prepared n' subresource key fresh m obj ∧
    identity obj fresh (str_or "" fresh.["metadata"].["name"]) (as_str fresh.["metadata"].["namespace"]) ∧
    writes float_text sr sw ∧ map_get (view sw) key = map_get (view sr) key ∧ left_behind key obj out sw (st w').
Proof.
  intros Hw Hk E. destruct (guaranteed_swapped _ _ _ _ _ _ _ _ _ Hw Hk E) as (n' & Hn & Hs).
  destruct Hs as (sr & sw & fresh & m & obj & H1 & _ & H2 & H3 & H4 & Hp & H5). exists n', sr, sw, fresh, m, obj.
  split_and!; try apply H5; try done. by eapply prepared_identity.
Qed.

(** ** Theorems: what reaches the store *)

Lemma fold_entries_index obj entries obj' k : k ≠ "data" → fold_entries base64 json_text obj entries = Some obj' → obj'.[k] = obj.[k].
Proof.
  intros Hk. revert obj. induction entries as [|[f v] entries IH]; intros obj; cbn [fold_entries]; [by intros [= <-]|].
  destruct (set_index2 obj "data" f _) as [o|] eqn:E; cbn [mbind option_bind]; [|done]. intros E2.
  rewrite (IH _ E2). by apply (set_index2_inner _ _ _ _ _ E).
Qed.

Lemma fold_string_data_index obj r k :
  k ≠ "data" → k ≠ "stringData" → fold_string_data base64 json_text obj = Some r → r.1.[k] = obj.[k].
Proof.
  intros Hd Hs. unfold fold_string_data. destruct obj as [| | | | |m]; try by intros [= <-].
  destruct (map_get m "stringData") as [sd|]; [|by intros [= <-]].
  assert ((Object (map_remove m "stringData")).[k] = (Object m).[k]) as Hrm by (unfold index, Json.get; by rewrite map_get_remove_ne).
  destruct sd as [| | | | |entries]; try (intros [= <-]; exact Hrm).
  destruct (if is_object _ then _ else _) as [o1|] eqn:E1; cbn [mbind option_bind]; [|done].
  destruct (fold_entries base64 json_text o1 entries) as [o2|] eqn:E2; cbn [mbind option_bind]; [|done]. intros [= <-]. cbn [fst].
  rewrite (fold_entries_index _ _ _ _ Hd E2), <- Hrm. destruct (is_object _); [by injection E1 as <-|].
  by rewrite (index_set_index_ne _ _ _ _ _ Hd E1).
Qed.

(** The built-in rules leave the metadata a client sends alone, its generation apart. *)
Lemma builtin_shape_meta subresource key existing body b :
  builtin_shape subresource key existing body = Some b → is_object body.["metadata"] = true →
  is_object b.["metadata"] = true ∧
  ∀ f, f ≠ "generation" → unquantified body.["metadata"].[f] = true → b.["metadata"].[f] = body.["metadata"].[f].
Proof.
  unfold builtin_shape. intros E Ho.
  destruct (if starts_with key "/registry/secrets/" then _ else _) as [b1|] eqn:E1; cbn [mbind option_bind] in E; [|done].
  destruct (on_update_through _ _ _ _) as [b2|] eqn:E2; cbn [mbind option_bind] in E; [|done].
  assert (b1.["metadata"] = body.["metadata"]) as H1.
  { destruct (starts_with key "/registry/secrets/"); [|by injection E1 as <-].
    destruct (fold_string_data _ _ body) as [r|] eqn:Er; [|done]. injection E1 as <-. cbn [fst]; exact (fold_string_data_index _ _ "metadata" ltac:(done) ltac:(done) Er). }
  assert (b.["metadata"] = b2.["metadata"]) as H2.
  { destruct (starts_with key "/registry/namespaces/"); [|by injection E as <-]. unfold keep_namespace_finalizers in E.
    destruct (is_null _); [injection E as <-; by apply index_remove_at_ne|].
    destruct (ensure_object b2 "spec") as [b3|] eqn:E3; cbn [mbind option_bind] in E; [|done].
    rewrite (set_index2_inner _ _ _ _ _ E) by done. by apply (ensure_object_spec _ _ _ E3). }
  assert (is_object (numbers_to_strings float_text (metric_resource key) b1).1.["metadata"] = true) as Ho1 by (apply numbers_object1; by rewrite H1).
  destruct (on_update_fields _ _ _ _ _ E2 Ho1) as (Hm & _ & Ho2). rewrite H2. split; [done|].
  intros f Hf Hp. rewrite Hm by done. rewrite <- H1 in *. by apply numbers_plain2.
Qed.

(** The webhooks leave a field of the metadata as it is. *)
Definition hooks_keep (f : string) : Prop :=
  ∀ n obj old obj', h_update hooks n obj old = Ok obj' → obj'.["metadata"].[f] = obj.["metadata"].[f].

Definition server_owned (f : string) : bool :=
  str_in f ["name"; "namespace"; "uid"; "creationTimestamp"; "generation"; "resourceVersion"].

Lemma server_owned_false f :
  server_owned f = false → f ∉ ["name"; "namespace"; "uid"; "creationTimestamp"] ∧ f ≠ "generation" ∧ f ≠ "resourceVersion".
Proof.
  unfold server_owned, str_in. cbn [existsb]. rewrite !orb_false_iff. intros (H1 & H2 & H3 & H4 & H5 & H6 & _).
  apply str_eqb_neq in H1, H2, H3, H4, H5, H6. set_solver.
Qed.

(** What the mutation made of the other metadata is what is written. *)
Lemma prepared_meta n subresource key fresh m obj f :
  prepared n subresource key fresh m obj → is_object m.["metadata"] = true → server_owned f = false → hooks_keep f →
  unquantified m.["metadata"].[f] = true → obj.["metadata"].[f] = m.["metadata"].[f].
Proof.
  intros (b & k & h & h1 & h2 & Hshape & _ & Hk & Hh & Hkeep & Hgen & Hrv) Hm Hf Hhk Hp.
  destruct (server_owned_false f Hf) as (Hn & Hng & Hnr). destruct (builtin_shape_meta _ _ _ _ _ Hshape Hm) as [Hbo Hb].
  destruct (on_update_fields _ _ _ _ _ Hgen (keep_server_object _ _ _ _ _ Hkeep)) as [Hg _].
  destruct (keep_server_identity _ _ _ _ _ Hk) as (_ & _ & Hk'). destruct (keep_server_identity _ _ _ _ _ Hkeep) as (_ & _ & Hk1).
  by rewrite (index2_set_index2_ne _ _ _ _ _ f Hrv), Hg, Hk1, (Hhk _ _ _ _ Hh), Hk', Hb.
Qed.

Lemma swapped_meta n subresource key precondition mutate out s s' :
  swapped n subresource key precondition mutate out s s' → ∃ sr sw fresh m obj,
    writes float_text s sr ∧ Storage.get sr key = Some (Ok fresh) ∧ mutate fresh = Some (Ok m) ∧
    writes float_text sr sw ∧ map_get (view sw) key = map_get (view sr) key ∧ left_behind key obj out sw s' ∧
    identity obj fresh (str_or "" fresh.["metadata"].["name"]) (as_str fresh.["metadata"].["namespace"]) ∧
    (is_object m.["metadata"] = true → ∀ f, server_owned f = false → hooks_keep f → unquantified m.["metadata"].[f] = true → obj.["metadata"].[f] = m.["metadata"].[f]).
Proof.
  intros (sr & sw & fresh & m & obj & H1 & _ & H2 & _ & H3 & Hp & H4 & H5 & H6). exists sr, sw, fresh, m, obj.
  split_and!; try done; [by eapply prepared_identity|]. intros Hm f Hf Hh. by eapply prepared_meta.
Qed.

Lemma mark_deleted_spec opts fresh m :
  mark_deleted now opts fresh = Some m →
  is_object m.["metadata"] = true ∧
  items m.["metadata"].["finalizers"] = with_implied opts (items fresh.["metadata"].["finalizers"]) ∧
  m.["metadata"].["finalizers"] = Array (with_implied opts (items fresh.["metadata"].["finalizers"])) ∧
  m.["metadata"].["deletionTimestamp"] =
    if is_null fresh.["metadata"].["deletionTimestamp"] then Str now else fresh.["metadata"].["deletionTimestamp"].
Proof.
  unfold mark_deleted. set (fins := with_implied opts _).
  destruct (if is_null _ then _ else _) as [f1|] eqn:E1; cbn [mbind option_bind]; [|done].
  destruct (match grace_period_seconds opts with Some g => _ | None => _ end) as [f2|] eqn:E2; cbn [mbind option_bind]; [|done]. intros E3.
  pose proof (index2_set_index2 _ _ _ _ _ E3) as Hf. split_and!; [by destruct m.["metadata"]|by rewrite Hf|done|].
  rewrite (index2_set_index2_ne _ _ _ _ _ "deletionTimestamp" E3) by done.
  assert (f2.["metadata"].["deletionTimestamp"] = f1.["metadata"].["deletionTimestamp"]) as ->.
  { destruct (grace_period_seconds opts); [by rewrite (index2_set_index2_ne _ _ _ _ _ "deletionTimestamp" E2)|by injection E2 as <-]. }
  destruct (is_null _); [by rewrite (index2_set_index2 _ _ _ _ _ E1)|by injection E1 as <-].
Qed.

(** What a delete decides by is well typed. *)
Definition deletable (obj : Value) : Prop :=
  (obj.["metadata"].["deletionTimestamp"] = Null ∨ is_string obj.["metadata"].["deletionTimestamp"] = true) ∧
  forallb is_string (items obj.["metadata"].["finalizers"]) = true.

Lemma with_implied_plain opts fins : forallb is_string fins = true → unquantified (Array (with_implied opts fins)) = true.
Proof.
  intros Hf. unfold with_implied, ensure_finalizer.
  assert (∀ l, forallb is_string l = true → unquantified (Array l) = true) as Hp.
  { intros l. cbn [unquantified]. by induction l as [|[] l IH]. }
  destruct (implied_finalizer opts); [|by apply Hp]. destruct (existsb _ _); apply Hp; [done|]. rewrite forallb_app, Hf. done.
Qed.


  Variable regex : string → option (string → bool).

(** Of the server's metadata a strategy writes the generation only. *)
Lemma strategy_update_meta status obj stored obj' f :
  strategy_on_update debug json_text regex status obj stored = Some (Ok obj') → is_object obj.["metadata"] = true →
  str_in f OBJECT_META = true → f ≠ "generation" → obj'.["metadata"].[f] = obj.["metadata"].[f].
Proof.
  intros E Hm Hf Hg. unfold strategy_on_update in E. destruct status as [|sub schema validation]; [by injection E as <-|].
  destruct (apply_schema (Custom sub schema validation) obj) as [pruned|] eqn:Ea; [|done].
  assert (pruned.["metadata"].[f] = obj.["metadata"].[f]) as <-.
  { destruct obj as [| | | | |m]; try done. unfold apply_schema, Schema.apply in Ea. destruct schema as [schema|]; [|by injection Ea as <-].
    pose proof (walk_metadata schema m "" f Hm Hf) as Hw. destruct (Schema.walk schema true (Object m) "") as [out [|]]; [by injection Ea as <-|].
    destruct validation; try done; by injection Ea as <-. }
  destruct pruned as [| | | | |o0]; try by injection E as <-. cbn zeta in E. set (o := if sub then _ else o0) in E.
  assert ((Object o).["metadata"] = (Object o0).["metadata"]) as Ho.
  { unfold o, index, Json.get. destruct sub; [|done]. destruct (match stored with Object m => map_get m "status" | _ => None end);
      [by rewrite map_get_insert_ne|by rewrite map_get_remove_ne]. }
  destruct (ensure_object (Object o) "metadata") as [o1|] eqn:E1; cbn [mbind option_bind] in E; [|done].
  destruct (set_index2 o1 "metadata" "generation" _) as [o2|] eqn:E2; cbn [mbind option_bind] in E; [|done].
  destruct (ensure_object_spec _ _ _ E1) as (_ & _ & Hs). rewrite <- Ho, <- Hs, <- (index2_set_index2_ne _ _ _ _ _ f E2 Hg).
  destruct (validate_schema _ _ _ _ _ _); [by injection E as <-|done].
Qed.

Lemma revise_Ok status obj stored w w' obj' :
  revise debug json_text regex status obj stored w = (w', Some (Ok obj')) →
  w' = w ∧ strategy_on_update debug json_text regex status obj stored = Some (Ok obj').
Proof. unfold revise. intros E. apply mthen_Ok in E as (w1 & r & E1 & E). apply mget_Ok in E1 as [-> E1]. apply mlift_Ok in E as [-> ->]. done. Qed.

(** What a PUT of [body] over [existing] writes. *)
Definition put_prepared (key name : string) (namespace : option string) (status : Strategy) (existing body obj : Value) : Prop :=
  ∃ b0 b1 b2 b3 b4 b5 b6 b7,
    ensure_object body "metadata" = Some b0 ∧ body_error b0 existing name namespace = None ∧
    keep_server_fields b0 existing name namespace = Some b1 ∧ strategy_on_update debug json_text regex status b1 existing = Some (Ok b2) ∧
    builtin_shape None key existing b2 = Some b3 ∧ h_update hooks 0 b3 existing = Ok b4 ∧
    keep_server_fields b4 existing name namespace = Some b5 ∧ strategy_on_update debug json_text regex status b5 existing = Some (Ok b6) ∧
    on_update_through None key existing b6 = Some b7 ∧
    (if starts_with key "/registry/secrets/" then fst <$> fold_string_data base64 json_text b7 else Some b7) = Some obj.

Lemma put_writes key name namespace body status w w' out :
  tame float_text w → starts_with key "/registry/services/" = false →
  put_object float_text base64 debug json_text regex env hooks key name namespace body status w = (w', Some (Ok out)) →
  ∃ sr w2 existing obj,
    writes float_text (st w) sr ∧ Storage.get sr key = Some (Ok existing) ∧ tame float_text w2 ∧ writes float_text sr (st w2) ∧
    put_prepared key name namespace status existing body obj ∧ persist_or_finalize float_text key obj w2 = (w', Some (Ok out)).
Proof.
  intros Hw Hk E. unfold put_object in E.
  apply mthen_Ok in E as (w1 & existing & E1 & E). destruct (s_get_Ok _ _ _ _ _ Hw E1) as (Hw1 & Hwr1 & Hget).
  destruct (is_object body) eqn:Eo; cbn [negb] in E; [|done].
  apply mthen_Ok in E as (w1' & b0 & E0 & E). apply mget_Ok in E0 as [-> E0].
  destruct (body_error b0 existing name namespace) as [?|] eqn:Ebe; [done|].
  apply mthen_Ok in E as (w1' & b1 & Eb1 & E). apply mget_Ok in Eb1 as [-> Eb1].
  apply mthen_Ok in E as (w1' & b2 & Eb2 & E). apply revise_Ok in Eb2 as [-> Eb2].
  apply mthen_Ok in E as (w2 & [b3 plan] & Eb3 & E). destruct (builtin_update_reads _ _ _ _ Hk _ _ _ Hw1 Eb3) as [Hw2 Hwr2].
  destruct (builtin_update_shape _ _ _ _ _ _ _ _ Hk Eb3) as (-> & Hshape & _).
  apply mthen_Ok in E as (w3 & written & Etry & E). cbn [settle] in E. apply mthen_Ok in E as (w3' & [] & Es & E). injection Es as <-.
  apply mlift_Ok in E as [-> ->]. apply mtry_inv in Etry as (res & [= <-] & Etry).
  apply mthen_Ok in Etry as (w2' & b4 & Eb4 & E). apply mlift_Ok in Eb4 as [-> Eb4].
  apply mthen_Ok in E as (w2' & b5 & Eb5 & E). apply mget_Ok in Eb5 as [-> Eb5].
  apply mthen_Ok in E as (w2' & b6 & Eb6 & E). apply revise_Ok in Eb6 as [-> Eb6].
  apply mthen_Ok in E as (w2' & b7 & Eb7 & E). apply mget_Ok in Eb7 as [-> Eb7].
  apply mthen_Ok in E as (w2' & obj & Eobj & E).
  assert (w2' = w2 ∧ (if starts_with key "/registry/secrets/" then fst <$> fold_string_data base64 json_text b7 else Some b7) = Some obj) as [-> Hobj].
  { destruct (starts_with key "/registry/secrets/"); [by apply mget_Ok in Eobj|by injection Eobj as <- <-]. }
  exists (st w1), w2, existing, obj. split_and!; try done. by exists b0, b1, b2, b3, b4, b5, b6, b7.
Qed.

Lemma put_prepared_meta key name namespace status existing body obj :
  put_prepared key name namespace status existing body obj →
  identity obj existing name namespace ∧
  ∀ f, f ∉ ["name"; "namespace"; "uid"; "creationTimestamp"; "generation"] → str_in f OBJECT_META = true → hooks_keep f → unquantified body.["metadata"].[f] = true →
    obj.["metadata"].[f] = body.["metadata"].[f].
Proof.
  intros (b0 & b1 & b2 & b3 & b4 & b5 & b6 & b7 & E0 & _ & E1 & E2 & E3 & E4 & E5 & E6 & E7 & E8).
  destruct (ensure_object_spec _ _ _ E0) as (_ & _ & Hb0). destruct (keep_server_identity _ _ _ _ _ E1) as (_ & _ & H1).
  destruct (keep_server_identity _ _ _ _ _ E5) as (Hid & _ & H5).
  assert (∀ b n, b.["metadata"].["name"] = Str n → is_object b.["metadata"] = true) as Hobj by (intros b n Hb; by destruct b.["metadata"]).
  destruct (keep_server_identity _ _ _ _ _ E1) as ((Hn1 & _) & _). pose proof (proj1 Hid) as Hn5.
  pose proof (λ f, strategy_update_meta _ _ _ _ f E2 (Hobj _ _ Hn1)) as H2. pose proof (λ f, strategy_update_meta _ _ _ _ f E6 (Hobj _ _ Hn5)) as H6.
  assert (is_object b2.["metadata"] = true) as Ho2 by (apply (Hobj _ name); by rewrite H2).
  assert (is_object b6.["metadata"] = true) as Ho6 by (apply (Hobj _ name); by rewrite H6).
  destruct (builtin_shape_meta _ _ _ _ _ E3 Ho2) as [_ H3]. destruct (on_update_fields _ _ _ _ _ E7 Ho6) as [H7 _].
  assert (obj.["metadata"] = b7.["metadata"]) as H8.
  { destruct (starts_with key "/registry/secrets/"); [|by injection E8 as <-].
    destruct (fold_string_data _ _ b7) as [r|] eqn:Er; [|done]. injection E8 as <-.
    exact (fold_string_data_index _ _ "metadata" ltac:(done) ltac:(done) Er). }
  split.
  - apply (identity_ext b5); [|done]. intros f Hf. rewrite H8, H7 by set_solver. apply H6; [|set_solver].
    repeat (apply elem_of_cons in Hf as [->|Hf]; [done|]). by apply not_elem_of_nil in Hf.
  - intros f Hf Hom Hh Hp. assert (b2.["metadata"].[f] = body.["metadata"].[f]) as Hb2 by (rewrite H2, H1, Hb0 by set_solver; done).
    rewrite H8, H7, H6, H5, (Hh _ _ _ _ E4), H3, Hb2 by (rewrite ?Hb2; set_solver). done.
Qed.

(** A PUT that carries a [resourceVersion] replaces that version and no
    other: it succeeds only if the key still had that version when the write
    reached the store, whatever happened since the handler read the object, and
    what it writes keeps the identity of the object the handler read, even if
    the body or a webhook said otherwise. *)
Theorem put_replaces_version key name namespace body status w w' out rv r :
  tame float_text w → starts_with key "/registry/services/" = false → hooks_keep "resourceVersion" →
  body.["metadata"].["resourceVersion"] = Str rv → parse_u64 rv = Some r → is_u64 r → r ≠ 0 →
  put_object float_text base64 debug json_text regex env hooks key name namespace body status w = (w', Some (Ok out)) →
  ∃ sr sw existing obj,
    writes float_text (st w) sr ∧ Storage.get sr key = Some (Ok existing) ∧ writes float_text sr sw ∧
    rev_of (view sw) key = r ∧ left_behind key obj out sw (st w') ∧ identity obj existing name namespace ∧
    (∀ uid, body.["metadata"].["uid"] = Str uid → uid ≠ "" → existing.["metadata"].["uid"] = Str uid).
Proof.
  intros Hw Hk Hh Hrv Hp Hu Hnz E. destruct (put_writes _ _ _ _ _ _ _ _ Hw Hk E) as (sr & w2 & existing & obj & H1 & H2 & Hw2 & H3 & Hpp & E2).
  destruct (put_prepared_meta _ _ _ _ _ _ _ Hpp) as [Hid Hmeta].
  assert (prev_rev obj = Some r) as Hprev.
  { unfold prev_rev. rewrite Hmeta by (rewrite ?Hrv; set_solver). by rewrite Hrv. }
  destruct (persist_spec _ _ _ _ _ _ Hw2 Hprev Hu Hnz E2) as [Hcas Hl]. destruct (meanwhile_tame _ _ Hw2) as [_ H4].
  exists sr, (st (meanwhile w2)), existing, obj. split_and!; try done; [by eapply writes_trans|].
  intros uid Huid Hne. destruct Hpp as (b0 & ? & ? & ? & ? & ? & ? & ? & E0 & Ebe & _). destruct (ensure_object_spec _ _ _ E0) as (_ & _ & Hb0).
  unfold body_error in Ebe. rewrite !Hb0, Huid in Ebe. cbn [as_str] in Ebe.
  destruct (match as_str body.["metadata"].["name"] with Some _ => _ | None => _ end); [done|].
  destruct (match as_str body.["metadata"].["namespace"] with Some _ => _ | None => _ end); [done|].
  destruct (negb (is_empty_str uid)) eqn:En; [|by destruct uid]. cbn [andb] in Ebe.
  destruct (str_is existing.["metadata"].["uid"] uid) eqn:Eu; [|done]. unfold str_is in Eu.
  destruct existing.["metadata"].["uid"]; try done. cbn in Eu. by apply str_eqb_eq in Eu as ->.
Qed.
End ServerTheorems.

(** ** Witnesses *)

Module HandlerDemo.
#[export] Existing Instance Demo.codec.

Definition hooks : Hooks := mkHooks (λ _ obj _, Ok obj) (λ _, Ok tt).
Definition env : Env := mkEnv "10.96.0.0/28" (30000, 30003) (Ok []) 3 (Ok []) (λ _, 0).
Definition base64 (s : string) : string := s.
Definition json_text (v : Value) : string := "".
Definition regex (pattern : string) : option (string → bool) := None.
Definition key : string := namespaced_key "pods" "default" "web".
Definition pod (fins : list string) (phase : string) : Value :=
  json_obj [("kind", Str "Pod");
            ("metadata", json_obj [("finalizers", Array (Str <$> fins)); ("name", Str "web"); ("namespace", Str "default"); ("uid", Str "u1")]);
            ("status", json_obj [("phase", Str phase)])].
Definition store : MemStore.t := Eval vm_compute in (create Demo.floats Demo.store0 key (pod ["guard"] "Pending")).1.
Definition world : World MemStore.t := mkWorld store [λ s, s].

Definition set_phase (phase : string) : Value := json_obj [("status", json_obj [("phase", Str phase)])].
Definition write_status budget (w : World MemStore.t) :=
  put_status Demo.floats base64 base64 json_text env hooks budget key (set_phase "Running") w.
Definition delete_pod (obj : Value) (w : World MemStore.t) :=
  perform_delete Demo.floats base64 base64 json_text env hooks "2026-01-01T00:00:00Z" [] key obj
    (mkDelete None None None None false) "web" (Some "default") "pods" w.

Lemma live : live store.
Proof. split_and!; [|done|done]. apply (mem_wf_put 0 [] key _ false Demo.wf0). done. Qed.

Lemma world_tame : tame Demo.floats world.
Proof. split; [apply live|]. constructor; [|constructor]. intros s Hs. split; [apply writes_refl|done]. Qed.

Lemma keeps f : hooks_keep hooks f.
Proof. by intros n obj old obj' [= <-]. Qed.
End HandlerDemo.
#[local] Existing Instance Demo.codec.

Lemma guaranteed_update_swaps_witness :
  ∃ out fresh, HandlerDemo.write_status [] HandlerDemo.world = (fst (HandlerDemo.write_status [] HandlerDemo.world), Some (Ok out)) ∧
    ∃ obj sw, identity obj fresh (str_or "" fresh.["metadata"].["name"]) (as_str fresh.["metadata"].["namespace"]) ∧
      left_behind Demo.floats HandlerDemo.key obj out sw (st (fst (HandlerDemo.write_status [] HandlerDemo.world))).
Proof.
  eexists. assert (HandlerDemo.write_status [] HandlerDemo.world = (fst (HandlerDemo.write_status [] HandlerDemo.world), Some (Ok _))) as E
    by (vm_compute; reflexivity).
  destruct (guaranteed_update_swaps Demo.floats HandlerDemo.base64 HandlerDemo.base64 HandlerDemo.json_text HandlerDemo.env HandlerDemo.hooks
    [] 0 (Some "status") HandlerDemo.key None _ _ _ _ HandlerDemo.world_tame eq_refl E)
    as (n & sr & sw & fresh & m & obj & _ & _ & _ & _ & _ & _ & Hid & _ & _ & Hl).
  exists fresh. split; [exact E|]. by exists obj, sw.
Defined.


Lemma put_replaces_version_witness :
  ∃ w' out sw, put_object Demo.floats HandlerDemo.base64 HandlerDemo.base64 HandlerDemo.json_text HandlerDemo.regex HandlerDemo.env HandlerDemo.hooks HandlerDemo.key
    "web" (Some "default") (json_obj [("metadata", json_obj [("resourceVersion", Str "1")])]) BuiltIn HandlerDemo.world = (w', Some (Ok out)) ∧
    rev_of (view sw) HandlerDemo.key = 1.
Proof.
  do 2 eexists. assert (put_object Demo.floats HandlerDemo.base64 HandlerDemo.base64 HandlerDemo.json_text HandlerDemo.regex HandlerDemo.env HandlerDemo.hooks HandlerDemo.key
    "web" (Some "default") (json_obj [("metadata", json_obj [("resourceVersion", Str "1")])]) BuiltIn HandlerDemo.world = (_, Some (Ok _))) as E
    by (vm_compute; reflexivity).
  destruct (put_replaces_version Demo.floats HandlerDemo.base64 HandlerDemo.base64 HandlerDemo.json_text HandlerDemo.env HandlerDemo.hooks HandlerDemo.regex
    HandlerDemo.key "web" (Some "default") (json_obj [("metadata", json_obj [("resourceVersion", Str "1")])]) BuiltIn HandlerDemo.world _ _ "1" 1 HandlerDemo.world_tame eq_refl (HandlerDemo.keeps _) eq_refl eq_refl ltac:(unfold is_u64, u64_max; lia) ltac:(lia) E)
    as (sr & sw & existing & obj & _ & _ & _ & Hr & _).
  exists sw. split; [exact E|exact Hr].
Defined.

(** ** Interleavings the code does not exclude *)

Module HandlerRaces.
Import HandlerDemo.

(** A status write retried past a competing one: the second attempt sees the
    other's labels and keeps them. *)
Definition relabel (s : MemStore.t) : MemStore.t :=
  (update Demo.floats s key (json_obj [("kind", Str "Pod");
     ("metadata", json_obj [("labels", json_obj [("app", Str "x")]); ("name", Str "web"); ("namespace", Str "default"); ("uid", Str "u1")])]) None).1.
Example retry_keeps_the_others_write :
  match (write_status [true] (mkWorld store [λ s, s; relabel])).2 with
  | Some (Ok out) => out.["metadata"].["labels"].["app"] = Str "x" ∧ out.["status"].["phase"] = Str "Running"
  | _ => False
  end.
Proof. vm_compute. done. Qed.

(** A delete given an object without finalizers removes the key whatever is
    there by then: a finalizer added after the handler's read does not hold it. *)
Definition add_finalizer (s : MemStore.t) : MemStore.t := (update Demo.floats s key (pod ["guard"] "Pending") None).1.
Definition bare : MemStore.t := (create Demo.floats Demo.store0 key (pod [] "Pending")).1.
Example late_finalizer_is_ignored :
  let w := delete_pod (pod [] "Pending") (mkWorld bare [add_finalizer]) in
  contains_key (view (add_finalizer bare)) key = true ∧ contains_key (view (st w.1)) key = false.
Proof. vm_compute. done. Qed.

(** A namespace being deleted, its content still there ([spec.finalizers] says
    so): any update of it removes it, because only [metadata.finalizers] are
    looked at. *)
Definition ns_key : string := cluster_key "namespaces" "dev".
Definition ns : Value :=
  json_obj [("kind", Str "Namespace");
            ("metadata", json_obj [("deletionTimestamp", Str "2026-01-01T00:00:00Z"); ("name", Str "dev")]);
            ("spec", json_obj [("finalizers", Array [Str "kubernetes"])]);
            ("status", json_obj [("phase", Str "Terminating")])].
Definition ns_store : MemStore.t := (create Demo.floats Demo.store0 ns_key ns).1.
Example update_removes_terminating_namespace :
  let w := put_status Demo.floats base64 base64 json_text env hooks [] ns_key (json_obj [("status", json_obj [("phase", Str "Terminating")])])
             (mkWorld ns_store []) in
  contains_key (view ns_store) ns_key = true ∧ contains_key (view (st w.1)) ns_key = false.
Proof. vm_compute. done. Qed.
End HandlerRaces.
