(* ===== verification/Patch.v ===== *)
(** * Patches ([pkg/apiserver/src/handlers/resource.rs], [apply.rs])

    What a PATCH makes of an object, by its content type: strategic merge with
    client-go's directives and keyed lists, JSON Patch as the server normalizes
    it, merge patches, and the restricted patches of [/status].  The merge and
    the JSON Patch interpreter are the [json_patch] crate's, the YAML decoder
    [serde_yaml]'s: parameters, constrained only where a theorem says so. *)

From Stdlib Require Import ZArith Lia String Ascii.
From stdpp Require Import base gmap strings numbers option list sorting.
From S2P Require Import Prelude Text BTree Json F64 Quantity Store ApiError Codec Storage Effect Selector WatchStream ServiceAlloc Generation Admission Handlers.
Open Scope string_scope.
Open Scope kube_scope.
Open Scope Z_scope.

(** ** Keys of lists *)

Definition strategic_merge_key (field : string) : option string :=
  if (field =? "conditions")%kube then Some "type"
  else if str_in field ["containers"; "initContainers"; "ephemeralContainers"; "volumes"; "volumeMounts"; "imagePullSecrets"; "env"; "envFrom"]
  then Some "name"
  else if (field =? "ports")%kube then Some "containerPort"
  else if (field =? "ownerReferences")%kube then Some "uid"
  else if (field =? "hostAliases")%kube then Some "ip"
  else if (field =? "topologySpreadConstraints")%kube then Some "topologyKey"
  else None.

Definition SERVICE_PORT_KEY : string := "port+protocol".

Definition has_field (k : string) (v : Value) : bool := negb (is_none (Json.get v k)).

Definition ports_key (lists : list (list Value)) : string :=
  if existsb (existsb (has_field "containerPort")) lists then "containerPort" else SERVICE_PORT_KEY.

Definition merge_id (v : Value) (key : string) : option Value :=
  if (key =? SERVICE_PORT_KEY)%kube then
    port ← Json.get v "port";
    Some (Array [port; Str (str_or "TCP" v.["protocol"])])
  else Json.get v key.

Definition strategic_merge_set (field : string) : bool := (field =? "finalizers")%kube.

(** ** Directives *)

Definition is_directive (k : string) : bool := starts_with k "$".
Definition patch_is (v : Value) (d : string) : bool := str_is v.["$patch"] d.

Fixpoint strip_directives (v : Value) : Value :=
  match v with
  | Object m =>
      Object ((fix go (m : Map) : Map :=
                 match m with
                 | [] => []
                 | (k, x) :: m => if is_directive k then go m else (k, strip_directives x) :: go m
                 end) m)
  | Array a =>
      Array ((fix go (a : list Value) : list Value :=
                match a with
                | [] => []
                | x :: a => if is_none (Json.get x "$patch") || match x with Object m => Nat.ltb 1 (length m) | _ => false end
                            then strip_directives x :: go a else go a
                end) a)
  | other => other
  end.

Fixpoint position (p : Value → bool) (l : list Value) : nat :=
  match l with
  | [] => 0%nat
  | x :: l => if p x then 0%nat else (1 + position p l)%nat
  end.

Definition order_id (key : option string) (v : Value) : Value :=
  match key with Some k => default Null (merge_id v k) | None => v end.
Definition order_rank (order : list Value) (key : option string) (v : Value) : nat :=
  position (λ o, value_eqb (order_id key o) (order_id key v)) order.

Definition set_element_order (l order : list Value) (key : option string) : list Value :=
  sort_by_key (λ v, Z.of_nat (order_rank order key v)) l.

(** ** Strategic merge *)

Definition has_id (key : string) (pk : Value) (t : Value) : bool := option_value_eqb (merge_id t key) (Some pk).

(** The first element [p] holds of, replaced by its image. *)
Fixpoint update_first (p : Value → bool) (g : Value → Value) (l : list Value) : option (list Value) :=
  match l with
  | [] => None
  | x :: l => if p x then Some (g x :: l) else l' ← update_first p g l; Some (x :: l')
  end.

(** One item of a list patch; [f] merges an item into the element it names. *)
Definition merge_item (f : Value → Value → Value) (key : string) (pitem : Value) (target : list Value) : list Value :=
  let pkey := merge_id pitem key in
  if patch_is pitem "delete" then
    match pkey with Some pk => List.filter (λ t, negb (has_id key pk t)) target | None => target end
  else
    match pk ← pkey; update_first (has_id key pk) (f pitem) target with
    | Some target => target
    | None => (target ++ [strip_directives pitem])%list
    end.

Definition merge_items (f : Value → Value → Value) (key : string) : list Value → list Value → list Value :=
  fix go (patch target : list Value) :=
    match patch with
    | [] => target
    | pitem :: patch => go patch (merge_item f key pitem target)
    end.

Definition merge_list (f : Value → Value → Value) (key : string) (patch target : list Value) : list Value :=
  if existsb (λ v, patch_is v "replace") patch
  then strip_directives <$> List.filter (λ v, is_none (as_str v.["$patch"])) patch
  else merge_items f key patch target.

(** [for v in patch { if !list.contains(v) { list.push(v) } }]. *)
Definition merge_set (target patch : list Value) : list Value :=
  fold_left (λ l v, if existsb (value_eqb v) l then l else (l ++ [v])%list) patch target.

(** The merge key of [k] in a patch of the value [tv] by [pv]. *)
Definition list_key (k : string) (tv pv : Value) : option string :=
  match (k =? "ports")%kube, tv, pv with
  | true, Array tl, Array pl => Some (ports_key [tl; pl])
  | _, _, _ => strategic_merge_key k
  end.

(** One field of a patch; [f] merges objects. *)
Definition merge_field (f : Value → Value → Value) (k : string) (pv : Value) (t : Map) : Map :=
  if is_directive k then t
  else if is_null pv || patch_is pv "delete" then map_remove t k
  else
    match map_get t k with
    | Some tv =>
        match tv, pv with
        | Array tl, Array pl =>
            match list_key k tv pv with
            | Some mk => map_insert t k (Array (merge_list f mk pl tl))
            | None => map_insert t k (if strategic_merge_set k then Array (merge_set tl pl) else strip_directives pv)
            end
        | Object _, Object _ => map_insert t k (f pv tv)
        | _, _ => map_insert t k (strip_directives pv)
        end
    | None => map_insert t k (strip_directives pv)
    end.

Definition merge_fields (f : Value → Value → Value) : Map → Map → Map :=
  fix go (p t : Map) :=
    match p with
    | [] => t
    | (k, pv) :: p => go p (merge_field f k pv t)
    end.

Definition PRIMITIVE : string := "$deleteFromPrimitiveList/".
Definition ORDER : string := "$setElementOrder/".

(** One directive of the second loop. *)
Definition apply_directive (t : Map) (kv : string * Value) : Map :=
  let '(k, pv) := kv in
  match strip_prefix PRIMITIVE k with
  | Some field =>
      match map_get t field, pv with
      | Some (Array list), Array gone => map_insert t field (Array (List.filter (λ v, negb (existsb (value_eqb v) gone)) list))
      | _, _ => t
      end
  | None =>
      match strip_prefix ORDER k with
      | Some field =>
          match map_get t field, pv with
          | Some (Array list), Array order =>
              let key := if (field =? "ports")%kube then Some (ports_key [list; order]) else strategic_merge_key field in
              map_insert t field (Array (set_element_order list order key))
          | _, _ => t
          end
      | None => t
      end
  end.

Definition retain_keys (p t : Map) : Map :=
  match map_get p "$retainKeys" with
  | Some (Array keep) => List.filter (λ kv, existsb (λ x, str_is x kv.1) keep) t
  | _ => t
  end.

Fixpoint strategic_merge (patch target : Value) {struct patch} : Value :=
  match patch with
  | Object p =>
      if patch_is patch "replace" then strip_directives patch
      else Object (retain_keys p (fold_left apply_directive p (merge_fields strategic_merge p (entries target))))
  | _ => patch
  end.

Definition strategic_merge_list (target patch : list Value) (key : string) : list Value := merge_list strategic_merge key patch target.

Example resizing_condition_removed :
  let c t extra := json_obj (("type", Str t) :: extra) in
  strategic_merge
    (json_obj [("$setElementOrder/conditions", Array [c "Bound" []; c "Ready" []]);
               ("conditions", Array [c "Resizing" [("$patch", Str "delete")]; c "Bound" [("status", Str "True")]])])
    (json_obj [("conditions", Array [c "Ready" []; c "Resizing" []])])
  = json_obj [("conditions", Array [json_obj [("status", Str "True"); ("type", Str "Bound")]; c "Ready" []])].
Proof. vm_compute. reflexivity. Qed.

(** ** JSON Patch *)

(** [Value::pointer]. *)
Fixpoint replace_pair (a b c : ascii) (s : string) : string :=
  match s with
  | String x (String y r as s') => if Ascii.eqb x a && Ascii.eqb y b then String c (replace_pair a b c r) else String x (replace_pair a b c s')
  | _ => s
  end.
Definition unescape_token (t : string) : string := replace_pair "~" "0" "~" (replace_pair "~" "1" "/" t).
Definition parse_index (s : string) : option Z :=
  if starts_with s "+" || (starts_with s "0" && negb (Nat.eqb (String.length s) 1)) then None else parse_u64 s.
Definition pointer_step (v : option Value) (token : string) : option Value :=
  match v with
  | Some (Object m) => map_get m token
  | Some (Array l) => i ← parse_index token; l !! Z.to_nat i
  | _ => None
  end.
Definition pointer (v : Value) (p : string) : option Value :=
  if is_empty_str p then Some v
  else if negb (starts_with p "/") then None
  else fold_left pointer_step (unescape_token <$> tail (split_on "/" p)) (Some v).

Definition op_is (op : Value) (o : string) : bool := str_is op.["op"] o.

(** A test of nothing at a path that is not there. *)
Definition vacuous_test (target op : Value) : bool :=
  op_is op "test"
  && match Json.get op "value" with
     | None | Some Null => true
     | Some (Array a) => match a with [] => true | _ => false end
     | Some (Object o) => match o with [] => true | _ => false end
     | _ => false
     end
  && match as_str op.["path"] with Some p => is_none (pointer target p) | None => false end.

Definition parent_path (path : string) : string :=
  match split_once "/" (str_rev path) with Some (_, r) => str_rev r | None => "" end.

(** [replace] of an absent member is [add]. *)
Definition lenient_replace (target op : Value) : Value :=
  if negb (op_is op "replace") then op
  else
    match as_str op.["path"] with
    | None => op
    | Some path =>
        if negb (is_none (pointer target path)) then op
        else
          let parent := parent_path path in
          if is_empty_str parent || negb (is_none (pointer target parent))
          then match op with Object o => Object (map_insert o "op" (Str "add")) | _ => op end
          else op
    end.

Definition normalize_json_patch (target ops : Value) : Value :=
  match ops with
  | Array arr => Array (lenient_replace target <$> List.filter (λ op, negb (vacuous_test target op)) arr)
  | _ => ops
  end.

(** [content_type.split(';').next().unwrap_or("").trim()]. *)
Definition media_type (content_type : string) : string := trim (default "" (head (split_on ";" content_type))).

Definition JSON_PATCH : string := "application/json-patch+json".
Definition APPLY : string := "application/apply-patch+yaml".
Definition STRATEGIC : string := "application/strategic-merge-patch+json".

Section Bodies.
  Context `{JsonCodec}.
  (** [json_patch::Patch], its decoder and interpreter, and [json_patch::merge]. *)
  Variable Ops : Type.
  Variable decode_ops : Value → result Ops string.
  Variable run_ops : Value → Ops → result Value string.
  Variable merge : Value → Value → Value.
  (** [serde_yaml::from_slice]; [String::from_utf8_lossy]. *)
  Variable yaml : string → result Value string.
  Variable lossy : string → string.

Definition decoded {A} (r : result A string) (what : string) : result A ApiError :=
  match r with Ok x => Ok x | Err e => Err (invalid (what ++ ": " ++ e)) end.

Definition rbind {A B E} (r : result A E) (k : A → result B E) : result B E := match r with Ok x => k x | Err e => Err e end.

Definition json_patch (target : Value) (body : string) (failed : string → string) : result Value ApiError :=
  rbind (decoded (from_slice body) "invalid JSON Patch") (λ ops,
  rbind (decoded (decode_ops (normalize_json_patch target ops)) "invalid JSON Patch") (λ patch,
  match run_ops target patch with Ok v => Ok v | Err e => Err (invalid (failed e)) end)).

Definition apply_patch_body (target : Value) (content_type body : string) : result Value ApiError :=
  let ct := media_type content_type in
  if (ct =? JSON_PATCH)%kube then
    json_patch target body (λ e, "JSON Patch could not be applied: " ++ e ++ " — patch was: " ++ take_chars 400 (lossy body))
  else if (ct =? APPLY)%kube then
    rbind (decoded (yaml body) "invalid apply patch") (λ patch, Ok (merge target patch))
  else if (ct =? STRATEGIC)%kube then
    rbind (decoded (from_slice body) "invalid strategic merge patch") (λ patch, Ok (strategic_merge patch target))
  else rbind (decoded (from_slice body) "invalid merge patch") (λ patch, Ok (merge target patch)).

Definition patch_precondition (content_type body : string) : option string :=
  let ct := media_type content_type in
  if (ct =? JSON_PATCH)%kube then None
  else
    match (if (ct =? APPLY)%kube then yaml body else from_slice body) with
    | Ok doc => precondition_of doc
    | Err _ => None
    end.

(** The status half of a merge; [merged] is what it becomes. *)
Definition patch_status_field (existing patch : Value) (merged : Value → Value → Value) : option Value :=
  existing ← match Json.get patch "status" with
             | Some sp => set_index existing "status" (merged existing.["status"] sp)
             | None => Some existing
             end;
  status_write_metadata existing patch true.

Definition put_back_spec (spec : option Value) (existing : Value) : option Value :=
  match spec with
  | Some s => set_index existing "spec" s
  | None => Some match existing with Object o => Object (map_remove o "spec") | v => v end
  end.

(** [None] is a panic. *)
Definition apply_status_patch (existing : Value) (content_type body : string) : option (result Value ApiError) :=
  let ct := media_type content_type in
  if (ct =? JSON_PATCH)%kube then
    match json_patch existing body (λ e, "JSON Patch could not be applied: " ++ e) with
    | Ok patched => Ok <$> put_back_spec (Json.get existing "spec") patched
    | Err e => Some (Err e)
    end
  else
    match decoded (from_slice body) "invalid patch" with
    | Err e => Some (Err e)
    | Ok patch =>
        Ok <$> patch_status_field existing patch
                 (if (ct =? STRATEGIC)%kube then λ s sp, strategic_merge sp s else merge_json)
    end.
End Bodies.

(** ** Theorems: a status patch *)

Lemma get_map_remove m k k' : k' ≠ k → Json.get (Object (map_remove m k)) k' = Json.get (Object m) k'.
Proof. intros Hne. unfold Json.get. by rewrite map_get_remove_ne. Qed.

Lemma ensure_object_get obj k obj' k' : ensure_object obj k = Some obj' → k' ≠ k → Json.get obj' k' = Json.get obj k'.
Proof.
  unfold ensure_object. destruct (is_object obj.[k]); [by intros [= <-]|]. intros E Hne. by apply (get_set_index _ _ _ _ k' Hne) in E.
Qed.

Lemma status_field_spec merge patch existing f existing' :
  status_field merge patch existing f = Some existing' →
  (∀ k, k ≠ "metadata" → Json.get existing' k = Json.get existing k) ∧
  (∀ g, g ≠ f → existing'.["metadata"].[g] = existing.["metadata"].[g]).
Proof.
  unfold status_field. destruct (Json.get patch.["metadata"] f) as [new|]; [|by intros [= <-]].
  destruct (ensure_object existing "metadata") as [e1|] eqn:E1; cbn [mbind option_bind]; [|done]. intros E2.
  destruct (ensure_object_spec _ _ _ E1) as (_ & _ & Hm). split.
  - intros k Hk. by rewrite (get_set_index2 _ _ _ _ _ k E2 Hk), (ensure_object_get _ _ _ _ E1 Hk).
  - intros g Hg. by rewrite (index2_set_index2_ne _ _ _ _ _ g E2), Hm.
Qed.

Lemma status_write_metadata_spec existing patch merge existing' :
  status_write_metadata existing patch merge = Some existing' →
  (∀ k, k ≠ "metadata" → Json.get existing' k = Json.get existing k) ∧
  (∀ g, g ∉ ["labels"; "annotations"] → existing'.["metadata"].[g] = existing.["metadata"].[g]).
Proof.
  unfold status_write_metadata. destruct (status_field merge patch existing "labels") as [e1|] eqn:E1; cbn [mbind option_bind]; [|done]. intros E2.
  destruct (status_field_spec _ _ _ _ _ E1) as [H1 M1]. destruct (status_field_spec _ _ _ _ _ E2) as [H2 M2].
  split; [intros k Hk; by rewrite H2, H1|]. intros g Hg. rewrite M2, M1 by set_solver. done.
Qed.

Section StatusPatch.
  Context `{JsonCodec}.
  Variable Ops : Type.
  Variable decode_ops : Value → result Ops string.
  Variable run_ops : Value → Ops → result Value string.

(** A patch of [/status] cannot reach the rest of an object.  Whatever the
    patch says and whatever its content type, the [spec] that results is the
    stored one, absent if it was absent; and unless it is a JSON Patch, the
    only fields that can differ are [status], the labels and the annotations. *)
Theorem status_patch_keeps_spec existing content_type body existing' :
  (∀ ops v, run_ops existing ops = Ok v → wf_value v = true) →
  apply_status_patch Ops decode_ops run_ops existing content_type body = Some (Ok existing') →
  Json.get existing' "spec" = Json.get existing "spec" ∧
  (media_type content_type ≠ JSON_PATCH →
     (∀ k, k ∉ ["status"; "metadata"] → Json.get existing' k = Json.get existing k) ∧
     (∀ f, f ∉ ["labels"; "annotations"] → existing'.["metadata"].[f] = existing.["metadata"].[f])).
Proof.
  intros Hrun. unfold apply_status_patch. destruct (media_type content_type =? JSON_PATCH)%kube eqn:Ect.
  - apply str_eqb_eq in Ect. destruct (json_patch _ _ _ existing body _) as [patched|e] eqn:Ej; [|done].
    destruct (put_back_spec (Json.get existing "spec") patched) as [e1|] eqn:Ep; [|done]. intros [= <-]. split; [|done].
    assert (wf_value patched = true) as Hwf.
    { unfold json_patch, rbind in Ej. destruct (decoded (from_slice body) _); [|done]. destruct (decoded (decode_ops _) _) as [ops|]; [|done].
      destruct (run_ops existing ops) as [v|] eqn:Er; [|done]. injection Ej as <-. by eapply Hrun. }
    unfold put_back_spec in Ep. destruct (Json.get existing "spec") as [sp|].
    + unfold set_index in Ep. destruct patched; try done; injection Ep as <-; unfold Json.get; [done|]. by rewrite map_get_insert_eq.
    + injection Ep as <-. destruct patched as [| | | | |m]; try done. cbn in Hwf. apply andb_true_iff in Hwf as [Hm _].
      unfold Json.get. by rewrite map_get_remove_eq.
  - destruct (decoded (from_slice body) "invalid patch") as [patch|]; [|done].
    destruct (patch_status_field existing patch _) as [e1|] eqn:Ep; [|done]. intros [= <-]. unfold patch_status_field in Ep.
    set (merged := if _ : bool then _ else _) in Ep.
    destruct (match Json.get patch "status" with Some sp => _ | None => _ end) as [e0|] eqn:E0; cbn [mbind option_bind] in Ep; [|done].
    destruct (status_write_metadata_spec _ _ _ _ Ep) as [H1 M1].
    assert (∀ k, k ≠ "status" → Json.get e0 k = Json.get existing k) as H0.
    { intros k Hk. destruct (Json.get patch "status"); [|by injection E0 as <-]. by apply (get_set_index _ _ _ _ k Hk) in E0. }
    split; [by rewrite H1, H0|]. intros _. split.
    + intros k Hk. rewrite H1, H0 by set_solver. done.
    + intros f Hf. rewrite M1 by done. unfold index at 2 4. by rewrite H0.
Qed.
End StatusPatch.

(** ** Theorems: directives *)

(** No key of the value, at any depth, is a directive. *)
Fixpoint no_directives (v : Value) : bool :=
  match v with
  | Array l => forallb no_directives l
  | Object m => forallb (λ kv, negb (is_directive kv.1) && no_directives kv.2) m
  | _ => true
  end.

Definition strip_map (m : Map) : Map :=
  omap (λ kv, if is_directive kv.1 then None else Some (kv.1, strip_directives kv.2)) m.

Definition not_just_directive (x : Value) : bool :=
  is_none (Json.get x "$patch") || match x with Object m => Nat.ltb 1 (length m) | _ => false end.

Lemma strip_Object m : strip_directives (Object m) = Object (strip_map m).
Proof. cbn [strip_directives]. f_equal. unfold strip_map. induction m as [|[k x] m IH]; [done|]. cbn. rewrite IH. by destruct (is_directive k). Qed.

Lemma strip_Array l : strip_directives (Array l) = Array (strip_directives <$> List.filter not_just_directive l).
Proof.
  cbn [strip_directives]. f_equal. induction l as [|x l IH]; [done|]. cbn [List.filter]. unfold not_just_directive at 1.
  destruct (is_none _ || _); [|exact IH]. exact (f_equal (cons (strip_directives x)) IH).
Qed.

Lemma strip_no_directives v : no_directives (strip_directives v) = true.
Proof.
  induction v as [| | | |l IH|m IH] using Value_ind'; try done.
  - rewrite strip_Array. cbn [no_directives]. induction IH as [|x l Hx _ IHl]; [done|]. cbn [List.filter].
    destruct (not_just_directive x); [cbn; by rewrite Hx|done].
  - rewrite strip_Object. cbn [no_directives]. unfold strip_map. induction IH as [|[k x] m Hx _ IHm]; [done|]. cbn.
    destruct (is_directive k) eqn:Ek; [done|]. cbn in *. by rewrite Ek, Hx.
Qed.

Lemma forallb_filter {A} (P f : A → bool) (l : list A) : forallb P l = true → forallb P (List.filter f l) = true.
Proof. rewrite !forallb_forall. intros Hl x Hx%filter_In. by apply Hl, Hx. Qed.

Lemma forallb_perm {A} (P : A → bool) l l' : Permutation l l' → forallb P l = true → forallb P l' = true.
Proof. rewrite !forallb_forall. intros Hp Hl x Hx. apply Hl. by eapply Permutation_in; [symmetry|]. Qed.

Lemma no_directives_get m k v : no_directives (Object m) = true → map_get m k = Some v → no_directives v = true.
Proof.
  intros Hm Hg. apply map_get_In in Hg. cbn [no_directives] in Hm. rewrite forallb_forall in Hm. apply Hm in Hg. cbn in Hg. by apply andb_true_iff in Hg as [_ ?].
Qed.

Lemma no_directives_insert m k v : is_directive k = false → no_directives v = true → no_directives (Object m) = true → no_directives (Object (map_insert m k v)) = true.
Proof. intros Hk Hv Hm. cbn [no_directives] in *. apply forallb_insert; [done|cbn [fst snd]; by rewrite Hk, Hv]. Qed.

Lemma no_directives_replace m k v w : map_get m k = Some w → no_directives v = true → no_directives (Object m) = true → no_directives (Object (map_insert m k v)) = true.
Proof.
  intros Hg Hv Hm. apply no_directives_insert; try done. cbn [no_directives] in Hm. rewrite forallb_forall in Hm. apply map_get_In, Hm in Hg.
  cbn in Hg. apply andb_true_iff in Hg as [Hg _]. by apply negb_true_iff in Hg.
Qed.

Lemma apply_directive_clean t kv : no_directives (Object t) = true → no_directives (Object (apply_directive t kv)) = true.
Proof.
  intros Ht. destruct kv as [k pv]. unfold apply_directive. destruct (strip_prefix PRIMITIVE k) as [field|].
  - destruct (map_get t field) as [[| | | |l|]|] eqn:Eg; try done. destruct pv; try done.
    eapply no_directives_replace; [done| |done]. cbn [no_directives]. apply forallb_filter. by apply (no_directives_get _ _ _ Ht Eg).
  - destruct (strip_prefix ORDER k) as [field|]; [|done]. destruct (map_get t field) as [[| | | |l|]|] eqn:Eg; try done. destruct pv; try done.
    eapply no_directives_replace; [done| |done]. cbn [no_directives]. eapply forallb_perm; [symmetry; apply sort_by_key_perm|].
    by apply (no_directives_get _ _ _ Ht Eg).
Qed.

(** The values a patch adds to sets carry no directives. *)
Fixpoint plain_sets (v : Value) : bool :=
  match v with
  | Array l => forallb plain_sets l
  | Object m => forallb (λ kv, plain_sets kv.2 && (negb (strategic_merge_set kv.1) || no_directives kv.2)) m
  | _ => true
  end.

(** What the merge [f] of a patch into a clean value yields. *)
Definition merges_clean (f : Value → Value → Value) (p : Value) : Prop :=
  is_object p = true → plain_sets p = true → ∀ t, no_directives t = true → no_directives (f p t) = true.

Lemma merge_id_object v key pk : merge_id v key = Some pk → is_object v = true.
Proof. unfold merge_id. destruct (key =? SERVICE_PORT_KEY)%kube; by destruct v. Qed.

Lemma update_first_clean p g l l' :
  (∀ x, no_directives x = true → no_directives (g x) = true) → update_first p g l = Some l' →
  forallb no_directives l = true → forallb no_directives l' = true.
Proof.
  intros Hg. revert l'. induction l as [|x l IH]; intros l'; [done|]. cbn. destruct (p x).
  - intros [= <-] [Hx Hl]%andb_true_iff. cbn. by rewrite (Hg _ Hx).
  - destruct (update_first p g l) as [l1|]; [|done]. intros [= <-] [Hx Hl]%andb_true_iff. cbn. by rewrite Hx, (IH l1).
Qed.

Lemma merge_list_clean f key pl tl :
  Forall (merges_clean f) pl → forallb plain_sets pl = true → forallb no_directives tl = true → forallb no_directives (merge_list f key pl tl) = true.
Proof.
  intros Hf Hp Ht. unfold merge_list. destruct (existsb _ pl).
  - clear. induction pl as [|x pl IH]; [done|]. cbn [List.filter]. destruct (is_none _); [|done]. cbn. by rewrite strip_no_directives.
  - revert tl Ht. induction Hf as [|p pl Hx Hf IH]; intros tl Ht; [done|]. cbn in Hp. apply andb_true_iff in Hp as [Hpx Hpl].
    cbn [merge_items]. apply IH; [done|]. unfold merge_item. destruct (patch_is p "delete").
    + destruct (merge_id p key); [by apply forallb_filter|done].
    + destruct (merge_id p key) as [pk|] eqn:Ek; cbn [mbind option_bind].
      * destruct (update_first _ _ tl) as [tl'|] eqn:Eu; [|rewrite forallb_app, Ht; cbn; by rewrite strip_no_directives].
        eapply update_first_clean; [|done|done]. intros x. apply Hx; [by eapply merge_id_object|done].
      * rewrite forallb_app, Ht. cbn. by rewrite strip_no_directives.
Qed.

Lemma merge_set_clean tl pl : forallb no_directives tl = true → forallb no_directives pl = true → forallb no_directives (merge_set tl pl) = true.
Proof.
  unfold merge_set. revert tl. induction pl as [|v pl IH]; intros tl Ht; [done|]. cbn. intros [Hv Hp]%andb_true_iff. apply IH; [|done].
  destruct (existsb _ tl); [done|]. rewrite forallb_app, Ht. cbn. by rewrite Hv.
Qed.

Lemma merge_field_clean f k pv t :
  merges_clean f pv → (∀ l, pv = Array l → Forall (merges_clean f) l) →
  plain_sets pv = true → (negb (strategic_merge_set k) || no_directives pv) = true →
  no_directives (Object t) = true → no_directives (Object (merge_field f k pv t)) = true.
Proof.
  intros Hf Hl Hp Hset Ht. unfold merge_field. destruct (is_directive k) eqn:Ek; [done|].
  destruct (is_null pv || patch_is pv "delete"); [cbn [no_directives] in *; by apply forallb_remove|].
  pose proof (strip_no_directives pv) as Hs.
  destruct (map_get t k) as [tv|] eqn:Eg; [|by apply no_directives_insert]. pose proof (no_directives_get _ _ _ Ht Eg) as Htv.
  destruct tv as [| | | |tl|tm], pv as [| | | |pl|pm]; try (by apply no_directives_insert).
  - destruct (list_key k _ _) as [mk|].
    + apply no_directives_insert; [done| |done]. cbn [no_directives]. by apply merge_list_clean; [apply Hl| |].
    + apply no_directives_insert; [done| |done]. destruct (strategic_merge_set k); [|done]. cbn [no_directives]. by apply merge_set_clean.
  - apply no_directives_insert; [done| |done]. by apply Hf.
Qed.

Lemma merge_fields_clean f p t :
  Forall (λ kv, merges_clean f kv.2 ∧ ∀ l, kv.2 = Array l → Forall (merges_clean f) l) p → plain_sets (Object p) = true →
  no_directives (Object t) = true → no_directives (Object (merge_fields f p t)) = true.
Proof.
  intros Hf. revert t. induction Hf as [|[k pv] p [Hx Hl] _ IH]; intros t Hp Ht; [done|]. cbn in Hp.
  apply andb_true_iff in Hp as [[H1 H2]%andb_true_iff H3]. cbn [merge_fields]. apply IH; [done|]. by apply merge_field_clean.
Qed.

Lemma strategic_merge_clean p : merges_clean strategic_merge p ∧ ∀ l, p = Array l → Forall (merges_clean strategic_merge) l.
Proof.
  induction p as [| | | |l IH|m IH] using Value_ind'; try (by split).
  - split; [done|]. intros l' [= <-]. eapply Forall_impl; [exact IH|]. by intros x [Hx _].
  - split; [|done]. intros _ Hp t Ht. cbn [strategic_merge]. destruct (patch_is (Object m) "replace"); [apply strip_no_directives|].
    assert (no_directives (Object (merge_fields strategic_merge m (entries t))) = true) as Hm.
    { apply merge_fields_clean; [exact IH|done|]. by destruct t. }
    set (t1 := merge_fields _ _ _) in *. clearbody t1.
    assert (no_directives (Object (fold_left apply_directive m t1)) = true) as Hd.
    { clear IH Hp. revert t1 Hm. induction m as [|kv m IHm]; intros t1 Hm; [done|]. cbn [fold_left]. apply IHm. by apply apply_directive_clean. }
    set (t2 := fold_left _ _ _) in *. unfold retain_keys. destruct (map_get m "$retainKeys") as [[]|]; try done. cbn [no_directives] in *. by apply forallb_filter.
Qed.

(** The directives of a strategic merge patch are never stored.  Merged into
    an object without them, a patch leaves no key that starts with a dollar sign
    at any depth, whether the directive was acted on, was of a kind the server
    does not know, or came with an element or an object that was new: only the
    values of a set ([finalizers]) are taken as they are. *)
Theorem directives_not_stored patch target :
  is_object patch = true → plain_sets patch = true → no_directives target = true → no_directives (strategic_merge patch target) = true.
Proof. intros Ho Hp Ht. by apply strategic_merge_clean. Qed.

(** ** Theorems: keyed lists *)

(** [p] names the element [id] of a list keyed by [key], and goes on naming it
    whether it is stored as a new element or merged into the one it names. *)
Definition keyed (key : string) (id p : Value) : Prop :=
  merge_id p key = Some id ∧ no_floats id = true ∧ merge_id (strip_directives p) key = Some id ∧
  ∀ t, merge_id t key = Some id → merge_id (strategic_merge p t) key = Some id.

Lemma has_id_spec key id t : no_floats id = true → has_id key id t = true ↔ merge_id t key = Some id.
Proof.
  intros Hn. unfold has_id. destruct (merge_id t key) as [x|]; [|done]. cbn [option_value_eqb].
  rewrite value_eqb_eq_r by done. split; [by intros ->|by intros [= ->]].
Qed.

Lemma filter_update_first (q p : Value → bool) g l l' :
  update_first p g l = Some l' → (∀ x, p x = true → q x = false ∧ q (g x) = false) → List.filter q l' = List.filter q l.
Proof.
  intros E Hq. revert l' E. induction l as [|x l IH]; intros l'; [done|]. cbn. destruct (p x) eqn:Ep.
  - intros [= <-]. destruct (Hq x Ep) as [Hx Hg]. cbn. by rewrite Hx, Hg.
  - destruct (update_first p g l) as [l1|]; [|done]. intros [= <-]. cbn. by rewrite (IH l1).
Qed.

Lemma update_first_filter p g l :
  (∀ x, p x = true → p (g x) = true) →
  match update_first p g l with
  | Some l' => ∃ x rest, List.filter p l = x :: rest ∧ List.filter p l' = g x :: rest
  | None => List.filter p l = []
  end.
Proof.
  intros Hg. induction l as [|x l IH]; [done|]. cbn. destruct (p x) eqn:Ep.
  - exists x, (List.filter p l). cbn. by rewrite (Hg x Ep).
  - destruct (update_first p g l) as [l'|]; cbn [mbind option_bind]; [|done]. cbn. by rewrite Ep.
Qed.

Lemma filter_filter_not {A} (q p : A → bool) (l : list A) : (∀ x, p x = true → q x = false) → List.filter q (List.filter (λ x, negb (p x)) l) = List.filter q l.
Proof.
  intros Hq. induction l as [|x l IH]; [done|]. cbn. destruct (p x) eqn:Ep; cbn; [by rewrite (Hq x Ep)|]. by destruct (q x); rewrite IH.
Qed.

(** An item touches only the elements it names. *)
Lemma merge_item_frame key id p tl q :
  keyed key id p → (∀ t, merge_id t key = Some id → q t = false) →
  List.filter q (merge_item strategic_merge key p tl) = List.filter q tl.
Proof.
  intros (Hp & Hn & Hs & Hm) Hq. unfold merge_item. rewrite Hp. cbn [mbind option_bind]. destruct (patch_is p "delete").
  - apply filter_filter_not. intros x Hx. apply Hq. by apply has_id_spec in Hx.
  - destruct (update_first _ _ tl) as [tl'|] eqn:Eu.
    + apply (filter_update_first _ _ _ _ _ Eu). intros x Hx. apply has_id_spec in Hx; [|done]. split; apply Hq; auto.
    + rewrite List.filter_app. cbn. by rewrite (Hq _ Hs), app_nil_r.
Qed.

(** And what it makes of those. *)
Lemma merge_item_own key id p tl :
  keyed key id p →
  List.filter (has_id key id) (merge_item strategic_merge key p tl) =
    if patch_is p "delete" then []
    else match List.filter (has_id key id) tl with t :: rest => strategic_merge p t :: rest | [] => [strip_directives p] end.
Proof.
  intros (Hp & Hn & Hs & Hm). unfold merge_item. rewrite Hp. cbn [mbind option_bind]. destruct (patch_is p "delete").
  - induction tl as [|x tl IH]; [done|]. cbn. destruct (has_id key id x) eqn:Ex; cbn; [done|]. by rewrite Ex.
  - assert (∀ x, has_id key id x = true → has_id key id (strategic_merge p x) = true) as Hg.
    { intros x. rewrite !has_id_spec by done. apply Hm. }
    pose proof (update_first_filter (has_id key id) (strategic_merge p) tl Hg) as Hu.
    destruct (update_first _ _ tl) as [tl'|].
    + destruct Hu as (x & rest & -> & ->). done.
    + rewrite List.filter_app, Hu. cbn. apply (has_id_spec key id) in Hs; [|done]. by rewrite Hs.
Qed.

(** A strategic merge of a keyed list (conditions by [type], containers by
    [name], ...) is exact, element by element.  Elements the patch does not name
    are kept as they are and in their order; of the elements an item names, the
    first is merged with it, or all go if the item is a delete; an item that
    names none is stored without its directives.  So a patch that adds one
    condition cannot drop another. *)
Theorem keyed_merge_exact key ids patch target :
  existsb (λ v, patch_is v "replace") patch = false → Forall2 (keyed key) ids patch → NoDup ids →
  let r := strategic_merge_list target patch key in
  (∀ q, (∀ t id, id ∈ ids → merge_id t key = Some id → q t = false) → List.filter q r = List.filter q target) ∧
  (∀ i id p, ids !! i = Some id → patch !! i = Some p →
     List.filter (has_id key id) r =
       if patch_is p "delete" then []
       else match List.filter (has_id key id) target with t :: rest => strategic_merge p t :: rest | [] => [strip_directives p] end).
Proof.
  intros Hr Hk Hnd. cbn zeta. unfold strategic_merge_list, merge_list. rewrite Hr. clear Hr. revert target.
  induction Hk as [|id p ids patch Hp Hk IH]; intros target; [done|]. apply NoDup_cons in Hnd as [Hni Hnd].
  destruct (IH Hnd (merge_item strategic_merge key p target)) as [H1 H2]. cbn [merge_items]. split.
  - intros q Hq. rewrite H1 by (intros t i Hi; apply Hq; by right). apply (merge_item_frame _ id); [done|]. intros t. apply Hq. by left.
  - intros [|i] id' p' Hid Hp'; cbn in Hid, Hp'.
    + injection Hid as <-. injection Hp' as <-. rewrite H1; [by apply merge_item_own|].
      intros t i Hi Ht. destruct Hp as (_ & Hn & _). apply not_true_iff_false. rewrite has_id_spec by done. rewrite Ht. intros [= ->]. done.
    + rewrite (H2 i id' p') by done. rewrite (merge_item_frame key id p); [done|done|].
      intros t Ht. apply not_true_iff_false. assert (keyed key id' p') as (_ & Hn & _) by (by eapply Forall2_lookup_lr).
      rewrite has_id_spec by done. rewrite Ht. intros [= ->]. apply Hni. by eapply list_elem_of_lookup_2.
Qed.

(** ** Which items are keyed *)

Definition scalar (v : Value) : bool := match v with Bool _ | Str _ | Num (PosInt _) | Num (NegInt _) => true | _ => false end.

Lemma strip_scalar v : scalar v = true → strip_directives v = v.
Proof. by destruct v. Qed.

Lemma strip_map_get m k : is_directive k = false → map_get (strip_map m) k = strip_directives <$> map_get m k.
Proof.
  intros Hk. unfold strip_map. induction m as [|[k' x] m IH]; [done|]. cbn. destruct (is_directive k') eqn:Ek'; cbn.
  - rewrite IH. destruct (k =? k')%kube eqn:E; [|done]. apply str_eqb_eq in E as ->. congruence.
  - by destruct (k =? k')%kube.
Qed.

Lemma merge_field_ne f k pv t k' : k' ≠ k → map_get (merge_field f k pv t) k' = map_get t k'.
Proof.
  intros Hne. unfold merge_field. destruct (is_directive k); [done|]. destruct (is_null pv || _); [by apply map_get_remove_ne|].
  destruct (map_get t k) as [[]|], pv; try (by rewrite map_get_insert_ne). case_match; by rewrite map_get_insert_ne.
Qed.

Lemma merge_fields_scalar f p t k v :
  keys_sorted p = true → map_get p k = Some v → scalar v = true → is_directive k = false → map_get (merge_fields f p t) k = Some v.
Proof.
  intros Hs Hg Hv Hk. assert (∀ p t, map_get p k = None → map_get (merge_fields f p t) k = map_get t k) as Hskip.
  { clear. intros p. induction p as [|[k' pv] p IH]; intros t; [done|]. cbn. destruct (k =? k')%kube eqn:E; [done|]. intros Hg.
    rewrite (IH _ Hg). apply merge_field_ne. by apply str_eqb_neq in E. }
  revert t. induction p as [|[k' pv] p IH]; intros t; [done|]. apply keys_sorted_cons in Hs as [Ha Hs]. cbn in Hg. cbn [merge_fields].
  destruct (k =? k')%kube eqn:E; [|by apply IH]. apply str_eqb_eq in E as <-. injection Hg as ->. rewrite Hskip by (by apply map_get_above).
  unfold merge_field. rewrite Hk. assert (is_null v || patch_is v "delete" = false) as -> by (by destruct v as [| |[]| | |]).
  destruct (map_get t k) as [[]|], v; try done; by rewrite strip_scalar, map_get_insert_eq.
Qed.

Lemma apply_directive_scalar t kv k v : map_get t k = Some v → scalar v = true → map_get (apply_directive t kv) k = Some v.
Proof.
  intros Hg Hv. destruct kv as [d pv]. unfold apply_directive.
  assert (∀ field l x, map_get t field = Some (Array l) → map_get (map_insert t field x) k = Some v) as Hins.
  { intros field l x Hf. destruct (decide (k = field)) as [->|Hne]; [|by rewrite map_get_insert_ne]. rewrite Hg in Hf. by injection Hf as ->. }
  destruct (strip_prefix PRIMITIVE d) as [field|].
  - destruct (map_get t field) as [[]|] eqn:Ef; try done. destruct pv; try done. by eapply Hins.
  - destruct (strip_prefix ORDER d) as [field|]; [|done]. destruct (map_get t field) as [[]|] eqn:Ef; try done. destruct pv; try done. by eapply Hins.
Qed.

(** An item that carries its key as a plain value, and whose [$retainKeys], if
    it has any, names the key. *)
Lemma keyed_scalar key m v :
  (key =? SERVICE_PORT_KEY)%kube = false → is_directive key = false → keys_sorted m = true →
  map_get m key = Some v → scalar v = true → patch_is (Object m) "replace" = false →
  (match map_get m "$retainKeys" with Some (Array keep) => existsb (λ x, str_is x key) keep | _ => true end = true) →
  keyed key v (Object m).
Proof.
  intros Hsp Hd Hs Hg Hv Hr Hret. assert (∀ w, merge_id w key = Json.get w key) as Hid by (intros w; unfold merge_id; by rewrite Hsp).
  split_and!.
  - by rewrite Hid.
  - by destruct v as [| |[]| | |].
  - rewrite Hid, strip_Object. unfold Json.get. rewrite strip_map_get by done. rewrite Hg. cbn. by rewrite strip_scalar.
  - intros t _. rewrite Hid. cbn [strategic_merge]. rewrite Hr. unfold Json.get.
    pose proof (merge_fields_scalar strategic_merge m (entries t) key v Hs Hg Hv Hd) as H1.
    set (t1 := merge_fields _ _ _) in *. clearbody t1.
    assert (∀ l t1, map_get t1 key = Some v → map_get (fold_left apply_directive l t1) key = Some v) as H2.
    { clear -Hv. intros l. induction l as [|kv l IH]; intros t1 H1; [done|]. cbn [fold_left]. apply IH. by apply apply_directive_scalar. }
    apply H2 with (l := m) in H1. set (t2 := fold_left _ _ _) in *. clearbody t2. unfold retain_keys.
    destruct (map_get m "$retainKeys") as [[]|]; try done.
    clear -H1 Hret. induction t2 as [|[k' x] t2 IH]; [done|]. cbn in H1 |- *. destruct (key =? k')%kube eqn:E.
    + apply str_eqb_eq in E as <-. rewrite Hret. cbn [map_get]. by rewrite str_eqb_refl.
    + destruct (existsb (λ x0 : Value, str_is x0 k') l); [cbn [map_get]; rewrite E|]; by apply IH.
Qed.

(** ** Witnesses *)

Module PatchDemo.
Definition cond (t s : string) : Value := json_obj [("status", Str s); ("type", Str t)].
Definition conds : list Value := [cond "Ready" "True"; cond "DiskPressure" "False"].
Definition net : Value := json_obj [("reason", Str "Cilium"); ("type", Str "NetworkUnavailable")].
Definition gone : Value := json_obj [("$patch", Str "delete"); ("type", Str "DiskPressure")].
Definition pod : Value := json_obj [("metadata", json_obj [("name", Str "web")]); ("spec", json_obj [("nodeName", Str "n1")])].
Definition run_ops (v : Value) (ops : Value) : result Value string := Err "no such operation".
End PatchDemo.
#[local] Existing Instance Demo.codec.

Lemma keyed_merge_exact_witness :
  List.filter (has_id "type" (Str "NetworkUnavailable")) (strategic_merge_list PatchDemo.conds [PatchDemo.net; PatchDemo.gone] "type") = [PatchDemo.net] ∧
  List.filter (λ t, str_is t.["type"] "Ready") (strategic_merge_list PatchDemo.conds [PatchDemo.net; PatchDemo.gone] "type") = [PatchDemo.cond "Ready" "True"].
Proof.
  destruct (keyed_merge_exact "type" [Str "NetworkUnavailable"; Str "DiskPressure"] [PatchDemo.net; PatchDemo.gone] PatchDemo.conds) as [H1 H2].
  - reflexivity.
  - repeat constructor; apply keyed_scalar; reflexivity.
  - by repeat constructor; set_solver.
  - split; [exact (H2 0%nat _ _ eq_refl eq_refl)|]. rewrite H1; [reflexivity|].
    intros t id Hid Ht. apply not_true_iff_false. rewrite str_is_spec. intros Hr. unfold merge_id in Ht. cbn in Ht.
    unfold index in Hr. rewrite Ht in Hr. cbn in Hr. subst. set_solver.
Defined.

Lemma directives_not_stored_witness : no_directives (strategic_merge (json_obj [("conditions", Array [PatchDemo.net; PatchDemo.gone])]) (json_obj [("conditions", Array PatchDemo.conds)])) = true.
Proof. apply directives_not_stored; reflexivity. Defined.

Lemma status_patch_keeps_spec_witness :
  ∃ e', apply_status_patch Value Ok PatchDemo.run_ops PatchDemo.pod "application/merge-patch+json" (encode (json_obj [("spec", Null); ("status", json_obj [("phase", Str "Running")])])) = Some (Ok e') ∧
    Json.get e' "spec" = Json.get PatchDemo.pod "spec".
Proof.
  eexists. assert (apply_status_patch Value Ok PatchDemo.run_ops PatchDemo.pod "application/merge-patch+json"
    (encode (json_obj [("spec", Null); ("status", json_obj [("phase", Str "Running")])])) = Some (Ok _)) as E by (vm_compute; reflexivity).
  destruct (status_patch_keeps_spec Value Ok PatchDemo.run_ops PatchDemo.pod _ _ _ ltac:(done) E) as [H _].
  split; [exact E|exact H].
Defined.
