(* ===== verification/Apply.v ===== *)
(** * Server-side apply ([pkg/apiserver/src/apply.rs])

    Field ownership: the FieldsV1 tree of an intent, its leaves as JSON
    pointers, conflicts, pruning, and the recorded [managedFields].  The merge
    itself is [json_patch::merge], a parameter: RFC 7386, as the crate
    documents it ([MergePatch]). *)

From Stdlib Require Import ZArith Lia String Ascii.
From stdpp Require Import base gmap strings numbers option list.
From S2P Require Import Prelude Text BTree Json F64 Quantity Store ApiError Codec Storage Effect Selector WatchStream ServiceAlloc Generation Admission Handlers Patch.
Open Scope string_scope.
Open Scope kube_scope.
Open Scope Z_scope.

Record Conflict := mkConflict { c_field : string; c_manager : string }.

Fixpoint fields_v1 (applied : Value) : Value :=
  match applied with
  | Object m =>
      Object ((fix go (m out : Map) : Map :=
                 match m with
                 | [] => out
                 | (k, v) :: m => go m (map_insert out ("f:" ++ k) (fields_v1 v))
                 end) m [])
  | _ => Object []
  end.

(** The leaves below [prefix], appended to what was collected before. *)
Fixpoint leaves (fv1 : Value) (prefix : string) : list string :=
  match fv1 with
  | Object ((_ :: _) as m) =>
      (fix go (m : Map) : list string :=
         match m with
         | [] => []
         | (k, v) :: m => (leaves v (prefix ++ "/" ++ default k (strip_prefix "f:" k)) ++ go m)%list
         end) m
  | _ => [prefix]
  end.

(** [m.remove(last)] at the object the parents lead to. *)
Fixpoint remove_path (obj : Value) (parts : list string) : Value :=
  match parts with
  | [] => obj
  | [last] => match obj with Object m => Object (map_remove m last) | _ => obj end
  | p :: parts =>
      match obj with
      | Object m => match map_get m p with Some v => Object (map_insert m p (remove_path v parts)) | None => obj end
      | _ => obj
      end
  end.

Definition remove_pointer (obj : Value) (p : string) : Value := remove_path obj (split_on "/" (trim_start_char "/" p)).

Fixpoint replace_char (a b : ascii) (s : string) : string :=
  match s with EmptyString => EmptyString | String c s => String (if Ascii.eqb c a then b else c) (replace_char a b s) end.

Definition manager_of (entry : Value) : string := str_or "" entry.["manager"].
Definition leaves_of (entry : Value) : list string := leaves entry.["fieldsV1"] "".

(** Who owns each leaf, and what [manager] owned last time. *)
Definition take_entry (manager : string) (acc : BTreeMap string * list string) (entry : Value) : BTreeMap string * list string :=
  let '(owners, prev_self) := acc in
  if (manager_of entry =? manager)%kube then (owners, leaves_of entry)
  else (fold_left (λ o l, if contains_key o l then o else map_insert o l (manager_of entry)) (leaves_of entry) owners, prev_self).

Definition ownership (existing : Value) (manager : string) : BTreeMap string * list string :=
  fold_left (take_entry manager) (items existing.["metadata"].["managedFields"]) ([], []).

Definition contested (existing applied : Value) (owners : BTreeMap string) (leaf : string) : option Conflict :=
  other ← map_get owners leaf;
  if option_value_eqb (pointer existing leaf) (pointer applied leaf) then None
  else Some (mkConflict (replace_char "/" "." (trim_start_char "/" leaf)) other).

Fixpoint first_conflict (existing applied : Value) (owners : BTreeMap string) (leafs : list string) : option Conflict :=
  match leafs with
  | [] => None
  | leaf :: leafs => match contested existing applied owners leaf with Some c => Some c | None => first_conflict existing applied owners leafs end
  end.

Definition entry_for (manager now api_version : string) (fv1 : Value) : Value :=
  json_obj [("apiVersion", Str api_version); ("fieldsType", Str "FieldsV1"); ("fieldsV1", fv1); ("manager", Str manager);
            ("operation", Str "Apply"); ("time", Str now)].

Section Apply.
  Variable merge : Value → Value → Value.

(** [None] is a panic. *)
Definition server_side_apply (existing applied : Value) (manager now : string) (force : bool) : option (result Value Conflict) :=
  let api_version := str_or "v1" applied.["apiVersion"] in
  let new_fv1 := fields_v1 applied in
  let new_leaves := leaves new_fv1 "" in
  let '(owners, prev_self) := ownership existing manager in
  match (if force then None else first_conflict existing applied owners new_leaves) with
  | Some c => Some (Err c)
  | None =>
      let existing := fold_left (λ e leaf, if str_in leaf new_leaves then e else remove_pointer e leaf) prev_self existing in
      let existing := merge existing applied in
      let mf := (List.filter (λ e, negb (str_is e.["manager"] manager)) (items existing.["metadata"].["managedFields"])
                 ++ [entry_for manager now api_version new_fv1])%list in
      existing ← ensure_object existing "metadata";
      Ok <$> set_index2 existing "metadata" "managedFields" (Array mf)
  end.

(** The message of a conflict, and [apply_params]. *)
Definition apply_conflict (c : Conflict) : ApiError :=
  conflict ("Apply failed with 1 conflict: field " ++ quoted (c_field c) ++ " is managed by " ++ quoted (c_manager c)
            ++ " (set fieldManager force to override)").
End Apply.

Definition apply_param (acc : string * bool) (kv : string * string) : string * bool :=
  let '(manager, force) := acc in
  if (kv.1 =? "fieldManager")%kube then (kv.2, force)
  else if (kv.1 =? "force")%kube then (manager, (kv.2 =? "true")%kube || (kv.2 =? "1")%kube)
  else acc.

Definition apply_params (query : list (string * string)) : string * bool :=
  let '(manager, force) := fold_left apply_param query ("", false) in
  (if is_empty_str manager then "apply" else manager, force).

(** ** RFC 7386 *)

(** [json_patch::merge] by its documented behaviour. *)
Class MergePatch (merge : Value → Value → Value) := {
  merge_value t p : is_object p = false → merge t p = p;
  merge_object t p : is_object (merge t (Object p)) = true;
  merge_get t p k :
    keys_sorted p = true → wf_value t = true →
    Json.get (merge t (Object p)) k =
      match map_get p k with
      | None => Json.get t k
      | Some Null => None
      | Some v => Some (merge (default Null (Json.get t k)) v)
      end;
  merge_wf t p : wf_value t = true → wf_value p = true → wf_value (merge t p) = true }.

(** The RFC's pseudo code, an instance. *)
Fixpoint rfc7386 (target patch : Value) {struct patch} : Value :=
  match patch with
  | Object p =>
      Object ((fix go (p t : Map) : Map :=
                 match p with
                 | [] => t
                 | (k, v) :: p =>
                     go p match v with
                          | Null => map_remove t k
                          | _ => map_insert t k (rfc7386 (default Null (map_get t k)) v)
                          end
                 end) p (entries target))
  | _ => patch
  end.

Definition merge_step (t : Map) (kv : string * Value) : Map :=
  match kv.2 with Null => map_remove t kv.1 | v => map_insert t kv.1 (rfc7386 (default Null (map_get t kv.1)) v) end.

Lemma rfc_Object t p : rfc7386 t (Object p) = Object (fold_left merge_step p (entries t)).
Proof. cbn [rfc7386]. f_equal. generalize (entries t). induction p as [|[k v] p IH]; intros m; [done|]. cbn [fold_left]. rewrite <- IH. by destruct v. Qed.

Lemma merge_step_ne t kv k : k ≠ kv.1 → map_get (merge_step t kv) k = map_get t k.
Proof. destruct kv as [k' v]. unfold merge_step. cbn. intros Hne. destruct v; by rewrite ?map_get_remove_ne, ?map_get_insert_ne. Qed.

Lemma merge_step_sorted t kv : keys_sorted t = true → keys_sorted (merge_step t kv) = true.
Proof. destruct kv as [k' v]. unfold merge_step. cbn. destruct v; eauto using keys_sorted_insert, keys_sorted_remove. Qed.

Lemma merge_steps_skip p t k : map_get p k = None → map_get (fold_left merge_step p t) k = map_get t k.
Proof.
  revert t. induction p as [|[k' v] p IH]; intros t; [done|]. cbn. destruct (k =? k')%kube eqn:E; [done|]. intros Hg.
  rewrite (IH _ Hg). apply merge_step_ne. by apply str_eqb_neq in E.
Qed.

Lemma merge_steps_get p t k :
  keys_sorted p = true → keys_sorted t = true →
  map_get (fold_left merge_step p t) k =
    match map_get p k with
    | None => map_get t k
    | Some Null => None
    | Some v => Some (rfc7386 (default Null (map_get t k)) v)
    end.
Proof.
  revert t. induction p as [|[k' v] p IH]; intros t Hp Ht; [done|]. apply keys_sorted_cons in Hp as [Ha Hp]. cbn [fold_left map_get].
  destruct (k =? k')%kube eqn:E.
  - apply str_eqb_eq in E as <-. rewrite merge_steps_skip by (by apply map_get_above). unfold merge_step. cbn [fst snd].
    destruct v; by rewrite ?map_get_remove_eq, ?map_get_insert_eq.
  - rewrite IH by (try apply merge_step_sorted; done). apply str_eqb_neq in E. by rewrite merge_step_ne.
Qed.

Lemma wf_entries v : wf_value v = true → wf_value (Object (entries v)) = true.
Proof. by destruct v. Qed.

#[export] Instance rfc7386_merge : MergePatch rfc7386.
Proof.
  split.
  - by intros t [].
  - by intros t p.
  - intros t p k Hp Ht. rewrite rfc_Object. unfold Json.get at 1. apply wf_entries in Ht. cbn in Ht. apply andb_true_iff in Ht as [Hs _].
    rewrite merge_steps_get by done. by destruct t.
  - intros t p. revert t. induction p as [| | | | |m IH] using Value_ind'; intros t Ht Hp; try done. rewrite rfc_Object.
    apply wf_entries in Ht. revert Ht. generalize (entries t). cbn in Hp. apply andb_true_iff in Hp as [_ Hp]. revert Hp.
    induction IH as [|[k v] m Hv _ IHm]; intros Hp t0 Ht0; [done|]. cbn in Hp. apply andb_true_iff in Hp as [Hv' Hp]. cbn [fold_left]. apply IHm; [done|].
    unfold merge_step. cbn [fst snd]. assert (wf_value (default Null (map_get t0 k)) = true) as Hd.
    { destruct (map_get t0 k) eqn:Eg; [|done]. by eapply wf_map_get. }
    destruct v; (apply wf_object_remove || apply wf_object_insert); auto.
Qed.

(** ** Theorems: leaves are paths *)

Definition paths_of_map (f : Value → list (list string)) : Map → list (list string) :=
  fix go (m : Map) := match m with [] => [] | (k, x) :: m => ((cons k <$> f x) ++ go m)%list end.

Fixpoint leaf_paths (v : Value) : list (list string) :=
  match v with
  | Object ((_ :: _) as m) => paths_of_map leaf_paths m
  | _ => [[]]
  end.

Definition path_text (p : list string) : string := foldr (λ k s, "/" ++ k ++ s) "" p.

(** The value a path leads to. *)
Definition at_path (v : Value) (p : list string) : option Value := fold_left pointer_step p (Some v).

Lemma elem_of_paths f m p : p ∈ paths_of_map f m ↔ ∃ k x p', p = k :: p' ∧ In (k, x) m ∧ p' ∈ f x.
Proof.
  induction m as [|[k x] m IH]; cbn [paths_of_map].
  - split; [by intros ?%elem_of_nil|by intros (? & ? & ? & _ & [] & _)].
  - rewrite elem_of_app, list_elem_of_fmap, IH. split.
    + intros [(p' & -> & Hp)|(k' & x' & p' & -> & Hin & Hp)]; [by exists k, x, p'; split_and!; [|left|]|by exists k', x', p'; split_and!; [|right|]].
    + intros (k' & x' & p' & -> & [[= <- <-]|Hin] & Hp); [left; by exists p'|right; by exists k', x', p'].
Qed.

Lemma elem_of_leaf_paths m p :
  m ≠ [] → keys_sorted m = true → p ∈ leaf_paths (Object m) ↔ ∃ k x p', p = k :: p' ∧ map_get m k = Some x ∧ p' ∈ leaf_paths x.
Proof.
  intros Hne Hs. destruct m as [|kv m]; [done|]. cbn [leaf_paths]. rewrite elem_of_paths. split; intros (k & x & p' & -> & Hin & Hp); exists k, x, p'; split_and!; try done.
  - by apply map_get_sorted_In.
  - by apply map_get_In.
Qed.

Lemma str_ltb_prefix p a b : str_ltb (p ++ a) (p ++ b) = str_ltb a b.
Proof.
  unfold str_ltb, String.ltb. induction p as [|c p IH]; [done|]. cbn. unfold Ascii.compare. rewrite N.compare_refl. exact IH.
Qed.

Lemma map_insert_last {A} (m : BTreeMap A) k v : Forall (λ kv, str_ltb kv.1 k = true) m → map_insert m k v = (m ++ [(k, v)])%list.
Proof.
  induction 1 as [|[k' v'] m Hk Hm IH]; [done|]. cbn in *. 
  destruct (str_eqb k k') eqn:E2; [apply str_eqb_eq in E2 as ->; by rewrite str_ltb_irrefl in Hk|].
  destruct (str_ltb k k') eqn:E1; [by rewrite (str_ltb_asym _ _ E1) in Hk|]. by rewrite IH.
Qed.

Definition field_entry (kv : string * Value) : string * Value := ("f:" ++ kv.1, fields_v1 kv.2).

Lemma fields_Object m : keys_sorted m = true → fields_v1 (Object m) = Object (field_entry <$> m).
Proof.
  intros Hs. cbn [fields_v1]. f_equal.
  match goal with |- ?f m [] = _ => enough (∀ out, Forall (λ kv, Forall (λ kv', str_ltb kv.1 ("f:" ++ kv'.1) = true) m) out → f m out = (out ++ (field_entry <$> m))%list) as Hgo end.
  { rewrite Hgo; [done|constructor]. }
  induction m as [|[k v] m IH]; intros out Hout; [by rewrite app_nil_r|]. apply keys_sorted_cons in Hs as [Ha Hs].
  rewrite map_insert_last.
  - cbn beta. rewrite (IH Hs).
    + by rewrite <- app_assoc.
    + apply Forall_app. split.
      * eapply Forall_impl; [exact Hout|]. intros kv Hkv. by inversion Hkv.
      * constructor; [|constructor]. eapply Forall_impl; [exact Ha|]. intros kv Hkv. cbn [fst]. by rewrite str_ltb_prefix.
  - eapply Forall_impl; [exact Hout|]. intros kv Hkv. by inversion Hkv.
Qed.

Lemma leaves_paths v prefix : wf_value v = true → leaves (fields_v1 v) prefix = (λ p, prefix ++ path_text p)%string <$> leaf_paths v.
Proof.
  revert prefix. induction v as [| | | | |m IH] using Value_ind'; intros prefix Hwf; try (cbn; by rewrite str_app_nil_r).
  cbn in Hwf. apply andb_true_iff in Hwf as [Hs Hf]. rewrite fields_Object by done. destruct m as [|kv0 m0]; [cbn; by rewrite str_app_nil_r|].
  set (l := kv0 :: m0) in *. assert (leaves (Object (field_entry <$> l)) prefix =
    (fix go (m : Map) : list string := match m with [] => [] | (k, v) :: m => (leaves v (prefix ++ "/" ++ default k (strip_prefix "f:" k)) ++ go m)%list end) (field_entry <$> l)) as -> by done.
  change (leaf_paths (Object l)) with (paths_of_map leaf_paths l). clearbody l. clear Hs.
  induction IH as [|[k x] l Hx _ IHl]; [done|]. cbn in Hf. apply andb_true_iff in Hf as [Hwx Hf]. cbn [paths_of_map].
  rewrite fmap_app, <- (IHl Hf). cbn [fmap list_fmap field_entry fst snd]. f_equal.
  rewrite (Hx _ Hwx), <- list_fmap_compose. apply list_fmap_ext. intros i p _. unfold compose.
  change (strip_prefix "f:" ("f:" ++ k)) with (Some k). cbn [default from_option id path_text foldr]. by rewrite !str_app_assoc.
Qed.

(** A key a pointer can name as it is. *)
Definition plain_key (k : string) : bool := negb (str_contains_char "/" k) && negb (str_contains_char "~" k).

Lemma replace_pair_none a b c s : str_contains_char a s = false → replace_pair a b c s = s.
Proof.
  induction s as [|x s IH]; [done|]. cbn [str_contains_char]. intros [Hx Hs]%orb_false_iff. destruct s as [|y s]; [done|].
  cbn [replace_pair]. rewrite Hx. cbn [andb]. f_equal. exact (IH Hs).
Qed.

Lemma unescape_plain k : plain_key k = true → unescape_token k = k.
Proof.
  intros [_ Hk]%andb_true_iff. apply negb_true_iff in Hk. unfold unescape_token. rewrite (replace_pair_none "~" "1") by done. by apply replace_pair_none.
Qed.

Lemma split_path p : forallb plain_key p = true → tail (split_on "/" (path_text p)) = p.
Proof.
  assert (∀ k p, forallb plain_key (k :: p) = true → split_on "/" (k ++ path_text p) = k :: p) as H.
  { intros k q. revert k. induction q as [|x q IH]; intros k; cbn [forallb]; rewrite ?andb_true_iff.
    - intros [[Hk _]%andb_true_iff _]. apply negb_true_iff in Hk. cbn. rewrite str_app_nil_r. by apply split_on_last.
    - intros [[Hk _]%andb_true_iff Hq]. apply negb_true_iff in Hk.
      change (path_text (x :: q)) with ("/" ++ (x ++ path_text q))%string. rewrite split_on_seg by done. f_equal. apply IH.
      cbn [forallb]. by apply andb_true_iff. }
  destruct p as [|k p]; [done|]. intros Hp. change (path_text (k :: p)) with ("" ++ "/" ++ (k ++ path_text p))%string.
  rewrite split_on_seg by done. cbn [tail]. by apply H.
Qed.

Lemma pointer_path v p : forallb plain_key p = true → pointer v (path_text p) = at_path v p.
Proof.
  intros Hp. destruct p as [|k p]; [done|]. unfold pointer.
  assert (is_empty_str (path_text (k :: p)) = false) as -> by done. assert (starts_with (path_text (k :: p)) "/" = true) as -> by done.
  cbn [negb]. rewrite split_path by done. unfold at_path. f_equal.
  clear -Hp. induction (k :: p) as [|x l IH]; [done|]. cbn in Hp. apply andb_true_iff in Hp as [Hx Hl]. cbn. by rewrite unescape_plain, IH.
Qed.

(** ** Theorems: what a merge leaves at a path *)

(** Another manager's entry of [existing] holds the leaf. *)
Definition foreign (existing : Value) (manager leaf : string) : bool :=
  existsb (λ e, negb (manager_of e =? manager)%kube && str_in leaf (leaves_of e)) (items existing.["metadata"].["managedFields"]).

Lemma claim_leaves who l (owners : BTreeMap string) leaf :
  contains_key (fold_left (λ o l, if contains_key o l then o else map_insert o l who) l owners) leaf = contains_key owners leaf || str_in leaf l.
Proof.
  revert owners. induction l as [|x l IH]; intros owners; [by rewrite orb_false_r|]. cbn [fold_left]. rewrite IH. unfold str_in. cbn [existsb].
  rewrite orb_assoc. f_equal. destruct (contains_key owners x) eqn:Ex.
  - destruct (str_eqb leaf x) eqn:E; [|by rewrite orb_false_r]. apply str_eqb_eq in E as ->. by rewrite Ex.
  - unfold contains_key at 1. destruct (str_eqb leaf x) eqn:E.
    + apply str_eqb_eq in E as ->. rewrite map_get_insert_eq. by rewrite orb_true_r.
    + apply str_eqb_neq in E. rewrite map_get_insert_ne by done. by rewrite orb_false_r.
Qed.

Lemma ownership_foreign existing manager leaf : contains_key (ownership existing manager).1 leaf = foreign existing manager leaf.
Proof.
  unfold ownership, foreign. set (mf := items _). clearbody mf.
  enough (∀ acc, contains_key (fold_left (take_entry manager) mf acc).1 leaf
    = contains_key acc.1 leaf || existsb (λ e, negb (manager_of e =? manager)%kube && str_in leaf (leaves_of e)) mf) as H by (by rewrite H).
  induction mf as [|e mf IH]; intros [owners prev]; [by rewrite orb_false_r|]. cbn [fold_left existsb]. rewrite IH. cbn [take_entry].
  destruct (manager_of e =? manager)%kube; [done|]. cbn [fst negb andb]. by rewrite claim_leaves, <- orb_assoc.
Qed.

Lemma first_conflict_spec existing applied owners l :
  match first_conflict existing applied owners l with
  | Some c => ∃ leaf, leaf ∈ l ∧ contains_key owners leaf = true ∧ option_value_eqb (pointer existing leaf) (pointer applied leaf) = false
  | None => ∀ leaf, leaf ∈ l → contains_key owners leaf = true → option_value_eqb (pointer existing leaf) (pointer applied leaf) = true
  end.
Proof.
  induction l as [|x l IH]; cbn [first_conflict]; [intros leaf Hl; by apply elem_of_nil in Hl|].
  unfold contested at 1. destruct (map_get owners x) as [o|] eqn:Eo; cbn [mbind option_bind].
  - destruct (option_value_eqb _ _) eqn:Ev.
    + destruct (first_conflict existing applied owners l).
      * destruct IH as (leaf & Hin & H). exists leaf. split; [by right|done].
      * intros leaf [->|Hin]%elem_of_cons; [done|by apply IH].
    + exists x. split_and!; [by left|unfold contains_key; by rewrite Eo|done].
  - destruct (first_conflict existing applied owners l).
    + destruct IH as (leaf & Hin & H). exists leaf. split; [by right|done].
    + intros leaf [->|Hin]%elem_of_cons; [unfold contains_key; by rewrite Eo|by apply IH].
Qed.

Lemma remove_path_wf obj parts : wf_value obj = true → wf_value (remove_path obj parts) = true.
Proof.
  revert obj. induction parts as [|p parts IH]; intros obj Hwf; [done|]. cbn [remove_path].
  destruct parts as [|q parts]; [destruct obj; try done; by apply wf_object_remove|].
  destruct obj as [| | | | |m]; try done. destruct (map_get m p) as [v|] eqn:Eg; [|done]. apply wf_object_insert; [done|].
  apply IH. by eapply wf_map_get.
Qed.

Section ApplyTheorems.
  Context (merge : Value → Value → Value) `{!MergePatch merge}.

(** A value a merge puts in place of what was there. *)
Definition atomic (v : Value) : bool := match v with Null => false | Object m => false | _ => true end.

Lemma at_path_None p : fold_left pointer_step p None = None.
Proof. by induction p. Qed.

Lemma at_path_cons m k p : at_path (Object m) (k :: p) = x ← map_get m k; at_path x p.
Proof. unfold at_path. cbn. destruct (map_get m k); [done|]. apply at_path_None. Qed.

Lemma merge_at t v p x :
  wf_value t = true → wf_value v = true → p ∈ leaf_paths v → at_path v p = Some x → atomic x = true → at_path (merge t v) p = Some x.
Proof.
  revert t p. induction v as [| | | | |m IH] using Value_ind'; intros t p Ht Hv Hp Hx Ha;
    try (apply list_elem_of_singleton in Hp as ->; cbn in Hx; injection Hx as <-; by rewrite merge_value).
  destruct m as [|kv0 m0]; [apply list_elem_of_singleton in Hp as ->; cbn in Hx; injection Hx as <-; done|]. set (m := kv0 :: m0) in *.
  cbn in Hv. apply andb_true_iff in Hv as [Hs Hf].
  apply elem_of_leaf_paths in Hp as (k & y & p' & -> & Hg & Hp'); [|done|done].
  rewrite at_path_cons, Hg in Hx. cbn in Hx.
  assert (wf_value y = true) as Hwy by (eapply wf_map_get; [|exact Hg]; cbn; by rewrite Hs).
  pose proof (merge_get t m k Hs Ht) as Hmg. rewrite Hg in Hmg. pose proof (merge_object t m) as Hmo.
  destruct (merge t (Object m)) as [| | | | |mm]; try done. rewrite at_path_cons. unfold Json.get in Hmg at 1.
  assert (wf_value (default Null (Json.get t k)) = true) as Hd.
  { destruct (Json.get t k) eqn:Eg; [|done]. destruct t; try done. by eapply wf_map_get. }
  assert (y ≠ Null) as Hny by (intros ->; apply list_elem_of_singleton in Hp' as ->; cbn in Hx; by injection Hx as <-).
  assert (map_get mm k = Some (merge (default Null (Json.get t k)) y)) as -> by (rewrite Hmg; by destruct y). cbn [mbind option_bind].
  rewrite List.Forall_forall in IH. apply map_get_In in Hg. by apply (IH _ Hg).
Qed.

(** A path to what is recorded about the fields, not to a field. *)
Definition bookkeeping (p : list string) : bool :=
  match p with
  | k :: p => (k =? "metadata")%kube && match p with [] => true | f :: _ => (f =? "managedFields")%kube end
  | [] => true
  end.

Lemma at_path_managed e e' x p :
  is_object e = true → is_object e.["metadata"] = true → set_index2 e "metadata" "managedFields" x = Some e' → bookkeeping p = false →
  at_path e' p = at_path e p.
Proof.
  intros He Hm Hs Hp. destruct e as [| | | | |m]; try done. unfold set_index2 in Hs. destruct (set_index _ "managedFields" x) as [i|] eqn:Ei; [|done].
  cbn in Hs. injection Hs as <-. destruct p as [|k p]; [done|]. rewrite !at_path_cons. cbn [bookkeeping] in Hp.
  destruct (k =? "metadata")%kube eqn:Ek; [|apply str_eqb_neq in Ek; by rewrite map_get_insert_ne].
  apply str_eqb_eq in Ek as ->. rewrite map_get_insert_eq. destruct p as [|f p]; [done|]. cbn [andb] in Hp.
  unfold index, Json.get in Hm, Ei. destruct (map_get m "metadata") as [[| | | | |mm]|] eqn:Eg; try done. cbn in Ei. injection Ei as <-.
  cbn [mbind option_bind]. rewrite !at_path_cons. apply str_eqb_neq in Hp. by rewrite map_get_insert_ne.
Qed.

Lemma merge_inner_object t applied k f p :
  wf_value t = true → wf_value (Object applied) = true → k :: f :: p ∈ leaf_paths (Object applied) → is_object (merge t (Object applied)).[k] = true.
Proof.
  intros Ht Ha Hp. destruct applied as [|kv m]; [by apply list_elem_of_singleton in Hp|].
  cbn in Ha. apply andb_true_iff in Ha as [Hs _]. apply elem_of_leaf_paths in Hp as (k' & y & p' & [= <- <-] & Hg & Hp'); [|done|done].
  destruct y as [| | | | |my]; try (by apply list_elem_of_singleton in Hp').
  unfold index. rewrite merge_get by done. rewrite Hg. apply merge_object.
Qed.

(** What an apply that went through leaves. *)
Lemma apply_result existing applied manager now force out :
  wf_value existing = true → wf_value (Object applied) = true →
  server_side_apply merge existing (Object applied) manager now force = Some (Ok out) →
  (∀ p x, p ∈ leaf_paths (Object applied) → bookkeeping p = false → at_path (Object applied) p = Some x → atomic x = true → at_path out p = Some x) ∧
  List.filter (λ e, str_is e.["manager"] manager) (items out.["metadata"].["managedFields"])
    = [entry_for manager now (str_or "v1" (Object applied).["apiVersion"]) (fields_v1 (Object applied))].
Proof.
  intros Hwf Ha. unfold server_side_apply. destruct (ownership existing manager) as [owners prev].
  destruct (if force then None else _); [done|]. set (new := leaves _ _).
  set (pruned := fold_left _ prev existing). assert (wf_value pruned = true) as Hp.
  { unfold pruned. clear -Hwf. revert existing Hwf. induction prev as [|l prev IH]; intros e He; [done|]. cbn [fold_left]. apply IH.
    destruct (str_in l new); [done|]. by apply remove_path_wf. }
  clearbody pruned. destruct (ensure_object _ "metadata") as [e1|] eqn:E1; cbn [mbind option_bind]; [|done].
  destruct (ensure_object_spec _ _ _ E1) as (Ho1 & _). destruct (set_index2 e1 _ _ _) as [e2|] eqn:E2; [|done]. intros [= <-]. split.
  - intros p x Hpp Hb Hx Hat. rewrite (at_path_managed e1 e2 _ p ltac:(by destruct e1) Ho1 E2 Hb).
    pose proof (merge_at pruned (Object applied) p x Hp Ha Hpp Hx Hat) as Hm.
    unfold ensure_object in E1. destruct (is_object _.[ _ ]) eqn:Emo; [by injection E1 as <-|].
    destruct p as [|k p]; [done|]. destruct (merge pruned (Object applied)) as [| | | | |mm] eqn:Emm; try (by pose proof (merge_object pruned applied) as Hmo; rewrite Emm in Hmo).
    cbn in E1. injection E1 as <-. rewrite at_path_cons in Hm |- *.
    destruct (k =? "metadata")%kube eqn:Ek; [|apply str_eqb_neq in Ek; by rewrite map_get_insert_ne].
    exfalso. apply str_eqb_eq in Ek as ->. destruct p as [|f p]; [done|].
    pose proof (merge_inner_object pruned applied "metadata" f p Hp Ha Hpp) as Hin. rewrite Emm in Hin. congruence.
  - rewrite (index2_set_index2 _ _ _ _ _ E2). cbn [items as_array default from_option id]. rewrite List.filter_app. cbn [List.filter].
    assert (str_is (entry_for manager now (str_or "v1" (Object applied).["apiVersion"]) (fields_v1 (Object applied))).["manager"] manager = true) as ->
      by (apply str_is_spec; done).
    assert (∀ l, List.filter (λ e, str_is e.["manager"] manager) (List.filter (λ e, negb (str_is e.["manager"] manager)) l) = []) as ->; [|done].
    intros l. induction l as [|e l IH]; [done|]. cbn. destruct (str_is e.["manager"] manager) eqn:Ee; cbn; [done|]. by rewrite Ee.
Qed.

(** A leaf of the intent that is another manager's and would change. *)
Definition changes (existing applied : Value) (manager : string) (p : list string) : bool :=
  foreign existing manager (path_text p) && negb (option_value_eqb (at_path existing p) (at_path applied p)).

Lemma conflict_changes existing applied manager :
  wf_value applied = true → forallb (forallb plain_key) (leaf_paths applied) = true →
  match first_conflict existing applied (ownership existing manager).1 (leaves (fields_v1 applied) "") with
  | Some _ => existsb (changes existing applied manager) (leaf_paths applied) = true
  | None => existsb (changes existing applied manager) (leaf_paths applied) = false
  end.
Proof.
  intros Ha Hplain. rewrite leaves_paths by done. rewrite forallb_forall in Hplain.
  pose proof (first_conflict_spec existing applied (ownership existing manager).1 ((λ p, "" ++ path_text p)%string <$> leaf_paths applied)) as H.
  destruct (first_conflict _ _ _ _).
  - destruct H as (leaf & Hin & Hown & Hne). apply list_elem_of_fmap in Hin as (p & -> & Hp). apply existsb_exists. exists p.
    apply list_elem_of_In in Hp. split; [done|]. unfold changes. cbn [append] in *. rewrite ownership_foreign in Hown.
    rewrite !pointer_path in Hne by (by apply Hplain). by rewrite Hown, Hne.
  - apply not_true_iff_false. intros (p & Hp & Hc)%existsb_exists. unfold changes in Hc. apply andb_true_iff in Hc as [Hf Hne].
    specialize (H (path_text p)). rewrite ownership_foreign, !pointer_path in H by (by apply Hplain).
    rewrite H in Hne; [done| |done]. apply list_elem_of_fmap. exists p. split; [done|]. by apply list_elem_of_In.
Qed.

(** C25: Server-side apply keeps to field ownership for keys without a slash or
    a tilde (the code does not escape them in its JSON pointers, so a label with
    a slash is not protected: [slashed_key_not_protected]).  For an intent with
    such keys the apply is refused exactly when, without force, one of its
    leaves is held by another manager and would change; it does not panic.  When
    it goes through, every leaf of the intent that is a scalar or a list, the
    bookkeeping of managed fields apart, is in the object with the intent's
    value, and the manager is on record with one entry, whose FieldsV1 tree is
    the intent's.  Fields outside the intent are not covered: one that the
    manager gives up is removed even if another manager holds it too
    ([shared_field_pruned]). *)
Theorem apply_ownership existing applied manager now force :
  wf_value existing = true → wf_value (Object applied) = true →
  forallb (forallb plain_key) (leaf_paths (Object applied)) = true →
  match server_side_apply merge existing (Object applied) manager now force with
  | None => False
  | Some (Err c) => force = false ∧ existsb (changes existing (Object applied) manager) (leaf_paths (Object applied)) = true
  | Some (Ok out) =>
      (force = false → existsb (changes existing (Object applied) manager) (leaf_paths (Object applied)) = false) ∧
      (∀ p x, p ∈ leaf_paths (Object applied) → bookkeeping p = false → at_path (Object applied) p = Some x → atomic x = true → at_path out p = Some x) ∧
      List.filter (λ e, str_is e.["manager"] manager) (items out.["metadata"].["managedFields"])
        = [entry_for manager now (str_or "v1" (Object applied).["apiVersion"]) (fields_v1 (Object applied))]
  end.
Proof.
  intros Hwf Ha Hplain. pose proof (conflict_changes existing (Object applied) manager Ha Hplain) as Hc.
  pose proof (apply_result existing applied manager now force) as Hr.
  unfold server_side_apply in *. destruct (ownership existing manager) as [owners prev]. cbn [fst] in Hc.
  destruct (if force then None else _) as [c|] eqn:Ec.
  - destruct force; [done|]. by rewrite Ec in Hc.
  - set (merged := merge _ _) in *. assert (is_object merged = true) as Hmo by apply merge_object.
    destruct (ensure_object merged "metadata") as [e1|] eqn:E1; cbn [mbind option_bind] in *.
    2:{ unfold ensure_object in E1. destruct (is_object _.[_]); [done|]. by destruct merged. }
    destruct (ensure_object_spec _ _ _ E1) as (Ho1 & _).
    destruct (set_index2_object e1 "metadata" "managedFields" (Array (List.filter (λ e, negb (str_is e.["manager"] manager)) (items merged.["metadata"].["managedFields"])
      ++ [entry_for manager now (str_or "v1" (Object applied).["apiVersion"]) (fields_v1 (Object applied))])) ltac:(by destruct e1) Ho1) as (e2 & E2 & _).
    rewrite E2 in Hr |- *. cbn. split; [|by apply Hr]. intros ->. by rewrite Ec in Hc.
Qed.
End ApplyTheorems.

(** ** Witnesses *)

Module ApplyDemo.
Definition cm (data : list (string * Value)) : Map := [("data", json_obj data); ("kind", Str "ConfigMap")].
Definition first : Value := match server_side_apply rfc7386 (Object []) (Object (cm [("a", Str "1"); ("b", Str "2")])) "a" "T" false with Some (Ok v) => v | _ => Null end.
Definition labelled (v : string) : Map := [("metadata", json_obj [("labels", json_obj [("app.kubernetes.io/name", Str v)])])].
Definition slashed : Value := match server_side_apply rfc7386 (Object []) (Object (labelled "x")) "a" "T" false with Some (Ok v) => v | _ => Null end.
Definition shared : Value := match server_side_apply rfc7386 first (Object (cm [("b", Str "2")])) "other" "T" false with Some (Ok v) => v | _ => Null end.
End ApplyDemo.
Import ApplyDemo.

Lemma apply_ownership_witness : ∃ c, server_side_apply rfc7386 first (Object (cm [("b", Str "3")])) "other" "T" false = Some (Err c).
Proof.
  pose proof (apply_ownership rfc7386 first (cm [("b", Str "3")]) "other" "T" false ltac:(vm_compute; reflexivity) eq_refl ltac:(vm_compute; reflexivity)) as H.
  destruct (server_side_apply rfc7386 first (Object (cm [("b", Str "3")])) "other" "T" false) as [[out|c]|]; [|by exists c|done].
  destruct H as [H _]. specialize (H eq_refl). vm_compute in H. discriminate.
Defined.

(** A key with a slash, as labels have them, is recorded as a path of its own:
    the pointer leads nowhere, so another manager may change the field unforced. *)
Example slashed_key_not_protected :
  match server_side_apply rfc7386 slashed (Object (labelled "y")) "other" "T" false with
  | Some (Ok out) => slashed.["metadata"].["labels"].["app.kubernetes.io/name"] = Str "x" ∧ out.["metadata"].["labels"].["app.kubernetes.io/name"] = Str "y"
  | _ => False
  end.
Proof. vm_compute. done. Qed.

(** A field two managers hold goes when one of them stops applying it. *)
Example shared_field_pruned :
  match server_side_apply rfc7386 shared (Object (cm [("a", Str "1")])) "a" "T" false with
  | Some (Ok out) => foreign shared "a" "/data/b" = true ∧ Json.get out.["data"] "b" = None
  | _ => False
  end.
Proof. vm_compute. done. Qed.
