(* ===== verification/AdmitCreate.v ===== *)
(** * Built-in admission of creates ([pkg/apiserver/src/builtin_admission.rs])

    [admit_create] and its plugins, in the order the source runs them, over
    the store monad of [Effect].  What the rules read from the store
    (namespace, ServiceAccount, classes, LimitRanges, quotas) is read there;
    random suffixes are arguments.  A warning header is not modelled. *)

From Stdlib Require Import ZArith Lia String Ascii.
From stdpp Require Import base gmap strings numbers option list.
From S2P Require Import Prelude Text BTree Json F64 Schema Quantity Store ApiError Codec Storage Cron Quota LimitRanger Effect Selector WatchStream ServiceAlloc Generation Admission Handlers.
Open Scope string_scope.
Open Scope kube_scope.
Open Scope Z_scope.

(** ** Objects of other kinds *)

(** The object, and whether it changed. *)
Definition namespace_defaults (obj : Value) : option (Value * bool) :=
  let before := (obj.["status"], obj.["spec"].["finalizers"]) in
  let ending := is_string obj.["metadata"].["deletionTimestamp"] in
  obj ← (if ending then Some obj else set_index obj "status" (json_obj [("phase", Str "Active")]));
  obj ← ensure_object obj "spec";
  let finalizers := items obj.["spec"].["finalizers"] in
  let finalizers := if negb ending then ensure_finalizer finalizers "kubernetes" else finalizers in
  obj ← set_index2 obj "spec" "finalizers" (Array finalizers);
  Some (obj, negb (value_eqb obj.["status"] before.1 && value_eqb obj.["spec"].["finalizers"] before.2)).

Definition access_modes (obj : Value) : result unit ApiError :=
  let modes := omap as_str (items obj.["spec"].["accessModes"]) in
  if str_in "ReadWriteOncePod" modes && Nat.ltb 1 (length modes)
  then Err (invalid ("spec.accessModes: ReadWriteOncePod may not be combined with other modes (got [" ++ String.concat ", " modes ++ "])"))
  else Ok tt.

Definition invalid_text (debug : string → string) (e : Invalid) : string :=
  match e with
  | WrongFieldCount n => "a cron schedule has 5 fields (minute hour day-of-month month day-of-week), this has " ++ show_u (Z.of_nat n)
  | EmptyField field value => "the " ++ field ++ " field " ++ debug value ++ " matches nothing"
  | ImpossibleDate => "no date satisfies the day-of-month and month fields together"
  end.

Definition cronjob_schedule `{Chrono} (debug : string → string) (obj : Value) : result unit ApiError :=
  match as_str obj.["spec"].["schedule"] with
  | None => Err (invalid "spec.schedule is required")
  | Some schedule =>
      match Cron.validate schedule with
      | Ok _ => Ok tt
      | Err e => Err (invalid ("spec.schedule " ++ debug schedule ++ " will never fire: " ++ invalid_text debug e))
      end
  end.

(** A ConfigMap or Secret key. *)
Definition valid_data_key (k : string) : bool :=
  negb (is_empty_str k) && Nat.leb (String.length k) 253 && negb (k =? ".")%kube && negb (k =? "..")%kube
  && str_forall (λ c, is_lower_ascii c || is_upper_ascii c || is_ascii_digit c || str_contains_char c "-_.") k.

Definition bad_key (fields : list string) (obj : Value) : option (string * string) :=
  head (fields ≫= λ f, (λ kv, (f, kv.1)) <$> List.filter (λ kv, negb (valid_data_key kv.1)) (entries obj.[f])).

Definition data_keys (debug : string → string) (resource : string) (obj : Value) : result unit ApiError :=
  let fields := if (resource =? "configmaps")%kube then ["data"; "binaryData"] else ["data"; "stringData"] in
  match bad_key fields obj with
  | Some (f, k) =>
      Err (invalid (f ++ "[" ++ debug k ++ "]: Invalid value: " ++ debug k
                    ++ ": a valid config key must consist of alphanumeric characters, '-', '_' or '.'"))
  | None =>
      if (resource =? "configmaps")%kube then
        match List.find (λ kv, contains_key (entries obj.["binaryData"]) kv.1) (entries obj.["data"]) with
        | Some (k, _) => Err (invalid ("data[" ++ debug k ++ "]: duplicate of key present in binaryData"))
        | None => Ok tt
        end
      else Ok tt
  end.

Definition empty_object (v : Value) : bool := match as_object v with Some (_ :: _) => false | _ => true end.

Definition replication_controller_defaults (obj : Value) : option Value :=
  obj ← ensure_object obj "spec";
  let labels := obj.["spec"].["template"].["metadata"].["labels"] in
  obj ← (if empty_object obj.["spec"].["selector"] && negb (empty_object labels) then set_index2 obj "spec" "selector" labels else Some obj);
  obj ← (if empty_object obj.["metadata"].["labels"] && negb (empty_object labels) then set_index2 obj "metadata" "labels" labels else Some obj);
  if is_null obj.["spec"].["replicas"] then set_index2 obj "spec" "replicas" (num_i64 1) else Some obj.

Definition initial_phase (obj : Value) : option Value :=
  obj ← ensure_object obj "status";
  if unset_str obj.["status"].["phase"] then set_index2 obj "status" "phase" (Str "Pending") else Some obj.

(** ** Pods *)

(** [if let Some(spec) = obj.get_mut("spec").and_then(as_object_mut)]. *)
Definition in_spec (f : Map → Map) (obj : Value) : Value :=
  match obj with
  | Object m => match map_get m "spec" with Some (Object spec) => Object (map_insert m "spec" (Object (f spec))) | _ => obj end
  | _ => obj
  end.

Definition service_account_default (obj : Value) : Value :=
  in_spec (λ spec,
    let spec := if unset_str (default Null (map_get spec "serviceAccountName")) then map_insert spec "serviceAccountName" (Str "default") else spec in
    map_insert spec "serviceAccount" (default (Str "default") (map_get spec "serviceAccountName"))) obj.

Definition not_ready_toleration (key : string) : Value :=
  json_obj [("effect", Str "NoExecute"); ("key", Str key); ("operator", Str "Exists"); ("tolerationSeconds", num_i64 300)].

Definition with_toleration (arr : list Value) (key : string) : list Value :=
  if existsb (λ t, str_is t.["key"] key) arr then arr else (arr ++ [not_ready_toleration key])%list.

Definition default_toleration_seconds (obj : Value) : Value :=
  in_spec (λ spec,
    let tols := default (Array []) (map_get spec "tolerations") in
    map_insert spec "tolerations"
      match tols with
      | Array arr => Array (with_toleration (with_toleration arr "node.kubernetes.io/not-ready") "node.kubernetes.io/unreachable")
      | v => v
      end) obj.

(** [name.split(['.', '/'])]. *)
Definition split_sysctl (name : string) : list string := split_on "." name ≫= split_on "/".

Definition sysctl_end (c : ascii) : bool := is_lower_ascii c || is_ascii_digit c.
Definition sysctl_segment (s : string) : bool :=
  match s, str_rev s with
  | String a _, String z _ => sysctl_end a && sysctl_end z && str_forall (λ c, sysctl_end c || str_contains_char c "_-") s
  | _, _ => false
  end.

Fixpoint sysctl_errors (debug : string → string) (i : nat) (seen : list string) (l : list Value) : list string :=
  match l with
  | [] => []
  | s :: l =>
      let name := str_or "" s.["name"] in
      let at_ := "spec.securityContext.sysctls[" ++ show_u (Z.of_nat i) ++ "].name: " in
      if is_empty_str name || Nat.ltb 253 (String.length name) || negb (forallb sysctl_segment (split_sysctl name))
      then (at_ ++ "Invalid value: " ++ debug name ++ ": must be a valid sysctl name") :: sysctl_errors debug (i + 1) seen l
      else if str_in name seen then (at_ ++ "Duplicate value: " ++ debug name) :: sysctl_errors debug (i + 1) seen l
      else sysctl_errors debug (i + 1) (name :: seen) l
  end.

Definition pod_sysctls (debug : string → string) (obj : Value) : result unit ApiError :=
  match as_array obj.["spec"].["securityContext"].["sysctls"] with
  | None => Ok tt
  | Some sysctls => match sysctl_errors debug 0 [] sysctls with [] => Ok tt | errs => Err (invalid (String.concat ", " errs)) end
  end.

(** *** PodSecurity *)

Definition HOST_NAMESPACES : list string := ["hostNetwork"; "hostPID"; "hostIPC"].
Definition security (level what : string) : ApiError := forbidden ("pod security " ++ quoted level ++ ": " ++ what).

Definition drops_all (sc : Value) : bool := existsb (λ x, str_is x "ALL") (items sc.["capabilities"].["drop"]).

Fixpoint container_security (level : string) (l : list Value) : result unit ApiError :=
  match l with
  | [] => Ok tt
  | c :: l =>
      let sc := c.["securityContext"] in
      if is_true sc.["privileged"] then Err (security level "privileged containers are not allowed")
      else if (level =? "restricted")%kube then
        match as_bool sc.["allowPrivilegeEscalation"] with
        | Some false => if drops_all sc then container_security level l else Err (security "restricted" "containers must drop ALL capabilities")
        | _ => Err (security "restricted" "allowPrivilegeEscalation must be false")
        end
      else container_security level l
  end.

Definition pod_security (level : string) (obj : Value) : result unit ApiError :=
  if is_empty_str level || (level =? "privileged")%kube then Ok tt
  else
    let spec := obj.["spec"] in
    match List.find (λ k, is_true spec.[k]) HOST_NAMESPACES with
    | Some k => Err (security level (k ++ " is not allowed"))
    | None =>
        if existsb (λ v, negb (is_null v.["hostPath"])) (items spec.["volumes"]) then Err (security level "hostPath volumes are not allowed")
        else
          let containers := (items spec.["containers"] ++ items spec.["initContainers"])%list in
          match container_security level containers with
          | Err e => Err e
          | Ok _ =>
              if (level =? "restricted")%kube && negb (is_true spec.["securityContext"].["runAsNonRoot"])
                 && existsb (λ c, negb (is_true c.["securityContext"].["runAsNonRoot"])) containers
              then Err (security "restricted" "runAsNonRoot must be true")
              else Ok tt
          end
    end.

(** *** RuntimeClass *)

Definition overhead_amount (json_text : Value → string) (k : string) (v : Value) : Z :=
  let s := match as_str v with Some s => s | None => json_text v end in
  if (k =? "cpu")%kube then parse_cpu_millis s else parse_bytes s.

Definition overhead_equal (json_text : Value → string) (a b : Value) : bool :=
  match as_object a, as_object b with
  | Some a, Some b =>
      Nat.eqb (length a) (length b)
      && forallb (λ kv, match map_get b kv.1 with
                        | Some w => overhead_amount json_text kv.1 kv.2 =? overhead_amount json_text kv.1 w
                        | None => false
                        end) a
  | _, _ => false
  end.

Fixpoint merge_node_selector (pod : Value) (sel : Map) : option (result Value string) :=
  match sel with
  | [] => Some (Ok pod)
  | (k, v) :: sel =>
      match Json.get pod.["spec"].["nodeSelector"] k with
      | Some existing =>
          if value_eqb existing v then pod ← set_index3 pod "spec" "nodeSelector" k v; merge_node_selector pod sel
          else Some (Err ("conflict: runtimeClass.scheduling.nodeSelector[" ++ k ++ "] = " ++ str_or "" v
                          ++ "; pod.spec.nodeSelector[" ++ k ++ "] = " ++ str_or "" existing))
      | None => pod ← set_index3 pod "spec" "nodeSelector" k v; merge_node_selector pod sel
      end
  end.

Definition class_tolerations (pod : Value) (tols : list Value) : option Value :=
  pod ← (if is_array pod.["spec"].["tolerations"] then Some pod else set_index2 pod "spec" "tolerations" (Array []));
  let l := fold_left (λ l t, if existsb (value_eqb t) l then l else (l ++ [t])%list) tols (items pod.["spec"].["tolerations"]) in
  set_index2 pod "spec" "tolerations" (Array l).

(** The class's scheduling constraints. *)
Definition class_scheduling (pod class : Value) : option (result Value string) :=
  r ← match as_object class.["scheduling"].["nodeSelector"] with
      | Some sel =>
          pod ← (if is_object pod.["spec"].["nodeSelector"] then Some pod else set_index2 pod "spec" "nodeSelector" (Object []));
          merge_node_selector pod sel
      | None => Some (Ok pod)
      end;
  match r with
  | Err why => Some (Err why)
  | Ok pod =>
      match as_array class.["scheduling"].["tolerations"] with
      | Some tols => Ok <$> class_tolerations pod tols
      | None => Some (Ok pod)
      end
  end.

Definition apply_runtime_class (json_text : Value → string) (pod : Value) (class : option Value) : option (result Value string) :=
  let fixed := match class with
               | Some c => if is_object c.["overhead"].["podFixed"] then Some c.["overhead"].["podFixed"] else None
               | None => None
               end in
  let has_overhead := match as_object pod.["spec"].["overhead"] with Some (_ :: _) => true | _ => false end in
  r ← match fixed with
      | Some f =>
          if has_overhead && negb (overhead_equal json_text pod.["spec"].["overhead"] f)
          then Some (Err "Pod's Overhead doesn't match RuntimeClass's defined Overhead")
          else Ok <$> set_index2 pod "spec" "overhead" f
      | None => Some (if has_overhead then Err "Pod Overhead set without corresponding RuntimeClass defined Overhead" else Ok pod)
      end;
  match r with
  | Err why => Some (Err why)
  | Ok pod => match class with None => Some (Ok pod) | Some class => class_scheduling pod class end
  end.

(** *** Quality of service *)

Definition quantity_text (display : f64 → string) (v : Value) : option string :=
  match as_str v with Some s => Some s | None => display <$> as_f64 v end.

(** One resource of one container: is it mentioned, and does it keep the Pod
    guaranteed? *)
Definition qos_resource (display : f64 → string) (c : Value) (r : string) : bool * bool :=
  let amount s := if (r =? "cpu")%kube then parse_cpu_millis s else parse_bytes s in
  let rq := quantity_text display c.["resources"].["requests"].[r] in
  let lm := quantity_text display c.["resources"].["limits"].[r] in
  (negb (is_none rq && is_none lm),
   match rq, lm with
   | _, None => false
   | Some q, Some l => amount q =? amount l
   | None, Some _ => true
   end).

Definition qos_of (display : f64 → string) (obj : Value) : string :=
  let containers := all_containers obj in
  let facts := containers ≫= λ c, qos_resource display c <$> ["cpu"; "memory"] in
  let any := existsb fst facts in
  let guaranteed := match containers with [] => false | _ => forallb snd facts end in
  if guaranteed then "Guaranteed" else if any then "Burstable" else "BestEffort".

Definition qos_class (display : f64 → string) (obj : Value) : option Value :=
  let class := qos_of display obj in
  obj ← ensure_object obj "status"; set_index2 obj "status" "qosClass" (Str class).

(** *** The ServiceAccount's token *)

Definition SA_MOUNT_PATH : string := "/var/run/secrets/kubernetes.io/serviceaccount".

Definition token_volume (name : string) : Value :=
  json_obj [("name", Str name);
    ("projected", json_obj [("defaultMode", num_i64 420);
      ("sources", Array [
        json_obj [("serviceAccountToken", json_obj [("expirationSeconds", num_i64 3607); ("path", Str "token")])];
        json_obj [("configMap", json_obj [("items", Array [json_obj [("key", Str "ca.crt"); ("path", Str "ca.crt")]]); ("name", Str "kube-root-ca.crt")])];
        json_obj [("downwardAPI", json_obj [("items", Array [json_obj [
          ("fieldRef", json_obj [("apiVersion", Str "v1"); ("fieldPath", Str "metadata.namespace")]); ("path", Str "namespace")]])])]])])].

Definition mounts_path (c : Value) : bool := existsb (λ m, str_is m.["mountPath"] SA_MOUNT_PATH) (items c.["volumeMounts"]).

Definition mount_token (name : string) (c : Value) : Value :=
  match c with
  | Object m =>
      if mounts_path c then c
      else
        let ms := default (Array []) (map_get m "volumeMounts") in
        let ms := match ms with
                  | Array l => Array (l ++ [json_obj [("mountPath", Str SA_MOUNT_PATH); ("name", Str name); ("readOnly", Bool true)]])%list
                  | v => v
                  end in
        Object (map_insert m "volumeMounts" ms)
  | _ => c
  end.

Definition mount_in (name key : string) (spec : Map) : Map :=
  match map_get spec key with
  | Some (Array cs) => map_insert spec key (Array (mount_token name <$> cs))
  | _ => spec
  end.

(** What is made of the spec once the token is to be mounted. *)
Definition with_token (suffix : string) (spec : Map) : Map :=
  let volumes := default (Array []) (map_get spec "volumes") in
  let spec := map_insert spec "volumes" volumes in
  match volumes with
  | Array vs =>
      if existsb (λ v, match as_str v.["name"] with Some n => starts_with n "kube-api-access-" | None => false end) vs then spec
      else
        let name := "kube-api-access-" ++ suffix in
        let spec := map_insert spec "volumes" (Array (vs ++ [token_volume name])%list) in
        mount_in name "initContainers" (mount_in name "containers" spec)
  | _ => spec
  end.

(** ** The chain *)

Section Chain.
  Context {S : Type} `{KvStore S} `{JsonCodec} `{Chrono}.
  Variables (float_text display fixed6 : f64 → string).
  Variables (base64 debug : string → string) (json_text : Value → string).
  (** Addresses and ports; what others do around the quota's charges; when they
      are stamped; the suffix of the token volume. *)
  Variables (env : Env) (quotas : @Envs S) (stamp : nat → string) (suffix : string).

Definition namespace_lifecycle (ns : string) : M S Value :=
  r <~ mtry (s_get (cluster_key "namespaces" ns));;
  match r with
  | Ok nsobj =>
      if str_is nsobj.["status"].["phase"] "Terminating" then
        let e := forbidden ("unable to create new content in namespace " ++ ns ++ " because it is being terminated") in
        mraise {| status := status e; reason := reason e; message := message e; continue_token := continue_token e;
                  details := Some (json_obj [("causes", Array [json_obj [("field", Str "metadata.namespace");
                               ("message", Str ("namespace " ++ ns ++ " is being terminated")); ("reason", Str "NamespaceTerminating")]])]) |}
      else mret nsobj
  | Err e => if status e =? 404 then mraise (not_found "namespaces" ns) else mraise e
  end.

Definition automounts (namespace : string) (obj : Value) : M S bool :=
  match as_bool obj.["spec"].["automountServiceAccountToken"] with
  | Some b => mret b
  | None =>
      let sa := str_or "default" obj.["spec"].["serviceAccountName"] in
      r <~ mtry (s_get (namespaced_key "serviceaccounts" namespace sa));;
      mret match r with Ok sa => default true (as_bool sa.["automountServiceAccountToken"]) | Err _ => true end
  end.

Definition service_account_token_volume (namespace : string) (obj : Value) : M S Value :=
  automount <~ automounts namespace obj;;
  mret (if automount then in_spec (with_token suffix) obj else obj).

Definition priority_from_class (obj : Value) : M S Value :=
  if negb (is_null obj.["spec"].["priority"]) then mret obj
  else
    match as_str obj.["spec"].["priorityClassName"] with
    | None => mret obj
    | Some class =>
        if is_empty_str class then mret obj
        else
          r <~ mtry (s_get (cluster_key "priorityclasses" class));;
          mret match r with
               | Ok pc => match as_i64 pc.["value"] with
                          | Some val => in_spec (λ spec, map_insert spec "priority" (num_i64 val)) obj
                          | None => obj
                          end
               | Err _ => obj
               end
    end.

Definition rejected (name why : string) : ApiError := forbidden ("pods " ++ quoted name ++ " is forbidden: pod rejected: " ++ why).

Definition runtime_class (pod : Value) : M S Value :=
  let name := str_or "" pod.["metadata"].["name"] in
  class <~ match as_str pod.["spec"].["runtimeClassName"] with
           | Some rc =>
               if is_empty_str rc then mret None
               else
                 r <~ mtry (s_get (cluster_key "runtimeclasses" rc));;
                 match r with
                 | Ok c => mret (Some c)
                 | Err e => if status e =? 404 then mraise (rejected name ("RuntimeClass " ++ quoted rc ++ " not found")) else mraise e
                 end
           | None => mret None
           end;;
  r <~ mget (apply_runtime_class json_text pod class);;
  mlift match r with Ok pod => Ok pod | Err why => Err (rejected name why) end.

Definition limit_ranges (ns : string) : M S (list Value) :=
  r <~ mtry (s_list (namespace_prefix "limitranges" ns) 500 None);;
  mret match r with Ok page => lp_items page | Err _ => [] end.

Definition limit_refused (resource : string) (obj : Value) (errs : list string) : result unit ApiError :=
  match errs with
  | [] => Ok tt
  | _ =>
      let name := match as_str obj.["metadata"].["name"] with Some n => n | None => str_or "" obj.["metadata"].["generateName"] end in
      Err (forbidden (resource ++ " " ++ quoted name ++ " is forbidden: [" ++ String.concat ", " errs ++ "]"))
  end.

(** LimitRanger on a Pod. *)
Definition limit_pod (namespace : option string) (obj : Value) : M S Value :=
  obj <~ mget (requests_from_limits obj);;
  match namespace with
  | None => mret obj
  | Some ns =>
      ranges <~ limit_ranges ns;;
      match ranges with
      | [] => mret obj
      | _ =>
          r <~ mget (default_pod obj ranges);;
          let '(obj, text) := r in
          obj <~ mget match text with Some t => annotate obj t | None => Some obj end;;
          _ <~ mlift (limit_refused "pods" obj (validate_pod float_text json_text fixed6 obj ranges));;
          mret obj
      end
  end.

Definition enforce_level (nsobj : Value) : string := str_or "" nsobj.["metadata"].["labels"].["pod-security.kubernetes.io/enforce"].

Definition admit_pod (namespace : option string) (ns_obj : option Value) (obj : Value) : M S Value :=
  let obj := service_account_default obj in
  obj <~ match namespace with Some ns => service_account_token_volume ns obj | None => mret obj end;;
  let obj := default_toleration_seconds obj in
  obj <~ priority_from_class obj;;
  obj <~ runtime_class obj;;
  _ <~ mlift (pod_sysctls debug obj);;
  obj <~ limit_pod namespace obj;;
  obj <~ mget (qos_class display obj);;
  obj <~ mget (initial_phase obj);;
  _ <~ match ns_obj with Some n => mlift (pod_security (enforce_level n) obj) | None => mret tt end;;
  mret obj.

Definition admit_claim (namespace : option string) (obj : Value) : M S unit :=
  match namespace with
  | None => mret tt
  | Some ns =>
      ranges <~ limit_ranges ns;;
      mlift (limit_refused "persistentvolumeclaims" obj (validate_pvc float_text json_text obj ranges))
  end.

Definition charge_quota (resource ns : string) (obj : Value) : M S unit := λ w,
  let w := meanwhile w in
  let '(s, r) := admit_quota float_text stamp quotas (st w) resource ns obj in (mkWorld s (others w), r).

Definition when (b : bool) (m : Value → M S Value) (obj : Value) : M S Value := if b then m obj else mret obj.
Definition checked (m : Value → result unit ApiError) (obj : Value) : M S Value := _ <~ mlift (m obj);; mret obj.

Definition admit_create (resource : string) (namespace : option string) (obj : Value) : M S Value :=
  let kind k := (resource =? k)%kube in
  let obj := (numbers_to_strings float_text resource obj).1 in
  ns_obj <~ match namespace with
            | Some ns => if kind "namespaces" then mret None else n <~ namespace_lifecycle ns;; mret (Some n)
            | None => mret None
            end;;
  obj <~ when (kind "namespaces") (λ o, mget (fst <$> namespace_defaults o)) obj;;
  obj <~ when (kind "jobs") (checked (job_managed_by debug None)) obj;;
  obj <~ when (kind "replicationcontrollers") (λ o, mget (replication_controller_defaults o)) obj;;
  obj <~ when (kind "services") (λ o, o <~ mget (default_service_ports o);; r <~ plan_service float_text env None o;; mret r.1) obj;;
  obj <~ when (kind "pods") (admit_pod namespace ns_obj) obj;;
  obj <~ when (kind "persistentvolumeclaims") (λ o, _ <~ admit_claim namespace o;; mret o) obj;;
  obj <~ when (kind "cronjobs") (checked (cronjob_schedule debug)) obj;;
  obj <~ when (kind "configmaps" || kind "secrets") (checked (data_keys debug resource)) obj;;
  obj <~ when (kind "secrets") (λ o, mget (fst <$> fold_string_data base64 json_text o)) obj;;
  obj <~ when (kind "persistentvolumeclaims") (checked access_modes) obj;;
  obj <~ when (kind "persistentvolumeclaims" || kind "persistentvolumes") (λ o, mget (initial_phase o)) obj;;
  _ <~ match namespace with Some ns => charge_quota resource ns obj | None => mret tt end;;
  mret obj.
End Chain.

(** ** Theorems: PodSecurity *)

(** What a Pod may be under an enforced level. *)
Definition secure_container (level : string) (pod_non_root : bool) (c : Value) : Prop :=
  let sc := c.["securityContext"] in
  is_true sc.["privileged"] = false ∧
  (level = "restricted" →
     sc.["allowPrivilegeEscalation"] = Bool false ∧ drops_all sc = true ∧ (pod_non_root = true ∨ is_true sc.["runAsNonRoot"] = true)).

Definition secure (level : string) (spec : Value) : Prop :=
  level = "" ∨ level = "privileged" ∨
  (∀ k, k ∈ HOST_NAMESPACES → is_true spec.[k] = false) ∧
  (∀ v, v ∈ items spec.["volumes"] → v.["hostPath"] = Null) ∧
  (∀ c, c ∈ (items spec.["containers"] ++ items spec.["initContainers"])%list →
     secure_container level (is_true spec.["securityContext"].["runAsNonRoot"]) c).

Lemma existsb_false {A} (f : A → bool) l : existsb f l = false ↔ ∀ x, x ∈ l → f x = false.
Proof.
  rewrite <- not_true_iff_false, existsb_exists. split.
  - intros Hn x Hx. apply not_true_iff_false. intros Hf. apply Hn. exists x. split; [by apply list_elem_of_In|done].
  - intros Hf (x & Hx & Ht). apply list_elem_of_In in Hx. by rewrite (Hf x Hx) in Ht.
Qed.

Lemma container_security_spec level l :
  container_security level l = Ok tt ↔
  ∀ c, c ∈ l → is_true c.["securityContext"].["privileged"] = false ∧
    (level = "restricted" → c.["securityContext"].["allowPrivilegeEscalation"] = Bool false ∧ drops_all c.["securityContext"] = true).
Proof.
  induction l as [|c l IH]; [split; [intros _ c Hc; by apply not_elem_of_nil in Hc|done]|].
  cbn [container_security]. setoid_rewrite elem_of_cons.
  destruct (is_true c.["securityContext"].["privileged"]) eqn:Ep; [split; [done|]; intros Hc; destruct (Hc c ltac:(by left)); congruence|].
  destruct (level =? "restricted")%kube eqn:El.
  - apply str_eqb_eq in El. destruct (as_bool c.["securityContext"].["allowPrivilegeEscalation"]) as [[]|] eqn:Ea.
    + split; [done|]. intros Hc. destruct (Hc c ltac:(by left)) as [_ Hr]. destruct (Hr El) as [Hr' _]. by rewrite Hr' in Ea.
    + destruct (drops_all c.["securityContext"]) eqn:Ed.
      * rewrite IH. split; [|intros Hc c' Hc'; apply Hc; by right]. intros Hl c' [->|Hc']; [|by apply Hl]. split; [done|]. intros _. split; [|done].
        destruct c.["securityContext"].["allowPrivilegeEscalation"]; try done. by injection Ea as ->.
      * split; [done|]. intros Hc. destruct (Hc c ltac:(by left)) as [_ Hr]. destruct (Hr El). congruence.
    + split; [done|]. intros Hc. destruct (Hc c ltac:(by left)) as [_ Hr]. destruct (Hr El) as [Hr' _]. by rewrite Hr' in Ea.
  - apply str_eqb_neq in El. rewrite IH. split; [intros Hl c' [->|Hc']; [by split|by apply Hl]|intros Hc c' Hc'; apply Hc; by right].
Qed.

Lemma pod_security_spec level pod : pod_security level pod = Ok tt ↔ secure level pod.["spec"].
Proof.
  unfold pod_security, secure. destruct (is_empty_str level) eqn:Ee.
  { assert (level = "") as -> by (by destruct level). cbn. split; [by left|done]. }
  destruct (level =? "privileged")%kube eqn:Epr; [apply str_eqb_eq in Epr; cbn; split; [auto|done]|].
  apply str_eqb_neq in Epr. assert (level ≠ "") by (by destruct level). cbn [orb].
  destruct (List.find _ HOST_NAMESPACES) as [k|] eqn:Ef.
  { apply find_some in Ef as [Hin Hk]. split; [done|]. intros [?|[?|(Hn & _)]]; [done..|]. apply list_elem_of_In in Hin. by rewrite (Hn k Hin) in Hk. }
  pose proof (find_none _ _ Ef) as Hhost. destruct (existsb _ (items _.["volumes"])) eqn:Ev.
  { apply existsb_exists in Ev as (v & Hin & Hv). split; [done|]. intros [?|[?|(_ & Hn & _)]]; [done..|]. apply list_elem_of_In in Hin. by rewrite (Hn v Hin) in Hv. }
  rewrite existsb_false in Ev. set (cs := (items _ ++ items _)%list). destruct (container_security level cs) as [[]|e] eqn:Ec.
  - rewrite container_security_spec in Ec. set (nr := is_true pod.["spec"].["securityContext"].["runAsNonRoot"]).
    destruct (level =? "restricted")%kube eqn:El; cbn [andb].
    + apply str_eqb_eq in El. destruct (negb nr && existsb _ cs) eqn:En.
      * apply andb_true_iff in En as [Hnr Hx]. apply existsb_exists in Hx as (c & Hin & Hc).
        split; [done|]. intros [?|[?|(_ & _ & Hs)]]; [done..|]. apply list_elem_of_In in Hin. destruct (Hs c Hin) as [_ Hr].
        destruct (Hr El) as (_ & _ & [Hx|Hx]); [by rewrite Hx in Hnr|by rewrite Hx in Hc].
      * split; [|done]. intros _. do 2 right. split_and!.
        -- intros k Hk. apply list_elem_of_In, Hhost in Hk. done.
        -- intros v Hv. specialize (Ev v Hv). cbn in Ev. by destruct v.["hostPath"].
        -- intros c Hc. destruct (Ec c Hc) as [Hp Hr]. split; [done|]. intros _. destruct (Hr El). split_and!; [done..|].
           apply andb_false_iff in En as [Hx|Hx]; [left; by destruct nr|right]. rewrite existsb_false in Hx. specialize (Hx c Hc). cbn in Hx.
           by destruct (is_true c.["securityContext"].["runAsNonRoot"]).
    + apply str_eqb_neq in El. split; [|done]. intros _. do 2 right. split_and!.
      * intros k Hk. apply list_elem_of_In, Hhost in Hk. done.
      * intros v Hv. specialize (Ev v Hv). cbn in Ev. by destruct v.["hostPath"].
      * intros c Hc. destruct (Ec c Hc) as [Hp _]. by split.
  - split; [done|]. intros [?|[?|(_ & _ & Hs)]]; [done..|]. exfalso.
    assert (container_security level cs = Ok tt) as Hok; [|congruence]. apply container_security_spec. intros c Hc. destruct (Hs c Hc) as [Hp Hr].
    split; [done|]. intros El. by destruct (Hr El) as (? & ? & _).
Qed.

(** ** Theorems: what admission leaves alone *)

(** Every top-level field but [ks] is as it was. *)
Definition only (ks : list string) (o o' : Value) : Prop := ∀ k, k ∉ ks → o'.[k] = o.[k].

Lemma only_refl ks o : only ks o o.
Proof. done. Qed.
Lemma only_trans ks o1 o2 o3 : only ks o1 o2 → only ks o2 o3 → only ks o1 o3.
Proof. intros H1 H2 k Hk. by rewrite H2, H1. Qed.
Lemma only_set ks o k x o' : set_index o k x = Some o' → k ∈ ks → only ks o o'.
Proof. intros E Hk k' Hk'. apply (index_set_index_ne _ _ _ _ _) with (2 := E). congruence. Qed.
Lemma only_set2 ks o k k2 x o' : set_index2 o k k2 x = Some o' → k ∈ ks → only ks o o'.
Proof. unfold set_index2. destruct (set_index _ k2 x) as [i|]; [|done]. apply only_set. Qed.
Lemma only_set3 ks o k k2 k3 x o' : set_index3 o k k2 k3 x = Some o' → k ∈ ks → only ks o o'.
Proof. unfold set_index3. destruct (set_index2 _ k2 k3 x) as [i|]; cbn [mbind option_bind]; [|done]. apply only_set. Qed.
Lemma only_ensure ks o k o' : ensure_object o k = Some o' → k ∈ ks → only ks o o'.
Proof. unfold ensure_object. destruct (is_object _); [by intros [= <-]|apply only_set]. Qed.
Lemma only_in_spec ks f o : "spec" ∈ ks → only ks o (in_spec f o).
Proof.
  intros Hs k Hk. unfold in_spec. destruct o as [| | | | |m]; try done. destruct (map_get m "spec") as [[| | | | |spec]|] eqn:E; try done.
  unfold index, Json.get. by rewrite map_get_insert_ne by congruence.
Qed.

Create HintDb only.
#[export] Hint Resolve only_refl only_set only_set2 only_set3 only_ensure only_in_spec : only.

(** Splits a chain of panicking steps. *)
Ltac steps H :=
  repeat match type of H with
  | (x ← ?m; _) = _ => let E := fresh "E" in destruct m eqn:E; cbn [mbind option_bind] in H; [|discriminate H]
  | (if ?b then _ else _) = _ => destruct b
  end.

Lemma only_containers {A} (f : A → Value → option (A * Value)) key acc pod acc' pod' :
  containers_at f key acc pod = Some (acc', pod') → only ["spec"] pod pod'.
Proof.
  unfold containers_at. destruct (Json.get pod "spec" ≫= _) as [[]|]; try by intros [= <- <-].
  destruct (each_container f acc l) as [[a l']|]; cbn [mbind option_bind]; [|done].
  destruct (set_index2 pod "spec" key (Array l')) as [p|] eqn:E; cbn [mbind option_bind]; [|done]. intros [= <- <-]. eapply only_set2; [done|set_solver].
Qed.

Lemma only_for_containers {A} (f : A → Value → option (A * Value)) acc pod acc' pod' :
  for_containers f acc pod = Some (acc', pod') → only ["spec"] pod pod'.
Proof.
  unfold for_containers. destruct (containers_at f "containers" acc pod) as [[a p]|] eqn:E; cbn [mbind option_bind]; [|done].
  intros E2. eapply only_trans; by eapply only_containers.
Qed.

Lemma only_merge_selector sel pod pod' : merge_node_selector pod sel = Some (Ok pod') → only ["spec"] pod pod'.
Proof.
  revert pod. induction sel as [|[k v] sel IH]; intros pod E; [by injection E as <-|]. cbn [merge_node_selector] in E.
  assert (∀ x, (p ← set_index3 pod "spec" "nodeSelector" k x; merge_node_selector p sel) = Some (Ok pod') → only ["spec"] pod pod') as Hset.
  { intros x E1. destruct (set_index3 pod "spec" "nodeSelector" k x) as [p|] eqn:Es; cbn [mbind option_bind] in E1; [|done].
    eapply only_trans; [eapply only_set3; [done|set_solver]|by apply IH]. }
  destruct (Json.get _ k) as [e|]; [|by apply (Hset v)]. destruct (value_eqb e v); [by apply (Hset v)|done].
Qed.

Lemma only_class_scheduling pod class pod' : class_scheduling pod class = Some (Ok pod') → only ["spec"] pod pod'.
Proof.
  unfold class_scheduling. intros E. steps E. destruct r as [p|]; [|done].
  assert (only ["spec"] pod p) as H1.
  { destruct (as_object _) as [sel|]; [|by injection E0 as <-].
    destruct (is_object _); cbn [mbind option_bind] in E0; [by eapply only_merge_selector|]. steps E0.
    eapply only_trans; [eapply only_set2; [done|set_solver]|by eapply only_merge_selector]. }
  destruct (as_array _) as [tols|]; [|by injection E as <-]. eapply only_trans; [done|].
  destruct (class_tolerations p tols) as [q|] eqn:E2; [|done]. injection E as <-. unfold class_tolerations in E2.
  destruct (is_array _); cbn [mbind option_bind] in E2; [eapply only_set2; [done|set_solver]|]. steps E2. eapply only_trans; eapply only_set2; try done; set_solver.
Qed.

Lemma only_runtime_class json_text pod class pod' : apply_runtime_class json_text pod class = Some (Ok pod') → only ["spec"] pod pod'.
Proof.
  unfold apply_runtime_class. intros E. steps E. destruct r as [p|]; [|done].
  assert (only ["spec"] pod p) as H1.
  { destruct (match class with Some _ => _ | None => _ end) as [f|]; [|repeat case_match; by simplify_eq].
    destruct (_ && _); [done|].
    destruct (set_index2 pod "spec" "overhead" f) as [q|] eqn:Es; [|done]. injection E0 as <-. eapply only_set2; [done|set_solver]. }
  destruct class as [c|]; [|by injection E as <-]. eapply only_trans; [done|by eapply only_class_scheduling].
Qed.

Section ChainTheorems.
  Context {S : Type} `{KvStore S} `{JsonCodec} `{Chrono}.
  Variables (float_text display fixed6 : f64 → string).
  Variables (debug : string → string) (json_text : Value → string) (suffix : string).
  Implicit Types w : World S.

Lemma only_annotate pod text pod' :
  annotate pod text = Some pod' → only ["metadata"] pod pod' ∧ ∀ f, f ≠ "annotations" → pod'.["metadata"].[f] = pod.["metadata"].[f].
Proof.
  unfold annotate, ensure_object2. intros E. assert (∃ p, set_index3 p "metadata" "annotations" ANNOTATION (Str text) = Some pod' ∧ only ["metadata"] pod p ∧
    ∀ f, f ≠ "annotations" → p.["metadata"].[f] = pod.["metadata"].[f]) as (p & E2 & K1 & K2).
  { destruct (is_object _); cbn [mbind option_bind] in E; [by exists pod|]. steps E. eexists. split; [done|]. split; [eapply only_set2; [done|set_solver]|].
    intros f Hf. by eapply index2_set_index2_ne. }
  split; [eapply only_trans; [done|eapply only_set3; [done|set_solver]]|]. intros f Hf. rewrite <- (K2 f Hf).
  unfold set_index3 in E2. steps E2. rewrite (index_set_index _ _ _ _ E2).
  unfold set_index2 in E0. destruct (set_index _ ANNOTATION _) as [i|]; [|done]. by apply (index_set_index_ne _ _ _ _ f Hf E0).
Qed.

(** What admission may change of a Pod: [spec], [status] and annotations. *)
Definition pod_kept (o o' : Value) : Prop := ∀ f, f ≠ "annotations" → o'.["metadata"].[f] = o.["metadata"].[f].

Lemma kept_trans o1 o2 o3 : pod_kept o1 o2 → pod_kept o2 o3 → pod_kept o1 o3.
Proof. intros K1 K2 f Hf. by rewrite K2, K1. Qed.
Lemma only_kept ks o o' : only ks o o' → "metadata" ∉ ks → pod_kept o o'.
Proof. intros Ho Hk f _. by rewrite Ho. Qed.

Lemma limit_pod_kept namespace obj w w' obj' :
  limit_pod float_text fixed6 json_text namespace obj w = (w', Some (Ok obj')) → pod_kept obj obj'.
Proof.
  unfold limit_pod. intros E. apply mthen_Ok in E as (w1 & o1 & E1 & E). apply mget_Ok in E1 as [-> E1].
  assert (pod_kept obj o1) as K1.
  { unfold requests_from_limits in E1. destruct (for_containers _ tt obj) as [[[] p]|] eqn:Ef; [|done]. injection E1 as <-.
    eapply only_kept; [by eapply only_for_containers|set_solver]. }
  destruct namespace as [ns|]; [|by injection E as _ <-]. apply mthen_Ok in E as (w2 & ranges & E2 & E). destruct ranges as [|r0 ranges]; [by injection E as _ <-|].
  apply mthen_Ok in E as (w3 & [o2 text] & E3 & E). apply mget_Ok in E3 as [-> E3]. apply mthen_Ok in E as (w4 & o3 & E4 & E). apply mget_Ok in E4 as [-> E4].
  apply mthen_Ok in E as (w5 & [] & _ & E). injection E as _ <-. eapply kept_trans; [done|].
  assert (pod_kept o1 o2) as K2.
  { unfold default_pod in E3. destruct (items_of _ _); [by injection E3 as <- <-|]. destruct (for_containers _ [] o1) as [[set p]|] eqn:Ef; [|done].
    cbn [mbind option_bind] in E3. injection E3 as <- _. eapply only_kept; [by eapply only_for_containers|set_solver]. }
  eapply kept_trans; [done|]. destruct text as [t|]; [by apply only_annotate in E4 as [_ ?]|by injection E4 as <-].
Qed.

Lemma admit_pod_Ok namespace ns_obj obj w w' obj' :
  admit_pod float_text display fixed6 debug json_text suffix namespace ns_obj obj w = (w', Some (Ok obj')) →
  pod_kept obj obj' ∧ ∀ n, ns_obj = Some n → secure (enforce_level n) obj'.["spec"].
Proof.
  assert (∀ f o, pod_kept o (in_spec f o)) as Hin by (intros f o; apply (only_kept ["spec"]); [apply only_in_spec; by left|set_solver]).
  unfold admit_pod. intros E. apply mthen_Ok in E as (w1 & o1 & E1 & E).
  assert (pod_kept obj o1) as K1.
  { destruct namespace as [ns|]; [|injection E1 as _ <-; apply Hin]. unfold service_account_token_volume in E1.
    apply mthen_Ok in E1 as (w2 & b & _ & E1). injection E1 as _ <-. destruct b; [eapply kept_trans; apply Hin|apply Hin]. }
  apply mthen_Ok in E as (w2 & o2 & E2 & E). assert (pod_kept o1 o2) as K2.
  { apply (kept_trans _ (default_toleration_seconds o1)); [apply Hin|]. unfold priority_from_class in E2.
    destruct (negb (is_null (default_toleration_seconds o1).["spec"].["priority"])); [by injection E2 as _ <-|].
    destruct (as_str _); [|by injection E2 as _ <-]. destruct (is_empty_str _); [by injection E2 as _ <-|].
    apply mthen_Ok in E2 as (w2' & r & _ & E2). injection E2 as _ <-. destruct r as [pc|]; [|done]. destruct (as_i64 _); [apply Hin|done]. }
  apply mthen_Ok in E as (w3 & o3 & E3 & E). assert (pod_kept o2 o3) as K3.
  { unfold runtime_class in E3. apply mthen_Ok in E3 as (w3' & c & _ & E3). apply mthen_Ok in E3 as (w3'' & r & Er & E3).
    apply mget_Ok in Er as [-> Er]. destruct r as [p|]; [|done]. injection E3 as _ <-. eapply only_kept; [by eapply only_runtime_class|set_solver]. }
  apply mthen_Ok in E as (w4 & [] & _ & E). apply mthen_Ok in E as (w5 & o5 & E5 & E). apply limit_pod_kept in E5.
  apply mthen_Ok in E as (w6 & o6 & E6 & E). apply mget_Ok in E6 as [-> E6]. apply mthen_Ok in E as (w7 & o7 & E7 & E). apply mget_Ok in E7 as [-> E7].
  assert (pod_kept o5 o6) as K6.
  { unfold qos_class in E6. steps E6. eapply (only_kept ["status"]); [|set_solver]. eapply only_trans; [eapply only_ensure|eapply only_set2]; try done; set_solver. }
  assert (pod_kept o6 o7) as K7.
  { unfold initial_phase in E7. destruct (ensure_object o6 "status") as [o|] eqn:Eo; cbn [mbind option_bind] in E7; [|done].
    eapply (only_kept ["status"]); [|set_solver]. eapply only_trans; [eapply only_ensure; [done|set_solver]|].
    destruct (unset_str _); [eapply only_set2; [done|set_solver]|by injection E7 as <-]. }
  apply mthen_Ok in E as (w8 & [] & E8 & E). injection E as _ <-. split; [eauto 10 using kept_trans|]. intros n ->.
  apply mlift_Ok in E8 as [_ E8]. by apply pod_security_spec.
Qed.
End ChainTheorems.
