(* ===== verification/Create.v ===== *)
(** * Creates and patches ([pkg/apiserver/src/handlers/resource.rs])

    The POST handlers, and PATCH with server-side apply's upsert, composed of
    built-in admission ([AdmitCreate]), the patch kinds ([Patch], [Apply]) and
    the guaranteed update of [Handlers].  What the server draws at random or
    reads from the clock ([Uuid::new_v4], [Utc::now]) and what the admission
    webhooks answer are arguments, one per use. *)

From Stdlib Require Import ZArith Lia String Ascii.
From stdpp Require Import base gmap strings numbers option list.
From S2P Require Import Prelude Text BTree Json F64 Schema Quantity Store ApiError Codec Storage Cron Quota LimitRanger Effect Selector WatchStream ServiceAlloc Generation Admission Handlers Patch Apply AdmitCreate.
Open Scope string_scope.
Open Scope kube_scope.
Open Scope Z_scope.

(** ** Identity *)

Definition ALPHABET : string := "bcdfghjklmnpqrstvwxz2456789".

(** Five letters of a UUID's bytes. *)
Definition name_suffix (uuid : list Z) : string :=
  string_of_list_ascii ((λ b, default "b"%char (String.get (Z.to_nat (b `mod` 27)) ALPHABET)) <$> take 5 uuid).

Definition object_name (uuid : list Z) (body : Value) : option (result (Value * string) ApiError) :=
  let name := str_or "" body.["metadata"].["name"] in
  if negb (is_empty_str name) then Some (Ok (body, name))
  else
    let prefix := str_or "" body.["metadata"].["generateName"] in
    if is_empty_str prefix then Some (Err (invalid "metadata.name or metadata.generateName is required"))
    else
      let name := prefix ++ name_suffix uuid in
      body ← ensure_object body "metadata";
      body ← set_index2 body "metadata" "name" (Str name);
      Some (Ok (body, name)).

(** A field the server sets when the client left it absent, empty or null. *)
Definition fill_unset (meta : Map) (k v : string) : Map :=
  if unset_str (default Null (map_get meta k)) then map_insert meta k (Str v) else meta.

Definition ensure_metadata (drawn : string * string) (name : string) (namespace : option string) (obj : Value) : Value :=
  match obj with
  | Object root =>
      let meta := match map_get root "metadata" with Some (Object m) => m | _ => [] end in
      let meta := if contains_key meta "name" then meta else map_insert meta "name" (Str name) in
      let meta := match namespace with Some ns => fill_unset meta "namespace" ns | None => meta end in
      let meta := fill_unset meta "uid" drawn.1 in
      let meta := fill_unset meta "creationTimestamp" drawn.2 in
      Object (map_insert root "metadata" (Object meta))
  | v => v
  end.

Definition check_body_namespace (body : Value) (namespace : string) : result unit ApiError :=
  let ns := str_or "" body.["metadata"].["namespace"] in
  if negb (is_empty_str ns) && negb (ns =? namespace)%kube
  then Err (bad_request ("the namespace of the provided object does not match the namespace sent on the request (" ++ ns ++ " != " ++ namespace ++ ")"))
  else Ok tt.

Section Handlers.
  Context {S : Type} `{KvStore S} `{JsonCodec} `{Chrono}.
  Variables (float_text display fixed6 : f64 → string).
  Variables (base64 debug : string → string) (json_text : Value → string) (regex : string → option (string → bool)).
  (** [json_patch]'s operations and merge, [serde_yaml], [from_utf8_lossy]. *)
  Variables (Ops : Type) (decode_ops : Value → result Ops string) (run_ops : Value → Ops → result Value string).
  Variables (merge : Value → Value → Value) (yaml : string → result Value string) (lossy : string → string).
  (** What others do around the quota's charges, and when they are stamped; the
      token volume's suffix; uid and time of each [ensure_metadata]; the
      webhooks' answer to each create. *)
  Variables (env : Env) (quotas : @Envs S) (stamp : nat → string) (suffix : string).
  Variables (drawn : nat → string * string) (h_create : nat → Value → result Value ApiError).
  Variables (hooks : nat → Hooks) (now : string).

Notation admission := (admit_create float_text display fixed6 base64 debug json_text env quotas stamp suffix).

(** Webhooks, identity again, and the write: the end of every create. *)
Definition store_new (n : nat) (status : Strategy) (resource name : string) (namespace : option string) (key : string) (body : Value) : M S Value :=
  body <~ mlift (h_create n body);;
  let body := ensure_metadata (drawn (2 * n + 1)) name namespace body in
  let body := match status with BuiltIn => on_create resource body | Custom _ _ _ => body end in
  body <~ mlift (strategy_on_create debug json_text regex status body);;
  s_create float_text key body.

(** A Service's claims are given back when the create does not happen. *)
Definition store_or_release (resource : string) (body : Value) (m : M S Value) : M S (result Value ApiError) :=
  created <~ mtry m;;
  _ <~ match created with Err _ => if (resource =? "services")%kube then release_all body else mret tt | Ok _ => mret tt end;;
  mret created.

Definition create_cluster_resource (uuid : list Z) (resource : string) (body : Value) : M S Value :=
  r <~ mget (object_name uuid body);;
  bn <~ mlift r;;
  let '(body, name) := bn in
  let body := ensure_metadata (drawn 0) name None body in
  body <~ admission resource None body;;
  store_new 0 BuiltIn resource name None (cluster_key resource name) body.

Definition create_namespaced_resource (uuid : list Z) (namespace resource : string) (body : Value) : M S Value :=
  r <~ mget (object_name uuid body);;
  bn <~ mlift r;;
  let '(body, name) := bn in
  _ <~ mlift (check_body_namespace body namespace);;
  let body := ensure_metadata (drawn 0) name (Some namespace) body in
  body <~ admission resource (Some namespace) body;;
  created <~ store_or_release resource body
               (store_new 0 BuiltIn resource name (Some namespace) (namespaced_key resource namespace name) body);;
  mlift created.

(** ** PATCH *)

Definition guaranteed_patch (n : nat) (budget : list bool) (subresource : option string) (key content_type body : string)
    (mutate : Value → option (result Value ApiError)) : M S Value :=
  guaranteed_update float_text base64 debug json_text env (hooks n) budget 0 subresource key (patch_precondition yaml content_type body) mutate.

(** The patch of the whole object, then the strategy. *)
Definition patch_mutation (content_type body manager : string) (force : bool) (status : Strategy) (existing : Value) : option (result Value ApiError) :=
  let out := if negb (media_type content_type =? APPLY)%kube
             then Some (apply_patch_body Ops decode_ops run_ops merge yaml lossy existing content_type body)
             else match decoded (yaml body) "invalid apply patch" with
                  | Err e => Some (Err e)
                  | Ok applied =>
                      r ← server_side_apply merge existing applied manager now force;
                      Some match r with Ok v => Ok v | Err c => Err (apply_conflict c) end
                  end in
  r ← out;
  match r with Ok out => strategy_on_update debug json_text regex status out existing | Err e => Some (Err e) end.

(** Server-side apply of a missing object creates it. *)
Definition upsert (n : nat) (key resource name : string) (namespace : option string) (body manager : string) (status : Strategy) : M S (result Value ApiError) :=
  applied <~ mlift (decoded (yaml body) "invalid apply patch");;
  r <~ mget (server_side_apply merge (Object []) applied manager now true);;
  obj <~ mget match r with Ok v => Some v | Err _ => None end;;
  let obj := ensure_metadata (drawn (2 * n)) name namespace obj in
  obj <~ match namespace with Some ns => admission resource (Some ns) obj | None => mret obj end;;
  store_or_release resource obj (store_new n status resource name namespace key obj).

(** The loop: an upsert that found the object created meanwhile tries again,
    [retries] times. *)
Fixpoint patch_loop (retries n : nat) (budgets : nat → list bool) (key resource name : string) (namespace : option string)
    (content_type body manager : string) (force : bool) (status : Strategy) : M S Value :=
  patched <~ mtry (guaranteed_patch n (budgets n) None key content_type body (patch_mutation content_type body manager force status));;
  match patched with
  | Ok v => mret v
  | Err e =>
      if (media_type content_type =? APPLY)%kube && (ApiError.status e =? 404) then
        created <~ upsert n key resource name namespace body manager status;;
        match created, retries with
        | Err e, Datatypes.S retries =>
            if (reason e =? "AlreadyExists")%kube
            then patch_loop retries (n + 1) budgets key resource name namespace content_type body manager force status
            else mraise e
        | created, _ => mlift created
        end
      else mraise e
  end.

Definition patch_stored_object (budgets : nat → list bool) (key resource name : string) (namespace : option string)
    (content_type : string) (query : list (string * string)) (body : string) (status : Strategy) : M S Value :=
  let '(manager, force) := apply_params query in
  match (if (media_type content_type =? APPLY)%kube && strict status then yaml_duplicate lossy body else None) with
  | Some dup => mraise (bad_request ("error decoding YAML: yaml: unmarshal errors:" ++ String "010" "  " ++ dup))
  | None => patch_loop 3 0 budgets key resource name namespace content_type body manager force status
  end.

Definition patch_cluster_resource (budgets : nat → list bool) (resource name content_type : string) (query : list (string * string)) (body : string) : M S Value :=
  patch_stored_object budgets (cluster_key resource name) resource name None content_type query body BuiltIn.

Definition patch_namespaced_resource (budgets : nat → list bool) (namespace resource name content_type : string) (query : list (string * string)) (body : string) : M S Value :=
  patch_stored_object budgets (namespaced_key resource namespace name) resource name (Some namespace) content_type query body BuiltIn.

(** PATCH of [/status]. *)
Definition patch_status (budget : list bool) (key content_type body : string) : M S Value :=
  guaranteed_patch 0 budget (Some "status") key content_type body
    (λ existing, apply_status_patch Ops decode_ops run_ops existing content_type body).

Definition patch_cluster_status (budget : list bool) (resource name content_type body : string) : M S Value :=
  patch_status budget (cluster_key resource name) content_type body.
Definition patch_namespaced_status (budget : list bool) (namespace resource name content_type body : string) : M S Value :=
  patch_status budget (namespaced_key resource namespace name) content_type body.
End Handlers.

(** ** Theorems: identity *)

Lemma fill_unset_get meta k v k' :
  map_get (fill_unset meta k v) k' =
    if (k' =? k)%kube then (if unset_str (default Null (map_get meta k)) then Some (Str v) else map_get meta k) else map_get meta k'.
Proof.
  unfold fill_unset. destruct (k' =? k)%kube eqn:E.
  - apply str_eqb_eq in E as ->. destruct (unset_str _); [by rewrite map_get_insert_eq|done].
  - apply str_eqb_neq in E. destruct (unset_str _); [by rewrite map_get_insert_ne|done].
Qed.

(** The object of a create, after [ensure_metadata]. *)
Lemma ensure_metadata_spec drawn name namespace obj :
  is_object obj = true →
  let obj' := ensure_metadata drawn name namespace obj in
  (∀ k, k ≠ "metadata" → obj'.[k] = obj.[k]) ∧
  (∀ n, obj.["metadata"].["name"] = Str n → obj'.["metadata"].["name"] = Str n) ∧
  (∀ ns, namespace = Some ns → obj'.["metadata"].["namespace"] = if unset_str obj.["metadata"].["namespace"] then Str ns else obj.["metadata"].["namespace"]) ∧
  (drawn.1 ≠ "" → unset_str obj'.["metadata"].["uid"] = false) ∧
  is_object obj'.["metadata"] = true.
Proof.
  intros Ho. destruct obj as [| | | | |root]; try done. cbn zeta. unfold ensure_metadata.
  set (meta0 := match map_get root "metadata" with Some (Object m) => m | _ => [] end).
  set (meta1 := if contains_key meta0 "name" then meta0 else _). set (meta2 := match namespace with Some ns => _ | None => meta1 end).
  assert (∀ k, (Object root).["metadata"].[k] = default Null (map_get meta0 k)) as H0.
  { intros k. unfold index at 1, index, meta0. cbn [Json.get]. by destruct (map_get root "metadata") as [[]|]. }
  assert (∀ k, k ≠ "name" → map_get meta1 k = map_get meta0 k) as H1.
  { intros k Hk. unfold meta1. destruct (contains_key meta0 "name"); [done|by rewrite map_get_insert_ne]. }
  assert (∀ k, k ≠ "namespace" → map_get meta2 k = map_get meta1 k) as H2.
  { intros k Hk. unfold meta2. destruct namespace; [|done]. rewrite fill_unset_get. apply str_eqb_neq in Hk. by rewrite Hk. }
  set (meta4 := fill_unset _ "creationTimestamp" _).
  assert (∀ k, (Object (map_insert root "metadata" (Object meta4))).["metadata"].[k] = default Null (map_get meta4 k)) as H4.
  { intros k. unfold index at 1, index. cbn [Json.get]. by rewrite map_get_insert_eq. }
  split_and!.
  - intros k Hk. unfold index, Json.get. by rewrite map_get_insert_ne.
  - intros n Hn. rewrite H4. unfold meta4. rewrite !fill_unset_get. cbn [str_eqb String.eqb Ascii.eqb Bool.eqb]. rewrite H2 by done.
    rewrite H0 in Hn. unfold meta1, contains_key. destruct (map_get meta0 "name") as [v|] eqn:E; [by rewrite E|done].
  - intros ns Hns. rewrite H4. unfold meta4. rewrite !fill_unset_get. cbn [str_eqb String.eqb Ascii.eqb Bool.eqb]. unfold meta2. rewrite Hns.
    rewrite fill_unset_get, str_eqb_refl, H0, H1 by done. by destruct (unset_str _).
  - intros Hd. rewrite H4. unfold meta4. rewrite !fill_unset_get. cbn [str_eqb String.eqb Ascii.eqb Bool.eqb].
    destruct (unset_str (default Null (map_get meta2 "uid"))) eqn:E; [|done]. cbn. by destruct drawn.1.
  - unfold index, Json.get. by rewrite map_get_insert_eq.
Qed.

Lemma object_name_spec uuid body body' name :
  object_name uuid body = Some (Ok (body', name)) →
  body'.["metadata"].["name"] = Str name ∧ body'.["metadata"].["namespace"] = body.["metadata"].["namespace"] ∧
  (body.["metadata"].["name"] = Str name ∨ ∃ g, body.["metadata"].["generateName"] = Str g ∧ name = g ++ name_suffix uuid).
Proof.
  unfold object_name. destruct (is_empty_str (str_or "" body.["metadata"].["name"])) eqn:En; cbn [negb].
  - destruct (is_empty_str (str_or "" body.["metadata"].["generateName"])) eqn:Eg; [done|].
    destruct (ensure_object body "metadata") as [b1|] eqn:E1; cbn [mbind option_bind]; [|done].
    destruct (set_index2 b1 "metadata" "name" _) as [b2|] eqn:E2; cbn [mbind option_bind]; [|done]. intros [= <- <-].
    destruct (ensure_object_spec _ _ _ E1) as (_ & _ & Hs). split_and!.
    + by apply index2_set_index2 in E2.
    + by rewrite (index2_set_index2_ne _ _ _ _ _ "namespace" E2), Hs.
    + right. destruct body.["metadata"].["generateName"] as [| | |g| |]; try done. by exists g.
  - intros [= <- <-]. assert (body.["metadata"].["name"] = Str (str_or "" body.["metadata"].["name"])) as Hn by (by destruct body.["metadata"].["name"]).
    split_and!; [done..|by left].
Qed.

Lemma insert_at_spec obj k x y :
  is_object obj.[k] = true →
  (insert_at obj k x y).[k].[x] = y ∧ (∀ f, f ≠ x → (insert_at obj k x y).[k].[f] = obj.[k].[f]) ∧ (∀ k', k' ≠ k → (insert_at obj k x y).[k'] = obj.[k']).
Proof.
  intros Ho. unfold insert_at. destruct obj as [| | | | |m]; try done. unfold index in *. cbn [Json.get] in *.
  destruct (map_get m k) as [[| | | | |inner]|] eqn:E; try done. cbn [Json.get]. split_and!.
  - rewrite map_get_insert_eq. cbn. by rewrite map_get_insert_eq.
  - intros f Hf. rewrite map_get_insert_eq. cbn. by rewrite map_get_insert_ne.
  - intros k' Hk. by rewrite map_get_insert_ne.
Qed.

Section CreateTheorems.
  Context {S : Type} `{KvStore S} `{JsonCodec} `{Chrono}.
  Variables (float_text display fixed6 : f64 → string).
  Variables (base64 debug : string → string) (json_text : Value → string) (regex : string → option (string → bool)).
  Variables (env : Env) (quotas : @Envs S) (stamp : nat → string) (suffix : string).
  Variables (drawn : nat → string * string) (h_create : nat → Value → result Value ApiError).
  Implicit Types w : World S.

Notation create_in := (create_namespaced_resource float_text display fixed6 base64 debug json_text regex env quotas stamp suffix drawn h_create).

(** The webhooks leave a Pod's spec and identity as they are. *)
Definition hooks_tame : Prop := ∀ n o o', h_create n o = Ok o' →
  o'.["spec"] = o.["spec"] ∧ ∀ f, f ∈ ["name"; "namespace"] → o'.["metadata"].[f] = o.["metadata"].[f].

Lemma namespace_lifecycle_Ok ns w w' nsobj :
  namespace_lifecycle ns w = (w', Some (Ok nsobj)) →
  Storage.get (st (meanwhile w)) (cluster_key "namespaces" ns) = Some (Ok nsobj) ∧ nsobj.["status"].["phase"] ≠ Str "Terminating".
Proof.
  unfold namespace_lifecycle. intros E. apply mthen_Ok in E as (w1 & r & E1 & E). apply mtry_inv in E1 as (x & [= <-] & E1).
  unfold s_get in E1. injection E1 as <- Hg. destruct r as [o|e]; [|by destruct (status e =? 404)].
  destruct (str_is o.["status"].["phase"] "Terminating") eqn:Et; [done|]. injection E as _ <-. split; [done|]. intros Hp. by rewrite Hp in Et.
Qed.

Lemma admit_pods ns obj w w' obj' :
  admit_create float_text display fixed6 base64 debug json_text env quotas stamp suffix "pods" (Some ns) obj w = (w', Some (Ok obj')) →
  ∃ nsobj, Storage.get (st (meanwhile w)) (cluster_key "namespaces" ns) = Some (Ok nsobj) ∧ nsobj.["status"].["phase"] ≠ Str "Terminating" ∧
    pod_kept (numbers_to_strings float_text "pods" obj).1 obj' ∧ secure (enforce_level nsobj) obj'.["spec"].
Proof.
  unfold admit_create. intros E. apply mthen_Ok in E as (w1 & r & E1 & E). cbn [str_eqb String.eqb Ascii.eqb Bool.eqb] in E1.
  apply mthen_Ok in E1 as (w1' & nsobj & En & E1). injection E1 as <- <-. apply namespace_lifecycle_Ok in En as [Hg Ht].
  repeat match type of E with
  | mthen (when _ _ _) _ _ = _ => let w := fresh "w" in let o := fresh "o" in let E1 := fresh "E" in
      apply mthen_Ok in E as (w & o & E1 & E); cbv [when orb str_eqb String.eqb Ascii.eqb Bool.eqb] in E1; first [injection E1 as <- <-|apply admit_pod_Ok in E1]
  end.
  apply mthen_Ok in E as (w2 & [] & _ & E). injection E as _ <-. exists nsobj. destruct E0 as [Hk Hs]. split_and!; try done. by apply Hs.
Qed.

(** C10: A Pod that a POST creates was admitted as it is stored, provided the
    webhooks leave its spec, name and namespace as they are (the checks are not
    repeated after them, see [webhook_escapes_pod_security] and
    [webhook_moves_the_object]) and no drawn uid is empty.  The namespace read
    was not terminating, and the stored spec satisfies what the handler checks
    of the security level that namespace enforces (ephemeral containers are not
    checked, see [ephemeral_containers_escape_pod_security]); the Pod is stored
    under the name the client gave or the server generated, in the namespace of
    the URL, with a uid and generation 1, by a write that requires the key to be
    unused. *)
Theorem created_pod_admitted uuid ns body w w' out :
  hooks_tame → (∀ n, (drawn n).1 ≠ "") →
  create_in uuid ns "pods" body w = (w', Some (Ok out)) →
  ∃ name nsobj sw obj,
    (body.["metadata"].["name"] = Str name ∨ ∃ g, body.["metadata"].["generateName"] = Str g ∧ name = g ++ name_suffix uuid) ∧
    Storage.get (st (meanwhile w)) (cluster_key "namespaces" ns) = Some (Ok nsobj) ∧ nsobj.["status"].["phase"] ≠ Str "Terminating" ∧
    secure (enforce_level nsobj) obj.["spec"] ∧
    obj.["metadata"].["name"] = Str name ∧ obj.["metadata"].["namespace"] = Str ns ∧ unset_str obj.["metadata"].["uid"] = false ∧
    obj.["metadata"].["generation"] = num_i64 1 ∧
    create float_text sw (namespaced_key "pods" ns name) obj = (st w', Some (Ok out)).
Proof.
  intros Hh Hd E. unfold create_namespaced_resource in E.
  apply mthen_Ok in E as (w1 & r & E1 & E). apply mget_Ok in E1 as [-> E1]. apply mthen_Ok in E as (w1 & [b0 name] & E2 & E). apply mlift_Ok in E2 as [-> ->].
  destruct (object_name_spec _ _ _ _ E1) as (Hn0 & Hns0 & Hname).
  apply mthen_Ok in E as (w1 & [] & E2 & E). apply mlift_Ok in E2 as [-> E2].
  assert (∀ o n, o.["metadata"].["name"] = Str n → is_object o = true) as Hobj by (intros o n Ho; by destruct o).
  pose proof (ensure_metadata_spec (drawn 0) name (Some ns) b0 (Hobj _ _ Hn0)) as (_ & Hb1 & Hb2 & _). cbn zeta in *.
  set (b1 := ensure_metadata _ _ _ b0) in *. specialize (Hb1 _ Hn0).
  assert (b1.["metadata"].["namespace"] = Str ns) as Hb1ns.
  { rewrite (Hb2 ns eq_refl). unfold check_body_namespace in E2. destruct b0.["metadata"].["namespace"] as [| | |n| |]; try done.
    cbn [str_or default as_str from_option id] in E2. destruct n as [|c n]; [done|]. cbn [is_empty_str negb andb unset_str as_str] in *.
    destruct (String c n =? ns)%kube eqn:En; [|done]. by apply str_eqb_eq in En as <-. }
  apply mthen_Ok in E as (w2 & b2 & E3 & E). apply admit_pods in E3 as (nsobj & Hget & Hterm & Hkept & Hsec).
  assert (∀ f s, f ≠ "annotations" → b1.["metadata"].[f] = Str s → b2.["metadata"].[f] = Str s) as Hb2f.
  { intros f s Hf Hs. rewrite Hkept, numbers_plain2 by (rewrite ?Hs; done). done. }
  apply mthen_Ok in E as (w3 & created & E4 & E). apply mlift_Ok in E as [-> ->]. unfold store_or_release in E4.
  apply mthen_Ok in E4 as (w4 & c & E5 & E4). apply mthen_Ok in E4 as (w5 & [] & E6 & E4). injection E4 as <- ->. injection E6 as <-.
  apply mtry_inv in E5 as (x & [= <-] & E5). unfold store_new in E5. apply mthen_Ok in E5 as (w6 & b3 & E6 & E5). apply mlift_Ok in E6 as [-> E6].
  destruct (Hh _ _ _ E6) as [Hspec Hmeta].
  assert (b3.["metadata"].["name"] = Str name) as Hn3 by (rewrite Hmeta by set_solver; by apply Hb2f).
  assert (b3.["metadata"].["namespace"] = Str ns) as Hns3 by (rewrite Hmeta by set_solver; by apply Hb2f).
  apply mthen_Ok in E5 as (w7 & b4 & E7 & E5). injection E7 as <- <-.
  pose proof (ensure_metadata_spec (drawn (2 * 0 + 1)) name (Some ns) b3 (Hobj _ _ Hn3)) as (Hk & Hm1 & Hm2 & Hm3 & Hm4). cbn zeta in *.
  set (b4 := ensure_metadata _ _ _ b3) in *. destruct (insert_at_spec b4 "metadata" "generation" (num_i64 1) Hm4) as (Hg & Hgm & Hgk).
  unfold s_create in E5. destruct (create _ _ _ _) as [s' r'] eqn:Ec. injection E5 as <- ->.
  exists name, nsobj, (st (meanwhile w2)), (on_create "pods" b4). unfold on_create in *. cbn [tracks str_eqb String.eqb Ascii.eqb Bool.eqb] in *. split_and!; try done.
  - by rewrite Hgk, Hk, Hspec.
  - rewrite Hgm by done. by apply Hm1.
  - rewrite Hgm by done. rewrite (Hm2 ns eq_refl), Hns3. by destruct (unset_str (Str ns)).
  - rewrite Hgm by done. by apply Hm3.
Qed.
End CreateTheorems.

(** ** Witness *)

Module CreateDemo.
#[export] Existing Instance Demo.codec.
#[export] Existing Instance Gregorian.chrono.

Definition text (_ : f64) : string := "0".
Definition store (level : string) : MemStore.t := (create text Demo.store0 (cluster_key "namespaces" "default")
  (json_obj [("kind", Str "Namespace");
     ("metadata", json_obj [("labels", json_obj [("pod-security.kubernetes.io/enforce", Str level)]); ("name", Str "default")]);
     ("status", json_obj [("phase", Str "Active")])])).1.
Definition quiet : @Envs MemStore.t := mkEnvs (λ _ _, id) (λ _ _, id) (λ _ _, id) (λ _ _, id).
Definition drawn (n : nat) : string * string := ("uid-" ++ show_u (Z.of_nat n), "2026-01-01T00:00:00Z").
Definition pod (container : list (string * Value)) : Value :=
  json_obj [("kind", Str "Pod"); ("metadata", json_obj [("generateName", Str "web-")]);
            ("spec", json_obj [("containers", Array [json_obj (("name", Str "c") :: container)])])].
Definition create_pod (h : nat → Value → result Value ApiError) (level : string) (body : Value) :=
  create_namespaced_resource text text text id id (λ _, "") (λ _, None) HandlerDemo.env quiet (λ _, "") "abcde" drawn h
    [1; 2; 3; 4; 5; 6] "default" "pods" body (mkWorld (store level) []).
Definition kept (_ : nat) (o : Value) : result Value ApiError := Ok o.
End CreateDemo.
#[local] Existing Instance Demo.codec.
#[local] Existing Instance Gregorian.chrono.

Lemma created_pod_admitted_witness :
  ∃ out w' obj sw, CreateDemo.create_pod CreateDemo.kept "baseline" (CreateDemo.pod []) = (w', Some (Ok out)) ∧
    create CreateDemo.text sw (namespaced_key "pods" "default" "web-cdfgh") obj = (st w', Some (Ok out)) ∧ secure "baseline" obj.["spec"].
Proof.
  do 2 eexists. assert (CreateDemo.create_pod CreateDemo.kept "baseline" (CreateDemo.pod []) = (_, Some (Ok _))) as E by (vm_compute; reflexivity).
  destruct (created_pod_admitted CreateDemo.text CreateDemo.text CreateDemo.text id id (λ _, "") (λ _, None) HandlerDemo.env CreateDemo.quiet (λ _, "")
    "abcde" CreateDemo.drawn CreateDemo.kept [1; 2; 3; 4; 5; 6] "default" (CreateDemo.pod []) _ _ _
    ltac:(by intros n o o' [= <-]) ltac:(done) E) as (name & nsobj & sw & obj & Hname & Hget & _ & Hsec & _ & _ & _ & _ & Hc).
  exists obj, sw. split; [exact E|]. destruct Hname as [Hn|(g & [= <-] & ->)]; [vm_compute in Hn; discriminate Hn|]. split; [exact Hc|].
  assert (enforce_level nsobj = "baseline") as <-; [|exact Hsec].
  vm_compute in Hget. injection Hget as <-. reflexivity.
Defined.

(** ** What the code does not exclude *)

Module CreateGaps.
Import CreateDemo.

(** The level is enforced before the webhooks run: one that adds a privileged
    container is not looked at again. *)
Definition inject (_ : nat) (o : Value) : result Value ApiError :=
  match set_index2 o "spec" "containers" (Array [json_obj [("securityContext", json_obj [("privileged", Bool true)])]]) with Some o => Ok o | None => Ok o end.
Definition stored_privileged (r : World MemStore.t * option (result Value ApiError)) : bool :=
  match r.2 with
  | Some (Ok out) => existsb (λ c, is_true c.["securityContext"].["privileged"]) (items out.["spec"].["containers"] ++ items out.["spec"].["ephemeralContainers"])
  | _ => false
  end.
Example webhook_escapes_pod_security : stored_privileged (create_pod inject "restricted" (pod
  [("securityContext", json_obj [("allowPrivilegeEscalation", Bool false); ("capabilities", json_obj [("drop", Array [Str "ALL"])]); ("runAsNonRoot", Bool true)])])) = true.
Proof. vm_compute. reflexivity. Qed.

(** [spec.ephemeralContainers] are not looked at either. *)
Definition ephemeral : Value := default Null (set_index2 (pod []) "spec" "ephemeralContainers"
  (Array [json_obj [("name", Str "dbg"); ("securityContext", json_obj [("privileged", Bool true)])]])).
Example ephemeral_containers_escape_pod_security : stored_privileged (create_pod kept "baseline" ephemeral) = true.
Proof. vm_compute. reflexivity. Qed.

(** A webhook that renames the object: stored under one name, called another. *)
Definition rename (_ : nat) (o : Value) : result Value ApiError :=
  match set_index2 o "metadata" "name" (Str "other") with Some o => Ok o | None => Ok o end.
Example webhook_moves_the_object :
  match create_pod rename "" (pod []) with
  | (w, Some (Ok out)) => contains_key (view (st w)) (namespaced_key "pods" "default" "web-cdfgh") = true ∧ out.["metadata"].["name"] = Str "other"
  | _ => False
  end.
Proof. vm_compute. done. Qed.

(** Server-side apply of a missing object: the body's name and namespace are
    not held against the URL. *)
Definition applied : Value := json_obj [("apiVersion", Str "v1"); ("kind", Str "ConfigMap"); ("metadata", json_obj [("name", Str "b"); ("namespace", Str "kube-system")])].
Definition apply_to (namespace : option string) (resource name : string) (body : Value) :=
  patch_stored_object text text text id id (λ _, "") (λ _, None) Value Ok (λ _ _, Err "") rfc7386 (λ _, Ok body) id HandlerDemo.env quiet (λ _, "") "abcde" drawn kept
    (λ _, HandlerDemo.hooks) "T" (λ _, []) (object_key resource namespace name) resource name namespace APPLY [] "" BuiltIn (mkWorld (store "") []).
Example apply_creates_a_misnamed_object :
  match apply_to (Some "default") "configmaps" "a" applied with
  | (w, Some (Ok out)) =>
      contains_key (view (st w)) (namespaced_key "configmaps" "default" "a") = true ∧
      out.["metadata"].["name"] = Str "b" ∧ out.["metadata"].["namespace"] = Str "kube-system"
  | _ => False
  end.
Proof. vm_compute. done. Qed.

(** ... and of a cluster-scoped one: built-in admission does not run, and a
    Namespace created this way has no phase. *)
Example apply_skips_cluster_admission :
  match apply_to None "namespaces" "dev" (json_obj [("kind", Str "Namespace")]) with
  | (_, Some (Ok out)) => out.["status"].["phase"] = Null ∧ out.["spec"].["finalizers"] = Null
  | _ => False
  end.
Proof. vm_compute. done. Qed.

(** A Service the quota refuses: its ClusterIP was claimed and is not given
    back. *)
Definition no_services : MemStore.t := (create text (store "") (namespaced_key "resourcequotas" "default" "q")
  (json_obj [("metadata", json_obj [("name", Str "q")]); ("spec", json_obj [("hard", json_obj [("services", Str "0")])]);
             ("status", json_obj [("hard", json_obj [("services", Str "0")]); ("used", json_obj [("services", Str "0")])])])).1.
Definition create_service :=
  create_namespaced_resource text text text id id (λ _, "") (λ _, None) HandlerDemo.env quiet (λ _, "") "abcde" drawn kept
    [] "default" "services" (json_obj [("kind", Str "Service"); ("metadata", json_obj [("name", Str "web")]);
                                       ("spec", json_obj [("ports", Array [json_obj [("port", num_i64 80)]])])]) (mkWorld no_services []).
Example quota_refusal_leaks_the_address :
  match create_service with
  | (w, Some (Err e)) => status e = 403 ∧ length (view (st w)) = Datatypes.S (length (view no_services))
  | _ => False
  end.
Proof. vm_compute. done. Qed.
End CreateGaps.
